(* ===== verification/_CoqProject ===== *)
-Q . S2P
Prelude.v
Util.v
SmallClass.v
Quota.v
QuotaLessor.v
Lifo.v
LfLifo.v
Rlist.v
RlistEntry.v
Rb.v
RbCompact.v
RbUpdate.v
RbQuery.v
SlabArena.v
ArenaMt.v
SmallFeatures.v
SlabSource.v
SlabCache.v
Mempool.v
Small.v
SmallAlloc.v
SmallCreate.v
SmallProps.v
Bytes.v
SlabClient.v
Ibuf.v
Region.v
Obuf.v
Lsregion.v
Static.v
Matras.v
MatrasTree.v
MatrasInv.v
MatrasOps.v
MatrasFree.v
MatrasViews.v
MatrasDestroy.v
MatrasSpec.v
MatrasProps.v
Asan.v
AsanPools.v
AsanRegion.v
AsanLsregion.v
AsanObuf.v
AsanIbuf.v
