(* ===== verification/Prelude.v ===== *)
(** * Verification of the [small] allocators

    [small] is a C library of memory allocators that share one source of memory.
    A [quota] limits it; a [slab_arena] takes large aligned slabs from the
    operating system under that quota and recycles them through a lock-free
    stack, [lf_lifo]; a [slab_cache] per thread splits and merges the slabs of
    the arena as a buddy system; on top of it are the allocators a program uses:
    [mempool] (objects of one size), [small] (objects of any size, over pools of
    the classes of [small_class]), [region] (stack-like), [ibuf] and [obuf]
    (input and output buffers).  [lsregion], a log of chunks freed by age, takes
    its slabs from the arena itself; [static] is a cyclic buffer of its own;
    [matras] keeps blocks of one size that are found by number, with read views
    that share memory with the current version until it changes.
    [rlist], [rb], [lifo] and the arithmetic of [util.h] and [small_class.h] are
    what they are built from.

    ** How the code is modelled

    A C function is a Rocq function of the same name.  Its state (the structs it
    reads and writes, through pointers) is passed in and returned; addresses are
    integers and [NULL] is 0; machine integers are integers with the wrap-around
    of their type written out ([u8] to [u64]).  The result is in [option]: [None]
    is an [assert] that fails, an access to memory that holds no object, or a
    loop that runs out of fuel.  Failures the code reports ([NULL], -1) are
    ordinary results.  So a theorem that a call returns [Some] says that no
    assertion fails, no memory is misused and every loop ends.  The build that is
    modelled is LP64 with assertions and without valgrind.

    The ASAN build replaces most allocators by ones that take every allocation
    from [malloc], with poison around it.  The functions of that build have the
    names of the code with the ending [_asan], after its files; they run on a
    memory of bytes, and their result distinguishes the end of the process when
    [malloc] fails ([Exit]) from a failed assertion or misused memory ([Abort]).

    Code outside the repository is a parameter: [mmap], [munmap], [madvise],
    [mprotect], [malloc] and [free] are operations of classes with laws
    ([SlabArena.OsLaws], [SlabArena.OsAdviceLaws], [SlabSource.HeapLaws]), so are
    the functions that give extents to [matras] ([MatrasInv.ExtentLaws]) and the
    runtime of the sanitizer ([Asan.AsanRtLaws]), and the mathematics library is
    an argument of [small_class_create].  [mmap], [munmap] and [malloc] may fail;
    that [munmap] of mapped pages does not, which [munmap_checked] asserts, is the
    separate assumption [SlabArena.OsMunmapOk] of the theorems that need it.  A
    concrete machine satisfies the laws, and the examples at the end of the files
    run on it.

    ** Files

    - [Prelude]: notation, machine integers, lemmas and automation.
    - [Util]: [util.h], alignment and rounding.
    - [SmallClass]: [small_class.h], [small_class.c], size classes.
    - [Quota]: [quota.h], as compare-and-swap loops of any number of threads.
    - [QuotaLessor]: [quota_lessor.h].
    - [Lifo]: [lifo.h].
    - [LfLifo]: [lf_lifo.h], as a transition system of memory accesses.
    - [Rlist]: [rlist.h], intrusive doubly linked lists in a heap of links.
      [RlistEntry]: its macros on the structures around the links, and its loops.
    - [Rb], [RbUpdate], [RbQuery]: [rb.h], the macros instantiated at a node type
      with augmentation; updates and queries.  [RbCompact]: the nodes of
      [RB_COMPACT], which keep the colour in a pointer.
    - [SlabArena]: [slab_arena.c], one call at a time, with the cache as a list.
    - [ArenaMt]: [slab_arena.c] run by threads, one access to shared memory per
      step, over [LfLifo] and [Quota].
    - [SmallFeatures]: [small_features.c].
    - [SlabSource]: what the slab cache asks of arena, quota and heap, as a class,
      with the instance made of them.
    - [SlabCache]: [slab_cache.c], [slab_cache.h], [slab_list.h].
    - [Mempool]: [mempool.c], [mempool.h], over [SlabCache] and [Rb].
    - [Small]: [small.c], [small.h], over [SmallClass] and [Mempool]; the layout
      of pools in groups.  [SmallAlloc]: its invariant with the objects handed
      out.  [SmallCreate]: creation.  [SmallProps]: what it promises.
    - [Bytes]: contents of memory.
    - [SlabClient]: the slab cache as its clients see it.
    - [Ibuf]: [ibuf.c], [ibuf.h].
    - [Region]: [region.c], [region.h].
    - [Obuf]: [obuf.c], [obuf.h].
    - [Lsregion]: [lsregion.c], [lsregion.h], over [SlabSource].
    - [Static]: [static.h], [static.c].
    - [Matras]: [matras.c], [matras.h].  [MatrasTree]: the trees of extents of
      the views, how they share them, and what a copy, a new or a removed block
      does to them.  [MatrasInv]: the invariant.  [MatrasOps]: touching,
      reserving and allocating.  [MatrasFree]: writing and deallocating.
      [MatrasViews]: creating and unlinking read views.  [MatrasDestroy]: the
      loops that free what a view leaves.  [MatrasSpec]: the vector with
      snapshots that it refines.  [MatrasProps]: what it promises.
    - [Asan]: the allocation helpers of [util.c] and [util.h] for the ASAN build;
      chunks.  [AsanPools]: [slab_arena_asan], [slab_cache_asan], [mempool_asan]
      and [small_asan].  [AsanRegion], [AsanLsregion], [AsanObuf]: [region_asan],
      [lsregion_asan] and [obuf_asan].  [AsanIbuf]: [ibuf.c] and [ibuf.h] again,
      which the ASAN build compiles over [slab_cache_asan], with their poisoning.

    ** What the theorems show

    - Slab cache: every slab handed out is aligned, large enough and apart from
      all others; after any calls, slabs put back are merged completely;
      statistics are right at any time; destruction returns all memory and quota.
    - Pools: objects do not overlap, any object can be freed in any state of its
      slab, allocation fails only when the slab cache was asked and had nothing;
      the lists and the tree of slabs stay consistent.
    - Objects of any size: memory handed out is large enough and apart from all
      other, also when it comes from a larger pool of the group or from a slab of
      its own; any object can be freed with its size; the waste counters cover
      the waste; creation, statistics and destruction.
    - Concurrency: the quota is linearizable; the lock-free stack is, as long as
      no pop succeeds 2^16 or more pushes after it read the head, and an execution
      without that condition is shown to give one element to two threads.  Under
      the same condition the arena is safe under any interleaving of the accesses
      of its calls, of recycled slabs and of other users of the quota, and its
      accounts are exact.
    - Trees and lists: the operations refine those of sorted lists and of
      families of lists, with balance, order and augmentation as invariants.
      Loops over entries visit each once, the safe ones also when they remove it;
      compact tree nodes behave like the others.
    - Buffers and regions: [ibuf] is a queue of bytes, [obuf] a sequence of bytes
      with savepoints, [region] a stack of bytes whose addresses never change;
      data is followed byte by byte through every move.
    - Log-structured region: chunks are appended in order at addresses of their
      own, a collection frees no chunk newer than its identifier, a flush covers
      every byte once, a reservation is kept.
    - Blocks with versions: [matras] is a vector of blocks with snapshots that
      never change, whatever is shared; a reservation is enough for the touches
      it was made for; creation and destruction give back every extent, unless a
      newer view that has grown is destroyed before an older one, where an
      example loses an extent.
    - ASAN build: a chunk has its payload aligned exactly, header and payload are
      found from each other, and a write outside a payload is refused or found
      when the chunk is freed; objects of another allocator or of another size
      are refused; region, log and output buffer keep their contents like the
      regular ones and give back every block they let go of ([asan_inv] says that
      no other block is in use), except for a join that ends inside an allocation,
      which is shown to return other bytes, and for flushes of equal identifiers,
      which are shown to leave allocations out.  The input
      buffer is the queue of the regular build and never trips the sanitizer; what
      lies behind its data is poisoned to the byte.
    - Arithmetic: alignment, rounding and size classes are exact, with the bounds
      within which they are.

    ** Bounds and fuel

    Loops over lists recurse on the list.  The loops of the slab cache go through
    at most 16 orders; the doubling loops of the buffers end or reach 0 within 65
    rounds ([grow]); [obuf_dup] visits each of 31 positions once; the paths of
    the tree have the length the code gives them, and [rb_insert_correct] and
    [rb_remove_correct] show it to be enough.  The allocator of [Small] makes at
    most 1024 pools, in groups of at most 32.  The loops of [matras] over the
    extents of a view make a round for each pointer of a table, which is enough
    as long as their 32-bit counters do not wrap around.  Sizes are bounded by
    what the quota can express; the theorems name the bound.  The loops of the
    ASAN build recurse on the list of allocations.

    ** Not modelled

    The poisoning and valgrind requests of the regular build, which do nothing
    there; the messages on the standard error; tests, benchmarks and build files;
    [pmatomic], whose atomic operations are single steps of the transition
    systems here; [third_party].  What is left of the headers are prototypes,
    inclusions and compiler attributes. *)
From stdpp Require Export base numbers list gmap.
From Stdlib Require Export ZArith Lia Bool.

#[global] Open Scope Z_scope.

(** ** Assertions and undefined behaviour

    A C function is a Rocq function into [option]: [None] stands for an
    [assert] that fails or an access to memory that holds no object.  Failure
    values of the code ([NULL], [-1]) are ordinary results. *)
Declare Scope small_scope.
Delimit Scope small_scope with small.
Notation "'ASSERT' b ; k" := (if b then k else None)
  (at level 10, b at level 99, k at level 200) : small_scope.
#[global] Open Scope small_scope.

Lemma assert_some {A} (b : bool) (k : option A) r :
  (ASSERT b; k) = Some r <-> b = true /\ k = Some r.
Proof. destruct b; intuition congruence. Qed.

(** The null pointer. *)
Abbreviation NULL := 0 (only parsing).

(** ** Machine integers

    A [w]-bit unsigned integer is a [Z] in [0, 2^w); every operation that can
    leave the range is followed by the wrap-around of its type. *)
Definition u8 (x : Z) : Z := x mod 2 ^ 8.
Definition u16 (x : Z) : Z := x mod 2 ^ 16.
Definition u32 (x : Z) : Z := x mod 2 ^ 32.
Definition u64 (x : Z) : Z := x mod 2 ^ 64.

Definition UINT32_MAX : Z := 2 ^ 32 - 1.
Definition SIZE_MAX : Z := 2 ^ 64 - 1.
Definition ULONG_MAX : Z := 2 ^ 64 - 1.
Definition CHAR_BIT : Z := 8.
(** [sizeof] of the types the code measures, on an LP64 platform. *)
Definition sizeof_ptr : Z := 8.
Definition sizeof_unsigned : Z := 4.
Definition sizeof_ulong : Z := 8.

(** Count of leading zeros of a non-zero value, [__builtin_clz] and
    [__builtin_clzl]; count of trailing zeros, [__builtin_ctz]. *)
Definition builtin_clz (x : Z) : Z := 31 - Z.log2 x.
Definition builtin_clzl (x : Z) : Z := 63 - Z.log2 x.
Definition builtin_ctz (x : Z) : Z := Z.log2 (Z.land x (- x)).
(** [__builtin_ffs]: one plus the index of the least set bit, 0 for 0. *)
Definition builtin_ffs (x : Z) : Z :=
  if x =? 0 then 0 else 1 + Z.log2 (Z.land x (- x)).

(** [in_u w x]: [x] is a value of a [w]-bit unsigned type. *)
Definition in_u (w x : Z) : Prop := 0 <= x < 2 ^ w.

(** Powers of two, in the form the code tests ([x & (x - 1)] is zero). *)
Definition pow2 (x : Z) : Prop := exists k, 0 <= k /\ x = 2 ^ k.
Definition pow2b (x : Z) : bool := Z.land x (x - 1) =? 0.

(** [aligned a x]: [x] is a multiple of [a]. *)
Definition aligned (a x : Z) : Prop := x mod a = 0.

(** ** Automation *)
Create HintDb small.

(** [lia] after the constants of the machine types are made explicit. *)
Ltac consts :=
  repeat match goal with
  | |- context [2 ^ 8] => change (2 ^ 8) with 256
  | |- context [2 ^ 16] => change (2 ^ 16) with 65536
  | |- context [2 ^ 32] => change (2 ^ 32) with 4294967296
  | |- context [2 ^ 64] => change (2 ^ 64) with 18446744073709551616
  | H : context [2 ^ 8] |- _ => change (2 ^ 8) with 256 in H
  | H : context [2 ^ 16] |- _ => change (2 ^ 16) with 65536 in H
  | H : context [2 ^ 32] |- _ => change (2 ^ 32) with 4294967296 in H
  | H : context [2 ^ 64] |- _ => change (2 ^ 64) with 18446744073709551616 in H
  end.

Ltac wordlia :=
  unfold in_u, u8, u16, u32, u64, UINT32_MAX, SIZE_MAX, ULONG_MAX in *;
  consts; Z.to_euclidean_division_equations; lia.

(** Boolean tests of the code, turned into propositions for [lia]. *)
Ltac bools :=
  repeat match goal with
  | H : (_ && _) = true |- _ => apply andb_true_iff in H as [? ?]
  | H : (_ && _) = false |- _ => apply andb_false_iff in H
  | H : (_ || _) = true |- _ => apply orb_true_iff in H
  | H : (_ || _) = false |- _ => apply orb_false_iff in H as [? ?]
  | H : negb _ = true |- _ => apply negb_true_iff in H
  | H : negb _ = false |- _ => apply negb_false_iff in H
  | H : (_ =? _) = true |- _ => apply Z.eqb_eq in H
  | H : (_ =? _) = false |- _ => apply Z.eqb_neq in H
  | H : (_ <? _) = true |- _ => apply Z.ltb_lt in H
  | H : (_ <? _) = false |- _ => apply Z.ltb_ge in H
  | H : (_ <=? _) = true |- _ => apply Z.leb_le in H
  | H : (_ <=? _) = false |- _ => apply Z.leb_gt in H
  | H : (_ >? _) = true |- _ => rewrite Z.gtb_ltb in H; apply Z.ltb_lt in H
  | H : (_ >? _) = false |- _ => rewrite Z.gtb_ltb in H; apply Z.ltb_ge in H
  | H : (_ >=? _) = true |- _ => rewrite Z.geb_leb in H; apply Z.leb_le in H
  | H : (_ >=? _) = false |- _ => rewrite Z.geb_leb in H; apply Z.leb_gt in H
  end.

(** Case analysis on the tests of a hypothesis that says how a function of the
    model returned. *)
Ltac cases H :=
  repeat match type of H with
  | context [if ?b then _ else _] => destruct b eqn:?
  | context [match ?o with Some _ => _ | None => _ end] => destruct o eqn:?
  end; simplify_eq.

(** ** Wrap-around *)
Lemma u32_small x : 0 <= x < 2 ^ 32 -> u32 x = x.
Proof. apply Z.mod_small. Qed.
Lemma u64_small x : 0 <= x < 2 ^ 64 -> u64 x = x.
Proof. apply Z.mod_small. Qed.
Lemma u16_small x : 0 <= x < 2 ^ 16 -> u16 x = x.
Proof. apply Z.mod_small. Qed.
Lemma u8_small x : 0 <= x < 2 ^ 8 -> u8 x = x.
Proof. apply Z.mod_small. Qed.
Lemma u32_range x : 0 <= u32 x < 2 ^ 32.
Proof. by apply Z.mod_pos_bound. Qed.
Lemma u64_range x : 0 <= u64 x < 2 ^ 64.
Proof. by apply Z.mod_pos_bound. Qed.
Lemma u16_range x : 0 <= u16 x < 2 ^ 16.
Proof. by apply Z.mod_pos_bound. Qed.
#[export] Hint Resolve u8_small u16_small u32_small u64_small : small.
#[export] Hint Resolve u16_range u32_range u64_range : small.
Create Rewrite HintDb small.
#[export] Hint Rewrite u8_small u16_small u32_small u64_small using lia : small.

(** ** Bits and powers of two *)
Lemma pow2_pos k : 0 <= k -> 0 < 2 ^ k.
Proof. intros. by apply Z.pow_pos_nonneg. Qed.
#[export] Hint Resolve pow2_pos : small.

Lemma pow2_spec_pos x : pow2 x -> 0 < x.
Proof. intros (k & ? & ->). by apply pow2_pos. Qed.

Lemma pow2_mono j k : 0 <= j <= k -> 2 ^ j <= 2 ^ k.
Proof. intros. apply Z.pow_le_mono_r; lia. Qed.

(** A low mask keeps the remainder, its complement drops it. *)
Lemma land_mask x k : 0 <= k -> Z.land x (2 ^ k - 1) = x mod 2 ^ k.
Proof. intros. by rewrite Z.sub_1_r, <- Z.ones_equiv, Z.land_ones. Qed.

Lemma land_not_mask x k :
  0 <= k -> Z.land x (Z.lnot (2 ^ k - 1)) = x - x mod 2 ^ k.
Proof.
  intros Hk. rewrite Z.sub_1_r, <- Z.ones_equiv.
  rewrite <- Z.ldiff_land, Z.ldiff_ones_r by done.
  rewrite Z.shiftl_mul_pow2, Z.shiftr_div_pow2 by done.
  pose proof (Z.div_mod x (2 ^ k)). specialize (H ltac:(apply Z.pow_nonzero; lia)).
  lia.
Qed.

(** The complement taken at 64 bits agrees with the unbounded one on a 64-bit
    operand. *)
Lemma land_u64_r x y : in_u 64 x -> Z.land x (u64 y) = Z.land x y.
Proof.
  intros [Hx1 Hx2]. unfold u64. rewrite <- Z.land_ones by lia.
  rewrite (Z.land_comm y), Z.land_assoc, Z.land_ones by lia.
  by rewrite Z.mod_small.
Qed.

Lemma pow2b_pow2 k : 0 <= k -> pow2b (2 ^ k) = true.
Proof.
  intros Hk. unfold pow2b. apply Z.eqb_eq.
  rewrite land_mask by done. apply Z.mod_same, Z.pow_nonzero; lia.
Qed.

Lemma pow2b_spec x : 0 < x -> pow2b x = true -> pow2 x.
Proof.
  intros Hx H%Z.eqb_eq. exists (Z.log2 x). split; [apply Z.log2_nonneg|].
  pose proof (Z.log2_spec x Hx) as [Hl Hu].
  destruct (decide (x = 2 ^ Z.log2 x)) as [|Hne]; [done|exfalso].
  assert (Hb : Z.testbit (Z.land x (x - 1)) (Z.log2 x) = true).
  { rewrite Z.land_spec, Z.bit_log2 by done. simpl.
    replace (Z.log2 x) with (Z.log2 (x - 1)).
    - apply Z.bit_log2. pose proof (pow2_pos (Z.log2 x) (Z.log2_nonneg _)). lia.
    - apply Z.log2_unique; [apply Z.log2_nonneg | lia]. }
  by rewrite H, Z.bits_0 in Hb.
Qed.

Lemma pow2b_iff x : 0 < x -> pow2b x = true <-> pow2 x.
Proof.
  intros Hx. split; [by apply pow2b_spec|]. intros (k & ? & ->). by apply pow2b_pow2.
Qed.

Lemma log2_pow2_id x : pow2 x -> 2 ^ Z.log2 x = x.
Proof. intros (k & Hk & ->). by rewrite Z.log2_pow2. Qed.

Lemma shiftl_mul x k : 0 <= k -> Z.shiftl x k = x * 2 ^ k.
Proof. apply Z.shiftl_mul_pow2. Qed.
Lemma shiftr_div x k : 0 <= k -> Z.shiftr x k = x / 2 ^ k.
Proof. apply Z.shiftr_div_pow2. Qed.

(** Disjoint bits: or is plus. *)
Lemma lor_add x y k : 0 <= k -> 0 <= y < 2 ^ k -> Z.lor (x * 2 ^ k) y = x * 2 ^ k + y.
Proof.
  intros Hk Hy. rewrite Z.lor_comm, <- Z.shiftl_mul_pow2 by done.
  assert (Hd : Z.land y (Z.shiftl x k) = 0).
  { apply Z.bits_inj'. intros n Hn. rewrite Z.land_spec, Z.bits_0.
    destruct (Z.lt_ge_cases n k).
    - rewrite Z.shiftl_spec_low by done. apply andb_false_r.
    - destruct (decide (y = 0)) as [->|]; [by rewrite Z.bits_0|].
      rewrite (Z.bits_above_log2 y); [done | lia |].
      apply Z.log2_lt_pow2; [lia|]. eapply Z.lt_le_trans; [apply Hy|].
      apply pow2_mono; lia. }
  rewrite <- Z.lxor_lor, <- Z.add_nocarry_lxor by done. apply Z.add_comm.
Qed.

Lemma log2_bounds x : 0 < x -> 2 ^ Z.log2 x <= x < 2 * 2 ^ Z.log2 x.
Proof.
  intros Hx. pose proof (Z.log2_spec x Hx).
  rewrite Z.pow_succ_r in H by apply Z.log2_nonneg. done.
Qed.

(** Two multiples of [m] less than [m] apart are ordered. *)
Lemma multiple_le m x y : 0 < m -> x mod m = 0 -> y mod m = 0 -> x < y + m -> x <= y.
Proof.
  intros Hm Hx Hy Hlt. apply Z.mod_divide in Hx as [a ->]; [|lia].
  apply Z.mod_divide in Hy as [b ->]; [|lia]. assert (a < b + 1) by nia. nia.
Qed.

(** ** Sums over lists *)
Definition zsum {A} (f : A -> Z) (l : list A) : Z := foldr (fun x s => f x + s) 0 l.

Lemma zsum_app {A} (f : A -> Z) l k : zsum f (l ++ k) = zsum f l + zsum f k.
Proof. induction l; simpl; lia. Qed.

Lemma zsum_insert {A} (f : A -> Z) l i x y :
  l !! i = Some x -> zsum f (<[i:=y]> l) = zsum f l - f x + f y.
Proof.
  revert i. induction l as [|z l IH]; intros [|i] Hi; simplify_eq/=; [lia|].
  rewrite (IH i Hi). lia.
Qed.

Lemma zsum_nonneg {A} (f : A -> Z) l : (forall x, x ∈ l -> 0 <= f x) -> 0 <= zsum f l.
Proof.
  induction l as [|x l IH]; simpl; intros H; [lia|].
  pose proof (H x ltac:(left)). specialize (IH ltac:(intros; apply H; by right)). lia.
Qed.

Lemma zsum_elem {A} (f : A -> Z) l i x :
  (forall x, x ∈ l -> 0 <= f x) -> l !! i = Some x -> f x <= zsum f l.
Proof.
  revert i. induction l as [|y l IH]; intros [|i] H Hi; simplify_eq/=.
  - pose proof (zsum_nonneg f l ltac:(intros; apply H; by right)). lia.
  - pose proof (H y ltac:(left)).
    specialize (IH i ltac:(intros; apply H; by right) Hi). lia.
Qed.

Lemma zsum_perm {A} (f : A -> Z) l k : l ≡ₚ k -> zsum f l = zsum f k.
Proof. induction 1; simpl; lia. Qed.

(** ** Filters *)

Lemma filter_none {A} (P : A -> Prop) `{!forall x, Decision (P x)} (e : list A) :
  (forall x, x ∈ e -> ~ P x) -> filter P e = [].
Proof.
  induction e as [|x e IH]; intros Hn; [done|]. rewrite filter_cons_False by (apply Hn; left).
  apply IH. intros. apply Hn. by right.
Qed.

Lemma filter_all {A} (P : A -> Prop) `{!forall x, Decision (P x)} (e : list A) :
  (forall x, x ∈ e -> P x) -> filter P e = e.
Proof.
  induction e as [|x e IH]; intros Hn; [done|]. rewrite filter_cons_True by (apply Hn; left).
  f_equal. apply IH. intros. apply Hn. by right.
Qed.

(** ** Word memory

    The fields of the linked structures: a finite map from addresses to words.
    Reading or writing an address outside the map is undefined. *)
Definition load (m : gmap Z Z) (a : Z) : option Z := m !! a.
Definition store (m : gmap Z Z) (a v : Z) : option (gmap Z Z) :=
  match m !! a with Some _ => Some (<[a := v]> m) | None => None end.

Lemma store_some m a v : is_Some (m !! a) -> store m a v = Some (<[a := v]> m).
Proof. unfold store. by intros [x ->]. Qed.

(** ** Removal from a list

    [rlist_del] on the list an element is in: the element must be there. *)
Fixpoint list_remove (x : Z) (l : list Z) : option (list Z) :=
  match l with
  | [] => None
  | y :: l => if x =? y then Some l else l ← list_remove x l; Some (y :: l)
  end.

Lemma list_remove_elem x l : x ∈ l -> exists l', list_remove x l = Some l' /\ l ≡ₚ x :: l'.
Proof.
  induction l as [|y l IH]; [by intros ?%elem_of_nil|]. intros Hx. cbn [list_remove].
  destruct (Z.eqb_spec x y) as [->|Hne]; [by exists l|].
  apply elem_of_cons in Hx as [->|Hx]; [done|]. destruct (IH Hx) as (l' & -> & Hp).
  exists (y :: l'). split; [done|]. rewrite Hp. constructor.
Qed.

(** ** Aligned blocks *)
Lemma mod_multiple x a b : 0 < a -> 0 < b -> b mod a = 0 -> x mod b = 0 -> x mod a = 0.
Proof.
  intros Ha Hb [c Hc]%Z.mod_divide [d Hd]%Z.mod_divide; [|lia..].
  apply Z.mod_divide; [lia|]. exists (d * c). lia.
Qed.

Lemma mod_pow_le x a b : 0 <= a <= b -> x mod 2 ^ b = 0 -> x mod 2 ^ a = 0.
Proof.
  intros Hab Hx. apply (mod_multiple x (2 ^ a) (2 ^ b)); [apply pow2_pos; lia..| |done].
  replace b with ((b - a) + a) by lia. rewrite Z.pow_add_r by lia.
  apply Z.mod_mul. pose proof (pow2_pos a ltac:(lia)). lia.
Qed.

Lemma mod_add_self x n : 0 < n -> x mod n = 0 -> (x + n) mod n = 0 /\ (x - n) mod n = 0.
Proof.
  intros Hn [i ->]%Z.mod_divide; [|lia].
  replace (i * n + n) with ((i + 1) * n) by lia. replace (i * n - n) with ((i - 1) * n) by lia.
  rewrite !Z.mod_mul by lia. done.
Qed.

(** Of two aligned blocks that meet, the smaller lies in the larger. *)
Lemma aligned_nested p q a b x :
  0 <= a <= b -> p mod 2 ^ a = 0 -> q mod 2 ^ b = 0 ->
  p <= x < p + 2 ^ a -> q <= x < q + 2 ^ b -> q <= p /\ p + 2 ^ a <= q + 2 ^ b.
Proof.
  intros Hab Hp Hq Hx Hy. pose proof (pow2_pos a ltac:(lia)) as Ha.
  assert (Hqa : q mod 2 ^ a = 0) by (by apply (mod_pow_le q a b)).
  assert (Hba : 2 ^ b mod 2 ^ a = 0) by (apply (mod_pow_le _ a b); [lia|apply Z.mod_same; lia]).
  split; [apply (multiple_le (2 ^ a)); (done || lia)|].
  assert (p <= q + 2 ^ b - 2 ^ a); [|lia]. apply (multiple_le (2 ^ a)); [done|done| |lia].
  rewrite Zminus_mod, Z.add_mod, Hqa, Hba, Z.mod_same by lia. apply Z.mod_0_l. lia.
Qed.

Lemma lxor_1 i : Z.lxor i 1 = if Z.even i then i + 1 else i - 1.
Proof.
  assert (He : forall j, Z.lxor (2 * j) 1 = 2 * j + 1).
  { intros j. symmetry. apply Z.add_nocarry_lxor. change 1 with (Z.ones 1) at 1. rewrite Z.land_ones by lia.
    rewrite Z.mul_comm. apply Z.mod_mul. lia. }
  destruct (Z.even i) eqn:E.
  - apply Z.even_spec in E as [j ->]. apply He.
  - rewrite <- Z.negb_odd in E. apply negb_false_iff, Z.odd_spec in E as [j ->].
    rewrite <- He, Z.lxor_assoc, Z.lxor_nilpotent, Z.lxor_0_r. rewrite He. lia.
Qed.

(** The buddy of an aligned block: the other half of the block twice as large. *)
Lemma lxor_buddy p a : 0 <= a -> p mod 2 ^ a = 0 ->
  (p mod 2 ^ (a + 1) = 0 /\ Z.lxor p (2 ^ a) = p + 2 ^ a) \/
  ((p - 2 ^ a) mod 2 ^ (a + 1) = 0 /\ Z.lxor p (2 ^ a) = p - 2 ^ a).
Proof.
  intros Ha Hp. pose proof (pow2_pos a Ha) as H2. apply Z.mod_divide in Hp as [i ->]; [|lia].
  replace (Z.lxor (i * 2 ^ a) (2 ^ a)) with (Z.lxor i 1 * 2 ^ a).
  2:{ rewrite <- !Z.shiftl_mul_pow2 by lia. rewrite Z.shiftl_lxor.
      by rewrite (Z.shiftl_1_l a). }
  rewrite lxor_1, Z.pow_add_r, Z.pow_1_r by lia. destruct (Z.even i) eqn:E.
  - left. apply Z.even_spec in E as [j ->]. split; [|lia].
    replace (2 * j * 2 ^ a) with (j * (2 ^ a * 2)) by lia. apply Z.mod_mul. lia.
  - right. rewrite <- Z.negb_odd in E. apply negb_false_iff, Z.odd_spec in E as [j ->].
    split; [|lia]. replace ((2 * j + 1) * 2 ^ a - 2 ^ a) with (j * (2 ^ a * 2)) by lia.
    apply Z.mod_mul. lia.
Qed.

Lemma lxor_invol p n : Z.lxor (Z.lxor p n) n = p.
Proof. by rewrite Z.lxor_assoc, Z.lxor_nilpotent, Z.lxor_0_r. Qed.

(** ** Arithmetic modulo [2^64] *)
Lemma u64_add_l x y : u64 (u64 x + y) = u64 (x + y).
Proof. apply Zplus_mod_idemp_l. Qed.
Lemma u64_add_r x y : u64 (x + u64 y) = u64 (x + y).
Proof. apply Zplus_mod_idemp_r. Qed.
Lemma u64_idem x : u64 (u64 x) = u64 x.
Proof. apply Z.mod_mod. lia. Qed.
Lemma u64_eq_add x y z : u64 x = u64 y -> u64 (x + z) = u64 (y + z).
Proof. intros H. by rewrite <- u64_add_l, H, u64_add_l. Qed.

(** ** Lists *)
Lemma nodup_split {X} (l1 : list X) x l2 :
  NoDup (l1 ++ x :: l2) -> NoDup (l1 ++ l2) /\ forall y, y ∈ l1 ++ l2 <-> y ∈ l1 ++ x :: l2 /\ y <> x.
Proof.
  intros Hnd. rewrite <- Permutation_middle in Hnd. apply NoDup_cons in Hnd as [Hx Hnd].
  split; [done|]. intros y. rewrite !elem_of_app, elem_of_cons in *. split; [|tauto].
  intros Hy. split; [tauto|]. by intros ->.
Qed.

Lemma nodup_inj {X} (f : X -> Z) l x y : NoDup (f <$> l) -> x ∈ l -> y ∈ l -> f x = f y -> x = y.
Proof.
  intros Hnd [i Hx]%list_elem_of_lookup [j Hy]%list_elem_of_lookup E. assert (i = j); [|congruence].
  eapply (NoDup_lookup _ _ _ _ Hnd); rewrite list_lookup_fmap; [by rewrite Hx|rewrite Hy; cbn; congruence].
Qed.

Lemma zsum_ext {X} (f g : X -> Z) l : (forall x, x ∈ l -> f x = g x) -> zsum f l = zsum g l.
Proof.
  induction l as [|x l IH]; intros H; [done|]. cbn [zsum foldr]. rewrite (H x ltac:(left)). f_equal.
  apply IH. intros. apply H. by right.
Qed.

Lemma zsum_const {X} (l : list X) n : zsum (fun _ => n) l = n * Z.of_nat (length l).
Proof. induction l as [|x l IH]; cbn [zsum foldr length] in *; unfold zsum in *; lia. Qed.

Lemma zsum_fmap {X Y} (g : X -> Y) (f : Y -> Z) l : zsum f (g <$> l) = zsum (fun x => f (g x)) l.
Proof. induction l as [|x l IH]; [done|]. cbn [zsum foldr fmap list_fmap]. by f_equal. Qed.

(** ** Growth by doubling *)

(** [while (capacity < need) capacity *= 2;] A loop that has not ended after 64
    doublings has reached 0 and never ends. *)
Fixpoint grow (fuel : nat) (capacity need : Z) : option Z :=
  match fuel with
  | O => None
  | S fuel => if capacity <? need then grow fuel (u64 (capacity * 2)) need else Some capacity
  end.
Definition GROW_FUEL : nat := 65.

Lemma grow_fuel_mono f g cap need r : grow f cap need = Some r -> (f <= g)%nat -> grow g cap need = Some r.
Proof.
  revert g cap. induction f as [|f IH]; intros g cap E Hle; [done|]. destruct g as [|g]; [lia|].
  cbn [grow] in *. destruct (cap <? need); [apply IH; [done|lia]|done].
Qed.

(** From [cap] it doubles as often as needed, if the sum does not overflow. *)
Lemma grow_spec i cap need : 1 <= cap -> need <= 2 ^ 63 -> cap < 2 ^ 63 \/ need <= cap ->
  need <= cap * 2 ^ Z.of_nat i ->
  exists r, grow (S i) cap need = Some r /\ need <= r /\ cap <= r /\ (r = cap \/ r < 2 * need).
Proof.
  revert cap. induction i as [|i IH]; intros cap Hc Hn Hs Hi; cbn [grow].
  - rewrite Z.pow_0_r, Z.mul_1_r in Hi. destruct (Z.ltb_spec cap need); [lia|]. exists cap. split_and!; [done|lia..|by left].
  - destruct (Z.ltb_spec cap need) as [Hlt|Hge]; [|exists cap; split_and!; [done|lia..|by left]].
    rewrite u64_small by lia.
    destruct (IH (cap * 2)) as (r & E & H1 & H2 & H3); [lia|lia|lia| |].
    { rewrite Nat2Z.inj_succ, Z.pow_succ_r in Hi by lia. lia. }
    exists r. split_and!; [exact E|lia..|]. right. lia.
Qed.

Lemma grow_total cap need : 1 <= cap -> need <= 2 ^ 63 -> cap < 2 ^ 64 ->
  exists r, grow GROW_FUEL cap need = Some r /\ need <= r /\ cap <= r /\ (r = cap \/ r < 2 * need).
Proof.
  intros Hc Hn Hb. apply grow_spec; [done..|lia|]. change (2 ^ Z.of_nat 64) with (2 ^ 64). lia.
Qed.

Lemma grow_zero f need : 0 < need -> grow f 0 need = None.
Proof.
  intros Hn. induction f as [|f IH]; [done|]. cbn [grow]. rewrite (proj2 (Z.ltb_lt _ _)) by done.
  by change (u64 (0 * 2)) with 0.
Qed.

(** ** The least set bit *)

Lemma odd_part x : 0 < x -> exists k m, 0 <= k /\ 0 <= m /\ x = (2 * m + 1) * 2 ^ k.
Proof.
  intros Hx. destruct x as [|p|p]; try lia. clear Hx. induction p as [p IH|p IH|].
  - exists 0, (Zpos p). lia.
  - destruct IH as (k & m & Hk & Hm & E). exists (k + 1), m. rewrite Z.pow_add_r by lia. lia.
  - by exists 0, 0.
Qed.

Lemma land_opp m k : 0 <= k -> 0 <= m -> let x := (2 * m + 1) * 2 ^ k in Z.land x (- x) = 2 ^ k.
Proof.
  intros Hk Hm x. pose proof (pow2_pos k Hk) as Hp. assert (E2 : 2 ^ (k + 1) = 2 * 2 ^ k) by (rewrite Z.pow_add_r by lia; lia).
  assert (Ex : x = Z.lor (m * 2 ^ (k + 1)) (2 ^ k)) by (rewrite lor_add by lia; subst x; lia).
  assert (Ey : x - 1 = Z.lor (m * 2 ^ (k + 1)) (2 ^ k - 1)) by (rewrite lor_add by lia; subst x; lia).
  replace (- x) with (Z.lnot (x - 1)) by (unfold Z.lnot; lia). rewrite Ey, Ex. clear Ex Ey.
  apply Z.bits_inj'. intros j Hj. rewrite Z.land_spec, Z.lnot_spec, !Z.lor_spec by done.
  replace (2 ^ k - 1) with (Z.ones k) by (rewrite Z.ones_equiv; lia). rewrite Z.pow2_bits_eqb by lia.
  rewrite Z.testbit_ones_nonneg by lia. destruct (Z.eqb_spec k j) as [->|Hne].
  - rewrite Z.mul_pow2_bits_low, Z.ltb_irrefl by lia. done.
  - destruct (Z.testbit (m * 2 ^ (k + 1)) j); [by rewrite orb_true_l, andb_false_r|by rewrite orb_false_l].
Qed.

(** [__builtin_ffs] finds the least set bit. *)
Lemma builtin_ffs_spec x : 0 < x -> let k := builtin_ffs x - 1 in
  0 <= k /\ Z.testbit x k = true /\ forall j, 0 <= j < k -> Z.testbit x j = false.
Proof.
  intros Hx. destruct (odd_part x Hx) as (k & m & Hk & Hm & ->). unfold builtin_ffs.
  rewrite (proj2 (Z.eqb_neq _ 0)) by lia. rewrite land_opp, Z.log2_pow2 by lia. cbv zeta. replace (1 + k - 1) with k by lia.
  split_and!; [done| |].
  - rewrite Z.mul_pow2_bits by lia. rewrite Z.sub_diag. apply Z.testbit_odd_0.
  - intros j Hj. apply Z.mul_pow2_bits_low. lia.
Qed.

Lemma bits_bound n x : 0 <= n -> 0 <= x -> (forall j, n <= j -> Z.testbit x j = false) -> x < 2 ^ n.
Proof.
  intros Hn Hx Hb. assert (E : x mod 2 ^ n = x).
  { apply Z.bits_inj'. intros j Hj. destruct (Z.lt_ge_cases j n).
    - by apply Z.mod_pow2_bits_low.
    - rewrite Z.mod_pow2_bits_high by lia. by rewrite Hb. }
  rewrite <- E. apply Z.mod_pos_bound, pow2_pos, Hn.
Qed.

Lemma bits_above n x j : 0 <= x < 2 ^ n -> n <= j -> Z.testbit x j = false.
Proof.
  intros Hx Hj. destruct (Z.eq_dec x 0) as [->|Hne]; [apply Z.bits_0|]. apply Z.bits_above_log2; [lia|].
  apply Z.log2_lt_pow2; [lia|]. pose proof (Z.pow_le_mono_r 2 n j ltac:(lia) Hj). lia.
Qed.

(** One bit of a word. *)
Lemma land_bit m i : 0 <= i -> (Z.land m (2 ^ i) =? 0) = negb (Z.testbit m i).
Proof.
  intros Hi. destruct (Z.testbit m i) eqn:E; cbn [negb].
  - apply Z.eqb_neq. intros H0. assert (Hb : Z.testbit (Z.land m (2 ^ i)) i = true) by (rewrite Z.land_spec, E; by apply Z.pow2_bits_true).
    rewrite H0, Z.bits_0 in Hb. done.
  - apply Z.eqb_eq, Z.bits_inj'. intros j Hj. rewrite Z.land_spec, Z.bits_0, Z.pow2_bits_eqb by lia.
    destruct (Z.eqb_spec i j) as [<-|]; [by rewrite E|by rewrite andb_false_r].
Qed.
