(* ===== verification/Util.v ===== *)
(** * Size arithmetic of [include/small/util.h]

    Alignment, rounding and binary logarithm of sizes, at the width of
    [size_t].  [small_align_ok] and the like are the assertions of the
    functions they are named after. *)
From S2P Require Import Prelude.

(** ** Definitions *)

Definition small_getpagesize (sysconf_pagesize : Z) : Z :=
  let page_size := sysconf_pagesize in
  if page_size <? 1 then 4096 else page_size.

Definition small_align_ok (size alignment : Z) : bool :=
  (Z.land alignment (u64 (alignment - 1)) =? 0) &&
  (size <=? u64 (SIZE_MAX - alignment)).

Definition small_align (size alignment : Z) : Z :=
  Z.land (u64 (u64 (size - 1) + alignment)) (u64 (Z.lnot (u64 (alignment - 1)))).

Definition small_align_down_ok (alignment : Z) : bool :=
  Z.land alignment (u64 (alignment - 1)) =? 0.

Definition small_align_down (value alignment : Z) : Z :=
  Z.land value (u64 (Z.lnot (u64 (alignment - 1)))).

Definition small_round_ok (size : Z) : bool :=
  (size <? 2) || ((size <=? SIZE_MAX / 2 + 1) && (u64 (size - 1) <=? ULONG_MAX)).

Definition small_round (size : Z) : Z :=
  if size <? 2 then size
  else u64 (Z.shiftl 1 (sizeof_ulong * CHAR_BIT - builtin_clzl (u64 (size - 1)))).

Definition small_lb (size : Z) : Z :=
  u64 (sizeof_ulong * CHAR_BIT - builtin_clzl size - 1).

(** ** Theorems *)

Lemma small_align_ok_pow2 size k :
  0 <= k < 64 -> 0 <= size -> size + 2 ^ k < 2 ^ 64 -> small_align_ok size (2 ^ k) = true.
Proof.
  intros Hk Hs Hb. unfold small_align_ok. pose proof (pow2_pos k ltac:(lia)).
  rewrite (u64_small (2 ^ k - 1)) by lia. fold (pow2b (2 ^ k)).
  rewrite pow2b_pow2 by lia. simpl. apply Z.leb_le. unfold SIZE_MAX.
  rewrite u64_small by lia. lia.
Qed.

Lemma small_align_down_eq value k :
  0 <= k < 64 -> in_u 64 value ->
  small_align_down value (2 ^ k) = value - value mod 2 ^ k.
Proof.
  intros Hk Hv. unfold small_align_down.
  pose proof (pow2_pos k ltac:(lia)).
  assert (2 ^ k < 2 ^ 64) by (apply Z.pow_lt_mono_r; lia).
  rewrite (u64_small (2 ^ k - 1)) by lia.
  rewrite land_u64_r by done. by rewrite land_not_mask by lia.
Qed.

(** Closed form of the alignment: round up to a multiple. *)
Lemma small_align_eq size k :
  0 <= k < 64 -> 0 <= size -> size + 2 ^ k < 2 ^ 64 ->
  small_align size (2 ^ k) = (size + (2 ^ k - 1)) / 2 ^ k * 2 ^ k.
Proof.
  intros Hk Hs Hb. unfold small_align.
  pose proof (pow2_pos k ltac:(lia)).
  replace (u64 (u64 (size - 1) + 2 ^ k)) with (size + (2 ^ k - 1)).
  2:{ unfold u64. rewrite Z.add_mod_idemp_l, Z.mod_small by lia. lia. }
  fold (small_align_down (size + (2 ^ k - 1)) (2 ^ k)).
  rewrite small_align_down_eq; [|lia|split; lia].
  pose proof (Z.div_mod (size + (2 ^ k - 1)) (2 ^ k) ltac:(lia)). lia.
Qed.

(** Bounds used by every client of the alignment. *)
Lemma small_align_bounds size k :
  0 <= k < 64 -> 0 <= size -> size + 2 ^ k < 2 ^ 64 ->
  size <= small_align size (2 ^ k) < size + 2 ^ k /\
  small_align size (2 ^ k) mod 2 ^ k = 0.
Proof.
  intros Hk Hs Hb. rewrite small_align_eq by lia.
  pose proof (pow2_pos k ltac:(lia)).
  pose proof (Z.div_mod (size + (2 ^ k - 1)) (2 ^ k) ltac:(lia)).
  pose proof (Z.mod_pos_bound (size + (2 ^ k - 1)) (2 ^ k) ltac:(lia)).
  split; [lia|]. apply Z.mod_mul. lia.
Qed.

Lemma small_align_id size k :
  0 <= k < 64 -> 0 <= size -> size + 2 ^ k < 2 ^ 64 -> size mod 2 ^ k = 0 ->
  small_align size (2 ^ k) = size.
Proof.
  intros Hk Hs Hb Hm.
  destruct (small_align_bounds size k Hk Hs Hb) as [Hr Hz].
  pose proof (pow2_pos k ltac:(lia)).
  apply Z.le_antisymm; [|lia]. apply (multiple_le (2 ^ k)); done || lia.
Qed.

(**  [small_align] under its own assertions is the least multiple of the
    alignment that is not below the size. *)
Theorem small_align_least size alignment :
  in_u 64 size -> in_u 64 alignment -> 0 < alignment ->
  small_align_ok size alignment = true ->
  size <= small_align size alignment /\
  aligned alignment (small_align size alignment) /\
  (forall m, size <= m -> aligned alignment m -> small_align size alignment <= m).
Proof.
  intros Hs Ha Hpos Hok. unfold small_align_ok in Hok.
  apply andb_true_iff in Hok as [Hp Hle%Z.leb_le].
  rewrite u64_small in Hp by (unfold in_u in *; lia).
  destruct (pow2b_spec alignment Hpos Hp) as (k & Hk & ->).
  rewrite u64_small in Hle by (unfold SIZE_MAX, in_u in *; lia). unfold SIZE_MAX in Hle.
  assert (k < 64). { apply (Z.pow_lt_mono_r_iff 2); unfold in_u in *; lia. }
  destruct (decide (size + 2 ^ k < 2 ^ 64)); [|unfold in_u in *; lia].
  destruct (small_align_bounds size k) as [Hr Hz]; [lia..|unfold in_u in *; lia|lia|].
  repeat split; [lia|done|]. intros m Hm Hma.
  apply (multiple_le (2 ^ k)); done || lia.
Qed.

Theorem small_align_down_greatest value alignment :
  in_u 64 value -> in_u 64 alignment -> 0 < alignment ->
  small_align_down_ok alignment = true ->
  small_align_down value alignment <= value < small_align_down value alignment + alignment /\
  aligned alignment (small_align_down value alignment).
Proof.
  intros Hv Ha Hpos Hp. unfold small_align_down_ok in Hp.
  rewrite u64_small in Hp by (unfold in_u in *; lia).
  destruct (pow2b_spec alignment Hpos Hp) as (k & Hk & ->).
  assert (k < 64). { apply (Z.pow_lt_mono_r_iff 2); unfold in_u in *; lia. }
  rewrite small_align_down_eq by (done || lia).
  pose proof (Z.mod_pos_bound value (2 ^ k) Hpos). split; [lia|].
  unfold aligned. rewrite Zminus_mod, Z.mod_mod, Z.sub_diag by lia. apply Z.mod_0_l. lia.
Qed.

Lemma small_lb_eq size : 0 < size < 2 ^ 64 -> small_lb size = Z.log2 size.
Proof.
  intros Hs. unfold small_lb, builtin_clzl, sizeof_ulong, CHAR_BIT.
  assert (Z.log2 size < 64) by (apply Z.log2_lt_pow2; lia).
  pose proof (Z.log2_nonneg size). rewrite u64_small by lia. lia.
Qed.

Lemma small_round_eq size :
  2 <= size <= 2 ^ 63 -> small_round size = 2 ^ (Z.log2 (size - 1) + 1).
Proof.
  intros Hs. unfold small_round, builtin_clzl, sizeof_ulong, CHAR_BIT.
  destruct (Z.ltb_spec size 2); [lia|].
  rewrite (u64_small (size - 1)) by lia.
  assert (Z.log2 (size - 1) < 63) by (apply Z.log2_lt_pow2; lia).
  pose proof (Z.log2_nonneg (size - 1)).
  rewrite shiftl_mul by lia. rewrite Z.mul_1_l.
  rewrite u64_small; [f_equal; lia|].
  pose proof (pow2_pos (8 * 8 - (63 - Z.log2 (size - 1))) ltac:(lia)).
  split; [lia|]. apply Z.pow_lt_mono_r; lia.
Qed.

(**  [small_round] under its assertions is the least power of two that is not
    below a positive size, and the identity on 0. *)
Theorem small_round_least size :
  in_u 64 size -> small_round_ok size = true ->
  (size = 0 -> small_round size = 0) /\
  (0 < size -> pow2 (small_round size) /\ size <= small_round size /\
     forall m, pow2 m -> size <= m -> small_round size <= m).
Proof.
  intros Hs Hok. unfold small_round_ok in Hok. unfold in_u in Hs.
  apply orb_true_iff in Hok.
  destruct (Z.ltb_spec size 2) as [Hlt|Hge].
  - unfold small_round. destruct (Z.ltb_spec size 2); [|lia].
    split; [lia|]. intros Hp. replace size with 1 by lia.
    split; [by exists 0|]. split; [lia|]. intros m Hm ?. done.
  - destruct Hok as [|Hok]; [done|]. apply andb_true_iff in Hok as [Hle%Z.leb_le _].
    unfold SIZE_MAX in Hle. change ((2 ^ 64 - 1) / 2 + 1) with (2 ^ 63) in Hle.
    split; [lia|]. intros Hp. rewrite small_round_eq by lia.
    pose proof (log2_bounds (size - 1) ltac:(lia)) as Hb.
    pose proof (Z.log2_nonneg (size - 1)) as Hn.
    split; [exists (Z.log2 (size - 1) + 1); split; [lia|done]|].
    rewrite Z.pow_add_r by lia. split; [lia|].
    intros m (k & Hk & ->) Hm. change (2 ^ 1) with 2.
    assert (Z.log2 (size - 1) < k) by (apply (Z.pow_lt_mono_r_iff 2); lia).
    rewrite <- (Z.pow_add_r 2 _ 1) by lia. apply pow2_mono. lia.
Qed.

(** ** Witnesses *)

Lemma small_align_least_witness :
  small_align_ok 13 8 = true /\ 13 <= small_align 13 8 /\ aligned 8 (small_align 13 8).
Proof.
  split; [reflexivity|].
  destruct (small_align_least 13 8) as (H1 & H2 & _);
    [split; vm_compute; congruence | split; vm_compute; congruence | lia | reflexivity |].
  by split.
Defined.

Lemma small_round_least_witness : pow2 (small_round 100) /\ 100 <= small_round 100.
Proof.
  destruct (small_round_least 100) as (_ & H);
    [split; vm_compute; congruence | reflexivity |].
  destruct (H ltac:(lia)) as (H1 & H2 & _). by split.
Defined.
