(* ===== verification/SmallClass.v ===== *)
(** * Size classes: [small/small_class.c], [include/small/small_class.h]

    The allocator [small] stores its pools in an array; this component turns an
    allocation size into the index of the best fitting pool and an index into
    the object size of the pool.  The logarithm and the power functions of the
    C library are parameters of [small_class_create]. *)
From S2P Require Import Prelude Util.

(** ** Definitions *)

(** The floating point operations [small_class_create] calls. *)
Record float_ops (F : Type) := FloatOps {
  f_of_int : Z -> F;
  logf : F -> F;
  powf : F -> F -> F;
  fdiv : F -> F -> F;
  (** [(unsigned)(x + .5)] *)
  f_round_half : F -> Z;
  fgt : F -> F -> bool;
  fle : F -> F -> bool;
}.
Arguments f_of_int {F} _ _.
Arguments logf {F} _ _.
Arguments powf {F} _ _ _.
Arguments fdiv {F} _ _ _.
Arguments f_round_half {F} _ _.
Arguments fgt {F} _ _ _.
Arguments fle {F} _ _ _.

Record small_class (F : Type) := SmallClass {
  granularity : Z;
  ignore_bits_count : Z;
  effective_bits : Z;
  effective_size : Z;
  effective_mask : Z;
  size_shift : Z;
  size_shift_plus_1 : Z;
  actual_factor : F;
}.
Arguments SmallClass {F} _ _ _ _ _ _ _ _.
Arguments granularity {F} _.
Arguments ignore_bits_count {F} _.
Arguments effective_bits {F} _.
Arguments effective_size {F} _.
Arguments effective_mask {F} _.
Arguments size_shift {F} _.
Arguments size_shift_plus_1 {F} _.
Arguments actual_factor {F} _.

Definition small_class_create {F} (fo : float_ops F) (gran : Z)
    (desired_factor : F) (min_alloc : Z) : option (small_class F) :=
  ASSERT gran >? 0;
  ASSERT Z.land gran (u32 (gran - 1)) =? 0;
  ASSERT fgt fo desired_factor (f_of_int fo 1);
  ASSERT fle fo desired_factor (f_of_int fo 2);
  ASSERT min_alloc >? 0;
  let log2 := logf fo (f_of_int fo 2) in
  let bits := u32 (f_round_half fo
    (fdiv fo (logf fo (fdiv fo log2 (logf fo desired_factor))) log2)) in
  let eff_size := u32 (Z.shiftl 1 bits) in
  let shift := u32 (min_alloc - gran) in
  Some {| granularity := gran;
          ignore_bits_count := builtin_ctz gran;
          effective_bits := bits;
          effective_size := eff_size;
          effective_mask := u32 (eff_size - 1);
          size_shift := shift;
          size_shift_plus_1 := u32 (shift + 1);
          actual_factor := powf fo (f_of_int fo 2)
            (fdiv fo (f_of_int fo 1) (powf fo (f_of_int fo 2) (f_of_int fo bits))) |}.

Definition small_class_fls (value : Z) : Z :=
  let clz := builtin_clz value in
  Z.lxor (sizeof_unsigned * CHAR_BIT - 1) clz.

Section Calc.
Context {F : Type}.
Implicit Types sc : small_class F.

(** Size to index, compiled without [SMALL_CLASS_BRANCHLESS]. *)
Definition small_class_calc_offset_by_size sc (size : Z) : Z :=
  let checked_size := u32 (size - size_shift_plus_1 sc) in
  let size := if checked_size >? size then 0 else checked_size in
  let size := Z.shiftr size (ignore_bits_count sc) in
  if size <? effective_size sc then size
  else
    let log2 := small_class_fls (Z.shiftr size (effective_bits sc)) in
    let linear_part := Z.shiftr size log2 in
    let log2_part := u32 (Z.shiftl log2 (effective_bits sc)) in
    u32 (linear_part + log2_part).

(** The same function compiled with [SMALL_CLASS_BRANCHLESS]. *)
Definition small_class_calc_offset_by_size_branchless sc (size : Z) : Z :=
  let checked_size := u32 (size - size_shift_plus_1 sc) in
  let size := if checked_size >? size then 0 else checked_size in
  let size := Z.shiftr size (ignore_bits_count sc) in
  let log2 := small_class_fls (Z.lor (Z.shiftr size (effective_bits sc)) 1) in
  let linear_part := Z.shiftr size log2 in
  let log2_part := u32 (Z.shiftl log2 (effective_bits sc)) in
  u32 (linear_part + log2_part).

Definition small_class_calc_size_by_offset sc (cls : Z) : Z :=
  let cls := u32 (cls + 1) in
  let linear_part := Z.land cls (effective_mask sc) in
  let log2 := Z.shiftr cls (effective_bits sc) in
  let '(log2, linear_part) :=
    if negb (log2 =? 0) then (log2 - 1, Z.lor linear_part (effective_size sc))
    else (log2, linear_part) in
  u32 (size_shift sc +
       u32 (Z.shiftl (u32 (Z.shiftl linear_part log2)) (ignore_bits_count sc))).

(** A class evaluator that [small_class_create] can build: the derived fields
    agree with the granularity and the number of effective bits, and the
    lowest class is not below the granularity. *)
Record small_class_wf sc : Prop := {
  wf_ignore : 0 <= ignore_bits_count sc;
  wf_gran : granularity sc = 2 ^ ignore_bits_count sc;
  wf_bits : 0 <= effective_bits sc;
  wf_fit : ignore_bits_count sc + effective_bits sc < 32;
  wf_size : effective_size sc = 2 ^ effective_bits sc;
  wf_mask : effective_mask sc = 2 ^ effective_bits sc - 1;
  wf_shift : 0 <= size_shift sc;
  wf_shift1 : size_shift_plus_1 sc = size_shift sc + 1;
  wf_shift_u : size_shift sc + 1 < 2 ^ 32;
}.
End Calc.

(** Reference definition: the [n]-th boundary of the scale with [2^e] steps per
    doubling, in units of the granularity. *)
Definition scale (e n : Z) : Z :=
  if n <? 2 ^ e then n else (n mod 2 ^ e + 2 ^ e) * 2 ^ (n / 2 ^ e - 1).

(** Reference definition: the object size of class [cls], unbounded. *)
Definition class_size {F} (sc : small_class F) (cls : Z) : Z :=
  size_shift sc + scale (effective_bits sc) (cls + 1) * granularity sc.

(** ** The scale *)

Section Scale.
Context (e : Z) (He : 0 <= e).

Lemma pow_e_pos : 0 < 2 ^ e.
Proof. by apply pow2_pos. Qed.

(** Every boundary exceeds the previous one by one step of its octave. *)
Lemma scale_step n : 0 <= n ->
  scale e (n + 1) = scale e n + (if n <? 2 ^ e then 1 else 2 ^ (n / 2 ^ e - 1)).
Proof.
  intros Hn. pose proof pow_e_pos as Hp. unfold scale.
  destruct (Z.ltb_spec n (2 ^ e)) as [Hlt|Hge].
  - destruct (Z.ltb_spec (n + 1) (2 ^ e)); [done|].
    replace (n + 1) with (2 ^ e) by lia.
    rewrite Z.mod_same, Z.div_same by lia. simpl. lia.
  - destruct (Z.ltb_spec (n + 1) (2 ^ e)); [lia|].
    pose proof (Z.div_mod n (2 ^ e) ltac:(lia)) as Hd.
    pose proof (Z.mod_pos_bound n (2 ^ e) Hp) as Hm.
    assert (1 <= n / 2 ^ e) by (apply Z.div_le_lower_bound; lia).
    set (q := n / 2 ^ e) in *. set (r := n mod 2 ^ e) in *.
    destruct (decide (r + 1 = 2 ^ e)) as [Hr|Hr].
    + replace (n + 1) with ((q + 1) * 2 ^ e) by lia.
      rewrite Z.mod_mul, Z.div_mul by lia.
      replace (q + 1 - 1) with (q - 1 + 1) by lia.
      rewrite Z.pow_add_r by lia. change (2 ^ 1) with 2.
      replace r with (2 ^ e - 1) by lia. ring.
    + replace (n + 1) with (r + 1 + q * 2 ^ e) by lia.
      rewrite Z.mod_add, Z.div_add by lia.
      rewrite (Z.mod_small (r + 1)), (Z.div_small (r + 1)), Z.add_0_l by lia. ring.
Qed.

Lemma scale_step_pos n : 0 <= n -> scale e n + 1 <= scale e (n + 1).
Proof.
  intros Hn. rewrite scale_step by done. pose proof pow_e_pos.
  destruct (Z.ltb_spec n (2 ^ e)); [lia|].
  assert (1 <= n / 2 ^ e) by (apply Z.div_le_lower_bound; lia).
  pose proof (pow2_pos (n / 2 ^ e - 1) ltac:(lia)). lia.
Qed.

Lemma scale_mono m n : 0 <= m <= n -> scale e m + (n - m) <= scale e n.
Proof.
  intros [Hm Hmn]. remember (Z.to_nat (n - m)) as d eqn:Ed.
  revert n Hmn Ed. induction d as [|d IH]; intros n Hmn Ed.
  - replace n with m by lia. lia.
  - specialize (IH (n - 1) ltac:(lia) ltac:(lia)).
    pose proof (scale_step_pos (n - 1) ltac:(lia)).
    replace (n - 1 + 1) with n in * by lia. lia.
Qed.

Lemma scale_0 : scale e 0 = 0.
Proof. unfold scale. pose proof pow_e_pos. by destruct (Z.ltb_spec 0 (2 ^ e)); [|lia]. Qed.

Lemma scale_ge n : 0 <= n -> n <= scale e n.
Proof. intros. pose proof (scale_mono 0 n ltac:(lia)). rewrite scale_0 in *. lia. Qed.

(** Uniqueness of the interval a value falls into. *)
Lemma scale_unique m n x :
  0 <= m -> 0 <= n ->
  scale e m <= x < scale e (m + 1) -> scale e n <= x < scale e (n + 1) -> m = n.
Proof.
  intros Hm Hn Hx Hy. destruct (Z.lt_trichotomy m n) as [Hlt|[|Hlt]]; [|done|].
  - pose proof (scale_mono (m + 1) n ltac:(lia)). lia.
  - pose proof (scale_mono (n + 1) m ltac:(lia)). lia.
Qed.

(** The value the code computes for a size above the linear part. *)
Lemma scale_log x :
  2 ^ e <= x ->
  let l := Z.log2 (x / 2 ^ e) in
  let c := x / 2 ^ l + l * 2 ^ e in
  0 <= l /\ 0 <= c /\ scale e c <= x < scale e (c + 1).
Proof.
  intros Hx l c. pose proof pow_e_pos as Hp.
  assert (1 <= x / 2 ^ e) by (apply Z.div_le_lower_bound; lia).
  pose proof (Z.log2_nonneg (x / 2 ^ e)) as Hl. fold l in Hl.
  pose proof (log2_bounds (x / 2 ^ e) ltac:(lia)) as Hb. fold l in Hb.
  pose proof (pow2_pos l Hl) as Hpl.
  assert (Hq : 2 ^ e <= x / 2 ^ l < 2 * 2 ^ e).
  { assert (2 ^ l * 2 ^ e <= x).
    { pose proof (Z.mul_div_le x (2 ^ e) Hp). nia. }
    assert (x < 2 * 2 ^ l * 2 ^ e).
    { pose proof (Z.mul_succ_div_gt x (2 ^ e) Hp). nia. }
    split; [apply Z.div_le_lower_bound; lia | apply Z.div_lt_upper_bound; lia]. }
  set (q := x / 2 ^ l) in *. assert (Hc : 0 <= c) by (subst c; nia).
  assert (Hs : scale e c = q * 2 ^ l).
  { unfold scale. destruct (Z.ltb_spec c (2 ^ e)); [subst c; nia|].
    replace c with (q - 2 ^ e + (l + 1) * 2 ^ e) by (subst c; ring).
    rewrite Z.mod_add, Z.div_add by lia.
    rewrite Z.mod_small, Z.div_small by lia.
    replace (0 + (l + 1) - 1) with l by lia. f_equal. lia. }
  repeat split; [done..| |].
  - rewrite Hs. subst q. pose proof (Z.mul_div_le x (2 ^ l) Hpl). lia.
  - rewrite scale_step, Hs by done.
    destruct (Z.ltb_spec c (2 ^ e)); [subst c; nia|].
    replace (c / 2 ^ e - 1) with l.
    2:{ replace c with (q - 2 ^ e + (l + 1) * 2 ^ e) by (subst c; ring).
        rewrite Z.div_add, Z.div_small by lia. lia. }
    subst q. pose proof (Z.mul_succ_div_gt x (2 ^ l) Hpl). nia.
Qed.
End Scale.

(** ** The functions of the code against the scale *)

Lemma small_class_fls_log2 v : 0 < v < 2 ^ 32 -> small_class_fls v = Z.log2 v.
Proof.
  intros Hv. unfold small_class_fls, builtin_clz, sizeof_unsigned, CHAR_BIT.
  pose proof (Z.log2_nonneg v). assert (Z.log2 v < 32) by (apply Z.log2_lt_pow2; lia).
  assert (Hall : forallb (fun l => Z.lxor (4 * 8 - 1) (31 - l) =? l) (seqZ 0 32) = true)
    by reflexivity.
  rewrite forallb_forall in Hall. apply Z.eqb_eq, Hall.
  apply list_elem_of_In, elem_of_seqZ. lia.
Qed.

Section Facts.
Context {F : Type} (sc : small_class F) (Hwf : small_class_wf sc).
Local Abbreviation e := (effective_bits sc).
Local Abbreviation g := (granularity sc).
Local Abbreviation sh := (size_shift sc).

(** The number of granules below the byte [size - 1]. *)
Definition granules (size : Z) : Z :=
  (if size <=? sh then 0 else size - sh - 1) / g.

Lemma gran_pos : 0 < g.
Proof. rewrite (wf_gran _ Hwf). apply pow2_pos, (wf_ignore _ Hwf). Qed.

Lemma granules_range size : in_u 32 size -> 0 <= granules size < 2 ^ 32.
Proof.
  intros Hs. unfold granules. pose proof gran_pos. pose proof (wf_shift _ Hwf).
  unfold in_u in Hs. destruct (Z.leb_spec size sh).
  - rewrite Z.div_0_l by lia. lia.
  - split; [apply Z.div_pos; lia|]. apply Z.div_lt_upper_bound; [lia|]. nia.
Qed.

Lemma code_granules size : in_u 32 size ->
  Z.shiftr (if u32 (size - size_shift_plus_1 sc) >? size then 0
            else u32 (size - size_shift_plus_1 sc)) (ignore_bits_count sc)
  = granules size.
Proof.
  intros Hs. pose proof (wf_shift _ Hwf). pose proof (wf_shift_u _ Hwf).
  rewrite (wf_shift1 _ Hwf), shiftr_div by apply (wf_ignore _ Hwf).
  unfold granules. rewrite (wf_gran _ Hwf). f_equal.
  destruct (Z.leb_spec size sh).
  - destruct (Z.gtb_spec (u32 (size - (sh + 1))) size) as [|Hc]; [done|]. wordlia.
  - unfold in_u in Hs. rewrite u32_small by lia.
    destruct (Z.gtb_spec (size - (sh + 1)) size); lia.
Qed.

(** The interval of the scale found for a size. *)
Lemma calc_offset_interval size : in_u 32 size ->
  let c := small_class_calc_offset_by_size sc size in
  0 <= c < 2 ^ 32 /\ scale e c <= granules size < scale e (c + 1).
Proof.
  intros Hs c. subst c. unfold small_class_calc_offset_by_size.
  rewrite code_granules by done. pose proof (granules_range size Hs) as Hg.
  pose proof (wf_bits _ Hwf) as He.
  rewrite (wf_size _ Hwf). set (x := granules size) in *.
  pose proof (pow_e_pos e He).
  destruct (Z.ltb_spec x (2 ^ e)) as [Hlt|Hge].
  - split; [lia|]. rewrite scale_step by lia.
    assert (Hx : scale e x = x).
    { unfold scale. by destruct (Z.ltb_spec x (2 ^ e)); [|lia]. }
    rewrite Hx. destruct (Z.ltb_spec x (2 ^ e)); lia.
  - destruct (scale_log e He x Hge) as (Hl & Hc & Hi).
    pose proof (scale_ge e He _ Hc) as Hle.
    rewrite (shiftr_div x e) by done. rewrite small_class_fls_log2.
    2:{ split; [apply Z.div_str_pos; lia|]. apply Z.div_lt_upper_bound; nia. }
    set (l := Z.log2 (x / 2 ^ e)) in *. rewrite shiftr_div, shiftl_mul by done.
    assert (0 <= x / 2 ^ l) by (apply Z.div_pos; [lia | by apply pow2_pos]).
    rewrite (u32_small (l * 2 ^ e)) by nia. rewrite u32_small by lia.
    split; [lia|done].
Qed.

Lemma calc_size_eq cls : 0 <= cls -> class_size sc cls < 2 ^ 32 ->
  small_class_calc_size_by_offset sc cls = class_size sc cls.
Proof.
  intros Hc Hb. unfold class_size in *. pose proof gran_pos as Hgp.
  pose proof (wf_bits _ Hwf) as He. pose proof (wf_shift _ Hwf).
  pose proof (pow_e_pos e He) as Hpe.
  pose proof (scale_ge e He (cls + 1) ltac:(lia)) as Hsg.
  assert (Hi : g = 2 ^ ignore_bits_count sc) by apply (wf_gran _ Hwf).
  pose proof (wf_ignore _ Hwf) as Hig.
  assert (Hs32 : scale e (cls + 1) * g < 2 ^ 32) by lia.
  assert (scale e (cls + 1) < 2 ^ 32) by nia.
  unfold small_class_calc_size_by_offset.
  rewrite (u32_small (cls + 1)) by nia.
  rewrite (wf_mask _ Hwf), (wf_size _ Hwf).
  rewrite land_mask, shiftr_div by done. unfold scale in *.
  set (n := cls + 1) in *. pose proof (Z.mod_pos_bound n (2 ^ e) Hpe).
  destruct (Z.ltb_spec n (2 ^ e)).
  - rewrite Z.div_small, Z.mod_small by lia. simpl. rewrite Z.shiftl_0_r.
    rewrite (u32_small n) by lia. rewrite shiftl_mul, <- Hi by done.
    rewrite (u32_small (n * g)) by nia. rewrite u32_small by nia. done.
  - assert (1 <= n / 2 ^ e) by (apply Z.div_le_lower_bound; lia).
    destruct (Z.eqb_spec (n / 2 ^ e) 0); [lia|]. simpl.
    pose proof (pow2_pos (n / 2 ^ e - 1) ltac:(lia)).
    replace (Z.lor (n mod 2 ^ e) (2 ^ e)) with (n mod 2 ^ e + 2 ^ e).
    2:{ pose proof (lor_add 1 (n mod 2 ^ e) e He ltac:(lia)) as Hlor.
        rewrite Z.mul_1_l in Hlor. rewrite Z.lor_comm. lia. }
    rewrite !shiftl_mul, <- Hi by lia.
    set (v := (n mod 2 ^ e + 2 ^ e) * 2 ^ (n / 2 ^ e - 1)) in *.
    rewrite (u32_small v) by lia.
    assert (0 <= v * g) by (apply Z.mul_nonneg_nonneg; lia).
    rewrite (u32_small (v * g)) by lia. rewrite u32_small by lia. done.
Qed.

Lemma granules_le size cls : in_u 32 size -> 0 <= cls ->
  granules size < scale e (cls + 1) <-> size <= class_size sc cls.
Proof.
  intros Hs Hc. unfold class_size, granules. pose proof gran_pos as Hg.
  pose proof (wf_bits _ Hwf) as He.
  pose proof (scale_ge e He (cls + 1) ltac:(lia)).
  destruct (Z.leb_spec size sh).
  - rewrite Z.div_0_l by lia. nia.
  - set (s := scale e (cls + 1)) in *.
    pose proof (Z.mul_div_le (size - sh - 1) g Hg).
    pose proof (Z.mul_succ_div_gt (size - sh - 1) g Hg). nia.
Qed.
End Facts.

Lemma class_size_mono {F} (sc : small_class F) (Hwf : small_class_wf sc) c c' :
  0 <= c < c' -> class_size sc c < class_size sc c'.
Proof.
  intros Hc. unfold class_size. pose proof (gran_pos sc Hwf).
  pose proof (scale_mono _ (wf_bits _ Hwf) (c + 1) (c' + 1) ltac:(lia)). nia.
Qed.

Lemma builtin_ctz_pow2 k : 0 <= k -> builtin_ctz (2 ^ k) = k.
Proof.
  intros Hk. unfold builtin_ctz.
  replace (- 2 ^ k) with (Z.lnot (2 ^ k - 1)) by (unfold Z.lnot; lia).
  rewrite land_not_mask by done.
  rewrite Z.mod_same, Z.sub_0_r by (pose proof (pow2_pos k Hk); lia).
  by apply Z.log2_pow2.
Qed.

(** ** Properties *)

(**  A size class evaluator is created with its derived fields in step: the
    granularity is the power of two of the ignored bits, the mask and the step
    count belong to the number of effective bits, and no field has wrapped, for
    every granularity and lowest class that passes the assertions, is not below
    the granularity and leaves room for the bits. *)
Theorem small_class_create_wf {F} (fo : float_ops F) gran factor min_alloc sc :
  in_u 32 gran -> in_u 32 min_alloc -> gran <= min_alloc ->
  small_class_create fo gran factor min_alloc = Some sc ->
  ignore_bits_count sc + effective_bits sc < 32 ->
  small_class_wf sc /\ granularity sc = gran /\ size_shift sc + gran = min_alloc.
Proof.
  intros Hg Hm Hle H Hfit. unfold small_class_create in H. cases H. simpl in *. bools.
  unfold in_u in *.
  match goal with H : Z.land gran _ = 0 |- _ => rename H into Hp end.
  rewrite u32_small in Hp by lia.
  destruct (pow2b_spec gran) as (k & Hk & ->); [lia|by apply Z.eqb_eq|].
  rewrite builtin_ctz_pow2 in * by done.
  match goal with |- context [f_round_half ?a ?b] => set (r := f_round_half a b) in * end.
  pose proof (u32_range r). set (b := u32 r) in *.
  assert (1 <= 2 ^ b < 2 ^ 32).
  { split; [pose proof (pow2_pos b ltac:(lia)); lia|]. apply Z.pow_lt_mono_r; lia. }
  rewrite shiftl_mul, Z.mul_1_l by lia.
  rewrite (u32_small (2 ^ b)), !(u32_small (min_alloc - 2 ^ k)) by lia.
  rewrite (u32_small (2 ^ b - 1)), (u32_small (_ + 1)) by lia.
  split; [split; simpl; lia|]. split; simpl; [done|lia].
Qed.

(** C36.  Best fit: the class found for a size holds the size and no smaller
    class does. *)
Theorem small_class_best_fit {F} (sc : small_class F) size :
  small_class_wf sc -> in_u 32 size ->
  class_size sc (small_class_calc_offset_by_size sc size) < 2 ^ 32 ->
  let c := small_class_calc_offset_by_size sc size in
  size <= small_class_calc_size_by_offset sc c /\
  forall c', 0 <= c' < c -> small_class_calc_size_by_offset sc c' < size.
Proof.
  intros Hwf Hs Hb c. destruct (calc_offset_interval sc Hwf size Hs) as [Hc Hi].
  fold c in Hc, Hi, Hb. rewrite calc_size_eq by (done || lia).
  split; [apply granules_le; done || lia|]. intros c' Hc'.
  rewrite calc_size_eq; [|done|lia|pose proof (class_size_mono sc Hwf c' c Hc'); lia].
  apply Z.nle_gt. rewrite <- granules_le by (done || lia).
  pose proof (scale_mono _ (wf_bits _ Hwf) (c' + 1) c ltac:(lia)). lia.
Qed.

(**  Round trip: the class of the object size of a class is that class. *)
Theorem small_class_offset_of_size {F} (sc : small_class F) cls :
  small_class_wf sc -> 0 <= cls -> class_size sc cls < 2 ^ 32 ->
  small_class_calc_offset_by_size sc (small_class_calc_size_by_offset sc cls) = cls.
Proof.
  intros Hwf Hc Hb. rewrite calc_size_eq by done. set (size := class_size sc cls) in *.
  pose proof (scale_ge _ (wf_bits _ Hwf) (cls + 1) ltac:(lia)).
  pose proof (gran_pos sc Hwf). pose proof (wf_shift _ Hwf).
  assert (Hs : in_u 32 size) by (unfold in_u, size, class_size in *; nia).
  destruct (calc_offset_interval sc Hwf size Hs) as [Hr Hi].
  apply (scale_unique _ (wf_bits _ Hwf) _ _ (granules sc size)); [lia|done|done|].
  split; [|by apply granules_le].
  destruct (decide (cls = 0)) as [->|]; [rewrite scale_0 by apply (wf_bits _ Hwf);
    by apply granules_range|].
  apply Z.nlt_ge. replace cls with (cls - 1 + 1) at 1 by lia.
  rewrite granules_le by (done || lia).
  pose proof (class_size_mono sc Hwf (cls - 1) cls). lia.
Qed.

(** C40.  The branchless build computes the same class as the branching one. *)
Theorem small_class_branchless_eq {F} (sc : small_class F) size :
  small_class_wf sc -> in_u 32 size ->
  small_class_calc_offset_by_size_branchless sc size =
  small_class_calc_offset_by_size sc size.
Proof.
  intros Hwf Hs.
  unfold small_class_calc_offset_by_size_branchless, small_class_calc_offset_by_size.
  rewrite code_granules by done. pose proof (granules_range sc Hwf size Hs) as Hr.
  set (x := granules sc size) in *. pose proof (wf_bits _ Hwf) as He.
  rewrite (wf_size _ Hwf). pose proof (pow2_pos _ He). rewrite (shiftr_div x (effective_bits sc)) by done.
  destruct (Z.ltb_spec x (2 ^ effective_bits sc)).
  - rewrite Z.div_small by lia. change (small_class_fls (Z.lor 0 1)) with 0.
    rewrite Z.shiftr_0_r, Z.shiftl_0_l, !u32_small by (rewrite ?u32_small; lia). lia.
  - assert (1 <= x / 2 ^ effective_bits sc) by (apply Z.div_le_lower_bound; lia).
    assert (x / 2 ^ effective_bits sc < 2 ^ 32) by (apply Z.div_lt_upper_bound; nia).
    pose proof (Z.log2_nonneg (x / 2 ^ effective_bits sc)).
    assert (Hl : Z.log2 (Z.lor (x / 2 ^ effective_bits sc) 1) =
                 Z.log2 (x / 2 ^ effective_bits sc)).
    { rewrite Z.log2_lor by lia. change (Z.log2 1) with 0. lia. }
    rewrite !small_class_fls_log2; [by rewrite Hl|lia|].
    assert (0 <= Z.lor (x / 2 ^ effective_bits sc) 1) by (apply Z.lor_nonneg; lia).
    assert (Z.lor (x / 2 ^ effective_bits sc) 1 <> 0).
    { intros [? ?]%Z.lor_eq_0_iff. lia. }
    split; [lia|]. apply Z.log2_lt_pow2; [lia|]. rewrite Hl. apply Z.log2_lt_pow2; lia.
Qed.

(** Exponential growth: above the linear part the excess of a class over the
    shift is at most [1 + 2^-e] times that of the previous class, so the waste
    of a best fit is bounded by the growth factor. *)
Theorem small_class_growth {F} (sc : small_class F) c :
  small_class_wf sc -> 2 ^ effective_bits sc <= c + 1 ->
  (class_size sc (c + 1) - size_shift sc) * 2 ^ effective_bits sc <=
  (class_size sc c - size_shift sc) * (2 ^ effective_bits sc + 1).
Proof.
  intros Hwf Hc. unfold class_size. pose proof (wf_bits _ Hwf) as He.
  pose proof (pow2_pos _ He) as Hp. pose proof (gran_pos sc Hwf) as Hg.
  rewrite (scale_step _ He (c + 1)) by lia.
  destruct (Z.ltb_spec (c + 1) (2 ^ effective_bits sc)); [lia|].
  set (p := 2 ^ effective_bits sc) in *.
  assert (p * 2 ^ ((c + 1) / p - 1) <= scale (effective_bits sc) (c + 1)).
  { unfold scale. fold p. destruct (Z.ltb_spec (c + 1) p); [lia|].
    pose proof (Z.mod_pos_bound (c + 1) p Hp).
    assert (0 <= 2 ^ ((c + 1) / p - 1)) by (apply Z.pow_nonneg; lia). nia. }
  nia.
Qed.

(** ** Witnesses *)

(** The evaluator of granularity 8, 4 effective bits (factor about 1.044) and
    lowest class 16. *)
Definition sc_example : small_class unit :=
  {| granularity := 8; ignore_bits_count := 3; effective_bits := 4;
     effective_size := 16; effective_mask := 15; size_shift := 8;
     size_shift_plus_1 := 9; actual_factor := tt |}.

Lemma sc_example_wf : small_class_wf sc_example.
Proof. split; vm_compute; first [done | reflexivity]. Qed.

(** Float operations in which every factor yields 4 effective bits. *)
Definition fo_example : float_ops unit :=
  {| f_of_int := fun _ => tt; logf := fun _ => tt; powf := fun _ _ => tt;
     fdiv := fun _ _ => tt; f_round_half := fun _ => 4;
     fgt := fun _ _ => true; fle := fun _ _ => true |}.

Lemma small_class_create_wf_witness :
  small_class_create fo_example 8 tt 16 = Some sc_example /\
  small_class_wf sc_example /\ granularity sc_example = 8 /\ size_shift sc_example + 8 = 16.
Proof.
  split; [reflexivity|].
  apply (small_class_create_wf fo_example 8 tt 16 sc_example);
    [split; vm_compute; congruence | split; vm_compute; congruence | lia | reflexivity
    | reflexivity].
Defined.

Lemma small_class_best_fit_witness :
  small_class_calc_offset_by_size sc_example 1000 = 62 /\
  1000 <= small_class_calc_size_by_offset sc_example 62 /\
  small_class_calc_size_by_offset sc_example 61 < 1000.
Proof.
  split; [reflexivity|].
  destruct (small_class_best_fit sc_example 1000 sc_example_wf) as [H1 H2];
    [split; vm_compute; congruence | reflexivity |].
  split; [exact H1 | apply H2; split; vm_compute; congruence].
Defined.

Lemma small_class_offset_of_size_witness :
  small_class_calc_offset_by_size sc_example
    (small_class_calc_size_by_offset sc_example 40) = 40.
Proof.
  apply (small_class_offset_of_size sc_example 40 sc_example_wf);
    vm_compute; congruence.
Defined.

Lemma small_class_branchless_eq_witness :
  small_class_calc_offset_by_size_branchless sc_example 777 =
  small_class_calc_offset_by_size sc_example 777.
Proof.
  apply (small_class_branchless_eq sc_example 777 sc_example_wf).
  split; vm_compute; congruence.
Defined.

Lemma small_class_growth_witness :
  (class_size sc_example 51 - 8) * 16 <= (class_size sc_example 50 - 8) * 17.
Proof.
  apply (small_class_growth sc_example 50 sc_example_wf). vm_compute; congruence.
Defined.
