(* ===== verification/Quota.v ===== *)
(** * Memory quota: [include/small/quota.h]

    One 64-bit word holds the limit (high half) and the usage (low half) in
    units of 1024 bytes; every update is a compare-and-swap loop.  The body of
    each loop is a function of the word it read; [cas_loop] runs it alone and
    the relation [step] runs any number of threads, one memory access per step,
    with the spurious failures of a weak compare-and-swap. *)
From S2P Require Import Prelude.

(** ** Definitions *)

Definition QUOTA_UNIT_SIZE : Z := 1024.

Definition QUOTA_MAX : Z :=
  if QUOTA_UNIT_SIZE * UINT32_MAX >? SIZE_MAX then SIZE_MAX - QUOTA_UNIT_SIZE + 1
  else QUOTA_UNIT_SIZE * UINT32_MAX.

Record quota := Quota { value : Z }.

Definition quota_init (total : Z) : quota :=
  let new_total := u64 (total + (QUOTA_UNIT_SIZE - 1)) / QUOTA_UNIT_SIZE in
  {| value := u64 (Z.shiftl new_total 32) |}.

Definition quota_total (q : quota) : Z := u64 (Z.shiftr (value q) 32 * QUOTA_UNIT_SIZE).

Definition quota_used (q : quota) : Z :=
  u64 (Z.land (value q) UINT32_MAX * QUOTA_UNIT_SIZE).

Definition quota_get_total_and_used (q : quota) : Z * Z :=
  let v := value q in
  (u64 (Z.shiftr v 32 * QUOTA_UNIT_SIZE), u64 (Z.land v UINT32_MAX * QUOTA_UNIT_SIZE)).

(** What the body of a loop does with the word it read: leave the function, or
    try to replace the word and leave the function if that succeeds. *)
Inductive attempt :=
  | Return (r : Z)
  | Cas (expected new_value r : Z).

(** The size in units, [uint32_t]. *)
Definition in_units (size : Z) : Z :=
  u32 (u64 (size + (QUOTA_UNIT_SIZE - 1)) / QUOTA_UNIT_SIZE).

(** [ndebug] selects the build without assertions. *)
Definition quota_set_body (new_total_in_units v : Z) : option attempt :=
  let used_in_units := u32 (Z.land v UINT32_MAX) in
  if new_total_in_units <? used_in_units then Some (Return (-1))
  else
    let new_value := Z.lor (u64 (Z.shiftl new_total_in_units 32)) used_in_units in
    Some (Cas v new_value (new_total_in_units * QUOTA_UNIT_SIZE)).

Definition quota_use_body (ndebug : bool) (size_in_units v : Z) : option attempt :=
  let total_in_units := u32 (Z.shiftr v 32) in
  let used_in_units := u32 (Z.land v UINT32_MAX) in
  let new_used_in_units := u32 (used_in_units + size_in_units) in
  ASSERT ndebug || (new_used_in_units >? used_in_units);
  if new_used_in_units >? total_in_units then Some (Return (-1))
  else
    let new_value := Z.lor (u64 (Z.shiftl total_in_units 32)) new_used_in_units in
    Some (Cas v new_value (size_in_units * QUOTA_UNIT_SIZE)).

Definition quota_release_body (ndebug : bool) (size_in_units v : Z) : option attempt :=
  let total_in_units := u32 (Z.shiftr v 32) in
  let used_in_units := u32 (Z.land v UINT32_MAX) in
  ASSERT ndebug || (size_in_units <=? used_in_units);
  let new_used_in_units := u32 (used_in_units - size_in_units) in
  let new_value := Z.lor (u64 (Z.shiftl total_in_units 32)) new_used_in_units in
  Some (Cas v new_value (size_in_units * QUOTA_UNIT_SIZE)).

(** The loop run alone: the word does not change between the read and the
    compare-and-swap. *)
Definition cas_loop (body : Z -> option attempt) (q : quota) : option (Z * quota) :=
  match body (value q) with
  | Some (Return r) => Some (r, q)
  | Some (Cas expected new_value r) =>
      ASSERT value q =? expected; Some (r, {| value := new_value |})
  | None => None
  end.

Definition quota_set (ndebug : bool) (q : quota) (new_total : Z) : option (Z * quota) :=
  ASSERT ndebug || (new_total <=? QUOTA_MAX);
  cas_loop (quota_set_body (in_units new_total)) q.

Definition quota_use (ndebug : bool) (q : quota) (size : Z) : option (Z * quota) :=
  if size >? QUOTA_MAX then Some (-1, q)
  else
    let size_in_units := in_units size in
    ASSERT ndebug || negb (size_in_units =? 0);
    cas_loop (quota_use_body ndebug size_in_units) q.

Definition quota_release (ndebug : bool) (q : quota) (size : Z) : option (Z * quota) :=
  ASSERT ndebug || (size <? QUOTA_MAX);
  let size_in_units := in_units size in
  ASSERT ndebug || negb (size_in_units =? 0);
  cas_loop (quota_release_body ndebug size_in_units) q.

(** ** Threads *)

Inductive op := OpSet (new_total : Z) | OpUse (size : Z) | OpRelease (size : Z).

Definition units_of (o : op) : Z :=
  match o with OpSet n | OpUse n | OpRelease n => in_units n end.

(** The part of an operation before its loop: [None] if an assertion fails,
    [Some (Some r)] if it returns at once. *)
Definition enter (o : op) : option (option Z) :=
  match o with
  | OpSet n => ASSERT n <=? QUOTA_MAX; Some None
  | OpUse n => if n >? QUOTA_MAX then Some (Some (-1))
               else ASSERT negb (in_units n =? 0); Some None
  | OpRelease n => ASSERT n <? QUOTA_MAX;
                   ASSERT negb (in_units n =? 0); Some None
  end.

Definition body (o : op) : Z -> option attempt :=
  match o with
  | OpSet n => quota_set_body (in_units n)
  | OpUse n => quota_use_body false (in_units n)
  | OpRelease n => quota_release_body false (in_units n)
  end.

Inductive pc := Idle | AtRead (o : op) | AtCas (o : op) (expected new_value r : Z) | Crashed.

(** A thread and the units it obtained and has not given back. *)
Record thread := Thread { held : Z; at_pc : pc }.

(** The units a successful operation moves to the thread. *)
Definition gain (o : op) : Z :=
  match o with OpSet _ => 0 | OpUse _ => units_of o | OpRelease _ => - units_of o end.

Record system := System { word : quota; threads : list thread }.

(** A completed operation and its result. *)
Definition event : Type := op * Z.

(** The specification: a pair (limit, usage) and atomic operations on it. *)
Definition spec (o : op) (tu : Z * Z) : Z * (Z * Z) :=
  let '(t, u) := tu in
  let n := units_of o in
  match o with
  | OpSet _ => if n <? u then (-1, tu) else (n * QUOTA_UNIT_SIZE, (n, u))
  | OpUse s => if (s >? QUOTA_MAX) || (u + n >? t) then (-1, tu)
               else (n * QUOTA_UNIT_SIZE, (t, u + n))
  | OpRelease _ => (n * QUOTA_UNIT_SIZE, (t, u - n))
  end.

(** The word that holds a pair. *)
Definition enc (tu : Z * Z) : Z := tu.1 * 2 ^ 32 + tu.2.

Section Concurrent.
Context (cap : Z).

(** What a thread may call: limits up to [cap] units, requests that cannot
    carry the sum of two 32-bit halves over, releases of what it holds. *)
Definition may_call (o : op) (h : Z) : Prop :=
  match o with
  | OpSet n => 0 <= n <= cap * QUOTA_UNIT_SIZE
  | OpUse n => 0 < n < 2 ^ 64 /\ (n <= QUOTA_MAX -> in_units n + cap < 2 ^ 32)
  | OpRelease n => 0 < n < QUOTA_MAX /\ in_units n <= h
  end.

(** One step of thread [i], with the event it completes, if any. *)
Inductive step : system -> option event -> system -> Prop :=
  | step_enter i w l h o :
      l !! i = Some (Thread h Idle) -> may_call o h -> enter o = Some None ->
      step (System w l) None (System w (<[i := Thread h (AtRead o)]> l))
  | step_enter_return i w l h o r :
      l !! i = Some (Thread h Idle) -> may_call o h -> enter o = Some (Some r) ->
      step (System w l) (Some (o, r)) (System w l)
  | step_enter_crash i w l h o :
      l !! i = Some (Thread h Idle) -> may_call o h -> enter o = None ->
      step (System w l) None (System w (<[i := Thread h Crashed]> l))
  | step_read i w l h o e n r :
      l !! i = Some (Thread h (AtRead o)) -> body o (value w) = Some (Cas e n r) ->
      step (System w l) None (System w (<[i := Thread h (AtCas o e n r)]> l))
  | step_read_return i w l h o r :
      l !! i = Some (Thread h (AtRead o)) -> body o (value w) = Some (Return r) ->
      step (System w l) (Some (o, r)) (System w (<[i := Thread h Idle]> l))
  | step_read_crash i w l h o :
      l !! i = Some (Thread h (AtRead o)) -> body o (value w) = None ->
      step (System w l) None (System w (<[i := Thread h Crashed]> l))
  | step_cas i w l h o e n r :
      l !! i = Some (Thread h (AtCas o e n r)) -> value w = e ->
      step (System w l) (Some (o, r))
           (System (Quota n) (<[i := Thread (h + gain o) Idle]> l))
  | step_cas_fail i w l h o e n r :
      l !! i = Some (Thread h (AtCas o e n r)) ->
      step (System w l) None (System w (<[i := Thread h (AtRead o)]> l)).

(** Executions and the events they complete, in order. *)
Inductive run (s0 : system) : list event -> system -> Prop :=
  | run_nil : run s0 [] s0
  | run_step tr s1 e s2 :
      run s0 tr s1 -> step s1 e s2 -> run s0 (tr ++ option_list e) s2.
End Concurrent.

(** The specification run on a list of events: the results must be the ones the
    events carry. *)
Fixpoint spec_run (tu : Z * Z) (tr : list event) : option (Z * Z) :=
  match tr with
  | [] => Some tu
  | (o, r) :: tr' =>
      let '(r', tu') := spec o tu in
      ASSERT r =? r'; spec_run tu' tr'
  end.

(** The start: a limit of [total] bytes, [n] idle threads that hold nothing. *)
Definition initial (total : Z) (n : nat) : system :=
  System (quota_init total) (replicate n (Thread 0 Idle)).

(** ** The word *)

Definition tu_ok (cap : Z) (tu : Z * Z) : Prop :=
  0 <= tu.2 <= tu.1 /\ tu.1 <= cap.

Lemma QUOTA_MAX_eq : QUOTA_MAX = 1024 * (2 ^ 32 - 1).
Proof. reflexivity. Qed.

Lemma in_units_eq n : 0 <= n <= QUOTA_MAX ->
  in_units n = (n + 1023) / 1024 /\ 0 <= in_units n < 2 ^ 32.
Proof.
  rewrite QUOTA_MAX_eq. intros Hn. unfold in_units, QUOTA_UNIT_SIZE.
  rewrite (u64_small (n + (1024 - 1))) by lia.
  assert (0 <= (n + 1023) / 1024 < 2 ^ 32)
    by (split; [apply Z.div_pos; lia | apply Z.div_lt_upper_bound; lia]).
  replace (n + (1024 - 1)) with (n + 1023) by lia. rewrite u32_small by done. done.
Qed.

Lemma in_units_pos n : 0 < n <= QUOTA_MAX -> 0 < in_units n.
Proof.
  intros Hn. destruct (in_units_eq n ltac:(lia)) as [-> _]. apply Z.div_str_pos. lia.
Qed.

Lemma in_units_covers n : 0 <= n <= QUOTA_MAX -> n <= in_units n * 1024 < n + 1024.
Proof.
  intros Hn. destruct (in_units_eq n Hn) as [-> _]. Z.to_euclidean_division_equations. lia.
Qed.

Section Word.
Context (t u : Z) (Ht : 0 <= t < 2 ^ 32) (Hu : 0 <= u < 2 ^ 32).

Lemma enc_total : Z.shiftr (enc (t, u)) 32 = t.
Proof.
  unfold enc. simpl. rewrite shiftr_div by lia. rewrite Z.div_add_l, Z.div_small; lia.
Qed.

Lemma enc_used : Z.land (enc (t, u)) UINT32_MAX = u.
Proof.
  unfold enc, UINT32_MAX. simpl. rewrite land_mask by lia.
  rewrite Z.add_comm, Z.mod_add, Z.mod_small; lia.
Qed.

Lemma enc_lor : Z.lor (u64 (Z.shiftl t 32)) u = enc (t, u).
Proof.
  unfold enc. simpl. rewrite shiftl_mul, u64_small by lia. apply lor_add; lia.
Qed.
End Word.

#[export] Hint Rewrite enc_total enc_used enc_lor using lia : small.

Lemma quota_init_enc total :
  0 <= total <= QUOTA_MAX -> value (quota_init total) = enc (in_units total, 0).
Proof.
  intros Ht. destruct (in_units_eq total Ht) as [He Hr].
  unfold quota_init, enc. simpl. rewrite He in *.
  rewrite QUOTA_MAX_eq in Ht. unfold QUOTA_UNIT_SIZE. rewrite (u64_small (total + _)) by lia.
  replace (total + (1024 - 1)) with (total + 1023) by lia.
  rewrite shiftl_mul, u64_small by lia. lia.
Qed.

(** The arguments under which an operation is defined on a legal pair. *)
Definition call_ok (cap : Z) (tu : Z * Z) (o : op) : Prop :=
  match o with
  | OpSet n => 0 <= n <= QUOTA_MAX /\ in_units n <= cap
  | OpUse n => 0 < n < 2 ^ 64 /\ (n <= QUOTA_MAX -> tu.2 + in_units n < 2 ^ 32)
  | OpRelease n => 0 < n < QUOTA_MAX /\ in_units n <= tu.2
  end.

(** What [body] returns, read against the specification. *)
Definition attempt_refines (cap : Z) (tu : Z * Z) (o : op) (a : option attempt) : Prop :=
  match a with
  | Some (Return r) => spec o tu = (r, tu)
  | Some (Cas e n r) => e = enc tu /\ exists tu', spec o tu = (r, tu') /\ n = enc tu' /\
      tu_ok cap tu' /\ tu'.2 = tu.2 + gain o
  | None => False
  end.

(** The body of a loop run on a word that holds a legal pair does what the
    specification says, and its assertions hold. *)
Lemma body_spec cap tu o :
  cap < 2 ^ 32 -> tu_ok cap tu -> call_ok cap tu o -> enter o = Some None ->
  attempt_refines cap tu o (body o (enc tu)).
Proof.
  destruct tu as [t u]. unfold tu_ok, attempt_refines. simpl. intros Hc Htu Hm He.
  destruct o as [n|n|n]; simpl in *; cases He; bools.
  - destruct Hm as [Hn Hcap]. destruct (in_units_eq n ltac:(lia)) as [_ Hr].
    unfold quota_set_body. rewrite enc_used, u32_small by lia.
    destruct (Z.ltb_spec (in_units n) u); [done|].
    rewrite enc_lor by lia. split; [done|]. eexists.
    split; [done|]. split; [done|]. unfold tu_ok. simpl. lia.
  - destruct Hm as [Hn Hcap]. specialize (Hcap ltac:(lia)).
    destruct (in_units_eq n ltac:(lia)) as [He Hr].
    unfold quota_use_body. rewrite enc_used, enc_total, !(u32_small u), !(u32_small t) by lia.
    rewrite (u32_small (u + in_units n)) by lia. simpl.
    destruct (Z.gtb_spec (u + in_units n) u); [|lia].
    destruct (Z.gtb_spec n QUOTA_MAX); [lia|]. simpl.
    destruct (Z.gtb_spec (u + in_units n) t); [done|].
    rewrite enc_lor by lia. split; [done|]. eexists.
    split; [done|]. split; [done|]. unfold tu_ok. simpl. lia.
  - destruct Hm as [Hn Hle]. destruct (in_units_eq n ltac:(lia)) as [He Hr].
    unfold quota_release_body. rewrite enc_used, enc_total, !(u32_small u), !(u32_small t) by lia.
    destruct (Z.leb_spec (in_units n) u); [|lia]. simpl.
    rewrite (u32_small (u - in_units n)) by lia. rewrite enc_lor by lia.
    split; [done|]. eexists. split; [done|]. split; [done|]. unfold tu_ok. simpl. lia.
Qed.

Lemma may_call_ok cap tu o h :
  cap < 2 ^ 32 -> tu_ok cap tu -> h <= tu.2 -> may_call cap o h -> call_ok cap tu o.
Proof.
  intros Hc [Hu Ht] Hh Hm. pose proof QUOTA_MAX_eq.
  destruct o as [n|n|n]; simpl in *; unfold QUOTA_UNIT_SIZE in *.
  - split; [lia|]. destruct (in_units_eq n ltac:(lia)) as [-> _].
    Z.to_euclidean_division_equations. lia.
  - split; [lia|]. intros Hle. destruct Hm as [_ Hm]. specialize (Hm Hle). lia.
  - lia.
Qed.

Lemma enter_ok cap o h : cap < 2 ^ 32 -> may_call cap o h -> enter o <> None.
Proof.
  intros Hc Hm. pose proof QUOTA_MAX_eq.
  destruct o as [n|n|n]; simpl in *; unfold QUOTA_UNIT_SIZE in *.
  - destruct (Z.leb_spec n QUOTA_MAX); [done|lia].
  - destruct (Z.gtb_spec n QUOTA_MAX); [done|].
    pose proof (in_units_pos n). destruct (Z.eqb_spec (in_units n) 0); [lia|done].
  - destruct (Z.ltb_spec n QUOTA_MAX); [|lia].
    pose proof (in_units_pos n). destruct (Z.eqb_spec (in_units n) 0); [lia|done].
Qed.

Lemma enter_return o tu r : enter o = Some (Some r) -> spec o tu = (r, tu).
Proof.
  destruct tu as [t u]. destruct o as [n|n|n]; simpl; intros H; cases H. done.
Qed.

(** ** The invariant *)

Definition pc_ok (cap h : Z) (p : pc) : Prop :=
  match p with
  | Idle => True
  | AtRead o => may_call cap o h /\ enter o = Some None
  | AtCas o e n r => may_call cap o h /\ enter o = Some None /\ body o e = Some (Cas e n r)
  | Crashed => False
  end.

Definition thread_ok (cap : Z) (th : thread) : Prop :=
  0 <= held th /\ pc_ok cap (held th) (at_pc th).

Definition sys_inv (cap : Z) (tu : Z * Z) (s : system) : Prop :=
  value (word s) = enc tu /\ tu_ok cap tu /\ tu.2 = zsum held (threads s) /\
  Forall (thread_ok cap) (threads s).

Lemma sys_inv_held cap tu w l i th :
  sys_inv cap tu (System w l) -> l !! i = Some th ->
  thread_ok cap th /\ held th <= tu.2.
Proof.
  intros (_ & _ & Hs & Hf) Hi. simpl in *.
  split; [by eapply Forall_lookup_1|]. rewrite Hs.
  apply (zsum_elem held l i); [|done].
  intros x Hx. rewrite Forall_forall in Hf. by apply Hf.
Qed.

(** A step of thread [i] that keeps the word and what the thread holds. *)
Lemma sys_inv_keep cap tu w l i h p p' :
  sys_inv cap tu (System w l) -> l !! i = Some (Thread h p) -> pc_ok cap h p' ->
  sys_inv cap tu (System w (<[i := Thread h p']> l)).
Proof.
  intros Hinv Hi Hp. pose proof (sys_inv_held _ _ _ _ _ _ Hinv Hi) as [[Hh _] _].
  destruct Hinv as (Hw & Hok & Hs & Hf). split_and!; simpl in *; [done..| |].
  - rewrite (zsum_insert _ _ _ _ _ Hi). simpl. lia.
  - apply Forall_insert; done.
Qed.

(** One step preserves the invariant and is a step of the specification. *)
Lemma step_refines cap tu s e s' :
  cap < 2 ^ 32 -> sys_inv cap tu s -> step cap s e s' ->
  exists tu', sys_inv cap tu' s' /\
    match e with Some (o, r) => spec o tu = (r, tu') | None => tu' = tu end.
Proof.
  intros Hc Hinv Hst. destruct Hst as [i w l h o Hi Hm He|i w l h o r Hi Hm He|i w l h o Hi Hm He
    |i w l h o e n r Hi Hb|i w l h o r Hi Hb|i w l h o Hi Hb|i w l h o e n r Hi Hv|i w l h o e n r Hi];
  pose proof (sys_inv_held _ _ _ _ _ _ Hinv Hi) as [[Hh Hp] Hle]; simpl in Hh, Hp, Hle.
  - exists tu. split; [|done]. by eapply sys_inv_keep.
  - exists tu. split; [done|]. by apply enter_return.
  - by destruct (enter_ok cap o h).
  - exists tu. split; [|done]. eapply sys_inv_keep; [done..|]. destruct Hp as [Hm He].
    split_and!; [done..|]. pose proof Hinv as (Hw & Hok & _). simpl in Hw.
    pose proof (body_spec cap tu o Hc Hok (may_call_ok _ _ _ _ Hc Hok Hle Hm) He) as Hb'.
    rewrite <- Hw, Hb in Hb'. destruct Hb' as [-> _]. by rewrite <- Hb, Hw.
  - exists tu. destruct Hp as [Hm He]. split; [by eapply sys_inv_keep|].
    pose proof Hinv as (Hw & Hok & _). simpl in Hw.
    pose proof (body_spec cap tu o Hc Hok (may_call_ok _ _ _ _ Hc Hok Hle Hm) He) as Hb'. by rewrite <- Hw, Hb in Hb'.
  - exfalso. destruct Hp as [Hm He]. destruct Hinv as (Hw & Hok & _). simpl in Hw.
    pose proof (body_spec cap tu o Hc Hok (may_call_ok _ _ _ _ Hc Hok Hle Hm) He) as Hb'. by rewrite <- Hw, Hb in Hb'.
  - destruct Hp as (Hm & He & Hb). destruct Hinv as (Hw & Hok & Hs & Hf). simpl in *.
    pose proof (body_spec cap tu o Hc Hok (may_call_ok _ _ _ _ Hc Hok Hle Hm) He) as Hb'.
    rewrite <- Hw, Hv, Hb in Hb'. destruct Hb' as (_ & tu' & Hsp & -> & Hok' & Hg).
    exists tu'. split; [|done]. split_and!; simpl; [done..| |].
    + rewrite (zsum_insert _ _ _ _ _ Hi). simpl. lia.
    + apply Forall_insert; [done|]. split; [simpl|done].
      destruct o; simpl in Hm |- *; [lia| |lia].
      pose proof (u32_range (u64 (size + (QUOTA_UNIT_SIZE - 1)) / QUOTA_UNIT_SIZE)) as [Hu _].
      fold (in_units size) in Hu. lia.
  - exists tu. split; [|done]. destruct Hp as (Hm & He & _). by eapply sys_inv_keep.
Qed.

Lemma spec_run_snoc tu tr o r tu1 tu2 :
  spec_run tu tr = Some tu1 -> spec o tu1 = (r, tu2) ->
  spec_run tu (tr ++ [(o, r)]) = Some tu2.
Proof.
  revert tu. induction tr as [|[o' r'] tr IH]; intros tu; simpl.
  - intros [= ->] ->. by rewrite Z.eqb_refl.
  - destruct (spec o' tu) as [r'' tu'] eqn:E. destruct (r' =? r''); [|done]. apply IH.
Qed.

Lemma run_refines cap tu s0 tr s :
  cap < 2 ^ 32 -> sys_inv cap tu s0 -> run cap s0 tr s ->
  exists tu', sys_inv cap tu' s /\ spec_run tu tr = Some tu'.
Proof.
  intros Hc Hinv. induction 1 as [|tr s1 e s2 Hr (tu1 & Hinv1 & Hsp) Hst].
  - by exists tu.
  - destruct (step_refines cap tu1 s1 e s2 Hc Hinv1 Hst) as (tu2 & Hinv2 & He).
    exists tu2. split; [done|]. destruct e as [[o r]|]; simpl.
    + by eapply spec_run_snoc.
    + rewrite app_nil_r. by rewrite He.
Qed.

Lemma initial_inv cap total n :
  0 <= total <= QUOTA_MAX -> in_units total <= cap ->
  sys_inv cap (in_units total, 0) (initial total n).
Proof.
  intros Ht Hc. destruct (in_units_eq total Ht) as [_ Hr]. split_and!; simpl.
  - by apply quota_init_enc.
  - unfold tu_ok. simpl. lia.
  - by induction n.
  - apply Forall_replicate. done.
Qed.

(** The sequential entry points, by operation. *)
Definition call (o : op) (q : quota) : option (Z * quota) :=
  match o with
  | OpSet n => quota_set false q n
  | OpUse n => quota_use false q n
  | OpRelease n => quota_release false q n
  end.

Lemma call_enter o q :
  call o q = match enter o with
             | Some None => cas_loop (body o) q
             | Some (Some r) => Some (r, q)
             | None => None
             end.
Proof.
  destruct o as [n|n|n]; simpl;
    [unfold quota_set|unfold quota_use|unfold quota_release]; simpl;
    repeat case_match; naive_solver.
Qed.

Lemma call_refines t u o :
  0 <= u <= t -> t < 2 ^ 32 -> call_ok (2 ^ 32 - 1) (t, u) o ->
  call o (Quota (enc (t, u))) =
  let '(r, tu') := spec o (t, u) in Some (r, Quota (enc tu')).
Proof.
  intros Hu Ht Hc. rewrite call_enter.
  destruct (enter o) as [[r|]|] eqn:He.
  - by rewrite (enter_return o (t, u) r He).
  - assert (Hok : tu_ok (2 ^ 32 - 1) (t, u)) by (unfold tu_ok; simpl; lia).
    pose proof (body_spec (2 ^ 32 - 1) (t, u) o ltac:(lia) Hok Hc He) as Hb.
    unfold cas_loop. cbn [value]. destruct (body o (enc (t, u))) as [[r|e n r]|]; [|..|done].
    + unfold attempt_refines in Hb. by rewrite Hb.
    + destruct Hb as (-> & tu' & -> & -> & _). by rewrite Z.eqb_refl.
  - exfalso. destruct o as [n|n|n]; simpl in *; cases He; bools;
      try (pose proof (in_units_pos n); lia).
Qed.

(** The two operations the allocators call, on a decoded word. *)
Lemma quota_use_enc t u size :
  0 <= u <= t -> t < 2 ^ 32 -> 0 < size <= QUOTA_MAX -> u + in_units size < 2 ^ 32 ->
  quota_use false (Quota (enc (t, u))) size =
  if u + in_units size >? t then Some (-1, Quota (enc (t, u)))
  else Some (in_units size * 1024, Quota (enc (t, u + in_units size))).
Proof.
  intros Hu Ht Hs Hn. pose proof QUOTA_MAX_eq.
  pose proof (call_refines t u (OpUse size) Hu Ht) as Hc. simpl in Hc. rewrite Hc.
  - destruct (Z.gtb_spec size QUOTA_MAX); [lia|]. simpl.
    by destruct (u + in_units size >? t).
  - lia.
Qed.

Lemma quota_release_enc t u size :
  0 <= u <= t -> t < 2 ^ 32 -> 0 < size < QUOTA_MAX -> in_units size <= u ->
  quota_release false (Quota (enc (t, u))) size =
  Some (in_units size * 1024, Quota (enc (t, u - in_units size))).
Proof. intros Hu Ht Hs Hn. by apply (call_refines t u (OpRelease size) Hu Ht). Qed.

Lemma quota_decode t u :
  0 <= t < 2 ^ 32 -> 0 <= u < 2 ^ 32 ->
  quota_total (Quota (enc (t, u))) = t * 1024 /\ quota_used (Quota (enc (t, u))) = u * 1024.
Proof.
  intros Ht Hu. unfold quota_total, quota_used, QUOTA_UNIT_SIZE. simpl.
  rewrite enc_total, enc_used, !u64_small by lia. done.
Qed.

(** ** Properties *)

(**  Sequential correctness: on a word that holds limit [t] and usage [u],
    [quota_set], [quota_use] and [quota_release] return the result and leave the
    pair that the specification gives (the limit is not lowered below the usage,
    the usage does not pass the limit, refusals change nothing), without
    tripping an assertion, when the request does not carry the sum of the
    32-bit halves over. *)
Theorem quota_sequential t u o :
  0 <= u <= t -> t < 2 ^ 32 -> call_ok (2 ^ 32 - 1) (t, u) o ->
  call o (Quota (enc (t, u))) =
  let '(r, tu') := spec o (t, u) in Some (r, Quota (enc tu')).
Proof. apply call_refines. Qed.

(**  Thread safety: in every state any number of threads can reach, whatever
    the interleaving of their reads and compare-and-swaps, the usage is exactly
    what the threads hold and does not pass the limit, and no thread has failed
    an assertion. *)
Theorem quota_concurrent_safe cap total n tr s :
  cap < 2 ^ 32 -> 0 <= total <= QUOTA_MAX -> in_units total <= cap ->
  run cap (initial total n) tr s ->
  quota_used (word s) <= quota_total (word s) /\
  quota_used (word s) = QUOTA_UNIT_SIZE * zsum held (threads s) /\
  Forall (fun th => at_pc th <> Crashed) (threads s).
Proof.
  intros Hc Ht Hle Hr.
  destruct (run_refines cap _ _ _ _ Hc (initial_inv cap total n Ht Hle) Hr)
    as ([t u] & (Hw & [Hu Htc] & Hs & Hf) & _). simpl in *.
  destruct s as [[w] l]. simpl in *. subst w.
  destruct (quota_decode t u) as [-> ->]; [lia..|]. unfold QUOTA_UNIT_SIZE.
  split_and!; [lia..|]. eapply Forall_impl; [done|].
  intros [h p] [_ Hp]. simpl in *. by intros ->.
Qed.

(** C9.  Linearizability: the operations completed by a concurrent execution, in
    the order of their linearization points and with the results they returned,
    are a sequential execution of the specification, and the word holds the pair
    that execution ends in. *)
Theorem quota_linearizable cap total n tr s :
  cap < 2 ^ 32 -> 0 <= total <= QUOTA_MAX -> in_units total <= cap ->
  run cap (initial total n) tr s ->
  exists t u, spec_run (in_units total, 0) tr = Some (t, u) /\
    quota_get_total_and_used (word s) = (t * QUOTA_UNIT_SIZE, u * QUOTA_UNIT_SIZE).
Proof.
  intros Hc Ht Hle Hr.
  destruct (run_refines cap _ _ _ _ Hc (initial_inv cap total n Ht Hle) Hr)
    as ([t u] & (Hw & [Hu Htc] & _) & Hsp). simpl in *.
  exists t, u. split; [done|]. destruct s as [[w] l]. simpl in *. subst w.
  unfold quota_get_total_and_used. destruct (quota_decode t u) as [H1 H2]; [lia..|].
  unfold quota_total, quota_used in *. simpl in *. by rewrite H1, H2.
Qed.

(**  Without assertions [quota_use] can be defeated: a request whose size
    carries the 32-bit sum over is granted, however far it exceeds the limit,
    and the recorded usage drops; the build with assertions aborts instead. *)
Theorem quota_use_carry_ndebug t u size :
  0 <= u <= t -> t < 2 ^ 32 -> 0 < size <= QUOTA_MAX ->
  2 ^ 32 <= u + in_units size <= t + 2 ^ 32 ->
  quota_use true (Quota (enc (t, u))) size =
    Some (in_units size * QUOTA_UNIT_SIZE, Quota (enc (t, u + in_units size - 2 ^ 32))) /\
  quota_use false (Quota (enc (t, u))) size = None.
Proof.
  intros Hu Ht Hs Hw. destruct (in_units_eq size ltac:(lia)) as [_ Hr].
  assert (Hm : u32 (u + in_units size) = u + in_units size - 2 ^ 32) by wordlia.
  unfold quota_use, cas_loop, quota_use_body. simpl.
  destruct (Z.gtb_spec size QUOTA_MAX); [lia|].
  rewrite enc_used, enc_total, !(u32_small u), !(u32_small t), !Hm by lia.
  destruct (Z.gtb_spec (u + in_units size - 2 ^ 32) t); [lia|].
  destruct (Z.gtb_spec (u + in_units size - 2 ^ 32) u); [lia|].
  rewrite enc_lor, Z.eqb_refl by lia. split; [done|].
  by destruct (negb (in_units size =? 0)).
Qed.

(** ** Witnesses *)

Lemma quota_sequential_witness :
  call (OpUse 5000) (Quota (enc (100, 50))) = Some (5120, Quota (enc (100, 55))).
Proof.
  apply (quota_sequential 100 50 (OpUse 5000)); [lia|lia|].
  split; [lia|]. vm_compute. congruence.
Defined.

(** Two threads, one of which holds the quota it asked for while the other is
    between its read and its compare-and-swap. *)
Definition example_run : system :=
  System (Quota (enc (100, 3)))
    [Thread 3 Idle; Thread 0 (AtCas (OpUse 2048) (enc (100, 0)) (enc (100, 2)) 2048)].

Lemma example_runs :
  run 200 (initial (100 * 1024) 2) [(OpUse 3000, 3072)] example_run.
Proof.
  set (w := Quota (enc (100, 0))).
  set (a := AtCas (OpUse 3000) (enc (100, 0)) (enc (100, 3)) 3072).
  set (b := AtCas (OpUse 2048) (enc (100, 0)) (enc (100, 2)) 2048).
  assert (Hm : may_call 200 (OpUse 3000) 0 /\ may_call 200 (OpUse 2048) 0).
  { split; (split; [lia | intros _; reflexivity]). }
  apply (run_step _ _ [] (System w [Thread 0 a; Thread 0 b]) (Some (OpUse 3000, 3072)));
    [|by refine (step_cas 200 0 w _ 0 (OpUse 3000) (enc (100, 0)) (enc (100, 3)) 3072 _ _)].
  apply (run_step _ _ [] (System w [Thread 0 a; Thread 0 (AtRead (OpUse 2048))]) None);
    [|by refine (step_read 200 1 w _ 0 (OpUse 2048) (enc (100, 0)) (enc (100, 2)) 2048 _ _)].
  apply (run_step _ _ [] (System w [Thread 0 a; Thread 0 Idle]) None);
    [|by refine (step_enter 200 1 w _ 0 (OpUse 2048) _ _ _); [|apply Hm|]].
  apply (run_step _ _ [] (System w [Thread 0 (AtRead (OpUse 3000)); Thread 0 Idle]) None);
    [|by refine (step_read 200 0 w _ 0 (OpUse 3000) (enc (100, 0)) (enc (100, 3)) 3072 _ _)].
  apply (run_step _ _ [] (System w [Thread 0 Idle; Thread 0 Idle]) None);
    [|by refine (step_enter 200 0 w _ 0 (OpUse 3000) _ _ _); [|apply Hm|]].
  apply run_nil.
Qed.

Lemma quota_concurrent_safe_witness :
  quota_used (word example_run) <= quota_total (word example_run) /\
  quota_used (word example_run) = 1024 * 3.
Proof.
  destruct (quota_concurrent_safe 200 (100 * 1024) 2 [(OpUse 3000, 3072)] example_run)
    as (H1 & H2 & _); [lia | split; vm_compute; congruence | vm_compute; congruence
    | exact example_runs |].
  split; [exact H1 | exact H2].
Defined.

Lemma quota_linearizable_witness :
  exists t u, spec_run (100, 0) [(OpUse 3000, 3072)] = Some (t, u) /\
    quota_get_total_and_used (word example_run) = (t * QUOTA_UNIT_SIZE, u * QUOTA_UNIT_SIZE).
Proof.
  apply (quota_linearizable 200 (100 * 1024) 2 [(OpUse 3000, 3072)] example_run);
    [lia | split; vm_compute; congruence | vm_compute; congruence | exact example_runs].
Defined.

(** A quota of 100 units of which 50 are in use grants almost 4 TB. *)
Lemma quota_use_carry_ndebug_witness :
  quota_use true (Quota (enc (100, 50))) ((2 ^ 32 - 10) * 1024) =
    Some ((2 ^ 32 - 10) * 1024, Quota (enc (100, 40))) /\
  quota_use false (Quota (enc (100, 50))) ((2 ^ 32 - 10) * 1024) = None.
Proof.
  apply (quota_use_carry_ndebug 100 50 ((2 ^ 32 - 10) * 1024));
    [lia | lia | split; vm_compute; congruence | split; vm_compute; congruence].
Defined.
