(* ===== verification/QuotaLessor.v ===== *)
(** * Quota lessor: [include/small/quota_lessor.h]

    A single-threaded wrapper that takes large chunks from a shared quota and
    leases them byte by byte.  The shared quota is passed in and out of every
    operation. *)
From S2P Require Import Prelude Quota.

(** ** Definitions *)

Record quota_lessor := QuotaLessor { used : Z; leased : Z }.

Definition quota_leased (lessor : quota_lessor) : Z := leased lessor.

Definition quota_available (lessor : quota_lessor) : Z := u64 (used lessor - leased lessor).

Definition QUOTA_USE_MIN : Z := QUOTA_UNIT_SIZE * 1024.

Definition quota_lessor_create (source : quota) : option quota_lessor :=
  ASSERT quota_total source >=? QUOTA_USE_MIN;
  Some {| used := 0; leased := 0 |}.

Definition quota_lessor_destroy (lessor : quota_lessor) (source : quota)
  : option (quota_lessor * quota) :=
  if used lessor =? 0 then Some (lessor, source)
  else
    ASSERT used lessor mod QUOTA_UNIT_SIZE =? 0;
    '(_, source) ← quota_release false source (used lessor);
    Some ({| used := 0; leased := 0 |}, source).

(** The loop of [quota_lease]: the amount obtained from the source, or [None] in
    the inner option when the loop ends without one.  [fuel] bounds the number
    of iterations; a 64-bit amount is halved to 0 in 64 of them. *)
Fixpoint quota_lease_loop (fuel : nat) (source : quota) (required use : Z)
  : option (option Z * quota) :=
  match fuel with
  | O => None
  | S fuel =>
      if use >=? required then
        '(r, source) ← quota_use false source use;
        if r >=? 0 then Some (Some r, source)
        else quota_lease_loop fuel source required (use / 2)
      else Some (None, source)
  end.

Definition LEASE_FUEL : nat := 65.

(** [size] is an [ssize_t]; the comparison and the sums are those of [size_t]. *)
Definition quota_lease (lessor : quota_lessor) (source : quota) (size : Z)
  : option (Z * quota_lessor * quota) :=
  if u64 (leased lessor + size) <=? used lessor then
    Some (size, {| used := used lessor; leased := u64 (leased lessor + size) |}, source)
  else
    let required := u64 (size + leased lessor - used lessor) in
    let use := if required >? QUOTA_USE_MIN then required else QUOTA_USE_MIN in
    '(got, source) ← quota_lease_loop LEASE_FUEL source required use;
    match got with
    | Some r => Some (size, {| used := u64 (used lessor + r);
                               leased := u64 (leased lessor + size) |}, source)
    | None => Some (-1, lessor, source)
    end.

Definition quota_end_lease (lessor : quota_lessor) (source : quota) (size : Z)
  : option (Z * quota_lessor * quota) :=
  ASSERT leased lessor >=? size;
  let leased' := u64 (leased lessor - size) in
  let available := u64 (used lessor - leased') in
  if available >=? 2 * QUOTA_USE_MIN then
    let release := u64 (available - QUOTA_USE_MIN - QUOTA_UNIT_SIZE) in
    '(r, source) ← quota_release false source release;
    Some (size, {| used := u64 (used lessor - r); leased := leased' |}, source)
  else Some (size, {| used := used lessor; leased := leased' |}, source).

(** A lessor that took whole units, no more than are in use at the source, and
    leased no more than it took. *)
Definition lessor_ok (u : Z) (l : quota_lessor) : Prop :=
  0 <= leased l <= used l /\ used l mod 1024 = 0 /\ used l <= u * 1024.

(** ** Facts *)

Lemma QUOTA_USE_MIN_eq : QUOTA_USE_MIN = 1048576.
Proof. reflexivity. Qed.

Lemma in_units_mono a b : 0 <= a <= b -> b <= QUOTA_MAX -> in_units a <= in_units b.
Proof.
  intros Ha Hb. destruct (in_units_eq a ltac:(lia)) as [-> _].
  destruct (in_units_eq b ltac:(lia)) as [-> _]. apply Z.div_le_mono; lia.
Qed.

Lemma in_units_exact n : 0 <= n <= QUOTA_MAX -> n mod 1024 = 0 -> in_units n * 1024 = n.
Proof.
  intros Hn Hm. destruct (in_units_eq n Hn) as [-> _].
  Z.to_euclidean_division_equations. lia.
Qed.

(** The loop halves the amount until the source grants it or it is below what is
    required: it ends, a grant is at least what is required, and after a refusal
    the source has less than twice the required amount left. *)
Lemma lease_loop_spec fuel t u required use :
  0 <= u <= t -> 0 < required -> required <= use <= QUOTA_MAX \/ 0 <= use < required ->
  use < 2 ^ Z.of_nat fuel -> required <= QUOTA_MAX -> t + in_units use < 2 ^ 32 ->
  (exists n, quota_lease_loop (S fuel) (Quota (enc (t, u))) required use =
     Some (Some (n * 1024), Quota (enc (t, u + n))) /\ required <= n * 1024 /\ u + n <= t) \/
  (quota_lease_loop (S fuel) (Quota (enc (t, u))) required use =
     Some (None, Quota (enc (t, u))) /\
   (required <= use -> t < u + in_units (Z.min use (2 * required)))).
Proof.
  revert use. induction fuel as [|fuel IH]; intros use Hu Hr Huse Hf Hq Ht.
  - right. simpl. change (2 ^ Z.of_nat 0) with 1 in Hf.
    destruct (Z.geb_spec use required); [lia|]. split; [done|lia].
  - cbn [quota_lease_loop]. destruct (Z.geb_spec use required) as [Hge|Hlt].
    2:{ right. split; [done|lia]. }
    assert (Hrange : 0 < use <= QUOTA_MAX) by lia.
    pose proof (in_units_pos use Hrange). pose proof (in_units_covers use ltac:(lia)).
    rewrite quota_use_enc by lia.
    destruct (Z.gtb_spec (u + in_units use) t) as [Hno|Hyes]; cbn [mbind option_bind].
    + change (-1 >=? 0) with false. cbn iota.
      assert (Hh : 0 <= use / 2 < use) by (split; [apply Z.div_pos|apply Z.div_lt]; lia).
      pose proof (in_units_mono (use / 2) use ltac:(lia) ltac:(lia)).
      destruct (IH (use / 2)) as [Hok|[Hno' Hlast]]; [lia|lia|lia| |lia|lia|by left|].
      { rewrite Nat2Z.inj_succ, Z.pow_succ_r in Hf by lia. apply Z.div_lt_upper_bound; lia. }
      right. split; [exact Hno'|]. intros _.
      destruct (Z.le_gt_cases required (use / 2)) as [Hle|Hgt].
      * specialize (Hlast Hle). eapply Z.lt_le_trans; [exact Hlast|].
        apply Z.add_le_mono_l, in_units_mono; lia.
      * rewrite Z.min_l; [lia|]. Z.to_euclidean_division_equations. lia.
    + left. exists (in_units use). destruct (Z.geb_spec (in_units use * 1024) 0); [|lia].
      split; [done|]. lia.
Qed.

(** ** Properties *)

(** A lease, on both branches. *)
Lemma lease_spec t u l size :
  0 <= u <= t -> lessor_ok u l -> 0 <= size < 2 ^ 62 ->
  let required := leased l + size - used l in
  let use := Z.max required QUOTA_USE_MIN in
  use <= QUOTA_MAX -> t + in_units use < 2 ^ 32 ->
  (exists n, quota_lease l (Quota (enc (t, u))) size =
     Some (size, QuotaLessor (used l + n * 1024) (leased l + size), Quota (enc (t, u + n))) /\
     u + n <= t /\ lessor_ok (u + n) (QuotaLessor (used l + n * 1024) (leased l + size))) \/
  (quota_lease l (Quota (enc (t, u))) size = Some (-1, l, Quota (enc (t, u))) /\
   0 < required /\ t < u + in_units (Z.min use (2 * required))).
Proof.
  intros Hu (Hl & Hm & Hq) Hs required use Huse Ht. unfold quota_lease.
  assert (Er : required = leased l + size - used l) by done.
  assert (Eu : use = Z.max required QUOTA_USE_MIN) by done. clearbody use required.
  rewrite QUOTA_USE_MIN_eq in *.
  assert (0 <= in_units use) by (apply u32_range).
  rewrite QUOTA_MAX_eq in Huse. rewrite (u64_small (leased l + size)) by lia.
  destruct (Z.leb_spec (leased l + size) (used l)) as [Hle|Hgt].
  { left. exists 0. rewrite Z.mul_0_l, !Z.add_0_r. unfold lessor_ok. simpl.
    split; [done|]. repeat split; lia. }
  rewrite u64_small by lia. replace (size + leased l - used l) with required by lia.
  replace (if required >? 1048576 then required else 1048576) with use.
  2:{ destruct (Z.gtb_spec required 1048576); lia. }
  destruct (lease_loop_spec 64 t u required use) as [(n & Hn & Hr & Hle)|[Hn Hlast]];
    rewrite ?QUOTA_MAX_eq; try lia.
  - left. exists n. change LEASE_FUEL with 65%nat. rewrite Hn. simpl.
    rewrite u64_small by lia. split; [done|]. split; [done|]. unfold lessor_ok. simpl.
    split; [lia|]. split; [by rewrite Z.mod_add|lia].
  - right. change LEASE_FUEL with 65%nat. rewrite Hn. simpl. split; [done|].
    split; [lia|]. apply Hlast. lia.
Qed.

(**  [quota_lease] either leases exactly the requested bytes, taking whole
    units from the source within its limit, or returns -1 and changes neither
    the lessor nor the source; it refuses only when the source has less than
    twice the missing amount left.  The loop ends, and what the lessor took is
    always accounted for at the source. *)
Theorem quota_lease_spec t u l size :
  0 <= u <= t -> lessor_ok u l -> 0 <= size < 2 ^ 62 ->
  let required := leased l + size - used l in
  let use := Z.max required QUOTA_USE_MIN in
  use <= QUOTA_MAX -> t + in_units use < 2 ^ 32 ->
  (exists n, quota_lease l (Quota (enc (t, u))) size =
     Some (size, QuotaLessor (used l + n * 1024) (leased l + size), Quota (enc (t, u + n))) /\
     u + n <= t /\ lessor_ok (u + n) (QuotaLessor (used l + n * 1024) (leased l + size))) \/
  (quota_lease l (Quota (enc (t, u))) size = Some (-1, l, Quota (enc (t, u))) /\
   0 < required /\ t < u + in_units (Z.min use (2 * required))).
Proof. apply lease_spec. Qed.

(** [quota_end_lease] takes the bytes back, keeps less than twice the minimal
    chunk unused, and when it gives units back to the source it keeps at least
    one minimal chunk, so that lease and end of lease do not oscillate. *)
Theorem quota_end_lease_spec t u l size :
  0 <= u <= t -> t < 2 ^ 32 - 1 -> lessor_ok u l -> 0 <= size <= leased l ->
  exists n, 0 <= n <= u /\
    quota_end_lease l (Quota (enc (t, u))) size =
      Some (size, QuotaLessor (used l - n * 1024) (leased l - size), Quota (enc (t, u - n))) /\
    let l' := QuotaLessor (used l - n * 1024) (leased l - size) in
    lessor_ok (u - n) l' /\ quota_available l' < 2 * QUOTA_USE_MIN /\
    (0 < n -> QUOTA_USE_MIN <= quota_available l').
Proof.
  intros Hu Ht (Hl & Hm & Hq) Hs. unfold quota_end_lease, quota_available.
  rewrite QUOTA_USE_MIN_eq. unfold QUOTA_UNIT_SIZE.
  destruct (Z.geb_spec (leased l) size); [|lia].
  rewrite (u64_small (leased l - size)) by lia.
  set (av := used l - (leased l - size)). rewrite !(u64_small av) by lia.
  destruct (Z.geb_spec av (2 * 1048576)) as [Hge|Hlt].
  - rewrite (u64_small (av - 1048576 - 1024)) by lia.
    set (rel := av - 1048576 - 1024).
    assert (Hrel : 0 < rel < QUOTA_MAX) by (rewrite QUOTA_MAX_eq; lia).
    pose proof (in_units_covers rel ltac:(lia)) as Hc. pose proof (in_units_pos rel ltac:(lia)).
    exists (in_units rel). rewrite quota_release_enc by lia. simpl.
    split; [lia|]. rewrite (u64_small (used l - in_units rel * 1024)) by lia.
    split; [done|]. rewrite (u64_small (_ - (leased l - size))) by lia.
    unfold lessor_ok. simpl. split_and!; try lia.
    rewrite Zminus_mod, Hm, Z.mod_mul by lia. done.
  - exists 0. rewrite Z.mul_0_l, !Z.sub_0_r. fold av. split; [lia|]. split; [done|].
    cbn [used leased]. fold av. rewrite (u64_small av) by lia. unfold lessor_ok. simpl.
    split_and!; lia.
Qed.

(**  [quota_lease] can answer -1, documented as "not enough quota", while the
    source could still grant the missing amount: the loop tries the minimal
    chunk, halves it below what is required and gives up without trying the
    required amount itself. *)
Theorem quota_lease_gives_up t u l size :
  0 <= u <= t -> t < 2 ^ 31 -> lessor_ok u l -> 0 <= size < 2 ^ 62 ->
  let required := leased l + size - used l in
  524288 < required <= QUOTA_USE_MIN ->
  u + in_units required <= t < u + in_units QUOTA_USE_MIN ->
  quota_lease l (Quota (enc (t, u))) size = Some (-1, l, Quota (enc (t, u))) /\
  quota_use false (Quota (enc (t, u))) required =
    Some (in_units required * 1024, Quota (enc (t, u + in_units required))).
Proof.
  intros Hu Ht (Hl & Hm & Hq) Hs required Hr Hf. rewrite QUOTA_USE_MIN_eq in Hr, Hf.
  assert (Er : required = leased l + size - used l) by done. clearbody required.
  change (in_units 1048576) with 1024 in Hf. pose proof QUOTA_MAX_eq.
  assert (0 <= in_units required) by apply u32_range.
  split.
  - unfold quota_lease. rewrite QUOTA_USE_MIN_eq, (u64_small (leased l + size)) by lia.
    destruct (Z.leb_spec (leased l + size) (used l)); [lia|].
    rewrite u64_small by lia. replace (size + leased l - used l) with required by lia.
    destruct (Z.gtb_spec required 1048576); [lia|]. unfold LEASE_FUEL.
    cbn [quota_lease_loop]. destruct (Z.geb_spec 1048576 required); [|lia].
    rewrite quota_use_enc by (change (in_units 1048576) with 1024; lia).
    change (in_units 1048576) with 1024.
    destruct (Z.gtb_spec (u + 1024) t); [|lia]. cbn [mbind option_bind].
    change (-1 >=? 0) with false. change (1048576 / 2) with 524288. cbn iota.
    destruct (Z.geb_spec 524288 required); [lia|done].
  - rewrite quota_use_enc by lia. destruct (Z.gtb_spec (u + in_units required) t); [lia|done].
Qed.

(** ** Witnesses *)

Lemma lessor_zero_ok u : 0 <= u -> lessor_ok u (QuotaLessor 0 0).
Proof. unfold lessor_ok. simpl. intros. repeat split; lia || done. Qed.

Lemma quota_lease_spec_witness :
  (exists n, quota_lease (QuotaLessor 0 0) (Quota (enc (4096, 0))) 100 =
     Some (100, QuotaLessor (0 + n * 1024) (0 + 100), Quota (enc (4096, 0 + n))) /\
     0 + n <= 4096 /\ lessor_ok (0 + n) (QuotaLessor (0 + n * 1024) (0 + 100))) \/
  (quota_lease (QuotaLessor 0 0) (Quota (enc (4096, 0))) 100 =
     Some (-1, QuotaLessor 0 0, Quota (enc (4096, 0))) /\
   0 < 0 + 100 - 0 /\ 4096 < 0 + in_units (Z.min (Z.max (0 + 100 - 0) QUOTA_USE_MIN) 200)).
Proof.
  apply (quota_lease_spec 4096 0 (QuotaLessor 0 0) 100);
    [lia | by apply lessor_zero_ok | lia | vm_compute; congruence | reflexivity].
Defined.

Lemma quota_end_lease_spec_witness :
  exists n, 0 <= n <= 5000 /\
    quota_end_lease (QuotaLessor (5000 * 1024) 4000000) (Quota (enc (6000, 5000))) 3000000 =
      Some (3000000, QuotaLessor (5000 * 1024 - n * 1024) (4000000 - 3000000),
            Quota (enc (6000, 5000 - n))).
Proof.
  destruct (quota_end_lease_spec 6000 5000 (QuotaLessor (5000 * 1024) 4000000) 3000000)
    as (n & Hn & He & _); [lia | lia | vm_compute; repeat split; congruence
    | simpl; lia |].
  exists n. split; [exact Hn | exact He].
Defined.

(** 900 KB left, 800 KB asked for, refused. *)
Lemma quota_lease_gives_up_witness :
  quota_lease (QuotaLessor 0 0) (Quota (enc (900, 0))) 819200 =
    Some (-1, QuotaLessor 0 0, Quota (enc (900, 0))) /\
  quota_use false (Quota (enc (900, 0))) 819200 = Some (819200, Quota (enc (900, 800))).
Proof.
  apply (quota_lease_gives_up 900 0 (QuotaLessor 0 0) 819200);
    [lia | lia | by apply lessor_zero_ok | lia | simpl; split; [lia | vm_compute; congruence]
    | vm_compute; split; congruence].
Defined.
