(* ===== verification/Lifo.v ===== *)
(** * Intrusive stack: [include/small/lifo.h]

    A head cell and elements whose first word is the link to the next one. *)
From S2P Require Import Prelude.

(** ** Definitions *)

Definition lifo_init (m : gmap Z Z) (head : Z) : option (gmap Z Z) := store m head NULL.

Definition lifo_push (m : gmap Z Z) (head elem : Z) : option (gmap Z Z) :=
  next ← load m head;
  m ← store m elem next;
  store m head elem.

Definition lifo_pop (m : gmap Z Z) (head : Z) : option (Z * gmap Z Z) :=
  elem ← load m head;
  if negb (elem =? NULL) then
    next ← load m elem;
    m ← store m head next;
    Some (elem, m)
  else Some (elem, m).

Definition lifo_peek (m : gmap Z Z) (head : Z) : option Z := load m head.

Definition lifo_is_empty (m : gmap Z Z) (head : Z) : option bool :=
  next ← load m head; Some (next =? NULL).

(** The chain of links from [p] through the elements [l]. *)
Fixpoint chain (m : gmap Z Z) (p : Z) (l : list Z) : Prop :=
  match l with
  | [] => p = NULL
  | e :: l => p = e /\ e <> NULL /\ exists next, m !! e = Some next /\ chain m next l
  end.

(** [lifo_rep m head l]: the stack at [head] holds [l], top first. *)
Definition lifo_rep (m : gmap Z Z) (head : Z) (l : list Z) : Prop :=
  NoDup (head :: l) /\ exists p, m !! head = Some p /\ chain m p l.

(** ** Facts *)

Lemma chain_frame m m' p l :
  (forall e, e ∈ l -> m' !! e = m !! e) -> chain m p l -> chain m' p l.
Proof.
  revert p. induction l as [|e l IH]; intros p Hm Hc; simpl in *; [done|].
  destruct Hc as (-> & He & next & Hn & Hc). split_and!; [done..|].
  exists next. rewrite Hm by (left; done). split; [done|].
  apply IH; [|done]. intros. apply Hm. by right.
Qed.

Lemma chain_nil_iff m p l : chain m p l -> p = NULL <-> l = [].
Proof. destruct l as [|e l]; simpl; [done|]. intros (-> & ? & _). done. Qed.

(** ** Properties *)

(**  The stack operations of [lifo.h] implement a list: initialization gives
    the empty one, a push of a fresh element conses it, a pop of a non-empty
    stack returns and removes the top, a pop of an empty one returns NULL and
    changes nothing, and the emptiness test and the peek agree with the list. *)
Theorem lifo_refines_list m head l :
  lifo_rep m head l ->
  (exists m', lifo_init m head = Some m' /\ lifo_rep m' head []) /\
  (forall elem, elem <> NULL -> elem <> head -> elem ∉ l -> is_Some (m !! elem) ->
     exists m', lifo_push m head elem = Some m' /\ lifo_rep m' head (elem :: l)) /\
  (match l with
   | [] => lifo_pop m head = Some (NULL, m)
   | e :: l' => exists m', lifo_pop m head = Some (e, m') /\ lifo_rep m' head l'
   end) /\
  lifo_is_empty m head = Some (bool_decide (l = [])) /\
  lifo_peek m head = Some (default NULL (hd_error l)).
Proof.
  intros (Hnd & p & Hp & Hc). pose proof (NoDup_cons_1_1 _ _ Hnd) as Hhl.
  unfold lifo_init, lifo_push, lifo_pop, lifo_is_empty, lifo_peek, load. rewrite Hp.
  split_and!.
  - rewrite store_some by eauto. eexists. split; [done|].
    split; [apply NoDup_singleton|]. eexists. rewrite lookup_insert_eq. done.
  - intros elem Hn0 Hneh Hnel Hme. simpl. rewrite store_some by done. simpl.
    rewrite store_some by (rewrite lookup_insert_ne by done; eauto).
    eexists. split; [done|]. split.
    { apply NoDup_cons in Hnd as [_ Hnd]. constructor; [set_solver|by constructor]. }
    exists elem. rewrite lookup_insert_eq. split; [done|]. simpl. split_and!; [done..|].
    exists p. rewrite lookup_insert_ne, lookup_insert_eq by done. split; [done|].
    eapply chain_frame; [|done]. intros e He.
    rewrite !lookup_insert_ne by (intros ->; done). done.
  - destruct l as [|e l]; simpl in Hc.
    { subst p. done. }
    destruct Hc as (-> & He & next & Hn & Hc). simpl.
    destruct (Z.eqb_spec e NULL); [done|]. simpl. rewrite Hn. simpl.
    rewrite store_some by eauto. eexists. split; [done|].
    apply NoDup_cons in Hnd as [_ Hnd]. apply NoDup_cons in Hnd as [_ Hnd].
    split; [constructor; [set_solver|done]|]. exists next. rewrite lookup_insert_eq.
    split; [done|]. eapply chain_frame; [|done]. intros e' He'.
    rewrite lookup_insert_ne; [done|]. set_solver.
  - simpl. f_equal. apply chain_nil_iff in Hc.
    destruct (Z.eqb_spec p NULL); [by rewrite bool_decide_true by tauto|].
    by rewrite bool_decide_false by tauto.
  - destruct l; simpl in *; [by subst|]. by destruct Hc as (-> & _).
Qed.

(** ** Witnesses *)

Definition lifo_example : gmap Z Z := <[8 := 16]> (<[16 := 24]> (<[24 := 0]> (<[32 := 5]> ∅))).

Lemma lifo_example_rep : lifo_rep lifo_example 8 [16; 24].
Proof.
  split; [repeat constructor; set_solver|]. exists 16. split; [done|].
  simpl. split_and!; [done..|]. exists 24. split; [done|]. split_and!; [done..|].
  by exists 0.
Qed.

Lemma lifo_refines_list_witness :
  (exists m', lifo_push lifo_example 8 32 = Some m' /\ lifo_rep m' 8 [32; 16; 24]) /\
  (exists m', lifo_pop lifo_example 8 = Some (16, m') /\ lifo_rep m' 8 [24]).
Proof.
  destruct (lifo_refines_list lifo_example 8 [16; 24] lifo_example_rep)
    as (_ & Hpush & Hpop & _).
  split; [|exact Hpop]. apply Hpush; [done | done | set_solver | by eexists].
Defined.
