(* ===== verification/LfLifo.v ===== *)
(** * Lock-free stack: [include/small/lf_lifo.h]

    The stack of free slabs of an arena.  Elements are aligned to 64 KiB; the
    low 16 bits of the head word count pushes against the ABA problem.  [step]
    interleaves the memory accesses of any number of threads, which may also
    overwrite the elements they own. *)
From S2P Require Import Prelude.

(** ** Definitions *)

Definition SMALL_LIFO_ALIGNMENT : Z := 65535.

Definition aba_value (a : Z) : Z := Z.land a SMALL_LIFO_ALIGNMENT.

Definition lf_lifo (a : Z) : Z := Z.land a (Z.lnot SMALL_LIFO_ALIGNMENT).

Definition lf_lifo_init : Z := NULL.

(** The head word a push of [elem] over the head word [tail] tries to install. *)
Definition push_newhead (elem tail : Z) : Z :=
  elem + Z.land (aba_value tail + 1) SMALL_LIFO_ALIGNMENT.

(** The head word a pop tries to install: [next] is the link read from the
    element of the head word [tail]. *)
Definition pop_newhead (tail elem_next : Z) : Z :=
  let next := lf_lifo elem_next in
  if negb (next =? NULL) then next + aba_value tail else aba_value tail.

(** A push and a pop that run alone: one iteration of the loop. *)
Definition lf_lifo_push (m : gmap Z Z) (head elem : Z) : option (Z * gmap Z Z) :=
  ASSERT lf_lifo elem =? elem;
  let tail := head in
  m ← store m (lf_lifo elem) tail;
  Some (push_newhead elem tail, m).

Definition lf_lifo_pop (m : gmap Z Z) (head : Z) : option (Z * Z) :=
  let tail := head in
  let elem := lf_lifo tail in
  if elem =? NULL then Some (NULL, head)
  else
    elem_next ← load m elem;
    Some (elem, pop_newhead tail elem_next).

Definition lf_lifo_is_empty (head : Z) : bool := head =? NULL.

(** ** Threads *)

(** [seen] is the number of pushes completed when the head was read; it is not
    part of the program and only says how stale the read is. *)
Inductive pc :=
  | Idle
  | PushRead (elem : Z)
  | PushWrite (elem tail : Z)
  | PushCas (elem tail : Z)
  | PopRead
  | PopNext (tail seen : Z)
  | PopCas (tail newhead seen : Z).

Record thread := Thread { owns : list Z; at_pc : pc }.

Record system := System { head : Z; mem : gmap Z Z; pushes : Z; threads : list thread }.

(** [since] is the number of pushes completed between the read of the head and
    the compare-and-swap of the pop. *)
Inductive event := EPush (elem : Z) | EPop (elem since : Z) | EPopNull.

(** Fewer than 2^16 pushes: the counter in the head word has not gone round. *)
Definition timely (e : event) : Prop := match e with EPop _ since => since < 2 ^ 16 | _ => True end.

(** [elem] may be pushed: aligned and not NULL. *)
Definition elem_ok (e : Z) : Prop := lf_lifo e = e /\ 0 < e.

(** One access, or one write of its own, of thread [i]. *)
Inductive step (i : nat) : system -> option event -> system -> Prop :=
  | step_call_push hd m k l own e :
      l !! i = Some (Thread own Idle) -> e ∈ own ->
      step i (System hd m k l) None
           (System hd m k (<[i := Thread (list_difference own [e]) (PushRead e)]> l))
  | step_push_read hd m k l own e :
      l !! i = Some (Thread own (PushRead e)) ->
      step i (System hd m k l) None (System hd m k (<[i := Thread own (PushWrite e hd)]> l))
  | step_push_write hd m m' k l own e tail :
      l !! i = Some (Thread own (PushWrite e tail)) ->
      store m (lf_lifo e) tail = Some m' ->
      step i (System hd m k l) None (System hd m' k (<[i := Thread own (PushCas e tail)]> l))
  | step_push_cas hd m k l own e tail :
      l !! i = Some (Thread own (PushCas e tail)) -> hd = tail ->
      step i (System hd m k l) (Some (EPush e))
           (System (push_newhead e tail) m (k + 1) (<[i := Thread own Idle]> l))
  | step_push_cas_fail hd m k l own e tail :
      l !! i = Some (Thread own (PushCas e tail)) ->
      step i (System hd m k l) None (System hd m k (<[i := Thread own (PushRead e)]> l))
  | step_call_pop hd m k l own :
      l !! i = Some (Thread own Idle) ->
      step i (System hd m k l) None (System hd m k (<[i := Thread own PopRead]> l))
  | step_pop_read_null hd m k l own :
      l !! i = Some (Thread own PopRead) -> lf_lifo hd = NULL ->
      step i (System hd m k l) (Some EPopNull) (System hd m k (<[i := Thread own Idle]> l))
  | step_pop_read hd m k l own :
      l !! i = Some (Thread own PopRead) -> lf_lifo hd <> NULL ->
      step i (System hd m k l) None (System hd m k (<[i := Thread own (PopNext hd k)]> l))
  | step_pop_next hd m k l own tail seen elem_next :
      l !! i = Some (Thread own (PopNext tail seen)) ->
      load m (lf_lifo tail) = Some elem_next ->
      step i (System hd m k l) None
           (System hd m k
              (<[i := Thread own (PopCas tail (pop_newhead tail elem_next) seen)]> l))
  | step_pop_cas hd m k l own tail newhead seen :
      l !! i = Some (Thread own (PopCas tail newhead seen)) -> hd = tail ->
      step i (System hd m k l) (Some (EPop (lf_lifo tail) (k - seen)))
           (System newhead m k (<[i := Thread (lf_lifo tail :: own) Idle]> l))
  | step_pop_cas_fail hd m k l own tail newhead seen :
      l !! i = Some (Thread own (PopCas tail newhead seen)) ->
      step i (System hd m k l) None (System hd m k (<[i := Thread own PopRead]> l))
  | step_scribble hd m m' k l own p e v :
      l !! i = Some (Thread own p) -> e ∈ own -> store m e v = Some m' ->
      step i (System hd m k l) None (System hd m' k l).

Inductive run (s0 : system) : list event -> system -> Prop :=
  | run_nil : run s0 [] s0
  | run_step tr s1 i e s2 :
      run s0 tr s1 -> step i s1 e s2 -> run s0 (tr ++ option_list e) s2.

(** The specification: a stack. *)
Definition spec (st : list Z) (e : event) : option (list Z) :=
  match e, st with
  | EPush x, _ => Some (x :: st)
  | EPop x _, y :: st' => ASSERT x =? y; Some st'
  | EPopNull, [] => Some []
  | _, _ => None
  end.

Fixpoint spec_run (st : list Z) (tr : list event) : option (list Z) :=
  match tr with
  | [] => Some st
  | e :: tr' => match spec st e with Some st' => spec_run st' tr' | None => None end
  end.

(** The element a thread is pushing. *)
Definition in_flight (p : pc) : list Z :=
  match p with PushRead e | PushWrite e _ | PushCas e _ => [e] | _ => [] end.

Definition thread_elems (th : thread) : list Z := in_flight (at_pc th) ++ owns th.

(** Every element threads or stack have. *)
Definition all_elems (st : list Z) (l : list thread) : list Z :=
  st ++ concat (thread_elems <$> l).

(** ** The head word *)

Lemma lf_lifo_eq a : lf_lifo a = a - a mod 65536.
Proof.
  unfold lf_lifo, SMALL_LIFO_ALIGNMENT. change 65535 with (2 ^ 16 - 1).
  by rewrite land_not_mask.
Qed.

Lemma aba_value_eq a : aba_value a = a mod 65536.
Proof.
  unfold aba_value, SMALL_LIFO_ALIGNMENT. change 65535 with (2 ^ 16 - 1).
  by rewrite land_mask.
Qed.

Lemma aba_range a : 0 <= aba_value a < 65536.
Proof. rewrite aba_value_eq. by apply Z.mod_pos_bound. Qed.

Lemma elem_ok_mod e : elem_ok e -> e mod 65536 = 0 /\ 0 < e.
Proof. intros [He Hp]. rewrite lf_lifo_eq in He. lia. Qed.

(** A word put together from an element (or NULL) and a counter comes apart. *)
Lemma word_parts e c : e mod 65536 = 0 -> 0 <= c < 65536 ->
  lf_lifo (e + c) = e /\ aba_value (e + c) = c.
Proof.
  intros He Hc. rewrite lf_lifo_eq, aba_value_eq.
  rewrite <- Z.add_mod_idemp_l, He, Z.add_0_l, Z.mod_small by lia. lia.
Qed.

Lemma word_split w : w = lf_lifo w + aba_value w.
Proof. rewrite lf_lifo_eq, aba_value_eq. lia. Qed.

Lemma lf_lifo_aligned w : lf_lifo w mod 65536 = 0.
Proof.
  rewrite lf_lifo_eq, Zminus_mod, Z.mod_mod, Z.sub_diag by lia. done.
Qed.

Lemma push_newhead_parts e w : elem_ok e ->
  lf_lifo (push_newhead e w) = e /\
  aba_value (push_newhead e w) = (aba_value w + 1) mod 65536.
Proof.
  intros [He _]%elem_ok_mod. unfold push_newhead, SMALL_LIFO_ALIGNMENT.
  change 65535 with (2 ^ 16 - 1). rewrite land_mask by lia.
  apply word_parts; [done|]. by apply Z.mod_pos_bound.
Qed.

Lemma pop_newhead_parts w n :
  lf_lifo (pop_newhead w n) = lf_lifo n /\ aba_value (pop_newhead w n) = aba_value w.
Proof.
  unfold pop_newhead. pose proof (aba_range w).
  destruct (Z.eqb_spec (lf_lifo n) NULL) as [E|E]; simpl.
  - rewrite E. apply (word_parts 0); [done|done].
  - apply word_parts; [apply lf_lifo_aligned|done].
Qed.

(** ** The chain of links *)

(** [lchain m p l]: from element [p] the links, their counters masked off, run
    through [l]. *)
Fixpoint lchain (m : gmap Z Z) (p : Z) (l : list Z) : Prop :=
  match l with
  | [] => p = NULL
  | e :: l => p = e /\ elem_ok e /\ exists w, m !! e = Some w /\ lchain m (lf_lifo w) l
  end.

Lemma lchain_frame m m' p l :
  (forall e, e ∈ l -> m' !! e = m !! e) -> lchain m p l -> lchain m' p l.
Proof.
  revert p. induction l as [|e l IH]; intros p Hm Hc; simpl in *; [done|].
  destruct Hc as (-> & He & w & Hn & Hc). split_and!; [done..|].
  exists w. rewrite Hm by (left; done). split; [done|].
  apply IH; [|done]. intros. apply Hm. by right.
Qed.

Lemma lchain_insert m p l a v : a ∉ l -> lchain m p l -> lchain (<[a := v]> m) p l.
Proof.
  intros Ha. apply lchain_frame. intros e He. apply lookup_insert_ne. by intros ->.
Qed.

Lemma lchain_null m p l : lchain m p l -> p = NULL <-> l = [].
Proof.
  destruct l as [|e l]; simpl; [done|]. intros (-> & [_ He] & _). split; [lia|done].
Qed.

(** ** Elements of threads *)

Lemma elems_split l i th :
  l !! i = Some th ->
  exists rest, concat (thread_elems <$> l) ≡ₚ thread_elems th ++ rest /\
    forall th', concat (thread_elems <$> <[i := th']> l) ≡ₚ thread_elems th' ++ rest.
Proof.
  revert i. induction l as [|x l IH]; intros [|i] Hi; simplify_eq/=.
  - by eexists.
  - destruct (IH i Hi) as (rest & H1 & H2). exists (thread_elems x ++ rest).
    split; [|intros th']; rewrite ?H1, ?H2; apply Permutation_app_swap_app.
Qed.

(** Threads own different elements. *)
Lemma elems_disjoint st l i j x y a :
  NoDup (all_elems st l) -> l !! i = Some x -> l !! j = Some y -> i <> j ->
  a ∈ thread_elems x -> a ∈ thread_elems y -> False.
Proof.
  intros [_ [_ Hnd]]%NoDup_app Hi Hj Hij Hx Hy. revert i j Hi Hj Hij.
  induction l as [|z l IH]; intros i j Hi Hj Hij; [done|]. simpl in Hnd.
  apply NoDup_app in Hnd as (_ & Hd & Hnd).
  assert (Hin : forall k t, l !! k = Some t -> a ∈ thread_elems t ->
            a ∈ concat (thread_elems <$> l)).
  { intros k t Hk Ht. apply list_elem_of_In, in_concat. exists (thread_elems t).
    split; [|by apply list_elem_of_In].
    apply list_elem_of_In, list_elem_of_fmap. exists t. split; [done|].
    by eapply list_elem_of_lookup_2. }
  destruct i as [|i], j as [|j]; simplify_eq/=; [| |by eapply (IH Hnd i j); eauto].
  - apply (Hd a Hx). by eapply Hin.
  - apply (Hd a Hy). by eapply Hin.
Qed.

Lemma elems_stack_disjoint st l i x a :
  NoDup (all_elems st l) -> l !! i = Some x -> a ∈ thread_elems x -> a ∉ st.
Proof.
  intros (_ & Hd & _)%NoDup_app Hi Ha Hst. eapply Hd; [done|].
  destruct (elems_split l i x Hi) as (rest & -> & _). apply elem_of_app. by left.
Qed.

Lemma all_elems_update st st' l i th th' :
  l !! i = Some th ->
  st' ++ thread_elems th' ≡ₚ st ++ thread_elems th ->
  all_elems st' (<[i := th']> l) ≡ₚ all_elems st l.
Proof.
  intros Hi Hp. destruct (elems_split l i th Hi) as (rest & H1 & H2).
  unfold all_elems. by rewrite H1, H2, !(assoc_L (++)), Hp.
Qed.

Lemma list_remove_perm (own : list Z) e :
  NoDup own -> e ∈ own -> e :: list_difference own [e] ≡ₚ own.
Proof.
  intros Hnd He. apply NoDup_Permutation; [|done|].
  - constructor; [|by apply NoDup_list_difference].
    rewrite list_elem_of_difference. set_solver.
  - intros x. rewrite elem_of_cons, list_elem_of_difference.
    destruct (decide (x = e)) as [->|]; set_solver.
Qed.

(** ** The invariant *)

(** What a pop knows after it read the head word [tail] with [seen] pushes
    completed: the stack it saw, of which the current one is a suffix unless
    something was pushed. *)
Definition saw (m : gmap Z Z) (k : Z) (st : list Z) (tail seen : Z) (st0 : list Z) : Prop :=
  seen <= k /\ is_Some (m !! lf_lifo tail) /\ aba_value tail = seen mod 65536 /\
  (lf_lifo tail <> NULL /\ NoDup st0 /\ exists st1, st0 = lf_lifo tail :: st1) /\
  (k = seen -> st `suffix_of` st0).

Definition pc_inv (m : gmap Z Z) (k : Z) (st : list Z) (p : pc) : Prop :=
  match p with
  | PushCas e tail => m !! e = Some tail
  | PopNext tail seen => exists st0, saw m k st tail seen st0
  | PopCas tail newhead seen => exists st0, saw m k st tail seen st0 /\
      (k = seen -> st = st0 ->
       exists w, m !! lf_lifo tail = Some w /\ newhead = pop_newhead tail w)
  | _ => True
  end.

Record inv (E : list Z) (st : list Z) (s : system) : Prop := {
  inv_chain : lchain (mem s) (lf_lifo (head s)) st;
  inv_aba : aba_value (head s) = pushes s mod 65536;
  inv_elems : all_elems st (threads s) ≡ₚ E;
  inv_mapped : forall e, e ∈ E -> is_Some (mem s !! e);
  inv_threads : forall i th, threads s !! i = Some th ->
    pc_inv (mem s) (pushes s) st (at_pc th);
}.

(** The set of elements is fixed: distinct, aligned addresses. *)
Definition elems_ok (E : list Z) : Prop := NoDup E /\ Forall elem_ok E.

(** A write outside the stack does not disturb a thread that is not pushing
    the element written. *)
Lemma pc_inv_write m k st p a v :
  a ∉ st -> a ∉ in_flight p -> pc_inv m k st p -> pc_inv (<[a := v]> m) k st p.
Proof.
  intros Hst Hp. destruct p as [| | |e tail| |tail seen|tail newhead seen]; simpl in *; try done.
  - intros He. rewrite lookup_insert_ne; [done|set_solver].
  - intros (st0 & Hle & Hm & H). exists st0. split; [done|]. split; [|done].
    destruct (decide (a = lf_lifo tail)) as [<-|]; [rewrite lookup_insert_eq; eauto|].
    by rewrite lookup_insert_ne.
  - intros (st0 & (Hle & Hm & Ha & (Hn & Hnd & st1 & Hs0) & Hs) & Hw). exists st0.
    split.
    { split; [done|]. split; [|by eauto 10].
      destruct (decide (a = lf_lifo tail)) as [<-|]; [rewrite lookup_insert_eq; eauto|].
      by rewrite lookup_insert_ne. }
    intros Hk Hst0. destruct (Hw Hk Hst0) as (w & Hl & ->). exists w.
    rewrite lookup_insert_ne; [done|]. intros ->. apply Hst. rewrite Hst0, Hs0. left.
Qed.

Lemma saw_push m k st e tail seen st0 :
  saw m k st tail seen st0 -> saw m (k + 1) (e :: st) tail seen st0.
Proof.
  intros (Hle & Hm & Ha & Hs0 & Hs). split; [lia|]. do 3 (split; [done|]). lia.
Qed.

Lemma saw_pop m k st e tail seen st0 :
  saw m k (e :: st) tail seen st0 -> saw m k st tail seen st0.
Proof.
  intros (Hle & Hm & Ha & Hs0 & Hs). do 4 (split; [done|]). intros Hk.
  destruct (Hs Hk) as [pre ->]. exists (pre ++ [e]). by rewrite <- (assoc_L (++)).
Qed.

Lemma pc_inv_push m k st e p : pc_inv m k st p -> pc_inv m (k + 1) (e :: st) p.
Proof.
  destruct p as [| | |? ?| |tail seen|tail newhead seen]; simpl; try done.
  - intros (st0 & Hs). exists st0. by apply saw_push.
  - intros (st0 & Hs & Hw). exists st0. split; [by apply saw_push|].
    destruct Hs as [Hle _]. intros. lia.
Qed.

Lemma pc_inv_pop m k st e p : pc_inv m k (e :: st) p -> pc_inv m k st p.
Proof.
  destruct p as [| | |? ?| |tail seen|tail newhead seen]; simpl; try done.
  - intros (st0 & Hs). exists st0. by eapply saw_pop.
  - intros (st0 & Hs & Hw). exists st0. split; [by eapply saw_pop|].
    destruct Hs as (_ & _ & _ & _ & Hs).
    intros Hk ->. destruct (Hs Hk) as [pre Hpre]. apply (f_equal length) in Hpre.
    rewrite length_app in Hpre. simpl in Hpre. lia.
Qed.

Lemma lookup_insert_cases {A} (l : list A) i j x y :
  <[i := x]> l !! j = Some y -> (i = j /\ y = x) \/ (i <> j /\ l !! j = Some y).
Proof. intros [(-> & -> & _)|[? ?]]%list_lookup_insert_Some; auto. Qed.

(** A step that only moves thread [i]. *)
Lemma inv_local E st hd m k l i th th' :
  inv E st (System hd m k l) -> l !! i = Some th ->
  thread_elems th' ≡ₚ thread_elems th -> pc_inv m k st (at_pc th') ->
  inv E st (System hd m k (<[i := th']> l)).
Proof.
  intros [Hc Ha He Hm Ht] Hi Hel Hp. split; simpl in *; [done..| |done|].
  - rewrite <- He. eapply all_elems_update; [done|]. by rewrite Hel.
  - intros j t [[-> ->]|[_ Hj]]%lookup_insert_cases; [done|by apply (Ht j)].
Qed.

Section Steps.
Context (E : list Z) (HE : elems_ok E).

Lemma inv_nodup st s : inv E st s -> NoDup (all_elems st (threads s)).
Proof. intros Hinv. rewrite (inv_elems _ _ _ Hinv). apply HE. Qed.

Lemma inv_elem st s i th e :
  inv E st s -> threads s !! i = Some th -> e ∈ thread_elems th ->
  elem_ok e /\ is_Some (mem s !! e) /\ e ∉ st.
Proof.
  intros Hinv Hi He. assert (Hin : e ∈ E).
  { rewrite <- (inv_elems _ _ _ Hinv). apply elem_of_app. right.
    destruct (elems_split _ _ _ Hi) as (rest & -> & _). apply elem_of_app. by left. }
  split_and!.
  - destruct HE as [_ Hok]. rewrite Forall_forall in Hok. by apply Hok.
  - by apply (inv_mapped _ _ _ Hinv).
  - eapply elems_stack_disjoint; [by apply inv_nodup|done..].
Qed.

(** A write to an element of thread [i] by that thread. *)
Lemma inv_write st hd m k l i th a v :
  inv E st (System hd m k l) -> l !! i = Some th -> a ∈ thread_elems th ->
  (forall j t, j <> i -> l !! j = Some t -> pc_inv (<[a := v]> m) k st (at_pc t)) /\
  lchain (<[a := v]> m) (lf_lifo hd) st /\
  (forall e, e ∈ E -> is_Some (<[a := v]> m !! e)).
Proof.
  intros Hinv Hi Ha.
  pose proof (inv_elem _ _ _ _ _ Hinv Hi Ha) as (_ & Hma & Hst). simpl in *. split_and!.
  - intros j t Hj Hl. apply pc_inv_write; [done| |by apply (inv_threads _ _ _ Hinv j)].
    intros Hf. eapply (elems_disjoint st l i j th t a); [by apply (inv_nodup _ _ Hinv)|done..| ].
    apply elem_of_app. by left.
  - by apply lchain_insert; [|apply (inv_chain _ _ _ Hinv)].
  - intros e He. destruct (decide (a = e)) as [->|]; [rewrite lookup_insert_eq; eauto|].
    rewrite lookup_insert_ne by done. by apply (inv_mapped _ _ _ Hinv).
Qed.

(** The compare-and-swap of a pop that succeeds installs the rest of the stack:
    the top it read is still the top, since a suffix of a duplicate-free list
    with the same head is the whole list. *)
Lemma pop_cas_ok st hd m k l i own tail newhead seen :
  inv E st (System hd m k l) -> l !! i = Some (Thread own (PopCas tail newhead seen)) ->
  hd = tail -> k < seen + 2 ^ 16 ->
  exists st', st = lf_lifo tail :: st' /\ lchain m (lf_lifo newhead) st' /\
    aba_value newhead = k mod 65536.
Proof.
  intros Hinv Hi -> Hk. pose proof (inv_threads _ _ _ Hinv i _ Hi) as Hp. simpl in Hp.
  destruct Hp as (st0 & (Hle & Hm & Ha & (Hn & Hnd & st1 & Hs0) & Hs) & Hw).
  pose proof (inv_aba _ _ _ Hinv) as Haba. simpl in Haba. rewrite Ha in Haba.
  assert (k = seen) as -> by (Z.to_euclidean_division_equations; lia).
  destruct (Hs eq_refl) as [pre Hpre]. pose proof (inv_chain _ _ _ Hinv) as Hc. simpl in Hc.
  destruct st as [|x st2]; simpl in Hc; [done|].
  destruct Hc as (<- & Hx & w & Hmw & Hc).
  assert (pre = []) as ->.
  { destruct pre as [|y pre]; [done|]. rewrite Hs0 in Hpre. simpl in Hpre.
    injection Hpre as <- ->. subst st0. apply NoDup_cons in Hnd as [Hnd _].
    exfalso. apply Hnd. apply elem_of_app. right. left. }
  destruct (Hw eq_refl) as (w' & Hmw' & ->); [done|]. rewrite Hmw in Hmw'. simplify_eq.
  destruct (pop_newhead_parts tail w') as [E1 E2]. exists st2. by rewrite E1, E2.
Qed.

Lemma push_cas_inv st hd m k l i own e :
  inv E st (System hd m k l) -> l !! i = Some (Thread own (PushCas e hd)) ->
  inv E (e :: st) (System (push_newhead e hd) m (k + 1) (<[i := Thread own Idle]> l)).
Proof.
  intros Hinv Hi.
  destruct (inv_elem _ _ i _ e Hinv Hi ltac:(left)) as (He & _ & _).
  destruct (push_newhead_parts e hd He) as [E1 E2].
  pose proof (inv_threads _ _ _ Hinv i _ Hi) as Hn.
  destruct Hinv as [Hc Ha Hel Hm Ht]. split; simpl in *.
  - rewrite E1. eauto.
  - rewrite E2, Ha. by rewrite Z.add_mod_idemp_l.
  - rewrite <- Hel. eapply all_elems_update; [done|]. simpl.
    by rewrite Permutation_middle.
  - done.
  - intros j t [[-> ->]|[_ Hj]]%lookup_insert_cases; [done|].
    by apply pc_inv_push, (Ht j).
Qed.

Lemma pop_cas_inv st hd m k l i own tail newhead seen :
  inv E st (System hd m k l) -> l !! i = Some (Thread own (PopCas tail newhead seen)) ->
  hd = tail -> k < seen + 2 ^ 16 ->
  exists st', st = lf_lifo tail :: st' /\
    inv E st' (System newhead m k (<[i := Thread (lf_lifo tail :: own) Idle]> l)).
Proof.
  intros Hinv Hi Hhd Hk.
  destruct (pop_cas_ok _ _ _ _ _ _ _ _ _ _ Hinv Hi Hhd Hk) as (st' & -> & Hc' & Ha').
  exists st'. split; [done|]. destruct Hinv as [Hc Ha Hel Hm Ht]. split; simpl in *; [done..| |done|].
  - rewrite <- Hel. eapply all_elems_update; [done|]. simpl. by rewrite Permutation_middle.
  - intros j t [[-> ->]|[_ Hj]]%lookup_insert_cases; [done|].
    by eapply pc_inv_pop, (Ht j).
Qed.

(** A thread that writes one of its elements, and moves or not. *)
Lemma write_inv st hd m k l i th th' a v :
  inv E st (System hd m k l) -> l !! i = Some th -> a ∈ thread_elems th ->
  thread_elems th' ≡ₚ thread_elems th -> pc_inv (<[a := v]> m) k st (at_pc th') ->
  inv E st (System hd (<[a := v]> m) k (<[i := th']> l)).
Proof.
  intros Hinv Hi Ha Hel Hp.
  destruct (inv_write _ _ _ _ _ _ _ _ v Hinv Hi Ha) as (H1 & H2 & H3).
  destruct Hinv as [Hc Hab He Hm Ht]. split; simpl in *; [done..| |done|].
  - rewrite <- He. eapply all_elems_update; [done|]. by rewrite Hel.
  - intros j t [[-> ->]|[Hij Hj]]%lookup_insert_cases; [done|]. by eapply (H1 j).
Qed.

Definition step_spec (st : list Z) (e : option event) (st' : list Z) : Prop :=
  match e with Some ev => spec st ev = Some st' | None => st' = st end.

Lemma saw_read st hd m k l :
  inv E st (System hd m k l) -> lf_lifo hd <> NULL -> saw m k st hd k st.
Proof.
  intros Hinv Hn. pose proof (inv_nodup _ _ Hinv) as Hnd. simpl in Hnd.
  apply NoDup_app in Hnd as [Hnd _].
  destruct Hinv as [Hc Ha Hel Hm Ht]. simpl in *.
  destruct st as [|x st]; simpl in Hc; [done|].
  destruct Hc as (<- & Hx & w & Hw & Hc). unfold saw. split_and!; eauto; lia.
Qed.

Lemma step_inv i st s e s' :
  inv E st s -> step i s e s' -> Forall timely (option_list e) -> exists st', inv E st' s' /\ step_spec st e st'.
Proof.
  intros Hinv Hs Htime.
  destruct Hs as [hd m k l own e Hi He|hd m k l own e Hi|hd m m' k l own e tail Hi Hst
    |hd m k l own e tail Hi ->|hd m k l own e tail Hi|hd m k l own Hi
    |hd m k l own Hi Hn|hd m k l own Hi Hn|hd m k l own tail seen nx Hi Hl
    |hd m k l own tail newhead seen Hi Hhd|hd m k l own tail newhead seen Hi
    |hd m m' k l own p e v Hi He Hst];
    pose proof (inv_threads _ _ _ Hinv i _ Hi) as Hp; cbn [at_pc pc_inv mem pushes] in Hp.
  - exists st. split; [|done]. eapply inv_local; [done..| |done]. simpl.
    apply list_remove_perm; [|done]. pose proof (inv_nodup _ _ Hinv) as Hnd.
    apply NoDup_app in Hnd as (_ & _ & Hnd). simpl in Hnd.
    destruct (elems_split _ _ _ Hi) as (rest & Hr & _). rewrite Hr in Hnd.
    by apply NoDup_app in Hnd as [Hnd _].
  - exists st. split; [|done]. by eapply inv_local.
  - exists st. split; [|done].
    destruct (inv_elem _ _ i _ e Hinv Hi ltac:(left)) as ([Heq He] & Hmap & _). simpl in Hmap.
    rewrite Heq, store_some in Hst by done. simplify_eq.
    eapply write_inv; [done..|left|done|]. simpl. apply lookup_insert_eq.
  - exists (e :: st). split; [by apply push_cas_inv|done].
  - exists st. split; [|done]. by eapply inv_local.
  - exists st. split; [|done]. by eapply inv_local.
  - exists []. apply (lchain_null _ _ _ (inv_chain _ _ _ Hinv)) in Hn. subst st.
    split; [|done]. by eapply inv_local.
  - exists st. split; [|done]. eapply inv_local; [done..|]. simpl. exists st.
    by eapply saw_read.
  - exists st. split; [|done]. eapply inv_local; [done..|]. simpl.
    destruct Hp as (st0 & Hsaw). exists st0. split; [done|]. intros _ _. by exists nx.
  - apply (proj1 (Forall_singleton timely _)) in Htime. cbn [timely] in Htime.
    assert (Hk : k < seen + 2 ^ 16) by lia.
    destruct (pop_cas_inv _ _ _ _ _ _ _ _ _ _ Hinv Hi Hhd Hk) as (st' & -> & H').
    exists st'. split; [done|]. simpl. by rewrite Z.eqb_refl.
  - exists st. split; [|done]. by eapply inv_local.
  - exists st. split; [|done].
    assert (Hel : e ∈ thread_elems (Thread own p)) by (apply elem_of_app; by right).
    destruct (inv_elem _ _ i _ e Hinv Hi Hel) as (_ & Hmap & Hest). simpl in Hmap.
    rewrite store_some in Hst by done. simplify_eq.
    rewrite <- (list_insert_id l i _ Hi). eapply write_inv; [done..|].
    apply pc_inv_write; [done| |done]. intros Hf.
    pose proof (inv_nodup _ _ Hinv) as Hnd. apply NoDup_app in Hnd as (_ & _ & Hnd).
    simpl in Hnd. destruct (elems_split _ _ _ Hi) as (rest & Hr & _). rewrite Hr in Hnd.
    apply NoDup_app in Hnd as [Hnd _]. apply NoDup_app in Hnd as (_ & Hnd & _).
    by apply (Hnd e).
Qed.

Lemma lf_spec_run_snoc st tr st1 e st2 :
  spec_run st tr = Some st1 -> step_spec st1 e st2 ->
  spec_run st (tr ++ option_list e) = Some st2.
Proof.
  revert st. induction tr as [|x tr IH]; intros st H1 H2; simpl in *.
  - simplify_eq. destruct e; simpl in *; [by rewrite H2|by subst].
  - destruct (spec st x); [by apply IH|done].
Qed.

Lemma run_inv st0 s0 tr s :
  inv E st0 s0 -> run s0 tr s -> Forall timely tr -> exists st, inv E st s /\ spec_run st0 tr = Some st.
Proof.
  intros H0. induction 1 as [|tr s1 i e s2 Hr IH Hs]; intros Ht; [by exists st0|].
  apply Forall_app in Ht as [Ht1 Ht2]. destruct (IH Ht1) as (st1 & Hi1 & Hsp).
  destruct (step_inv _ _ _ _ _ Hi1 Hs Ht2) as (st2 & Hi2 & Hsp2). exists st2.
  split; [done|]. by eapply lf_spec_run_snoc.
Qed.
End Steps.

(** A thread gets an element that no one had: the arena gives out a slab for the
    first time. *)
Lemma inv_fresh E st hd m k l i own p e v :
  elems_ok E -> inv E st (System hd m k l) -> l !! i = Some (Thread own p) -> e ∉ E -> elem_ok e ->
  elems_ok (e :: E) /\ inv (e :: E) st (System hd (<[e := v]> m) k (<[i := Thread (e :: own) p]> l)).
Proof.
  intros [Hnd Hok] Hinv Hi He Hel. split; [split; by constructor|].
  assert (Hall : forall x, x ∈ all_elems st l -> x ∈ E) by (intros x; by rewrite (inv_elems _ _ _ Hinv)).
  assert (Hst : e ∉ st) by (intros Hin; apply He, Hall, elem_of_app; by left).
  assert (Hfl : forall j t, l !! j = Some t -> e ∉ in_flight (at_pc t)).
  { intros j t Hj Hin. apply He, Hall, elem_of_app. right. destruct (elems_split _ _ _ Hj) as (rest & -> & _).
    apply elem_of_app. left. apply elem_of_app. by left. }
  destruct Hinv as [Hc Ha Hel' Hm Ht]. split; cbn [head mem pushes threads] in *.
  - by apply lchain_insert.
  - done.
  - rewrite <- Hel'. unfold all_elems. destruct (elems_split _ _ _ Hi) as (rest & H1 & H2). rewrite H1, H2.
    unfold thread_elems. cbn [at_pc owns]. rewrite <- !(assoc_L (++)). cbn [app]. rewrite !(Permutation_middle _ _ e).
    rewrite <- Permutation_middle. done.
  - intros x [->|Hx]%elem_of_cons; [rewrite lookup_insert_eq; eauto|].
    rewrite lookup_insert_ne by (by intros ->). by apply Hm.
  - intros j t [[-> ->]|[_ Hj]]%lookup_insert_cases; cbn [at_pc].
    + apply pc_inv_write; [done|by apply (Hfl j _ Hi)|by apply (Ht j _ Hi)].
    + apply pc_inv_write; [done|by apply (Hfl j)|by apply (Ht j)].
Qed.

(** ** Properties *)

(** Before anything runs: the stack is empty, the threads are idle and share
    the elements of [E], which are mapped. *)
Definition initial (E : list Z) (s : system) : Prop :=
  head s = lf_lifo_init /\ pushes s = 0 /\
  Forall (fun th => at_pc th = Idle) (threads s) /\
  all_elems [] (threads s) ≡ₚ E /\ (forall e, e ∈ E -> is_Some (mem s !! e)).

Lemma lf_initial_inv E s : initial E s -> inv E [] s.
Proof.
  intros (Hh & Hp & Hi & He & Hm). split; simpl; rewrite ?Hh, ?Hp; try done.
  intros i th Hl. by rewrite (Forall_lookup_1 _ _ _ _ Hi Hl).
Qed.

(** No thread is about to touch memory that is not mapped. *)
Definition access_ok (m : gmap Z Z) (p : pc) : Prop :=
  match p with
  | PushWrite e _ => is_Some (store m (lf_lifo e) NULL)
  | PopNext tail _ => is_Some (load m (lf_lifo tail))
  | _ => True
  end.

Lemma inv_access E st s i th :
  elems_ok E -> inv E st s -> threads s !! i = Some th -> access_ok (mem s) (at_pc th).
Proof.
  intros HE Hinv Hi. destruct th as [own p].
  pose proof (inv_threads _ _ _ Hinv i _ Hi) as Hp. destruct p; simpl in *; try done.
  - destruct (inv_elem E HE _ _ i _ elem Hinv Hi ltac:(left)) as ([He _] & Hm & _).
    rewrite He, store_some by done. eauto.
  - destruct Hp as (st0 & _ & Hm & _). done.
Qed.

(** C7. The lock-free stack is linearizable and loses nothing as long as its
    counter does not go round: in every interleaving of pushes, pops and writes
    to owned elements by any number of threads in which no pop succeeds 2^16 or
    more pushes after it read the head, the completed operations, in the order of
    their atomic steps, are a history of a sequential stack; the head word and
    the links hold exactly that stack; stack and threads together hold each
    element once; and no access is to unmapped memory.  [lf_lifo_aba] shows that
    the condition is needed. *)
Theorem lf_lifo_linearizable E s0 tr s :
  elems_ok E -> initial E s0 -> run s0 tr s -> Forall timely tr ->
  exists st, spec_run [] tr = Some st /\
    lchain (mem s) (lf_lifo (head s)) st /\
    all_elems st (threads s) ≡ₚ E /\
    forall i th, threads s !! i = Some th -> access_ok (mem s) (at_pc th).
Proof.
  intros HE H0%lf_initial_inv Hr Ht. destruct (run_inv E HE _ _ _ _ H0 Hr Ht) as (st & Hi & Hsp).
  exists st. split_and!; [done|apply Hi|apply Hi|]. intros. by eapply inv_access.
Qed.

(** Two threads: the second finds the stack empty while the first is between the
    read and the compare-and-swap of its push, and pops the element after it. *)
Lemma lf_lifo_linearizable_witness :
  exists s0 s tr st, run s0 tr s /\ tr = [EPopNull; EPush 65536; EPop 65536 0] /\
    spec_run [] tr = Some st /\
    lchain (mem s) (lf_lifo (head s)) st /\
    all_elems st (threads s) ≡ₚ [65536; 131072] /\
    forall i th, threads s !! i = Some th -> access_ok (mem s) (at_pc th).
Proof.
  set (m := list_to_map [(65536, 7); (131072, 7)] : gmap Z Z).
  set (s0 := System 0 m 0 [Thread [65536; 131072] Idle; Thread [] Idle]).
  pose proof (run_nil s0) as R.
  eapply run_step in R; [|eapply (step_call_push 0 _ _ _ _ _ 65536); [reflexivity|left]].
  eapply run_step in R; [|eapply (step_push_read 0); [reflexivity]].
  eapply run_step in R; [|eapply (step_call_pop 1); [reflexivity]].
  eapply run_step in R; [|eapply (step_pop_read_null 1); [reflexivity..]].
  eapply run_step in R; [|eapply (step_push_write 0); [reflexivity..]].
  eapply run_step in R; [|eapply (step_push_cas 0); [reflexivity..]].
  eapply run_step in R; [|eapply (step_call_pop 1); [reflexivity]].
  eapply run_step in R; [|eapply (step_pop_read 1); [reflexivity|done]].
  eapply run_step in R; [|eapply (step_pop_next 1); [reflexivity..]].
  eapply run_step in R; [|eapply (step_pop_cas 1); [reflexivity|reflexivity]].
  assert (HE : elems_ok [65536; 131072]).
  { split; [by apply (bool_decide_unpack _); vm_compute|by repeat constructor]. }
  assert (H0 : initial [65536; 131072] s0).
  { split_and!; try done; [by repeat constructor|].
    intros e He. rewrite list_elem_of_In in He.
    destruct He as [<-|[<-|[]]]; eexists; reflexivity. }
  destruct (lf_lifo_linearizable _ _ _ _ HE H0 R) as (st & H); [repeat constructor|].
  do 3 eexists. exists st. split; [exact R|]. split; [reflexivity|exact H].
Defined.

(** ** When the counter goes round *)

Lemma run_trans s0 tr1 s1 tr2 s2 : run s0 tr1 s1 -> run s1 tr2 s2 -> run s0 (tr1 ++ tr2) s2.
Proof.
  intros H1. induction 1 as [|tr s i e s' _ IH Hs]; [by rewrite app_nil_r|].
  rewrite (assoc_L (++)). by apply (run_step _ _ s i).
Qed.

Lemma lf_spec_run_app st tr1 tr2 : spec_run st (tr1 ++ tr2) =
  match spec_run st tr1 with Some st' => spec_run st' tr2 | None => None end.
Proof. revert st. induction tr1 as [|e tr IH]; intros st; [done|]. cbn. destruct (spec st e); [apply IH|done]. Qed.

(** A whole push and a whole pop of one thread while the others stand still. *)
Lemma push_alone i hd m k l own e : l !! i = Some (Thread own Idle) -> e ∈ own -> elem_ok e -> is_Some (m !! e) ->
  run (System hd m k l) [EPush e] (System (push_newhead e hd) (<[e := hd]> m) (k + 1)
    (<[i := Thread (list_difference own [e]) Idle]> l)).
Proof.
  intros Hi He [Ee _] Hm. pose proof (lookup_lt_Some _ _ _ Hi) as Hlt. pose proof (run_nil (System hd m k l)) as R.
  eapply run_step in R; [|eapply (step_call_push i); [exact Hi|exact He]].
  eapply run_step in R; [|eapply (step_push_read i), list_lookup_insert_eq; done].
  rewrite list_insert_insert_eq in R.
  eapply run_step in R; [|eapply (step_push_write i); [by apply list_lookup_insert_eq|rewrite Ee; by apply store_some]].
  rewrite list_insert_insert_eq in R.
  eapply run_step in R; [|eapply (step_push_cas i); [by apply list_lookup_insert_eq|done]].
  by rewrite list_insert_insert_eq in R.
Qed.

Lemma pop_alone i hd m k l own w : l !! i = Some (Thread own Idle) -> lf_lifo hd <> NULL -> m !! lf_lifo hd = Some w ->
  run (System hd m k l) [EPop (lf_lifo hd) 0] (System (pop_newhead hd w) m k (<[i := Thread (lf_lifo hd :: own) Idle]> l)).
Proof.
  intros Hi Hn Hw. pose proof (lookup_lt_Some _ _ _ Hi) as Hlt. pose proof (run_nil (System hd m k l)) as R.
  eapply run_step in R; [|eapply (step_call_pop i); exact Hi].
  eapply run_step in R; [|eapply (step_pop_read i); [by apply list_lookup_insert_eq|done]].
  rewrite list_insert_insert_eq in R.
  eapply run_step in R; [|eapply (step_pop_next i); [by apply list_lookup_insert_eq|exact Hw]].
  rewrite list_insert_insert_eq in R.
  eapply run_step in R; [|eapply (step_pop_cas i); [by apply list_lookup_insert_eq|done]].
  by rewrite list_insert_insert_eq, Z.sub_diag in R.
Qed.

(** A thread that pushes and pops the same element [n] times only moves the
    counter. *)
Lemma push_pop_cycles a own th m n : elem_ok a -> a ∈ own -> a :: list_difference own [a] = own -> m !! a <> None -> forall k,
  exists m' tr, run (System (k mod 65536) m k [Thread own Idle; th]) tr
      (System ((k + Z.of_nat n) mod 65536) m' (k + Z.of_nat n) [Thread own Idle; th]) /\
    Forall timely tr /\ spec_run [] tr = Some [] /\ (forall x, x <> a -> m' !! x = m !! x) /\ m' !! a <> None.
Proof.
  intros Ha Hin Hown Hm k. induction n as [|n (m1 & tr & R & Ht & Hs & Hm1 & Hma)].
  - exists m, []. rewrite Z.add_0_r. split_and!; try done. constructor.
  - set (k1 := k + Z.of_nat n) in *. set (hd := k1 mod 65536) in *.
    assert (Hhd : 0 <= hd < 65536) by (by apply Z.mod_pos_bound).
    destruct (word_parts 0 hd eq_refl Hhd) as [W1 W2]. rewrite Z.add_0_l in W1, W2.
    destruct (push_newhead_parts a hd Ha) as [P1 P2]. destruct (pop_newhead_parts (push_newhead a hd) hd) as [Q1 Q2].
    assert (Ea : is_Some (m1 !! a)) by (destruct (m1 !! a); [by eexists|done]).
    pose proof (push_alone 0 hd m1 k1 [Thread own Idle; th] own a eq_refl Hin Ha Ea) as R1.
    assert (R2 : run (System (push_newhead a hd) (<[a := hd]> m1) (k1 + 1) [Thread (list_difference own [a]) Idle; th])
      [EPop a 0] (System ((k + Z.of_nat (S n)) mod 65536) (<[a := hd]> m1) (k1 + 1) [Thread own Idle; th])).
    { pose proof (pop_alone 0 (push_newhead a hd) (<[a := hd]> m1) (k1 + 1) [Thread (list_difference own [a]) Idle; th]
        (list_difference own [a]) hd eq_refl) as R2. rewrite P1 in R2. cbn [list_insert insert] in R2. rewrite Hown in R2.
      replace (pop_newhead (push_newhead a hd) hd) with ((k + Z.of_nat (S n)) mod 65536) in R2.
      - apply R2; [destruct Ha as [_ Ha]; lia|apply lookup_insert_eq].
      - rewrite (word_split (pop_newhead _ _)), Q1, Q2, W1, P2, W2. unfold hd. rewrite Z.add_mod_idemp_l, Z.add_0_l by lia. unfold k1. f_equal. lia. }
    exists (<[a := hd]> m1), (tr ++ [EPush a; EPop a 0]). replace (k + Z.of_nat (S n)) with (k1 + 1) in * by lia.
    split; [eapply run_trans; [exact R|exact (run_trans _ _ _ _ _ R1 R2)]|]. split_and!.
    + apply Forall_app. split; [done|]. by repeat constructor.
    + rewrite lf_spec_run_app, Hs. cbn. by rewrite Z.eqb_refl.
    + intros x Hx. rewrite lookup_insert_ne by done. by apply Hm1.
    + by rewrite lookup_insert_eq.
Qed.

(** Head words put together from an element and a counter. *)
Lemma push_word e e' c : e' mod 65536 = 0 -> 0 <= c < 65535 -> push_newhead e (e' + c) = e + (c + 1).
Proof.
  intros He Hc. unfold push_newhead, SMALL_LIFO_ALIGNMENT. destruct (word_parts e' c He ltac:(lia)) as [_ ->].
  change 65535 with (2 ^ 16 - 1). rewrite land_mask, Z.mod_small by lia. done.
Qed.

Lemma pop_word e c e' c' : e mod 65536 = 0 -> e' mod 65536 = 0 -> 0 <= c < 65536 -> 0 <= c' < 65536 ->
  pop_newhead (e + c) (e' + c') = e' + c.
Proof.
  intros He He' Hc Hc'. destruct (pop_newhead_parts (e + c) (e' + c')) as [E1 E2].
  rewrite (word_split (pop_newhead _ _)), E1, E2.
  destruct (word_parts e c He Hc) as [_ ->]. by destruct (word_parts e' c' He' Hc') as [-> _].
Qed.

Lemma remove_two (a b : Z) : a <> b ->
  list_difference [a; b] [a] = [b] /\ list_difference [a; b] [b] = [a] /\
  list_difference [b; a] [a] = [b] /\ list_difference [a] [a] = [].
Proof.
  intros. cbn [list_difference].
  split_and!; repeat match goal with |- context [decide_rel ?R ?x ?l] => destruct (decide_rel R x l) end;
    try done; exfalso; set_solver.
Qed.

(** Both elements are pushed; the second thread reads the head and the link of
    the top; the first thread pops both, and pushes and pops the top once. *)
Lemma aba_prefix a b m : elem_ok a -> elem_ok b -> a <> b -> is_Some (m !! a) -> is_Some (m !! b) ->
  exists tr m', run (System lf_lifo_init m 0 [Thread [a; b] Idle; Thread [] Idle]) tr
      (System 3 m' 3 [Thread [a; b] Idle; Thread [] (PopCas (a + 2) (b + 2) 2)]) /\
    Forall timely tr /\ spec_run [] tr = Some [] /\ m' !! b = Some 0 /\ m' !! a <> None.
Proof.
  intros Ha Hb Hab Hma Hmb. destruct (elem_ok_mod a Ha) as [Am Ap], (elem_ok_mod b Hb) as [Bm Bp].
  destruct (remove_two a b Hab) as (D1 & D2 & D3 & D4).
  pose proof (push_alone 0 (0 + 0) m 0 [Thread [a; b] Idle; Thread [] Idle] [a; b] b eq_refl ltac:(set_solver) Hb Hmb) as R1.
  rewrite D2, (push_word b 0 0 eq_refl ltac:(lia)) in R1. cbn [list_insert insert Z.add] in R1.
  set (m1 := <[b := 0 + 0]> m) in *. set (m2 := <[a := b + 1]> m1).
  assert (H1a : is_Some (m1 !! a)) by (unfold m1; by rewrite lookup_insert_ne).
  pose proof (push_alone 0 (b + 1) m1 1 [Thread [a] Idle; Thread [] Idle] [a] a eq_refl ltac:(set_solver) Ha H1a) as R2.
  rewrite D4, (push_word a b 1 Bm ltac:(lia)) in R2. cbn [list_insert insert Z.add Pos.add] in R2. fold m2 in R2.
  destruct (word_parts a 2 Am ltac:(lia)) as [La _], (word_parts b 2 Bm ltac:(lia)) as [Lb _].
  pose proof (run_trans _ _ _ _ _ R1 R2) as R. change (1 + 1) with 2 in R.
  eapply run_step in R; [|eapply (step_call_pop 1); reflexivity].
  eapply run_step in R; [|eapply (step_pop_read 1); [reflexivity|rewrite La; change NULL with 0; lia]].
  assert (M2a : m2 !! a = Some (b + 1)) by apply lookup_insert_eq.
  assert (M2b : m2 !! b = Some (0 + 0)) by (unfold m2, m1; by rewrite lookup_insert_ne, lookup_insert_eq).
  eapply run_step in R; [|eapply (step_pop_next 1); [reflexivity|rewrite La; exact M2a]].
  rewrite (pop_word a 2 b 1) in R by (done || lia). cbn in R.
  set (th := Thread [] (PopCas (a + 2) (b + 2) 2)) in *.
  pose proof (pop_alone 0 (a + 2) m2 2 [Thread [] Idle; th] [] (b + 1) eq_refl) as R3.
  rewrite La, (pop_word a 2 b 1) in R3 by (done || lia). specialize (R3 ltac:(change NULL with 0; lia) M2a).
  pose proof (pop_alone 0 (b + 2) m2 2 [Thread [a] Idle; th] [a] (0 + 0) eq_refl) as R4.
  rewrite Lb, (pop_word b 2 0 0) in R4 by (done || lia). specialize (R4 ltac:(change NULL with 0; lia) M2b).
  pose proof (push_alone 0 (0 + 2) m2 2 [Thread [b; a] Idle; th] [b; a] a eq_refl ltac:(set_solver) Ha ltac:(eauto)) as R5.
  rewrite D3, (push_word a 0 2 eq_refl ltac:(lia)) in R5.
  destruct (word_parts a 3 Am ltac:(lia)) as [La3 _].
  pose proof (pop_alone 0 (a + 3) (<[a := 0 + 2]> m2) 3 [Thread [b] Idle; th] [b] (0 + 2) eq_refl) as R6.
  rewrite La3, (pop_word a 3 0 2) in R6 by (done || lia).
  specialize (R6 ltac:(change NULL with 0; lia) ltac:(apply lookup_insert_eq)).
  pose proof (run_trans _ _ _ _ _ R (run_trans _ _ _ _ _ R3 (run_trans _ _ _ _ _ R4 (run_trans _ _ _ _ _ R5 R6)))) as RR.
  do 2 eexists. split; [exact RR|]. split; [by repeat constructor|]. split; [|split].
  - cbn [app option_list spec_run spec]. by rewrite !Z.eqb_refl.
  - by rewrite lookup_insert_ne.
  - by rewrite lookup_insert_eq.
Qed.

(** C39. The push counter does not rule out the ABA problem, it only makes it
    rare.  Two threads and any two elements: one thread stops in a pop between
    reading the link of the top and the compare-and-swap while the other pops both
    elements and pushes the first one 2^16 times, popping it in between; the head
    word is then what the first thread read, its compare-and-swap succeeds and
    makes the second element the top, which the other thread owns.  It pops that
    one too: both threads own it, and the history is none of a stack. *)
Theorem lf_lifo_aba a b m : elem_ok a -> elem_ok b -> a <> b -> is_Some (m !! a) -> is_Some (m !! b) ->
  exists tr s, run (System lf_lifo_init m 0 [Thread [a; b] Idle; Thread [] Idle]) (tr ++ [EPop a (2 ^ 16); EPop b 0]) s /\
    Forall timely tr /\ spec_run [] tr = Some [a] /\ spec_run [] (tr ++ [EPop a (2 ^ 16); EPop b 0]) = None /\
    threads s = [Thread [b] Idle; Thread [b; a] Idle].
Proof.
  intros Ha Hb Hab Hma Hmb. destruct (elem_ok_mod a Ha) as [Am Ap], (elem_ok_mod b Hb) as [Bm Bp].
  destruct (remove_two a b Hab) as (D1 & D2 & D3 & D4).
  destruct (aba_prefix a b m Ha Hb Hab Hma Hmb) as (tr1 & m1 & R1 & T1 & S1 & Mb & Ma).
  set (th := Thread [] (PopCas (a + 2) (b + 2) 2)) in *.
  destruct (push_pop_cycles a [a; b] th m1 65534 Ha ltac:(set_solver) ltac:(by rewrite D1) Ma 3) as (m2 & tr2 & R2 & T2 & S2 & M2 & Ma2).
  change (3 + Z.of_nat 65534) with 65537 in R2. change (65537 mod 65536) with (0 + 1) in R2. change (3 mod 65536) with 3 in R2.
  pose proof (push_alone 0 (0 + 1) m2 65537 [Thread [a; b] Idle; th] [a; b] a eq_refl ltac:(set_solver) Ha) as R3.
  rewrite D1, (push_word a 0 1 eq_refl ltac:(lia)) in R3. specialize (R3 ltac:(destruct (m2 !! a); [eauto|done])).
  pose proof (run_trans _ _ _ _ _ R1 (run_trans _ _ _ _ _ R2 R3)) as R.
  destruct (word_parts a 2 Am ltac:(lia)) as [La _], (word_parts b 2 Bm ltac:(lia)) as [Lb _].
  eapply run_step in R; [|eapply (step_pop_cas 1); reflexivity]. rewrite La in R.
  pose proof (pop_alone 1 (b + 2) (<[a := 0 + 1]> m2) 65538 [Thread [b] Idle; Thread [a] Idle] [a] 0 eq_refl) as R4.
  rewrite Lb in R4. specialize (R4 ltac:(change NULL with 0; lia) ltac:(rewrite lookup_insert_ne, M2 by done; done)).
  exists (tr1 ++ tr2 ++ [EPush a]). eexists. split.
  { pose proof (run_trans _ _ _ _ _ R R4) as RR. rewrite <- (assoc_L (++)) in RR. exact RR. }
  assert (S3 : spec_run [] (tr1 ++ tr2 ++ [EPush a]) = Some [a]) by (by rewrite lf_spec_run_app, S1, lf_spec_run_app, S2).
  split; [|split; [done|split; [|done]]].
  - rewrite !Forall_app. by repeat constructor.
  - rewrite lf_spec_run_app, S3. cbn. by rewrite Z.eqb_refl.
Qed.

Lemma lf_lifo_aba_witness :
  exists tr s, run (System lf_lifo_init (list_to_map [(65536, 7); (131072, 7)]) 0
      [Thread [65536; 131072] Idle; Thread [] Idle]) (tr ++ [EPop 65536 (2 ^ 16); EPop 131072 0]) s /\
    Forall timely tr /\ threads s = [Thread [131072] Idle; Thread [131072; 65536] Idle].
Proof.
  destruct (lf_lifo_aba 65536 131072 (list_to_map [(65536, 7); (131072, 7)])) as (tr & s & R & T & _ & _ & H);
    [done|done|done|eexists; reflexivity|eexists; reflexivity|]. exists tr, s. split; [exact R|]. split; [exact T|exact H].
Defined.

(** A stack at rest. *)
Definition lf_rep (m : gmap Z Z) (head : Z) (st : list Z) : Prop :=
  lchain m (lf_lifo head) st.

(** A push and a pop that run alone, on a stack at rest: the push puts the
    element on top and counts itself in the low bits of the head, the pop takes
    the top and keeps the count, a pop of the empty stack returns NULL and
    changes nothing. *)
Theorem lf_lifo_sequential m head st e :
  lf_rep m head st -> elem_ok e -> e ∉ st -> is_Some (m !! e) ->
  (exists head' m', lf_lifo_push m head e = Some (head', m') /\
     lf_rep m' head' (e :: st) /\ aba_value head' = (aba_value head + 1) mod 65536 /\
     exists head'', lf_lifo_pop m' head' = Some (e, head'') /\ lf_rep m' head'' st /\
       aba_value head'' = aba_value head') /\
  (st = [] -> lf_lifo_pop m head = Some (NULL, head)).
Proof.
  intros Hc He Hn Hm. destruct (push_newhead_parts e head He) as [E1 E2].
  pose proof He as [E0 Hpos]. split.
  - unfold lf_lifo_push. rewrite E0, Z.eqb_refl, (store_some _ _ _ Hm). simpl.
    do 2 eexists. split; [done|]. unfold lf_rep. rewrite E1, E2. split; [|split; [done|]].
    + simpl. split; [done|]. split; [done|]. exists head. rewrite lookup_insert_eq.
      split; [done|]. by apply lchain_insert.
    + unfold lf_lifo_pop. rewrite E1. destruct (Z.eqb_spec e NULL); [lia|].
      unfold load. rewrite lookup_insert_eq. simpl. eexists. split; [done|].
      destruct (pop_newhead_parts (push_newhead e head) head) as [E3 E4].
      rewrite E3, E4, E2. split; [by apply lchain_insert|done].
  - intros ->. unfold lf_rep in Hc. simpl in Hc. unfold lf_lifo_pop. by rewrite Hc.
Qed.

Lemma lf_lifo_sequential_witness :
  lf_rep {[65536 := 7]} lf_lifo_init [] /\ elem_ok 65536 /\
  exists head' m', lf_lifo_push {[65536 := 7]} lf_lifo_init 65536 = Some (head', m') /\
    lf_rep m' head' [65536].
Proof.
  assert (H1 : lf_rep {[65536 := 7]} lf_lifo_init []) by done.
  assert (H2 : elem_ok 65536) by done.
  split; [done|]. split; [done|].
  destruct (lf_lifo_sequential _ _ _ 65536 H1 H2 ltac:(apply not_elem_of_nil)
    ltac:(eexists; reflexivity)) as [(h & m' & Hp & Hr & _) _]. by exists h, m'.
Defined.

(** [lf_lifo_is_empty] compares the head word with NULL, but a pop leaves
    the push counter in it: after one push and one pop the stack is empty, a pop
    returns NULL, and [lf_lifo_is_empty] says it is not empty. *)
Theorem lf_lifo_is_empty_counter m e :
  elem_ok e -> is_Some (m !! e) ->
  exists head m' head', lf_lifo_push m lf_lifo_init e = Some (head, m') /\
    lf_lifo_pop m' head = Some (e, head') /\
    lf_lifo_pop m' head' = Some (NULL, head') /\ lf_lifo_is_empty head' = false.
Proof.
  intros He Hm. destruct (push_newhead_parts e lf_lifo_init He) as [E1 E2].
  pose proof He as [E0 Hpos]. unfold lf_lifo_push.
  rewrite E0, Z.eqb_refl, (store_some _ _ _ Hm). simpl.
  do 3 eexists. split; [done|]. unfold lf_lifo_pop at 1. rewrite E1.
  destruct (Z.eqb_spec e NULL); [lia|]. unfold load. rewrite lookup_insert_eq. simpl.
  split; [done|]. unfold pop_newhead. rewrite E2. done.
Qed.

Lemma lf_lifo_is_empty_counter_witness :
  elem_ok 65536 /\
  exists head m' head', lf_lifo_push {[65536 := 7]} lf_lifo_init 65536 = Some (head, m') /\
    lf_lifo_pop m' head = Some (65536, head') /\
    lf_lifo_pop m' head' = Some (NULL, head') /\ lf_lifo_is_empty head' = false.
Proof.
  split; [done|]. apply lf_lifo_is_empty_counter; [done|]. eexists; reflexivity.
Defined.
