(* ===== verification/Rlist.v ===== *)
(** * Intrusive lists: [include/small/rlist.h]

    A circular doubly linked list through a head.  The memory holds the nodes;
    the operations are the sequences of loads and stores of the code, and the
    lemmas relate the rings in memory to lists.  [rlist_refines_lists] states the
    whole library as a refinement of operations on a family of lists. *)
From S2P Require Import Prelude.

(** ** Definitions *)

Record rlist := Rlist { prev : Z; next : Z }.

Abbreviation memory := (gmap Z rlist).

Definition get_next (m : memory) (p : Z) : option Z := next <$> m !! p.
Definition get_prev (m : memory) (p : Z) : option Z := prev <$> m !! p.
Definition set_next (m : memory) (p v : Z) : option memory :=
  r ← m !! p; Some (<[p := Rlist (prev r) v]> m).
Definition set_prev (m : memory) (p v : Z) : option memory :=
  r ← m !! p; Some (<[p := Rlist v (next r)]> m).

Definition rlist_create (m : memory) (list : Z) : option memory :=
  m ← set_next m list list;
  set_prev m list list.

Definition rlist_add (m : memory) (head item : Z) : option memory :=
  m ← set_prev m item head;
  hn ← get_next m head;
  m ← set_next m item hn;
  ip ← get_prev m item;
  m ← set_next m ip item;
  inx ← get_next m item;
  set_prev m inx item.

Definition rlist_add_tail (m : memory) (head item : Z) : option memory :=
  m ← set_next m item head;
  hp ← get_prev m head;
  m ← set_prev m item hp;
  ip ← get_prev m item;
  m ← set_next m ip item;
  inx ← get_next m item;
  set_prev m inx item.

(** The first two statements of [rlist_del], shared with [rlist_move_tail]. *)
Definition rlist_unlink (m : memory) (item : Z) : option memory :=
  ip ← get_prev m item; inx ← get_next m item;
  m ← set_next m ip inx;
  inx ← get_next m item; ip ← get_prev m item;
  set_prev m inx ip.

Definition rlist_del (m : memory) (item : Z) : option memory :=
  m ← rlist_unlink m item;
  rlist_create m item.

Definition rlist_shift (m : memory) (head : Z) : option (Z * memory) :=
  shift ← get_next m head;
  sn ← get_next m shift;
  m ← set_next m head sn;
  sn ← get_next m shift;
  m ← set_prev m sn head;
  m ← set_prev m shift shift;
  m ← set_next m shift shift;
  Some (shift, m).

Definition rlist_shift_tail (m : memory) (head : Z) : option (Z * memory) :=
  shift ← get_prev m head;
  m ← rlist_del m shift;
  Some (shift, m).

Definition rlist_first (m : memory) (head : Z) : option Z := get_next m head.
Definition rlist_last (m : memory) (head : Z) : option Z := get_prev m head.
Definition rlist_next (m : memory) (item : Z) : option Z := get_next m item.
Definition rlist_prev (m : memory) (item : Z) : option Z := get_prev m item.

Definition rlist_empty (m : memory) (item : Z) : option bool :=
  inx ← get_next m item; ip ← get_prev m item;
  Some ((inx =? ip) && (inx =? item)).

Definition rlist_move (m : memory) (to item : Z) : option memory :=
  m ← rlist_del m item;
  rlist_add m to item.

Definition rlist_move_tail (m : memory) (to item : Z) : option memory :=
  m ← rlist_unlink m item;
  m ← set_next m item to;
  tp ← get_prev m to;
  m ← set_prev m item tp;
  ip ← get_prev m item;
  m ← set_next m ip item;
  inx ← get_next m item;
  set_prev m inx item.

(** The relinking of one of the two heads [rlist_swap] exchanges. *)
Definition rlist_relink (m : memory) (lhs rhs : Z) : option memory :=
  ln ← get_next m lhs;
  m ← (if ln =? rhs then set_next m lhs lhs else Some m);
  ln ← get_next m lhs;
  m ← set_prev m ln lhs;
  lp ← get_prev m lhs;
  set_next m lp lhs.

Definition rlist_swap (m : memory) (rhs lhs : Z) : option memory :=
  tmp ← m !! rhs;
  l ← m !! lhs;
  m ← rlist_relink (<[lhs := tmp]> (<[rhs := l]> m)) lhs rhs;
  rlist_relink m rhs lhs.

Definition rlist_splice (m : memory) (head1 head2 : Z) : option memory :=
  empty ← rlist_empty m head2;
  if negb empty then
    h1n ← get_next m head1; h2p ← get_prev m head2;
    m ← set_prev m h1n h2p;
    h2p ← get_prev m head2; h1n ← get_next m head1;
    m ← set_next m h2p h1n;
    h2n ← get_next m head2;
    m ← set_next m head1 h2n;
    h2n ← get_next m head2;
    m ← set_prev m h2n head1;
    rlist_create m head2
  else Some m.

Definition rlist_splice_tail (m : memory) (head1 head2 : Z) : option memory :=
  empty ← rlist_empty m head2;
  if negb empty then
    h1p ← get_prev m head1; h2n ← get_next m head2;
    m ← set_next m h1p h2n;
    h2n ← get_next m head2; h1p ← get_prev m head1;
    m ← set_prev m h2n h1p;
    h2p ← get_prev m head2;
    m ← set_prev m head1 h2p;
    h2p ← get_prev m head2;
    m ← set_next m h2p head1;
    rlist_create m head2
  else Some m.

Definition rlist_cut_before (m : memory) (head1 head2 item : Z) : option memory :=
  h1n ← get_next m head1;
  if h1n =? item then rlist_create m head1
  else
    h2n ← get_next m head2;
    m ← set_next m head1 h2n;
    h1n ← get_next m head1;
    m ← set_prev m h1n head1;
    ip ← get_prev m item;
    m ← set_prev m head1 ip;
    h1p ← get_prev m head1;
    m ← set_next m h1p head1;
    m ← set_next m head2 item;
    set_prev m item head2.

(** [rlist_foreach] and [rlist_foreach_reverse]: the items visited, [fuel]
    bounding the steps. *)
Fixpoint foreach_from (step : memory -> Z -> option Z) (fuel : nat) (m : memory)
    (head item : Z) : option (list Z) :=
  match fuel with
  | O => None
  | S fuel =>
      if negb (item =? head) then
        item' ← step m item;
        l ← foreach_from step fuel m head item';
        Some (item :: l)
      else Some []
  end.

Definition rlist_foreach (fuel : nat) (m : memory) (head : Z) : option (list Z) :=
  item ← rlist_first m head;
  foreach_from rlist_next fuel m head item.

Definition rlist_foreach_reverse (fuel : nat) (m : memory) (head : Z) : option (list Z) :=
  item ← rlist_last m head;
  foreach_from rlist_prev fuel m head item.

(** ** Loads after stores *)

Section Memory.
Implicit Types m : memory.

Lemma next_mapped m p x : get_next m p = Some x -> is_Some (m !! p).
Proof. unfold get_next. destruct (m !! p); [eauto|done]. Qed.
Lemma prev_mapped m p x : get_prev m p = Some x -> is_Some (m !! p).
Proof. unfold get_prev. destruct (m !! p); [eauto|done]. Qed.
Lemma mapped_next m p : is_Some (m !! p) -> exists x, get_next m p = Some x.
Proof. unfold get_next. intros [r ->]. by eexists. Qed.
Lemma mapped_prev m p : is_Some (m !! p) -> exists x, get_prev m p = Some x.
Proof. unfold get_prev. intros [r ->]. by eexists. Qed.

(** The memory after a store, as a total function. *)
Definition upd_next m p v : memory := alter (fun r => Rlist (prev r) v) p m.
Definition upd_prev m p v : memory := alter (fun r => Rlist v (next r)) p m.

Lemma set_next_upd m p v : is_Some (m !! p) -> set_next m p v = Some (upd_next m p v).
Proof.
  intros [r E]. unfold set_next, upd_next. rewrite E. simpl. f_equal.
  apply map_eq. intros q. destruct (decide (p = q)) as [->|].
  - by rewrite lookup_insert_eq, lookup_alter_eq, E.
  - by rewrite lookup_insert_ne, lookup_alter_ne.
Qed.
Lemma set_prev_upd m p v : is_Some (m !! p) -> set_prev m p v = Some (upd_prev m p v).
Proof.
  intros [r E]. unfold set_prev, upd_prev. rewrite E. simpl. f_equal.
  apply map_eq. intros q. destruct (decide (p = q)) as [->|].
  - by rewrite lookup_insert_eq, lookup_alter_eq, E.
  - by rewrite lookup_insert_ne, lookup_alter_ne.
Qed.

Lemma next_upd_next m p v : is_Some (m !! p) -> get_next (upd_next m p v) p = Some v.
Proof. intros [r E]. unfold get_next, upd_next. by rewrite lookup_alter_eq, E. Qed.
Lemma prev_upd_prev m p v : is_Some (m !! p) -> get_prev (upd_prev m p v) p = Some v.
Proof. intros [r E]. unfold get_prev, upd_prev. by rewrite lookup_alter_eq, E. Qed.
Lemma next_upd_next_ne m p q v : p <> q -> get_next (upd_next m p v) q = get_next m q.
Proof. intros. unfold get_next, upd_next. by rewrite lookup_alter_ne. Qed.
Lemma prev_upd_prev_ne m p q v : p <> q -> get_prev (upd_prev m p v) q = get_prev m q.
Proof. intros. unfold get_prev, upd_prev. by rewrite lookup_alter_ne. Qed.
Lemma prev_upd_next m p q v : get_prev (upd_next m p v) q = get_prev m q.
Proof.
  unfold get_prev, upd_next. destruct (decide (p = q)) as [->|].
  - rewrite lookup_alter_eq. by destruct (m !! q).
  - by rewrite lookup_alter_ne.
Qed.
Lemma next_upd_prev m p q v : get_next (upd_prev m p v) q = get_next m q.
Proof.
  unfold get_next, upd_prev. destruct (decide (p = q)) as [->|].
  - rewrite lookup_alter_eq. by destruct (m !! q).
  - by rewrite lookup_alter_ne.
Qed.
Lemma mapped_upd_next m p q v : is_Some (upd_next m p v !! q) <-> is_Some (m !! q).
Proof. unfold upd_next. by rewrite lookup_alter_is_Some. Qed.
Lemma mapped_upd_prev m p q v : is_Some (upd_prev m p v !! q) <-> is_Some (m !! q).
Proof. unfold upd_prev. by rewrite lookup_alter_is_Some. Qed.
Lemma upd_next_other m p q v : p <> q -> upd_next m p v !! q = m !! q.
Proof. intros. unfold upd_next. by rewrite lookup_alter_ne. Qed.
Lemma upd_prev_other m p q v : p <> q -> upd_prev m p v !! q = m !! q.
Proof. intros. unfold upd_prev. by rewrite lookup_alter_ne. Qed.
End Memory.

Create HintDb rlist.
#[export] Hint Resolve next_mapped prev_mapped : rlist.
#[export] Hint Extern 1 (is_Some (upd_next _ _ _ !! _)) => apply mapped_upd_next : rlist.
#[export] Hint Extern 1 (is_Some (upd_prev _ _ _ !! _)) => apply mapped_upd_prev : rlist.

(** Membership and duplicates, down to equations between nodes. *)
Ltac nodes := repeat match goal with
  | H : NoDup (_ :: _) |- _ => apply NoDup_cons in H as [? ?]
  | H : NoDup (_ ++ _) |- _ => apply NoDup_app in H as (? & ? & ?)
  | H : _ ∉ _ :: _ |- _ => apply not_elem_of_cons in H as [? ?]
  | H : _ ∉ _ ++ _ |- _ => apply not_elem_of_app in H as [? ?]
  | H : ~ (_ \/ _) |- _ => apply Decidable.not_or in H as [? ?]
  end.

Ltac other := solve [congruence | intro; subst; set_solver].

(** Runs the loads and stores of an operation. *)
Ltac rl := repeat first
  [ progress (cbn [mbind option_bind])
  | rewrite prev_upd_next | rewrite next_upd_prev
  | rewrite next_upd_next by (eauto 12 with rlist)
  | rewrite prev_upd_prev by (eauto 12 with rlist)
  | rewrite next_upd_next_ne by other
  | rewrite prev_upd_prev_ne by other
  | rewrite set_next_upd by (eauto 12 with rlist)
  | rewrite set_prev_upd by (eauto 12 with rlist)
  | match goal with H : get_next _ _ = Some _ |- _ => rewrite H end
  | match goal with H : get_prev _ _ = Some _ |- _ => rewrite H end ].

(** ** Segments and rings *)

(** [seg m x l y]: the links run from [x] through [l] to [y], both ways. *)
Fixpoint seg (m : memory) (x : Z) (l : list Z) (y : Z) : Prop :=
  match l with
  | [] => get_next m x = Some y /\ get_prev m y = Some x
  | z :: l => get_next m x = Some z /\ get_prev m z = Some x /\ seg m z l y
  end.

(** The list with head [h] holds [l]. *)
Definition ring (m : memory) (h : Z) (l : list Z) : Prop := NoDup (h :: l) /\ seg m h l h.

(** Only nodes of [N] differ, and no node is lost. *)
Definition upto (N : list Z) (m m' : memory) : Prop :=
  forall q, (q ∉ N -> m' !! q = m !! q) /\ (is_Some (m !! q) -> is_Some (m' !! q)).

Lemma seg_app m x l1 z l2 y : seg m x (l1 ++ z :: l2) y <-> seg m x l1 z /\ seg m z l2 y.
Proof. revert x. induction l1 as [|a l1 IH]; intros x; simpl; [tauto|]. rewrite IH. tauto. Qed.

Lemma seg_frame m m' x l y :
  (forall z, z ∈ x :: l -> get_next m' z = get_next m z) ->
  (forall z, z ∈ l ++ [y] -> get_prev m' z = get_prev m z) -> seg m x l y -> seg m' x l y.
Proof.
  revert x. induction l as [|a l IH]; intros x Hn Hp; simpl.
  - rewrite Hn, Hp by set_solver. done.
  - intros (H1 & H2 & H3). rewrite Hn, Hp by set_solver. split_and!; [done..|].
    apply IH; [set_solver..|done].
Qed.

Lemma seg_prev m x l y : seg m x l y -> exists p, p ∈ x :: l /\ get_prev m y = Some p /\
  get_next m p = Some y.
Proof.
  revert x. induction l as [|a l IH]; intros x; simpl.
  - intros [H1 H2]. exists x. split_and!; [left|done..].
  - intros (H1 & H2 & H3). destruct (IH _ H3) as (p & Hp & H4 & H5).
    exists p. split_and!; [by right|done..].
Qed.

Lemma seg_next m x l y : seg m x l y -> exists n, n ∈ l ++ [y] /\ get_next m x = Some n /\
  get_prev m n = Some x.
Proof.
  destruct l as [|a l]; simpl.
  - intros [H1 H2]. exists y. split_and!; [left|done..].
  - intros (H1 & H2 & H3). exists a. split_and!; [left|done..].
Qed.

Lemma seg_mapped m x l y z : seg m x l y -> z ∈ x :: l ++ [y] -> is_Some (m !! z).
Proof.
  revert x. induction l as [|a l IH]; intros x; simpl.
  - intros [H1 H2] Hz. rewrite !elem_of_cons, elem_of_nil in Hz.
    destruct Hz as [->|[->|[]]]; eauto with rlist.
  - intros (H1 & H2 & H3) [->|Hz]%elem_of_cons; [eauto with rlist|]. by eapply IH.
Qed.

(** The segment keeps its nodes and ends elsewhere. *)
Lemma seg_end m m' x l y p n :
  seg m x l y -> NoDup (x :: l) -> get_prev m y = Some p ->
  get_next m' p = Some n -> get_prev m' n = Some p ->
  (forall z, z ∈ x :: l -> z <> p -> get_next m' z = get_next m z) ->
  (forall z, z ∈ l -> get_prev m' z = get_prev m z) -> seg m' x l n.
Proof.
  revert x. induction l as [|a l IH]; intros x Hs Hnd Hp Hn' Hp' Hn Hpr; simpl in *.
  - destruct Hs as [_ Hs]. by simplify_eq.
  - destruct Hs as (H1 & H2 & H3). apply NoDup_cons in Hnd as [Hx Hnd].
    destruct (seg_prev _ _ _ _ H3) as (p' & Hin & Hp1 & _). simplify_eq.
    rewrite Hn, Hpr by set_solver. split_and!; [done..|].
    apply IH; [done..|set_solver|set_solver].
Qed.

(** The segment keeps its nodes and starts elsewhere. *)
Lemma seg_start m m' x l y p n :
  seg m x l y -> get_next m x = Some n ->
  get_next m' p = Some n -> get_prev m' n = Some p ->
  (forall z, z ∈ l -> get_next m' z = get_next m z) ->
  (forall z, z ∈ l ++ [y] -> z <> n -> get_prev m' z = get_prev m z) ->
  NoDup (l ++ [y]) -> seg m' p l y.
Proof.
  intros Hs Hn Hn' Hp' Hnx Hpr Hnd. destruct l as [|a l]; simpl in *.
  - by destruct Hs as [? _]; simplify_eq.
  - destruct Hs as (? & _ & Hs); simplify_eq. split_and!; [done..|].
    apply NoDup_cons in Hnd as [Ha Hnd].
    eapply seg_frame; [| |done]; [set_solver|]. intros z Hz. apply Hpr; set_solver.
Qed.

(** Two segments joined: the end of the first is linked to the second. *)
Lemma seg_join m m' a l1 x y l2 b p n :
  seg m a l1 x -> seg m y l2 b -> NoDup (a :: l1) -> NoDup (l2 ++ [b]) ->
  get_prev m x = Some p -> get_next m y = Some n ->
  get_next m' p = Some n -> get_prev m' n = Some p ->
  (forall z, z ∈ a :: l1 ++ l2 -> z <> p -> get_next m' z = get_next m z) ->
  (forall z, z ∈ l1 ++ l2 ++ [b] -> z <> n -> get_prev m' z = get_prev m z) ->
  p ∉ l2 -> n ∉ l1 -> seg m' a (l1 ++ l2) b.
Proof.
  intros H1 H2 Hd1 Hd2 Hp Hn Hn' Hp' Hnx Hpr Hpl Hnl. destruct l2 as [|z l2]; simpl in *.
  - rewrite app_nil_r in *. destruct H2 as [? _]. simplify_eq.
    eapply seg_end; [done..|]. intros z Hz. apply Hpr; set_solver.
  - destruct H2 as (? & ? & H2). simplify_eq. apply NoDup_cons in Hd2 as [Hd Hd2].
    apply seg_app. split.
    + eapply seg_end; [done..| |]; intros q Hq; [|apply Hpr]; set_solver.
    + eapply seg_frame; [| |done]; intros q Hq; [apply Hnx|apply Hpr]; set_solver.
Qed.

(** A store outside the nodes it may touch does not matter. *)
Lemma upto_refl N m : upto N m m.
Proof. by intros q. Qed.
Lemma upto_next N m m' p v : p ∈ N -> upto N m m' -> upto N m (upd_next m' p v).
Proof.
  intros Hp Hu q. destruct (Hu q) as [H1 H2]. split.
  - intros Hq. rewrite upd_next_other; [by apply H1|]. by intros ->.
  - intros. by apply mapped_upd_next, H2.
Qed.
Lemma upto_prev N m m' p v : p ∈ N -> upto N m m' -> upto N m (upd_prev m' p v).
Proof.
  intros Hp Hu q. destruct (Hu q) as [H1 H2]. split.
  - intros Hq. rewrite upd_prev_other; [by apply H1|]. by intros ->.
  - intros. by apply mapped_upd_prev, H2.
Qed.
Lemma upto_trans N N' N'' m1 m2 m3 :
  upto N m1 m2 -> upto N' m2 m3 -> N ⊆ N'' -> N' ⊆ N'' -> upto N'' m1 m3.
Proof.
  intros H1 H2 S1 S2 q. destruct (H1 q) as [A1 B1], (H2 q) as [A2 B2]. split; [|by auto].
  intros Hq. rewrite A2, A1; [done|set_solver..].
Qed.

#[export] Hint Resolve upto_refl : rlist.
#[export] Hint Extern 2 (upto _ _ (upd_next _ _ _)) => apply upto_next; [set_solver|] : rlist.
#[export] Hint Extern 2 (upto _ _ (upd_prev _ _ _)) => apply upto_prev; [set_solver|] : rlist.

(** ** Operations on rings *)

Lemma create_ring m h :
  is_Some (m !! h) -> exists m', rlist_create m h = Some m' /\ ring m' h [] /\ upto [h] m m'.
Proof.
  intros Hm. unfold rlist_create. rl. eexists. split; [done|]. split.
  - split; [apply NoDup_singleton|]. simpl. rl. done.
  - auto with rlist.
Qed.

Lemma add_ring m h l x :
  ring m h l -> x ∉ h :: l -> is_Some (m !! x) ->
  exists m', rlist_add m h x = Some m' /\ ring m' h (x :: l) /\ upto (x :: h :: l) m m'.
Proof.
  intros [Hnd Hs] Hx Hm. destruct (seg_next _ _ _ _ Hs) as (n & Hn & Hnx & Hnp).
  nodes. unfold rlist_add. rl. eexists. split; [done|]. split.
  - split; [constructor; [set_solver|by constructor]|]. simpl. rl.
    assert (x <> n) by set_solver. rl. split_and!; [done..|].
    eapply (seg_start m _ h _ _ x n); [done..| | | | |].
    + rl. done.
    + rl. done.
    + intros z Hz. rl. done.
    + intros z Hz ?. rl. done.
    + apply NoDup_app. split_and!; [done|set_solver|apply NoDup_singleton].
  - auto 10 with rlist.
Qed.

Lemma nodup_snoc (l : list Z) h : NoDup (h :: l) -> NoDup (l ++ [h]).
Proof. intros H. by rewrite <- Permutation_cons_append. Qed.

Lemma add_tail_ring m h l x :
  ring m h l -> x ∉ h :: l -> is_Some (m !! x) ->
  exists m', rlist_add_tail m h x = Some m' /\ ring m' h (l ++ [x]) /\
    upto (x :: h :: l) m m'.
Proof.
  intros [Hnd Hs] Hx Hm. destruct (seg_prev _ _ _ _ Hs) as (p & Hp & Hpp & Hpn).
  assert (x <> p) by set_solver. nodes. unfold rlist_add_tail. rl.
  eexists. split; [done|]. split.
  - split.
    { apply NoDup_cons. split; [set_solver|]. apply NoDup_app.
      split_and!; [done|set_solver|apply NoDup_singleton]. }
    apply seg_app. split; [|simpl; rl; done].
    eapply (seg_end m _ h _ h p x); [done|by constructor|done|..]; intros; rl; done.
  - auto 10 with rlist.
Qed.

Lemma unlink_ring m h l1 x l2 :
  ring m h (l1 ++ x :: l2) ->
  exists m', rlist_unlink m x = Some m' /\ ring m' h (l1 ++ l2) /\
    upto (h :: l1 ++ l2) m m'.
Proof.
  intros [Hnd [Hs1 Hs2]%seg_app].
  destruct (seg_prev _ _ _ _ Hs1) as (p & Hp & Hpp & Hpn).
  destruct (seg_next _ _ _ _ Hs2) as (n & Hn & Hnx & Hnp).
  assert (Hx : x ∉ h :: l1 ++ l2) by (nodes; set_solver).
  assert (Hd : NoDup (h :: l1 ++ l2)).
  { eapply sublist_NoDup; [exact Hnd|]. apply sublist_skip, sublist_app; [done|].
    by apply sublist_cons. }
  assert (x <> p) by set_solver. assert (x <> n) by set_solver.
  unfold rlist_unlink. rl. eexists. split; [done|]. split.
  - split; [done|]. eapply (seg_join m _ h l1 x x l2 h p n); try done.
    + nodes. constructor; [set_solver|done].
    + nodes. apply NoDup_app. split_and!; [done|set_solver|apply NoDup_singleton].
    + rl. done.
    + rl. done.
    + intros. rl. done.
    + intros. rl. done.
    + nodes. set_solver.
    + nodes. set_solver.
  - apply upto_prev; [set_solver|]. apply upto_next; [set_solver|]. auto with rlist.
Qed.

Lemma ring_frame m m' h l N :
  ring m h l -> upto N m m' -> (h :: l) ## N -> ring m' h l.
Proof.
  intros [Hnd Hs] Hu Hd. split; [done|].
  assert (He : forall z, z ∈ h :: l -> m' !! z = m !! z).
  { intros z Hz. apply Hu. set_solver. }
  eapply seg_frame; [| |done]; intros z Hz; unfold get_next, get_prev; rewrite He; set_solver.
Qed.

Lemma del_ring m h l1 x l2 :
  ring m h (l1 ++ x :: l2) ->
  exists m', rlist_del m x = Some m' /\ ring m' h (l1 ++ l2) /\ ring m' x [] /\
    upto (h :: l1 ++ x :: l2) m m'.
Proof.
  intros Hr. destruct (unlink_ring _ _ _ _ _ Hr) as (m1 & E1 & Hr1 & Hu1).
  destruct Hr as [Hnd Hs].
  assert (Hm : is_Some (m1 !! x)).
  { apply Hu1. eapply seg_mapped; [done|]. set_solver. }
  destruct (create_ring m1 x Hm) as (m2 & E2 & Hr2 & Hu2).
  exists m2. unfold rlist_del. rewrite E1. split; [done|]. split_and!.
  - eapply ring_frame; [done..|]. nodes. set_solver.
  - done.
  - eapply upto_trans; [done..| |]; set_solver.
Qed.

Lemma shift_ring m h x l :
  ring m h (x :: l) ->
  exists m', rlist_shift m h = Some (x, m') /\ ring m' h l /\ ring m' x [] /\
    upto (h :: x :: l) m m'.
Proof.
  intros [Hnd (Hhx & Hxh & Hs)].
  destruct (seg_next _ _ _ _ Hs) as (n & Hn & Hnx & Hnp).
  nodes. assert (x <> n) by set_solver. unfold rlist_shift. rl. eexists. split; [done|]. split_and!.
  - split; [by constructor|]. eapply (seg_start m _ x _ _ h n); [done..| | | | |].
    + rl. done.
    + rl. done.
    + intros z Hz. rl. done.
    + intros z Hz ?. rl. done.
    + apply NoDup_app. split_and!; [done|set_solver|apply NoDup_singleton].
  - split; [apply NoDup_singleton|]. simpl. rl. done.
  - auto 12 with rlist.
Qed.

Lemma shift_tail_ring m h l x :
  ring m h (l ++ [x]) ->
  exists m', rlist_shift_tail m h = Some (x, m') /\ ring m' h l /\ ring m' x [] /\
    upto (h :: l ++ [x]) m m'.
Proof.
  intros Hr. destruct (del_ring _ _ _ _ _ Hr) as (m' & E & Hr' & Hx & Hu).
  destruct Hr as [_ [_ [_ Hp]]%seg_app]. unfold rlist_shift_tail. rewrite Hp. simpl.
  rewrite E. simpl. rewrite app_nil_r in Hr'. eauto.
Qed.

Lemma empty_ring m h l : ring m h l -> rlist_empty m h = Some (bool_decide (l = [])).
Proof.
  intros [Hnd Hs]. destruct (seg_next _ _ _ _ Hs) as (n & Hn & Hnx & Hnp).
  destruct (seg_prev _ _ _ _ Hs) as (p & Hp & Hpp & Hpn).
  unfold rlist_empty. rl. f_equal. destruct l as [|z l]; simpl in *.
  - destruct Hs. simplify_eq. by rewrite !Z.eqb_refl.
  - destruct Hs as (? & _). simplify_eq. nodes.
    destruct (Z.eqb_spec z h); [by subst|]. by rewrite andb_false_r.
Qed.

(** Node [x] moves to the list [t] from the list [h]: the same one or not. *)
Lemma unlink_mapped m h l1 x l2 m' :
  ring m h (l1 ++ x :: l2) -> upto (h :: l1 ++ l2) m m' -> is_Some (m' !! x).
Proof. intros [_ Hs] Hu. apply Hu. eapply seg_mapped; [done|]. set_solver. Qed.

Lemma move_same_ring m h l1 x l2 :
  ring m h (l1 ++ x :: l2) ->
  (exists m', rlist_move m h x = Some m' /\ ring m' h (x :: l1 ++ l2) /\
     upto (h :: l1 ++ x :: l2) m m') /\
  (exists m', rlist_move_tail m h x = Some m' /\ ring m' h ((l1 ++ l2) ++ [x]) /\
     upto (h :: l1 ++ x :: l2) m m').
Proof.
  intros Hr. assert (Hx : x ∉ h :: l1 ++ l2) by (destruct Hr; nodes; set_solver). split.
  - destruct (del_ring _ _ _ _ _ Hr) as (m1 & E1 & Hr1 & Hx1 & Hu1).
    destruct (add_ring _ _ _ x Hr1) as (m2 & E2 & Hr2 & Hu2); [done| |].
    { destruct Hx1 as [_ Hx1]. eapply seg_mapped; [done|left]. }
    exists m2. unfold rlist_move. rewrite E1. split_and!; [done..|].
    eapply upto_trans; [done..| |]; set_solver.
  - destruct (unlink_ring _ _ _ _ _ Hr) as (m1 & E1 & Hr1 & Hu1).
    destruct (add_tail_ring _ _ _ x Hr1) as (m2 & E2 & Hr2 & Hu2); [done| |].
    { by eapply unlink_mapped. }
    exists m2. unfold rlist_move_tail. rewrite E1. split_and!; [done..|].
    eapply upto_trans; [done..| |]; set_solver.
Qed.

Lemma move_other_ring m h l1 x l2 t lt :
  ring m h (l1 ++ x :: l2) -> ring m t lt -> (t :: lt) ## (h :: l1 ++ x :: l2) ->
  (exists m', rlist_move m t x = Some m' /\ ring m' h (l1 ++ l2) /\ ring m' t (x :: lt) /\
     upto (t :: lt ++ h :: l1 ++ x :: l2) m m') /\
  (exists m', rlist_move_tail m t x = Some m' /\ ring m' h (l1 ++ l2) /\
     ring m' t (lt ++ [x]) /\ upto (t :: lt ++ h :: l1 ++ x :: l2) m m').
Proof.
  intros Hr Ht Hd. assert (Hx : x ∉ h :: l1 ++ l2) by (destruct Hr; nodes; set_solver). split.
  - destruct (del_ring _ _ _ _ _ Hr) as (m1 & E1 & Hr1 & Hx1 & Hu1).
    assert (Ht1 : ring m1 t lt) by by eapply ring_frame.
    destruct (add_ring _ _ _ x Ht1) as (m2 & E2 & Hr2 & Hu2); [set_solver| |].
    { destruct Hx1 as [_ Hx1]. eapply seg_mapped; [done|left]. }
    exists m2. unfold rlist_move. rewrite E1. split_and!; [done| |done|].
    + eapply ring_frame; [done..|]. set_solver.
    + eapply upto_trans; [done..| |]; set_solver.
  - destruct (unlink_ring _ _ _ _ _ Hr) as (m1 & E1 & Hr1 & Hu1).
    assert (Ht1 : ring m1 t lt) by (eapply ring_frame; [done..|]; set_solver).
    destruct (add_tail_ring _ _ _ x Ht1) as (m2 & E2 & Hr2 & Hu2); [set_solver| |].
    { by eapply unlink_mapped. }
    exists m2. unfold rlist_move_tail. rewrite E1. split_and!; [done| |done|].
    + eapply ring_frame; [done..|]. set_solver.
    + eapply upto_trans; [done..| |]; set_solver.
Qed.

Lemma splice_ring m h1 l1 h2 l2 :
  ring m h1 l1 -> ring m h2 l2 -> (h1 :: l1) ## (h2 :: l2) ->
  exists m', rlist_splice m h1 h2 = Some m' /\ ring m' h1 (l2 ++ l1) /\ ring m' h2 [] /\
    upto (h1 :: l1 ++ h2 :: l2) m m'.
Proof.
  intros Hr1 Hr2 Hd. unfold rlist_splice. rewrite (empty_ring _ _ _ Hr2). cbn [mbind option_bind].
  destruct l2 as [|z l2]; simpl.
  { exists m. split_and!; auto with rlist. }
  destruct Hr1 as [Hd1 Hs1], Hr2 as [Hd2 (H2n & H2z & Hs2)].
  destruct (seg_next _ _ _ _ Hs1) as (n & Hn & Hnx & Hnp).
  destruct (seg_prev _ _ _ _ Hs2) as (p & Hp & Hpp & Hpn).
  assert (n <> h2) by set_solver. assert (p <> h2) by (nodes; set_solver).
  assert (n <> z) by set_solver. assert (p <> h1) by set_solver.
  assert (h1 <> h2) by set_solver. assert (z <> h2) by (nodes; set_solver).
  rl. unfold rlist_create. rl. eexists. split; [done|]. split_and!.
  - split.
    { clear -Hd Hd1 Hd2. nodes. apply NoDup_cons; split; [set_solver|].
      apply NoDup_cons; split; [set_solver|]. apply NoDup_app; split_and!; set_solver. }
    simpl. rl. split_and!; [done..|].
    eapply (seg_join m _ z l2 h2 h1 l1 h1 p n); try done.
    + by nodes; constructor.
    + by apply nodup_snoc.
    + rl. done.
    + rl. done.
    + intros. assert (z0 <> h1 /\ z0 <> h2) as [? ?] by (nodes; set_solver). rl. done.
    + intros. assert (z0 <> z /\ z0 <> h2) as [? ?] by (nodes; set_solver). rl. done.
    + set_solver.
    + set_solver.
  - split; [apply NoDup_singleton|]. simpl. rl. done.
  - auto 15 with rlist.
Qed.

Lemma splice_tail_ring m h1 l1 h2 l2 :
  ring m h1 l1 -> ring m h2 l2 -> (h1 :: l1) ## (h2 :: l2) ->
  exists m', rlist_splice_tail m h1 h2 = Some m' /\ ring m' h1 (l1 ++ l2) /\ ring m' h2 [] /\
    upto (h1 :: l1 ++ h2 :: l2) m m'.
Proof.
  intros Hr1 Hr2 Hd. unfold rlist_splice_tail.
  rewrite (empty_ring _ _ _ Hr2). cbn [mbind option_bind].
  destruct l2 as [|z l2]; simpl.
  { exists m. rewrite app_nil_r. split_and!; auto with rlist. }
  destruct Hr1 as [Hd1 Hs1], Hr2 as [Hd2 (H2n & H2z & Hs2)].
  destruct (seg_prev _ _ _ _ Hs1) as (p & Hp & Hpp & Hpn).
  destruct (seg_prev _ _ _ _ Hs2) as (q & Hq & Hqp & Hqn).
  assert (p <> h2) by set_solver. assert (q <> h2) by (nodes; set_solver).
  assert (p <> q) by set_solver. assert (z <> h1) by set_solver.
  assert (h1 <> h2) by set_solver. assert (z <> h2) by (nodes; set_solver).
  rl. unfold rlist_create. rl. eexists. split; [done|]. split_and!.
  - split.
    { clear -Hd Hd1 Hd2. nodes. apply NoDup_cons; split; [set_solver|].
      apply NoDup_app; split_and!; [done|set_solver|by constructor]. }
    apply seg_app. split.
    + eapply (seg_end m _ h1 l1 h1 p z); try done; [rl; done..| |]; intros z0 Hz0.
      * assert (z0 <> q /\ z0 <> h2) as [? ?] by set_solver. intros. rl. done.
      * assert (z0 <> h1 /\ z0 <> z /\ z0 <> h2) as (? & ? & ?) by (nodes; set_solver).
        rl. done.
    + eapply (seg_end m _ z l2 h2 q h1); try done; [by nodes; constructor|rl; done..| |];
        intros z0 Hz0.
      * assert (z0 <> p /\ z0 <> h2) as [? ?] by (nodes; set_solver). intros. rl. done.
      * assert (z0 <> h1 /\ z0 <> z /\ z0 <> h2) as (? & ? & ?) by (nodes; set_solver).
        rl. done.
  - split; [apply NoDup_singleton|]. simpl. rl. done.
  - auto 15 with rlist.
Qed.

(** [x] is the node that follows the first part of a ring cut in two. *)
Definition cut_point (h : Z) (l2 : list Z) : Z :=
  match l2 with [] => h | x :: _ => x end.

Lemma cut_seg m h l1 l2 :
  seg m h (l1 ++ l2) h ->
  seg m h l1 (cut_point h l2) /\
  match l2 with [] => True | x :: l => seg m x l h end.
Proof.
  destruct l2 as [|x l2]; simpl; [rewrite app_nil_r; tauto|]. by rewrite seg_app.
Qed.

Lemma cut_before_ring m h1 h2 l1 l2 :
  ring m h2 (l1 ++ l2) -> h1 ∉ h2 :: l1 ++ l2 -> is_Some (m !! h1) ->
  get_next m h1 <> Some (cut_point h2 l2) ->
  exists m', rlist_cut_before m h1 h2 (cut_point h2 l2) = Some m' /\
    ring m' h1 l1 /\ ring m' h2 l2 /\ upto (h1 :: h2 :: l1 ++ l2) m m'.
Proof.
  intros [Hnd Hs] Hh1 Hm Hx. destruct (cut_seg _ _ _ _ Hs) as [Hs1 Hs2].
  remember (cut_point h2 l2) as x eqn:Ex.
  assert (Hxin : x ∈ h2 :: l2) by (subst x; destruct l2; set_solver).
  assert (Hx1 : x ∉ l1) by (clear -Hnd Hxin; nodes; set_solver).
  destruct (mapped_next _ _ Hm) as (y & Hy). rewrite Hy in Hx.
  assert (y <> x) by congruence.
  destruct (seg_prev _ _ _ _ Hs1) as (p & Hp & Hpp & Hpn).
  destruct (seg_next _ _ _ _ Hs1) as (n & Hn & Hnx & Hnp).
  assert (h1 <> p /\ h1 <> n /\ h1 <> x /\ h1 <> h2) as (? & ? & ? & ?) by set_solver.
  unfold rlist_cut_before. rewrite Hy. cbn [mbind option_bind].
  rewrite (proj2 (Z.eqb_neq _ _)) by done. clear Hs.
  assert (Hd1 : NoDup (h1 :: l1)) by (nodes; constructor; [set_solver|done]).
  assert (Hd2 : NoDup (h2 :: l2)) by (nodes; constructor; [set_solver|done]).
  destruct l1 as [|z l1]; simpl in Hs1.
  - destruct Hs1 as [E1 E2]. assert (n = x) as -> by congruence.
    assert (p = h2) as -> by congruence. rl. eexists. split; [done|]. split_and!.
    + split; [done|]. simpl. rl. done.
    + split; [done|]. subst x. destruct l2 as [|z l2]; simpl in *; rl; [done|].
      split_and!; [done..|]. eapply seg_frame; [| |exact Hs2]; intros q Hq;
        assert (q <> h1) by set_solver; nodes; set_unfold; rl; done.
    + auto 15 with rlist.
  - destruct Hs1 as (E1 & E2 & Hs1). assert (n = z) as -> by congruence.
    assert (p ∈ z :: l1).
    { destruct (seg_prev _ _ _ _ Hs1) as (p' & Hp' & ? & ?). congruence. }
    assert (p <> h2) by (clear -Hnd H4; nodes; set_solver). assert (z <> x) by set_solver.
    rl. eexists. split; [done|]. split_and!.
    + split; [done|]. simpl. rl. split_and!; [done..|].
      eapply (seg_end m _ z l1 x p h1); try done; [by nodes; constructor|rl; done..| |];
        intros q Hq; assert (q <> h1 /\ q <> h2) as [? ?] by (nodes; set_solver);
        assert (q <> x) by set_solver.
      * intros. rl. done.
      * assert (q <> z) by (nodes; set_solver). rl. done.
    + split; [done|]. subst x. destruct l2 as [|w l2]; simpl in *; rl; [done|].
      split_and!; [done..|]. eapply seg_frame; [| |exact Hs2]; intros q Hq;
        assert (q <> h1 /\ q <> z /\ q <> p) as (? & ? & ?) by (nodes; set_solver).
      * assert (q <> h2) by (nodes; set_solver). rl. done.
      * assert (q <> w) by (nodes; set_solver). rl. done.
    + auto 15 with rlist.
Qed.

Lemma insert_upd (m : memory) p a b :
  is_Some (m !! p) -> <[p := Rlist a b]> m = upd_prev (upd_next m p b) p a.
Proof.
  intros [r E]. apply map_eq. intros q. unfold upd_prev, upd_next.
  destruct (decide (p = q)) as [->|].
  - by rewrite lookup_insert_eq, !lookup_alter_eq, E.
  - by rewrite lookup_insert_ne, !lookup_alter_ne.
Qed.

Lemma node_eq (m : memory) p a b :
  get_prev m p = Some a -> get_next m p = Some b -> m !! p = Some (Rlist a b).
Proof.
  unfold get_prev, get_next. destruct (m !! p) as [[a' b']|]; simpl; [|done].
  intros. by simplify_eq.
Qed.

(** One head takes over the nodes of a ring: a non-empty ring [z :: l] whose
    last node is [q] hangs on [h'] once [h'] and the two end nodes are linked. *)
Lemma seg_rehead m m' h z l q h' :
  seg m z l h -> NoDup (z :: l) -> get_prev m h = Some q ->
  get_next m' h' = Some z -> get_prev m' z = Some h' ->
  get_next m' q = Some h' -> get_prev m' h' = Some q ->
  (forall x, x ∈ z :: l -> x <> q -> get_next m' x = get_next m x) ->
  (forall x, x ∈ l -> get_prev m' x = get_prev m x) -> seg m' h' (z :: l) h'.
Proof.
  intros Hs Hnd Hq ? ? ? ? Hn Hp. split_and!; [done..|]. by eapply (seg_end m _ z l h q h').
Qed.

Lemma ring_ends m h l :
  ring m h l -> exists p n, get_prev m h = Some p /\ get_next m h = Some n /\
    get_next m p = Some h /\ get_prev m n = Some h /\
    match l with
    | [] => p = h /\ n = h
    | z :: l' => n = z /\ p ∈ z :: l' /\ p <> h /\ z <> h /\ NoDup (z :: l') /\ h ∉ z :: l' /\
        seg m z l' h
    end.
Proof.
  intros [Hnd Hs]. destruct l as [|z l]; simpl in Hs.
  - destruct Hs. by exists h, h.
  - destruct Hs as (H1 & H2 & H3). destruct (seg_prev _ _ _ _ H3) as (p & Hp & Hpp & Hpn).
    exists p, z. apply NoDup_cons in Hnd as [Hh Hnd]. split_and!; try done; set_solver.
Qed.

(** The relinking of a head that was overwritten with the head [l]: it takes over
    the nodes of [l]. *)
Lemma relink_ring m m1 h l ll :
  ring m l ll -> h ∉ l :: ll -> m1 !! h = m !! l -> (forall q, q ∈ ll -> m1 !! q = m !! q) ->
  exists m2, rlist_relink m1 h l = Some m2 /\ ring m2 h ll /\ upto (h :: ll) m1 m2.
Proof.
  intros Hl Hh E1 Hq. assert (Hnd : NoDup (h :: ll)) by (destruct Hl; nodes; by constructor).
  destruct (ring_ends _ _ _ Hl) as (lp & ln & Hlp & Hln & Hpn & Hnp & Hl').
  assert (Hn1 : forall q, q ∈ ll -> get_next m1 q = get_next m q) by (intros q Hin; unfold get_next; by rewrite Hq).
  assert (Hp1 : forall q, q ∈ ll -> get_prev m1 q = get_prev m q) by (intros q Hin; unfold get_prev; by rewrite Hq).
  assert (Hhn : get_next m1 h = Some ln) by (unfold get_next; by rewrite E1).
  assert (Hhp : get_prev m1 h = Some lp) by (unfold get_prev; by rewrite E1).
  unfold rlist_relink. destruct ll as [|z ll].
  - destruct Hl' as [-> ->]. rl. rewrite Z.eqb_refl. assert (h <> l) by set_solver. rl.
    eexists. split; [done|]. split; [split; [done|]; simpl; rl; done|]. auto 15 with rlist.
  - destruct Hl' as (-> & Hpin & Hpl & Hzl & Hnd' & Hll & Hs).
    assert (lp <> h /\ z <> h) as [? ?] by set_solver.
    rl. rewrite (proj2 (Z.eqb_neq z l)) by done.
    pose proof (Hp1 z ltac:(left)) as Hz. rewrite Hnp in Hz. pose proof (Hn1 lp Hpin) as Hlpn. rewrite Hpn in Hlpn.
    rl. eexists. split; [done|]. split; [|auto 15 with rlist]. split; [done|].
    eapply (seg_rehead m _ l z ll lp h); try done; [rl; done..| |]; intros q Hin.
    + intros. rewrite <- Hn1 by done. assert (q <> h) by set_solver. rl. done.
    + assert (q <> h /\ q <> z) as [? ?] by (clear -Hin Hh Hnd'; nodes; set_solver).
      rewrite <- Hp1 by (by right). rl. done.
Qed.

Lemma swap_ring m r lr l ll :
  ring m r lr -> ring m l ll -> (r :: lr) ## (l :: ll) ->
  exists m', rlist_swap m r l = Some m' /\ ring m' r ll /\ ring m' l lr /\
    upto (r :: lr ++ l :: ll) m m'.
Proof.
  intros Hr Hl Hd. assert (r <> l) by set_solver.
  destruct (ring_ends _ _ _ Hr) as (rp & rn & Hrp & Hrn & _). destruct (ring_ends _ _ _ Hl) as (lp & ln & Hlp & Hln & _).
  unfold rlist_swap. rewrite (node_eq _ _ _ _ Hrp Hrn), (node_eq _ _ _ _ Hlp Hln). cbn [mbind option_bind].
  set (m1 := <[l := _]> _).
  assert (Hu1 : upto [r; l] m m1).
  { unfold m1. rewrite (insert_upd m r) by (eauto with rlist). rewrite insert_upd by (eauto 10 with rlist). auto 15 with rlist. }
  assert (H1r : m1 !! r = m !! l) by (unfold m1; rewrite lookup_insert_ne, lookup_insert_eq by done; by rewrite (node_eq _ _ _ _ Hlp Hln)).
  assert (H1l : m1 !! l = m !! r) by (unfold m1; rewrite lookup_insert_eq; by rewrite (node_eq _ _ _ _ Hrp Hrn)).
  pose proof (proj1 Hr) as Nr. pose proof (proj1 Hl) as Nl. nodes.
  destruct (relink_ring m m1 l r lr Hr) as (m2 & -> & Hl2 & Hu2); [set_solver|done| |].
  { intros q Hq. apply Hu1. set_solver. }
  cbn [mbind option_bind]. destruct (relink_ring m m2 r l ll Hl) as (m3 & -> & Hr3 & Hu3); [set_solver| | |].
  { rewrite <- H1r. apply Hu2. set_solver. }
  { intros q Hq. transitivity (m1 !! q); [apply Hu2; set_solver|apply Hu1; set_solver]. }
  exists m3. split; [done|]. split; [done|]. split; [eapply ring_frame; [done|done|set_solver]|].
  eapply upto_trans; [|exact Hu3|reflexivity|set_solver]. eapply upto_trans; [exact Hu1|exact Hu2|set_solver..].
Qed.

(** ** Traversals *)

Lemma foreach_seg m h x l fuel :
  seg m x l h -> h ∉ l -> (length l < fuel)%nat ->
  (n ← get_next m x; foreach_from rlist_next fuel m h n) = Some l.
Proof.
  revert x fuel. induction l as [|a l IH]; intros x [|fuel] Hs Hh Hf; simpl in *; try lia.
  - destruct Hs as [-> _]. simpl. by rewrite Z.eqb_refl.
  - destruct Hs as (-> & _ & Hs). simpl. rewrite (proj2 (Z.eqb_neq a h)) by set_solver. simpl.
    change (rlist_next m a) with (get_next m a). specialize (IH a fuel Hs ltac:(set_solver) ltac:(lia)).
    destruct (get_next m a) as [n|]; [|done]. simpl in *. by rewrite IH.
Qed.

Lemma foreach_reverse_seg m h l y fuel :
  seg m h l y -> h ∉ l -> (length l < fuel)%nat ->
  (p ← get_prev m y; foreach_from rlist_prev fuel m h p) = Some (rev l).
Proof.
  revert y fuel. induction l as [|a l IH] using rev_ind; intros y [|fuel] Hs Hh Hf;
    rewrite ?length_app in Hf; simpl in *; try lia.
  - destruct Hs as [_ ->]. simpl. by rewrite Z.eqb_refl.
  - apply seg_app in Hs as [Hs [_ ->]]. simpl.
    rewrite (proj2 (Z.eqb_neq a h)) by set_solver. simpl.
    change (rlist_prev m a) with (get_prev m a). specialize (IH a fuel Hs ltac:(set_solver) ltac:(lia)).
    destruct (get_prev m a) as [n|]; [|done]. simpl in *. rewrite IH. simpl.
    by rewrite rev_unit.
Qed.

Lemma foreach_ring m h l fuel :
  ring m h l -> (length l < fuel)%nat ->
  rlist_foreach fuel m h = Some l /\ rlist_foreach_reverse fuel m h = Some (rev l).
Proof.
  intros [[Hh Hnd]%NoDup_cons Hs] Hf. split.
  - by apply (foreach_seg m h h l fuel).
  - by apply (foreach_reverse_seg m h l h fuel).
Qed.

(** ** Refinement: a family of lists *)

Inductive op :=
  | Create (h : Z) | Add (h x : Z) | AddTail (h x : Z) | Del (x : Z)
  | Shift (h : Z) | ShiftTail (h : Z) | Move (t x : Z) | MoveTail (t x : Z)
  | Swap (r l : Z) | Splice (h1 h2 : Z) | SpliceTail (h1 h2 : Z)
  | CutBefore (h1 h2 x : Z).

(** Runs one operation; shifts return the node they remove, others NULL. *)
Definition rlist_op (o : op) (m : memory) : option (Z * memory) :=
  let void r := m' ← r; Some (NULL, m') in
  match o with
  | Create h => void (rlist_create m h)
  | Add h x => void (rlist_add m h x)
  | AddTail h x => void (rlist_add_tail m h x)
  | Del x => void (rlist_del m x)
  | Shift h => rlist_shift m h
  | ShiftTail h => rlist_shift_tail m h
  | Move t x => void (rlist_move m t x)
  | MoveTail t x => void (rlist_move_tail m t x)
  | Swap r l => void (rlist_swap m r l)
  | Splice h1 h2 => void (rlist_splice m h1 h2)
  | SpliceTail h1 h2 => void (rlist_splice_tail m h1 h2)
  | CutBefore h1 h2 x => void (rlist_cut_before m h1 h2 x)
  end.

(** The abstract state: the list of each head.  A node alone is a head with an
    empty list, as [rlist_del] leaves it. *)
Abbreviation lists := (gmap Z (list Z)).

(** [x] is in no list (it may be a head, which it then stops being). *)
Definition unused (A : lists) (x : Z) : Prop :=
  forall h l, A !! h = Some l -> h <> x -> x ∉ l.

Inductive lists_op (A : lists) : op -> Z -> lists -> Prop :=
  | op_create h : unused A h ->
      lists_op A (Create h) NULL (<[h := []]> A)
  | op_add h l x : A !! h = Some l -> x <> h -> unused (delete x A) x ->
      lists_op A (Add h x) NULL (<[h := x :: l]> (delete x A))
  | op_add_tail h l x : A !! h = Some l -> x <> h -> unused (delete x A) x ->
      lists_op A (AddTail h x) NULL (<[h := l ++ [x]]> (delete x A))
  | op_del h l1 x l2 : A !! h = Some (l1 ++ x :: l2) ->
      lists_op A (Del x) NULL (<[x := []]> (<[h := l1 ++ l2]> A))
  | op_shift h x l : A !! h = Some (x :: l) ->
      lists_op A (Shift h) x (<[x := []]> (<[h := l]> A))
  | op_shift_tail h x l : A !! h = Some (l ++ [x]) ->
      lists_op A (ShiftTail h) x (<[x := []]> (<[h := l]> A))
  | op_move_same h l1 x l2 : A !! h = Some (l1 ++ x :: l2) ->
      lists_op A (Move h x) NULL (<[h := x :: l1 ++ l2]> A)
  | op_move h l1 x l2 t lt : A !! h = Some (l1 ++ x :: l2) -> A !! t = Some lt -> h <> t ->
      lists_op A (Move t x) NULL (<[t := x :: lt]> (<[h := l1 ++ l2]> A))
  | op_move_tail_same h l1 x l2 : A !! h = Some (l1 ++ x :: l2) ->
      lists_op A (MoveTail h x) NULL (<[h := (l1 ++ l2) ++ [x]]> A)
  | op_move_tail h l1 x l2 t lt : A !! h = Some (l1 ++ x :: l2) -> A !! t = Some lt ->
      h <> t ->
      lists_op A (MoveTail t x) NULL (<[t := lt ++ [x]]> (<[h := l1 ++ l2]> A))
  | op_swap r lr l ll : A !! r = Some lr -> A !! l = Some ll -> r <> l ->
      lists_op A (Swap r l) NULL (<[l := lr]> (<[r := ll]> A))
  | op_splice h1 l1 h2 l2 : A !! h1 = Some l1 -> A !! h2 = Some l2 -> h1 <> h2 ->
      lists_op A (Splice h1 h2) NULL (<[h2 := []]> (<[h1 := l2 ++ l1]> A))
  | op_splice_tail h1 l1 h2 l2 : A !! h1 = Some l1 -> A !! h2 = Some l2 -> h1 <> h2 ->
      lists_op A (SpliceTail h1 h2) NULL (<[h2 := []]> (<[h1 := l1 ++ l2]> A))
  | op_cut_before h1 l0 h2 l1 l2 : A !! h1 = Some l0 -> A !! h2 = Some (l1 ++ l2) ->
      h1 <> h2 ->
      lists_op A (CutBefore h1 h2 (cut_point h2 l2)) NULL (<[h2 := l2]> (<[h1 := l1]> A)).

(** Memory [m] represents the lists [A]: each head has its ring and no node is
    in two rings. *)
Definition disjoint_lists (A : lists) : Prop :=
  forall h1 l1 h2 l2, A !! h1 = Some l1 -> A !! h2 = Some l2 -> h1 <> h2 ->
  (h1 :: l1) ## (h2 :: l2).
Definition rep (m : memory) (A : lists) : Prop :=
  (forall h l, A !! h = Some l -> ring m h l) /\ disjoint_lists A.

Lemma rep_update1 m m' A N a la :
  rep m A -> upto N m m' -> ring m' a la -> a :: la ⊆ N ->
  (forall h l, A !! h = Some l -> h <> a -> (h :: l) ## N) -> rep m' (<[a := la]> A).
Proof.
  intros [Hr Hd] Hu Ha HaN Hother. split.
  - intros h l [[<- <-]|[Hne Hl]]%lookup_insert_Some; [done|].
    eapply ring_frame; [by apply Hr|done|]. by apply Hother.
  - intros h1 l1 h2 l2 [[<- <-]|[Hn1 H1]]%lookup_insert_Some
      [[<- <-]|[Hn2 H2]]%lookup_insert_Some Hne.
    + done.
    + pose proof (Hother _ _ H2 ltac:(done)). clear -HaN H. set_solver.
    + pose proof (Hother _ _ H1 ltac:(done)). clear -HaN H. set_solver.
    + by eapply Hd.
Qed.

Lemma rep_update2 m m' A N a la b lb :
  rep m A -> upto N m m' -> ring m' a la -> ring m' b lb -> (a :: la) ## (b :: lb) ->
  a :: la ⊆ N -> b :: lb ⊆ N ->
  (forall h l, A !! h = Some l -> h <> a -> h <> b -> (h :: l) ## N) ->
  rep m' (<[a := la]> (<[b := lb]> A)).
Proof.
  intros [Hr Hd] Hu Ha Hb Hab HaN HbN Hother. split.
  - intros h l [[<- <-]|[Hne [[<- <-]|[Hne' Hl]]%lookup_insert_Some]]%lookup_insert_Some;
      [done..|]. eapply ring_frame; [by apply Hr|done|]. by apply Hother.
  - intros h1 l1 h2 l2
      [[<- <-]|[Hn1 [[<- <-]|[Hm1 H1]]%lookup_insert_Some]]%lookup_insert_Some
      [[<- <-]|[Hn2 [[<- <-]|[Hm2 H2]]%lookup_insert_Some]]%lookup_insert_Some Hne;
    try done;
    try (pose proof (Hother _ _ H1 ltac:(done) ltac:(done)));
    try (pose proof (Hother _ _ H2 ltac:(done) ltac:(done))).
    + clear -HaN H. set_solver.
    + clear -Hab. set_solver.
    + clear -HbN H. set_solver.
    + clear -HaN H. set_solver.
    + clear -HbN H. set_solver.
    + by eapply Hd.
Qed.

Lemma rep_delete m A x : rep m A -> rep m (delete x A).
Proof.
  intros [Hr Hd]. split.
  - intros h l [_ Hl]%lookup_delete_Some. by apply Hr.
  - intros h1 l1 h2 l2 [_ H1]%lookup_delete_Some [_ H2]%lookup_delete_Some. by apply Hd.
Qed.

Lemma unused_disjoint m A x h l :
  rep m A -> unused A x -> A !! h = Some l -> h <> x -> x ∉ h :: l.
Proof. intros _ Hu Hl Hne. specialize (Hu h l Hl Hne). set_solver. Qed.

Lemma rep_self_disjoint m A h l1 x l2 :
  rep m A -> A !! h = Some (l1 ++ x :: l2) -> (h :: l1 ++ l2) ## [x].
Proof. intros [Hr _] Hl. destruct (Hr _ _ Hl) as [Hnd _]. clear -Hnd. nodes. set_solver. Qed.

Lemma add_rep m A h l x l' (f : memory -> Z -> Z -> option memory) :
  rep m A -> A !! h = Some l -> x <> h -> unused (delete x A) x -> is_Some (m !! x) ->
  l' ≡ₚ x :: l ->
  (ring m h l -> x ∉ h :: l -> is_Some (m !! x) ->
   exists m', f m h x = Some m' /\ ring m' h l' /\ upto (x :: h :: l) m m') ->
  exists m', f m h x = Some m' /\ rep m' (<[h := l']> (delete x A)) /\
    (forall q, is_Some (m !! q) -> is_Some (m' !! q)).
Proof.
  intros Hrep Hl Hx Hun Hm Hp Hf.
  assert (Hl' : delete x A !! h = Some l) by by rewrite lookup_delete_ne.
  pose proof (rep_delete _ _ x Hrep) as Hrep'.
  assert (Hxl : x ∉ h :: l) by by eapply unused_disjoint.
  destruct Hf as (m' & E & Hr & Hu); [by apply Hrep|done..|].
  exists m'. split_and!; [done| |apply Hu].
  eapply rep_update1; [done|done|done| |].
  - intros q [->|Hq]%elem_of_cons; [set_solver|]. rewrite Hp in Hq. set_solver.
  - intros h' lh Hh Hne. destruct Hrep' as [_ Hd]. pose proof (Hd _ _ _ _ Hh Hl' Hne).
    assert (h' <> x) by (intros ->; by rewrite lookup_delete_eq in Hh).
    assert (x ∉ h' :: lh) by by eapply (unused_disjoint m (delete x A)); eauto using rep_delete.
    set_solver.
Qed.

Lemma del_rep m A h l1 x l2 m' :
  rep m A -> A !! h = Some (l1 ++ x :: l2) ->
  ring m' h (l1 ++ l2) -> ring m' x [] -> upto (h :: l1 ++ x :: l2) m m' ->
  rep m' (<[x := []]> (<[h := l1 ++ l2]> A)).
Proof.
  intros Hrep Hl Hr Hx Hu. pose proof (rep_self_disjoint _ _ _ _ _ _ Hrep Hl).
  eapply rep_update2; [done..| | | |].
  - set_solver.
  - set_solver.
  - set_solver.
  - intros h' l' Hh _ Hne. by eapply Hrep.
Qed.

Lemma move_rep m A h l1 x l2 t lt lt' m' :
  rep m A -> A !! h = Some (l1 ++ x :: l2) -> A !! t = Some lt -> h <> t -> lt' ≡ₚ x :: lt ->
  ring m' h (l1 ++ l2) -> ring m' t lt' -> upto (t :: lt ++ h :: l1 ++ x :: l2) m m' ->
  rep m' (<[t := lt']> (<[h := l1 ++ l2]> A)).
Proof.
  intros Hrep Hl Ht Hne Hp Hr Hrt Hu. pose proof (rep_self_disjoint _ _ _ _ _ _ Hrep Hl).
  assert (Hd : (t :: lt) ## (h :: l1 ++ x :: l2)) by by eapply Hrep.
  assert (Hin : forall q, q ∈ lt' -> q = x \/ q ∈ lt) by (intros q; rewrite Hp; set_solver).
  eapply rep_update2; [done..| | | |].
  - clear -H Hd Hin. intros q [->|Hq]%elem_of_cons Hq2; [set_solver|].
    destruct (Hin q Hq); set_solver.
  - clear -Hin. intros q [->|Hq]%elem_of_cons; [set_solver|]. destruct (Hin q Hq); set_solver.
  - set_solver.
  - intros h' l' Hh Hn1 Hn2. destruct Hrep as [_ Hdis].
    pose proof (Hdis _ _ _ _ Hh Hl Hn2). pose proof (Hdis _ _ _ _ Hh Ht Hn1).
    clear -H0 H1. set_solver.
Qed.

(** Two heads share out their nodes anew. *)
Lemma pair_rep m A a la b lb la' lb' m' :
  rep m A -> A !! a = Some la -> A !! b = Some lb -> a <> b ->
  ring m' a la' -> ring m' b lb' -> (a :: la') ## (b :: lb') ->
  a :: la' ⊆ a :: la ++ b :: lb -> b :: lb' ⊆ a :: la ++ b :: lb ->
  upto (a :: la ++ b :: lb) m m' -> rep m' (<[b := lb']> (<[a := la']> A)).
Proof.
  intros Hrep Ha Hb Hne Hra Hrb Hd HaN HbN Hu.
  eapply rep_update2; [done|done|done|done| |done|done|].
  - clear -Hd. set_solver.
  - intros h l Hl Hn1 Hn2. destruct Hrep as [_ Hdis].
    pose proof (Hdis _ _ _ _ Hl Ha Hn2). pose proof (Hdis _ _ _ _ Hl Hb Hn1).
    clear -H H0. set_solver.
Qed.

Lemma mapped_rep m A h l : rep m A -> A !! h = Some l -> is_Some (m !! h).
Proof. intros [Hr _] Hl. destruct (Hr _ _ Hl) as [_ Hs]. eapply seg_mapped; [done|left]. Qed.

(** The nodes of the universe [D] stay mapped. *)
Definition mapped (D : gset Z) (m : memory) : Prop := forall q, q ∈ D -> is_Some (m !! q).

(** Operands that need not be in a list yet are nodes of [D]. *)
Definition operands (D : gset Z) (o : op) : Prop :=
  match o with Create x | Add _ x | AddTail _ x => x ∈ D | _ => True end.

Definition refines (D : gset Z) (m : memory) (o : op) (v : Z) (A' : lists) : Prop :=
  exists m', rlist_op o m = Some (v, m') /\ rep m' A' /\ mapped D m'.

Lemma refines_intro D m o v A' N m' :
  rlist_op o m = Some (v, m') -> mapped D m -> upto N m m' -> rep m' A' -> refines D m o v A'.
Proof. intros E Hm Hu Hr. exists m'. split_and!; [done..|]. intros q Hq. by apply Hu, Hm. Qed.

Lemma refines_insert D m A o v A' :
  rep m A -> mapped D m -> operands D o -> lists_op A o v A' ->
  match o with Create _ | Add _ _ | AddTail _ _ | Del _ | Shift _ | ShiftTail _ => True
  | _ => False end -> refines D m o v A'.
Proof.
  intros Hrep Hm Ho Hop Hk. destruct Hop; try done; simpl in Ho.
  - destruct (create_ring m h (Hm _ Ho)) as (m' & E & Hr & Hu).
    eapply refines_intro; [simpl; by rewrite E|done..|].
    eapply rep_update1; [done..|].
    intros h' l Hl Hne. assert (h ∉ h' :: l) by by eapply unused_disjoint. set_solver.
  - destruct (add_rep m A h l x (x :: l) rlist_add) as (m' & E & Hr & Hu); eauto using add_ring.
    exists m'. simpl. rewrite E. split_and!; [done..|]. intros q Hq. by apply Hu, Hm.
  - destruct (add_rep m A h l x (l ++ [x]) rlist_add_tail) as (m' & E & Hr & Hu);
      eauto using add_tail_ring. { symmetry. apply Permutation_cons_append. }
    exists m'. simpl. rewrite E. split_and!; [done..|]. intros q Hq. by apply Hu, Hm.
  - destruct (del_ring m h l1 x l2) as (m' & E & Hr & Hx & Hu); [by apply Hrep|].
    eapply refines_intro; [simpl; by rewrite E|done..|]. by eapply del_rep.
  - destruct (shift_ring m h x l) as (m' & E & Hr & Hx & Hu); [by apply Hrep|].
    eapply refines_intro; [done..|]. by eapply (del_rep m A h [] x l).
  - destruct (shift_tail_ring m h l x) as (m' & E & Hr & Hx & Hu); [by apply Hrep|].
    eapply refines_intro; [done..|]. pose proof (del_rep m A h l x [] m') as Hd.
    rewrite app_nil_r in Hd. by apply Hd.
Qed.

Lemma refines_move D m A o v A' :
  rep m A -> mapped D m -> lists_op A o v A' ->
  match o with Move _ _ | MoveTail _ _ => True | _ => False end -> refines D m o v A'.
Proof.
  intros Hrep Hm Hop Hk. destruct Hop; try done.
  - destruct (move_same_ring m h l1 x l2) as [(m' & E & Hr & Hu) _]; [by apply Hrep|].
    eapply refines_intro; [simpl; by rewrite E|done..|].
    eapply rep_update1; [done..|set_solver|]. intros. by eapply Hrep.
  - destruct (move_other_ring m h l1 x l2 t lt) as [(m' & E & Hr & Ht & Hu) _];
      [by apply Hrep..|by eapply Hrep|].
    eapply refines_intro; [simpl; by rewrite E|done..|]. by eapply move_rep.
  - destruct (move_same_ring m h l1 x l2) as [_ (m' & E & Hr & Hu)]; [by apply Hrep|].
    eapply refines_intro; [simpl; by rewrite E|done..|].
    eapply rep_update1; [done..|set_solver|]. intros. by eapply Hrep.
  - destruct (move_other_ring m h l1 x l2 t lt) as [_ (m' & E & Hr & Ht & Hu)];
      [by apply Hrep..|by eapply Hrep|].
    eapply refines_intro; [simpl; by rewrite E|done..|]. eapply move_rep; try done.
    symmetry. apply Permutation_cons_append.
Qed.

Lemma refines_pair D m A o v A' :
  rep m A -> mapped D m -> lists_op A o v A' ->
  match o with Swap _ _ | Splice _ _ | SpliceTail _ _ | CutBefore _ _ _ => True
  | _ => False end -> refines D m o v A'.
Proof.
  intros Hrep Hm Hop Hk.
  destruct Hop as [| | | | | | | | | |r lr l ll H1 H2 Hne|h1 l1 h2 l2 H1 H2 Hne
    |h1 l1 h2 l2 H1 H2 Hne|h1 l0 h2 l1 l2 H1 H2 Hne]; try done.
  - assert (Hd : (r :: lr) ## (l :: ll)) by by eapply Hrep.
    destruct (swap_ring m r lr l ll) as (m' & E & Hr & Hl & Hu); [by apply Hrep..|done|].
    eapply refines_intro; [simpl; by rewrite E|done..|].
    assert ((r :: ll) ## (l :: lr)).
    { destruct (proj1 Hrep _ _ H1) as [N1 _], (proj1 Hrep _ _ H2) as [N2 _].
      clear -Hd N1 N2 Hne. nodes. set_solver. }
    eapply (pair_rep m A r lr l ll); [done..|set_solver|set_solver|done].
  - assert (Hd : (h1 :: l1) ## (h2 :: l2)) by by eapply Hrep.
    destruct (splice_ring m h1 l1 h2 l2) as (m' & E & Hr & Hl & Hu); [by apply Hrep..|done|].
    eapply refines_intro; [simpl; by rewrite E|done..|].
    destruct (proj1 Hrep _ _ H2) as [N2 _].
    eapply (pair_rep m A h1 l1 h2 l2); [done..| |set_solver|set_solver|done].
    clear -Hd N2. nodes. set_solver.
  - assert (Hd : (h1 :: l1) ## (h2 :: l2)) by by eapply Hrep.
    destruct (splice_tail_ring m h1 l1 h2 l2) as (m' & E & Hr & Hl & Hu);
      [by apply Hrep..|done|].
    eapply refines_intro; [simpl; by rewrite E|done..|].
    destruct (proj1 Hrep _ _ H2) as [N2 _].
    eapply (pair_rep m A h1 l1 h2 l2); [done..| |set_solver|set_solver|done].
    clear -Hd N2. nodes. set_solver.
  - assert (Hd : (h1 :: l0) ## (h2 :: l1 ++ l2)) by by eapply Hrep.
    destruct (proj1 Hrep _ _ H1) as [N1 Hs1]. destruct (proj1 Hrep _ _ H2) as [N2 _].
    destruct (cut_before_ring m h1 h2 l1 l2) as (m' & E & Hr & Hl & Hu).
    { by apply Hrep. } { clear -Hd. set_solver. } { by eapply mapped_rep. }
    { destruct (seg_next _ _ _ _ Hs1) as (n & Hn & -> & _). intros [= ->].
      clear -Hd Hn. destruct l2; simpl in *; set_solver. }
    eapply refines_intro; [simpl; by rewrite E|done..|].
    eapply (pair_rep m A h1 l0 h2 (l1 ++ l2)); [done..| |set_solver|set_solver|].
    + clear -Hd N2. nodes. set_solver.
    + intros q. destruct (Hu q) as [U1 U2]. split; [|done]. clear -U1. set_solver.
Qed.

(** ** Properties *)

(** C35. Every operation of the library refines its operation on lists: in a
    memory that represents a family of disjoint lists, the operation returns
    (with the node it removes, for the shifts), and the memory then represents
    the family after the operation on lists; every other list is untouched. *)
Theorem rlist_refines_lists D m A o v A' :
  rep m A -> mapped D m -> operands D o -> lists_op A o v A' ->
  exists m', rlist_op o m = Some (v, m') /\ rep m' A' /\ mapped D m'.
Proof.
  intros Hrep Hm Ho Hop. change (refines D m o v A').
  destruct o; first [by eapply refines_insert|by eapply refines_move|by eapply refines_pair].
Qed.

(** A memory of four nodes; node 1 is the head of [2; 3], node 4 a list alone. *)
Definition example_memory : memory :=
  list_to_map [(1, Rlist 3 2); (2, Rlist 1 3); (3, Rlist 2 1); (4, Rlist 4 4)].
Definition example_lists : lists := {[1 := [2; 3]; 4 := []]}.

Lemma example_rep : rep example_memory example_lists.
Proof.
  unfold example_lists. split.
  - intros h l [[<- <-]|[_ [<- <-]%lookup_singleton_Some]]%lookup_insert_Some;
      (split; [by apply (bool_decide_unpack _); vm_compute|by repeat split]).
  - intros h1 l1 h2 l2 [[<- <-]|[_ [<- <-]%lookup_singleton_Some]]%lookup_insert_Some
      [[<- <-]|[_ [<- <-]%lookup_singleton_Some]]%lookup_insert_Some; set_solver.
Qed.

Lemma example_mapped : mapped {[1; 2; 3; 4]} example_memory.
Proof.
  intros q Hq. assert (q = 1 \/ q = 2 \/ q = 3 \/ q = 4) as Hc by set_solver.
  destruct Hc as [->|[->|[->| ->]]]; by eexists.
Qed.

Lemma rlist_refines_lists_witness :
  rep example_memory example_lists /\
  (exists m', rlist_op (ShiftTail 1) example_memory = Some (3, m') /\
     rep m' (<[3 := []]> (<[1 := [2]]> example_lists)) /\ mapped {[1; 2; 3; 4]} m') /\
  (exists m', rlist_op (CutBefore 4 1 3) example_memory = Some (NULL, m') /\
     rep m' (<[1 := [3]]> (<[4 := [2]]> example_lists)) /\ mapped {[1; 2; 3; 4]} m').
Proof.
  split; [apply example_rep|]. split.
  - eapply (rlist_refines_lists _ _ example_lists);
      [apply example_rep|apply example_mapped|done|]. by apply (op_shift_tail _ 1 3 [2]).
  - eapply (rlist_refines_lists _ _ example_lists);
      [apply example_rep|apply example_mapped|done|].
    by apply (op_cut_before example_lists 4 [] 1 [2] [3]).
Defined.

(** What the code reads of a list: its first and last node (the head when it
    is empty), whether it is empty, and that both traversals terminate and visit
    the list in order and in reverse order. *)
Theorem rlist_observe m A h l fuel :
  rep m A -> A !! h = Some l -> (length l < fuel)%nat ->
  rlist_first m h = Some (cut_point h l) /\
  rlist_last m h = Some (cut_point h (rev l)) /\
  rlist_empty m h = Some (bool_decide (l = [])) /\
  rlist_foreach fuel m h = Some l /\ rlist_foreach_reverse fuel m h = Some (rev l).
Proof.
  intros [Hr _] Hl Hf. specialize (Hr _ _ Hl). split_and!.
  - destruct Hr as [_ Hs]. destruct l; apply Hs.
  - destruct Hr as [_ Hs]. induction l as [|x l _] using rev_ind; [apply Hs|].
    rewrite rev_unit. by apply seg_app in Hs as [_ [_ Hs]].
  - by apply empty_ring.
  - by apply foreach_ring.
  - by apply foreach_ring.
Qed.

Lemma rlist_observe_witness :
  rep example_memory example_lists /\ example_lists !! 1 = Some [2; 3] /\
  rlist_foreach_reverse 3 example_memory 1 = Some [3; 2].
Proof.
  split; [apply example_rep|]. split; [done|].
  apply (rlist_observe example_memory example_lists 1 [2; 3] 3);
    [apply example_rep|done|simpl; lia].
Defined.

(** [rlist_cut_before] looks at [head1->next]: when the old content of [head1]
    happens to point at [item], nothing is moved and [head2] keeps its first
    node. *)
Lemma rlist_cut_before_stale :
  exists m', rlist_cut_before (<[4 := Rlist 4 3]> example_memory) 4 1 3 = Some m' /\
    ring m' 4 [] /\ ring m' 1 [2; 3].
Proof.
  eexists. split; [reflexivity|]. split;
    (split; [by apply (bool_decide_unpack _); vm_compute|by repeat split]).
Qed.
