(* ===== verification/RlistEntry.v ===== *)
(** * Lists of entries: the [_entry] macros of [include/small/rlist.h]

    An entry is a structure that holds its list node in a field; the macros turn
    a node into the entry around it and back, and loop over the entries.  The
    loops run an arbitrary body on the memory and on a state of its own, so that
    the difference between a loop and its [_safe] variant shows: one reads the
    link after the body, the other before it. *)
From S2P Require Import Prelude Rlist.

Section Entry.
(** [offsetof(type, member)] *)
Context (off : Z).

(** ** Entries *)

Definition rlist_entry (item : Z) : Z := item - off.

(** [&(item)->member] *)
Definition member (item : Z) : Z := item + off.

Definition rlist_first_entry (m : memory) (head : Z) : option Z :=
  r ← rlist_first m head; Some (rlist_entry r).
Definition rlist_last_entry (m : memory) (head : Z) : option Z :=
  r ← rlist_last m head; Some (rlist_entry r).
Definition rlist_shift_entry (m : memory) (head : Z) : option (Z * memory) :=
  '(r, m) ← rlist_shift m head; Some (rlist_entry r, m).
Definition rlist_shift_tail_entry (m : memory) (head : Z) : option (Z * memory) :=
  '(r, m) ← rlist_shift_tail m head; Some (rlist_entry r, m).
Definition rlist_next_entry (m : memory) (item : Z) : option Z :=
  r ← rlist_next m (member item); Some (rlist_entry r).
Definition rlist_prev_entry (m : memory) (item : Z) : option Z :=
  r ← rlist_prev m (member item); Some (rlist_entry r).
Definition rlist_prev_entry_safe (m : memory) (item head : Z) : option Z :=
  r ← rlist_prev m (member item);
  if r =? head then Some NULL
  else r ← rlist_prev m (member item); Some (rlist_entry r).
Definition rlist_add_entry (m : memory) (head item : Z) : option memory :=
  rlist_add m head (member item).
Definition rlist_add_tail_entry (m : memory) (head item : Z) : option memory :=
  rlist_add_tail m head (member item).
Definition rlist_move_entry (m : memory) (to item : Z) : option memory :=
  rlist_move m to (member item).
Definition rlist_move_tail_entry (m : memory) (to item : Z) : option memory :=
  rlist_move_tail m to (member item).
Definition rlist_del_entry (m : memory) (item : Z) : option memory :=
  rlist_del m (member item).

Definition rlist_entry_is_head (item head : Z) : bool := item + off =? head.

(** ** Loops

    [body item s] is the statement the loop governs: it may change the memory
    and a state of its own.  [fuel] bounds the iterations. *)
Section Loops.
Context {A : Type} (body : Z -> memory * A -> option (memory * A)).

Fixpoint foreach_entry_from (step : memory -> Z -> option Z) (fuel : nat) (head item : Z)
    (s : memory * A) : option (memory * A) :=
  match fuel with
  | O => None
  | S fuel =>
      if negb (rlist_entry_is_head item head) then
        s ← body item s;
        item ← step s.1 item;
        foreach_entry_from step fuel head item s
      else Some s
  end.

Definition rlist_foreach_entry (fuel : nat) (head : Z) (s : memory * A) : option (memory * A) :=
  item ← rlist_first_entry s.1 head;
  foreach_entry_from rlist_next_entry fuel head item s.

Definition rlist_foreach_entry_reverse (fuel : nat) (head : Z) (s : memory * A) :
    option (memory * A) :=
  item ← rlist_last_entry s.1 head;
  foreach_entry_from rlist_prev_entry fuel head item s.

(** The loop condition is [!is_head(item) && (tmp = step(item))]: it reads the
    link before the body, and stops on a NULL [tmp]. *)
Fixpoint foreach_entry_safe_from (step : memory -> Z -> option Z) (fuel : nat)
    (head item : Z) (s : memory * A) : option (memory * A) :=
  match fuel with
  | O => None
  | S fuel =>
      if negb (rlist_entry_is_head item head) then
        tmp ← step s.1 item;
        if negb (tmp =? NULL) then
          s ← body item s;
          foreach_entry_safe_from step fuel head tmp s
        else Some s
      else Some s
  end.

Definition rlist_foreach_entry_safe (fuel : nat) (head : Z) (s : memory * A) :
    option (memory * A) :=
  item ← rlist_first_entry s.1 head;
  foreach_entry_safe_from rlist_next_entry fuel head item s.

Definition rlist_foreach_entry_safe_reverse (fuel : nat) (head : Z) (s : memory * A) :
    option (memory * A) :=
  item ← rlist_last_entry s.1 head;
  foreach_entry_safe_from rlist_prev_entry fuel head item s.

(** What a loop over the entries [es] should do: run the body once on each, in
    order. *)
Fixpoint run_body (es : list Z) (s : memory * A) : option (memory * A) :=
  match es with
  | [] => Some s
  | e :: es => s ← body e s; run_body es s
  end.
End Loops.

(** ** Rings of entries *)

(** The list with head [h] holds the entries [es]. *)
Definition elist (m : memory) (h : Z) (es : list Z) : Prop := ring m h (member <$> es).

(** The first entry of [es], or what stands for the head. *)
Definition entry_hd (h : Z) (es : list Z) : Z :=
  match es with [] => rlist_entry h | e :: _ => e end.

Lemma entry_member e : rlist_entry (member e) = e.
Proof. unfold rlist_entry, member. lia. Qed.
Lemma member_entry r : member (rlist_entry r) = r.
Proof. unfold rlist_entry, member. lia. Qed.
#[local] Instance member_inj : Inj (=) (=) member.
Proof. intros a b. unfold member. lia. Qed.

Lemma is_head_entry h : rlist_entry_is_head (rlist_entry h) h = true.
Proof. unfold rlist_entry_is_head, rlist_entry. apply Z.eqb_eq. lia. Qed.
Lemma is_head_false e h : member e <> h -> rlist_entry_is_head e h = false.
Proof. unfold rlist_entry_is_head, member. by intros ?%Z.eqb_neq. Qed.

(** The first node of a segment and its neighbour on the left of the end. *)
Lemma seg_first m x es y : seg m x (member <$> es) y ->
  get_next m x = Some (match es with [] => y | e :: _ => member e end).
Proof. destruct es as [|e es]; simpl; tauto. Qed.
Lemma seg_last m x es y : seg m x (member <$> es) y ->
  get_prev m y = Some (match rev es with [] => x | e :: _ => member e end).
Proof.
  destruct es as [|e es _] using rev_ind; simpl; [tauto|].
  rewrite fmap_app, rev_app_distr. simpl. rewrite seg_app. simpl. tauto.
Qed.

Lemma entry_hd_node h es :
  rlist_entry (match es with [] => h | e :: _ => member e end) = entry_hd h es.
Proof. destruct es; [done|apply entry_member]. Qed.

Lemma first_entry m h es : elist m h es -> rlist_first_entry m h = Some (entry_hd h es).
Proof.
  intros [_ Hs]. unfold rlist_first_entry, rlist_first. rewrite (seg_first _ _ _ _ Hs).
  simpl. by rewrite entry_hd_node.
Qed.
Lemma last_entry m h es : elist m h es -> rlist_last_entry m h = Some (entry_hd h (rev es)).
Proof.
  intros [_ Hs]. unfold rlist_last_entry, rlist_last. rewrite (seg_last _ _ _ _ Hs).
  simpl. by rewrite entry_hd_node.
Qed.

Lemma elist_split m h l1 e l2 : elist m h (l1 ++ e :: l2) ->
  ring m h ((member <$> l1) ++ member e :: (member <$> l2)).
Proof. unfold elist. by rewrite fmap_app. Qed.

Lemma next_entry m h l1 e l2 :
  elist m h (l1 ++ e :: l2) -> rlist_next_entry m e = Some (entry_hd h l2).
Proof.
  intros [_ [_ Hs]%seg_app]%elist_split. unfold rlist_next_entry, rlist_next.
  rewrite (seg_first _ _ _ _ Hs). simpl. by rewrite entry_hd_node.
Qed.
Lemma prev_entry m h l1 e l2 :
  elist m h (l1 ++ e :: l2) -> rlist_prev_entry m e = Some (entry_hd h (rev l1)).
Proof.
  intros [_ [Hs _]%seg_app]%elist_split. unfold rlist_prev_entry, rlist_prev.
  rewrite (seg_last _ _ _ _ Hs). simpl. by rewrite entry_hd_node.
Qed.

Lemma elist_not_head m h es e : elist m h es -> e ∈ es -> member e <> h.
Proof.
  intros [[Hh _]%NoDup_cons _] He <-. apply Hh. rewrite list_elem_of_fmap. eauto.
Qed.

Lemma elist_del m h l1 e l2 : elist m h (l1 ++ e :: l2) ->
  exists m', rlist_del_entry m e = Some m' /\ elist m' h (l1 ++ l2) /\ elist m' (member e) [].
Proof.
  intros (m' & E & H1 & H2 & _)%elist_split%del_ring. exists m'.
  unfold elist. rewrite fmap_app. auto.
Qed.

(** [rlist_prev_entry_safe] is the previous entry, NULL before the first. *)
Lemma prev_entry_safe m h l1 e l2 :
  elist m h (l1 ++ e :: l2) ->
  rlist_prev_entry_safe m e h = Some (match rev l1 with [] => NULL | p :: _ => p end).
Proof.
  intros He. pose proof He as [_ [Hs _]%seg_app]%elist_split.
  unfold rlist_prev_entry_safe, rlist_prev. rewrite (seg_last _ _ _ _ Hs). simpl.
  destruct (rev l1) as [|p r] eqn:Er; [by rewrite Z.eqb_refl|].
  assert (Hp : p ∈ l1) by (rewrite <- (rev_involutive l1), Er; simpl; set_solver).
  rewrite (proj2 (Z.eqb_neq (member p) h)) by (eapply elist_not_head; [done|set_solver]).
  by rewrite entry_member.
Qed.

(** Adding an entry and taking it back out of the same end returns it. *)
Lemma add_shift_entry m h es e :
  elist m h es -> member e <> h -> e ∉ es -> is_Some (m !! member e) ->
  (exists m1 m2, rlist_add_entry m h e = Some m1 /\ elist m1 h (e :: es) /\
     rlist_shift_entry m1 h = Some (e, m2) /\ elist m2 h es) /\
  (exists m1 m2, rlist_add_tail_entry m h e = Some m1 /\ elist m1 h (es ++ [e]) /\
     rlist_shift_tail_entry m1 h = Some (e, m2) /\ elist m2 h es).
Proof.
  intros Hl Hh He Hm.
  assert (Hx : member e ∉ h :: (member <$> es)).
  { rewrite not_elem_of_cons. split; [done|]. by rewrite (list_elem_of_fmap_inj member). }
  unfold rlist_shift_entry, rlist_shift_tail_entry. split.
  - destruct (add_ring _ _ _ _ Hl Hx Hm) as (m1 & E1 & H1 & _).
    destruct (shift_ring _ _ _ _ H1) as (m2 & E2 & H2 & _).
    exists m1, m2. rewrite E2. simpl. by rewrite entry_member.
  - destruct (add_tail_ring _ _ _ _ Hl Hx Hm) as (m1 & E1 & H1 & _).
    destruct (shift_tail_ring _ _ _ _ H1) as (m2 & E2 & H2 & _).
    exists m1, m2. unfold elist. rewrite fmap_app, E2. simpl. by rewrite entry_member.
Qed.

(** ** The loops *)

Section LoopRules.
Context {A : Type} (body : Z -> memory * A -> option (memory * A)).
Implicit Types s : memory * A.

(** A loop rule for either direction: [I t s] says what holds when the entries
    [t] are left.  The body must leave the link to the next one in place. *)
Lemma foreach_rule step h (I : list Z -> memory * A -> Prop) :
  (forall e t s, I (e :: t) s -> member e <> h /\
     exists s', body e s = Some s' /\ I t s' /\ step s'.1 e = Some (entry_hd h t)) ->
  forall t s fuel, I t s -> (length t < fuel)%nat ->
  exists s', foreach_entry_from body step fuel h (entry_hd h t) s = Some s' /\
    run_body body t s = Some s' /\ I [] s'.
Proof.
  intros Hstep t. induction t as [|e t IH]; intros s [|fuel] HI Hf; simpl in *; try lia.
  - rewrite is_head_entry. eauto.
  - destruct (Hstep _ _ _ HI) as (Hh & s' & E & HI' & Hn).
    rewrite is_head_false by done. simpl. rewrite E. simpl. rewrite Hn. simpl.
    apply IH; [done|lia].
Qed.

(** The rule of the safe loops: the link is read first, the body may break it. *)
Lemma foreach_safe_rule step h (I : list Z -> memory * A -> Prop) :
  h <> off ->
  (forall e t s, I (e :: t) s -> member e <> h /\ (forall e', e' ∈ t -> e' <> NULL) /\
     step s.1 e = Some (entry_hd h t) /\ exists s', body e s = Some s' /\ I t s') ->
  forall t s fuel, I t s -> (length t < fuel)%nat ->
  exists s', foreach_entry_safe_from body step fuel h (entry_hd h t) s = Some s' /\
    run_body body t s = Some s' /\ I [] s'.
Proof.
  intros Hoff Hstep t. induction t as [|e t IH]; intros s [|fuel] HI Hf; simpl in *; try lia.
  - rewrite is_head_entry. eauto.
  - destruct (Hstep _ _ _ HI) as (Hh & Hnz & Hn & s' & E & HI').
    rewrite is_head_false by done. simpl. rewrite Hn. simpl.
    rewrite (proj2 (Z.eqb_neq (entry_hd h t) NULL)).
    2: { destruct t; simpl; [unfold rlist_entry; lia|apply Hnz; left]. }
    simpl. rewrite E. simpl. apply IH; [done|lia].
Qed.

(** A loop whose body keeps the list runs it once on every entry, in order. *)
Lemma foreach_entry_run m h es a fuel :
  elist m h es ->
  (forall e s, e ∈ es -> elist s.1 h es ->
     exists s', body e s = Some s' /\ elist s'.1 h es) ->
  (length es < fuel)%nat ->
  exists s', rlist_foreach_entry body fuel h (m, a) = Some s' /\
    run_body body es (m, a) = Some s' /\ elist s'.1 h es.
Proof.
  intros Hl Hb Hf. unfold rlist_foreach_entry. simpl. rewrite (first_entry _ _ _ Hl). simpl.
  destruct (foreach_rule rlist_next_entry h
    (fun t s => elist s.1 h es /\ exists d, es = d ++ t)) with (t := es) (s := (m, a)) (fuel := fuel)
    as (s' & E & Er & HI & _); [|split; [done|by exists []]|done|eauto].
  intros e t s [Hs [d Hd]]. assert (He : e ∈ es) by (subst es; set_solver).
  split; [by eapply elist_not_head|].
  destruct (Hb _ _ He Hs) as (s' & E & Hs'). exists s'. split_and!; [done|done|..].
  - exists (d ++ [e]). by rewrite <- app_assoc.
  - rewrite Hd in Hs'. by eapply next_entry.
Qed.

Lemma foreach_entry_reverse_run m h es a fuel :
  elist m h es ->
  (forall e s, e ∈ es -> elist s.1 h es ->
     exists s', body e s = Some s' /\ elist s'.1 h es) ->
  (length es < fuel)%nat ->
  exists s', rlist_foreach_entry_reverse body fuel h (m, a) = Some s' /\
    run_body body (rev es) (m, a) = Some s' /\ elist s'.1 h es.
Proof.
  intros Hl Hb Hf. unfold rlist_foreach_entry_reverse. simpl.
  rewrite (last_entry _ _ _ Hl). simpl.
  destruct (foreach_rule rlist_prev_entry h (fun t s => elist s.1 h es /\ exists d, es = rev t ++ d))
    with (t := rev es) (s := (m, a)) (fuel := fuel) as (s' & E & Er & HI & _);
    [|split; [done|exists []; by rewrite rev_involutive, app_nil_r]|by rewrite length_rev|eauto].
  intros e t s [Hs [d Hd]]. simpl in Hd. rewrite <- app_assoc in Hd. simpl in Hd.
  assert (He : e ∈ es) by (subst es; set_solver).
  split; [by eapply elist_not_head|].
  destruct (Hb _ _ He Hs) as (s' & E & Hs'). exists s'. split_and!; [done|done|by eexists|].
  rewrite Hd in Hs'. rewrite <- (rev_involutive t) at 1. by eapply prev_entry.
Qed.

(** The body of a safe loop: it keeps the list or takes the current entry out. *)
Definition keeps_or_removes (h : Z) : Prop :=
  forall l1 e l2 s, elist s.1 h (l1 ++ e :: l2) ->
  exists s', body e s = Some s' /\
    (elist s'.1 h (l1 ++ e :: l2) \/ elist s'.1 h (l1 ++ l2)).

(** A safe loop runs such a body once on every entry, in order. *)
Lemma foreach_entry_safe_run m h es a fuel :
  elist m h es -> keeps_or_removes h -> h <> off -> NULL ∉ es -> (length es < fuel)%nat ->
  exists s' es', rlist_foreach_entry_safe body fuel h (m, a) = Some s' /\
    run_body body es (m, a) = Some s' /\ elist s'.1 h es' /\ es' `sublist_of` es.
Proof.
  intros Hl Hb Hoff Hnz Hf. unfold rlist_foreach_entry_safe. simpl.
  rewrite (first_entry _ _ _ Hl). simpl.
  destruct (foreach_safe_rule rlist_next_entry h (fun t s => NULL ∉ t /\
      exists d d', es = d ++ t /\ d' `sublist_of` d /\ elist s.1 h (d' ++ t)) Hoff)
    with (t := es) (s := (m, a)) (fuel := fuel) as (s' & E & Er & _ & d & d' & Hd & Hs & HI);
    [|split; [done|by exists [], []]|done|].
  - intros e t s (Hn & d & d' & Hd & Hs & HI).
    split; [eapply elist_not_head; [done|set_solver]|]. split; [set_solver|].
    split; [by eapply next_entry|].
    destruct (Hb _ _ _ _ HI) as (s' & E & Hk). exists s'. split; [done|].
    split; [set_solver|]. exists (d ++ [e]). rewrite <- app_assoc. simpl.
    destruct Hk as [Hk|Hk].
    + exists (d' ++ [e]). rewrite <- app_assoc. split_and!; [done|by apply sublist_app|done].
    + exists d'. split_and!; [done|by apply sublist_inserts_r|done].
  - rewrite app_nil_r in Hd, HI. exists s', d'. split_and!; [done..|by rewrite Hd].
Qed.

Lemma foreach_entry_safe_reverse_run m h es a fuel :
  elist m h es -> keeps_or_removes h -> h <> off -> NULL ∉ es -> (length es < fuel)%nat ->
  exists s' es', rlist_foreach_entry_safe_reverse body fuel h (m, a) = Some s' /\
    run_body body (rev es) (m, a) = Some s' /\ elist s'.1 h es' /\ es' `sublist_of` es.
Proof.
  intros Hl Hb Hoff Hnz Hf. unfold rlist_foreach_entry_safe_reverse. simpl.
  rewrite (last_entry _ _ _ Hl). simpl.
  destruct (foreach_safe_rule rlist_prev_entry h (fun t s => NULL ∉ t /\
      exists d d', es = rev t ++ d /\ d' `sublist_of` d /\ elist s.1 h (rev t ++ d')) Hoff)
    with (t := rev es) (s := (m, a)) (fuel := fuel) as (s' & E & Er & _ & d & d' & Hd & Hs & HI);
    [| |by rewrite length_rev|].
  - intros e t s (Hn & d & d' & Hd & Hs & HI). simpl in Hd, HI.
    rewrite <- app_assoc in Hd, HI. simpl in Hd, HI.
    split; [eapply elist_not_head; [done|set_solver]|]. split; [set_solver|].
    split; [rewrite <- (rev_involutive t) at 1; by eapply prev_entry|].
    destruct (Hb _ _ _ _ HI) as (s' & E & Hk). exists s'. split; [done|].
    split; [set_solver|]. exists (e :: d). destruct Hk as [Hk|Hk].
    + exists (e :: d'). split_and!; [done|by constructor|done].
    + exists d'. split_and!; [done|by constructor|done].
  - split; [by rewrite list_elem_of_In, <- in_rev, <- list_elem_of_In|]. exists [], []. by rewrite rev_involutive, app_nil_r.
  - simpl in Hd, HI. exists s', d'. split_and!; [done..|by rewrite Hd].
Qed.
End LoopRules.

(** ** Removal while iterating *)

(** The loop body [if (!keep(item)) rlist_del_entry(item, member)], which notes
    the entries it sees. *)
Definition del_unless (keep : Z -> bool) (item : Z) (s : memory * list Z) :
    option (memory * list Z) :=
  let '(m, seen) := s in
  if keep item then Some (m, seen ++ [item])
  else m ← rlist_del_entry m item; Some (m, seen ++ [item]).

Lemma del_unless_step keep h l1 e l2 m seen :
  elist m h (l1 ++ e :: l2) ->
  exists m', del_unless keep e (m, seen) = Some (m', seen ++ [e]) /\
    elist m' h (l1 ++ filter keep [e] ++ l2).
Proof.
  intros Hl. unfold del_unless. destruct (keep e) eqn:Ek.
  - rewrite filter_cons_True by (by rewrite Ek). eauto.
  - rewrite filter_cons_False by (rewrite Ek; simpl; tauto).
    destruct (elist_del _ _ _ _ _ Hl) as (m' & -> & Hl' & _). simpl. eauto.
Qed.

Lemma del_unless_ok keep h : keeps_or_removes (del_unless keep) h.
Proof.
  intros l1 e l2 [m seen] Hl. destruct (del_unless_step keep _ _ _ _ _ seen Hl) as (m' & E & Hl').
  eexists. split; [done|]. destruct (decide (keep e)).
  - left. by rewrite filter_cons_True in Hl'.
  - right. by rewrite filter_cons_False in Hl'.
Qed.

Lemma run_del_unless (keep : Z -> bool) h es d m seen :
  elist m h (filter keep d ++ es) ->
  exists m', run_body (del_unless keep) es (m, seen) = Some (m', seen ++ es) /\
    elist m' h (filter keep (d ++ es)).
Proof.
  revert d m seen. induction es as [|e es IH]; intros d m seen Hl; cbn [run_body].
  - rewrite !app_nil_r in *. eauto.
  - destruct (del_unless_step keep _ _ _ _ _ seen Hl) as (m1 & -> & Hl1). cbn [mbind option_bind].
    rewrite app_assoc, <- filter_app in Hl1.
    destruct (IH _ _ (seen ++ [e]) Hl1) as (m2 & -> & Hl2). exists m2.
    by rewrite <- !app_assoc in *.
Qed.

Lemma run_del_unless_rev (keep : Z -> bool) h es d m seen :
  elist m h (rev es ++ filter keep d) ->
  exists m', run_body (del_unless keep) es (m, seen) = Some (m', seen ++ es) /\
    elist m' h (filter keep (rev es ++ d)).
Proof.
  revert d m seen. induction es as [|e es IH]; intros d m seen Hl; cbn [run_body].
  - rewrite app_nil_r. eauto.
  - simpl in Hl. rewrite <- app_assoc in Hl. simpl in Hl.
    destruct (del_unless_step keep _ _ _ _ _ seen Hl) as (m1 & -> & Hl1). cbn [mbind option_bind].
    rewrite <- filter_app in Hl1.
    destruct (IH _ _ (seen ++ [e]) Hl1) as (m2 & -> & Hl2). exists m2.
    simpl. by rewrite <- !app_assoc in *.
Qed.

(** An entry in no list: its node points to itself. *)
Lemma next_self m e : elist m (member e) [] -> rlist_next_entry m e = Some e.
Proof.
  intros [_ [Hn _]]. unfold rlist_next_entry, rlist_next. rewrite Hn. simpl.
  by rewrite entry_member.
Qed.
Lemma del_self m e : elist m (member e) [] ->
  exists m', rlist_del_entry m e = Some m' /\ elist m' (member e) [].
Proof.
  intros [Hnd [Hn Hp]]. unfold rlist_del_entry, rlist_del, rlist_unlink, rlist_create.
  rl. eexists. split; [done|]. split; [done|]. simpl. rl. done.
Qed.

(** A loop without [_safe] that removes the entry it is at then reads a node
    that points to itself, and never ends. *)
Lemma foreach_del_stuck h e m seen :
  elist m (member e) [] -> member e <> h ->
  forall fuel, foreach_entry_from (del_unless (fun _ => false)) rlist_next_entry fuel h e
    (m, seen) = None.
Proof.
  intros Hl Hh fuel. revert m seen Hl. induction fuel as [|fuel IH]; intros m seen Hl; [done|].
  simpl. rewrite is_head_false by done. simpl.
  destruct (del_self _ _ Hl) as (m' & -> & Hl'). simpl. rewrite (next_self _ _ Hl'). simpl.
  by apply IH.
Qed.
End Entry.

(** A safe loop that removes some of the entries sees every entry once, in
    order (or in the opposite one), ends, and leaves the list with the entries
    it kept; without [_safe], removing the first entry makes the loop run
    forever. *)
Theorem rlist_foreach_safe_removes off m h es (keep : Z -> bool) fuel :
  elist off m h es -> h <> off -> NULL ∉ es -> (length es < fuel)%nat ->
  (exists m', rlist_foreach_entry_safe off (del_unless off keep) fuel h (m, []) =
       Some (m', es) /\ elist off m' h (filter keep es)) /\
  (exists m', rlist_foreach_entry_safe_reverse off (del_unless off keep) fuel h (m, []) =
       Some (m', rev es) /\ elist off m' h (filter keep es)) /\
  (es <> [] -> forall fuel', rlist_foreach_entry off (del_unless off (fun _ => false)) fuel' h
     (m, []) = None).
Proof.
  intros Hl Hoff Hnz Hf. split_and!.
  - destruct (foreach_entry_safe_run off (del_unless off keep) m h es [] fuel)
      as (s' & es' & -> & E & _); [done|by apply del_unless_ok|done..|].
    destruct (run_del_unless off keep h es [] m [] Hl) as (m' & E' & Hl').
    exists m'. by rewrite <- E, E'.
  - destruct (foreach_entry_safe_reverse_run off (del_unless off keep) m h es [] fuel)
      as (s' & es' & -> & E & _); [done|by apply del_unless_ok|done..|].
    destruct (run_del_unless_rev off keep h (rev es) [] m []) as (m' & E' & Hl').
    { by rewrite rev_involutive, app_nil_r. }
    rewrite rev_involutive, app_nil_r in Hl'. exists m'. by rewrite <- E, E'.
  - intros Hne fuel'. destruct es as [|e es]; [done|]. unfold rlist_foreach_entry. simpl.
    rewrite (first_entry _ _ _ _ Hl). simpl. destruct fuel' as [|fuel']; [done|]. simpl.
    assert (Hh : member off e <> h) by (eapply elist_not_head; [done|left]).
    rewrite is_head_false by done. simpl.
    destruct (elist_del off _ _ [] _ _ Hl) as (m' & -> & _ & He). simpl.
    rewrite (next_self _ _ _ He). simpl. by apply foreach_del_stuck.
Qed.

(** Three entries with their node at offset 8, and the memory that links them. *)
Definition demo_mem : memory :=
  {[ 1000 := Rlist 308 108; 108 := Rlist 1000 208; 208 := Rlist 108 308; 308 := Rlist 208 1000 ]}.

Lemma demo_elist : elist 8 demo_mem 1000 [100; 200; 300].
Proof.
  split; [|by vm_compute]. apply (bool_decide_unpack _). by vm_compute.
Qed.

Lemma rlist_foreach_safe_removes_witness :
  exists m', rlist_foreach_entry_safe 8 (del_unless 8 (fun e => e =? 200)) 4 1000 (demo_mem, []) =
    Some (m', [100; 200; 300]) /\ elist 8 m' 1000 [200].
Proof.
  destruct (rlist_foreach_safe_removes 8 demo_mem 1000 [100; 200; 300] (fun e => e =? 200) 4)
    as (H & _ & _).
  - exact demo_elist.
  - discriminate.
  - apply (bool_decide_unpack _). reflexivity.
  - simpl. lia.
  - exact H.
Defined.
