(* ===== verification/Rb.v ===== *)
(** * Red-black trees: [include/small/rb.h]

    The functions [rb_gen_ext_key_aug] generates, for a node type [A] (a node's
    identity, and all of it the comparison reads), augmented data [B], a key type
    [K], a comparison, a key comparison and an augmentation callback.

    A pointer to a node is the tree below it, [Leaf] for NULL; the accessors fail
    on [Leaf].  An entry of [path] is a node with the result of the comparison;
    its child on the path is stale until the unwinding sets it, as in the code.
    A store to a node that is a child of another one is [on_left] or [on_right]
    of the parent.  An access beyond the end of [path] fails. *)
From S2P Require Import Prelude.

Section Tree.
Context {A B K : Type} `{!EqDecision A}.
Variable a_cmp : A -> A -> Z.
Variable a_cmp_key : K -> A -> Z.
(** The callback sees the node and the data of its children. *)
Variable a_aug : A -> option (A * B) -> option (A * B) -> B.

Inductive tree :=
  | Leaf
  | Node (rbn_red : bool) (rbn_left : tree) (node : A) (aug : B) (rbn_right : tree).

(** ** Accessors *)

Definition is_null (t : tree) : bool := match t with Leaf => true | _ => false end.

Definition rbtn_left_get (t : tree) : option tree :=
  match t with Leaf => None | Node _ l _ _ _ => Some l end.
Definition rbtn_left_set (t l : tree) : option tree :=
  match t with Leaf => None | Node c _ x b r => Some (Node c l x b r) end.
Definition rbtn_right_get (t : tree) : option tree :=
  match t with Leaf => None | Node _ _ _ _ r => Some r end.
Definition rbtn_right_set (t r : tree) : option tree :=
  match t with Leaf => None | Node c l x b _ => Some (Node c l x b r) end.
Definition rbtn_red_get (t : tree) : option bool :=
  match t with Leaf => None | Node c _ _ _ _ => Some c end.
Definition rbtn_color_set (t : tree) (c : bool) : option tree :=
  match t with Leaf => None | Node _ l x b r => Some (Node c l x b r) end.
Definition rbtn_red_set (t : tree) : option tree := rbtn_color_set t true.
Definition rbtn_black_set (t : tree) : option tree := rbtn_color_set t false.

Definition rbt_node_new (x : A) (b : B) : tree := Node true Leaf x b Leaf.

Definition on_left (f : tree -> option tree) (t : tree) : option tree :=
  l ← rbtn_left_get t; l ← f l; rbtn_left_set t l.
Definition on_right (f : tree -> option tree) (t : tree) : option tree :=
  r ← rbtn_right_get t; r ← f r; rbtn_right_set t r.

(** The test [t != NULL && rbtn_red_get(t)]. *)
Definition red_nn (t : tree) : bool := match t with Leaf => false | Node c _ _ _ _ => c end.

Fixpoint rbtn_first (t : tree) : tree :=
  match t with
  | Node _ (Node _ _ _ _ _ as l) _ _ _ => rbtn_first l
  | _ => t
  end.
Fixpoint rbtn_last (t : tree) : tree :=
  match t with
  | Node _ _ _ _ (Node _ _ _ _ _ as r) => rbtn_last r
  | _ => t
  end.

Definition rbtn_rotate_left (a_node : tree) : option tree :=
  r_node ← rbtn_right_get a_node;
  rl ← rbtn_left_get r_node;
  a_node ← rbtn_right_set a_node rl;
  rbtn_left_set r_node a_node.

Definition rbtn_rotate_right (a_node : tree) : option tree :=
  r_node ← rbtn_left_get a_node;
  lr ← rbtn_right_get r_node;
  a_node ← rbtn_left_set a_node lr;
  rbtn_right_set r_node a_node.

Definition data (t : tree) : option (A * B) :=
  match t with Leaf => None | Node _ _ x b _ => Some (x, b) end.

Definition rbtn_augment (t : tree) : option tree :=
  match t with
  | Leaf => None
  | Node c l x _ r => Some (Node c l x (a_aug x (data l) (data r)) r)
  end.

Record frame := Frame { f_node : tree; f_cmp : Z }.

(** The number of entries of [path]. *)
Definition path_size : nat := 128.

Definition child_set (f : frame) (t : tree) : option tree :=
  if f_cmp f <? 0 then rbtn_left_set (f_node f) t else rbtn_right_set (f_node f) t.

(** [rbtn_augment_propagate] from the entry above [t] to the root, which it
    returns. *)
Fixpoint rbtn_augment_propagate (path : list frame) (t : tree) : option tree :=
  match path with
  | [] => Some t
  | f :: path =>
      n ← child_set f t;
      n ← rbtn_augment n;
      rbtn_augment_propagate path n
  end.

(** ** Lookup *)

Definition rb_new : tree := Leaf.
Definition rb_empty (rbtree : tree) : bool := is_null rbtree.
Definition rb_first (rbtree : tree) : tree := rbtn_first rbtree.
Definition rb_last (rbtree : tree) : tree := rbtn_last rbtree.

(** The loops of [next] and [prev]. *)
Fixpoint next_loop (node : A) (tnode ret : tree) : option tree :=
  match tnode with
  | Leaf => None
  | Node _ l x _ r =>
      let cmp := a_cmp node x in
      if cmp <? 0 then next_loop node l tnode
      else if cmp >? 0 then next_loop node r ret
      else Some ret
  end.
Fixpoint prev_loop (node : A) (tnode ret : tree) : option tree :=
  match tnode with
  | Leaf => None
  | Node _ l x _ r =>
      let cmp := a_cmp node x in
      if cmp <? 0 then prev_loop node l ret
      else if cmp >? 0 then prev_loop node r tnode
      else Some ret
  end.

(** [node] is the subtree of the node asked about. *)
Definition rb_next (rbtree node : tree) : option tree :=
  match node with
  | Leaf => None
  | Node _ _ x _ r =>
      if negb (is_null r) then Some (rbtn_first r) else next_loop x rbtree Leaf
  end.
Definition rb_prev (rbtree node : tree) : option tree :=
  match node with
  | Leaf => None
  | Node _ l x _ _ =>
      if negb (is_null l) then Some (rbtn_last l) else prev_loop x rbtree Leaf
  end.

Fixpoint rb_search (ret : tree) (key : K) : tree :=
  match ret with
  | Leaf => Leaf
  | Node _ l x _ r =>
      let cmp := a_cmp_key key x in
      if negb (cmp =? 0) then if cmp <? 0 then rb_search l key else rb_search r key
      else ret
  end.

Fixpoint nsearch_loop (tnode : tree) (key : K) (ret next : tree) : tree :=
  match tnode with
  | Leaf => if is_null ret then next else ret
  | Node _ l x _ r =>
      let cmp := a_cmp_key key x in
      if cmp <? 0 then nsearch_loop l key ret tnode
      else if cmp >? 0 then nsearch_loop r key ret next
      else nsearch_loop r key tnode next
  end.
Definition rb_nsearch (rbtree : tree) (key : K) : tree := nsearch_loop rbtree key Leaf Leaf.

Fixpoint psearch_loop (tnode : tree) (key : K) (ret prev : tree) : tree :=
  match tnode with
  | Leaf => if is_null ret then prev else ret
  | Node _ l x _ r =>
      let cmp := a_cmp_key key x in
      if cmp <? 0 then psearch_loop l key ret prev
      else if cmp >? 0 then psearch_loop r key ret tnode
      else psearch_loop l key tnode prev
  end.
Definition rb_psearch (rbtree : tree) (key : K) : tree := psearch_loop rbtree key Leaf Leaf.

(** ** Insertion *)

(** The unwinding goes on with a new subtree, or returns after the entries
    above are augmented. *)
Inductive insert_outcome := IAgain (t : tree) | IReturn (t : tree).

Fixpoint insert_wind (node : A) (t : tree) (path : list frame) : option (list frame) :=
  match t with
  | Leaf => Some path
  | Node _ l x _ r =>
      let cmp := a_cmp node x in
      ASSERT negb (cmp =? 0);
      ASSERT (length path + 1 <? path_size)%nat;
      if cmp <? 0 then insert_wind node l (Frame t cmp :: path)
      else insert_wind node r (Frame t cmp :: path)
  end.

(** One iteration of the unwinding: [child] is [pathp[1].node]. *)
Definition insert_fix (pathp : frame) (child : tree) : option insert_outcome :=
  let cnode := f_node pathp in
  if f_cmp pathp <? 0 then
    let left := child in
    cnode ← rbtn_left_set cnode left;
    red ← rbtn_red_get left;
    if red : bool then
      leftleft ← rbtn_left_get left;
      if red_nn leftleft then
        cnode ← on_left (on_left rbtn_black_set) cnode;
        tnode ← rbtn_rotate_right cnode;
        tnode ← on_right rbtn_augment tnode;
        tnode ← rbtn_augment tnode;
        Some (IAgain tnode)
      else
        cnode ← rbtn_augment cnode;
        Some (IAgain cnode)
    else
      cnode ← rbtn_augment cnode;
      Some (IReturn cnode)
  else
    let right := child in
    cnode ← rbtn_right_set cnode right;
    red ← rbtn_red_get right;
    if red : bool then
      left ← rbtn_left_get cnode;
      if red_nn left then
        cnode ← on_left rbtn_black_set cnode;
        cnode ← on_right rbtn_black_set cnode;
        cnode ← rbtn_red_set cnode;
        cnode ← rbtn_augment cnode;
        Some (IAgain cnode)
      else
        tred ← rbtn_red_get cnode;
        tnode ← rbtn_rotate_left cnode;
        tnode ← rbtn_color_set tnode tred;
        tnode ← on_left rbtn_red_set tnode;
        tnode ← on_left rbtn_augment tnode;
        tnode ← rbtn_augment tnode;
        Some (IAgain tnode)
    else
      cnode ← rbtn_augment cnode;
      Some (IReturn cnode).

Fixpoint insert_unwind (path : list frame) (t : tree) : option tree :=
  match path with
  | [] => rbtn_black_set t
  | pathp :: path =>
      o ← insert_fix pathp t;
      match o with
      | IAgain t => insert_unwind path t
      | IReturn t => rbtn_augment_propagate path t
      end
  end.

Definition rb_insert (rbtree : tree) (node : A) (b : B) : option tree :=
  n ← rbtn_augment (rbt_node_new node b);
  path ← insert_wind node rbtree [];
  insert_unwind path n.

(** ** Removal *)

(** The wind to the node: the entries above it and its subtree. *)
Fixpoint remove_wind (node : A) (t : tree) (path : list frame) :
    option (list frame * tree) :=
  match t with
  | Leaf => None
  | Node _ l x _ r =>
      let cmp := a_cmp node x in
      ASSERT (length path + 1 <? path_size)%nat;
      if cmp <? 0 then remove_wind node l (Frame t cmp :: path)
      else if cmp =? 0 then Some (path, t)
      else remove_wind node r (Frame t cmp :: path)
  end.

(** The wind to the node's successor: the entries below the node, [above]
    entries being in use. *)
Fixpoint successor_wind (above : nat) (t : tree) (path : list frame) : option (list frame) :=
  match t with
  | Leaf => Some path
  | Node _ l _ _ _ =>
      ASSERT (above + length path + 1 <? path_size)%nat;
      successor_wind above l (Frame t (-1) :: path)
  end.

(** The unwinding goes on, returns where a parent must exist, or returns. *)
Inductive remove_outcome := RAgain (t : tree) | RInner (t : tree) | RReturn (t : tree).

(** The rotations of the branch where the left subtree lost a black node. *)
Definition remove_fix_left (node child : tree) : option remove_outcome :=
  node ← rbtn_left_set node child;
  red ← rbtn_red_get node;
  right ← rbtn_right_get node;
  rightleft ← rbtn_left_get right;
  if red : bool then
    if red_nn rightleft then
      node ← rbtn_black_set node;
      node ← on_right rbtn_rotate_right node;
      node ← on_right (on_right rbtn_augment) node;
      node ← on_right rbtn_augment node;
      tnode ← rbtn_rotate_left node;
      tnode ← on_left rbtn_augment tnode;
      tnode ← rbtn_augment tnode;
      Some (RInner tnode)
    else
      tnode ← rbtn_rotate_left node;
      tnode ← on_left rbtn_augment tnode;
      tnode ← rbtn_augment tnode;
      Some (RInner tnode)
  else
    if red_nn rightleft then
      node ← on_right (on_left rbtn_black_set) node;
      node ← on_right rbtn_rotate_right node;
      node ← on_right (on_right rbtn_augment) node;
      node ← on_right rbtn_augment node;
      tnode ← rbtn_rotate_left node;
      tnode ← on_left rbtn_augment tnode;
      tnode ← rbtn_augment tnode;
      Some (RReturn tnode)
    else
      node ← rbtn_red_set node;
      tnode ← rbtn_rotate_left node;
      tnode ← on_left rbtn_augment tnode;
      tnode ← rbtn_augment tnode;
      Some (RAgain tnode).

(** The branch where the right subtree lost a black node and [left] is red:
    [unode] is the old left child, whose right child becomes the root. *)
Definition remove_fix_right_red (node : tree) : option remove_outcome :=
  left ← rbtn_left_get node;
  leftright ← rbtn_right_get left;
  leftrightleft ← rbtn_left_get leftright;
  if red_nn leftrightleft then
    node ← on_left (on_right (on_left rbtn_black_set)) node;
    unode ← rbtn_rotate_right node;
    unode ← on_right rbtn_rotate_right unode;
    unode ← on_right (on_right rbtn_augment) unode;
    unode ← on_right rbtn_augment unode;
    tnode ← rbtn_rotate_left unode;
    tnode ← on_left rbtn_augment tnode;
    tnode ← rbtn_augment tnode;
    Some (RReturn tnode)
  else
    node ← on_left (on_right rbtn_red_set) node;
    tnode ← rbtn_rotate_right node;
    tnode ← on_right rbtn_augment tnode;
    tnode ← rbtn_augment tnode;
    tnode ← rbtn_black_set tnode;
    Some (RReturn tnode).

Definition remove_fix_right (node child : tree) : option remove_outcome :=
  node ← rbtn_right_set node child;
  left ← rbtn_left_get node;
  leftred ← rbtn_red_get left;
  red ← rbtn_red_get node;
  leftleft ← rbtn_left_get left;
  if leftred : bool then remove_fix_right_red node
  else if red : bool then
    if red_nn leftleft then
      node ← rbtn_black_set node;
      node ← on_left rbtn_red_set node;
      node ← on_left (on_left rbtn_black_set) node;
      tnode ← rbtn_rotate_right node;
      tnode ← on_right rbtn_augment tnode;
      tnode ← rbtn_augment tnode;
      Some (RInner tnode)
    else
      node ← on_left rbtn_red_set node;
      node ← rbtn_black_set node;
      node ← rbtn_augment node;
      Some (RReturn node)
  else
    if red_nn leftleft then
      node ← on_left (on_left rbtn_black_set) node;
      tnode ← rbtn_rotate_right node;
      tnode ← on_right rbtn_augment tnode;
      tnode ← rbtn_augment tnode;
      Some (RReturn tnode)
    else
      node ← on_left rbtn_red_set node;
      node ← rbtn_augment node;
      Some (RAgain node).

Definition remove_fix (pathp : frame) (child : tree) : option remove_outcome :=
  ASSERT negb (f_cmp pathp =? 0);
  if f_cmp pathp <? 0 then remove_fix_left (f_node pathp) child
  else remove_fix_right (f_node pathp) child.

Fixpoint remove_unwind (path : list frame) (t : tree) : option tree :=
  match path with
  | [] =>
      red ← rbtn_red_get t;
      ASSERT negb red; Some t
  | pathp :: path =>
      o ← remove_fix pathp t;
      match o with
      | RAgain t => remove_unwind path t
      | RInner t => ASSERT negb (length path =? 0)%nat; rbtn_augment_propagate path t
      | RReturn t => rbtn_augment_propagate path t
      end
  end.

(** Prunes [node], which hangs below the entries of [path]. *)
Definition remove_prune (path : list frame) (node : tree) : option tree :=
  red ← rbtn_red_get node;
  if red : bool then
    match path with
    | [] => None
    | f :: _ => ASSERT f_cmp f <? 0; rbtn_augment_propagate path Leaf
    end
  else remove_unwind path Leaf.

(** Swaps the node [n] with its successor [s]: what takes the place of each. *)
Definition remove_swap (n s : tree) : option (tree * tree) :=
  tred ← rbtn_red_get s;
  nred ← rbtn_red_get n;
  s ← rbtn_color_set s nred;
  nl ← rbtn_left_get n;
  s ← rbtn_left_set s nl;
  nr ← rbtn_right_get n;
  s ← rbtn_right_set s nr;
  n ← rbtn_color_set n tred;
  Some (s, n).

Definition rb_remove (rbtree : tree) (node : A) : option tree :=
  '(above, n) ← remove_wind node rbtree [];
  right ← rbtn_right_get n;
  below ← successor_wind (S (length above)) right [];
  ASSERT bool_decide (fst <$> data n = Some node);
  match below with
  | f :: below =>
      '(s, n) ← remove_swap n (f_node f);
      remove_prune (below ++ Frame s 1 :: above) n
  | [] =>
      left ← rbtn_left_get n;
      if negb (is_null left) then
        red ← rbtn_red_get n;
        ASSERT negb (red : bool);
        leftred ← rbtn_red_get left;
        ASSERT leftred : bool;
        left ← rbtn_black_set left;
        rbtn_augment_propagate above left
      else if (length above =? 0)%nat then Some Leaf
      else remove_prune above n
  end.

(** ** Iterators

    [path] from the last entry to the first; [count] is its length, and the
    entries beyond [count] that the code still looks at are kept in sight by the
    functions that do. *)
Definition RB_MAX_TREE_HEIGHT : nat := 48.

Abbreviation iterator := (list tree).

(** Pointer equality of two nodes. *)
Definition same_node (s t : tree) : bool := bool_decide (fst <$> data s = fst <$> data t).

Definition push (it : iterator) (cur : tree) : option iterator :=
  ASSERT (length it <? RB_MAX_TREE_HEIGHT)%nat; Some (cur :: it).

(** [cur] is not NULL on entry. *)
Fixpoint rbtn_iter_go_left_down (cur : tree) (it : iterator) : option iterator :=
  match cur with
  | Leaf => Some it
  | Node _ l _ _ _ => it ← push it cur; rbtn_iter_go_left_down l it
  end.
Fixpoint rbtn_iter_go_right_down (cur : tree) (it : iterator) : option iterator :=
  match cur with
  | Leaf => Some it
  | Node _ _ _ _ r => it ← push it cur; rbtn_iter_go_right_down r it
  end.

Fixpoint rbtn_iter_go_left_up (it : iterator) : option iterator :=
  match it with
  | cur :: ((parent :: _) as it') =>
      l ← rbtn_left_get parent;
      if negb (same_node l cur) then Some it' else rbtn_iter_go_left_up it'
  | _ => Some []
  end.
Fixpoint rbtn_iter_go_right_up (it : iterator) : option iterator :=
  match it with
  | cur :: ((parent :: _) as it') =>
      r ← rbtn_right_get parent;
      if negb (same_node r cur) then Some it' else rbtn_iter_go_right_up it'
  | _ => Some []
  end.

Definition rb_iterator_get (it : iterator) : tree := default Leaf (head it).

Fixpoint icreate_loop (node : A) (cur : tree) (it : iterator) : option (bool * iterator) :=
  match cur with
  | Leaf => Some (false, [])
  | Node _ l x _ r =>
      let cmp := a_cmp node x in
      it ← push it cur;
      if cmp <? 0 then icreate_loop node l it
      else if cmp >? 0 then icreate_loop node r it
      else Some (true, it)
  end.
Definition rb_icreate (rbtree : tree) (node : A) : option (bool * iterator) :=
  icreate_loop node rbtree [].

Definition rb_ifirst (rbtree : tree) : option iterator :=
  if negb (is_null rbtree) then rbtn_iter_go_left_down rbtree [] else Some [].
Definition rb_ilast (rbtree : tree) : option iterator :=
  if negb (is_null rbtree) then rbtn_iter_go_right_down rbtree [] else Some [].

Definition rb_inext (it : iterator) : option (tree * iterator) :=
  match it with
  | [] => Some (Leaf, [])
  | ret :: _ =>
      r ← rbtn_right_get ret;
      it ← (if negb (is_null r) then rbtn_iter_go_left_down r it
            else rbtn_iter_go_right_up it);
      Some (ret, it)
  end.
Definition rb_iprev (it : iterator) : option (tree * iterator) :=
  match it with
  | [] => Some (Leaf, [])
  | ret :: _ =>
      l ← rbtn_left_get ret;
      it ← (if negb (is_null l) then rbtn_iter_go_right_down l it
            else rbtn_iter_go_left_up it);
      Some (ret, it)
  end.

Fixpoint isearch_loop (key : K) (cur : tree) (it : iterator) : option (bool * iterator) :=
  match cur with
  | Leaf => Some (false, [])
  | Node _ l x _ r =>
      let cmp := a_cmp_key key x in
      it ← push it cur;
      if cmp <? 0 then isearch_loop key l it
      else if cmp >? 0 then isearch_loop key r it
      else Some (true, it)
  end.
Definition rb_isearch (rbtree : tree) (key : K) : option (bool * iterator) :=
  isearch_loop key rbtree [].

(** The saved counts are prefixes of [path], that is suffixes of the list;
    [ret_count = -1] is [None]. *)
Fixpoint isearch_le_loop (key : K) (cur : tree) (it : iterator)
    (ret_count : option iterator) (prev_count : iterator) : option iterator :=
  match cur with
  | Leaf => Some (default prev_count ret_count)
  | Node _ l x _ r =>
      let cmp := a_cmp_key key x in
      it ← push it cur;
      if cmp <? 0 then isearch_le_loop key l it ret_count prev_count
      else if cmp >? 0 then isearch_le_loop key r it ret_count it
      else isearch_le_loop key r it (Some it) prev_count
  end.
Definition rb_isearch_le (rbtree : tree) (key : K) : option iterator :=
  isearch_le_loop key rbtree [] None [].

Fixpoint isearch_ge_loop (key : K) (cur : tree) (it : iterator)
    (ret_count : option iterator) (next_count : iterator) : option iterator :=
  match cur with
  | Leaf => Some (default next_count ret_count)
  | Node _ l x _ r =>
      let cmp := a_cmp_key key x in
      it ← push it cur;
      if cmp <? 0 then isearch_ge_loop key l it ret_count it
      else if cmp >? 0 then isearch_ge_loop key r it ret_count next_count
      else isearch_ge_loop key l it (Some it) next_count
  end.
Definition rb_isearch_ge (rbtree : tree) (key : K) : option iterator :=
  isearch_ge_loop key rbtree [] None [].

Fixpoint isearch_lt_loop (key : K) (cur : tree) (it prev_count : iterator) : option iterator :=
  match cur with
  | Leaf => Some prev_count
  | Node _ l x _ r =>
      let cmp := a_cmp_key key x in
      it ← push it cur;
      if cmp <? 0 then isearch_lt_loop key l it prev_count
      else if cmp >? 0 then isearch_lt_loop key r it it
      else isearch_lt_loop key l it prev_count
  end.
Definition rb_isearch_lt (rbtree : tree) (key : K) : option iterator :=
  isearch_lt_loop key rbtree [] [].

Fixpoint isearch_gt_loop (key : K) (cur : tree) (it next_count : iterator) : option iterator :=
  match cur with
  | Leaf => Some next_count
  | Node _ l x _ r =>
      let cmp := a_cmp_key key x in
      it ← push it cur;
      if cmp <? 0 then isearch_gt_loop key l it it
      else if cmp >? 0 then isearch_gt_loop key r it next_count
      else isearch_gt_loop key r it next_count
  end.
Definition rb_isearch_gt (rbtree : tree) (key : K) : option iterator :=
  isearch_gt_loop key rbtree [] [].

(** ** Traversals with a callback

    The callback works on a state [S] of its own and does not change the tree;
    [Some] is a non-NULL result, which ends the traversal. *)
Section Callback.
Context {S R : Type} (cb : A -> S -> option R * S).

Fixpoint rb_iter_recurse (t : tree) (s : S) : option R * S :=
  match t with
  | Leaf => (None, s)
  | Node _ l x _ r =>
      match rb_iter_recurse l s with
      | (Some ret, s) => (Some ret, s)
      | (None, s) =>
          match cb x s with
          | (Some ret, s) => (Some ret, s)
          | (None, s) => rb_iter_recurse r s
          end
      end
  end.

Fixpoint rb_iter_start (start : A) (t : tree) (s : S) : option (option R * S) :=
  match t with
  | Leaf => None
  | Node _ l x _ r =>
      let cmp := a_cmp start x in
      if cmp <? 0 then
        match rb_iter_start start l s with
        | None => None
        | Some (Some ret, s) => Some (Some ret, s)
        | Some (None, s) =>
            match cb x s with
            | (Some ret, s) => Some (Some ret, s)
            | (None, s) => Some (rb_iter_recurse r s)
            end
        end
      else if cmp >? 0 then rb_iter_start start r s
      else
        match cb x s with
        | (Some ret, s) => Some (Some ret, s)
        | (None, s) => Some (rb_iter_recurse r s)
        end
  end.

Definition rb_iter (rbtree : tree) (start : option A) (s : S) : option (option R * S) :=
  match start with
  | Some start => rb_iter_start start rbtree s
  | None => Some (rb_iter_recurse rbtree s)
  end.

Fixpoint rb_reverse_iter_recurse (t : tree) (s : S) : option R * S :=
  match t with
  | Leaf => (None, s)
  | Node _ l x _ r =>
      match rb_reverse_iter_recurse r s with
      | (Some ret, s) => (Some ret, s)
      | (None, s) =>
          match cb x s with
          | (Some ret, s) => (Some ret, s)
          | (None, s) => rb_reverse_iter_recurse l s
          end
      end
  end.

Fixpoint rb_reverse_iter_start (start : A) (t : tree) (s : S) : option (option R * S) :=
  match t with
  | Leaf => None
  | Node _ l x _ r =>
      let cmp := a_cmp start x in
      if cmp >? 0 then
        match rb_reverse_iter_start start r s with
        | None => None
        | Some (Some ret, s) => Some (Some ret, s)
        | Some (None, s) =>
            match cb x s with
            | (Some ret, s) => Some (Some ret, s)
            | (None, s) => Some (rb_reverse_iter_recurse l s)
            end
        end
      else if cmp <? 0 then rb_reverse_iter_start start l s
      else
        match cb x s with
        | (Some ret, s) => Some (Some ret, s)
        | (None, s) => Some (rb_reverse_iter_recurse l s)
        end
  end.

Definition rb_reverse_iter (rbtree : tree) (start : option A) (s : S) :
    option (option R * S) :=
  match start with
  | Some start => rb_reverse_iter_start start rbtree s
  | None => Some (rb_reverse_iter_recurse rbtree s)
  end.
End Callback.

(** ** Pre-order walk *)

Definition RB_WALK_LEFT : Z := Z.shiftl 1 0.
Definition RB_WALK_RIGHT : Z := Z.shiftl 1 1.

(** [path] from the last entry to the first; [root] is [path[0].node], which
    stays when [count] falls to 0. *)
Record walk := Walk { w_root : tree; w_path : list (tree * Z) }.

Definition rb_walk_init (rbtree : tree) : walk := Walk rbtree [].

(** The way up: the next node to visit and the entries below it. *)
Fixpoint walk_up (node : tree) (path : list (tree * Z)) : option (tree * list (tree * Z)) :=
  match path with
  | [] => None
  | (parent, dir) :: path' =>
      match rbtn_right_get parent with
      | None => None
      | Some r =>
          if negb (Z.land dir RB_WALK_RIGHT =? 0) && negb (is_null r) && negb (same_node r node)
          then Some (r, path)
          else walk_up parent path'
      end
  end.

(** Visits [node]: its entry and the children returned through the pointers. *)
Definition walk_visit (it : walk) (node : tree) (path : list (tree * Z)) :
    option (tree * tree * tree * walk) :=
  ASSERT (length path <? RB_MAX_TREE_HEIGHT)%nat;
  l ← rbtn_left_get node; r ← rbtn_right_get node;
  Some (node, l, r, Walk (w_root it) ((node, 0) :: path)).

Definition rb_walk_next (it : walk) (dir : Z) : option (tree * tree * tree * walk) :=
  match w_path it with
  | [] =>
      if is_null (w_root it) then Some (Leaf, Leaf, Leaf, it)
      else walk_visit it (w_root it) []
  | (node, _) :: path =>
      let path' := (node, dir) :: path in
      l ← rbtn_left_get node; r ← rbtn_right_get node;
      if negb (Z.land dir RB_WALK_LEFT =? 0) && negb (is_null l) then walk_visit it l path'
      else if negb (Z.land dir RB_WALK_RIGHT =? 0) && negb (is_null r) then
        walk_visit it r path'
      else
        match walk_up node path with
        | Some (node, path) => walk_visit it node path
        | None => Some (Leaf, Leaf, Leaf, Walk (w_root it) [])
        end
  end.
End Tree.
