(* ===== verification/RbCompact.v ===== *)
(** * The compact nodes of [include/small/rb.h]

    With [RB_COMPACT] the colour of a node is the low bit of its right pointer.
    The accessors are the bit operations of the code on 64-bit words;
    [rb_compact_refines] shows that on even addresses they are the accessors of
    the node with a field of its own for the colour, the node that [Rb] takes for
    its trees. *)
From S2P Require Import Prelude.

(** ** Definitions *)

(** The node with three fields. *)
Record rb_node := RbNode { nd_left : Z; nd_right : Z; nd_red : bool }.

Record rb_node_compact := RbNodeCompact { rbn_left : Z; rbn_right_red : Z }.

(** [(ssize_t)-2] as a 64-bit word. *)
Definition MINUS_2 : Z := u64 (-2).

Definition rbtn_left_get_compact (n : rb_node_compact) : Z := rbn_left n.
Definition rbtn_left_set_compact (n : rb_node_compact) (left : Z) : rb_node_compact :=
  RbNodeCompact left (rbn_right_red n).
Definition rbtn_right_get_compact (n : rb_node_compact) : Z :=
  Z.land (rbn_right_red n) MINUS_2.
Definition rbtn_right_set_compact (n : rb_node_compact) (right : Z) : rb_node_compact :=
  RbNodeCompact (rbn_left n) (Z.lor right (Z.land (rbn_right_red n) 1)).
Definition rbtn_red_get_compact (n : rb_node_compact) : bool :=
  negb (Z.land (rbn_right_red n) 1 =? 0).
Definition rbtn_color_set_compact (n : rb_node_compact) (red : bool) : rb_node_compact :=
  RbNodeCompact (rbn_left n) (Z.lor (Z.land (rbn_right_red n) MINUS_2) (Z.b2z red)).
Definition rbtn_red_set_compact (n : rb_node_compact) : rb_node_compact :=
  RbNodeCompact (rbn_left n) (Z.lor (rbn_right_red n) 1).
Definition rbtn_black_set_compact (n : rb_node_compact) : rb_node_compact :=
  RbNodeCompact (rbn_left n) (Z.land (rbn_right_red n) MINUS_2).

Definition rbt_node_new_compact (n : rb_node_compact) : rb_node_compact :=
  rbtn_red_set_compact (rbtn_right_set_compact (rbtn_left_set_compact n NULL) NULL).

(** ** The word as an even pointer and a bit *)

Definition word (q : Z) (b : bool) : Z := 2 * q + Z.b2z b.

Lemma word_bits f g (Hf : forall x y i, Z.testbit (f x y) i = g (Z.testbit x i) (Z.testbit y i))
    p b q c :
  f (word p b) (word q c) = word (f p q) (g b c).
Proof.
  apply Z.bits_inj'. intros i Hi. rewrite Hf. unfold word.
  destruct (decide (i = 0)) as [->|Hi0]; [by rewrite !Z.testbit_0_r|].
  replace i with (Z.succ (i - 1)) by lia. rewrite !Z.testbit_succ_r by lia. by rewrite Hf.
Qed.
Lemma land_word p b q c : Z.land (word p b) (word q c) = word (Z.land p q) (b && c).
Proof. apply (word_bits Z.land andb), Z.land_spec. Qed.
Lemma lor_word p b q c : Z.lor (word p b) (word q c) = word (Z.lor p q) (b || c).
Proof. apply (word_bits Z.lor orb), Z.lor_spec. Qed.

Lemma even_or_odd x : x = word (x / 2) (Z.odd x).
Proof. unfold word. rewrite (Z.div2_odd x) at 1. by rewrite Z.div2_div. Qed.

Lemma land_minus_2 q b : 0 <= q < 2 ^ 63 -> Z.land (word q b) MINUS_2 = word q false.
Proof.
  intros Hq. change MINUS_2 with (word (Z.ones 63) false).
  rewrite land_word, andb_false_r, Z.land_ones by lia. by rewrite Z.mod_small.
Qed.
Lemma land_1 q b : Z.land (word q b) 1 = word 0 b.
Proof. change 1 with (word 0 true). by rewrite land_word, Z.land_0_r, andb_true_r. Qed.
Lemma lor_low p b c : Z.lor (word p b) (word 0 c) = word p (b || c).
Proof. by rewrite lor_word, Z.lor_0_r. Qed.

(** ** Refinement *)

(** The node that a compact node stands for. *)
Definition node_of (n : rb_node_compact) : rb_node :=
  RbNode (rbtn_left_get_compact n) (rbtn_right_get_compact n) (rbtn_red_get_compact n).

Lemma node_of_word l q b :
  0 <= q < 2 ^ 63 -> node_of (RbNodeCompact l (word q b)) = RbNode l (word q false) b.
Proof.
  intros Hq. unfold node_of, rbtn_right_get_compact, rbtn_red_get_compact. simpl.
  rewrite land_minus_2, land_1 by done. f_equal. by destruct b.
Qed.

Lemma even_word p : in_u 64 p -> Z.even p = true -> exists q, 0 <= q < 2 ^ 63 /\ p = word q false.
Proof.
  intros [Hp1 Hp2] He. exists (p / 2). split; [Z.to_euclidean_division_equations; lia|].
  rewrite (even_or_odd p) at 1. by rewrite <- Z.negb_even, He.
Qed.

Lemma word_range q b : 0 <= q < 2 ^ 63 -> in_u 64 (word q b).
Proof. intros Hq. unfold in_u, word. destruct b; simpl; lia. Qed.

(** On even addresses the accessors of the compact node change the field they
    name and keep the others, the word stays a 64-bit word, and the node
    initialiser gives a red leaf whatever the node held before. *)
Theorem rb_compact_refines n p red :
  in_u 64 (rbn_right_red n) -> in_u 64 p -> Z.even p = true ->
  let f := node_of n in
  node_of (rbtn_left_set_compact n p) = RbNode p (nd_right f) (nd_red f) /\
  node_of (rbtn_right_set_compact n p) = RbNode (nd_left f) p (nd_red f) /\
  node_of (rbtn_color_set_compact n red) = RbNode (nd_left f) (nd_right f) red /\
  node_of (rbtn_red_set_compact n) = RbNode (nd_left f) (nd_right f) true /\
  node_of (rbtn_black_set_compact n) = RbNode (nd_left f) (nd_right f) false /\
  node_of (rbt_node_new_compact n) = RbNode NULL NULL true /\
  Forall (fun n => in_u 64 (rbn_right_red n))
    [rbtn_left_set_compact n p; rbtn_right_set_compact n p; rbtn_color_set_compact n red;
     rbtn_red_set_compact n; rbtn_black_set_compact n; rbt_node_new_compact n].
Proof.
  intros [Hn1 Hn2] Hp He f. destruct (even_word p Hp He) as (q & Hq & ->).
  destruct n as [l x]. simpl in Hn1, Hn2. subst f. rewrite (even_or_odd x).
  assert (Hx : 0 <= x / 2 < 2 ^ 63) by (Z.to_euclidean_division_equations; lia).
  generalize dependent (x / 2). generalize (Z.odd x). clear x Hn1 Hn2. intros b x Hx.
  unfold rbt_node_new_compact, rbtn_left_set_compact, rbtn_right_set_compact,
    rbtn_color_set_compact, rbtn_red_set_compact, rbtn_black_set_compact. cbn [rbn_left rbn_right_red].
  change NULL with (word 0 false). rewrite ?land_1, ?land_minus_2 by done.
  assert (E1 : 1 = word 0 true) by done. assert (E2 : forall c, Z.b2z c = word 0 c) by (by intros []).
  rewrite ?E1, ?E2, !lor_low, !node_of_word by lia. cbn [nd_left nd_right nd_red].
  rewrite !orb_true_r. split_and!; [done..|]. rewrite !Forall_cons. cbn [rbn_right_red].
  split_and!; try apply word_range; [lia..|constructor].
Qed.

Lemma rb_compact_refines_witness :
  let n := rbtn_right_set_compact (RbNodeCompact 64 4097) 8192 in
  rbn_right_red n = 8193 /\ node_of n = RbNode 64 8192 true.
Proof.
  destruct (rb_compact_refines (RbNodeCompact 64 4097) 8192 true) as (_ & H & _).
  - by vm_compute.
  - by vm_compute.
  - reflexivity.
  - split; [reflexivity|]. exact H.
Defined.
