(* ===== verification/RbUpdate.v ===== *)
(** * Red-black trees: insertion and removal

    Order, balance, augmentation and contents of the trees of [Rb], and that
    [rb_insert] and [rb_remove] keep them.  The loops over [path] are related to
    the recursive functions [ins] and [del], on which the proofs go by induction
    on the tree. *)
From Stdlib Require Import Sorted.
From S2P Require Import Prelude Rb.

#[global] Arguments Leaf {A B}.
#[global] Arguments Node {A B} _ _ _ _ _.

(** The comparison is a strict order on nodes: what the header asks of the
    comparison function of a tree. *)
Class StrictCmp {A} (a_cmp : A -> A -> Z) : Prop := {
  cmp_flip x y : a_cmp x y < 0 <-> 0 < a_cmp y x;
  cmp_trans x y z : a_cmp x y < 0 -> a_cmp y z < 0 -> a_cmp x z < 0;
}.

Section Update.
Context {A B : Type} `{!EqDecision A} (a_cmp : A -> A -> Z) `{!StrictCmp a_cmp}.
Variable a_aug : A -> option (A * B) -> option (A * B) -> B.

Local Abbreviation tree := (tree (A := A) (B := B)).
Local Abbreviation frame := (frame (A := A) (B := B)).
Local Abbreviation insert_outcome := (insert_outcome (A := A) (B := B)).
Local Abbreviation remove_outcome := (remove_outcome (A := A) (B := B)).
Implicit Types (t l r : tree).

Definition lt (x y : A) : Prop := a_cmp x y < 0.

(** ** Contents, order, balance, augmentation *)

Fixpoint elements t : list A :=
  match t with Leaf => [] | Node _ l x _ r => elements l ++ x :: elements r end.

Definition sorted t : Prop := StronglySorted lt (elements t).

(** [wf red n t]: left-leaning red-black tree of black height [n] whose root is
    red or not. *)
Fixpoint wf (c : bool) (n : nat) t : Prop :=
  match t with
  | Leaf => c = false /\ n = O
  | Node true l _ _ r => c = true /\ wf false n l /\ wf false n r
  | Node false l _ _ r =>
      c = false /\ exists m, n = S m /\ (wf true m l \/ wf false m l) /\ wf false m r
  end.

(** Every node has the data the callback computes from its children. *)
Fixpoint aug_ok t : Prop :=
  match t with
  | Leaf => True
  | Node _ l x b r => aug_ok l /\ aug_ok r /\ b = a_aug x (data l) (data r)
  end.

Fixpoint height t : nat :=
  match t with Leaf => O | Node _ l _ _ r => S (height l `max` height r) end.

(** A red node with a red left child, on the way up of an insertion. *)
Definition redred (n : nat) t : Prop :=
  match t with Node true l _ _ r => wf true n l /\ wf false n r | _ => False end.

Lemma lt_irrefl x : a_cmp x x = 0.
Proof. pose proof (cmp_flip x x). lia. Qed.

(** ** Insertion *)

Definition itree (o : insert_outcome) : tree := match o with IAgain t | IReturn t => t end.

(** An outcome passes an entry of the path. *)
Definition after_ins (f : frame) (o : insert_outcome) : option insert_outcome :=
  match o with
  | IAgain t => insert_fix a_aug f t
  | IReturn t => n ← child_set f t; n ← rbtn_augment a_aug n; Some (IReturn n)
  end.

Fixpoint ins (x : A) (new : tree) t : option insert_outcome :=
  match t with
  | Leaf => Some (IAgain new)
  | Node _ l y _ r =>
      let cmp := a_cmp x y in
      o ← (if cmp <? 0 then ins x new l else ins x new r);
      after_ins (Frame t cmp) o
  end.

Definition resume_ins (path : list frame) (o : insert_outcome) : option tree :=
  match o with
  | IAgain t => insert_unwind a_aug path t
  | IReturn t => rbtn_augment_propagate a_aug path t
  end.

Lemma resume_after_ins f path o :
  resume_ins (f :: path) o = (o' ← after_ins f o; resume_ins path o').
Proof.
  destruct o as [t|t]; simpl.
  - destruct (insert_fix a_aug f t) as [[]|]; done.
  - destruct (child_set f t) as [n|]; simpl; [|done].
    by destruct (rbtn_augment a_aug n).
Qed.

Lemma insert_loop x new t path :
  Forall (fun y => a_cmp x y <> 0) (elements t) ->
  (length path + height t < path_size)%nat ->
  (path' ← insert_wind a_cmp x t path; insert_unwind a_aug path' new) =
  (o ← ins x new t; resume_ins path o).
Proof.
  revert path. induction t as [|c l IHl y b r IHr]; intros path Hne Hh; [done|].
  simpl in Hne. apply Forall_app in Hne as [Hl [Hy Hr]%Forall_cons].
  cbn [insert_wind ins height] in *. rewrite (proj2 (Z.eqb_neq _ _) Hy). simpl negb. cbn iota.
  rewrite (proj2 (Nat.ltb_lt _ _)) by lia.
  destruct (a_cmp x y <? 0).
  - rewrite IHl; [|done|simpl; lia]. destruct (ins x new l); [|done]. cbn [mbind option_bind].
    apply resume_after_ins.
  - rewrite IHr; [|done|simpl; lia]. destruct (ins x new r); [|done]. cbn [mbind option_bind].
    apply resume_after_ins.
Qed.

(** What the subtree becomes: [c], [n] describe the old one. *)
Definition ins_post (c : bool) (n : nat) (o : insert_outcome) : Prop :=
  match o with
  | IReturn t => wf c n t
  | IAgain t => if c then redred n t else wf true n t \/ (wf false n t /\ t <> Leaf)
  end.

(** [o] holds a good tree with elements [e]. *)
Definition holds t (e : list A) : Prop := elements t = e /\ aug_ok t.

Ltac dwf := repeat match goal with
  | H : wf true _ ?t |- _ => is_var t; destruct t as [|[] ? ? ? ?]; simpl in H
  | H : _ /\ _ |- _ => destruct H
  | H : exists _, _ |- _ => destruct H
  | H : true = false |- _ => discriminate H
  | H : false = true |- _ => discriminate H
  end; simplify_eq/=.

Lemma wf_black n t : wf false n t -> red_nn t = false.
Proof. by destruct t as [|[] ? ? ? ?]; simpl; [|intros [? _]|]. Qed.

Lemma wf_color c n t : wf c n t -> red_nn t = c.
Proof. destruct t as [|[] ? ? ? ?]; simpl; by intros [-> _]. Qed.

Lemma wf_black_node c n c' l x b r :
  wf c n (Node c' l x b r) -> c = c' /\ if c then wf false n l /\ wf false n r
  else exists m, n = S m /\ (wf true m l \/ wf false m l) /\ wf false m r.
Proof. destruct c'; simpl; intros [-> ?]; done. Qed.

(** Balance of a concrete tree from that of its parts. *)
Ltac mkwf := simpl; repeat first
  [ assumption | reflexivity | discriminate | split
  | match goal with |- exists m, S ?k = S m /\ _ => exists k end
  | left; solve [mkwf] | right; solve [mkwf] ].

(** Contents and augmentation of concrete trees. *)
Ltac contents :=
  split; [subst; simpl; repeat (rewrite <- app_assoc; simpl); done
         |simpl in *; intuition congruence].

Lemma after_ins_left c n l y b r o e cmp :
  wf c n (Node c l y b r) -> aug_ok r -> cmp < 0 ->
  (forall cl m, wf cl m l -> ins_post cl m o) -> holds (itree o) e ->
  exists o', after_ins (Frame (Node c l y b r) cmp) o = Some o' /\
    ins_post c n o' /\ holds (itree o') (e ++ y :: elements r).
Proof.
  intros [_ Hwf]%wf_black_node Har Hc Hpost [Hel Hao].
  unfold after_ins, insert_fix, child_set. cbn [f_cmp f_node].
  rewrite (proj2 (Z.ltb_lt _ _) Hc). destruct o as [t|t]; simpl in *.
  - destruct c.
    + destruct Hwf as [Hl Hr].
      destruct (Hpost _ _ Hl) as [Ht|[Ht Hne]]; [dwf|].
      * rewrite (wf_black _ _ H0). eexists. split; [done|]. split; [done|contents].
      * destruct t as [|[] ? ? ? ?]; [done|by destruct Ht|]. eexists. split; [done|].
        split; [done|contents].
    + destruct Hwf as (m & -> & [Hl|Hl] & Hr); specialize (Hpost _ _ Hl); simpl in Hpost.
      * destruct t as [|[] tl ? ? tr]; [done| |done]. destruct Hpost as [Htl Htr].
        dwf. eexists. split; [done|]. split; [mkwf|contents].
      * destruct Hpost as [Ht|[Ht Hne]]; [dwf|].
        -- rewrite (wf_black _ _ H0). eexists. split; [done|]. split; [mkwf|contents].
        -- destruct t as [|[] ? ? ? ?]; [done|by destruct Ht|]. eexists. split; [done|].
           split; [mkwf|contents].
  - eexists. split; [done|]. split; [|contents]. destruct c; simpl.
    + destruct Hwf as [Hl Hr]. split_and!; [done| |done]. by apply Hpost.
    + destruct Hwf as (m & -> & [Hl|Hl] & Hr); specialize (Hpost _ _ Hl); mkwf.
Qed.

Lemma after_ins_right c n l y b r o e cmp :
  wf c n (Node c l y b r) -> aug_ok l -> 0 < cmp ->
  (forall cl m, wf cl m r -> ins_post cl m o) -> holds (itree o) e ->
  exists o', after_ins (Frame (Node c l y b r) cmp) o = Some o' /\
    ins_post c n o' /\ holds (itree o') (elements l ++ y :: e).
Proof.
  intros [_ Hwf]%wf_black_node Hal Hc Hpost [Hel Hao].
  unfold after_ins, insert_fix, child_set. cbn [f_cmp f_node].
  rewrite (proj2 (Z.ltb_ge cmp 0)) by lia. destruct o as [t|t]; simpl in *.
  - destruct c.
    + destruct Hwf as [Hl Hr].
      destruct (Hpost _ _ Hr) as [Ht|[Ht Hne]]; [dwf|].
      * rewrite (wf_black _ _ Hl). eexists. split; [done|]. split; [done|contents].
      * destruct t as [|[] ? ? ? ?]; [done|by destruct Ht|]. eexists. split; [done|].
        split; [done|contents].
    + destruct Hwf as (m & -> & Hl & Hr); specialize (Hpost _ _ Hr); simpl in Hpost.
      destruct Hpost as [Ht|[Ht Hne]]; [dwf|].
      * destruct Hl as [Hl|Hl].
        -- dwf. eexists. split; [done|]. split; [mkwf|contents].
        -- rewrite (wf_black _ _ Hl). eexists. split; [done|]. split; [mkwf|contents].
      * destruct t as [|[] ? ? ? ?]; [done|by destruct Ht|]. eexists. split; [done|].
        split; [mkwf|contents].
  - eexists. split; [done|]. split; [|contents]. destruct c; simpl.
    + destruct Hwf as [Hl Hr]. split_and!; [done|done|]. by apply Hpost.
    + destruct Hwf as (m & -> & Hl & Hr); specialize (Hpost _ _ Hr); mkwf.
Qed.

(** ** Sorted lists *)

Lemma sorted_app (e1 e2 : list A) :
  StronglySorted lt (e1 ++ e2) <-> StronglySorted lt e1 /\ StronglySorted lt e2 /\
    Forall (fun x => Forall (lt x) e2) e1.
Proof.
  induction e1 as [|x e1 IH]; simpl.
  - split; [intros; split_and!; [constructor|done|constructor]|tauto].
  - split.
    + intros [Hs Hx]%StronglySorted_inv. apply IH in Hs as (H1 & H2 & H3).
      apply Forall_app in Hx as [Hx1 Hx2]. split_and!; [by constructor|done|by constructor].
    + intros ([H1 Hx]%StronglySorted_inv & H2 & [Hx2 H3]%Forall_cons).
      constructor; [by apply IH|]. by apply Forall_app.
Qed.

Lemma sorted_mid (e1 e2 : list A) x :
  StronglySorted lt (e1 ++ x :: e2) ->
  StronglySorted lt e1 /\ StronglySorted lt e2 /\
  Forall (fun z => lt z x) e1 /\ Forall (lt x) e2 /\ StronglySorted lt (e1 ++ e2).
Proof.
  rewrite !sorted_app. intros (H1 & [H2 Hx]%StronglySorted_inv & H3). split_and!; try done.
  - eapply Forall_impl; [exact H3|]. by intros z [? _]%Forall_cons.
  - eapply Forall_impl; [exact H3|]. by intros z [_ ?]%Forall_cons.
Qed.

Lemma lt_all_trans x y e : lt x y -> Forall (lt y) e -> Forall (lt x) e.
Proof. intros Hxy He. eapply Forall_impl; [exact He|]. intros z. by apply cmp_trans. Qed.

Lemma gt_all_trans x y e : lt y x -> Forall (fun z => lt z y) e -> Forall (fun z => lt z x) e.
Proof. intros Hxy He. eapply Forall_impl; [exact He|]. intros z Hz. exact (cmp_trans _ _ _ Hz Hxy). Qed.

(** [e'] is [e] with [x] put in its place. *)
Definition inserted (x : A) (e e' : list A) : Prop :=
  exists e1 e2, e = e1 ++ e2 /\ e' = e1 ++ x :: e2 /\
    Forall (fun z => lt z x) e1 /\ Forall (lt x) e2.

Lemma inserted_sorted x e e' :
  StronglySorted lt e -> inserted x e e' -> StronglySorted lt e'.
Proof.
  intros Hs (e1 & e2 & -> & -> & H1 & H2). apply sorted_app in Hs as (S1 & S2 & S3).
  apply sorted_app. split_and!; [done|by constructor|].
  rewrite Forall_forall in *. intros z Hz. constructor; [by apply H1|by apply S3].
Qed.

(** ** The insertion of a node *)

Lemma ins_spec x new t c n :
  holds new [x] -> wf true 0 new ->
  wf c n t -> aug_ok t -> sorted t -> Forall (fun y => a_cmp x y <> 0) (elements t) ->
  exists o, ins x new t = Some o /\ ins_post c n o /\ aug_ok (itree o) /\
    inserted x (elements t) (elements (itree o)).
Proof.
  intros [Hne Hna] Hnw. revert c n. induction t as [|ct l IHl y b r IHr]; intros c n Hwf Ha Hs Hf.
  - exists (IAgain new). destruct Hwf as [-> ->]. split; [done|]. split; [by left|].
    split; [done|]. exists [], []. cbn [itree]. by rewrite Hne.
  - destruct (wf_black_node _ _ _ _ _ _ _ Hwf) as [-> Hw].
    simpl in Hf. apply Forall_app in Hf as [Hfl [Hy Hfr]%Forall_cons].
    destruct (sorted_mid _ _ _ Hs) as (Sl & Sr & Hly & Hyr & _). destruct Ha as (Hal & Har & Hb).
    assert (Hwl : exists cl m, wf cl m l).
    { destruct ct; [destruct Hw as [? _]|destruct Hw as (m & _ & [?|?] & _)]; eauto. }
    assert (Hwr : exists m, wf false m r).
    { destruct ct; [destruct Hw as [_ ?]|destruct Hw as (m & _ & _ & ?)]; eauto. }
    simpl. destruct (Z.ltb_spec (a_cmp x y) 0) as [Hc|Hc].
    + destruct Hwl as (cl & m & Hl).
      destruct (IHl cl m Hl Hal Sl Hfl) as (o & Eo & _ & Hao & e1 & e2 & E1 & E2 & H1 & H2).
      assert (Hpost : forall cl m, wf cl m l -> ins_post cl m o).
      { intros cl' m' Hl'. by destruct (IHl cl' m' Hl' Hal Sl Hfl) as (o' & ? & ? & _); simplify_eq. }
      rewrite Eo. simpl.
      destruct (after_ins_left ct n l y b r o _ (a_cmp x y) Hwf Har Hc Hpost (conj eq_refl Hao))
        as (o' & -> & Hp & Hel & Hao'). exists o'. split_and!; [done..|].
      exists e1, (e2 ++ y :: elements r). rewrite Hel, E1, E2, <- !(assoc_L (++)).
      split_and!; try done. apply Forall_app. split; [done|]. constructor; [done|].
      by eapply lt_all_trans.
    + destruct Hwr as (m & Hr). assert (Hc' : 0 < a_cmp x y) by lia.
      destruct (IHr false m Hr Har Sr Hfr) as (o & Eo & _ & Hao & e1 & e2 & E1 & E2 & H1 & H2).
      assert (Hpost : forall cl m, wf cl m r -> ins_post cl m o).
      { intros cl' m' Hr'. by destruct (IHr cl' m' Hr' Har Sr Hfr) as (o' & ? & ? & _); simplify_eq. }
      rewrite Eo. simpl.
      destruct (after_ins_right ct n l y b r o _ (a_cmp x y) Hwf Hal Hc' Hpost (conj eq_refl Hao))
        as (o' & -> & Hp & Hel & Hao'). exists o'. split_and!; [done..|].
      exists (elements l ++ y :: e1), e2. rewrite Hel, E1, E2, <- !(assoc_L (++)).
      split_and!; try done. apply cmp_flip in Hc'.
      apply Forall_app. split; [by eapply gt_all_trans|by constructor].
Qed.

(** ** Height *)

Lemma wf_height c n t : wf c n t -> (height t <= 2 * n + if c then 1 else 0)%nat.
Proof.
  revert c n. induction t as [|[] l IHl x b r IHr]; intros c n; simpl.
  - lia.
  - intros (-> & Hl & Hr). apply IHl in Hl. apply IHr in Hr. lia.
  - intros (-> & m & -> & Hl & Hr). apply IHr in Hr.
    destruct Hl as [Hl|Hl]; apply IHl in Hl; lia.
Qed.

Lemma wf_size c n t : wf c n t -> 2 ^ Z.of_nat n <= Z.of_nat (length (elements t)) + 1.
Proof.
  revert c n. induction t as [|[] l IHl x b r IHr]; intros c n; simpl.
  - intros [-> ->]. simpl. lia.
  - intros (-> & Hl & Hr). apply IHl in Hl. apply IHr in Hr.
    rewrite length_app. simpl. lia.
  - intros (-> & m & -> & Hl & Hr). apply IHr in Hr. rewrite length_app. cbn [length].
    rewrite Nat2Z.inj_succ, Z.pow_succ_r by lia.
    destruct Hl as [Hl|Hl]; apply IHl in Hl; lia.
Qed.

(** A tree of fewer nodes than half the addresses fits the path. *)
Lemma wf_path n t :
  wf false n t -> Z.of_nat (length (elements t)) < 2 ^ 63 -> (height t < path_size)%nat.
Proof.
  intros Hw Hs. pose proof (wf_height _ _ _ Hw) as Hh. pose proof (wf_size _ _ _ Hw) as Hsz.
  assert (Hlt : 2 ^ Z.of_nat n < 2 ^ 64) by (change (2 ^ 64) with (2 * 2 ^ 63); lia).
  apply Z.pow_lt_mono_r_iff in Hlt; [|lia..]. unfold path_size. cbn iota in Hh. lia.
Qed.

(** The invariant of a tree between operations. *)
Record valid t : Prop := {
  valid_sorted : sorted t;
  valid_wf : exists n, wf false n t;
  valid_aug : aug_ok t;
  valid_size : Z.of_nat (length (elements t)) < 2 ^ 63;
}.

Lemma black_set_wf c n t : t <> Leaf -> wf c n t -> exists t' m, rbtn_black_set t = Some t' /\
  wf false m t' /\ elements t' = elements t /\ (aug_ok t -> aug_ok t').
Proof.
  intros Hne Hw. destruct t as [|[] l x b r]; [done| |]; simpl in *.
  - destruct Hw as (_ & Hl & Hr). eexists _, (S n). split; [done|]. simpl. eauto 10.
  - destruct Hw as (_ & m & -> & Hl & Hr). eexists _, (S m). split; [done|]. simpl. eauto 10.
Qed.

Lemma insert_valid t x b :
  valid t -> Forall (fun y => a_cmp x y <> 0) (elements t) ->
  Z.of_nat (length (elements t)) + 1 < 2 ^ 63 ->
  exists t', rb_insert a_cmp a_aug t x b = Some t' /\ valid t' /\
    inserted x (elements t) (elements t').
Proof.
  intros [Hs [n Hw] Ha Hz] Hf Hz'. unfold rb_insert. simpl.
  set (new := Node true Leaf x _ Leaf : tree).
  destruct (ins_spec x new t false n) as (o & Ho & Hp & Hao & Hi); [done..|].
  rewrite insert_loop; [|done|by eapply wf_path]. rewrite Ho. simpl.
  assert (Hlen : Z.of_nat (length (elements (itree o))) = Z.of_nat (length (elements t)) + 1).
  { destruct Hi as (e1 & e2 & -> & -> & _). rewrite !length_app. simpl. lia. }
  destruct o as [t'|t']; simpl in *.
  - assert (exists c, wf c n t') as [c Hc] by (destruct Hp as [?|[? _]]; eauto).
    assert (t' <> Leaf) by (intros ->; simpl in *; lia).
    destruct (black_set_wf c n t') as (t'' & m & -> & Hw'' & He & Haa); [done..|].
    exists t''. rewrite He. split; [done|]. split; [|done]. split; unfold sorted; rewrite ?He.
    + by eapply inserted_sorted. + by eexists. + by apply Haa. + lia.
  - exists t'. split; [done|]. split; [|done]. split; [|by eexists|done|lia].
    by eapply inserted_sorted.
Qed.

(** ** Removal *)

(** What happens to a subtree: its red leaf root is pruned, or an outcome of the
    unwinding. *)
Inductive del_outcome := Prune | Out (o : remove_outcome).

Definition dtree (d : del_outcome) : tree :=
  match d with Prune => Leaf | Out (RAgain t) | Out (RInner t) | Out (RReturn t) => t end.

Definition after_del (f : frame) (d : del_outcome) : option del_outcome :=
  match d with
  | Prune =>
      ASSERT f_cmp f <? 0;
      n ← child_set f Leaf; n ← rbtn_augment a_aug n; Some (Out (RReturn n))
  | Out (RAgain t) => Out <$> remove_fix a_aug f t
  | Out (RInner t) | Out (RReturn t) =>
      n ← child_set f t; n ← rbtn_augment a_aug n; Some (Out (RReturn n))
  end.

Definition resume_del (path : list frame) (d : del_outcome) : option tree :=
  match d with
  | Prune =>
      match path with
      | [] => None
      | f :: _ => ASSERT f_cmp f <? 0; rbtn_augment_propagate a_aug path Leaf
      end
  | Out (RAgain t) => remove_unwind a_aug path t
  | Out (RInner t) =>
      ASSERT negb (length path =? 0)%nat; rbtn_augment_propagate a_aug path t
  | Out (RReturn t) => rbtn_augment_propagate a_aug path t
  end.

Lemma resume_after_del f path d :
  resume_del (f :: path) d = (d' ← after_del f d; resume_del path d').
Proof.
  destruct d as [|[t|t|t]]; simpl.
  - destruct (f_cmp f <? 0); [|done]. destruct (child_set f Leaf) as [n|]; [|done]. simpl.
    by destruct (rbtn_augment a_aug n).
  - destruct (remove_fix a_aug f t) as [[]|]; done.
  - destruct (child_set f t) as [n|]; [|done]. simpl. by destruct (rbtn_augment a_aug n).
  - destruct (child_set f t) as [n|]; [|done]. simpl. by destruct (rbtn_augment a_aug n).
Qed.

(** The node [t] is pruned. *)
Definition prune t : option del_outcome :=
  red ← rbtn_red_get t; Some (if red : bool then Prune else Out (RAgain Leaf)).

Lemma remove_prune_resume path t :
  remove_prune a_aug path t = (d ← prune t; resume_del path d).
Proof. unfold remove_prune, prune. by destruct t as [|[] ? ? ? ?]. Qed.

(** The leftmost node goes. *)
Fixpoint dmin t : option del_outcome :=
  match t with
  | Leaf => None
  | Node _ l _ _ _ =>
      if is_null l then prune t else d ← dmin l; after_del (Frame t (-1)) d
  end.

Lemma successor_loop t :
  t <> Leaf ->
  exists below,
    (forall above path, (above + length path + height t < path_size)%nat ->
       successor_wind above t path = Some (Frame (rbtn_first t) (-1) :: below ++ path)) /\
    (forall rest n, rbtn_red_get n = rbtn_red_get (rbtn_first t) ->
       remove_prune a_aug (below ++ rest) n = (d ← dmin t; resume_del rest d)).
Proof.
  induction t as [|c l IHl x b r _]; [done|]. intros _. destruct (is_null l) eqn:El.
  - destruct l; [|done]. exists []. split.
    + intros above path Hh. simpl in *. by rewrite (proj2 (Nat.ltb_lt _ _)) by lia.
    + intros rest n Hn. rewrite remove_prune_resume. unfold prune. by rewrite Hn.
  - destruct IHl as (below & H1 & H2); [by intros ->|].
    assert (Hf : rbtn_first (Node c l x b r) = rbtn_first l) by by destruct l.
    rewrite Hf. exists (below ++ [Frame (Node c l x b r) (-1)]). split.
    + intros above path Hh. cbn [successor_wind height] in *.
      rewrite (proj2 (Nat.ltb_lt _ _)) by lia. rewrite H1 by (simpl; lia).
      by rewrite <- (assoc_L (++)).
    + intros rest n Hn. rewrite <- (assoc_L (++)). cbn [app]. rewrite H2 by done.
      cbn [dmin]. rewrite El. destruct (dmin l); [|done].
      cbn [mbind option_bind]. apply resume_after_del.
Qed.

(** The node [n] is the one to remove. *)
Definition found (x : A) (n : tree) : option del_outcome :=
  match n with
  | Leaf => None
  | Node c l y b r =>
      ASSERT bool_decide (Some y = Some x);
      if negb (is_null r) then
        '(s, _) ← remove_swap n (rbtn_first r);
        d ← dmin r; after_del (Frame s 1) d
      else if negb (is_null l) then
        ASSERT negb c;
        lr ← rbtn_red_get l;
        ASSERT lr : bool;
        l ← rbtn_black_set l; Some (Out (RReturn l))
      else prune n
  end.

Fixpoint del (x : A) t : option del_outcome :=
  match t with
  | Leaf => None
  | Node _ l y _ r =>
      let cmp := a_cmp x y in
      if cmp <? 0 then d ← del x l; after_del (Frame t cmp) d
      else if cmp =? 0 then found x t
      else d ← del x r; after_del (Frame t cmp) d
  end.

(** The part of [rb_remove] after the wind. *)
Definition remove_at (x : A) (above : list frame) (n : tree) : option tree :=
  right ← rbtn_right_get n;
  below ← successor_wind (S (length above)) right [];
  ASSERT bool_decide (fst <$> data n = Some x);
  match below with
  | f :: below =>
      '(s, n) ← remove_swap n (f_node f);
      remove_prune a_aug (below ++ Frame s 1 :: above) n
  | [] =>
      left ← rbtn_left_get n;
      if negb (is_null left) then
        red ← rbtn_red_get n;
        ASSERT negb (red : bool);
        leftred ← rbtn_red_get left;
        ASSERT leftred : bool;
        left ← rbtn_black_set left;
        rbtn_augment_propagate a_aug above left
      else if (length above =? 0)%nat then Some Leaf
      else remove_prune a_aug above n
  end.

Lemma remove_at_found x above n :
  (length above + height n < path_size)%nat -> above <> [] \/ elements n <> [x] ->
  remove_at x above n = (d ← found x n; resume_del above d).
Proof.
  intros Hh Hne. destruct n as [|c l y b r]; [done|]. unfold remove_at, found.
  cbn [rbtn_right_get mbind option_bind data fmap option_fmap option_map fst height] in *.
  destruct (is_null r) eqn:Er; cbn [negb].
  - destruct r; [|done]. cbn [successor_wind mbind option_bind].
    destruct (bool_decide_reflect (Some y = Some x)) as [[= ->]|]; [|done].
    cbn [rbtn_left_get mbind option_bind rbtn_red_get].
    destruct (is_null l) eqn:El; cbn [negb].
    + destruct l; [|done]. rewrite (proj2 (Nat.eqb_neq _ _)).
      * apply remove_prune_resume.
      * destruct above; [|done]. by destruct Hne.
    + destruct c; [done|]. cbn [negb]. by destruct l as [|[] ? ? ? ?].
  - destruct (successor_loop r) as (below & H1 & H2); [by intros ->|].
    rewrite H1 by (simpl; lia). cbn [mbind option_bind].
    destruct (bool_decide_reflect (Some y = Some x)) as [[= ->]|]; [|done].
    rewrite app_nil_r. cbn [f_node].
    destruct (rbtn_first r) as [|cs sl s bs sr] eqn:Es; [done|]. unfold remove_swap.
    cbn [mbind option_bind rbtn_red_get rbtn_color_set rbtn_left_get rbtn_left_set rbtn_right_get
      rbtn_right_set]. rewrite H2 by done.
    destruct (dmin r); [|done]. cbn [mbind option_bind]. apply resume_after_del.
Qed.

Lemma remove_loop x t path :
  (length path + height t < path_size)%nat -> path <> [] \/ elements t <> [x] ->
  ('(above, n) ← remove_wind a_cmp x t path; remove_at x above n) =
  (d ← del x t; resume_del path d).
Proof.
  revert path. induction t as [|c l IHl y b r IHr]; intros path Hh Hne; [done|].
  cbn [remove_wind del]. rewrite (proj2 (Nat.ltb_lt _ _)) by (simpl in Hh; lia).
  destruct (a_cmp x y <? 0); [|destruct (a_cmp x y =? 0)].
  - rewrite IHl; [|simpl in *; lia|by left]. destruct (del x l); [|done].
    cbn [mbind option_bind]. apply resume_after_del.
  - cbn [mbind option_bind]. by apply remove_at_found.
  - rewrite IHr; [|simpl in *; lia|by left]. destruct (del x r); [|done].
    cbn [mbind option_bind]. apply resume_after_del.
Qed.

(** What the subtree becomes: [c], [n] describe the old one. *)
Definition del_post (c : bool) (n : nat) (d : del_outcome) : Prop :=
  match d with
  | Prune => c = true /\ n = O
  | Out (RAgain t) => c = false /\ exists m, n = S m /\ wf false m t
  | Out (RInner t) => c = true /\ (wf true n t \/ wf false n t)
  | Out (RReturn t) => if c then wf true n t \/ wf false n t else wf false n t
  end.

(** [t] is a black node, as its height says. *)
Ltac dblack t H H1 H2 := destruct t as [|[] ? ? ? ?];
  [by destruct H|by destruct H|destruct H as (_ & ? & [= <-] & H1 & H2)].
Ltac finish := eexists; split; [done|]; split; [mkwf|contents].

Lemma fix_left_spec (c : bool) m y b l r t :
  wf false m t -> wf false (S m) r -> aug_ok r -> aug_ok t ->
  exists o, remove_fix_left a_aug (Node c l y b r) t = Some o /\
    del_post c (if c then S m else S (S m)) (Out o) /\
    holds (dtree (Out o)) (elements t ++ y :: elements r).
Proof.
  intros Ht Hr Har Hat. dblack r Hr Hrl Hrr. unfold remove_fix_left. simpl in Har.
  destruct Hrl as [Hrl|Hrl]; [dwf; destruct c; simpl; finish|].
  cbn -[del_post]. rewrite (wf_black _ _ Hrl). destruct c; simpl; finish.
Qed.

Lemma fix_right_spec (c : bool) m y b l r t :
  (if c then wf false (S m) l else wf true (S m) l \/ wf false (S m) l) ->
  wf false m t -> aug_ok l -> aug_ok t ->
  exists o, remove_fix_right a_aug (Node c l y b r) t = Some o /\
    del_post c (if c then S m else S (S m)) (Out o) /\
    holds (dtree (Out o)) (elements l ++ y :: elements t).
Proof.
  intros Hl Ht Hal Hat. unfold remove_fix_right.
  assert (Hblack : wf false (S m) l -> exists o,
    remove_fix_right a_aug (Node c l y b r) t = Some o /\
    del_post c (if c then S m else S (S m)) (Out o) /\
    holds (dtree (Out o)) (elements l ++ y :: elements t)).
  { clear Hl. intros Hl. dblack l Hl Hll Hlr. unfold remove_fix_right. simpl in Hal.
    destruct Hll as [Hll|Hll]; [dwf; destruct c; simpl; finish|].
    cbn -[del_post]. rewrite (wf_black _ _ Hll). destruct c; simpl; finish. }
  destruct c; [by apply Hblack|]. destruct Hl as [Hl|Hl]; [|by apply Hblack]. clear Hblack.
  destruct l as [|[] ll z bz lr]; [by destruct Hl| |by destruct Hl].
  destruct Hl as (_ & Hll & Hlr). dblack lr Hlr Hlrl Hlrr. simpl in Hal.
  unfold remove_fix_right_red.
  destruct Hlrl as [Hlrl|Hlrl]; [dwf; simpl; finish|].
  cbn -[del_post]. rewrite (wf_black _ _ Hlrl). simpl. finish.
Qed.

Lemma after_del_left c n l y b r d e cmp :
  wf c n (Node c l y b r) -> aug_ok r -> cmp < 0 ->
  (forall cl m, wf cl m l -> del_post cl m d) -> holds (dtree d) e ->
  exists d', after_del (Frame (Node c l y b r) cmp) d = Some d' /\
    del_post c n d' /\ holds (dtree d') (e ++ y :: elements r).
Proof.
  intros [_ Hwf]%wf_black_node Har Hc Hpost [Hel Hao].
  assert (Hput : forall t, dtree d = t -> (forall cl m, wf cl m l -> wf cl m t \/ wf false m t) ->
    exists d', (n ← child_set (Frame (Node c l y b r) cmp) t;
      n ← rbtn_augment a_aug n; Some (Out (RReturn n))) = Some d' /\ del_post c n d' /\
      holds (dtree d') (e ++ y :: elements r)).
  { intros t <- Hk. unfold child_set. cbn [f_cmp f_node]. rewrite (proj2 (Z.ltb_lt _ _) Hc).
    eexists. split; [done|]. split; [|contents]. simpl. destruct c.
    - destruct Hwf as [Hl Hr]. left. split_and!; [done| |done]. by destruct (Hk _ _ Hl).
    - destruct Hwf as (m & -> & Hl & Hr). split; [done|]. exists m.
      split_and!; [done| |done]. destruct Hl as [Hl|Hl]; destruct (Hk _ _ Hl); eauto. }
  unfold after_del. cbn [f_cmp]. rewrite (proj2 (Z.ltb_lt _ _) Hc).
  destruct d as [|[t|t|t]].
  - apply Hput; [done|]. intros cl m Hl. destruct (Hpost _ _ Hl) as [-> ->]. by right.
  - unfold remove_fix. cbn [f_cmp f_node]. rewrite (proj2 (Z.eqb_neq cmp 0)) by lia.
    cbn [negb]. rewrite (proj2 (Z.ltb_lt _ _) Hc). simpl in Hel, Hao. subst e.
    assert (exists k, wf false k t /\ wf false (S k) r /\ n = if c then S k else S (S k)) as
      (k & Ht & Hr & ->).
    { destruct c; [destruct Hwf as (Hl & Hr)|destruct Hwf as (m & -> & [Hl|Hl] & Hr)];
        destruct (Hpost _ _ Hl) as (? & k & -> & ?); try done; by exists k. }
    destruct (fix_left_spec c k y b l r t) as (o & -> & Hp & Hh); [done..|]. by exists (Out o).
  - apply Hput; [done|]. intros cl m Hl. destruct (Hpost _ _ Hl) as [-> ?]. tauto.
  - apply Hput; [done|]. intros cl m Hl. specialize (Hpost _ _ Hl). destruct cl; tauto.
Qed.

Lemma after_del_right c n l y b r d e cmp :
  wf c n (Node c l y b r) -> aug_ok l -> 0 < cmp ->
  (forall m, wf false m r -> del_post false m d) -> holds (dtree d) e ->
  exists d', after_del (Frame (Node c l y b r) cmp) d = Some d' /\
    del_post c n d' /\ holds (dtree d') (elements l ++ y :: e).
Proof.
  intros [_ Hwf]%wf_black_node Hal Hc Hpost [Hel Hao].
  assert (Hr : exists m, wf false m r /\ (if c then n = m /\ wf false m l
      else n = S m /\ (wf true m l \/ wf false m l))).
  { destruct c; [destruct Hwf as [? ?]|destruct Hwf as (m & -> & ? & ?)]; eauto. }
  destruct Hr as (m & Hr & Hl). specialize (Hpost _ Hr).
  unfold after_del. cbn [f_cmp].
  destruct d as [|[t|t|t]]; simpl in Hpost.
  - by destruct Hpost.
  - unfold remove_fix. cbn [f_cmp f_node]. rewrite (proj2 (Z.eqb_neq cmp 0)) by lia.
    cbn [negb]. rewrite (proj2 (Z.ltb_ge cmp 0)) by lia. simpl in Hel, Hao. subst e.
    destruct Hpost as (_ & k & -> & Ht).
    destruct (fix_right_spec c k y b l r t) as (o & -> & Hp & Hh); [|done..|].
    { destruct c; tauto. }
    exists (Out o). split; [done|]. split; [|done]. by destruct c; destruct Hl as [-> _].
  - by destruct Hpost.
  - unfold child_set. cbn [f_cmp f_node]. rewrite (proj2 (Z.ltb_ge cmp 0)) by lia.
    simpl in Hel, Hao. eexists. split; [done|]. split; [|contents].
    destruct c; destruct Hl as [-> Hl]; mkwf.
Qed.

Lemma wf0_leaf t : wf false 0 t -> t = Leaf.
Proof. destruct t as [|[] ? ? ? ?]; [done|by intros [? _]|by intros (_ & ? & ? & _)]. Qed.

Lemma leaf_wf0 c n : wf c n (Leaf : tree) -> c = false /\ n = O.
Proof. done. Qed.

(** A node without a left child has no right child. *)
Lemma wf_left_leaf c n x b r : wf c n (Node c Leaf x b r) ->
  r = Leaf /\ n = if c then O else 1%nat.
Proof.
  intros [_ Hw]%wf_black_node. destruct c.
  - destruct Hw as [[_ ->] Hr]. by apply wf0_leaf in Hr.
  - destruct Hw as (m & -> & Hl & Hr). assert (m = O) as -> by by destruct Hl as [[? ?]|[_ ?]].
    by apply wf0_leaf in Hr.
Qed.

Lemma prune_spec c n x b : wf c n (Node c Leaf x b Leaf) ->
  exists d, prune (Node c Leaf x b Leaf) = Some d /\ del_post c n d /\ dtree d = Leaf.
Proof.
  intros [_ ->]%wf_left_leaf. unfold prune. simpl. eexists. split; [done|].
  destruct c; simpl; split; eauto 10.
Qed.

(** ** The removal of a node *)

Lemma node_children c n l x b r : wf c n (Node c l x b r) ->
  (exists cl m, wf cl m l) /\ exists m, wf false m r.
Proof.
  intros [_ Hw]%wf_black_node.
  destruct c; [destruct Hw as [? ?]|destruct Hw as (m & _ & [?|?] & ?)]; eauto.
Qed.

Lemma dmin_spec t c n :
  wf c n t -> aug_ok t -> t <> Leaf ->
  exists d s, dmin t = Some d /\ del_post c n d /\ aug_ok (dtree d) /\
    fst <$> data (rbtn_first t) = Some s /\ elements t = s :: elements (dtree d).
Proof.
  revert c n. induction t as [|ct l IHl y b r _]; intros c n Hwf Ha Hne; [done|].
  destruct (wf_black_node _ _ _ _ _ _ _ Hwf) as [-> _]. destruct Ha as (Hal & Har & _).
  cbn [dmin]. destruct (is_null l) eqn:El.
  - destruct l; [|done]. destruct (wf_left_leaf _ _ _ _ _ Hwf) as [-> _].
    destruct (prune_spec ct n y b Hwf) as (d & -> & Hp & Hd). exists d, y.
    rewrite Hd. by split_and!.
  - assert (Hl : l <> Leaf) by by intros ->.
    destruct (node_children _ _ _ _ _ _ Hwf) as [(cl & m & Hwl) _].
    destruct (IHl cl m Hwl Hal Hl) as (d & s & Ed & _ & Had & Es & Eel).
    assert (Hpost : forall cl m, wf cl m l -> del_post cl m d).
    { intros cl' m' Hl'. destruct (IHl cl' m' Hl' Hal Hl) as (d' & s' & ? & ? & _).
      by simplify_eq. }
    rewrite Ed. cbn [mbind option_bind].
    destruct (after_del_left ct n l y b r d _ (-1) Hwf Har ltac:(lia) Hpost (conj eq_refl Had))
      as (d' & -> & Hp & Hel & Had'). exists d', s. split_and!; [done..| |].
    + by destruct l.
    + rewrite Hel. simpl. by rewrite Eel.
Qed.

Lemma found_spec c n l x b r :
  wf c n (Node c l x b r) -> aug_ok l -> aug_ok r ->
  exists d, found x (Node c l x b r) = Some d /\ del_post c n d /\
    holds (dtree d) (elements l ++ elements r).
Proof.
  intros Hwf Hal Har. unfold found. rewrite bool_decide_true by done.
  destruct (is_null r) eqn:Er; cbn [negb].
  - destruct r; [|done]. destruct (wf_black_node _ _ _ _ _ _ _ Hwf) as [_ Hw].
    destruct (is_null l) eqn:El; cbn [negb].
    + destruct l; [|done]. destruct (prune_spec c n x b Hwf) as (d & -> & Hp & Hd).
      exists d. unfold holds. by rewrite Hd.
    + destruct c.
      { destruct Hw as [Hl [_ ->]]. by rewrite (wf0_leaf _ Hl) in El. }
      destruct Hw as (m & -> & Hl & [_ ->]). destruct Hl as [Hl|Hl].
      2:{ by rewrite (wf0_leaf _ Hl) in El. }
      destruct l as [|[] ll z bz lr]; [done| |by destruct Hl]. destruct Hl as (_ & H1 & H2).
      simpl. eexists. split; [done|]. split; [mkwf|]. rewrite app_nil_r. contents.
  - assert (Hr : r <> Leaf) by by intros ->.
    destruct (node_children _ _ _ _ _ _ Hwf) as [_ (m & Hwr)].
    destruct (dmin_spec r false m Hwr Har Hr) as (d & s & Ed & _ & Had & Es & Eel).
    assert (Hpost : forall m, wf false m r -> del_post false m d).
    { intros m' Hr'. destruct (dmin_spec r false m' Hr' Har Hr) as (d' & s' & ? & ? & _).
      by simplify_eq. }
    destruct (rbtn_first r) as [|cs sl s0 bs sr]; simplify_eq/=.
    rewrite Ed. cbn [mbind option_bind].
    destruct (after_del_right c n l s bs r d (elements (dtree d)) 1)
      as (d' & -> & Hp & Hh); [by destruct c|done|lia|done|done|].
    exists d'. rewrite Eel. done.
Qed.

Lemma sorted_side x e1 y e2 :
  StronglySorted lt (e1 ++ y :: e2) -> x ∈ e1 ++ y :: e2 ->
  (a_cmp x y < 0 -> x ∈ e1) /\ (a_cmp x y = 0 -> x = y) /\ (0 < a_cmp x y -> x ∈ e2).
Proof.
  intros (_ & _ & H1 & H2 & _)%sorted_mid Hx. rewrite Forall_forall in H1, H2.
  pose proof (lt_irrefl y) as Hirr.
  apply elem_of_app in Hx as [Hx|[->|Hx]%elem_of_cons].
  - specialize (H1 x Hx). unfold lt in H1. split_and!; [done|lia|lia].
  - split_and!; [lia|done|lia].
  - specialize (H2 x Hx). unfold lt in H2. apply cmp_flip in H2. split_and!; [lia|lia|done].
Qed.

(** [e'] is [e] without one [x]. *)
Definition removed (x : A) (e e' : list A) : Prop :=
  exists e1 e2, e = e1 ++ x :: e2 /\ e' = e1 ++ e2.

Lemma removed_sorted x e e' :
  StronglySorted lt e -> removed x e e' -> StronglySorted lt e'.
Proof. intros Hs (e1 & e2 & -> & ->). by apply sorted_mid in Hs as (_ & _ & _ & _ & ?). Qed.

Lemma del_spec x t c n :
  wf c n t -> aug_ok t -> sorted t -> x ∈ elements t ->
  exists d, del x t = Some d /\ del_post c n d /\ aug_ok (dtree d) /\
    removed x (elements t) (elements (dtree d)).
Proof.
  revert c n. induction t as [|ct l IHl y b r IHr]; intros c n Hwf Ha Hs Hx.
  { by apply elem_of_nil in Hx. }
  destruct (wf_black_node _ _ _ _ _ _ _ Hwf) as [-> _]. destruct Ha as (Hal & Har & _).
  destruct (sorted_mid _ _ _ Hs) as (Sl & Sr & _).
  destruct (sorted_side _ _ _ _ Hs Hx) as (X1 & X2 & X3).
  destruct (node_children _ _ _ _ _ _ Hwf) as [(cl & m & Hwl) (m' & Hwr)].
  cbn [del]. destruct (Z.ltb_spec (a_cmp x y) 0) as [Hc|Hc].
  - specialize (X1 Hc).
    destruct (IHl cl m Hwl Hal Sl X1) as (d & Ed & _ & Had & e1 & e2 & E1 & E2).
    assert (Hpost : forall cl m, wf cl m l -> del_post cl m d).
    { intros cl' k Hl'. destruct (IHl cl' k Hl' Hal Sl X1) as (d' & ? & ? & _).
      by simplify_eq. }
    rewrite Ed. cbn [mbind option_bind].
    destruct (after_del_left ct n l y b r d _ _ Hwf Har Hc Hpost (conj eq_refl Had))
      as (d' & -> & Hp & Hel & Had'). exists d'. split_and!; [done..|].
    exists e1, (e2 ++ y :: elements r). rewrite Hel. simpl. rewrite E1, E2.
    by rewrite <- !(assoc_L (++)).
  - destruct (Z.eqb_spec (a_cmp x y) 0) as [He|He].
    + specialize (X2 He) as <-. destruct (found_spec ct n l x b r Hwf Hal Har) as (d & -> & Hp & Hel & Had).
      exists d. split_and!; [done..|]. by exists (elements l), (elements r).
    + assert (Hc' : 0 < a_cmp x y) by lia. specialize (X3 Hc').
      destruct (IHr false m' Hwr Har Sr X3) as (d & Ed & _ & Had & e1 & e2 & E1 & E2).
      assert (Hpost : forall m, wf false m r -> del_post false m d).
      { intros k Hr'. destruct (IHr false k Hr' Har Sr X3) as (d' & ? & ? & _).
        by simplify_eq. }
      rewrite Ed. cbn [mbind option_bind].
      destruct (after_del_right ct n l y b r d _ _ Hwf Hal Hc' Hpost (conj eq_refl Had))
        as (d' & -> & Hp & Hel & Had'). exists d'. split_and!; [done..|].
      exists (elements l ++ y :: e1), e2. rewrite Hel. simpl. rewrite E1, E2.
      by rewrite <- !(assoc_L (++)).
Qed.

Lemma remove_single x b c : a_cmp x x = 0 ->
  rb_remove a_cmp a_aug (Node c Leaf x b Leaf) x = Some Leaf.
Proof.
  intros E. unfold rb_remove. cbn [remove_wind length]. rewrite E. simpl.
  by rewrite bool_decide_true.
Qed.

Lemma remove_valid t x :
  valid t -> x ∈ elements t ->
  exists t', rb_remove a_cmp a_aug t x = Some t' /\ valid t' /\
    removed x (elements t) (elements t').
Proof.
  intros [Hs [n Hw] Ha Hz] Hx. destruct (decide (elements t = [x])) as [E|E].
  - destruct t as [|c l y b r]; [done|]. simpl in E.
    destruct (elements l) as [|? [|? ?]] eqn:El; simplify_eq/=.
    destruct l as [|? l ? ? ?]; [|by simpl in El; destruct (elements l)].
    destruct r as [|? r ? ? ?]; [|by simpl in *; destruct (elements r)].
    rewrite remove_single by apply lt_irrefl. exists Leaf. split; [done|].
    split; [|by exists [], []]. split; [constructor|by exists O|done|done].
  - destruct (del_spec x t false n Hw Ha Hs Hx) as (d & Ed & Hp & Had & Hr).
    assert (Hloop : rb_remove a_cmp a_aug t x = resume_del [] d).
    { pose proof (remove_loop x t [] (wf_path _ _ Hw Hz) (or_intror E)) as Hl.
      rewrite Ed in Hl. cbn [mbind option_bind] in Hl. rewrite <- Hl.
      unfold rb_remove. by destruct (remove_wind a_cmp x t []) as [[]|]. }
    assert (Hv : forall m, wf false m (dtree d) -> valid (dtree d)).
    { intros m Hm. split; [by eapply removed_sorted|by eexists|done|].
      destruct Hr as (e1 & e2 & E1 & E2). rewrite E1 in Hz. rewrite E2.
      rewrite length_app in Hz |- *. simpl in Hz. lia. }
    rewrite Hloop. destruct d as [|[t'|t'|t']]; simpl in Hp.
    + by destruct Hp.
    + destruct Hp as (_ & m & -> & Hm). destruct t' as [|[] l' x' b' r']; [|by destruct Hm|].
      * exfalso. destruct Hr as (e1 & e2 & E1 & E2). simpl in E2.
        destruct e1; [|done]. destruct e2; [|done]. by apply E.
      * eexists. split; [done|]. split; [by apply (Hv m)|done].
    + by destruct Hp.
    + exists t'. split; [done|]. split; [by apply (Hv n)|done].
Qed.

(** A new tree is valid. *)
Lemma new_valid : valid rb_new.
Proof. split; [constructor|by exists O|done|done]. Qed.

(** ** Properties *)

(** C10. Inserting a node that compares different from every node of a valid tree
    terminates without a failed assertion or an access outside the path array,
    gives a valid tree (sorted, left-leaning red-black, black root, every
    augmented value up to date), and puts the node at its place among the
    others. *)
Theorem rb_insert_correct t x b :
  valid t -> Forall (fun y => a_cmp x y <> 0) (elements t) ->
  Z.of_nat (length (elements t)) + 1 < 2 ^ 63 ->
  exists t', rb_insert a_cmp a_aug t x b = Some t' /\ valid t' /\
    inserted x (elements t) (elements t').
Proof. apply insert_valid. Qed.

(** C11. Removing a node of a valid tree terminates without a failed assertion,
    NULL access or access outside the path array, gives a valid tree, and takes
    out that node and no other. *)
Theorem rb_remove_correct t x :
  valid t -> x ∈ elements t ->
  exists t', rb_remove a_cmp a_aug t x = Some t' /\ valid t' /\
    removed x (elements t) (elements t').
Proof. apply remove_valid. Qed.
End Update.

(** ** A concrete instance: integers, augmented with the size of the subtree *)

Definition cmp_int (x y : Z) : Z := x - y.

#[global] Instance cmp_int_strict : StrictCmp cmp_int.
Proof. split; unfold cmp_int; intros; lia. Qed.

Definition aug_size (x : Z) (l r : option (Z * Z)) : Z :=
  default 0 (snd <$> l) + 1 + default 0 (snd <$> r).

Definition example_tree : tree :=
  Node false (Node true (Node false Leaf 1 1 Leaf) 2 3 (Node false Leaf 3 1 Leaf)) 4 5
    (Node false Leaf 5 1 Leaf).

Lemma example_valid : valid cmp_int aug_size example_tree.
Proof.
  split.
  - repeat (constructor; [|repeat (constructor; [done|]); constructor]). constructor.
  - exists 2%nat. simpl. repeat first [done | split | eexists].
    + left. repeat first [done | split | eexists]; by right.
    + by right.
  - by repeat split.
  - done.
Qed.

Lemma rb_insert_correct_witness :
  valid cmp_int aug_size example_tree /\
  exists t', rb_insert cmp_int aug_size example_tree 6 0 = Some t' /\
    valid cmp_int aug_size t' /\ inserted cmp_int 6 [1; 2; 3; 4; 5] (elements t').
Proof.
  split; [apply example_valid|].
  apply (rb_insert_correct cmp_int aug_size example_tree 6 0);
    [apply example_valid|by repeat constructor|done].
Defined.

Lemma rb_remove_correct_witness :
  valid cmp_int aug_size example_tree /\
  exists t', rb_remove cmp_int aug_size example_tree 5 = Some t' /\
    valid cmp_int aug_size t' /\ removed 5 [1; 2; 3; 4; 5] (elements t').
Proof.
  split; [apply example_valid|].
  apply (rb_remove_correct cmp_int aug_size example_tree 5); [apply example_valid|].
  by apply (bool_decide_unpack _); vm_compute.
Defined.
