(* ===== verification/RbQuery.v ===== *)
(** * Red-black trees: lookup, iterators, traversals

    The functions of [Rb] that read a tree, related to the sorted list of its
    nodes.  The backward functions are the forward ones on the mirror image of
    the tree with the comparison reversed, which is how their properties are
    proved. *)
From Stdlib Require Import Sorted.
From S2P Require Import Prelude Rb RbUpdate.

(** A key comparison that agrees with the order of the nodes. *)
Class KeyCmp {A K} (a_cmp : A -> A -> Z) (a_cmp_key : K -> A -> Z) : Prop := {
  key_lt k x y : a_cmp x y < 0 -> a_cmp_key k x < 0 -> a_cmp_key k y < 0;
  key_gt k x y : a_cmp x y < 0 -> 0 < a_cmp_key k y -> 0 < a_cmp_key k x;
}.

Definition node_of {A B} (t : tree (A := A) (B := B)) : option A := fst <$> data t.

(** ** Lists backwards *)

Section Lists.
Context {A : Type}.

Lemma rev_reverse (e : list A) : rev e = reverse e.
Proof. unfold reverse. by rewrite rev_alt. Qed.

Lemma last_rev (e : list A) : last (rev e) = head e.
Proof. rewrite rev_reverse. apply last_reverse. Qed.
Lemma head_rev (e : list A) : head (rev e) = last e.
Proof. rewrite rev_reverse. apply head_reverse. Qed.

Lemma filter_rev (P : A -> Prop) `{!forall x, Decision (P x)} (e : list A) :
  filter P (rev e) = rev (filter P e).
Proof.
  induction e as [|x e IH]; [done|]. cbn [rev]. rewrite filter_app, IH, filter_cons.
  destruct (decide (P x)).
  - by rewrite filter_cons_True.
  - by rewrite filter_cons_False, filter_nil, app_nil_r.
Qed.

End Lists.

(** ** Mirror image *)

Section Mirror.
Context {A B K : Type} `{!EqDecision A}.
Implicit Types (t l r : tree (A := A) (B := B)).

Fixpoint mirror t : tree :=
  match t with Leaf => Leaf | Node c l x b r => Node c (mirror r) x b (mirror l) end.

Definition flip_cmp (a_cmp : A -> A -> Z) (x y : A) : Z := a_cmp y x.
Definition flip_key (a_cmp_key : K -> A -> Z) (k : K) (x : A) : Z := - a_cmp_key k x.

Lemma mirror_mirror t : mirror (mirror t) = t.
Proof. induction t; simpl; congruence. Qed.

Lemma mirror_elements t : elements (mirror t) = rev (elements t).
Proof.
  induction t as [|c l IHl x b r IHr]; simpl; [done|].
  rewrite rev_app_distr, IHl, IHr. simpl. by rewrite <- (assoc_L (++)).
Qed.

Lemma mirror_node t : node_of (mirror t) = node_of t.
Proof. by destruct t. Qed.

Lemma mirror_height t : height (mirror t) = height t.
Proof. induction t; simpl; lia. Qed.

Lemma mirror_null t : is_null (mirror t) = is_null t.
Proof. by destruct t. Qed.

Lemma mirror_last t : rbtn_last t = mirror (rbtn_first (mirror t)).
Proof.
  induction t as [|c l _ x b r IHr]; [done|]. destruct r as [|cr rl y br rr].
  - simpl. by rewrite mirror_mirror.
  - transitivity (rbtn_last (Node cr rl y br rr)); [done|]. rewrite IHr. done.
Qed.

Lemma flip_strict (a_cmp : A -> A -> Z) : StrictCmp a_cmp -> StrictCmp (flip_cmp a_cmp).
Proof.
  intros H. split; unfold flip_cmp.
  - intros x y. apply cmp_flip.
  - intros x y z H1 H2. exact (cmp_trans _ _ _ H2 H1).
Qed.

Lemma flip_key_cmp (a_cmp : A -> A -> Z) (a_cmp_key : K -> A -> Z) :
  KeyCmp a_cmp a_cmp_key -> KeyCmp (flip_cmp a_cmp) (flip_key a_cmp_key).
Proof.
  intros H. split; unfold flip_cmp, flip_key; intros k x y H1 H2.
  - pose proof (key_gt k y x H1). lia.
  - pose proof (key_lt k y x H1). lia.
Qed.

Lemma rev_sorted (a_cmp : A -> A -> Z) (e : list A) :
  StronglySorted (lt a_cmp) e -> StronglySorted (lt (flip_cmp a_cmp)) (rev e).
Proof.
  induction 1 as [|x e Hs IH Hx]; simpl; [constructor|].
  apply sorted_app. split_and!; [done|by repeat constructor|].
  rewrite Forall_forall in *. intros z Hz. constructor; [|done].
  apply Hx. apply list_elem_of_In, in_rev. by apply list_elem_of_In.
Qed.

Lemma mirror_sorted (a_cmp : A -> A -> Z) t :
  sorted a_cmp t -> sorted (flip_cmp a_cmp) (mirror t).
Proof. unfold sorted. rewrite mirror_elements. apply rev_sorted. Qed.
End Mirror.

(** ** Lookup by key *)

Section Lookup.
Context {A B K : Type} (a_cmp : A -> A -> Z) (a_cmp_key : K -> A -> Z).
Context `{!StrictCmp a_cmp} `{!KeyCmp a_cmp a_cmp_key}.
Implicit Types (t l r : tree (A := A) (B := B)).

(** The nodes below, at and above a key. *)
Definition below (k : K) (e : list A) : list A := filter (fun x => 0 < a_cmp_key k x) e.
Definition matching (k : K) (e : list A) : list A := filter (fun x => a_cmp_key k x = 0) e.
Definition above (k : K) (e : list A) : list A := filter (fun x => a_cmp_key k x < 0) e.

(** A node above the key has only such nodes after it, and so on. *)
Lemma node_split t c l x b r :
  t = Node c l x b r -> sorted a_cmp t ->
  sorted a_cmp l /\ sorted a_cmp r /\ forall k,
  (a_cmp_key k x < 0 -> forall y, y ∈ elements r -> a_cmp_key k y < 0) /\
  (0 < a_cmp_key k x -> forall y, y ∈ elements l -> 0 < a_cmp_key k y) /\
  (a_cmp_key k x <= 0 -> forall y, y ∈ elements r -> a_cmp_key k y <= 0) /\
  (0 <= a_cmp_key k x -> forall y, y ∈ elements l -> 0 <= a_cmp_key k y).
Proof.
  intros -> (Sl & Sr & Hl & Hr & _)%sorted_mid. split; [done|]. split; [done|]. intros k.
  rewrite Forall_forall in Hl, Hr. split_and!; intros Hx y Hy.
  - eapply key_lt; [by apply Hr|done].
  - eapply key_gt; [by apply Hl|done].
  - pose proof (key_gt k x y (Hr y Hy)). lia.
  - pose proof (key_lt k y x (Hl y Hy)). lia.
Qed.

Lemma search_spec t k : sorted a_cmp t ->
  match rb_search a_cmp_key t k with
  | Leaf => matching k (elements t) = []
  | Node _ _ x _ _ => x ∈ matching k (elements t)
  end.
Proof.
  unfold matching. induction t as [|c l IHl x b r IHr]; intros Hs; [done|].
  destruct (node_split _ _ _ _ _ _ eq_refl Hs) as (Sl & Sr & Hk). destruct (Hk k) as (K1 & K2 & _).
  cbn [rb_search elements]. rewrite filter_app.
  destruct (Z.eqb_spec (a_cmp_key k x) 0) as [E|E]; cbn [negb].
  - rewrite filter_cons_True by done. apply elem_of_app. right. left.
  - rewrite filter_cons_False by done. destruct (Z.ltb_spec (a_cmp_key k x) 0) as [H|H].
    + rewrite (filter_none _ (elements r)), app_nil_r; [by apply IHl|].
      intros y Hy. specialize (K1 H y Hy). lia.
    + rewrite (filter_none _ (elements l)); [by apply IHr|].
      intros y Hy. specialize (K2 ltac:(lia) y Hy). lia.
Qed.

(** [o] if there is one, [d] if not. *)
Definition or_else (o d : option A) : option A := match o with Some x => Some x | None => d end.

Lemma or_else_assoc o1 o2 o3 : or_else (or_else o1 o2) o3 = or_else o1 (or_else o2 o3).
Proof. by destruct o1. Qed.

Lemma last_app' (e1 e2 : list A) : last (e1 ++ e2) = or_else (last e2) (last e1).
Proof. rewrite last_app. by destruct (last e2). Qed.

Lemma head_app' (e1 e2 : list A) : head (e1 ++ e2) = or_else (head e1) (head e2).
Proof. by destruct e1. Qed.

Lemma nsearch_loop_spec t k ret next : sorted a_cmp t ->
  node_of (nsearch_loop a_cmp_key t k ret next) =
  or_else (last (matching k (elements t)))
    (or_else (node_of ret) (or_else (head (above k (elements t))) (node_of next))).
Proof.
  revert ret next. unfold matching, above.
  induction t as [|c l IHl x b r IHr]; intros ret next Hs.
  { simpl. by destruct ret. }
  destruct (node_split _ _ _ _ _ _ eq_refl Hs) as (Sl & Sr & Hk). destruct (Hk k) as (K1 & K2 & K3 & K4).
  cbn [nsearch_loop elements]. rewrite !filter_app.
  destruct (Z.ltb_spec (a_cmp_key k x) 0) as [H|H].
  - rewrite IHl by done. rewrite (filter_cons_False _ x), (filter_cons_True _ x) by lia.
    rewrite (filter_none (fun x => a_cmp_key k x = 0) (elements r)), app_nil_r.
    2:{ intros y Hy. specialize (K1 H y Hy). lia. }
    rewrite head_app'. cbn [head]. rewrite or_else_assoc. done.
  - rewrite Z.gtb_ltb. destruct (Z.ltb_spec 0 (a_cmp_key k x)) as [H'|H'].
    + rewrite IHr by done. rewrite !(filter_cons_False _ x) by lia.
      rewrite (filter_none (fun x => a_cmp_key k x = 0) (elements l)),
        (filter_none (fun x => a_cmp_key k x < 0) (elements l)); [done|..];
        intros y Hy; specialize (K2 H' y Hy); lia.
    + rewrite IHr by done. rewrite (filter_cons_True _ x), (filter_cons_False _ x) by lia.
      rewrite (filter_none (fun x => a_cmp_key k x < 0) (elements l)).
      2:{ intros y Hy. specialize (K4 ltac:(lia) y Hy). lia. }
      rewrite last_app', last_cons. destruct (last (filter _ (elements r))); done.
Qed.

Lemma nsearch_spec t k : sorted a_cmp t ->
  node_of (rb_nsearch a_cmp_key t k) =
  or_else (last (matching k (elements t))) (head (above k (elements t))).
Proof.
  intros Hs. unfold rb_nsearch. rewrite nsearch_loop_spec by done. simpl.
  by destruct (last _), (head _).
Qed.
End Lookup.

Section Backward.
Context {A B K : Type} (a_cmp : A -> A -> Z) (a_cmp_key : K -> A -> Z).
Context `{!StrictCmp a_cmp} `{!KeyCmp a_cmp a_cmp_key}.
Implicit Types (t l r : tree (A := A) (B := B)).

(** Below a key is above it backwards. *)
Lemma flip_above k (e : list A) : above (flip_key a_cmp_key) k e = below a_cmp_key k e.
Proof. apply list_filter_iff. intros x. unfold flip_key. lia. Qed.
Lemma flip_below k (e : list A) : below (flip_key a_cmp_key) k e = above a_cmp_key k e.
Proof. apply list_filter_iff. intros x. unfold flip_key. lia. Qed.
Lemma flip_matching k (e : list A) :
  matching (flip_key a_cmp_key) k e = matching a_cmp_key k e.
Proof. apply list_filter_iff. intros x. unfold flip_key. lia. Qed.

Lemma psearch_mirror t k ret prev :
  psearch_loop a_cmp_key t k ret prev =
  mirror (nsearch_loop (flip_key a_cmp_key) (mirror t) k (mirror ret) (mirror prev)).
Proof.
  revert ret prev. induction t as [|c l IHl x b r IHr]; intros ret prev.
  - simpl. rewrite mirror_null. by destruct (is_null ret); rewrite mirror_mirror.
  - cbn [psearch_loop mirror nsearch_loop]. unfold flip_key at 1 3.
    rewrite !Z.gtb_ltb.
    destruct (Z.ltb_spec (a_cmp_key k x) 0) as [H|H].
    + rewrite (proj2 (Z.ltb_ge _ _)), (proj2 (Z.ltb_lt _ _)) by lia. apply IHl.
    + destruct (Z.ltb_spec 0 (a_cmp_key k x)) as [H'|H'].
      * rewrite (proj2 (Z.ltb_lt _ _)) by lia. rewrite IHr. done.
      * rewrite !(proj2 (Z.ltb_ge _ _)) by lia. rewrite IHl. done.
Qed.

Lemma psearch_spec t k : sorted a_cmp t ->
  node_of (rb_psearch a_cmp_key t k) =
  or_else (head (matching a_cmp_key k (elements t))) (last (below a_cmp_key k (elements t))).
Proof.
  intros Hs. unfold rb_psearch. rewrite psearch_mirror. cbn [mirror].
  rewrite mirror_node.
  pose proof (@nsearch_spec A B K (flip_cmp a_cmp) (flip_key a_cmp_key)
    (flip_key_cmp _ _ _) (mirror t) k (mirror_sorted _ _ Hs)) as Hn.
  unfold rb_nsearch in Hn. rewrite Hn, mirror_elements, flip_above, flip_matching.
  unfold matching, below. by rewrite !filter_rev, last_rev, head_rev.
Qed.

End Backward.

Section Neighbours.
Context {A B : Type} (a_cmp : A -> A -> Z) `{!StrictCmp a_cmp}.
Implicit Types (t l r : tree (A := A) (B := B)).

Lemma first_spec t : node_of (rbtn_first t) = head (elements t).
Proof.
  induction t as [|c l IHl x b r _]; [done|]. destruct l as [|cl ll y bl lr]; [done|].
  transitivity (node_of (rbtn_first (Node cl ll y bl lr))); [done|]. rewrite IHl. simpl.
  by destruct (elements ll).
Qed.

Lemma last_spec t : node_of (rbtn_last t) = last (elements t).
Proof. by rewrite mirror_last, mirror_node, first_spec, mirror_elements, head_rev. Qed.

(** ** Successor and predecessor *)

(** [subtree n t]: the node [n] is in [t]. *)
Fixpoint subtree (n t : tree (A := A) (B := B)) : Prop :=
  match t with Leaf => False | Node _ l _ _ r => n = t \/ subtree n l \/ subtree n r end.

Lemma subtree_elem c l x b r t : subtree (Node c l x b r) t -> x ∈ elements t.
Proof.
  induction t as [|c' l' IHl y b' r' IHr]; simpl; [done|].
  intros [[= -> -> -> -> ->]|[H|H]]; set_solver.
Qed.

Lemma mirror_subtree n t : subtree n t -> subtree (mirror n) (mirror t).
Proof.
  induction t as [|c' l' IHl y b' r' IHr]; simpl; [done|].
  intros [->|[H|H]]; [by left|right; right; by apply IHl|right; left; by apply IHr].
Qed.

(** In a sorted tree the node is where the comparison leads. *)
Lemma subtree_side c l x b r c' l' y b' r' :
  sorted a_cmp (Node c' l' y b' r') -> subtree (Node c l x b r) (Node c' l' y b' r') ->
  (a_cmp x y < 0 -> subtree (Node c l x b r) l') /\
  (a_cmp x y = 0 -> Node c l x b r = Node c' l' y b' r') /\
  (0 < a_cmp x y -> subtree (Node c l x b r) r').
Proof.
  intros Hs Hsub. unfold sorted in Hs. cbn [elements] in Hs.
  assert (Hne : forall z, z ∈ elements l' -> a_cmp z y < 0).
  { apply sorted_mid in Hs as (_ & _ & Hl & _). by rewrite Forall_forall in Hl. }
  assert (Hne' : forall z, z ∈ elements r' -> 0 < a_cmp z y).
  { apply sorted_mid in Hs as (_ & _ & _ & Hr & _). rewrite Forall_forall in Hr.
    intros z Hz. apply cmp_flip. by apply Hr. }
  destruct Hsub as [E|[Hl|Hr]].
  - pose proof E as [= -> -> -> -> ->]. pose proof (lt_irrefl a_cmp y). split_and!; [lia|done|lia].
  - specialize (Hne x (subtree_elem _ _ _ _ _ _ Hl)). split_and!; [done|lia|lia].
  - specialize (Hne' x (subtree_elem _ _ _ _ _ _ Hr)). split_and!; [lia|lia|done].
Qed.

(** The nodes after [x]: the list is [e1 ++ x :: e2]. *)
Lemma next_loop_spec c l x b t ret :
  sorted a_cmp t -> subtree (Node c l x b Leaf) t ->
  exists res e1 e2, next_loop a_cmp x t ret = Some res /\ elements t = e1 ++ x :: e2 /\
    node_of res = or_else (head e2) (node_of ret).
Proof.
  revert ret. induction t as [|c' l' IHl y b' r' IHr]; intros ret Hs Hsub; [done|].
  destruct (subtree_side _ _ _ _ _ _ _ _ _ _ Hs Hsub) as (S1 & S2 & S3).
  pose proof Hs as (Sl & Sr & _)%sorted_mid.
  cbn [next_loop elements]. destruct (Z.ltb_spec (a_cmp x y) 0) as [H|H].
  - destruct (IHl (Node c' l' y b' r') Sl (S1 H)) as (res & e1 & e2 & -> & -> & Hres).
    exists res, e1, (e2 ++ y :: elements r'). split; [done|].
    rewrite <- (assoc_L (++)). split; [done|]. rewrite Hres. by destruct e2.
  - rewrite Z.gtb_ltb. destruct (Z.ltb_spec 0 (a_cmp x y)) as [H'|H'].
    + destruct (IHr ret Sr (S3 H')) as (res & e1 & e2 & -> & -> & Hres).
      exists res, (elements l' ++ y :: e1), e2. split; [done|].
      by rewrite <- (assoc_L (++)).
    + pose proof (S2 ltac:(lia)) as [= -> -> -> -> <-]. by exists ret, (elements l'), [].
Qed.

Lemma sorted_unique x (e1 e2 f1 f2 : list A) :
  StronglySorted (lt a_cmp) (e1 ++ x :: e2) -> e1 ++ x :: e2 = f1 ++ x :: f2 ->
  e1 = f1 /\ e2 = f2.
Proof.
  revert f1. induction e1 as [|y e1 IH]; intros [|z f1] Hs E; simpl in *; simplify_eq/=.
  - done.
  - apply StronglySorted_inv in Hs as [_ Hx]. rewrite Forall_forall in Hx.
    specialize (Hx z ltac:(set_solver)). pose proof (lt_irrefl a_cmp z). unfold lt in Hx. lia.
  - apply StronglySorted_inv in Hs as [_ Hx]. rewrite Forall_forall in Hx.
    specialize (Hx x ltac:(set_solver)). pose proof (lt_irrefl a_cmp x). unfold lt in Hx. lia.
  - apply StronglySorted_inv in Hs as [Hs _]. by destruct (IH f1 Hs) as [-> ->].
Qed.

Lemma subtree_split c l x b r t :
  subtree (Node c l x b r) t -> exists e1 e2,
    elements t = e1 ++ elements l ++ x :: elements r ++ e2.
Proof.
  induction t as [|c' l' IHl y b' r' IHr]; [done|]. intros [[= -> -> -> -> ->]|[H|H]].
  - exists [], []. cbn [elements app]. by rewrite app_nil_r.
  - destruct (IHl H) as (e1 & e2 & E). exists e1, (e2 ++ y :: elements r'). cbn [elements].
    rewrite E. rewrite <- !(assoc_L (++)). cbn [app]. by rewrite <- !(assoc_L (++)).
  - destruct (IHr H) as (e1 & e2 & E). exists (elements l' ++ y :: e1), e2. cbn [elements].
    rewrite E. by rewrite <- !(assoc_L (++)).
Qed.

Lemma next_spec t c l x b r e1 e2 :
  sorted a_cmp t -> subtree (Node c l x b r) t -> elements t = e1 ++ x :: e2 ->
  exists res, rb_next a_cmp t (Node c l x b r) = Some res /\ node_of res = head e2.
Proof.
  intros Hs Hsub He. unfold rb_next. destruct (is_null r) eqn:Er; cbn [negb].
  - destruct r; [|done]. destruct (next_loop_spec _ _ _ _ _ Leaf Hs Hsub) as
      (res & f1 & f2 & Hres & Hf & Hn). exists res. split; [done|].
    unfold sorted in Hs. rewrite He in Hs, Hf.
    destruct (sorted_unique _ _ _ _ _ Hs Hf) as [_ ->]. rewrite Hn. by destruct f2.
  - eexists. split; [done|]. rewrite first_spec.
    destruct (subtree_split _ _ _ _ _ _ Hsub) as (f1 & f2 & Hf).
    unfold sorted in Hs. rewrite He in Hs, Hf. rewrite (assoc_L (++)) in Hf.
    destruct (sorted_unique _ _ _ _ _ Hs Hf) as [_ ->].
    destruct r as [|? rl ? ? ?]; [done|]. simpl. by destruct (elements rl).
Qed.

Lemma prev_mirror x t ret :
  prev_loop a_cmp x t ret =
  mirror <$> next_loop (flip_cmp a_cmp) x (mirror t) (mirror ret).
Proof.
  revert ret. induction t as [|c l IHl y b r IHr]; intros ret; [done|].
  cbn [prev_loop mirror next_loop]. unfold flip_cmp at 1 3. rewrite !Z.gtb_ltb.
  pose proof (cmp_flip x y) as F1. pose proof (cmp_flip y x) as F2.
  destruct (Z.ltb_spec (a_cmp x y) 0) as [H|H].
  - rewrite (proj2 (Z.ltb_ge _ _)), (proj2 (Z.ltb_lt _ _)) by lia. apply IHl.
  - destruct (Z.ltb_spec 0 (a_cmp x y)) as [H'|H'].
    + rewrite (proj2 (Z.ltb_lt _ _)) by lia. rewrite IHr. done.
    + rewrite !(proj2 (Z.ltb_ge _ _)) by lia. simpl. by rewrite mirror_mirror.
Qed.

End Neighbours.

Section Previous.
Context {A B : Type} (a_cmp : A -> A -> Z) `{!StrictCmp a_cmp}.
Implicit Types (t l r : tree (A := A) (B := B)).

Lemma prev_spec t c l x b r e1 e2 :
  sorted a_cmp t -> subtree (Node c l x b r) t -> elements t = e1 ++ x :: e2 ->
  exists res, rb_prev a_cmp t (Node c l x b r) = Some res /\ node_of res = last e1.
Proof.
  intros Hs Hsub He.
  destruct (@next_spec A B (flip_cmp a_cmp) (flip_strict _ _) (mirror t) c (mirror r) x b
    (mirror l) (rev e2) (rev e1)) as (res & Hres & Hn).
  - by apply mirror_sorted.
  - by apply (mirror_subtree (Node c l x b r)).
  - rewrite mirror_elements, He, rev_app_distr. simpl. by rewrite <- (assoc_L (++)).
  - exists (mirror res). split; [|by rewrite mirror_node, Hn, head_rev].
    revert Hres. unfold rb_prev, rb_next. rewrite mirror_null. destruct (is_null l); cbn [negb].
    + rewrite (prev_mirror a_cmp). cbn [mirror]. by intros ->.
    + intros [= <-]. by rewrite mirror_last.
Qed.
End Previous.

(** ** Iterators *)

Section Iterators.
Context {A B : Type} `{!EqDecision A}.
Local Abbreviation tree := (tree (A := A) (B := B)).
Implicit Types (t l r cur : tree) (it : list tree).

(** The nodes after the subtree of the last entry. *)
Fixpoint up it : list A :=
  match it with
  | cur :: ((Node _ _ x _ r :: _) as it') =>
      if same_node r cur then up it' else x :: elements r ++ up it'
  | _ => []
  end.

(** The nodes an iterator has still to visit going forward. *)
Definition rest it : list A :=
  match it with
  | Node _ _ x _ r :: _ => x :: elements r ++ up it
  | _ => []
  end.

(** The entries are nodes, and what is below them fits the path. *)
Fixpoint ok it : Prop :=
  match it with
  | [] => True
  | t :: it' =>
      t <> Leaf /\ NoDup (elements t) /\ (length it' + height t <= RB_MAX_TREE_HEIGHT)%nat /\
      ok it'
  end.

Lemma ok_tail t it : ok (t :: it) -> ok it.
Proof. by intros (_ & _ & _ & ?). Qed.

Lemma nodup_children c l x b r : NoDup (elements (Node c l x b r)) ->
  NoDup (elements l) /\ NoDup (elements r) /\ forall z, z ∈ elements l -> z ∉ elements r.
Proof.
  cbn [elements]. intros (Hl & Hd & [_ Hr]%NoDup_cons)%NoDup_app. split_and!; [done..|].
  intros z Hz Hz'. apply (Hd z Hz). by right.
Qed.

Lemma root_elem t x : node_of t = Some x -> x ∈ elements t.
Proof. destruct t; simpl; [done|]. intros [= ->]. set_solver. Qed.

Lemma ok_child c l x b r it : ok (Node c l x b r :: it) ->
  (l <> Leaf -> ok (l :: Node c l x b r :: it) /\
     up (l :: Node c l x b r :: it) = x :: elements r ++ up (Node c l x b r :: it)) /\
  (r <> Leaf -> ok (r :: Node c l x b r :: it) /\
     up (r :: Node c l x b r :: it) = up (Node c l x b r :: it)).
Proof.
  intros Hok. pose proof Hok as (_ & Hnd & Hh & _).
  destruct (nodup_children _ _ _ _ _ Hnd) as (Hl & Hr & Hd).
  set (t := Node c l x b r) in *. split; intros Hne; (split; [split_and!; try done|]).
  - subst t. cbn [height length] in *. lia.
  - subst t. cbn [up]. unfold same_node. rewrite bool_decide_false; [done|].
    fold (node_of r) (node_of l). destruct (node_of l) as [y|] eqn:El; [|by destruct l].
    intros Er. apply (Hd y); [by apply root_elem|]. by apply root_elem.
  - subst t. cbn [height length] in *. lia.
  - subst t. cbn [up]. unfold same_node. by rewrite bool_decide_true.
Qed.

Lemma push_ok cur it : ok (cur :: it) -> push it cur = Some (cur :: it).
Proof.
  intros (Hne & _ & Hh & _). unfold push. rewrite (proj2 (Nat.ltb_lt _ _)); [done|].
  destruct cur; [done|]. simpl in Hh. lia.
Qed.

Lemma left_down_spec t it : ok (t :: it) ->
  exists it', rbtn_iter_go_left_down t it = Some it' /\ ok it' /\
    rest it' = elements t ++ up (t :: it).
Proof.
  revert it. induction t as [|c l IHl x b r _]; intros it Hok; [by destruct Hok|].
  cbn [rbtn_iter_go_left_down]. rewrite push_ok by done. cbn [mbind option_bind].
  destruct (ok_child _ _ _ _ _ _ Hok) as [Hcl _].
  destruct (is_null l) eqn:El.
  - destruct l; [|done]. by eexists.
  - destruct Hcl as [Hokl Hupl]; [by intros ->|].
    destruct (IHl _ Hokl) as (it' & -> & Hok' & Hr). exists it'. split_and!; [done..|].
    rewrite Hr, Hupl. cbn [elements]. by rewrite <- (assoc_L (++)).
Qed.

Lemma right_up_spec it : ok it ->
  exists it', rbtn_iter_go_right_up it = Some it' /\ ok it' /\ rest it' = up it.
Proof.
  induction it as [|cur it IH]; [by exists []|]. intros Hok%ok_tail. cbn [rbtn_iter_go_right_up].
  destruct it as [|[|c l x b r] it]; [by exists []|by destruct Hok|].
  cbn [rbtn_right_get mbind option_bind up].
  destruct (same_node r cur); cbn [negb]; [by apply IH|]. by eexists.
Qed.

Lemma inext_spec t it : ok (t :: it) ->
  exists x it', node_of t = Some x /\ rb_inext (t :: it) = Some (t, it') /\ ok it' /\
    rest (t :: it) = x :: rest it'.
Proof.
  intros Hok. destruct t as [|c l x b r]; [by destruct Hok|]. exists x.
  cbn [rb_inext rbtn_right_get mbind option_bind].
  destruct (ok_child _ _ _ _ _ _ Hok) as [_ Hcr]. destruct (is_null r) eqn:Er; cbn [negb].
  - destruct r; [|done]. destruct (right_up_spec _ Hok) as (it' & -> & Hok' & Hr).
    exists it'. split_and!; [done..|]. by rewrite Hr.
  - destruct Hcr as [Hokr Hupr]; [by intros ->|].
    destruct (left_down_spec _ _ Hokr) as (it' & -> & Hok' & Hr).
    exists it'. split_and!; [done..|]. rewrite Hr, Hupr. done.
Qed.

(** The nodes a loop over [rb_inext] or [rb_iprev] sees. *)
Fixpoint visit (step : list tree -> option (tree * list tree)) (fuel : nat) it :
    option (list A) :=
  match fuel with
  | O => None
  | S fuel =>
      '(t, it') ← step it;
      match node_of t with
      | None => Some []
      | Some x => e ← visit step fuel it'; Some (x :: e)
      end
  end.

Lemma visit_spec fuel it :
  ok it -> (length (rest it) < fuel)%nat -> visit rb_inext fuel it = Some (rest it).
Proof.
  revert it. induction fuel as [|fuel IH]; intros it Hok Hf; [lia|].
  destruct it as [|t it]; [done|].
  destruct (inext_spec _ _ Hok) as (x & it' & Ht & Hn & Hok' & Hr).
  cbn [visit]. rewrite Hn. cbn [mbind option_bind]. rewrite Ht, Hr in *.
  rewrite IH; [done|done|]. simpl in Hf. lia.
Qed.

Lemma root_ok t : t <> Leaf -> NoDup (elements t) -> (height t <= RB_MAX_TREE_HEIGHT)%nat ->
  ok [t] /\ up [t] = [].
Proof. intros. by split_and!. Qed.

Lemma ifirst_spec t : NoDup (elements t) -> (height t <= RB_MAX_TREE_HEIGHT)%nat ->
  exists it, rb_ifirst t = Some it /\ ok it /\ rest it = elements t.
Proof.
  intros Hnd Hh. unfold rb_ifirst. destruct (is_null t) eqn:Et; cbn [negb].
  - destruct t; [|done]. by exists [].
  - destruct (root_ok t) as [Hok Hup]; [by intros ->|done..|].
    destruct (left_down_spec t [] Hok) as (it & -> & Hok' & Hr). exists it.
    split_and!; [done..|]. by rewrite Hr, Hup, app_nil_r.
Qed.

(** *** Backwards *)

Lemma push_mirror cur it :
  push it cur = map mirror <$> push (map mirror it) (mirror cur).
Proof.
  unfold push. rewrite length_map. destruct (length it <? RB_MAX_TREE_HEIGHT)%nat; [|done].
  simpl. rewrite mirror_mirror, map_map. f_equal. f_equal.
  induction it as [|t it IH]; simpl; [done|]. by rewrite mirror_mirror, <- IH.
Qed.

Lemma map_mirror it : map mirror (map mirror it) = it.
Proof. induction it as [|t it IH]; simpl; [done|]. by rewrite mirror_mirror, IH. Qed.

Lemma right_down_mirror cur it :
  rbtn_iter_go_right_down cur it =
  map mirror <$> rbtn_iter_go_left_down (mirror cur) (map mirror it).
Proof.
  revert it. induction cur as [|c l _ x b r IHr]; intros it.
  - simpl. by rewrite map_mirror.
  - cbn [rbtn_iter_go_right_down mirror rbtn_iter_go_left_down].
    rewrite push_mirror. cbn [mirror]. unfold push. rewrite length_map.
    destruct (length it <? RB_MAX_TREE_HEIGHT)%nat; [|done]. simpl.
    rewrite IHr. simpl. by rewrite map_mirror, !mirror_mirror.
Qed.

Lemma left_up_mirror it :
  rbtn_iter_go_left_up it = map mirror <$> rbtn_iter_go_right_up (map mirror it).
Proof.
  induction it as [|cur it IH]; [done|]. destruct it as [|[|c l x b r] it]; [done|done|].
  cbn [rbtn_iter_go_left_up rbtn_iter_go_right_up map mirror rbtn_left_get rbtn_right_get
    mbind option_bind].
  replace (same_node (mirror l) (mirror cur)) with (same_node l cur) by by destruct l, cur.
  destruct (same_node l cur); cbn [negb]; [apply IH|]. simpl.
  by rewrite !mirror_mirror, map_mirror.
Qed.

Lemma iprev_mirror it :
  rb_iprev it = (fun '(t, it) => (mirror t, map mirror it)) <$> rb_inext (map mirror it).
Proof.
  destruct it as [|[|c l x b r] it]; [done|done|].
  cbn [rb_iprev rb_inext map mirror rbtn_left_get rbtn_right_get mbind option_bind].
  rewrite mirror_null. destruct (is_null l); cbn [negb].
  - rewrite left_up_mirror. cbn [map mirror].
    destruct (rbtn_iter_go_right_up _); [|done]. simpl. by rewrite !mirror_mirror.
  - rewrite right_down_mirror. cbn [map mirror].
    destruct (rbtn_iter_go_left_down _ _); [|done]. simpl. by rewrite !mirror_mirror.
Qed.

Lemma visit_mirror fuel it : visit rb_iprev fuel it = visit rb_inext fuel (map mirror it).
Proof.
  revert it. induction fuel as [|fuel IH]; intros it; [done|]. cbn [visit].
  rewrite iprev_mirror. destruct (rb_inext (map mirror it)) as [[t it']|]; [|done].
  simpl. rewrite mirror_node, IH, map_mirror. done.
Qed.

Lemma ilast_mirror t : rb_ilast t = map mirror <$> rb_ifirst (mirror t).
Proof.
  unfold rb_ilast, rb_ifirst. rewrite mirror_null. destruct (is_null t); [done|].
  cbn [negb]. apply right_down_mirror.
Qed.
End Iterators.

(** ** Iterators placed by a key or a node *)

Section Placed.
Context {A B K : Type} `{!EqDecision A} (a_cmp : A -> A -> Z) (a_cmp_key : K -> A -> Z).
Context `{!StrictCmp a_cmp} `{!KeyCmp a_cmp a_cmp_key}.
Local Abbreviation tree := (tree (A := A) (B := B)).
Implicit Types (t l r cur : tree) (it next : list tree) (ret : option (list tree)).

(** [cur] hangs below the last entry of [it], and [aft] comes after it. *)
Definition placed cur it (aft : list A) : Prop :=
  cur <> Leaf -> ok (cur :: it) /\ up (cur :: it) = aft.

Lemma placed_children c l x b r it aft :
  placed (Node c l x b r) it aft ->
  ok (Node c l x b r :: it) /\ rest (Node c l x b r :: it) = x :: elements r ++ aft /\
  placed l (Node c l x b r :: it) (x :: elements r ++ aft) /\
  placed r (Node c l x b r :: it) aft.
Proof.
  intros Hp. destruct Hp as [Hok Hup]; [done|].
  destruct (ok_child _ _ _ _ _ _ Hok) as [Hl Hr]. rewrite Hup in Hl, Hr.
  split; [done|]. split; [by rewrite <- Hup|]. split; [exact Hl|exact Hr].
Qed.

Lemma isearch_ge_loop_spec k cur it ret next aft :
  sorted a_cmp cur -> placed cur it aft ->
  ok (default next ret) -> rest (default next ret) = aft ->
  (ret <> None -> forall y, y ∈ elements cur -> 0 <= a_cmp_key k y) ->
  exists it', isearch_ge_loop a_cmp_key k cur it ret next = Some it' /\ ok it' /\
    rest it' = filter (fun x => a_cmp_key k x <= 0) (elements cur) ++ aft.
Proof.
  revert it ret next aft. induction cur as [|c l IHl x b r IHr];
    intros it ret next aft Hs Hp Hok Haft Hret; [by eexists|].
  destruct (node_split _ a_cmp_key _ _ _ _ _ _ eq_refl Hs) as (Sl & Sr & Hk).
  destruct (Hk k) as (K1 & K2 & K3 & K4).
  destruct (placed_children _ _ _ _ _ _ _ Hp) as (Hokc & Hrest & Hpl & Hpr).
  cbn [isearch_ge_loop elements]. rewrite push_ok by done. cbn [mbind option_bind].
  rewrite filter_app, <- (assoc_L (++)). destruct (Z.ltb_spec (a_cmp_key k x) 0) as [H|H].
  - destruct ret as [ret|].
    { specialize (Hret ltac:(done) x ltac:(cbn [elements]; set_solver)). lia. }
    destruct (IHl (Node c l x b r :: it) None (Node c l x b r :: it) _ Sl Hpl Hokc Hrest)
      as (it' & -> & Hok' & Hr'); [done|].
    exists it'. split_and!; [done..|]. rewrite Hr', filter_cons_True by lia.
    rewrite (filter_all _ (elements r)); [done|]. intros y Hy. apply K3; [lia|done].
  - rewrite Z.gtb_ltb. destruct (Z.ltb_spec 0 (a_cmp_key k x)) as [H'|H'].
    + destruct (IHr (Node c l x b r :: it) ret next aft Sr Hpr Hok Haft)
        as (it' & -> & Hok' & Hr').
      { intros Hn y Hy. apply Hret; [done|]. cbn [elements]. set_solver. }
      exists it'. split_and!; [done..|]. rewrite Hr', filter_cons_False by lia.
      rewrite (filter_none _ (elements l)); [done|].
      intros y Hy. specialize (K2 H' y Hy). lia.
    + destruct (IHl (Node c l x b r :: it) (Some (Node c l x b r :: it)) next _ Sl Hpl Hokc Hrest)
        as (it' & -> & Hok' & Hr').
      { intros _ y Hy. apply K4; [lia|done]. }
      exists it'. split_and!; [done..|]. rewrite Hr', filter_cons_True by lia.
      rewrite (filter_all _ (elements r)); [done|]. intros y Hy. apply K3; [lia|done].
Qed.

Lemma isearch_gt_loop_spec k cur it next aft :
  sorted a_cmp cur -> placed cur it aft -> ok next -> rest next = aft ->
  exists it', isearch_gt_loop a_cmp_key k cur it next = Some it' /\ ok it' /\
    rest it' = above a_cmp_key k (elements cur) ++ aft.
Proof.
  revert it next aft. unfold above. induction cur as [|c l IHl x b r IHr];
    intros it next aft Hs Hp Hok Haft; [by eexists|].
  destruct (node_split _ a_cmp_key _ _ _ _ _ _ eq_refl Hs) as (Sl & Sr & Hk).
  destruct (Hk k) as (K1 & K2 & K3 & K4).
  destruct (placed_children _ _ _ _ _ _ _ Hp) as (Hokc & Hrest & Hpl & Hpr).
  cbn [isearch_gt_loop elements]. rewrite push_ok by done. cbn [mbind option_bind].
  rewrite filter_app, <- (assoc_L (++)). destruct (Z.ltb_spec (a_cmp_key k x) 0) as [H|H].
  - destruct (IHl (Node c l x b r :: it) (Node c l x b r :: it) _ Sl Hpl Hokc Hrest)
      as (it' & -> & Hok' & Hr').
    exists it'. split_and!; [done..|]. rewrite Hr', filter_cons_True by lia.
    rewrite (filter_all _ (elements r)); [done|]. intros y Hy. by apply K1.
  - destruct (IHr (Node c l x b r :: it) next aft Sr Hpr Hok Haft) as (it' & E & Hok' & Hr').
    exists it'. split_and!; [by rewrite E; destruct (_ >? _)|done|].
    rewrite Hr', filter_cons_False by lia.
    rewrite (filter_none _ (elements l)); [done|]. intros y Hy. specialize (K4 H y Hy). lia.
Qed.

Lemma root_placed t :
  sorted a_cmp t -> (height t <= RB_MAX_TREE_HEIGHT)%nat -> placed t [] [].
Proof.
  intros Hs Hh Hne. apply root_ok; [done| |done]. unfold sorted in Hs.
  induction Hs as [|x e Hs IH Hx]; constructor; [|done].
  intros Hin. rewrite Forall_forall in Hx. specialize (Hx x Hin).
  pose proof (lt_irrefl a_cmp x). unfold lt in Hx. lia.
Qed.

Lemma isearch_ge_spec k t :
  sorted a_cmp t -> (height t <= RB_MAX_TREE_HEIGHT)%nat ->
  exists it, rb_isearch_ge a_cmp_key t k = Some it /\ ok it /\
    rest it = filter (fun x => a_cmp_key k x <= 0) (elements t).
Proof.
  intros Hs Hh. destruct (isearch_ge_loop_spec k t [] None [] [] Hs) as (it & ? & ? & Hr);
    try done; [by apply root_placed|]. exists it. by rewrite Hr, app_nil_r.
Qed.

Lemma isearch_gt_spec k t :
  sorted a_cmp t -> (height t <= RB_MAX_TREE_HEIGHT)%nat ->
  exists it, rb_isearch_gt a_cmp_key t k = Some it /\ ok it /\
    rest it = above a_cmp_key k (elements t).
Proof.
  intros Hs Hh. destruct (isearch_gt_loop_spec k t [] [] [] Hs) as (it & ? & ? & Hr);
    try done; [by apply root_placed|]. exists it. by rewrite Hr, app_nil_r.
Qed.

(** [rb_icreate] finds a node of the tree, and nothing else. *)
Lemma icreate_loop_spec x cur it aft :
  sorted a_cmp cur -> placed cur it aft ->
  (x ∈ elements cur -> exists it' e1 e2, icreate_loop a_cmp x cur it = Some (true, it') /\
     ok it' /\ elements cur = e1 ++ x :: e2 /\ rest it' = x :: e2 ++ aft) /\
  (Forall (fun y => a_cmp x y <> 0) (elements cur) ->
   icreate_loop a_cmp x cur it = Some (false, [])).
Proof.
  revert it aft. induction cur as [|c l IHl y b r IHr]; intros it aft Hs Hp.
  { split; [by intros ?%elem_of_nil|done]. }
  destruct (placed_children _ _ _ _ _ _ _ Hp) as (Hokc & Hrest & Hpl & Hpr).
  pose proof Hs as (Sl & Sr & _)%sorted_mid.
  cbn [icreate_loop elements]. rewrite push_ok by done. cbn [mbind option_bind]. split.
  - intros Hx. destruct (sorted_side _ _ _ _ _ Hs Hx) as (X1 & X2 & X3).
    destruct (Z.ltb_spec (a_cmp x y) 0) as [H|H].
    + destruct (proj1 (IHl _ _ Sl Hpl) (X1 H)) as (it' & e1 & e2 & -> & Hok' & -> & Hr').
      exists it', e1, (e2 ++ y :: elements r). rewrite <- !(assoc_L (++)). by split_and!.
    + rewrite Z.gtb_ltb. destruct (Z.ltb_spec 0 (a_cmp x y)) as [H'|H'].
      * destruct (proj1 (IHr _ _ Sr Hpr) (X3 H')) as (it' & e1 & e2 & -> & Hok' & -> & Hr').
        exists it', (elements l ++ y :: e1), e2. rewrite <- !(assoc_L (++)). by split_and!.
      * specialize (X2 ltac:(lia)) as ->. by eexists _, (elements l), (elements r).
  - intros [Hl [Hy Hr]%Forall_cons]%Forall_app.
    destruct (Z.ltb_spec (a_cmp x y) 0); [by eapply IHl|].
    rewrite Z.gtb_ltb. destruct (Z.ltb_spec 0 (a_cmp x y)); [by eapply IHr|lia].
Qed.

Lemma isearch_loop_spec k cur it aft :
  sorted a_cmp cur -> placed cur it aft ->
  exists found it', isearch_loop a_cmp_key k cur it = Some (found, it') /\ ok it' /\
    if found : bool
    then exists x e1 e2, x ∈ matching a_cmp_key k (elements cur) /\
      elements cur = e1 ++ x :: e2 /\ rest it' = x :: e2 ++ aft
    else matching a_cmp_key k (elements cur) = [] /\ it' = [].
Proof.
  revert it aft. unfold matching. induction cur as [|c l IHl y b r IHr]; intros it aft Hs Hp.
  { by exists false, []. }
  destruct (node_split _ a_cmp_key _ _ _ _ _ _ eq_refl Hs) as (Sl & Sr & Hk).
  destruct (Hk k) as (K1 & K2 & _).
  destruct (placed_children _ _ _ _ _ _ _ Hp) as (Hokc & Hrest & Hpl & Hpr).
  cbn [isearch_loop elements]. rewrite push_ok by done. cbn [mbind option_bind].
  rewrite filter_app. destruct (Z.ltb_spec (a_cmp_key k y) 0) as [H|H].
  - destruct (IHl _ _ Sl Hpl) as (f & it' & -> & Hok' & Hf). exists f, it'. split_and!; [done..|].
    rewrite filter_cons_False, (filter_none _ (elements r)), app_nil_r by
      first [lia|intros z Hz; specialize (K1 H z Hz); lia].
    destruct f; [|done]. destruct Hf as (x & e1 & e2 & Hx & E & Hr).
    exists x, e1, (e2 ++ y :: elements r). rewrite E in Hx |- *.
    rewrite <- !(assoc_L (++)). by split_and!.
  - rewrite Z.gtb_ltb. destruct (Z.ltb_spec 0 (a_cmp_key k y)) as [H'|H'].
    + destruct (IHr _ _ Sr Hpr) as (f & it' & -> & Hok' & Hf). exists f, it'.
      split_and!; [done..|].
      rewrite filter_cons_False, (filter_none _ (elements l)) by
        first [lia|intros z Hz; specialize (K2 H' z Hz); lia].
      destruct f; [|done]. destruct Hf as (x & e1 & e2 & Hx & E & Hr).
      exists x, (elements l ++ y :: e1), e2. rewrite E in Hx |- *.
      rewrite <- !(assoc_L (++)). by split_and!.
    + eexists true, _. split; [done|]. split; [done|].
      exists y, (elements l), (elements r). split_and!; [|done..].
      rewrite filter_cons_True by lia. set_solver.
Qed.
End Placed.

Section PlacedBackward.
Context {A B K : Type} `{!EqDecision A} (a_cmp : A -> A -> Z) (a_cmp_key : K -> A -> Z).
Context `{!StrictCmp a_cmp} `{!KeyCmp a_cmp a_cmp_key}.
Local Abbreviation tree := (tree (A := A) (B := B)).
Implicit Types (t l r cur : tree) (it next : list tree) (ret : option (list tree)).

Lemma isearch_le_mirror k cur it ret next :
  isearch_le_loop a_cmp_key k cur it ret next =
  map mirror <$> isearch_ge_loop (flip_key a_cmp_key) k (mirror cur) (map mirror it)
    (map mirror <$> ret) (map mirror next).
Proof.
  revert it ret next. induction cur as [|c l IHl x b r IHr]; intros it ret next.
  { simpl. f_equal. destruct ret; simpl; by rewrite map_mirror. }
  cbn [isearch_le_loop mirror isearch_ge_loop]. rewrite push_mirror. cbn [mirror].
  destruct (push (map mirror it) _) as [it1|]; [|done]. simpl. unfold flip_key at 1 3.
  rewrite !Z.gtb_ltb. destruct (Z.ltb_spec (a_cmp_key k x) 0) as [H|H].
  - rewrite (proj2 (Z.ltb_ge _ _)), (proj2 (Z.ltb_lt _ _)) by lia.
    by rewrite IHl, map_mirror.
  - destruct (Z.ltb_spec 0 (a_cmp_key k x)) as [H'|H'].
    + rewrite (proj2 (Z.ltb_lt _ _)) by lia. by rewrite IHr, map_mirror.
    + rewrite !(proj2 (Z.ltb_ge _ _)) by lia. rewrite IHr. simpl. by rewrite map_mirror.
Qed.

Lemma isearch_lt_mirror k cur it next :
  isearch_lt_loop a_cmp_key k cur it next =
  map mirror <$> isearch_gt_loop (flip_key a_cmp_key) k (mirror cur) (map mirror it)
    (map mirror next).
Proof.
  revert it next. induction cur as [|c l IHl x b r IHr]; intros it next.
  { simpl. by rewrite map_mirror. }
  cbn [isearch_lt_loop mirror isearch_gt_loop]. rewrite push_mirror. cbn [mirror].
  destruct (push (map mirror it) _) as [it1|]; [|done]. simpl. unfold flip_key at 1 3.
  rewrite !Z.gtb_ltb. destruct (Z.ltb_spec (a_cmp_key k x) 0) as [H|H].
  - rewrite (proj2 (Z.ltb_ge _ _)), (proj2 (Z.ltb_lt _ _)) by lia.
    by rewrite IHl, map_mirror.
  - destruct (Z.ltb_spec 0 (a_cmp_key k x)) as [H'|H'].
    + rewrite (proj2 (Z.ltb_lt _ _)) by lia. by rewrite IHr, map_mirror.
    + rewrite !(proj2 (Z.ltb_ge _ _)) by lia. by rewrite IHl, map_mirror.
Qed.

(** An iterator whose mirror image is good visits its nodes backwards. *)
Lemma visit_back it fuel :
  ok (map mirror it) -> (length (rest (map mirror it)) < fuel)%nat ->
  visit rb_iprev fuel it = Some (rest (map mirror it)).
Proof. intros. rewrite visit_mirror. by apply visit_spec. Qed.

Lemma isearch_le_spec k t :
  sorted a_cmp t -> (height t <= RB_MAX_TREE_HEIGHT)%nat ->
  exists it, rb_isearch_le a_cmp_key t k = Some it /\ ok (map mirror it) /\
    rest (map mirror it) = rev (filter (fun x => 0 <= a_cmp_key k x) (elements t)).
Proof.
  intros Hs Hh. destruct (@isearch_ge_spec A B K _ (flip_cmp a_cmp) (flip_key a_cmp_key)
    (flip_strict _ _) (flip_key_cmp _ _ _) k (mirror t)) as (it & E & Hok & Hr).
  { by apply mirror_sorted. } { by rewrite mirror_height. }
  exists (map mirror it). rewrite map_mirror. split_and!; [|done|].
  - unfold rb_isearch_le, rb_isearch_ge in *. rewrite isearch_le_mirror. simpl. by rewrite E.
  - rewrite Hr, mirror_elements, filter_rev. f_equal. apply list_filter_iff.
    intros x. unfold flip_key. lia.
Qed.

Lemma isearch_lt_spec k t :
  sorted a_cmp t -> (height t <= RB_MAX_TREE_HEIGHT)%nat ->
  exists it, rb_isearch_lt a_cmp_key t k = Some it /\ ok (map mirror it) /\
    rest (map mirror it) = rev (below a_cmp_key k (elements t)).
Proof.
  intros Hs Hh. destruct (@isearch_gt_spec A B K _ (flip_cmp a_cmp) (flip_key a_cmp_key)
    (flip_strict _ _) (flip_key_cmp _ _ _) k (mirror t)) as (it & E & Hok & Hr).
  { by apply mirror_sorted. } { by rewrite mirror_height. }
  exists (map mirror it). rewrite map_mirror. split_and!; [|done|].
  - unfold rb_isearch_lt, rb_isearch_gt in *. rewrite isearch_lt_mirror. simpl. by rewrite E.
  - rewrite Hr, mirror_elements, flip_above. unfold below. apply filter_rev.
Qed.
End PlacedBackward.

(** ** Traversals with a callback *)

Section Callbacks.
Context {A B S R : Type} (a_cmp : A -> A -> Z) `{!StrictCmp a_cmp}.
Variable cb : A -> S -> option R * S.
Implicit Types (t l r : tree (A := A) (B := B)).

(** The callback on the nodes of a list, up to its first result. *)
Fixpoint cb_list (e : list A) (s : S) : option R * S :=
  match e with
  | [] => (None, s)
  | x :: e => match cb x s with (Some ret, s) => (Some ret, s) | (None, s) => cb_list e s end
  end.

Lemma cb_list_app e1 e2 s :
  cb_list (e1 ++ e2) s =
  match cb_list e1 s with (Some ret, s) => (Some ret, s) | (None, s) => cb_list e2 s end.
Proof.
  revert s. induction e1 as [|x e1 IH]; intros s; simpl; [done|].
  destruct (cb x s) as [[]]; [done|apply IH].
Qed.

Lemma iter_recurse_spec t s : rb_iter_recurse cb t s = cb_list (elements t) s.
Proof.
  revert s. induction t as [|c l IHl x b r IHr]; intros s; simpl; [done|].
  rewrite cb_list_app, IHl. destruct (cb_list (elements l) s) as [[] s1]; [done|]. simpl.
  destruct (cb x s1) as [[] s2]; [done|apply IHr].
Qed.

Lemma iter_start_spec x t s e1 e2 :
  sorted a_cmp t -> elements t = e1 ++ x :: e2 ->
  rb_iter_start a_cmp cb x t s = Some (cb_list (x :: e2) s).
Proof.
  revert s e1 e2. induction t as [|c l IHl y b r IHr]; intros s e1 e2 Hs He; [by destruct e1|].
  assert (Hx : x ∈ elements l ++ y :: elements r) by (simpl in He; rewrite He; set_solver).
  destruct (sorted_side a_cmp x (elements l) y (elements r) Hs Hx) as (X1 & X2 & X3).
  pose proof Hs as (Sl & Sr & _)%(sorted_mid a_cmp (elements l) (elements r) y). unfold sorted in Hs. cbn [elements] in Hs, He.
  cbn [rb_iter_start]. destruct (Z.ltb_spec (a_cmp x y) 0) as [H|H].
  - destruct (list_elem_of_split _ _ (X1 H)) as (f1 & f2 & Hf).
    rewrite (IHl s f1 f2 Sl Hf). rewrite Hf, <- (assoc_L (++)) in He. cbn [app] in He.
    assert (e2 = f2 ++ y :: elements r) as ->.
    { rewrite Hf, <- (assoc_L (++)) in Hs. by destruct (sorted_unique _ _ _ _ _ _ Hs He). }
    change (x :: f2 ++ y :: elements r) with ((x :: f2) ++ y :: elements r).
    rewrite cb_list_app. destruct (cb_list (x :: f2) s) as [[] s1]; [done|].
    cbn [cb_list]. destruct (cb y s1) as [[] s2]; [done|]. by rewrite iter_recurse_spec.
  - rewrite Z.gtb_ltb. destruct (Z.ltb_spec 0 (a_cmp x y)) as [H'|H'].
    + destruct (list_elem_of_split _ _ (X3 H')) as (f1 & f2 & Hf).
      rewrite (IHr s f1 f2 Sr Hf). rewrite Hf in He, Hs.
      change (elements l ++ y :: f1 ++ x :: f2) with (elements l ++ (y :: f1) ++ x :: f2) in He, Hs.
      rewrite (assoc_L (++)) in He, Hs. by destruct (sorted_unique _ _ _ _ _ _ Hs He) as [_ ->].
    + specialize (X2 ltac:(lia)) as ->. destruct (sorted_unique _ _ _ _ _ _ Hs He) as [_ <-].
      cbn [cb_list]. destruct (cb y s) as [[] s1]; [done|]. by rewrite iter_recurse_spec.
Qed.

Lemma reverse_recurse_mirror t s :
  rb_reverse_iter_recurse cb t s = rb_iter_recurse cb (mirror t) s.
Proof.
  revert s. induction t as [|c l IHl x b r IHr]; intros s; simpl; [done|].
  rewrite IHr. destruct (rb_iter_recurse cb (mirror r) s) as [[] s1]; [done|].
  destruct (cb x s1) as [[] s2]; [done|apply IHl].
Qed.

Lemma reverse_start_mirror x t s :
  rb_reverse_iter_start a_cmp cb x t s = rb_iter_start (flip_cmp a_cmp) cb x (mirror t) s.
Proof.
  revert s. induction t as [|c l IHl y b r IHr]; intros s; [done|].
  cbn [rb_reverse_iter_start mirror rb_iter_start]. change (flip_cmp a_cmp x y) with (a_cmp y x).
  pose proof (cmp_flip x y) as F1. pose proof (cmp_flip y x) as F2. rewrite !Z.gtb_ltb.
  destruct (Z.ltb_spec 0 (a_cmp x y)) as [H|H].
  - rewrite (proj2 (Z.ltb_lt (a_cmp y x) 0)) by lia. rewrite IHr.
    destruct (rb_iter_start (flip_cmp a_cmp) cb x (mirror r) s) as [[[] s1]|]; [done| |done].
    destruct (cb y s1) as [[] s2]; [done|]. by rewrite reverse_recurse_mirror.
  - rewrite (proj2 (Z.ltb_ge (a_cmp y x) 0)) by lia.
    destruct (Z.ltb_spec (a_cmp x y) 0) as [H'|H'].
    + rewrite (proj2 (Z.ltb_lt 0 (a_cmp y x))) by lia. apply IHl.
    + rewrite (proj2 (Z.ltb_ge 0 (a_cmp y x))) by lia.
      destruct (cb y s) as [[] s1]; [done|]. by rewrite reverse_recurse_mirror.
Qed.

End Callbacks.

(** ** Pre-order walk *)

Section Walks.
Context {A B : Type} `{!EqDecision A}.
Local Abbreviation tree := (tree (A := A) (B := B)).
Local Abbreviation walk := (walk (A := A) (B := B)).
Implicit Types (t l r node : tree) (path : list (tree * Z)).

(** The directions the caller allows at each node. *)
Variable dir : A -> Z.
Definition go_left (x : A) : bool := negb (Z.land (dir x) RB_WALK_LEFT =? 0).
Definition go_right (x : A) : bool := negb (Z.land (dir x) RB_WALK_RIGHT =? 0).

Fixpoint preorder t : list A :=
  match t with
  | Leaf => []
  | Node _ l x _ r =>
      x :: (if go_left x then preorder l else []) ++ (if go_right x then preorder r else [])
  end.

(** What is left to visit after the subtree [node] below [path]. *)
Fixpoint walk_rest node path : list A :=
  match path with
  | (Node _ _ x _ r as p, _) :: path' =>
      (if go_right x && negb (same_node r node) then preorder r else []) ++ walk_rest p path'
  | _ => []
  end.

(** Entries above the last one hold the direction taken there. *)
Fixpoint walk_ok path : Prop :=
  match path with
  | [] => True
  | (Leaf, _) :: _ => False
  | (Node _ _ x _ _ as t, d) :: path' =>
      d = dir x /\ NoDup (elements t) /\
      (length path' + height t <= RB_MAX_TREE_HEIGHT)%nat /\ walk_ok path'
  end.

Lemma walk_up_spec node path :
  walk_ok path -> node <> Leaf ->
  match walk_up node path with
  | Some (n, path') =>
      walk_rest node path = preorder n ++ walk_rest n path' /\ n <> Leaf /\ walk_ok path' /\
      NoDup (elements n) /\ (length path' + height n <= RB_MAX_TREE_HEIGHT)%nat
  | None => walk_rest node path = []
  end.
Proof.
  revert node. induction path as [|[[|c l x b r] d] path IH]; intros node Hok Hn; [done|done|].
  pose proof Hok as (-> & Hnd & Hh & Hok'). cbn [walk_up rbtn_right_get walk_rest].
  fold (go_right x). destruct (nodup_children _ _ _ _ _ Hnd) as (_ & Hr & _).
  destruct (go_right x && negb (is_null r) && negb (same_node r node)) eqn:E.
  - bools. rewrite H, H0. cbn [negb andb walk_rest]. rewrite H.
    replace (same_node r r) with true by (unfold same_node; by rewrite bool_decide_true).
    cbn [negb andb app]. split_and!; try done; [by intros ->|]. simpl in *. lia.
  - assert (Hnil : (if go_right x && negb (same_node r node) then preorder r else []) = []).
    { destruct (go_right x); [|done]. destruct r; [by destruct (same_node _ _)|].
      simpl in E |- *. by rewrite E. }
    rewrite Hnil. by apply IH.
Qed.

(** The nodes a loop over [rb_walk_next] sees. *)
Fixpoint walk_loop (fuel : nat) (it : walk) (d : Z) : option (list A) :=
  match fuel with
  | O => None
  | S fuel =>
      '(node, _, _, it) ← rb_walk_next it d;
      match node_of node with
      | None => Some []
      | Some x => e ← walk_loop fuel it (dir x); Some (x :: e)
      end
  end.

(** From the visit of [node] on. *)
Lemma walk_visit_spec fuel root p0 node path :
  node <> Leaf -> NoDup (elements node) -> walk_ok path ->
  (length path + height node <= RB_MAX_TREE_HEIGHT)%nat ->
  (length (preorder node ++ walk_rest node path) < fuel)%nat ->
  ('(n, _, _, it) ← walk_visit (Walk root p0) node path;
   match node_of n with
   | None => Some []
   | Some x => e ← walk_loop fuel it (dir x); Some (x :: e)
   end) = Some (preorder node ++ walk_rest node path).
Proof.
  revert p0 node path. induction fuel as [|fuel IH]; intros p0 node path Hne Hnd Hok Hh Hf; [lia|].
  destruct node as [|c l x b r]; [done|].
  unfold walk_visit. rewrite (proj2 (Nat.ltb_lt _ _)) by (simpl in Hh; lia).
  set (t := Node c l x b r) in *.
  cbn [rbtn_left_get rbtn_right_get mbind option_bind]. subst t. cbn [rbtn_left_get
    rbtn_right_get mbind option_bind node_of data fmap option_fmap option_map fst w_root].
  set (t := Node c l x b r) in *.
  assert (Hokt : walk_ok ((t, dir x) :: path)) by (subst t; by split_and!).
  destruct (nodup_children _ _ _ _ _ Hnd) as (Hl & Hr & Hd).
  assert (Hnext : walk_loop (S fuel) (Walk root ((t, 0) :: path)) (dir x) =
    Some ((if go_left x then preorder l else []) ++ (if go_right x then preorder r else []) ++
      walk_rest t path)).
  2:{ rewrite Hnext. cbn [mbind option_bind]. subst t. cbn [preorder app].
      by rewrite <- (assoc_L (++)). }
  cbn [walk_loop]. unfold rb_walk_next. cbn [w_path w_root]. subst t.
  cbn [rbtn_left_get rbtn_right_get mbind option_bind]. fold (go_left x) (go_right x).
  set (t := Node c l x b r) in *.
  assert (Hf' : (length ((if go_left x then preorder l else []) ++
    (if go_right x then preorder r else []) ++ walk_rest t path) < fuel)%nat).
  { subst t. cbn [preorder app length] in Hf. rewrite <- (assoc_L (++)) in Hf. lia. }
  assert (Hrestl : l <> Leaf -> walk_rest l ((t, dir x) :: path) =
    (if go_right x then preorder r else []) ++ walk_rest t path).
  { intros Hll. subst t. cbn [walk_rest]. f_equal. destruct (go_right x); [|done].
    unfold same_node. rewrite bool_decide_false; [done|].
    fold (node_of r) (node_of l). destruct (node_of l) as [y|] eqn:El; [|by destruct l].
    intros Er. apply (Hd y); by apply root_elem. }
  assert (Hrestr : r <> Leaf -> walk_rest r ((t, dir x) :: path) = walk_rest t path).
  { intros Hrr. subst t. cbn [walk_rest]. unfold same_node. rewrite bool_decide_true by done.
    by rewrite andb_false_r. }
  destruct (go_left x && negb (is_null l)) eqn:El.
  { bools. assert (Hll : l <> Leaf) by by intros ->.
    rewrite H in *. rewrite <- (Hrestl Hll) in Hf' |- *.
    apply IH; [done..|subst t; simpl in *; lia|done]. }
  replace ((if go_left x then preorder l else []) ++
    (if go_right x then preorder r else []) ++ walk_rest t path)
    with ((if go_right x then preorder r else []) ++ walk_rest t path) in *.
  2:{ destruct (go_left x); [|done]. by destruct l. }
  destruct (go_right x && negb (is_null r)) eqn:Er.
  { bools. assert (Hrr : r <> Leaf) by by intros ->. rewrite H in *.
    rewrite <- (Hrestr Hrr) in Hf' |- *. apply IH; [done..|subst t; simpl in *; lia|done]. }
  replace ((if go_right x then preorder r else []) ++ walk_rest t path)
    with (walk_rest t path) in *.
  2:{ destruct (go_right x); [|done]. by destruct r. }
  pose proof (walk_up_spec t path Hok ltac:(subst t; done)) as Hup.
  destruct (walk_up t path) as [[n path']|].
  - destruct Hup as (E & Hn & Hok' & Hndn & Hhn). rewrite E in *. by apply IH.
  - by rewrite Hup.
Qed.

Lemma walk_spec t fuel :
  NoDup (elements t) -> (height t <= RB_MAX_TREE_HEIGHT)%nat ->
  (length (preorder t) + 1 < fuel)%nat ->
  walk_loop fuel (rb_walk_init t) 0 = Some (preorder t).
Proof.
  intros Hnd Hh Hf. destruct fuel as [|fuel]; [lia|]. unfold rb_walk_init.
  cbn [walk_loop]. unfold rb_walk_next. cbn [w_path w_root].
  destruct (is_null t) eqn:Et; [by destruct t|].
  pose proof (walk_visit_spec fuel t [] t []) as Hv. rewrite app_nil_r in Hv.
  apply Hv; [by intros ->|done..|lia].
Qed.
End Walks.

(** ** A tree too high for an iterator

    [full k o] is a black tree of height [k]; [spine k o] alternates black and red
    nodes on its left side, with full black trees on the right. *)
Section Overflow.
Local Abbreviation tree := (tree (A := Z) (B := unit)).

Definition no_aug (x : Z) (l r : option (Z * unit)) : unit := tt.

Fixpoint full (k : nat) (o : Z) : tree :=
  match k with
  | O => Leaf
  | S k => Node false (full k o) (o + 2 ^ Z.of_nat k) tt (full k (o + 2 ^ Z.of_nat k))
  end.

Fixpoint spine (k : nat) (o : Z) : tree :=
  match k with
  | O => Leaf
  | S k =>
      let x := o + 2 * 2 ^ Z.of_nat k - 1 in
      let y := x + 2 ^ Z.of_nat k in
      Node false (Node true (spine k o) x tt (full k x)) y tt (full k y)
  end.

Lemma seqZ_mid a n m : 0 <= n -> 0 <= m ->
  seqZ a n ++ (a + n) :: seqZ (a + n + 1) m = seqZ a (n + 1 + m).
Proof.
  intros Hn Hm. rewrite (seqZ_app a (n + 1) m) by lia. rewrite (seqZ_app a n 1) by lia.
  rewrite <- (assoc_L (++)). f_equal. rewrite (seqZ_cons (a + n) 1) by lia.
  replace (Z.pred 1) with 0 by lia. rewrite (seqZ_nil (Z.succ (a + n)) 0) by lia. simpl.
  f_equal. f_equal. lia.
Qed.

Lemma pow_nat_pos k : 1 <= 2 ^ Z.of_nat k.
Proof. pose proof (pow2_pos (Z.of_nat k)). lia. Qed.

Lemma pow_nat_succ k : 2 ^ Z.of_nat (S k) = 2 * 2 ^ Z.of_nat k.
Proof. rewrite Nat2Z.inj_succ, Z.pow_succ_r; lia. Qed.

Lemma full_elements k o : elements (full k o) = seqZ (o + 1) (2 ^ Z.of_nat k - 1).
Proof.
  revert o. induction k as [|k IH]; intros o; [done|]. cbn [full elements]. rewrite !IH.
  pose proof (pow_nat_pos k). rewrite pow_nat_succ.
  replace (o + 2 ^ Z.of_nat k) with (o + 1 + (2 ^ Z.of_nat k - 1)) by lia.
  rewrite seqZ_mid by lia. f_equal. lia.
Qed.

Lemma spine_elements k o : elements (spine k o) = seqZ (o + 1) (2 * 2 ^ Z.of_nat k - 2).
Proof.
  revert o. induction k as [|k IH]; intros o; [done|]. cbn [spine elements].
  rewrite IH, !full_elements. pose proof (pow_nat_pos k). rewrite pow_nat_succ.
  set (p := 2 ^ Z.of_nat k) in *.
  replace (o + 2 * p - 1) with (o + 1 + (2 * p - 2)) by lia.
  rewrite seqZ_mid by lia.
  replace (o + 1 + (2 * p - 2) + p) with (o + 1 + (2 * p - 2 + 1 + (p - 1))) by lia.
  rewrite seqZ_mid by lia. f_equal. lia.
Qed.

Lemma seqZ_sorted a n : StronglySorted (lt cmp_int) (seqZ a n).
Proof.
  destruct (Z.lt_ge_cases n 0) as [Hn|Hn]; [rewrite seqZ_nil by lia; constructor|].
  revert a. pattern n. apply natlike_ind; [intros; constructor| |lia].
  intros m Hm IH a. rewrite seqZ_cons by lia. replace (Z.pred (Z.succ m)) with m by lia.
  constructor; [apply IH|]. rewrite Forall_forall. intros x Hx%elem_of_seqZ.
  unfold lt, cmp_int. lia.
Qed.

Lemma full_wf k o : wf false k (full k o).
Proof. revert o. induction k as [|k IH]; intros o; simpl; [done|]. eauto 10. Qed.

Lemma spine_wf k o : wf false k (spine k o).
Proof.
  revert o. induction k as [|k IH]; intros o; simpl; [done|]. split; [done|].
  exists k. split; [done|]. split; [|apply full_wf]. left. eauto using full_wf.
Qed.

Lemma any_aug (t : tree) : aug_ok no_aug t.
Proof. induction t as [|c l ? x [] r ?]; simpl; auto. Qed.

Lemma spine_valid k o : (k <= 60)%nat -> valid cmp_int no_aug (spine k o).
Proof.
  intros Hk. split.
  - unfold sorted. rewrite spine_elements. apply seqZ_sorted.
  - exists k. apply spine_wf.
  - apply any_aug.
  - rewrite spine_elements, length_seqZ. pose proof (pow_nat_pos k).
    assert (2 ^ Z.of_nat k <= 2 ^ 60) by (apply Z.pow_le_mono_r; lia). lia.
Qed.

Lemma spine_down k o it : (length it <= RB_MAX_TREE_HEIGHT)%nat ->
  (RB_MAX_TREE_HEIGHT < length it + 2 * k)%nat ->
  rbtn_iter_go_left_down (spine k o) it = None.
Proof.
  revert o it. induction k as [|k IH]; intros o it Hle Hlt; [lia|].
  cbn [spine rbtn_iter_go_left_down]. unfold push.
  destruct (Nat.ltb_spec (length it) RB_MAX_TREE_HEIGHT); [|reflexivity].
  cbn [mbind option_bind length].
  destruct (Nat.ltb_spec (S (length it)) RB_MAX_TREE_HEIGHT); [|reflexivity].
  cbn [mbind option_bind]. apply IH; simpl; lia.
Qed.
End Overflow.

(** ** Properties *)

Section Properties.
Context {A B K : Type} `{!EqDecision A} (a_cmp : A -> A -> Z) (a_cmp_key : K -> A -> Z).
Context `{!StrictCmp a_cmp} `{!KeyCmp a_cmp a_cmp_key}.
Local Abbreviation tree := (tree (A := A) (B := B)).
Implicit Types t : tree.

(** C37. Lookup in a sorted tree: [search] returns a matching node, or NULL if
    there is none; [nsearch] returns the last matching node, or else the first
    node above the key; [psearch] the first matching node, or else the last node
    below the key; [first] and [last] the ends of the tree. *)
Theorem rb_lookup t k :
  sorted a_cmp t ->
  match rb_search a_cmp_key t k with
  | Leaf => matching a_cmp_key k (elements t) = []
  | Node _ _ x _ _ => x ∈ matching a_cmp_key k (elements t)
  end /\
  node_of (rb_nsearch a_cmp_key t k) =
    or_else (last (matching a_cmp_key k (elements t))) (head (above a_cmp_key k (elements t))) /\
  node_of (rb_psearch a_cmp_key t k) =
    or_else (head (matching a_cmp_key k (elements t))) (last (below a_cmp_key k (elements t))) /\
  node_of (rb_first t) = head (elements t) /\ node_of (rb_last t) = last (elements t).
Proof.
  intros Hs. split_and!.
  - by eapply search_spec.
  - by eapply nsearch_spec.
  - by eapply psearch_spec.
  - apply first_spec.
  - apply last_spec.
Qed.

(** For a node of a sorted tree, [next] and [prev] do not fail an assertion
    and return its neighbours in order, NULL at the ends. *)
Theorem rb_next_prev t c l x b r e1 e2 :
  sorted a_cmp t -> subtree (Node c l x b r) t -> elements t = e1 ++ x :: e2 ->
  (exists res, rb_next a_cmp t (Node c l x b r) = Some res /\ node_of res = head e2) /\
  (exists res, rb_prev a_cmp t (Node c l x b r) = Some res /\ node_of res = last e1).
Proof. intros Hs Hn He. split; [by eapply next_spec|by eapply prev_spec]. Qed.

Lemma sorted_nodup t : sorted a_cmp t -> NoDup (elements t).
Proof.
  unfold sorted. induction 1 as [|x e Hs IH Hx]; constructor; [|done].
  intros Hin. rewrite Forall_forall in Hx. specialize (Hx x Hin).
  pose proof (lt_irrefl a_cmp x). unfold lt in Hx. lia.
Qed.

(** Iterators over a tree of height at most 48: from [ifirst] (or [ilast]),
    [inext] (or [iprev]) visits every node once, in order (in reverse order),
    then returns NULL. *)
Theorem rb_iterate t fuel :
  sorted a_cmp t -> (height t <= RB_MAX_TREE_HEIGHT)%nat ->
  (length (elements t) < fuel)%nat ->
  (exists it, rb_ifirst t = Some it /\ visit rb_inext fuel it = Some (elements t)) /\
  (exists it, rb_ilast t = Some it /\ visit rb_iprev fuel it = Some (rev (elements t))).
Proof.
  intros Hs Hh Hf. pose proof (sorted_nodup _ Hs) as Hnd. split.
  - destruct (ifirst_spec t Hnd Hh) as (it & E & Hok & Hr). exists it. split; [done|].
    rewrite <- Hr in *. by apply visit_spec.
  - destruct (ifirst_spec (mirror t)) as (it & E & Hok & Hr).
    { by rewrite mirror_elements, <- Permutation_rev. }
    { by rewrite mirror_height. }
    exists (map mirror it). rewrite ilast_mirror, E. split; [done|].
    rewrite mirror_elements in Hr. rewrite <- Hr.
    rewrite visit_back; rewrite ?map_mirror; [done|done|].
    rewrite Hr, length_rev. done.
Qed.

(** Iterators placed by a key: [isearch_ge] then [inext] visits exactly the
    nodes not below the key, [isearch_gt] those above it; [isearch_le] then
    [iprev] visits those not above it backwards, [isearch_lt] those below it. *)
Theorem rb_isearch_iterate t k fuel :
  sorted a_cmp t -> (height t <= RB_MAX_TREE_HEIGHT)%nat ->
  (length (elements t) < fuel)%nat ->
  let e := elements t in
  (exists it, rb_isearch_ge a_cmp_key t k = Some it /\
     visit rb_inext fuel it = Some (filter (fun x => a_cmp_key k x <= 0) e)) /\
  (exists it, rb_isearch_gt a_cmp_key t k = Some it /\
     visit rb_inext fuel it = Some (filter (fun x => a_cmp_key k x < 0) e)) /\
  (exists it, rb_isearch_le a_cmp_key t k = Some it /\
     visit rb_iprev fuel it = Some (rev (filter (fun x => 0 <= a_cmp_key k x) e))) /\
  (exists it, rb_isearch_lt a_cmp_key t k = Some it /\
     visit rb_iprev fuel it = Some (rev (filter (fun x => 0 < a_cmp_key k x) e))).
Proof.
  intros Hs Hh Hf e.
  assert (Hlen : forall P (HP : forall x, Decision (P x)), (length (filter P e) < fuel)%nat).
  { intros P HP. pose proof (length_filter P e). subst e. lia. }
  split_and!.
  - destruct (isearch_ge_spec a_cmp a_cmp_key k t Hs Hh) as (it & E & Hok & Hr).
    exists it. split; [done|]. subst e. rewrite <- Hr. apply visit_spec; [done|].
    rewrite Hr. apply Hlen.
  - destruct (isearch_gt_spec a_cmp a_cmp_key k t Hs Hh) as (it & E & Hok & Hr).
    exists it. split; [done|]. unfold above in Hr. subst e. rewrite <- Hr.
    apply visit_spec; [done|]. rewrite Hr. apply Hlen.
  - destruct (isearch_le_spec a_cmp a_cmp_key k t Hs Hh) as (it & E & Hok & Hr).
    exists it. split; [done|]. subst e. rewrite <- Hr. apply visit_back; [done|].
    rewrite Hr, length_rev. apply Hlen.
  - destruct (isearch_lt_spec a_cmp a_cmp_key k t Hs Hh) as (it & E & Hok & Hr).
    exists it. split; [done|]. unfold below in Hr. subst e. rewrite <- Hr.
    apply visit_back; [done|]. rewrite Hr, length_rev. apply Hlen.
Qed.

(** [iter] and [reverse_iter] call the callback on the nodes in order (in
    reverse order), from the start node if there is one, and stop at its first
    non-NULL result, which they return. *)
Theorem rb_iter_callback {S R} (cb : A -> S -> option R * S) t s x e1 e2 :
  sorted a_cmp t -> elements t = e1 ++ x :: e2 ->
  rb_iter a_cmp cb t None s = Some (cb_list cb (elements t) s) /\
  rb_iter a_cmp cb t (Some x) s = Some (cb_list cb (x :: e2) s) /\
  rb_reverse_iter a_cmp cb t None s = Some (cb_list cb (rev (elements t)) s) /\
  rb_reverse_iter a_cmp cb t (Some x) s = Some (cb_list cb (x :: rev e1) s).
Proof.
  intros Hs He. split_and!.
  - simpl. by rewrite iter_recurse_spec.
  - simpl. by eapply iter_start_spec.
  - simpl. by rewrite reverse_recurse_mirror, iter_recurse_spec, mirror_elements.
  - simpl. rewrite (reverse_start_mirror a_cmp).
    eapply (@iter_start_spec _ _ _ _ (flip_cmp a_cmp) (flip_strict _ _));
      [by apply mirror_sorted|].
    rewrite mirror_elements, He, rev_app_distr. simpl. by rewrite <- (assoc_L (++)).
Qed.

(** A walk visits the tree in pre-order, skipping the subtrees whose
    direction the caller did not allow at their parent, and then returns
    NULL. *)
Theorem rb_walk_preorder (dir : A -> Z) t fuel :
  sorted a_cmp t -> (height t <= RB_MAX_TREE_HEIGHT)%nat ->
  (length (preorder dir t) + 1 < fuel)%nat ->
  walk_loop dir fuel (rb_walk_init t) 0 = Some (preorder dir t).
Proof. intros Hs. apply walk_spec. by apply sorted_nodup. Qed.
End Properties.

(** C38. A valid tree may be too high for an iterator: there is one of about 67
    million nodes on which [ifirst] goes beyond the 48 entries of the path,
    though the comment on the constant says that 48 is enough for any tree that
    fits the address space. *)
Theorem rb_ifirst_overflow :
  exists t : tree, valid cmp_int no_aug t /\
    Z.of_nat (length (elements t)) = 2 ^ 26 - 2 /\ rb_ifirst t = None.
Proof.
  exists (spine 25 0). split; [apply spine_valid; lia|]. split.
  - rewrite spine_elements, length_seqZ. rewrite Z2Nat.id; done.
  - apply spine_down; [simpl; lia|]. cbn [length]. unfold RB_MAX_TREE_HEIGHT. lia.
Qed.

#[global] Instance cmp_int_key : KeyCmp cmp_int cmp_int.
Proof. split; unfold cmp_int; intros; lia. Qed.

Lemma example_sorted : sorted cmp_int example_tree.
Proof. apply example_valid. Qed.

Lemma rb_lookup_witness :
  sorted cmp_int example_tree /\
  node_of (rb_nsearch cmp_int example_tree 9) = None /\
  node_of (rb_psearch cmp_int example_tree 9) = Some 5.
Proof.
  split; [apply example_sorted|].
  destruct (rb_lookup cmp_int cmp_int example_tree 9 example_sorted) as (_ & H1 & H2 & _).
  by rewrite H1, H2.
Defined.

Lemma rb_next_prev_witness :
  exists res, rb_next cmp_int example_tree (Node false Leaf 3 1 Leaf) = Some res /\
    node_of res = Some 4.
Proof.
  destruct (rb_next_prev cmp_int example_tree false Leaf 3 1 Leaf [1; 2] [4; 5] example_sorted)
    as [H _]; [simpl; tauto|done|exact H].
Defined.

Lemma rb_iterate_witness :
  exists it, rb_ilast example_tree = Some it /\ visit rb_iprev 6 it = Some [5; 4; 3; 2; 1].
Proof.
  apply (rb_iterate cmp_int example_tree 6 example_sorted);
    [by apply (bool_decide_unpack _); vm_compute|simpl; lia].
Defined.

Lemma rb_isearch_iterate_witness :
  exists it, rb_isearch_lt cmp_int example_tree 4 = Some it /\
    visit rb_iprev 6 it = Some [3; 2; 1].
Proof.
  destruct (rb_isearch_iterate cmp_int cmp_int example_tree 4 6 example_sorted)
    as (_ & _ & _ & H);
    [by apply (bool_decide_unpack _); vm_compute|simpl; lia|exact H].
Defined.

(** A callback that collects the nodes it sees and stops at 4. *)
Definition example_cb (x : Z) (seen : list Z) : option Z * list Z :=
  (if x =? 4 then Some x else None, seen ++ [x]).

Lemma rb_iter_callback_witness :
  rb_iter cmp_int example_cb example_tree (Some 2) [] = Some (Some 4, [2; 3; 4]).
Proof.
  destruct (rb_iter_callback cmp_int example_cb example_tree [] 2 [1] [3; 4; 5] example_sorted
    eq_refl) as (_ & H & _). exact H.
Defined.

Lemma rb_walk_preorder_witness :
  walk_loop (fun x => if x =? 2 then RB_WALK_RIGHT else Z.lor RB_WALK_LEFT RB_WALK_RIGHT) 9
    (rb_walk_init example_tree) 0 = Some [4; 2; 3; 5].
Proof.
  apply (rb_walk_preorder cmp_int
    (fun x => if x =? 2 then RB_WALK_RIGHT else Z.lor RB_WALK_LEFT RB_WALK_RIGHT)
    example_tree 9 example_sorted); [by apply (bool_decide_unpack _); vm_compute|].
  by apply (bool_decide_unpack _); vm_compute.
Defined.
