(* ===== verification/SlabArena.v ===== *)
(** * Slab arena: [include/small/slab_arena.h], [small/slab_arena.c]

    The source of aligned slabs: a preallocated region, then [mmap], with a
    lock-free cache of returned slabs and a shared quota.  The operating system
    is a parameter ([OsLaws] states what [mmap] and [munmap] promise).  The calls
    are run one at a time here: the cache is the stack that [LfLifo] shows the
    lock-free list to be, and the quota is used in one step.  [map_step] is one
    such step of [slab_map]; [ArenaMt] runs threads on the list and the word of
    the quota themselves. *)
From S2P Require Import Prelude Util Quota LfLifo.

(** ** The operating system *)

(** The page of the platform. *)
Definition page : Z := 4096.

(** [mmap(NULL, size, ...)], None for MAP_FAILED, and [munmap], true for
    success. *)
Class OsLaws {os : Type} (mapped : os -> Z -> Prop)
    (mmap : os -> Z -> Z -> option Z * os) (munmap : os -> Z -> Z -> bool * os) : Prop := {
  mmap_some o sz fl a o' :
    0 < sz -> sz mod page = 0 -> mmap o sz fl = (Some a, o') ->
    0 < a /\ a mod page = 0 /\ (forall x, a <= x < a + sz -> ~ mapped o x) /\
    (forall x, mapped o' x <-> mapped o x \/ a <= x < a + sz);
  mmap_none o sz fl o' :
    mmap o sz fl = (None, o') -> forall x, mapped o' x <-> mapped o x;
  munmap_true o a sz o' :
    0 < sz -> sz mod page = 0 -> a mod page = 0 -> munmap o a sz = (true, o') ->
    forall x, mapped o' x <-> mapped o x /\ ~ (a <= x < a + sz);
  munmap_false o a sz o' :
    munmap o a sz = (false, o') -> forall x, mapped o' x <-> mapped o x;
}.

(** [munmap] fails with ENOMEM when taking pages out of the middle of a mapping
    gives the process more mappings than it may have.  What a client of the arena
    can rely on only in a process that stays below that limit is proved under
    [OsMunmapOk]. *)
Class OsMunmapOk {os : Type} (mapped : os -> Z -> Prop) (munmap : os -> Z -> Z -> bool * os) : Prop :=
  munmap_ok o a sz : 0 < sz -> sz mod page = 0 -> a mod page = 0 ->
    (forall x, a <= x < a + sz -> mapped o x) -> (munmap o a sz).1 = true.

(** Whether [TARANTOOL_SMALL_USE_MADVISE] is defined; [madvise(addr, size,
    advice)], 0 for success, and [mprotect(addr, size, PROT_READ)].  Neither
    changes what is mapped. *)
Class OsAdvice (os : Type) := {
  use_madvise : bool;
  madvise : os -> Z -> Z -> Z -> Z * os;
  mprotect : os -> Z -> Z -> os;
}.
Class OsAdviceLaws {os : Type} `{!OsAdvice os} (mapped : os -> Z -> Prop) : Prop := {
  madvise_mapped o a sz adv x : mapped (madvise o a sz adv).2 x <-> mapped o x;
  mprotect_mapped o a sz x : mapped (mprotect o a sz) x <-> mapped o x;
}.

Section Arena.
Context {os : Type} (mapped : os -> Z -> Prop) (mmap : os -> Z -> Z -> option Z * os)
  (munmap : os -> Z -> Z -> bool * os) `{!OsAdvice os}.

(** ** Definitions *)

Definition SLAB_MIN_SIZE : Z := 65535 + 1.
Definition SLAB_ARENA_FLAG_MARK : Z := 2147483648.
Definition SLAB_ARENA_FLAG (x : Z) : Z := Z.lor x SLAB_ARENA_FLAG_MARK.
Definition IS_SLAB_ARENA_FLAG (f x : Z) : bool := Z.land f x =? x.
Definition SLAB_ARENA_PRIVATE : Z := SLAB_ARENA_FLAG (Z.shiftl 1 0).
Definition SLAB_ARENA_SHARED : Z := SLAB_ARENA_FLAG (Z.shiftl 1 1).
Definition SLAB_ARENA_DONTDUMP : Z := SLAB_ARENA_FLAG (Z.shiftl 1 2).
(** Constants of [sys/mman.h]. *)
Definition MAP_SHARED : Z := 1.
Definition MAP_PRIVATE : Z := 2.
Definition MAP_ANONYMOUS : Z := 32.
Definition MADV_DONTDUMP : Z := 16.

(** A failure is only reported. *)
Definition madvise_checked (o : os) (ptr size flags : Z) : os :=
  if use_madvise then
    if ptr =? NULL then o
    else if negb (IS_SLAB_ARENA_FLAG flags SLAB_ARENA_DONTDUMP) then o
    else (madvise o ptr size MADV_DONTDUMP).2
  else o.

Definition munmap_checked (o : os) (addr size : Z) : option os :=
  let '(ok, o) := munmap o addr size in
  ASSERT ok; Some o.

Definition mmap_checked (o : os) (size align flags : Z) : option (Z * os) :=
  ASSERT Z.land align (align - 1) =? 0;
  ASSERT Z.land size (align - 1) =? 0;
  let flags :=
    if IS_SLAB_ARENA_FLAG flags SLAB_ARENA_PRIVATE then Z.lor MAP_PRIVATE MAP_ANONYMOUS
    else Z.lor MAP_SHARED MAP_ANONYMOUS in
  match mmap o size flags with
  | (None, o) => Some (NULL, o)
  | (Some map, o) =>
      if Z.land map (align - 1) =? 0 then Some (map, o)
      else
        o ← munmap_checked o map size;
        match mmap o (u64 (size + align)) flags with
        | (None, o) => Some (NULL, o)
        | (Some map, o) =>
            let offset := Z.land map (align - 1) in
            if negb (offset =? 0) then
              o ← munmap_checked o map (align - offset);
              let map := map + (align - offset) in
              o ← munmap_checked o (map + size) offset;
              Some (map, o)
            else
              o ← munmap_checked o (map + size) align;
              Some (map, o)
        end
  end.

Record slab_arena := SlabArena {
  cache : list Z;
  arena : Z;
  prealloc : Z;
  used : Z;
  slab_size : Z;
  flags : Z;
}.

(** The arena, the quota it adheres to and the operating system. *)
Record shared := Shared { ar : slab_arena; quo : quota; osys : os }.

Definition slab_arena_flags_init (flags : Z) : option Z :=
  if Z.land flags SLAB_ARENA_FLAG_MARK =? 0 then
    ASSERT negb (Z.land flags (Z.lor MAP_PRIVATE MAP_SHARED) =? 0);
    if flags =? MAP_PRIVATE then Some SLAB_ARENA_PRIVATE else Some SLAB_ARENA_SHARED
  else
    ASSERT IS_SLAB_ARENA_FLAG flags SLAB_ARENA_PRIVATE ||
           IS_SLAB_ARENA_FLAG flags SLAB_ARENA_SHARED;
    Some flags.

Definition slab_arena_create (o : os) (q : quota) (prealloc slab_size flags : Z) :
    option (Z * shared) :=
  let rounded := Z.max slab_size SLAB_MIN_SIZE in
  ASSERT small_round_ok rounded;
  let slab_size := u32 (small_round rounded) in
  let prealloc := Z.min prealloc (quota_total q) in
  let prealloc := Z.min prealloc (SIZE_MAX - slab_size) in
  ASSERT small_align_ok prealloc slab_size;
  let prealloc := small_align prealloc slab_size in
  flags ← slab_arena_flags_init flags;
  '(arena, o) ← (if negb (prealloc =? 0) then mmap_checked o prealloc slab_size flags
                 else Some (NULL, o));
  let o := madvise_checked o arena prealloc flags in
  Some (if negb (prealloc =? 0) && (arena =? NULL) then -1 else 0,
        Shared (SlabArena [] arena prealloc 0 slab_size flags) q o).

Definition with_cache (a : slab_arena) (c : list Z) : slab_arena :=
  SlabArena c (arena a) (prealloc a) (used a) (slab_size a) (flags a).
Definition with_used (a : slab_arena) (u : Z) : slab_arena :=
  SlabArena (cache a) (arena a) (prealloc a) u (slab_size a) (flags a).

(** The accesses of [slab_map] to shared state, in order. *)
Inductive map_pc := MPop | MQuota | MAdd | MMmap | MSub | MRelease.
Inductive map_next := Goto (p : map_pc) | Ret (ptr : Z).

Definition map_step (p : map_pc) (s : shared) : option (map_next * shared) :=
  let a := ar s in
  match p with
  | MPop =>
      match cache a with
      | ptr :: c => Some (Ret ptr, Shared (with_cache a c) (quo s) (osys s))
      | [] => Some (Goto MQuota, s)
      end
  | MQuota =>
      '(r, q) ← quota_use false (quo s) (slab_size a);
      Some (if r <? 0 then Ret NULL else Goto MAdd, Shared a q (osys s))
  | MAdd =>
      let s' := Shared (with_used a (u64 (used a + slab_size a))) (quo s) (osys s) in
      let used := u64 (used a + slab_size a) in
      if used <=? prealloc a then Some (Ret (arena a + used - slab_size a), s')
      else Some (Goto MMmap, s')
  | MMmap =>
      '(ptr, o) ← mmap_checked (osys s) (slab_size a) (slab_size a) (flags a);
      if ptr =? NULL then Some (Goto MSub, Shared a (quo s) o)
      else Some (Ret ptr, Shared a (quo s) (madvise_checked o ptr (slab_size a) (flags a)))
  | MSub =>
      Some (Goto MRelease,
            Shared (with_used a (u64 (used a - slab_size a))) (quo s) (osys s))
  | MRelease =>
      '(_, q) ← quota_release false (quo s) (slab_size a);
      Some (Ret NULL, Shared a q (osys s))
  end.

(** The call alone; six accesses are enough. *)
Fixpoint map_run (fuel : nat) (p : map_pc) (s : shared) : option (Z * shared) :=
  match fuel with
  | O => None
  | S fuel =>
      match map_step p s with
      | None => None
      | Some (Ret ptr, s) => Some (ptr, s)
      | Some (Goto p, s) => map_run fuel p s
      end
  end.

Definition slab_map (s : shared) : option (Z * shared) := map_run 6 MPop s.

Definition slab_unmap (s : shared) (ptr : Z) : option shared :=
  if ptr =? NULL then Some s
  else
    ASSERT lf_lifo ptr =? ptr;
    Some (Shared (with_cache (ar s) (ptr :: cache (ar s))) (quo s) (osys s)).

(** The loop of [slab_arena_destroy]: unmaps the cached slabs outside the
    preallocated region and adds up all of them. *)
Fixpoint destroy_loop (a : slab_arena) (c : list Z) (o : os) (total : Z) : option (Z * os) :=
  match c with
  | [] => Some (total, o)
  | ptr :: c =>
      o ← (if (arena a =? NULL) || (ptr <? arena a) || (ptr >=? arena a + prealloc a)
           then munmap_checked o ptr (slab_size a) else Some o);
      destroy_loop a c o (u64 (total + slab_size a))
  end.

Definition slab_arena_destroy (s : shared) : option os :=
  let a := ar s in
  '(total, o) ← destroy_loop a (cache a) (osys s) 0;
  o ← (if negb (arena a =? NULL) then munmap_checked o (arena a) (prealloc a) else Some o);
  ASSERT total =? used a;
  Some o.

Definition slab_arena_mprotect (s : shared) : shared :=
  if negb (arena (ar s) =? NULL)
  then Shared (ar s) (quo s) (mprotect (osys s) (arena (ar s)) (prealloc (ar s))) else s.

(** ** [mmap_checked] *)

Context `{!OsLaws mapped mmap munmap} `{!OsAdviceLaws mapped}.

Lemma madvise_checked_mapped o p n fl x : mapped (madvise_checked o p n fl) x <-> mapped o x.
Proof.
  unfold madvise_checked. destruct use_madvise; [|done]. destruct (p =? NULL); [done|]. destruct (negb _); [done|].
  apply madvise_mapped.
Qed.

(** [munmap] reports failure for mapped pages. *)
Definition munmap_failed : Prop :=
  exists o a sz, 0 < sz /\ sz mod page = 0 /\ a mod page = 0 /\
    (forall x, a <= x < a + sz -> mapped o x) /\ (munmap o a sz).1 = false.

Lemma munmap_never_failed `{!OsMunmapOk mapped munmap} : ~ munmap_failed.
Proof. intros (o & a & sz & H1 & H2 & H3 & H4 & H5). rewrite (munmap_ok o a sz) in H5; done. Qed.

(** A call returns a value with the property [P], or its assertion fails because
    [munmap] did. *)
Definition unless_munmap {A} (r : option A) (P : A -> Prop) : Prop :=
  (exists x, r = Some x /\ P x) \/ (r = None /\ munmap_failed).

Lemma unless_munmap_ok {A} `{!OsMunmapOk mapped munmap} (r : option A) P :
  unless_munmap r P -> exists x, r = Some x /\ P x.
Proof. intros [?|[_ []%munmap_never_failed]]. done. Qed.

Lemma munmap_checked_ok o a sz :
  0 < sz -> sz mod page = 0 -> a mod page = 0 -> (forall x, a <= x < a + sz -> mapped o x) ->
  unless_munmap (munmap_checked o a sz) (fun o' => forall x, mapped o' x <-> mapped o x /\ ~ (a <= x < a + sz)).
Proof.
  intros H1 H2 H3 H4. unfold munmap_checked, unless_munmap. destruct (munmap o a sz) as [[] o'] eqn:E; [left|right].
  - exists o'. split; [done|]. by eapply munmap_true.
  - split; [done|]. exists o, a, sz. split_and!; [done..|]. by rewrite E.
Qed.

(** Calls one after the other. *)
Lemma unless_munmap_bind {A B} (r : option A) (f : A -> option B) P Q :
  unless_munmap r P -> (forall x, P x -> unless_munmap (f x) Q) -> unless_munmap (r ≫= f) Q.
Proof. intros [(x & -> & Hx)|[-> Hf]] H; [by apply H|by right]. Qed.

(** What a call that maps [size] bytes at [p] did. *)
Definition maps (o o' : os) (align size p : Z) : Prop :=
  (p = NULL /\ forall x, mapped o' x <-> mapped o x) \/
  (0 < p /\ p mod align = 0 /\ (forall x, p <= x < p + size -> ~ mapped o x) /\
   forall x, mapped o' x <-> mapped o x \/ p <= x < p + size).

Lemma page_pow k : 12 <= k -> 2 ^ k mod page = 0.
Proof.
  intros Hk. change page with (2 ^ 12). replace k with ((k - 12) + 12) by lia.
  rewrite Z.pow_add_r by lia. apply Z.mod_mul. lia.
Qed.

(** What [mmap_checked] does with a mapping that is larger by the alignment: it
    gives back what lies before and behind the aligned part. *)
Definition trim (o : os) (map size align : Z) : option (Z * os) :=
  let offset := Z.land map (align - 1) in
  if negb (offset =? 0) then
    o ← munmap_checked o map (align - offset);
    let map := map + (align - offset) in
    o ← munmap_checked o (map + size) offset;
    Some (map, o)
  else
    o ← munmap_checked o (map + size) align;
    Some (map, o).

Lemma trim_maps o o1 k size map :
  12 <= k < 64 -> 0 < size -> size mod page = 0 -> 0 < map -> map mod page = 0 ->
  (forall x, map <= x < map + (size + 2 ^ k) -> ~ mapped o x) ->
  (forall x, mapped o1 x <-> mapped o x \/ map <= x < map + (size + 2 ^ k)) ->
  unless_munmap (trim o1 map size (2 ^ k)) (fun '(p, o') => maps o o' (2 ^ k) size p).
Proof.
  intros Hk Hs Hsp Q1 Q2 Q3 Q4. pose proof (pow2_pos k ltac:(lia)) as Hp. pose proof (page_pow k ltac:(lia)) as Hpk.
  assert (Hpage : 0 < page) by done. unfold trim. rewrite land_mask by lia.
  pose proof (Z.mod_pos_bound map (2 ^ k) Hp) as Hoff. pose proof (Z.div_mod map (2 ^ k) ltac:(lia)) as Hdiv.
  set (off := map mod 2 ^ k) in *. destruct (Z.eqb_spec off 0) as [Hz|Hz]; cbn [negb].
  - eapply unless_munmap_bind; [apply munmap_checked_ok; [done..| |]|].
    { rewrite Z.add_mod, Q2, Hsp by lia. done. }
    { intros x Hx. apply Q4. right. lia. }
    intros o4 H4. cbn beta in H4. left. eexists. split; [done|]. right. split_and!; [done|done|intros x Hx; apply Q3; lia|].
    intros x. rewrite H4, Q4. split; [intros [[?|?] ?]; [by left|right; lia]|].
    intros [Hx|Hx]; [|split; [right; lia|lia]]. split; [by left|]. intros Hr. apply (Q3 x); [lia|done].
  - assert (Hop : off mod page = 0).
    { replace off with (map - 2 ^ k * (map / 2 ^ k)) by lia. rewrite Zminus_mod, Q2, Z.mul_mod, Hpk by lia. done. }
    eapply unless_munmap_bind; [apply munmap_checked_ok; [lia| |done|]|].
    { rewrite Zminus_mod, Hpk, Hop by lia. done. }
    { intros x Hx. apply Q4. right. lia. }
    intros o4 H4. cbn beta in H4. cbn zeta. set (p := map + (2 ^ k - off)).
    assert (Hpm : p mod 2 ^ k = 0).
    { subst p. replace (map + (2 ^ k - off)) with ((map / 2 ^ k + 1) * 2 ^ k) by lia. apply Z.mod_mul. lia. }
    eapply unless_munmap_bind; [apply munmap_checked_ok; [lia|done| |]|].
    { rewrite Z.add_mod, Hsp by lia. rewrite (mod_multiple p page (2 ^ k)) by done. done. }
    { intros x Hx. apply H4. split; [apply Q4; right; lia|lia]. }
    intros o5 H5. cbn beta in H5. left. eexists. split; [done|]. right. split_and!; [lia|done|intros x Hx; apply Q3; lia|].
    intros x. rewrite H5, H4, Q4. split; [intros [[[?|?] ?] ?]; [by left|right; lia]|].
    intros [Hx|Hx]; [|split; [split; [right; lia|lia]|lia]].
    assert (~ (map <= x < map + (size + 2 ^ k))) by (intros Hr; by apply (Q3 x)).
    split; [split; [by left|lia]|lia].
Qed.

Lemma mmap_checked_maps o k size fl :
  12 <= k < 64 -> 0 < size -> size mod 2 ^ k = 0 -> size + 2 ^ k < 2 ^ 64 ->
  unless_munmap (mmap_checked o size (2 ^ k) fl) (fun '(p, o') => maps o o' (2 ^ k) size p).
Proof.
  intros Hk Hs Hm Hb. unfold mmap_checked. rewrite !land_mask by lia.
  pose proof (pow2_pos k ltac:(lia)) as Hp. pose proof (page_pow k ltac:(lia)) as Hpk.
  assert (Hpage : 0 < page) by done.
  assert (Hsp : size mod page = 0) by (eapply (mod_multiple size page (2 ^ k)); done).
  rewrite Z.mod_same, Hm by lia. cbn [Z.eqb].
  match goal with |- context [mmap o size ?f] => generalize f; intros fl' end.
  destruct (mmap o size fl') as [[map|] o1] eqn:E1.
  2:{ left. eexists. split; [done|]. left. split; [done|]. by eapply mmap_none. }
  destruct (mmap_some _ _ _ _ _ Hs Hsp E1) as (P1 & P2 & P3 & P4).
  rewrite land_mask by lia. destruct (Z.eqb_spec (map mod 2 ^ k) 0) as [Ha|Ha].
  { left. eexists. split; [done|]. right. done. }
  eapply unless_munmap_bind; [apply munmap_checked_ok; [done..|]|].
  { intros x Hx. apply P4. by right. }
  intros o2 H2. cbn beta in H2. assert (H02 : forall x, mapped o2 x <-> mapped o x).
  { intros x. rewrite H2, P4. split; [tauto|]. intros Hx. split; [by left|].
    intros Hr. by apply (P3 x Hr). }
  rewrite u64_small by lia.
  destruct (mmap o2 (size + 2 ^ k) fl') as [[map2|] o3] eqn:E3.
  2:{ left. eexists. split; [done|]. left. split; [done|]. intros x.
      rewrite (mmap_none _ _ _ _ E3). apply H02. }
  destruct (mmap_some o2 (size + 2 ^ k) fl' map2 o3) as (Q1 & Q2 & Q3 & Q4); [lia| |done|].
  { rewrite Z.add_mod, Hsp, Hpk by lia. done. }
  apply (trim_maps o o3 k size map2); try done.
  - intros x Hx. rewrite <- H02. by apply Q3.
  - intros x. by rewrite Q4, H02.
Qed.

(** ** Calls in progress

    What [used] and the quota account for: the slabs, and the calls of [slab_map]
    that are past their use of the quota. *)

Record thread := Thread { holds : list Z; at_pc : option map_pc }.

Record system := System { sh : shared; threads : list thread }.

(** A call holds quota, or has raised [used], while it is at these points. *)
Definition has_quota (p : option map_pc) : Z :=
  match p with Some (MAdd | MMmap | MSub | MRelease) => 1 | _ => 0 end.
Definition has_used (p : option map_pc) : Z :=
  match p with Some (MMmap | MSub) => 1 | _ => 0 end.

(** The slabs in the cache and in threads. *)
Definition slabs (s : shared) (l : list thread) : list Z := cache (ar s) ++ concat (holds <$> l).

(** The units of quota slabs and calls account for. *)
Definition share (s : system) : Z :=
  in_units (slab_size (ar (sh s))) *
  (Z.of_nat (length (slabs (sh s) (threads s))) + zsum (fun t => has_quota (at_pc t)) (threads s)).

(** ** The invariant *)

(** [p] is in the preallocated region. *)
Definition in_region (a : slab_arena) (p : Z) : Prop := arena a <= p < arena a + prealloc a.
Definition outside (a : slab_arena) (p : Z) : Z :=
  if (arena a <=? p) && (p <? arena a + prealloc a) then 0 else 1.

(** The fixed part of an arena: slabs of size [2^k], a region of whole slabs. *)
Record arena_ok (k : Z) (a : slab_arena) : Prop := {
  ok_size : slab_size a = 2 ^ k /\ 16 <= k <= 31;
  ok_region : arena a mod 2 ^ k = 0 /\ prealloc a mod 2 ^ k = 0 /\ 0 <= prealloc a < 2 ^ 64 /\
    (0 < prealloc a -> 0 < arena a) /\ (prealloc a = 0 -> arena a = 0);
}.

(** The changing part: [L] are all the slabs, [n] the calls that raised [used]
    beyond them, [units] the quota accounted for. *)
Record counts (k : Z) (a : slab_arena) (q : quota) (L : list Z) (n units : Z) : Prop := {
  c_nodup : NoDup L;
  c_aligned : forall p, p ∈ L -> 0 < p /\ p mod 2 ^ k = 0;
  c_used : used a = 2 ^ k * (Z.of_nat (length L) + n) /\ 0 <= n;
  c_region : forall p, p ∈ L -> in_region a p -> p < arena a + used a;
  c_full : prealloc a <= used a - 2 ^ k * (n + zsum (outside a) L) \/
    (n = 0 /\ zsum (outside a) L = 0);
  c_quota : exists t u, q = Quota (enc (t, u)) /\ 0 <= u <= t /\ t + 2 ^ 21 < 2 ^ 32 /\ units <= u;
}.

(** Slabs and region are mapped. *)
Definition all_mapped (k : Z) (a : slab_arena) (o : os) (L : list Z) : Prop :=
  (forall p x, p ∈ L -> p <= x < p + 2 ^ k -> mapped o x) /\
  (forall x, in_region a x -> mapped o x).

Definition n_used (l : list thread) : Z := zsum (fun t => has_used (at_pc t)) l.

Definition sys_inv (k : Z) (s : system) : Prop :=
  let L := slabs (sh s) (threads s) in
  arena_ok k (ar (sh s)) /\
  counts k (ar (sh s)) (quo (sh s)) L (n_used (threads s)) (share s) /\
  all_mapped k (ar (sh s)) (osys (sh s)) L.

(** ** Steps *)

Lemma slab_units k : 16 <= k <= 31 -> in_units (2 ^ k) * 1024 = 2 ^ k /\ 64 <= in_units (2 ^ k).
Proof.
  intros Hk. pose proof (pow2_mono k 31 ltac:(lia)) as Hu. pose proof (pow2_mono 16 k ltac:(lia)) as Hl.
  destruct (in_units_eq (2 ^ k)) as [E _]; [rewrite QUOTA_MAX_eq; lia|].
  replace k with ((k - 10) + 10) in E at 2 by lia. rewrite Z.pow_add_r in E by lia.
  change (2 ^ 10) with 1024 in E. rewrite Z.add_comm, Z.div_add in E by lia.
  change (1023 / 1024) with 0 in E. rewrite E.
  replace k with ((k - 10) + 10) by lia. rewrite Z.pow_add_r by lia. change (2 ^ 10) with 1024.
  pose proof (pow2_mono 6 (k - 10) ltac:(lia)).
  replace (k - 10 + 10 - 10) with (k - 10) by lia. lia.
Qed.

Lemma holds_split l i th :
  l !! i = Some th -> exists rest, concat (holds <$> l) ≡ₚ holds th ++ rest /\
    forall th', concat (holds <$> <[i := th']> l) ≡ₚ holds th' ++ rest.
Proof.
  revert i. induction l as [|x l IH]; intros [|i] Hi; simplify_eq/=; [by eexists|].
  destruct (IH i Hi) as (rest & H1 & H2). exists (holds x ++ rest).
  split; [|intros th']; rewrite ?H1, ?H2; apply Permutation_app_swap_app.
Qed.

Lemma counts_perm k a q L L' n units :
  L ≡ₚ L' -> counts k a q L n units -> counts k a q L' n units.
Proof.
  intros Hp [H1 H2 H3 H4 H5 H6]. pose proof (Permutation_length Hp) as Hl.
  pose proof (zsum_perm (outside a) _ _ Hp) as Hz. split.
  - by rewrite <- Hp.
  - intros p. rewrite <- Hp. apply H2.
  - by rewrite <- Hl.
  - intros p. rewrite <- Hp. apply H4.
  - by rewrite <- Hz.
  - done.
Qed.

Lemma mapped_perm k a o L L' : L ≡ₚ L' -> all_mapped k a o L -> all_mapped k a o L'.
Proof. intros Hp [H1 H2]. split; [|done]. intros p x. rewrite <- Hp. apply H1. Qed.

(** Only the slabs are rearranged. *)
Lemma inv_perm k a c a' q o l l' :
  sys_inv k (System (Shared a q o) l) -> a' = with_cache a c ->
  slabs (Shared a' q o) l' ≡ₚ slabs (Shared a q o) l ->
  n_used l' = n_used l ->
  zsum (fun t => has_quota (at_pc t)) l' = zsum (fun t => has_quota (at_pc t)) l ->
  sys_inv k (System (Shared a' q o) l').
Proof.
  intros (Hok & Hc & Hm) -> Hp Hn Hq. unfold sys_inv. cbn [sh threads ar quo osys] in *.
  assert (Hs : share (System (Shared (with_cache a c) q o) l') = share (System (Shared a q o) l)).
  { unfold share. cbn [sh threads ar]. by rewrite Hq, (Permutation_length Hp). }
  rewrite Hs, Hn. split; [by destruct Hok; split|]. symmetry in Hp. split.
  - eapply counts_perm; [exact Hp|]. by destruct Hc; split.
  - eapply mapped_perm; [exact Hp|done].
Qed.

(** The slabs and accounts when thread [i] moves from [th] to [th']. *)
Lemma move_thread l i th th' :
  l !! i = Some th -> holds th' = holds th ->
  concat (holds <$> <[i := th']> l) ≡ₚ concat (holds <$> l).
Proof.
  intros Hi Hh. destruct (holds_split l i th Hi) as (rest & H1 & H2).
  by rewrite H1, H2, Hh.
Qed.

Lemma n_used_insert l i th th' : l !! i = Some th ->
  n_used (<[i := th']> l) = n_used l - has_used (at_pc th) + has_used (at_pc th').
Proof. intros Hi. unfold n_used. by rewrite (zsum_insert _ _ _ _ _ Hi). Qed.

Definition n_quota (l : list thread) : Z := zsum (fun t => has_quota (at_pc t)) l.
Lemma n_quota_insert l i th th' : l !! i = Some th ->
  n_quota (<[i := th']> l) = n_quota l - has_quota (at_pc th) + has_quota (at_pc th').
Proof. intros Hi. unfold n_quota. by rewrite (zsum_insert _ _ _ _ _ Hi). Qed.

Lemma used_quota l : 0 <= n_used l <= n_quota l.
Proof.
  unfold n_used, n_quota. induction l as [|[own [[]|]] l IH]; simpl; lia.
Qed.

(** A thread at a point that holds quota but has not raised [used]. *)
Lemma used_quota_lt l i th : l !! i = Some th -> has_used (at_pc th) < has_quota (at_pc th) ->
  n_used l < n_quota l.
Proof.
  intros Hi Hlt. pose proof (used_quota (<[i := Thread (holds th) None]> l)) as H.
  rewrite (n_used_insert _ _ _ _ Hi), (n_quota_insert _ _ _ _ Hi) in H.
  cbn [at_pc has_used has_quota] in H. lia.
Qed.

Lemma has_used_in l i th : l !! i = Some th -> 0 < has_used (at_pc th) -> 0 < n_used l.
Proof.
  intros Hi Hp. unfold n_used. pose proof (zsum_elem (fun t => has_used (at_pc t)) l i th) as H.
  specialize (H ltac:(intros [? [[]|]] _; simpl; lia) Hi).
  cbn beta in H. lia.
Qed.

(** Quota bounds the number of slabs and calls. *)
Lemma inv_bound k s l : sys_inv k (System s l) ->
  2 ^ k * (Z.of_nat (length (slabs s l)) + n_quota l) <= 2 ^ 42.
Proof.
  intros (Hok & Hc & _). destruct (c_quota _ _ _ _ _ _ Hc) as (t & u & _ & Hu & Ht & Hs).
  destruct (ok_size _ _ Hok) as [Hsz Hk]. unfold share in Hs. cbn [sh threads] in *.
  rewrite Hsz in Hs. destruct (slab_units k Hk) as [H1 _]. fold (n_quota l) in Hs. rewrite <- H1.
  set (x := Z.of_nat _ + _) in *. replace (in_units (2 ^ k) * 1024 * x) with
    (1024 * (in_units (2 ^ k) * x)) by ring. lia.
Qed.

Lemma slabs_length s l : 0 <= Z.of_nat (length (slabs s l)).
Proof. lia. Qed.

(** Thread [i] takes [units] of quota, or returns them. *)
Lemma inv_quota k s l i own p p' t u t' u' :
  sys_inv k (System s l) -> l !! i = Some (Thread own p) -> quo s = Quota (enc (t, u)) ->
  0 <= u' <= t' -> t' + 2 ^ 21 < 2 ^ 32 -> has_used p' = has_used p ->
  share (System s l) + in_units (slab_size (ar s)) * (has_quota p' - has_quota p) <= u' ->
  sys_inv k (System (Shared (ar s) (Quota (enc (t', u'))) (osys s)) (<[i := Thread own p']> l)).
Proof.
  intros (Hok & Hc & Hm) Hi Hq Hu' Ht' Hhu Hsh. destruct s as [a q o].
  cbn [sh threads ar quo osys] in *.
  pose proof (move_thread l i _ (Thread own p') Hi eq_refl) as Hp.
  assert (Hp' : slabs (Shared a q o) l ≡ₚ slabs (Shared a (Quota (enc (t', u'))) o)
    (<[i := Thread own p']> l)) by (unfold slabs; by rewrite Hp).
  split; [done|]. cbn [sh threads ar quo osys]. split.
  - assert (Hn : n_used (<[i := Thread own p']> l) = n_used l).
    { rewrite (n_used_insert _ _ _ _ Hi). simpl. lia. }
    rewrite Hn. eapply counts_perm; [exact Hp'|]. destruct Hc as [H1 H2 H3 H4 H5 H6].
    split; try done. exists t', u'. split_and!; [done|lia|lia|done|].
    etransitivity; [|exact Hsh]. unfold share. cbn [sh threads ar].
    fold (n_quota l) (n_quota (<[i := Thread own p']> l)).
    rewrite (n_quota_insert _ _ _ _ Hi), <- (Permutation_length Hp'). simpl. lia.
  - eapply mapped_perm; [exact Hp'|done].
Qed.

(** Thread [i] only moves to another point of the call. *)
Lemma inv_goto k s l i own p p' :
  sys_inv k (System s l) -> l !! i = Some (Thread own p) ->
  has_used p' = has_used p -> has_quota p' = has_quota p ->
  sys_inv k (System s (<[i := Thread own p']> l)).
Proof.
  intros Hinv Hi Hu Hq. destruct s as [a q o].
  eapply (inv_perm k a (cache a)); [exact Hinv|by destruct a| | |].
  - unfold slabs. by rewrite (move_thread l i _ _ Hi).
  - rewrite (n_used_insert _ _ _ _ Hi). simpl. lia.
  - fold (n_quota l) (n_quota (<[i := Thread own p']> l)).
    rewrite (n_quota_insert _ _ _ _ Hi). simpl. lia.
Qed.

(** A slab [ptr] goes to thread [i], from the cache or as a new one. *)
Lemma slabs_take s l i own p ptr : l !! i = Some (Thread own p) ->
  slabs s (<[i := Thread (ptr :: own) None]> l) ≡ₚ ptr :: slabs s l.
Proof.
  intros Hi. unfold slabs. destruct (holds_split l i _ Hi) as (rest & H1 & H2).
  rewrite H1, H2. cbn [holds app]. by rewrite <- Permutation_middle.
Qed.

Lemma outside_region a p : in_region a p -> outside a p = 0.
Proof.
  intros [H1 H2]. unfold outside. rewrite (proj2 (Z.leb_le _ _)), (proj2 (Z.ltb_lt _ _)) by lia.
  done.
Qed.
Lemma outside_not a p : ~ in_region a p -> outside a p = 1.
Proof.
  intros H. unfold outside, in_region in *. destruct (Z.leb_spec (arena a) p); [|done].
  destruct (Z.ltb_spec p (arena a + prealloc a)); [|done]. exfalso. lia.
Qed.
Lemma outside_nonneg a L : 0 <= zsum (outside a) L.
Proof. apply zsum_nonneg. intros p _. unfold outside. by destruct (_ && _). Qed.

Lemma used_u64 k s l i own p : sys_inv k (System s l) -> l !! i = Some (Thread own (Some p)) ->
  (p = MAdd \/ p = MSub) ->
  used (ar s) = 2 ^ k * (Z.of_nat (length (slabs s l)) + n_used l) /\
  0 <= used (ar s) /\ used (ar s) + 2 ^ k < 2 ^ 64 /\ (p = MSub -> 0 < n_used l).
Proof.
  intros Hinv Hi Hp. pose proof (inv_bound _ _ _ Hinv) as Hb. destruct Hinv as (Hok & Hc & _).
  destruct (ok_size _ _ Hok) as [Hsz Hk]. destruct (c_used _ _ _ _ _ _ Hc) as [Hu Hn].
  cbn [sh threads] in *. pose proof (used_quota l) as Hq.
  pose proof (pow2_mono k 31 ltac:(lia)) as Hk31. pose proof (pow2_pos k ltac:(lia)).
  split; [done|]. split; [nia|]. split; [|].
  - assert (2 ^ k * n_used l <= 2 ^ k * n_quota l) by nia. lia.
  - intros ->. apply (has_used_in l i _ Hi). simpl. lia.
Qed.

(** The share of the quota when a thread at [MAdd] goes on. *)
Lemma share_add a a' q o l i own th' : l !! i = Some (Thread own (Some MAdd)) ->
  slab_size a' = slab_size a ->
  Z.of_nat (length (slabs (Shared a' q o) (<[i := th']> l))) =
    Z.of_nat (length (slabs (Shared a q o) l)) + 1 - has_quota (at_pc th') ->
  share (System (Shared a' q o) (<[i := th']> l)) = share (System (Shared a q o) l).
Proof.
  intros Hi E1 E3. unfold share. cbn [sh threads ar]. fold (n_quota l) (n_quota (<[i := th']> l)).
  rewrite E1, E3, (n_quota_insert _ _ _ _ Hi). cbn [at_pc has_quota]. f_equal. lia.
Qed.

Lemma add_region_inv k a q o l i own :
  let a' := with_used a (used a + 2 ^ k) in let p := arena a + used a in
  sys_inv k (System (Shared a q o) l) -> l !! i = Some (Thread own (Some MAdd)) ->
  used a + 2 ^ k <= prealloc a ->
  0 < p /\ sys_inv k (System (Shared a' q o) (<[i := Thread (p :: own) None]> l)).
Proof.
  intros a' p Hinv Hi Hle. destruct (used_u64 k _ l i own MAdd Hinv Hi) as (Hu & Hu0 & Hub & _); [by left|].
  pose proof Hinv as (Hok & Hc & Hm). destruct (ok_size _ _ Hok) as [Hsz Hk]. cbn [sh threads ar quo osys] in *.
  destruct (ok_region _ _ Hok) as (Ra & Rp & Rb & Rc & Rd). pose proof (pow2_pos k ltac:(lia)) as H2k.
  destruct Hc as [C1 C2 C3 C4 C5 C6]. set (L := slabs (Shared a q o) l) in *.
  pose proof (outside_nonneg a L) as Ho. assert (Ep : p = arena a + used a) by done. clearbody p.
  assert (Hp : 0 < p) by lia. split; [done|].
  assert (C5' : n_used l = 0 /\ zsum (outside a) L = 0) by (destruct C5 as [C5|C5]; [nia|done]).
  assert (HL : slabs (Shared a' q o) (<[i := Thread (p :: own) None]> l) ≡ₚ p :: L)
    by by apply slabs_take with (p := Some MAdd).
  assert (Hpl : in_region a p) by (unfold in_region; lia).
  assert (HpL : p ∉ L) by (intros Hin; specialize (C4 p Hin Hpl); lia).
  split; [by destruct Hok; split|]. cbn [sh threads ar quo osys].
  rewrite (n_used_insert _ _ _ _ Hi). cbn [at_pc has_used].
  rewrite (share_add a a' q o l i own) by (done || (rewrite (Permutation_length HL); fold L; cbn [length at_pc has_quota]; lia)).
  symmetry in HL. split.
  - eapply counts_perm; [exact HL|]. split.
    + by constructor.
    + intros x [->|Hx]%elem_of_cons; [|by apply C2]. split; [done|].
      rewrite Ep, Hu. rewrite Z.mul_comm, Z.mod_add by lia. done.
    + cbn [length]. subst a'. cbn [with_used used]. nia.
    + intros x [->|Hx]%elem_of_cons Hr; subst a'; cbn [with_used used arena]; [lia|].
      specialize (C4 x Hx Hr). lia.
    + right. cbn [zsum foldr]. fold (zsum (outside a') L). change (outside a') with (outside a).
      rewrite (outside_region a p Hpl). lia.
    + done.
  - eapply mapped_perm; [exact HL|]. destruct Hm as [M1 M2]. split; [|done].
    intros x y [->|Hx]%elem_of_cons Hy; [|by eapply M1]. apply M2. unfold in_region.
    assert (used a mod 2 ^ k = 0) by (rewrite Hu, Z.mul_comm; apply Z.mod_mul; lia). lia.
Qed.

Lemma add_beyond_inv k a q o l i own :
  let a' := with_used a (used a + 2 ^ k) in
  sys_inv k (System (Shared a q o) l) -> l !! i = Some (Thread own (Some MAdd)) ->
  prealloc a < used a + 2 ^ k ->
  sys_inv k (System (Shared a' q o) (<[i := Thread own (Some MMmap)]> l)).
Proof.
  intros a' Hinv Hi Hgt. destruct (used_u64 k _ l i own MAdd Hinv Hi) as (Hu & _ & _ & _); [by left|].
  pose proof Hinv as (Hok & Hc & Hm). destruct (ok_size _ _ Hok) as [Hsz Hk]. cbn [sh threads ar quo osys] in *.
  destruct (ok_region _ _ Hok) as (Ra & Rp & Rb & Rc & Rd). pose proof (pow2_pos k ltac:(lia)) as H2k.
  destruct Hc as [C1 C2 C3 C4 C5 C6]. set (L := slabs (Shared a q o) l) in *.
  assert (HL : slabs (Shared a' q o) (<[i := Thread own (Some MMmap)]> l) ≡ₚ L).
  { unfold slabs, L. by rewrite (move_thread l i _ _ Hi). }
  split; [by destruct Hok; split|]. cbn [sh threads ar quo osys].
  rewrite (n_used_insert _ _ _ _ Hi). cbn [at_pc has_used].
  rewrite (share_add a a' q o l i own) by (done || (rewrite (Permutation_length HL); fold L; cbn [length at_pc has_quota]; lia)).
  symmetry in HL. split; [|by eapply mapped_perm].
  eapply counts_perm; [exact HL|]. split; try done.
  - subst a'. cbn [with_used used]. lia.
  - intros x Hx Hr. specialize (C4 x Hx Hr). subst a'. cbn [with_used used arena]. lia.
  - left. subst a'. cbn [with_used used prealloc]. change (outside (with_used a _)) with (outside a).
    assert (Hge : prealloc a <= used a).
    { apply (multiple_le (2 ^ k)); [lia|done| |lia]. rewrite Hu, Z.mul_comm. apply Z.mod_mul. lia. }
    destruct C5 as [C5|[C5 C5']]; [lia|]. rewrite C5, C5'. lia.
Qed.

Lemma add_inv k s l i own :
  sys_inv k (System s l) -> l !! i = Some (Thread own (Some MAdd)) ->
  exists n s', map_step MAdd s = Some (n, s') /\
  match n with
  | Goto p' => sys_inv k (System s' (<[i := Thread own (Some p')]> l))
  | Ret ptr => sys_inv k (System s'
      (<[i := Thread (if ptr =? NULL then own else ptr :: own) None]> l))
  end.
Proof.
  intros Hinv Hi. destruct (used_u64 k s l i own MAdd Hinv Hi) as (_ & Hu0 & Hub & _); [by left|].
  destruct (ok_size _ _ (proj1 Hinv)) as [Hsz Hk]. destruct s as [a q o]. cbn [sh threads ar quo osys] in *.
  pose proof (pow2_pos k ltac:(lia)) as H2k. unfold map_step. cbn [ar quo osys]. rewrite Hsz, u64_small by lia.
  destruct (Z.leb_spec (used a + 2 ^ k) (prealloc a)) as [Hle|Hgt]; eexists _, _; (split; [done|]); cbn beta iota.
  - replace (arena a + (used a + 2 ^ k) - 2 ^ k) with (arena a + used a) by lia.
    destruct (add_region_inv k a q o l i own Hinv Hi Hle) as [Hp H]. by rewrite (proj2 (Z.eqb_neq _ NULL)) by lia.
  - by apply add_beyond_inv.
Qed.

(** The state after a step of thread [i] that ends in [n]. *)
Definition thread_after (own : list Z) (n : map_next) : thread :=
  match n with
  | Goto p => Thread own (Some p)
  | Ret ptr => Thread (if ptr =? NULL then own else ptr :: own) None
  end.

Lemma mmap_inv k s l i own :
  sys_inv k (System s l) -> l !! i = Some (Thread own (Some MMmap)) ->
  unless_munmap (map_step MMmap s) (fun '(n, s') => sys_inv k (System s' (<[i := thread_after own n]> l))).
Proof.
  intros Hinv Hi. pose proof Hinv as (Hok & Hc & Hm). destruct (ok_size _ _ Hok) as [Hsz Hk].
  destruct s as [a q o]. cbn [sh threads ar quo osys] in *.
  pose proof (pow2_pos k ltac:(lia)) as H2k. pose proof (pow2_mono k 31 ltac:(lia)) as H31.
  pose proof (pow2_mono 16 k ltac:(lia)) as H16.
  unfold map_step. cbn [ar quo osys]. rewrite Hsz.
  eapply unless_munmap_bind; [apply mmap_checked_maps; [lia|lia|apply Z.mod_same; lia|lia]|].
  intros [p o'] Hmaps. cbn beta iota in Hmaps. left. set (L := slabs (Shared a q o) l) in *.
  destruct Hmaps as [[-> Hsame]|(Hp & Hal & Hfresh & Hadd)].
  - eexists. split; [done|]. cbn [Z.eqb thread_after].
    destruct (inv_goto k _ _ _ _ _ (Some MSub) Hinv Hi) as (H1 & H2 & [M1 M2]); [done..|].
    split; [done|]. split; [done|]. split; [|]; cbn [sh threads ar quo osys] in *.
    + intros x y Hx Hy. apply Hsame. by eapply M1.
    + intros x Hx. apply Hsame. by apply M2.
  - rewrite (proj2 (Z.eqb_neq p NULL)) by lia. eexists. split; [done|].
    cbn [thread_after]. rewrite (proj2 (Z.eqb_neq p NULL)) by lia.
    assert (Hadd' : forall x, mapped (madvise_checked o' p (2 ^ k) (flags a)) x <-> mapped o x \/ p <= x < p + 2 ^ k).
    { intros x. by rewrite madvise_checked_mapped. }
    clear Hadd. rename Hadd' into Hadd. set (o1 := madvise_checked _ _ _ _) in *. clearbody o1. clear o'. rename o1 into o'.
    destruct Hm as [M1 M2]. pose proof Hc as [C1 C2 C3 C4 C5 C6].
    assert (HpL : p ∉ L) by (intros Hin; apply (Hfresh p ltac:(lia)); eapply M1; [done|lia]).
    assert (Hpr : ~ in_region a p) by (intros Hr; apply (Hfresh p ltac:(lia)); by apply M2).
    assert (HL : slabs (Shared a q o') (<[i := Thread (p :: own) None]> l) ≡ₚ p :: L)
      by by apply slabs_take with (p := Some MMmap).
    split; [done|]. cbn [sh threads ar quo osys].
    rewrite (n_used_insert _ _ _ _ Hi). cbn [at_pc has_used].
    assert (Hsh : share (System (Shared a q o') (<[i := Thread (p :: own) None]> l)) =
      share (System (Shared a q o) l)).
    { unfold share. cbn [sh threads ar].
      fold (n_quota l) (n_quota (<[i := Thread (p :: own) None]> l)).
      rewrite (n_quota_insert _ _ _ _ Hi), (Permutation_length HL). simpl. f_equal. subst L. lia. }
    rewrite Hsh. symmetry in HL. split.
    + eapply counts_perm; [exact HL|]. split.
      * by constructor.
      * intros x [->|Hx]%elem_of_cons; [done|by apply C2].
      * cbn [length]. pose proof (has_used_in l i _ Hi ltac:(simpl; lia)). lia.
      * intros x [->|Hx]%elem_of_cons Hr; [done|by apply C4].
      * left. cbn [zsum foldr]. fold (zsum (outside a) L). rewrite (outside_not a p Hpr).
        pose proof (has_used_in l i _ Hi ltac:(simpl; lia)).
        destruct C5 as [C5|[C5 _]]; [|lia].
        replace (n_used l - 1 + 0 + (1 + zsum (outside a) L)) with (n_used l + zsum (outside a) L)
          by lia. done.
      * done.
    + eapply mapped_perm; [exact HL|]. split.
      * intros x y [->|Hx]%elem_of_cons Hy; apply Hadd; [by right|left; by eapply M1].
      * intros x Hx. apply Hadd. left. by apply M2.
Qed.

Lemma sub_inv k s l i own :
  sys_inv k (System s l) -> l !! i = Some (Thread own (Some MSub)) ->
  exists n s', map_step MSub s = Some (n, s') /\
    sys_inv k (System s' (<[i := thread_after own n]> l)).
Proof.
  intros Hinv Hi. destruct (used_u64 k s l i own MSub Hinv Hi) as (Hu & Hu0 & Hub & Hn); [by right|].
  specialize (Hn eq_refl). pose proof Hinv as (Hok & Hc & Hm).
  destruct (ok_size _ _ Hok) as [Hsz Hk]. destruct s as [a q o].
  cbn [sh threads ar quo osys] in *. pose proof (pow2_pos k ltac:(lia)) as H2k.
  pose proof Hc as [C1 C2 C3 C4 C5 C6]. set (L := slabs (Shared a q o) l) in *.
  pose proof (outside_nonneg a L) as Ho.
  eexists _, _. split; [done|]. cbn [thread_after]. unfold map_step. cbn [ar quo osys]. rewrite Hsz.
  assert (Hle : 2 ^ k <= used a) by nia. rewrite u64_small by lia.
  assert (HL : slabs (Shared (with_used a (used a - 2 ^ k)) q o)
    (<[i := Thread own (Some MRelease)]> l) ≡ₚ L).
  { unfold slabs, L. by rewrite (move_thread l i _ _ Hi). }
  split; [by destruct Hok; split|]. cbn [sh threads ar quo osys].
  rewrite (n_used_insert _ _ _ _ Hi). cbn [at_pc has_used].
  assert (Hsh : share (System (Shared (with_used a (used a - 2 ^ k)) q o)
    (<[i := Thread own (Some MRelease)]> l)) = share (System (Shared a q o) l)).
  { unfold share. cbn [sh threads ar].
    fold (n_quota l) (n_quota (<[i := Thread own (Some MRelease)]> l)).
    rewrite (n_quota_insert _ _ _ _ Hi), (Permutation_length HL). simpl. f_equal. subst L. lia. }
  rewrite Hsh. symmetry in HL. split; [|by eapply mapped_perm].
  assert (C5' : prealloc a <= used a - 2 ^ k * (n_used l + zsum (outside a) L))
    by (destruct C5 as [C5|[C5 _]]; [done|lia]).
  eapply counts_perm; [exact HL|]. split; try done; cbn [with_used used arena prealloc].
  - lia.
  - intros x Hx [Hr1 Hr2]. cbn [with_used arena prealloc] in *. nia.
  - left. change (outside (with_used a _)) with (outside a). lia.
Qed.

Lemma quota_inv k s l i own p :
  sys_inv k (System s l) -> l !! i = Some (Thread own (Some p)) -> p = MQuota \/ p = MRelease ->
  exists n s', map_step p s = Some (n, s') /\
    sys_inv k (System s' (<[i := thread_after own n]> l)).
Proof.
  intros Hinv Hi Hp. pose proof Hinv as (Hok & Hc & Hm). destruct (ok_size _ _ Hok) as [Hsz Hk].
  destruct (c_quota _ _ _ _ _ _ Hc) as (t & u & Hq & Hu & Ht & Hsh). cbn [sh threads] in *.
  pose proof (pow2_pos k ltac:(lia)) as H2k. pose proof (pow2_mono k 31 ltac:(lia)) as H31.
  destruct (slab_units k Hk) as [U1 U2]. pose proof QUOTA_MAX_eq as Hqm.
  destruct Hp as [-> | ->]; unfold map_step; rewrite Hq, Hsz.
  - rewrite quota_use_enc by lia. destruct (Z.gtb_spec (u + in_units (2 ^ k)) t) as [Hgt|Hle].
    + cbn [mbind option_bind]. eexists _, _. split; [done|]. cbn [thread_after Z.ltb].
      rewrite <- Hq. destruct s as [a q o]. by apply (inv_goto k _ _ _ _ (Some MQuota)).
    + cbn [mbind option_bind]. eexists _, _. split; [done|].
      rewrite (proj2 (Z.ltb_ge _ _)) by lia. cbn [thread_after].
      eapply inv_quota; try done; [lia|]. simpl. rewrite Hsz. lia.
  - assert (Hun : in_units (2 ^ k) <= u).
    { unfold share in Hsh. cbn [sh threads] in Hsh. rewrite Hsz in Hsh.
      fold (n_quota l) in Hsh.
      pose proof (used_quota_lt l i _ Hi ltac:(simpl; lia)). pose proof (used_quota l).
      nia. }
    rewrite quota_release_enc by lia. cbn [mbind option_bind]. eexists _, _. split; [done|].
    cbn [thread_after Z.eqb]. eapply inv_quota; try done; [lia|]. simpl. rewrite Hsz. lia.
Qed.

Lemma pop_inv k s l i own :
  sys_inv k (System s l) -> l !! i = Some (Thread own (Some MPop)) ->
  exists n s', map_step MPop s = Some (n, s') /\
    sys_inv k (System s' (<[i := thread_after own n]> l)).
Proof.
  intros Hinv Hi. pose proof Hinv as (Hok & Hc & Hm). destruct s as [a q o].
  cbn [sh threads ar quo osys] in *. unfold map_step. cbn [ar quo osys].
  destruct (cache a) as [|p c] eqn:Ec.
  - eexists _, _. split; [done|]. by apply (inv_goto k _ _ _ _ (Some MPop)).
  - eexists _, _. split; [done|]. cbn [thread_after].
    assert (0 < p). { apply (c_aligned _ _ _ _ _ _ Hc p). unfold slabs. cbn [ar]. rewrite Ec. left. }
    rewrite (proj2 (Z.eqb_neq p NULL)) by lia.
    eapply (inv_perm k a c); [exact Hinv|done| | |].
    + rewrite (slabs_take _ l i own (Some MPop) p Hi). unfold slabs. cbn [ar with_cache cache].
      by rewrite Ec.
    + rewrite (n_used_insert _ _ _ _ Hi). simpl. lia.
    + fold (n_quota l) (n_quota (<[i := Thread (p :: own) None]> l)).
      rewrite (n_quota_insert _ _ _ _ Hi). simpl. lia.
Qed.

Lemma map_step_inv k s l i own p :
  sys_inv k (System s l) -> l !! i = Some (Thread own (Some p)) ->
  unless_munmap (map_step p s) (fun '(n, s') => sys_inv k (System s' (<[i := thread_after own n]> l))).
Proof.
  intros Hinv Hi.
  assert (Hex : (exists n s', map_step p s = Some (n, s') /\ sys_inv k (System s' (<[i := thread_after own n]> l))) \/ p = MMmap).
  { destruct p; [left..|by right|left|left].
    - by apply pop_inv.
    - apply quota_inv; auto.
    - destruct (add_inv k s l i own Hinv Hi) as ([p|p] & s' & E & H); eexists _, s'; split; done.
    - by apply sub_inv.
    - apply quota_inv; auto. }
  destruct Hex as [(n & s' & E & H)| ->]; [|by apply mmap_inv]. left. by exists (n, s').
Qed.

Lemma lf_lifo_slab k p : 16 <= k -> 0 < p -> p mod 2 ^ k = 0 -> lf_lifo p = p.
Proof.
  intros Hk Hp Hm. rewrite lf_lifo_eq. change 65536 with (2 ^ 16).
  rewrite (mod_multiple p (2 ^ 16) (2 ^ k)); [lia|lia|apply pow2_pos; lia| |done].
  replace k with ((k - 16) + 16) by lia. rewrite Z.pow_add_r by lia. apply Z.mod_mul. lia.
Qed.

Lemma unmap_inv k s l i own1 p own2 :
  sys_inv k (System s l) -> l !! i = Some (Thread (own1 ++ p :: own2) None) ->
  exists s', slab_unmap s p = Some s' /\
    sys_inv k (System s' (<[i := Thread (own1 ++ own2) None]> l)).
Proof.
  intros Hinv Hi. pose proof Hinv as (Hok & Hc & Hm). destruct s as [a q o].
  cbn [sh threads ar quo osys] in *. destruct (holds_split l i _ Hi) as (rest & H1 & H2).
  cbn [holds] in H1. destruct (ok_size _ _ Hok) as [_ Hk].
  assert (HpL : p ∈ slabs (Shared a q o) l).
  { unfold slabs. rewrite H1. rewrite !elem_of_app. right. left. right. left. }
  destruct (c_aligned _ _ _ _ _ _ Hc p HpL) as [Hp Hal].
  unfold slab_unmap. rewrite (proj2 (Z.eqb_neq p NULL)) by lia.
  rewrite (lf_lifo_slab k p), Z.eqb_refl by (done || lia). eexists. split; [done|].
  eapply (inv_perm k a (p :: cache a)); [exact Hinv|done| | |].
  - unfold slabs. cbn [ar with_cache cache]. rewrite H1, H2. cbn [holds app].
    solve_Permutation.
  - rewrite (n_used_insert _ _ _ _ Hi). simpl. lia.
  - fold (n_quota l) (n_quota (<[i := Thread (own1 ++ own2) None]> l)).
    rewrite (n_quota_insert _ _ _ _ Hi). simpl. lia.
Qed.

(** ** The arena alone *)

(** Nobody else uses the arena; [out] are the slabs handed out. *)
Definition arena_inv (k : Z) (s : shared) (out : list Z) : Prop :=
  sys_inv k (System s [Thread out None]).

(** Only what is mapped matters of the system. *)
Lemma arena_inv_os k s out o :
  arena_inv k s out -> (forall x, mapped o x <-> mapped (osys s) x) -> arena_inv k (Shared (ar s) (quo s) o) out.
Proof.
  intros (Hok & Hc & Hm1 & Hm2) H. split_and!; [done..|]. split.
  - intros p x Hp Hx. apply H. by eapply Hm1.
  - intros x Hx. apply H. by apply Hm2.
Qed.

(** Protecting the preallocated region keeps every slab. *)
Lemma slab_arena_mprotect_inv k s out : arena_inv k s out -> arena_inv k (slab_arena_mprotect s) out.
Proof.
  intros H. unfold slab_arena_mprotect. destruct (negb _); [|done]. apply arena_inv_os; [done|].
  intros x. apply mprotect_mapped.
Qed.

Context `{!OsMunmapOk mapped munmap}.

Definition rank (p : map_pc) : nat :=
  match p with MPop => 5 | MQuota => 4 | MAdd => 3 | MMmap => 2 | MSub => 1 | MRelease => 0 end.

Lemma map_step_rank p s p' s' : map_step p s = Some (Goto p', s') -> (rank p' < rank p)%nat.
Proof.
  unfold map_step. destruct p; intros H.
  - destruct (cache (ar s)); simplify_eq/=; lia.
  - destruct (quota_use _ _ _) as [[r q]|]; simplify_eq/=. destruct (r <? 0); simplify_eq/=. lia.
  - destruct (_ <=? _); simplify_eq/=. lia.
  - destruct (mmap_checked _ _ _ _) as [[r q]|]; simplify_eq/=.
    destruct (r =? 0); simplify_eq/=. lia.
  - simplify_eq/=. lia.
  - destruct (quota_release _ _ _) as [[r q]|]; simplify_eq/=.
Qed.

Lemma map_run_inv k fuel p s out :
  (rank p < fuel)%nat -> sys_inv k (System s [Thread out (Some p)]) ->
  exists ptr s', map_run fuel p s = Some (ptr, s') /\
    arena_inv k s' (if ptr =? NULL then out else ptr :: out).
Proof.
  revert p s. induction fuel as [|fuel IH]; intros p s Hf Hinv; [lia|].
  destruct (unless_munmap_ok _ _ (map_step_inv k s _ 0 out p Hinv eq_refl)) as ([n s'] & E & H'). cbn [map_run].
  rewrite E. destruct n as [p'|ptr].
  - apply IH; [|done]. apply map_step_rank in E. lia.
  - by exists ptr, s'.
Qed.

Lemma slab_map_inv k s out :
  arena_inv k s out ->
  exists ptr s', slab_map s = Some (ptr, s') /\
    arena_inv k s' (if ptr =? NULL then out else ptr :: out).
Proof.
  intros Hinv. apply map_run_inv; [simpl; lia|].
  by apply (inv_goto k s [Thread out None] 0 out None).
Qed.

Lemma slab_unmap_inv k s out1 p out2 :
  arena_inv k s (out1 ++ p :: out2) ->
  exists s', slab_unmap s p = Some s' /\ arena_inv k s' (out1 ++ out2).
Proof.
  intros Hinv.
  by apply (unmap_inv k s [Thread (out1 ++ p :: out2) None] 0 out1 p out2).
Qed.

(** The bytes of the cached slabs and of the region. *)
Definition owned (k : Z) (a : slab_arena) (x : Z) : Prop :=
  in_region a x \/ exists p, p ∈ cache a /\ p <= x < p + 2 ^ k.

(** Aligned slabs overlap only if they are the same. *)
Lemma aligned_disjoint k p q x : 0 <= k -> p mod 2 ^ k = 0 -> q mod 2 ^ k = 0 ->
  p <= x < p + 2 ^ k -> q <= x < q + 2 ^ k -> p = q.
Proof.
  intros Hk Hp Hq H1 H2. pose proof (pow2_pos k Hk).
  assert (p <= q) by (apply (multiple_le (2 ^ k)); lia).
  assert (q <= p) by (apply (multiple_le (2 ^ k)); lia). lia.
Qed.

(** A slab outside the region has no byte in it. *)
Lemma region_disjoint k a p x : arena_ok k a -> p mod 2 ^ k = 0 -> ~ in_region a p ->
  p <= x < p + 2 ^ k -> ~ in_region a x.
Proof.
  intros Hok Hp Hn Hx [H1 H2]. apply Hn. destruct (ok_size _ _ Hok) as [_ Hk].
  destruct (ok_region _ _ Hok) as (Ra & Rp & _). pose proof (pow2_pos k ltac:(lia)). split.
  - apply (multiple_le (2 ^ k)); [lia|done|done|lia].
  - lia.
Qed.

Lemma outside_test k a p : arena_ok k a -> 0 < p ->
  ((arena a =? NULL) || (p <? arena a) || (p >=? arena a + prealloc a)) = true <->
  ~ in_region a p.
Proof.
  intros Hok Hp. destruct (ok_region _ _ Hok) as (_ & _ & Rb & Rc & Rd).
  unfold in_region. rewrite Z.geb_leb. rewrite !orb_true_iff, Z.eqb_eq, Z.ltb_lt, Z.leb_le.
  destruct (Z.eq_dec (prealloc a) 0); lia.
Qed.

Lemma destroy_loop_spec k a c o total :
  arena_ok k a -> NoDup c -> (forall p, p ∈ c -> 0 < p /\ p mod 2 ^ k = 0) ->
  (forall p x, p ∈ c -> p <= x < p + 2 ^ k -> mapped o x) ->
  (forall x, in_region a x -> mapped o x) ->
  0 <= total -> total + 2 ^ k * Z.of_nat (length c) < 2 ^ 64 ->
  exists o', destroy_loop a c o total = Some (total + 2 ^ k * Z.of_nat (length c), o') /\
    (forall x, mapped o' x <-> mapped o x /\
       (in_region a x \/ forall p, p ∈ c -> ~ p <= x < p + 2 ^ k)).
Proof.
  intros Hok Hnd Hal Hm Hr Ht Hb. destruct (ok_size _ _ Hok) as [Hsz Hk].
  pose proof (pow2_pos k ltac:(lia)) as H2k.
  revert o total Hnd Hal Hm Hr Ht Hb.
  induction c as [|p c IH]; intros o total Hnd Hal Hm Hr Ht Hb; cbn [destroy_loop length].
  { exists o. split; [do 2 f_equal; lia|]. intros x. split; [intros; split; [done|]|tauto].
    right. by intros p ?%elem_of_nil. }
  apply NoDup_cons in Hnd as [Hpc Hnd]. destruct (Hal p ltac:(left)) as [Hp Hpm].
  cbn [length] in Hb. rewrite Nat2Z.inj_succ in Hb. rewrite Hsz.
  assert (Hstep : exists o1,
    (if (arena a =? NULL) || (p <? arena a) || (p >=? arena a + prealloc a)
     then munmap_checked o p (2 ^ k) else Some o) = Some o1 /\
    forall x, mapped o1 x <-> mapped o x /\ (in_region a x \/ ~ p <= x < p + 2 ^ k)).
  { destruct ((arena a =? NULL) || (p <? arena a) || (p >=? arena a + prealloc a)) eqn:E.
    - apply (outside_test k a p Hok Hp) in E.
      edestruct (unless_munmap_ok (munmap_checked o p (2 ^ k))) as (o1 & -> & H1);
        [apply munmap_checked_ok; [done|apply page_pow; lia| |]|].
      { apply (mod_multiple p page (2 ^ k)); [done|lia|apply page_pow; lia|done]. }
      { intros x Hx. apply (Hm p); [left|done]. }
      cbn beta in H1. exists o1. split; [done|]. intros x. rewrite H1. split; [tauto|].
      intros [H2 [H3|H3]]; [|tauto]. split; [done|]. intros Hx.
      by apply (region_disjoint k a p x).
    - exists o. split; [done|]. intros x. split; [|tauto]. intros Hx. split; [done|].
      destruct (decide (p <= x < p + 2 ^ k)) as [Hin|]; [left|by right].
      assert (Hpr : ~ ~ in_region a p) by (rewrite <- (outside_test k a p Hok Hp), E; done).
      destruct (decide (arena a <= x < arena a + prealloc a)) as [?|Hxr]; [done|].
      exfalso. apply Hpr. intros Hreg. apply Hxr. destruct (ok_region _ _ Hok) as (Ra & Rp & _).
      destruct Hreg as [R1 R2]. split; [lia|].
      assert (p + 2 ^ k <= arena a + prealloc a); [|lia].
      apply (multiple_le (2 ^ k)); [lia|rewrite Z.add_mod, Hpm, Z.mod_same by lia; done| |lia].
      rewrite Z.add_mod, Ra, Rp by lia. done. }
  destruct Hstep as (o1 & -> & H1). cbn [mbind option_bind]. rewrite u64_small by nia.
  assert (Hdis : forall q x, q ∈ c -> q <= x < q + 2 ^ k -> ~ p <= x < p + 2 ^ k).
  { intros q x Hq Hqx Hpx. apply Hpc. destruct (Hal q ltac:(by right)) as [_ Hqm].
    by rewrite (aligned_disjoint k p q x) by (done || lia). }
  destruct (IH o1 (total + 2 ^ k)) as (o2 & -> & H2); [done| | | |lia|lia|].
  - intros q Hq. apply Hal. by right.
  - intros q x Hq Hx. apply H1. split; [apply (Hm q); [by right|done]|]. right. by eapply Hdis.
  - intros x Hx. apply H1. split; [by apply Hr|by left].
  - exists o2. split; [do 2 f_equal; lia|]. intros x. rewrite H2, H1. split.
    + intros [[Hx [Hx'|Hx']] Hx'']; (split; [done|]); [by left|].
      destruct Hx'' as [?|Hx'']; [by left|]. right. intros q [->|Hq]%elem_of_cons; [done|by apply Hx''].
    + intros [Hx [Hx'|Hx']]; [tauto|]. split; [split; [done|right; apply Hx'; left]|].
      right. intros q Hq. apply Hx'. by right.
Qed.

Lemma slab_arena_destroy_spec k s :
  arena_inv k s [] ->
  exists o', slab_arena_destroy s = Some o' /\
    forall x, mapped o' x <-> mapped (osys s) x /\ ~ owned k (ar s) x.
Proof.
  intros Hinv. pose proof (inv_bound _ _ _ Hinv) as Hb. destruct Hinv as (Hok & Hc & [M1 M2]).
  destruct s as [a q o]. cbn [sh threads ar quo osys] in *.
  assert (HL : slabs (Shared a q o) [Thread [] None] = cache a).
  { unfold slabs. simpl. by rewrite app_nil_r. }
  rewrite HL in *. pose proof Hc as [C1 C2 C3 C4 C5 C6]. destruct (ok_size _ _ Hok) as [Hsz Hk].
  pose proof (pow2_pos k ltac:(lia)) as H2k. unfold n_used, n_quota in *. simpl in Hb, C3.
  destruct (destroy_loop_spec k a (cache a) o 0) as (o1 & E1 & H1); try done; [lia|].
  unfold slab_arena_destroy. cbn [ar osys]. rewrite E1. cbn [mbind option_bind].
  destruct (ok_region _ _ Hok) as (Ra & Rp & Rb & Rc & Rd).
  assert (Hlast : exists o2,
    (if negb (arena a =? NULL) then munmap_checked o1 (arena a) (prealloc a) else Some o1) = Some o2 /\
    forall x, mapped o2 x <-> mapped o1 x /\ ~ in_region a x).
  { destruct (Z.eqb_spec (arena a) NULL) as [E|E]; cbn [negb].
    - exists o1. split; [done|]. intros x. split; [|tauto]. intros Hx. split; [done|].
      unfold in_region. intros ?. lia.
    - assert (Hpos : 0 < prealloc a) by lia.
      edestruct (unless_munmap_ok (munmap_checked o1 (arena a) (prealloc a))) as (o2 & -> & H2);
        [apply munmap_checked_ok; [done|..]|].
      + by apply (mod_multiple _ page (2 ^ k)); [|lia|apply page_pow; lia|].
      + by apply (mod_multiple _ page (2 ^ k)); [|lia|apply page_pow; lia|].
      + intros x Hx. apply H1. split; [by apply M2|by left].
      + by exists o2. }
  destruct Hlast as (o2 & -> & H2). cbn [mbind option_bind].
  rewrite (proj2 (Z.eqb_eq _ _)) by lia. exists o2. split; [done|]. intros x.
  rewrite H2, H1. unfold owned. split.
  - intros [[Hx [?|Hx']] Hr]; [done|]. split; [done|]. intros [?|(p & Hp & Hpx)]; [done|].
    by apply (Hx' p).
  - intros [Hx Ho]. split; [split; [done|]|tauto]. right. intros p Hp Hpx. apply Ho. right. eauto.
Qed.

(** ** Creation *)

Lemma rounded_slab x : 65536 <= x <= 2 ^ 31 ->
  small_round_ok x = true /\ exists k, 16 <= k <= 31 /\ small_round x = 2 ^ k /\ x <= 2 ^ k.
Proof.
  intros Hx. split.
  { unfold small_round_ok, SIZE_MAX, ULONG_MAX. apply orb_true_iff. right.
    rewrite u64_small by lia. apply andb_true_iff. split; apply Z.leb_le; [|lia].
    change ((2 ^ 64 - 1) / 2 + 1) with (2 ^ 63). lia. }
  exists (Z.log2 (x - 1) + 1). rewrite small_round_eq by lia.
  assert (15 <= Z.log2 (x - 1)) by (apply Z.log2_le_pow2; lia).
  assert (Z.log2 (x - 1) < 31) by (apply Z.log2_lt_pow2; lia).
  split; [lia|]. split; [done|]. pose proof (log2_bounds (x - 1) ltac:(lia)).
  rewrite Z.pow_add_r by lia. lia.
Qed.

Lemma slab_arena_create_cases o t u prealloc slab_size flags fl :
  0 <= prealloc < 2 ^ 64 -> 0 <= slab_size <= 2 ^ 31 ->
  0 <= u <= t -> t + 2 ^ 21 < 2 ^ 32 -> slab_arena_flags_init flags = Some fl ->
  exists k, 16 <= k <= 31 /\ slab_size <= 2 ^ k /\
    unless_munmap (slab_arena_create o (Quota (enc (t, u))) prealloc slab_size flags) (fun '(rc, s) =>
      (rc = 0 /\ arena_inv k s [] /\ cache (ar s) = [] /\ used (ar s) = 0 /\ quo s = Quota (enc (t, u))) \/
      (rc = -1 /\ forall x, mapped (osys s) x <-> mapped o x)).
Proof.
  intros Hp Hs Hu Ht Hfl. unfold slab_arena_create.
  destruct (rounded_slab (Z.max slab_size SLAB_MIN_SIZE)) as (Hok & k & Hk & Hr & Hle).
  { unfold SLAB_MIN_SIZE. lia. }
  rewrite Hok, Hr. pose proof (pow2_mono k 31 ltac:(lia)) as H31. pose proof (pow2_pos k ltac:(lia)) as H2k.
  rewrite u32_small by lia. destruct (quota_decode t u) as [-> _]; [lia..|].
  set (p1 := Z.min (Z.min prealloc (t * 1024)) (SIZE_MAX - 2 ^ k)).
  assert (Hp1 : 0 <= p1 < 2 ^ 42) by (unfold p1, SIZE_MAX; lia).
  rewrite small_align_ok_pow2 by lia. destruct (small_align_bounds p1 k) as [Hb Hm]; [lia..|].
  rewrite Hfl. cbn [mbind option_bind]. set (p2 := small_align p1 (2 ^ k)) in *.
  assert (Hinit : forall ar0 o1, ar0 mod 2 ^ k = 0 -> (0 < p2 -> 0 < ar0) -> (p2 = 0 -> ar0 = 0) ->
    (forall x, ar0 <= x < ar0 + p2 -> mapped o1 x) ->
    arena_inv k (Shared (SlabArena [] ar0 p2 0 (2 ^ k) fl) (Quota (enc (t, u))) o1) []).
  { intros ar0 o1 A1 A2 A3 A4. split; [split; simpl; [done|split_and!; try done; lia]|].
    cbn [sh threads ar quo osys]. split.
    - split.
      + constructor.
      + by intros ? ?%elem_of_nil.
      + unfold n_used. simpl. lia.
      + by intros ? ?%elem_of_nil.
      + by right.
      + exists t, u. split_and!; try done; [lia..|]. unfold share. simpl. lia.
    - split; [by intros ? ? ?%elem_of_nil|]. intros x Hx. by apply A4. }
  exists k. split; [done|]. split; [lia|]. destruct (Z.eqb_spec p2 0) as [E|E]; cbn [negb andb].
  - left. eexists. split; [done|]. left. split; [done|]. split; [|done].
    apply Hinit; [by rewrite Z.mod_0_l by lia|lia|done|lia].
  - eapply unless_munmap_bind; [apply mmap_checked_maps; [lia|lia|done|lia]|].
    intros [a0 o1] Hmaps. cbn beta iota in Hmaps. left. eexists. split; [done|].
    destruct Hmaps as [[-> Hsame]|(Ha & Hal & Hfresh & Hadd)].
    + right. split; [done|]. intros x. cbn [osys]. by rewrite madvise_checked_mapped.
    + left. rewrite (proj2 (Z.eqb_neq a0 NULL)) by lia. split; [done|]. split; [|done].
      apply Hinit; [done|lia|lia|]. intros x Hx. apply madvise_checked_mapped, Hadd. by right.
Qed.

Lemma slab_arena_create_spec o t u prealloc slab_size flags fl :
  0 <= prealloc < 2 ^ 64 -> 0 <= slab_size <= 2 ^ 31 ->
  0 <= u <= t -> t + 2 ^ 21 < 2 ^ 32 -> slab_arena_flags_init flags = Some fl ->
  exists rc s k,
    slab_arena_create o (Quota (enc (t, u))) prealloc slab_size flags = Some (rc, s) /\
    16 <= k <= 31 /\ slab_size <= 2 ^ k /\
    ((rc = 0 /\ arena_inv k s []) \/
     (rc = -1 /\ forall x, mapped (osys s) x <-> mapped o x)).
Proof.
  intros H1 H2 H3 H4 H5. destruct (slab_arena_create_cases o t u prealloc slab_size flags fl) as (k & Hk & Hle & H); [done..|].
  apply unless_munmap_ok in H as ([rc s] & E & H). exists rc, s, k. split_and!; [done|lia|lia|done|].
  destruct H as [(? & ? & _)|?]; [by left|by right].
Qed.

(** ** Properties *)

(** [mmap_checked] returns NULL and maps nothing, or maps exactly the
    requested bytes at an aligned address that was free: whatever it maps to
    align the address it unmaps again. *)
Theorem mmap_checked_exact o k size fl :
  12 <= k < 64 -> 0 < size -> size mod 2 ^ k = 0 -> size + 2 ^ k < 2 ^ 64 ->
  exists p o', mmap_checked o size (2 ^ k) fl = Some (p, o') /\
    ((p = NULL /\ forall x, mapped o' x <-> mapped o x) \/
     (0 < p /\ p mod 2 ^ k = 0 /\ (forall x, p <= x < p + size -> ~ mapped o x) /\
      forall x, mapped o' x <-> mapped o x \/ p <= x < p + size)).
Proof.
  intros H1 H2 H3 H4. destruct (unless_munmap_ok _ _ (mmap_checked_maps o k size fl H1 H2 H3 H4)) as ([p o'] & E & H).
  by exists p, o'.
Qed.

(** An arena used by one thread at a time, with the slabs [out] handed out:
    [slab_map] terminates and returns NULL or a slab that is not in [out];
    [slab_unmap] takes a slab of [out] back; and when none is out,
    [slab_arena_destroy] finds its total right and unmaps exactly the memory of
    the arena. *)
Theorem slab_arena_sequential k s out :
  arena_inv k s out ->
  (exists p s', slab_map s = Some (p, s') /\
     ((p = NULL /\ arena_inv k s' out) \/ (p ∉ out /\ arena_inv k s' (p :: out)))) /\
  (forall out1 p out2, out = out1 ++ p :: out2 ->
     exists s', slab_unmap s p = Some s' /\ arena_inv k s' (out1 ++ out2)) /\
  (out = [] -> exists o', slab_arena_destroy s = Some o' /\
     forall x, mapped o' x <-> mapped (osys s) x /\ ~ owned k (ar s) x).
Proof.
  intros Hinv. split_and!.
  - destruct (slab_map_inv k s out Hinv) as (p & s' & E & H'). exists p, s'. split; [done|].
    destruct (Z.eqb_spec p NULL) as [->|Hne]; [by left|]. right. split; [|done].
    destruct H' as (_ & Hc & _). pose proof (c_nodup _ _ _ _ _ _ Hc) as Hnd.
    apply NoDup_app in Hnd as (_ & _ & Hnd). simpl in Hnd. rewrite app_nil_r in Hnd.
    by apply NoDup_cons in Hnd as [? _].
  - intros out1 p out2 ->. by apply slab_unmap_inv.
  - intros ->. by apply slab_arena_destroy_spec.
Qed.
End Arena.

(** ** A concrete operating system

    A set of mapped pages, and the addresses [mmap] will answer with; an answer
    that is not free makes it fail. *)
Record machine := Machine { pages : gset Z; answers : list Z }.

Definition range_pages (a sz : Z) : list Z := seqZ (a / page) (sz / page).

Definition machine_mapped (o : machine) (x : Z) : Prop := x / page ∈ pages o.

Definition machine_mmap (o : machine) (sz fl : Z) : option Z * machine :=
  match answers o with
  | [] => (None, o)
  | a :: rest =>
      if (0 <? a) && (a mod page =? 0) &&
         forallb (fun p => bool_decide (p ∉ pages o)) (range_pages a sz)
      then (Some a, Machine (pages o ∪ list_to_set (range_pages a sz)) rest)
      else (None, Machine (pages o) rest)
  end.

#[global] Instance machine_advice : OsAdvice machine := {
  use_madvise := true;
  madvise o _ _ adv := (if adv =? MADV_DONTDUMP then 0 else -1, o);
  mprotect o _ _ := o;
}.

#[global] Instance machine_advice_laws : OsAdviceLaws machine_mapped.
Proof. by split. Qed.

Definition machine_munmap (o : machine) (a sz : Z) : bool * machine :=
  (true, Machine (pages o ∖ list_to_set (range_pages a sz)) (answers o)).

Lemma range_pages_spec a sz x : 0 < sz -> a mod page = 0 -> sz mod page = 0 ->
  x / page ∈ range_pages a sz <-> a <= x < a + sz.
Proof.
  intros Hs Ha Hsz. unfold range_pages. rewrite elem_of_seqZ. change page with 4096 in *.
  Z.to_euclidean_division_equations. lia.
Qed.

#[global] Instance machine_laws : OsLaws machine_mapped machine_mmap machine_munmap.
Proof.
  split.
  - intros o sz fl a o' Hsz Hm. unfold machine_mmap, machine_mapped.
    destruct (answers o) as [|a' rest]; [done|].
    destruct (_ && _ && _) eqn:E; [|done]. intros [= -> <-]. bools.
    rewrite forallb_forall in H0. split_and!; [done|done| |].
    + intros x Hx. apply (range_pages_spec a sz x Hsz H1 Hm) in Hx.
      apply list_elem_of_In, H0 in Hx. by apply bool_decide_eq_true in Hx.
    + intros x. cbn [pages]. rewrite elem_of_union, elem_of_list_to_set.
      by rewrite range_pages_spec.
  - intros o sz fl o'. unfold machine_mmap, machine_mapped.
    destruct (answers o) as [|a rest]; [by intros [= <-]|].
    destruct (_ && _ && _); [done|]. by intros [= <-].
  - intros o a sz o' Hs Hsz Ha [= <-] x.
    unfold machine_mapped. cbn [pages]. rewrite elem_of_difference, elem_of_list_to_set.
    by rewrite range_pages_spec.
  - done.
Qed.

#[global] Instance machine_munmap_ok : OsMunmapOk machine_mapped machine_munmap.
Proof. done. Qed.

(** The first answer is not aligned to 64 KiB, so it is mapped a second time
    with room to align it. *)
Definition example_machine : machine := Machine ∅ [4096; 4096; 1048576].

Lemma mmap_checked_exact_witness :
  mmap_checked machine_mmap machine_munmap example_machine 65536 65536 0 =
    Some (65536, Machine (list_to_set (range_pages 65536 65536)) [1048576]) /\
  exists p o', mmap_checked machine_mmap machine_munmap example_machine 65536 (2 ^ 16) 0 =
    Some (p, o') /\ ((p = NULL /\ forall x, machine_mapped o' x <-> machine_mapped example_machine x) \/
     (0 < p /\ p mod 2 ^ 16 = 0 /\
      (forall x, p <= x < p + 65536 -> ~ machine_mapped example_machine x) /\
      forall x, machine_mapped o' x <-> machine_mapped example_machine x \/ p <= x < p + 65536)).
Proof.
  split; [by vm_compute|].
  apply (mmap_checked_exact machine_mapped machine_mmap machine_munmap example_machine 16 65536 0);
    [lia|lia|done|done].
Defined.

(** An arena of one preallocated slab and a quota of two. *)
Definition example_create : option (Z * shared) :=
  slab_arena_create machine_mmap machine_munmap (Machine ∅ [65536; 1048576; 131072])
    (Quota (enc (128, 0))) 1000 65536 SLAB_ARENA_PRIVATE.
Definition example_shared : shared :=
  match example_create with Some (_, s) => s | None => Shared (SlabArena [] 0 0 0 0 0) (Quota 0) (Machine ∅ []) end.

Lemma example_arena_inv : exists k, arena_inv machine_mapped k example_shared [].
Proof.
  destruct (slab_arena_create_spec machine_mapped machine_mmap machine_munmap
    (Machine ∅ [65536; 1048576; 131072]) 128 0 1000 65536 SLAB_ARENA_PRIVATE
    SLAB_ARENA_PRIVATE) as (rc & s & k & E & Hk & _ & H); [lia..|done|].
  assert (E' : example_create = Some (0, example_shared)) by by vm_compute.
  unfold example_create in E'. rewrite E' in E. clear E'.
  remember example_shared as s0 eqn:Es. clear Es. injection E as <- <-.
  destruct H as [[_ H]|[Hrc _]]; [by exists k|lia].
Qed.

Lemma slab_arena_sequential_witness :
  exists k, arena_inv machine_mapped k example_shared [] /\
  exists p s', slab_map machine_mmap machine_munmap example_shared = Some (p, s').
Proof.
  destruct example_arena_inv as [k H]. exists k. split; [done|].
  destruct (slab_arena_sequential machine_mapped machine_mmap machine_munmap k example_shared [] H)
    as ((p & s' & E & _) & _). by exists p, s'.
Defined.
