(* ===== verification/ArenaMt.v ===== *)
(** * The arena used by threads: [small/slab_arena.c] over [lf_lifo.h] and [quota.h]

    [SlabArena] runs one call at a time on a cache that is a list and a quota
    that is used in one step.  Here any number of threads run [slab_map],
    [slab_unmap] and calls of the quota of their own, one access to shared memory
    per step: the accesses of the lock-free list are those of [LfLifo.step], the
    rounds of the compare-and-swap loops of the quota those of [Quota.body], and
    [SlabArena.map_step] has the rest of [slab_map].  Operating system calls are
    one step. *)
From S2P Require Import Prelude Util Quota LfLifo SlabArena.

(** ** Definitions *)

(** On whose behalf a function of the quota runs: a client of the quota, or
    [slab_map] before it raises [used] and after it took that back. *)
Inductive caller := Client | ForMap | ForUndo.

(** What a thread is doing: it is outside the arena or in the loop of
    [lf_lifo_pop] or [lf_lifo_push], its place there being its [LfLifo.pc]; it is
    in the loop of a function of the quota, with the word it read, the word it
    wants to store and the result; it is at another access of [slab_map]; or an
    assertion failed. *)
Inductive call :=
  | AtStack
  | AtQuota (o : op) (c : caller) (att : option (Z * Z * Z))
  | AtAccess (p : map_pc)
  | Died.

(** [held] are the units a thread has from its own calls of the quota. *)
Record user := User { held : Z; doing : call }.

(** The cache of [area] is not used: the slabs are in [lifo]. *)
Record state (os : Type) := State {
  area : slab_arena;
  lifo : LfLifo.system;
  word : quota;
  host : os;
  users : list user;
}.
Arguments State {os}.
Arguments area {os}.
Arguments lifo {os}.
Arguments word {os}.
Arguments host {os}.
Arguments users {os}.

(** Where a function of the quota returns to. *)
Definition after_quota (c : caller) (r : Z) : call :=
  match c with
  | ForMap => if r <? 0 then AtStack else AtAccess MAdd
  | Client | ForUndo => AtStack
  end.

Definition call_quota (o : op) (c : caller) : call :=
  match enter o with
  | Some None => AtQuota o c None
  | Some (Some r) => after_quota c r
  | None => Died
  end.

(** The loop reads the word [v]. *)
Definition quota_read (o : op) (c : caller) (v : Z) : call :=
  match body o v with
  | Some (Cas e n r) => AtQuota o c (Some (e, n, r))
  | Some (Return r) => after_quota c r
  | None => Died
  end.

Definition goto (slab_size : Z) (p : map_pc) : call :=
  match p with
  | MPop => AtStack
  | MQuota => call_quota (OpUse slab_size) ForMap
  | MRelease => call_quota (OpRelease slab_size) ForUndo
  | MAdd | MMmap | MSub => AtAccess p
  end.

(** A slab that comes from [mmap] is filled with zeros. *)
Definition fresh_words (p : map_pc) (ptr : Z) (m : gmap Z Z) : gmap Z Z :=
  match p with MMmap => <[ptr := 0]> m | _ => m end.

(** The units a call of a client moves to its thread. *)
Definition client_gain (c : caller) (o : op) : Z := match c with Client => gain o | _ => 0 end.

(** The first word of each slab of the preallocated region, zero after [mmap]. *)
Definition region_words (a : slab_arena) : gmap Z Z :=
  list_to_map ((fun n => (arena a + n * slab_size a, 0)) <$> seqZ 0 (prealloc a / slab_size a)).

Section Threads.
Context {os : Type} (mapped : os -> Z -> Prop) (mmap : os -> Z -> Z -> option Z * os)
  (munmap : os -> Z -> Z -> bool * os) `{!OsAdvice os} (cap : Z).

(** One step of thread [i].  A client calls the quota as [Quota.may_call] says:
    limits up to [cap] units, and releases of what it holds. *)
Inductive step : state os -> option LfLifo.event -> state os -> Prop :=
  | step_stack i a ls ls' w o l h e :
      l !! i = Some (User h AtStack) -> LfLifo.step i ls e ls' -> e <> Some EPopNull ->
      step (State a ls w o l) e (State a ls' w o l)
  | step_empty i a ls ls' w o l h :
      l !! i = Some (User h AtStack) -> LfLifo.step i ls (Some EPopNull) ls' ->
      step (State a ls w o l) (Some EPopNull)
           (State a ls' w o (<[i := User h (goto (slab_size a) MQuota)]> l))
  | step_client i a ls w o l h own q :
      l !! i = Some (User h AtStack) ->
      LfLifo.threads ls !! i = Some (LfLifo.Thread own LfLifo.Idle) -> may_call cap q h ->
      step (State a ls w o l) None (State a ls w o (<[i := User h (call_quota q Client)]> l))
  | step_quota_read i a ls w o l h q c :
      l !! i = Some (User h (AtQuota q c None)) ->
      step (State a ls w o l) None (State a ls w o (<[i := User h (quota_read q c (value w))]> l))
  | step_quota_cas i a ls w o l h q c e n r :
      l !! i = Some (User h (AtQuota q c (Some (e, n, r)))) -> value w = e ->
      step (State a ls w o l) None
           (State a ls (Quota n) o (<[i := User (h + client_gain c q) (after_quota c r)]> l))
  | step_quota_fail i a ls w o l h q c e n r :
      l !! i = Some (User h (AtQuota q c (Some (e, n, r)))) ->
      step (State a ls w o l) None (State a ls w o (<[i := User h (AtQuota q c None)]> l))
  | step_goto i a a' ls w w' o o' l h p p' :
      l !! i = Some (User h (AtAccess p)) ->
      map_step mmap munmap p (Shared a w o) = Some (Goto p', Shared a' w' o') ->
      step (State a ls w o l) None (State a' ls w' o' (<[i := User h (goto (slab_size a) p')]> l))
  | step_ret i a a' hd m k ts w w' o o' l h p ptr own pc :
      l !! i = Some (User h (AtAccess p)) -> ts !! i = Some (LfLifo.Thread own pc) ->
      map_step mmap munmap p (Shared a w o) = Some (Ret ptr, Shared a' w' o') ->
      step (State a (LfLifo.System hd m k ts) w o l) None
           (State a' (LfLifo.System hd (fresh_words p ptr m) k (<[i := LfLifo.Thread (ptr :: own) pc]> ts))
              w' o' (<[i := User h AtStack]> l))
  | step_die i a ls w o l h p :
      l !! i = Some (User h (AtAccess p)) -> map_step mmap munmap p (Shared a w o) = None ->
      step (State a ls w o l) None (State a ls w o (<[i := User h Died]> l)).

Inductive run (s0 : state os) : list LfLifo.event -> state os -> Prop :=
  | run_nil : run s0 [] s0
  | run_step tr s1 e s2 : run s0 tr s1 -> step s1 e s2 -> run s0 (tr ++ option_list e) s2.

(** [n] threads and an arena that was just created. *)
Definition started (s : shared) (n : nat) : state os :=
  State (ar s) (LfLifo.System lf_lifo_init (region_words (ar s)) 0 (replicate n (LfLifo.Thread [] LfLifo.Idle)))
    (quo s) (osys s) (replicate n (User 0 AtStack)).

(** ** The invariant *)

Context `{!OsLaws mapped mmap munmap} `{!OsAdviceLaws mapped}.

(** The point of [slab_map] a thread is at, for what [used] and the quota account
    for. *)
Definition at_access (c : call) : option map_pc :=
  match c with
  | AtStack | AtQuota _ Client _ => None
  | AtQuota _ ForMap _ => Some MQuota
  | AtQuota _ ForUndo _ => Some MRelease
  | AtAccess p => Some p
  | Died => Some MMmap
  end.

(** The calls that have raised [used], and those that have paid for a slab. *)
Definition raised (l : list user) : Z := zsum (fun u => has_used (at_access (doing u))) l.
Definition paid (l : list user) : Z := zsum (fun u => has_quota (at_access (doing u))) l.

(** The arena as [SlabArena] sees it when [E] are all its slabs. *)
Definition calls (l : list user) : list thread := (fun u => Thread [] (at_access (doing u))) <$> l.
Definition view (s : state os) (E : list Z) : system :=
  System (Shared (with_cache (area s) E) (word s) (host s)) (calls (users s)).

Definition call_inv (sz h : Z) (c : call) : Prop :=
  match c with
  | AtQuota q c att =>
      match c with Client => may_call cap q h | ForMap => q = OpUse sz | ForUndo => q = OpRelease sz end /\
      enter q = Some None /\ match att with Some (e, n, r) => body q e = Some (Cas e n r) | None => True end
  | AtAccess p => p = MAdd \/ p = MMmap \/ p = MSub
  | Died => munmap_failed mapped munmap
  | AtStack => True
  end.

(** The units of quota taken: [u0] before the arena was created, those of slabs
    and calls, and those of the clients. *)
Definition taken (k u0 : Z) (E : list Z) (l : list user) : Z :=
  u0 + in_units (2 ^ k) * (Z.of_nat (length E) + paid l) + zsum held l.

Record mt_inv (k u0 : Z) (E st : list Z) (s : state os) : Prop := {
  mt_elems : elems_ok E;
  mt_lifo : inv E st (lifo s);
  mt_sys : sys_inv mapped k (view s E);
  mt_region : forall p, in_region (area s) p -> p mod 2 ^ k = 0 -> is_Some (mem (lifo s) !! p);
  mt_quota : exists t, word s = Quota (enc (t, taken k u0 E (users s))) /\
    tu_ok cap (t, taken k u0 E (users s));
  mt_users : forall i u, users s !! i = Some u -> 0 <= held u /\ call_inv (2 ^ k) (held u) (doing u);
}.

Context (Hcap : cap + 2 ^ 21 < 2 ^ 32) (k u0 : Z) (Hk : 16 <= k <= 31) (Hu0 : 0 <= u0).

(** ** Accounts *)

Lemma calls_nil l : concat (holds <$> calls l) = [].
Proof. by induction l. Qed.

Lemma view_slabs s E : slabs (sh (view s E)) (threads (view s E)) = E.
Proof. unfold slabs, view. cbn [sh ar threads with_cache cache]. by rewrite calls_nil, app_nil_r. Qed.

Lemma calls_insert l i h c : calls (<[i := User h c]> l) = <[i := Thread [] (at_access c)]> (calls l).
Proof. unfold calls. by rewrite list_fmap_insert. Qed.

Lemma calls_lookup l i h c : l !! i = Some (User h c) -> calls l !! i = Some (Thread [] (at_access c)).
Proof. intros Hi. unfold calls. by rewrite list_lookup_fmap, Hi. Qed.

Lemma calls_sums l : n_used (calls l) = raised l /\ n_quota (calls l) = paid l.
Proof.
  unfold n_used, n_quota, raised, paid. induction l as [|u l [IH1 IH2]]; [done|].
  cbn [calls fmap list_fmap zsum foldr at_pc] in *. unfold zsum, calls in *. by rewrite IH1, IH2.
Qed.

Lemma paid_insert l i h c h' c' : l !! i = Some (User h c) ->
  paid (<[i := User h' c']> l) = paid l - has_quota (at_access c) + has_quota (at_access c').
Proof. intros Hi. unfold paid. by rewrite (zsum_insert _ _ _ _ _ Hi). Qed.

Lemma held_insert l i h c h' c' : l !! i = Some (User h c) ->
  zsum held (<[i := User h' c']> l) = zsum held l - h + h'.
Proof. intros Hi. by rewrite (zsum_insert _ _ _ _ _ Hi). Qed.

Lemma taken_insert E l i h c h' c' : l !! i = Some (User h c) ->
  taken k u0 E (<[i := User h' c']> l) = taken k u0 E l +
    in_units (2 ^ k) * (has_quota (at_access c') - has_quota (at_access c)) + (h' - h).
Proof. intros Hi. unfold taken. rewrite (paid_insert _ _ _ _ _ _ Hi), (held_insert _ _ _ _ _ _ Hi). ring. Qed.

Lemma paid_nonneg l : 0 <= paid l.
Proof. apply zsum_nonneg. intros u _. by destruct (at_access (doing u)) as [[]|]. Qed.

Lemma paid_elem l i h c : l !! i = Some (User h c) -> has_quota (at_access c) <= paid l.
Proof.
  intros Hi. apply (zsum_elem (fun u => has_quota (at_access (doing u))) l i (User h c)); [|done].
  intros u _. by destruct (at_access (doing u)) as [[]|].
Qed.

Lemma view_share s E : slab_size (area s) = 2 ^ k -> share (view s E) = in_units (2 ^ k) * (Z.of_nat (length E) + paid (users s)).
Proof.
  intros Hs. unfold share. rewrite view_slabs. unfold view. cbn [sh ar threads with_cache slab_size]. rewrite Hs.
  fold (n_quota (calls (users s))). by rewrite (proj2 (calls_sums _)).
Qed.

Lemma held_elem E st s i h c : mt_inv k u0 E st s -> users s !! i = Some (User h c) -> h <= zsum held (users s).
Proof.
  intros Hinv Hi. apply (zsum_elem held (users s) i (User h c)); [|done]. intros u (j & Hj)%list_elem_of_lookup.
  by apply (mt_users _ _ _ _ _ Hinv j).
Qed.

(** What a thread pays for is at most what is taken. *)
Lemma taken_ge E st s i h c : mt_inv k u0 E st s -> users s !! i = Some (User h c) ->
  in_units (2 ^ k) * has_quota (at_access c) + h <= taken k u0 E (users s) /\ 64 <= in_units (2 ^ k).
Proof.
  intros Hinv Hi. destruct (slab_units k Hk) as [_ U]. split; [|done].
  pose proof (paid_elem _ _ _ _ Hi). pose proof (held_elem _ _ _ _ _ _ Hinv Hi). unfold taken. nia.
Qed.

(** The state changes at thread [i] and in the quota only. *)
Lemma mt_move E st a ls w w' o l i h c h' c' :
  mt_inv k u0 E st (State a ls w o l) -> l !! i = Some (User h c) ->
  has_used (at_access c') = has_used (at_access c) ->
  (exists t, w' = Quota (enc (t, taken k u0 E (<[i := User h' c']> l))) /\ tu_ok cap (t, taken k u0 E (<[i := User h' c']> l))) ->
  0 <= h' -> call_inv (2 ^ k) h' c' -> mt_inv k u0 E st (State a ls w' o (<[i := User h' c']> l)).
Proof.
  intros Hinv Hi Hu Hq Hh Hc. pose proof Hinv as [H1 H2 H3 H4 H5 H6]. split; try done; cbn [area lifo word host users] in *.
  - destruct Hq as (t & -> & Htu). destruct H5 as (t0 & -> & _).
    unfold view in *. cbn [area word host users] in *. rewrite calls_insert.
    destruct H3 as (Hok & _). destruct (ok_size _ _ Hok) as [Hsz _]. cbn [sh ar with_cache slab_size] in Hsz.
    pose proof (mt_sys _ _ _ _ _ Hinv) as H3. unfold view in H3. cbn [area word host users] in H3.
    pose proof (calls_lookup _ _ _ _ Hi) as Hci. unfold tu_ok in Htu. simpl in Htu.
    eapply (inv_quota mapped k _ _ i [] _ _ _ _ t _ H3 Hci eq_refl); [lia|lia|done|].
    pose proof (view_share (State a ls (Quota (enc (t0, taken k u0 E l))) o l) E Hsz) as Hs. unfold view in Hs.
    cbn [area word host users] in Hs. unfold view. cbn [area word host users ar with_cache slab_size].
    pose proof (held_elem _ _ _ _ _ _ Hinv Hi) as Hhe. cbn [users] in Hhe.
    rewrite Hs, Hsz. unfold taken. rewrite (paid_insert _ _ _ _ _ _ Hi), (held_insert _ _ _ _ _ _ Hi). lia.
  - intros j u [[-> ->]|[_ Hj]]%lookup_insert_cases; [done|by apply (H6 j)].
Qed.

Lemma mt_goto E st a ls w o l i h c c' :
  mt_inv k u0 E st (State a ls w o l) -> l !! i = Some (User h c) ->
  has_used (at_access c') = has_used (at_access c) -> has_quota (at_access c') = has_quota (at_access c) ->
  call_inv (2 ^ k) h c' -> mt_inv k u0 E st (State a ls w o (<[i := User h c']> l)).
Proof.
  intros Hinv Hi Hu Hq Hc. destruct (mt_users _ _ _ _ _ Hinv i _ Hi) as [Hh _].
  eapply mt_move; try done. rewrite (taken_insert _ _ _ _ _ _ _ Hi), Hq.
  replace (taken k u0 E l + _ + _) with (taken k u0 E l) by lia. apply (mt_quota _ _ _ _ _ Hinv).
Qed.

(** ** The lock-free list *)

Lemma lifo_words i s e s' x : LfLifo.step i s e s' -> is_Some (mem s !! x) -> is_Some (mem s' !! x).
Proof.
  assert (Hst : forall m a v m', store m a v = Some m' -> is_Some (m !! x) -> is_Some (m' !! x)).
  { intros m a v m' E Hx. unfold store in E. destruct (m !! a); simplify_eq.
    destruct (decide (a = x)) as [->|]; [rewrite lookup_insert_eq; eauto|by rewrite lookup_insert_ne]. }
  destruct 1; cbn [mem]; eauto.
Qed.

Lemma mt_stack E st a ls ls' w o l i e :
  mt_inv k u0 E st (State a ls w o l) -> LfLifo.step i ls e ls' -> Forall timely (option_list e) ->
  exists st', mt_inv k u0 E st' (State a ls' w o l).
Proof.
  intros [H1 H2 H3 H4 H5 H6] Hs Ht. destruct (step_inv E H1 i st ls e ls' H2 Hs Ht) as (st' & Hi & _).
  exists st'. split; try done. intros p Hp Hm. eapply lifo_words; [exact Hs|by apply H4].
Qed.

(** ** The quota *)

Lemma slab_in_units : 2 ^ k <= 2 ^ 31 /\ 0 < 2 ^ k /\ enter (OpUse (2 ^ k)) = Some None /\ enter (OpRelease (2 ^ k)) = Some None.
Proof.
  pose proof (pow2_mono k 31 ltac:(lia)) as H31. pose proof (pow2_pos k ltac:(lia)) as H0. pose proof QUOTA_MAX_eq.
  destruct (slab_units k Hk) as [_ U]. split; [done|]. split; [done|]. unfold enter.
  rewrite (proj2 (Z.eqb_neq (in_units (2 ^ k)) 0)) by lia. split.
  - destruct (Z.gtb_spec (2 ^ k) QUOTA_MAX); [lia|done].
  - destruct (Z.ltb_spec (2 ^ k) QUOTA_MAX); [done|lia].
Qed.

Lemma goto_access sz p : sz = 2 ^ k -> p <> MPop -> at_access (goto sz p) = Some p.
Proof.
  intros -> Hp. destruct slab_in_units as (_ & _ & E1 & E2).
  destruct p; try done; cbn [goto]; unfold call_quota; by rewrite ?E1, ?E2.
Qed.

Lemma in_units_nonneg n : 0 <= in_units n.
Proof. unfold in_units. apply Z.mod_pos_bound. done. Qed.

(** The loops leave without a compare-and-swap only to report failure. *)
Lemma body_outcome q v :
  match body q v with
  | Some (Return r) => r = -1 /\ forall n, q <> OpRelease n
  | Some (Cas e n r) => e = v /\ 0 <= r
  | None => True
  end.
Proof.
  destruct q as [n|n|n]; cbn [body]; unfold quota_set_body, quota_use_body, quota_release_body, QUOTA_UNIT_SIZE;
    pose proof (in_units_nonneg n); repeat case_match; simplify_eq; try done; split; (done || lia).
Qed.

Lemma quota_call_ok E st s t i h q c att :
  mt_inv k u0 E st s -> tu_ok cap (t, taken k u0 E (users s)) -> users s !! i = Some (User h (AtQuota q c att)) ->
  call_ok cap (t, taken k u0 E (users s)) q.
Proof.
  intros Hinv Htu Hi. destruct (mt_users _ _ _ _ _ Hinv i _ Hi) as [Hh [Hc _]]. cbn [held doing] in *.
  destruct (taken_ge _ _ _ _ _ _ Hinv Hi) as [Hge U]. destruct slab_in_units as (H31 & H0 & _).
  pose proof QUOTA_MAX_eq. destruct (slab_units k Hk) as [U1 _]. unfold tu_ok in Htu. simpl in Htu.
  destruct c; cbn [at_access has_quota] in Hge.
  - eapply may_call_ok; [lia|done| |exact Hc]. simpl. lia.
  - subst q. simpl. split; [lia|]. lia.
  - subst q. simpl. lia.
Qed.

Lemma mt_quota_read E st a ls w o l i h q c :
  mt_inv k u0 E st (State a ls w o l) -> l !! i = Some (User h (AtQuota q c None)) ->
  mt_inv k u0 E st (State a ls w o (<[i := User h (quota_read q c (value w))]> l)).
Proof.
  intros Hinv Hi. destruct (mt_users _ _ _ _ _ Hinv i _ Hi) as [Hh (Hc & He & _)]. cbn [held doing] in *.
  destruct (mt_quota _ _ _ _ _ Hinv) as (t & Hw & Htu). cbn [users word] in *. subst w. cbn [value] in *.
  pose proof (body_spec cap _ q ltac:(lia) Htu (quota_call_ok _ _ _ t _ _ _ _ _ Hinv Htu Hi) He) as Hb.
  pose proof (body_outcome q (enc (t, taken k u0 E l))) as Ho. unfold quota_read.
  destruct (body q _) as [[r|e n r]|] eqn:Eb; [| |done].
  - destruct Ho as [-> Hn]. destruct c; cbn [after_quota]; [by eapply mt_goto..|]. by apply Hn in Hc.
  - destruct Ho as [-> _]. eapply mt_goto; try done; by destruct c.
Qed.

Lemma mt_quota_cas E st a ls w o l i h q c e n r :
  mt_inv k u0 E st (State a ls w o l) -> l !! i = Some (User h (AtQuota q c (Some (e, n, r)))) -> value w = e ->
  mt_inv k u0 E st (State a ls (Quota n) o (<[i := User (h + client_gain c q) (after_quota c r)]> l)).
Proof.
  intros Hinv Hi Hv. destruct (mt_users _ _ _ _ _ Hinv i _ Hi) as [Hh (Hc & He & Hb)]. cbn [held doing] in *.
  destruct (mt_quota _ _ _ _ _ Hinv) as (t & Hw & Htu). cbn [users word] in *. subst w. cbn [value] in *. subst e.
  pose proof (body_spec cap _ q ltac:(lia) Htu (quota_call_ok _ _ _ t _ _ _ _ _ Hinv Htu Hi) He) as Hs.
  pose proof (body_outcome q (enc (t, taken k u0 E l))) as Ho. rewrite Hb in Hs, Ho. destruct Ho as [_ Hr].
  destruct Hs as (_ & [t' u'] & _ & -> & Htu' & Hu'). simpl in Hu'. subst u'.
  destruct slab_in_units as (_ & _ & E1 & E2).
  assert (Hafter : has_used (at_access (after_quota c r)) = 0 /\
    in_units (2 ^ k) * (has_quota (at_access (after_quota c r)) - has_quota (at_access (AtQuota q c None))) + client_gain c q = gain q /\
    0 <= h + client_gain c q /\ call_inv (2 ^ k) (h + client_gain c q) (after_quota c r)).
  { destruct c; cbn [after_quota client_gain at_access has_used has_quota].
    - split; [done|]. split; [lia|]. split; [|done].
      destruct q as [m|m|m]; simpl in *; [lia| |lia]. pose proof (in_units_nonneg m). lia.
    - rewrite (proj2 (Z.ltb_ge r 0)) by lia. subst q. cbn. split; [done|]. split; [lia|]. split; [lia|]. by left.
    - subst q. cbn. split; [done|]. split; [lia|]. split; [lia|done]. }
  destruct Hafter as (A1 & A2 & A3 & A4).
  eapply mt_move; try done.
  - rewrite A1. by destruct c.
  - assert (Hx : taken k u0 E (<[i := User (h + client_gain c q) (after_quota c r)]> l) = taken k u0 E l + gain q).
    { rewrite (taken_insert _ _ _ _ _ _ _ Hi), <- A2. cbn [at_access]. lia. }
    exists t'. by rewrite Hx.
Qed.

(** ** The other accesses of [slab_map] *)

(** They do not look at the cache or the quota. *)
Lemma access_shape p a w o n s' E :
  p = MAdd \/ p = MMmap \/ p = MSub -> map_step mmap munmap p (Shared a w o) = Some (n, s') ->
  map_step mmap munmap p (Shared (with_cache a E) w o) = Some (n, Shared (with_cache (ar s') E) w (osys s')) /\
  quo s' = w /\ (arena (ar s') = arena a /\ prealloc (ar s') = prealloc a /\ slab_size (ar s') = slab_size a) /\
  match n with
  | Goto p' => (p = MAdd /\ p' = MMmap) \/ (p = MMmap /\ p' = MSub) \/ (p = MSub /\ p' = MRelease)
  | Ret ptr => (p = MAdd /\ u64 (used a + slab_size a) <= prealloc a /\
        ptr = arena a + u64 (used a + slab_size a) - slab_size a) \/ (p = MMmap /\ ptr <> NULL)
  end.
Proof.
  intros Hp Hs. destruct Hp as [->|[->| ->]]; cbn [map_step ar quo osys with_cache used prealloc slab_size arena flags] in *.
  - destruct (Z.leb_spec (u64 (used a + slab_size a)) (prealloc a)); simplify_eq; cbn [ar quo osys]; split_and!; eauto.
  - destruct (mmap_checked _ _ _ _ _ _) as [[ptr o']|]; [|done]. cbn [mbind option_bind] in *.
    destruct (Z.eqb_spec ptr NULL); simplify_eq; cbn [ar quo osys]; split_and!; eauto 6.
  - simplify_eq. cbn [ar quo osys]. split_and!; eauto 6.
Qed.

Lemma view_size E st s : mt_inv k u0 E st s -> slab_size (area s) = 2 ^ k.
Proof. intros Hinv. destruct (mt_sys _ _ _ _ _ Hinv) as (Hok & _). by destruct (ok_size _ _ Hok). Qed.

(** The invariant of [SlabArena] after the access. *)
Lemma access_sys E st a ls w o l i h p n s' :
  mt_inv k u0 E st (State a ls w o l) -> l !! i = Some (User h (AtAccess p)) ->
  map_step mmap munmap p (Shared a w o) = Some (n, s') ->
  sys_inv mapped k (System (Shared (with_cache (ar s') E) w (osys s')) (<[i := thread_after [] n]> (calls l))).
Proof.
  intros Hinv Hi Hs. destruct (mt_users _ _ _ _ _ Hinv i _ Hi) as [_ Hp]. cbn in Hp.
  destruct (access_shape p a w o n s' E Hp Hs) as (Hv & _).
  destruct (map_step_inv mapped mmap munmap k _ _ i [] p (mt_sys _ _ _ _ _ Hinv) (calls_lookup _ _ _ _ Hi))
    as [([n' s''] & E1 & H)|[E1 _]]; cbn [view area word host] in E1; rewrite Hv in E1; [|done]. by simplify_eq.
Qed.

Lemma mt_access_goto E st a a' ls w w' o o' l i h p p' :
  mt_inv k u0 E st (State a ls w o l) -> l !! i = Some (User h (AtAccess p)) ->
  map_step mmap munmap p (Shared a w o) = Some (Goto p', Shared a' w' o') ->
  mt_inv k u0 E st (State a' ls w' o' (<[i := User h (goto (slab_size a) p')]> l)).
Proof.
  intros Hinv Hi Hs. pose proof (access_sys _ _ _ _ _ _ _ _ _ _ _ _ Hinv Hi Hs) as Hsys.
  pose proof (view_size _ _ _ Hinv) as Hsz. cbn [area] in Hsz.
  destruct (mt_users _ _ _ _ _ Hinv i _ Hi) as [Hh Hp]. cbn [doing held call_inv] in *.
  destruct (access_shape p a w o _ _ E Hp Hs) as (_ & Hw & (Ha1 & Ha2 & Ha3) & Hpp). cbn [ar quo osys] in *. subst w'.
  assert (Hg : at_access (goto (slab_size a) p') = Some p') by (apply goto_access; [done|]; by destruct Hpp as [[_ ->]|[[_ ->]|[_ ->]]]).
  destruct Hinv as [H1 H2 H3 H4 H5 H6]. split; cbn [area lifo word host users] in *; try done.
  - unfold view. cbn [area word host users]. by rewrite calls_insert, Hg.
  - unfold in_region in *. by rewrite Ha1, Ha2.
  - rewrite (taken_insert _ _ _ _ _ _ _ Hi), Hg. cbn [at_access].
    replace (has_quota (Some p') - has_quota (Some p)) with 0 by (by destruct Hpp as [[-> ->]|[[-> ->]|[-> ->]]]).
    replace (taken k u0 E l + _ + _) with (taken k u0 E l) by lia. done.
  - intros j u [[-> ->]|[_ Hj]]%lookup_insert_cases; [|by apply (H6 j)]. split; [done|]. cbn [doing held].
    destruct slab_in_units as (_ & _ & _ & E2). rewrite Hsz.
    destruct Hpp as [[_ ->]|[[_ ->]|[_ ->]]]; cbn [goto call_inv]; [auto..|].
    unfold call_quota. rewrite E2. cbn. split_and!; [done..|]. done.
Qed.

Lemma mt_access_ret E st a a' hd m n ts w w' o o' l i h p ptr own pc :
  mt_inv k u0 E st (State a (LfLifo.System hd m n ts) w o l) -> l !! i = Some (User h (AtAccess p)) ->
  ts !! i = Some (LfLifo.Thread own pc) ->
  map_step mmap munmap p (Shared a w o) = Some (Ret ptr, Shared a' w' o') ->
  mt_inv k u0 (ptr :: E) st (State a' (LfLifo.System hd (fresh_words p ptr m) n (<[i := LfLifo.Thread (ptr :: own) pc]> ts))
    w' o' (<[i := User h AtStack]> l)).
Proof.
  intros Hinv Hi Hts Hs. pose proof (access_sys _ _ _ _ _ _ _ _ _ _ _ _ Hinv Hi Hs) as Hsys.
  pose proof (view_size _ _ _ Hinv) as Hsz. cbn [area] in Hsz. destruct slab_in_units as (H31 & H0 & _).
  destruct (mt_users _ _ _ _ _ Hinv i _ Hi) as [Hh Hp]. cbn [doing held call_inv] in *.
  destruct (access_shape p a w o _ _ E Hp Hs) as (_ & Hw & (Ha1 & Ha2 & Ha3) & Hpp). cbn [ar quo osys] in *. subst w'.
  pose proof (calls_lookup _ _ _ _ Hi) as Hci. pose proof (mt_sys _ _ _ _ _ Hinv) as Hsys0.
  assert (Hreg : p = MAdd -> in_region a ptr).
  { intros ->. destruct Hpp as [(_ & Hle & Hptr)|[? _]]; [|done].
    destruct (used_u64 mapped k _ _ i [] MAdd Hsys0 Hci (or_introl eq_refl)) as (_ & Hu1 & Hu2 & _).
    cbn [view sh ar area with_cache used] in Hu1, Hu2. rewrite Hsz, u64_small in Hle, Hptr by lia. unfold in_region. lia. }
  assert (Hnn : ptr <> NULL).
  { destruct Hpp as [(Hpm & _)|[_ ?]]; [|done]. specialize (Hreg Hpm). destruct Hsys0 as (Hok & _).
    destruct (ok_region _ _ Hok) as (_ & _ & _ & Rc & _). cbn in Rc. unfold in_region in Hreg. change NULL with 0. lia. }
  cbn [thread_after] in Hsys. rewrite (proj2 (Z.eqb_neq ptr NULL) Hnn) in Hsys.
  pose proof (slabs_take (Shared (with_cache a' E) w o') (calls l) i [] _ ptr Hci) as Hperm.
  assert (HE : slabs (Shared (with_cache a' E) w o') (calls l) = E) by (unfold slabs; cbn [ar with_cache cache]; by rewrite calls_nil, app_nil_r).
  rewrite HE in Hperm. pose proof Hsys as (_ & Hc & _). cbn [sh threads ar quo osys] in Hc.
  apply (counts_perm _ _ _ _ _ _ _ Hperm) in Hc. pose proof (c_nodup _ _ _ _ _ _ Hc) as Hnd. apply NoDup_cons in Hnd as [HnE _].
  destruct (c_aligned _ _ _ _ _ _ Hc ptr ltac:(left)) as [Hpos Hal].
  assert (Hel : elem_ok ptr) by (split; [by apply (lf_lifo_slab k); [lia|..]|done]).
  assert (Hmem : exists v, fresh_words p ptr m = <[ptr := v]> m).
  { destruct Hpp as [(-> & _)|[-> _]]; cbn [fresh_words]; [|by exists 0].
    destruct (mt_region _ _ _ _ _ Hinv ptr) as [v Hv]; [by apply Hreg|done|]. exists v. cbn in Hv. by rewrite insert_id. }
  destruct Hmem as [v Hmem]. rewrite Hmem.
  destruct (inv_fresh E st hd m n ts i own pc ptr v (mt_elems _ _ _ _ _ Hinv) (mt_lifo _ _ _ _ _ Hinv) Hts HnE Hel) as [Hok' Hlf'].
  split; cbn [area lifo word host users].
  - done.
  - done.
  - unfold view. cbn [area word host users]. rewrite calls_insert. cbn [at_access].
    eapply (inv_perm mapped k (with_cache a' E) (ptr :: E)); [exact Hsys|by destruct a'| | |].
    + rewrite Hperm. unfold slabs. cbn [ar with_cache cache]. by rewrite <- (calls_insert _ _ h AtStack), calls_nil, app_nil_r.
    + by rewrite !(n_used_insert _ _ _ _ Hci).
    + fold (n_quota (<[i := Thread [] None]> (calls l))) (n_quota (<[i := Thread [ptr] None]> (calls l))).
      by rewrite !(n_quota_insert _ _ _ _ Hci).
  - intros x Hx Hxm. cbn [mem]. destruct (decide (ptr = x)) as [->|]; [rewrite lookup_insert_eq; eauto|].
    rewrite lookup_insert_ne by done. apply (mt_region _ _ _ _ _ Hinv x); [|done]. unfold in_region in *. cbn [area]. by rewrite <- Ha1, <- Ha2.
  - assert (Ht : taken k u0 (ptr :: E) (<[i := User h AtStack]> l) = taken k u0 E l).
    { unfold taken. rewrite (paid_insert _ _ _ _ _ _ Hi), (held_insert _ _ _ _ _ _ Hi). cbn [length at_access has_quota].
      destruct Hpp as [(-> & _)|[-> _]]; cbn [has_quota]; lia. }
    rewrite Ht. apply (mt_quota _ _ _ _ _ Hinv).
  - intros j u [[-> ->]|[_ Hj]]%lookup_insert_cases; [done|by apply (mt_users _ _ _ _ _ Hinv j)].
Qed.

(** ** Runs *)

Lemma mt_step E st s e s' : mt_inv k u0 E st s -> step s e s' -> Forall timely (option_list e) ->
  exists E' st', mt_inv k u0 E' st' s'.
Proof.
  intros Hinv Hs Ht. destruct Hs as [i a ls ls' w o l h e Hi Hs _|i a ls ls' w o l h Hi Hs|i a ls w o l h own q Hi _ Hq
    |i a ls w o l h q c Hi|i a ls w o l h q c e n r Hi Hv|i a ls w o l h q c e n r Hi|i a a' ls w w' o o' l h p p' Hi Hs
    |i a a' hd m n ts w w' o o' l h p ptr own pc Hi Hts Hs|i a ls w o l h p Hi Hs].
  - exists E. by eapply mt_stack.
  - exists E. destruct (mt_stack _ _ _ _ _ _ _ _ _ _ Hinv Hs Ht) as [st' Hinv']. exists st'.
    pose proof (view_size _ _ _ Hinv) as Hsz. cbn [area] in Hsz. destruct slab_in_units as (_ & _ & E1 & _).
    eapply mt_goto; [done..| | |]; rewrite ?(goto_access (slab_size a) MQuota) by done; [done..|].
    rewrite Hsz. cbn [goto]. unfold call_quota. by rewrite E1.
  - exists E, st. destruct (mt_users _ _ _ _ _ Hinv i _ Hi) as [Hh _]. pose proof (enter_ok cap q h ltac:(lia) Hq) as He.
    unfold call_quota. destruct (enter q) as [[r|]|] eqn:Ee; [| |done]; by eapply mt_goto.
  - exists E, st. by apply mt_quota_read.
  - exists E, st. by eapply mt_quota_cas.
  - exists E, st. destruct (mt_users _ _ _ _ _ Hinv i _ Hi) as [_ (Hc & He & _)]. eapply mt_goto; try done; by destruct c.
  - exists E, st. by eapply mt_access_goto.
  - exists (ptr :: E), st. by eapply mt_access_ret.
  - exists E, st. destruct (mt_users _ _ _ _ _ Hinv i _ Hi) as [_ Hp]. cbn in Hp.
    destruct Hp as [->|[->| ->]]; [by cbn in Hs; destruct (_ <=? _)| |done].
    destruct (map_step_inv mapped mmap munmap k _ _ i [] MMmap (mt_sys _ _ _ _ _ Hinv) (calls_lookup _ _ _ _ Hi))
      as [([n s'] & E1 & _)|[_ Hf]]; [|by eapply mt_goto].
    exfalso. cbn [view area word host map_step ar osys with_cache slab_size flags] in E1, Hs.
    destruct (mmap_checked _ _ _ _ _ _) as [[ptr o']|]; [|done]. cbn [mbind option_bind] in Hs. by destruct (ptr =? NULL).
Qed.

Lemma mt_run E st s0 tr s : mt_inv k u0 E st s0 -> run s0 tr s -> Forall timely tr -> exists E' st', mt_inv k u0 E' st' s.
Proof.
  intros H0. induction 1 as [|tr s1 e s2 Hr IH Hs]; intros Ht; [by exists E, st|].
  apply Forall_app in Ht as [Ht1 Ht2]. destruct (IH Ht1) as (E1 & st1 & H1). by eapply mt_step.
Qed.

Lemma zsum_zeros {A} (f : A -> Z) n x : f x = 0 -> zsum f (replicate n x) = 0.
Proof. intros Hf. induction n as [|n IH]; [done|]. cbn [replicate zsum foldr]. unfold zsum in IH. lia. Qed.

Lemma region_words_lookup a p : slab_size a = 2 ^ k -> arena a mod 2 ^ k = 0 -> prealloc a mod 2 ^ k = 0 ->
  in_region a p -> p mod 2 ^ k = 0 -> is_Some (region_words a !! p).
Proof.
  intros Hs Ha Hp [H1 H2] Hm. pose proof (pow2_pos k ltac:(lia)) as H0.
  destruct (region_words a !! p) eqn:E; [by eexists|]. apply not_elem_of_list_to_map_2 in E. destruct E.
  apply list_elem_of_fmap. exists (p, 0). split; [done|]. apply list_elem_of_fmap. exists ((p - arena a) / 2 ^ k).
  rewrite Hs. split.
  - f_equal. rewrite Z.mul_comm, <- Z_div_exact_full_2; [lia|lia|]. rewrite Zminus_mod, Ha, Hm. done.
  - apply elem_of_seqZ. rewrite Z.add_0_l. split; [apply Z.div_pos; lia|]. apply Z.div_lt_upper_bound; [lia|].
    rewrite <- Z_div_exact_full_2 by (done || lia). lia.
Qed.

Lemma mt_started s t n : arena_inv mapped k s [] -> cache (ar s) = [] -> quo s = Quota (enc (t, u0)) -> u0 <= t <= cap ->
  mt_inv k u0 [] [] (started s n).
Proof.
  intros (Hok & Hc & Hm) Hca Hq Ht. destruct (ok_size _ _ Hok) as [Hsz _]. cbn [sh] in *.
  destruct (ok_region _ _ Hok) as (Ra & Rp & _). destruct (calls_sums (replicate n (User 0 AtStack))) as [S1 S2].
  assert (Er : raised (replicate n (User 0 AtStack)) = 0) by (by apply zsum_zeros).
  assert (Ep : paid (replicate n (User 0 AtStack)) = 0) by (by apply zsum_zeros).
  assert (Et : taken k u0 [] (replicate n (User 0 AtStack)) = u0).
  { unfold taken. rewrite Ep, (zsum_zeros held) by done. cbn [length]. lia. }
  assert (Ew : with_cache (ar s) [] = ar s) by (rewrite <- Hca; by destruct (ar s)).
  split; cbn [started area lifo word host users].
  - by split; constructor.
  - apply lf_initial_inv. split_and!; try done; cbn [LfLifo.threads].
    + by apply Forall_replicate.
    + unfold all_elems. clear. by induction n.
    + by intros e He%elem_of_nil.
  - unfold sys_inv. rewrite view_slabs, (view_share (started s n) [] Hsz).
    cbn [view started area word host users sh threads ar quo osys]. rewrite Ew, S1, Er, Ep.
    assert (Es : slabs s [Thread [] None] = []) by (unfold slabs; cbn; by rewrite Hca).
    cbn [sh threads] in Hc, Hm. rewrite Es in Hc, Hm. unfold share in Hc. cbn [sh threads] in Hc. rewrite Es, Hsz in Hc.
    split; [done|]. split; [exact Hc|exact Hm].
  - intros p Hp Hpm. cbn [mem]. by apply region_words_lookup.
  - exists t. rewrite Et. split; [done|]. unfold tu_ok. simpl. lia.
  - intros i u Hi%lookup_replicate. by destruct Hi as [-> _].
Qed.
End Threads.

(** ** Properties *)

(** C8. The arena is safe for threads.  Let any number of threads run [slab_map],
    [slab_unmap] and calls of the shared quota, interleaved at every access to
    the list, the quota word and [used]; threads may write to the slabs they
    have; compare-and-swaps may fail for no reason, and [mmap] and [munmap] may
    fail.  As long as no pop succeeds 2^16 or more pushes after it read the head
    (see [lf_lifo_linearizable] and [lf_lifo_aba]): the slabs of the threads and of
    the list are aligned, mapped and disjoint, and each is in one place; [used] is
    exactly the size of the slabs and of the calls that have raised it; the quota
    in use is exactly what was in use before, a slab for each slab and for each
    call that has paid and not got one yet, and what the threads took themselves,
    and it stays below the limit; no thread reads or writes unmapped memory; and
    no assertion fails except the one on a failed [munmap] of mapped pages. *)
Theorem slab_arena_mt_safe {os : Type} (mapped : os -> Z -> Prop) mmap munmap
    `{!OsAdvice os} `{!OsLaws mapped mmap munmap} `{!OsAdviceLaws mapped}
    cap o t u prealloc slab_size flags fl s0 n tr s :
  0 <= prealloc < 2 ^ 64 -> 0 <= slab_size <= 2 ^ 31 -> 0 <= u <= t -> t <= cap -> cap + 2 ^ 21 < 2 ^ 32 ->
  slab_arena_flags_init flags = Some fl ->
  slab_arena_create mmap munmap o (Quota (enc (t, u))) prealloc slab_size flags = Some (0, s0) ->
  run mmap munmap cap (started s0 n) tr s -> Forall timely tr ->
  exists k E st, 16 <= k <= 31 /\
  lchain (mem (lifo s)) (lf_lifo (head (lifo s))) st /\ all_elems st (LfLifo.threads (lifo s)) ≡ₚ E /\
  NoDup E /\
  (forall p, p ∈ E -> p mod 2 ^ k = 0 /\ forall x, p <= x < p + 2 ^ k -> mapped (host s) x) /\
  (forall p q x, p ∈ E -> q ∈ E -> p <= x < p + 2 ^ k -> q <= x < q + 2 ^ k -> p = q) /\
  used (area s) = 2 ^ k * (Z.of_nat (length E) + raised (users s)) /\
  quota_used (word s) = 1024 * u + 2 ^ k * (Z.of_nat (length E) + paid (users s)) + 1024 * zsum held (users s) /\
  quota_used (word s) <= quota_total (word s) /\
  (forall i th, LfLifo.threads (lifo s) !! i = Some th -> access_ok (mem (lifo s)) (LfLifo.at_pc th)) /\
  (forall i h, users s !! i = Some (User h Died) -> munmap_failed mapped munmap).
Proof.
  intros Hp Hs Hu Ht Hcap Hfl Hc Hrun Htm.
  destruct (slab_arena_create_cases mapped mmap munmap o t u prealloc slab_size flags fl) as (k & Hk & _ & [([rc s1] & E1 & Hinv)|[E1 _]]);
    [done|done|done|lia|done| |congruence]. rewrite Hc in E1. injection E1 as <- <-.
  destruct Hinv as [(_ & Hinv & Hca & _ & Hq)|[? _]]; [|done].
  pose proof (mt_started mapped munmap cap k u Hk ltac:(lia) s0 t n Hinv Hca Hq ltac:(lia)) as H0.
  destruct (mt_run mapped mmap munmap cap Hcap k u Hk ltac:(lia) [] [] _ _ _ H0 Hrun Htm) as (E & st & Hmt).
  exists k, E, st. split; [done|]. pose proof Hmt as [M1 M2 M3 M4 M5 M6]. pose proof M3 as (Hok & Hcn & [Q1 Q2]).
  rewrite view_slabs in Hcn, Q1. pose proof (c_aligned _ _ _ _ _ _ Hcn) as Hal. destruct (slab_units k Hk) as [U1 _].
  split; [apply M2|]. split; [apply M2|]. split; [apply (c_nodup _ _ _ _ _ _ Hcn)|].
  split; [intros p HpE; split; [by apply Hal|intros x; by apply Q1]|].
  split; [intros p q x HpE HqE; apply aligned_disjoint; [lia|by apply Hal|by apply Hal]|].
  destruct M5 as (t' & Hw & Htu). unfold tu_ok in Htu. simpl in Htu. rewrite Hw.
  destruct (quota_decode t' (taken k u E (users s))) as [-> ->]; [lia..|].
  split; [destruct (c_used _ _ _ _ _ _ Hcn) as [Hus _]; cbn [view sh threads ar with_cache used] in Hus; by rewrite (proj1 (calls_sums _)) in Hus|].
  split; [unfold taken; set (x := Z.of_nat _ + _); replace (2 ^ k * x) with (in_units (2 ^ k) * 1024 * x) by (by rewrite U1); lia|]. split; [lia|]. split.
  - intros i th Hi. by eapply inv_access.
  - intros i h Hi. by destruct (M6 i _ Hi).
Qed.

(** The arena of [example_create]. *)
Definition example_arena : shared (os:=machine) :=
  Shared (SlabArena [] 65536 65536 0 65536 2147483649) (Quota 549755813888)
    (Machine (list_to_set (range_pages 65536 65536)) [1048576; 131072]).

(** Two threads and the arena of [example_create], with one preallocated slab and
    a quota of two: the first thread takes the preallocated slab while the second
    is between the read and the compare-and-swap of the quota, has to read again
    and gets a slab from [mmap]; then the first thread gives its slab back and the
    second one takes it from the list. *)
Lemma example_threads : exists s, run machine_mmap machine_munmap 128 (started example_arena 2)
  [EPopNull; EPopNull; EPush 65536; EPop 65536 0] s.
Proof.
  pose proof (run_nil machine_mmap machine_munmap 128 (started example_arena 2)) as R.
  eapply run_step in R; [|eapply (step_stack _ _ _ 0); [reflexivity|eapply step_call_pop; reflexivity|done]].
  eapply run_step in R; [|eapply (step_empty _ _ _ 0); [reflexivity|eapply step_pop_read_null; reflexivity]].
  eapply run_step in R; [|eapply (step_stack _ _ _ 1); [reflexivity|eapply step_call_pop; reflexivity|done]].
  eapply run_step in R; [|eapply (step_empty _ _ _ 1); [reflexivity|eapply step_pop_read_null; reflexivity]].
  eapply run_step in R; [|eapply (step_quota_read _ _ _ 0); vm_compute; reflexivity].
  eapply run_step in R; [|eapply (step_quota_read _ _ _ 1); vm_compute; reflexivity].
  eapply run_step in R; [|eapply (step_quota_cas _ _ _ 0); vm_compute; reflexivity].
  eapply run_step in R; [|eapply (step_quota_fail _ _ _ 1); vm_compute; reflexivity].
  eapply run_step in R; [|eapply (step_ret _ _ _ 0); vm_compute; reflexivity].
  eapply run_step in R; [|eapply (step_quota_read _ _ _ 1); vm_compute; reflexivity].
  eapply run_step in R; [|eapply (step_quota_cas _ _ _ 1); vm_compute; reflexivity].
  eapply run_step in R; [|eapply (step_goto _ _ _ 1); vm_compute; reflexivity].
  eapply run_step in R; [|eapply (step_ret _ _ _ 1); vm_compute; reflexivity].
  eapply run_step in R; [|eapply (step_stack _ _ _ 0); [reflexivity|eapply (step_call_push _ _ _ _ _ _ 65536); [reflexivity|left]|done]].
  eapply run_step in R; [|eapply (step_stack _ _ _ 0); [reflexivity|eapply step_push_read; reflexivity|done]].
  eapply run_step in R; [|eapply (step_stack _ _ _ 0); [reflexivity|eapply step_push_write; vm_compute; reflexivity|done]].
  eapply run_step in R; [|eapply (step_stack _ _ _ 0); [reflexivity|eapply step_push_cas; vm_compute; reflexivity|done]].
  eapply run_step in R; [|eapply (step_stack _ _ _ 1); [reflexivity|eapply step_call_pop; reflexivity|done]].
  eapply run_step in R; [|eapply (step_stack _ _ _ 1); [reflexivity|eapply step_pop_read; [reflexivity|by vm_compute]|done]].
  eapply run_step in R; [|eapply (step_stack _ _ _ 1); [reflexivity|eapply step_pop_next; vm_compute; reflexivity|done]].
  eapply run_step in R; [|eapply (step_stack _ _ _ 1); [reflexivity|eapply step_pop_cas; vm_compute; reflexivity|done]].
  eexists. exact R.
Qed.

Lemma slab_arena_mt_safe_witness :
  example_create = Some (0, example_arena) /\
  exists s k E st, run machine_mmap machine_munmap 128 (started example_arena 2)
      [EPopNull; EPopNull; EPush 65536; EPop 65536 0] s /\
    all_elems st (LfLifo.threads (lifo s)) ≡ₚ E /\ NoDup E /\
    used (area s) = 2 ^ k * (Z.of_nat (length E) + raised (users s)).
Proof.
  split; [by vm_compute|]. destruct example_threads as [s R].
  assert (Hc : example_create = Some (0, example_arena)) by by vm_compute.
  destruct (slab_arena_mt_safe machine_mapped machine_mmap machine_munmap 128
    (Machine ∅ [65536; 1048576; 131072]) 128 0 1000 65536 SLAB_ARENA_PRIVATE SLAB_ARENA_PRIVATE example_arena 2
    [EPopNull; EPopNull; EPush 65536; EPop 65536 0] s)
    as (k & E & st & Hk & _ & H1 & H2 & _ & _ & H3 & _); [lia|lia|lia|lia|lia|done|exact Hc|exact R|by repeat constructor|].
  exists s, k, E, st. split; [exact R|]. split; [exact H1|]. split; [exact H2|exact H3].
Defined.
