(* ===== verification/SmallFeatures.v ===== *)
(** * Features of the build and of the system: [small/small_features.c]

    A feature is supported when it is compiled in and a test at run time, if it
    has one, succeeds.  The operating system is a parameter as in [SlabArena],
    [madvise] included; the messages on stderr are left out. *)
From S2P Require Import Prelude Util SlabArena.

Section Features.
Context {os : Type} (mapped : os -> Z -> Prop) (mmap : os -> Z -> Z -> option Z * os)
  (munmap : os -> Z -> Z -> bool * os) `{!OsAdvice os}.
(** [sysconf(_SC_PAGESIZE)]. *)
Context (sysconf_pagesize : Z).

(** ** Definitions *)

Definition SMALL_FEATURE_DONTDUMP : Z := 0.
Definition FEATURE_MAX : Z := 1.

(** A shift of a 64-bit word by 64 or more is undefined. *)
Definition SMALL_FEATURE_MASK (v : Z) : option Z :=
  ASSERT (0 <=? v) && (v <? 64); Some (Z.shiftl 1 v).

Definition builtin_mask : option Z :=
  if use_madvise then
    m ← SMALL_FEATURE_MASK SMALL_FEATURE_DONTDUMP; Some (Z.lor m 0)
  else Some 0.

Definition test_dontdump (o : os) : bool * os :=
  if use_madvise then
    let size := small_getpagesize sysconf_pagesize in
    match mmap o size (Z.lor MAP_ANONYMOUS MAP_PRIVATE) with
    | (None, o) => (false, o)
    | (Some ptr, o) =>
        let '(r, o) := madvise o ptr size MADV_DONTDUMP in
        let ret := r =? 0 in
        let '(_, o) := munmap o ptr size in
        (ret, o)
    end
  else (false, o).

Definition rt_helpers : list (option (os -> bool * os)) := [Some test_dontdump].

Definition small_test_feature (o : os) (feature : Z) : option (bool * os) :=
  mask ← SMALL_FEATURE_MASK feature;
  if FEATURE_MAX <=? feature then Some (false, o)
  else
    builtin ← builtin_mask;
    if Z.land builtin mask =? 0 then Some (false, o)
    else
      h ← rt_helpers !! Z.to_nat feature;
      match h with
      | Some helper => Some (helper o)
      | None => Some (true, o)
      end.

(** ** Theorems *)

Context `{!OsLaws mapped mmap munmap} `{!OsMunmapOk mapped munmap} `{!OsAdviceLaws mapped}.

(** The run-time test says whether the system takes the advice on a fresh page. *)
Definition dontdump_works (o : os) : Prop :=
  exists ptr o1, mmap o (small_getpagesize sysconf_pagesize) (Z.lor MAP_ANONYMOUS MAP_PRIVATE) =
      (Some ptr, o1) /\
    (madvise o1 ptr (small_getpagesize sysconf_pagesize) MADV_DONTDUMP).1 = 0.

Lemma test_dontdump_spec o :
  small_getpagesize sysconf_pagesize mod page = 0 ->
  exists b o', test_dontdump o = (b, o') /\ (forall x, mapped o' x <-> mapped o x) /\
    (b = true <-> use_madvise = true /\ dontdump_works o).
Proof.
  intros Hp. unfold test_dontdump. destruct use_madvise.
  2: { eexists _, _. split; [done|]. split; [done|]. split; [done|]. by intros []. }
  assert (Hs : 0 < small_getpagesize sysconf_pagesize).
  { unfold small_getpagesize. destruct (sysconf_pagesize <? 1) eqn:E; lia. }
  unfold dontdump_works. revert Hs Hp. generalize (small_getpagesize sysconf_pagesize) as size.
  intros size Hs Hp. destruct (mmap o size _) as [[ptr|] o1] eqn:E1.
  - destruct (mmap_some _ _ _ _ _ Hs Hp E1) as (_ & Ha & Hfree & Hm1).
    pose proof (madvise_mapped o1 ptr size MADV_DONTDUMP) as Hm2.
    destruct (madvise o1 ptr size MADV_DONTDUMP) as [r o2] eqn:E2. simpl in Hm2.
    pose proof (munmap_ok (mapped:=mapped) (munmap:=munmap) o2 ptr size Hs Hp Ha) as E3.
    destruct (munmap o2 ptr size) as [b o3] eqn:E4. simpl in E3.
    rewrite E3 in E4 by (intros x Hx; rewrite Hm2, Hm1; by right).
    pose proof (munmap_true o2 ptr size o3 Hs Hp Ha E4) as Hm3. eexists _, _. split; [done|]. split.
    + intros x. rewrite Hm3, Hm2, Hm1. split; [tauto|].
      intros Hx. split; [by left|]. intros Hr. by apply (Hfree x).
    + rewrite Z.eqb_eq. split.
      * intros Hr. split; [done|]. exists ptr, o1. by rewrite E2.
      * intros [_ (ptr' & o1' & [= <- <-] & Hr)]. by rewrite E2 in Hr.
  - eexists _, _. split; [done|]. split; [by eapply mmap_none|]. split; [done|].
    by intros [_ (? & ? & ? & _)].
Qed.
End Features.

(** [small_test_feature] answers for every number below 64: true exactly for
    the known feature, when it is compiled in and the system supports it; the
    page it tries it on is unmapped again.  From 64 on the shift that builds the
    mask, which comes before the test of the range, is undefined. *)
Theorem small_test_feature_correct {os : Type} (mapped : os -> Z -> Prop) mmap munmap
    `{!OsAdvice os} `{!OsLaws mapped mmap munmap} `{!OsMunmapOk mapped munmap} `{!OsAdviceLaws mapped} sysconf_pagesize
    o feature :
  small_getpagesize sysconf_pagesize mod page = 0 -> 0 <= feature ->
  let r := small_test_feature mmap munmap sysconf_pagesize o feature in
  (feature < 64 -> exists b o', r = Some (b, o') /\ (forall x, mapped o' x <-> mapped o x) /\
     (b = true <-> feature = SMALL_FEATURE_DONTDUMP /\ use_madvise = true /\
        dontdump_works mmap sysconf_pagesize o)) /\
  (64 <= feature -> r = None).
Proof.
  intros Hp H0 r. subst r. unfold small_test_feature, SMALL_FEATURE_MASK, FEATURE_MAX.
  rewrite (proj2 (Z.leb_le 0 feature)) by done. simpl andb. split; intros Hf.
  2: { rewrite (proj2 (Z.ltb_ge feature 64)); done. }
  rewrite (proj2 (Z.ltb_lt feature 64)) by done. simpl.
  destruct (1 <=? feature) eqn:E1; bools.
  { eexists _, _. split; [done|]. split; [done|]. unfold SMALL_FEATURE_DONTDUMP.
    split; [done|]. intros [? _]. lia. }
  assert (feature = 0) as -> by lia. unfold builtin_mask.
  destruct (test_dontdump_spec mapped mmap munmap sysconf_pagesize o Hp)
    as (b & o' & Et & Hm & Hb).
  destruct use_madvise.
  - exists b, o'. split; [by rewrite <- Et|]. split; [done|]. unfold SMALL_FEATURE_DONTDUMP. tauto.
  - eexists _, _. split; [done|]. split; [done|]. split; [done|]. by intros (_ & ? & _).
Qed.

Lemma small_test_feature_correct_witness :
  small_test_feature machine_mmap machine_munmap 4096
    (Machine ∅ [65536]) 0 = Some (true, Machine ∅ []) /\
  small_test_feature machine_mmap machine_munmap 4096
    (Machine ∅ [65536]) 64 = None.
Proof.
  split; [by vm_compute|].
  apply (small_test_feature_correct machine_mapped machine_mmap machine_munmap
    4096 (Machine ∅ [65536]) 64); [reflexivity|lia|lia].
Defined.
