(* ===== verification/SlabSource.v ===== *)
(** * Where slabs come from

    What the slab cache asks of the rest of the system: slabs of the arena, its
    quota, and [malloc].  [SlabSource] has the operations, [SlabSourceLaws] what
    they promise, in terms of the memory handed out.  The arena of [SlabArena],
    its quota and a heap next to it keep the promise ([arena_laws]). *)
From S2P Require Import Prelude Util Quota SlabArena.

Class SlabSource (src : Type) := {
  arena_slab_size : src -> Z;
  arena_slab_map : src -> option (Z * src);
  arena_slab_unmap : src -> Z -> option src;
  arena_quota_use : src -> Z -> option (Z * src);
  arena_quota_release : src -> Z -> option (Z * src);
  heap_malloc : src -> Z -> Z * src;
  heap_free : src -> Z -> option src;
}.

(** [inv k lim s A B Q]: the slabs [A] of size [2^k] and the heap blocks [B] are
    handed out, and the sizes [Q] are taken from the quota; a request for more
    than [lim] of quota may fail its assertion. *)
Class SlabSourceLaws {src : Type} `{!SlabSource src}
    (inv : Z -> Z -> src -> list Z -> list (Z * Z) -> list Z -> Prop) : Prop := {
  src_geometry k lim s A B Q : inv k lim s A B Q ->
    arena_slab_size s = 2 ^ k /\ 16 <= k <= 31 /\ lim < 2 ^ 42;
  src_quota k lim s A B Q n : inv k lim s A B Q -> n ∈ Q -> 0 < n <= lim;
  src_slabs k lim s A B Q : inv k lim s A B Q ->
    NoDup A /\ (forall p, p ∈ A -> 0 < p /\ p mod 2 ^ k = 0);
  src_blocks k lim s A B Q : inv k lim s A B Q ->
    NoDup B.*1 /\ (forall p n, (p, n) ∈ B -> 0 < p /\ p mod 16 = 0 /\ 0 < n) /\
    (forall p n q m x, (p, n) ∈ B -> (q, m) ∈ B -> p <= x < p + n -> q <= x < q + m -> p = q) /\
    (forall p n q x, (p, n) ∈ B -> q ∈ A -> p <= x < p + n -> ~ q <= x < q + 2 ^ k);
  src_map k lim s A B Q : inv k lim s A B Q ->
    exists p s', arena_slab_map s = Some (p, s') /\
      ((p = NULL /\ inv k lim s' A B Q) \/ (0 < p /\ inv k lim s' (p :: A) B Q));
  src_unmap k lim s A1 p A2 B Q : inv k lim s (A1 ++ p :: A2) B Q ->
    exists s', arena_slab_unmap s p = Some s' /\ inv k lim s' (A1 ++ A2) B Q;
  src_use k lim s A B Q n : inv k lim s A B Q -> 0 < n <= lim ->
    exists r s', arena_quota_use s n = Some (r, s') /\
      ((r < 0 /\ inv k lim s' A B Q) \/ (0 <= r /\ inv k lim s' A B (n :: Q)));
  src_release k lim s A B Q1 n Q2 : inv k lim s A B (Q1 ++ n :: Q2) ->
    exists r s', arena_quota_release s n = Some (r, s') /\ inv k lim s' A B (Q1 ++ Q2);
  src_malloc k lim s A B Q n : inv k lim s A B Q -> 0 < n ->
    exists p s', heap_malloc s n = (p, s') /\
      ((p = NULL /\ inv k lim s' A B Q) \/ (0 < p /\ inv k lim s' A ((p, n) :: B) Q));
  src_free k lim s A B1 p n B2 Q : inv k lim s A (B1 ++ (p, n) :: B2) Q ->
    exists s', heap_free s p = Some s' /\ inv k lim s' A (B1 ++ B2) Q;
}.

(** ** The heap

    [malloc] and [free] of the C library, over the same operating system:
    [blocks] are the blocks in use; they are apart from each other and from what
    [mmap] has mapped. *)
Class HeapLaws {os : Type} `{!OsAdvice os} (mapped : os -> Z -> Prop)
    (mmap : os -> Z -> Z -> option Z * os) (munmap : os -> Z -> Z -> bool * os)
    (os_wf : os -> Prop) (blocks : os -> gmap Z Z)
    (malloc : os -> Z -> Z * os) (free : os -> Z -> option os) : Prop := {
  heap_block o p n : os_wf o -> blocks o !! p = Some n ->
    0 < p /\ p mod 16 = 0 /\ 0 < n /\ forall x, p <= x < p + n -> ~ mapped o x;
  heap_disjoint o p n q m x : os_wf o -> blocks o !! p = Some n -> blocks o !! q = Some m ->
    p <= x < p + n -> q <= x < q + m -> p = q;
  malloc_ok o n p o' : os_wf o -> 0 < n -> malloc o n = (p, o') ->
    os_wf o' /\ (forall x, mapped o' x <-> mapped o x) /\
    ((p = NULL /\ blocks o' = blocks o) \/
     (0 < p /\ blocks o !! p = None /\ blocks o' = <[p := n]> (blocks o)));
  free_ok o p n : os_wf o -> blocks o !! p = Some n ->
    exists o', free o p = Some o' /\ os_wf o' /\ (forall x, mapped o' x <-> mapped o x) /\
      blocks o' = delete p (blocks o);
  mmap_heap o sz fl : os_wf o ->
    os_wf (mmap o sz fl).2 /\ blocks (mmap o sz fl).2 = blocks o;
  munmap_heap o a sz : os_wf o ->
    os_wf (munmap o a sz).2 /\ blocks (munmap o a sz).2 = blocks o;
  madvise_heap o a sz adv : os_wf o ->
    os_wf (madvise o a sz adv).2 /\ blocks (madvise o a sz adv).2 = blocks o;
}.

Section Source.
Context {os : Type} (mapped : os -> Z -> Prop) (mmap : os -> Z -> Z -> option Z * os)
  (munmap : os -> Z -> Z -> bool * os) `{!OsLaws mapped mmap munmap} `{!OsMunmapOk mapped munmap} `{!OsAdvice os} `{!OsAdviceLaws mapped}
  (os_wf : os -> Prop) (blocks : os -> gmap Z Z)
  (malloc : os -> Z -> Z * os) (free : os -> Z -> option os)
  `{HL : !HeapLaws mapped mmap munmap os_wf blocks malloc free}.

Local Abbreviation shared := (shared (os:=os)).
Local Abbreviation arena_inv := (arena_inv mapped).
Local Abbreviation slab_map := (slab_map mmap munmap).

Definition set_quota (s : shared) (q : quota) : shared := Shared (ar s) q (osys s).
Definition set_os (s : shared) (o : os) : shared := Shared (ar s) (quo s) o.

#[global] Instance arena_source : SlabSource shared := {
  arena_slab_size s := slab_size (ar s);
  arena_slab_map s := slab_map s;
  arena_slab_unmap s p := slab_unmap s p;
  arena_quota_use s n := '(r, q) ← quota_use false (quo s) n; Some (r, set_quota s q);
  arena_quota_release s n := '(r, q) ← quota_release false (quo s) n; Some (r, set_quota s q);
  heap_malloc s n := let '(p, o) := malloc (osys s) n in (p, set_os s o);
  heap_free s p := o ← free (osys s) p; Some (set_os s o);
}.

(** The quota has limit [t]; beyond what the slabs of the arena use it holds at
    least the units of [Q]. *)
Definition quota_part (lim : Z) (s : shared) (Q : list Z) : Prop :=
  exists t u, quo s = Quota (enc (t, u)) /\ 0 <= u <= t /\ t + 2 ^ 21 < 2 ^ 32 /\
    0 <= lim /\ (t + 1) * 1024 + lim <= QUOTA_MAX /\ (forall n, n ∈ Q -> 0 < n <= lim) /\
    used (ar s) + 1024 * zsum in_units Q <= 1024 * u.

Definition heap_part (o : os) (B : list (Z * Z)) : Prop :=
  os_wf o /\ NoDup B.*1 /\ forall p n, (p, n) ∈ B -> blocks o !! p = Some n.

Definition source_inv (k lim : Z) (s : shared) (A : list Z) (B : list (Z * Z)) (Q : list Z) : Prop :=
  arena_inv k s A /\ quota_part lim s Q /\ heap_part (osys s) B.

(** ** [slab_map] seen from the quota and from the heap *)

(** The slack of the quota over [used], corrected for the call in progress. *)
Definition slack (k u : Z) (p : option map_pc) (s : shared) : Z :=
  1024 * u - used (ar s) - 2 ^ k * (has_quota p - has_used p).

Definition next_pc (n : map_next) : option map_pc :=
  match n with Goto p => Some p | Ret _ => None end.

Lemma map_step_slack k s out p n s' t u :
  sys_inv mapped k (System s [Thread out (Some p)]) -> map_step mmap munmap p s = Some (n, s') ->
  quo s = Quota (enc (t, u)) -> 0 <= u <= t -> t + 2 ^ 21 < 2 ^ 32 ->
  exists u', quo s' = Quota (enc (t, u')) /\ 0 <= u' <= t /\
    slack k u' (next_pc n) s' = slack k u (Some p) s.
Proof.
  intros Hinv E Hq Hu Ht. pose proof Hinv as (Hok & Hc & _). destruct (ok_size _ _ Hok) as [Hsz Hk].
  cbn [sh threads] in *. destruct (slab_units k Hk) as [U1 U2].
  pose proof (pow2_pos k ltac:(lia)) as H2k. pose proof (pow2_mono k 31 ltac:(lia)) as H31.
  pose proof QUOTA_MAX_eq as Hqm. unfold slack. destruct p; cbn [map_step] in E.
  - exists u. destruct (cache (ar s)); simplify_eq/=; split_and!; (done || lia).
  - rewrite Hq, Hsz, quota_use_enc in E by lia.
    destruct (Z.gtb_spec (u + in_units (2 ^ k)) t) as [Hgt|Hle]; cbn [mbind option_bind] in E.
    + exists u. simplify_eq/=. split_and!; (done || lia).
    + rewrite (proj2 (Z.ltb_ge _ _)) in E by lia. simplify_eq/=.
      eexists. split_and!; [done|lia|lia|]. lia.
  - destruct (used_u64 mapped k s _ 0%nat out MAdd Hinv eq_refl) as (_ & H0 & H1 & _); [by left|].
    exists u. rewrite !Hsz, u64_small in E by lia. destruct (_ <=? _); simplify_eq/=; split_and!; (done || lia).
  - exists u. destruct (mmap_checked _ _ _ _ _ _) as [[r o]|]; simplify_eq/=.
    destruct (r =? 0); simplify_eq/=; split_and!; (done || lia).
  - destruct (used_u64 mapped k s _ 0%nat out MSub Hinv eq_refl) as (H2 & H0 & H1 & H3); [by right|].
    specialize (H3 eq_refl). exists u. rewrite !Hsz, u64_small in E by nia. simplify_eq/=. split_and!; (done || lia).
  - destruct (c_quota _ _ _ _ _ _ Hc) as (t' & u' & Hq' & Hu' & _ & Hsh).
    assert (u' = u) as ->.
    { rewrite Hq in Hq'. injection Hq' as Hq'. unfold enc in Hq'. simpl in Hq'. lia. }
    unfold share in Hsh. cbn [sh threads] in Hsh. rewrite Hsz in Hsh. simpl in Hsh.
    rewrite Hq, Hsz, quota_release_enc in E by nia. cbn [mbind option_bind] in E. simplify_eq/=.
    eexists. split_and!; [done|nia|lia|lia].
Qed.

(** What [mmap], [munmap] and [madvise] keep, [slab_map] keeps. *)
Lemma map_step_os (P : os -> Prop) p s n s' :
  (forall o sz fl, P o -> P (mmap o sz fl).2) -> (forall o a sz, P o -> P (munmap o a sz).2) ->
  (forall o a sz adv, P o -> P (madvise o a sz adv).2) ->
  map_step mmap munmap p s = Some (n, s') -> P (osys s) -> P (osys s').
Proof.
  intros H1 H2 H3 E Hs.
  assert (Hun : forall o a sz o', munmap_checked munmap o a sz = Some o' -> P o -> P o').
  { intros o a sz o' Em Ho. unfold munmap_checked in Em. specialize (H2 o a sz Ho).
    destruct (munmap o a sz) as [[] o1]; by simplify_eq/=. }
  assert (Hmm : forall o sz al fl r o', mmap_checked mmap munmap o sz al fl = Some (r, o') -> P o -> P o').
  { intros o sz al fl r o' Em Ho. unfold mmap_checked in Em.
    do 2 (destruct (_ =? 0); [|done]).
    match type of Em with context [mmap o sz ?f] => pose proof (H1 o sz f Ho) as Ho1;
      destruct (mmap o sz f) as [[map|] o1]; [|by simplify_eq] end.
    destruct (_ =? 0); [by simplify_eq|].
    destruct (munmap_checked _ _ _ _) as [o2|] eqn:Eu; simplify_eq/=. apply Hun in Eu; [|done].
    match type of Em with context [mmap o2 ?z ?f] => pose proof (H1 o2 z f Eu) as Ho3;
      destruct (mmap o2 z f) as [[map2|] o3]; [|by simplify_eq] end.
    simpl in Ho3. destruct (negb _);
      repeat (destruct (munmap_checked _ _ _ _) as [?|] eqn:?; simplify_eq/=; eapply Hun in Heqo0; try done);
      eauto. }
  destruct p; cbn [map_step] in E.
  - by destruct (cache (ar s)); simplify_eq/=.
  - by destruct (quota_use _ _ _) as [[]|]; simplify_eq/=.
  - by destruct (_ <=? _); simplify_eq/=.
  - destruct (mmap_checked _ _ _ _ _ _) as [[r o]|] eqn:Em; simplify_eq/=. apply Hmm in Em; [|done].
    destruct (r =? 0); simplify_eq/=; [done|]. unfold madvise_checked.
    destruct use_madvise; [|done]. destruct (r =? 0); [done|]. destruct (negb _); [done|]. by apply H3.
  - by simplify_eq/=.
  - by destruct (quota_release _ _ _) as [[]|]; simplify_eq/=.
Qed.

Lemma map_run_frame (P : os -> Prop) k fuel p s out r s' t u :
  (forall o sz fl, P o -> P (mmap o sz fl).2) -> (forall o a sz, P o -> P (munmap o a sz).2) ->
  (forall o a sz adv, P o -> P (madvise o a sz adv).2) ->
  sys_inv mapped k (System s [Thread out (Some p)]) ->
  map_run mmap munmap fuel p s = Some (r, s') -> P (osys s) ->
  quo s = Quota (enc (t, u)) -> 0 <= u <= t -> t + 2 ^ 21 < 2 ^ 32 ->
  P (osys s') /\ exists u', quo s' = Quota (enc (t, u')) /\ 0 <= u' <= t /\
    1024 * u' - used (ar s') = slack k u (Some p) s.
Proof.
  intros H1 H2 H3. revert p s u. induction fuel as [|fuel IH]; intros p s u Hinv E HP Hq Hu Ht; [done|].
  cbn [map_run] in E.
  destruct (unless_munmap_ok mapped munmap _ _ (map_step_inv mapped mmap munmap k s _ 0%nat out p Hinv eq_refl)) as ([n s1] & E1 & Hinv1).
  rewrite E1 in E. pose proof (map_step_os P p s n s1 H1 H2 H3 E1 HP) as HP1.
  destruct (map_step_slack k s out p n s1 t u Hinv E1 Hq Hu Ht) as (u1 & Hq1 & Hu1 & Hs1).
  destruct n as [p1|ptr]; cbn [next_pc thread_after] in *.
  - rewrite <- Hs1. by apply (IH p1 s1 u1).
  - simplify_eq. split; [done|]. exists u1. split_and!; [done|lia|lia|].
    rewrite <- Hs1. unfold slack. simpl. lia.
Qed.

(** ** The arena keeps the promise *)

Lemma quota_part_map k lim s out r s' Q :
  arena_inv k s out -> slab_map s = Some (r, s') -> quota_part lim s Q -> quota_part lim s' Q.
Proof.
  intros Hinv E (t & u & Hq & Hu & Ht & Hl & Hlt & HQ & Hs).
  assert (Hgo : sys_inv mapped k (System s [Thread out (Some MPop)]))
    by by apply (inv_goto mapped k s [Thread out None] 0%nat out None).
  destruct (map_run_frame (fun _ => True) k 6 MPop s out r s' t u) as (_ & u' & Hq' & Hu' & Hs');
    try done.
  exists t, u'. split_and!; try done; [lia|lia|]. unfold slack in Hs'. simpl in Hs'. lia.
Qed.

Lemma heap_part_map k s out r s' B :
  arena_inv k s out -> slab_map s = Some (r, s') -> heap_part (osys s) B -> heap_part (osys s') B.
Proof.
  intros Hinv E HB. pose proof Hinv as (_ & Hc & _).
  destruct (c_quota _ _ _ _ _ _ Hc) as (t & u & Hq & Hu & Ht & _).
  assert (Hgo : sys_inv mapped k (System s [Thread out (Some MPop)]))
    by by apply (inv_goto mapped k s [Thread out None] 0%nat out None).
  eapply (map_run_frame (fun o => heap_part o B) k 6 MPop s out r s' t u); try done.
  - intros o sz fl (H1 & H2 & H3). destruct (mmap_heap o sz fl H1) as [H4 H5].
    split_and!; [done|done|]. by rewrite H5.
  - intros o a sz (H1 & H2 & H3). destruct (munmap_heap o a sz H1) as [H4 H5].
    split_and!; [done|done|]. by rewrite H5.
  - intros o a sz adv (H1 & H2 & H3). destruct (madvise_heap o a sz adv H1) as [H4 H5].
    split_and!; [done|done|]. by rewrite H5.
Qed.

Lemma arena_inv_quota k s A t u :
  arena_inv k s A -> used (ar s) <= 1024 * u -> 0 <= u <= t -> t + 2 ^ 21 < 2 ^ 32 ->
  arena_inv k (set_quota s (Quota (enc (t, u)))) A.
Proof.
  intros (Hok & [C1 C2 C3 C4 C5 C6] & Hm) Hs Hu Ht. split_and!; [done|split; try done|done].
  exists t, u. split_and!; try done; [lia..|]. cbn [sh threads] in *.
  destruct (ok_size _ _ Hok) as [Hsz Hk]. destruct (slab_units k Hk) as [U1 _].
  destruct C3 as [C3 _]. unfold n_used in C3. unfold share. cbn [sh threads] in *. simpl in *.
  rewrite Hsz. rewrite C3, <- U1 in Hs. unfold slabs in *. simpl in *. nia.
Qed.

Lemma zsum_units_nonneg (Q : list Z) : (forall n, n ∈ Q -> 0 < n <= QUOTA_MAX) -> 0 <= zsum in_units Q.
Proof.
  intros HQ. apply zsum_nonneg. intros n Hn. specialize (HQ n Hn).
  pose proof (in_units_pos n ltac:(lia)). lia.
Qed.

Lemma arena_use_ok k lim s A B Q n :
  source_inv k lim s A B Q -> 0 < n <= lim ->
  exists r s', arena_quota_use s n = Some (r, s') /\
    ((r < 0 /\ source_inv k lim s' A B Q) \/ (0 <= r /\ source_inv k lim s' A B (n :: Q))).
Proof.
  pose proof QUOTA_MAX_eq as Hqm.
  intros (Ha & (t & u & Hq & Hu & Ht & Hl & Hlt & HQ & Hs) & Hh) Hn.
  cbn [arena_quota_use arena_source]. pose proof (in_units_covers n ltac:(lia)).
  assert (HzQ : 0 <= zsum in_units Q).
  { apply zsum_units_nonneg. intros m Hm. specialize (HQ m Hm). lia. }
  rewrite Hq, quota_use_enc by lia. destruct (Z.gtb_spec (u + in_units n) t); cbn [mbind option_bind].
  + eexists _, _. split; [done|]. left. split; [lia|]. rewrite <- Hq.
    split; [by destruct s|]. split; [by exists t, u|done].
  + eexists _, _. split; [done|]. right. split; [lia|]. split; [|split; [|done]].
    * apply arena_inv_quota; [done|lia..].
    * exists t, (u + in_units n). do 5 (split; [done || lia|]). split.
      -- intros m [->|Hm]%elem_of_cons; [lia|by apply HQ].
      -- cbn [set_quota ar]. change (zsum in_units (n :: Q)) with (in_units n + zsum in_units Q). lia.
Qed.

Lemma arena_release_ok k lim s A B Q1 n Q2 :
  source_inv k lim s A B (Q1 ++ n :: Q2) ->
  exists r s', arena_quota_release s n = Some (r, s') /\ source_inv k lim s' A B (Q1 ++ Q2).
Proof.
  pose proof QUOTA_MAX_eq as Hqm.
  intros (Ha & (t & u & Hq & Hu & Ht & Hl & Hlt & HQ & Hs) & Hh).
  cbn [arena_quota_release arena_source].
  assert (Hn : 0 < n <= lim) by (apply HQ, elem_of_app; right; left).
  pose proof (in_units_covers n ltac:(lia)) as Hcv.
  assert (Hz : forall Q', (forall m, m ∈ Q' -> 0 < m <= lim) -> 0 <= zsum in_units Q').
  { intros Q' HQ'. apply zsum_units_nonneg. intros m Hm. specialize (HQ' m Hm). lia. }
  assert (HQ1 : forall m, m ∈ Q1 -> 0 < m <= lim) by (intros; apply HQ, elem_of_app; by left).
  assert (HQ2 : forall m, m ∈ Q2 -> 0 < m <= lim) by (intros; apply HQ, elem_of_app; right; by right).
  pose proof (Hz _ HQ1). pose proof (Hz _ HQ2).
  rewrite zsum_app in Hs. cbn [zsum foldr] in Hs. fold (zsum in_units Q2) in Hs.
  assert (0 <= used (ar s)).
  { destruct Ha as (Hok & Hc & _). destruct (c_used _ _ _ _ _ _ Hc). destruct (ok_size _ _ Hok) as [_ Hk].
    pose proof (pow2_pos k ltac:(lia)). cbn [sh] in *. nia. }
  rewrite Hq, quota_release_enc by lia. cbn [mbind option_bind].
  eexists _, _. split; [done|]. split; [|split; [|done]].
  + apply arena_inv_quota; [done|lia..].
  + exists t, (u - in_units n). do 5 (split; [done || lia|]). split.
    * intros m [Hm|Hm]%elem_of_app; auto.
    * rewrite zsum_app. cbn [set_quota ar]. lia.
Qed.

Lemma arena_malloc_ok k lim s A B Q n :
  source_inv k lim s A B Q -> 0 < n ->
  exists p s', heap_malloc s n = (p, s') /\
    ((p = NULL /\ source_inv k lim s' A B Q) \/ (0 < p /\ source_inv k lim s' A ((p, n) :: B) Q)).
Proof.
  intros (Ha & Hq & Hwf & Hnd & HB) Hn. cbn [heap_malloc arena_source].
  destruct (malloc (osys s) n) as [p o] eqn:E.
  destruct (malloc_ok _ _ _ _ Hwf Hn E) as (Hwf' & Hm & Hb). exists p, (set_os s o). split; [done|].
  destruct Hb as [[-> Hb]|(Hp & Hnew & Hb)]; [left|right]; (split; [done|]);
    (split; [by apply arena_inv_os|split; [done|split; [done|]]]); split.
  + done.
  + by cbn [set_os osys]; rewrite Hb.
  + cbn [fmap list_fmap]. apply NoDup_cons. split; [|done].
    intros ([q m] & Hqq & Hin%HB)%list_elem_of_fmap. simpl in Hqq. subst. congruence.
  + cbn [set_os osys]. rewrite Hb. intros q m [[= -> ->]|Hin]%elem_of_cons; [by simplify_map_eq|].
    apply HB in Hin as Hin'. rewrite lookup_insert_ne; [done|]. congruence.
Qed.

Lemma arena_free_ok k lim s A B1 p n B2 Q :
  source_inv k lim s A (B1 ++ (p, n) :: B2) Q ->
  exists s', heap_free s p = Some s' /\ source_inv k lim s' A (B1 ++ B2) Q.
Proof.
  intros (Ha & Hq & Hwf & Hnd & HB). cbn [heap_free arena_source].
  assert (Hp : blocks (osys s) !! p = Some n) by (apply HB, elem_of_app; right; left).
  destruct (free_ok _ _ _ Hwf Hp) as (o & E & Hwf' & Hm & Hb). rewrite E. cbn [mbind option_bind].
  eexists. split; [done|]. rewrite fmap_app in Hnd. cbn [fmap list_fmap] in Hnd.
  apply NoDup_app in Hnd as (N1 & N2 & N3). apply NoDup_cons in N3 as [N3 N4]. simpl in N2, N3.
  split; [by apply arena_inv_os|split; [done|split; [done|split]]].
  + rewrite fmap_app. apply NoDup_app. split_and!; [done| |done].
    intros x Hx Hx2. apply (N2 x Hx). by right.
  + cbn [set_os osys]. rewrite Hb. intros q m Hin.
    assert (Hne : q <> p).
    { intros ->. apply elem_of_app in Hin as [Hin|Hin].
      - apply (N2 p); [apply list_elem_of_fmap; by exists (p, m)|left].
      - apply N3. apply list_elem_of_fmap. by exists (p, m). }
    rewrite lookup_delete_ne by done. apply HB. apply elem_of_app in Hin as [Hin|Hin];
      apply elem_of_app; [by left|right; by right].
Qed.

#[global] Instance arena_laws : SlabSourceLaws source_inv.
Proof.
  pose proof QUOTA_MAX_eq as Hqm. split.
  - intros k lim s A B Q ((Hok & _) & (t & u & _ & Hu & Ht & Hl & Hlt & _) & _).
    destruct (ok_size _ _ Hok) as [Hsz Hk]. split_and!; (done || lia).
  - intros k lim s A B Q n (_ & (t & u & _ & _ & _ & _ & _ & HQ & _) & _). apply HQ.
  - intros k lim s A B Q ((_ & Hc & _) & _ & _). cbn [sh threads] in Hc.
    pose proof (c_nodup _ _ _ _ _ _ Hc) as Hn. apply NoDup_app in Hn as (_ & _ & Hn).
    simpl in Hn. rewrite app_nil_r in Hn. split; [done|]. intros p Hp.
    apply (c_aligned _ _ _ _ _ _ Hc). apply elem_of_app. right. simpl. by rewrite app_nil_r.
  - intros k lim s A B Q ((_ & _ & Hm & _) & _ & Hwf & Hnd & HB). cbn [sh threads] in Hm.
    split_and!; [done| | |].
    + intros p n Hp%HB. by destruct (heap_block _ _ _ Hwf Hp) as (? & ? & ? & _).
    + intros p n q m x Hp%HB Hq%HB. by apply (heap_disjoint _ _ _ _ _ _ Hwf Hp Hq).
    + intros p n q x Hp%HB Hq Hx Hx'. destruct (heap_block _ _ _ Hwf Hp) as (_ & _ & _ & Hf).
      apply (Hf x Hx). eapply Hm; [|done]. apply elem_of_app. right. simpl. by rewrite app_nil_r.
  - intros k lim s A B Q (Ha & Hq & Hh). destruct (slab_map_inv mapped mmap munmap k s A Ha) as (p & s' & E & Ha').
    exists p, s'. split; [done|].
    pose proof (quota_part_map _ _ _ _ _ _ _ Ha E Hq). pose proof (heap_part_map _ _ _ _ _ _ Ha E Hh).
    destruct (Z.eqb_spec p NULL) as [->|Hne]; [by left|]. right. split; [|done].
    destruct Ha' as (_ & Hc & _). apply (c_aligned _ _ _ _ _ _ Hc). apply elem_of_app. right. left.
  - intros k lim s A1 p A2 B Q (Ha & Hq & Hh).
    destruct (slab_unmap_inv mapped k s A1 p A2 Ha) as (s' & E & Ha'). exists s'. split; [done|].
    unfold slab_unmap in E. destruct (p =? NULL); [by simplify_eq|].
    destruct (_ =? _); [|done]. by simplify_eq.
  - exact arena_use_ok.
  - exact arena_release_ok.
  - exact arena_malloc_ok.
  - exact arena_free_ok.
Qed.
End Source.

(** ** A concrete host

    The operating system of [SlabArena] with a heap: [malloc] answers with the
    addresses of a list, and with NULL when the next one is not free. *)
Record host := Host { mm : machine; blks : gmap Z Z; heap_answers : list Z }.

Definition host_mapped (h : host) (x : Z) : Prop := machine_mapped (mm h) x.

(** No block meets [sz] bytes at [a]. *)
Definition clear_of_blocks (h : host) (a sz : Z) : bool :=
  forallb (fun '(p, n) => (p + n <=? a) || (a + sz <=? p)) (map_to_list (blks h)).

Definition host_mmap (h : host) (sz fl : Z) : option Z * host :=
  match machine_mmap (mm h) sz fl with
  | (Some a, m) =>
      if clear_of_blocks h a sz then (Some a, Host m (blks h) (heap_answers h))
      else (None, h)
  | (None, m) => (None, Host m (blks h) (heap_answers h))
  end.

Definition host_munmap (h : host) (a sz : Z) : bool * host :=
  let '(ok, m) := machine_munmap (mm h) a sz in (ok, Host m (blks h) (heap_answers h)).

Definition host_malloc (h : host) (n : Z) : Z * host :=
  match heap_answers h with
  | [] => (NULL, h)
  | a :: rest =>
      if (0 <? a) && (a mod 16 =? 0) && clear_of_blocks h a n &&
         forallb (fun p => bool_decide (p ∉ pages (mm h)))
           (seqZ (a / page) ((a + n) / page - a / page + 1))
      then (a, Host (mm h) (<[a := n]> (blks h)) rest)
      else (NULL, Host (mm h) (blks h) rest)
  end.

Definition host_free (h : host) (p : Z) : option host :=
  match blks h !! p with
  | Some _ => Some (Host (mm h) (delete p (blks h)) (heap_answers h))
  | None => None
  end.

Definition host_wf (h : host) : Prop :=
  (forall p n, blks h !! p = Some n ->
     0 < p /\ p mod 16 = 0 /\ 0 < n /\ forall x, p <= x < p + n -> ~ host_mapped h x) /\
  (forall p n q m x, blks h !! p = Some n -> blks h !! q = Some m ->
     p <= x < p + n -> q <= x < q + m -> p = q).

Lemma clear_of_blocks_spec h a sz p n x :
  clear_of_blocks h a sz = true -> blks h !! p = Some n -> p <= x < p + n -> ~ a <= x < a + sz.
Proof.
  intros H Hp Hx Ha. unfold clear_of_blocks in H. rewrite forallb_forall in H.
  specialize (H (p, n)). rewrite <- list_elem_of_In, elem_of_map_to_list in H.
  specialize (H Hp). simpl in H. bools. destruct H as [H|H]; bools; lia.
Qed.

#[global] Instance host_laws : OsLaws host_mapped host_mmap host_munmap.
Proof.
  split.
  - intros o sz fl a o' H1 H2 E. unfold host_mmap in E.
    destruct (machine_mmap (mm o) sz fl) as [[a1|] m] eqn:Em; [|done].
    destruct (clear_of_blocks _ _ _); [|done]. simplify_eq.
    apply (mmap_some _ _ _ _ _ H1 H2 Em).
  - intros o sz fl o' E. unfold host_mmap in E.
    destruct (machine_mmap (mm o) sz fl) as [[a1|] m] eqn:Em.
    + destruct (clear_of_blocks _ _ _); [done|]. by simplify_eq.
    + simplify_eq. apply (mmap_none _ _ _ _ Em).
  - intros o a sz o' H1 H2 H3. unfold host_munmap. destruct (machine_munmap (mm o) a sz) as [b m] eqn:E.
    intros [= -> <-]. exact (munmap_true (mm o) a sz m H1 H2 H3 E).
  - done.
Qed.

#[global] Instance host_munmap_ok : OsMunmapOk host_mapped host_munmap.
Proof. done. Qed.

#[global] Instance host_advice : OsAdvice host := {
  use_madvise := true;
  madvise o _ _ adv := (if adv =? MADV_DONTDUMP then 0 else -1, o);
  mprotect o _ _ := o;
}.

#[global] Instance host_advice_laws : OsAdviceLaws host_mapped.
Proof. by split. Qed.

(** A state whose mappings only shrank, with the same blocks, is well formed. *)
Lemma host_wf_shrink o o' :
  host_wf o -> blks o' = blks o -> (forall x, host_mapped o' x -> host_mapped o x) -> host_wf o'.
Proof.
  intros [W1 W2] Hb Hm. split; rewrite Hb; [|done]. intros p n Hp.
  destruct (W1 p n Hp) as (H1 & H2 & H3 & H4). split_and!; try done.
  intros x Hx Hx'. by apply (H4 x Hx), Hm.
Qed.

Lemma host_malloc_wf o n p o' :
  host_wf o -> 0 < n -> host_malloc o n = (p, o') ->
  host_wf o' /\ (forall x, host_mapped o' x <-> host_mapped o x) /\
  ((p = NULL /\ blks o' = blks o) \/ (0 < p /\ blks o !! p = None /\ blks o' = <[p := n]> (blks o))).
Proof.
  intros [W1 W2] Hn E. unfold host_malloc in E.
  destruct (heap_answers o) as [|a rest]; [simplify_eq; by split_and!; [split|..|left]|].
  destruct (_ && _ && _ && _) eqn:Ec; simplify_eq; [|by split_and!; [split|..|left]].
  apply andb_true_iff in Ec as [Ec Hpg]. apply andb_true_iff in Ec as [Ec Hcl]. bools.
  assert (Hfree : forall x, p <= x < p + n -> ~ host_mapped o x).
  { intros x Hx Hm. rewrite forallb_forall in Hpg. specialize (Hpg (x / page)).
    rewrite <- list_elem_of_In, elem_of_seqZ in Hpg. unfold host_mapped, machine_mapped in Hm.
    assert (p / page <= x / page <= (p + n) / page)
      by (split; apply Z.div_le_mono; [done|lia|done|lia]).
    specialize (Hpg ltac:(lia)). by apply bool_decide_eq_true in Hpg. }
  assert (Hnew : blks o !! p = None).
  { destruct (blks o !! p) as [m|] eqn:Em; [|done]. destruct (W1 p m Em) as (_ & _ & Hm & _).
    exfalso. apply (clear_of_blocks_spec o p n p m p Hcl Em); lia. }
  split_and!; [split; cbn [blks]|done|right; done].
  - intros q m [[<- <-]|[Hne Hq]]%lookup_insert_Some; [done|by apply W1].
  - intros q m r l x [[<- <-]|[Hne Hq]]%lookup_insert_Some [[<- <-]|[Hne' Hr]]%lookup_insert_Some Hx Hx'.
    + done.
    + by destruct (clear_of_blocks_spec o p n r l x Hcl Hr).
    + by destruct (clear_of_blocks_spec o p n q m x Hcl Hq).
    + by eapply W2.
Qed.

Lemma host_mmap_wf o sz fl : host_wf o -> host_wf (host_mmap o sz fl).2 /\ blks (host_mmap o sz fl).2 = blks o.
Proof.
  intros W. unfold host_mmap. destruct (machine_mmap (mm o) sz fl) as [[a|] m] eqn:Em.
  - destruct (clear_of_blocks o a sz) eqn:Hcl; [|done]. split; [|done]. destruct W as [W1 W2].
    split; [|done]. cbn [blks]. intros p n Hp. destruct (W1 p n Hp) as (H1 & H2 & H3 & H4).
    split_and!; try done. intros x Hx Hm. cbn [host_mapped mm] in Hm.
    unfold machine_mmap in Em. destruct (answers (mm o)) as [|a' rest]; [done|].
    destruct (_ && _) eqn:Ec; [|done]. apply andb_true_iff in Ec as [Ec _]. bools. simplify_eq.
    unfold host_mapped, machine_mapped in Hm. cbn [mm pages] in Hm.
    apply elem_of_union in Hm as [Hm|Hm]; [by apply (H4 x Hx)|].
    apply elem_of_list_to_set in Hm. unfold range_pages in Hm. apply elem_of_seqZ in Hm.
    apply (clear_of_blocks_spec o a sz p n x Hcl Hp Hx).
    change page with 4096 in *. Z.to_euclidean_division_equations. lia.
  - split; [|done]. apply (host_wf_shrink o); [done|done|]. intros x Hm. by apply (mmap_none _ _ _ _ Em x).
Qed.

#[global] Instance host_heap_laws :
  HeapLaws host_mapped host_mmap host_munmap host_wf blks host_malloc host_free.
Proof.
  split.
  - intros o p n [H _]. apply H.
  - intros o p n q m x [_ H]. apply H.
  - exact host_malloc_wf.
  - intros o p n [W1 W2] Hp. unfold host_free. rewrite Hp. eexists. split; [done|].
    split_and!; [split; cbn [blks]|done|done].
    + intros q m [_ Hq]%lookup_delete_Some. by apply W1.
    + intros q m r l x [_ Hq]%lookup_delete_Some [_ Hr]%lookup_delete_Some. by eapply W2.
  - exact host_mmap_wf.
  - intros o a sz W. split; [|done]. apply (host_wf_shrink o); [done|done|]. intros x Hm.
    unfold host_mapped, machine_mapped in *. cbn in Hm. apply elem_of_difference in Hm. apply Hm.
  - intros o a sz adv W. by split.
Qed.

Abbreviation host_source := (arena_source host_mmap host_munmap host_malloc host_free).
Abbreviation host_inv := (source_inv host_mapped host_wf blks).
