(* ===== verification/SlabCache.v ===== *)
(** * Slab cache: [include/small/slab_cache.h], [small/slab_cache.c],
      [include/small/slab_list.h]

    The buddy system over the slabs of an arena.  The slab headers are a finite
    map from addresses; the lists of slabs, which [Rlist] relates to lists, are
    lists of addresses.  Where slabs come from is the interface [SlabSource].
    [Valgrind] requests and the check of the thread are left out. *)
From S2P Require Import Prelude Util Quota SlabArena SlabSource.

Section Cache.
Context {src : Type} `{!SlabSource src}.

(** ** Definitions *)

Definition slab_magic : Z := 4005625838.

(** A slab header, less its list links. *)
Record slab := Slab { size : Z; magic : Z; order : Z; in_use : Z }.

Record small_stats := SmallStats { used : Z; total : Z }.
Definition small_stats_reset : small_stats := SmallStats 0 0.

Record slab_list := SlabList { slabs : list Z; stats : small_stats }.
Definition slab_list_create : slab_list := SlabList [] small_stats_reset.

Definition ORDER_MAX : Z := 16.

(** [orders] are the lists of the orders up to [order_max], the ones that are
    initialised; [mem] are the headers of the slabs in memory. *)
Record slab_cache := SlabCache {
  arena : src;
  order0_size : Z;
  order0_size_lb : Z;
  order_max : Z;
  allocated : slab_list;
  orders : list slab_list;
  mem : gmap Z slab;
}.

Definition set_arena (c : slab_cache) (a : src) : slab_cache :=
  SlabCache a (order0_size c) (order0_size_lb c) (order_max c) (allocated c) (orders c) (mem c).
Definition set_allocated (c : slab_cache) (l : slab_list) : slab_cache :=
  SlabCache (arena c) (order0_size c) (order0_size_lb c) (order_max c) l (orders c) (mem c).
Definition set_orders (c : slab_cache) (l : list slab_list) : slab_cache :=
  SlabCache (arena c) (order0_size c) (order0_size_lb c) (order_max c) (allocated c) l (mem c).
Definition set_mem (c : slab_cache) (m : gmap Z slab) : slab_cache :=
  SlabCache (arena c) (order0_size c) (order0_size_lb c) (order_max c) (allocated c) (orders c) m.
Definition write (c : slab_cache) (p : Z) (s : slab) : slab_cache := set_mem c (<[p := s]> (mem c)).

(** [&cache->orders[o]], read and updated. *)
Definition order_list (c : slab_cache) (o : Z) : option slab_list := orders c !! Z.to_nat o.
Definition update_order (c : slab_cache) (o : Z) (f : slab_list -> option slab_list) :
    option slab_cache :=
  l ← order_list c o;
  l ← f l;
  Some (set_orders c (<[Z.to_nat o := l]> (orders c))).

Definition add_used (n : Z) (l : slab_list) : slab_list :=
  SlabList (slabs l) (SmallStats (u64 (used (stats l) + n)) (total (stats l))).
Definition add_total (n : Z) (l : slab_list) : slab_list :=
  SlabList (slabs l) (SmallStats (used (stats l)) (u64 (total (stats l) + n))).
Definition set_slabs (s : list Z) (l : slab_list) : slab_list := SlabList s (stats l).

Definition slab_list_add (p n : Z) (l : slab_list) : slab_list :=
  add_total n (set_slabs (p :: slabs l) l).
(** [rlist_del_entry] of a slab that is not in the list is undefined. *)
Definition slab_list_del (p n : Z) (l : slab_list) : option slab_list :=
  s ← list_remove p (slabs l);
  Some (add_total (- n) (set_slabs s l)).

Definition slab_sizeof : Z := small_align 48 8.
Definition slab_data (p : Z) : Z := p + slab_sizeof.
Definition slab_from_data (data : Z) : Z := data - slab_sizeof.
Definition slab_capacity (s : slab) : Z := u64 (size s - slab_sizeof).
Definition slab_cache_used (c : slab_cache) : Z := used (stats (allocated c)).

Definition slab_from_ptr (c : slab_cache) (ptr slab_mask : Z) : option Z :=
  let slab := Z.land ptr slab_mask in
  s ← mem c !! slab;
  ASSERT magic s =? slab_magic;
  Some slab.

Definition slab_order_size (c : slab_cache) (o : Z) : option Z :=
  ASSERT o <=? order_max c;
  Some (Z.shiftl 1 (o + order0_size_lb c)).

Definition slab_order (c : slab_cache) (size : Z) : Z :=
  if size <=? order0_size c then 0
  else if size >? arena_slab_size (arena c) then u8 (order_max c + 1)
  else u8 (CHAR_BIT * sizeof_unsigned - builtin_clz (u32 (u32 size - 1)) - order0_size_lb c).

Definition slab_real_size (c : slab_cache) (size : Z) : option Z :=
  let size := u64 (size + slab_sizeof) in
  let o := slab_order c size in
  if o =? order_max c + 1 then Some size else slab_order_size c o.

Definition slab_assert (c : slab_cache) (p : Z) : option unit :=
  s ← mem c !! p;
  ASSERT magic s =? slab_magic;
  ASSERT order s <=? order_max c + 1;
  if order s <=? order_max c then
    n ← slab_order_size c (order s);
    ASSERT size s =? n;
    ASSERT p =? Z.land p (Z.lnot (n - 1));
    Some tt
  else Some tt.

Definition slab_set_free (c : slab_cache) (p : Z) : option slab_cache :=
  s ← mem c !! p;
  ASSERT in_use s =? order s + 1;
  let c := set_allocated c (add_used (- size s) (allocated c)) in
  c ← update_order c (order s) (fun l => Some (add_used (- size s) l));
  Some (write c p (Slab (size s) (magic s) (order s) 0)).

Definition slab_set_used (c : slab_cache) (p : Z) : option slab_cache :=
  s ← mem c !! p;
  let c := set_allocated c (add_used (size s) (allocated c)) in
  c ← update_order c (order s) (fun l => Some (add_used (size s) l));
  Some (write c p (Slab (size s) (magic s) (order s) (u8 (1 + order s)))).

Definition slab_is_free (s : slab) : bool := in_use s =? 0.

(** The data of a slab is overwritten: what headers were there are gone. *)
Definition slab_poison (c : slab_cache) (p : Z) : option slab_cache :=
  s ← mem c !! p;
  Some (set_mem c (filter (fun '(q, _) => ~ (slab_data p <= q < slab_data p + slab_capacity s)) (mem c))).

Definition slab_create (c : slab_cache) (p o n : Z) : slab_cache :=
  write c p (Slab n slab_magic (u8 o) 0).

Definition slab_buddy (c : slab_cache) (p : Z) : option Z :=
  s ← mem c !! p;
  ASSERT order s <=? order_max c;
  if order s =? order_max c then Some NULL
  else n ← slab_order_size c (order s); Some (Z.lxor p n).

Definition slab_split (c : slab_cache) (p : Z) : option slab_cache :=
  s ← mem c !! p;
  ASSERT order s >? 0;
  let new_order := u8 (order s - 1) in
  new_size ← slab_order_size c new_order;
  let c := slab_create c p new_order new_size in
  buddy ← slab_buddy c p;
  let c := slab_create c buddy new_order new_size in
  b ← mem c !! buddy;
  update_order c (order b) (fun l => Some (slab_list_add buddy (size b) l)).

Definition slab_merge (c : slab_cache) (p buddy : Z) : option (Z * slab_cache) :=
  b' ← slab_buddy c p;
  ASSERT b' =? buddy;
  let merged := if p >? buddy then buddy else p in
  b ← mem c !! buddy;
  c ← update_order c (order b) (slab_list_del buddy (size b));
  s ← mem c !! merged;
  let o := u8 (order s + 1) in
  n ← slab_order_size c o;
  Some (merged, write c merged (Slab n (magic s) o (in_use s))).

Definition slab_cache_create (arena : src) : option slab_cache :=
  let min_order0_size := small_getpagesize 4096 in
  ASSERT arena_slab_size arena >=? min_order0_size;
  let order_max := u8 (small_lb (arena_slab_size arena / min_order0_size)) in
  let order_max := if order_max >? ORDER_MAX - 1 then ORDER_MAX - 1 else order_max in
  let order0_size := u32 (Z.shiftr (arena_slab_size arena) order_max) in
  let order0_size_lb := u8 (small_lb order0_size) in
  Some (SlabCache arena order0_size order0_size_lb order_max slab_list_create
          (replicate (Z.to_nat (order_max + 1)) slab_list_create) ∅).

(** The search of [slab_get_with_order] from the list of order [o] up: the order
    of a list that has a slab, or None if the arena has no slab left. *)
Fixpoint find_list (fuel : nat) (c : slab_cache) (o : Z) : option (option Z * slab_cache) :=
  match fuel with
  | O => None
  | S fuel =>
      l ← order_list c o;
      if negb (bool_decide (slabs l = [])) then Some (Some o, c)
      else if o =? order_max c then
        '(p, a) ← arena_slab_map (arena c);
        let c := set_arena c a in
        if p =? NULL then Some (None, c)
        else
          let n := arena_slab_size (arena c) in
          let c := slab_create c p (order_max c) n in
          c ← slab_poison c p;
          s ← mem c !! p;
          let c := set_allocated c (slab_list_add p (size s) (allocated c)) in
          c ← update_order c o (fun l => Some (slab_list_add p (size s) l));
          Some (Some o, c)
      else find_list fuel c (o + 1)
  end.

(** The loop that splits a slab until it has order [o]. *)
Fixpoint split_loop (fuel : nat) (c : slab_cache) (p o : Z) : option slab_cache :=
  match fuel with
  | O => None
  | S fuel =>
      c ← slab_split c p;
      s ← mem c !! p;
      if order s =? o then Some c else split_loop fuel c p o
  end.

Definition slab_get_with_order (c : slab_cache) (o : Z) : option (Z * slab_cache) :=
  ASSERT o <=? order_max c;
  '(r, c) ← find_list (Z.to_nat (order_max c + 1)) c o;
  match r with
  | None => Some (NULL, c)
  | Some i =>
      l ← order_list c i;
      match slabs l with
      | [] => None
      | p :: rest =>
          c ← update_order c i (fun l => Some (set_slabs rest l));
          s ← mem c !! p;
          c ← (if negb (order s =? o) then
                 c ← update_order c i (fun l => Some (add_total (- size s) l));
                 c ← split_loop (Z.to_nat (order_max c)) c p o;
                 s ← mem c !! p;
                 update_order c (order s) (fun l => Some (add_total (size s) l))
               else Some c);
          c ← slab_set_used c p;
          _ ← slab_assert c p;
          Some (p, c)
      end
  end.

Definition slab_get_large (c : slab_cache) (size : Z) : option (Z * slab_cache) :=
  let size := u64 (size + slab_sizeof) in
  '(r, a) ← arena_quota_use (arena c) size;
  let c := set_arena c a in
  if r <? 0 then Some (NULL, c)
  else
    let '(p, a) := heap_malloc (arena c) size in
    let c := set_arena c a in
    if p =? NULL then
      '(_, a) ← arena_quota_release (arena c) size;
      Some (NULL, set_arena c a)
    else
      let c := slab_create c p (order_max c + 1) size in
      let c := set_allocated c (slab_list_add p size (allocated c)) in
      let c := set_allocated c (add_used size (allocated c)) in
      Some (p, c).

(** The header of freed memory is gone. *)
Definition slab_put_large (c : slab_cache) (p : Z) : option slab_cache :=
  _ ← slab_assert c p;
  s ← mem c !! p;
  ASSERT order s =? order_max c + 1;
  l ← slab_list_del p (size s) (allocated c);
  let c := set_allocated c l in
  let c := set_allocated c (add_used (- size s) (allocated c)) in
  '(_, a) ← arena_quota_release (arena c) (size s);
  let c := set_arena c a in
  c ← slab_poison c p;
  a ← heap_free (arena c) p;
  Some (set_mem (set_arena c a) (delete p (mem c))).

Definition slab_get (c : slab_cache) (sz : Z) : option (Z * slab_cache) :=
  let o := slab_order c (u64 (sz + slab_sizeof)) in
  '(p, c) ← (if o =? order_max c + 1 then slab_get_large c sz else slab_get_with_order c o);
  if p =? NULL then Some (p, c)
  else
    s ← mem c !! p;
    n ← slab_real_size c sz;
    ASSERT size s =? n;
    Some (p, c).

(** The condition of [slab_put_with_order]: the buddy is whole and free. *)
Definition can_merge (c : slab_cache) (p buddy : Z) : option bool :=
  if buddy =? NULL then Some false
  else
    s ← mem c !! p;
    b ← mem c !! buddy;
    Some ((order b =? order s) && slab_is_free b).

Fixpoint merge_loop (fuel : nat) (c : slab_cache) (p buddy : Z) : option (Z * slab_cache) :=
  match fuel with
  | O => None
  | S fuel =>
      '(p, c) ← slab_merge c p buddy;
      buddy ← slab_buddy c p;
      again ← can_merge c p buddy;
      if (again : bool) then merge_loop fuel c p buddy else Some (p, c)
  end.

(** The header of a slab that goes back to the arena is gone. *)
Definition slab_put_with_order (c : slab_cache) (p : Z) : option slab_cache :=
  _ ← slab_assert c p;
  s ← mem c !! p;
  ASSERT order s <=? order_max c;
  c ← slab_set_free c p;
  buddy ← slab_buddy c p;
  merge ← can_merge c p buddy;
  '(p, c) ← (if (merge : bool) then
               c ← update_order c (order s) (fun l => Some (add_total (- size s) l));
               '(p, c) ← merge_loop (Z.to_nat (order_max c)) c p buddy;
               s ← mem c !! p;
               c ← update_order c (order s) (fun l => Some (add_total (size s) l));
               Some (p, c)
             else Some (p, c));
  c ← slab_poison c p;
  s ← mem c !! p;
  l ← order_list c (order s);
  if (order s =? order_max c) && negb (bool_decide (slabs l = [])) then
    ASSERT size s =? arena_slab_size (arena c);
    l ← slab_list_del p (size s) (allocated c);
    let c := set_allocated c l in
    c ← update_order c (order s) (fun l => Some (add_total (- size s) l));
    a ← arena_slab_unmap (arena c) p;
    Some (set_mem (set_arena c a) (delete p (mem c)))
  else update_order c (order s) (fun l => Some (set_slabs (p :: slabs l) l)).

Definition slab_put (c : slab_cache) (p : Z) : option slab_cache :=
  s ← mem c !! p;
  if order s <=? order_max c then slab_put_with_order c p else slab_put_large c p.

(** The loop of [slab_cache_destroy] over the allocated slabs. *)
Fixpoint destroy_slabs (c : slab_cache) (l : list Z) : option slab_cache :=
  match l with
  | [] => Some c
  | p :: l =>
      s ← mem c !! p;
      c ← (if order s =? order_max c + 1 then
             '(_, a) ← arena_quota_release (arena c) (size s);
             a ← heap_free a p;
             Some (set_mem (set_arena c a) (delete p (mem c)))
           else
             a ← arena_slab_unmap (arena c) p;
             Some (set_mem (set_arena c a) (delete p (mem c))));
      destroy_slabs c l
  end.

Definition slab_cache_destroy (c : slab_cache) : option src :=
  c ← destroy_slabs c (slabs (allocated c));
  Some (arena c).

(** The two loops of [slab_cache_check]; false for a failed check. *)
Fixpoint check_allocated (c : slab_cache) (l : list Z) (huge use tot : Z) (ok : bool) :
    option (Z * Z * Z * bool) :=
  match l with
  | [] => Some (huge, use, tot, ok)
  | p :: l =>
      s ← mem c !! p;
      let ok := ok && (magic s =? slab_magic) in
      if order s =? order_max c + 1 then
        check_allocated c l (u64 (huge + size s)) (u64 (use + size s)) (u64 (tot + size s)) ok
      else
        n ← slab_order_size c (order s);
        m ← slab_order_size c (order_max c);
        check_allocated c l huge use (u64 (tot + m)) (ok && (size s =? n))
  end.

Fixpoint check_orders (c : slab_cache) (i : Z) (l : list slab_list) (ordered use : Z) (ok : bool) :
    option (Z * Z * bool) :=
  match l with
  | [] => Some (ordered, use, ok)
  | x :: l =>
      n ← slab_order_size c i;
      let o := u8 n in
      m ← slab_order_size c o;
      check_orders c (i + 1) l (u64 (ordered + total (stats x))) (u64 (use + used (stats x)))
        (ok && (total (stats x) mod m =? 0) && (used (stats x) mod m =? 0))
  end.

Definition slab_cache_check (c : slab_cache) : option bool :=
  '(huge, use, tot, ok) ← check_allocated c (slabs (allocated c)) 0 0 0 true;
  let ok := ok && (tot =? total (stats (allocated c))) in
  '(ordered, use, ok) ← check_orders c 0 (orders c) 0 use ok;
  Some (ok && (u64 (ordered + huge) =? tot) && (use =? used (stats (allocated c)))).

(** A client: it asks for slabs and puts back those it holds, in any order. *)
Inductive cache_call := CGet (size : Z) | CPut (i : nat).

Fixpoint run_calls (c : slab_cache) (held : list Z) (l : list cache_call) : option (slab_cache * list Z) :=
  match l with
  | [] => Some (c, held)
  | CGet size :: l =>
      '(p, c) ← slab_get c size;
      run_calls c (if p =? NULL then held else p :: held) l
  | CPut i :: l =>
      match held !! i with
      | Some p => c ← slab_put c p; run_calls c (delete i held) l
      | None => run_calls c held l
      end
  end.

(** Requests that a slab of the arena holds, or the limit on large ones allows. *)
Definition cache_call_ok (k lim : Z) (x : cache_call) : Prop :=
  match x with CGet size => 0 <= size /\ (size + 48 <= 2 ^ k \/ size + 48 <= lim) | CPut _ => True end.
End Cache.

(** ** Tilings

    The slabs of order up to [mx] partition the slabs of the arena. *)
Section Tiling.
Context (lb mx : Z) (Hlb : 12 <= lb) (Hmx : 0 <= mx <= 15) (Hk : lb + mx <= 31).

Local Abbreviation k := (lb + mx).
(** The size of order [o]. *)
Definition osize (o : Z) : Z := 2 ^ (lb + o).

Lemma osize_pos o : 0 <= o -> 4096 <= osize o.
Proof. intros. change 4096 with (2 ^ 12). apply pow2_mono. lia. Qed.

Lemma osize_succ o : 0 <= o -> osize (o + 1) = 2 * osize o.
Proof. intros. unfold osize. rewrite Z.add_assoc, Z.pow_add_r by lia. lia. Qed.

Lemma osize_max o : 0 <= o <= mx -> osize o <= 2 ^ k /\ 2 ^ k <= 2 ^ 31.
Proof. intros. split; apply pow2_mono; lia. Qed.

(** [p] is a header of a slab of order [o]. *)
Definition tile (M : gmap Z slab) (p o : Z) : Prop :=
  exists s, M !! p = Some s /\ order s = o /\ o <= mx.

Record tiling (A : list Z) (B : list (Z * Z)) (M : gmap Z slab) : Prop := {
  t_ord p s : M !! p = Some s -> order s <= mx ->
    0 <= order s /\ magic s = slab_magic /\ size s = osize (order s) /\
    p mod osize (order s) = 0 /\ exists b, b ∈ A /\ b <= p /\ p + osize (order s) <= b + 2 ^ k;
  t_disj p q o o' x : tile M p o -> tile M q o' ->
    p <= x < p + osize o -> q <= x < q + osize o' -> p = q;
  t_cover b x : b ∈ A -> b <= x < b + 2 ^ k ->
    exists p o, tile M p o /\ p <= x < p + osize o;
  t_large p s : M !! p = Some s -> mx < order s ->
    order s = mx + 1 /\ magic s = slab_magic /\ (p, size s) ∈ B;
  t_block p n : (p, n) ∈ B -> 
    exists s, M !! p = Some s /\ order s = mx + 1 /\ size s = n /\ slab_sizeof <= n;
}.

(** What the source promises about the memory it handed out. *)
Record apart (A : list Z) (B : list (Z * Z)) : Prop := {
  a_nodup : NoDup A;
  a_slab p : p ∈ A -> 0 < p /\ p mod 2 ^ k = 0;
  a_block p n : (p, n) ∈ B -> 0 < p /\ 0 < n;
  a_blocks p n q m x : (p, n) ∈ B -> (q, m) ∈ B -> p <= x < p + n -> q <= x < q + m -> p = q;
  a_mixed p n q x : (p, n) ∈ B -> q ∈ A -> p <= x < p + n -> ~ q <= x < q + 2 ^ k;
}.

Section Ops.
Context (A : list Z) (B : list (Z * Z)) (M : gmap Z slab) (Ht : tiling A B M) (Ha : apart A B).

Lemma tile_facts p o : tile M p o ->
  0 <= o <= mx /\ 0 < p /\ p mod osize o = 0 /\
  exists b, b ∈ A /\ b <= p /\ p + osize o <= b + 2 ^ k.
Proof.
  intros (s & Hp & <- & Ho). destruct (t_ord _ _ _ Ht p s Hp Ho) as (H1 & _ & _ & H2 & b & Hb & H3).
  destruct (a_slab _ _ Ha b Hb). split_and!; try done; [lia|]. by exists b.
Qed.

(** Two headers of one slab are one header. *)
Lemma tile_inside p o q o' : tile M p o -> tile M q o' -> p <= q < p + osize o -> q = p.
Proof.
  intros Hp Hq Hx. pose proof (tile_facts q o' Hq) as (Ho' & _).
  pose proof (osize_pos o' ltac:(lia)). symmetry. apply (t_disj _ _ _ Ht p q o o' q); [done..|lia].
Qed.

Lemma tile_order p o o' : tile M p o -> tile M p o' -> o = o'.
Proof. intros (s & H1 & <- & _) (s' & H2 & <- & _). congruence. Qed.

(** The larger block of a slab and its buddy lies in the slab of the arena. *)
Lemma buddy_block p o : tile M p o -> o < mx ->
  let n := osize o in let lo := Z.min p (Z.lxor p n) in
  lo mod osize (o + 1) = 0 /\ Z.max p (Z.lxor p n) = lo + n /\
  exists b, b ∈ A /\ b <= lo /\ lo + osize (o + 1) <= b + 2 ^ k.
Proof.
  intros Hp Hlt n lo. destruct (tile_facts p o Hp) as (Ho & _ & Hal & b & Hb & Hin).
  destruct (a_slab _ _ Ha b Hb) as [_ Hbk]. pose proof (osize_pos o ltac:(lia)) as Hn.
  pose proof (osize_succ o ltac:(lia)) as Hs.
  assert (Hlo : lo mod osize (o + 1) = 0 /\ Z.max p (Z.lxor p n) = lo + n /\ lo <= p < lo + osize (o + 1)).
  { unfold osize in Hal. destruct (lxor_buddy p (lb + o) ltac:(lia) Hal) as [[H1 H2]|[H1 H2]];
      subst lo n; unfold osize in *; rewrite H2, Z.add_assoc in *;
      [rewrite Z.min_l, Z.max_r|rewrite Z.min_r, Z.max_l]; try lia; split_and!; (done || lia). }
  destruct Hlo as (H1 & H2 & H3). split_and!; [done|done|]. exists b. split; [done|].
  apply (aligned_nested lo b (lb + (o + 1)) (lb + mx) p); [lia|done|done|done|].
  lia.
Qed.

(** The buddy of a slab has a header, and it is not of a larger order. *)
Lemma buddy_present p o : tile M p o -> o < mx ->
  exists o', tile M (Z.lxor p (osize o)) o' /\ o' <= o.
Proof.
  intros Hp Hlt. destruct (buddy_block p o Hp Hlt) as (H1 & H2 & b & Hb & H3).
  destruct (tile_facts p o Hp) as (Ho & _ & Hal & _). set (q := Z.lxor p (osize o)) in *.
  pose proof (osize_pos o ltac:(lia)) as Hn. pose proof (osize_succ o ltac:(lia)) as Hs.
  destruct (t_cover _ _ _ Ht b q Hb) as (r & o' & Hr & Hx); [lia|].
  destruct (tile_facts r o' Hr) as (Ho' & _ & Har & _). exists o'.
  assert (Hq : q mod osize o = 0).
  { destruct (mod_add_self p (osize o) ltac:(lia) Hal) as [E1 E2].
    destruct (lxor_buddy p (lb + o) ltac:(lia) Hal) as [[_ E]|[_ E]]; fold (osize o) in E;
      subst q; by rewrite E. }
  destruct (Z.le_gt_cases o' o) as [Hle|Hgt].
  - split; [|done]. replace q with r; [done|].
    destruct (aligned_nested r q (lb + o') (lb + o) q) as [E _]; [lia|done|done|done| |lia].
    fold (osize o). lia.
  - exfalso. assert (Hpr : p = r).
    { apply (t_disj _ _ _ Ht p r o o' p); [done|done|lia|].
      destruct (aligned_nested (Z.min p q) r (lb + (o + 1)) (lb + o') q) as [E1 E2]; [lia|done|done| |done|].
      - fold (osize (o + 1)). lia.
      - fold (osize (o + 1)) in E2. fold (osize o') in E2. lia. }
    subst r. pose proof (tile_order p o o' Hp Hr). lia.
Qed.

Lemma tile_insert p s q o : tile (<[p := s]> M) q o <->
  (q = p /\ order s = o /\ o <= mx) \/ (q <> p /\ tile M q o).
Proof.
  unfold tile. destruct (decide (q = p)) as [->|Hne].
  - rewrite lookup_insert_eq. split; [intros (t & [= <-] & H)|intros [(_ & H)|[? _]]]; [by left|by exists s|done].
  - rewrite lookup_insert_ne by done. split; [by right|]. by intros [[? _]|[_ H]].
Qed.

Lemma tile_delete p q o : tile (delete p M) q o <-> q <> p /\ tile M q o.
Proof.
  unfold tile. destruct (decide (q = p)) as [->|Hne].
  - rewrite lookup_delete_eq. split; [by intros (? & ? & _)|by intros [? _]].
  - rewrite lookup_delete_ne by done. split; [done|]. by intros [_ H].
Qed.

(** Addresses of the slabs of the arena are not blocks of the heap. *)
Lemma not_block b x n : b ∈ A -> b <= x < b + 2 ^ k -> (x, n) ∉ B.
Proof.
  intros Hb Hx Hn. destruct (a_block _ _ Ha x n Hn). by apply (a_mixed _ _ Ha x n b x); [| |lia|].
Qed.

Lemma tiling_use p s u : M !! p = Some s ->
  tiling A B (<[p := Slab (size s) (magic s) (order s) u]> M).
Proof.
  intros Hp. set (s' := Slab _ _ _ _).
  assert (HT : forall q o, tile (<[p := s']> M) q o <-> tile M q o).
  { intros q o. rewrite tile_insert. destruct (decide (q = p)) as [->|Hne]; [|tauto].
    unfold tile. rewrite Hp. split; [intros [(_ & H)|[? _]]; [by exists s|done]|].
    intros (t & [= <-] & H). by left. }
  assert (HL : forall q t, <[p := s']> M !! q = Some t ->
    exists t0, M !! q = Some t0 /\ size t = size t0 /\ magic t = magic t0 /\ order t = order t0).
  { intros q t [[<- <-]|[_ Hq]]%lookup_insert_Some; [by exists s|by exists t]. }
  split.
  - intros q t (t0 & Hq & -> & -> & ->)%HL. by apply (t_ord _ _ _ Ht).
  - intros p0 q o o' x. rewrite !HT. apply (t_disj _ _ _ Ht).
  - intros b x Hb Hx. destruct (t_cover _ _ _ Ht b x Hb Hx) as (q & o & Hq & Hx').
    exists q, o. by rewrite HT.
  - intros q t (t0 & Hq & -> & -> & ->)%HL. by apply (t_large _ _ _ Ht).
  - intros q n Hn. destruct (t_block _ _ _ Ht q n Hn) as (t & Hq & H1 & H2).
    destruct (decide (q = p)) as [->|Hne]; [|exists t; by rewrite lookup_insert_ne by done].
    rewrite Hp in Hq. simplify_eq. exists s'. by rewrite lookup_insert_eq.
Qed.

Lemma tiling_split p o u u' : tile M p o -> 0 < o ->
  let n := osize (o - 1) in
  tiling A B (<[p + n := Slab n slab_magic (o - 1) u']> (<[p := Slab n slab_magic (o - 1) u]> M)).
Proof.
  intros Hp Ho n. destruct (tile_facts p o Hp) as (Hom & Hp0 & Hal & b & Hb & Hin).
  pose proof (osize_succ (o - 1) ltac:(lia)) as Hs. rewrite Z.sub_add in Hs. fold n in Hs.
  pose proof (osize_pos (o - 1) ltac:(lia)) as Hn. fold n in Hn.
  destruct (a_slab _ _ Ha b Hb) as [_ Hbk].
  set (M1 := <[p := _]> M). set (M2 := <[p + n := _]> M1).
  assert (HT : forall q o', tile M2 q o' <->
    ((q = p \/ q = p + n) /\ o' = o - 1) \/ (q <> p /\ q <> p + n /\ tile M q o')).
  { intros q o'. unfold M2, M1, tile.
    destruct (decide (q = p + n)) as [->|H1]; [|destruct (decide (q = p)) as [->|H2]].
    - rewrite lookup_insert_eq. split; [intros (t & [= <-] & <- & _); left; auto|].
      intros [[_ ->]|(_ & ? & _)]; [|done]. eexists. split_and!; [done|done|lia].
    - rewrite lookup_insert_ne, lookup_insert_eq by done.
      split; [intros (t & [= <-] & <- & _); left; auto|].
      intros [[_ ->]|(? & _ & _)]; [|done]. eexists. split_and!; [done|done|lia].
    - rewrite !lookup_insert_ne by done. split; [intros H; right; done|].
      intros [[[?|?] _]|(_ & _ & H)]; done. }
  assert (Hpn : (p + n) mod n = 0 /\ p mod n = 0).
  { assert (p mod n = 0) by (apply (mod_pow_le p (lb + (o - 1)) (lb + o)); [lia|done]).
    split; [|done]. by apply mod_add_self; [lia|]. }
  assert (Hold : forall q o' x, tile M q o' -> q <> p -> p <= x < p + osize o -> ~ q <= x < q + osize o').
  { intros q o' x Hq Hne Hx Hx'. by apply Hne, (t_disj _ _ _ Ht q p o' o x). }
  split.
  - intros q t Hq Hot. unfold M2, M1 in Hq.
    apply lookup_insert_Some in Hq as [[<- <-]|[H1 [[<- <-]|[H2 Hq]]%lookup_insert_Some]];
      cbn [order magic size] in *; [..|by apply (t_ord _ _ _ Ht)]; fold n;
      (split_and!; [lia|done|done|apply Hpn|exists b; split; [done|lia]]).
  - intros q r o1 o2 x [[Hq ->]|(Hq & Hq' & Hqt)]%HT [[Hr ->]|(Hr & Hr' & Hrt)]%HT Hx Hx'; fold n in Hx, Hx'.
    + destruct Hq as [-> | ->], Hr as [-> | ->]; (done || lia).
    + exfalso. by apply (Hold r o2 x Hrt Hr); [destruct Hq; lia|].
    + exfalso. by apply (Hold q o1 x Hqt Hq); [destruct Hr; lia|].
    + by apply (t_disj _ _ _ Ht q r o1 o2 x).
  - intros b' x Hb' Hx. destruct (t_cover _ _ _ Ht b' x Hb' Hx) as (q & o' & Hq & Hx').
    destruct (decide (q = p)) as [->|Hne].
    + rewrite <- (tile_order p o o' Hp Hq) in Hx'. destruct (Z.lt_ge_cases x (p + n)).
      * exists p, (o - 1). fold n. rewrite HT. split; [by left; split; [left|]|lia].
      * exists (p + n), (o - 1). fold n. rewrite HT. split; [by left; split; [right|]|lia].
    + exists q, o'. rewrite HT. split; [|done]. right. split_and!; [done| |done].
      intros ->. pose proof (osize_pos o' ltac:(destruct (tile_facts _ _ Hq); lia)).
      by apply (Hold (p + n) o' (p + n)); [| |lia|lia].
  - intros q t Hq Hot. unfold M2, M1 in Hq.
    apply lookup_insert_Some in Hq as [[<- <-]|[H1 [[<- <-]|[H2 Hq]]%lookup_insert_Some]];
      cbn [order magic size] in *; [lia..|]. by apply (t_large _ _ _ Ht).
  - intros q m Hm. assert (q <> p /\ q <> p + n) as [H1 H2].
    { split; intros ->; eapply (not_block b); try done; lia. }
    unfold M2, M1. rewrite !lookup_insert_ne by done. by apply (t_block _ _ _ Ht).
Qed.

Lemma tiling_merge p o u : tile M p o -> o < mx -> tile M (Z.lxor p (osize o)) o ->
  let lo := Z.min p (Z.lxor p (osize o)) in
  tiling A B (<[lo := Slab (osize (o + 1)) slab_magic (o + 1) u]> (delete (lo + osize o) M)).
Proof.
  intros Hp Ho Hq lo. destruct (buddy_block p o Hp Ho) as (Hal & Hmax & b & Hb & Hin). fold lo in Hal, Hin, Hmax.
  destruct (tile_facts p o Hp) as (Hom & Hp0 & _). set (n := osize o) in *. set (hi := lo + n) in *.
  pose proof (osize_succ o ltac:(lia)) as Hs. fold n in Hs.
  pose proof (osize_pos o ltac:(lia)) as Hn. fold n in Hn.
  assert (Hlo : tile M lo o) by (unfold lo; destruct (Z.min_spec p (Z.lxor p n)) as [[_ ->]|[_ ->]]; done).
  assert (Hhi : tile M hi o) by (rewrite <- Hmax; destruct (Z.max_spec p (Z.lxor p n)) as [[_ ->]|[_ ->]]; done).
  set (M2 := <[lo := _]> (delete hi M)).
  assert (HT : forall q o', tile M2 q o' <->
    (q = lo /\ o' = o + 1) \/ (q <> lo /\ q <> hi /\ tile M q o')).
  { intros r o'. unfold M2, tile.
    destruct (decide (r = lo)) as [->|H1]; [|destruct (decide (r = hi)) as [->|H2]].
    - rewrite lookup_insert_eq. split; [intros (t & [= <-] & <- & _); by left|].
      intros [[_ ->]|(? & _)]; [|done]. eexists. split_and!; [done|done|lia].
    - rewrite lookup_insert_ne, lookup_delete_eq by done. split; [by intros (? & ? & _)|].
      intros [[? _]|(_ & ? & _)]; done.
    - rewrite lookup_insert_ne, lookup_delete_ne by done. split; [by right|].
      intros [[? _]|(_ & _ & ?)]; done. }
  assert (Hold : forall q o' x, tile M q o' -> q <> lo -> q <> hi ->
    lo <= x < lo + osize (o + 1) -> ~ q <= x < q + osize o').
  { intros r o' x Hr H1 H2 Hx Hx'. destruct (Z.lt_ge_cases x hi).
    - by apply H1, (t_disj _ _ _ Ht r lo o' o x); [done|done|done|unfold hi in *; fold n; lia].
    - by apply H2, (t_disj _ _ _ Ht r hi o' o x); [done|done|done|unfold hi in *; fold n; lia]. }
  split.
  - intros r t Hr Hot. unfold M2 in Hr.
    apply lookup_insert_Some in Hr as [[<- <-]|[H1 [H2 Hr]%lookup_delete_Some]];
      cbn [order magic size] in *; [|by apply (t_ord _ _ _ Ht)].
    split_and!; [lia|done|done|done|by exists b].
  - intros r1 r2 o1 o2 x [[-> ->]|(Hr1 & Hr1' & Hrt1)]%HT [[-> ->]|(Hr2 & Hr2' & Hrt2)]%HT Hx Hx'.
    + done.
    + by destruct (Hold r2 o2 x).
    + by destruct (Hold r1 o1 x).
    + by apply (t_disj _ _ _ Ht r1 r2 o1 o2 x).
  - intros b' x Hb' Hx. destruct (t_cover _ _ _ Ht b' x Hb' Hx) as (r & o' & Hr & Hx').
    destruct (decide (r = lo \/ r = hi)) as [Hr'|Hne].
    + exists lo, (o + 1). rewrite HT. split; [by left|].
      assert (o' = o) as ->.
      { destruct Hr' as [-> | ->]; [by apply (tile_order lo)|by apply (tile_order hi)]. }
      unfold hi in *. fold n in Hx'. destruct Hr'; lia.
    + exists r, o'. rewrite HT. split; [|done]. right. tauto.
  - intros r t Hr Hot. unfold M2 in Hr.
    apply lookup_insert_Some in Hr as [[<- <-]|[H1 [H2 Hr]%lookup_delete_Some]];
      cbn [order magic size] in *; [lia|]. by apply (t_large _ _ _ Ht).
  - intros r m Hm. assert (r <> lo /\ r <> hi) as [H1 H2].
    { split; intros ->; eapply (not_block b); try done; unfold hi; lia. }
    unfold M2. rewrite lookup_insert_ne, lookup_delete_ne by done. by apply (t_block _ _ _ Ht).
Qed.

Lemma tiling_delete p A1 A2 : tile M p mx -> A = A1 ++ p :: A2 ->
  tiling (A1 ++ A2) B (delete p M).
Proof.
  intros Hp HA. pose proof (a_nodup _ _ Ha) as Hnd. rewrite HA in Hnd.
  assert (HAe : forall b, b ∈ A1 ++ A2 <-> b ∈ A /\ b <> p).
  { intros b. rewrite HA. apply NoDup_app in Hnd as (N1 & N2 & N3). apply NoDup_cons in N3 as [N3 N4].
    rewrite !elem_of_app, elem_of_cons. split; [|tauto]. intros [H|H]; (split; [tauto|]); intros ->.
    - apply (N2 p H). left.
    - done. }
  assert (HpA : p ∈ A) by (rewrite HA; apply elem_of_app; right; left).
  split.
  - intros q s [Hne Hq]%lookup_delete_Some Ho.
    destruct (t_ord _ _ _ Ht q s Hq Ho) as (H1 & H2 & H3 & H4 & b & Hb & H5).
    split_and!; try done. exists b. split; [|done]. apply HAe. split; [done|]. intros ->.
    apply Hne. pose proof (osize_pos (order s) ltac:(lia)).
    apply (t_disj _ _ _ Ht p q mx (order s) q); [done|by exists s|unfold osize in *; lia|lia].
  - intros q r o o' x [_ Hq]%tile_delete [_ Hr]%tile_delete. by apply (t_disj _ _ _ Ht).
  - intros b x [Hb Hne]%HAe Hx. destruct (t_cover _ _ _ Ht b x Hb Hx) as (q & o & Hq & Hx').
    exists q, o. split; [|done]. apply tile_delete. split; [|done]. intros ->.
    apply Hne. destruct (a_slab _ _ Ha b Hb) as [_ Hb']. destruct (a_slab _ _ Ha p HpA) as [_ Hp'].
    pose proof (tile_order p mx o Hp Hq). subst o. unfold osize in Hx'.
    destruct (aligned_nested b p k k x) as [? _]; [lia|done|done|lia|lia|].
    destruct (aligned_nested p b k k x) as [? _]; [lia|done|done|lia|lia|]. lia.
  - intros q s [Hne Hq]%lookup_delete_Some Ho. by apply (t_large _ _ _ Ht).
  - intros q n Hn. assert (q <> p).
    { intros ->. pose proof (pow2_pos k ltac:(lia)). apply (not_block p p n HpA); [lia|done]. }
    rewrite lookup_delete_ne by done. by apply (t_block _ _ _ Ht).
Qed.

Lemma tiling_drop_block p n B1 B2 : B = B1 ++ (p, n) :: B2 -> NoDup B.*1 ->
  tiling A (B1 ++ B2) (delete p M).
Proof.
  intros HB Hnd. rewrite HB, fmap_app in Hnd. cbn [fmap list_fmap] in Hnd.
  assert (HBe : forall q m, (q, m) ∈ B1 ++ B2 <-> (q, m) ∈ B /\ q <> p).
  { intros q m. rewrite HB. apply NoDup_app in Hnd as (N1 & N2 & N3). apply NoDup_cons in N3 as [N3 N4].
    rewrite !elem_of_app, elem_of_cons. simpl in N2, N3. split.
    - intros [H|H]; (split; [tauto|]); intros ->.
      + apply (N2 p); [apply list_elem_of_fmap; by exists (p, m)|left].
      + apply N3, list_elem_of_fmap. by exists (p, m).
    - intros [[H|[[= -> _]|H]] Hne]; [by left|done|by right]. }
  assert (HpB : (p, n) ∈ B) by (rewrite HB; apply elem_of_app; right; left).
  destruct (t_block _ _ _ Ht p n HpB) as (s & Hs & Hos & _).
  assert (HT : forall q o, tile (delete p M) q o <-> tile M q o).
  { intros q o. rewrite tile_delete. split; [tauto|]. intros Hq. split; [|done]. intros ->.
    destruct Hq as (t & Hq & <- & Ho). rewrite Hs in Hq. simplify_eq. lia. }
  split.
  - intros q t [_ Hq]%lookup_delete_Some. by apply (t_ord _ _ _ Ht).
  - intros q r o o' x. rewrite !HT. apply (t_disj _ _ _ Ht).
  - intros b x Hb Hx. destruct (t_cover _ _ _ Ht b x Hb Hx) as (q & o & Hq & Hx').
    exists q, o. by rewrite HT.
  - intros q t [Hne Hq]%lookup_delete_Some Ho. destruct (t_large _ _ _ Ht q t Hq Ho) as (H1 & H2 & H3).
    split_and!; try done. by apply HBe.
  - intros q m [Hq Hne]%HBe. rewrite lookup_delete_ne by done. by apply (t_block _ _ _ Ht).
Qed.
End Ops.

Lemma tiling_add b A B M u : tiling A B M -> apart (b :: A) B ->
  M !! b = None /\ tiling (b :: A) B (<[b := Slab (2 ^ k) slab_magic mx u]> M).
Proof.
  intros Ht Ha. assert (Ha' : apart A B).
  { destruct Ha as [H1 H2 H3 H4 H5]. split; try done.
    - by apply NoDup_cons in H1 as [_ ?].
    - intros p Hp. apply H2. by right.
    - intros p n q x Hp Hq. apply H5; [done|by right]. }
  destruct (a_slab _ _ Ha b ltac:(left)) as [Hb0 Hb]. pose proof (a_nodup _ _ Ha) as [HbA _]%NoDup_cons.
  pose proof (pow2_pos k ltac:(lia)) as H2k.
  assert (Hout : forall p o, tile M p o -> forall x, p <= x < p + osize o -> ~ b <= x < b + 2 ^ k).
  { intros p o Hp x Hx Hx'. destruct (tile_facts A B M Ht Ha' p o Hp) as (Ho & _ & _ & b' & Hb' & Hin).
    destruct (a_slab _ _ Ha' b' Hb') as [_ Hbk]. apply HbA.
    destruct (aligned_nested b b' k k x) as [? _]; [lia|done|done|lia|lia|].
    destruct (aligned_nested b' b k k x) as [? _]; [lia|done|done|lia|lia|].
    by replace b with b' by lia. }
  assert (Hnone : M !! b = None).
  { destruct (M !! b) as [s|] eqn:E; [exfalso|done]. destruct (Z.le_gt_cases (order s) mx) as [Hle|Hgt].
    - destruct (t_ord _ _ _ Ht b s E Hle) as (H1 & _). pose proof (osize_pos (order s) H1).
      apply (Hout b (order s)) with b; [by exists s|lia..].
    - destruct (t_large _ _ _ Ht b s E Hgt) as (_ & _ & HB). destruct (a_block _ _ Ha b _ HB).
      apply (a_mixed _ _ Ha b (size s) b b HB ltac:(left)); lia. }
  split; [done|]. assert (HT : forall q o, tile (<[b := Slab (2 ^ k) slab_magic mx u]> M) q o <->
    (q = b /\ o = mx) \/ tile M q o).
  { intros q o. rewrite tile_insert. cbn [order]. split.
    - intros [(-> & <- & _)|[_ H]]; [by left|by right].
    - intros [[-> ->]|H]; [by left|]. right. split; [|done]. intros ->.
      destruct H as (s & Hs & _). congruence. }
  split.
  - intros q s [[<- <-]|[Hne Hq]]%lookup_insert_Some Ho; cbn [order magic size].
    + split_and!; [lia|done|done|done|]. exists b. split; [left|]. unfold osize. lia.
    + destruct (t_ord _ _ _ Ht q s Hq Ho) as (H1 & H2 & H3 & H4 & b' & Hb' & H5). split_and!; try done.
      exists b'. split; [by right|done].
  - intros p q o o' x [[-> ->]|Hp]%HT [[-> ->]|Hq]%HT Hx Hx'.
    + done.
    + by destruct (Hout q o' Hq x Hx').
    + by destruct (Hout p o Hp x Hx).
    + by apply (t_disj _ _ _ Ht p q o o' x).
  - intros b' x [->|Hb']%elem_of_cons Hx.
    + exists b, mx. rewrite HT. split; [by left|done].
    + destruct (t_cover _ _ _ Ht b' x Hb' Hx) as (q & o & Hq & Hx'). exists q, o. rewrite HT. auto.
  - intros q s [[<- <-]|[Hne Hq]]%lookup_insert_Some Ho; cbn [order] in *; [lia|].
    by apply (t_large _ _ _ Ht).
  - intros q n Hn. rewrite lookup_insert_ne; [by apply (t_block _ _ _ Ht)|]. intros ->.
    destruct (t_block _ _ _ Ht _ _ Hn) as (s & ? & _). congruence.
Qed.

Lemma tiling_add_block p n A B M u : tiling A B M -> apart A ((p, n) :: B) -> p ∉ B.*1 -> slab_sizeof <= n ->
  M !! p = None /\ tiling A ((p, n) :: B) (<[p := Slab n slab_magic (mx + 1) u]> M).
Proof.
  intros Ht Ha HpB Hn48. assert (Ha' : apart A B).
  { destruct Ha as [H1 H2 H3 H4 H5]. split; try done.
    - intros q m Hq. apply (H3 q m). by right.
    - intros q m r l x Hq Hr. apply H4; by right.
    - intros q m r x Hq. apply H5. by right. }
  destruct (a_block _ _ Ha p n ltac:(left)) as [Hp Hn].
  assert (Hnone : M !! p = None).
  { destruct (M !! p) as [s|] eqn:E; [exfalso|done]. destruct (Z.le_gt_cases (order s) mx) as [Hle|Hgt].
    - destruct (t_ord _ _ _ Ht p s E Hle) as (H1 & _ & _ & _ & b & Hb & H5).
      pose proof (osize_pos (order s) H1).
      apply (a_mixed _ _ Ha p n b p ltac:(left) Hb); lia.
    - destruct (t_large _ _ _ Ht p s E Hgt) as (_ & _ & HB). apply HpB, list_elem_of_fmap. by eexists (p, _). }
  split; [done|].
  assert (HT : forall q o, tile (<[p := Slab n slab_magic (mx + 1) u]> M) q o <-> tile M q o).
  { intros q o. rewrite tile_insert. cbn [order]. split.
    - intros [(-> & <- & ?)|[_ H]]; [lia|done].
    - intros H. right. split; [|done]. intros ->. destruct H as (s & Hs & _). congruence. }
  split.
  - intros q s [[<- <-]|[Hne Hq]]%lookup_insert_Some Ho; cbn [order magic size] in *; [lia|].
    by apply (t_ord _ _ _ Ht).
  - intros q r o o' x. rewrite !HT. apply (t_disj _ _ _ Ht).
  - intros b x Hb Hx. destruct (t_cover _ _ _ Ht b x Hb Hx) as (q & o & Hq & Hx').
    exists q, o. by rewrite HT.
  - intros q s [[<- <-]|[Hne Hq]]%lookup_insert_Some Ho; cbn [order magic size] in *.
    + split_and!; [done|done|left].
    + destruct (t_large _ _ _ Ht q s Hq Ho) as (H1 & H2 & H3). split_and!; [done|done|by right].
  - intros q m [[= -> ->]|Hq]%elem_of_cons.
    + eexists. by rewrite lookup_insert_eq.
    + rewrite lookup_insert_ne; [by apply (t_block _ _ _ Ht)|]. intros ->.
      destruct (t_block _ _ _ Ht _ _ Hq) as (s & ? & _). congruence.
Qed.
End Tiling.

(** ** The invariant *)
Section Inv.
Context {src : Type} `{!SlabSource src}
  {inv : Z -> Z -> src -> list Z -> list (Z * Z) -> list Z -> Prop} `{!SlabSourceLaws inv}.
Context (lb mx lim : Z) (Hlb : 12 <= lb) (Hmx : 0 <= mx <= 15) (Hk : lb + mx <= 31).
Local Abbreviation slab_cache := (slab_cache (src:=src)).
Local Abbreviation k := (lb + mx).
Local Abbreviation osize := (osize lb).
Local Abbreviation tile := (tile mx).
Local Abbreviation tiling := (tiling lb mx).

Definition free_at (M : gmap Z slab) (o p : Z) : Prop :=
  exists s, M !! p = Some s /\ order s = o /\ in_use s = 0.
Definition used_at (M : gmap Z slab) (o p : Z) : Prop :=
  exists s, M !! p = Some s /\ order s = o /\ o <= mx /\ in_use s = o + 1.

(** The slabs handed out of order [i], and the bytes handed out. *)
Definition count (i : Z) (out : list (Z * Z)) : Z := zsum (fun po => if po.2 =? i then 1 else 0) out.
Definition bytes (out : list (Z * Z)) : Z := zsum (fun po => osize po.2) out.

(** [out] are the slabs handed out, with their orders. *)
Definition state (M : gmap Z slab) (out : list (Z * Z)) : Prop :=
  (forall p s, M !! p = Some s -> order s <= mx -> in_use s = 0 \/ in_use s = order s + 1) /\
  NoDup out /\ forall p o, (p, o) ∈ out <-> used_at M o p.

(** One list: it has the free slabs of its order but [cur], which is between two
    states; [cur] is accounted for in order [co]. *)
Definition list_ok (M : gmap Z slab) (out : list (Z * Z)) (cur co i : Z) (l : slab_list) : Prop :=
  NoDup (slabs l) /\ (forall p, p ∈ slabs l <-> p <> cur /\ free_at M i p) /\
  used (stats l) = u64 (osize i * count i out) /\
  total (stats l) = u64 (osize i * (count i out + Z.of_nat (length (slabs l)) +
                                    if i =? co then 1 else 0)).

(** The lists: [D] is the part of the [n] slabs of the arena that no list
    accounts for. *)
Definition lists_ok (L : list slab_list) (M : gmap Z slab) (out : list (Z * Z)) (cur co D n : Z) : Prop :=
  length L = Z.to_nat (mx + 1) /\
  (forall i l, 0 <= i <= mx -> L !! Z.to_nat i = Some l -> list_ok M out cur co i l) /\
  u64 (zsum (fun l => total (stats l)) L) = u64 (2 ^ k * n - D) /\
  u64 (zsum (fun l => used (stats l)) L) = u64 (bytes out).

Definition geometry (c : slab_cache) : Prop :=
  order_max c = mx /\ order0_size_lb c = lb /\ order0_size c = 2 ^ lb.

Definition allocated_ok (l : slab_list) (A : list Z) (B out : list (Z * Z)) : Prop :=
  slabs l ≡ₚ A ++ B.*1 /\
  used (stats l) = u64 (bytes out + zsum snd B) /\
  total (stats l) = u64 (2 ^ k * Z.of_nat (length A) + zsum snd B).

(** No two buddies are free, unless one is [cur], and at most one whole slab of
    the arena is kept. *)
Definition tidy (L : list slab_list) (M : gmap Z slab) (cur : Z) : Prop :=
  (forall p o, 0 <= o < mx -> free_at M o p -> free_at M o (Z.lxor p (osize o)) ->
     p = cur \/ Z.lxor p (osize o) = cur) /\
  (forall l, L !! Z.to_nat mx = Some l -> (length (slabs l) <= 1)%nat).

Definition mid (c : slab_cache) (M : gmap Z slab) (A : list Z) (B out : list (Z * Z)) (cur co D : Z) : Prop :=
  geometry c /\ inv k lim (arena c) A B B.*2 /\ tiling A B M /\ state M out /\
  lists_ok (orders c) M out cur co D (Z.of_nat (length A)) /\ allocated_ok (allocated c) A B out /\
  tidy (orders c) M cur.

(** [A] are the slabs of the arena in the cache, [B] the large slabs. *)
Definition cache_inv (c : slab_cache) (A : list Z) (B out : list (Z * Z)) : Prop :=
  mid c (mem c) A B out NULL (-1) 0.

Lemma inv_apart s A B Q : inv k lim s A B Q -> apart lb mx A B.
Proof.
  intros Hi. destruct (src_slabs _ _ _ _ _ _ Hi) as [H1 H2].
  destruct (src_blocks _ _ _ _ _ _ Hi) as (H3 & H4 & H5 & H6). split; try done.
  intros p n Hp. destruct (H4 p n Hp) as (? & ? & ?). done.
Qed.

Lemma count_cons i p o out : count i ((p, o) :: out) = (if o =? i then 1 else 0) + count i out.
Proof. done. Qed.
Lemma bytes_cons p o out : bytes ((p, o) :: out) = osize o + bytes out.
Proof. done. Qed.

(** One list changes, with what it refers to. *)
Lemma lists_update L M out cur co D n M' out' cur' co' D' i l l' :
  lists_ok L M out cur co D n -> 0 <= i <= mx -> L !! Z.to_nat i = Some l ->
  (forall j p, 0 <= j <= mx -> j <> i -> (p <> cur' /\ free_at M' j p) <-> (p <> cur /\ free_at M j p)) ->
  (forall j, 0 <= j <= mx -> j <> i -> count j out' = count j out /\ (j =? co') = (j =? co)) ->
  list_ok M' out' cur' co' i l' ->
  u64 (total (stats l')) = u64 (total (stats l) + (D - D')) ->
  u64 (used (stats l')) = u64 (used (stats l) + (bytes out' - bytes out)) ->
  lists_ok (<[Z.to_nat i := l']> L) M' out' cur' co' D' n.
Proof.
  intros (H1 & H2 & H3 & H4) Hi Hl Hfree Hcnt Hok Ht Hu. split_and!.
  - by rewrite length_insert.
  - intros j x Hj Hx. apply list_lookup_insert_Some in Hx as [(Hji & <- & _)|[Hne Hx]].
    + by assert (j = i) as -> by lia.
    + assert (Hji : j <> i) by congruence. destruct (H2 j x Hj Hx) as (N1 & N2 & N3 & N4).
      destruct (Hcnt j Hj Hji) as [E1 E2]. unfold list_ok. rewrite E1, E2. split_and!; try done.
      intros p. by rewrite N2, Hfree.
  - rewrite (zsum_insert _ _ _ l) by done. cbn beta.
    replace (zsum _ L - total (stats l) + total (stats l')) with
      (total (stats l') + (zsum (fun l => total (stats l)) L - total (stats l))) by lia.
    rewrite (u64_eq_add _ _ _ Ht).
    replace (total (stats l) + (D - D') + (zsum (fun l => total (stats l)) L - total (stats l)))
      with (zsum (fun l => total (stats l)) L + (D - D')) by lia.
    rewrite (u64_eq_add _ _ _ H3). f_equal. lia.
  - rewrite (zsum_insert _ _ _ l) by done. cbn beta.
    replace (zsum _ L - used (stats l) + used (stats l')) with
      (used (stats l') + (zsum (fun l => used (stats l)) L - used (stats l))) by lia.
    rewrite (u64_eq_add _ _ _ Hu).
    replace (used (stats l) + (bytes out' - bytes out) + (zsum (fun l => used (stats l)) L - used (stats l)))
      with (zsum (fun l => used (stats l)) L + (bytes out' - bytes out)) by lia.
    rewrite (u64_eq_add _ _ _ H4). f_equal. lia.
Qed.

Lemma lists_lookup L M out cur co D n i : lists_ok L M out cur co D n -> 0 <= i <= mx ->
  exists l, L !! Z.to_nat i = Some l /\ list_ok M out cur co i l.
Proof.
  intros (H1 & H2 & _) Hi. destruct (lookup_lt_is_Some_2 L (Z.to_nat i)) as [l Hl]; [lia|].
  exists l. split; [done|]. by apply H2.
Qed.

Lemma update_order_eq (c : slab_cache) i l f l' :
  orders c !! Z.to_nat i = Some l -> f l = Some l' ->
  update_order c i f = Some (set_orders c (<[Z.to_nat i := l']> (orders c))).
Proof. intros Hl Hf. unfold update_order, order_list. rewrite Hl. cbn [mbind option_bind]. by rewrite Hf. Qed.

Lemma mid_orders c M A B out cur co D M' out' cur' co' D' L' :
  mid c M A B out cur co D -> tiling A B M' -> state M' out' -> bytes out' = bytes out ->
  lists_ok L' M' out' cur' co' D' (Z.of_nat (length A)) -> tidy L' M' cur' ->
  mid (set_orders c L') M' A B out' cur' co' D'.
Proof.
  intros (H1 & H2 & H3 & H4 & H5 & H6 & H7) Ht Hs Hb HL Htd. do 5 (split; [done|]).
  split; [|done]. unfold allocated_ok. by rewrite Hb.
Qed.

Lemma tidy_update L M cur M' cur' i l l' : tidy L M cur -> 0 <= i <= mx -> L !! Z.to_nat i = Some l ->
  (forall p o, 0 <= o < mx -> free_at M' o p -> free_at M' o (Z.lxor p (osize o)) ->
     p = cur' \/ Z.lxor p (osize o) = cur') ->
  (i = mx -> (length (slabs l) <= 1)%nat -> (length (slabs l') <= 1)%nat) ->
  tidy (<[Z.to_nat i := l']> L) M' cur'.
Proof.
  intros [H1 H2] Hi Hl Hc Hlen. split; [done|]. intros x Hx.
  apply list_lookup_insert_Some in Hx as [(Hji & <- & _)|[Hne Hx]]; [|by apply H2].
  assert (i = mx) as -> by lia. apply Hlen; [done|by apply H2].
Qed.

(** Headers that change and are not of slabs handed out. *)
Lemma state_same A B A' B' M M' out :
  tiling A B M -> tiling A' B' M' -> state M out ->
  (forall r x, M' !! r = Some x -> order x <= mx -> in_use x = 0 \/ M !! r = Some x) ->
  (forall r x, M !! r = Some x -> order x <= mx -> in_use x = 0 \/ M' !! r = Some x) -> state M' out.
Proof.
  intros Ht Ht' (S1 & S2 & S3) H1 H2. split_and!; [|done|].
  - intros r x Hr Hx. destruct (H1 r x Hr Hx) as [?|Hr']; [by left|by apply (S1 r)].
  - intros r j. rewrite S3. split; intros (x & Hr & Hj & Hle & Hu).
    + destruct (t_ord _ _ _ _ _ Ht r x Hr ltac:(lia)) as [? _].
      destruct (H2 r x Hr ltac:(lia)); [lia|by exists x].
    + destruct (t_ord _ _ _ _ _ Ht' r x Hr ltac:(lia)) as [? _].
      destruct (H1 r x Hr ltac:(lia)); [lia|by exists x].
Qed.

(** A new free slab is put on its list. *)
Lemma list_add_ok M M' out cur co i l q :
  list_ok M out cur co i l -> ~ free_at M i q -> q <> cur -> free_at M' i q ->
  (forall r, r <> q -> r <> cur -> free_at M' i r <-> free_at M i r) ->
  list_ok M' out cur co i (slab_list_add q (osize i) l).
Proof.
  intros (N1 & N2 & N3 & N4) Hq Hqc Hf Hr.
  split_and!; cbn [slab_list_add add_total set_slabs slabs stats used total]; try done.
  - apply NoDup_cons. split; [|done]. by intros [_ ?]%N2.
  - intros r. rewrite elem_of_cons, N2. destruct (decide (r = q)) as [->|Hne]; [tauto|].
    destruct (decide (r = cur)) as [->|Hrc]; [tauto|]. rewrite (Hr r Hne Hrc). tauto.
  - rewrite N4, u64_add_l. f_equal. cbn [length]. lia.
Qed.

(** *** The steps of the operations *)

(** [cur] is accounted for in its order, or no longer. *)
Lemma step_total c M A B out cur o (b : bool) :
  mid c M A B out cur (if b then -1 else o) (if b then osize o else 0) -> 0 <= o <= mx ->
  exists L', update_order c o (fun l => Some (add_total (if b then osize o else - osize o) l)) =
    Some (set_orders c L') /\
    mid (set_orders c L') M A B out cur (if b then o else -1) (if b then 0 else osize o).
Proof.
  intros Hm Ho. pose proof Hm as (_ & _ & Ht & Hs & HL & _ & Htd).
  destruct (lists_lookup _ _ _ _ _ _ _ o HL Ho) as (l & Hl & N1 & N2 & N3 & N4).
  eexists. split; [by apply update_order_eq with l|]. eapply mid_orders; try done.
  2:{ eapply tidy_update; try done. apply Htd. }
  eapply lists_update; try done.
  - intros j Hj0 Hj. split; [done|]. destruct b; destruct (Z.eqb_spec j o), (Z.eqb_spec j (-1)); (done || lia).
  - split_and!; try done. cbn [add_total stats total slabs]. rewrite N4, u64_add_l. f_equal.
    destruct b; rewrite Z.eqb_refl, (proj2 (Z.eqb_neq o (-1))) by lia; lia.
  - cbn [add_total stats total]. rewrite u64_idem. f_equal. destruct b; lia.
  - cbn [add_total stats used]. f_equal. lia.
Qed.

Lemma free_tile M o p : free_at M o p -> o <= mx -> tile M p o.
Proof. intros (s & H1 & H2 & _) Ho. by exists s. Qed.

Lemma mid_facts c M A B out cur co D p o :
  mid c M A B out cur co D -> tile M p o ->
  0 <= o <= mx /\ 0 < p /\ p mod osize o = 0 /\ exists b, b ∈ A /\ b <= p /\ p + osize o <= b + 2 ^ k.
Proof.
  intros (_ & Hi & Ht & _) Hp. pose proof (inv_apart _ _ _ _ Hi) as Ha. by eapply tile_facts.
Qed.

Lemma step_pop c A B out i l p rest :
  cache_inv c A B out -> 0 <= i <= mx -> orders c !! Z.to_nat i = Some l -> slabs l = p :: rest ->
  free_at (mem c) i p /\
  exists L', update_order c i (fun l => Some (set_slabs rest l)) = Some (set_orders c L') /\
    mid (set_orders c L') (mem c) A B out p i 0.
Proof.
  intros Hm Hi Hl Hs. pose proof Hm as (_ & _ & Ht & Hst & HL & _ & Htd).
  pose proof HL as (_ & HL' & _). destruct (HL' i l Hi Hl) as (N1 & N2 & N3 & N4).
  rewrite Hs in *. apply NoDup_cons in N1 as [Hp N1].
  assert (Hf : free_at (mem c) i p) by (apply N2; left). split; [done|].
  assert (Hfp : forall j q, free_at (mem c) j q -> j <= mx -> q <> NULL).
  { intros j q Hq Hj. destruct (mid_facts _ _ _ _ _ _ _ _ q j Hm) as (_ & ? & _); [by apply free_tile|lia]. }
  eexists. split; [by apply update_order_eq with l|]. eapply mid_orders; try done.
  2:{ eapply tidy_update; try done.
      - intros r o Ho F1 F2. destruct (proj1 Htd r o Ho F1 F2) as [E|E];
          [apply Hfp in F1; [done|lia]|apply Hfp in F2; [done|lia]].
      - intros _. rewrite Hs. cbn [set_slabs slabs length]. lia. }
  eapply lists_update; try done.
  - intros j q Hj Hne. split; intros [H1 H2]; (split; [|done]).
    + eapply Hfp; [done|lia].
    + intros ->. destruct H2 as (s & E & E1 & _). destruct Hf as (s' & E' & E1' & _). congruence.
  - intros j Hj Hne. split; [done|]. destruct (Z.eqb_spec j i), (Z.eqb_spec j (-1)); (done || lia).
  - split_and!; cbn [set_slabs slabs stats]; try done.
    + intros q. pose proof (N2 q) as N2q. rewrite elem_of_cons in N2q. split.
      * intros Hq. split; [congruence|]. apply N2q. by right.
      * intros [Hne Hq]. destruct (proj2 N2q) as [->|?]; [|done|done]. split; [|done].
        eapply Hfp; [done|lia].
    + rewrite N4, Z.eqb_refl, (proj2 (Z.eqb_neq i (-1))) by lia. f_equal. cbn [length]. lia.
  - cbn [set_slabs stats]. f_equal. lia.
  - cbn [set_slabs stats]. f_equal. lia.
Qed.

Lemma step_push c M A B out p o :
  mid c M A B out p o 0 -> free_at M o p -> 0 <= o <= mx ->
  (o < mx -> ~ free_at M o (Z.lxor p (osize o))) ->
  (o = mx -> forall l, orders c !! Z.to_nat mx = Some l -> slabs l = []) ->
  exists L', update_order c o (fun l => Some (set_slabs (p :: slabs l) l)) = Some (set_orders c L') /\
    mid (set_orders c L') M A B out NULL (-1) 0.
Proof.
  intros Hm Hf Ho Hnb Hempty. pose proof Hm as (_ & _ & Ht & Hst & HL & _ & Htd).
  destruct (lists_lookup _ _ _ _ _ _ _ o HL Ho) as (l & Hl & N1 & N2 & N3 & N4).
  assert (Hfp : forall j q, free_at M j q -> j <= mx -> q <> NULL).
  { intros j q Hq Hj. destruct (mid_facts _ _ _ _ _ _ _ _ q j Hm) as (_ & ? & _); [by apply free_tile|lia]. }
  assert (Hbud : forall r o', 0 <= o' < mx -> free_at M o' r -> free_at M o' (Z.lxor r (osize o')) -> False).
  { intros r o' Ho' F1 F2. destruct Hf as (s & Es & Eo & Eu). destruct (proj1 Htd r o' Ho' F1 F2) as [->|E].
    - pose proof F1 as (s' & Es' & Eo' & _). rewrite Es in Es'. simplify_eq. apply Hnb; [lia|done].
    - pose proof F2 as (s' & Es' & Eo' & _). rewrite E in Es'. rewrite Es in Es'. simplify_eq.
      apply Hnb; [lia|]. by rewrite lxor_invol. }
  eexists. split; [by apply update_order_eq with l|]. eapply mid_orders; try done.
  2:{ eapply tidy_update; try done.
      - intros r o' Ho' F1 F2. by destruct (Hbud r o').
      - intros -> _. by rewrite (Hempty eq_refl l Hl). }
  eapply lists_update; try done.
  - intros j q Hj Hne. split; intros [H1 H2]; (split; [|done]).
    + intros ->. destruct H2 as (s & E & E1 & _). destruct Hf as (s' & E' & E1' & _). congruence.
    + eapply Hfp; [done|lia].
  - intros j Hj Hne. split; [done|]. destruct (Z.eqb_spec j o), (Z.eqb_spec j (-1)); (done || lia).
  - split_and!; cbn [set_slabs slabs stats]; try done.
    + apply NoDup_cons. split; [|done]. intros [? _]%N2. done.
    + intros q. rewrite elem_of_cons, N2. split.
      * intros [->|[_ Hq]]; (split; [eapply Hfp; [done|lia]|done]).
      * intros [_ Hq]. destruct (decide (q = p)) as [->|]; [by left|by right].
    + rewrite N4, Z.eqb_refl, (proj2 (Z.eqb_neq o (-1))) by lia. f_equal. cbn [length]. lia.
  - cbn [set_slabs stats]. f_equal. lia.
  - cbn [set_slabs stats]. f_equal. lia.
Qed.

(** The memory of one slab of order [o] is marked used or free. *)
Definition mark (M : gmap Z slab) (p o u : Z) : gmap Z slab :=
  <[p := Slab (osize o) slab_magic o u]> M.

Lemma mark_Some M p o u q t : mark M p o u !! q = Some t <->
  (p = q /\ Slab (osize o) slab_magic o u = t) \/ (p <> q /\ M !! q = Some t).
Proof. apply lookup_insert_Some. Qed.

Lemma mark_other M p o u j q : q <> p -> (free_at (mark M p o u) j q <-> free_at M j q) /\
  (used_at (mark M p o u) j q <-> used_at M j q).
Proof. intros Hne. unfold free_at, used_at, mark. rewrite lookup_insert_ne by done. done. Qed.

Lemma tile_header A B M p o s : tiling A B M -> M !! p = Some s -> order s = o -> o <= mx ->
  s = Slab (osize o) slab_magic o (in_use s) /\ 0 <= o.
Proof.
  intros Ht Hs Ho Hle. destruct (t_ord _ _ _ _ _ Ht p s Hs ltac:(lia)) as (H1 & H2 & H3 & _).
  destruct s; simpl in *; subst. done.
Qed.

Lemma tiling_mark A B M p o u : tiling A B M -> tile M p o -> tiling A B (mark M p o u).
Proof.
  intros Ht (s & Hs & Ho & Hle). destruct (tile_header A B M p o s Ht Hs Ho Hle) as [Hh _].
  assert (H : tiling A B (<[p := Slab (size s) (magic s) (order s) u]> M)) by (by eapply tiling_use).
  by rewrite Hh in H.
Qed.

Lemma state_set_used M out p o :
  state M out -> free_at M o p -> 0 <= o <= mx -> state (mark M p o (o + 1)) ((p, o) :: out).
Proof.
  intros (S1 & S2 & S3) (s & Hs & Hos & Hu) Ho.
  assert (Hnot : forall j, ~ used_at M j p).
  { intros j (s' & Es & Eo & _ & Eu). rewrite Hs in Es. simplify_eq. lia. }
  split_and!.
  - intros q t [[<- <-]|[Hne Hq]]%mark_Some; cbn [order in_use]; [by right|by apply (S1 q)].
  - apply NoDup_cons. split; [|done]. by intros ?%S3%Hnot.
  - intros q j. rewrite elem_of_cons. destruct (decide (q = p)) as [->|Hne].
    + unfold used_at at 1, mark. rewrite lookup_insert_eq. split.
      * intros [[= ->]|Hin%S3%Hnot]; [eexists; split_and!; [done|done|lia|done]|done].
      * intros (s' & [= <-] & <- & _). by left.
    + rewrite (proj2 (mark_other M p o (o + 1) j q Hne)), <- S3. split; [|by right].
      intros [[= -> ->]|?]; done.
Qed.

Lemma step_set_used c A B out p o :
  mid c (mem c) A B out p o 0 -> free_at (mem c) o p -> 0 <= o <= mx ->
  exists c', slab_set_used c p = Some c' /\ mem c' = mark (mem c) p o (o + 1) /\
    cache_inv c' A B ((p, o) :: out).
Proof.
  intros Hm Hf Ho. pose proof Hm as (Hg & Hi & Ht & Hst & HL & Hal & Htd). set (M := mem c) in *.
  pose proof (free_tile _ _ _ Hf ltac:(lia)) as Htp. pose proof Hf as (s & Hs & Hos & Hu).
  destruct (tile_header A B M p o s Ht Hs Hos ltac:(lia)) as [Hh _].
  destruct (lists_lookup _ _ _ _ _ _ _ o HL Ho) as (l & Hl & N1 & N2 & N3 & N4).
  set (l' := add_used (osize o) l). set (c' := write (set_orders (set_allocated c
    (add_used (osize o) (allocated c))) (<[Z.to_nat o := l']> (orders c))) p (Slab (osize o) slab_magic o (o + 1))).
  assert (E : slab_set_used c p = Some c').
  { unfold slab_set_used. fold M. rewrite Hs. cbn [mbind option_bind]. rewrite Hh. cbn [size magic order].
    rewrite (update_order_eq _ o l _ l') by done. cbn [mbind option_bind].
    unfold u8. rewrite Z.mod_small by lia. by rewrite (Z.add_comm 1 o). }
  exists c'. split; [done|]. split; [done|]. unfold cache_inv. change (mem c') with (mark M p o (o + 1)).
  assert (Hfp : forall j q, free_at M j q -> 0 <= j <= mx -> q <> NULL).
  { intros j q Hq Hj. destruct (mid_facts _ _ _ _ _ _ _ _ q j Hm) as (_ & ? & _); [apply free_tile; [done|lia]|lia]. }
  assert (Hfree : forall j q, 0 <= j <= mx -> (q <> NULL /\ free_at (mark M p o (o + 1)) j q) <-> (q <> p /\ free_at M j q)).
  { intros j q Hj. destruct (decide (q = p)) as [->|Hne].
    - split; [|by intros [? _]]. intros [_ (s' & Es & _ & Eu)]. unfold mark in Es.
      rewrite lookup_insert_eq in Es. simplify_eq/=. lia.
    - rewrite (proj1 (mark_other M p o (o + 1) j q Hne)). split; intros [_ H]; (split; [|done]); [done|by eapply Hfp]. }
  split_and!; cbn [c' write set_mem set_orders set_allocated arena orders allocated]; try apply Hg.
  - done.
  - by apply tiling_mark.
  - by apply state_set_used.
  - eapply lists_update with (l := l); try done.
    + intros j q Hj _. by apply Hfree.
    + intros j Hj Hne. rewrite count_cons, (proj2 (Z.eqb_neq o j)) by lia. split; [lia|].
      destruct (Z.eqb_spec j o), (Z.eqb_spec j (-1)); (done || lia).
    + split_and!; cbn [l' add_used slabs stats used total]; try done.
      * intros q. rewrite N2. symmetry. by apply Hfree.
      * rewrite N3, u64_add_l, count_cons, Z.eqb_refl. f_equal. lia.
      * rewrite N4, count_cons, !Z.eqb_refl, (proj2 (Z.eqb_neq o (-1))) by lia. f_equal. lia.
    + cbn [l' add_used stats total]. f_equal. lia.
    + cbn [l' add_used stats used]. rewrite u64_idem, bytes_cons. f_equal. lia.
  - destruct Hal as (A1 & A2 & A3). split_and!; cbn [add_used slabs stats used total]; try done.
    rewrite A2, u64_add_l, bytes_cons. f_equal. lia.
  - assert (Hback : forall j q, free_at (mark M p o (o + 1)) j q -> q <> p /\ free_at M j q).
    { intros j q Hq. destruct (decide (q = p)) as [->|Hne]; [exfalso|split; [done|]].
      - destruct Hq as (t & [[_ <-]|[? _]]%mark_Some & _ & Hu'); [simpl in Hu'; lia|done].
      - by apply (proj1 (mark_other M p o (o + 1) j q Hne)). }
    eapply tidy_update; try done. intros r j Hj [R1 F1]%Hback [R2 F2]%Hback.
    by destruct (proj1 Htd r j Hj F1 F2).
Qed.

Lemma count_app i out1 out2 : count i (out1 ++ out2) = count i out1 + count i out2.
Proof. apply zsum_app. Qed.
Lemma bytes_app out1 out2 : bytes (out1 ++ out2) = bytes out1 + bytes out2.
Proof. apply zsum_app. Qed.

Lemma state_set_free M out1 p o out2 :
  state M (out1 ++ (p, o) :: out2) -> 0 <= o -> state (mark M p o 0) (out1 ++ out2).
Proof.
  intros (S1 & S2 & S3) H0. destruct (nodup_split _ _ _ S2) as [S2' S4].
  assert (Hus : used_at M o p) by (apply S3, elem_of_app; right; left).
  destruct Hus as (s & Hs & Hos & Hle & Hu). split_and!; [|done|].
  - intros q t [[<- <-]|[Hne Hq]]%mark_Some; cbn [order in_use]; [by left|by apply (S1 q)].
  - intros q j. rewrite S4, S3. destruct (decide (q = p)) as [->|Hne].
    + split.
      * intros [(s' & Es & Eo & _) Hne]. rewrite Hs in Es. simplify_eq.
      * intros (s' & Es & <- & Hle' & Eu). unfold mark in Es. rewrite lookup_insert_eq in Es.
        simplify_eq/=. lia.
    + rewrite (proj2 (mark_other M p o 0 j q Hne)). split; [tauto|]. intros H. split; [done|]. congruence.
Qed.

Lemma step_set_free c A B out1 p o out2 :
  cache_inv c A B (out1 ++ (p, o) :: out2) ->
  exists c', slab_set_free c p = Some c' /\ mem c' = mark (mem c) p o 0 /\ 0 <= o <= mx /\
    mid c' (mem c') A B (out1 ++ out2) p o 0 /\ free_at (mem c') o p.
Proof.
  intros Hm. pose proof Hm as (Hg & Hi & Ht & Hst & HL & Hal & Htd). set (M := mem c) in *.
  assert (Hus : used_at M o p) by (apply Hst, elem_of_app; right; left).
  destruct Hus as (s & Hs & Hos & Hle & Hu).
  destruct (tile_header A B M p o s Ht Hs Hos Hle) as [Hh H0]. assert (Htp : tile M p o) by (by exists s).
  destruct (mid_facts _ _ _ _ _ _ _ _ p o Hm Htp) as (Ho & Hp0 & _).
  destruct (lists_lookup _ _ _ _ _ _ _ o HL Ho) as (l & Hl & N1 & N2 & N3 & N4).
  set (l' := add_used (- osize o) l). set (c' := write (set_orders (set_allocated c
    (add_used (- osize o) (allocated c))) (<[Z.to_nat o := l']> (orders c))) p (Slab (osize o) slab_magic o 0)).
  assert (E : slab_set_free c p = Some c').
  { unfold slab_set_free. fold M. rewrite Hs. cbn [mbind option_bind]. rewrite Hh, Hu.
    cbn [size magic order in_use]. rewrite Z.eqb_refl.
    rewrite (update_order_eq _ o l _ l') by done. done. }
  exists c'. change (mem c') with (mark M p o 0). do 3 (split; [done|]).
  split; [|eexists; split; [apply lookup_insert_eq|done]].
  assert (Hfree : forall j q, 0 <= j <= mx -> (q <> p /\ free_at (mark M p o 0) j q) <-> (q <> NULL /\ free_at M j q)).
  { intros j q Hj. destruct (decide (q = p)) as [->|Hne].
    - split; [by intros [? _]|]. intros [_ (s' & Es & _ & Eu)]. rewrite Hs in Es. simplify_eq. lia.
    - rewrite (proj1 (mark_other M p o 0 j q Hne)). split; intros [_ H]; (split; [|done]); [|done].
      destruct (mid_facts _ _ _ _ _ _ _ _ q j Hm) as (_ & ? & _); [apply free_tile; [done|lia]|lia]. }
  split_and!; cbn [c' write set_mem set_orders set_allocated arena orders allocated]; try apply Hg.
  - done.
  - by apply tiling_mark.
  - by apply state_set_free.
  - eapply lists_update with (l := l); try done.
    + intros j q Hj _. by apply Hfree.
    + intros j Hj Hne. rewrite !count_app, count_cons, (proj2 (Z.eqb_neq o j)) by lia. split; [lia|].
      destruct (Z.eqb_spec j o), (Z.eqb_spec j (-1)); (done || lia).
    + rewrite count_app, count_cons, Z.eqb_refl in *.
      split_and!; cbn [l' add_used slabs stats used total]; try done.
      * intros q. rewrite N2. symmetry. by apply Hfree.
      * rewrite N3, u64_add_l, count_app. f_equal. lia.
      * rewrite N4, count_app, !Z.eqb_refl, (proj2 (Z.eqb_neq o (-1))) by lia. f_equal. lia.
    + cbn [l' add_used stats total]. f_equal. lia.
    + cbn [l' add_used stats used]. rewrite u64_idem, !bytes_app, bytes_cons. f_equal. lia.
  - destruct Hal as (A1 & A2 & A3). split_and!; cbn [add_used slabs stats used total]; try done.
    rewrite A2, u64_add_l, !bytes_app, bytes_cons. f_equal. lia.
  - assert (Hback : forall j q, q <> p -> 0 <= j <= mx -> free_at (mark M p o 0) j q -> q <> NULL /\ free_at M j q).
    { intros j q Hq Hj Hf. by apply Hfree. }
    eapply tidy_update; try done. intros r j Hj F1 F2.
    destruct (decide (r = p)) as [|R1]; [by left|].
    destruct (decide (Z.lxor r (osize j) = p)) as [|R2]; [by right|exfalso].
    apply Hback in F1 as [? F1]; [|done|lia]. apply Hback in F2 as [? F2]; [|done|lia].
    by destruct (proj1 Htd r j Hj F1 F2).
Qed.

Lemma slab_order_size_eq c o : geometry c -> o <= mx -> slab_order_size c o = Some (osize o).
Proof.
  intros (H1 & H2 & _) Ho. unfold slab_order_size. rewrite H1, H2, (proj2 (Z.leb_le _ _)) by done.
  by rewrite Z.shiftl_1_l, (Z.add_comm o lb).
Qed.

Lemma slab_buddy_eq c p s : geometry c -> mem c !! p = Some s -> order s <= mx ->
  slab_buddy c p = Some (if order s =? mx then NULL else Z.lxor p (osize (order s))).
Proof.
  intros Hg Hs Ho. unfold slab_buddy. rewrite Hs. cbn [mbind option_bind].
  rewrite (proj1 Hg), (proj2 (Z.leb_le _ _)) by done. destruct (_ =? _); [done|].
  by rewrite slab_order_size_eq.
Qed.

(** The address of the second half of a slab is the buddy of the first. *)
Lemma lxor_half p o : 0 < o -> p mod osize o = 0 ->
  Z.lxor p (osize (o - 1)) = p + osize (o - 1).
Proof.
  intros Ho Hp. assert (Hn : p mod osize (o - 1) = 0) by (apply (mod_pow_le p (lb + (o - 1)) (lb + o)); [lia|done]).
  destruct (lxor_buddy p (lb + (o - 1)) ltac:(lia) Hn) as [[_ E]|[E _]]; [done|exfalso].
  replace (lb + (o - 1) + 1) with (lb + o) in E by lia.
  pose proof (pow2_pos (lb + (o - 1)) ltac:(lia)) as Hq.
  assert (Hd : 2 ^ (lb + o) = 2 * 2 ^ (lb + (o - 1))).
  { replace (lb + o) with (Z.succ (lb + (o - 1))) by lia. apply Z.pow_succ_r. lia. }
  apply Z.mod_divide in E as [i Ei]; [|lia]. apply Z.mod_divide in Hp as [j Hj]; [|unfold osize; lia].
  unfold osize in Hj. rewrite Hd in Ei, Hj. set (x := 2 ^ (lb + (o - 1))) in *.
  assert (Hz : x * (2 * (j - i) - 1) = 0) by lia. apply Z.mul_eq_0 in Hz. lia.
Qed.

Lemma slab_split_eq c p o s l :
  geometry c -> 0 < o <= mx -> p mod osize o = 0 -> mem c !! p = Some s -> order s = o ->
  orders c !! Z.to_nat (o - 1) = Some l ->
  let n := osize (o - 1) in let q := p + n in let h := Slab n slab_magic (o - 1) 0 in
  slab_split c p = Some (set_orders (write (write c p h) q h)
    (<[Z.to_nat (o - 1) := slab_list_add q n l]> (orders c))).
Proof.
  intros Hg Ho Hal Hs Hos Hl n q h. unfold slab_split. rewrite Hs. cbn [mbind option_bind]. rewrite Hos.
  rewrite Z.gtb_ltb, (proj2 (Z.ltb_lt 0 o)) by lia. unfold u8. rewrite Z.mod_small by lia.
  rewrite slab_order_size_eq by (done || lia). cbn [mbind option_bind]. fold n.
  unfold slab_create, u8. rewrite Z.mod_small by lia. fold h.
  rewrite (slab_buddy_eq _ p h); [|done|apply lookup_insert_eq|simpl; lia].
  cbn [h order]. rewrite (proj2 (Z.eqb_neq _ _)) by lia. cbn [mbind option_bind].
  rewrite lxor_half by (done || lia). fold n q.
  cbn [write mem set_mem]. rewrite lookup_insert_eq. cbn [mbind option_bind order size].
  exact (update_order_eq (write (write c p h) q h) (o - 1) l
    (fun l => Some (slab_list_add q n l)) _ Hl eq_refl).
Qed.

Lemma step_split c A B out p o :
  mid c (mem c) A B out p (-1) (osize o) -> free_at (mem c) o p -> 0 < o <= mx ->
  exists c', slab_split c p = Some c' /\ mid c' (mem c') A B out p (-1) (osize (o - 1)) /\
    free_at (mem c') (o - 1) p.
Proof.
  intros Hm Hf Ho. pose proof Hm as (Hg & Hi & Ht & Hst & HL & Hal & Htd). set (M := mem c) in *.
  pose proof (free_tile _ _ _ Hf ltac:(lia)) as Htp. pose proof (inv_apart _ _ _ _ Hi) as Ha.
  destruct (mid_facts _ _ _ _ _ _ _ _ p o Hm Htp) as (_ & Hp0 & Hal' & _).
  destruct Hf as (s & Hs & Hos & Hu). set (n := osize (o - 1)). set (q := p + n).
  assert (Hn : 4096 <= n /\ osize o = 2 * n).
  { split; [apply osize_pos; lia|]. replace o with (o - 1 + 1) by lia. apply osize_succ; lia. }
  destruct (lists_lookup _ _ _ _ _ _ _ (o - 1) HL ltac:(lia)) as (l & Hl & Hlo).
  set (l' := slab_list_add q n l). set (h := Slab n slab_magic (o - 1) 0).
  set (M' := <[q := h]> (<[p := h]> M)).
  set (c' := set_orders (write (write c p h) q h) (<[Z.to_nat (o - 1) := l']> (orders c))).
  assert (E : slab_split c p = Some c') by (by apply (slab_split_eq c p o s l)).
  assert (Hq : forall t, M !! q = Some t -> mx < order t).
  { intros t Hqt. destruct (Z.le_gt_cases (order t) mx) as [Hle|]; [exfalso|lia].
    assert (q = p); [|lia]. eapply (tile_inside lb mx); [..|done|by exists t|]; try done. unfold q. lia. }
  assert (HM : forall r, r <> p -> r <> q -> M' !! r = M !! r).
  { intros r H1 H2. unfold M'. by rewrite !lookup_insert_ne by done. }
  assert (HMp : M' !! p = Some h) by (unfold M'; rewrite lookup_insert_ne, lookup_insert_eq; [done|lia]).
  assert (HMq : M' !! q = Some h) by (unfold M'; apply lookup_insert_eq).
  assert (Ht' : tiling A B M') by (eapply tiling_split; try done; lia).
  exists c'. split; [done|]. change (mem c') with M'. split; [|by exists h].
  split_and!; cbn [c' write set_mem set_orders arena orders allocated]; try apply Hg; try apply Hal.
  - done.
  - done.
  - apply (state_same A B A B M); try done; intros r t Hr Ho2.
    + destruct (decide (r = p)) as [->|H1]; [|destruct (decide (r = q)) as [->|H2]].
      * rewrite HMp in Hr. simplify_eq. by left.
      * rewrite HMq in Hr. simplify_eq. by left.
      * right. by rewrite <- HM.
    + destruct (decide (r = p)) as [->|H1]; [left; congruence|].
      destruct (decide (r = q)) as [->|H2]; [apply Hq in Hr; lia|]. right. by rewrite HM.
  - eapply lists_update with (l := l); try done; [lia|..].
    + intros j r Hj Hne. unfold free_at.
      destruct (decide (r = p)) as [->|H1]; [by split; intros [? _]|destruct (decide (r = q)) as [->|H2]].
      * rewrite HMq. split; [intros [_ (t & [= <-] & ? & _)]; simplify_eq/=; lia|].
        intros [_ (t & Et & ? & _)]. apply Hq in Et. lia.
      * by rewrite HM by done.
    + apply (list_add_ok M); [done| |lia|by exists h|].
      * intros (t & Et & ? & _). apply Hq in Et. lia.
      * intros r R1 R2. unfold free_at. by rewrite HM by done.
    + cbn [l' slab_list_add add_total set_slabs stats total]. rewrite u64_idem. f_equal. fold n. lia.
    + cbn [l' slab_list_add add_total set_slabs stats used]. f_equal. lia.
  - assert (Hqx : Z.lxor p n = q) by (unfold q, n; apply lxor_half; (done || lia)).
    eapply tidy_update; try done; [lia| |lia]. intros r j Hj F1 F2.
    destruct (decide (r = p)) as [|R1]; [by left|].
    destruct (decide (Z.lxor r (osize j) = p)) as [|R2]; [by right|].
    destruct (decide (r = q)) as [->|R3].
    { right. destruct F1 as (t & Et & Eo & _). rewrite HMq in Et. simplify_eq/=.
      fold n. rewrite <- Hqx. apply lxor_invol. }
    destruct (decide (Z.lxor r (osize j) = q)) as [R4|R4].
    { left. destruct F2 as (t & Et & Eo & _). rewrite R4, HMq in Et. simplify_eq/=.
      fold n in R4. rewrite <- (lxor_invol r n), R4, <- Hqx. apply lxor_invol. }
    unfold free_at in F1, F2. rewrite HM in F1, F2 by done. by apply (proj1 Htd r j Hj).
Qed.

(** Memory without the headers in the data of the slab of [n] bytes at [p]. *)
Definition scrub (p n : Z) (m : gmap Z slab) : gmap Z slab :=
  filter (fun '(q, _) => ~ (slab_data p <= q < p + n)) m.

Lemma slab_sizeof_eq : slab_sizeof = 48.
Proof. reflexivity. Qed.

Lemma scrub_lookup p n m q :
  scrub p n m !! q = if (p + 48 <=? q) && (q <? p + n) then None else m !! q.
Proof.
  unfold scrub, slab_data. rewrite slab_sizeof_eq. destruct (m !! q) as [s|] eqn:E.
  - destruct (_ && _) eqn:Eb; bools.
    + apply map_lookup_filter_None. right. intros x Hx Hn. simpl in Hn. lia.
    + apply map_lookup_filter_Some. split; [done|]. simpl. destruct Eb; bools; lia.
  - rewrite (proj2 (map_lookup_filter_None _ _ _)) by (by left). by destruct (_ && _).
Qed.

Lemma scrub_Some p n m q s : scrub p n m !! q = Some s -> m !! q = Some s.
Proof. rewrite scrub_lookup. by destruct (_ && _). Qed.

Lemma slab_poison_eq (c : slab_cache) p s : mem c !! p = Some s -> 48 <= size s < 2 ^ 64 ->
  slab_poison c p = Some (set_mem c (scrub p (size s) (mem c))).
Proof.
  intros Hs Hn. unfold slab_poison. rewrite Hs. cbn [mbind option_bind]. do 2 f_equal.
  apply map_filter_ext. intros q t _. cbn beta iota. unfold slab_data, slab_capacity.
  rewrite slab_sizeof_eq, u64_small by lia. lia.
Qed.

(** What the headers of a slab and its buddy become when they are merged. *)
Lemma scrub_merge A B m p o h :
  let n := osize o in let M := scrub p n m in
  let q := Z.lxor p n in let lo := Z.min p q in
  tiling A B M -> apart lb mx A B -> tile M p o -> tile M q o -> o < mx ->
  scrub lo (osize (o + 1)) (<[lo := h]> m) = <[lo := h]> (delete (lo + n) M).
Proof.
  intros n M q lo Ht Ha Hp Hq Ho.
  destruct (buddy_block lb mx Hlb Hmx A B M Ht Ha p o Hp Ho) as (_ & Hmax & b & Hb & Hin).
  fold n q lo in Hmax, Hin. destruct (tile_facts lb mx Hlb Hmx A B M Ht Ha p o Hp) as (H0 & _).
  assert (Hn : 4096 <= n /\ osize (o + 1) = 2 * n) by (split; [apply osize_pos|apply osize_succ]; lia).
  apply map_eq. intros x. rewrite scrub_lookup. destruct (decide (x = lo)) as [->|Hne].
  { rewrite !lookup_insert_eq, (proj2 (Z.leb_gt _ _)) by lia. done. }
  rewrite !lookup_insert_ne by done. destruct (decide (x = lo + n)) as [->|Hne2].
  { rewrite lookup_delete_eq, (proj2 (Z.leb_le _ _)), (proj2 (Z.ltb_lt _ _)) by lia. done. }
  rewrite lookup_delete_ne by done. unfold M. rewrite scrub_lookup. fold n.
  destruct (_ && _) eqn:Eb; bools.
  - destruct ((p + 48 <=? x) && _) eqn:Ec; [done|]. destruct (m !! x) as [s|] eqn:Ex; [exfalso|done].
    assert (EM : M !! x = Some s) by (unfold M; rewrite scrub_lookup; fold n; by rewrite Ec).
    destruct (Z.le_gt_cases (order s) mx) as [Hle|Hgt].
    + assert (Htx : tile M x (order s)) by (by exists s).
      pose proof (tile_inside lb mx Hlb Hmx A B M Ht Ha p o x (order s) Hp Htx) as I1.
      pose proof (tile_inside lb mx Hlb Hmx A B M Ht Ha q o x (order s) Hq Htx) as I2.
      fold n in I1, I2. lia.
    + destruct (t_large _ _ _ _ _ Ht x s EM Hgt) as (_ & _ & HB).
      destruct (a_block _ _ _ _ Ha _ _ HB). apply (a_mixed _ _ _ _ Ha x (size s) b x HB Hb); lia.
  - destruct ((p + 48 <=? x) && _) eqn:Ec; [exfalso|done]. bools. destruct Eb; bools; lia.
Qed.

(** The two halves are in memory and the buddy is on the list of its order. *)
Lemma slab_merge_eq c p o s t s0 l l2 :
  let n := osize o in let q := Z.lxor p n in let lo := Z.min p q in
  geometry c -> 0 <= o < mx -> mem c !! p = Some s -> order s = o ->
  mem c !! q = Some t -> t = Slab n slab_magic o (in_use t) ->
  mem c !! lo = Some s0 -> s0 = Slab n slab_magic o 0 ->
  orders c !! Z.to_nat o = Some l -> list_remove q (slabs l) = Some l2 ->
  slab_merge c p q = Some (lo, write (set_orders c
    (<[Z.to_nat o := add_total (- n) (set_slabs l2 l)]> (orders c))) lo
    (Slab (osize (o + 1)) slab_magic (o + 1) 0)).
Proof.
  intros n q lo Hg Ho Hs Hos Hq Ht Hl Hs0 Hlo Hrem.
  unfold slab_merge. rewrite (slab_buddy_eq c p s) by (done || lia). rewrite Hos.
  rewrite (proj2 (Z.eqb_neq o mx)) by lia. cbn [mbind option_bind]. fold n q. rewrite Z.eqb_refl, Hq.
  replace (if p >? q then q else p) with lo by (destruct (Z.gtb_spec p q); lia).
  cbn [mbind option_bind]. rewrite Ht. cbn [order size].
  rewrite (update_order_eq c o l _ (add_total (- n) (set_slabs l2 l)) Hlo);
    [|unfold slab_list_del; by rewrite Hrem].
  cbn [mbind option_bind set_orders mem]. rewrite Hl. cbn [mbind option_bind]. rewrite Hs0.
  cbn [order magic in_use]. unfold u8. rewrite Z.mod_small by lia.
  by rewrite slab_order_size_eq by (done || lia).
Qed.

(** [M'] is [M] with the free slabs [lo] and [hi] of order [o] made one. *)
Definition merges (M : gmap Z slab) (o lo hi : Z) (h : slab) (M' : gmap Z slab) : Prop :=
  M' !! lo = Some h /\ M' !! hi = None /\ (forall r, r <> lo -> r <> hi -> M' !! r = M !! r) /\
  in_use h = 0 /\
  (forall r, r = lo \/ r = hi -> exists x, M !! r = Some x /\ order x = o /\ in_use x = 0).

Lemma merge_state A B M o lo hi h M' out :
  merges M o lo hi h M' -> tiling A B M -> tiling A B M' -> state M out -> state M' out.
Proof.
  intros (Hl & Hh & HM & Hu & Hboth) Ht Ht' Hst.
  apply (state_same A B A B M); try done; intros r x Hr _;
    (destruct (decide (r = lo \/ r = hi)) as [H1|H1]; [left|right]).
  - destruct H1 as [-> | ->]; [rewrite Hl in Hr; by simplify_eq|by rewrite Hh in Hr].
  - by rewrite <- HM by tauto.
  - destruct (Hboth r H1) as (y & Ey & _ & Uy). congruence.
  - by rewrite HM by tauto.
Qed.

Lemma merge_free M o lo hi h M' p q j r :
  merges M o lo hi h M' -> (p = lo /\ q = hi) \/ (p = hi /\ q = lo) ->
  (r <> lo /\ free_at M' j r) <-> (r <> p /\ (j = o -> r <> q) /\ free_at M j r).
Proof.
  intros (Hl & Hh & HM & Hu & Hboth) Hpq. unfold free_at.
  destruct (decide (r = lo \/ r = hi)) as [Hr|Hr].
  - destruct (Hboth r Hr) as (x & Ex & Ox & Ux). split.
    + intros [Hrl (y & Ey & _)]. destruct Hr as [-> | ->]; [done|congruence].
    + intros (Hrp & Hrq & y & Ey & Oy & _). rewrite Ex in Ey. simplify_eq. specialize (Hrq eq_refl). lia.
  - rewrite HM by tauto. split; [intros [_ H]|intros (_ & _ & H)]; split; try done; [lia| |tauto].
    split; [lia|done].
Qed.

Lemma merge_list M o lo hi h M' p q out l l2 :
  merges M o lo hi h M' -> (p = lo /\ q = hi) \/ (p = hi /\ q = lo) -> 0 <= o ->
  list_ok M out p (-1) o l -> slabs l ≡ₚ q :: l2 ->
  list_ok M' out lo (-1) o (add_total (- osize o) (set_slabs l2 l)).
Proof.
  intros Hmg Hpq Ho (N1 & N2 & N3 & N4) Hperm. rewrite Hperm in N1. apply NoDup_cons in N1 as [Hq2 N1].
  split_and!; cbn [add_total set_slabs slabs stats used total]; try done.
  - intros r. rewrite (merge_free _ _ _ _ _ _ p q o r Hmg Hpq).
    pose proof (N2 r) as N2r. rewrite Hperm, elem_of_cons in N2r. split.
    + intros Hr. destruct (proj1 N2r (or_intror Hr)) as [H1 H2]. split_and!; [done|by intros _ ->|done].
    + intros (H1 & H2 & H3). by destruct (proj2 N2r (conj H1 H3)) as [->|?]; [destruct H2|].
  - rewrite N4, u64_add_l, Hperm, (proj2 (Z.eqb_neq o (-1))) by lia. f_equal. cbn [length]. lia.
Qed.

Lemma step_merge c A B out p o :
  let M := scrub p (osize o) (mem c) in let q := Z.lxor p (osize o) in let lo := Z.min p q in
  mid c M A B out p (-1) (osize o) -> free_at M o p -> free_at M o q -> 0 <= o < mx ->
  exists c', slab_merge c p q = Some (lo, c') /\
    let M' := scrub lo (osize (o + 1)) (mem c') in
    mid c' M' A B out lo (-1) (osize (o + 1)) /\ free_at M' (o + 1) lo.
Proof.
  intros M q lo Hm Hfp Hfq Ho. pose proof Hm as (Hg & Hi & Ht & Hst & HL & Hal & Htd).
  pose proof (free_tile _ _ _ Hfp ltac:(lia)) as Htp. pose proof (free_tile _ _ _ Hfq ltac:(lia)) as Htq.
  pose proof (inv_apart _ _ _ _ Hi) as Ha. set (n := osize o) in *.
  destruct (buddy_block lb mx Hlb Hmx A B M Ht Ha p o Htp ltac:(lia)) as (_ & Hmax & _).
  fold n q lo in Hmax. set (hi := lo + n) in *.
  assert (Hn : 4096 <= n /\ osize (o + 1) = 2 * n) by (split; [apply osize_pos|apply osize_succ]; lia).
  assert (Hfl : free_at M o lo) by (unfold lo; destruct (Z.min_spec p q) as [[_ ->]|[_ ->]]; done).
  assert (Hpq : (p = lo /\ q = hi) \/ (p = hi /\ q = lo)) by lia.
  destruct Hfp as (s & Hs & Hos & Hus). destruct Hfq as (t & Hqt & Hot & Hut). destruct Hfl as (s0 & Hs0 & Hos0 & Hus0).
  destruct (tile_header A B M q o t Ht Hqt Hot ltac:(lia)) as [Hth _].
  destruct (tile_header A B M lo o s0 Ht Hs0 Hos0 ltac:(lia)) as [Hh0 _].
  pose proof (scrub_Some _ _ _ _ _ Hs) as Hcs. pose proof (scrub_Some _ _ _ _ _ Hqt) as Hcq.
  pose proof (scrub_Some _ _ _ _ _ Hs0) as Hcl.
  destruct (lists_lookup _ _ _ _ _ _ _ o HL ltac:(lia)) as (l & Hl & Hlo).
  assert (Hql : q ∈ slabs l) by (apply Hlo; split; [lia|by exists t]).
  destruct (list_remove_elem q (slabs l) Hql) as (l2 & Hrem & Hperm).
  set (l' := add_total (- n) (set_slabs l2 l)). set (h := Slab (osize (o + 1)) slab_magic (o + 1) 0).
  set (c' := write (set_orders c (<[Z.to_nat o := l']> (orders c))) lo h).
  assert (E : slab_merge c p q = Some (lo, c'))
    by (rewrite Hus0 in Hh0; by apply (slab_merge_eq c p o s t s0 l l2); rewrite <- ?Hh0).
  assert (HMM : scrub lo (osize (o + 1)) (mem c') = <[lo := h]> (delete hi M)).
  { eapply (scrub_merge A B); try done. lia. }
  exists c'. split; [done|]. cbn zeta. rewrite HMM. set (M' := <[lo := h]> (delete hi M)).
  assert (Hmg : merges M o lo hi h M').
  { unfold M'. split_and!; [apply lookup_insert_eq|rewrite lookup_insert_ne, lookup_delete_eq; [done|lia]| |done|].
    - intros r H1 H2. by rewrite lookup_insert_ne, lookup_delete_ne by done.
    - intros r [-> | ->]; destruct Hpq as [[<- <-]|[<- <-]]; [by exists s|by exists t|by exists t|by exists s]. }
  assert (Ht' : tiling A B M') by (eapply tiling_merge; try done; lia).
  split; [|exists h; split; [apply Hmg|done]].
  split_and!; cbn [c' write set_mem set_orders arena orders allocated]; try apply Hg; try apply Hal; try done.
  - by eapply merge_state.
  - eapply lists_update with (l := l); try done; [lia|..].
    + intros j r Hj Hne. rewrite (merge_free _ _ _ _ _ _ p q j r Hmg Hpq). tauto.
    + by eapply merge_list; [..|lia|done|done].
    + cbn [l' add_total set_slabs stats total]. rewrite u64_idem. f_equal. lia.
    + cbn [l' add_total set_slabs stats used]. f_equal. lia.
  - eapply tidy_update; try done; [lia| |rewrite Hperm; cbn; lia]. intros r j Hj F1 F2.
    destruct (decide (r = lo)) as [|R1]; [by left|].
    destruct (decide (Z.lxor r (osize j) = lo)) as [|R2]; [by right|exfalso].
    apply (conj R1), (merge_free _ _ _ _ _ _ p q j r Hmg Hpq) in F1 as (P1 & _ & F1).
    apply (conj R2), (merge_free _ _ _ _ _ _ p q j _ Hmg Hpq) in F2 as (P2 & _ & F2).
    by destruct (proj1 Htd r j Hj F1 F2).
Qed.

(** *** Allocation *)

(** The data of a slab has no header. *)
Lemma scrub_id A B M p o : tiling A B M -> apart lb mx A B -> tile M p o -> scrub p (osize o) M = M.
Proof.
  intros Ht Ha Hp. destruct (tile_facts lb mx Hlb Hmx A B M Ht Ha p o Hp) as (Ho & _ & _ & b & Hb & Hin).
  apply map_eq. intros x. rewrite scrub_lookup. destruct (_ && _) eqn:Eb; [|done]. bools.
  destruct (M !! x) as [s|] eqn:Ex; [exfalso|done].
  destruct (Z.le_gt_cases (order s) mx) as [Hle|Hgt].
  - assert (x = p); [|lia]. by eapply (tile_inside lb mx); [..|exact Hp|by exists s|lia].
  - destruct (t_large _ _ _ _ _ Ht x s Ex Hgt) as (_ & _ & HB).
    destruct (a_block _ _ _ _ Ha _ _ HB). apply (a_mixed _ _ _ _ Ha x (size s) b x HB Hb); lia.
Qed.

(** The source changes and nothing else. *)
Lemma mid_arena c M A B out cur co D a :
  mid c M A B out cur co D -> inv k lim a A B B.*2 -> mid (set_arena c a) M A B out cur co D.
Proof. intros (H1 & H2 & H3) Hi. split; [done|]. split; [done|done]. Qed.

Lemma k_size : osize mx = 2 ^ k.
Proof. done. Qed.

Lemma step_new c A B out p a :
  cache_inv c A B out -> inv k lim a (p :: A) B B.*2 ->
  (forall l, orders c !! Z.to_nat mx = Some l -> slabs l = []) ->
  let h := Slab (2 ^ k) slab_magic mx 0 in
  exists l, orders c !! Z.to_nat mx = Some l /\
    slab_poison (write (set_arena c a) p h) p = Some (write (set_arena c a) p h) /\
    cache_inv (set_orders (set_allocated (write (set_arena c a) p h)
        (slab_list_add p (2 ^ k) (allocated c)))
        (<[Z.to_nat mx := slab_list_add p (2 ^ k) l]> (orders c))) (p :: A) B out.
Proof.
  intros Hm Ha' Hempty h. pose proof Hm as (Hg & Hi & Ht & Hst & HL & (A1 & A2 & A3) & Htd). set (M := mem c) in *.
  destruct (lists_lookup _ _ _ _ _ _ _ mx HL ltac:(lia)) as (l & Hl & Hlo).
  pose proof (inv_apart _ _ _ _ Ha') as Hap.
  destruct (tiling_add lb mx Hlb Hmx p A B M 0 Ht Hap) as [Hnone Ht']. fold h in Ht'.
  set (M' := <[p := h]> M) in *. pose proof (osize_max lb mx Hlb Hmx Hk mx ltac:(lia)) as [_ H31].
  assert (H2k : 4096 <= 2 ^ k) by (rewrite <- k_size; apply osize_pos; lia).
  assert (Htp : tile M' p mx) by (exists h; split; [apply lookup_insert_eq|done]).
  destruct (tile_facts lb mx Hlb Hmx _ _ _ Ht' Hap p mx Htp) as (_ & Hp0 & _).
  exists l. split; [done|]. split.
  { rewrite (slab_poison_eq _ p h); [|apply lookup_insert_eq|cbn [h size]; lia].
    change (mem (write (set_arena c a) p h)) with M'. cbn [h size]. rewrite <- k_size.
    by rewrite (scrub_id _ _ _ _ _ Ht' Hap Htp). }
  unfold cache_inv. match goal with |- mid ?cc _ _ _ _ _ _ _ => change (mem cc) with M' end.
  assert (HM : forall r, r <> p -> M' !! r = M !! r) by (intros r Hr; unfold M'; by rewrite lookup_insert_ne).
  assert (HMp : M' !! p = Some h) by (unfold M'; apply lookup_insert_eq).
  split_and!; cbn [write set_mem set_orders set_allocated set_arena arena orders allocated]; try apply Hg.
  - done.
  - done.
  - apply (state_same A B (p :: A) B M); try done; intros r t Hr _; destruct (decide (r = p)) as [->|Hne].
    + rewrite HMp in Hr. simplify_eq. by left.
    + right. by rewrite <- HM.
    + by rewrite Hnone in Hr.
    + right. by rewrite HM.
  - assert (HL1 : lists_ok (<[Z.to_nat mx := slab_list_add p (2 ^ k) l]> (orders c)) M' out NULL (-1)
      (- 2 ^ k) (Z.of_nat (length A))).
    { eapply lists_update with (l := l); try done; [lia|..].
      - intros j r Hj Hne. unfold free_at. destruct (decide (r = p)) as [->|Hr]; [|by rewrite HM].
        rewrite HMp, Hnone. split; [intros [_ (t & [= <-] & ? & _)]; simplify_eq/=; lia|].
        by intros [_ (? & ? & _)].
      - rewrite <- k_size. apply (list_add_ok M); [done| |lia|by exists h|].
        + intros (t & Et & _). congruence.
        + intros r Hr _. unfold free_at. by rewrite HM by done.
      - cbn [slab_list_add add_total set_slabs stats total]. rewrite u64_idem. f_equal. lia.
      - cbn [slab_list_add add_total set_slabs stats used]. f_equal. lia. }
    destruct HL1 as (L1 & L2 & L3 & L4). split_and!; try done. rewrite L3. f_equal. cbn [length]. lia.
  - unfold allocated_ok. cbn [slab_list_add add_total set_slabs slabs stats used total].
    rewrite A1, A2, A3, u64_add_l. split_and!; [done|done|]. f_equal. cbn [length]. lia.
  - assert (Hback : forall j r, j < mx -> free_at M' j r -> free_at M j r).
    { intros j r Hj (t & Et & Eo & Eu). destruct (decide (r = p)) as [->|Hne].
      - rewrite HMp in Et. simplify_eq/=. lia.
      - exists t. by rewrite <- HM. }
    eapply tidy_update; try done; [lia| |].
    + intros r j Hj F1 F2. apply (proj1 Htd r j Hj); apply Hback; (done || lia).
    + intros _ _. cbn [slab_list_add add_total set_slabs slabs]. by rewrite (Hempty l Hl).
Qed.

Lemma find_list_spec fuel c A B out o :
  cache_inv c A B out -> 0 <= o <= mx -> mx - o < Z.of_nat fuel ->
  exists r c', find_list fuel c o = Some (r, c') /\
  match r with
  | None => cache_inv c' A B out
  | Some i => o <= i <= mx /\ exists A' l p rest, cache_inv c' A' B out /\
      orders c' !! Z.to_nat i = Some l /\ slabs l = p :: rest
  end.
Proof.
  revert o. induction fuel as [|fuel IH]; intros o Hm Ho Hf; [lia|].
  pose proof Hm as (Hg & Hi & _ & _ & HL & _).
  destruct (lists_lookup _ _ _ _ _ _ _ o HL Ho) as (l & Hl & _). cbn [find_list].
  unfold order_list. rewrite Hl. cbn [mbind option_bind]. rewrite (proj1 Hg).
  destruct (slabs l) as [|p rest] eqn:Es.
  2:{ eexists _, _. split; [done|]. split; [lia|]. by exists A, l, p, rest. }
  rewrite bool_decide_true by done. cbn [negb]. destruct (Z.eqb_spec o mx) as [->|Hne].
  2:{ destruct (IH (o + 1) Hm ltac:(lia) ltac:(lia)) as (r & c' & E & H). exists r, c'. split; [done|].
      destruct r as [i|]; [|done]. destruct H as [? H]. split; [lia|done]. }
  destruct (src_map _ _ _ _ _ _ Hi) as (p & a & E & Hp). rewrite E. cbn [mbind option_bind].
  destruct Hp as [[-> Hi']|[Hp Hi']].
  { eexists _, _. split; [done|]. by apply mid_arena. }
  rewrite (proj2 (Z.eqb_neq p NULL)) by lia. cbn [set_arena arena].
  destruct (src_geometry _ _ _ _ _ _ Hi') as [Hsz _]. rewrite Hsz.
  destruct (step_new c A B out p a Hm Hi' ltac:(intros ? ?; congruence)) as (l0 & Hl0 & Ep & Hinv). rewrite Hl in Hl0. injection Hl0 as <-.
  unfold slab_create. change (order_max (set_arena c a)) with (order_max c). rewrite (proj1 Hg).
  unfold u8. rewrite Z.mod_small by lia. unfold set_arena, write, set_mem in *. cbn [mem arena order0_size order0_size_lb order_max allocated orders] in *.
  rewrite Ep. cbn [mbind option_bind mem]. rewrite lookup_insert_eq. cbn [mbind option_bind size].
  unfold set_allocated in *. cbn [mem arena order0_size order0_size_lb order_max allocated orders] in *.
  erewrite update_order_eq; [|exact Hl|done]. cbn [mbind option_bind].
  eexists _, _. split; [done|]. split; [lia|]. exists (p :: A), (slab_list_add p (2 ^ k) l), p, (slabs l).
  split; [exact Hinv|]. split; [|done]. cbn [set_orders orders].
  apply list_lookup_insert_eq. by eapply lookup_lt_Some.
Qed.

Lemma split_loop_spec fuel c A B out p j o :
  mid c (mem c) A B out p (-1) (osize j) -> free_at (mem c) j p -> 0 <= o < j -> j <= mx ->
  j - o <= Z.of_nat fuel ->
  exists c', split_loop fuel c p o = Some c' /\ mid c' (mem c') A B out p (-1) (osize o) /\
    free_at (mem c') o p.
Proof.
  revert c j. induction fuel as [|fuel IH]; intros c j Hm Hf Ho Hj Hfuel; [lia|]. cbn [split_loop].
  destruct (step_split c A B out p j Hm Hf ltac:(lia)) as (c1 & -> & Hm1 & Hf1). cbn [mbind option_bind].
  pose proof Hf1 as (s & Hs & Hos & _). rewrite Hs. cbn [mbind option_bind]. rewrite Hos.
  destruct (Z.eqb_spec (j - 1) o) as [<-|Hne]; [by exists c1|].
  apply (IH c1 (j - 1)); (done || lia).
Qed.

Lemma slab_assert_ok c A B M out cur co D p o :
  mid c M A B out cur co D -> mem c = M -> tile M p o -> slab_assert c p = Some tt.
Proof.
  intros Hm <- (s & Hs & Hos & Hle). pose proof Hm as (Hg & Hi & Ht & _).
  destruct (tile_header A B _ p o s Ht Hs Hos Hle) as [Hh H0].
  destruct (mid_facts _ _ _ _ _ _ _ _ p o Hm) as (_ & _ & Hal & _); [by exists s|].
  unfold slab_assert. rewrite Hs. cbn [mbind option_bind]. rewrite Hh. cbn [magic order size].
  rewrite (proj1 Hg), Z.eqb_refl, (proj2 (Z.leb_le o (mx + 1))), (proj2 (Z.leb_le o mx)) by lia.
  rewrite slab_order_size_eq by done. cbn [mbind option_bind]. rewrite Z.eqb_refl.
  unfold osize. rewrite land_not_mask by lia. unfold osize in Hal. rewrite Hal, Z.sub_0_r, Z.eqb_refl. done.
Qed.

Lemma get_with_order_inv c A B out o :
  cache_inv c A B out -> 0 <= o <= mx ->
  exists p c' A', slab_get_with_order c o = Some (p, c') /\
    ((p = NULL /\ cache_inv c' A' B out) \/
     (0 < p /\ cache_inv c' A' B ((p, o) :: out) /\
      mem c' !! p = Some (Slab (osize o) slab_magic o (o + 1)))).
Proof.
  intros Hm Ho. pose proof Hm as (Hg & _). unfold slab_get_with_order.
  rewrite (proj1 Hg), (proj2 (Z.leb_le _ _)) by lia.
  destruct (find_list_spec (Z.to_nat (mx + 1)) c A B out o Hm Ho ltac:(lia)) as (r & c1 & E & Hr). rewrite E.
  cbn [mbind option_bind]. destruct r as [i|]; [|by exists NULL, c1, A; split; [|left]].
  destruct Hr as (Hi & A' & l & p & rest & Hm1 & Hl & Hs). unfold order_list. rewrite Hl.
  cbn [mbind option_bind]. rewrite Hs.
  destruct (step_pop c1 A' B out i l p rest Hm1 ltac:(lia) Hl Hs) as (Hf1 & L1 & -> & Hm2).
  cbn [mbind option_bind]. set (c2 := set_orders c1 L1) in *. change (mem c1) with (mem c2) in *.
  pose proof Hf1 as (s & Hms & Hos & Hus). rewrite Hms. cbn [mbind option_bind].
  pose proof Hm2 as (Hg2 & _ & Ht2 & _).
  assert (Hmid : exists c3, (if negb (order s =? o) then
      c ← update_order c2 i (fun l => Some (add_total (- size s) l));
      c ← split_loop (Z.to_nat (order_max c)) c p o;
      s ← mem c !! p;
      update_order c (order s) (fun l => Some (add_total (size s) l))
    else Some c2) = Some c3 /\ mid c3 (mem c3) A' B out p o 0 /\ free_at (mem c3) o p).
  { destruct (tile_header A' B _ p i s Ht2 Hms Hos ltac:(lia)) as [Hh _].
    rewrite Hh. cbn [order size]. destruct (Z.eqb_spec i o) as [->|Hne]; cbn [negb]; [by exists c2|].
    destruct (step_total c2 (mem c2) A' B out p i false Hm2 ltac:(lia)) as (L2 & -> & Hm3).
    cbn [mbind option_bind]. set (c3 := set_orders c2 L2) in *. change (mem c2) with (mem c3) in *.
    change (order_max c3) with (order_max c2). rewrite (proj1 Hg2).
    destruct (split_loop_spec (Z.to_nat mx) c3 A' B out p i o Hm3 Hf1) as (c4 & -> & Hm4 & Hf4); [lia..|].
    cbn [mbind option_bind]. pose proof Hf4 as (s4 & Hs4 & Hos4 & _). rewrite Hs4. cbn [mbind option_bind].
    pose proof Hm4 as (_ & _ & Ht4 & _).
    destruct (tile_header A' B _ p o s4 Ht4 Hs4 Hos4 ltac:(lia)) as [-> _]. cbn [order size].
    destruct (step_total c4 (mem c4) A' B out p o true Hm4 ltac:(lia)) as (L5 & -> & Hm5).
    eexists. split; [done|]. done. }
  destruct Hmid as (c3 & -> & Hm3 & Hf3). cbn [mbind option_bind].
  destruct (step_set_used c3 A' B out p o Hm3 Hf3 Ho) as (c4 & -> & Hmem & Hm4). cbn [mbind option_bind].
  assert (Hs4 : mem c4 !! p = Some (Slab (osize o) slab_magic o (o + 1))) by (rewrite Hmem; apply lookup_insert_eq).
  assert (Ht4 : tile (mem c4) p o) by (eexists; split; [exact Hs4|split; [done|lia]]).
  rewrite (slab_assert_ok c4 A' B _ _ _ _ _ p o Hm4 eq_refl Ht4). cbn [mbind option_bind].
  exists p, c4, A'. split; [done|]. right. split_and!; [|done|done].
  by destruct (mid_facts _ _ _ _ _ _ _ _ p o Hm4 Ht4) as (_ & ? & _).
Qed.

(** *** Release *)

Lemma can_merge_spec c A B out p co D o :
  let M := scrub p (osize o) (mem c) in
  mid c M A B out p co D -> free_at M o p -> o <= mx ->
  exists q b, slab_buddy c p = Some q /\ can_merge c p q = Some b /\
    (if b then o < mx /\ q = Z.lxor p (osize o) /\ free_at M o q
     else o < mx -> ~ free_at M o (Z.lxor p (osize o))).
Proof.
  intros M Hm Hf Ho. pose proof Hm as (Hg & Hi & Ht & _). pose proof (inv_apart _ _ _ _ Hi) as Ha.
  pose proof (free_tile _ _ _ Hf Ho) as Htp. pose proof Hf as (s & Hs & Hos & _).
  pose proof (scrub_Some _ _ _ _ _ Hs) as Hcs.
  rewrite (slab_buddy_eq c p s), Hos by (done || lia). destruct (Z.eqb_spec o mx) as [->|Hne].
  { exists NULL, false. split_and!; [done|done|lia]. }
  destruct (buddy_present lb mx Hlb Hmx A B M Ht Ha p o Htp ltac:(lia)) as (o' & Hq & Hle).
  set (q := Z.lxor p (osize o)) in *. destruct (mid_facts _ _ _ _ _ _ _ _ q o' Hm Hq) as (_ & Hq0 & _).
  destruct Hq as (t & Hqt & Hot & _). pose proof (scrub_Some _ _ _ _ _ Hqt) as Hcq.
  exists q. unfold can_merge. rewrite (proj2 (Z.eqb_neq q NULL)), Hcs, Hcq by lia. cbn [mbind option_bind].
  eexists. split; [done|]. split; [done|]. unfold slab_is_free. destruct (_ && _) eqn:Hb; bools.
  - split; [lia|]. split; [done|]. exists t. split_and!; [done|congruence|done].
  - intros _ (t' & Et & Eo & Eu). rewrite Hqt in Et. simplify_eq. destruct Hb; bools; lia.
Qed.

Lemma merge_loop_spec fuel c A B out p o :
  let M := scrub p (osize o) (mem c) in
  mid c M A B out p (-1) (osize o) -> free_at M o p -> 0 <= o < mx ->
  free_at M o (Z.lxor p (osize o)) -> mx - o <= Z.of_nat fuel ->
  exists p' c' o', merge_loop fuel c p (Z.lxor p (osize o)) = Some (p', c') /\ o < o' <= mx /\
    let M' := scrub p' (osize o') (mem c') in
    mid c' M' A B out p' (-1) (osize o') /\ free_at M' o' p' /\
    (o' < mx -> ~ free_at M' o' (Z.lxor p' (osize o'))).
Proof.
  revert c p o. induction fuel as [|fuel IH]; intros c p o M Hm Hf Ho Hq Hfuel; [lia|].
  cbn [merge_loop]. destruct (step_merge c A B out p o Hm Hf Hq Ho) as (c1 & -> & Hm1 & Hf1).
  cbn [mbind option_bind]. set (p1 := Z.min p (Z.lxor p (osize o))) in *.
  destruct (can_merge_spec c1 A B out p1 _ _ (o + 1) Hm1 Hf1 ltac:(lia)) as (q & b & -> & E & Hb).
  cbn [mbind option_bind]. rewrite E. cbn [mbind option_bind]. destruct b.
  - destruct Hb as (Hlt & -> & Hq1).
    destruct (IH c1 p1 (o + 1) Hm1 Hf1 ltac:(lia) Hq1 ltac:(lia)) as (p' & c' & o' & E' & Ho' & H').
    exists p', c', o'. split; [done|]. split; [lia|done].
  - exists p1, c1, (o + 1). split; [done|]. split; [lia|done].
Qed.

Lemma in_arena c A B out co D p : mid c (mem c) A B out p co D -> tile (mem c) p mx ->
  exists A1 A2, A = A1 ++ p :: A2.
Proof.
  intros Hm Htp. destruct (mid_facts _ _ _ _ _ _ _ _ p mx Hm Htp) as (_ & _ & _ & b & Hb & H1 & H2).
  rewrite k_size in H2. assert (b = p) as -> by lia.
  by apply list_elem_of_split.
Qed.

Lemma step_return c A B out p :
  mid c (mem c) A B out p mx 0 -> free_at (mem c) mx p ->
  exists l A1 A2 a, slab_list_del p (2 ^ k) (allocated c) = Some l /\ A = A1 ++ p :: A2 /\
    exists L', update_order (set_allocated c l) mx (fun l => Some (add_total (- 2 ^ k) l)) =
      Some (set_orders (set_allocated c l) L') /\
    arena_slab_unmap (arena c) p = Some a /\
    cache_inv (set_mem (set_arena (set_orders (set_allocated c l) L') a) (delete p (mem c))) (A1 ++ A2) B out.
Proof.
  intros Hm Hf. pose proof (free_tile _ _ _ Hf ltac:(lia)) as Htp.
  destruct (in_arena _ _ _ _ _ _ _ Hm Htp) as (A1 & A2 & HA).
  pose proof Hm as (Hg & Hi & Ht & (S1 & S2 & S3) & HL & (B1 & B2 & B3) & Htd). set (M := mem c) in *.
  pose proof (inv_apart _ _ _ _ Hi) as Ha.
  destruct (list_remove_elem p (slabs (allocated c))) as (sl & Hrem & Hperm).
  { rewrite B1, HA. apply elem_of_app. left. apply elem_of_app. right. left. }
  destruct (step_total c M A B out p mx false Hm ltac:(lia)) as (L' & EL & Hm').
  rewrite k_size in EL. set (l := add_total (- 2 ^ k) (set_slabs sl (allocated c))).
  rewrite HA in Hi. destruct (src_unmap _ _ _ _ _ _ _ _ Hi) as (a & Ea & Hi').
  exists l, A1, A2, a. split; [unfold slab_list_del; by rewrite Hrem|]. split; [done|]. exists L'. split.
  { unfold update_order, order_list in *. cbn [set_allocated orders] in *.
    destruct (orders c !! Z.to_nat mx); [|done]. cbn [mbind option_bind] in *. by simplify_eq. }
  split; [done|]. unfold cache_inv. cbn [set_mem mem].
  assert (HM : forall r, r <> p -> delete p M !! r = M !! r) by (intros; by rewrite lookup_delete_ne).
  assert (HMp : delete p M !! p = None) by apply lookup_delete_eq.
  destruct Hf as (s & Hs & Hos & Hus).
  pose proof Hm' as (_ & _ & _ & _ & (L1 & L2 & L3 & L4) & _).
  split_and!; cbn [set_mem set_arena set_orders set_allocated arena orders allocated]; try apply Hg.
  - done.
  - by eapply tiling_delete.
  - split_and!; [|done|].
    + intros r t [_ Hr]%lookup_delete_Some. by apply (S1 r).
    + intros r j. rewrite S3. unfold used_at. destruct (decide (r = p)) as [->|Hne]; [|by rewrite HM].
      rewrite HMp, Hs. split; [|by intros (? & ? & _)]. intros (t & [= <-] & ? & ? & ?). lia.
  - cbn [set_orders orders] in *. split_and!; try done.
    + intros i x Hi0 Hx. destruct (L2 i x Hi0 Hx) as (N1 & N2 & N3 & N4). split_and!; try done.
      intros r. rewrite N2. unfold free_at. destruct (decide (r = p)) as [->|Hne].
      * rewrite HMp. split; [by intros [? _]|by intros [_ (? & ? & _)]].
      * rewrite HM by done. split; intros [_ Hr]; (split; [|done]); [|done].
        destruct (mid_facts _ _ _ _ _ _ _ _ r i Hm) as (_ & ? & _); [|lia].
        apply free_tile; [done|lia].
    + rewrite L3, HA, !length_app, k_size. f_equal. cbn [length]. lia.
  - unfold allocated_ok. cbn [l add_total set_slabs slabs stats used total]. split_and!; [|done|].
    + rewrite HA, <- app_assoc in B1. cbn [app] in B1.
      rewrite <- Permutation_middle, Hperm in B1. apply Permutation_cons_inv in B1. by rewrite <- app_assoc.
    + rewrite B3, u64_add_l, HA, !length_app. f_equal. cbn [length]. lia.
  - pose proof Hm' as (_ & _ & _ & _ & _ & _ & T1 & T2). split; [|done]. intros r j Hj F1 F2. exfalso.
    assert (Hback : forall x, free_at (delete p M) j x -> x <> p /\ free_at M j x).
    { intros x (t & [Hne Et]%lookup_delete_Some & ?). split; [done|]. by exists t. }
    apply Hback in F1 as [R1 F1]. apply Hback in F2 as [R2 F2]. by destruct (T1 r j Hj F1 F2).
Qed.

(** Between freeing a slab and deciding where it goes, [slab_put_with_order]
    merges it as far as it can. *)
Lemma put_merge c A B out p o q (b : bool) :
  mid c (mem c) A B out p o 0 -> free_at (mem c) o p -> 0 <= o <= mx ->
  (if b then o < mx /\ q = Z.lxor p (osize o) /\ free_at (mem c) o q
   else o < mx -> ~ free_at (mem c) o (Z.lxor p (osize o))) ->
  exists p2 c2 o2, (if b then
      c ← update_order c o (fun l => Some (add_total (- osize o) l));
      '(p, c) ← merge_loop (Z.to_nat (order_max c)) c p q;
      s ← mem c !! p;
      c ← update_order c (order s) (fun l => Some (add_total (size s) l));
      Some (p, c)
    else Some (p, c)) = Some (p2, c2) /\ 0 <= o2 <= mx /\
    let M2 := scrub p2 (osize o2) (mem c2) in
    mid c2 M2 A B out p2 o2 0 /\ free_at M2 o2 p2 /\
    (o2 < mx -> ~ free_at M2 o2 (Z.lxor p2 (osize o2))).
Proof.
  intros Hm1 Hf1 Ho Hb. pose proof Hm1 as (Hg1 & Hi1 & Ht1 & _). pose proof (inv_apart _ _ _ _ Hi1) as Ha1.
  assert (Hsc : scrub p (osize o) (mem c) = mem c) by (apply (scrub_id A B); [done|done|apply free_tile; [done|lia]]).
  destruct b; [|exists p, c, o; by rewrite Hsc].
  destruct Hb as (Hlt & -> & Hfq).
  destruct (step_total c (mem c) A B out p o false Hm1 Ho) as (L2 & -> & Hm2).
  cbn [mbind option_bind]. set (c2 := set_orders c L2) in *. change (mem c) with (mem c2) in *.
  change (order_max c2) with (order_max c). rewrite (proj1 Hg1). cbn beta iota in Hm2.
  destruct (merge_loop_spec (Z.to_nat mx) c2 A B out p o) as (p3 & c3 & o3 & -> & Ho3 & Hm3 & Hf3 & Hn3);
    [by rewrite Hsc..|lia|by rewrite Hsc|lia|].
  cbn [mbind option_bind]. pose proof Hf3 as (s3 & Hs3 & Hos3 & _). rewrite (scrub_Some _ _ _ _ _ Hs3).
  cbn [mbind option_bind]. pose proof Hm3 as (_ & _ & Ht3 & _).
  destruct (tile_header A B _ p3 o3 s3 Ht3 Hs3 Hos3 ltac:(lia)) as [-> _]. cbn [order size].
  destruct (step_total c3 _ A B out p3 o3 true Hm3 ltac:(lia)) as (L4 & -> & Hm4).
  cbn [mbind option_bind]. eexists p3, _, o3. split; [done|]. split; [lia|]. done.
Qed.

Lemma put_with_order_inv c A B out1 p o out2 :
  cache_inv c A B (out1 ++ (p, o) :: out2) ->
  exists c' A', slab_put_with_order c p = Some c' /\ cache_inv c' A' B (out1 ++ out2).
Proof.
  intros Hm. pose proof Hm as (Hg & _ & Ht & (_ & _ & S3) & _). unfold slab_put_with_order.
  assert (Hus : used_at (mem c) o p) by (apply S3, elem_of_app; right; left).
  destruct Hus as (s & Hs & Hos & Hle & Hu). assert (Htp : tile (mem c) p o) by (by exists s).
  rewrite (slab_assert_ok c A B _ _ _ _ _ p o Hm eq_refl Htp). cbn [mbind option_bind]. rewrite Hs.
  cbn [mbind option_bind]. destruct (tile_header A B _ p o s Ht Hs Hos Hle) as [Hh H0]. rewrite Hh.
  cbn [order size]. rewrite (proj1 Hg), (proj2 (Z.leb_le _ _)) by done.
  destruct (step_set_free c A B out1 p o out2 Hm) as (c1 & -> & _ & Ho & Hm1 & Hf1). cbn [mbind option_bind].
  pose proof Hm1 as (Hg1 & Hi1 & Ht1 & _). pose proof (inv_apart _ _ _ _ Hi1) as Ha1.
  assert (Hsc : scrub p (osize o) (mem c1) = mem c1)
    by (apply (scrub_id A B); [done|done|by apply free_tile]).
  destruct (can_merge_spec c1 A B (out1 ++ out2) p o 0 o) as (q & b & -> & E & Hb); [by rewrite Hsc..|done|].
  rewrite Hsc in Hb. cbn [mbind option_bind]. rewrite E. cbn [mbind option_bind].
  destruct (put_merge c1 A B (out1 ++ out2) p o q b Hm1 Hf1 Ho Hb)
    as (p2 & c2 & o2 & -> & Ho2 & Hm2 & Hf2 & Hn2). cbn [mbind option_bind].
  pose proof Hf2 as (s2 & Hs2 & Hos2 & Hu2). pose proof Hm2 as (Hg2 & _ & Ht2 & _).
  destruct (tile_header A B _ p2 o2 s2 Ht2 Hs2 Hos2 ltac:(lia)) as [Hh2 _].
  pose proof (osize_max lb mx Hlb Hmx Hk o2 Ho2) as [Hs31 H31].
  assert (Hsz2 : size s2 = osize o2) by (by rewrite Hh2). pose proof (osize_pos lb Hlb o2 ltac:(lia)).
  rewrite (slab_poison_eq c2 p2 s2), Hsz2 by (by eapply scrub_Some || lia). cbn [mbind option_bind].
  set (M2 := scrub p2 (osize o2) (mem c2)) in *. set (c3 := set_mem c2 M2).
  assert (Hm3 : mid c3 (mem c3) A B (out1 ++ out2) p2 o2 0) by done.
  change (mem c3) with M2. rewrite Hs2. cbn [mbind option_bind]. rewrite Hos2, Hsz2.
  pose proof Hm3 as (_ & Hi3 & _ & _ & HL3 & _).
  destruct (lists_lookup _ _ _ _ _ _ _ o2 HL3 Ho2) as (l & Hl & _). unfold order_list. rewrite Hl.
  cbn [mbind option_bind]. change (order_max c3) with (order_max c2). rewrite (proj1 Hg2).
  destruct (_ && _) eqn:Eb.
  - bools. clear Hos2. subst o2. rewrite !k_size. destruct (src_geometry _ _ _ _ _ _ Hi3) as [Hgs _].
    rewrite Hgs, Z.eqb_refl.
    destruct (step_return c3 A B (out1 ++ out2) p2 Hm3 Hf2) as (l' & A1 & A2 & a & -> & HA & L' & EL & Ea & Hinv).
    cbn [mbind option_bind]. rewrite EL. cbn [mbind option_bind].
    cbn [set_orders set_allocated arena]. rewrite Ea. cbn [mbind option_bind].
    eexists _, (A1 ++ A2). split; [done|]. exact Hinv.
  - destruct (step_push c3 M2 A B (out1 ++ out2) p2 o2 Hm3 Hf2 Ho2 Hn2) as (L' & -> & Hinv).
    { intros E2 l' Hl'. rewrite <- E2, Hl in Hl'. injection Hl' as <-. rewrite E2, Z.eqb_refl in Eb.
      cbn [andb] in Eb. apply negb_false_iff, bool_decide_eq_true in Eb. done. }
    eexists _, A. split; [done|]. exact Hinv.
Qed.

(** *** Sizes *)

Lemma slab_order_spec c s A B Q n : geometry c -> inv k lim s A B Q -> arena c = s -> 0 < n < 2 ^ 64 ->
  let o := slab_order c n in
  (o = mx + 1 /\ 2 ^ k < n) \/ (0 <= o <= mx /\ n <= osize o /\ (o = 0 \/ osize (o - 1) < n)).
Proof.
  intros (G1 & G2 & G3) Hi Ha Hn. destruct (src_geometry _ _ _ _ _ _ Hi) as [Hs _].
  unfold slab_order. rewrite Ha, Hs, G1, G2, G3.
  pose proof (pow2_mono lb k ltac:(lia)). pose proof (pow2_mono k 31 ltac:(lia)).
  destruct (Z.leb_spec n (2 ^ lb)).
  { right. split_and!; [lia|lia| |by left]. unfold osize. by rewrite Z.add_0_r. }
  destruct (Z.gtb_spec n (2 ^ k)).
  { left. split; [|lia]. unfold u8. apply Z.mod_small. lia. }
  right. rewrite !u32_small by (rewrite ?u32_small; lia).
  unfold CHAR_BIT, sizeof_unsigned, builtin_clz. pose proof (log2_bounds (n - 1) ltac:(lia)) as Hlog.
  assert (HL : lb <= Z.log2 (n - 1) < k).
  { split; [apply Z.log2_le_pow2; lia|apply Z.log2_lt_pow2; lia]. }
  unfold u8. rewrite Z.mod_small by lia. unfold osize.
  replace (lb + (8 * 4 - (31 - Z.log2 (n - 1)) - lb)) with (Z.log2 (n - 1) + 1) by lia.
  replace (lb + (8 * 4 - (31 - Z.log2 (n - 1)) - lb - 1)) with (Z.log2 (n - 1)) by lia.
  rewrite Z.pow_add_r, Z.pow_1_r by lia. split_and!; [lia|lia|lia|right; lia].
Qed.

(** *** Large slabs *)

Lemma allocated_add l A B out p n :
  allocated_ok l A B out -> allocated_ok (add_used n (slab_list_add p n l)) A ((p, n) :: B) out.
Proof.
  intros (A1 & A2 & A3). unfold allocated_ok.
  cbn [slab_list_add add_used add_total set_slabs slabs stats used total fmap list_fmap].
  change (zsum snd ((p, n) :: B)) with (n + zsum snd B). rewrite A1, A2, A3, !u64_add_l. split_and!.
  - apply Permutation_middle.
  - f_equal. lia.
  - f_equal. lia.
Qed.

(** A header of the order of large slabs does not concern the buddies. *)
Lemma large_frame c M M' A B B' out l p a :
  mid c M A B out NULL (-1) 0 -> inv k lim a A B' B'.*2 -> tiling A B' M' -> allocated_ok l A B' out ->
  (forall q, q <> p -> M' !! q = M !! q) ->
  (forall s, M !! p = Some s \/ M' !! p = Some s -> order s = mx + 1) ->
  mid (set_allocated (set_arena c a) l) M' A B' out NULL (-1) 0.
Proof.
  intros (H1 & H2 & H3 & (S1 & S2 & S3) & (L1 & L2 & L3 & L4) & H6 & T1 & T2) Hi Ht Hal HM Hp.
  assert (Hf : forall j q, j <= mx -> free_at M' j q <-> free_at M j q).
  { intros j q Hj. unfold free_at. destruct (decide (q = p)) as [->|Hne]; [|by rewrite HM].
    split; intros (s & Es & Eo & _); specialize (Hp s); rewrite Hp in Eo by auto; lia. }
  split_and!; cbn [set_allocated set_arena arena orders allocated]; try apply H1; try done.
  - split_and!; [|done|].
    + intros q s Hq Ho. destruct (decide (q = p)) as [->|Hne]; [rewrite (Hp s) in Ho by auto; lia|].
      rewrite HM in Hq by done. by apply (S1 q).
    + intros q j. rewrite S3. unfold used_at. destruct (decide (q = p)) as [->|Hne]; [|by rewrite HM].
      split; intros (s & Es & Eo & Hle & _); specialize (Hp s); rewrite Hp in Eo by auto; lia.
  - split_and!; try done. intros i x Hi0 Hx. destruct (L2 i x Hi0 Hx) as (N1 & N2 & N3 & N4).
    split_and!; try done. intros q. rewrite N2, Hf by lia. done.
  - split; [|done]. intros q j Hj F1 F2. apply (T1 q j Hj); apply Hf; (done || lia).
Qed.

Lemma get_large_inv c A B out n :
  cache_inv c A B out -> 0 <= n -> n + 48 <= lim ->
  exists p c', slab_get_large c n = Some (p, c') /\
    ((p = NULL /\ cache_inv c' A B out) \/
     (0 < p /\ cache_inv c' A ((p, n + 48) :: B) out /\
      mem c' !! p = Some (Slab (n + 48) slab_magic (mx + 1) 0))).
Proof.
  intros Hm Hn Hl. pose proof Hm as (Hg & Hi & Ht & _ & _ & Hal & _).
  destruct (src_geometry _ _ _ _ _ _ Hi) as (_ & _ & Hlim). unfold slab_get_large.
  rewrite slab_sizeof_eq, u64_small by lia.
  destruct (src_use _ _ _ _ _ _ (n + 48) Hi ltac:(lia)) as (r & a & -> & Hr). cbn [mbind option_bind].
  destruct Hr as [[Hr Hi1]|[Hr Hi1]].
  { rewrite (proj2 (Z.ltb_lt _ _)) by lia. eexists _, _. split; [done|]. left. split; [done|].
    by apply mid_arena. }
  rewrite (proj2 (Z.ltb_ge _ _)) by lia. cbn [set_arena arena].
  destruct (src_malloc _ _ _ _ _ _ (n + 48) Hi1 ltac:(lia)) as (p & a2 & -> & Hp).
  destruct Hp as [[-> Hi2]|[Hp Hi2]].
  { cbn [Z.eqb]. cbn [arena]. destruct (src_release _ _ _ _ _ [] _ _ Hi2) as (r3 & a3 & -> & Hi3).
    cbn [mbind option_bind]. eexists _, _. split; [done|]. left. split; [done|].
    exact (mid_arena c _ _ _ _ _ _ _ a3 Hm Hi3). }
  rewrite (proj2 (Z.eqb_neq p NULL)) by lia. pose proof (inv_apart _ _ _ _ Hi2) as Hap.
  destruct (src_blocks _ _ _ _ _ _ Hi2) as ([HpB _]%NoDup_cons & _). change (p ∉ B.*1) in HpB.
  assert (Hadd : mem c !! p = None /\
    tiling A ((p, n + 48) :: B) (<[p := Slab (n + 48) slab_magic (mx + 1) 0]> (mem c))).
  { eapply tiling_add_block; try done. rewrite slab_sizeof_eq. lia. }
  destruct Hadd as [Hnone Ht'].
  eexists p, _. split; [done|]. right. split; [done|]. unfold slab_create. cbn [order_max set_arena].
  rewrite (proj1 Hg). unfold u8. rewrite Z.mod_small by lia. split; [|cbn [set_allocated write set_mem mem]; apply lookup_insert_eq].
  apply (large_frame c (mem c) _ A B _ out _ p a2 Hm); [done|done|by apply allocated_add| |].
  - intros q Hne. cbn [set_allocated write set_mem mem]. by rewrite lookup_insert_ne.
  - intros s [Hs|Hs]; [congruence|]. cbn [set_allocated write set_mem mem] in Hs.
    rewrite lookup_insert_eq in Hs. by simplify_eq.
Qed.

Lemma scrub_large A B M p n : tiling A B M -> apart lb mx A B -> (p, n) ∈ B -> scrub p n M = M.
Proof.
  intros Ht Ha Hp. apply map_eq. intros x. rewrite scrub_lookup. destruct (_ && _) eqn:Eb; [|done]. bools.
  destruct (M !! x) as [s|] eqn:Ex; [exfalso|done].
  destruct (Z.le_gt_cases (order s) mx) as [Hle|Hgt].
  - destruct (t_ord _ _ _ _ _ Ht x s Ex Hle) as (Hz & _ & _ & _ & b & Hb & Hin).
    pose proof (osize_pos lb Hlb (order s) Hz). apply (a_mixed _ _ _ _ Ha p n b x Hp Hb); lia.
  - destruct (t_large _ _ _ _ _ Ht x s Ex Hgt) as (_ & _ & HB). destruct (a_block _ _ _ _ Ha _ _ HB).
    pose proof (a_blocks _ _ _ _ Ha p n x (size s) x Hp HB ltac:(lia) ltac:(lia)). lia.
Qed.

Lemma put_large_inv c A B1 p n B2 out :
  cache_inv c A (B1 ++ (p, n) :: B2) out ->
  exists c', slab_put_large c p = Some c' /\ cache_inv c' A (B1 ++ B2) out.
Proof.
  intros Hm. pose proof Hm as (Hg & Hi & Ht & _ & _ & (A1 & A2 & A3) & _). set (B := B1 ++ (p, n) :: B2) in *.
  pose proof (inv_apart _ _ _ _ Hi) as Hap. destruct (src_blocks _ _ _ _ _ _ Hi) as (Hnd & Hb & _).
  assert (HpB : (p, n) ∈ B) by (apply elem_of_app; right; left).
  destruct (t_block _ _ _ _ _ Ht p n HpB) as (s & Hs & Hos & Hsz & H48). rewrite slab_sizeof_eq in H48.
  destruct (t_large _ _ _ _ _ Ht p s Hs ltac:(lia)) as (_ & Hmg & _).
  destruct (src_geometry _ _ _ _ _ _ Hi) as (_ & _ & Hlim).
  assert (HB2 : B.*2 = B1.*2 ++ n :: B2.*2) by (unfold B; by rewrite fmap_app).
  rewrite HB2 in Hi. pose proof (src_quota _ _ _ _ _ _ n Hi ltac:(apply elem_of_app; right; left)) as Hnl.
  unfold slab_put_large, slab_assert. rewrite Hs. cbn [mbind option_bind].
  rewrite Hmg, Hos, (proj1 Hg), !Z.eqb_refl, (proj2 (Z.leb_le _ _)), (proj2 (Z.leb_gt _ _)) by lia.
  cbn [mbind option_bind].
  destruct (list_remove_elem p (slabs (allocated c))) as (sl & Hrem & Hperm).
  { rewrite A1. apply elem_of_app. right. apply list_elem_of_fmap. by exists (p, n). }
  unfold slab_list_del. rewrite Hrem. cbn [mbind option_bind]. rewrite Hsz.
  set (l := add_used (- n) (add_total (- n) (set_slabs sl (allocated c)))).
  change (arena (set_allocated _ _)) with (arena c).
  destruct (src_release _ _ _ _ _ _ _ _ Hi) as (r & a & -> & Hi1). cbn [mbind option_bind].
  match goal with |- context [slab_poison ?cc p] => rewrite (slab_poison_eq cc p s) by (done || lia) end.
  cbn [mbind option_bind set_mem set_arena set_allocated arena mem].
  rewrite <- fmap_app in Hi1. destruct (src_free _ _ _ _ _ _ _ _ _ Hi1) as (a2 & -> & Hi2).
  cbn [mbind option_bind]. rewrite Hsz, (scrub_large A B _ p n Ht Hap HpB). eexists. split; [done|].
  assert (Ht' : tiling A (B1 ++ B2) (delete p (mem c))) by (by eapply tiling_drop_block).
  apply (large_frame c (mem c) _ A B _ out l p a2 Hm); [done|done| | |].
  - unfold allocated_ok, l, B in *. cbn [add_used add_total set_slabs slabs stats used total].
    rewrite A2, A3, !u64_add_l, !zsum_app, fmap_app in *. cbn [fmap list_fmap] in A1.
    change (zsum snd ((p, n) :: B2)) with (n + zsum snd B2). split_and!; [|f_equal; lia|f_equal; lia].
    apply (Permutation_cons_inv (a := p)). rewrite <- Hperm, A1. simpl.
    rewrite !(assoc_L (++)). symmetry. apply Permutation_middle.
  - intros q Hne. cbn [set_mem mem]. by rewrite lookup_delete_ne.
  - intros t [Et|Et]; [congruence|]. cbn [set_mem mem] in Et. by rewrite lookup_delete_eq in Et.
Qed.

(** ** The contract *)

(** [H] are the slabs handed out, with their sizes. *)
Definition holds (c : slab_cache) (H : list (Z * Z)) : Prop :=
  exists A B out, cache_inv c A B out /\ H ≡ₚ ((fun po => (po.1, osize po.2)) <$> out) ++ B.

Lemma out_member c A B out p n :
  cache_inv c A B out -> (p, n) ∈ ((fun po => (po.1, osize po.2)) <$> out) ->
  exists o, (p, o) ∈ out /\ n = osize o /\ tile (mem c) p o.
Proof.
  intros (_ & _ & _ & (_ & _ & S3) & _) ([q o] & [= -> ->] & Hin)%list_elem_of_fmap.
  exists o. split_and!; [done|done|]. apply S3 in Hin as (s & Hs & Ho & Hle & _). by exists s.
Qed.

(** The slabs handed out are apart. *)
Lemma holds_apart c H : holds c H ->
  NoDup H.*1 /\ (forall p n, (p, n) ∈ H -> 0 < p /\ p mod 16 = 0 /\ slab_sizeof <= n) /\
  (forall p n q m x, (p, n) ∈ H -> (q, m) ∈ H -> p <= x < p + n -> q <= x < q + m -> p = q).
Proof.
  intros (A & B & out & Hm & HP). pose proof Hm as (Hg & Hi & Ht & (S1 & S2 & S3) & _).
  pose proof (inv_apart _ _ _ _ Hi) as Ha. destruct (src_blocks _ _ _ _ _ _ Hi) as (Hnd & Hb & _).
  split_and!.
  - rewrite HP, fmap_app. apply NoDup_app. split_and!.
    + rewrite <- list_fmap_compose. apply NoDup_fmap_2_strong; [|done]. intros [p o] [q o'] H1 H2 E.
      simpl in E. subst q. apply S3 in H1 as (s & Es & Eo & _). apply S3 in H2 as (s' & Es' & Eo' & _).
      f_equal. congruence.
    + intros p ([p' n] & -> & Hp)%list_elem_of_fmap ([q m] & E & Hq)%list_elem_of_fmap. simpl in E. subst p'.
      apply (out_member _ _ _ _ _ _ Hm) in Hp as (o & _ & -> & Htp).
      destruct (mid_facts _ _ _ _ _ _ _ _ _ _ Hm Htp) as (Ho & _ & _ & b & Hb' & Hin).
      pose proof (osize_pos lb Hlb o ltac:(lia)). destruct (a_block _ _ _ _ Ha _ _ Hq).
      apply (a_mixed _ _ _ _ Ha q m b q Hq Hb'); cbn [fst] in *; lia.
    + done.
  - intros p n Hin. rewrite HP in Hin. apply elem_of_app in Hin as [Hin|Hin].
    + apply (out_member _ _ _ _ _ _ Hm) in Hin as (o & _ & -> & Htp).
      destruct (mid_facts _ _ _ _ _ _ _ _ _ _ Hm Htp) as (Ho & Hp0 & Hal & _).
      pose proof (osize_pos lb Hlb o ltac:(lia)). rewrite slab_sizeof_eq. split_and!; [done| |lia].
      change 16 with (2 ^ 4). by apply (mod_pow_le p 4 (lb + o)); [lia|].
    + destruct (Hb p n Hin) as (H1 & H2 & H3). destruct (t_block _ _ _ _ _ Ht p n Hin) as (s & _ & _ & _ & H48).
      done.
  - assert (Hsep : forall p o q m x, tile (mem c) p o -> (q, m) ∈ B -> p <= x < p + osize o -> ~ q <= x < q + m).
    { intros p o q m x Htp Hq Hx Hx'.
      destruct (mid_facts _ _ _ _ _ _ _ _ _ _ Hm Htp) as (Ho & _ & _ & b & Hb' & Hin).
      apply (a_mixed _ _ _ _ Ha q m b x Hq Hb' Hx'). lia. }
    intros p n q m x Hp Hq Hx Hx'. rewrite HP in Hp, Hq. apply elem_of_app in Hp as [Hp|Hp], Hq as [Hq|Hq].
    + apply (out_member _ _ _ _ _ _ Hm) in Hp as (o & _ & -> & Htp), Hq as (o' & _ & -> & Htq).
      by apply (t_disj _ _ _ _ _ Ht p q o o' x).
    + apply (out_member _ _ _ _ _ _ Hm) in Hp as (o & _ & -> & Htp). by destruct (Hsep p o q m x).
    + apply (out_member _ _ _ _ _ _ Hm) in Hq as (o & _ & -> & Htq). by destruct (Hsep q o p n x).
    + by apply (a_blocks _ _ _ _ Ha p n q m x).
Qed.

Lemma real_size_eq c A B out n : cache_inv c A B out -> 0 <= n -> n + 48 < 2 ^ 64 ->
  let o := slab_order c (n + 48) in
  slab_real_size c n = Some (if o =? mx + 1 then n + 48 else osize o).
Proof.
  intros (Hg & Hi & _) Hn Hlt. unfold slab_real_size. rewrite slab_sizeof_eq, u64_small by lia.
  destruct (slab_order_spec c (arena c) A B _ (n + 48) Hg Hi eq_refl ltac:(lia)) as [[-> _]|[Ho _]];
    rewrite (proj1 Hg); [by rewrite Z.eqb_refl|].
  rewrite (proj2 (Z.eqb_neq _ _)) by lia. by rewrite slab_order_size_eq by (done || lia).
Qed.

Lemma slab_get_holds c H sz :
  holds c H -> 0 <= sz -> sz + 48 <= 2 ^ k \/ sz + 48 <= lim ->
  exists n p c', slab_real_size c sz = Some n /\ slab_get c sz = Some (p, c') /\
    sz + 48 <= n /\ n <= Z.max (2 ^ k) (sz + 48) /\ (sz + 48 <= 2 ^ k -> n = 2 ^ lb \/ n < 2 * (sz + 48)) /\
    ((p = NULL /\ holds c' H) \/
     (0 < p /\ holds c' ((p, n) :: H) /\ (n <= 2 ^ k -> p mod n = 0) /\
      exists s, mem c' !! p = Some s /\ size s = n)).
Proof.
  intros (A & B & out & Hm & HP) Hs Hlim. pose proof Hm as (Hg & Hi & _).
  destruct (src_geometry _ _ _ _ _ _ Hi) as (_ & _ & Hl42). pose proof (pow2_mono k 31 ltac:(lia)).
  pose proof (real_size_eq c A B out sz Hm Hs ltac:(lia)) as Hreal. cbn zeta in Hreal.
  pose proof (slab_order_spec c (arena c) A B _ (sz + 48) Hg Hi eq_refl ltac:(lia)) as Ho. cbn zeta in Ho.
  unfold slab_get. rewrite slab_sizeof_eq, u64_small by lia. rewrite (proj1 Hg).
  set (o := slab_order c (sz + 48)) in *.
  destruct Ho as [[Eo Hbig]|(Ho & Hfit & Hleast)].
  - rewrite Eo, Z.eqb_refl in Hreal |- *. exists (sz + 48).
    destruct (get_large_inv c A B out sz Hm Hs ltac:(lia)) as (p & c' & -> & Hp). cbn [mbind option_bind].
    destruct Hp as [[-> Hm']|(Hp & Hm' & Hmem)].
    + eexists _, _. split_and!; [done|done|lia|lia|lia|]. left. split; [done|]. by exists A, B, out.
    + rewrite (proj2 (Z.eqb_neq p NULL)) by lia. rewrite Hmem. cbn [mbind option_bind].
      assert (Hreal' : slab_real_size c' sz = Some (sz + 48)).
      { rewrite (real_size_eq c' _ _ _ sz Hm') by lia. cbn zeta. pose proof Hm' as (Hg' & Hi' & _).
        destruct (slab_order_spec c' (arena c') _ _ _ (sz + 48) Hg' Hi' eq_refl ltac:(lia)) as [[-> _]|(Hx & Hy & _)].
        - by rewrite Z.eqb_refl.
        - pose proof (osize_max lb mx Hlb Hmx Hk _ Hx). lia. }
      rewrite Hreal'. cbn [mbind option_bind size]. rewrite Z.eqb_refl.
      eexists _, _. split_and!; [done|done|lia|lia|lia|]. right. split_and!; [done| |lia|by eexists].
      exists A, ((p, sz + 48) :: B), out. split; [done|]. rewrite HP. apply Permutation_middle.
  - rewrite (proj2 (Z.eqb_neq o (mx + 1))) in Hreal |- * by lia. exists (osize o).
    destruct (get_with_order_inv c A B out o Hm Ho) as (p & c' & A' & -> & Hp). cbn [mbind option_bind].
    assert (Hb : sz + 48 <= 2 ^ k -> osize o = 2 ^ lb \/ osize o < 2 * (sz + 48)).
    { intros _. destruct Hleast as [->|Hlt]; [left; unfold osize; by rewrite Z.add_0_r|].
      destruct (decide (o = 0)) as [->|Hne]; [left; unfold osize; by rewrite Z.add_0_r|right].
      pose proof (osize_succ lb Hlb (o - 1) ltac:(lia)) as E. rewrite Z.sub_add in E. lia. }
    destruct Hp as [[-> Hm']|(Hp & Hm' & Hmem)].
    + eexists _, _. split_and!; [done|done|lia|pose proof (osize_max lb mx Hlb Hmx Hk o Ho); lia|done|]. left. split; [done|]. by exists A', B, out.
    + rewrite (proj2 (Z.eqb_neq p NULL)) by lia. rewrite Hmem. cbn [mbind option_bind].
      assert (Hreal' : slab_real_size c' sz = Some (osize o)).
      { rewrite (real_size_eq c' _ _ _ sz Hm') by lia. cbn zeta. pose proof Hm' as (Hg' & Hi' & _).
        destruct (src_geometry _ _ _ _ _ _ Hi) as [G1 _]. destruct (src_geometry _ _ _ _ _ _ Hi') as [G2 _].
        assert (Eo : slab_order c' (sz + 48) = o).
        { unfold o, slab_order. destruct Hg as (-> & -> & ->), Hg' as (-> & -> & ->). by rewrite G1, G2. }
        rewrite Eo. by rewrite (proj2 (Z.eqb_neq o (mx + 1))) by lia. }
      rewrite Hreal'. cbn [mbind option_bind size]. rewrite Z.eqb_refl.
      eexists _, _. split_and!; [done|done|lia|pose proof (osize_max lb mx Hlb Hmx Hk o Ho); lia|done|]. right. split_and!; [done| | |by eexists].
      * exists A', B, ((p, o) :: out). split; [done|]. cbn [fmap list_fmap fst snd]. by rewrite HP.
      * intros _. assert (Htp : tile (mem c') p o) by (eexists; split; [exact Hmem|split; [done|lia]]).
        by destruct (mid_facts _ _ _ _ _ _ _ _ _ _ Hm' Htp) as (_ & _ & ? & _).
Qed.

Lemma slab_put_holds c H1 p n H2 :
  holds c (H1 ++ (p, n) :: H2) -> exists c', slab_put c p = Some c' /\ holds c' (H1 ++ H2).
Proof.
  intros (A & B & out & Hm & HP). pose proof Hm as (Hg & Hi & Ht & (_ & _ & S3) & _).
  assert (Hin : (p, n) ∈ ((fun po => (po.1, osize po.2)) <$> out) ++ B)
    by (rewrite <- HP; apply elem_of_app; right; left).
  rewrite <- Permutation_middle in HP. unfold slab_put. apply elem_of_app in Hin as [Hin|Hin].
  - apply (out_member _ _ _ _ _ _ Hm) in Hin as (o & Hin & -> & s & Hs & Hos & Hle).
    apply list_elem_of_split in Hin as (out1 & out2 & ->). rewrite Hs. cbn [mbind option_bind].
    rewrite Hos, (proj1 Hg), (proj2 (Z.leb_le _ _)) by done.
    destruct (put_with_order_inv c A B out1 p o out2 Hm) as (c' & A' & -> & Hm').
    exists c'. split; [done|]. exists A', B, (out1 ++ out2). split; [done|].
    rewrite fmap_app in HP. cbn [fmap list_fmap fst snd] in HP.
    rewrite <- Permutation_middle in HP. apply Permutation_cons_inv in HP. by rewrite fmap_app.
  - destruct (t_block _ _ _ _ _ Ht p n Hin) as (s & Hs & Hos & _). rewrite Hs. cbn [mbind option_bind].
    rewrite Hos, (proj1 Hg), (proj2 (Z.leb_gt _ _)) by lia.
    apply list_elem_of_split in Hin as (B1 & B2 & ->).
    destruct (put_large_inv c A B1 p n B2 out Hm) as (c' & -> & Hm').
    exists c'. split; [done|]. exists A, (B1 ++ B2), out. split; [done|].
    rewrite (assoc_L (++)), <- Permutation_middle in HP. apply Permutation_cons_inv in HP.
    by rewrite (assoc_L (++)).
Qed.

(** *** Statistics *)

(** What a slab adds to [huge] and to [total] in [slab_cache_check]. *)
Definition huge_of (M : gmap Z slab) (p : Z) : Z :=
  match M !! p with Some s => if order s =? mx + 1 then size s else 0 | None => 0 end.
Definition total_of (M : gmap Z slab) (p : Z) : Z :=
  match M !! p with Some s => if order s =? mx + 1 then size s else 2 ^ k | None => 0 end.

Lemma check_allocated_spec c A B M l h u t :
  geometry c -> tiling A B M -> mem c = M -> (forall p, p ∈ l -> is_Some (M !! p)) ->
  check_allocated c l (u64 h) (u64 u) (u64 t) true =
  Some (u64 (h + zsum (huge_of M) l), u64 (u + zsum (huge_of M) l), u64 (t + zsum (total_of M) l), true).
Proof.
  intros Hg Ht HM. revert h u t. induction l as [|p l IH]; intros h u t Hl.
  { cbn [check_allocated zsum foldr]. by rewrite !Z.add_0_r. }
  destruct (Hl p ltac:(left)) as [s Hs]. cbn [check_allocated]. rewrite HM, Hs. cbn [mbind option_bind].
  rewrite (proj1 Hg). assert (Hl' : forall q, q ∈ l -> is_Some (M !! q)) by (intros; apply Hl; by right).
  assert (Eh : huge_of M p = if order s =? mx + 1 then size s else 0) by (unfold huge_of; by rewrite Hs).
  assert (Et : total_of M p = if order s =? mx + 1 then size s else 2 ^ k) by (unfold total_of; by rewrite Hs).
  change (zsum (huge_of M) (p :: l)) with (huge_of M p + zsum (huge_of M) l).
  change (zsum (total_of M) (p :: l)) with (total_of M p + zsum (total_of M) l).
  rewrite Eh, Et. destruct (Z.le_gt_cases (order s) mx) as [Hle|Hgt].
  - destruct (t_ord _ _ _ _ _ Ht p s Hs Hle) as (_ & -> & -> & _).
    rewrite (proj2 (Z.eqb_neq _ _)) by lia. rewrite !slab_order_size_eq by (done || lia).
    cbn [mbind option_bind]. rewrite !Z.eqb_refl, k_size, u64_add_l. cbn [andb].
    rewrite IH by done. by rewrite !Z.add_0_l, Z.add_assoc.
  - destruct (t_large _ _ _ _ _ Ht p s Hs ltac:(lia)) as (-> & -> & _).
    rewrite !Z.eqb_refl, !u64_add_l. cbn [andb]. rewrite IH by done. by rewrite !Z.add_assoc.
Qed.

Lemma check_orders_spec c i l M out cur co (h u : Z) :
  geometry c -> 0 <= i -> i + Z.of_nat (length l) <= mx + 1 ->
  (forall j x, l !! j = Some x -> list_ok M out cur co (i + Z.of_nat j) x) ->
  check_orders c i l (u64 h) (u64 u) true =
  Some (u64 (h + zsum (fun l => total (stats l)) l), u64 (u + zsum (fun l => used (stats l)) l), true).
Proof.
  intros Hg. revert i h u. induction l as [|x l IH]; intros i h u Hi Hlen Hok.
  { cbn [check_orders zsum foldr]. by rewrite !Z.add_0_r. }
  cbn [length] in Hlen. cbn [check_orders]. rewrite slab_order_size_eq by (done || lia). cbn [mbind option_bind].
  assert (E8 : u8 (osize i) = 0).
  { unfold u8, osize. replace (lb + i) with ((lb + i - 8) + 8) by lia. rewrite Z.pow_add_r by lia.
    apply Z.mod_mul. lia. }
  rewrite E8, slab_order_size_eq by (done || lia). cbn [mbind option_bind].
  destruct (Hok 0%nat x eq_refl) as (_ & _ & Hu & Ht). rewrite Z.add_0_r in Hu, Ht.
  assert (Hmod : forall y, u64 (osize i * y) mod osize 0 = 0).
  { intros y. unfold u64, osize. rewrite Z.add_0_r. rewrite Z.mod_mod_divide.
    - replace (lb + i) with (i + lb) by lia. rewrite Z.pow_add_r by lia.
      replace (2 ^ i * 2 ^ lb * y) with (2 ^ i * y * 2 ^ lb) by lia. apply Z.mod_mul.
      pose proof (pow2_pos lb ltac:(lia)). lia.
    - exists (2 ^ (64 - lb)). rewrite <- Z.pow_add_r by lia. f_equal. lia. }
  rewrite Hu, Ht, !Hmod. cbn [Z.eqb andb]. rewrite <- Hu, <- Ht, !u64_add_l.
  rewrite (IH (i + 1)); [|lia|lia|].
  - cbn [zsum foldr]. by rewrite !Z.add_assoc.
  - intros j y Hy. replace (i + 1 + Z.of_nat j) with (i + Z.of_nat (S j)) by lia. by apply Hok.
Qed.

(** The first header of a slab of the arena is at its start. *)
Lemma base_header A B M b : tiling A B M -> apart lb mx A B -> b ∈ A ->
  exists s, M !! b = Some s /\ 0 <= order s <= mx.
Proof.
  intros Ht Ha Hb. pose proof (pow2_pos k ltac:(lia)).
  destruct (t_cover _ _ _ _ _ Ht b b Hb ltac:(lia)) as (p & o & Hp & Hx).
  destruct (tile_facts lb mx Hlb Hmx A B M Ht Ha p o Hp) as (Ho & _ & Hal & _).
  destruct (a_slab _ _ _ _ Ha b Hb) as [_ Hbk].
  destruct (aligned_nested p b (lb + o) k b) as [E _]; [lia|done|done|done|lia|].
  assert (p = b) as -> by lia. destruct Hp as (s & Hs & Hos & _). exists s. split; [done|lia].
Qed.

Lemma check_holds c H : holds c H ->
  slab_cache_check c = Some true /\ slab_cache_used c = u64 (zsum snd H).
Proof.
  intros (A & B & out & Hm & HP). pose proof Hm as (Hg & Hi & Ht & _ & (L1 & L2 & L3 & L4) & (A1 & A2 & A3) & _).
  pose proof (inv_apart _ _ _ _ Hi) as Ha.
  assert (HA : forall p, p ∈ A -> huge_of (mem c) p = 0 /\ total_of (mem c) p = 2 ^ k).
  { intros p Hp. destruct (base_header A B _ p Ht Ha Hp) as (s & Hs & Ho). unfold huge_of, total_of.
    rewrite Hs, (proj2 (Z.eqb_neq _ _)) by lia. done. }
  assert (HB : forall p, p ∈ B -> huge_of (mem c) p.1 = p.2 /\ total_of (mem c) p.1 = p.2).
  { intros [p n] Hp. destruct (t_block _ _ _ _ _ Ht p n Hp) as (s & Hs & Ho & Hsz & _).
    unfold huge_of, total_of. cbn [fst snd]. rewrite Hs, Ho, Z.eqb_refl. done. }
  assert (Eh : zsum (huge_of (mem c)) (slabs (allocated c)) = zsum snd B).
  { rewrite (zsum_perm _ _ _ A1), zsum_app, zsum_fmap.
    rewrite (zsum_ext _ (fun _ => 0) A), zsum_const, (zsum_ext _ snd B); [lia|..]; intros; [by apply HB|by apply HA]. }
  assert (Et : zsum (total_of (mem c)) (slabs (allocated c)) = 2 ^ k * Z.of_nat (length A) + zsum snd B).
  { rewrite (zsum_perm _ _ _ A1), zsum_app, zsum_fmap.
    rewrite (zsum_ext _ (fun _ => 2 ^ k) A), zsum_const, (zsum_ext _ snd B); [lia|..]; intros; [by apply HB|by apply HA]. }
  split.
  - unfold slab_cache_check.
    pose proof (check_allocated_spec c A B (mem c) (slabs (allocated c)) 0 0 0 Hg Ht eq_refl) as E1.
    change (u64 0) with 0 in E1. rewrite E1.
    2:{ intros p Hp. rewrite A1 in Hp. apply elem_of_app in Hp as [Hp|([q n] & -> & Hp)%list_elem_of_fmap].
        - destruct (base_header A B _ p Ht Ha Hp) as (s & Hs & _). by exists s.
        - destruct (t_block _ _ _ _ _ Ht q n Hp) as (s & Hs & _). by exists s. }
    cbn [mbind option_bind]. rewrite Eh, Et, A3, !Z.add_0_l, Z.eqb_refl. cbn [andb].
    pose proof (check_orders_spec c 0 (orders c) (mem c) out NULL (-1) 0 (zsum snd B) Hg) as E2.
    change (u64 0) with 0 in E2. rewrite E2; [|lia|lia|].
    2:{ intros j x Hx. rewrite Z.add_0_l. assert ((j < length (orders c))%nat) by (by eapply lookup_lt_Some).
        apply L2; [lia|]. by rewrite Nat2Z.id. }
    cbn [mbind option_bind]. rewrite A2, Z.add_0_l, L3, Z.sub_0_r, u64_add_l, u64_add_r, Z.eqb_refl.
    rewrite (Z.add_comm (zsum snd B)). rewrite (u64_eq_add _ _ _ L4), Z.eqb_refl. done.
  - unfold slab_cache_used. rewrite A2, (zsum_perm _ _ _ HP), zsum_app, zsum_fmap. done.
Qed.

(** With nothing handed out, every slab of the arena is whole and at most one is
    kept. *)
Lemma all_merged c A B out : cache_inv c A B out -> out = [] -> (length A <= 1)%nat /\
  forall b, b ∈ A -> mem c !! b = Some (Slab (2 ^ k) slab_magic mx 0).
Proof.
  intros Hm ->. pose proof Hm as (Hg & Hi & Ht & (S1 & S2 & S3) & HL & _ & T1 & T2).
  pose proof (inv_apart _ _ _ _ Hi) as Ha.
  assert (Hfree : forall p o, tile (mem c) p o -> free_at (mem c) o p).
  { intros p o (s & Hs & Ho & Hle). exists s. split_and!; [done|done|].
    destruct (S1 p s Hs ltac:(lia)) as [|E]; [done|exfalso].
    apply (not_elem_of_nil (p, o)), S3. exists s. split_and!; [done|done|done|lia]. }
  assert (Hpos : forall p o, tile (mem c) p o -> p <> NULL).
  { intros p o Hp. destruct (mid_facts _ _ _ _ _ _ _ _ _ _ Hm Hp). lia. }
  (* a free slab of an order below the largest has a smaller free slab in its buddy *)
  assert (Hdesc : forall n o p, (Z.to_nat o < n)%nat -> o < mx -> tile (mem c) p o -> False).
  { induction n as [|n IH]; intros o p Hn Ho Hp; [lia|].
    destruct (mid_facts _ _ _ _ _ _ _ _ _ _ Hm Hp) as (Ho0 & _).
    destruct (buddy_present lb mx Hlb Hmx A B _ Ht Ha p o Hp Ho) as (o' & Hq & Hle).
    destruct (mid_facts _ _ _ _ _ _ _ _ _ _ Hm Hq) as (Ho0' & _).
    destruct (Z.eq_dec o' o) as [->|Hne]; [|by apply (IH o' _ ltac:(lia) ltac:(lia) Hq)].
    destruct (T1 p o ltac:(lia) (Hfree _ _ Hp) (Hfree _ _ Hq)) as [E|E]; [by apply (Hpos p o)|by apply (Hpos _ o Hq)]. }
  assert (Hbase : forall b, b ∈ A -> mem c !! b = Some (Slab (2 ^ k) slab_magic mx 0)).
  { intros b Hb. destruct (base_header A B _ b Ht Ha Hb) as (s & Hs & Ho).
    assert (Hos : order s = mx).
    { destruct (Z.eq_dec (order s) mx) as [|Hne]; [done|exfalso].
      apply (Hdesc (S (Z.to_nat (order s))) (order s) b); [lia|lia|exists s; split_and!; [done|done|lia]]. }
    destruct (tile_header A B _ b mx s Ht Hs Hos ltac:(lia)) as [Hh _].
    destruct (Hfree b mx ltac:(exists s; split_and!; [done|done|lia])) as (s' & Hs' & _ & Hu). rewrite Hs in Hs'. simplify_eq.
    rewrite Hs, Hh, Hu, k_size. done. }
  split; [|done].
  destruct (lists_lookup _ _ _ _ _ _ _ mx HL ltac:(lia)) as (l & Hl & N1 & N2 & _).
  pose proof (T2 l Hl) as Hlen. transitivity (length (slabs l)); [|done].
  apply submseteq_length, NoDup_submseteq; [apply (a_nodup _ _ _ _ Ha)|]. intros b Hb. apply N2.
  split; [|eexists; split; [by apply Hbase|done]]. destruct (a_slab _ _ _ _ Ha b Hb). lia.
Qed.

(** *** Creation and destruction *)

Lemma create_inv a : inv k lim a [] [] [] ->
  cache_inv (SlabCache a (2 ^ lb) lb mx slab_list_create
    (replicate (Z.to_nat (mx + 1)) slab_list_create) ∅) [] [] [].
Proof.
  intros Hi. set (L := replicate _ _).
  assert (HL : forall l, l ∈ L -> l = slab_list_create) by (intros l [E _]%elem_of_replicate; by rewrite E).
  assert (Hz : forall f, f slab_list_create = 0 -> zsum f L = 0).
  { intros f Hf. rewrite (zsum_ext f (fun _ => 0)), zsum_const; [lia|]. by intros l ->%HL. }
  split_and!; try done.
  - split; try done; [by intros p q o o' x (s & ? & _)|by intros b x ?%elem_of_nil|by intros p n ?%elem_of_nil].
  - split_and!; [by intros p s ?|constructor|]. intros p o. split; [by intros ?%elem_of_nil|by intros (s & ? & _)].
  - split_and!.
    + apply length_replicate.
    + intros i l Hi0 Hl%list_elem_of_lookup_2%HL. subst l. split_and!; cbn [slab_list_create slabs].
      * constructor.
      * intros p. split; [by intros ?%elem_of_nil|by intros [_ (s & ? & _)]].
      * cbn. by rewrite Z.mul_0_r.
      * cbn [length]. rewrite (proj2 (Z.eqb_neq i (-1))) by lia. cbn. by rewrite Z.mul_0_r.
    + rewrite Hz by done. cbn [length]. by rewrite Z.mul_0_r.
    + by rewrite Hz.
  - split_and!; try done. cbn. by rewrite Z.mul_0_r.
  - split; [by intros p o _ (s & ? & _)|]. intros l Hl%list_elem_of_lookup_2%HL. subst l. cbn. lia.
Qed.

Lemma destroy_loop_inv l (c : slab_cache) A B :
  order_max c = mx -> inv k lim (arena c) A B B.*2 -> l ≡ₚ A ++ B.*1 ->
  (forall p, p ∈ A -> exists s, mem c !! p = Some s /\ order s <= mx) ->
  (forall p n, (p, n) ∈ B -> exists s, mem c !! p = Some s /\ order s = mx + 1 /\ size s = n) ->
  exists c', destroy_slabs c l = Some c' /\ inv k lim (arena c') [] [] [].
Proof.
  revert c A B. induction l as [|p l IH]; intros c A B Hmax Hi Hl HA HB.
  { symmetry in Hl. apply Permutation_nil_r, app_nil in Hl as [-> HB0].
    apply fmap_nil_inv in HB0 as ->. exists c. done. }
  destruct (src_slabs _ _ _ _ _ _ Hi) as [NA _]. destruct (src_blocks _ _ _ _ _ _ Hi) as (NB & HBp & _ & Hmix).
  assert (Hsep : forall q, q ∈ A -> q ∉ B.*1).
  { intros q Hq ([r n] & -> & Hr)%list_elem_of_fmap. destruct (HBp r n Hr) as (_ & _ & Hn).
    destruct (src_geometry _ _ _ _ _ _ Hi) as (_ & Hk16 & _). pose proof (pow2_pos k ltac:(lia)).
    apply (Hmix r n r r Hr Hq); lia. }
  assert (Hp : p ∈ A ++ B.*1) by (rewrite <- Hl; left). cbn [destroy_slabs].
  apply elem_of_app in Hp as [Hp|Hp].
  - destruct (HA p Hp) as (s & Hs & Ho). rewrite Hs. cbn [mbind option_bind].
    rewrite Hmax, (proj2 (Z.eqb_neq _ _)) by lia. pose proof (Hsep p Hp) as Hnb.
    apply list_elem_of_split in Hp as (A1 & A2 & ->).
    destruct (src_unmap _ _ _ _ _ _ _ _ Hi) as (a & -> & Hi'). cbn [mbind option_bind].
    destruct (nodup_split _ _ _ NA) as [_ HA'].
    apply (IH _ (A1 ++ A2) B); cbn [set_mem set_arena order_max arena mem]; try done.
    + rewrite <- app_assoc in Hl. cbn [app] in Hl. rewrite <- Permutation_middle in Hl.
      apply Permutation_cons_inv in Hl. by rewrite <- app_assoc.
    + intros q [Hq Hne]%HA'. rewrite lookup_delete_ne by done. by apply HA.
    + intros q n Hq. rewrite lookup_delete_ne; [by apply HB|]. intros ->. apply Hnb, list_elem_of_fmap.
      by exists (q, n).
  - pose proof Hp as ([p' n] & E & Hin)%list_elem_of_fmap. simpl in E. subst p'.
    destruct (HB p n Hin) as (s & Hs & Ho & Hsz). rewrite Hs. cbn [mbind option_bind].
    rewrite Hmax, Ho, Z.eqb_refl, Hsz. apply list_elem_of_split in Hin as (B1 & B2 & ->).
    rewrite !fmap_app in Hi. cbn [fmap list_fmap snd] in Hi.
    destruct (src_release _ _ _ _ _ _ _ _ Hi) as (r & a & -> & Hi1). cbn [mbind option_bind].
    destruct (src_free _ _ _ _ _ _ _ _ _ Hi1) as (a2 & -> & Hi2). cbn [mbind option_bind].
    rewrite fmap_app in NB, Hl. cbn [fmap list_fmap fst] in NB, Hl.
    destruct (nodup_split _ _ _ NB) as [_ HB'].
    apply (IH _ A (B1 ++ B2)); cbn [set_mem set_arena order_max arena mem]; try done.
    + by rewrite fmap_app.
    + rewrite fmap_app. rewrite (assoc_L (++)), <- Permutation_middle in Hl.
      apply Permutation_cons_inv in Hl. by rewrite (assoc_L (++)).
    + intros q Hq. rewrite lookup_delete_ne; [by apply HA|]. intros ->. by apply (Hsep q Hq).
    + intros q m Hq. assert (Hq' : q ∈ B1.*1 ++ B2.*1).
      { rewrite <- fmap_app. apply list_elem_of_fmap. by exists (q, m). }
      apply HB' in Hq' as [_ Hne]. rewrite lookup_delete_ne by done. apply HB.
      apply elem_of_app in Hq as [?|?]; apply elem_of_app; [by left|right; by right].
Qed.

Lemma destroy_holds c H : holds c H ->
  exists a, slab_cache_destroy c = Some a /\ inv k lim a [] [] [].
Proof.
  intros (A & B & out & Hm & _). pose proof Hm as (Hg & Hi & Ht & _ & _ & (A1 & _) & _).
  pose proof (inv_apart _ _ _ _ Hi) as Ha. unfold slab_cache_destroy.
  destruct (destroy_loop_inv (slabs (allocated c)) c A B) as (c' & -> & Hi'); try done.
  - apply Hg.
  - intros p Hp. destruct (base_header A B _ p Ht Ha Hp) as (s & Hs & Ho). exists s. split; [done|lia].
  - intros p n Hp. destruct (t_block _ _ _ _ _ Ht p n Hp) as (s & ? & ? & ? & _). by exists s.
  - by exists (arena c').
Qed.

(** ** Properties *)

(** C1. [slab_get] terminates without a failed assertion and returns NULL, with
    the slabs handed out unchanged, or a new slab of the size [slab_real_size]
    announces: it holds the request and the header, is apart from every slab
    handed out before, and if it is not larger than a slab of the arena it is
    aligned to its size and less than twice what was asked for (or of the
    smallest order). *)
Theorem slab_get_correct c H sz :
  holds c H -> 0 <= sz -> sz + 48 <= 2 ^ k \/ sz + 48 <= lim ->
  exists n p c', slab_real_size c sz = Some n /\ slab_get c sz = Some (p, c') /\
    sz + slab_sizeof <= n /\ (sz + 48 <= 2 ^ k -> n = 2 ^ lb \/ n < 2 * (sz + 48)) /\
    ((p = NULL /\ holds c' H) \/
     (0 < p /\ holds c' ((p, n) :: H) /\ (n <= 2 ^ k -> p mod n = 0) /\
      (forall q m x, (q, m) ∈ H -> p <= x < p + n -> ~ q <= x < q + m) /\
      exists s, mem c' !! p = Some s /\ size s = n)).
Proof.
  intros Hh Hs Hl. destruct (slab_get_holds c H sz Hh Hs Hl) as (n & p & c' & E1 & E2 & H1 & _ & H2 & H3).
  exists n, p, c'. rewrite slab_sizeof_eq. split_and!; try done.
  destruct H3 as [?|(Hp & Hh' & Hal & Hsz)]; [by left|right]. split_and!; try done.
  intros q m x Hq Hx Hx'. destruct (holds_apart c' _ Hh') as (Hnd & _ & Hd).
  assert (p = q) as -> by (apply (Hd p n q m x); [left|by right|done|done]).
  cbn [fmap list_fmap] in Hnd. apply NoDup_cons in Hnd as [Hn _]. apply Hn, list_elem_of_fmap.
  by exists (q, m).
Qed.

(** C2. [slab_put] takes back any slab that is handed out: no assertion fails,
    the buddy it reads has a header, the loop of merges ends, and the other slabs
    stay as they are. *)
Theorem slab_put_correct c H1 p n H2 :
  holds c (H1 ++ (p, n) :: H2) -> exists c', slab_put c p = Some c' /\ holds c' (H1 ++ H2).
Proof. apply slab_put_holds. Qed.

(** A cache with no slab handed out keeps at most one slab of the arena, whole. *)
Lemma nothing_held c :
  holds c [] -> exists A, (length A <= 1)%nat /\ inv k lim (arena c) A [] [] /\
    slabs (allocated c) = A /\ forall b, b ∈ A -> mem c !! b = Some (Slab (2 ^ k) slab_magic mx 0).
Proof.
  intros (A & B & out & Hm & HP). symmetry in HP. apply Permutation_nil_r, app_nil in HP as [Ho ->].
  apply fmap_nil_inv in Ho as ->. destruct (all_merged c A [] [] Hm eq_refl) as [Hlen Hb].
  destruct Hm as (_ & Hi & _ & _ & _ & (HA & _) & _). cbn [fmap list_fmap] in HA.
  rewrite app_nil_r in HA. exists A. split_and!; try done.
  destruct A as [|b [|b' A]]; [by apply Permutation_nil_r|by apply Permutation_singleton_r|simpl in Hlen; lia].
Qed.

(** Any calls of a client keep the cache well formed, with what the client holds
    handed out. *)
Lemma run_calls_holds l : Forall (cache_call_ok k lim) l -> forall c H, holds c H ->
  exists c' H', run_calls c H.*1 l = Some (c', H'.*1) /\ holds c' H'.
Proof.
  induction 1 as [|x l Hx _ IH]; intros c H Hh; [by exists c, H|]. destruct x as [sz|i]; cbn [run_calls].
  - destruct Hx as [H0 Hl]. destruct (slab_get_holds c H sz Hh H0 Hl) as (n & p & c' & _ & -> & _ & _ & _ & Hp).
    cbn [mbind option_bind]. destruct Hp as [[-> Hh']|(Hp & Hh' & _)].
    + rewrite Z.eqb_refl. by apply IH.
    + rewrite (proj2 (Z.eqb_neq p NULL)) by lia. by apply (IH c' ((p, n) :: H)).
  - rewrite list_lookup_fmap. destruct (H !! i) as [[p n]|] eqn:Hi; cbn [fmap option_fmap option_map]; [|by apply IH].
    rewrite <- (take_drop_middle _ _ _ Hi) in Hh. destruct (slab_put_holds c _ p n _ Hh) as (c' & E & Hh').
    cbn [fst]. rewrite E. cbn [mbind option_bind]. rewrite <- list_fmap_delete, delete_take_drop. by apply IH.
Qed.
End Inv.

Section Lifecycle.
Context {src : Type} `{!SlabSource src}
  {inv : Z -> Z -> src -> list Z -> list (Z * Z) -> list Z -> Prop} `{!SlabSourceLaws inv}.

Lemma slab_cache_create_eq k lim a : inv k lim a [] [] [] ->
  exists lb mx, 12 <= lb /\ 0 <= mx <= 15 /\ lb + mx = k /\ lb + mx <= 31 /\
  slab_cache_create a = Some (SlabCache a (2 ^ lb) lb mx slab_list_create
    (replicate (Z.to_nat (mx + 1)) slab_list_create) ∅).
Proof.
  intros Hi. destruct (src_geometry _ _ _ _ _ _ Hi) as (Hsz & Hk & _).
  set (mx := Z.min (k - 12) 15). exists (k - mx), mx. unfold slab_cache_create. rewrite Hsz.
  change (small_getpagesize 4096) with (2 ^ 12). split_and!; try lia.
  pose proof (pow2_mono 12 k ltac:(lia)). pose proof (pow2_mono k 31 ltac:(lia)).
  rewrite Z.geb_leb, (proj2 (Z.leb_le _ _)) by lia.
  rewrite <- Z.pow_sub_r by lia. pose proof (pow2_mono (k - 12) 31 ltac:(lia)).
  pose proof (pow2_pos (k - 12) ltac:(lia)). rewrite small_lb_eq, Z.log2_pow2 by lia.
  unfold u8. rewrite (Z.mod_small (k - 12)) by lia. unfold ORDER_MAX.
  replace (if k - 12 >? 16 - 1 then 16 - 1 else k - 12) with mx by (destruct (Z.gtb_spec (k - 12) (16 - 1)); lia).
  rewrite shiftr_div, <- Z.pow_sub_r by lia. pose proof (pow2_mono (k - mx) 31 ltac:(lia)).
  pose proof (pow2_pos (k - mx) ltac:(lia)). rewrite u32_small, small_lb_eq, Z.log2_pow2 by lia.
  rewrite Z.mod_small by lia. done.
Qed.

(** C3. Merging is complete.  Any sequence of [slab_get] and [slab_put] calls of a
    client that puts back only what it holds, in any order, runs without a failed
    assertion from a fresh cache, and no slab is handed out twice; whenever the
    client holds nothing, the cache keeps at most one slab of the arena, as one
    free slab of the largest order, and has returned every other slab, every large
    block and their quota. *)
Theorem slab_cache_coalesces k lim a l : inv k lim a [] [] [] -> Forall (cache_call_ok k lim) l ->
  exists c0 c held, slab_cache_create a = Some c0 /\ run_calls c0 [] l = Some (c, held) /\ NoDup held /\
    (held = [] -> exists A, (length A <= 1)%nat /\ inv k lim (arena c) A [] [] /\ slabs (allocated c) = A /\
       forall b, b ∈ A -> mem c !! b = Some (Slab (2 ^ k) slab_magic (order_max c) 0)).
Proof.
  intros Hi Hl. destruct (slab_cache_create_eq k lim a Hi) as (lb & mx & H1 & H2 & H3 & H4 & E).
  assert (Hh0 : holds (inv:=inv) lb mx lim (SlabCache a (2 ^ lb) lb mx slab_list_create
    (replicate (Z.to_nat (mx + 1)) slab_list_create) ∅) []).
  { exists [], [], []. split; [|done]. apply create_inv; [done..|by rewrite H3]. }
  rewrite <- H3 in Hl. destruct (run_calls_holds lb mx lim H1 H2 H4 l Hl _ [] Hh0) as (c & H & Er & Hh).
  eexists _, c, H.*1. split; [exact E|]. split; [exact Er|].
  split; [by destruct (holds_apart lb mx lim H1 H2 c H Hh)|]. intros ->%fmap_nil_inv.
  assert (Hmx : order_max c = mx) by (destruct Hh as (A & B & out & Hm & _); apply Hm).
  rewrite Hmx, <- H3. by apply (nothing_held lb mx lim H1 H2).
Qed.

(** C4. From a fresh arena [slab_cache_create] makes a cache with no slab handed
    out; at any later time [slab_cache_check] finds its statistics right and
    [slab_cache_used] counts the slabs handed out; and [slab_cache_destroy]
    returns every slab, every large block and their quota. *)
Theorem slab_cache_lifecycle k lim a : inv k lim a [] [] [] ->
  exists lb mx c, 12 <= lb /\ 0 <= mx <= 15 /\ lb + mx = k /\
    slab_cache_create a = Some c /\ holds (inv:=inv) lb mx lim c [] /\
    forall c' H, holds (inv:=inv) lb mx lim c' H ->
      slab_cache_check c' = Some true /\ slab_cache_used c' = u64 (zsum snd H) /\
      exists a', slab_cache_destroy c' = Some a' /\ inv k lim a' [] [] [].
Proof.
  intros Hi. destruct (slab_cache_create_eq k lim a Hi) as (lb & mx & H1 & H2 & H3 & H4 & E).
  eexists lb, mx, _. split_and!; [done|lia|lia|done|exact E| |].
  - exists [], [], []. split; [|done]. apply create_inv; [done..|by rewrite H3].
  - intros c' H Hh. destruct (check_holds lb mx lim H1 H2 H4 c' H Hh) as [E1 E2].
    destruct (destroy_holds lb mx lim H1 H2 c' H Hh) as (a' & E3 & Hi'). rewrite H3 in Hi'.
    split_and!; [done|done|by exists a'].
Qed.
End Lifecycle.

(** ** A concrete cache

    An arena of slabs of 64 KiB, a quota of 1000 units, and a heap. *)
Definition example_host : host :=
  Host (Machine ∅ [65536; 1048576; 131072; 262144]) ∅ [8388608; 16777216].
Definition example_quota : quota := Quota (enc (1000, 0)).
Definition example_arena : option (Z * shared) :=
  slab_arena_create host_mmap host_munmap example_host example_quota 0 65536
    SLAB_ARENA_PRIVATE.
Definition example_shared : shared (os:=host) :=
  match example_arena with
  | Some (_, s) => s
  | None => Shared (SlabArena [] 0 0 0 0 0) example_quota example_host
  end.

#[export] Instance example_source : SlabSource (shared (os:=host)) := host_source.
#[export] Instance example_laws : SlabSourceLaws host_inv.
Proof. apply arena_laws; apply _. Qed.

Lemma example_inv : host_inv 16 100000 example_shared [] [] [].
Proof.
  destruct (slab_arena_create_spec host_mapped host_mmap host_munmap example_host 1000 0 0 65536
    SLAB_ARENA_PRIVATE SLAB_ARENA_PRIVATE) as (rc & s & k & E & Hk & _ & H); [lia..|done|].
  assert (E' : example_arena = Some (0, example_shared)) by by vm_compute.
  change (example_arena = Some (rc, s)) in E. rewrite E' in E.
  assert (Hsz : slab_size (ar example_shared) = 2 ^ 16) by by vm_compute.
  assert (Hq : quo example_shared = Quota (enc (1000, 0))) by by vm_compute.
  assert (Hu : SlabArena.used (ar example_shared) = 0) by by vm_compute.
  assert (Hb : blks (osys example_shared) = ∅) by by vm_compute.
  clear E'. remember example_shared as s0 eqn:Es. clear Es. injection E as <- <-.
  destruct H as [[_ H]|[Hrc _]]; [|lia].
  assert (k = 16) as ->.
  { destruct H as (Hok & _). destruct (ok_size _ _ Hok) as [Hk' _]. cbn [SlabArena.sh] in Hk'.
    rewrite Hsz in Hk'. apply Z.pow_inj_r in Hk'; lia. }
  split; [done|]. split.
  - exists 1000, 0. rewrite Hq, Hu. split_and!; try done.
    intros n ?%elem_of_nil. done.
  - split; [|split; [constructor|intros p n ?%elem_of_nil; done]]. unfold host_wf. rewrite Hb.
    split; [intros p n|intros p n q m x]; by rewrite lookup_empty.
Qed.

Definition example_cache : slab_cache :=
  match slab_cache_create example_shared with
  | Some c => c
  | None => SlabCache example_shared 0 0 0 slab_list_create [] ∅
  end.

Lemma example_holds : holds (inv:=host_inv) 12 4 100000 example_cache [].
Proof.
  exists [], [], []. split; [|done].
  assert (E : example_cache = SlabCache example_shared (2 ^ 12) 12 4 slab_list_create
    (replicate (Z.to_nat (4 + 1)) slab_list_create) ∅) by by vm_compute.
  rewrite E. apply create_inv; [lia..|]. apply example_inv.
Qed.

(** A request of 100 bytes is served with the smallest slab. *)
Lemma slab_get_correct_witness :
  slab_get example_cache 100 = Some (65536, (default (0, example_cache) (slab_get example_cache 100)).2) /\
  exists n p c', slab_get example_cache 100 = Some (p, c') /\ 100 + slab_sizeof <= n /\
    (n <= 2 ^ 16 -> p = NULL \/ p mod n = 0).
Proof.
  split; [by vm_compute|].
  destruct (slab_get_correct 12 4 100000 ltac:(lia) ltac:(lia) ltac:(lia) example_cache [] 100 example_holds
    ltac:(lia) ltac:(lia)) as (n & p & c' & _ & E & Hn & _ & H).
  exists n, p, c'. split_and!; [done|done|]. intros Hle.
  destruct H as [[-> _]|(_ & _ & H & _)]; [by left|right; by apply H].
Defined.

Definition example_cache2 : Z * slab_cache := default (0, example_cache) (slab_get example_cache 10000).

Lemma slab_put_correct_witness :
  holds (inv:=host_inv) 12 4 100000 (example_cache2.2) [(example_cache2.1, 16384)] /\
  exists c', slab_put (example_cache2.2) (example_cache2.1) = Some c' /\
    holds (inv:=host_inv) 12 4 100000 c' [].
Proof.
  assert (Hh : holds (inv:=host_inv) 12 4 100000 (example_cache2.2) [(example_cache2.1, 16384)]).
  { destruct (slab_get_holds (inv:=host_inv) 12 4 100000 ltac:(lia) ltac:(lia) ltac:(lia) example_cache [] 10000
      example_holds ltac:(lia) ltac:(lia)) as (n & p & c' & E1 & E & _ & _ & _ & H).
    assert (En : slab_real_size example_cache 10000 = Some 16384) by by vm_compute.
    rewrite E1 in En. injection En as ->. unfold example_cache2. rewrite E. cbn [default fst snd].
    destruct H as [[-> _]|(_ & H & _)]; [|done].
    assert (Enot : (if slab_get example_cache 10000 is Some (p, _) then negb (p =? 0) else false) = true)
      by by vm_compute.
    by rewrite E in Enot. }
  split; [done|]. apply (slab_put_correct 12 4 100000 ltac:(lia) ltac:(lia) ltac:(lia) (example_cache2.2) []
    (example_cache2.1) 16384 []). done.
Defined.

(** Two slabs and a large block, put back in another order. *)
Definition example_calls : list cache_call := [CGet 100; CGet 10000; CGet 80000; CPut 1; CPut 0; CPut 0].

Lemma slab_cache_coalesces_witness :
  exists c, run_calls example_cache [] example_calls = Some (c, []) /\
    mem c !! 65536 = Some (Slab 65536 slab_magic 4 0) /\
    exists A, (length A <= 1)%nat /\ slabs (allocated c) = A.
Proof.
  assert (Ec : exists c, run_calls example_cache [] example_calls = Some (c, [])) by (eexists; vm_compute; reflexivity).
  destruct Ec as [c0 Ec].
  destruct (slab_cache_coalesces 16 100000 example_shared example_calls example_inv) as (c1 & c & held & E1 & E & _ & H).
  { repeat constructor; (lia || (left; lia) || (right; lia)). }
  assert (Ex : slab_cache_create example_shared = Some example_cache) by by vm_compute.
  rewrite Ex in E1. injection E1 as <-. rewrite Ec in E. injection E as <- <-.
  exists c0. split; [exact Ec|].
  assert (Em : (fun x : slab_cache * list Z => mem x.1 !! 65536) <$> run_calls example_cache [] example_calls =
    Some (Some (Slab 65536 slab_magic 4 0))) by by vm_compute.
  rewrite Ec in Em. injection Em as Em. split; [exact Em|].
  destruct (H eq_refl) as (A & HA & _ & EA & _). exists A. split; [exact HA|exact EA].
Defined.

Lemma slab_cache_lifecycle_witness :
  host_inv 16 100000 example_shared [] [] [] /\
  exists c, slab_cache_create example_shared = Some c /\ slab_cache_check c = Some true.
Proof.
  split; [apply example_inv|].
  destruct (slab_cache_lifecycle 16 100000 example_shared example_inv) as (lb & mx & c & _ & _ & _ & E & Hh & H).
  exists c. split; [done|]. by destruct (H c [] Hh).
Defined.
