(* ===== verification/Mempool.v ===== *)
(** * Memory pool: [include/small/mempool.h], [small/mempool.c]

    Objects of one size in slabs of one order.  The slabs with free objects are
    in the red-black tree of [Rb], ordered by address; the slab cache is
    [SlabCache].  The headers of the pool's slabs and the links that freed
    objects hold are finite maps from addresses.  The compact layout of tree
    nodes the pool asks for changes only the size of a header. *)
From S2P Require Import Prelude Util SlabSource SlabCache Rb RbUpdate RbQuery.

Section Pool.
Context {src : Type} `{!SlabSource src}.
Local Abbreviation slab_cache := (slab_cache (src:=src)).

(** ** Definitions *)

Definition MAX_COLD_FRACTION_LB : Z := 3.

Definition mslab_cmp (lhs rhs : Z) : Z := if lhs >? rhs then 1 else if lhs <? rhs then -1 else 0.

(** The tree of the pool has no augmentation. *)
Definition no_aug (_ : Z) (_ _ : option (Z * unit)) : unit := tt.
Definition mslab_tree : Type := tree (A:=Z) (B:=unit).
Definition mslab_tree_insert (t : mslab_tree) (p : Z) : option mslab_tree := rb_insert mslab_cmp no_aug t p tt.
Definition mslab_tree_remove (t : mslab_tree) (p : Z) : option mslab_tree := rb_remove mslab_cmp no_aug t p.
(** The node of slab [p]: its links are in the header of the slab. *)
Fixpoint mslab_node (t : mslab_tree) (p : Z) : mslab_tree :=
  match t with
  | Leaf => Leaf
  | Node c l x b r =>
      if x =? p then t else if is_null (mslab_node l p) then mslab_node r p else mslab_node l p
  end.
Definition mslab_ptr (t : mslab_tree) : Z := default NULL (node_of t).
Definition mslab_tree_next (t : mslab_tree) (p : Z) : option Z :=
  n ← rb_next mslab_cmp t (mslab_node t p);
  Some (mslab_ptr n).

(** The part of a header that [struct mslab] adds to [struct slab], less its
    tree and list links. *)
Record mslab := Mslab {
  free_list : Z;
  free_offset : Z;
  nfree : Z;
  in_hot_slabs : bool;
}.

(** Slab, pointer, two 32-bit counters, tree node, list link, flag, pointer. *)
Definition sizeof_mslab : Z := 48 + 8 + 4 + 4 + 16 + 16 + 8 + 8.
Definition mslab_sizeof : Z := u32 (small_align sizeof_mslab 8).

Definition mempool_objsize_max (slab_size : Z) : Z :=
  Z.land (u32 (slab_size - mslab_sizeof) / 16) (u64 (Z.lnot (8 - 1))).

(** [headers] and [links] are memory: the headers of the slabs of the pool, and
    the pointers in the freed objects. *)
Record mempool := Mempool {
  pool_slabs : slab_list;
  hot_slabs : mslab_tree;
  first_hot_slab : Z;
  cold_slabs : list Z;
  spare : Z;
  objsize : Z;
  slab_order : Z;
  objcount : Z;
  offset : Z;
  slab_ptr_mask : Z;
  headers : gmap Z mslab;
  links : gmap Z Z;
}.

Definition set_hot (m : mempool) (t : mslab_tree) (first : Z) : mempool :=
  Mempool (pool_slabs m) t first (cold_slabs m) (spare m) (objsize m) (slab_order m)
    (objcount m) (offset m) (slab_ptr_mask m) (headers m) (links m).
Definition set_cold (m : mempool) (l : list Z) : mempool :=
  Mempool (pool_slabs m) (hot_slabs m) (first_hot_slab m) l (spare m) (objsize m) (slab_order m)
    (objcount m) (offset m) (slab_ptr_mask m) (headers m) (links m).
Definition set_spare (m : mempool) (p : Z) : mempool :=
  Mempool (pool_slabs m) (hot_slabs m) (first_hot_slab m) (cold_slabs m) p (objsize m) (slab_order m)
    (objcount m) (offset m) (slab_ptr_mask m) (headers m) (links m).
Definition set_pool_slabs (m : mempool) (l : slab_list) : mempool :=
  Mempool l (hot_slabs m) (first_hot_slab m) (cold_slabs m) (spare m) (objsize m) (slab_order m)
    (objcount m) (offset m) (slab_ptr_mask m) (headers m) (links m).
Definition set_headers (m : mempool) (h : gmap Z mslab) : mempool :=
  Mempool (pool_slabs m) (hot_slabs m) (first_hot_slab m) (cold_slabs m) (spare m) (objsize m)
    (slab_order m) (objcount m) (offset m) (slab_ptr_mask m) h (links m).
Definition set_links (m : mempool) (l : gmap Z Z) : mempool :=
  Mempool (pool_slabs m) (hot_slabs m) (first_hot_slab m) (cold_slabs m) (spare m) (objsize m)
    (slab_order m) (objcount m) (offset m) (slab_ptr_mask m) (headers m) l.
Definition write_header (m : mempool) (p : Z) (s : mslab) : mempool :=
  set_headers m (<[p := s]> (headers m)).
Definition set_in_hot (s : mslab) (b : bool) : mslab := Mslab (free_list s) (free_offset s) (nfree s) b.

Definition mslab_create (m : mempool) (p : Z) : mempool :=
  write_header m p (Mslab NULL (offset m) (objcount m) false).

(** The choice of the object in [mslab_alloc]: a freed one, or the next that was
    never used.  An object that is handed out no longer holds a link. *)
Definition mslab_take (m : mempool) (slab : Z) (s : mslab) : option (Z * mslab * mempool) :=
  if negb (free_list s =? NULL) then
    next ← links m !! free_list s;
    Some (free_list s, Mslab next (free_offset s) (nfree s) (in_hot_slabs s),
          set_links m (delete (free_list s) (links m)))
  else
    Some (slab + free_offset s,
          Mslab (free_list s) (u32 (free_offset s + objsize m)) (nfree s) (in_hot_slabs s), m).

Definition mslab_alloc (m : mempool) (slab : Z) : option (Z * mempool) :=
  s ← headers m !! slab;
  ASSERT negb (nfree s =? 0);
  '(result, s, m) ← mslab_take m slab s;
  let s := Mslab (free_list s) (free_offset s) (u32 (nfree s - 1)) (in_hot_slabs s) in
  if nfree s =? 0 then
    first ← (if slab =? first_hot_slab m then mslab_tree_next (hot_slabs m) slab
             else Some (first_hot_slab m));
    t ← mslab_tree_remove (hot_slabs m) slab;
    Some (result, write_header (set_hot m t first) slab (set_in_hot s false))
  else Some (result, write_header m slab s).

Definition mempool_free_spare_slab (c : slab_cache) (m : mempool) : option (slab_cache * mempool) :=
  ASSERT negb (spare m =? NULL);
  s ← mem c !! spare m;
  l ← slab_list_del (spare m) (size s) (pool_slabs m);
  c ← slab_put_with_order c (spare m);
  Some (c, set_spare (set_headers (set_pool_slabs m l) (delete (spare m) (headers m))) NULL).

(** [rlist_del_entry] of a slab that is in no list leaves it alone. *)
Definition rlist_del_cold (m : mempool) (p : Z) : mempool :=
  set_cold m (default (cold_slabs m) (list_remove p (cold_slabs m))).

Definition mslab_free (c : slab_cache) (m : mempool) (slab ptr : Z) : option (slab_cache * mempool) :=
  s ← headers m !! slab;
  let m := set_links m (<[ptr := free_list s]> (links m)) in
  let s := Mslab ptr (free_offset s) (u32 (nfree s + 1)) (in_hot_slabs s) in
  let m := write_header m slab s in
  if negb (in_hot_slabs s) && (nfree s >=? Z.shiftr (objcount m) MAX_COLD_FRACTION_LB) then
    let m := rlist_del_cold m slab in
    t ← mslab_tree_insert (hot_slabs m) slab;
    let m := write_header m slab (set_in_hot s true) in
    let first :=
      if (first_hot_slab m =? NULL) || (mslab_cmp (first_hot_slab m) slab =? 1) then slab
      else first_hot_slab m in
    Some (c, set_hot m t first)
  else if nfree s =? 1 then Some (c, set_cold m (slab :: cold_slabs m))
  else if nfree s =? objcount m then
    first ← (if slab =? first_hot_slab m then mslab_tree_next (hot_slabs m) slab
             else Some (first_hot_slab m));
    t ← mslab_tree_remove (hot_slabs m) slab;
    let m := write_header (set_hot m t first) slab (set_in_hot s false) in
    if spare m >? slab then
      '(c, m) ← mempool_free_spare_slab c m;
      Some (c, set_spare m slab)
    else if negb (spare m =? NULL) then
      h ← mem c !! slab;
      l ← slab_list_del slab (size h) (pool_slabs m);
      c ← slab_put_with_order c slab;
      Some (c, set_headers (set_pool_slabs m l) (delete slab (headers m)))
    else Some (c, set_spare m slab)
  else Some (c, m).

Definition mempool_create_with_order (c : slab_cache) (objsize order : Z) : option mempool :=
  ASSERT order <=? order_max c;
  n ← slab_order_size c order;
  let slab_size := u32 n in
  let objcount := u32 (slab_size - mslab_sizeof) / objsize in
  ASSERT negb (objcount =? 0);
  let offset := u32 (slab_size - objcount * objsize) in
  Some (Mempool slab_list_create rb_new NULL [] NULL objsize order objcount offset
          (Z.lnot (n - 1)) ∅ ∅).

(** Dividing by [OVERHEAD_RATIO], 0.01, multiplies by 100: the quotient in
    double precision of an integer below 2^32 is rounded to that product. *)
Definition mempool_create (c : slab_cache) (objsize : Z) : option mempool :=
  let overhead := if objsize >? sizeof_mslab then objsize else sizeof_mslab in
  let slab_size := overhead * 100 in
  let slab_size :=
    if slab_size >? arena_slab_size (arena c) then arena_slab_size (arena c) else slab_size in
  let order := SlabCache.slab_order c slab_size in
  ASSERT order <=? order_max c;
  mempool_create_with_order c objsize order.

Fixpoint destroy_pool_slabs (c : slab_cache) (l : list Z) : option slab_cache :=
  match l with
  | [] => Some c
  | p :: l => c ← slab_put_with_order c p; destroy_pool_slabs c l
  end.

Definition mempool_destroy (c : slab_cache) (m : mempool) : option slab_cache :=
  destroy_pool_slabs c (slabs (pool_slabs m)).

(** The slab to allocate from when no slab is hot: the spare one, a new one, or
    one of the cold ones. *)
Definition pick_slab (c : slab_cache) (m : mempool) : option (Z * slab_cache * mempool) :=
  if negb (spare m =? NULL) then Some (spare m, c, set_spare m NULL)
  else
    '(slab, c) ← slab_get_with_order c (slab_order m);
    if negb (slab =? NULL) then
      let m := mslab_create m slab in
      h ← mem c !! slab;
      Some (slab, c, set_pool_slabs m (slab_list_add slab (size h) (pool_slabs m)))
    else match cold_slabs m with
         | p :: rest => Some (p, c, set_cold m rest)
         | [] => Some (NULL, c, m)
         end.

Definition mempool_alloc (c : slab_cache) (m : mempool) : option (Z * slab_cache * mempool) :=
  '(slab, c, m) ←
    (if first_hot_slab m =? NULL then
       '(slab, c, m) ← pick_slab c m;
       if slab =? NULL then Some (NULL, c, m)
       else
         s ← headers m !! slab;
         ASSERT negb (in_hot_slabs s);
         t ← mslab_tree_insert (hot_slabs m) slab;
         Some (slab, c, set_hot (write_header m slab (set_in_hot s true)) t slab)
     else Some (first_hot_slab m, c, m));
  if slab =? NULL then Some (NULL, c, m)
  else
    let m := set_pool_slabs m (add_used (objsize m) (pool_slabs m)) in
    '(ptr, m) ← mslab_alloc m slab;
    ASSERT negb (ptr =? NULL);
    Some (ptr, c, m).

Definition mempool_free_slab (c : slab_cache) (m : mempool) (slab ptr : Z) : option (slab_cache * mempool) :=
  ASSERT negb (ptr =? NULL);
  h ← mem c !! slab;
  ASSERT order h =? slab_order m;
  let m := set_pool_slabs m (add_used (- objsize m) (pool_slabs m)) in
  mslab_free c m slab ptr.

Definition mempool_free (c : slab_cache) (m : mempool) (ptr : Z) : option (slab_cache * mempool) :=
  ASSERT negb (ptr =? NULL);
  slab ← slab_from_ptr c ptr (slab_ptr_mask m);
  mempool_free_slab c m slab ptr.

Definition mempool_used (m : mempool) : Z := used (stats (pool_slabs m)).
Definition mempool_total (m : mempool) : Z := total (stats (pool_slabs m)).
Definition mempool_count (m : mempool) : Z := used (stats (pool_slabs m)) / objsize m.

Record mempool_stats_t := MempoolStats {
  st_objsize : Z; st_objcount : Z; st_slabsize : Z; st_slabcount : Z; st_totals : small_stats;
}.

Definition mempool_stats (c : slab_cache) (m : mempool) : option mempool_stats_t :=
  n ← slab_order_size c (slab_order m);
  let slabsize := u32 n in
  let slabcount := u32 (total (stats (pool_slabs m)) / slabsize) in
  Some (MempoolStats (objsize m) (u32 (mempool_count m)) slabsize slabcount
          (SmallStats (used (stats (pool_slabs m)))
             (u64 (total (stats (pool_slabs m)) - u32 (mslab_sizeof * slabcount))))).
End Pool.

(** ** The tree of hot slabs *)

#[global] Instance mslab_cmp_strict : StrictCmp mslab_cmp.
Proof.
  split; unfold mslab_cmp.
  - intros x y. destruct (Z.gtb_spec x y), (Z.ltb_spec x y), (Z.gtb_spec y x), (Z.ltb_spec y x); lia.
  - intros x y z. destruct (Z.gtb_spec x y), (Z.ltb_spec x y), (Z.gtb_spec y z), (Z.ltb_spec y z),
      (Z.gtb_spec x z), (Z.ltb_spec x z); lia.
Qed.

Lemma mslab_lt x y : lt mslab_cmp x y <-> x < y.
Proof. unfold lt, mslab_cmp. destruct (Z.gtb_spec x y), (Z.ltb_spec x y); lia. Qed.

Lemma mslab_node_spec t p : p ∈ elements t ->
  exists c l b r, mslab_node t p = Node c l p b r /\ subtree (Node c l p b r) t.
Proof.
  induction t as [|c l IHl x b r IHr]; [by intros ?%elem_of_nil|]. cbn [elements mslab_node].
  destruct (Z.eqb_spec x p) as [->|Hne]; [intros _; by eexists _, _, _, _; split; [|left]|].
  intros Hp. destruct (is_null (mslab_node l p)) eqn:En.
  - assert (Hr : p ∈ elements r).
    { apply elem_of_app in Hp as [Hp|[->|Hp]%elem_of_cons]; [|done|done].
      destruct (IHl Hp) as (? & ? & ? & ? & E & _). by rewrite E in En. }
    destruct (IHr Hr) as (c' & l' & b' & r' & E & Hs). eexists _, _, _, _. split; [done|]. by right; right.
  - assert (Hl : p ∈ elements l).
    { clear -En. induction l as [|c' l1 IH1 y b' r1 IH2]; [done|]. cbn [mslab_node elements] in *.
      apply elem_of_app. destruct (Z.eqb_spec y p) as [->|]; [right; left|].
      destruct (is_null (mslab_node l1 p)) eqn:E; [right; right; by apply IH2|left; by apply IH1]. }
    destruct (IHl Hl) as (c' & l' & b' & r' & E & Hs). eexists _, _, _, _. split; [done|]. by right; left.
Qed.

(** The tree has the slabs of [P] and [first] is the one of lowest address. *)
Definition hot_ok (t : mslab_tree) (first : Z) (P : Z -> Prop) : Prop :=
  valid mslab_cmp no_aug t /\ (forall p, p ∈ elements t <-> P p) /\
  first = default NULL (head (elements t)).

Lemma hot_remove t first P p : hot_ok t first P -> P p ->
  exists first' t', (if p =? first then mslab_tree_next t p else Some first) = Some first' /\
    mslab_tree_remove t p = Some t' /\ hot_ok t' first' (fun q => P q /\ q <> p).
Proof.
  intros (Hv & HP & Hf) Hp. apply HP in Hp as Hin. pose proof (valid_sorted _ _ _ Hv) as Hs.
  destruct (remove_valid mslab_cmp no_aug t p Hv Hin) as (t' & E & Hv' & e1 & e2 & E1 & E2).
  assert (Hlt : forall q, q ∈ e1 -> q < p).
  { intros q Hq. unfold sorted in Hs. rewrite E1 in Hs. apply sorted_app in Hs as (_ & _ & H).
    rewrite Forall_forall in H. specialize (H q Hq). rewrite Forall_forall in H.
    apply mslab_lt, H. left. }
  exists (default NULL (head (e1 ++ e2))), t'. split_and!; [|done|].
  - destruct e1 as [|y e1].
    + rewrite E1 in Hf. simpl in Hf. subst first. rewrite Z.eqb_refl.
      destruct (mslab_node_spec t p Hin) as (c & l & b & r & En & Hsub).
      destruct (next_spec mslab_cmp t c l p b r [] e2 Hs Hsub E1) as (res & Er & Hn).
      unfold mslab_tree_next. rewrite En, Er. cbn [mbind option_bind]. unfold mslab_ptr. by rewrite Hn.
    + rewrite E1 in Hf. simpl in Hf |- *. subst first.
      rewrite (proj2 (Z.eqb_neq p y)); [done|]. specialize (Hlt y ltac:(left)). lia.
  - split_and!; [done| |by rewrite E2]. intros q. rewrite <- HP, E1, E2.
    assert (Hnd : NoDup (e1 ++ p :: e2)) by (rewrite <- E1; apply (sorted_nodup mslab_cmp t Hs)).
    apply (nodup_split e1 p e2 Hnd).
Qed.

Lemma hot_insert t first P p : hot_ok t first P -> ~ P p -> (forall q, P q -> 0 < q) -> 
  Z.of_nat (length (elements t)) + 1 < 2 ^ 63 ->
  exists t', mslab_tree_insert t p = Some t' /\
    hot_ok t' (if (first =? NULL) || (mslab_cmp first p =? 1) then p else first) (fun q => P q \/ q = p).
Proof.
  intros (Hv & HP & Hf) Hp Hpos Hlen. pose proof (valid_sorted _ _ _ Hv) as Hs.
  destruct (insert_valid mslab_cmp no_aug t p tt Hv) as (t' & E & Hv' & e1 & e2 & E1 & E2 & F1 & F2); [|done|].
  { apply Forall_forall. intros y Hy. apply HP in Hy. unfold mslab_cmp.
    assert (p <> y) by congruence. destruct (Z.gtb_spec p y), (Z.ltb_spec p y); lia. }
  exists t'. split; [done|]. split_and!; [done| |].
  - intros q. rewrite <- HP, E1, E2, !elem_of_app, elem_of_cons. tauto.
  - rewrite E2, Hf, E1. rewrite Forall_forall in F1, F2. destruct e1 as [|y e1].
    + simpl. destruct e2 as [|y e2]; [done|]. simpl.
      assert (p < y) by (apply mslab_lt, F2; left). rewrite orb_comm.
      unfold mslab_cmp. rewrite (proj2 (Z.gtb_lt _ _)) by lia. done.
    + simpl. assert (y < p) by (apply mslab_lt, F1; left).
      assert (0 < y) by (apply Hpos, HP; rewrite E1; left).
      unfold mslab_cmp. rewrite (proj2 (Z.eqb_neq y NULL)), (proj2 (Z.ltb_lt y p)) by lia.
      destruct (Z.gtb_spec y p); [lia|]. done.
Qed.

(** ** The slab cache seen by a pool *)
Section Inv.
Context {src : Type} `{!SlabSource src}
  {inv : Z -> Z -> src -> list Z -> list (Z * Z) -> list Z -> Prop} `{!SlabSourceLaws inv}.
Context (lb mx lim : Z) (Hlb : 12 <= lb) (Hmx : 0 <= mx <= 15) (Hk : lb + mx <= 31).
Local Abbreviation slab_cache := (slab_cache (src:=src)).
Local Abbreviation osize := (osize lb).

(** [O] are the slabs handed out with their orders, [B] the large slabs. *)
Definition hold (c : slab_cache) (O B : list (Z * Z)) : Prop :=
  exists A out, cache_inv (inv:=inv) lb mx lim c A B out /\ out ≡ₚ O.

Lemma hold_get c O B o : hold c O B -> 0 <= o <= mx ->
  exists p c', slab_get_with_order c o = Some (p, c') /\
    ((p = NULL /\ hold c' O B) \/
     (0 < p /\ hold c' ((p, o) :: O) B /\ mem c' !! p = Some (Slab (osize o) slab_magic o (o + 1)))).
Proof.
  intros (A & out & Hc & HP) Ho.
  destruct (get_with_order_inv lb mx lim Hlb Hmx Hk c A B out o Hc Ho) as (p & c' & A' & E & H).
  exists p, c'. split; [done|]. destruct H as [[-> H]|(Hp & H & Hm)].
  - left. split; [done|]. by exists A', out.
  - right. split_and!; [done| |done]. exists A', ((p, o) :: out). split; [done|]. by rewrite HP.
Qed.

Lemma hold_put c O B p o O' : hold c O B -> O ≡ₚ (p, o) :: O' ->
  exists c', slab_put_with_order c p = Some c' /\ hold c' O' B.
Proof.
  intros (A & out & Hc & HP) HO. assert (Hin : (p, o) ∈ out) by (rewrite HP, HO; left).
  apply list_elem_of_split in Hin as (out1 & out2 & ->).
  destruct (put_with_order_inv lb mx lim Hlb Hmx Hk c A B out1 p o out2 Hc) as (c' & A' & E & H).
  exists c'. split; [done|]. exists A', (out1 ++ out2). split; [done|].
  rewrite <- Permutation_middle, HO in HP. by apply Permutation_cons_inv in HP.
Qed.

Lemma hold_header c O B p o : hold c O B -> (p, o) ∈ O ->
  mem c !! p = Some (Slab (osize o) slab_magic o (o + 1)) /\ 0 <= o <= mx /\ 0 < p /\
  p mod osize o = 0.
Proof.
  intros (A & out & Hc & HP) Hin. rewrite <- HP in Hin. pose proof Hc as (_ & _ & Ht & (_ & _ & S3) & _).
  apply S3 in Hin as (s & Hs & Ho & Hle & Hu).
  destruct (tile_header lb mx A B _ p o s Ht Hs Ho Hle) as [Hh _].
  destruct (mid_facts lb mx lim Hlb Hmx _ _ _ _ _ _ _ _ p o Hc) as (H1 & H2 & H3 & _).
  { exists s. done. }
  rewrite Hs, Hh, Hu. split_and!; (done || lia).
Qed.

Lemma hold_apart c O B : hold c O B -> NoDup O /\
  forall p o q o' x, (p, o) ∈ O -> (q, o') ∈ O -> p <= x < p + osize o -> q <= x < q + osize o' -> p = q.
Proof.
  intros (A & out & Hc & HP). pose proof Hc as (_ & _ & Ht & (_ & S2 & S3) & _). rewrite <- HP.
  split; [done|]. intros p o q o' x Hp Hq. rewrite <- HP in Hp, Hq.
  apply S3 in Hp as (s & Hs & Ho & Hle & _). apply S3 in Hq as (s' & Hs' & Ho' & Hle' & _).
  apply (t_disj _ _ _ _ _ Ht); [by exists s|by exists s'].
Qed.

Lemma hold_perm c O O' B : hold c O B -> O ≡ₚ O' -> hold c O' B.
Proof. intros (A & out & Hc & HP) HO. exists A, out. split; [done|]. by rewrite HP. Qed.

(** ** The invariant of a pool *)

(** Object [i] of the slab at [p]. *)
Definition slot (m : mempool) (p i : Z) : Z := p + offset m + i * objsize m.

(** The freed objects of a slab, linked through their first words. *)
Fixpoint chain (L : gmap Z Z) (p : Z) (fl : list Z) : Prop :=
  match fl with
  | [] => p = NULL
  | x :: fl => p = x /\ x <> NULL /\ exists next, L !! x = Some next /\ chain L next fl
  end.

(** Of the slab at [p], the first [t] objects have been used; [fl] of them are
    free again, and the others are in [objs]. *)
Record slab_ok (m : mempool) (objs : list Z) (p : Z) (s : mslab) (t : Z) (fl : list Z) : Prop := {
  s_range : 0 <= t <= objcount m;
  s_offset : free_offset s = offset m + t * objsize m;
  s_chain : chain (links m) (free_list s) fl;
  s_nodup : NoDup fl;
  s_nfree : nfree s = objcount m - t + Z.of_nat (length fl);
  s_free x : x ∈ fl -> x ∉ objs /\ exists i, 0 <= i < t /\ x = slot m p i;
  s_used i : 0 <= i < t -> slot m p i ∈ fl \/ slot m p i ∈ objs;
  s_fresh i : t <= i < objcount m -> slot m p i ∉ objs;
}.

Definition shape (m : mempool) : Prop :=
  let n := osize (slab_order m) in
  8 <= objsize m /\ 0 <= slab_order m <= mx /\ 1 <= objcount m /\
  objcount m = (n - mslab_sizeof) / objsize m /\ offset m = n - objcount m * objsize m /\
  slab_ptr_mask m = Z.lnot (n - 1).

Definition is_hot (m : mempool) (p : Z) : Prop :=
  exists s, headers m !! p = Some s /\ in_hot_slabs s = true.

Definition owned (m : mempool) : list (Z * Z) :=
  (fun p => (p, slab_order m)) <$> slabs (pool_slabs m).

(** [objs] are the objects handed out; [O] and [B] are the slabs of others; the
    slabs of [X] are between two states, and [d] objects are counted as used
    beyond [objs]. *)
Record pool_inv (c : slab_cache) (m : mempool) (objs : list Z) (O B : list (Z * Z)) (X : list Z) (d : Z) : Prop := {
  k_shape : shape m;
  k_cache : hold c (owned m ++ O) B;
  k_headers p : p ∈ slabs (pool_slabs m) <-> is_Some (headers m !! p);
  k_slab p s : headers m !! p = Some s -> exists t fl, slab_ok m objs p s t fl;
  k_hot : hot_ok (hot_slabs m) (first_hot_slab m) (is_hot m);
  k_hot_free p s : headers m !! p = Some s -> in_hot_slabs s = true -> 1 <= nfree s;
  k_cold : NoDup (cold_slabs m) /\ forall p, p ∈ cold_slabs m ->
    p <> spare m /\ exists s, headers m !! p = Some s /\ in_hot_slabs s = false /\ 1 <= nfree s;
  k_spare : spare m = NULL \/
    exists s, headers m !! spare m = Some s /\ in_hot_slabs s = false /\ nfree s = objcount m;
  k_full p s : headers m !! p = Some s -> in_hot_slabs s = false -> p ∉ cold_slabs m ->
    p <> spare m -> p ∉ X -> nfree s = 0;
  k_objs : NoDup objs /\ forall x, x ∈ objs ->
    exists p i, p ∈ slabs (pool_slabs m) /\ 0 <= i < objcount m /\ x = slot m p i;
  k_used : used (stats (pool_slabs m)) = u64 (objsize m * (Z.of_nat (length objs) + d));
  k_total : total (stats (pool_slabs m)) =
    u64 (osize (slab_order m) * Z.of_nat (length (slabs (pool_slabs m))));
}.

(** ** Slots *)

Lemma shape_bounds m : shape m ->
  112 <= offset m /\ offset m + objcount m * objsize m = osize (slab_order m) /\
  osize (slab_order m) <= 2 ^ 31 /\ 8 <= objsize m /\ 1 <= objcount m.
Proof.
  intros (H1 & H2 & H3 & H4 & H5 & _). change mslab_sizeof with 112 in H4.
  destruct (osize_max lb mx Hlb Hmx Hk (slab_order m) H2) as [Ha Hb].
  assert (objcount m * objsize m <= osize (slab_order m) - 112).
  { rewrite H4. rewrite Z.mul_comm. apply Z.mul_div_le. lia. }
  split_and!; lia.
Qed.

Lemma slot_bounds m p i : shape m -> 0 <= i < objcount m ->
  p + 112 <= slot m p i /\ slot m p i + objsize m <= p + osize (slab_order m).
Proof. intros Hs Hi. destruct (shape_bounds m Hs) as (H1 & H2 & H3 & H4 & H5). unfold slot. nia. Qed.

Lemma owned_elem m p : p ∈ slabs (pool_slabs m) <-> (p, slab_order m) ∈ owned m.
Proof.
  unfold owned. rewrite list_elem_of_fmap. split; [intros H; by exists p|].
  by intros (q & [= ->] & Hq).
Qed.

Lemma slot_inj c m objs O B X d p q i j : pool_inv c m objs O B X d ->
  p ∈ slabs (pool_slabs m) -> q ∈ slabs (pool_slabs m) -> 0 <= i < objcount m -> 0 <= j < objcount m ->
  slot m p i = slot m q j -> p = q /\ i = j.
Proof.
  intros Hm Hp Hq Hi Hj E. pose proof (k_shape _ _ _ _ _ _ _ Hm) as Hs.
  pose proof (slot_bounds m p i Hs Hi). pose proof (slot_bounds m q j Hs Hj).
  destruct (shape_bounds m Hs) as (_ & _ & _ & H8 & _).
  destruct (hold_apart _ _ _ (k_cache _ _ _ _ _ _ _ Hm)) as [_ Hd].
  assert (p = q) as ->.
  { apply (Hd p (slab_order m) q (slab_order m) (slot m p i)); [..|lia|lia];
      apply elem_of_app; left; by apply owned_elem. }
  split; [done|]. unfold slot in E. nia.
Qed.

(** No more objects are free than were ever used, fewer if one is in use. *)
Lemma fl_length m objs p s t fl : shape m -> slab_ok m objs p s t fl ->
  Z.of_nat (length fl) <= t /\ (forall i, 0 <= i < t -> slot m p i ∈ objs -> Z.of_nat (length fl) < t).
Proof.
  intros Hs Hok. destruct (shape_bounds m Hs) as (_ & _ & _ & H8 & _). pose proof (s_range _ _ _ _ _ _ Hok).
  set (all := slot m p <$> seqZ 0 t).
  assert (Hall : length all = Z.to_nat t) by (unfold all; by rewrite length_fmap, length_seqZ).
  assert (Hsub : forall x, x ∈ fl -> x ∈ all).
  { intros x Hx. destruct (s_free _ _ _ _ _ _ Hok x Hx) as (_ & i & Hi & ->). apply list_elem_of_fmap.
    exists i. split; [done|]. apply elem_of_seqZ. lia. }
  assert (Hle : forall l, NoDup l -> (forall x, x ∈ l -> x ∈ all) -> Z.of_nat (length l) <= t).
  { intros l Hl Hin. assert ((length l <= length all)%nat); [|lia].
    by apply submseteq_length, NoDup_submseteq. }
  split; [apply Hle; [apply (s_nodup _ _ _ _ _ _ Hok)|done]|]. intros i Hi Hin.
  assert (Z.of_nat (length (slot m p i :: fl)) <= t); [|cbn [length] in *; lia]. apply Hle.
  - apply NoDup_cons. split; [|apply (s_nodup _ _ _ _ _ _ Hok)]. intros Hx.
    by destruct (s_free _ _ _ _ _ _ Hok _ Hx).
  - intros x [->|Hx]%elem_of_cons; [|by apply Hsub]. apply list_elem_of_fmap.
    exists i. split; [done|]. apply elem_of_seqZ. lia.
Qed.

Lemma chain_ext L L' fl p : (forall x, x ∈ fl -> L' !! x = L !! x) -> chain L p fl -> chain L' p fl.
Proof.
  revert p. induction fl as [|x fl IH]; intros p HL; [done|]. intros (-> & Hx & next & Hn & Hc).
  split_and!; [done|done|]. exists next. split; [rewrite HL; [done|left]|].
  apply IH; [|done]. intros y Hy. apply HL. by right.
Qed.

(** [m'] keeps the sizes of [m]. *)
Definition same_sizes (m m' : mempool) : Prop :=
  objsize m' = objsize m /\ objcount m' = objcount m /\ offset m' = offset m.

Lemma slot_same m m' p i : same_sizes m m' -> slot m' p i = slot m p i.
Proof. intros (E1 & _ & E3). unfold slot. by rewrite E1, E3. Qed.

(** What happens to the objects of other slabs does not matter to a slab. *)
Lemma slab_frame m m' objs objs' p s t fl : same_sizes m m' ->
  (forall i, 0 <= i < objcount m -> links m' !! slot m p i = links m !! slot m p i /\
     (slot m p i ∈ objs' <-> slot m p i ∈ objs)) ->
  slab_ok m objs p s t fl -> slab_ok m' objs' p s t fl.
Proof.
  intros Hsz Hfr [H1 H2 H3 H4 H5 H6 H7 H8]. pose proof Hsz as (E1 & E2 & E3).
  split; rewrite ?E1, ?E2, ?E3; try done.
  - eapply chain_ext; [|done]. intros x Hx. destruct (H6 x Hx) as (_ & i & Hi & ->). apply Hfr. lia.
  - intros x Hx. destruct (H6 x Hx) as (Hn & i & Hi & ->). rewrite (proj2 (Hfr i ltac:(lia))).
    split; [done|]. exists i. by rewrite (slot_same m m').
  - intros i Hi. rewrite (slot_same m m') by done. rewrite (proj2 (Hfr i ltac:(lia))). by apply H7.
  - intros i Hi. rewrite (slot_same m m') by done. rewrite (proj2 (Hfr i ltac:(lia))). by apply H8.
Qed.

Lemma take_ok m objs p s t fl : shape m -> 0 < p -> slab_ok m objs p s t fl -> 1 <= nfree s ->
  exists x s1 L1 i, mslab_take m p s = Some (x, s1, set_links m L1) /\
    0 <= i < objcount m /\ x = slot m p i /\ x ∉ objs /\
    nfree s1 = nfree s /\ in_hot_slabs s1 = in_hot_slabs s /\
    (forall y, y <> x -> L1 !! y = links m !! y) /\
    exists t' fl', slab_ok (set_links m L1) (x :: objs) p
      (Mslab (free_list s1) (free_offset s1) (nfree s - 1) (in_hot_slabs s1)) t' fl'.
Proof.
  intros Hsh Hp Hok Hn. pose proof Hok as [H1 H2 H3 H4 H5 H6 H7 H8].
  destruct (shape_bounds m Hsh) as (B1 & B2 & B3 & B4 & B5).
  assert (Hinj : forall i j, slot m p i = slot m p j -> i = j) by (unfold slot; intros; nia).
  unfold mslab_take. destruct fl as [|x fl].
  - cbn [chain] in H3. rewrite H3. cbn [Z.eqb negb length] in *.
    assert (Ht : t < objcount m) by lia. pose proof (slot_bounds m p t Hsh ltac:(lia)) as Hb.
    assert (Ex : p + free_offset s = slot m p t) by (unfold slot; lia).
    eexists _, _, (links m), t. split_and!; [by destruct m|lia|lia|done|rewrite Ex; apply H8; lia|done|done|done|].
    exists (t + 1), []. split; cbn [set_links objcount offset objsize free_offset free_list nfree links]; try done.
    + lia.
    + rewrite u32_small; [lia|]. unfold slot in Hb. lia.
    + cbn [length]. lia.
    + by intros y ?%elem_of_nil.
    + intros i Hi. change (slot (set_links m (links m)) p i) with (slot m p i). right. rewrite elem_of_cons, Ex.
      destruct (decide (i = t)) as [->|]; [by left|right]. destruct (H7 i ltac:(lia)) as [[]%elem_of_nil|?]; done.
    + intros i Hi. change (slot (set_links m (links m)) p i) with (slot m p i). rewrite elem_of_cons, Ex.
      intros [E%Hinj|E]; [lia|]. by apply (H8 i); [lia|].
  - destruct H3 as (E & Hx & next & Hnx & Hch). rewrite E, (proj2 (Z.eqb_neq x NULL)) by done. cbn [negb].
    rewrite Hnx. cbn [mbind option_bind]. apply NoDup_cons in H4 as [Hxf H4].
    destruct (H6 x ltac:(left)) as (Hxo & i & Hi & Exi).
    eexists x, _, (delete x (links m)), i. split_and!; [done|lia|lia|done|done|done|done| |].
    { intros y Hy. by rewrite lookup_delete_ne. }
    exists t, fl. split; cbn [set_links objcount offset objsize free_offset free_list nfree links]; try done.
    + eapply chain_ext; [|done]. intros y Hy. rewrite lookup_delete_ne; [done|]. congruence.
    + cbn [length] in H5. lia.
    + intros y Hy. destruct (H6 y ltac:(by right)) as (Hyo & j & Hj & Ey). split; [|by exists j].
      rewrite elem_of_cons. intros [->|?]; done.
    + intros j Hj. change (slot (set_links m _) p j) with (slot m p j). rewrite elem_of_cons.
      destruct (H7 j Hj) as [[->|?]%elem_of_cons|?]; auto.
    + intros j Hj. change (slot (set_links m _) p j) with (slot m p j). rewrite elem_of_cons.
      intros [E'|?]; [|by apply (H8 j)]. rewrite Exi in E'. apply Hinj in E'. lia.
Qed.

Lemma give_ok m objs objs' p s t fl i : shape m -> 0 < p -> slab_ok m objs p s t fl -> NoDup objs ->
  0 <= i < objcount m -> objs ≡ₚ slot m p i :: objs' ->
  nfree s < objcount m /\
  slab_ok (set_links m (<[slot m p i := free_list s]> (links m))) objs' p
    (Mslab (slot m p i) (free_offset s) (nfree s + 1) (in_hot_slabs s)) t (slot m p i :: fl).
Proof.
  intros Hsh Hp Hok Hnd Hi Hobj. pose proof Hok as [H1 H2 H3 H4 H5 H6 H7 H8].
  assert (Hin : slot m p i ∈ objs) by (rewrite Hobj; left).
  assert (Hit : i < t) by (destruct (Z.lt_ge_cases i t) as [|Hge]; [done|]; by destruct (H8 i ltac:(lia))).
  assert (Hfl : slot m p i ∉ fl) by (intros Hx; by destruct (H6 _ Hx)).
  rewrite Hobj in Hnd. apply NoDup_cons in Hnd as [Hx' Hnd].
  destruct (shape_bounds m Hsh) as (B1 & B2 & B3 & B4 & B5).
  assert (Hinj : forall i j, slot m p i = slot m p j -> i = j) by (unfold slot; intros; nia).
  assert (Hsub : forall y, y ∈ objs' -> y ∈ objs) by (intros y Hy; rewrite Hobj; by right).
  split; [destruct (fl_length m objs p s t fl Hsh Hok) as [_ Hl]; specialize (Hl i ltac:(lia) Hin); lia|].
  pose proof (slot_bounds m p i Hsh Hi).
  split; cbn [set_links objcount offset objsize free_offset free_list nfree links]; try done.
  - split_and!; [done|lia|]. exists (free_list s). split; [apply lookup_insert_eq|].
    eapply chain_ext; [|done]. intros y Hy. rewrite lookup_insert_ne; [done|]. congruence.
  - by apply NoDup_cons.
  - cbn [length]. lia.
  - intros y [->|Hy]%elem_of_cons; [split; [done|exists i; split; [lia|done]]|].
    destruct (H6 y Hy) as (Hyo & j & Hj & Ey). split; [|by exists j]. intros ?%Hsub. done.
  - intros j Hj. change (slot (set_links m _) p j) with (slot m p j). rewrite elem_of_cons.
    destruct (H7 j Hj) as [?|Hj']; [auto|]. rewrite Hobj in Hj'. apply elem_of_cons in Hj' as [?|?]; auto.
  - intros j Hj. change (slot (set_links m _) p j) with (slot m p j). intros ?%Hsub. by apply (H8 j).
Qed.

(** ** Steps of the pool *)

Definition update (m : mempool) (l : slab_list) (t : mslab_tree) (first : Z) (cold : list Z)
    (h : gmap Z mslab) (L : gmap Z Z) : mempool :=
  Mempool l t first cold (spare m) (objsize m) (slab_order m) (objcount m) (offset m)
    (slab_ptr_mask m) h L.

(** [y] is not an object of the slab at [p]. *)
Definition elsewhere (m : mempool) (p y : Z) : Prop := forall i, 0 <= i < objcount m -> y <> slot m p i.

(** The slab at [p] changes, and what concerns it. *)
Lemma pool_step c m objs O B X d p s s' l t first cold L objs' X' d' tt' fl' :
  pool_inv c m objs O B X d -> headers m !! p = Some s ->
  slabs l = slabs (pool_slabs m) -> total (stats l) = total (stats (pool_slabs m)) ->
  used (stats l) = u64 (objsize m * (Z.of_nat (length objs') + d')) ->
  let m' := update m l t first cold (<[p := s']> (headers m)) L in
  (forall y, elsewhere m p y -> L !! y = links m !! y) ->
  (forall y, elsewhere m p y -> y ∈ objs' <-> y ∈ objs) ->
  NoDup objs' -> slab_ok m' objs' p s' tt' fl' ->
  hot_ok t first (fun q => (q <> p /\ is_hot m q) \/ (q = p /\ in_hot_slabs s' = true)) ->
  (in_hot_slabs s' = true -> 1 <= nfree s') ->
  NoDup cold ->
  (forall q, q ∈ cold -> (q = p /\ in_hot_slabs s' = false /\ 1 <= nfree s') \/ (q <> p /\ q ∈ cold_slabs m)) ->
  (forall q, q <> p -> q ∈ cold_slabs m -> q ∈ cold) ->
  spare m <> p ->
  (in_hot_slabs s' = false -> p ∉ cold -> p ∉ X' -> nfree s' = 0) ->
  (forall q, q ∈ X -> q = p \/ q ∈ X') ->
  pool_inv c m' objs' O B X' d'.
Proof.
  intros Hm Hp Hl1 Hl2 Hl3 m' HL Hobj Hnd Hok Hhot Hfree Hcn Hcold Hcold' Hsp Hfull HX.
  assert (Hps : p ∈ slabs (pool_slabs m)) by (apply (k_headers _ _ _ _ _ _ _ Hm); by exists s).
  pose proof (k_shape _ _ _ _ _ _ _ Hm) as Hsh.
  assert (Hel : forall q i, q ∈ slabs (pool_slabs m) -> q <> p -> 0 <= i < objcount m -> elsewhere m p (slot m q i)).
  { intros q i Hq Hne Hi j Hj E. by destruct (slot_inj _ _ _ _ _ _ _ q p i j Hm Hq Hps Hi Hj E). }
  split; cbn [m' update pool_slabs hot_slabs first_hot_slab cold_slabs spare objsize slab_order objcount offset
    slab_ptr_mask headers links] in *.
  - done.
  - unfold owned. cbn [update pool_slabs slab_order m']. rewrite Hl1. apply (k_cache _ _ _ _ _ _ _ Hm).
  - intros q. rewrite Hl1, (k_headers _ _ _ _ _ _ _ Hm), lookup_insert_is_Some.
    destruct (decide (p = q)) as [<-|Hne]; [|tauto]. split; [by left|]. intros _. by exists s.
  - intros q x [[<- <-]|[Hne Hq]]%lookup_insert_Some; [by exists tt', fl'|].
    destruct (k_slab _ _ _ _ _ _ _ Hm q x Hq) as (t0 & fl0 & Hok0). exists t0, fl0.
    assert (Hqs : q ∈ slabs (pool_slabs m)) by (apply (k_headers _ _ _ _ _ _ _ Hm); by exists x).
    eapply slab_frame; [..|exact Hok0]; [done|]. intros i Hi.
    specialize (Hel q i Hqs ltac:(done) Hi). split; [by apply HL|by apply Hobj].
  - destruct Hhot as (V1 & V2 & V3). split_and!; [done| |done]. intros q. rewrite V2. unfold is_hot.
    cbn [m' update headers]. destruct (decide (q = p)) as [->|Hne].
    + rewrite lookup_insert_eq. split; [intros [[? _]|[_ H]]; [done|by exists s']|].
      intros (x & [= <-] & H). by right.
    + rewrite lookup_insert_ne by done. split; [intros [[_ H]|[? _]]; done|by left].
  - intros q x [[<- <-]|[Hne Hq]]%lookup_insert_Some; [done|by apply (k_hot_free _ _ _ _ _ _ _ Hm q)].
  - split; [done|]. intros q [(-> & H1 & H2)|[Hne Hq]]%Hcold.
    + split; [done|]. exists s'. by rewrite lookup_insert_eq.
    + destruct (proj2 (k_cold _ _ _ _ _ _ _ Hm) q Hq) as (H1 & x & H2). split; [done|].
      exists x. by rewrite lookup_insert_ne.
  - destruct (k_spare _ _ _ _ _ _ _ Hm) as [?|(x & H)]; [by left|right]. exists x.
    by rewrite lookup_insert_ne.
  - intros q x [[<- <-]|[Hne Hq]]%lookup_insert_Some Hx1 Hx2 Hx3 Hx4; [by apply Hfull|].
    apply (k_full _ _ _ _ _ _ _ Hm q x); try done.
    + intros Hc. by apply Hx2, Hcold'.
    + intros Hc. by destruct (HX q Hc).
  - split; [done|]. intros x Hx. rewrite Hl1.
    assert (Hor : elsewhere m p x \/ exists i, 0 <= i < objcount m /\ x = slot m p i).
    { destruct (decide (Exists (fun i => x = slot m p i) (seqZ 0 (objcount m)))) as [He|He].
      - right. apply Exists_exists in He as (i & Hi%elem_of_seqZ & E). exists i. split; [lia|done].
      - left. intros i Hi E. apply He, Exists_exists. exists i. split; [apply elem_of_seqZ; lia|done]. }
    destruct Hor as [He|(i & Hi & E)]; [|by exists p, i].
    apply Hobj in Hx; [|done]. apply (proj2 (k_objs _ _ _ _ _ _ _ Hm) x Hx).
  - done.
  - rewrite Hl1, Hl2. apply (k_total _ _ _ _ _ _ _ Hm).
Qed.

Lemma header_pos c m objs O B X d p s : pool_inv c m objs O B X d -> headers m !! p = Some s ->
  p ∈ slabs (pool_slabs m) /\ 0 < p /\ p mod osize (slab_order m) = 0 /\
  mem c !! p = Some (Slab (osize (slab_order m)) slab_magic (slab_order m) (slab_order m + 1)).
Proof.
  intros Hm Hp. assert (Hps : p ∈ slabs (pool_slabs m)) by (apply (k_headers _ _ _ _ _ _ _ Hm); by exists s).
  destruct (hold_header _ _ _ p (slab_order m) (k_cache _ _ _ _ _ _ _ Hm)) as (H1 & _ & H2 & H3).
  { apply elem_of_app. left. by apply owned_elem. }
  done.
Qed.

Lemma nfree_bounds c m objs O B X d p s : pool_inv c m objs O B X d -> headers m !! p = Some s ->
  0 <= nfree s <= objcount m /\ objcount m < 2 ^ 31.
Proof.
  intros Hm Hp. pose proof (k_shape _ _ _ _ _ _ _ Hm) as Hsh.
  destruct (k_slab _ _ _ _ _ _ _ Hm p s Hp) as (t & fl & Hok).
  destruct (fl_length m objs p s t fl Hsh Hok) as [Hl _]. pose proof (s_range _ _ _ _ _ _ Hok).
  rewrite (s_nfree _ _ _ _ _ _ Hok). destruct (shape_bounds m Hsh) as (B1 & B2 & B3 & B4 & B5). nia.
Qed.

Lemma hot_length c m objs O B X d : pool_inv c m objs O B X d ->
  (length (elements (hot_slabs m)) <= length (slabs (pool_slabs m)))%nat.
Proof.
  intros Hm. destruct (k_hot _ _ _ _ _ _ _ Hm) as (V1 & V2 & _).
  apply submseteq_length, NoDup_submseteq; [apply (sorted_nodup mslab_cmp), (valid_sorted _ _ _ V1)|].
  intros q (s & Hs & _)%V2. apply (k_headers _ _ _ _ _ _ _ Hm). by exists s.
Qed.

Lemma mslab_alloc_spec c m objs O B p s : pool_inv c m objs O B [] 1 ->
  headers m !! p = Some s -> in_hot_slabs s = true ->
  exists x m' i, mslab_alloc m p = Some (x, m') /\ 0 <= i < objcount m /\ x = slot m p i /\
    x ∉ objs /\ pool_inv c m' (x :: objs) O B [] 0 /\ same_sizes m m' /\ slabs (pool_slabs m') = slabs (pool_slabs m).
Proof.
  intros Hm Hp Hhot. destruct (header_pos _ _ _ _ _ _ _ p s Hm Hp) as (Hps & Hp0 & _).
  destruct (nfree_bounds _ _ _ _ _ _ _ p s Hm Hp) as [Hb1 Hb2].
  pose proof (k_hot_free _ _ _ _ _ _ _ Hm p s Hp Hhot) as Hn.
  destruct (k_slab _ _ _ _ _ _ _ Hm p s Hp) as (t & fl & Hok).
  destruct (take_ok m objs p s t fl (k_shape _ _ _ _ _ _ _ Hm) Hp0 Hok Hn)
    as (x & s1 & L1 & i & E & Hi & Ex & Hx & En & Eh & HL & t' & fl' & Hok').
  unfold mslab_alloc. rewrite Hp. cbn [mbind option_bind]. rewrite (proj2 (Z.eqb_neq (nfree s) 0)) by lia.
  cbn [negb]. rewrite E. cbn [mbind option_bind nfree]. rewrite En, u32_small by lia.
  assert (Hsp : spare m <> p).
  { intros Es. destruct (k_spare _ _ _ _ _ _ _ Hm) as [Hz|(s0 & H0 & H1 & _)]; [lia|].
    rewrite Es, Hp in H0. simplify_eq. congruence. }
  assert (Hcold : forall q, q ∈ cold_slabs m -> q <> p).
  { intros q Hq ->. destruct (proj2 (k_cold _ _ _ _ _ _ _ Hm) p Hq) as (_ & s0 & H0 & H1 & _). congruence. }
  assert (HL' : forall y, elsewhere m p y -> L1 !! y = links m !! y)
    by (intros y Hy; apply HL; rewrite Ex; by apply Hy).
  assert (Hobj : forall y, elsewhere m p y -> y ∈ x :: objs <-> y ∈ objs).
  { intros y Hy. rewrite elem_of_cons. split; [intros [->|?]; [by destruct (Hy i)|done]|by right]. }
  assert (Hnd : NoDup (x :: objs)) by (apply NoDup_cons; split; [done|apply (k_objs _ _ _ _ _ _ _ Hm)]).
  assert (Hu : used (stats (pool_slabs m)) = u64 (objsize m * (Z.of_nat (length (x :: objs)) + 0))).
  { rewrite (k_used _ _ _ _ _ _ _ Hm). do 2 f_equal. cbn [length]. lia. }
  destruct (Z.eqb_spec (nfree s - 1) 0) as [Hz|Hz].
  - destruct (hot_remove _ _ _ p (k_hot _ _ _ _ _ _ _ Hm)) as (first' & tr & E1 & E2 & Hhot').
    { by exists s. }
    cbn [set_links hot_slabs first_hot_slab]. rewrite E1. cbn [mbind option_bind]. rewrite E2.
    cbn [mbind option_bind]. eexists x, _, i. split; [done|]. do 3 (split; [done|]). split; [|done].
    refine (pool_step c m objs O B [] 1 p s _ (pool_slabs m) tr first' (cold_slabs m) L1 (x :: objs) [] 0 t' fl'
      Hm Hp eq_refl eq_refl Hu HL' Hobj Hnd _ _ _ _ _ _ Hsp _ _).
    + destruct Hok'; split; done.
    + cbn [set_in_hot in_hot_slabs]. destruct Hhot' as (V1 & V2 & V3). split_and!; [done| |done].
      intros q. rewrite V2. split; [intros [? ?]; left; done|]. intros [[? ?]|[_ ?]]; done.
    + done.
    + apply (k_cold _ _ _ _ _ _ _ Hm).
    + intros q Hq. right. split; [by apply Hcold|done].
    + done.
    + cbn [set_in_hot nfree]. done.
    + by intros q ?%elem_of_nil.
  - eexists x, _, i. split; [done|]. do 3 (split; [done|]). split; [|done].
    refine (pool_step c m objs O B [] 1 p s _ (pool_slabs m) (hot_slabs m) (first_hot_slab m) (cold_slabs m) L1
      (x :: objs) [] 0 t' fl' Hm Hp eq_refl eq_refl Hu HL' Hobj Hnd _ _ _ _ _ _ Hsp _ _).
    + destruct Hok'; split; done.
    + cbn [in_hot_slabs]. rewrite Eh. destruct (k_hot _ _ _ _ _ _ _ Hm) as (V1 & V2 & V3). split_and!; [done| |done].
      intros q. rewrite V2. split.
      * intros Hq. destruct (decide (q = p)) as [->|]; [by right|by left].
      * intros [[_ ?]|[-> _]]; [done|by exists s].
    + cbn [nfree]. lia.
    + apply (k_cold _ _ _ _ _ _ _ Hm).
    + intros q Hq. right. split; [by apply Hcold|done].
    + done.
    + cbn [in_hot_slabs]. rewrite Eh. congruence.
    + by intros q ?%elem_of_nil.
Qed.

Lemma hot_empty c m objs O B X d : pool_inv c m objs O B X d -> first_hot_slab m = NULL ->
  forall p s, headers m !! p = Some s -> in_hot_slabs s = false.
Proof.
  intros Hm Hf p s Hp. destruct (in_hot_slabs s) eqn:Eh; [exfalso|done].
  destruct (k_hot _ _ _ _ _ _ _ Hm) as (V1 & V2 & V3). rewrite Hf in V3.
  assert (Hin : p ∈ elements (hot_slabs m)) by (apply V2; by exists s).
  destruct (elements (hot_slabs m)) as [|y e] eqn:Ee; [by apply elem_of_nil in Hin|]. simpl in V3. subst y.
  assert (Hy : is_hot m NULL) by (apply V2; left). destruct Hy as (s0 & H0 & _).
  destruct (header_pos _ _ _ _ _ _ _ _ _ Hm H0) as (_ & ? & _). lia.
Qed.

Lemma pool_unspare c m objs O B X d : pool_inv c m objs O B X d ->
  pool_inv c (set_spare m NULL) objs O B (spare m :: X) d.
Proof.
  intros Hm. destruct Hm as [K1 K2 K3 K4 K5 K6 K7 K8 K9 K10 K11 K12] eqn:EH. split; try done.
  - intros p s Hp. destruct (K4 p s Hp) as (t & fl & [H1 H2 H3 H4 H5 H6 H7 H8]). exists t, fl. by split.
  - destruct K7 as [K7 K7']. split; [done|]. intros p Hp. destruct (K7' p Hp) as (_ & s & H1 & H2 & H3).
    split; [|by exists s]. destruct (header_pos _ _ _ _ _ _ _ _ _ Hm H1) as (_ & ? & _). cbn. lia.
  - by left.
  - intros p s H1 H2 H3 H4 H5. apply (K9 p s H1 H2 H3); [|intros ?; apply H5; by right].
    intros ->. apply H5. left.
Qed.

Lemma pool_uncold c m objs O B d p rest : pool_inv c m objs O B [] d -> cold_slabs m = p :: rest ->
  pool_inv c (set_cold m rest) objs O B [p] d.
Proof.
  intros Hm Hc. destruct Hm as [K1 K2 K3 K4 K5 K6 K7 K8 K9 K10 K11 K12]. split; try done.
  - intros q s Hq. destruct (K4 q s Hq) as (t & fl & [H1 H2 H3 H4 H5 H6 H7 H8]). exists t, fl. by split.
  - rewrite Hc in K7. destruct K7 as [[_ N]%NoDup_cons K7']. split; [done|]. intros q Hq. apply K7'. by right.
  - intros q s H1 H2 H3 H4 H5. apply (K9 q s H1 H2); [|done|by intros ?%elem_of_nil].
    rewrite Hc. intros [->|?]%elem_of_cons; [apply H5; left|done].
Qed.

(** A slab the cache hands out is none of the pool's, and no object lies in it. *)
Lemma pool_fresh c m objs O B d c' p :
  pool_inv c m objs O B [] d -> hold c' ((p, slab_order m) :: owned m ++ O) B ->
  headers m !! p = None /\ p ∉ cold_slabs m /\ p <> spare m /\
  forall i x, 0 <= i < objcount m -> x ∈ objs -> x <> slot m p i.
Proof.
  intros Hm Hc'. destruct (hold_apart _ _ _ Hc') as [Hnd Hd]. apply NoDup_cons in Hnd as [Hnew _].
  destruct (hold_header _ _ _ p (slab_order m) Hc' ltac:(left)) as (_ & _ & Hp0 & _).
  assert (Hps : p ∉ slabs (pool_slabs m)).
  { intros Hp%owned_elem. apply Hnew, elem_of_app. by left. }
  assert (Hno : headers m !! p = None).
  { destruct (headers m !! p) eqn:E; [|done]. exfalso. apply Hps, (k_headers _ _ _ _ _ _ _ Hm). by eexists. }
  pose proof (k_shape _ _ _ _ _ _ _ Hm) as Hsh. split_and!; [done|..].
  - intros Hp. destruct (proj2 (k_cold _ _ _ _ _ _ _ Hm) p Hp) as (_ & s & ? & _). congruence.
  - intros ->. destruct (k_spare _ _ _ _ _ _ _ Hm) as [?|(s & ? & _)]; [lia|congruence].
  - intros i x Hi Hx E. destruct (proj2 (k_objs _ _ _ _ _ _ _ Hm) x Hx) as (q & j & Hq & Hj & Ex).
    pose proof (slot_bounds m p i Hsh Hi). pose proof (slot_bounds m q j Hsh Hj).
    destruct (shape_bounds m Hsh) as (_ & _ & _ & H8 & _).
    assert (p = q); [|congruence].
    apply (Hd p (slab_order m) q (slab_order m) x); [left|right; apply elem_of_app; left; by apply owned_elem|lia|lia].
Qed.

Lemma pool_add c m objs O B d c' p :
  pool_inv c m objs O B [] d -> hold c' ((p, slab_order m) :: owned m ++ O) B ->
  let m' := set_pool_slabs (mslab_create m p) (slab_list_add p (osize (slab_order m)) (pool_slabs m)) in
  pool_inv c' m' objs O B [p] d /\ headers m' !! p = Some (Mslab NULL (offset m) (objcount m) false) /\
  p ∉ cold_slabs m /\ p <> spare m.
Proof.
  intros Hm Hc'. destruct (pool_fresh c m objs O B d c' p Hm Hc') as (Hno & Hcold & Hsp & Hfar).
  pose proof (k_shape _ _ _ _ _ _ _ Hm) as Hsh.
  intros m'. split; [|split_and!; [apply lookup_insert_eq|done|done]].
  destruct Hm as [K1 K2 K3 K4 K5 K6 K7 K8 K9 K10 K11 K12].
  assert (Hlk : forall q s, headers m' !! q = Some s <->
    (q = p /\ s = Mslab NULL (offset m) (objcount m) false) \/ (q <> p /\ headers m !! q = Some s)).
  { intros q s. cbn [m' set_pool_slabs mslab_create write_header set_headers headers]. rewrite lookup_insert_Some.
    split; [intros [[<- <-]|[? ?]]|intros [[-> ->]|[? ?]]]; [by left|by right|by left|by right]. }
  split; try done.
  - intros q. cbn [m' set_pool_slabs pool_slabs slab_list_add add_total set_slabs slabs mslab_create write_header set_headers headers].
    rewrite elem_of_cons, K3, lookup_insert_is_Some. destruct (decide (q = p)) as [->|Hne].
    + split; [by left|by left].
    + split; [intros [?|?]; [done|right; done]|intros [?|[_ ?]]; [done|by right]].
  - intros q s [[-> ->]|[Hne Hq]]%Hlk.
    + exists 0, []. split; cbn; try done.
      * destruct (shape_bounds m Hsh). lia.
      * lia.
      * constructor.
      * lia.
      * by intros x ?%elem_of_nil.
      * lia.
      * intros i Hi Hx. by apply (Hfar i _ Hi Hx).
    + destruct (K4 q s Hq) as (t & fl & [H1 H2 H3 H4 H5 H6 H7 H8]). exists t, fl. by split.
  - destruct K5 as (V1 & V2 & V3). split_and!; [done| |done]. intros q.
    transitivity (is_hot m q); [exact (V2 q)|]. unfold is_hot. split; intros (s & Hs & Hh); exists s.
    + split; [|done]. apply Hlk. right. split; [|done]. intros ->. congruence.
    + apply Hlk in Hs as [[-> ->]|[_ Hs]]; done.
  - intros q s [[-> ->]|[Hne Hq]]%Hlk; [done|by apply (K6 q)].
  - destruct K7 as [K7 K7']. split; [done|]. intros q Hq. destruct (K7' q Hq) as (H1 & s & H2 & H3). split; [done|].
    exists s. split; [|done]. apply Hlk. right. split; [|done]. intros ->. congruence.
  - destruct K8 as [?|(s & H2 & H3)]; [by left|right]. exists s. split; [|done]. apply Hlk. right.
    split; [|done]. cbn. intros E. rewrite E in H2. congruence.
  - intros q s [[-> ->]|[Hne Hq]]%Hlk H2 H3 H4 H5; [exfalso; apply H5; left|].
    apply (K9 q s); try done. by intros ?%elem_of_nil.
  - destruct K10 as [K10 K10']. split; [done|]. intros x Hx. destruct (K10' x Hx) as (q & i & Hq & Hi).
    exists q, i. split; [by right|done].
  - cbn [m' set_pool_slabs pool_slabs slab_list_add add_total set_slabs slabs stats total]. rewrite K12, u64_add_l.
    cbn [length]. change (slab_order m') with (slab_order m). f_equal. lia.
Qed.

Lemma pool_activate c m objs O B d p s :
  pool_inv c m objs O B [p] d -> headers m !! p = Some s -> first_hot_slab m = NULL ->
  p ∉ cold_slabs m -> p <> spare m -> 1 <= nfree s ->
  Z.of_nat (length (slabs (pool_slabs m))) < 2 ^ 62 ->
  exists t, mslab_tree_insert (hot_slabs m) p = Some t /\
    pool_inv c (set_hot (write_header m p (set_in_hot s true)) t p) objs O B [] d.
Proof.
  intros Hm Hp Hf Hc Hsp Hn Hlen. pose proof (hot_empty _ _ _ _ _ _ _ Hm Hf) as He.
  destruct (hot_insert (hot_slabs m) (first_hot_slab m) (is_hot m) p (k_hot _ _ _ _ _ _ _ Hm)) as (t & E & Hhot).
  - intros (s0 & H0 & H1). rewrite (He _ _ H0) in H1. done.
  - intros q (s0 & H0 & H1). rewrite (He _ _ H0) in H1. done.
  - pose proof (hot_length _ _ _ _ _ _ _ Hm). lia.
  - exists t. split; [done|]. rewrite Hf in Hhot. cbn [Z.eqb orb] in Hhot.
    destruct (k_slab _ _ _ _ _ _ _ Hm p s Hp) as (t0 & fl & Hok).
    refine (pool_step c m objs O B [p] d p s _ (pool_slabs m) t p (cold_slabs m) (links m) objs [] d t0 fl
      Hm Hp eq_refl eq_refl (k_used _ _ _ _ _ _ _ Hm) _ _ _ _ _ _ _ _ _ _ _ _); try done.
    + apply (k_objs _ _ _ _ _ _ _ Hm).
    + destruct Hok; by split.
    + destruct Hhot as (V1 & V2 & V3). split_and!; [done| |done]. intros q. rewrite V2. split.
      * intros [Hq| ->]; [|by right]. left. split; [|done]. intros ->. destruct Hq as (s0 & H0 & H1).
        rewrite (He _ _ H0) in H1. done.
      * intros [[_ ?]|[-> _]]; [by left|by right].
    + apply (k_cold _ _ _ _ _ _ _ Hm).
    + intros q Hq. right. split; [|done]. congruence.
    + intros q Hq. apply list_elem_of_singleton in Hq. by left.
Qed.

(** The counter of used bytes runs ahead of the objects. *)
Lemma pool_count c m objs O B X d n :
  pool_inv c m objs O B X d ->
  pool_inv c (set_pool_slabs m (add_used (n * objsize m) (pool_slabs m))) objs O B X (d + n).
Proof.
  intros [K1 K2 K3 K4 K5 K6 K7 K8 K9 K10 K11 K12]. split; try done.
  - intros p s Hp. destruct (K4 p s Hp) as (t & fl & [H1 H2 H3 H4 H5 H6 H7 H8]). exists t, fl. by split.
  - cbn [set_pool_slabs pool_slabs add_used stats used objsize]. rewrite K11, u64_add_l. f_equal. lia.
Qed.

(** The slab [mempool_alloc] allocates from. *)
Lemma choose_slab c m objs O B : pool_inv c m objs O B [] 0 ->
  Z.of_nat (length (slabs (pool_slabs m))) + 1 < 2 ^ 62 -> first_hot_slab m = NULL ->
  exists p c' m', pick_slab c m = Some (p, c', m') /\
    ((p = NULL /\ m' = m /\ pool_inv c' m objs O B [] 0 /\
      (forall q s, headers m !! q = Some s -> nfree s = 0) /\
      slab_get_with_order c (slab_order m) = Some (NULL, c')) \/
     (exists s, headers m' !! p = Some s /\ in_hot_slabs s = false /\ 1 <= nfree s /\ 0 < p /\
      pool_inv c' m' objs O B [p] 0 /\ p ∉ cold_slabs m' /\ p <> spare m' /\ first_hot_slab m' = NULL /\
      same_sizes m m' /\ (length (slabs (pool_slabs m')) <= length (slabs (pool_slabs m)) + 1)%nat)).
Proof.
  intros Hm Hlen Hf. destruct (shape_bounds m (k_shape _ _ _ _ _ _ _ Hm)) as (_ & _ & _ & _ & Hcnt).
  unfold pick_slab.
  destruct (Z.eqb_spec (spare m) NULL) as [Hsp|Hsp]; cbn [negb].
  2:{ eexists _, _, _. split; [done|]. right. destruct (k_spare _ _ _ _ _ _ _ Hm) as [?|(s & H1 & H2 & H3)]; [done|].
      exists s. destruct (header_pos _ _ _ _ _ _ _ _ _ Hm H1) as (_ & Hp & _).
      split_and!; try done; [lia|by apply pool_unspare| |cbn; lia].
      intros Hc. by destruct (proj2 (k_cold _ _ _ _ _ _ _ Hm) _ Hc). }
  destruct (k_shape _ _ _ _ _ _ _ Hm) as (_ & Hord & _).
  destruct (hold_get c _ B (slab_order m) (k_cache _ _ _ _ _ _ _ Hm) Hord) as (p & c' & Eg & Hp).
  rewrite Eg. cbn [mbind option_bind]. destruct Hp as [[-> Hc']|(Hp & Hc' & Hh)].
  - cbn [Z.eqb negb]. assert (Hm' : pool_inv c' m objs O B [] 0) by (by destruct Hm; split).
    destruct (cold_slabs m) as [|p rest] eqn:Ec.
    + eexists _, _, _. split; [done|]. left. split_and!; try done. intros q s Hq.
      apply (k_full _ _ _ _ _ _ _ Hm q s Hq); [by eapply hot_empty| | |by intros ?%elem_of_nil].
      * rewrite Ec. by intros ?%elem_of_nil.
      * rewrite Hsp. destruct (header_pos _ _ _ _ _ _ _ _ _ Hm Hq) as (_ & ? & _). lia.
    + eexists _, _, _. split; [done|]. right.
      destruct (k_cold _ _ _ _ _ _ _ Hm) as [Hnd Hcold]. rewrite Ec in Hnd, Hcold.
      destruct (Hcold p ltac:(left)) as (Hne & s & H1 & H2 & H3). exists s.
      destruct (header_pos _ _ _ _ _ _ _ _ _ Hm H1) as (_ & Hp & _).
      split_and!; try done; [by apply pool_uncold|by apply NoDup_cons in Hnd as [? _]|cbn; lia].
  - rewrite (proj2 (Z.eqb_neq p NULL)) by lia. cbn [negb]. rewrite Hh. cbn [mbind option_bind size].
    destruct (pool_add c m objs O B 0 c' p Hm Hc') as (Hm' & Hhd & Hnc & Hns).
    eexists _, _, _. split; [done|]. right. eexists. split; [exact Hhd|].
    split_and!; try done. cbn. lia.
Qed.

Lemma mempool_alloc_inv c m objs O B : pool_inv c m objs O B [] 0 ->
  Z.of_nat (length (slabs (pool_slabs m))) + 1 < 2 ^ 62 ->
  exists x c' m', mempool_alloc c m = Some (x, c', m') /\ same_sizes m m' /\
    ((x = NULL /\ m' = m /\ pool_inv c' m' objs O B [] 0 /\ (forall q s, headers m' !! q = Some s -> nfree s = 0) /\
      slab_get_with_order c (slab_order m) = Some (NULL, c')) \/
     (0 < x /\ x ∉ objs /\ pool_inv c' m' (x :: objs) O B [] 0)).
Proof.
  intros Hm Hlen.
  assert (Hend : forall c1 m1 p s, pool_inv c1 m1 objs O B [] 0 -> same_sizes m m1 ->
    headers m1 !! p = Some s -> in_hot_slabs s = true ->
    exists x m', ('(ptr, m) ← mslab_alloc (set_pool_slabs m1 (add_used (objsize m1) (pool_slabs m1))) p;
      ASSERT negb (ptr =? NULL); Some (ptr, c1, m)) = Some (x, c1, m') /\ same_sizes m m' /\
      0 < x /\ x ∉ objs /\ pool_inv c1 m' (x :: objs) O B [] 0).
  { intros c1 m1 p s Hm1 Hsz Hp Hh. pose proof (pool_count _ _ _ _ _ _ _ 1 Hm1) as Hm2.
    rewrite Z.mul_1_l, Z.add_0_l in Hm2.
    destruct (mslab_alloc_spec _ _ objs O B p s Hm2 Hp Hh) as (x & m3 & i & E & Hi & Ex & Hx & Hm3 & Hsz3 & _).
    rewrite E. cbn [mbind option_bind].
    destruct (header_pos _ _ _ _ _ _ _ p s Hm2 Hp) as (_ & Hp0 & _).
    pose proof (slot_bounds _ p i (k_shape _ _ _ _ _ _ _ Hm2) Hi) as Hb. rewrite <- Ex in Hb.
    rewrite (proj2 (Z.eqb_neq x NULL)) by lia. exists x, m3. split_and!; try done; [|lia].
    destruct Hsz as (S1 & S2 & S3), Hsz3 as (T1 & T2 & T3). split_and!; cbn in *; congruence. }
  unfold mempool_alloc. destruct (Z.eqb_spec (first_hot_slab m) NULL) as [Hf|Hf].
  - destruct (choose_slab c m objs O B Hm Hlen Hf) as (p & c' & m' & -> & Hp). cbn [mbind option_bind].
    destruct Hp as [(-> & -> & Hm' & Hfull & Hget)|(s & Hs & Hh & Hn & Hp & Hm' & Hnc & Hns & Hf' & Hsz & Hlen')].
    + cbn [Z.eqb mbind option_bind]. eexists _, _, _. split; [done|]. split; [done|]. by left.
    + rewrite (proj2 (Z.eqb_neq p NULL)) by lia. rewrite Hs. cbn [mbind option_bind]. rewrite Hh. cbn [negb].
      destruct (pool_activate c' m' objs O B 0 p s Hm' Hs Hf' Hnc Hns Hn ltac:(lia)) as (t & -> & Hm2).
      cbn [mbind option_bind]. rewrite (proj2 (Z.eqb_neq p NULL)) by lia.
      edestruct (Hend c' _ p (set_in_hot s true) Hm2) as (x & m3 & -> & Hsz3 & Hx); [done|apply lookup_insert_eq|done|].
      eexists _, _, _. split; [done|]. split; [done|]. by right.
  - cbn [mbind option_bind]. rewrite (proj2 (Z.eqb_neq _ NULL)) by done.
    destruct (k_hot _ _ _ _ _ _ _ Hm) as (V1 & V2 & V3).
    assert (Hhot : is_hot m (first_hot_slab m)).
    { apply V2. destruct (elements (hot_slabs m)); [done|]. rewrite V3. left. }
    destruct Hhot as (s & Hs & Hh).
    destruct (Hend c m _ s Hm ltac:(done) Hs Hh) as (x & m3 & -> & Hsz3 & Hx).
    eexists _, _, _. split; [done|]. split; [done|]. by right.
Qed.

(** ** Freeing *)

Lemma pool_respare c m objs O B X X' d p s : pool_inv c m objs O B X d -> spare m = NULL ->
  headers m !! p = Some s -> in_hot_slabs s = false -> nfree s = objcount m -> p ∉ cold_slabs m ->
  (forall q, q ∈ X -> q = p \/ q ∈ X') ->
  pool_inv c (set_spare m p) objs O B X' d.
Proof.
  intros Hm Hsp Hp Hh Hn Hc HX. destruct (header_pos _ _ _ _ _ _ _ _ _ Hm Hp) as (_ & Hp0 & _).
  pose proof (header_pos c m objs O B X d) as Hpos. specialize (fun q x => Hpos q x Hm).
  destruct Hm as [K1 K2 K3 K4 K5 K6 K7 K8 K9 K10 K11 K12]. split; try done.
  - intros q x Hq. destruct (K4 q x Hq) as (t & fl & [H1 H2 H3 H4 H5 H6 H7 H8]). exists t, fl. by split.
  - destruct K7 as [K7 K7']. split; [done|]. intros q Hq. destruct (K7' q Hq) as (_ & x & H1).
    split; [|by exists x]. intros ->. by apply Hc.
  - right. by exists s.
  - intros q x H1 H2 H3 H4 H5. apply (K9 q x H1 H2 H3).
    + rewrite Hsp. destruct (Hpos q x H1) as (_ & ? & _). lia.
    + intros Hq. by destruct (HX q Hq).
Qed.

(** A slab all of whose objects are free has none in use. *)
Lemma idle_slab m objs p s : shape m -> (exists t fl, slab_ok m objs p s t fl) -> nfree s = objcount m ->
  forall i, 0 <= i < objcount m -> slot m p i ∉ objs.
Proof.
  intros Hsh (t & fl & Hok) Hn i Hi Hx. destruct (Z.lt_ge_cases i t) as [Hlt|Hge].
  - destruct (fl_length m objs p s t fl Hsh Hok) as [_ Hl]. specialize (Hl i ltac:(lia) Hx).
    rewrite (s_nfree _ _ _ _ _ _ Hok) in Hn. lia.
  - by apply (s_fresh _ _ _ _ _ _ Hok i); [lia|].
Qed.

Lemma pool_drop c m objs O B X X' d p s : pool_inv c m objs O B X d -> headers m !! p = Some s ->
  in_hot_slabs s = false -> nfree s = objcount m -> p ∉ cold_slabs m -> p <> spare m ->
  (forall q, q ∈ X -> q = p \/ q ∈ X') ->
  exists l c', slab_list_del p (osize (slab_order m)) (pool_slabs m) = Some l /\
    slab_put_with_order c p = Some c' /\
    pool_inv c' (set_headers (set_pool_slabs m l) (delete p (headers m))) objs O B X' d /\
    (length (slabs l) <= length (slabs (pool_slabs m)))%nat.
Proof.
  intros Hm Hp Hh Hn Hc Hsp HX. destruct (header_pos _ _ _ _ _ _ _ _ _ Hm Hp) as (Hps & Hp0 & _).
  destruct (list_remove_elem p _ Hps) as (l' & Er & HP). unfold slab_list_del. rewrite Er. cbn [mbind option_bind].
  assert (HO : owned m ++ O ≡ₚ (p, slab_order m) :: ((fun q => (q, slab_order m)) <$> l') ++ O)
    by (unfold owned; rewrite HP; done).
  destruct (hold_put c _ B p (slab_order m) _ (k_cache _ _ _ _ _ _ _ Hm) HO) as (c' & Ep & Hc').
  assert (Hnd : NoDup (p :: l')).
  { destruct (hold_apart _ _ _ (k_cache _ _ _ _ _ _ _ Hm)) as [Hnd _]. apply NoDup_app in Hnd as [Hnd _].
    rewrite <- HP. by apply NoDup_fmap_1 in Hnd. }
  apply NoDup_cons in Hnd as [Hpl Hnd].
  pose proof (idle_slab m objs p s (k_shape _ _ _ _ _ _ _ Hm) (k_slab _ _ _ _ _ _ _ Hm p s Hp) Hn) as Hidle.
  eexists _, c'. split; [done|]. split; [done|]. split; [|cbn; rewrite HP; cbn; lia].
  destruct Hm as [K1 K2 K3 K4 K5 K6 K7 K8 K9 K10 K11 K12].
  split; cbn [set_headers set_pool_slabs headers pool_slabs add_total set_slabs slabs stats used total
    cold_slabs spare objcount objsize slab_order]; try done.
  - intros q. rewrite lookup_delete_is_Some, <- K3, HP, elem_of_cons. split.
    + intros Hq. split; [|by right]. intros ->. done.
    + intros [Hne [->|?]]; done.
  - intros q x [Hne Hq]%lookup_delete_Some. destruct (K4 q x Hq) as (t & fl & [H1 H2 H3 H4 H5 H6 H7 H8]).
    exists t, fl. by split.
  - destruct K5 as (V1 & V2 & V3). split_and!; [done| |done]. intros q. rewrite V2. unfold is_hot. cbn [set_headers headers].
    split; intros (x & Hx & Hx'); exists x; [|by apply lookup_delete_Some in Hx as [_ ?]].
    split; [|done]. apply lookup_delete_Some. split; [|done]. intros ->. congruence.
  - intros q x [Hne Hq]%lookup_delete_Some. by apply (K6 q).
  - destruct K7 as [K7 K7']. split; [done|]. intros q Hq. destruct (K7' q Hq) as (H1 & x & H2). split; [done|].
    exists x. rewrite lookup_delete_ne; [done|]. intros ->. done.
  - destruct K8 as [?|(x & H2)]; [by left|right]. exists x. by rewrite lookup_delete_ne.
  - intros q x [Hne Hq]%lookup_delete_Some H2 H3 H4 H5. apply (K9 q x); try done. intros Hx.
    destruct (HX q Hx); [by subst|done].
  - destruct K10 as [K10 K10']. split; [done|]. intros x Hx. destruct (K10' x Hx) as (q & i & Hq & Hi & Ex).
    exists q, i. split; [|done]. rewrite HP in Hq. apply elem_of_cons in Hq as [->|?]; [|done].
    exfalso. apply (Hidle i Hi). by rewrite <- Ex.
  - rewrite K12, u64_add_l, HP. cbn [length]. f_equal. lia.
Qed.

(** The spare slab goes back to the cache. *)
Lemma free_spare_slab_inv c m objs O B X d : pool_inv c m objs O B X d -> spare m <> NULL -> spare m ∉ X ->
  exists c' m', mempool_free_spare_slab c m = Some (c', m') /\ pool_inv c' m' objs O B X d /\ same_sizes m m' /\
    spare m' = NULL /\ cold_slabs m' = cold_slabs m /\ (forall q, q <> spare m -> headers m' !! q = headers m !! q) /\
    (length (slabs (pool_slabs m')) <= length (slabs (pool_slabs m)))%nat.
Proof.
  intros Hm Hz HX. destruct (k_spare _ _ _ _ _ _ _ Hm) as [?|(s0 & H0 & H1 & H2)]; [done|].
  destruct (header_pos _ _ _ _ _ _ _ _ _ Hm H0) as (_ & Hs0 & _ & Hhd0).
  assert (Hsc : spare m ∉ cold_slabs m).
  { intros Hx. by destruct (proj2 (k_cold _ _ _ _ _ _ _ Hm) _ Hx). }
  unfold mempool_free_spare_slab. rewrite (proj2 (Z.eqb_neq _ NULL)) by done. cbn [negb].
  rewrite Hhd0. cbn [mbind option_bind size].
  destruct (pool_drop c (set_spare m NULL) objs O B _ X d (spare m) s0 (pool_unspare _ _ _ _ _ _ _ Hm))
    as (l & c' & E1 & E2 & Hm' & Hlen); [done..| |].
  { intros q [->|Hq]%elem_of_cons; [by left|by right]. }
  cbn [set_spare pool_slabs slab_order] in E1. rewrite E1. cbn [mbind option_bind]. rewrite E2.
  cbn [mbind option_bind]. eexists _, _. split; [done|]. split; [exact Hm'|]. split_and!; try done.
  intros q Hq. cbn [set_spare set_headers set_pool_slabs headers]. by rewrite lookup_delete_ne.
Qed.

(** The last step of [mslab_free] for a slab [p] whose objects are all free. *)
Lemma pool_retire c m objs O B p s : pool_inv c m objs O B [p] 0 -> headers m !! p = Some s ->
  in_hot_slabs s = false -> nfree s = objcount m -> p ∉ cold_slabs m -> p <> spare m ->
  exists c' m', (if spare m >? p then
      '(c, m) ← mempool_free_spare_slab c m;
      Some (c, set_spare m p)
    else if negb (spare m =? NULL) then
      h ← mem c !! p;
      l ← slab_list_del p (size h) (pool_slabs m);
      c ← slab_put_with_order c p;
      Some (c, set_headers (set_pool_slabs m l) (delete p (headers m)))
    else Some (c, set_spare m p)) = Some (c', m') /\
    pool_inv c' m' objs O B [] 0 /\ same_sizes m m' /\
    (length (slabs (pool_slabs m')) <= length (slabs (pool_slabs m)))%nat.
Proof.
  intros Hm Hp Hh Hn Hc Hsp. destruct (header_pos _ _ _ _ _ _ _ _ _ Hm Hp) as (_ & Hp0 & _ & Hhd).
  destruct (Z.eqb_spec (spare m) NULL) as [Hz|Hz].
  { rewrite Hz. destruct (Z.gtb_spec NULL p); [lia|]. cbn [negb]. eexists _, _. split; [done|].
    split; [|done]. apply (pool_respare c m objs O B [p] [] 0 p s); try done.
    intros q ?%list_elem_of_singleton. by left. }
  cbn [negb]. destruct (Z.gtb_spec (spare m) p) as [Hgt|Hle].
  - destruct (free_spare_slab_inv c m objs O B [p] 0 Hm Hz) as (c' & m' & -> & Hm' & Hsz & Hs' & Hcs & Hhs & Hlen).
    { intros ?%list_elem_of_singleton. lia. }
    cbn [mbind option_bind]. eexists _, _. split; [done|]. split; [|by split].
    apply (pool_respare _ _ objs O B [p] [] 0 p s Hm'); try done.
    + by rewrite Hhs.
    + destruct Hsz as (_ & -> & _). done.
    + by rewrite Hcs.
    + intros q ?%list_elem_of_singleton. by left.
  - rewrite Hhd. cbn [mbind option_bind size].
    destruct (pool_drop c m objs O B [p] [] 0 p s Hm Hp) as (l & c' & E1 & E2 & Hm' & Hlen); [done..| |].
    { intros q ?%list_elem_of_singleton. by left. }
    rewrite E1. cbn [mbind option_bind]. rewrite E2. cbn [mbind option_bind]. eexists _, _.
    split; [done|]. split; [done|]. done.
Qed.

(** [rlist_del_entry] of the cold list, whether the slab is in it or not. *)
Lemma cold_remove p l : NoDup l ->
  let l' := default l (list_remove p l) in NoDup l' /\ forall q, q ∈ l' <-> q ∈ l /\ q <> p.
Proof.
  intros Hnd. destruct (decide (p ∈ l)) as [Hp|Hp].
  - destruct (list_remove_elem p l Hp) as (l' & E & HP). rewrite E. cbn [default].
    rewrite HP in Hnd. apply NoDup_cons in Hnd as [Hx Hnd]. split; [done|]. intros q. rewrite HP, elem_of_cons.
    split; [intros Hq; split; [by right|by intros ->]|]. by intros [[->|?] ?].
  - assert (E : list_remove p l = None).
    { clear Hnd. induction l as [|y l IH]; [done|]. cbn [list_remove]. apply not_elem_of_cons in Hp as [Hne Hp].
      rewrite (proj2 (Z.eqb_neq p y)) by done. by rewrite (IH Hp). }
    rewrite E. split; [done|]. intros q. split; [intros Hq; split; [done|by intros ->]|]. by intros [? _].
Qed.

Section Free.
Context (c : slab_cache) (m : mempool) (objs objs' : list Z) (O B : list (Z * Z)) (p i : Z) (s : mslab).
Context (Hm : pool_inv c m objs O B [] (-1)) (Hp : headers m !! p = Some s) (Hi : 0 <= i < objcount m)
  (Hobj : objs ≡ₚ slot m p i :: objs') (Hlen : Z.of_nat (length (slabs (pool_slabs m))) < 2 ^ 62).
Local Abbreviation x := (slot m p i).
Local Abbreviation L' := (<[x := free_list s]> (links m)).

Lemma free_nodup : NoDup objs'.
Proof.
  pose proof (proj1 (k_objs _ _ _ _ _ _ _ Hm)) as Hnd. rewrite Hobj in Hnd. by apply NoDup_cons in Hnd as [_ ?].
Qed.

Lemma free_spare : nfree s < objcount m /\ p <> spare m.
Proof.
  destruct (header_pos _ _ _ _ _ _ _ _ _ Hm Hp) as (_ & Hp0 & _).
  destruct (k_slab _ _ _ _ _ _ _ Hm p s Hp) as (t & fl & Hok).
  destruct (give_ok m objs objs' p s t fl i (k_shape _ _ _ _ _ _ _ Hm) Hp0 Hok (proj1 (k_objs _ _ _ _ _ _ _ Hm)) Hi Hobj)
    as [Hn _].
  split; [done|]. intros E. destruct (k_spare _ _ _ _ _ _ _ Hm) as [?|(s0 & H0 & _ & H1)]; [lia|].
  rewrite <- E, Hp in H0. simplify_eq. lia.
Qed.

(** The slab after the object went back to its free list, in the tree if [hot]. *)
Lemma free_step hot t first cold X :
  hot_ok t first (fun q => (q <> p /\ is_hot m q) \/ (q = p /\ hot = true)) ->
  NoDup cold ->
  (forall q, q ∈ cold -> (q = p /\ hot = false) \/ (q <> p /\ q ∈ cold_slabs m)) ->
  (forall q, q <> p -> q ∈ cold_slabs m -> q ∈ cold) ->
  (hot = false -> p ∈ cold \/ p ∈ X) ->
  pool_inv c (update m (pool_slabs m) t first cold
    (<[p := Mslab x (free_offset s) (nfree s + 1) hot]> (headers m)) L') objs' O B X 0.
Proof.
  intros Hhot Hcn Hc1 Hc2 HX. destruct (header_pos _ _ _ _ _ _ _ _ _ Hm Hp) as (_ & Hp0 & _).
  destruct (k_slab _ _ _ _ _ _ _ Hm p s Hp) as (t0 & fl & Hok).
  destruct (give_ok m objs objs' p s t0 fl i (k_shape _ _ _ _ _ _ _ Hm) Hp0 Hok (proj1 (k_objs _ _ _ _ _ _ _ Hm)) Hi Hobj)
    as [Hn Hok'].
  destruct (nfree_bounds _ _ _ _ _ _ _ p s Hm Hp) as [Hb1 Hb2].
  refine (pool_step c m objs O B [] (-1) p s (Mslab x (free_offset s) (nfree s + 1) hot) (pool_slabs m)
    t first cold L' objs' X 0 t0 (x :: fl)
    Hm Hp eq_refl eq_refl _ _ _ free_nodup _ Hhot _ Hcn _ Hc2 _ _ _).
  - rewrite (k_used _ _ _ _ _ _ _ Hm), Hobj. cbn [length]. do 2 f_equal. lia.
  - intros y Hy. rewrite lookup_insert_ne; [done|]. apply not_eq_sym. by apply Hy.
  - intros y Hy. rewrite Hobj, elem_of_cons. split; [by right|]. intros [->|?]; [by destruct (Hy i)|done].
  - destruct Hok'; split; done.
  - cbn [nfree]. lia.
  - intros q [[-> ?]|?]%Hc1; [left|by right]. cbn [nfree]. split_and!; [done|done|lia].
  - apply not_eq_sym, free_spare.
  - intros Hh H1 H2. by destruct (HX Hh).
  - by intros q ?%elem_of_nil.
Qed.

Lemma cold_threshold n : 0 <= n -> 0 <= Z.shiftr n MAX_COLD_FRACTION_LB <= n.
Proof.
  intros Hn. unfold MAX_COLD_FRACTION_LB. rewrite Z.shiftr_div_pow2 by lia. change (2 ^ 3) with 8.
  split; [apply Z.div_pos; lia|apply Z.div_le_upper_bound; lia].
Qed.

Lemma mslab_free_hot : in_hot_slabs s = true -> exists c' m', mslab_free c m p x = Some (c', m') /\
  pool_inv c' m' objs' O B [] 0 /\ same_sizes m m' /\
  (length (slabs (pool_slabs m')) <= length (slabs (pool_slabs m)))%nat.
Proof.
  intros Eh. destruct free_spare as [Hn Hsp]. destruct (nfree_bounds _ _ _ _ _ _ _ p s Hm Hp) as [Hb1 Hb2].
  destruct (k_cold _ _ _ _ _ _ _ Hm) as [Hcn Hcold].
  pose proof (k_hot _ _ _ _ _ _ _ Hm) as Hhot. pose proof Hhot as (V1 & V2 & V3).
  unfold mslab_free. rewrite Hp. cbn [mbind option_bind in_hot_slabs nfree].
  change (objcount (write_header _ _ _)) with (objcount m). rewrite u32_small by lia. rewrite Eh. cbn [negb andb].
  pose proof (k_hot_free _ _ _ _ _ _ _ Hm p s Hp Eh) as Hfree.
  assert (Hnc : forall q, q ∈ cold_slabs m -> q <> p).
  { intros q Hq ->. destruct (Hcold p Hq) as (_ & s0 & H0 & H1 & _). congruence. }
  rewrite (proj2 (Z.eqb_neq (nfree s + 1) 1)) by lia.
  destruct (Z.eqb_spec (nfree s + 1) (objcount m)) as [Hz|Hz].
  - destruct (hot_remove _ _ _ p Hhot) as (first' & tr & E1 & E2 & H1 & H2 & H3); [by exists s|].
    cbn [write_header set_links set_headers hot_slabs first_hot_slab]. rewrite E1. cbn [mbind option_bind].
    rewrite E2. cbn [mbind option_bind].
    assert (Hm1 := free_step false tr first' (cold_slabs m) [p]).
    destruct (pool_retire c _ objs' O B p _ (Hm1 ltac:(split_and!; [done| |done]; intros q; rewrite H2;
      split; [intros [? ?]; by left|intros [[? ?]|[_ ?]]; done]) Hcn
      ltac:(intros q Hq; right; split; [by apply Hnc|done]) ltac:(done) ltac:(intros _; right; left))
      (lookup_insert_eq _ _ _)) as (c' & m' & E & Hm'); [done|done| |done|].
    { intros Hx. by apply (Hnc p Hx). }
    exists c', m'. split; [|done]. rewrite <- E. unfold write_header, set_hot, set_headers, set_links, update, set_in_hot.
    cbn [headers]. rewrite insert_insert_eq. done.
  - eexists _, _. split; [done|]. split; [|done].
    apply (free_step true (hot_slabs m) (first_hot_slab m) (cold_slabs m) []).
    + split_and!; [done| |done]. intros q. rewrite V2. split.
      * intros Hq. destruct (decide (q = p)) as [->|]; [by right|by left].
      * intros [[_ ?]|[-> _]]; [done|by exists s].
    + done.
    + intros q Hq. right. split; [by apply Hnc|done].
    + done.
    + done.
Qed.

Lemma mslab_free_cold : in_hot_slabs s = false -> exists c' m', mslab_free c m p x = Some (c', m') /\
  pool_inv c' m' objs' O B [] 0 /\ same_sizes m m' /\
  (length (slabs (pool_slabs m')) <= length (slabs (pool_slabs m)))%nat.
Proof.
  intros Eh. destruct free_spare as [Hn Hsp]. destruct (nfree_bounds _ _ _ _ _ _ _ p s Hm Hp) as [Hb1 Hb2].
  destruct (k_cold _ _ _ _ _ _ _ Hm) as [Hcn Hcold].
  pose proof (k_hot _ _ _ _ _ _ _ Hm) as Hhot. pose proof Hhot as (V1 & V2 & V3).
  unfold mslab_free. rewrite Hp. cbn [mbind option_bind in_hot_slabs nfree].
  change (objcount (write_header _ _ _)) with (objcount m). rewrite u32_small by lia. rewrite Eh. cbn [negb andb].
  pose proof (cold_threshold (objcount m) ltac:(lia)) as Hsh.
  destruct (Z.geb_spec (nfree s + 1) (Z.shiftr (objcount m) MAX_COLD_FRACTION_LB)) as [Hge|Hlt].
  - destruct (hot_insert _ _ _ p Hhot) as (tr & E & H1 & H2 & H3).
    { intros (s0 & H0 & H1). congruence. }
    { intros q (s0 & H0 & _). by destruct (header_pos _ _ _ _ _ _ _ _ _ Hm H0) as (_ & ? & _). }
    { pose proof (hot_length _ _ _ _ _ _ _ Hm). lia. }
    cbn [rlist_del_cold write_header set_links set_headers set_cold hot_slabs first_hot_slab].
    rewrite E. cbn [mbind option_bind]. eexists _, _. split; [done|]. split; [|done].
    destruct (cold_remove p (cold_slabs m) Hcn) as [C1 C2].
    unfold set_in_hot, write_header, rlist_del_cold, set_hot, set_cold, set_headers, set_links.
    cbn [headers cold_slabs free_list free_offset nfree]. rewrite insert_insert_eq.
    apply (free_step true tr _ (default (cold_slabs m) (list_remove p (cold_slabs m))) []).
    + split_and!; [done| |done]. intros q. rewrite H2. split.
      * intros [Hq| ->]; [|by right]. left. split; [|done]. intros ->. destruct Hq as (s0 & H0 & ?). congruence.
      * intros [[_ ?]|[-> _]]; [by left|by right].
    + done.
    + intros q [? ?]%C2. by right.
    + intros q Hne Hq. by apply C2.
    + done.
  - assert (Hnh : forall X (cold : list Z), NoDup cold ->
      (forall q, q ∈ cold -> (q = p /\ false = false) \/ (q <> p /\ q ∈ cold_slabs m)) ->
      (forall q, q <> p -> q ∈ cold_slabs m -> q ∈ cold) -> p ∈ cold ->
      pool_inv c (update m (pool_slabs m) (hot_slabs m) (first_hot_slab m) cold
        (<[p := Mslab x (free_offset s) (nfree s + 1) false]> (headers m)) L') objs' O B X 0).
    { intros X cold C1 C2 C3 C4. apply free_step; [|done|done|done|by left].
      split_and!; [done| |done]. intros q. rewrite V2. split.
      - intros Hq. left. split; [|done]. intros ->. destruct Hq as (s0 & H0 & ?). congruence.
      - intros [[_ ?]|[_ ?]]; done. }
    destruct (Z.eqb_spec (nfree s + 1) 1) as [Hz|Hz].
    + assert (Hnc : p ∉ cold_slabs m).
      { intros Hx. destruct (Hcold p Hx) as (_ & s0 & H0 & _ & H1). rewrite Hp in H0. simplify_eq. lia. }
      eexists _, _. split; [done|]. split; [|done]. apply (Hnh [] (p :: cold_slabs m)).
      * by apply NoDup_cons.
      * intros q [->|Hq]%elem_of_cons; [by left|right]. split; [by intros ->|done].
      * intros q _ Hq. by right.
      * left.
    + rewrite (proj2 (Z.eqb_neq _ (objcount m))) by lia. eexists _, _. split; [done|]. split; [|done].
      apply (Hnh [] (cold_slabs m) Hcn); [|done|].
      * intros q Hq. destruct (decide (q = p)) as [->|]; [by left|by right].
      * destruct (decide (p ∈ cold_slabs m)) as [|Hx]; [done|].
         assert (nfree s = 0); [|lia]. apply (k_full _ _ _ _ _ _ _ Hm p s Hp Eh Hx Hsp). by intros ?%elem_of_nil.
Qed.
End Free.

Lemma slab_of_slot c m objs O B X d p s i : pool_inv c m objs O B X d -> headers m !! p = Some s ->
  0 <= i < objcount m -> slab_from_ptr c (slot m p i) (slab_ptr_mask m) = Some p.
Proof.
  intros Hm Hp Hi. pose proof (k_shape _ _ _ _ _ _ _ Hm) as Hsh. pose proof Hsh as (_ & Ho & _ & _ & _ & Hmask).
  destruct (header_pos _ _ _ _ _ _ _ _ _ Hm Hp) as (_ & Hp0 & Hal & Hh).
  pose proof (slot_bounds m p i Hsh Hi) as Hb. destruct (shape_bounds m Hsh) as (_ & _ & _ & H8 & _).
  unfold slab_from_ptr. rewrite Hmask. unfold SlabCache.osize in *. rewrite land_not_mask by lia.
  assert (E : slot m p i mod 2 ^ (lb + slab_order m) = slot m p i - p).
  { apply Z.mod_divide in Hal as [q Hq]; [|lia]. symmetry. apply (Z.mod_unique _ _ q); [left; lia|lia]. }
  rewrite E. replace (slot m p i - (slot m p i - p)) with p by lia. rewrite Hh.
  cbn [mbind option_bind magic]. by rewrite Z.eqb_refl.
Qed.

Lemma mempool_free_inv c m objs objs' O B x : pool_inv c m objs O B [] 0 -> objs ≡ₚ x :: objs' ->
  Z.of_nat (length (slabs (pool_slabs m))) < 2 ^ 62 ->
  exists c' m', mempool_free c m x = Some (c', m') /\ pool_inv c' m' objs' O B [] 0 /\ same_sizes m m' /\
    (length (slabs (pool_slabs m')) <= length (slabs (pool_slabs m)))%nat.
Proof.
  intros Hm Hobj Hlen. assert (Hx : x ∈ objs) by (rewrite Hobj; left).
  destruct (proj2 (k_objs _ _ _ _ _ _ _ Hm) x Hx) as (p & i & Hp & Hi & Ex).
  apply (k_headers _ _ _ _ _ _ _ Hm) in Hp as [s Hp].
  destruct (header_pos _ _ _ _ _ _ _ _ _ Hm Hp) as (_ & Hp0 & _ & Hh).
  pose proof (slot_bounds m p i (k_shape _ _ _ _ _ _ _ Hm) Hi) as Hb. rewrite <- Ex in Hb.
  pose proof (pool_count _ _ _ _ _ _ _ (-1) Hm) as Hm1. replace (-1 * objsize m) with (- objsize m) in Hm1 by lia.
  unfold mempool_free, mempool_free_slab. rewrite (proj2 (Z.eqb_neq x NULL)) by lia. cbn [negb].
  rewrite Ex, (slab_of_slot _ _ _ _ _ _ _ _ _ _ Hm Hp Hi). cbn [mbind option_bind].
  rewrite Hh. cbn [mbind option_bind order]. rewrite Z.eqb_refl. rewrite Ex in Hobj.
  destruct (in_hot_slabs s) eqn:Eh.
  - by apply (mslab_free_hot c _ objs objs' O B p i s Hm1).
  - by apply (mslab_free_cold c _ objs objs' O B p i s Hm1).
Qed.

(** ** Creation and destruction *)

Lemma hold_geometry c O B : hold c O B ->
  order_max c = mx /\ (forall o, 0 <= o <= mx -> slab_order_size c o = Some (osize o)).
Proof.
  intros (A & out & (Hg & _) & _). split; [apply Hg|]. intros o Ho.
  apply (slab_order_size_eq lb mx); [done|lia].
Qed.

Lemma mempool_create_with_order_inv c O B sz o : hold c O B -> 0 <= o <= mx -> 8 <= sz ->
  sz + mslab_sizeof <= osize o ->
  exists m, mempool_create_with_order c sz o = Some m /\ pool_inv c m [] O B [] 0 /\
    objsize m = sz /\ slab_order m = o.
Proof.
  intros Hc Ho Hsz Hfit. destruct (hold_geometry c O B Hc) as [Hmax Hos].
  pose proof (osize_max lb mx Hlb Hmx Hk o Ho) as [Hle H31]. change mslab_sizeof with 112 in *.
  assert (Hdiv : 1 <= (osize o - 112) / sz /\ (osize o - 112) / sz * sz <= osize o - 112).
  { split; [apply Z.div_le_lower_bound; lia|]. rewrite Z.mul_comm. apply Z.mul_div_le. lia. }
  unfold mempool_create_with_order. rewrite Hmax, (proj2 (Z.leb_le _ _)), (Hos o Ho) by lia.
  cbn [mbind option_bind]. change mslab_sizeof with 112. rewrite (u32_small (osize o)), u32_small by lia.
  rewrite (proj2 (Z.eqb_neq _ 0)) by lia. cbn [negb]. eexists. split; [done|]. split; [|done].
  rewrite u32_small by lia.
  split; cbn [pool_slabs hot_slabs first_hot_slab cold_slabs spare objsize slab_order objcount offset
    slab_ptr_mask headers links]; try done.
  - unfold shape. cbn. change mslab_sizeof with 112. split_and!; (done || lia).
  - intros p. rewrite lookup_empty. split; [by intros ?%elem_of_nil|by intros []].
  - split_and!; [apply new_valid| |done]. intros p. split; [by intros ?%elem_of_nil|by intros (s & ? & _)].
  - split; [constructor|]. by intros p ?%elem_of_nil.
  - by left.
  - split; [constructor|]. by intros p ?%elem_of_nil.
  - cbn. by rewrite Z.mul_0_r.
  - cbn. by rewrite Z.mul_0_r.
Qed.

Lemma mempool_create_inv c O B sz : hold c O B -> 8 <= sz -> sz + mslab_sizeof <= 2 ^ (lb + mx) ->
  exists m, mempool_create c sz = Some m /\ pool_inv c m [] O B [] 0 /\ objsize m = sz.
Proof.
  intros Hc Hsz Hfit. pose proof Hc as (A & out & (Hg & Hi & _) & _).
  destruct (src_geometry _ _ _ _ _ _ Hi) as (Has & _). pose proof (pow2_mono (lb + mx) 31 ltac:(lia)).
  unfold mempool_create. rewrite Has. change sizeof_mslab with 112. change mslab_sizeof with 112 in *.
  set (ov := if sz >? 112 then sz else 112).
  assert (Hov : ov = Z.max sz 112) by (unfold ov; destruct (Z.gtb_spec sz 112); lia).
  set (n := if ov * 100 >? 2 ^ (lb + mx) then 2 ^ (lb + mx) else ov * 100).
  assert (Hn : sz + 112 <= n <= 2 ^ (lb + mx)) by (unfold n; destruct (Z.gtb_spec (ov * 100) (2 ^ (lb + mx))); lia).
  destruct (slab_order_spec lb mx lim Hlb Hmx Hk c (arena c) A B _ n Hg Hi eq_refl ltac:(lia)) as [[_ ?]|(Ho & Hle & _)]; [lia|].
  destruct (hold_geometry c O B Hc) as [Hmax _]. rewrite Hmax, (proj2 (Z.leb_le _ _)) by lia.
  destruct (mempool_create_with_order_inv c O B sz _ Hc Ho Hsz ltac:(change mslab_sizeof with 112; lia))
    as (m & E & Hm & Es & _).
  by exists m.
Qed.

Lemma destroy_pool_slabs_hold c l o O B : hold c (((fun p => (p, o)) <$> l) ++ O) B ->
  exists c', destroy_pool_slabs c l = Some c' /\ hold c' O B.
Proof.
  revert c. induction l as [|p l IH]; intros c Hc; [by exists c|]. cbn [destroy_pool_slabs].
  destruct (hold_put c _ B p o (((fun p => (p, o)) <$> l) ++ O) Hc) as (c' & -> & Hc'); [done|].
  cbn [mbind option_bind]. by apply IH.
Qed.

(** ** Statistics *)

Lemma objs_count c m objs O B X d : pool_inv c m objs O B X d ->
  Z.of_nat (length objs) <= Z.of_nat (length (slabs (pool_slabs m))) * objcount m.
Proof.
  intros Hm. destruct (shape_bounds m (k_shape _ _ _ _ _ _ _ Hm)) as (_ & _ & _ & _ & Hcnt).
  set (all := slabs (pool_slabs m) ≫= fun p => slot m p <$> seqZ 0 (objcount m)).
  assert (Hlen : Z.of_nat (length all) = Z.of_nat (length (slabs (pool_slabs m))) * objcount m).
  { unfold all. clear -Hcnt. induction (slabs (pool_slabs m)) as [|p l IH]; [done|].
    rewrite bind_cons, length_app, length_fmap, length_seqZ, Nat2Z.inj_add, IH. cbn [length]. lia. }
  rewrite <- Hlen. apply inj_le, submseteq_length, NoDup_submseteq; [apply (k_objs _ _ _ _ _ _ _ Hm)|].
  intros x Hx. destruct (proj2 (k_objs _ _ _ _ _ _ _ Hm) x Hx) as (p & i & Hp & Hi & ->).
  apply list_elem_of_bind. exists p. split; [|done]. apply list_elem_of_fmap. exists i. split; [done|].
  apply elem_of_seqZ. lia.
Qed.

Lemma objs_apart c m objs O B X d x y : pool_inv c m objs O B X d -> x ∈ objs -> y ∈ objs -> x <> y ->
  x + objsize m <= y \/ y + objsize m <= x.
Proof.
  intros Hm Hx Hy Hne. pose proof (k_shape _ _ _ _ _ _ _ Hm) as Hsh.
  destruct (proj2 (k_objs _ _ _ _ _ _ _ Hm) x Hx) as (p & i & Hp & Hi & ->).
  destruct (proj2 (k_objs _ _ _ _ _ _ _ Hm) y Hy) as (q & j & Hq & Hj & ->).
  pose proof (slot_bounds m p i Hsh Hi). pose proof (slot_bounds m q j Hsh Hj).
  destruct (shape_bounds m Hsh) as (_ & _ & _ & H8 & _).
  destruct (decide (p = q)) as [->|Hpq].
  - unfold slot in *. assert (i < j \/ j < i) as [?|?] by (destruct (Z.lt_trichotomy i j) as [?|[->|?]]; tauto); nia.
  - destruct (hold_apart _ _ _ (k_cache _ _ _ _ _ _ _ Hm)) as [_ Hd].
    assert (Hno : forall z, p <= z < p + osize (slab_order m) -> ~ q <= z < q + osize (slab_order m)).
    { intros z Hz Hz'. apply Hpq. apply (Hd p (slab_order m) q (slab_order m) z); [..|done|done];
        apply elem_of_app; left; by apply owned_elem. }
    pose proof (Hno (Z.max p q)). lia.
Qed.

(** ** A pool among others *)

(** Only the slabs of the pool tie it to the cache. *)
Lemma pool_recache c m objs O B X d c' O' B' : pool_inv c m objs O B X d -> hold c' (owned m ++ O') B' ->
  pool_inv c' m objs O' B' X d.
Proof. intros [] Hc. by constructor. Qed.

Lemma same_order m m' : shape m -> shape m' -> same_sizes m m' ->
  slab_order m' = slab_order m /\ slab_ptr_mask m' = slab_ptr_mask m.
Proof.
  intros Hs Hs' (E1 & E2 & E3). destruct (shape_bounds m Hs) as (_ & H1 & _). destruct (shape_bounds m' Hs') as (_ & H2 & _).
  destruct Hs as (_ & Ho & _ & _ & _ & ->), Hs' as (_ & Ho' & _ & _ & _ & ->). rewrite E1, E2, E3 in H2.
  assert (Eo : osize (slab_order m') = osize (slab_order m)) by lia. split; [|by rewrite Eo].
  unfold SlabCache.osize in Eo. apply Z.pow_inj_r in Eo; lia.
Qed.

Lemma count_objs c m objs O B X : pool_inv c m objs O B X 0 -> Z.of_nat (length (slabs (pool_slabs m))) < 2 ^ 32 ->
  mempool_count m = Z.of_nat (length objs) /\ objsize m * Z.of_nat (length objs) < 2 ^ 63.
Proof.
  intros Hm Hn. pose proof (objs_count _ _ _ _ _ _ _ Hm) as Hc.
  destruct (shape_bounds m (k_shape _ _ _ _ _ _ _ Hm)) as (B1 & B2 & B3 & B4 & B5).
  assert (objsize m * Z.of_nat (length objs) <= 2 ^ 31 * Z.of_nat (length (slabs (pool_slabs m)))) by nia.
  unfold mempool_count. rewrite (k_used _ _ _ _ _ _ _ Hm), Z.add_0_r, u64_small by lia.
  split; [|lia]. rewrite Z.mul_comm, Z.div_mul by lia. done.
Qed.

Lemma mempool_stats_spec c m objs O B : pool_inv c m objs O B [] 0 ->
  let n := Z.of_nat (length (slabs (pool_slabs m))) in
  n * objcount m < 2 ^ 32 -> n * mslab_sizeof < 2 ^ 32 ->
  mempool_stats c m = Some (MempoolStats (objsize m) (Z.of_nat (length objs)) (osize (slab_order m)) n
    (SmallStats (objsize m * Z.of_nat (length objs)) (n * (osize (slab_order m) - mslab_sizeof)))).
Proof.
  intros Hm n Hn1 Hn2. destruct (k_shape _ _ _ _ _ _ _ Hm) as (_ & Ho & _).
  destruct (shape_bounds m (k_shape _ _ _ _ _ _ _ Hm)) as (B1 & B2 & B3 & B4 & B5).
  destruct (hold_geometry _ _ _ (k_cache _ _ _ _ _ _ _ Hm)) as [_ Hos].
  pose proof (objs_count _ _ _ _ _ _ _ Hm) as Hcnt. fold n in Hcnt.
  change mslab_sizeof with 112 in *.
  assert (Hn0 : 0 <= n) by (unfold n; lia). assert (n < 2 ^ 32) by lia.
  unfold mempool_stats, mempool_count. rewrite (Hos _ Ho). cbn [mbind option_bind].
  rewrite (u32_small (osize _)) by lia. rewrite (k_total _ _ _ _ _ _ _ Hm), (k_used _ _ _ _ _ _ _ Hm). fold n.
  assert (osize (slab_order m) * n < 2 ^ 64) by nia.
  assert (objsize m * Z.of_nat (length objs) <= osize (slab_order m) * n) by nia.
  rewrite Z.add_0_r. rewrite !(u64_small (osize _ * n)), !(u64_small (objsize m * _)) by nia.
  rewrite (Z.mul_comm (objsize m) (Z.of_nat _)), (Z.mul_comm (osize _) n), !Z.div_mul by lia.
  rewrite !(u32_small n), !(u32_small (Z.of_nat _)) by lia.
  change mslab_sizeof with 112. rewrite (u32_small (112 * n)) by lia. rewrite u64_small by nia.
  do 3 f_equal. lia.
Qed.

(** ** Properties *)

(** C5. [mempool_alloc] fails only when no slab of the pool has a free object and
    the slab cache, asked for a slab of the order of the pool, returned NULL; the
    pool is then as before.  Otherwise the object lies in a slab of the
    pool after its header, overlaps no object handed out before, and the pool
    stays well formed with the object added. *)
Theorem mempool_alloc_correct c m objs O B : pool_inv c m objs O B [] 0 ->
  Z.of_nat (length (slabs (pool_slabs m))) + 1 < 2 ^ 62 ->
  exists x c' m', mempool_alloc c m = Some (x, c', m') /\
    ((x = NULL /\ m' = m /\ pool_inv c' m objs O B [] 0 /\ (forall q s, headers m !! q = Some s -> nfree s = 0) /\
      slab_get_with_order c (slab_order m) = Some (NULL, c')) \/
     (0 < x /\ pool_inv c' m' (x :: objs) O B [] 0 /\
      (forall y, y ∈ objs -> x + objsize m <= y \/ y + objsize m <= x) /\
      exists p, p ∈ slabs (pool_slabs m') /\ p + mslab_sizeof <= x /\
        x + objsize m <= p + osize (slab_order m'))).
Proof.
  intros Hm Hlen. destruct (mempool_alloc_inv c m objs O B Hm Hlen) as (x & c' & m' & E & Hsz & H).
  exists x, c', m'. split; [done|]. destruct H as [(? & -> & ?)|(Hx & Hxo & Hm')]; [by left|right].
  destruct Hsz as (Esz & _ & _). rewrite <- Esz. split_and!; try done.
  - intros y Hy. apply (objs_apart c' m' (x :: objs) O B [] 0 x y Hm'); [left|by right|by intros ->].
  - destruct (proj2 (k_objs _ _ _ _ _ _ _ Hm') x ltac:(left)) as (p & i & Hp & Hi & ->). exists p.
    split; [done|]. apply (slot_bounds m' p i (k_shape _ _ _ _ _ _ _ Hm') Hi).
Qed.

(** C6. [mempool_free] of any object handed out finds its slab from its address,
    fails no assertion whatever list the slab is in, and the pool stays well
    formed without the object; it never gets more slabs. *)
Theorem mempool_free_correct c m objs1 x objs2 O B : pool_inv c m (objs1 ++ x :: objs2) O B [] 0 ->
  Z.of_nat (length (slabs (pool_slabs m))) < 2 ^ 62 ->
  exists c' m', mempool_free c m x = Some (c', m') /\ pool_inv c' m' (objs1 ++ objs2) O B [] 0 /\
    (length (slabs (pool_slabs m')) <= length (slabs (pool_slabs m)))%nat.
Proof.
  intros Hm Hlen.
  destruct (mempool_free_inv c m _ (objs1 ++ objs2) O B x Hm) as (c' & m' & E & Hm' & _ & Hle); [|done|].
  { symmetry. apply Permutation_middle. }
  by exists c', m'.
Qed.

(** [mempool_create] of any object size that fits a slab of the arena makes
    an empty pool; at any later time [mempool_stats] reports the objects handed
    out and the slabs of the pool; [mempool_destroy] returns all its slabs to
    the cache and no others. *)
Theorem mempool_lifecycle c O B sz : hold c O B -> 8 <= sz -> sz + mslab_sizeof <= 2 ^ (lb + mx) ->
  exists m, mempool_create c sz = Some m /\ pool_inv c m [] O B [] 0 /\ objsize m = sz /\
    forall c' m' objs O' B', pool_inv c' m' objs O' B' [] 0 ->
      let n := Z.of_nat (length (slabs (pool_slabs m'))) in
      (n * objcount m' < 2 ^ 32 -> n * mslab_sizeof < 2 ^ 32 ->
       mempool_stats c' m' = Some (MempoolStats (objsize m') (Z.of_nat (length objs))
         (osize (slab_order m')) n
         (SmallStats (objsize m' * Z.of_nat (length objs)) (n * (osize (slab_order m') - mslab_sizeof))))) /\
      exists c2, mempool_destroy c' m' = Some c2 /\ hold c2 O' B'.
Proof.
  intros Hc Hsz Hfit. destruct (mempool_create_inv c O B sz Hc Hsz Hfit) as (m & E & Hm & Es).
  exists m. split_and!; [done..|]. intros c' m' objs O' B' Hm' n. split.
  - by apply (mempool_stats_spec c' m' objs O' B').
  - apply (destroy_pool_slabs_hold c' _ (slab_order m')). apply (k_cache _ _ _ _ _ _ _ Hm').
Qed.
End Inv.

(** ** A concrete pool

    Objects of 600 bytes in slabs of 64 KiB, 109 of them in a slab. *)
Definition example_pool : mempool :=
  default (Mempool slab_list_create rb_new NULL [] NULL 0 0 0 0 0 ∅ ∅) (mempool_create example_cache 600).

Lemma example_hold : hold (inv:=host_inv) 12 4 100000 example_cache [] [].
Proof.
  exists [], []. split; [|done].
  assert (E : example_cache = SlabCache example_shared (2 ^ 12) 12 4 slab_list_create
    (replicate (Z.to_nat (4 + 1)) slab_list_create) ∅) by by vm_compute.
  rewrite E. apply create_inv; [lia..|]. apply example_inv.
Qed.

Lemma example_pool_inv : pool_inv (inv:=host_inv) 12 4 100000 example_cache example_pool [] [] [] [] 0.
Proof.
  destruct (mempool_create_inv (inv:=host_inv) 12 4 100000 ltac:(lia) ltac:(lia) ltac:(lia) example_cache [] [] 600
    example_hold ltac:(lia) ltac:(vm_compute; discriminate)) as (m & E & Hm & _).
  unfold example_pool. by rewrite E.
Qed.

(** The first object of a new slab. *)
Definition example_alloc : Z * slab_cache * mempool :=
  default (NULL, example_cache, example_pool) (mempool_alloc example_cache example_pool).

Lemma mempool_alloc_correct_witness :
  (example_alloc.1).1 = 65536 + 136 /\
  exists x c' m', mempool_alloc example_cache example_pool = Some (x, c', m') /\
    ((x = NULL /\ slab_get_with_order example_cache 4 = Some (NULL, c')) \/
     (0 < x /\ pool_inv (inv:=host_inv) 12 4 100000 c' m' [x] [] [] [] 0)).
Proof.
  split; [by vm_compute|].
  destruct (mempool_alloc_correct (inv:=host_inv) 12 4 100000 ltac:(lia) ltac:(lia) ltac:(lia) example_cache example_pool
    [] [] [] example_pool_inv ltac:(by vm_compute)) as (x & c' & m' & E & H).
  exists x, c', m'. split; [exact E|].
  destruct H as [(? & _ & _ & _ & ?)|(? & ? & _)]; [left|right]; split; assumption.
Defined.

Lemma example_alloc_inv :
  pool_inv (inv:=host_inv) 12 4 100000 (example_alloc.1).2 example_alloc.2 [(example_alloc.1).1] [] [] [] 0.
Proof.
  destruct (mempool_alloc_inv (inv:=host_inv) 12 4 100000 ltac:(lia) ltac:(lia) ltac:(lia) example_cache example_pool
    [] [] [] example_pool_inv ltac:(by vm_compute)) as (x & c' & m' & E & _ & H).
  assert (Enot : (if mempool_alloc example_cache example_pool is Some (x, _, _) then negb (x =? 0) else false) = true)
    by by vm_compute.
  unfold example_alloc. rewrite E in *. cbn [default fst snd]. destruct H as [(-> & _)|(_ & _ & H)]; [discriminate Enot|exact H].
Qed.

Lemma mempool_free_correct_witness :
  exists c' m', mempool_free (example_alloc.1).2 example_alloc.2 (example_alloc.1).1 = Some (c', m') /\
    pool_inv (inv:=host_inv) 12 4 100000 c' m' [] [] [] [] 0.
Proof.
  destruct (mempool_free_correct (inv:=host_inv) 12 4 100000 ltac:(lia) ltac:(lia) ltac:(lia) (example_alloc.1).2
    example_alloc.2 [] (example_alloc.1).1 [] [] [] example_alloc_inv ltac:(by vm_compute)) as (c' & m' & E & H & _).
  exists c', m'. split; [exact E|exact H].
Defined.

Lemma mempool_lifecycle_witness :
  exists m, mempool_create example_cache 600 = Some m /\ objcount m = 109 /\
    exists c', mempool_destroy example_cache m = Some c'.
Proof.
  destruct (mempool_lifecycle (inv:=host_inv) 12 4 100000 ltac:(lia) ltac:(lia) ltac:(lia) example_cache [] [] 600
    example_hold ltac:(lia) ltac:(vm_compute; discriminate)) as (m & E' & Hm & _ & H).
  assert (Em : example_pool = m) by (unfold example_pool; rewrite E'; reflexivity).
  exists m. split; [exact E'|]. split; [rewrite <- Em; by vm_compute|].
  destruct (H example_cache m [] [] [] Hm) as [_ (c2 & E2 & _)].
  exists c2. exact E2.
Defined.
