(* ===== verification/Small.v ===== *)
(** * Allocator of objects of any size: [include/small/small.h], [small/small.c]

    An array of pools of increasing object sizes, found by [SmallClass]; pools of
    one slab order are in groups, in which a pool without enough waste of its own lends
    the objects of a larger one.  A pointer to an element of an array is its index. *)
From S2P Require Import Prelude Util SmallClass SlabSource SlabCache Rb RbUpdate RbQuery Mempool.

Section Small.
Context {src : Type} `{!SlabSource src} {F : Type}.
Local Abbreviation slab_cache := (slab_cache (src:=src)).

(** ** Definitions *)

Definition SMALL_MEMPOOL_MAX : nat := 1024.
Definition POOL_PER_GROUP_MAX : Z := 32.

Record small_mempool := SmallMempool {
  pool : mempool;
  objsize_min : Z;
  group : option nat;
  used_pool : option nat;
  appropriate_pool_mask : Z;
  waste : Z;
}.

Record small_mempool_group := SmallMempoolGroup {
  g_first : nat;
  g_last : nat;
  active_pool_mask : Z;
  waste_max : Z;
}.

(** The sizes of the two arrays in use are the lengths of the lists. *)
Record small_alloc := SmallAlloc {
  cache : slab_cache;
  small_mempool_cache : list small_mempool;
  small_mempool_groups : list small_mempool_group;
  factor : F;
  sclass : small_class F;
  objsize_max : Z;
}.

Definition set_cache (a : small_alloc) (c : slab_cache) : small_alloc :=
  SmallAlloc c (small_mempool_cache a) (small_mempool_groups a) (factor a) (sclass a) (objsize_max a).
Definition set_pools (a : small_alloc) (l : list small_mempool) : small_alloc :=
  SmallAlloc (cache a) l (small_mempool_groups a) (factor a) (sclass a) (objsize_max a).
Definition set_groups (a : small_alloc) (l : list small_mempool_group) : small_alloc :=
  SmallAlloc (cache a) (small_mempool_cache a) l (factor a) (sclass a) (objsize_max a).
Definition set_objsize_max (a : small_alloc) (n : Z) : small_alloc :=
  SmallAlloc (cache a) (small_mempool_cache a) (small_mempool_groups a) (factor a) (sclass a) n.

Definition set_pool (sp : small_mempool) (m : mempool) : small_mempool :=
  SmallMempool m (objsize_min sp) (group sp) (used_pool sp) (appropriate_pool_mask sp) (waste sp).
Definition set_used_pool (sp : small_mempool) (u : nat) : small_mempool :=
  SmallMempool (pool sp) (objsize_min sp) (group sp) (Some u) (appropriate_pool_mask sp) (waste sp).
Definition set_group (sp : small_mempool) (g : nat) : small_mempool :=
  SmallMempool (pool sp) (objsize_min sp) (Some g) (used_pool sp) (appropriate_pool_mask sp) (waste sp).
Definition set_app_mask (sp : small_mempool) (m : Z) : small_mempool :=
  SmallMempool (pool sp) (objsize_min sp) (group sp) (used_pool sp) m (waste sp).
Definition set_waste (sp : small_mempool) (w : Z) : small_mempool :=
  SmallMempool (pool sp) (objsize_min sp) (group sp) (used_pool sp) (appropriate_pool_mask sp) w.
Definition set_active (g : small_mempool_group) (m : Z) : small_mempool_group :=
  SmallMempoolGroup (g_first g) (g_last g) m (waste_max g).
(** A pool of the array is overwritten. *)
Definition put_pool (a : small_alloc) (i : nat) (sp : small_mempool) : small_alloc :=
  set_pools a (<[i := sp]> (small_mempool_cache a)).

(** The group of a pool. *)
Definition group_of (a : small_alloc) (i : nat) : option (nat * small_mempool_group) :=
  sp ← small_mempool_cache a !! i;
  gi ← group sp;
  g ← small_mempool_groups a !! gi;
  Some (gi, g).

(** The loop over the pools of the group. *)
Fixpoint update_loop (a : small_alloc) (g : small_mempool_group) (todo : list nat) : option small_alloc :=
  match todo with
  | [] => Some a
  | j :: todo =>
      sp ← small_mempool_cache a !! j;
      let used_idx := builtin_ffs (Z.land (active_pool_mask g) (appropriate_pool_mask sp)) - 1 in
      ASSERT used_idx >=? 0;
      let u := (g_first g + Z.to_nat used_idx)%nat in
      let a := put_pool a j (set_used_pool sp u) in
      ASSERT (j <=? u)%nat;
      up ← small_mempool_cache a !! u;
      ASSERT objsize (pool sp) <=? objsize (pool up);
      update_loop a g todo
  end.

Definition small_mempool_update_group (a : small_alloc) (i : nat) : option small_alloc :=
  '(_, g) ← group_of a i;
  update_loop a g (seq (g_first g) (S (g_last g) - g_first g)).

Definition small_mempool_get_group_index (i : nat) (g : small_mempool_group) : Z :=
  Z.of_nat i - Z.of_nat (g_first g).

Definition small_mempool_activate (a : small_alloc) (i : nat) : option small_alloc :=
  '(gi, g) ← group_of a i;
  let idx := small_mempool_get_group_index i g in
  ASSERT Z.land (active_pool_mask g) (u32 (Z.shiftl 1 idx)) =? 0;
  let mask := Z.lor (active_pool_mask g) (u32 (Z.shiftl 1 idx)) in
  let a := set_groups a (<[gi := set_active g mask]> (small_mempool_groups a)) in
  small_mempool_update_group a i.

Definition small_mempool_deactivate (a : small_alloc) (i : nat) : option small_alloc :=
  '(gi, g) ← group_of a i;
  let idx := small_mempool_get_group_index i g in
  ASSERT negb (Z.land (active_pool_mask g) (u32 (Z.shiftl 1 idx)) =? 0);
  let mask := Z.land (active_pool_mask g) (u32 (Z.lnot (u32 (Z.shiftl 1 idx)))) in
  let a := set_groups a (<[gi := set_active g mask]> (small_mempool_groups a)) in
  small_mempool_update_group a i.

Definition small_mempool_can_be_deactivated (a : small_alloc) (i : nat) : option bool :=
  sp ← small_mempool_cache a !! i;
  '(_, g) ← group_of a i;
  let idx := small_mempool_get_group_index i g in
  let mask := active_pool_mask g in
  Some (if Z.land mask (u32 (Z.shiftl 1 idx)) =? 0 then false
        else if negb (mempool_count (pool sp) =? 0) then false
        else if waste sp >=? waste_max g / 4 then false
        else if (i =? g_last g)%nat then false
        else true).

(** One round of the sweep. *)
Definition sweep_pool (a : small_alloc) (i : nat) : option small_alloc :=
  can ← small_mempool_can_be_deactivated a i;
  if can : bool then
    a ← small_mempool_deactivate a i;
    sp ← small_mempool_cache a !! i;
    if negb (spare (pool sp) =? NULL) then
      '(c, m) ← mempool_free_spare_slab (cache a) (pool sp);
      Some (put_pool (set_cache a c) i (set_pool sp m))
    else Some a
  else Some a.

Fixpoint sweep_loop (a : small_alloc) (todo : list nat) : option small_alloc :=
  match todo with
  | [] => Some a
  | i :: todo => a ← sweep_pool a i; sweep_loop a todo
  end.

Definition small_mempool_group_sweep_sparse (a : small_alloc) : option small_alloc :=
  sweep_loop a (seq 0 (length (small_mempool_cache a))).

(** [last_in_group < last && pool_count++ < POOL_PER_GROUP_MAX - 1]; the loop
    ends when the counter reaches the bound. *)
Fixpoint last_pool_loop (fuel : nat) (pool_count : Z) (last_in_group last : nat) : option nat :=
  match fuel with
  | O => None
  | S fuel =>
      if (last_in_group <? last)%nat && (pool_count <? POOL_PER_GROUP_MAX - 1)
      then last_pool_loop fuel (u8 (pool_count + 1)) (S last_in_group) last
      else Some last_in_group
  end.
Definition small_mempool_group_last_pool (first last : nat) : option nat :=
  last_pool_loop (Z.to_nat POOL_PER_GROUP_MAX) 0 first last.

Definition small_mempool_set_mask (sp : small_mempool) (idx : Z) : option small_mempool :=
  ASSERT appropriate_pool_mask sp =? 0;
  Some (set_app_mask sp
    (fold_left (fun m i => Z.lor m (u32 (Z.shiftl 1 i))) (seqZ idx (POOL_PER_GROUP_MAX - idx))
       (appropriate_pool_mask sp))).

(** The loop that gives the pools their group. *)
Fixpoint assign_group (a : small_alloc) (gi first : nat) (todo : list nat) : option small_alloc :=
  match todo with
  | [] => Some a
  | j :: todo =>
      sp ← small_mempool_cache a !! j;
      sp ← small_mempool_set_mask (set_group sp gi) (Z.of_nat j - Z.of_nat first);
      assign_group (put_pool a j sp) gi first todo
  end.

Definition small_mempool_create_group (a : small_alloc) (first last : nat) : option small_alloc :=
  let gi := length (small_mempool_groups a) in
  ASSERT (gi <? SMALL_MEMPOOL_MAX)%nat;
  lp ← small_mempool_cache a !! last;
  n ← slab_order_size (cache a) (slab_order (pool lp));
  let g := SmallMempoolGroup first last 0 (n / 4) in
  let a := set_groups a (small_mempool_groups a ++ [g]) in
  a ← assign_group a gi first (seq first (S last - first));
  small_mempool_activate a last.

(** Each round takes at least one pool. *)
Fixpoint create_groups_loop (fuel : nat) (a : small_alloc) (first_in_group last : nat) : option small_alloc :=
  if (first_in_group <=? last)%nat then
    match fuel with
    | O => None
    | S fuel =>
        last_in_group ← small_mempool_group_last_pool first_in_group last;
        a ← small_mempool_create_group a first_in_group last_in_group;
        create_groups_loop fuel a (S last_in_group) last
    end
  else Some a.
Definition small_mempool_create_groups (a : small_alloc) (first last : nat) : option small_alloc :=
  create_groups_loop (S last - first) a first last.

(** [None] is NULL. *)
Definition small_mempool_search (a : small_alloc) (size : Z) : option nat :=
  if size >? objsize_max a then None
  else Some (Z.to_nat (small_class_calc_offset_by_size (sclass a) (u32 size))).

(** The loop of [small_mempool_create]: it makes at most [fuel] pools, and
    returns the size of the last one and the first pool without a group. *)
Fixpoint create_loop (fuel : nat) (a : small_alloc) (objsize slab_order_cur : Z) (cur_order_pool : nat)
    (first_iteration : bool) : option (small_alloc * Z * nat) :=
  match fuel with
  | O => Some (a, objsize, cur_order_pool)
  | S fuel =>
      if objsize <? objsize_max a then
        let i := length (small_mempool_cache a) in
        let prevsize := objsize in
        let objsize := small_class_calc_size_by_offset (sclass a) (Z.of_nat i) in
        let objsize := if objsize >? objsize_max a then objsize_max a else objsize in
        m ← mempool_create (cache a) objsize;
        let a := set_pools a (small_mempool_cache a ++ [SmallMempool m (prevsize + 1) None None 0 0]) in
        let slab_order_cur := if first_iteration then slab_order m else slab_order_cur in
        if negb (slab_order m =? slab_order_cur) then
          cur ← small_mempool_cache a !! cur_order_pool;
          prev ← small_mempool_cache a !! (i - 1)%nat;
          ASSERT slab_ptr_mask (pool cur) =? slab_ptr_mask (pool prev);
          a ← small_mempool_create_groups a cur_order_pool (i - 1)%nat;
          create_loop fuel a objsize (slab_order m) i false
        else create_loop fuel a objsize slab_order_cur cur_order_pool false
      else Some (a, objsize, cur_order_pool)
  end.

Definition small_mempool_create (a : small_alloc) : option small_alloc :=
  '(a, objsize, cur_order_pool) ← create_loop SMALL_MEMPOOL_MAX a 0 0 O true;
  let last := (length (small_mempool_cache a) - 1)%nat in
  cur ← small_mempool_cache a !! cur_order_pool;
  lp ← small_mempool_cache a !! last;
  ASSERT slab_ptr_mask (pool cur) =? slab_ptr_mask (pool lp);
  a ← small_mempool_create_groups a cur_order_pool last;
  Some (set_objsize_max a objsize).

Definition small_alloc_create (fo : float_ops F) (c : slab_cache) (objsize_min granularity : Z) (alloc_factor : F) :
    option small_alloc :=
  ASSERT small_align_ok objsize_min granularity;
  let objsize_min := u32 (small_align objsize_min granularity) in
  n ← slab_order_size c (order_max c);
  let objsize_max := u32 (mempool_objsize_max n) in
  ASSERT small_align_ok objsize_max granularity;
  let objsize_max := u32 (small_align objsize_max granularity) in
  ASSERT Z.land granularity (u32 (granularity - 1)) =? 0;
  ASSERT fgt fo alloc_factor (f_of_int fo 1) && fle fo alloc_factor (f_of_int fo 2);
  sc ← small_class_create fo granularity alloc_factor objsize_min;
  small_mempool_create (SmallAlloc c [] [] alloc_factor sc objsize_max).

(** [mempool_alloc] on a pool of the array. *)
Definition alloc_from (a : small_alloc) (j : nat) : option (Z * small_alloc) :=
  sp ← small_mempool_cache a !! j;
  '(ptr, c, m) ← mempool_alloc (cache a) (pool sp);
  Some (ptr, put_pool (set_cache a c) j (set_pool sp m)).

(** Another try after the sweep. *)
Definition alloc_or_sweep (a : small_alloc) (j : nat) : option (Z * small_alloc) :=
  '(ptr, a) ← alloc_from a j;
  if ptr =? NULL then
    a ← small_mempool_group_sweep_sparse a;
    alloc_from a j
  else Some (ptr, a).

(** The waste of an allocation from a pool that is not the best one. *)
Definition account_waste (a : small_alloc) (i : nat) : option small_alloc :=
  sp ← small_mempool_cache a !! i;
  u ← used_pool sp;
  if negb (u =? i)%nat then
    up ← small_mempool_cache a !! u;
    let w := u64 (waste sp + u32 (objsize (pool up) - objsize (pool sp))) in
    let a := put_pool a i (set_waste sp w) in
    '(_, g) ← group_of a i;
    if w >=? waste_max g then small_mempool_activate a i else Some a
  else Some a.

Definition smalloc (a : small_alloc) (size : Z) : option (Z * small_alloc) :=
  match small_mempool_search a size with
  | None =>
      '(slab, c) ← slab_get_large (cache a) size;
      Some (if slab =? NULL then NULL else slab_data slab, set_cache a c)
  | Some i =>
      sp ← small_mempool_cache a !! i;
      j ← used_pool sp;
      up ← small_mempool_cache a !! j;
      ASSERT size <=? objsize (pool up);
      '(ptr, a) ← alloc_or_sweep a j;
      if ptr =? NULL then Some (NULL, a)
      else
        a ← account_waste a i;
        Some (ptr, a)
  end.

(** [slab->mempool]: the pool that has the header of the slab. *)
Fixpoint find_pool (slab : Z) (l : list small_mempool) : option nat :=
  match l with
  | [] => None
  | sp :: l => match headers (pool sp) !! slab with Some _ => Some O | None => S <$> find_pool slab l end
  end.

Definition smfree (a : small_alloc) (ptr size : Z) : option small_alloc :=
  match small_mempool_search a size with
  | None =>
      c ← slab_put_large (cache a) (slab_from_data ptr);
      Some (set_cache a c)
  | Some i =>
      sp ← small_mempool_cache a !! i;
      slab ← slab_from_ptr (cache a) ptr (slab_ptr_mask (pool sp));
      j ← find_pool slab (small_mempool_cache a);
      mp ← small_mempool_cache a !! j;
      let d := u32 (objsize (pool mp) - objsize (pool sp)) in
      ASSERT waste sp >=? d;
      let a := put_pool a i (set_waste sp (u64 (waste sp - d))) in
      mp ← small_mempool_cache a !! j;
      '(c, m) ← mempool_free_slab (cache a) (pool mp) slab ptr;
      Some (put_pool (set_cache a c) j (set_pool mp m))
  end.

(** [struct mempool_iterator], less the allocator. *)
Definition mempool_iterator_create : nat := O.
Definition mempool_iterator_next (a : small_alloc) (it : nat) : option (mempool * nat) :=
  match small_mempool_cache a !! it with
  | Some sp => Some (pool sp, S it)
  | None => None
  end.

Fixpoint destroy_pools_loop (fuel : nat) (a : small_alloc) (c : slab_cache) (it : nat) : option slab_cache :=
  match mempool_iterator_next a it with
  | None => Some c
  | Some (m, it) =>
      match fuel with
      | O => None
      | S fuel =>
          c ← mempool_destroy c m;
          destroy_pools_loop fuel a c it
      end
  end.
Definition small_alloc_destroy (a : small_alloc) : option slab_cache :=
  destroy_pools_loop (length (small_mempool_cache a)) a (cache a) mempool_iterator_create.

(** The callback sees the statistics of each pool and its own state; it ends the
    loop with true. *)
Fixpoint stats_loop {S : Type} (fuel : nat) (a : small_alloc) (cb : mempool_stats_t -> S -> bool * S) (it : nat)
    (totals : small_stats) (st : S) : option (small_stats * S) :=
  match mempool_iterator_next a it with
  | None => Some (totals, st)
  | Some (m, it) =>
      match fuel with
      | O => None
      | Datatypes.S fuel =>
          stats ← mempool_stats (cache a) m;
          let totals := SmallStats (u64 (used totals + used (st_totals stats)))
                          (u64 (total totals + total (st_totals stats))) in
          let '(stop, st) := cb stats st in
          if stop : bool then Some (totals, st) else stats_loop fuel a cb it totals st
      end
  end.
Definition small_stats_of {S : Type} (a : small_alloc) (cb : mempool_stats_t -> S -> bool * S) (st : S) :
    option (small_stats * S) :=
  stats_loop (length (small_mempool_cache a)) a cb mempool_iterator_create (SmallStats 0 0) st.

Definition small_alloc_check (a : small_alloc) : option bool := slab_cache_check (cache a).

Record small_alloc_info_t := SmallAllocInfo { is_large : bool; real_size : Z }.
Definition small_alloc_info (a : small_alloc) (ptr size : Z) : option small_alloc_info_t :=
  info ← (match small_mempool_search a size with
          | None => Some (SmallAllocInfo true size)
          | Some i =>
              sp ← small_mempool_cache a !! i;
              slab ← slab_from_ptr (cache a) ptr (slab_ptr_mask (pool sp));
              j ← find_pool slab (small_mempool_cache a);
              mp ← small_mempool_cache a !! j;
              Some (SmallAllocInfo false (objsize (pool mp)))
          end);
  ASSERT real_size info >=? size;
  Some info.
End Small.

(** ** The layout of the pools

    What of a pool does not depend on its slabs. *)
Record pshape := Pshape {
  ps_objsize : Z; ps_order : Z; ps_group : option nat; ps_used : option nat; ps_mask : Z;
}.
Definition pshape_of (sp : small_mempool) : pshape :=
  Pshape (objsize (pool sp)) (slab_order (pool sp)) (group sp) (used_pool sp) (appropriate_pool_mask sp).

(** The bits from [idx] to 31. *)
Definition app_mask (idx : Z) : Z := Z.ones (32 - idx) * 2 ^ idx.

(** The pool that pool [i] of the group allocates from: the first active one from
    [i] on. *)
Definition bit_of (g : small_mempool_group) (i : nat) : Z := Z.of_nat i - Z.of_nat (g_first g).
Definition active (g : small_mempool_group) (i : nat) : bool := Z.testbit (active_pool_mask g) (bit_of g i).
Definition lends (g : small_mempool_group) (i u : nat) : Prop :=
  (i <= u <= g_last g)%nat /\ active g u = true /\ forall j, (i <= j < u)%nat -> active g j = false.
Definition low (g : small_mempool_group) (i : nat) : nat :=
  (g_first g + Z.to_nat (builtin_ffs (Z.land (active_pool_mask g) (app_mask (bit_of g i))) - 1))%nat.

Definition in_group (g : small_mempool_group) (i : nat) : Prop := (g_first g <= i <= g_last g)%nat.

(** The part of a group that never changes, and its mask. *)
Record group_ok (L : list pshape) (gi : nat) (g : small_mempool_group) : Prop := {
  go_range : (g_first g <= g_last g < length L)%nat /\ (g_last g - g_first g < 32)%nat;
  go_wmax : 0 <= waste_max g;
  go_active : 0 <= active_pool_mask g < 2 ^ 32 /\ active g (g_last g) = true;
  go_pool i p : L !! i = Some p -> in_group g i <-> ps_group p = Some gi;
  go_mask i p : L !! i = Some p -> in_group g i -> ps_mask p = app_mask (bit_of g i);
  go_order i p : L !! i = Some p -> in_group g i ->
    exists lp, L !! g_last g = Some lp /\ ps_order p = ps_order lp;
}.

Definition sizes_ok (L : list pshape) : Prop :=
  forall i j p q, L !! i = Some p -> L !! j = Some q -> (i < j)%nat -> ps_objsize p < ps_objsize q.

Lemma app_mask_bit idx j : 0 <= idx <= 32 -> 0 <= j -> Z.testbit (app_mask idx) j = (idx <=? j) && (j <? 32).
Proof.
  intros Hi Hj. unfold app_mask. destruct (Z.leb_spec idx j) as [Hle|Hlt]; cbn [andb].
  - rewrite Z.mul_pow2_bits by lia. rewrite Z.testbit_ones_nonneg by lia.
    destruct (Z.ltb_spec (j - idx) (32 - idx)), (Z.ltb_spec j 32); (done || lia).
  - apply Z.mul_pow2_bits_low. lia.
Qed.

Lemma low_lends L gi g i : group_ok L gi g -> in_group g i -> lends g i (low g i).
Proof.
  intros Hg Hi. destruct (go_range _ _ _ Hg) as [[R1 R2] R3]. destruct (go_active _ _ _ Hg) as [A1 A2]. unfold in_group in Hi.
  set (x := Z.land (active_pool_mask g) (app_mask (bit_of g i))).
  assert (Hbit : forall j, 0 <= j -> Z.testbit x j = Z.testbit (active_pool_mask g) j && ((bit_of g i <=? j) && (j <? 32))).
  { intros j Hj. unfold x. rewrite Z.land_spec, app_mask_bit; [done| |done]. unfold bit_of. lia. }
  assert (Hlast : Z.testbit x (bit_of g (g_last g)) = true).
  { rewrite Hbit by (unfold bit_of; lia). unfold active in A2. rewrite A2. unfold bit_of.
    rewrite (proj2 (Z.leb_le _ _)), (proj2 (Z.ltb_lt _ _)) by lia. done. }
  assert (Hx : 0 < x).
  { assert (0 <= x) by (apply Z.land_nonneg; lia). assert (x <> 0); [|lia]. intros E. rewrite E, Z.bits_0 in Hlast. done. }
  destruct (builtin_ffs_spec x Hx) as (K1 & K2 & K3). set (k := builtin_ffs x - 1) in *.
  assert (Ek : low g i = (g_first g + Z.to_nat k)%nat) by done.
  assert (Hk : bit_of g i <= k).
  { rewrite Hbit in K2 by done. apply andb_true_iff in K2 as [_ [K2%Z.leb_le _]%andb_true_iff]. done. }
  assert (Hkl : k <= bit_of g (g_last g)).
  { destruct (Z.le_gt_cases k (bit_of g (g_last g))) as [|Hgt]; [done|]. rewrite K3 in Hlast; [done|]. unfold bit_of in *. lia. }
  rewrite Ek. unfold lends, active, bit_of in *. split_and!; [lia..| |].
  - rewrite Hbit in K2 by done. apply andb_true_iff in K2 as [K2 _]. rewrite <- K2. f_equal. lia.
  - intros j Hj. assert (Hf : Z.testbit x (Z.of_nat j - Z.of_nat (g_first g)) = false) by (apply K3; lia).
    rewrite Hbit in Hf by lia. rewrite (proj2 (Z.leb_le _ _)), (proj2 (Z.ltb_lt _ _)), andb_true_r in Hf by lia. done.
Qed.

(** Shapes that differ only in the pool they allocate from. *)
Definition static_of (p : pshape) : Z * Z * option nat * Z := (ps_objsize p, ps_order p, ps_group p, ps_mask p).
Definition same_static (L L' : list pshape) : Prop := static_of <$> L' = static_of <$> L.

Lemma static_lookup L L' i p : same_static L L' -> L' !! i = Some p ->
  exists q, L !! i = Some q /\ ps_objsize p = ps_objsize q /\ ps_order p = ps_order q /\ ps_group p = ps_group q /\ ps_mask p = ps_mask q.
Proof.
  intros E Hp. pose proof (f_equal (lookup i) E) as Ei. rewrite !list_lookup_fmap, Hp in Ei.
  destruct (L !! i) as [q|]; [|done]. cbn in Ei. injection Ei as E1 E2 E3 E4. by exists q.
Qed.

Lemma static_length L L' : same_static L L' -> length L' = length L.
Proof. intros E. apply (f_equal length) in E. by rewrite !length_fmap in E. Qed.

Lemma group_ok_static L L' gi g : same_static L L' -> group_ok L gi g -> group_ok L' gi g.
Proof.
  intros E [G1 G2 G3 G4 G5 G6]. pose proof (static_length _ _ E) as Hlen. split; try done; [by rewrite Hlen|..].
  - intros i p Hi. destruct (static_lookup _ _ _ _ E Hi) as (q & Eq & _ & _ & -> & _). by apply (G4 i q).
  - intros i p Hi Hgi. destruct (static_lookup _ _ _ _ E Hi) as (q & Eq & _ & _ & _ & ->). by apply (G5 i q).
  - intros i p Hi Hgi. destruct (static_lookup _ _ _ _ E Hi) as (q & Eq & _ & -> & _). destruct (G6 i q Eq Hgi) as (lp & Elp & ->).
    destruct (lookup_lt_is_Some_2 L' (g_last g)) as [lp' Elp']; [rewrite Hlen; by eapply lookup_lt_Some|].
    exists lp'. split; [done|]. destruct (static_lookup _ _ _ _ E Elp') as (q' & Eq' & _ & -> & _). congruence.
Qed.

Lemma sizes_ok_static L L' : same_static L L' -> sizes_ok L -> sizes_ok L'.
Proof.
  intros E Hs i j p q Hi Hj Hlt. destruct (static_lookup _ _ _ _ E Hi) as (p' & Ep & Hp & _).
  destruct (static_lookup _ _ _ _ E Hj) as (q' & Eq & Hq & _). rewrite Hp, Hq. by apply (Hs i j).
Qed.

(** ** Updating a group *)
Section Update.
Context {src : Type} {F : Type}.
Local Abbreviation small_alloc := (small_alloc (src:=src) (F:=F)).
Local Abbreviation shapes a := (pshape_of <$> small_mempool_cache a).

Lemma shapes_lookup (l : list small_mempool) i p : (pshape_of <$> l) !! i = Some p ->
  exists sp, l !! i = Some sp /\ p = pshape_of sp.
Proof. rewrite list_lookup_fmap. destruct (l !! i) as [sp|]; [|done]. intros [= <-]. by exists sp. Qed.

Lemma shapes_of (l : list small_mempool) i sp : l !! i = Some sp -> (pshape_of <$> l) !! i = Some (pshape_of sp).
Proof. intros E. by rewrite list_lookup_fmap, E. Qed.

(** [f] is applied to the pools from [j] on, [n] of them. *)
Definition remap (f : nat -> small_mempool -> small_mempool) (j n : nat) (l l' : list small_mempool) : Prop :=
  forall i, l' !! i = (fun sp => if decide (j <= i < j + n)%nat then f i sp else sp) <$> l !! i.

Lemma remap_fmap {X} (h : small_mempool -> X) f j n l l' : (forall i sp, h (f i sp) = h sp) ->
  remap f j n l l' -> h <$> l' = h <$> l.
Proof.
  intros Hf Hu. apply list_eq. intros i. rewrite !list_lookup_fmap, Hu. destruct (l !! i) as [sp|]; [|done].
  cbn [fmap option_fmap option_map]. f_equal. destruct (decide _); [apply Hf|done].
Qed.

Lemma remap_length f j n l l' : remap f j n l l' -> length l' = length l.
Proof.
  intros Hl. apply (remap_fmap (fun _ => tt)) in Hl; [|done]. apply (f_equal length) in Hl. by rewrite !length_fmap in Hl.
Qed.

Lemma remap_nil f j l : remap f j 0 l l.
Proof. intros i. destruct (l !! i); [|done]. cbn. destruct (decide _); [lia|done]. Qed.

Lemma remap_cons f j n l l' sp : l !! j = Some sp -> remap f (S j) n (<[j := f j sp]> l) l' -> remap f j (S n) l l'.
Proof.
  intros Hj Hr i. rewrite Hr. destruct (decide (i = j)) as [->|Hne].
  - rewrite list_lookup_insert_eq, Hj by (by eapply lookup_lt_Some). cbn. destruct (decide _); [lia|]. destruct (decide _); [done|lia].
  - rewrite list_lookup_insert_ne by done. destruct (l !! i); [|done]. cbn [fmap option_fmap option_map]. f_equal.
    destruct (decide (S j <= i < S j + n)%nat), (decide (j <= i < j + S n)%nat); (done || lia).
Qed.

(** The pools lend from [low]. *)
Definition updated (g : small_mempool_group) : nat -> nat -> list small_mempool -> list small_mempool -> Prop :=
  remap (fun i sp => set_used_pool sp (low g i)).

Lemma update_loop_spec g gi n : forall (a : small_alloc) j,
  group_ok (shapes a) gi g -> sizes_ok (shapes a) -> (g_first g <= j)%nat -> (j + n = S (g_last g))%nat ->
  exists l, update_loop a g (seq j n) = Some (set_pools a l) /\ updated g j n (small_mempool_cache a) l.
Proof.
  induction n as [|n IH]; intros a j Hg Hs Hj Hn.
  - exists (small_mempool_cache a). split; [by destruct a|]. apply remap_nil.
  - destruct (go_range _ _ _ Hg) as [[R1 R2] R3]. rewrite length_fmap in R2.
    destruct (lookup_lt_is_Some_2 (small_mempool_cache a) j) as [sp Esp]; [lia|].
    assert (Hin : in_group g j) by (unfold in_group; lia). pose proof (low_lends _ _ _ _ Hg Hin) as (U1 & U2 & U3).
    cbn [seq update_loop]. rewrite Esp. cbn [mbind option_bind].
    pose proof (go_mask _ _ _ Hg j _ (shapes_of _ _ _ Esp) Hin) as Em. cbn [pshape_of ps_mask] in Em. rewrite Em.
    assert (Hx : 0 <= builtin_ffs (Z.land (active_pool_mask g) (app_mask (bit_of g j))) - 1).
    { apply builtin_ffs_spec. assert (0 <= Z.land (active_pool_mask g) (app_mask (bit_of g j))).
      { apply Z.land_nonneg. left. apply (go_active _ _ _ Hg). }
      enough (Z.land (active_pool_mask g) (app_mask (bit_of g j)) <> 0) by lia. intros E0.
      assert (Hb : Z.testbit (Z.land (active_pool_mask g) (app_mask (bit_of g j))) (bit_of g (g_last g)) = true).
      { rewrite Z.land_spec, app_mask_bit by (unfold bit_of; lia). destruct (go_active _ _ _ Hg) as [_ A]. unfold active in A. rewrite A.
        unfold bit_of. rewrite (proj2 (Z.leb_le _ _)), (proj2 (Z.ltb_lt _ _)) by lia. done. }
      rewrite E0, Z.bits_0 in Hb. done. }
    rewrite (proj2 (Z.geb_le _ 0)) by lia.
    change (g_first g + Z.to_nat (builtin_ffs (Z.land (active_pool_mask g) (app_mask (bit_of g j))) - 1))%nat with (low g j).
    rewrite (proj2 (Nat.leb_le j (low g j))) by lia. cbn [mbind option_bind].
    set (a' := put_pool a j (set_used_pool sp (low g j))).
    assert (Hst : same_static (shapes a) (shapes a')).
    { unfold same_static, a', put_pool. cbn [set_pools small_mempool_cache]. rewrite !list_fmap_insert. apply list_insert_id.
      by rewrite !list_lookup_fmap, Esp. }
    pose proof (static_length _ _ Hst) as Hlen.
    assert (Hup : exists up, small_mempool_cache a' !! low g j = Some up /\ objsize (pool sp) <= objsize (pool up)).
    { destruct (lookup_lt_is_Some_2 (small_mempool_cache a') (low g j)) as [up Eup]; [rewrite !length_fmap in Hlen; lia|].
      exists up. split; [done|]. destruct (decide (low g j = j)) as [E|Hne].
      - rewrite E in Eup. unfold a', put_pool in Eup. cbn [set_pools small_mempool_cache] in Eup.
        apply list_lookup_insert_Some in Eup as [(_ & <- & _)|[? _]]; [cbn; lia|done].
      - destruct (static_lookup _ _ _ _ Hst (shapes_of _ _ _ Eup)) as (q & Eq & Hq & _). cbn [pshape_of ps_objsize] in Hq. rewrite Hq.
        apply Z.lt_le_incl, (Hs j (low g j) (pshape_of sp) q (shapes_of _ _ _ Esp) Eq). lia. }
    destruct Hup as (up & Eup & Hle). rewrite Eup. cbn [mbind option_bind]. rewrite (proj2 (Z.leb_le _ _) Hle).
    destruct (IH a' (S j) (group_ok_static _ _ _ _ Hst Hg) (sizes_ok_static _ _ Hst Hs)) as (l & E & Hl); [lia|lia|].
    exists l. split; [exact E|]. by apply (remap_cons _ j n _ l sp).
Qed.

(** Every pool of the group allocates from the first active one. *)
Definition group_used (L : list pshape) (g : small_mempool_group) : Prop :=
  forall i p, L !! i = Some p -> in_group g i -> exists u, ps_used p = Some u /\ lends g i u.

(** Nothing but the pools to allocate from differs. *)
Definition same_pools (l l' : list small_mempool) : Prop :=
  pool <$> l' = pool <$> l /\ waste <$> l' = waste <$> l /\ same_static (pshape_of <$> l) (pshape_of <$> l').

Lemma update_group_spec (a : small_alloc) i gi g : group_of a i = Some (gi, g) -> sizes_ok (shapes a) ->
  group_ok (shapes a) gi g ->
  exists l, small_mempool_update_group a i = Some (set_pools a l) /\ same_pools (small_mempool_cache a) l /\
    group_used (pshape_of <$> l) g /\
    (forall j sp, ~ in_group g j -> small_mempool_cache a !! j = Some sp -> l !! j = Some sp).
Proof.
  intros Eg Hs Hg. destruct (go_range _ _ _ Hg) as [[R1 _] _]. unfold small_mempool_update_group. rewrite Eg. cbn [mbind option_bind].
  destruct (update_loop_spec g gi (S (g_last g) - g_first g) a (g_first g) Hg Hs) as (l & E & Hu); [lia|lia|].
  assert (Hp : same_pools (small_mempool_cache a) l).
  { split; [|split]; [by eapply remap_fmap; [|exact Hu]|by eapply remap_fmap; [|exact Hu]|].
    unfold same_static. rewrite <- !list_fmap_compose. by eapply remap_fmap; [|exact Hu]. }
  exists l. split; [done|]. split; [done|]. split.
  - intros j p (sp & Ej & ->)%shapes_lookup Hin. rewrite Hu in Ej. destruct (small_mempool_cache a !! j) as [sp0|]; [|done].
    injection Ej as <-. destruct (decide _) as [_|Hn]; [|unfold in_group in Hin; lia].
    exists (low g j). split; [done|]. by apply (low_lends (shapes a) gi).
  - intros j sp Hj Ej. rewrite Hu, Ej. cbn [fmap option_fmap option_map]. f_equal.
    destruct (decide _) as [Hn|_]; [|done]. exfalso. apply Hj. unfold in_group. lia.
Qed.

Lemma group_used_other (l l' : list small_mempool) g g' : length l' = length l ->
  (forall j, in_group g j -> in_group g' j -> False) ->
  (forall j sp, ~ in_group g j -> l !! j = Some sp -> l' !! j = Some sp) ->
  group_used (pshape_of <$> l) g' -> group_used (pshape_of <$> l') g'.
Proof.
  intros Hlen Hdis Hl Hu j p (sp' & Ej & ->)%shapes_lookup Hin.
  destruct (lookup_lt_is_Some_2 l j) as [sp E0]; [rewrite <- Hlen; by eapply lookup_lt_Some|].
  assert (E1 : l' !! j = Some sp) by (apply Hl; [intros Hg; by apply (Hdis j)|done]). rewrite E1 in Ej. injection Ej as <-.
  apply (Hu j _ (shapes_of _ _ _ E0) Hin).
Qed.

Lemma same_pools_length l l' : same_pools l l' -> length l' = length l.
Proof. intros (E & _). apply (f_equal length) in E. by rewrite !length_fmap in E. Qed.

(** ** The layout *)

(** All pools are in groups, and their sizes are the class sizes up to [max]. *)
Record layout (sc : small_class F) (max : Z) (L : list pshape) (G : list small_mempool_group) : Prop := {
  lo_sizes : sizes_ok L;
  lo_groups gi g : G !! gi = Some g -> group_ok L gi g /\ group_used L g;
  lo_group i p : L !! i = Some p -> exists gi g, ps_group p = Some gi /\ G !! gi = Some g;
  lo_wf : small_class_wf sc;
  lo_class i p : L !! i = Some p -> ps_objsize p = Z.min (class_size sc (Z.of_nat i)) max;
  lo_max : 0 < max < 2 ^ 32 /\ (0 < length L)%nat /\ max <= class_size sc (Z.of_nat (length L) - 1);
}.

Lemma layout_static sc max L L' G G' : layout sc max L G -> same_static L L' ->
  (forall gi, is_Some (G !! gi) -> is_Some (G' !! gi)) ->
  (forall gi g, G' !! gi = Some g -> group_ok L' gi g /\ group_used L' g) -> layout sc max L' G'.
Proof.
  intros [L1 L2 L3 L4 L5 L6] E HG HG'. split; try done.
  - by apply (sizes_ok_static L).
  - intros i p Hi. destruct (static_lookup _ _ _ _ E Hi) as (q & Eq & _ & _ & -> & _).
    destruct (L3 i q Eq) as (gi & g & -> & Hg). destruct (HG gi ltac:(by exists g)) as [g' Hg']. by exists gi, g'.
  - intros i p Hi. destruct (static_lookup _ _ _ _ E Hi) as (q & Eq & -> & _). by apply (L5 i q).
  - by rewrite (static_length _ _ E).
Qed.

Lemma groups_disjoint sc max L G gi g gj h j : layout sc max L G -> G !! gi = Some g -> G !! gj = Some h -> gi <> gj ->
  in_group g j -> in_group h j -> False.
Proof.
  intros HL Hg Hh Hne H1 H2. destruct (lo_groups _ _ _ _ HL gi g Hg) as [Gg _]. destruct (lo_groups _ _ _ _ HL gj h Hh) as [Gh _].
  destruct (go_range _ _ _ Gg) as [R _]. destruct (lookup_lt_is_Some_2 L j) as [p Hp]; [unfold in_group in H1; lia|].
  apply (go_pool _ _ _ Gg j p Hp) in H1. apply (go_pool _ _ _ Gh j p Hp) in H2. congruence.
Qed.

Lemma group_of_some (a : small_alloc) i gi g : group_of a i = Some (gi, g) <->
  small_mempool_groups a !! gi = Some g /\ exists sp, small_mempool_cache a !! i = Some sp /\ group sp = Some gi.
Proof.
  unfold group_of. split.
  - intros Eg. destruct (small_mempool_cache a !! i) as [sp|]; [|done]. cbn [mbind option_bind] in Eg.
    destruct (group sp) as [gj|] eqn:Ej; [|done]. cbn [mbind option_bind] in Eg.
    destruct (small_mempool_groups a !! gj) as [h|] eqn:E; [|done]. cbn [mbind option_bind] in Eg. simplify_eq. split; [done|by exists sp].
  - intros (Eg & sp & -> & Ej). cbn [mbind option_bind]. rewrite Ej. cbn [mbind option_bind]. by rewrite Eg.
Qed.

Lemma group_of_in sc max (a : small_alloc) i sp : layout sc max (shapes a) (small_mempool_groups a) ->
  small_mempool_cache a !! i = Some sp ->
  exists gi g, group sp = Some gi /\ group_of a i = Some (gi, g) /\ small_mempool_groups a !! gi = Some g /\ in_group g i /\
    group_ok (shapes a) gi g /\ group_used (shapes a) g.
Proof.
  intros HL Hi. destruct (lo_group _ _ _ _ HL i _ (shapes_of _ _ _ Hi)) as (gi & g & Eg & Hg). cbn [pshape_of ps_group] in Eg.
  destruct (lo_groups _ _ _ _ HL gi g Hg) as [G1 G2]. exists gi, g. split_and!; try done.
  { apply group_of_some. split; [done|by exists sp]. }
  apply (go_pool _ _ _ G1 i _ (shapes_of _ _ _ Hi)). done.
Qed.

(** The mask of a group is replaced and the group updated. *)
Lemma remask_spec sc max (a : small_alloc) i gi g mask : layout sc max (shapes a) (small_mempool_groups a) ->
  group_of a i = Some (gi, g) -> in_group g i -> 0 <= mask < 2 ^ 32 -> Z.testbit mask (bit_of g (g_last g)) = true ->
  let G := <[gi := set_active g mask]> (small_mempool_groups a) in
  exists l, small_mempool_update_group (set_groups a G) i = Some (set_pools (set_groups a G) l) /\
    same_pools (small_mempool_cache a) l /\ layout sc max (pshape_of <$> l) G /\
    group_used (pshape_of <$> l) (set_active g mask) /\
    (forall j sp, ~ in_group g j -> small_mempool_cache a !! j = Some sp -> l !! j = Some sp).
Proof.
  intros HL Eg Hin Hm Hb G. pose proof Eg as (Hgi & spi & Ei & Egi)%group_of_some.
  destruct (lo_groups _ _ _ _ HL gi g Hgi) as [Gg _].
  assert (Gg' : group_ok (shapes a) gi (set_active g mask)) by (destruct Gg; by constructor).
  assert (Eg' : group_of (set_groups a G) i = Some (gi, set_active g mask)).
  { apply group_of_some. split; [|by exists spi]. apply list_lookup_insert_eq. by eapply lookup_lt_Some. }
  destruct (update_group_spec (set_groups a G) i gi _ Eg' (lo_sizes _ _ _ _ HL) Gg') as (l & E & Hp & Hu & Hu').
  pose proof (same_pools_length _ _ Hp) as Hlen. exists l. split; [done|]. split; [done|]. split; [|done].
  destruct Hp as (_ & _ & Hst). apply (layout_static sc max (shapes a) _ _ _ HL Hst).
  - intros gj [h Hh]. apply lookup_lt_is_Some. unfold G. rewrite length_insert. by eapply lookup_lt_Some.
  - intros gj h Hh. unfold G in Hh. apply list_lookup_insert_Some in Hh as [(<- & <- & _)|[Hne Hh]].
    + split; [by apply (group_ok_static (shapes a))|done].
    + destruct (lo_groups _ _ _ _ HL gj h Hh) as [Gh Uh]. split; [by apply (group_ok_static (shapes a))|].
      apply (group_used_other (small_mempool_cache a) l (set_active g mask) h Hlen); [|done|done].
      intros j H1 H2. by apply (groups_disjoint sc max _ _ gi g gj h j HL Hgi Hh Hne).
Qed.

Lemma bit_mask g i : in_group g i -> (g_last g - g_first g < 32)%nat ->
  0 <= bit_of g i < 32 /\ u32 (Z.shiftl 1 (bit_of g i)) = 2 ^ bit_of g i.
Proof.
  intros Hi Hr. assert (Hb : 0 <= bit_of g i < 32) by (unfold in_group, bit_of in *; lia). split; [done|].
  rewrite shiftl_mul, Z.mul_1_l by lia. apply u32_small. split; [apply Z.lt_le_incl, pow2_pos; lia|apply Z.pow_lt_mono_r; lia].
Qed.

Lemma activate_spec sc max (a : small_alloc) i gi g : layout sc max (shapes a) (small_mempool_groups a) ->
  group_of a i = Some (gi, g) -> in_group g i -> group_ok (shapes a) gi g -> active g i = false ->
  exists l G, small_mempool_activate a i = Some (set_pools (set_groups a G) l) /\
    same_pools (small_mempool_cache a) l /\ layout sc max (pshape_of <$> l) G.
Proof.
  intros HL Eg Hi Hg Hact. destruct (go_range _ _ _ Hg) as [_ R]. destruct (bit_mask g i Hi R) as [Hb Em].
  destruct (go_active _ _ _ Hg) as [[A1 A2] A3]. unfold small_mempool_activate. rewrite Eg. cbn [mbind option_bind].
  change (small_mempool_get_group_index i g) with (bit_of g i). rewrite Em, land_bit by lia. unfold active in Hact. rewrite Hact. cbn [negb].
  destruct (remask_spec sc max a i gi g (Z.lor (active_pool_mask g) (2 ^ bit_of g i)) HL Eg Hi) as (l & E & Hp & HL' & _).
  - pose proof (pow2_pos (bit_of g i) ltac:(lia)). assert (0 <= Z.lor (active_pool_mask g) (2 ^ bit_of g i)) by (apply Z.lor_nonneg; lia).
    split; [done|]. apply bits_bound; [lia|done|]. intros j Hj. rewrite Z.lor_spec, (bits_above 32), Z.pow2_bits_false by lia. done.
  - rewrite Z.lor_spec. unfold active in A3. by rewrite A3.
  - exists l, (<[gi := set_active g (Z.lor (active_pool_mask g) (2 ^ bit_of g i))]> (small_mempool_groups a)). done.
Qed.

(** Where pools allocate from only moves up. *)
Definition used_at (l : list small_mempool) (i : nat) : option nat := sp ← l !! i; used_pool sp.
Definition used_mono (l l' : list small_mempool) : Prop :=
  forall i u, used_at l i = Some u -> exists u', used_at l' i = Some u' /\ (u <= u')%nat.

Lemma used_mono_refl l : used_mono l l.
Proof. intros i u Hu. by exists u. Qed.

Lemma used_mono_trans l1 l2 l3 : used_mono l1 l2 -> used_mono l2 l3 -> used_mono l1 l3.
Proof.
  intros H1 H2 i u Hu. destruct (H1 i u Hu) as (u' & Hu' & ?). destruct (H2 i u' Hu') as (u2 & ? & ?). exists u2. split; [done|lia].
Qed.

Lemma deactivate_spec sc max (a : small_alloc) i gi g : layout sc max (shapes a) (small_mempool_groups a) ->
  group_of a i = Some (gi, g) -> in_group g i -> group_ok (shapes a) gi g -> active g i = true -> i <> g_last g ->
  exists l G, small_mempool_deactivate a i = Some (set_pools (set_groups a G) l) /\
    same_pools (small_mempool_cache a) l /\ layout sc max (pshape_of <$> l) G /\ used_mono (small_mempool_cache a) l.
Proof.
  intros HL Eg Hi Hg Hact Hne. destruct (go_range _ _ _ Hg) as [R1 R]. destruct (bit_mask g i Hi R) as [Hb Em].
  destruct (go_active _ _ _ Hg) as [[A1 A2] A3]. unfold small_mempool_deactivate. rewrite Eg. cbn [mbind option_bind].
  change (small_mempool_get_group_index i g) with (bit_of g i). rewrite Em, land_bit by lia. unfold active in Hact. rewrite Hact. cbn [negb].
  set (mask := Z.land (active_pool_mask g) (u32 (Z.lnot (2 ^ bit_of g i)))).
  destruct (remask_spec sc max a i gi g mask HL Eg Hi) as (l & E & Hp & HL' & Hu & Ho).
  - assert (0 <= mask) by (apply Z.land_nonneg; lia). split; [done|]. apply bits_bound; [lia|done|]. intros j Hj.
    unfold mask. rewrite Z.land_spec, (bits_above 32) by lia. done.
  - unfold mask. rewrite Z.land_spec. unfold active in A3. rewrite A3. unfold in_group, u32 in *.
    rewrite Z.mod_pow2_bits_low by (unfold bit_of; lia). rewrite Z.lnot_spec by (unfold bit_of; lia).
    rewrite Z.pow2_bits_false; [done|]. unfold bit_of. lia.
  - exists l, (<[gi := set_active g mask]> (small_mempool_groups a)). split_and!; [done..|].
    intros j u Hj. unfold used_at in *. destruct (small_mempool_cache a !! j) as [sp|] eqn:Ej; [|done]. cbn [mbind option_bind] in Hj.
    destruct (decide (in_group g j)) as [Hin|Hnin]; [|rewrite (Ho j sp Hnin Ej); by exists u].
    destruct (lookup_lt_is_Some_2 l j) as [sp' Ej']; [rewrite (same_pools_length _ _ Hp); by eapply lookup_lt_Some|].
    destruct (Hu j _ (shapes_of _ _ _ Ej') Hin) as (u' & Eu' & Hl'). rewrite Ej'. exists u'. split; [done|].
    assert (Gu : group_used (shapes a) g).
    { apply (lo_groups _ _ _ _ HL gi g). by apply group_of_some in Eg as [? _]. }
    destruct (Gu j _ (shapes_of _ _ _ Ej) Hin) as (u0 & Eu0 & Hl0). cbn [pshape_of ps_used] in Eu0. rewrite Hj in Eu0. injection Eu0 as <-.
    destruct Hl' as (H1 & H2 & _), Hl0 as (H3 & _ & H4). destruct (Nat.le_gt_cases u u') as [|Hgt]; [done|].
    exfalso. unfold active in *. cbn [set_active active_pool_mask] in H2. change (bit_of (set_active g mask) u') with (bit_of g u') in H2.
    unfold mask in H2. rewrite Z.land_spec, (H4 u') in H2 by lia. done.
Qed.
End Update.
