(* ===== verification/SmallAlloc.v ===== *)
(** * Allocation and freeing of objects of any size

    The invariant of the allocator of [Small] over its pools and the slab cache,
    with the objects handed out, and what [smalloc], [smfree] and the other
    operations do to it. *)
From S2P Require Import Prelude Util SmallClass SlabSource SlabCache Rb RbUpdate RbQuery Mempool Small.

(** An object handed out: its address, the size asked for, the pool of its class,
    and the pool it was taken from; or a slab of its own. *)
Inductive obj :=
  | SmallObj (ptr size : Z) (cls from : nat)
  | LargeObj (ptr size : Z).
Definition obj_ptr (x : obj) : Z := match x with SmallObj p _ _ _ | LargeObj p _ => p end.
Definition obj_size (x : obj) : Z := match x with SmallObj _ n _ _ | LargeObj _ n => n end.

(** The objects of pool [i], and the large slabs. *)
Definition ptrs (i : nat) (live : list obj) : list Z :=
  live ≫= fun x => match x with SmallObj p _ _ j => if (j =? i)%nat then [p] else [] | LargeObj _ _ => [] end.
Definition large (live : list obj) : list (Z * Z) :=
  live ≫= fun x => match x with LargeObj p n => [(slab_from_data p, n + slab_sizeof)] | SmallObj _ _ _ _ => [] end.

(** What the objects of class [i] lose by lying in larger objects. *)
Definition size_at (L : list pshape) (i : nat) : Z := default 0 (ps_objsize <$> L !! i).
Definition wasted (L : list pshape) (i : nat) (x : obj) : Z :=
  match x with
  | SmallObj _ _ c j => if (c =? i)%nat then size_at L j - size_at L i else 0
  | LargeObj _ _ => 0
  end.

Section Inv.
Context {src : Type} `{!SlabSource src}
  {inv : Z -> Z -> src -> list Z -> list (Z * Z) -> list Z -> Prop} `{!SlabSourceLaws inv} {F : Type}.
Context (lb mx lim : Z) (Hlb : 12 <= lb) (Hmx : 0 <= mx <= 15) (Hk : lb + mx <= 31).
Local Abbreviation small_alloc := (small_alloc (src:=src) (F:=F)).
Local Abbreviation hold := (hold (inv:=inv) lb mx lim).
Local Abbreviation pool_inv := (pool_inv (inv:=inv) lb mx lim).
Local Abbreviation shapes a := (pshape_of <$> small_mempool_cache a).

(** A pool with the objects [objs] handed out, wherever its slabs are. *)
Definition pool_ok (m : mempool) (objs : list Z) : Prop := exists c O B, pool_inv c m objs O B [] 0.

(** The slabs of some of the pools. *)
Definition owned_by (l : list small_mempool) : list (Z * Z) := l ≫= fun sp => owned (pool sp).

(** An object lies in a pool of the group of its class, not below it. *)
Definition obj_ok (a : small_alloc) (x : obj) : Prop :=
  0 <= obj_size x /\
  match x with
  | SmallObj _ n c j =>
      small_mempool_search a n = Some c /\
      exists sp mp, small_mempool_cache a !! c = Some sp /\ small_mempool_cache a !! j = Some mp /\
        group sp = group mp /\ (c <= j)%nat
  | LargeObj _ n => small_mempool_search a n = None
  end.

(** [O] and [B] are the slabs of others. *)
Record small_core (a : small_alloc) (O B : list (Z * Z)) (live : list obj) : Prop := {
  v_layout : layout (sclass a) (objsize_max a) (shapes a) (small_mempool_groups a);
  v_hold : hold (cache a) (owned_by (small_mempool_cache a) ++ O) (large live ++ B);
  v_pool i sp : small_mempool_cache a !! i = Some sp -> pool_ok (pool sp) (ptrs i live);
  v_obj x : x ∈ live -> obj_ok a x;
}.

(** The waste counters are not below the waste. *)
Definition waste_ok (a : small_alloc) (live : list obj) : Prop :=
  forall i sp, small_mempool_cache a !! i = Some sp -> zsum (wasted (shapes a) i) live <= waste sp < 2 ^ 64.

Definition small_inv (a : small_alloc) (O B : list (Z * Z)) (live : list obj) : Prop :=
  small_core a O B live /\ waste_ok a live.

(** ** One pool among the others *)

Lemma owned_pools l : owned_by l = (pool <$> l) ≫= owned.
Proof. symmetry. apply list_fmap_bind. Qed.

(** Objects depend on the static part of the pools only. *)
Lemma obj_ok_shapes a a' x : sclass a' = sclass a -> objsize_max a' = objsize_max a ->
  same_static (shapes a) (shapes a') -> obj_ok a x -> obj_ok a' x.
Proof.
  intros Ec Em Hst. destruct x as [p n c j|p n]; unfold obj_ok, small_mempool_search; rewrite Ec, Em; [|done].
  intros (H0 & Hs & sp & mp & E1 & E2 & Eg & Hle). split; [done|]. split; [done|].
  assert (Hg : forall q t, small_mempool_cache a !! q = Some t -> exists t', small_mempool_cache a' !! q = Some t' /\ group t' = group t).
  { intros q t Hq. pose proof (static_length _ _ Hst) as Hlen. rewrite !length_fmap in Hlen.
    destruct (lookup_lt_is_Some_2 (small_mempool_cache a') q) as [t' Ht']; [rewrite Hlen; by eapply lookup_lt_Some|]. exists t'. split; [done|].
    destruct (static_lookup _ _ _ _ Hst (shapes_of _ _ _ Ht')) as (u & Eu & _ & _ & Eg' & _).
    rewrite (shapes_of _ _ _ Hq) in Eu. by injection Eu as <-. }
  destruct (Hg _ _ E1) as (t1 & F1 & G1). destruct (Hg _ _ E2) as (t2 & F2 & G2). exists t1, t2. split_and!; [done|done|congruence|done].
Qed.

Lemma owned_split l i sp : l !! i = Some sp -> owned_by l ≡ₚ owned (pool sp) ++ owned_by (delete i l).
Proof. intros Hi. apply delete_Permutation in Hi. unfold owned_by. by rewrite Hi at 1. Qed.

Lemma delete_insert_same {X} (l : list X) i x : delete i (<[i := x]> l) = delete i l.
Proof. rewrite !delete_take_drop, take_insert_ge, drop_insert_lt by lia. done. Qed.

Lemma hold_perm' c O O' B : O ≡ₚ O' -> hold c O B -> hold c O' B.
Proof. intros HP Hc. by apply (hold_perm lb mx lim c O O' B). Qed.

Lemma pool_at a O B live i sp : small_core a O B live -> small_mempool_cache a !! i = Some sp ->
  pool_inv (cache a) (pool sp) (ptrs i live) (owned_by (delete i (small_mempool_cache a)) ++ O) (large live ++ B) [] 0.
Proof.
  intros Hv Hi. destruct (v_pool _ _ _ _ Hv i sp Hi) as (c & O' & B' & Hp).
  apply (pool_recache lb mx lim _ _ _ _ _ _ _ _ _ _ Hp). eapply hold_perm'; [|apply (v_hold _ _ _ _ Hv)].
  rewrite (owned_split _ _ _ Hi), app_assoc. done.
Qed.

Lemma pool_shape c m objs O B X d : pool_inv c m objs O B X d -> shape lb mx m.
Proof. apply k_shape. Qed.

(** The pools and their order, once pool [i] has new slabs and objects. *)
Lemma put_pool_core a O B live live' i sp c m : small_core a O B live -> small_mempool_cache a !! i = Some sp ->
  pool_inv c m (ptrs i live') (owned_by (delete i (small_mempool_cache a)) ++ O) (large live' ++ B) [] 0 ->
  same_sizes (pool sp) m -> (forall j, j <> i -> ptrs j live' = ptrs j live) ->
  (forall x, x ∈ live' -> obj_ok a x) ->
  small_core (put_pool (set_cache a c) i (set_pool sp m)) O B live' /\
  shapes (put_pool (set_cache a c) i (set_pool sp m)) = shapes a.
Proof.
  intros Hv Hi Hp Hsz Hptr Hobj. pose proof (pool_shape _ _ _ _ _ _ _ (pool_at _ _ _ _ _ _ Hv Hi)) as Hsh. pose proof (pool_shape _ _ _ _ _ _ _ Hp) as Hsh'.
  destruct (same_order lb mx Hlb Hmx Hk (pool sp) m Hsh Hsh' Hsz) as [Eo _].
  assert (Es : shapes (put_pool (set_cache a c) i (set_pool sp m)) = shapes a).
  { unfold put_pool. cbn [set_pools set_cache small_mempool_cache]. rewrite list_fmap_insert. apply list_insert_id.
    rewrite list_lookup_fmap, Hi. cbn. unfold pshape_of. cbn [set_pool pool group used_pool appropriate_pool_mask].
    destruct Hsz as (-> & _). by rewrite Eo. }
  split; [|done]. constructor.
  - rewrite Es. apply (v_layout _ _ _ _ Hv).
  - pose proof (k_cache _ _ _ _ _ _ _ _ _ _ Hp) as Hc. eapply hold_perm'; [|exact Hc].
    unfold put_pool. cbn [set_pools set_cache small_mempool_cache]. symmetry.
    assert (Hi' : <[i:=set_pool sp m]> (small_mempool_cache a) !! i = Some (set_pool sp m))
      by (apply list_lookup_insert_eq; by eapply lookup_lt_Some).
    rewrite (owned_split _ _ _ Hi'), delete_insert_same, app_assoc. done.
  - intros j sp' Hj. unfold put_pool in Hj. cbn [set_pools set_cache small_mempool_cache] in Hj.
    apply list_lookup_insert_Some in Hj as [(<- & <- & _)|[Hne Hj]]; [by eexists c, _, _|].
    rewrite Hptr by done. apply (v_pool _ _ _ _ Hv j sp' Hj).
  - intros x Hx. apply (obj_ok_shapes a); [done|done|by unfold same_static; rewrite Es|by apply Hobj].
Qed.

(** ** What does not change *)

(** Classes, groups, sizes and waste stay; where pools allocate from moves up. *)
Record frame (a a' : small_alloc) : Prop := {
  f_class : sclass a' = sclass a;
  f_max : objsize_max a' = objsize_max a;
  f_static : same_static (shapes a) (shapes a');
  f_waste : waste <$> small_mempool_cache a' = waste <$> small_mempool_cache a;
  f_used : used_mono (small_mempool_cache a) (small_mempool_cache a');
}.

Lemma frame_refl a : frame a a.
Proof. split; try done. apply used_mono_refl. Qed.

Lemma frame_trans a1 a2 a3 : frame a1 a2 -> frame a2 a3 -> frame a1 a3.
Proof.
  intros [A1 A2 A3 A4 A5] [B1 B2 B3 B4 B5]. split; [congruence|congruence| |congruence|by eapply used_mono_trans].
  unfold same_static in *. congruence.
Qed.

Lemma frame_pool a a' i sp : frame a a' -> small_mempool_cache a !! i = Some sp ->
  exists sp', small_mempool_cache a' !! i = Some sp' /\ group sp' = group sp /\ waste sp' = waste sp /\
    objsize (pool sp') = objsize (pool sp) /\ slab_order (pool sp') = slab_order (pool sp).
Proof.
  intros Hf Hi. pose proof (static_length _ _ (f_static _ _ Hf)) as Hlen. rewrite !length_fmap in Hlen.
  destruct (lookup_lt_is_Some_2 (small_mempool_cache a') i) as [sp' Hi']; [rewrite Hlen; by eapply lookup_lt_Some|].
  exists sp'. split; [done|].
  destruct (static_lookup _ _ _ _ (f_static _ _ Hf) (shapes_of _ _ _ Hi')) as (q & Eq & E1 & E2 & E3 & _).
  rewrite (shapes_of _ _ _ Hi) in Eq. injection Eq as <-. cbn [pshape_of ps_group ps_objsize ps_order] in *.
  pose proof (f_equal (lookup i) (f_waste _ _ Hf)) as Ew. rewrite !list_lookup_fmap, Hi, Hi' in Ew. cbn in Ew. injection Ew as Ew. done.
Qed.

Lemma frame_search a a' n : frame a a' -> small_mempool_search a' n = small_mempool_search a n.
Proof. intros Hf. unfold small_mempool_search. by rewrite (f_class _ _ Hf), (f_max _ _ Hf). Qed.

Lemma obj_ok_frame a a' x : frame a a' -> obj_ok a x -> obj_ok a' x.
Proof. intros []. by apply obj_ok_shapes. Qed.

Lemma size_at_static L L' i : same_static L L' -> size_at L' i = size_at L i.
Proof.
  intros E. unfold size_at. pose proof (f_equal (lookup i) E) as Ei. rewrite !list_lookup_fmap in Ei.
  destruct (L !! i) as [p|], (L' !! i) as [q|]; try done. cbn in Ei. injection Ei as E1 _ _ _. cbn. done.
Qed.

Lemma waste_ok_static a a' live : same_static (shapes a) (shapes a') ->
  waste <$> small_mempool_cache a' = waste <$> small_mempool_cache a -> waste_ok a live -> waste_ok a' live.
Proof.
  intros Hst Hws Hw i sp' Hi'. pose proof (f_equal (lookup i) Hws) as Ew. rewrite !list_lookup_fmap, Hi' in Ew.
  destruct (small_mempool_cache a !! i) as [sp|] eqn:Hi; [|done]. cbn in Ew. injection Ew as ->.
  rewrite (zsum_ext (wasted (shapes a') i) (wasted (shapes a) i)); [by apply Hw|]. intros x _. unfold wasted.
  destruct x; [|done]. by rewrite !(size_at_static _ _ _ Hst).
Qed.

(** Updates of the groups. *)
Lemma frame_same_pools a l G : same_pools (small_mempool_cache a) l -> used_mono (small_mempool_cache a) l ->
  frame a (set_pools (set_groups a G) l).
Proof. intros (H1 & H2 & H3) Hu. split; done. Qed.

Lemma core_same_pools a O B live l G : small_core a O B live -> same_pools (small_mempool_cache a) l ->
  layout (sclass a) (objsize_max a) (pshape_of <$> l) G -> small_core (set_pools (set_groups a G) l) O B live.
Proof.
  intros Hv Hp HL. destruct Hp as (P1 & P2 & P3). constructor; [done|..].
  - eapply hold_perm'; [|apply (v_hold _ _ _ _ Hv)]. cbn [set_pools set_groups small_mempool_cache]. by rewrite !owned_pools, P1.
  - intros i sp Hi. cbn [set_pools set_groups small_mempool_cache] in Hi. pose proof (f_equal (lookup i) P1) as Ei.
    rewrite !list_lookup_fmap, Hi in Ei. destruct (small_mempool_cache a !! i) as [sp0|] eqn:E0; [|done]. cbn in Ei.
    injection Ei as ->. by apply (v_pool _ _ _ _ Hv i sp0).
  - intros x Hx. apply (obj_ok_shapes a); [done|done|done|by apply (v_obj _ _ _ _ Hv)].
Qed.

(** The fields of [frame] that [put_pool] keeps. *)
Lemma frame_put_pool a i sp c m : small_mempool_cache a !! i = Some sp ->
  shapes (put_pool (set_cache a c) i (set_pool sp m)) = shapes a -> frame a (put_pool (set_cache a c) i (set_pool sp m)).
Proof.
  intros Hi Es. split; try done.
  - unfold same_static. by rewrite Es.
  - unfold put_pool. cbn [set_pools set_cache small_mempool_cache]. rewrite list_fmap_insert. apply list_insert_id.
    by rewrite list_lookup_fmap, Hi.
  - intros j u Hu. exists u. split; [|lia]. unfold put_pool, used_at in *. cbn [set_pools set_cache small_mempool_cache] in *.
    destruct (decide (i = j)) as [->|Hne]; [|by rewrite list_lookup_insert_ne].
    rewrite list_lookup_insert_eq by (by eapply lookup_lt_Some). rewrite Hi in Hu. done.
Qed.

(** ** Taking an object of a pool *)

Definition few (a : small_alloc) : Prop :=
  forall i sp, small_mempool_cache a !! i = Some sp -> Z.of_nat (length (slabs (pool_slabs (pool sp)))) + 1 < 2 ^ 62.

Lemma few_put_pool a i sp c m : few a -> small_mempool_cache a !! i = Some sp ->
  (length (slabs (pool_slabs m)) <= length (slabs (pool_slabs (pool sp))))%nat ->
  few (put_pool (set_cache a c) i (set_pool sp m)).
Proof.
  intros Hf Hi Hle j sp' Hj. unfold put_pool in Hj. cbn [set_pools set_cache small_mempool_cache] in Hj.
  apply list_lookup_insert_Some in Hj as [(<- & <- & _)|[Hne Hj]]; [|by apply (Hf j)].
  specialize (Hf i sp Hi). cbn [set_pool pool]. lia.
Qed.

Lemma few_same_pools a l G : few a -> same_pools (small_mempool_cache a) l -> few (set_pools (set_groups a G) l).
Proof.
  intros Hf (P1 & _) i sp Hi. cbn [set_pools set_groups small_mempool_cache] in Hi. pose proof (f_equal (lookup i) P1) as Ei.
  rewrite !list_lookup_fmap, Hi in Ei. destruct (small_mempool_cache a !! i) as [sp0|] eqn:E0; [|done]. cbn in Ei.
  injection Ei as ->. by apply (Hf i sp0).
Qed.

Lemma alloc_from_spec a O B live j mp : small_core a O B live -> few a -> small_mempool_cache a !! j = Some mp ->
  exists ptr a', alloc_from a j = Some (ptr, a') /\ frame a a' /\
    ((ptr = NULL /\ small_core a' O B live /\ few a') \/
     0 < ptr /\ forall n c, obj_ok a (SmallObj ptr n c j) -> small_core a' O B (SmallObj ptr n c j :: live)).
Proof.
  intros Hv Hf Hj. pose proof (pool_at _ _ _ _ _ _ Hv Hj) as Hp. unfold alloc_from. rewrite Hj. cbn [mbind option_bind].
  destruct (mempool_alloc_inv lb mx lim Hlb Hmx Hk _ _ _ _ _ Hp (Hf j mp Hj)) as (x & c' & m' & E & Hsz & H). rewrite E.
  cbn [mbind option_bind]. destruct H as [(-> & -> & Hp' & _)|(Hx & _ & Hp')].
  - destruct (put_pool_core a O B live live j mp c' (pool mp) Hv Hj Hp' Hsz ltac:(done) (v_obj _ _ _ _ Hv)) as [Hv' Es].
    eexists _, _. split; [done|]. split; [by apply frame_put_pool|]. left. split_and!; [done|done|]. by apply few_put_pool.
  - assert (Es : shapes (put_pool (set_cache a c') j (set_pool mp m')) = shapes a).
    { unfold put_pool. cbn [set_pools set_cache small_mempool_cache]. rewrite list_fmap_insert. apply list_insert_id.
      rewrite list_lookup_fmap, Hj. cbn. unfold pshape_of. cbn [set_pool pool group used_pool appropriate_pool_mask].
      destruct (same_order lb mx Hlb Hmx Hk (pool mp) m' (pool_shape _ _ _ _ _ _ _ Hp) (pool_shape _ _ _ _ _ _ _ Hp') Hsz) as [-> _].
      by destruct Hsz as (-> & _). }
    eexists _, _. split; [done|]. split; [by apply frame_put_pool|]. right. split; [done|]. intros n c Hok.
    apply (put_pool_core a O B live _ j mp c' m' Hv Hj); [|done|..].
    + cbn [ptrs large mbind list_bind]. rewrite Nat.eqb_refl. exact Hp'.
    + intros i Hne. cbn [ptrs mbind list_bind]. by rewrite (proj2 (Nat.eqb_neq j i)).
    + intros y [->|Hy]%elem_of_cons; [done|]. by apply (v_obj _ _ _ _ Hv).
Qed.

(** ** The sweep *)

Lemma sweep_pool_spec a O B live i sp : small_core a O B live -> few a -> small_mempool_cache a !! i = Some sp ->
  exists a', sweep_pool a i = Some a' /\ frame a a' /\ small_core a' O B live /\ few a'.
Proof.
  intros Hv Hf Hi.
  destruct (group_of_in _ _ a i sp (v_layout _ _ _ _ Hv) Hi) as (gi & g & Esg & Eg & Hgi & Hin & Gok & _).
  destruct (go_range _ _ _ Gok) as [_ R]. destruct (bit_mask g i Hin R) as [Hb Em].
  assert (Hno : exists a1, Some a = Some a1 /\ frame a a1 /\ small_core a1 O B live /\ few a1)
    by (exists a; split_and!; [done|apply frame_refl|done|done]).
  unfold sweep_pool, small_mempool_can_be_deactivated. rewrite Hi. cbn [mbind option_bind]. rewrite Eg. cbn [mbind option_bind].
  change (small_mempool_get_group_index i g) with (bit_of g i). rewrite Em, land_bit by lia.
  destruct (Z.testbit (active_pool_mask g) (bit_of g i)) eqn:Eact; cbn [negb]; [|done].
  destruct (negb (mempool_count (pool sp) =? 0)); [done|]. destruct (waste sp >=? waste_max g / 4); [done|].
  destruct (Nat.eqb_spec i (g_last g)) as [|Hne]; [done|]. clear Hno.
  destruct (deactivate_spec _ _ a i gi g (v_layout _ _ _ _ Hv) Eg Hin Gok Eact Hne) as (l & G & -> & Hp & HL & Hu).
  cbn [mbind option_bind].
  pose proof (core_same_pools _ _ _ _ _ _ Hv Hp HL) as Hv1. pose proof (frame_same_pools a l G Hp Hu) as Hf1.
  pose proof (few_same_pools _ _ G Hf Hp) as Hfew1. set (a1 := set_pools (set_groups a G) l) in *.
  destruct (frame_pool _ _ _ _ Hf1 Hi) as (sp1 & E1 & _). rewrite E1. cbn [mbind option_bind].
  destruct (Z.eqb_spec (spare (pool sp1)) NULL) as [Hz|Hz]; cbn [negb]; [by exists a1|].
  destruct (free_spare_slab_inv lb mx lim Hlb Hmx Hk _ _ _ _ _ _ _ (pool_at _ _ _ _ _ _ Hv1 E1) Hz ltac:(by intros ?%elem_of_nil))
    as (c2 & m2 & E2 & Hp2 & Hsz & _ & _ & _ & Hlen).
  rewrite E2. cbn [mbind option_bind].
  destruct (put_pool_core a1 O B live live i sp1 c2 m2 Hv1 E1 Hp2 Hsz ltac:(done) (v_obj _ _ _ _ Hv1)) as [Hv2 Es].
  eexists. split; [done|]. split_and!; [|done|by apply few_put_pool]. apply (frame_trans a a1); [done|]. by apply frame_put_pool.
Qed.

Lemma frame_length a a' : frame a a' -> length (small_mempool_cache a') = length (small_mempool_cache a).
Proof. intros Hf. pose proof (static_length _ _ (f_static _ _ Hf)) as Hlen. by rewrite !length_fmap in Hlen. Qed.

Lemma sweep_loop_spec O B live todo : forall a, small_core a O B live -> few a ->
  (forall i, i ∈ todo -> (i < length (small_mempool_cache a))%nat) ->
  exists a', sweep_loop a todo = Some a' /\ frame a a' /\ small_core a' O B live /\ few a'.
Proof.
  induction todo as [|i todo IH]; intros a Hv Hf Hlt.
  { exists a. split_and!; [done|apply frame_refl|done|done]. }
  destruct (lookup_lt_is_Some_2 _ _ (Hlt i ltac:(left))) as [sp Hi].
  destruct (sweep_pool_spec a O B live i sp Hv Hf Hi) as (a1 & E1 & Hf1 & Hv1 & Hfew1). cbn [sweep_loop]. rewrite E1. cbn [mbind option_bind].
  destruct (IH a1 Hv1 Hfew1) as (a2 & -> & Hf2 & Hv2 & Hfew2).
  { intros j Hj. rewrite (frame_length a a1 Hf1). apply Hlt. by right. }
  exists a2. split_and!; [done|by apply (frame_trans a a1)|done|done].
Qed.

Lemma sweep_spec a O B live : small_core a O B live -> few a ->
  exists a', small_mempool_group_sweep_sparse a = Some a' /\ frame a a' /\ small_core a' O B live /\ few a'.
Proof. intros Hv Hf. apply sweep_loop_spec; [done|done|]. intros i Hi%elem_of_seq. lia. Qed.

(** ** The class of a size *)

Lemma mempool_search_spec a O B live n : small_core a O B live -> 0 <= n <= objsize_max a ->
  exists c sp, small_mempool_search a n = Some c /\ small_mempool_cache a !! c = Some sp /\ n <= objsize (pool sp).
Proof.
  intros Hv Hn. pose proof (v_layout _ _ _ _ Hv) as HL. destruct (lo_max _ _ _ _ HL) as (Hmax & Hlen & Hcls).
  pose proof (lo_wf _ _ _ _ HL) as Hwf. rewrite length_fmap in Hlen, Hcls.
  unfold small_mempool_search. destruct (Z.gtb_spec n (objsize_max a)); [lia|]. rewrite u32_small by lia.
  assert (Hin : in_u 32 n) by (unfold in_u; lia).
  destruct (calc_offset_interval (sclass a) Hwf n Hin) as (Hc & Hlo & Hhi). set (c := small_class_calc_offset_by_size (sclass a) n) in *.
  assert (Hcl : c < Z.of_nat (length (small_mempool_cache a))).
  { destruct (Z.lt_ge_cases c (Z.of_nat (length (small_mempool_cache a)))) as [|Hge]; [done|].
    assert (Hb : granules (sclass a) n < scale (effective_bits (sclass a)) (Z.of_nat (length (small_mempool_cache a)) - 1 + 1)).
    { apply (granules_le (sclass a) Hwf n _ Hin); lia. }
    pose proof (scale_mono _ (wf_bits _ Hwf) (Z.of_nat (length (small_mempool_cache a))) c ltac:(lia)) as Hm.
    replace (Z.of_nat (length (small_mempool_cache a)) - 1 + 1) with (Z.of_nat (length (small_mempool_cache a))) in Hb by lia. lia. }
  destruct (lookup_lt_is_Some_2 (small_mempool_cache a) (Z.to_nat c)) as [sp Hsp]; [lia|].
  exists (Z.to_nat c), sp. split_and!; [done|done|]. pose proof (lo_class _ _ _ _ HL _ _ (shapes_of _ _ _ Hsp)) as Es.
  cbn [pshape_of ps_objsize] in Es. rewrite Es, Z2Nat.id by lia. apply (granules_le (sclass a) Hwf n c Hin ltac:(lia)) in Hhi. lia.
Qed.

(** No smaller pool holds the size. *)
Lemma search_best a O B live n c i t : small_core a O B live -> 0 <= n -> small_mempool_search a n = Some c -> (i < c)%nat ->
  small_mempool_cache a !! i = Some t -> objsize (pool t) < n.
Proof.
  intros Hv Hn Es Hi Ht. pose proof (v_layout _ _ _ _ Hv) as HL. destruct (lo_max _ _ _ _ HL) as (Hmax & _).
  pose proof (lo_wf _ _ _ _ HL) as Hwf. unfold small_mempool_search in Es. destruct (Z.gtb_spec n (objsize_max a)); [done|].
  rewrite u32_small in Es by lia. injection Es as Es. assert (Hin : in_u 32 n) by (unfold in_u; lia).
  destruct (calc_offset_interval (sclass a) Hwf n Hin) as (Hc & Hlo & _). set (k := small_class_calc_offset_by_size (sclass a) n) in *.
  pose proof (lo_class _ _ _ _ HL _ _ (shapes_of _ _ _ Ht)) as Et. cbn [pshape_of ps_objsize] in Et.
  pose proof (scale_mono _ (wf_bits _ Hwf) (Z.of_nat i + 1) k ltac:(lia)) as Hm.
  enough (~ n <= class_size (sclass a) (Z.of_nat i)) by lia. rewrite <- (granules_le (sclass a) Hwf n) by (done || lia). lia.
Qed.

Lemma pool_size a O B live i sp : small_core a O B live -> small_mempool_cache a !! i = Some sp ->
  8 <= objsize (pool sp) < 2 ^ 31.
Proof.
  intros Hv Hi. destruct (shape_bounds lb mx Hlb Hmx Hk _ (pool_shape _ _ _ _ _ _ _ (pool_at _ _ _ _ _ _ Hv Hi))) as (? & ? & ? & ? & ?).
  split; [done|]. nia.
Qed.

Lemma size_le a O B live i j sp mp : small_core a O B live -> small_mempool_cache a !! i = Some sp ->
  small_mempool_cache a !! j = Some mp -> (i <= j)%nat -> objsize (pool sp) <= objsize (pool mp).
Proof.
  intros Hv Hi Hj Hle. destruct (decide (i = j)) as [->|Hne]; [assert (sp = mp) as -> by congruence; lia|].
  pose proof (lo_sizes _ _ _ _ (v_layout _ _ _ _ Hv) i j _ _ (shapes_of _ _ _ Hi) (shapes_of _ _ _ Hj) ltac:(lia)). cbn in *. lia.
Qed.

Lemma size_at_lookup (a : small_alloc) i sp : small_mempool_cache a !! i = Some sp -> size_at (shapes a) i = objsize (pool sp).
Proof. intros Hi. unfold size_at. by rewrite (shapes_of _ _ _ Hi). Qed.

(** ** Accounting *)

Lemma core_put_same a O B live i sp sp' : small_core a O B live -> small_mempool_cache a !! i = Some sp ->
  pool sp' = pool sp -> pshape_of sp' = pshape_of sp ->
  small_core (put_pool a i sp') O B live /\ shapes (put_pool a i sp') = shapes a.
Proof.
  intros Hv Hi Ep Es. assert (Esh : shapes (put_pool a i sp') = shapes a).
  { unfold put_pool. cbn [set_pools small_mempool_cache]. rewrite list_fmap_insert, Es. apply list_insert_id. by apply shapes_of. }
  assert (Epl : pool <$> small_mempool_cache (put_pool a i sp') = pool <$> small_mempool_cache a).
  { unfold put_pool. cbn [set_pools small_mempool_cache]. rewrite list_fmap_insert, Ep. apply list_insert_id. by rewrite list_lookup_fmap, Hi. }
  split; [|done]. constructor.
  - rewrite Esh. apply (v_layout _ _ _ _ Hv).
  - eapply hold_perm'; [|apply (v_hold _ _ _ _ Hv)]. by rewrite !owned_pools, Epl.
  - intros j t Hj. pose proof (f_equal (lookup j) Epl) as Ej. rewrite !list_lookup_fmap, Hj in Ej.
    destruct (small_mempool_cache a !! j) as [t0|] eqn:E0; [|done]. cbn in Ej. injection Ej as ->. by apply (v_pool _ _ _ _ Hv j t0).
  - intros x Hx. apply (obj_ok_shapes a); [done|done|by unfold same_static; rewrite Esh|by apply (v_obj _ _ _ _ Hv)].
Qed.

Lemma account_waste_spec a O B live p n c j sp u :
  small_core a O B (SmallObj p n c j :: live) -> waste_ok a live -> small_mempool_cache a !! c = Some sp ->
  used_pool sp = Some u -> (j <= u)%nat -> waste sp + 2 ^ 32 < 2 ^ 64 ->
  exists a', account_waste a c = Some a' /\ small_inv a' O B (SmallObj p n c j :: live).
Proof.
  intros Hv Hw Hc Hu Hju Hlt. destruct (v_obj _ _ _ _ Hv _ ltac:(left)) as (_ & _ & sp0 & mp & E0 & Hj & _ & Hcj). rewrite Hc in E0. injection E0 as <-.
  destruct (group_of_in _ _ a c sp (v_layout _ _ _ _ Hv) Hc) as (gi & g & Esg & Eg & Hgi & Hin & Gok & Gu).
  destruct (Gu c _ (shapes_of _ _ _ Hc) Hin) as (u0 & Eu0 & Hle & Hact & Hnact). cbn [pshape_of ps_used] in Eu0. rewrite Hu in Eu0. injection Eu0 as <-.
  unfold account_waste. rewrite Hc. cbn [mbind option_bind]. rewrite Hu. cbn [mbind option_bind].
  assert (Hz : forall i, i <> c -> wasted (shapes a) i (SmallObj p n c j) = 0) by (intros i Hne; cbn; by rewrite (proj2 (Nat.eqb_neq c i))).
  assert (Hzc : wasted (shapes a) c (SmallObj p n c j) = objsize (pool mp) - objsize (pool sp)).
  { cbn. rewrite Nat.eqb_refl. by rewrite (size_at_lookup _ _ _ Hj), (size_at_lookup _ _ _ Hc). }
  destruct (Nat.eqb_spec u c) as [->|Hne]; cbn [negb].
  - exists a. split; [done|]. split; [done|]. intros i t Hi. cbn [zsum foldr]. fold (zsum (wasted (shapes a) i) live).
    pose proof (Hw i t Hi). destruct (decide (i = c)) as [->|Hne]; [|rewrite Hz; [lia|done]].
    rewrite Hzc. assert (j = c) as -> by lia. rewrite Hc in Hj. injection Hj as <-. lia.
  - destruct (go_range _ _ _ Gok) as [[_ R] _]. rewrite length_fmap in R.
    destruct (lookup_lt_is_Some_2 (small_mempool_cache a) u) as [up Hup]; [lia|]. rewrite Hup. cbn [mbind option_bind].
    pose proof (size_le _ _ _ _ _ _ _ _ Hv Hc Hup ltac:(lia)). pose proof (size_le _ _ _ _ _ _ _ _ Hv Hj Hup Hju).
    pose proof (pool_size _ _ _ _ _ _ Hv Hup). pose proof (pool_size _ _ _ _ _ _ Hv Hc). pose proof (Hw c sp Hc) as Hwc.
    assert (0 <= zsum (wasted (shapes a) c) live).
    { apply zsum_nonneg. intros x Hx. pose proof (v_obj _ _ _ _ Hv x ltac:(by right)) as Hx'. destruct x as [p' n' c' j'|]; [|done].
      cbn. destruct (Nat.eqb_spec c' c) as [->|]; [|done]. destruct Hx' as (_ & _ & sp' & mp' & F1 & F2 & _ & F3).
      rewrite (size_at_lookup _ _ _ F2), (size_at_lookup _ _ _ F1). pose proof (size_le _ _ _ _ _ _ _ _ Hv F1 F2 F3). lia. }
    rewrite u32_small, u64_small by lia. set (w := waste sp + (objsize (pool up) - objsize (pool sp))).
    destruct (core_put_same a O B _ c sp (set_waste sp w) Hv Hc eq_refl eq_refl) as [Hv1 Es1]. set (a1 := put_pool a c (set_waste sp w)) in *.
    assert (Hw1 : waste_ok a1 (SmallObj p n c j :: live)).
    { intros i t Hi. rewrite Es1. cbn [zsum foldr]. fold (zsum (wasted (shapes a) i) live). unfold a1, put_pool in Hi. cbn [set_pools small_mempool_cache] in Hi.
      apply list_lookup_insert_Some in Hi as [(<- & <- & _)|[Hne' Hi]]; [|rewrite Hz by done; pose proof (Hw i t Hi); lia].
      cbn [set_waste waste]. rewrite Hzc. subst w. lia. }
    assert (Eg1 : group_of a1 c = Some (gi, g)).
    { apply group_of_some. split; [done|]. exists (set_waste sp w). split; [|done]. apply list_lookup_insert_eq. by eapply lookup_lt_Some. }
    rewrite Eg1. cbn [mbind option_bind]. destruct (w >=? waste_max g); [|by exists a1].
    destruct (activate_spec _ _ a1 c gi g (v_layout _ _ _ _ Hv1) Eg1 Hin ltac:(by rewrite Es1)) as (l & G & -> & Hp & HL).
    { apply Hnact. lia. }
    eexists. split; [done|]. split; [by apply core_same_pools|]. destruct Hp as (_ & P2 & P3). by apply (waste_ok_static a1).
Qed.

(** ** Allocation *)

Lemma get_large_hold c O B n : hold c O B -> 0 <= n -> n + slab_sizeof <= lim ->
  exists p c', slab_get_large c n = Some (p, c') /\
    ((p = NULL /\ hold c' O B) \/ (0 < p /\ hold c' O ((p, n + slab_sizeof) :: B))).
Proof.
  rewrite slab_sizeof_eq. intros (A & out & Hc & HP) Hn Hl.
  destruct (get_large_inv lb mx lim Hlb Hmx _ _ _ _ _ Hc Hn Hl) as (p & c' & E & H).
  exists p, c'. split; [done|]. destruct H as [[-> H]|(Hp & H & _)]; [left|right]; (split; [done|]); by exists A, out.
Qed.

Lemma core_large a O B live live' c : small_core a O B live ->
  hold c (owned_by (small_mempool_cache a) ++ O) (large live' ++ B) -> (forall i, ptrs i live' = ptrs i live) ->
  (forall x, x ∈ live' -> obj_ok a x) -> small_core (set_cache a c) O B live'.
Proof.
  intros Hv Hc Hp Ho. constructor; [apply (v_layout _ _ _ _ Hv)|done| |done].
  intros i sp Hi. rewrite Hp. apply (v_pool _ _ _ _ Hv i sp Hi).
Qed.

(** The sizes that can be asked for. *)
Definition small_fits (a : small_alloc) (n : Z) : Prop := 0 <= n /\ (n <= objsize_max a \/ n + slab_sizeof <= lim).
Definition waste_room (a : small_alloc) : Prop :=
  forall i sp, small_mempool_cache a !! i = Some sp -> waste sp + 2 ^ 32 < 2 ^ 64.

(** Another try after the sweep. *)
Lemma alloc_or_sweep_spec a O B live j mp : small_core a O B live -> few a -> small_mempool_cache a !! j = Some mp ->
  exists ptr a', alloc_or_sweep a j = Some (ptr, a') /\ frame a a' /\
    ((ptr = NULL /\ small_core a' O B live) \/
     0 < ptr /\ forall n c, obj_ok a (SmallObj ptr n c j) -> small_core a' O B (SmallObj ptr n c j :: live)).
Proof.
  intros Hv Hf Hj. unfold alloc_or_sweep. destruct (alloc_from_spec a O B live j mp Hv Hf Hj) as (ptr & a1 & -> & Hf1 & H). cbn [mbind option_bind].
  destruct H as [(-> & Hv1 & Hfew1)|[Hp Hv1]].
  - cbn [Z.eqb]. destruct (sweep_spec a1 O B live Hv1 Hfew1) as (a2 & -> & Hf2 & Hv2 & Hfew2). cbn [mbind option_bind].
    destruct (frame_pool _ _ _ _ Hf1 Hj) as (mp1 & Hj1 & _). destruct (frame_pool _ _ _ _ Hf2 Hj1) as (mp2 & Hj2 & _).
    destruct (alloc_from_spec a2 O B live j mp2 Hv2 Hfew2 Hj2) as (ptr & a3 & E & Hf3 & H). exists ptr, a3. split; [done|].
    assert (Hf12 : frame a a2) by (by apply (frame_trans a a1)). split; [by apply (frame_trans a a2)|].
    destruct H as [(? & ? & _)|[Hp H]]; [by left|right]. split; [done|]. intros n c Ho. apply H. by apply (obj_ok_frame a).
  - rewrite (proj2 (Z.eqb_neq ptr NULL)) by lia. exists ptr, a1. split; [done|]. split; [done|]. by right.
Qed.

Lemma smalloc_spec a O B live n : small_inv a O B live -> few a -> waste_room a -> small_fits a n ->
  exists ptr a', smalloc a n = Some (ptr, a') /\
    ((ptr = NULL /\ small_inv a' O B live) \/
     exists x, 0 < ptr /\ obj_ptr x = ptr /\ obj_size x = n /\ small_inv a' O B (x :: live)).
Proof.
  intros [Hv Hw] Hf Hr [Hn Hfit]. unfold smalloc. destruct (Z.le_gt_cases n (objsize_max a)) as [Hle|Hgt].
  - destruct (mempool_search_spec a O B live n Hv ltac:(lia)) as (c & sp & Es & Hc & Hsz). rewrite Es, Hc. cbn [mbind option_bind].
    destruct (group_of_in _ _ a c sp (v_layout _ _ _ _ Hv) Hc) as (gi & g & Esg & Eg & Hgi & Hin & Gok & Gu).
    destruct (Gu c _ (shapes_of _ _ _ Hc) Hin) as (j & Ej & Hlends). cbn [pshape_of ps_used] in Ej. rewrite Ej. cbn [mbind option_bind].
    destruct (go_range _ _ _ Gok) as [[_ R] _]. rewrite length_fmap in R. destruct Hlends as (Hcj & _).
    destruct (lookup_lt_is_Some_2 (small_mempool_cache a) j) as [mp Hj]; [lia|]. rewrite Hj. cbn [mbind option_bind].
    pose proof (size_le _ _ _ _ _ _ _ _ Hv Hc Hj ltac:(lia)). rewrite (proj2 (Z.leb_le n _)) by lia.
    destruct (alloc_or_sweep_spec a O B live j mp Hv Hf Hj) as (ptr & a1 & E1 & Hf1 & H1). rewrite E1. cbn [mbind option_bind].
    destruct H1 as [[-> Hv1]|[Hp Hv1]].
    { cbn [Z.eqb]. eexists _, _. split; [done|]. left. split; [done|]. split; [done|]. destruct Hf1. by apply (waste_ok_static a). }
    rewrite (proj2 (Z.eqb_neq ptr NULL)) by lia.
    assert (Hok : obj_ok a (SmallObj ptr n c j)).
    { split; [done|]. split; [done|]. exists sp, mp. split_and!; [done|done| |lia]. rewrite Esg. symmetry.
      apply (go_pool _ _ _ Gok j _ (shapes_of _ _ _ Hj)). unfold in_group in *. lia. }
    specialize (Hv1 n c Hok). destruct (frame_pool _ _ _ _ Hf1 Hc) as (sp1 & Hc1 & _ & Ew & _).
    destruct (f_used _ _ Hf1 c j) as (u & Hu & Hju); [unfold used_at; by rewrite Hc|]. unfold used_at in Hu. rewrite Hc1 in Hu. cbn [mbind option_bind] in Hu.
    destruct (account_waste_spec a1 O B live ptr n c j sp1 u Hv1) as (a2 & -> & Hi2); [|done|done|done| |].
    { destruct Hf1. by apply (waste_ok_static a). }
    { rewrite Ew. by apply (Hr c). }
    cbn [mbind option_bind]. eexists _, _. split; [done|]. right. by exists (SmallObj ptr n c j).
  - assert (Es : small_mempool_search a n = None) by (unfold small_mempool_search; destruct (Z.gtb_spec n (objsize_max a)); [done|lia]).
    rewrite Es. destruct (get_large_hold _ _ _ n (v_hold _ _ _ _ Hv)) as (p & c' & -> & H); [lia|lia|]. cbn [mbind option_bind].
    destruct H as [[-> Hc']|[Hp Hc']].
    + cbn [Z.eqb]. eexists _, _. split; [done|]. left. split; [done|]. split; [|done]. apply (core_large a O B live); try done. apply (v_obj _ _ _ _ Hv).
    + rewrite (proj2 (Z.eqb_neq p NULL)) by lia. eexists _, _. split; [done|]. right. exists (LargeObj (slab_data p) n).
      pose proof slab_sizeof_eq. unfold slab_data. split_and!; [lia|done|done|]. split.
      * apply (core_large a O B live); [done| |done|].
        -- cbn [large mbind list_bind app]. unfold slab_from_data. by replace (p + slab_sizeof - slab_sizeof) with p by lia.
        -- intros x [->|Hx]%elem_of_cons; [done|by apply (v_obj _ _ _ _ Hv)].
      * intros i sp Hi. cbn [zsum foldr wasted]. by apply (Hw i sp).
Qed.

(** ** Freeing *)

Lemma ptrs_app i l1 l2 : ptrs i (l1 ++ l2) = ptrs i l1 ++ ptrs i l2.
Proof. apply bind_app. Qed.
Lemma large_app l1 l2 : large (l1 ++ l2) = large l1 ++ large l2.
Proof. apply bind_app. Qed.

Lemma put_large_hold c O B1 p n B2 : hold c O (B1 ++ (p, n) :: B2) ->
  exists c', slab_put_large c p = Some c' /\ hold c' O (B1 ++ B2).
Proof.
  intros (A & out & Hc & HP). destruct (put_large_inv lb mx lim Hlb Hmx _ _ _ _ _ _ _ Hc) as (c' & E & H).
  exists c'. split; [done|]. by exists A, out.
Qed.

(** A slab is in one pool. *)
Lemma one_pool a O B live i j sp mp p s t : small_core a O B live -> small_mempool_cache a !! i = Some sp ->
  small_mempool_cache a !! j = Some mp -> headers (pool sp) !! p = Some s -> headers (pool mp) !! p = Some t -> i = j.
Proof.
  intros Hv Hi Hj Hp Hq. destruct (decide (i = j)) as [|Hne]; [done|exfalso].
  pose proof (pool_at _ _ _ _ _ _ Hv Hi) as Hpi. pose proof (pool_at _ _ _ _ _ _ Hv Hj) as Hpj.
  assert (H1 : (p, slab_order (pool sp)) ∈ owned (pool sp)) by (apply owned_elem, (k_headers _ _ _ _ _ _ _ _ _ _ Hpi); by exists s).
  assert (H2 : (p, slab_order (pool mp)) ∈ owned (pool mp)) by (apply owned_elem, (k_headers _ _ _ _ _ _ _ _ _ _ Hpj); by exists t).
  pose proof (k_cache _ _ _ _ _ _ _ _ _ _ Hpi) as Hc.
  assert (H2' : (p, slab_order (pool mp)) ∈ owned_by (delete i (small_mempool_cache a))).
  { apply list_elem_of_bind. exists mp. split; [done|]. rewrite delete_take_drop. apply elem_of_app.
    destruct (decide (j < i)%nat).
    - left. apply list_elem_of_lookup. exists j. by rewrite lookup_take_lt by done.
    - right. apply list_elem_of_lookup. exists (j - S i)%nat. rewrite lookup_drop. by replace (S i + (j - S i))%nat with j by lia. }
  destruct (hold_apart lb mx lim _ _ _ Hc) as [Hnd _].
  destruct (hold_header lb mx lim Hlb Hmx _ _ _ p (slab_order (pool sp)) Hc ltac:(apply elem_of_app; by left)) as [M1 _].
  destruct (hold_header lb mx lim Hlb Hmx _ _ _ p (slab_order (pool mp)) Hc ltac:(apply elem_of_app; right; apply elem_of_app; by left)) as [M2 _].
  rewrite M1 in M2. injection M2 as _ Eo _. rewrite <- Eo in H2'.
  apply NoDup_app in Hnd as (_ & Hnd & _). apply (Hnd _ H1), elem_of_app. by left.
Qed.

Lemma find_pool_spec p l j mp s : l !! j = Some mp -> headers (pool mp) !! p = Some s ->
  (forall i sp, (i < j)%nat -> l !! i = Some sp -> headers (pool sp) !! p = None) -> find_pool p l = Some j.
Proof.
  revert j. induction l as [|sp l IH]; intros j Hj Hp Hno; [done|]. cbn [find_pool]. destruct j as [|j].
  - injection Hj as ->. by rewrite Hp.
  - rewrite (Hno O sp ltac:(lia) eq_refl). rewrite (IH j Hj Hp); [done|]. intros i t Hi Ht. by apply (Hno (S i) t); [lia|].
Qed.

(** The pools of a group have slabs of one order, so one mask. *)
Lemma group_mask a O B live c j sp mp : small_core a O B live -> small_mempool_cache a !! c = Some sp ->
  small_mempool_cache a !! j = Some mp -> group sp = group mp -> slab_ptr_mask (pool sp) = slab_ptr_mask (pool mp).
Proof.
  intros Hv Hc Hj Eg. destruct (group_of_in _ _ a c sp (v_layout _ _ _ _ Hv) Hc) as (gi & g & Esg & _ & _ & Hing & Gok & _).
  destruct (pool_shape _ _ _ _ _ _ _ (pool_at _ _ _ _ _ _ Hv Hj)) as (_ & _ & _ & _ & _ & ->).
  destruct (pool_shape _ _ _ _ _ _ _ (pool_at _ _ _ _ _ _ Hv Hc)) as (_ & _ & _ & _ & _ & ->).
  destruct (go_order _ _ _ Gok c _ (shapes_of _ _ _ Hc) Hing) as (lp & Elp & E1).
  assert (Hing' : in_group g j) by (apply (go_pool _ _ _ Gok j _ (shapes_of _ _ _ Hj)); cbn; congruence).
  destruct (go_order _ _ _ Gok j _ (shapes_of _ _ _ Hj) Hing') as (lp' & Elp' & E2). cbn [pshape_of ps_order] in E1, E2. congruence.
Qed.

(** The slab of an object, found with the mask of its class. *)
Lemma find_slab a O B live ptr n c j sp : small_core a O B live -> SmallObj ptr n c j ∈ live -> small_mempool_cache a !! c = Some sp ->
  exists slab mp, small_mempool_cache a !! j = Some mp /\ slab_from_ptr (cache a) ptr (slab_ptr_mask (pool sp)) = Some slab /\
    slab_from_ptr (cache a) ptr (slab_ptr_mask (pool mp)) = Some slab /\ find_pool slab (small_mempool_cache a) = Some j /\
    objsize (pool sp) <= objsize (pool mp).
Proof.
  intros Hv Hx Hc. destruct (v_obj _ _ _ _ Hv _ Hx) as (_ & _ & sp0 & mp & E0 & Hj & Eg & Hcj). rewrite Hc in E0. injection E0 as <-.
  pose proof (pool_at _ _ _ _ _ _ Hv Hj) as Hp.
  assert (Hin : ptr ∈ ptrs j live).
  { apply list_elem_of_bind. exists (SmallObj ptr n c j). split; [|done]. rewrite Nat.eqb_refl. left. }
  destruct (proj2 (k_objs _ _ _ _ _ _ _ _ _ _ Hp) ptr Hin) as (p & i & Hps & Hi & ->).
  apply (k_headers _ _ _ _ _ _ _ _ _ _ Hp) in Hps as [s Hs].
  pose proof (slab_of_slot lb mx lim Hlb Hmx Hk _ _ _ _ _ _ _ _ _ _ Hp Hs Hi) as Esl.
  pose proof (group_mask _ _ _ _ _ _ _ _ Hv Hc Hj Eg) as Emask.
  exists p, mp. rewrite Emask. split_and!; [done|done|done| |by apply (size_le _ _ _ _ _ _ _ _ Hv Hc Hj)].
  apply (find_pool_spec p _ j mp s Hj Hs). intros i' t Hi' Ht. destruct (headers (pool t) !! p) as [s'|] eqn:Es'; [|done].
  pose proof (one_pool _ _ _ _ _ _ _ _ _ _ _ Hv Ht Hj Es' Hs). lia.
Qed.

Lemma wasted_nonneg a O B live i x : small_core a O B live -> x ∈ live -> 0 <= wasted (shapes a) i x.
Proof.
  intros Hv Hx. pose proof (v_obj _ _ _ _ Hv x Hx) as Hx'. destruct x as [p n c j|]; [|done].
  cbn. destruct (Nat.eqb_spec c i) as [->|]; [|done]. destruct Hx' as (_ & _ & sp' & mp' & F1 & F2 & _ & F3).
  rewrite (size_at_lookup _ _ _ F2), (size_at_lookup _ _ _ F1). pose proof (size_le _ _ _ _ _ _ _ _ Hv F1 F2 F3). lia.
Qed.

Lemma mempool_free_slab_inv c m objs objs' O B x slab : pool_inv c m objs O B [] 0 -> objs ≡ₚ x :: objs' ->
  Z.of_nat (length (slabs (pool_slabs m))) < 2 ^ 62 -> slab_from_ptr c x (slab_ptr_mask m) = Some slab ->
  exists c' m', mempool_free_slab c m slab x = Some (c', m') /\ pool_inv c' m' objs' O B [] 0 /\ same_sizes m m'.
Proof.
  intros Hm HP Hlen Es. destruct (mempool_free_inv lb mx lim Hlb Hmx Hk c m objs objs' O B x Hm HP Hlen) as (c' & m' & E & Hm' & Hsz & _).
  exists c', m'. split; [|done]. unfold mempool_free in E. destruct (negb (x =? NULL)); [|done]. by rewrite Es in E.
Qed.

Lemma smfree_spec a O B l1 x l2 : small_inv a O B (l1 ++ x :: l2) -> few a ->
  exists a', smfree a (obj_ptr x) (obj_size x) = Some a' /\ small_inv a' O B (l1 ++ l2).
Proof.
  intros [Hv Hw] Hf. assert (Hx : x ∈ l1 ++ x :: l2) by (apply elem_of_app; right; left).
  assert (Hsub : forall y, y ∈ l1 ++ l2 -> obj_ok a y).
  { intros y Hy. apply (v_obj _ _ _ _ Hv). apply elem_of_app in Hy as [?|?]; apply elem_of_app; [by left|right; by right]. }
  assert (Hsum : forall i, zsum (wasted (shapes a) i) (l1 ++ x :: l2) = zsum (wasted (shapes a) i) (l1 ++ l2) + wasted (shapes a) i x).
  { intros i. rewrite !zsum_app. change (zsum (wasted (shapes a) i) (x :: l2)) with (wasted (shapes a) i x + zsum (wasted (shapes a) i) l2). lia. }
  assert (Hnn : forall i, 0 <= zsum (wasted (shapes a) i) (l1 ++ l2)).
  { intros i. apply zsum_nonneg. intros y Hy. apply (wasted_nonneg a O B (l1 ++ x :: l2) i y Hv).
    apply elem_of_app in Hy as [?|?]; apply elem_of_app; [by left|right; by right]. }
  unfold smfree. destruct x as [ptr n c j|ptr n]; cbn [obj_ptr obj_size].
  - destruct (v_obj _ _ _ _ Hv _ Hx) as (_ & Es & sp & mp & Hc & Hj & Eg & Hcj). rewrite Es, Hc. cbn [mbind option_bind].
    destruct (find_slab a O B _ ptr n c j sp Hv Hx Hc) as (slab & mp' & Hj' & E1 & E2 & E3 & Hle). rewrite Hj in Hj'. injection Hj' as <-.
    rewrite E1. cbn [mbind option_bind]. rewrite E3. cbn [mbind option_bind]. rewrite Hj. cbn [mbind option_bind].
    pose proof (pool_size _ _ _ _ _ _ Hv Hj). pose proof (pool_size _ _ _ _ _ _ Hv Hc). rewrite u32_small by lia.
    assert (Hwx : wasted (shapes a) c (SmallObj ptr n c j) = objsize (pool mp) - objsize (pool sp)).
    { cbn. rewrite Nat.eqb_refl. by rewrite (size_at_lookup _ _ _ Hj), (size_at_lookup _ _ _ Hc). }
    pose proof (Hw c sp Hc) as Hwc. rewrite Hsum, Hwx in Hwc. pose proof (Hnn c).
    rewrite (proj2 (Z.geb_le (waste sp) _)) by lia. rewrite u64_small by lia. set (d := objsize (pool mp) - objsize (pool sp)) in *. assert (0 <= d) by lia.
    destruct (core_put_same a O B _ c sp (set_waste sp (waste sp - d)) Hv Hc eq_refl eq_refl) as [Hv1 Es1].
    set (a1 := put_pool a c (set_waste sp (waste sp - d))) in *.
    assert (Hj1 : exists mp1, small_mempool_cache a1 !! j = Some mp1 /\ pool mp1 = pool mp).
    { destruct (decide (c = j)) as [->|Hne].
      - exists (set_waste sp (waste sp - d)). split; [apply list_lookup_insert_eq; by eapply lookup_lt_Some|]. cbn. congruence.
      - exists mp. split; [|done]. unfold a1, put_pool. cbn [set_pools small_mempool_cache]. by rewrite list_lookup_insert_ne. }
    destruct Hj1 as (mp1 & Hj1 & Epm). rewrite Hj1. cbn [mbind option_bind]. change (cache a1) with (cache a).
    pose proof (pool_at _ _ _ _ _ _ Hv1 Hj1) as Hp1.
    destruct (mempool_free_slab_inv _ _ _ (ptrs j (l1 ++ l2)) _ _ ptr slab Hp1) as (c' & m' & E & Hp2 & Hsz).
    { rewrite !ptrs_app. change (ptrs j (SmallObj ptr n c j :: l2)) with ((if (j =? j)%nat then [ptr] else []) ++ ptrs j l2).
      rewrite Nat.eqb_refl. symmetry. apply Permutation_middle. }
    { rewrite Epm. pose proof (Hf j mp Hj). lia. }
    { by rewrite Epm. }
    change (cache a1) with (cache a) in E. rewrite E. cbn [mbind option_bind]. eexists. split; [done|].
    assert (Elg : large (l1 ++ SmallObj ptr n c j :: l2) = large (l1 ++ l2)) by (rewrite !large_app; done).
    destruct (put_pool_core a1 O B _ (l1 ++ l2) j mp1 c' m' Hv1 Hj1) as [Hv2 Es2]; [by rewrite <- Elg|done| | |].
    { intros i Hne. rewrite !ptrs_app. f_equal. cbn [ptrs mbind list_bind]. by rewrite (proj2 (Nat.eqb_neq j i)). }
    { intros y Hy. apply (obj_ok_shapes a); [done|done|by unfold same_static; rewrite Es1|by apply Hsub]. }
    split; [done|]. destruct (frame_put_pool a1 j mp1 c' m' Hj1 Es2) as [_ _ F1 F2 _]. apply (waste_ok_static a1); [done|done|].
    intros i t Hi. rewrite Es1. unfold a1, put_pool in Hi. cbn [set_pools small_mempool_cache] in Hi.
    apply list_lookup_insert_Some in Hi as [(<- & <- & _)|[Hne' Hi]]; [cbn [set_waste waste]; lia|].
    pose proof (Hw i t Hi) as Hwi. rewrite Hsum in Hwi. pose proof (wasted_nonneg a O B _ i _ Hv Hx). lia.
  - destruct (v_obj _ _ _ _ Hv _ Hx) as [_ Es]. rewrite Es.
    pose proof (v_hold _ _ _ _ Hv) as Hh. rewrite large_app, <- app_assoc in Hh. cbn [large mbind list_bind app] in Hh.
    destruct (put_large_hold _ _ _ _ _ _ Hh) as (c' & -> & Hh'). cbn [mbind option_bind]. eexists. split; [done|]. split.
    + apply (core_large a O B (l1 ++ LargeObj ptr n :: l2)); [done| |by intros i; rewrite !ptrs_app|done]. rewrite large_app, <- app_assoc. exact Hh'.
    + intros i t Hi. pose proof (Hw i t Hi) as Hwi. rewrite Hsum in Hwi. cbn [wasted] in Hwi. cbn [set_cache small_mempool_cache]. lia.
Qed.

(** ** Objects are apart *)

(** The bytes an object has. *)
Definition extent (a : small_alloc) (x : obj) : Z :=
  match x with SmallObj _ _ _ j => size_at (shapes a) j | LargeObj _ n => n end.

(** The slabs of a cache with their sizes. *)
Lemma hold_holds c O B : hold c O B -> SlabCache.holds (inv:=inv) lb mx lim c (((fun po => (po.1, osize lb po.2)) <$> O) ++ B).
Proof. intros (A & out & Hc & HP). exists A, B, out. split; [done|]. by rewrite HP. Qed.

(** The slab an object of a pool lies in. *)
Lemma obj_slab a O B live ptr n c j : small_core a O B live -> SmallObj ptr n c j ∈ live ->
  exists mp p s, small_mempool_cache a !! j = Some mp /\ headers (pool mp) !! p = Some s /\
    (p, slab_order (pool mp)) ∈ owned_by (small_mempool_cache a) /\ ptr ∈ ptrs j live /\ extent a (SmallObj ptr n c j) = objsize (pool mp) /\
    p + mslab_sizeof <= ptr /\ ptr + objsize (pool mp) <= p + osize lb (slab_order (pool mp)).
Proof.
  intros Hv Hx. destruct (v_obj _ _ _ _ Hv _ Hx) as (_ & _ & sp & mp & Hc & Hj & _). pose proof (pool_at _ _ _ _ _ _ Hv Hj) as Hp.
  assert (Hin : ptr ∈ ptrs j live).
  { apply list_elem_of_bind. exists (SmallObj ptr n c j). split; [|done]. rewrite Nat.eqb_refl. left. }
  destruct (proj2 (k_objs _ _ _ _ _ _ _ _ _ _ Hp) ptr Hin) as (p & i & Hps & Hi & Ep).
  pose proof (slot_bounds lb mx Hlb Hmx Hk (pool mp) p i (pool_shape _ _ _ _ _ _ _ Hp) Hi) as Hb. rewrite <- Ep in Hb.
  pose proof Hps as [s Hs]%(k_headers _ _ _ _ _ _ _ _ _ _ Hp). exists mp, p, s.
  change mslab_sizeof with 112. split_and!; try done; try lia.
  - apply list_elem_of_bind. exists mp. split; [by apply owned_elem|]. by eapply list_elem_of_lookup_2.
  - cbn. by apply size_at_lookup.
Qed.

Lemma large_size a O B live p n : small_core a O B live -> LargeObj p n ∈ live -> objsize_max a < n /\ 0 < n.
Proof.
  intros Hv Hx. destruct (v_obj _ _ _ _ Hv _ Hx) as [_ Hs]. unfold small_mempool_search in Hs.
  destruct (Z.gtb_spec n (objsize_max a)); [|done]. destruct (lo_max _ _ _ _ (v_layout _ _ _ _ Hv)) as (? & _). lia.
Qed.

(** The slab of any object. *)
Lemma obj_block a O B live l x : small_core a O B live -> x ∈ live -> x ∈ l ->
  exists p n, (p, n) ∈ ((fun po => (po.1, osize lb po.2)) <$> (owned_by (small_mempool_cache a) ++ O)) ++ large l ++ B /\
    p <= obj_ptr x /\ obj_ptr x + extent a x <= p + n /\ 0 < extent a x.
Proof.
  intros Hv Hx Hl. destruct x as [ptr n c j|ptr n].
  - destruct (obj_slab _ _ _ _ _ _ _ _ Hv Hx) as (mp & p & s & Hj & _ & Hin & _ & Ee & H1 & H2). change mslab_sizeof with 112 in H1.
    exists p, (osize lb (slab_order (pool mp))). rewrite Ee. pose proof (pool_size _ _ _ _ _ _ Hv Hj). split_and!; [|cbn; lia..].
    apply elem_of_app. left. apply list_elem_of_fmap. exists (p, slab_order (pool mp)). split; [done|]. apply elem_of_app. by left.
  - destruct (large_size _ _ _ _ _ _ Hv Hx) as [_ Hn]. exists (slab_from_data ptr), (n + slab_sizeof). pose proof slab_sizeof_eq.
    unfold slab_from_data. cbn [obj_ptr obj_size extent] in *. split_and!; [|lia..]. apply elem_of_app. right. apply elem_of_app. left.
    apply list_elem_of_bind. exists (LargeObj ptr n). split; [left|done].
Qed.

Definition apart_objs (a : small_alloc) (x y : obj) : Prop :=
  obj_ptr x + extent a x <= obj_ptr y \/ obj_ptr y + extent a y <= obj_ptr x.

(** Two objects of pools. *)
Lemma small_apart a O B l1 l2 p n c j q m d k : small_core a O B (l1 ++ SmallObj p n c j :: l2) -> SmallObj q m d k ∈ l1 ++ l2 ->
  apart_objs a (SmallObj p n c j) (SmallObj q m d k).
Proof.
  intros Hv Hy. set (live := l1 ++ SmallObj p n c j :: l2) in *.
  assert (Hx : SmallObj p n c j ∈ live) by (apply elem_of_app; right; left).
  assert (Hy' : SmallObj q m d k ∈ live) by (apply elem_of_app in Hy as [?|?]; apply elem_of_app; [by left|right; by right]).
  destruct (obj_slab _ _ _ _ _ _ _ _ Hv Hx) as (mp & u & s & Hj & Hu & Hui & Hpi & Ex & X1 & X2).
  destruct (obj_slab _ _ _ _ _ _ _ _ Hv Hy') as (mq & v & t & Hk' & Hv' & Hvi & Hqi & Ey & Y1 & Y2).
  unfold apart_objs. rewrite Ex, Ey. cbn [obj_ptr]. change mslab_sizeof with 112 in *.
  destruct (decide (j = k)) as [->|Hne].
  - assert (mq = mp) as -> by congruence. pose proof (pool_at _ _ _ _ _ _ Hv Hj) as Hp.
    apply (objs_apart lb mx lim Hlb Hmx Hk _ _ _ _ _ _ _ p q Hp Hpi Hqi). intros ->.
    destruct (k_objs _ _ _ _ _ _ _ _ _ _ Hp) as [Hnd _]. unfold live in Hnd. rewrite ptrs_app in Hnd.
    change (ptrs k (SmallObj q n c k :: l2)) with ((if (k =? k)%nat then [q] else []) ++ ptrs k l2) in Hnd. rewrite Nat.eqb_refl in Hnd.
    cbn [app] in Hnd. rewrite <- Permutation_middle, <- ptrs_app in Hnd. apply NoDup_cons in Hnd as [Hnd _]. apply Hnd.
    apply list_elem_of_bind. exists (SmallObj q m d k). split; [|done]. rewrite Nat.eqb_refl. left.
  - destruct (hold_apart lb mx lim _ _ _ (v_hold _ _ _ _ Hv)) as [_ Hd].
    pose proof (pool_size _ _ _ _ _ _ Hv Hj). pose proof (pool_size _ _ _ _ _ _ Hv Hk').
    destruct (Z.le_gt_cases (p + objsize (pool mp)) q) as [|H1]; [by left|].
    destruct (Z.le_gt_cases (q + objsize (pool mq)) p) as [|H2]; [by right|]. exfalso. apply Hne.
    assert (u = v) as ->.
    { apply (Hd u (slab_order (pool mp)) v (slab_order (pool mq)) (Z.max p q)); [apply elem_of_app; by left|apply elem_of_app; by left|lia|lia]. }
    apply (one_pool _ _ _ _ _ _ _ _ _ _ _ Hv Hj Hk' Hu Hv').
Qed.

(** A large object and any other. *)
Lemma large_apart a O B l1 l2 p n y : small_core a O B (l1 ++ LargeObj p n :: l2) -> y ∈ l1 ++ l2 ->
  apart_objs a (LargeObj p n) y.
Proof.
  intros Hv Hy. set (live := l1 ++ LargeObj p n :: l2) in *.
  destruct (large_size a O B live p n Hv) as [_ Hn]; [apply elem_of_app; right; left|].
  assert (Hy' : y ∈ live) by (apply elem_of_app in Hy as [?|?]; apply elem_of_app; [by left|right; by right]).
  set (S0 := (fun po => (po.1, osize lb po.2)) <$> (owned_by (small_mempool_cache a) ++ O)).
  assert (HP : S0 ++ large live ++ B ≡ₚ (slab_from_data p, n + slab_sizeof) :: S0 ++ large (l1 ++ l2) ++ B).
  { unfold live. rewrite !large_app. change (large (LargeObj p n :: l2)) with ((slab_from_data p, n + slab_sizeof) :: large l2).
    rewrite <- Permutation_middle. cbn [app]. by rewrite <- Permutation_middle. }
  destruct (obj_block a O B live (l1 ++ l2) y Hv Hy' Hy) as (q & m & Hq & Q1 & Q2 & Q3). fold S0 in Hq. pose proof (hold_holds _ _ _ (v_hold _ _ _ _ Hv)) as Hh. fold S0 in Hh.
  destruct (holds_apart lb mx lim Hlb Hmx _ _ Hh) as (Hnd & _ & Hd). rewrite HP in Hnd. cbn [fmap list_fmap fst] in Hnd.
  apply NoDup_cons in Hnd as [Hnew _]. unfold apart_objs. cbn [obj_ptr extent]. pose proof slab_sizeof_eq as E48. unfold slab_from_data in *.
  destruct (Z.le_gt_cases (p + n) (obj_ptr y)) as [|H1]; [by left|]. destruct (Z.le_gt_cases (obj_ptr y + extent a y) p) as [|H2]; [by right|]. exfalso.
  apply Hnew, list_elem_of_fmap. exists (q, m). split; [|done]. cbn.
  apply (Hd (p - slab_sizeof) (n + slab_sizeof) q m (Z.max p (obj_ptr y))).
  - rewrite HP. left.
  - rewrite HP. by right.
  - lia.
  - lia.
Qed.

Lemma objs_are_apart a O B l1 x l2 y : small_core a O B (l1 ++ x :: l2) -> y ∈ l1 ++ l2 -> apart_objs a x y.
Proof.
  intros Hv Hy. destruct x as [p n c j|p n]; [|by apply (large_apart a O B l1 l2)].
  destruct y as [q m d k|q m]; [by apply (small_apart a O B l1 l2)|].
  assert (Hsym : apart_objs a (LargeObj q m) (SmallObj p n c j)); [|unfold apart_objs in *; tauto].
  apply elem_of_app in Hy as [Hy|Hy]; apply list_elem_of_split in Hy as (k1 & k2 & ->).
  - rewrite <- app_assoc in Hv. apply (large_apart a O B k1 (k2 ++ SmallObj p n c j :: l2) q m _ Hv).
    rewrite !elem_of_app, elem_of_cons. tauto.
  - rewrite app_comm_cons, app_assoc in Hv. apply (large_apart a O B (l1 ++ SmallObj p n c j :: k1) k2 q m _ Hv).
    rewrite !elem_of_app, elem_of_cons. tauto.
Qed.

(** ** What is known of an object *)

Definition in_slab (x : obj) : bool := match x with SmallObj _ _ _ _ => false | LargeObj _ _ => true end.

Lemma small_alloc_info_spec a O B live x : small_core a O B live -> x ∈ live ->
  small_alloc_info a (obj_ptr x) (obj_size x) = Some (SmallAllocInfo (in_slab x) (extent a x)) /\ obj_size x <= extent a x.
Proof.
  intros Hv Hx. unfold small_alloc_info. destruct x as [ptr n c j|ptr n]; cbn [obj_ptr obj_size in_slab].
  - destruct (v_obj _ _ _ _ Hv _ Hx) as (H0 & Es & sp & mp & Hc & Hj & Eg & Hcj). cbn [obj_size] in H0.
    assert (Hn : n <= objsize_max a) by (unfold small_mempool_search in Es; destruct (Z.gtb_spec n (objsize_max a)); [done|lia]).
    destruct (mempool_search_spec a O B live n Hv ltac:(lia)) as (c' & sp' & Es' & Hc' & Hsz). rewrite Es in Es'. injection Es' as <-. rewrite Hc in Hc'. injection Hc' as <-.
    destruct (find_slab a O B _ ptr n c j sp Hv Hx Hc) as (slab & mp' & Hj' & E1 & _ & E3 & Hle). rewrite Hj in Hj'. injection Hj' as <-.
    rewrite Es, Hc. cbn [mbind option_bind]. rewrite E1. cbn [mbind option_bind]. rewrite E3. cbn [mbind option_bind]. rewrite Hj. cbn [mbind option_bind real_size].
    cbn [extent]. rewrite (size_at_lookup _ _ _ Hj), (proj2 (Z.geb_le _ n)) by lia. split; [done|lia].
  - destruct (v_obj _ _ _ _ Hv _ Hx) as [_ Es]. rewrite Es. cbn [mbind option_bind real_size extent]. rewrite (proj2 (Z.geb_le n n)) by lia. split; [done|lia].
Qed.

(** ** Destruction *)

Lemma destroy_pools_loop_spec (a : small_alloc) O B k : forall c it, (it + k = length (small_mempool_cache a))%nat ->
  hold c (owned_by (drop it (small_mempool_cache a)) ++ O) B -> exists c', destroy_pools_loop k a c it = Some c' /\ hold c' O B.
Proof.
  induction k as [|k IH]; intros c it Hk' Hc; cbn [destroy_pools_loop]; unfold mempool_iterator_next.
  - rewrite lookup_ge_None_2 by lia. exists c. split; [done|]. by rewrite drop_ge in Hc by lia.
  - destruct (lookup_lt_is_Some_2 (small_mempool_cache a) it) as [sp Hsp]; [lia|]. rewrite Hsp.
    rewrite (drop_S _ _ _ Hsp) in Hc. change (owned_by (sp :: drop (S it) (small_mempool_cache a))) with (owned (pool sp) ++ owned_by (drop (S it) (small_mempool_cache a))) in Hc.
    rewrite <- app_assoc in Hc. destruct (destroy_pool_slabs_hold lb mx lim Hlb Hmx Hk c _ _ _ _ Hc) as (c1 & E1 & Hc1).
    unfold mempool_destroy. rewrite E1. cbn [mbind option_bind]. apply (IH c1 (S it)); [lia|done].
Qed.

Lemma small_alloc_destroy_spec a O B live : small_core a O B live ->
  exists c', small_alloc_destroy a = Some c' /\ hold c' O (large live ++ B).
Proof. intros Hv. apply (destroy_pools_loop_spec a O _ _ (cache a) 0); [done|]. apply (v_hold _ _ _ _ Hv). Qed.

(** ** Statistics *)

Lemma stats_loop_spec {S} (a : small_alloc) (cb : mempool_stats_t -> S -> bool * S) (st_of : nat -> mempool_stats_t) k :
  (forall s st, (cb s st).1 = false) ->
  (forall i sp, small_mempool_cache a !! i = Some sp -> mempool_stats (cache a) (pool sp) = Some (st_of i)) ->
  forall it t st, (it + k = length (small_mempool_cache a))%nat -> 0 <= used t < 2 ^ 64 -> 0 <= total t < 2 ^ 64 ->
  exists st', stats_loop k a cb it t st =
    Some (SmallStats (u64 (used t + zsum (fun i => used (st_totals (st_of i))) (seq it k)))
            (u64 (total t + zsum (fun i => total (st_totals (st_of i))) (seq it k))), st').
Proof.
  intros Hcb Hst. induction k as [|k IH]; intros it t st Hk' Hu Ht; cbn [stats_loop]; unfold mempool_iterator_next.
  - rewrite lookup_ge_None_2 by lia. exists st. cbn [seq zsum foldr]. rewrite !Z.add_0_r, !u64_small by done. by destruct t.
  - destruct (lookup_lt_is_Some_2 (small_mempool_cache a) it) as [sp Hsp]; [lia|]. rewrite Hsp, (Hst it sp Hsp). cbn [mbind option_bind].
    pose proof (Hcb (st_of it) st) as Hstop. destruct (cb (st_of it) st) as [stop st1]. cbn in Hstop. subst stop.
    destruct (IH (Datatypes.S it) (SmallStats (u64 (used t + used (st_totals (st_of it)))) (u64 (total t + total (st_totals (st_of it))))) st1) as (st' & ->);
      [lia|apply u64_range|apply u64_range|]. exists st'. cbn [seq zsum foldr used total]. do 3 f_equal; unfold u64; rewrite Z.add_mod_idemp_l by lia; f_equal; unfold zsum; lia.
Qed.

(** The bytes of the objects of pools, by object and by pool. *)
Definition pool_bytes (L : list pshape) (x : obj) : Z := match x with SmallObj _ _ _ j => size_at L j | LargeObj _ _ => 0 end.

Lemma bytes_by_pool L live n : (forall p m c j, SmallObj p m c j ∈ live -> (j < n)%nat) ->
  zsum (fun i => size_at L i * Z.of_nat (length (ptrs i live))) (seq 0 n) = zsum (pool_bytes L) live.
Proof.
  intros Hlt. induction live as [|x live IH].
  { rewrite (zsum_ext _ (fun _ => 0)); [rewrite zsum_const; cbn; lia|]. intros i _. cbn. lia. }
  change (zsum (pool_bytes L) (x :: live)) with (pool_bytes L x + zsum (pool_bytes L) live).
  rewrite <- IH by (intros p m c j Hj; apply (Hlt p m c j); by right). clear IH. destruct x as [p m c j|p m]; [|done].
  assert (Hj : (j < n)%nat) by (apply (Hlt p m c j); left). clear Hlt. cbn [pool_bytes].
  assert (Hsum : forall k s, zsum (fun i => size_at L i * Z.of_nat (length (ptrs i (SmallObj p m c j :: live)))) (seq s k) =
    (if decide (s <= j < s + k)%nat then size_at L j else 0) + zsum (fun i => size_at L i * Z.of_nat (length (ptrs i live))) (seq s k)).
  { induction k as [|k IH]; intros s; [destruct (decide _); [lia|done]|]. cbn [seq zsum foldr].
    change (foldr (fun x s0 => size_at L x * Z.of_nat (length (ptrs x (SmallObj p m c j :: live))) + s0) 0 (seq (S s) k))
      with (zsum (fun i => size_at L i * Z.of_nat (length (ptrs i (SmallObj p m c j :: live)))) (seq (S s) k)).
    rewrite IH. change (ptrs s (SmallObj p m c j :: live)) with ((if (j =? s)%nat then [p] else []) ++ ptrs s live). unfold zsum.
    destruct (Nat.eqb_spec j s) as [->|Hne]; cbn [app length]; destruct (decide _); destruct (decide _); lia. }
  rewrite (Hsum n 0%nat). destruct (decide _); [done|lia].
Qed.

(** Few enough objects and slabs for the counters of the statistics. *)
Definition stats_fit (a : small_alloc) : Prop :=
  forall i sp, small_mempool_cache a !! i = Some sp ->
    let n := Z.of_nat (length (slabs (pool_slabs (pool sp)))) in n * objcount (pool sp) < 2 ^ 32 /\ n * mslab_sizeof < 2 ^ 32.

Lemma small_stats_spec {S} a O B live (cb : mempool_stats_t -> S -> bool * S) st : small_core a O B live -> stats_fit a ->
  (forall s st, (cb s st).1 = false) ->
  exists t st', small_stats_of a cb st = Some (SmallStats (u64 (zsum (pool_bytes (shapes a)) live)) t, st').
Proof.
  intros Hv Hf Hcb. set (pools := small_mempool_cache a).
  set (st_of := fun i => default (MempoolStats 0 0 0 0 (SmallStats 0 0)) (sp ← pools !! i; mempool_stats (cache a) (pool sp))).
  assert (Hst : forall i sp, pools !! i = Some sp -> mempool_stats (cache a) (pool sp) = Some (st_of i) /\
    used (st_totals (st_of i)) = size_at (shapes a) i * Z.of_nat (length (ptrs i live))).
  { intros i sp Hi. unfold st_of. rewrite Hi. cbn [mbind option_bind]. destruct (Hf i sp Hi) as [F1 F2].
    rewrite (mempool_stats_spec lb mx lim Hlb Hmx Hk _ _ _ _ _ (pool_at _ _ _ _ _ _ Hv Hi) F1 F2). cbn [default from_option id st_totals used].
    by rewrite (size_at_lookup _ _ _ Hi). }
  unfold small_stats_of. destruct (stats_loop_spec a cb st_of (length pools) Hcb (fun i sp Hi => proj1 (Hst i sp Hi)) 0 (SmallStats 0 0) st)
    as (st' & E); [done|cbn; lia|cbn; lia|]. cbn [used total] in E. rewrite !Z.add_0_l in E.
  rewrite (zsum_ext _ (fun i => size_at (shapes a) i * Z.of_nat (length (ptrs i live))) (seq 0 (length pools))) in E.
  - rewrite (bytes_by_pool (shapes a) live) in E; [by eexists _, st'|]. intros p m c j Hj. destruct (v_obj _ _ _ _ Hv _ Hj) as (_ & _ & sp & mp & _ & Hmp & _).
    by eapply lookup_lt_Some.
  - intros i Hi%elem_of_seq. destruct (lookup_lt_is_Some_2 pools i) as [sp Hsp]; [lia|]. by apply (Hst i sp).
Qed.
End Inv.
