(* ===== verification/SmallCreate.v ===== *)
(** * Creation of the allocator of objects of any size

    [small_mempool_create] of [Small] makes the pools from the size classes and
    puts them in groups; the result satisfies the invariant of [SmallAlloc]. *)
From S2P Require Import Prelude Util SmallClass SlabSource SlabCache Rb RbUpdate RbQuery Mempool Small SmallAlloc.

(** ** Groups *)
Section Groups.
Context {src : Type} {F : Type}.
Local Abbreviation small_alloc := (small_alloc (src:=src) (F:=F)).
Local Abbreviation shapes a := (pshape_of <$> small_mempool_cache a).

(** The pools below [cur] are in groups, the others in none. *)
Record grouped (L : list pshape) (G : list small_mempool_group) (cur : nat) : Prop := {
  gr_sizes : sizes_ok L;
  gr_groups gi g : G !! gi = Some g -> group_ok L gi g /\ group_used L g /\ (g_last g < cur)%nat;
  gr_in i p : L !! i = Some p -> (i < cur)%nat -> exists gi g, ps_group p = Some gi /\ G !! gi = Some g;
  gr_out i p : L !! i = Some p -> (cur <= i)%nat -> ps_group p = None /\ ps_mask p = 0;
  gr_count : (length G <= cur)%nat;
}.

(** A group depends on its own pools, and on no other pool naming it. *)
Lemma group_prefix L L' gi g n : group_ok L gi g -> group_used L g -> (g_last g < n)%nat -> (length L <= length L')%nat ->
  (forall i, (i < n)%nat -> L' !! i = L !! i) -> (forall i p, L' !! i = Some p -> (n <= i)%nat -> ps_group p <> Some gi) ->
  group_ok L' gi g /\ group_used L' g.
Proof.
  intros [G1 G2 G3 G4 G5 G6] Hu Hn Hlen Heq Hno.
  assert (Hin : forall i, in_group g i -> L' !! i = L !! i) by (intros i Hi; apply Heq; unfold in_group in Hi; lia).
  split; [split|]; [split; lia|done|done|..].
  - intros i p Hi. destruct (Nat.lt_ge_cases i n) as [Hlt|Hge].
    + rewrite Heq in Hi by done. by apply G4.
    + split; [unfold in_group; lia|]. intros E. by destruct (Hno i p Hi Hge).
  - intros i p Hi Hg. rewrite Hin in Hi by done. by apply G5.
  - intros i p Hi Hg. rewrite Hin in Hi by done. rewrite Hin by (unfold in_group; lia). by apply (G6 i).
  - intros i p Hi Hg. rewrite Hin in Hi by done. by apply (Hu i).
Qed.

Lemma mask_bits idx : 0 <= idx < 32 ->
  fold_left (fun m i => Z.lor m (u32 (Z.shiftl 1 i))) (seqZ idx (POOL_PER_GROUP_MAX - idx)) 0 = app_mask idx.
Proof.
  intros Hi. assert (H : forallb (fun idx => fold_left (fun m i => Z.lor m (u32 (Z.shiftl 1 i))) (seqZ idx (POOL_PER_GROUP_MAX - idx)) 0 =?
    app_mask idx) (seqZ 0 32) = true) by by vm_compute.
  rewrite forallb_forall in H. apply Z.eqb_eq, H. apply list_elem_of_In, elem_of_seqZ. lia.
Qed.

Lemma assign_group_spec gi first n : forall (a : small_alloc) j, (first <= j)%nat -> (j + n <= first + 32)%nat ->
  (j + n <= length (small_mempool_cache a))%nat ->
  (forall i sp, small_mempool_cache a !! i = Some sp -> (j <= i)%nat -> appropriate_pool_mask sp = 0) ->
  exists l, assign_group a gi first (seq j n) = Some (set_pools a l) /\
    remap (fun i sp => set_app_mask (set_group sp gi) (app_mask (Z.of_nat i - Z.of_nat first))) j n (small_mempool_cache a) l.
Proof.
  induction n as [|n IH]; intros a j Hj H32 Hlen Hm.
  - exists (small_mempool_cache a). split; [by destruct a|]. apply remap_nil.
  - destruct (lookup_lt_is_Some_2 (small_mempool_cache a) j) as [sp Esp]; [lia|].
    cbn [seq assign_group]. rewrite Esp. cbn [mbind option_bind]. unfold small_mempool_set_mask. cbn [set_group appropriate_pool_mask].
    rewrite (Hm j sp Esp), Z.eqb_refl, mask_bits by lia. cbn [mbind option_bind].
    set (sp' := set_app_mask (set_group sp gi) (app_mask (Z.of_nat j - Z.of_nat first))).
    destruct (IH (put_pool a j sp') (S j)) as (l & E & Hl); [lia|lia| | |].
    { unfold put_pool. cbn [set_pools small_mempool_cache]. rewrite length_insert. lia. }
    { intros i t Hi Hge. unfold put_pool in Hi. cbn [set_pools small_mempool_cache] in Hi.
      rewrite list_lookup_insert_ne in Hi by lia. apply (Hm i t Hi). lia. }
    exists l. split; [exact E|]. by apply (remap_cons _ j n _ l sp).
Qed.

(** Sizes and orders are those of the pools. *)
Lemma sizes_ok_pools (l l' : list small_mempool) : pool <$> l' = pool <$> l -> sizes_ok (pshape_of <$> l) -> sizes_ok (pshape_of <$> l').
Proof.
  intros E Hs i j p q (sp & Hi & ->)%shapes_lookup (sq & Hj & ->)%shapes_lookup Hlt.
  pose proof (f_equal (lookup i) E) as Ei. pose proof (f_equal (lookup j) E) as Ej. rewrite !list_lookup_fmap, Hi in Ei. rewrite !list_lookup_fmap, Hj in Ej.
  destruct (l !! i) as [ti|] eqn:Ti; [|done]. destruct (l !! j) as [tj|] eqn:Tj; [|done]. cbn in Ei, Ej. injection Ei as Ei. injection Ej as Ej.
  pose proof (Hs i j _ _ (shapes_of _ _ _ Ti) (shapes_of _ _ _ Tj) Hlt). cbn in *. by rewrite Ei, Ej.
Qed.

(** The group of the pools from [first] to [last], once they are assigned. *)
Lemma new_group_ok (l : list small_mempool) gi first last mask n l0 : (first <= last < length l0)%nat -> (last - first < 32)%nat -> 0 <= n ->
  remap (fun i sp => set_app_mask (set_group sp gi) (app_mask (Z.of_nat i - Z.of_nat first))) first (S last - first) l0 l ->
  (forall i sp, l0 !! i = Some sp -> ~ (first <= i <= last)%nat -> group sp <> Some gi) ->
  (forall i j sp sq, l0 !! i = Some sp -> l0 !! j = Some sq -> (first <= i <= last)%nat -> (first <= j <= last)%nat ->
     slab_order (pool sp) = slab_order (pool sq)) ->
  mask = 2 ^ (Z.of_nat last - Z.of_nat first) -> group_ok (pshape_of <$> l) gi (SmallMempoolGroup first last mask n).
Proof.
  intros Hr H32 Hn Hl Hno Hord ->. assert (Hb : 0 <= Z.of_nat last - Z.of_nat first < 32) by lia.
  pose proof (remap_length _ _ _ _ _ Hl) as Hlen.
  assert (Hlk : forall i p, (pshape_of <$> l) !! i = Some p -> exists sp0, l0 !! i = Some sp0 /\
    p = pshape_of (if decide (first <= i < first + (S last - first))%nat then set_app_mask (set_group sp0 gi) (app_mask (Z.of_nat i - Z.of_nat first)) else sp0)).
  { intros i p (sp & Hi & ->)%shapes_lookup. rewrite Hl in Hi. destruct (l0 !! i) as [sp0|]; [|done]. exists sp0. split; [done|]. cbn in Hi. by injection Hi as <-. }
  split; cbn [g_first g_last active_pool_mask waste_max]; unfold in_group, active, bit_of; cbn [g_first g_last active_pool_mask].
  - rewrite length_fmap, Hlen. lia.
  - done.
  - split; [split; [apply Z.lt_le_incl, pow2_pos; lia|apply Z.pow_lt_mono_r; lia]|]. apply Z.pow2_bits_true. lia.
  - intros i p (sp0 & Hi & ->)%Hlk. destruct (decide _) as [Hd|Hd]; cbn; [split; [done|intros _; lia]|]. split; [lia|]. intros E.
    destruct (Hno i sp0 Hi); [lia|done].
  - intros i p (sp0 & Hi & ->)%Hlk Hin. destruct (decide _) as [Hd|Hd]; [done|lia].
  - intros i p (sp0 & Hi & ->)%Hlk Hin. destruct (lookup_lt_is_Some_2 (pshape_of <$> l) last) as [lp Hlp]; [rewrite length_fmap; lia|].
    exists lp. split; [done|]. destruct (Hlk _ _ Hlp) as (sl & Hsl & ->).
    pose proof (Hord i last sp0 sl Hi Hsl ltac:(lia) ltac:(lia)). by destruct (decide _), (decide _).
Qed.

Lemma last_pool_spec first last : (first <= last)%nat ->
  small_mempool_group_last_pool first last = Some (Nat.min last (first + 31)).
Proof.
  intros Hle. unfold small_mempool_group_last_pool.
  assert (H : forall fuel cnt i, Z.of_nat fuel + cnt = 32 -> 0 <= cnt <= 31 -> (i <= last)%nat ->
    last_pool_loop fuel cnt i last = Some (Nat.min last (i + Z.to_nat (31 - cnt)))).
  { induction fuel as [|fuel IH]; intros cnt i Hf Hc Hi; [lia|]. cbn [last_pool_loop]. unfold POOL_PER_GROUP_MAX.
    destruct (Nat.ltb_spec i last); cbn [andb]; [|f_equal; lia]. destruct (Z.ltb_spec cnt (32 - 1)); [|f_equal; lia].
    unfold u8. rewrite Z.mod_small, IH by lia. f_equal. lia. }
  rewrite H by (unfold POOL_PER_GROUP_MAX; lia). done.
Qed.

(** What the creation of groups keeps. *)
Definition same_memory (l l' : list small_mempool) : Prop := pool <$> l' = pool <$> l /\ waste <$> l' = waste <$> l.

Lemma memory_length l l' : same_memory l l' -> length l' = length l.
Proof. intros [E _]. apply (f_equal length) in E. by rewrite !length_fmap in E. Qed.

Lemma memory_lookup l l' i sp' : same_memory l l' -> l' !! i = Some sp' ->
  exists sp, l !! i = Some sp /\ pool sp' = pool sp /\ waste sp' = waste sp.
Proof.
  intros [E1 E2] Hi. pose proof (f_equal (lookup i) E1) as P. pose proof (f_equal (lookup i) E2) as W.
  rewrite !list_lookup_fmap, Hi in P. rewrite !list_lookup_fmap, Hi in W. destruct (l !! i) as [sp|]; [|done]. cbn in P, W. injection P as P. injection W as W. by exists sp.
Qed.

(** The pools from [i] to [j] have slabs of one order. *)
Definition one_order (l : list small_mempool) (i j : nat) (o : Z) : Prop :=
  forall k sp, l !! k = Some sp -> (i <= k <= j)%nat -> slab_order (pool sp) = o.

Lemma one_order_same l l' i j o : same_memory l l' -> one_order l i j o -> one_order l' i j o.
Proof. intros Hm Ho k sp' Hk Hr. destruct (memory_lookup _ _ _ _ Hm Hk) as (sp & Hk' & -> & _). by apply (Ho k). Qed.

(** A group is added after the others. *)
Lemma grouped_extend L L' G g : grouped L G (g_first g) -> group_ok L' (length G) g -> group_used L' g -> sizes_ok L' ->
  length L' = length L -> (forall i, ~ in_group g i -> L' !! i = L !! i) -> grouped L' (G ++ [g]) (S (g_last g)).
Proof.
  intros [R1 R2 R3 R4 R5] Gok Gu Hs Hlen Hout. destruct (go_range _ _ _ Gok) as [[Hr _] _]. unfold in_group in Hout.
  assert (Hcase : forall i p, L' !! i = Some p -> (i < g_first g)%nat /\ L !! i = Some p \/ (g_first g <= i <= g_last g)%nat /\ ps_group p = Some (length G) \/
    (g_last g < i)%nat /\ ps_group p = None /\ ps_mask p = 0).
  { intros i p Hi. destruct (decide (g_first g <= i <= g_last g)%nat) as [Hin|Hin].
    - right; left. split; [done|]. by apply (go_pool _ _ _ Gok i p Hi).
    - rewrite Hout in Hi by done. destruct (Nat.lt_ge_cases i (g_first g)); [by left|]. right; right. split; [lia|]. by apply (R4 i p Hi). }
  split; [done|..].
  - intros gi h Hh. apply lookup_app_Some in Hh as [Hh|[Hge Hh]].
    + destruct (R2 gi h Hh) as (H1 & H2 & H3). pose proof (lookup_lt_Some _ _ _ Hh) as Hlt.
      destruct (group_prefix L L' gi h (g_first g) H1 H2 H3) as [? ?]; [lia|intros i Hi; apply Hout; lia| |split_and!; [done|done|lia]].
      intros i p Hi Hge E. destruct (Hcase i p Hi) as [[? _]|[[_ E']|(_ & E' & _)]]; [lia|rewrite E in E'; injection E'; lia|congruence].
    + apply list_lookup_singleton_Some in Hh as [Hz <-]. assert (gi = length G) as -> by lia. split_and!; [done|done|lia].
  - intros i p Hi Hlt. destruct (Hcase i p Hi) as [[Hi1 Hi2]|[[_ E]|[? _]]]; [|exists (length G), g; split; [done|by apply list_lookup_middle]|lia].
    destruct (R3 i p Hi2 Hi1) as (gi & h & E & Hh). exists gi, h. split; [done|]. apply lookup_app_Some. by left.
  - intros i p Hi Hge. destruct (Hcase i p Hi) as [[? _]|[[? _]|[_ ?]]]; [lia|lia|done].
  - rewrite length_app. cbn. lia.
Qed.

Lemma create_group_spec (a : small_alloc) first last o n : grouped (shapes a) (small_mempool_groups a) first ->
  (first <= last < length (small_mempool_cache a))%nat -> (length (small_mempool_cache a) <= SMALL_MEMPOOL_MAX)%nat -> (last - first < 32)%nat ->
  one_order (small_mempool_cache a) first last o -> slab_order_size (cache a) o = Some n -> 0 <= n ->
  exists l G, small_mempool_create_group a first last = Some (set_pools (set_groups a G) l) /\
    same_memory (small_mempool_cache a) l /\ grouped (pshape_of <$> l) G (S last).
Proof.
  intros [R1 R2 R3 R4 R5] Hr Hmax H32 Hord Hsz Hn. set (G := small_mempool_groups a) in *. set (gi := length G).
  destruct (lookup_lt_is_Some_2 (small_mempool_cache a) last) as [lp Hlp]; [lia|].
  unfold small_mempool_create_group. fold G gi. rewrite (proj2 (Nat.ltb_lt gi _)) by lia. rewrite Hlp. cbn [mbind option_bind].
  rewrite (Hord last lp Hlp) by lia. rewrite Hsz. cbn [mbind option_bind].
  set (g0 := SmallMempoolGroup first last 0 (n / 4)). set (a1 := set_groups a (G ++ [g0])).
  destruct (assign_group_spec gi first (S last - first) a1 first) as (l1 & E1 & Hl1); [lia|lia|cbn [a1 set_groups small_mempool_cache]; lia| |].
  { intros i sp Hi Hge. by apply (R4 i _ (shapes_of _ _ _ Hi) Hge). }
  change (small_mempool_cache a1) with (small_mempool_cache a) in Hl1. rewrite E1. cbn [mbind option_bind].
  pose proof (remap_length _ _ _ _ _ Hl1) as Hlen1.
  assert (Hm1 : same_memory (small_mempool_cache a) l1) by (split; by eapply remap_fmap; [|exact Hl1]).
  destruct (lookup_lt_is_Some_2 l1 last) as [lp1 Hlp1]; [lia|].
  assert (Eg1 : group lp1 = Some gi) by (rewrite Hl1, Hlp in Hlp1; cbn in Hlp1; injection Hlp1 as <-; destruct (decide _); [done|lia]).
  assert (Eg : forall gx, group_of (set_pools (set_groups a (G ++ [gx])) l1) last = Some (gi, gx)).
  { intros gx. apply group_of_some. cbn [set_pools set_groups small_mempool_groups small_mempool_cache].
    split; [by apply list_lookup_middle|by exists lp1]. }
  unfold small_mempool_activate. change (set_pools a1 l1) with (set_pools (set_groups a (G ++ [g0])) l1). rewrite Eg. cbn [mbind option_bind].
  change (small_mempool_get_group_index last g0) with (bit_of g0 last).
  destruct (bit_mask g0 last) as [Hb Em]; [unfold in_group; cbn; lia|cbn; lia|]. rewrite Em. cbn [g0 active_pool_mask]. cbn [Z.land Z.eqb Z.lor].
  cbn [set_pools set_groups small_mempool_groups]. rewrite insert_app_r_alt, Nat.sub_diag by done. cbn [insert list_insert].
  set (g := set_active g0 (2 ^ bit_of g0 last)). set (a2 := set_pools (set_groups a (G ++ [g])) l1).
  assert (Hno : forall i sp, small_mempool_cache a !! i = Some sp -> group sp <> Some gi).
  { intros i sp Hi E. destruct (Nat.lt_ge_cases i first) as [Hlt|Hge].
    - destruct (R3 i _ (shapes_of _ _ _ Hi) Hlt) as (gj & h & Ej & Hj). cbn [pshape_of ps_group] in Ej.
      rewrite E in Ej. injection Ej as <-. apply lookup_lt_Some in Hj. lia.
    - destruct (R4 i _ (shapes_of _ _ _ Hi) Hge) as [E0 _]. cbn in E0. congruence. }
  assert (Gok : group_ok (shapes a2) gi g).
  { apply (new_group_ok l1 gi first last _ _ (small_mempool_cache a)); try done; [apply Z.div_pos; lia|by intros i sp Hi _; apply (Hno i)|].
    intros i j sp sq Hi Hj Hri Hrj. by rewrite (Hord i sp Hi Hri), (Hord j sq Hj Hrj). }
  assert (Hs2 : sizes_ok (shapes a2)) by (by apply (sizes_ok_pools (small_mempool_cache a)); [apply Hm1|]).
  destruct (update_group_spec a2 last gi g (Eg g) Hs2 Gok) as (l & E & Hp & Hu & Ho). cbn [a2 set_pools small_mempool_cache] in Hp, Ho.
  exists l, (G ++ [g]). split; [exact E|]. destruct Hp as (P1 & P2 & P3). split.
  { destruct Hm1 as [M1 M2]. split; congruence. }
  pose proof (static_length _ _ P3) as Hlen. rewrite !length_fmap in Hlen. change (length l = length l1) in Hlen.
  apply (grouped_extend (shapes a) _ G g); [done|by apply (group_ok_static _ _ _ _ P3)|done|by apply (sizes_ok_static _ _ P3)| |].
  { rewrite !length_fmap. lia. }
  intros i Hi. rewrite !list_lookup_fmap. f_equal. change (small_mempool_cache a2) with l1 in Hlen. destruct (l1 !! i) as [t|] eqn:Et.
  - rewrite (Ho i t Hi Et). rewrite Hl1 in Et. destruct (small_mempool_cache a !! i) as [t0|]; [|done]. cbn in Et.
    destruct (decide _) as [Hd|Hd]; [|done]. destruct Hi. unfold in_group. cbn. lia.
  - rewrite !(lookup_ge_None_2 _ i); [done|..]; apply lookup_ge_None in Et; lia.
Qed.

Lemma same_memory_trans l1 l2 l3 : same_memory l1 l2 -> same_memory l2 l3 -> same_memory l1 l3.
Proof. unfold same_memory. intros [] []. split; congruence. Qed.

Lemma create_groups_loop_spec last o n fuel : forall (a : small_alloc) first, (S last - first <= fuel)%nat ->
  grouped (shapes a) (small_mempool_groups a) first -> (first <= S last)%nat ->
  (last < length (small_mempool_cache a))%nat -> (length (small_mempool_cache a) <= SMALL_MEMPOOL_MAX)%nat ->
  one_order (small_mempool_cache a) first last o -> slab_order_size (cache a) o = Some n -> 0 <= n ->
  exists l G, create_groups_loop fuel a first last = Some (set_pools (set_groups a G) l) /\
    same_memory (small_mempool_cache a) l /\ grouped (pshape_of <$> l) G (S last).
Proof.
  assert (Hdone : forall (a : small_alloc) first, ~ (first <= last)%nat -> (first <= S last)%nat -> grouped (shapes a) (small_mempool_groups a) first ->
    exists l G, Some a = Some (set_pools (set_groups a G) l) /\ same_memory (small_mempool_cache a) l /\ grouped (pshape_of <$> l) G (S last)).
  { intros a first H1 H2 Hg. exists (small_mempool_cache a), (small_mempool_groups a). assert (S last = first) as -> by lia. by destruct a. }
  induction fuel as [|fuel IH]; intros a first Hfuel Hg Hle Hlast Hmax Hord Hsz Hn; cbn [create_groups_loop];
    destruct (Nat.leb_spec first last) as [Hl|Hl]; try (apply (Hdone a first); [lia|done|done]); [lia|].
  rewrite last_pool_spec by done. cbn [mbind option_bind]. set (lg := Nat.min last (first + 31)).
  destruct (create_group_spec a first lg o n Hg) as (l & G & -> & Hm & Hg'); [lia|done|lia| |done|done|].
  { intros k sp Hk Hr. apply (Hord k sp Hk). lia. }
  cbn [mbind option_bind]. pose proof (memory_length _ _ Hm) as Hlen.
  destruct (IH (set_pools (set_groups a G) l) (S lg)) as (l' & G' & E & Hm' & Hg''); try done; cbn [set_pools small_mempool_cache]; try lia.
  { apply (one_order_same _ _ _ _ _ Hm). intros k sp Hk Hr. apply (Hord k sp Hk). lia. }
  exists l', G'. split; [exact E|]. split; [|done]. by apply (same_memory_trans _ l).
Qed.
End Groups.

(** ** Class sizes *)
Section Sizes.
Context {F : Type} (sc : small_class F) (Hwf : small_class_wf sc).

Lemma class_size_first : class_size sc 0 = size_shift sc + granularity sc.
Proof.
  unfold class_size, scale. pose proof (pow2_pos _ (wf_bits _ Hwf)) as Hp. set (p := 2 ^ effective_bits sc) in *.
  destruct (Z.ltb_spec (0 + 1) p); [lia|]. assert (p = 1) as -> by lia. change ((0 + 1) mod 1 + 1) with 1. change (2 ^ ((0 + 1) / 1 - 1)) with 1. lia.
Qed.

(** A class is at most twice the one before it. *)
Lemma class_size_double c : 0 <= c -> class_size sc (c + 1) <= 2 * class_size sc c.
Proof.
  intros Hc. unfold class_size. pose proof (wf_bits _ Hwf) as He. pose proof (pow2_pos _ He) as Hp. pose proof (gran_pos sc Hwf) as Hg.
  pose proof (wf_shift _ Hwf). enough (scale (effective_bits sc) (c + 1 + 1) <= 2 * scale (effective_bits sc) (c + 1)) by nia.
  rewrite (scale_step _ He (c + 1)) by lia. unfold scale. set (p := 2 ^ effective_bits sc) in *.
  destruct (Z.ltb_spec (c + 1) p); [lia|]. pose proof (Z.mod_pos_bound (c + 1) p Hp).
  assert (0 <= 2 ^ ((c + 1) / p - 1)) by (apply Z.pow_nonneg; lia). nia.
Qed.
End Sizes.

(** ** The pools *)
Section Create.
Context {src : Type} `{!SlabSource src}
  {inv : Z -> Z -> src -> list Z -> list (Z * Z) -> list Z -> Prop} `{!SlabSourceLaws inv} {F : Type}.
Context (lb mx lim : Z) (Hlb : 12 <= lb) (Hmx : 0 <= mx <= 15) (Hk : lb + mx <= 31).
Local Abbreviation small_alloc := (small_alloc (src:=src) (F:=F)).
Local Abbreviation hold := (hold (inv:=inv) lb mx lim).
Local Abbreviation pool_inv := (pool_inv (inv:=inv) lb mx lim).
Local Abbreviation small_inv := (small_inv (inv:=inv) lb mx lim).
Local Abbreviation shapes a := (pshape_of <$> small_mempool_cache a).

Lemma mempool_create_empty (c : slab_cache (src:=src)) sz m : mempool_create c sz = Some m -> slabs (pool_slabs m) = [].
Proof. 
  unfold mempool_create, mempool_create_with_order. set (o := SlabCache.slab_order c _). destruct (o <=? order_max c); [|done].
  destruct (slab_order_size c o); [|done]. cbn [mbind option_bind]. destruct (negb _); [|done]. by intros [= <-].
Qed.

(** Empty pools of the class sizes up to [max]. *)
Record made (c : slab_cache (src:=src)) (O B : list (Z * Z)) (sc : small_class F) (max : Z) (l : list small_mempool) : Prop := {
  md_pool i sp : l !! i = Some sp -> pool_inv c (pool sp) [] O B [] 0 /\ slabs (pool_slabs (pool sp)) = [] /\ waste sp = 0 /\
    objsize (pool sp) = Z.min (class_size sc (Z.of_nat i)) max;
  md_below i : (S i < length l)%nat -> class_size sc (Z.of_nat i) < max;
}.

Lemma made_same c O B sc max l l' : same_memory l l' -> made c O B sc max l -> made c O B sc max l'.
Proof.
  intros Hm [M1 M2]. pose proof (memory_length _ _ Hm) as Hlen. split; [|by rewrite Hlen].
  intros i sp' Hi. destruct (memory_lookup _ _ _ _ Hm Hi) as (sp & Hsp & -> & ->). by apply M1.
Qed.

(** The size of the last pool. *)
Definition last_size (sc : small_class F) (max : Z) (l : list small_mempool) : Z :=
  match l with [] => 0 | _ => Z.min (class_size sc (Z.of_nat (length l) - 1)) max end.

Lemma last_size_eq sc max l : (0 < length l)%nat -> last_size sc max l = Z.min (class_size sc (Z.of_nat (length l) - 1)) max.
Proof. by destruct l; [cbn; lia|]. Qed.

Context (c : slab_cache (src:=src)) (O B : list (Z * Z)) (Hc : hold c O B).
Context (sc : small_class F) (Hwf : small_class_wf sc) (H8 : 8 <= class_size sc 0 < 2 ^ 32).
Context (max : Z) (Hmax : 8 <= max) (Hfit : max + mslab_sizeof <= 2 ^ (lb + mx)).

(** The size of the next pool is computed without overflow, and the pool is made. *)
Lemma next_pool l : made c O B sc max l -> last_size sc max l < max ->
  small_class_calc_size_by_offset sc (Z.of_nat (length l)) = class_size sc (Z.of_nat (length l)) /\
  exists m, mempool_create c (Z.min (class_size sc (Z.of_nat (length l))) max) = Some m /\ pool_inv c m [] O B [] 0 /\
    slabs (pool_slabs m) = [] /\ objsize m = Z.min (class_size sc (Z.of_nat (length l))) max /\ 0 <= slab_order m <= mx.
Proof.
  intros Hm Hlt. pose proof (pow2_mono (lb + mx) 31 ltac:(lia)). assert (E112 : mslab_sizeof = 112) by done.
  assert (Hsz : 8 <= class_size sc (Z.of_nat (length l)) < 2 ^ 32).
  { destruct l as [|sp l]; [done|]. rewrite last_size_eq in Hlt by (cbn; lia). set (n := Z.of_nat (length (sp :: l))) in *.
    assert (1 <= n) by (unfold n; cbn; lia). pose proof (class_size_double sc Hwf (n - 1) ltac:(lia)) as Hd.
    replace (n - 1 + 1) with n in Hd by lia. pose proof (class_size_mono sc Hwf 0 n ltac:(lia)). lia. }
  split; [apply calc_size_eq; [done|lia|lia]|].
  destruct (mempool_create_inv lb mx lim Hlb Hmx Hk c O B (Z.min (class_size sc (Z.of_nat (length l))) max) Hc) as (m & E & Hp & Es); [lia|lia|].
  exists m. split_and!; try done; [by apply (mempool_create_empty c _ _ E)|..]; apply (k_shape _ _ _ _ _ _ _ _ _ _ Hp).
Qed.

Lemma made_push l sp : made c O B sc max l -> last_size sc max l < max -> pool_inv c (pool sp) [] O B [] 0 -> slabs (pool_slabs (pool sp)) = [] ->
  waste sp = 0 -> objsize (pool sp) = Z.min (class_size sc (Z.of_nat (length l))) max -> made c O B sc max (l ++ [sp]).
Proof.
  intros [M1 M2] Hlt Hp Hs Hw Ho. split.
  - intros i t Hi. apply lookup_app_Some in Hi as [Hi|[Hge Hi]]; [by apply M1|].
    apply list_lookup_singleton_Some in Hi as [Hz <-]. assert (i = length l) as -> by lia. done.
  - intros i Hi. rewrite length_app in Hi. cbn in Hi. destruct (decide (S i < length l)%nat) as [|Hn]; [by apply M2|].
    rewrite last_size_eq in Hlt by lia. replace (Z.of_nat i) with (Z.of_nat (length l) - 1) by lia. lia.
Qed.

Lemma made_sizes l : made c O B sc max l -> sizes_ok (pshape_of <$> l).
Proof.
  intros [M1 M2] i j p q (sp & Hi & ->)%shapes_lookup (sq & Hj & ->)%shapes_lookup Hlt. cbn [pshape_of ps_objsize].
  destruct (M1 i sp Hi) as (_ & _ & _ & ->). destruct (M1 j sq Hj) as (_ & _ & _ & ->).
  pose proof (M2 i ltac:(apply lookup_lt_Some in Hj; lia)). pose proof (class_size_mono sc Hwf (Z.of_nat i) (Z.of_nat j) ltac:(lia)). lia.
Qed.

(** A pool is added, in no group. *)
Lemma grouped_push l G cur sp : grouped (pshape_of <$> l) G cur -> sizes_ok (pshape_of <$> (l ++ [sp])) -> (cur <= length l)%nat ->
  group sp = None -> appropriate_pool_mask sp = 0 -> grouped (pshape_of <$> (l ++ [sp])) G cur.
Proof.
  intros [R1 R2 R3 R4 R5] Hs Hcur Hg Hm. rewrite fmap_app in *. cbn [fmap list_fmap] in *. set (L := pshape_of <$> l) in *.
  assert (HL : length L = length l) by apply length_fmap.
  assert (Hlk : forall i, (i < cur)%nat -> (L ++ [pshape_of sp]) !! i = L !! i) by (intros i Hi; apply lookup_app_l; lia).
  assert (Hout : forall i p, (L ++ [pshape_of sp]) !! i = Some p -> (cur <= i)%nat -> ps_group p = None /\ ps_mask p = 0).
  { intros i p Hi Hge. apply lookup_app_Some in Hi as [Hi|[_ Hi]]; [by apply (R4 i)|].
    apply list_lookup_singleton_Some in Hi as [_ <-]. done. }
  split; [done| | |done|done].
  - intros gi g Hgi. destruct (R2 gi g Hgi) as (G1 & G2 & G3).
    destruct (group_prefix L (L ++ [pshape_of sp]) gi g cur G1 G2 G3) as [? ?]; [rewrite length_app; lia|done| |done].
    intros i p Hi Hge. by destruct (Hout i p Hi Hge) as [-> _].
  - intros i p Hi Hlt. rewrite Hlk in Hi by done. by apply (R3 i p).
Qed.

(** The pools from [cur] on are in slabs of order [ord]. *)
Definition pending (l : list small_mempool) (cur : nat) (ord : Z) : Prop :=
  (cur < length l)%nat /\ one_order l cur (length l - 1) ord /\ 0 <= ord <= mx.

(** The assertion on the masks, and the groups from [cur] to [last]. *)
Lemma create_groups_spec (a : small_alloc) cur last ord : cache a = c -> made c O B sc max (small_mempool_cache a) -> grouped (shapes a) (small_mempool_groups a) cur -> (cur <= last < length (small_mempool_cache a))%nat ->
  (length (small_mempool_cache a) <= SMALL_MEMPOOL_MAX)%nat -> one_order (small_mempool_cache a) cur last ord -> 0 <= ord <= mx ->
  exists cp lp l' G, small_mempool_cache a !! cur = Some cp /\ small_mempool_cache a !! last = Some lp /\
    slab_ptr_mask (pool cp) = slab_ptr_mask (pool lp) /\
    small_mempool_create_groups a cur last = Some (set_pools (set_groups a G) l') /\
    same_memory (small_mempool_cache a) l' /\ grouped (pshape_of <$> l') G (S last).
Proof.
  intros Ec Hm Hg Hr Hlen Hord Ho. destruct (hold_geometry lb mx lim c O B Hc) as [_ Hos].
  destruct (lookup_lt_is_Some_2 (small_mempool_cache a) cur) as [cp Hcp]; [lia|].
  destruct (lookup_lt_is_Some_2 (small_mempool_cache a) last) as [lp Hlp]; [lia|].
  assert (Hmask : forall i sp, small_mempool_cache a !! i = Some sp -> slab_ptr_mask (pool sp) = Z.lnot (osize lb (slab_order (pool sp)) - 1)).
  { intros i sp Hi. destruct (md_pool _ _ _ _ _ _ Hm i sp Hi) as (Hp & _). apply (k_shape _ _ _ _ _ _ _ _ _ _ Hp). }
  destruct (create_groups_loop_spec last ord (osize lb ord) (S last - cur) a cur) as (l' & G & E & Hmem & Hg'); try done; [lia|lia|by rewrite Ec; apply Hos| |].
  { unfold osize. apply Z.pow_nonneg. lia. }
  exists cp, lp, l', G. split_and!; try done. rewrite (Hmask cur cp Hcp), (Hmask last lp Hlp), (Hord cur cp Hcp), (Hord last lp Hlp) by lia. done.
Qed.

Definition loop_ready (l : list small_mempool) (cur : nat) (ord : Z) (first : bool) : Prop :=
  if first then l = [] /\ cur = 0%nat else pending l cur ord.

Lemma create_loop_spec fuel : forall (a : small_alloc) ord cur first, cache a = c -> sclass a = sc -> objsize_max a = max ->
  made c O B sc max (small_mempool_cache a) -> grouped (shapes a) (small_mempool_groups a) cur ->
  (length (small_mempool_cache a) + fuel = SMALL_MEMPOOL_MAX)%nat -> loop_ready (small_mempool_cache a) cur ord first ->
  exists l G cur', create_loop fuel a (last_size sc max (small_mempool_cache a)) ord cur first =
      Some (set_pools (set_groups a G) l, last_size sc max l, cur') /\
    made c O B sc max l /\ grouped (pshape_of <$> l) G cur' /\
    (length (small_mempool_cache a) <= length l <= SMALL_MEMPOOL_MAX)%nat /\
    ((0 < fuel)%nat \/ first = false -> exists ord', pending l cur' ord').
Proof.
  induction fuel as [|fuel IH]; intros a ord cur first Ec Es Em Hm Hg Hlen Hrd; cbn [create_loop].
  { exists (small_mempool_cache a), (small_mempool_groups a), cur. split; [by destruct a|]. split_and!; [done|done|lia|lia|].
    intros [?| ->]; [lia|]. by exists ord. }
  rewrite Em, Es, Ec. destruct (Z.ltb_spec (last_size sc max (small_mempool_cache a)) max) as [Hlt|Hge].
  2:{ exists (small_mempool_cache a), (small_mempool_groups a), cur. split; [by destruct a|]. split_and!; [done|done|lia|lia|].
      intros _. destruct first; [|by exists ord]. destruct Hrd as [E0 _]. rewrite E0 in Hge. cbn in Hge. lia. }
  set (l0 := small_mempool_cache a) in *. destruct (next_pool l0 Hm Hlt) as (-> & m & Em' & Hp & Hsl & Hsz & Ho).
  assert (Emin : forall x, (if x >? max then max else x) = Z.min x max) by (intros x; destruct (Z.gtb_spec x max); lia).
  rewrite Emin, Em'. cbn [mbind option_bind]. set (sp := SmallMempool m _ None None 0 0). set (a1 := set_pools a (l0 ++ [sp])).
  assert (Hm1 : made c O B sc max (l0 ++ [sp])) by (by apply made_push).
  assert (Hlen1 : length (l0 ++ [sp]) = S (length l0)) by (rewrite length_app; cbn; lia).
  assert (Els : Z.min (class_size sc (Z.of_nat (length l0))) max = last_size sc max (l0 ++ [sp])).
  { rewrite last_size_eq, Hlen1 by lia. by replace (Z.of_nat (S (length l0)) - 1) with (Z.of_nat (length l0)) by lia. }
  rewrite Els. assert (Hcur : (cur <= length l0)%nat) by (destruct first; [destruct Hrd as [_ ->]; lia|destruct Hrd; lia]).
  assert (Hg1 : grouped (shapes a1) (small_mempool_groups a1) cur) by (by apply grouped_push; [|apply made_sizes|..]).
  set (oc := if first then slab_order m else ord). destruct (Z.eqb_spec (slab_order m) oc) as [Eo|Ho']; cbn [negb].
  - (* the same order *)
    destruct (IH a1 oc cur false Ec Es Em Hm1 Hg1) as (l & G & cur' & E & H1 & H2 & H3 & H4); [cbn [a1 set_pools small_mempool_cache]; lia| |].
    { cbn [a1 set_pools small_mempool_cache loop_ready]. split; [|split]; [rewrite Hlen1; lia| |by rewrite <- Eo].
      intros k t Hk' Hr. apply lookup_app_Some in Hk' as [Hk'|[_ Hk']].
      - unfold oc. destruct first; [by destruct Hrd as [-> _]|]. destruct Hrd as (_ & Hone & _).
        apply (Hone k t Hk'). apply lookup_lt_Some in Hk'. lia.
      - apply list_lookup_singleton_Some in Hk' as [_ <-]. done. }
    exists l, G, cur'. split; [exact E|]. cbn [a1 set_pools small_mempool_cache] in H3. split_and!; [done|done|lia|lia|]. intros _. apply H4. by right.
  - (* a new order *)
    destruct first; [done|]. destruct Hrd as (Hlt0 & Hone & Hord). change (small_mempool_cache a1) with (l0 ++ [sp]).
    destruct (create_groups_spec a1 cur (length l0 - 1) ord Ec Hm1) as (cp & lp & l' & G & E1 & E2 & E3 & E4 & Hmem & Hg2); try done.
    { cbn [a1 set_pools small_mempool_cache]. lia. }
    { cbn [a1 set_pools small_mempool_cache]. lia. }
    { intros k t Hk' Hr. cbn [a1 set_pools small_mempool_cache] in Hk'. rewrite lookup_app_l in Hk' by lia. by apply (Hone k t). }
    cbn [a1 set_pools small_mempool_cache] in E1, E2, Hmem. rewrite E1. cbn [mbind option_bind]. rewrite E2. cbn [mbind option_bind]. rewrite E3, Z.eqb_refl, E4.
    cbn [mbind option_bind]. pose proof (memory_length _ _ Hmem) as Hlen2. replace (S (length l0 - 1)) with (length l0) in Hg2 by lia.
    assert (Els2 : last_size sc max (l0 ++ [sp]) = last_size sc max l') by (rewrite !last_size_eq, Hlen2 by lia; done). rewrite Els2.
    destruct (IH (set_pools (set_groups a1 G) l') (slab_order m) (length l0) false Ec Es Em) as (l & G' & cur' & E & H1 & H2 & H3 & H4); try done.
    { by apply (made_same c O B sc max (l0 ++ [sp])). }
    { cbn [set_pools small_mempool_cache]. lia. }
    { cbn [set_pools small_mempool_cache]. split; [lia|split; [|done]]. intros k t Hk' Hr. destruct (memory_lookup _ _ _ _ Hmem Hk') as (t0 & Ht0 & -> & _).
      apply lookup_app_Some in Ht0 as [Ht0|[_ Ht0]]; [apply lookup_lt_Some in Ht0; lia|]. apply list_lookup_singleton_Some in Ht0 as [_ <-]. done. }
    exists l, G', cur'. split; [exact E|]. cbn [set_pools small_mempool_cache] in H3. split_and!; [done|done|lia|lia|]. intros _. apply H4. by right.
Qed.

Lemma grouped_nil : grouped [] [] 0.
Proof. by split. Qed.

(** All pools are in groups: the layout is complete. *)
Lemma layout_made l G : made c O B sc max l -> grouped (pshape_of <$> l) G (length l) -> (0 < length l)%nat ->
  layout sc (last_size sc max l) (pshape_of <$> l) G.
Proof.
  intros [M1 M2] [R1 R2 R3 R4 R5] Hlen. rewrite last_size_eq by done. set (n := Z.of_nat (length l)).
  assert (Hn : 8 <= class_size sc (n - 1)).
  { destruct (decide (n = 1)) as [->|Hne]; [apply H8|]. pose proof (class_size_mono sc Hwf 0 (n - 1) ltac:(lia)). lia. }
  split; try done.
  - intros gi g Hg. by destruct (R2 gi g Hg) as (? & ? & _).
  - intros i p Hi. apply (R3 i p Hi). apply lookup_lt_Some in Hi. by rewrite length_fmap in Hi.
  - intros i p (sp & Hi & ->)%shapes_lookup. destruct (M1 i sp Hi) as (_ & _ & _ & E). cbn [pshape_of ps_objsize]. rewrite E.
    apply lookup_lt_Some in Hi. destruct (decide (S i = length l)) as [Ei|Hne]; [replace (Z.of_nat i) with (n - 1) by lia; lia|].
    pose proof (M2 i ltac:(lia)). pose proof (class_size_mono sc Hwf (Z.of_nat i) (n - 1) ltac:(lia)). lia.
  - rewrite length_fmap. fold n. pose proof (pow2_mono (lb + mx) 31 ltac:(lia)). change mslab_sizeof with 112 in Hfit. split_and!; lia.
Qed.

Lemma small_mempool_create_spec (f : F) : exists l G,
  let a := SmallAlloc c l G f sc (last_size sc max l) in
  small_mempool_create (SmallAlloc c [] [] f sc max) = Some a /\ small_inv a O B [] /\
  (forall i sp, l !! i = Some sp -> slabs (pool_slabs (pool sp)) = [] /\ waste sp = 0) /\ (0 < length l <= SMALL_MEMPOOL_MAX)%nat.
Proof.
  unfold small_mempool_create. set (a0 := SmallAlloc c [] [] f sc max).
  assert (Hm0 : made c O B sc max []) by (split; [done|cbn; lia]).
  destruct (create_loop_spec SMALL_MEMPOOL_MAX a0 0 0 true) as (l & G & cur & E & Hm & Hg & Hlen & Hp); try done.
  change (last_size sc max (small_mempool_cache a0)) with 0 in E. rewrite E. cbn [mbind option_bind].
  destruct Hp as (ord & Hcur & Hone & Hord); [left; unfold SMALL_MEMPOOL_MAX; lia|].
  destruct (create_groups_spec (set_pools (set_groups a0 G) l) cur (length l - 1) ord) as (cp & lp & l' & G' & E1 & E2 & E3 & E4 & Hmem & Hg2); try done.
  { cbn [set_pools small_mempool_cache]. lia. }
  { cbn [set_pools small_mempool_cache]. lia. }
  cbn [set_pools small_mempool_cache] in *. rewrite E1. cbn [mbind option_bind]. rewrite E2. cbn [mbind option_bind]. rewrite E3, Z.eqb_refl, E4. cbn [mbind option_bind].
  pose proof (memory_length _ _ Hmem) as Hl'. pose proof (made_same _ _ _ _ _ _ _ Hmem Hm) as Hm'. replace (S (length l - 1)) with (length l') in Hg2 by lia.
  assert (Els : last_size sc max l = last_size sc max l') by (rewrite !last_size_eq, Hl' by lia; done). rewrite Els.
  assert (Hempty : forall i sp, l' !! i = Some sp -> slabs (pool_slabs (pool sp)) = [] /\ waste sp = 0).
  { intros i sp Hi. by destruct (md_pool _ _ _ _ _ _ Hm' i sp Hi) as (_ & ? & ? & _). }
  exists l', G'. split; [done|]. split; [|split; [done|lia]]. split.
  - constructor; cbn [set_pools small_mempool_cache sclass objsize_max small_mempool_groups cache].
    + apply layout_made; [done|done|lia].
    + eapply (hold_perm' lb mx lim); [|exact Hc]. enough (owned_by l' = []) as -> by done. unfold owned_by.
      destruct (l' ≫= _) as [|x rest] eqn:El; [done|]. exfalso.
      assert (Hx : x ∈ l' ≫= (fun sp => owned (pool sp))) by (rewrite El; left). apply list_elem_of_bind in Hx as (sp & Hx & Hsp).
      apply list_elem_of_lookup in Hsp as [i Hi]. destruct (Hempty i sp Hi) as [Es _]. unfold owned in Hx. rewrite Es in Hx. by apply elem_of_nil in Hx.
    + intros i sp Hi. destruct (md_pool _ _ _ _ _ _ Hm' i sp Hi) as (Hp & _). by eexists c, O, B.
    + intros x Hx. by apply elem_of_nil in Hx.
  - intros i sp Hi. cbn [small_mempool_cache] in Hi. destruct (Hempty i sp Hi) as [_ ->]. cbn. lia.
Qed.
End Create.

(** ** [small_alloc_create] *)
Section Entry.
Context {src : Type} `{!SlabSource src}
  {inv : Z -> Z -> src -> list Z -> list (Z * Z) -> list Z -> Prop} `{!SlabSourceLaws inv} {F : Type}.
Context (lb mx lim : Z) (Hlb : 12 <= lb) (Hmx : 0 <= mx <= 15) (Hk : lb + mx <= 31).
Local Abbreviation hold := (hold (inv:=inv) lb mx lim).
Local Abbreviation small_inv := (small_inv (inv:=inv) lb mx lim).

(** The largest object size before the classes are made. *)
Lemma objsize_max_bounds k : 0 <= k < lb + mx ->
  let x := u32 (mempool_objsize_max (2 ^ (lb + mx))) in
  8 <= x /\ x + 2 ^ k < 2 ^ 32 /\ x + 2 ^ k + mslab_sizeof <= 2 ^ (lb + mx).
Proof.
  intros Hk' x. subst x. pose proof (pow2_mono (lb + mx) 31 ltac:(lia)). pose proof (pow2_mono 12 (lb + mx) ltac:(lia)) as H12.
  assert (H2k : 2 * 2 ^ k <= 2 ^ (lb + mx)) by (rewrite <- Z.pow_succ_r by lia; apply pow2_mono; lia). pose proof (pow2_pos k ltac:(lia)).
  set (M := 2 ^ (lb + mx)) in *. change (2 ^ 12) with 4096 in H12. unfold mempool_objsize_max. change mslab_sizeof with 112.
  rewrite (u32_small (M - 112)) by lia. set (y := (M - 112) / 16).
  assert (Hy : 16 * y <= M - 112 < 16 * y + 16) by (unfold y; pose proof (Z.div_mod (M - 112) 16 ltac:(lia)); pose proof (Z.mod_pos_bound (M - 112) 16 ltac:(lia)); lia).
  change (Z.land y (u64 (Z.lnot (8 - 1)))) with (small_align_down y (2 ^ 3)). rewrite small_align_down_eq by (unfold in_u; lia).
  pose proof (Z.mod_pos_bound y (2 ^ 3) ltac:(lia)). rewrite u32_small by lia. lia.
Qed.

(** The arguments [small_alloc_create] accepts: a granularity that is a power of
    two and fits, objects not below a pointer, and a factor its size classes
    accept. *)
Definition create_args (fo : float_ops F) (omin k : Z) (f : F) (sc : small_class F) : Prop :=
  0 <= k < lb + mx /\ 8 <= omin /\ 2 ^ k <= omin /\ omin + 2 ^ k < 2 ^ 32 /\
  small_class_create fo (2 ^ k) f (small_align omin (2 ^ k)) = Some sc /\ ignore_bits_count sc + effective_bits sc < 32.

Lemma small_alloc_create_spec (c : slab_cache (src:=src)) O B fo omin k f sc : hold c O B -> create_args fo omin k f sc ->
  exists l G max, let a := SmallAlloc c l G f sc (last_size sc max l) in
    small_alloc_create fo c omin (2 ^ k) f = Some a /\ small_inv a O B [] /\
    max = small_align (u32 (mempool_objsize_max (2 ^ (lb + mx)))) (2 ^ k) /\
    (forall i sp, l !! i = Some sp -> slabs (pool_slabs (pool sp)) = [] /\ waste sp = 0) /\ (0 < length l <= SMALL_MEMPOOL_MAX)%nat.
Proof.
  intros Hc (Hk' & H8 & Hko & Ho & Esc & Hbits). destruct (hold_geometry lb mx lim c O B Hc) as [Emx Hos]. pose proof (pow2_pos k ltac:(lia)).
  destruct (objsize_max_bounds k Hk') as (M1 & M2 & M3). set (x := u32 (mempool_objsize_max (2 ^ (lb + mx)))) in *.
  unfold small_alloc_create. rewrite small_align_ok_pow2 by lia. destruct (small_align_bounds omin k) as [A1 _]; [lia|lia|lia|].
  rewrite (u32_small (small_align omin (2 ^ k))) by lia. rewrite Emx, (Hos mx) by lia. cbn [mbind option_bind].
  change (osize lb mx) with (2 ^ (lb + mx)). fold x. rewrite small_align_ok_pow2 by lia.
  destruct (small_align_bounds x k) as [A2 _]; [lia|lia|lia|]. rewrite (u32_small (small_align x (2 ^ k))) by lia.
  rewrite u32_small by lia. fold (pow2b (2 ^ k)). rewrite pow2b_pow2 by lia. rewrite Esc.
  destruct (small_class_create_wf fo (2 ^ k) f (small_align omin (2 ^ k)) sc) as (Hwf & Eg & Esh); [unfold in_u; lia|unfold in_u; lia|lia|done|done|].
  assert (Hff : fgt fo f (f_of_int fo 1) && fle fo f (f_of_int fo 2) = true).
  { unfold small_class_create in Esc. destruct (2 ^ k >? 0); [|done]. destruct (Z.land _ _ =? 0); [|done].
    destruct (fgt _ _ _); [|done]. by destruct (fle _ _ _). }
  rewrite Hff. cbn [mbind option_bind].
  destruct (small_mempool_create_spec lb mx lim Hlb Hmx Hk c O B Hc sc Hwf) with (max := small_align x (2 ^ k)) (f := f) as (l & G & E & Hi & He & Hl).
  - rewrite class_size_first, Eg by done. lia.
  - lia.
  - lia.
  - exists l, G, (small_align x (2 ^ k)). split_and!; done || lia.
Qed.
End Entry.
