(* ===== verification/SmallProps.v ===== *)
(** * Properties of the allocator of objects of any size

    What [smalloc], [smfree] and the rest of [Small] promise to their callers, by
    the invariant of [SmallAlloc] that [SmallCreate] establishes. *)
From S2P Require Import Prelude Util SmallClass SlabSource SlabCache Rb RbUpdate RbQuery Mempool Small SmallAlloc SmallCreate.

Section Props.
Context {src : Type} `{!SlabSource src}
  {inv : Z -> Z -> src -> list Z -> list (Z * Z) -> list Z -> Prop} `{!SlabSourceLaws inv} {F : Type}.
Context (lb mx lim : Z) (Hlb : 12 <= lb) (Hmx : 0 <= mx <= 15) (Hk : lb + mx <= 31).
Local Abbreviation small_alloc := (small_alloc (src:=src) (F:=F)).
Local Abbreviation hold := (hold (inv:=inv) lb mx lim).
Local Abbreviation small_inv := (small_inv (inv:=inv) lb mx lim).
Local Abbreviation shapes a := (pshape_of <$> small_mempool_cache a).

(** C12. [smalloc] of any size either returns NULL and every object handed out stays
    as it was, or returns memory of at least that size that overlaps no object
    handed out before; [small_alloc_info] reports the memory there really is, and
    whether it is a slab of its own, which it is for the sizes above
    [objsize_max] only. *)
Theorem smalloc_correct (a : small_alloc) O B live n : small_inv a O B live -> few a -> waste_room a -> small_fits lim a n ->
  exists ptr a', smalloc a n = Some (ptr, a') /\
    ((ptr = NULL /\ small_inv a' O B live) \/
     exists x, 0 < ptr /\ obj_ptr x = ptr /\ obj_size x = n /\ small_inv a' O B (x :: live) /\
       small_alloc_info a' ptr n = Some (SmallAllocInfo (in_slab x) (extent a' x)) /\ n <= extent a' x /\
       (in_slab x = true <-> objsize_max a' < n) /\ (forall y, y ∈ live -> apart_objs a' x y)).
Proof.
  intros Hi Hf Hw Hn. destruct (smalloc_spec lb mx lim Hlb Hmx Hk a O B live n Hi Hf Hw Hn) as (ptr & a' & E & H).
  exists ptr, a'. split; [done|]. destruct H as [H|(x & Hp & <- & <- & Hi')]; [by left|right]. exists x. destruct Hi' as [Hv' Hw'].
  destruct (small_alloc_info_spec lb mx lim Hlb Hmx Hk a' O B (x :: live) x Hv' ltac:(left)) as [Ei Hle].
  split_and!; try done.
  - destruct (v_obj _ _ _ _ _ _ _ Hv' x ltac:(left)) as [_ Hx]. destruct x as [p m c j|p m]; cbn [in_slab obj_size] in *.
    + destruct Hx as [Hx _]. unfold small_mempool_search in Hx. destruct (Z.gtb_spec m (objsize_max a')); [done|]. split; [done|lia].
    + unfold small_mempool_search in Hx. destruct (Z.gtb_spec m (objsize_max a')); [|done]. split; [done|done].
  - intros y Hy. by apply (objs_are_apart lb mx lim Hlb Hmx Hk a' O B [] x live y Hv').
Qed.

(** C13. [smfree] of any object handed out, with the size it was asked for, finds
    the pool the object came from, though that may be another pool of the group
    than the one of its size; no assertion fails, the waste counter of the size
    covers what the object wasted, and the other objects stay as they were. *)
Theorem smfree_correct (a : small_alloc) O B l1 x l2 : small_inv a O B (l1 ++ x :: l2) -> few a ->
  exists a', smfree a (obj_ptr x) (obj_size x) = Some a' /\ small_inv a' O B (l1 ++ l2).
Proof. by apply smfree_spec. Qed.

(** Every size up to [objsize_max] has a pool that is the best fit for it; that
    pool allocates from the first active pool of its group from itself on, whose
    objects are not smaller, and in whose slabs the mask of the best fit finds the
    header. *)
Theorem small_pool_for_size (a : small_alloc) O B live n : small_inv a O B live -> 0 <= n <= objsize_max a ->
  exists c sp u up gi g, small_mempool_search a n = Some c /\ small_mempool_cache a !! c = Some sp /\
    n <= objsize (pool sp) /\ (forall i t, (i < c)%nat -> small_mempool_cache a !! i = Some t -> objsize (pool t) < n) /\
    used_pool sp = Some u /\ small_mempool_cache a !! u = Some up /\ group_of a c = Some (gi, g) /\ group up = Some gi /\ lends g c u /\
    objsize (pool sp) <= objsize (pool up) /\ slab_ptr_mask (pool sp) = slab_ptr_mask (pool up).
Proof.
  intros [Hv _] Hn. destruct (mempool_search_spec lb mx lim a O B live n Hv Hn) as (c & sp & Es & Hc & Hsz).
  destruct (group_of_in _ _ a c sp (v_layout _ _ _ _ _ _ _ Hv) Hc) as (gi & g & Esg & Eg & Hgi & Hin & Gok & Gu).
  destruct (Gu c _ (shapes_of _ _ _ Hc) Hin) as (u & Eu & Hlends). destruct Hlends as [Hcu Hlends].
  destruct (go_range _ _ _ Gok) as [[_ R] _]. rewrite length_fmap in R.
  destruct (lookup_lt_is_Some_2 (small_mempool_cache a) u) as [up Hup]; [lia|].
  assert (Eup : group up = Some gi) by (apply (go_pool _ _ _ Gok u _ (shapes_of _ _ _ Hup)); unfold in_group in *; lia).
  exists c, sp, u, up, gi, g. split_and!; try done; try lia.
  - intros i t Hi Ht. by apply (search_best lb mx lim a O B live n c i t Hv); [lia|..].
  - exact (size_le lb mx lim a O B live c u sp up Hv Hc Hup ltac:(lia)).
  - exact (group_mask lb mx lim a O B live c u sp up Hv Hc Hup ltac:(congruence)).
Qed.

(** C14. [small_alloc_create] returns for every accepted argument, with at most
    1024 pools, empty ones, in complete groups.  Whatever was allocated and freed
    since, [small_stats] reports the bytes of the objects of the pools, and
    [small_alloc_destroy] returns the slabs of all pools to the cache: only the
    slabs of large objects stay out. *)
Theorem small_alloc_lifecycle (c : slab_cache (src:=src)) O B fo omin k (f : F) sc : hold c O B -> create_args lb mx fo omin k f sc ->
  exists a : small_alloc, small_alloc_create fo c omin (2 ^ k) f = Some a /\ small_inv a O B [] /\ few a /\ waste_room a /\
    (0 < length (small_mempool_cache a) <= SMALL_MEMPOOL_MAX)%nat /\
    objsize_max a <= small_align (u32 (mempool_objsize_max (2 ^ (lb + mx)))) (2 ^ k) /\
    forall (a' : small_alloc) O' B' live, small_inv a' O' B' live ->
      (stats_fit a' -> forall S (cb : mempool_stats_t -> S -> bool * S) st, (forall s st, (cb s st).1 = false) ->
         exists t st', small_stats_of a' cb st = Some (SmallStats (u64 (zsum (pool_bytes (shapes a')) live)) t, st')) /\
      exists c', small_alloc_destroy a' = Some c' /\ hold c' O' (large live ++ B').
Proof.
  intros Hc Ha. destruct (small_alloc_create_spec lb mx lim Hlb Hmx Hk c O B fo omin k f sc Hc Ha) as (l & G & max & E & Hi & Emax & Hempty & Hlen).
  eexists. split; [exact E|]. split; [done|]. split_and!.
  - intros i sp Hsp. destruct (Hempty i sp Hsp) as [-> _]. cbn. lia.
  - intros i sp Hsp. destruct (Hempty i sp Hsp) as [_ ->]. lia.
  - apply Hlen.
  - apply Hlen.
  - cbn [objsize_max]. rewrite last_size_eq by lia. lia.
  - intros a' O' B' live [Hv' _]. split; [|by apply small_alloc_destroy_spec].
    intros Hfit S cb st Hcb. by apply (small_stats_spec lb mx lim Hlb Hmx Hk a' O' B' live cb st Hv').
Qed.
End Props.

(** ** A concrete allocator

    Granularity 8 and 16 size classes per doubling over an arena of slabs of
    64 KiB. *)
Definition example_small : small_alloc (src:=_) (F:=unit) :=
  default (SmallAlloc example_cache [] [] tt sc_example 0) (small_alloc_create fo_example example_cache 16 8 tt).

Lemma example_args : create_args 12 4 fo_example 16 3 tt sc_example.
Proof. unfold create_args. split_and!; try lia; try reflexivity; vm_compute; discriminate. Qed.

Lemma example_small_inv : small_alloc_create fo_example example_cache 16 8 tt = Some example_small /\
  small_inv (inv:=host_inv) 12 4 100000 example_small [] [] [] /\ few example_small /\ waste_room example_small.
Proof.
  destruct (small_alloc_create_spec (inv:=host_inv) 12 4 100000 ltac:(lia) ltac:(lia) ltac:(lia) example_cache [] [] fo_example 16 3 tt sc_example
    example_hold example_args) as (l & G & max & E & Hi & Emax & Hempty & Hlen).
  change (2 ^ 3) with 8 in E. unfold example_small. rewrite E. cbn [default from_option id]. split; [reflexivity|]. split; [exact Hi|].
  split; intros i sp Hsp; destruct (Hempty i sp Hsp) as [E1 E2]; [rewrite E1; cbn; lia|rewrite E2; lia].
Qed.

Lemma smalloc_correct_witness :
  (smalloc example_small 100 ≫= fun '(ptr, a') => small_alloc_info a' ptr 100) = Some (SmallAllocInfo false 160) /\
  exists ptr a', smalloc example_small 100 = Some (ptr, a') /\
    ((ptr = NULL /\ small_inv (inv:=host_inv) 12 4 100000 a' [] [] []) \/
     exists x, 0 < ptr /\ small_inv (inv:=host_inv) 12 4 100000 a' [] [] [x]).
Proof.
  split; [vm_compute; reflexivity|]. destruct example_small_inv as (_ & Hi & Hf & Hw).
  destruct (smalloc_correct (inv:=host_inv) 12 4 100000 ltac:(lia) ltac:(lia) ltac:(lia) example_small [] [] [] 100 Hi Hf Hw) as (ptr & a' & E & H).
  { split; [lia|]. left. vm_compute. discriminate. }
  exists ptr, a'. split; [exact E|]. destruct H as [H|(x & Hp & _ & _ & H & _)]; [left; exact H|right]. exists x. split; [exact Hp|exact H].
Defined.

(** The allocator with one object of 100 bytes handed out. *)
Definition example_taken : Z * small_alloc (src:=_) (F:=unit) := default (NULL, example_small) (smalloc example_small 100).

Lemma fewb_spec {src F} (a : small_alloc (src:=src) (F:=F)) :
  forallb (fun sp => Z.of_nat (length (slabs (pool_slabs (pool sp)))) + 1 <? 2 ^ 62) (small_mempool_cache a) = true -> few a.
Proof.
  intros H i sp Hi. rewrite forallb_forall in H. apply Z.ltb_lt, H. apply list_elem_of_In. by eapply list_elem_of_lookup_2.
Qed.

Lemma example_taken_inv : exists x, obj_ptr x = example_taken.1 /\ obj_size x = 100 /\
  small_inv (inv:=host_inv) 12 4 100000 example_taken.2 [] [] [x] /\ few example_taken.2.
Proof.
  destruct example_small_inv as (_ & Hi & Hf & Hw).
  destruct (smalloc_spec (inv:=host_inv) 12 4 100000 ltac:(lia) ltac:(lia) ltac:(lia) example_small [] [] [] 100 Hi Hf Hw) as (ptr & a' & E & H).
  { split; [lia|]. left. vm_compute. discriminate. }
  assert (Hnz : (if smalloc example_small 100 is Some (p, a) then negb (p =? 0) &&
    forallb (fun sp => Z.of_nat (length (slabs (pool_slabs (pool sp)))) + 1 <? 2 ^ 62) (small_mempool_cache a) else false) = true)
    by (vm_compute; reflexivity).
  unfold example_taken. rewrite E in *. cbn [default from_option id fst snd]. apply andb_true_iff in Hnz as [Hnz Hfew].
  destruct H as [[-> _]|(x & _ & Ex & En & H)]; [discriminate Hnz|]. exists x. split; [exact Ex|]. split; [exact En|]. split; [exact H|].
  apply fewb_spec. exact Hfew.
Qed.

Lemma smfree_correct_witness :
  exists a', smfree example_taken.2 example_taken.1 100 = Some a' /\ small_inv (inv:=host_inv) 12 4 100000 a' [] [] [].
Proof.
  destruct example_taken_inv as (x & Ex & En & Hi & Hf). rewrite <- Ex, <- En.
  exact (smfree_correct (inv:=host_inv) 12 4 100000 ltac:(lia) ltac:(lia) ltac:(lia) example_taken.2 [] [] [] x [] Hi Hf).
Defined.

Lemma small_pool_for_size_witness :
  (sp ← small_mempool_cache example_small !! 11%nat; used_pool sp) = Some 18%nat /\ small_mempool_search example_small 100 = Some 11%nat /\
  exists c sp u up, small_mempool_search example_small 100 = Some c /\ small_mempool_cache example_small !! c = Some sp /\
    used_pool sp = Some u /\ small_mempool_cache example_small !! u = Some up /\ objsize (pool sp) <= objsize (pool up).
Proof.
  split; [vm_compute; reflexivity|]. split; [vm_compute; reflexivity|].
  destruct (small_pool_for_size (inv:=host_inv) 12 4 100000 example_small [] [] [] 100) as
    (c & sp & u & up & gi & g & E1 & E2 & _ & _ & E3 & E4 & _ & _ & _ & E5 & _).
  { exact (proj1 (proj2 example_small_inv)). }
  { split; vm_compute; discriminate. }
  exists c, sp, u, up. split; [exact E1|]. split; [exact E2|]. split; [exact E3|]. split; [exact E4|exact E5].
Defined.

Lemma small_alloc_lifecycle_witness :
  length (small_mempool_cache example_small) = 96%nat /\
  exists a, small_alloc_create fo_example example_cache 16 (2 ^ 3) tt = Some a /\ exists c', small_alloc_destroy a = Some c'.
Proof.
  split; [vm_compute; reflexivity|].
  destruct (small_alloc_lifecycle (inv:=host_inv) 12 4 100000 ltac:(lia) ltac:(lia) ltac:(lia) example_cache [] [] fo_example 16 3 tt sc_example
    example_hold example_args) as (a & E & Hi & _ & _ & _ & _ & H).
  exists a. split; [exact E|]. destruct (H a [] [] [] Hi) as [_ (c' & E' & _)]. exists c'. exact E'.
Defined.
