(* ===== verification/Bytes.v ===== *)
(** * Bytes in memory

    The contents of memory as a function from addresses, for the allocators that
    move data: [memmove], [memcpy], and the string of bytes at an address. *)
From S2P Require Import Prelude.

Definition memory : Type := Z -> Z.

Definition memmove (M : memory) (dst src n : Z) : memory :=
  fun a => if (dst <=? a) && (a <? dst + n) then M (src + (a - dst)) else M a.

(** [memcpy] of regions that overlap is undefined. *)
Definition memcpy (M : memory) (dst src n : Z) : option memory :=
  ASSERT (n <=? 0) || (dst + n <=? src) || (src + n <=? dst);
  Some (memmove M dst src n).

Definition memset (M : memory) (p x n : Z) : memory :=
  fun a => if (p <=? a) && (a <? p + n) then x else M a.

(** The [n] bytes at [p], and [l] written at [p]. *)
Definition load (M : memory) (p n : Z) : list Z := M <$> seqZ p n.
Definition store (M : memory) (p : Z) (l : list Z) : memory :=
  fun a => if (p <=? a) && (a <? p + Z.of_nat (length l)) then nth (Z.to_nat (a - p)) l 0 else M a.

(** [M'] differs from [M] only in the [n] bytes at [p]. *)
Definition same_outside (M M' : memory) (p n : Z) : Prop := forall a, ~ p <= a < p + n -> M' a = M a.

Lemma load_length M p n : length (load M p n) = Z.to_nat n.
Proof. unfold load. by rewrite length_fmap, length_seqZ. Qed.

Lemma load_nil M p : load M p 0 = [].
Proof. done. Qed.

Lemma load_app M p n m : 0 <= n -> 0 <= m -> load M p (n + m) = load M p n ++ load M (p + n) m.
Proof. intros Hn Hm. unfold load. rewrite seqZ_app by done. apply fmap_app. Qed.

Lemma load_ext M M' p n : (forall a, p <= a < p + n -> M' a = M a) -> load M' p n = load M p n.
Proof.
  intros HM. unfold load. apply list_fmap_ext. intros i a Ha. apply HM.
  apply lookup_seqZ in Ha as [-> Hi]. lia.
Qed.

Lemma load_same M M' p n q m : same_outside M M' p n -> q + m <= p \/ p + n <= q -> load M' q m = load M q m.
Proof. intros HM Hd. apply load_ext. intros a Ha. apply HM. lia. Qed.

Lemma load_shift M M' p q n : (forall i, 0 <= i < n -> M' (q + i) = M (p + i)) -> load M' q n = load M p n.
Proof.
  intros HM. apply list_eq. intros i. unfold load. rewrite !list_lookup_fmap.
  destruct (decide (Z.of_nat i < n)) as [Hi|Hi].
  - rewrite !lookup_seqZ_lt by lia. cbn [fmap option_fmap option_map]. f_equal. apply HM. lia.
  - by rewrite !lookup_seqZ_ge by lia.
Qed.

Lemma load_memmove M dst src n : load (memmove M dst src n) dst n = load M src n.
Proof.
  apply load_shift. intros i Hi. unfold memmove.
  rewrite (proj2 (Z.leb_le _ _)), (proj2 (Z.ltb_lt _ _)) by lia. cbn [andb]. f_equal. lia.
Qed.

Lemma memmove_outside M dst src n : same_outside M (memmove M dst src n) dst n.
Proof.
  intros a Ha. unfold memmove. destruct (Z.leb_spec dst a), (Z.ltb_spec a (dst + n)); cbn [andb]; (done || lia).
Qed.

Lemma memset_outside M p x n : same_outside M (memset M p x n) p n.
Proof.
  intros a Ha. unfold memset. destruct (Z.leb_spec p a), (Z.ltb_spec a (p + n)); cbn [andb]; (done || lia).
Qed.

Lemma store_outside M p l : same_outside M (store M p l) p (Z.of_nat (length l)).
Proof.
  intros a Ha. unfold store. destruct (Z.leb_spec p a), (Z.ltb_spec a (p + Z.of_nat (length l)));
    cbn [andb]; (done || lia).
Qed.

Lemma load_store M p l : load (store M p l) p (Z.of_nat (length l)) = l.
Proof.
  apply list_eq. intros i. unfold load. rewrite list_lookup_fmap.
  destruct (decide (i < length l)%nat) as [Hi|Hi].
  - rewrite lookup_seqZ_lt by lia. cbn [fmap option_fmap option_map]. unfold store.
    rewrite (proj2 (Z.leb_le _ _)), (proj2 (Z.ltb_lt _ _)) by lia. cbn [andb].
    replace (Z.to_nat (p + Z.of_nat i - p)) with i by lia.
    destruct (lookup_lt_is_Some_2 l i Hi) as [x Hx]. rewrite Hx. f_equal. by apply nth_lookup_Some.
  - rewrite lookup_seqZ_ge by lia. symmetry. apply lookup_ge_None. lia.
Qed.

Lemma load_store_eq M p l n : Z.of_nat (length l) = n -> load (store M p l) p n = l.
Proof. intros <-. apply load_store. Qed.

Lemma load_drop M p n m : 0 <= m <= n -> load M (p + m) (n - m) = drop (Z.to_nat m) (load M p n).
Proof.
  intros Hm. replace n with (m + (n - m)) at 2 by lia. rewrite load_app by lia.
  rewrite drop_app_length'; [done|]. by rewrite load_length.
Qed.

Lemma load_take M p n m : 0 <= m <= n -> load M p m = take (Z.to_nat m) (load M p n).
Proof.
  intros Hm. replace n with (m + (n - m)) by lia. rewrite load_app by lia.
  rewrite take_app_length'; [done|]. by rewrite load_length.
Qed.

Lemma memcpy_apart M dst src n : n <= 0 \/ dst + n <= src \/ src + n <= dst ->
  memcpy M dst src n = Some (memmove M dst src n).
Proof.
  intros H. unfold memcpy.
  destruct (Z.leb_spec n 0), (Z.leb_spec (dst + n) src), (Z.leb_spec (src + n) dst); cbn [orb]; (done || lia).
Qed.

(** The blocks of [H], slabs of others, keep their contents. *)
Definition frame (M M' : memory) (H : list (Z * Z)) : Prop :=
  forall p n, (p, n) ∈ H -> load M' p n = load M p n.
