(* ===== verification/SlabClient.v ===== *)
(** * The slab cache seen by its clients

    What the buffers and regions rely on: [holds c H] says that the slabs of [H],
    with their sizes, are handed out; [slab_get] adds one and [slab_put] takes
    one away. *)
From S2P Require Import Prelude Util SlabSource SlabCache.

Section Client.
Context {src : Type} `{!SlabSource src}
  {inv : Z -> Z -> src -> list Z -> list (Z * Z) -> list Z -> Prop} `{!SlabSourceLaws inv}.
Context (lb mx lim : Z) (Hlb : 12 <= lb) (Hmx : 0 <= mx <= 15) (Hk : lb + mx <= 31).
Local Abbreviation slab_cache := (slab_cache (src:=src)).
Local Abbreviation holds := (holds (inv:=inv) lb mx lim).

#[export] Instance holds_proper c : Proper ((≡ₚ) ==> iff) (holds c).
Proof.
  assert (Hi : forall H H', H ≡ₚ H' -> holds c H -> holds c H').
  { intros H H' HP (A & B & out & Hc & HH). exists A, B, out. split; [done|]. by rewrite <- HP. }
  intros H H' HP. split; by apply Hi.
Qed.

(** The sizes the cache may be asked for. *)
Definition fits (sz : Z) : Prop := 0 <= sz /\ (sz + 48 <= 2 ^ (lb + mx) \/ sz + 48 <= lim).

Lemma fits_le a b : fits b -> 0 <= a <= b -> fits a.
Proof. clear. unfold fits. lia. Qed.

Lemma client_header c H p n : holds c H -> (p, n) ∈ H ->
  exists s, mem c !! p = Some s /\ size s = n /\ slab_capacity s = n - 48 /\ 0 < p /\ 48 <= n < 2 ^ 42 /\
    fits (n - 48).
Proof.
  unfold fits.
  intros (A & B & out & Hc & HP) Hin. rewrite HP in Hin.
  pose proof Hc as (Hg & Hi & Ht & _). unfold slab_capacity. rewrite slab_sizeof_eq.
  pose proof (inv_apart lb mx lim _ _ _ _ Hi) as Ha. destruct (src_geometry _ _ _ _ _ _ Hi) as (_ & _ & Hl).
  apply elem_of_app in Hin as [Hin|Hin].
  - apply (out_member lb mx lim _ _ _ _ _ _ Hc) in Hin as (o & _ & -> & s & Hs & Ho & Hle).
    destruct (tile_header lb mx A B _ p o s Ht Hs Ho Hle) as [Hh _].
    destruct (mid_facts lb mx lim Hlb Hmx _ _ _ _ _ _ _ _ p o Hc) as (H1 & H2 & _); [by exists s|].
    pose proof (osize_max lb mx Hlb Hmx Hk o H1). pose proof (pow2_mono 12 (lb + o) ltac:(lia)).
    assert (4096 <= osize lb o) by (unfold osize; lia).
    exists s. rewrite Hs, Hh. cbn [size]. rewrite u64_small by lia. split_and!; (done || lia).
  - destruct (t_block _ _ _ _ _ Ht p n Hin) as (s & Hs & _ & Hsz & Hle). rewrite slab_sizeof_eq in Hle.
    assert (n <= lim) by (apply (src_quota _ _ _ _ _ _ n Hi), list_elem_of_fmap; by exists (p, n)).
    exists s. rewrite Hsz. rewrite u64_small by lia.
    split_and!; (done || lia || apply (a_block _ _ _ _ Ha p n Hin)).
Qed.

Lemma client_get c H sz : holds c H -> fits sz ->
  exists p c', slab_get c sz = Some (p, c') /\
    ((p = NULL /\ holds c' H) \/
     exists n s, 0 < p /\ holds c' ((p, n) :: H) /\ sz + 48 <= n < 2 ^ 42 /\ n <= Z.max (2 ^ (lb + mx)) (sz + 48) /\
       mem c' !! p = Some s /\ size s = n /\ slab_capacity s = n - 48).
Proof.
  intros Hh [Hs Hf].
  destruct (slab_get_holds lb mx lim Hlb Hmx Hk c H sz Hh Hs Hf) as (n & p & c' & _ & E & Hn & Hn' & _ & Hr).
  exists p, c'. split; [done|]. destruct Hr as [?|(Hp & Hh' & _)]; [by left|right].
  destruct (client_header c' _ p n Hh' ltac:(left)) as (s & H1 & H2 & H3 & H4 & H5 & _).
  exists n, s. split_and!; (done || lia).
Qed.

Lemma client_put c H p n H' : holds c H -> H ≡ₚ (p, n) :: H' ->
  exists c', slab_put c p = Some c' /\ holds c' H'.
Proof. intros Hh HP. rewrite HP in Hh. by apply (slab_put_holds lb mx lim Hlb Hmx Hk c [] p n H'). Qed.

(** Slabs of the cache do not overlap. *)
Lemma client_apart c H p n q m : holds c H -> (p, n) ∈ H -> (q, m) ∈ H -> p <> q -> p + n <= q \/ q + m <= p.
Proof.
  intros Hh Hp Hq Hne. destruct (holds_apart lb mx lim Hlb Hmx c H Hh) as (_ & _ & Hd).
  destruct (client_header c H p n Hh Hp) as (_ & _ & _ & _ & H1 & H2 & _).
  destruct (client_header c H q m Hh Hq) as (_ & _ & _ & _ & H3 & H4 & _).
  pose proof (Hd p n q m (Z.max p q) Hp Hq). lia.
Qed.

Lemma client_new c H p n q m : holds c ((p, n) :: H) -> (q, m) ∈ H -> p <> q.
Proof.
  intros Hh Hq ->. destruct (holds_apart lb mx lim Hlb Hmx c _ Hh) as (Hnd & _).
  cbn [fmap list_fmap fst] in Hnd. apply NoDup_cons in Hnd as [Hx _]. apply Hx, list_elem_of_fmap.
  by exists (q, m).
Qed.
End Client.
