(* ===== verification/Ibuf.v ===== *)
(** * Input buffer: [include/small/ibuf.h], [small/ibuf.c]

    A contiguous buffer in a slab of the cache; bytes are written at [wpos] and
    consumed at [rpos].  The requests to poison memory, which do nothing without
    ASAN, are left out; [AsanIbuf] has the build in which they matter. *)
From S2P Require Import Prelude Util Bytes SlabSource SlabCache SlabClient.

Section Ibuf.
Context {src : Type} `{!SlabSource src}.
Local Abbreviation slab_cache := (slab_cache (src:=src)).

(** ** Definitions *)

Record ibuf := Ibuf { buf : Z; rpos : Z; wpos : Z; buf_end : Z; start_capacity : Z }.

Definition ibuf_create (start_capacity : Z) : ibuf := Ibuf NULL NULL NULL NULL start_capacity.

(** [slab_put] of the slab of the buffer, if there is one. *)
Definition put_buf (c : slab_cache) (b : ibuf) : option slab_cache :=
  if negb (buf b =? NULL) then slab_put c (slab_from_data (buf b)) else Some c.

Definition ibuf_destroy (c : slab_cache) (b : ibuf) : option slab_cache := put_buf c b.

Definition ibuf_reinit (c : slab_cache) (b : ibuf) : option (slab_cache * ibuf) :=
  c ← ibuf_destroy c b;
  Some (c, ibuf_create (start_capacity b)).

Definition ibuf_used (b : ibuf) : option Z :=
  ASSERT wpos b >=? rpos b;
  Some (wpos b - rpos b).
Definition ibuf_unused (b : ibuf) : option Z :=
  ASSERT wpos b <=? buf_end b;
  Some (buf_end b - wpos b).
Definition ibuf_capacity (b : ibuf) : Z := buf_end b - buf b.
Definition ibuf_pos (b : ibuf) : option Z :=
  ASSERT buf b <=? rpos b;
  Some (rpos b - buf b).

Definition ibuf_reset (b : ibuf) : ibuf := Ibuf (buf b) (buf b) (buf b) (buf_end b) (start_capacity b).

Definition ibuf_reserve_slow (c : slab_cache) (M : memory) (b : ibuf) (size : Z) :
    option (Z * slab_cache * memory * ibuf) :=
  ASSERT wpos b + size >? buf_end b;
  used ← ibuf_used b;
  let capacity := ibuf_capacity b in
  if u64 (size + used) <=? capacity then
    let M := memmove M (buf b) (rpos b) used in
    let b := Ibuf (buf b) (buf b) (buf b + used) (buf_end b) (start_capacity b) in
    Some (wpos b, c, M, b)
  else
    let new_capacity := u64 (capacity * 2) in
    let new_capacity := if new_capacity <? start_capacity b then start_capacity b else new_capacity in
    new_capacity ← grow GROW_FUEL new_capacity (u64 (used + size));
    '(slab, c) ← slab_get c new_capacity;
    if slab =? NULL then Some (NULL, c, M, b)
    else
      let ptr := slab_data slab in
      M ← memcpy M ptr (rpos b) used;
      c ← put_buf c b;
      h ← mem c !! slab;
      let b := Ibuf ptr ptr (ptr + used) (ptr + slab_capacity h) (start_capacity b) in
      Some (wpos b, c, M, b).

Definition ibuf_reserve (c : slab_cache) (M : memory) (b : ibuf) (size : Z) :
    option (Z * slab_cache * memory * ibuf) :=
  if wpos b + size <=? buf_end b then Some (wpos b, c, M, b) else ibuf_reserve_slow c M b size.

Definition add_wpos (b : ibuf) (n : Z) : ibuf :=
  Ibuf (buf b) (rpos b) (wpos b + n) (buf_end b) (start_capacity b).

Definition ibuf_alloc (c : slab_cache) (M : memory) (b : ibuf) (size : Z) :
    option (Z * slab_cache * memory * ibuf) :=
  if wpos b + size <=? buf_end b then Some (wpos b, c, M, add_wpos b size)
  else
    '(ptr, c, M, b) ← ibuf_reserve_slow c M b size;
    if ptr =? NULL then Some (NULL, c, M, b) else Some (ptr, c, M, add_wpos b size).

Definition ibuf_shrink (c : slab_cache) (M : memory) (b : ibuf) : option (slab_cache * memory * ibuf) :=
  used ← ibuf_used b;
  if used =? 0 then
    c ← put_buf c b;
    Some (c, M, Ibuf NULL NULL NULL NULL (start_capacity b))
  else
    let capacity := ibuf_capacity b in
    let new_capacity := start_capacity b in
    let new_capacity := if new_capacity <? used then used else new_capacity in
    old_size ← slab_real_size c capacity;
    new_size ← slab_real_size c new_capacity;
    if old_size =? new_size then Some (c, M, b)
    else
      '(slab, c) ← slab_get c new_capacity;
      if slab =? NULL then Some (c, M, b)
      else
        let ptr := slab_data slab in
        M ← memcpy M ptr (rpos b) used;
        c ← put_buf c b;
        h ← mem c !! slab;
        Some (c, M, Ibuf ptr ptr (ptr + used) (ptr + slab_capacity h) (start_capacity b)).

Definition ibuf_discard (b : ibuf) (size : Z) : option ibuf :=
  used ← ibuf_used b;
  ASSERT size <=? used;
  Some (add_wpos b (- size)).

Definition ibuf_truncate (b : ibuf) (used : Z) : option ibuf :=
  n ← ibuf_used b;
  ASSERT used <=? n;
  ibuf_discard b (n - used).

Definition ibuf_consume (b : ibuf) (size : Z) : option ibuf :=
  used ← ibuf_used b;
  ASSERT size <=? used;
  Some (Ibuf (buf b) (rpos b + size) (wpos b) (buf_end b) (start_capacity b)).

Definition ibuf_consume_before (b : ibuf) (ptr : Z) : option ibuf :=
  ASSERT ptr >=? rpos b;
  ASSERT ptr <=? wpos b;
  ibuf_consume b (ptr - rpos b).

(** The size is also a result. *)
Definition ibuf_reserve_cb (c : slab_cache) (M : memory) (b : ibuf) (size : Z) :
    option (Z * Z * slab_cache * memory * ibuf) :=
  '(p, c, M, b) ← ibuf_reserve c M b (if negb (size =? 0) then size else start_capacity b);
  n ← ibuf_unused b;
  Some (p, n, c, M, b).

Definition ibuf_alloc_cb (c : slab_cache) (M : memory) (b : ibuf) (size : Z) :
    option (Z * slab_cache * memory * ibuf) := ibuf_alloc c M b size.

(** ** A client of the buffer *)

(** [Write] allocates and stores; the others are the calls of their names. *)
Inductive op : Type :=
  | Write (l : list Z)
  | Reserve (n : Z)
  | Consume (n : Z)
  | ConsumeBefore (ptr : Z)
  | Discard (n : Z)
  | Truncate (n : Z)
  | Shrink
  | Reset
  | Reinit.

Definition state : Type := slab_cache * memory * ibuf.
Definition keep (c : slab_cache) (M : memory) (b : option ibuf) : option (Z * state) :=
  b ← b; Some (NULL, (c, M, b)).

Definition exec (s : state) (o : op) : option (Z * state) :=
  let '(c, M, b) := s in
  match o with
  | Write l =>
      '(p, c, M, b) ← ibuf_alloc c M b (Z.of_nat (length l));
      Some (p, (c, if p =? NULL then M else store M p l, b))
  | Reserve n => '(p, c, M, b) ← ibuf_reserve c M b n; Some (p, (c, M, b))
  | Consume n => keep c M (ibuf_consume b n)
  | ConsumeBefore ptr => keep c M (ibuf_consume_before b ptr)
  | Discard n => keep c M (ibuf_discard b n)
  | Truncate n => keep c M (ibuf_truncate b n)
  | Shrink => '(c, M, b) ← ibuf_shrink c M b; Some (NULL, (c, M, b))
  | Reset => keep c M (Some (ibuf_reset b))
  | Reinit => '(c, b) ← ibuf_reinit c b; Some (NULL, (c, M, b))
  end.
End Ibuf.

(** A queue of bytes: what the operations mean.  A write that finds no memory
    changes nothing. *)
Inductive queue_step (b : ibuf) : op -> list Z -> list Z -> Prop :=
  | q_write l q : queue_step b (Write l) q (q ++ l)
  | q_nomem l q : queue_step b (Write l) q q
  | q_reserve n q : queue_step b (Reserve n) q q
  | q_consume n q : 0 <= n <= Z.of_nat (length q) -> queue_step b (Consume n) q (drop (Z.to_nat n) q)
  | q_consume_before n q : 0 <= n <= Z.of_nat (length q) ->
      queue_step b (ConsumeBefore (rpos b + n)) q (drop (Z.to_nat n) q)
  | q_discard n q : 0 <= n <= Z.of_nat (length q) ->
      queue_step b (Discard n) q (take (length q - Z.to_nat n) q)
  | q_truncate n q : 0 <= n <= Z.of_nat (length q) -> queue_step b (Truncate n) q (take (Z.to_nat n) q)
  | q_shrink q : queue_step b Shrink q q
  | q_reset q : queue_step b Reset q []
  | q_reinit q : queue_step b Reinit q [].

(** ** The invariant *)
Section Inv.
Context {src : Type} `{!SlabSource src}
  {inv : Z -> Z -> src -> list Z -> list (Z * Z) -> list Z -> Prop} `{!SlabSourceLaws inv}.
Context (lb mx lim : Z) (Hlb : 12 <= lb) (Hmx : 0 <= mx <= 15) (Hk : lb + mx <= 31).
Local Abbreviation slab_cache := (slab_cache (src:=src)).
Local Abbreviation holds := (holds (inv:=inv) lb mx lim).
Local Abbreviation fits := (fits lb mx lim).

(** The slab of the buffer, of size [n]. *)
Definition own (b : ibuf) (n : Z) : list (Z * Z) := if buf b =? NULL then [] else [(buf b - 48, n)].

Definition placed (b : ibuf) (n : Z) : Prop :=
  (buf b = NULL /\ rpos b = NULL /\ wpos b = NULL /\ buf_end b = NULL) \/
  (buf b <> NULL /\ buf_end b = buf b - 48 + n /\ buf b <= rpos b <= wpos b /\ wpos b <= buf_end b).

(** [H] are the slabs of others, [q] the bytes in the buffer. *)
Record ibuf_inv (c : slab_cache) (M : memory) (b : ibuf) (H : list (Z * Z)) (q : list Z) : Prop := {
  i_start : 1 <= start_capacity b /\ fits (start_capacity b);
  i_place : exists n, holds c (own b n ++ H) /\ placed b n;
  i_data : load M (rpos b) (wpos b - rpos b) = q;
}.

Lemma data_from_data p : slab_data p = p + 48 /\ slab_from_data p = p - 48.
Proof. unfold slab_data, slab_from_data. by rewrite slab_sizeof_eq. Qed.

Lemma placed_bounds b n : placed b n -> rpos b <= wpos b <= buf_end b /\ buf b <= rpos b.
Proof. intros [(? & ? & ? & ?)|(? & ? & ? & ?)]; lia. Qed.

Lemma used_eq c M b H q : ibuf_inv c M b H q ->
  ibuf_used b = Some (wpos b - rpos b) /\ wpos b - rpos b = Z.of_nat (length q).
Proof.
  intros [_ (n & _ & Hp) <-]. destruct (placed_bounds b n Hp) as [? ?]. unfold ibuf_used.
  rewrite Z.geb_leb, (proj2 (Z.leb_le _ _)) by lia. split; [done|]. rewrite load_length. lia.
Qed.

Lemma put_buf_ok c b n H' H : holds c (H' ++ own b n ++ H) -> buf b = NULL \/ 0 < buf b ->
  exists c', put_buf c b = Some c' /\ holds c' (H' ++ H).
Proof.
  intros Hc Hb. unfold put_buf, own in *. destruct (Z.eqb_spec (buf b) NULL) as [E|E]; cbn [negb].
  - by exists c.
  - rewrite (proj2 (data_from_data _)). apply (slab_put_holds lb mx lim Hlb Hmx Hk c H' _ n H). done.
Qed.

(** The data moves to a new slab [p] of size [n]. *)
Lemma move_buf c M b H q n0 c1 p n : ibuf_inv c M b H q -> holds c1 ((p, n) :: own b n0 ++ H) -> placed b n0 ->
  let used := wpos b - rpos b in used + 48 <= n ->
  exists M' c' h, memcpy M (slab_data p) (rpos b) used = Some M' /\ put_buf c1 b = Some c' /\
    mem c' !! p = Some h /\ slab_capacity h = n - 48 /\ frame M M' H /\
    forall e, e = slab_data p + slab_capacity h ->
    ibuf_inv c' M' (Ibuf (slab_data p) (slab_data p) (slab_data p + used) e (start_capacity b)) H q.
Proof.
  intros Hi Hc Hp used Hn. rewrite (proj1 (data_from_data p)).
  destruct (client_header lb mx lim Hlb Hmx Hk c1 _ p n Hc ltac:(left)) as (_ & _ & _ & _ & Hp0 & _).
  assert (Hap : used <= 0 \/ p + 48 + used <= rpos b \/ rpos b + used <= p + 48).
  { destruct Hp as [(H1 & H2 & H3 & H4)|(H1 & H2 & H3 & H4)]; [left; lia|right]. unfold own in Hc.
    rewrite (proj2 (Z.eqb_neq _ _)) in Hc by done. cbn [app] in Hc.
    assert (Hin : (buf b - 48, n0) ∈ (buf b - 48, n0) :: H) by left.
    pose proof (client_new lb mx lim Hlb Hmx _ _ _ _ _ _ Hc Hin) as Hne.
    destruct (client_apart lb mx lim Hlb Hmx Hk c1 _ p n (buf b - 48) n0 Hc) as [?|?]; [left|by right; left|done|..]; lia. }
  rewrite (memcpy_apart _ _ _ _ Hap).
  destruct (put_buf_ok c1 b n0 [(p, n)] H Hc) as (c' & Ec & Hc').
  { destruct Hp as [(? & _)|(Hne & ?)]; [by left|right]. unfold own in Hc.
    rewrite (proj2 (Z.eqb_neq _ _)) in Hc by done.
    destruct (client_header lb mx lim Hlb Hmx Hk c1 _ (buf b - 48) n0 Hc ltac:(right; left)) as (_ & _ & _ & _ & ? & _). lia. }
  destruct (client_header lb mx lim Hlb Hmx Hk c' _ p n Hc' ltac:(left)) as (h & Hh & _ & Hcap & _).
  exists (memmove M (p + 48) (rpos b) used), c', h. split_and!; try done.
  - intros r m Hr. apply (load_same _ _ _ _ _ _ (memmove_outside M (p + 48) (rpos b) used)).
    pose proof (client_new lb mx lim Hlb Hmx _ _ _ _ _ _ Hc' Hr) as Hne.
    destruct (client_apart lb mx lim Hlb Hmx Hk c' _ p n r m Hc') as [?|?]; [left|by right|done|..]; lia.
  - intros e ->. destruct (placed_bounds b n0 Hp) as [? ?]. split; cbn [rpos wpos buf buf_end start_capacity].
    + apply (i_start _ _ _ _ _ Hi).
    + exists n. unfold own. cbn [buf]. rewrite (proj2 (Z.eqb_neq _ NULL)) by lia.
      replace (p + 48 - 48) with p by lia. split; [done|]. right. cbn. lia.
    + replace (p + 48 + used - (p + 48)) with used by lia. rewrite load_memmove. apply (i_data _ _ _ _ _ Hi).
Qed.

(** The largest request that reserving [n] bytes can make of the slab cache. *)
Definition enough (b : ibuf) (n : Z) : Prop :=
  0 <= n /\ fits (2 * Z.max (ibuf_capacity b) (wpos b - rpos b + n)).

Lemma ibuf_reserve_slow_spec c M b H q n : ibuf_inv c M b H q -> enough b n -> buf_end b < wpos b + n ->
  exists p c' M' b', ibuf_reserve_slow c M b n = Some (p, c', M', b') /\ ibuf_inv c' M' b' H q /\ frame M M' H /\
    (p = NULL \/ (0 < p /\ p = wpos b' /\ wpos b' + n <= buf_end b')).
Proof.
  intros Hi (Hn & Hfit) Hlt. destruct (used_eq _ _ _ _ _ Hi) as [Eu Hlen].
  pose proof Hi as [(Hs1 & Hs2) (n0 & Hc & Hp) Hd]. destruct (placed_bounds b n0 Hp) as [Hb1 Hb2].
  assert (Hl : 2 ^ (lb + mx) <= 2 ^ 31 /\ lim < 2 ^ 42).
  { split; [apply pow2_mono; lia|]. destruct Hc as (A & B & out & (_ & Hsrc & _) & _).
    by destruct (src_geometry _ _ _ _ _ _ Hsrc) as (_ & _ & ?). }
  unfold SlabClient.fits, ibuf_capacity in Hfit, Hs2. unfold ibuf_reserve_slow.
  rewrite Z.gtb_ltb, (proj2 (Z.ltb_lt _ _)) by lia. rewrite Eu. cbn [mbind option_bind].
  set (used := wpos b - rpos b) in *. unfold ibuf_capacity. rewrite !u64_small by lia.
  destruct (Z.leb_spec (n + used) (buf_end b - buf b)) as [Hle|Hgt].
  - eexists _, _, _, _. split; [done|]. cbn [wpos].
    destruct Hp as [(? & ? & ? & ?)|(Hne & He & Hr & Hw)]; [lia|].
    assert (Hin : (buf b - 48, n0) ∈ own b n0 ++ H).
    { unfold own. rewrite (proj2 (Z.eqb_neq _ _)) by done. left. }
    destruct (client_header lb mx lim Hlb Hmx Hk c _ _ _ Hc Hin) as (_ & _ & _ & _ & Hp0 & Hn0 & _).
    split_and!; [split| |right]; cbn [rpos wpos buf buf_end start_capacity]; [done| | | |].
    + exists n0. split; [done|]. right. cbn. lia.
    + replace (buf b + used - buf b) with used by lia. by rewrite load_memmove.
    + intros r m Hm. apply (load_same _ _ _ _ _ _ (memmove_outside M (buf b) (rpos b) used)).
      assert (Hne' : buf b - 48 <> r).
      { unfold own in Hc. rewrite (proj2 (Z.eqb_neq _ _)) in Hc by done. by apply (client_new lb mx lim Hlb Hmx _ _ _ _ _ _ Hc Hm). }
      destruct (client_apart lb mx lim Hlb Hmx Hk c _ (buf b - 48) n0 r m Hc Hin) as [?|?]; [by apply elem_of_app; right|done|lia..].
    + lia.
  - set (cap := if (buf_end b - buf b) * 2 <? start_capacity b then start_capacity b else (buf_end b - buf b) * 2).
    assert (Hcap : 1 <= cap /\ fits cap).
    { unfold cap, SlabClient.fits. destruct (Z.ltb_spec ((buf_end b - buf b) * 2) (start_capacity b)); lia. }
    destruct Hcap as [Hc1 Hc2]. unfold SlabClient.fits in Hc2.
    destruct (grow_total cap (used + n)) as (r & Er & Hr1 & Hr2 & Hr3); [lia..|]. rewrite Er. cbn [mbind option_bind].
    assert (Hfr : fits r) by (unfold SlabClient.fits; lia).
    destruct (client_get lb mx lim Hlb Hmx Hk c _ r Hc Hfr) as (p & c1 & Eg & Hg). rewrite Eg. cbn [mbind option_bind].
    destruct Hg as [[-> Hg]|(m & s & Hp0 & Hg & Hm & _)].
    + eexists _, _, _, _. split; [done|]. split_and!; [|done|by left]. destruct Hi as [? _ ?]. split; [done|by exists n0|done].
    + rewrite (proj2 (Z.eqb_neq p NULL)) by lia.
      destruct (move_buf c M b H q n0 c1 p m Hi Hg Hp ltac:(lia)) as (M' & c' & h & E1 & E2 & E3 & E4 & Hf & Hi').
      fold used in E1. rewrite E1. cbn [mbind option_bind]. rewrite E2. cbn [mbind option_bind]. rewrite E3. cbn [mbind option_bind].
      eexists _, _, _, _. split; [done|]. split_and!; [by apply Hi'|done|right].
      cbn [wpos buf_end]. rewrite (proj1 (data_from_data p)), E4. lia.
Qed.

Lemma ibuf_reserve_spec c M b H q n : ibuf_inv c M b H q -> enough b n ->
  exists p c' M' b', ibuf_reserve c M b n = Some (p, c', M', b') /\ ibuf_inv c' M' b' H q /\ frame M M' H /\
    (p = NULL \/ (p = wpos b' /\ wpos b' + n <= buf_end b')).
Proof.
  intros Hi He. unfold ibuf_reserve. destruct (Z.leb_spec (wpos b + n) (buf_end b)).
  - eexists _, _, _, _. split; [done|]. split_and!; [done|done|by right].
  - destruct (ibuf_reserve_slow_spec c M b H q n Hi He ltac:(lia)) as (p & c' & M' & b' & E & Hi' & Hf & Hp).
    exists p, c', M', b'. split_and!; try done. destruct Hp as [?|(_ & ?)]; [by left|by right].
Qed.

(** The [n] bytes at [wpos] join the queue when they are written. *)
Lemma write_spec c M b H q l : ibuf_inv c M b H q -> wpos b + Z.of_nat (length l) <= buf_end b -> wpos b <> NULL \/ l = [] ->
  ibuf_inv c (store M (wpos b) l) (add_wpos b (Z.of_nat (length l))) H (q ++ l) /\ frame M (store M (wpos b) l) H.
Proof.
  intros [Hs (n0 & Hc & Hp) Hd] Hle Hnz. destruct (placed_bounds b n0 Hp) as [Hb1 Hb2].
  pose proof (store_outside M (wpos b) l) as Ho. split.
  - split; [done| |].
    + exists n0. split; [done|]. unfold placed, add_wpos. cbn.
      destruct Hp as [(? & ? & ? & ?)|(? & ? & ? & ?)]; [left|right]; lia.
    + cbn [rpos wpos add_wpos].
      replace (wpos b + Z.of_nat (length l) - rpos b) with (wpos b - rpos b + Z.of_nat (length l)) by lia.
      rewrite load_app by lia. f_equal; [rewrite <- Hd; apply (load_same _ _ _ _ _ _ Ho); left; lia|].
      replace (rpos b + (wpos b - rpos b)) with (wpos b) by lia. apply load_store.
  - intros r m Hm. apply (load_same _ _ _ _ _ _ Ho).
    destruct Hp as [(? & ? & ? & ?)|(Hne & ? & ? & ?)]; [destruct Hnz as [?| ->]; [lia|]|].
    { assert (Hr : (r, m) ∈ own b n0 ++ H) by (apply elem_of_app; by right).
      destruct (client_header lb mx lim Hlb Hmx Hk c _ _ _ Hc Hr) as (_ & _ & _ & _ & ? & _). cbn. lia. }
    unfold own in Hc. rewrite (proj2 (Z.eqb_neq _ _)) in Hc by done.
    pose proof (client_new lb mx lim Hlb Hmx _ _ _ _ _ _ Hc Hm) as Hne'.
    destruct (client_apart lb mx lim Hlb Hmx Hk c _ (buf b - 48) n0 r m Hc) as [?|?]; [left|by right|done|right; lia|left; lia].
Qed.

Lemma exec_write c M b H q l : ibuf_inv c M b H q -> enough b (Z.of_nat (length l)) ->
  exists p c' M' b' q', exec (c, M, b) (Write l) = Some (p, (c', M', b')) /\ ibuf_inv c' M' b' H q' /\
    frame M M' H /\ (q' = q ++ l \/ (p = NULL /\ q' = q)).
Proof.
  intros Hi He. unfold exec, ibuf_alloc. destruct (Z.leb_spec (wpos b + Z.of_nat (length l)) (buf_end b)) as [Hle|Hgt].
  - cbn [mbind option_bind]. assert (Hnz : wpos b <> NULL \/ l = []).
    { destruct Hi as [_ (n0 & Hc & Hp) _]. destruct Hp as [(? & ? & ? & ?)|(Hne & He' & ? & ?)].
      - right. destruct l; [done|]. cbn [length] in Hle. lia.
      - left. unfold own in Hc. rewrite (proj2 (Z.eqb_neq _ _)) in Hc by done.
        destruct (client_header lb mx lim Hlb Hmx Hk c _ _ _ Hc ltac:(left)) as (_ & _ & _ & _ & ? & _). lia. }
    destruct (write_spec c M b H q l Hi Hle Hnz) as [Hi' Hf]. eexists _, _, _, _, _. split; [done|].
    destruct (Z.eqb_spec (wpos b) NULL) as [Ez|Ez]; [|split_and!; [done|done|by left]].
    destruct Hnz as [?| ->]; [done|]. split_and!; [|done|by left]. rewrite app_nil_r in *.
    destruct Hi' as [I1 I2 I3]. split; [done|done|]. rewrite <- I3. apply load_ext. intros a Ha.
    symmetry. apply (store_outside M (wpos b) []). cbn [length]. lia.
  - destruct (ibuf_reserve_slow_spec c M b H q _ Hi He ltac:(lia)) as (p & c' & M1 & b1 & E & Hi1 & Hf1 & Hp).
    rewrite E. cbn [mbind option_bind]. destruct Hp as [->|(Hp0 & -> & Hle)].
    + cbn [Z.eqb mbind option_bind]. eexists _, _, _, _, _. split; [done|]. split_and!; [done|done|by right].
    + rewrite (proj2 (Z.eqb_neq (wpos b1) NULL)) by lia. cbn [mbind option_bind].
      rewrite (proj2 (Z.eqb_neq (wpos b1) NULL)) by lia.
      destruct (write_spec c' M1 b1 H q l Hi1 Hle ltac:(left; lia)) as [Hi' Hf'].
      eexists _, _, _, _, _. split; [done|]. split_and!; [done| |by left].
      intros r m Hr. rewrite (Hf' r m Hr). by apply Hf1.
Qed.

Lemma real_size_total c H' n : holds c H' -> fits n -> exists r, slab_real_size c n = Some r.
Proof.
  intros Hc [Hn Hf]. destruct (slab_get_holds lb mx lim Hlb Hmx Hk c H' n Hc Hn Hf) as (r & _ & _ & E & _).
  by exists r.
Qed.

Lemma shrink_spec c M b H q : ibuf_inv c M b H q ->
  exists c' M' b', ibuf_shrink c M b = Some (c', M', b') /\ ibuf_inv c' M' b' H q /\ frame M M' H.
Proof.
  intros Hi. destruct (used_eq _ _ _ _ _ Hi) as [Eu Hlen].
  pose proof Hi as [(Hs1 & Hs2) (n0 & Hc & Hp) Hd]. destruct (placed_bounds b n0 Hp) as [Hb1 Hb2].
  assert (Hpos : buf b = NULL \/ 0 < buf b /\ fits (buf_end b - buf b)).
  { destruct Hp as [(? & _)|(Hne & He & _)]; [by left|right]. unfold own in Hc. rewrite (proj2 (Z.eqb_neq _ _)) in Hc by done.
    destruct (client_header lb mx lim Hlb Hmx Hk c _ _ _ Hc ltac:(left)) as (_ & _ & _ & _ & ? & _ & Hf).
    rewrite He. replace (buf b - 48 + n0 - buf b) with (n0 - 48) by lia. split; [lia|done]. }
  unfold ibuf_shrink. rewrite Eu. cbn [mbind option_bind]. destruct (Z.eqb_spec (wpos b - rpos b) 0) as [Ez|Ez].
  - destruct (put_buf_ok c b n0 [] H Hc) as (c' & -> & Hc'); [destruct Hpos as [?|[? _]]; auto|].
    cbn [mbind option_bind]. eexists _, _, _. split; [done|]. split; [|done]. split; [done| |].
    + exists 0. cbn [own buf Z.eqb app]. split; [done|by left].
    + cbn [rpos wpos]. rewrite <- Hd, Ez. done.
  - destruct Hpos as [Hz|[Hpos Hfb]]; [destruct Hp as [(? & ? & ? & ?)|(? & _)]; lia|].
    set (nc := if start_capacity b <? wpos b - rpos b then wpos b - rpos b else start_capacity b).
    assert (Hfn : fits nc /\ wpos b - rpos b <= nc).
    { unfold nc. destruct (Z.ltb_spec (start_capacity b) (wpos b - rpos b)); [|split; [done|lia]].
      split; [|lia]. apply (fits_le lb mx lim _ (buf_end b - buf b)); [done|lia]. }
    destruct Hfn as [Hfn Hle].
    destruct (real_size_total c _ (ibuf_capacity b) Hc Hfb) as [r1 ->]. cbn [mbind option_bind].
    destruct (real_size_total c _ nc Hc Hfn) as [r2 ->]. cbn [mbind option_bind].
    destruct (r1 =? r2); [eexists _, _, _; split; [done|by split]|].
    destruct (client_get lb mx lim Hlb Hmx Hk c _ nc Hc Hfn) as (p & c1 & -> & Hg). cbn [mbind option_bind].
    destruct Hg as [[-> Hg]|(m & s & Hp0 & Hg & Hm & _)].
    + eexists _, _, _. split; [done|]. split; [|done]. split; [done|by exists n0|done].
    + rewrite (proj2 (Z.eqb_neq p NULL)) by lia.
      destruct (move_buf c M b H q n0 c1 p m Hi Hg Hp ltac:(lia)) as (M' & c' & h & E1 & E2 & E3 & E4 & Hf & Hi').
      rewrite E1. cbn [mbind option_bind]. rewrite E2. cbn [mbind option_bind]. rewrite E3. cbn [mbind option_bind].
      eexists _, _, _. split; [done|]. split; [by apply Hi'|done].
Qed.

(** Moving the ends of the data inward. *)
Lemma consume_spec c M b H q n : ibuf_inv c M b H q -> 0 <= n <= Z.of_nat (length q) ->
  exists b', ibuf_consume b n = Some b' /\ ibuf_inv c M b' H (drop (Z.to_nat n) q).
Proof.
  intros Hi Hn. destruct (used_eq _ _ _ _ _ Hi) as [Eu Hlen]. unfold ibuf_consume. rewrite Eu. cbn [mbind option_bind].
  rewrite (proj2 (Z.leb_le _ _)) by lia. eexists. split; [done|]. destruct Hi as [Hs (n0 & Hc & Hp) Hd].
  split; [done| |]; cbn [rpos wpos].
  - exists n0. split; [done|]. unfold placed in *. cbn. destruct Hp as [(? & ? & ? & ?)|(? & ? & ? & ?)]; [left|right]; lia.
  - rewrite <- Hd. replace (wpos b - (rpos b + n)) with (wpos b - rpos b - n) by lia. apply load_drop. lia.
Qed.

Lemma discard_spec c M b H q n : ibuf_inv c M b H q -> 0 <= n <= Z.of_nat (length q) ->
  exists b', ibuf_discard b n = Some b' /\ ibuf_inv c M b' H (take (length q - Z.to_nat n) q).
Proof.
  intros Hi Hn. destruct (used_eq _ _ _ _ _ Hi) as [Eu Hlen]. unfold ibuf_discard. rewrite Eu. cbn [mbind option_bind].
  rewrite (proj2 (Z.leb_le _ _)) by lia. eexists. split; [done|]. destruct Hi as [Hs (n0 & Hc & Hp) Hd].
  split; [done| |]; cbn [rpos wpos add_wpos].
  - exists n0. split; [done|]. unfold placed in *. cbn. destruct Hp as [(? & ? & ? & ?)|(? & ? & ? & ?)]; [left|right]; lia.
  - rewrite <- Hd at 2. replace (length q - Z.to_nat n)%nat with (Z.to_nat (wpos b - rpos b - n)) by lia.
    rewrite <- load_take by lia. f_equal. lia.
Qed.

Lemma ibuf_reset_spec c M b H q : ibuf_inv c M b H q -> ibuf_inv c M (ibuf_reset b) H [].
Proof.
  intros [Hs (n0 & Hc & Hp) Hd]. split; [done| |].
  - exists n0. split; [done|]. unfold placed in *. cbn. destruct Hp as [(? & ? & ? & ?)|(? & ? & ? & ?)]; [left|right]; lia.
  - cbn [rpos wpos ibuf_reset]. by rewrite Z.sub_diag.
Qed.

Lemma create_spec c M H cap : holds c H -> 1 <= cap -> fits cap -> ibuf_inv c M (ibuf_create cap) H [].
Proof. intros Hc H1 H2. split; [done| |done]. exists 0. split; [done|by left]. Qed.

Lemma ibuf_destroy_spec c M b H q : ibuf_inv c M b H q -> exists c', ibuf_destroy c b = Some c' /\ holds c' H.
Proof.
  intros [_ (n0 & Hc & Hp) _]. apply (put_buf_ok c b n0 [] H Hc).
  destruct Hp as [(? & _)|(Hne & _)]; [by left|right]. unfold own in Hc. rewrite (proj2 (Z.eqb_neq _ _)) in Hc by done.
  destruct (client_header lb mx lim Hlb Hmx Hk c _ _ _ Hc ltac:(left)) as (_ & _ & _ & _ & ? & _). lia.
Qed.

(** The room an operation needs in the slab cache. *)
Definition room (b : ibuf) (o : op) : Prop :=
  match o with
  | Write l => enough b (Z.of_nat (length l))
  | Reserve n => enough b n
  | _ => True
  end.

(** C24. The input buffer is a queue of bytes: every operation the queue allows
    returns without a failed assertion, leaves the bytes of the queue after it in
    the buffer, whether or not they had to move to another slab, and never
    touches the slabs of others; a write adds its bytes or, when there is no
    memory, nothing; a reserved pointer has the room asked for behind it. *)
Theorem ibuf_refines_queue c M b H q o : ibuf_inv c M b H q -> room b o -> (exists q', queue_step b o q q') ->
  exists p c' M' b' q', exec (c, M, b) o = Some (p, (c', M', b')) /\ queue_step b o q q' /\
    ibuf_inv c' M' b' H q' /\ frame M M' H /\
    match o with
    | Write l => p <> NULL -> q' = q ++ l
    | Reserve n => p = NULL \/ (p = wpos b' /\ wpos b' + n <= buf_end b')
    | _ => True
    end.
Proof.
  intros Hi Hr [q0 Hq].
  destruct Hq as [l q|l q|n q|n q Hn|n q Hn|n q Hn|n q Hn|q|q|q].
  1,2: destruct (exec_write c M b H q l Hi Hr) as (p & c' & M' & b' & q' & E & Hi' & Hf & Hq');
    exists p, c', M', b', q'; split_and!; [done|destruct Hq' as [->|[-> ->]]; [apply q_write|apply q_nomem]|done|done|];
    intros Hp; by destruct Hq' as [?|[? _]].
  - destruct (ibuf_reserve_spec c M b H q n Hi Hr) as (p & c' & M' & b' & E & Hi' & Hf & Hp).
    exists p, c', M', b', q. cbn [exec]. rewrite E. split_and!; try done. constructor.
  - destruct (consume_spec c M b H q n Hi Hn) as (b' & E & Hi'). cbn [exec]. rewrite E.
    eexists _, _, _, _, _. split; [done|]. split_and!; try done. by constructor.
  - destruct (consume_spec c M b H q n Hi Hn) as (b' & E & Hi'). destruct (used_eq _ _ _ _ _ Hi) as [_ Hlen].
    cbn [exec]. unfold ibuf_consume_before. rewrite Z.geb_leb, !(proj2 (Z.leb_le _ _)) by lia.
    replace (rpos b + n - rpos b) with n by lia. rewrite E.
    eexists _, _, _, _, _. split; [done|]. split_and!; try done. by constructor.
  - destruct (discard_spec c M b H q n Hi Hn) as (b' & E & Hi'). cbn [exec]. rewrite E.
    eexists _, _, _, _, _. split; [done|]. split_and!; try done. by constructor.
  - destruct (used_eq _ _ _ _ _ Hi) as [Eu Hlen].
    destruct (discard_spec c M b H q (Z.of_nat (length q) - n) Hi ltac:(lia)) as (b' & E & Hi').
    cbn [exec]. unfold ibuf_truncate. rewrite Eu. cbn [mbind option_bind]. rewrite Hlen, (proj2 (Z.leb_le _ _)), E by lia.
    eexists _, _, _, _, _. split; [done|]. split_and!; [by apply q_truncate| |done|done].
    by replace (length q - Z.to_nat (Z.of_nat (length q) - n))%nat with (Z.to_nat n) in Hi' by lia.
  - destruct (shrink_spec c M b H q Hi) as (c' & M' & b' & E & Hi' & Hf). cbn [exec]. rewrite E.
    eexists _, _, _, _, _. split; [done|]. split_and!; try done. constructor.
  - eexists _, _, _, _, _. split; [done|]. split_and!; [constructor|by eapply ibuf_reset_spec|done..].
  - destruct (ibuf_destroy_spec c M b H q Hi) as (c' & E & Hc'). cbn [exec]. unfold ibuf_reinit. rewrite E.
    eexists _, _, _, _, _. split; [done|]. split_and!; [constructor| |done..].
    apply create_spec; [done|apply (i_start _ _ _ _ _ Hi)..].
Qed.
End Inv.

(** The loop that grows the capacity ends for every request up to 2^63 bytes
    when it starts from a positive capacity, with the first doubling that is
    enough, and more fuel changes nothing; with a start capacity of 0 it never
    ends, so the first reservation of a buffer created that way hangs. *)
Theorem ibuf_growth_terminates {src} `{!SlabSource src} (c : slab_cache (src:=src)) M :
  (forall cap need, 1 <= cap < 2 ^ 64 -> need <= 2 ^ 63 ->
     exists r, need <= r /\ cap <= r /\ (r = cap \/ r < 2 * need) /\
       forall fuel, (GROW_FUEL <= fuel)%nat -> grow fuel cap need = Some r) /\
  (forall need fuel, 0 < need -> grow fuel 0 need = None) /\
  (forall size, 0 < size < 2 ^ 64 -> ibuf_reserve c M (ibuf_create 0) size = None).
Proof.
  split_and!.
  - intros cap need Hc Hn. destruct (grow_total cap need) as (r & E & H1 & H2 & H3); [lia..|].
    exists r. split_and!; try done. intros fuel Hf. by apply (grow_fuel_mono GROW_FUEL).
  - intros need fuel. apply grow_zero.
  - intros size Hs. unfold ibuf_reserve, ibuf_reserve_slow, ibuf_create, ibuf_used, ibuf_capacity.
    cbn [wpos buf_end rpos buf start_capacity Z.geb Z.compare mbind option_bind].
    rewrite !Z.sub_diag, !Z.add_0_l, Z.add_0_r, Z.mul_0_l, !(u64_small size) by lia.
    rewrite (proj2 (Z.leb_gt size 0)), Z.gtb_ltb, (proj2 (Z.ltb_lt 0 size)) by lia.
    change (u64 0) with 0. cbn [Z.ltb Z.compare]. by rewrite grow_zero by lia.
Qed.

(** ** A concrete buffer

    The first write takes the smallest slab of the example cache. *)
Definition example_ibuf : ibuf := ibuf_create 16.

Lemma example_ibuf_inv : ibuf_inv (inv:=host_inv) 12 4 100000 example_cache (fun _ => 0) example_ibuf [] [].
Proof. apply create_spec; [apply example_holds|lia|vm_compute; split; [discriminate|left; discriminate]]. Qed.

Lemma ibuf_refines_queue_witness :
  (if exec (example_cache, (fun _ => 0), example_ibuf) (Write [7; 8; 9]) is Some (p, (_, M, b))
   then (p =? 65536 + 48) && bool_decide (load M (rpos b) 3 = [7; 8; 9]) else false) = true /\
  exists p c' M' b' q', exec (example_cache, (fun _ => 0), example_ibuf) (Write [7; 8; 9]) = Some (p, (c', M', b')) /\
    ibuf_inv (inv:=host_inv) 12 4 100000 c' M' b' [] q'.
Proof.
  split; [by vm_compute|].
  destruct (ibuf_refines_queue (inv:=host_inv) 12 4 100000 ltac:(lia) ltac:(lia) ltac:(lia) example_cache (fun _ => 0)
    example_ibuf [] [] (Write [7; 8; 9]) example_ibuf_inv) as (p & c' & M' & b' & q' & E & _ & Hi & _).
  - split; [lia|]. unfold fits. vm_compute. split; [discriminate|left; discriminate].
  - exists [7; 8; 9]. apply (q_write _ [7; 8; 9] []).
  - exists p, c', M', b', q'. split; [exact E|exact Hi].
Defined.

Lemma ibuf_growth_terminates_witness :
  grow GROW_FUEL 16 100 = Some 128 /\ ibuf_reserve example_cache (fun _ => 0) (ibuf_create 0) 1 = None /\
  exists r, 100 <= r /\ forall fuel, (GROW_FUEL <= fuel)%nat -> grow fuel 16 100 = Some r.
Proof.
  destruct (ibuf_growth_terminates example_cache (fun _ => 0)) as (H1 & _ & H3).
  split; [by vm_compute|]. split; [apply H3; lia|].
  destruct (H1 16 100 ltac:(lia) ltac:(lia)) as (r & Hr & _ & _ & E). by exists r.
Defined.
