(* ===== verification/Region.v ===== *)
(** * Region allocator: [include/small/region.h], [small/region.c]

    Memory is taken from the slab at the head of a list and given back by
    truncation.  The [used] counters of the slabs are a finite map from their
    addresses; a call of a callback is an event with what [region_used] returns
    inside it. *)
From S2P Require Import Prelude Util Bytes SlabSource SlabCache SlabClient.

Section Region.
Context {src : Type} `{!SlabSource src}.
Local Abbreviation slab_cache := (slab_cache (src:=src)).

(** ** Definitions *)

Inductive event : Type :=
  | OnAlloc (used_inside size arg : Z)
  | OnTruncate (used_inside used arg : Z).

Record region := Region {
  region_slabs : slab_list;
  on_alloc_cb : Z;
  on_truncate_cb : Z;
  cb_arg : Z;
  reserved : bool;
  rslab_used : gmap Z Z;
  calls : list event;
}.

Definition set_region_slabs (r : region) (l : slab_list) : region :=
  Region l (on_alloc_cb r) (on_truncate_cb r) (cb_arg r) (reserved r) (rslab_used r) (calls r).
Definition set_reserved (r : region) (b : bool) : region :=
  Region (region_slabs r) (on_alloc_cb r) (on_truncate_cb r) (cb_arg r) b (rslab_used r) (calls r).
Definition set_rslab_used (r : region) (p u : Z) : region :=
  Region (region_slabs r) (on_alloc_cb r) (on_truncate_cb r) (cb_arg r) (reserved r)
    (<[p := u]> (rslab_used r)) (calls r).
Definition set_stats_used (r : region) (u : Z) : region :=
  set_region_slabs r (SlabList (slabs (region_slabs r)) (SmallStats u (total (stats (region_slabs r))))).

Definition region_create : region := Region slab_list_create NULL NULL NULL false ∅ [].

Definition region_set_callbacks (r : region) (on_alloc on_truncate arg : Z) : region :=
  Region (region_slabs r) on_alloc on_truncate arg (reserved r) (rslab_used r) (calls r).

Definition region_used (r : region) : Z := used (stats (region_slabs r)).
Definition region_total (r : region) : Z := total (stats (region_slabs r)).

Definition emit (r : region) (e : event) : region :=
  Region (region_slabs r) (on_alloc_cb r) (on_truncate_cb r) (cb_arg r) (reserved r) (rslab_used r) (calls r ++ [e]).
Definition call_on_alloc (r : region) (size : Z) : region :=
  if negb (on_alloc_cb r =? NULL) then emit r (OnAlloc (region_used r) size (cb_arg r)) else r.
Definition call_on_truncate (r : region) (used : Z) : region :=
  if negb (on_truncate_cb r =? NULL) then emit r (OnTruncate (region_used r) used (cb_arg r)) else r.

Definition sizeof_rslab : Z := 56.
Definition rslab_sizeof : Z := u32 (small_align sizeof_rslab 8).
Definition rslab_data (p : Z) : Z := p + rslab_sizeof.
Definition rslab_data_end (r : region) (p : Z) : option Z :=
  u ← rslab_used r !! p;
  Some (rslab_data p + u).
Definition rslab_unused (c : slab_cache) (r : region) (p : Z) : option Z :=
  h ← mem c !! p;
  u ← rslab_used r !! p;
  Some (u32 (size h - rslab_sizeof - u)).

(** [rlist_first_entry] of an empty list is not a slab. *)
Definition first_slab (r : region) : option Z := head (slabs (region_slabs r)).

Definition region_reserve_slow (c : slab_cache) (r : region) (size : Z) : option (Z * slab_cache * region) :=
  let slab_min_size := u64 (size + rslab_sizeof - slab_sizeof) in
  '(slab, c) ← slab_get c slab_min_size;
  if slab =? NULL then Some (NULL, c, r)
  else
    let r := set_rslab_used r slab 0 in
    h ← mem c !! slab;
    Some (rslab_data slab, c, set_region_slabs r (slab_list_add slab (SlabCache.size h) (region_slabs r))).

Definition region_reserve (c : slab_cache) (r : region) (size : Z) : option (Z * slab_cache * region) :=
  ASSERT negb (reserved r);
  ptr ←
    (match first_slab r with
     | None => Some NULL
     | Some slab =>
         n ← rslab_unused c r slab;
         if size <=? n then rslab_data_end r slab else Some NULL
     end);
  '(ptr, c, r) ← (if ptr =? NULL then region_reserve_slow c r size else Some (ptr, c, r));
  Some (ptr, c, if negb (ptr =? NULL) then set_reserved r true else r).

(** What both allocations do with [size] bytes they reserved. *)
Definition region_take (c : slab_cache) (r : region) (slab size : Z) : option region :=
  n ← rslab_unused c r slab;
  ASSERT size <=? n;
  let r := call_on_alloc r size in
  u ← rslab_used r !! slab;
  let r := set_stats_used r (u64 (region_used r + size)) in
  Some (set_reserved (set_rslab_used r slab (u32 (u + size))) false).

Definition region_alloc (c : slab_cache) (r : region) (size : Z) : option (Z * slab_cache * region) :=
  ASSERT 0 <? size;
  '(ptr, c, r) ← region_reserve c (set_reserved r false) size;
  if negb (ptr =? NULL) then
    slab ← first_slab r;
    r ← region_take c r slab size;
    Some (ptr, c, r)
  else Some (ptr, c, r).

Definition region_aligned_reserve (c : slab_cache) (r : region) (size alignment : Z) :
    option (Z * slab_cache * region) :=
  '(ptr, c, r) ← region_reserve c r (u64 (size + alignment - 1));
  ASSERT small_align_ok ptr alignment;
  Some (small_align ptr alignment, c, r).

Definition region_aligned_alloc (c : slab_cache) (r : region) (size alignment : Z) :
    option (Z * slab_cache * region) :=
  ASSERT 0 <? size;
  '(ptr, c, r) ← region_aligned_reserve c (set_reserved r false) size alignment;
  if negb (ptr =? NULL) then
    slab ← first_slab r;
    e ← rslab_data_end r slab;
    let effective_size := u32 (ptr - e + size) in
    r ← region_take c r slab effective_size;
    Some (ptr, c, r)
  else Some (ptr, c, r).

Definition region_reset (r : region) : option region :=
  r ←
    (match first_slab r with
     | None => Some r
     | Some slab =>
         u ← rslab_used r !! slab;
         Some (set_rslab_used (set_stats_used r (u64 (region_used r - u))) slab 0)
     end);
  Some (set_reserved r false).

Fixpoint free_slabs (c : slab_cache) (l : list Z) : option slab_cache :=
  match l with
  | [] => Some c
  | p :: l => c ← slab_put c p; free_slabs c l
  end.

Definition region_free (c : slab_cache) (r : region) : option (slab_cache * region) :=
  c ← free_slabs c (slabs (region_slabs r));
  let r := set_region_slabs r slab_list_create in
  Some (c, set_reserved (call_on_truncate r 0) false).
Definition region_destroy (c : slab_cache) (r : region) : option (slab_cache * region) := region_free c r.

Definition region_free_after (c : slab_cache) (r : region) (after : Z) : option (slab_cache * region) :=
  if region_used r >? after then region_free c r else Some (c, r).

(** The loop over the slabs [l] of the region: each is trimmed, or removed and
    the next one looked at. *)
Fixpoint truncate_loop (c : slab_cache) (M : memory) (r : region) (l : list Z) (cut_size : Z) :
    option (slab_cache * memory * region * Z) :=
  match l with
  | [] => Some (c, M, r, cut_size)
  | slab :: l =>
      u ← rslab_used r !! slab;
      if u >? cut_size then
        e ← rslab_data_end r slab;
        Some (c, memset M (e - cut_size) 80 cut_size, set_rslab_used r slab (u32 (u - cut_size)), 0)
      else
        h ← mem c !! slab;
        sl ← slab_list_del slab (size h) (region_slabs r);
        c ← slab_put c slab;
        truncate_loop c M (set_region_slabs r sl) l (u64 (cut_size - u))
  end.

Definition region_truncate (c : slab_cache) (M : memory) (r : region) (used : Z) :
    option (slab_cache * memory * region) :=
  ASSERT region_used r >=? used;
  '(c, M, r, cut_size) ← truncate_loop c M r (slabs (region_slabs r)) (u64 (region_used r - used));
  ASSERT cut_size =? 0;
  Some (c, M, call_on_truncate (set_reserved (set_stats_used r used) false) used).

(** The loop of [region_join] over the slabs from the newest one; it stops at a
    slab that has more than is still missing. *)
Fixpoint join_loop (M : memory) (r : region) (ptr offset : Z) (l : list Z) : option (memory * Z * list Z) :=
  match l with
  | [] => Some (M, offset, [])
  | slab :: l' =>
      if 0 <? offset then
        u ← rslab_used r !! slab;
        if u <=? offset then
          M ← memcpy M (ptr + offset - u) (rslab_data slab) u;
          join_loop M r ptr (offset - u) l'
        else Some (M, offset, l)
      else Some (M, offset, l)
  end.

Definition region_join (c : slab_cache) (M : memory) (r : region) (size : Z) :
    option (Z * slab_cache * memory * region) :=
  ASSERT size <=? region_used r;
  ASSERT negb (reserved r);
  ASSERT 0 <? size;
  slab ← first_slab r;
  u ← rslab_used r !! slab;
  if u >=? size then Some (rslab_data slab + u - size, c, M, r)
  else
    let old := slabs (region_slabs r) in
    '(ptr, c, r) ← region_reserve c r size;
    if ptr =? NULL then Some (NULL, c, M, r)
    else
      '(M, offset, rest) ← join_loop M r ptr size old;
      M ← (if 0 <? offset then
             slab ← head rest;
             u ← rslab_used r !! slab;
             memcpy M ptr (rslab_data slab + u - offset) offset
           else Some M);
      '(_, c, r) ← region_alloc c r size;
      Some (ptr, c, M, r).

Definition region_alloc_cb (c : slab_cache) (r : region) (size : Z) : option (Z * slab_cache * region) :=
  region_alloc c r size.

(** The size is also a result. *)
Definition region_reserve_cb (c : slab_cache) (r : region) (size : Z) : option (Z * Z * slab_cache * region) :=
  '(ptr, c, r) ← region_reserve c r size;
  slab ← first_slab r;
  n ← rslab_unused c r slab;
  Some (ptr, n, c, r).

(** [region_alloc_object] and [region_alloc_array] of a type of [sizeof_T] bytes
    aligned by [alignof_T]; the size of an array goes through an [int]. *)
Definition region_alloc_object (c : slab_cache) (r : region) (sizeof_T alignof_T : Z) :
    option (Z * Z * slab_cache * region) :=
  '(ptr, c, r) ← region_aligned_alloc c r sizeof_T alignof_T;
  Some (ptr, sizeof_T, c, r).
Definition int_of (x : Z) : Z := if u32 x <? 2 ^ 31 then u32 x else u32 x - 2 ^ 32.
Definition region_alloc_array (c : slab_cache) (r : region) (sizeof_T alignof_T count : Z) :
    option (Z * Z * slab_cache * region) :=
  let size := u64 (int_of (u64 (sizeof_T * count))) in
  '(ptr, c, r) ← region_aligned_alloc c r size alignof_T;
  Some (ptr, size, c, r).

(** [RegionGuard]: its constructor and destructor. *)
Definition RegionGuard (r : region) : Z := region_used r.
Definition RegionGuard_destroy (c : slab_cache) (M : memory) (r : region) (guard : Z) :
    option (slab_cache * memory * region) := region_truncate c M r guard.
End Region.

(** ** The bytes of a region

    A region as the list of its slabs with their sizes and their [used], newest
    first, and as the list of the addresses of its bytes in the order they were
    allocated. *)
Definition rslabs : Type := list (Z * Z * Z).
Fixpoint addrs (rl : rslabs) : list Z :=
  match rl with
  | [] => []
  | (p, _, u) :: rl => addrs rl ++ seqZ (p + 56) u
  end.
Definition rused (x : Z * Z * Z) : Z := x.2.
Definition rsize (x : Z * Z * Z) : Z := x.1.2.

Lemma rslab_sizeof_eq : rslab_sizeof = 56.
Proof. done. Qed.

Lemma addrs_length rl : (forall x, x ∈ rl -> 0 <= rused x) ->
  Z.of_nat (length (addrs rl)) = zsum rused rl /\ 0 <= zsum rused rl.
Proof.
  induction rl as [|[[p n] u] rl IH]; intros Hu; [done|]. cbn [addrs].
  rewrite length_app, length_seqZ. change (zsum rused ((p, n, u) :: rl)) with (u + zsum rused rl).
  destruct IH as [IH1 IH2]; [intros x Hx; apply Hu; by right|]. pose proof (Hu (p, n, u) ltac:(left)) as H.
  change (rused (p, n, u)) with u in H. lia.
Qed.

(** The last [k] of a run of addresses. *)
Lemma seqZ_tail a u k : 0 <= k <= u -> seqZ a u = seqZ a (u - k) ++ seqZ (a + u - k) k.
Proof. intros Hk. replace u with (u - k + k) at 1 by lia. rewrite seqZ_app by lia. do 2 f_equal. lia. Qed.

Section Inv.
Context {src : Type} `{!SlabSource src}
  {inv : Z -> Z -> src -> list Z -> list (Z * Z) -> list Z -> Prop} `{!SlabSourceLaws inv}.
Context (lb mx lim : Z) (Hlb : 12 <= lb) (Hmx : 0 <= mx <= 15) (Hk : lb + mx <= 31).
Local Abbreviation slab_cache := (slab_cache (src:=src)).
Local Abbreviation holds := (holds (inv:=inv) lb mx lim).
Local Abbreviation fits := (fits lb mx lim).

(** [H] are the slabs of others; 32 bits hold every size. *)
Record region_inv (c : slab_cache) (r : region) (H : list (Z * Z)) (rl : rslabs) : Prop := {
  g_slabs : slabs (region_slabs r) = (fun x => x.1.1) <$> rl;
  g_cache : holds c (((fun x => x.1) <$> rl) ++ H);
  g_used p n u : (p, n, u) ∈ rl -> rslab_used r !! p = Some u /\ 0 <= u <= n - 56 /\ n <= 2 ^ 32;
  g_stats : region_used r = zsum rused rl /\ zsum rused rl < 2 ^ 64;
  g_total : region_total r = u64 (zsum rsize rl);
}.

Lemma region_create_inv c H : holds c H -> region_inv c region_create H [].
Proof. intros Hc. split; try done. by intros p n u ?%elem_of_nil. Qed.

Lemma in_cache rl H p n u : (p, n, u) ∈ rl -> (p, n) ∈ ((fun x : Z * Z * Z => x.1) <$> rl) ++ H.
Proof. intros Hin. apply elem_of_app. left. apply list_elem_of_fmap. by exists (p, n, u). Qed.

(** Slabs of the region have distinct addresses. *)
Lemma region_nodup c r H rl : region_inv c r H rl -> NoDup ((fun x => x.1.1) <$> rl).
Proof.
  intros Hr. destruct (holds_apart lb mx lim Hlb Hmx c _ (g_cache _ _ _ _ Hr)) as (Hnd & _).
  rewrite fmap_app in Hnd. apply NoDup_app in Hnd as (Hnd & _). by rewrite <- list_fmap_compose in Hnd.
Qed.

Lemma slab_header c r H rl p n u : region_inv c r H rl -> (p, n, u) ∈ rl ->
  0 < p /\ exists h, mem c !! p = Some h /\ size h = n /\ rslab_used r !! p = Some u /\
    rslab_unused c r p = Some (n - 56 - u) /\ rslab_data_end r p = Some (p + 56 + u).
Proof.
  intros Hr Hin. destruct (client_header lb mx lim Hlb Hmx Hk c _ p n (g_cache _ _ _ _ Hr) (in_cache _ _ _ _ _ Hin))
    as (h & Hh & Hs & _ & Hp & _).
  destruct (g_used _ _ _ _ Hr p n u Hin) as (Hu & Hb & Hn). split; [done|]. exists h.
  unfold rslab_unused, rslab_data_end, rslab_data. rewrite Hh, Hu, rslab_sizeof_eq. cbn [mbind option_bind].
  rewrite Hs, u32_small by lia. done.
Qed.

(** Bytes of different slabs, and of the same slab, have different addresses. *)
Lemma addrs_in rl a : a ∈ addrs rl <-> exists p n u, (p, n, u) ∈ rl /\ p + 56 <= a < p + 56 + u.
Proof.
  induction rl as [|[[p n] u] rl IH]; cbn [addrs].
  - split; [by intros ?%elem_of_nil|]. by intros (? & ? & ? & ?%elem_of_nil & _).
  - rewrite elem_of_app, IH, elem_of_seqZ. split.
    + intros [(q & m & v & Hq & Ha)|Ha]; [exists q, m, v; split; [by right|done]|].
      exists p, n, u. split; [left|lia].
    + intros (q & m & v & [[= -> -> ->]|Hq]%elem_of_cons & Ha); [right; lia|left; by exists q, m, v].
Qed.

Lemma slabs_apart c r H rl p n u q m v : region_inv c r H rl -> (p, n, u) ∈ rl -> (q, m, v) ∈ rl -> p <> q ->
  p + n <= q \/ q + m <= p.
Proof.
  intros Hr Hp Hq Hne.
  apply (client_apart lb mx lim Hlb Hmx Hk c _ p n q m (g_cache _ _ _ _ Hr)); [by eapply in_cache..|done].
Qed.

Lemma addrs_nodup c r H rl : region_inv c r H rl -> NoDup (addrs rl).
Proof.
  intros Hr. pose proof (region_nodup _ _ _ _ Hr) as Hnd.
  assert (Hsub : forall x, x ∈ rl -> x ∈ rl) by done. revert Hnd Hsub. generalize rl at 1 2 4. intros l.
  induction l as [|[[p n] u] l IH]; intros Hnd Hsub; [constructor|]. cbn [addrs].
  cbn [fmap list_fmap fst] in Hnd. apply NoDup_cons in Hnd as [Hp Hnd].
  apply NoDup_app. split_and!; [apply IH; [done|intros x Hx; apply Hsub; by right]| |apply NoDup_seqZ].
  intros a Ha Hx%elem_of_seqZ. apply addrs_in in Ha as (q & m & v & Hq & Ha).
  pose proof (Hsub _ ltac:(right; exact Hq)) as Hq'. pose proof (Hsub (p, n, u) ltac:(left)) as Hp'.
  destruct (g_used _ _ _ _ Hr _ _ _ Hq') as (_ & ? & _). destruct (g_used _ _ _ _ Hr _ _ _ Hp') as (_ & ? & _).
  destruct (slabs_apart _ _ _ _ p n u q m v Hr Hp' Hq') as [?|?]; [|lia..].
  intros ->. apply Hp, list_elem_of_fmap. by exists (q, m, v).
Qed.

(** ** Reservation and allocation *)

(** The sizes a region can be asked for. *)
Definition region_fits (size : Z) : Prop := 0 < size /\ size + 56 <= 2 ^ 32 /\ fits (size + 8).

(** The fields of the callbacks are as they were. *)
Definition same_callbacks (r r' : region) : Prop :=
  on_alloc_cb r' = on_alloc_cb r /\ on_truncate_cb r' = on_truncate_cb r /\ cb_arg r' = cb_arg r.

Lemma region_reserve_slow_spec c r H rl sz : region_inv c r H rl -> region_fits sz ->
  exists p c' r', region_reserve_slow c r sz = Some (p, c', r') /\ reserved r' = reserved r /\
    same_callbacks r r' /\ calls r' = calls r /\
    ((p = NULL /\ r' = r /\ region_inv c' r H rl) \/
     exists q n, 0 < p /\ p = q + 56 /\ sz <= n - 56 /\ region_inv c' r' H ((q, n, 0) :: rl)).
Proof.
  intros Hr (Hs & H32 & Hf). unfold region_reserve_slow. rewrite rslab_sizeof_eq, slab_sizeof_eq.
  replace (sz + 56 - 48) with (sz + 8) by lia. rewrite u64_small by lia.
  destruct (client_get lb mx lim Hlb Hmx Hk c _ (sz + 8) (g_cache _ _ _ _ Hr) Hf) as (q & c' & -> & Hq).
  cbn [mbind option_bind]. destruct Hq as [[-> Hc]|(n & s & Hq & Hc & Hn & Hn' & Hm & Hsz & _)].
  - cbn [Z.eqb]. eexists _, _, _. split; [done|]. do 3 (split; [done|]). left. destruct Hr; by split_and!; try split.
  - rewrite (proj2 (Z.eqb_neq q NULL)) by lia. rewrite Hm. cbn [mbind option_bind].
    eexists _, _, _. split; [done|]. do 3 (split; [done|]). right. exists q, n.
    unfold rslab_data. rewrite rslab_sizeof_eq. split_and!; [lia|done|lia|].
    pose proof (pow2_mono (lb + mx) 31 ltac:(lia)).
    assert (Hnew : forall p0 n0 u0, (p0, n0, u0) ∈ rl -> q <> p0).
    { intros p0 n0 u0 Hin. apply (client_new lb mx lim Hlb Hmx c' _ q n p0 n0 Hc). by eapply in_cache. }
    destruct Hr as [G1 G2 G3 (G4 & G4') G5]. split.
    + cbn. by rewrite G1.
    + done.
    + intros p0 n0 u0 [[= -> -> ->]|Hin]%elem_of_cons; cbn [set_region_slabs set_rslab_used rslab_used].
      * rewrite lookup_insert_eq. split_and!; (done || lia).
      * rewrite lookup_insert_ne by (by eapply Hnew). by apply G3.
    + change (zsum rused ((q, n, 0) :: rl)) with (0 + zsum rused rl). rewrite Z.add_0_l. done.
    + change (zsum rsize ((q, n, 0) :: rl)) with (n + zsum rsize rl).
      unfold region_total in *. cbn. rewrite G5, Hsz, u64_add_l. f_equal. lia.
Qed.

(** The invariant is about the list of slabs and their counters. *)
Lemma region_inv_ext c r r' H rl : region_slabs r' = region_slabs r -> rslab_used r' = rslab_used r ->
  region_inv c r H rl -> region_inv c r' H rl.
Proof.
  intros E1 E2 [G1 G2 G3 G4 G5]. unfold region_used, region_total in *.
  split; unfold region_used, region_total; rewrite ?E1, ?E2; done.
Qed.

Lemma region_reserve_spec c r H rl sz : region_inv c r H rl -> region_fits sz -> reserved r = false ->
  exists p c' r', region_reserve c r sz = Some (p, c', r') /\ same_callbacks r r' /\ calls r' = calls r /\
    ((p = NULL /\ reserved r' = false /\ region_inv c' r' H rl) \/
     exists q n u rl', 0 < p /\ reserved r' = true /\ p = q + 56 + u /\ sz <= n - 56 - u /\
       region_inv c' r' H ((q, n, u) :: rl') /\ ((q, n, u) :: rl' = rl \/ (u = 0 /\ rl' = rl))).
Proof.
  intros Hr Hf Hres. unfold region_reserve. rewrite Hres. cbn [negb].
  assert (Hslow : exists p c' r', ('(ptr, c, r) ← region_reserve_slow c r sz;
      Some (ptr, c, if negb (ptr =? NULL) then set_reserved r true else r)) = Some (p, c', r') /\
      same_callbacks r r' /\ calls r' = calls r /\
      ((p = NULL /\ reserved r' = false /\ region_inv c' r' H rl) \/
       exists q n u rl', 0 < p /\ reserved r' = true /\ p = q + 56 + u /\ sz <= n - 56 - u /\
       region_inv c' r' H ((q, n, u) :: rl') /\ ((q, n, u) :: rl' = rl \/ (u = 0 /\ rl' = rl)))).
  { destruct (region_reserve_slow_spec c r H rl sz Hr Hf) as (p & c' & r' & -> & Er & Ecb & Ecl & Hp).
    cbn [mbind option_bind]. destruct Hp as [(-> & -> & Hr')|(q & n & Hp & Ep & Hn & Hr')].
    - eexists _, _, _. split; [done|]. do 2 (split; [done|]). by left.
    - rewrite (proj2 (Z.eqb_neq p NULL)) by lia. cbn [negb]. eexists _, _, _. split; [done|].
      do 2 (split; [done|]). right. exists q, n, 0, rl. split_and!; try done; [lia|lia|by apply (region_inv_ext c' r')|by right]. }
  unfold first_slab. rewrite (g_slabs _ _ _ _ Hr). destruct rl as [|[[q n] u] rl]; cbn [fmap list_fmap head fst].
  { cbn [mbind option_bind Z.eqb]. exact Hslow. }
  destruct (slab_header _ _ _ _ q n u Hr ltac:(left)) as (Hq & h & _ & _ & _ & -> & Ee). cbn [mbind option_bind].
  destruct (Z.leb_spec sz (n - 56 - u)) as [Hle|Hgt]; [|cbn [mbind option_bind Z.eqb]; exact Hslow].
  rewrite Ee. cbn [mbind option_bind]. destruct (g_used _ _ _ _ Hr q n u ltac:(left)) as (_ & ? & _).
  rewrite (proj2 (Z.eqb_neq _ NULL)) by lia. cbn [mbind option_bind]. rewrite (proj2 (Z.eqb_neq _ NULL)) by lia. cbn [negb].
  eexists _, _, _. split; [done|]. do 2 (split; [done|]). right. exists q, n, u, rl.
  split_and!; try done; [lia|by apply (region_inv_ext c r)|by left].
Qed.

Definition on_alloc_events (r : region) (size : Z) : list event :=
  if negb (on_alloc_cb r =? NULL) then [OnAlloc (region_used r) size (cb_arg r)] else [].

Lemma take_spec c r H q n u rl sz : region_inv c r H ((q, n, u) :: rl) -> 0 < sz <= n - 56 - u ->
  zsum rused ((q, n, u) :: rl) + sz < 2 ^ 64 ->
  exists r', region_take c r q sz = Some r' /\ region_inv c r' H ((q, n, u + sz) :: rl) /\ reserved r' = false /\
    same_callbacks r r' /\ calls r' = calls r ++ on_alloc_events r sz.
Proof.
  intros Hr Hs Hlt. destruct (slab_header _ _ _ _ q n u Hr ltac:(left)) as (Hq & h & _ & _ & Eu & Een & _).
  destruct (g_used _ _ _ _ Hr q n u ltac:(left)) as (_ & Hb & Hn).
  destruct (g_stats _ _ _ _ Hr) as (Est & Hst).
  pose proof (region_nodup _ _ _ _ Hr) as Hnd. cbn [fmap list_fmap fst] in Hnd. apply NoDup_cons in Hnd as [Hnew _].
  unfold region_take. rewrite Een. cbn [mbind option_bind]. rewrite (proj2 (Z.leb_le _ _)) by lia.
  assert (Ec : rslab_used (call_on_alloc r sz) = rslab_used r /\ region_slabs (call_on_alloc r sz) = region_slabs r)
    by (unfold call_on_alloc; by destruct (negb _)).
  destruct Ec as [Ec1 Ec2]. rewrite Ec1, Eu. cbn [mbind option_bind]. eexists. split; [done|].
  assert (Hpos : 0 <= zsum rused ((q, n, u) :: rl)).
  { apply addrs_length. intros [[p0 n0] u0] Hin. by destruct (g_used _ _ _ _ Hr p0 n0 u0 Hin) as (_ & [? _] & _). }
  change (zsum rused ((q, n, u) :: rl)) with (u + zsum rused rl) in *.
  split; [|split_and!; [done|unfold call_on_alloc; by destruct (negb _)..|]].
  2:{ unfold on_alloc_events, call_on_alloc. destruct (negb _); cbn; [done|by rewrite app_nil_r]. }
  destruct Hr as [G1 G2 G3 G4 G5]. split.
  - cbn. by rewrite Ec2, G1.
  - done.
  - intros p0 n0 u0 [[= -> -> ->]|Hin]%elem_of_cons; cbn [set_reserved set_rslab_used rslab_used].
    + rewrite lookup_insert_eq, u32_small by lia. split_and!; (done || lia).
    + rewrite lookup_insert_ne; [cbn; rewrite Ec1; apply G3; by right|]. intros ->. apply Hnew, list_elem_of_fmap.
      by exists (p0, n0, u0).
  - change (zsum rused ((q, n, u + sz) :: rl)) with (u + sz + zsum rused rl).
    unfold region_used in *. cbn. rewrite Ec2, Est, u64_small by lia. lia.
  - unfold region_total in *. cbn. rewrite Ec2, G5. done.
Qed.

Lemma addrs_grow q n u rl sz : 0 <= u -> 0 <= sz ->
  addrs ((q, n, u + sz) :: rl) = addrs ((q, n, u) :: rl) ++ seqZ (q + 56 + u) sz.
Proof. intros Hu Hs. cbn [addrs]. rewrite seqZ_app by done. by rewrite app_assoc. Qed.

Lemma addrs_head q n u rl' rl : (q, n, u) :: rl' = rl \/ (u = 0 /\ rl' = rl) ->
  addrs ((q, n, u) :: rl') = addrs rl /\ zsum rused ((q, n, u) :: rl') = zsum rused rl.
Proof.
  intros [<-|[-> ->]]; [done|]. cbn [addrs]. rewrite app_nil_r. split; [done|].
  by change (zsum rused ((q, n, 0) :: rl)) with (0 + zsum rused rl).
Qed.

Lemma region_alloc_spec c r H rl sz : region_inv c r H rl -> region_fits sz -> zsum rused rl + sz < 2 ^ 64 ->
  exists p c' r', region_alloc c r sz = Some (p, c', r') /\ reserved r' = false /\ same_callbacks r r' /\
    ((p = NULL /\ calls r' = calls r /\ region_inv c' r' H rl) \/
     exists rl', 0 < p /\ calls r' = calls r ++ on_alloc_events r sz /\ region_inv c' r' H rl' /\
       addrs rl' = addrs rl ++ seqZ p sz).
Proof.
  intros Hr Hf Hlt. unfold region_alloc. rewrite (proj2 (Z.ltb_lt _ _)) by apply Hf.
  assert (Hr1 : region_inv c (set_reserved r false) H rl) by (by apply (region_inv_ext c r)).
  destruct (region_reserve_spec c _ H rl sz Hr1 Hf eq_refl) as (p & c' & r' & -> & Ecb & Ecl & Hp). cbn [mbind option_bind].
  destruct Hp as [(-> & Eres & Hr')|(q & n & u & rl' & Hp & _ & Ep & Hle & Hr' & Hrl)].
  - cbn [Z.eqb negb]. eexists _, _, _. split; [done|]. do 2 (split; [done|]). by left.
  - rewrite (proj2 (Z.eqb_neq p NULL)) by lia. cbn [negb]. unfold first_slab. rewrite (g_slabs _ _ _ _ Hr').
    cbn [fmap list_fmap head fst mbind option_bind]. destruct (addrs_head q n u rl' rl Hrl) as [Ea Es].
    destruct (take_spec c' r' H q n u rl' sz Hr') as (r2 & -> & Hr2 & Eres & Ecb2 & Ecl2);
      [destruct Hf; lia|rewrite Es; done|].
    cbn [mbind option_bind]. eexists _, _, _. split; [done|]. split; [done|].
    destruct (g_used _ _ _ _ Hr' q n u ltac:(left)) as (_ & [Hu _] & _).
    split; [destruct Ecb as (? & ? & ?), Ecb2 as (? & ? & ?); split_and!; cbn in *; congruence|].
    right. exists ((q, n, u + sz) :: rl'). split_and!; [done| |done|].
    + rewrite Ecl2, Ecl. unfold on_alloc_events. destruct Ecb as (Ecb & _ & Earg). rewrite Ecb, Earg.
      cbn [set_reserved on_alloc_cb cb_arg calls].
      rewrite (proj1 (g_stats _ _ _ _ Hr')), Es, <- (proj1 (g_stats _ _ _ _ Hr)). done.
    + destruct Hf. rewrite addrs_grow by lia. by rewrite Ea, Ep.
Qed.

(** ** Truncation *)

(** The region with the counter of used bytes brought in line with its slabs,
    which the loop of [region_truncate] leaves behind. *)
Local Abbreviation settled r rl := (set_stats_used r (zsum rused rl)).

Lemma rused_nonneg c r H rl : region_inv c r H rl -> forall x, x ∈ rl -> 0 <= rused x.
Proof. intros Hr [[p n] u] Hin. by destruct (g_used _ _ _ _ Hr p n u Hin) as (_ & [? _] & _). Qed.

Lemma drop_slab c r H p n u rl : region_inv c (settled r ((p, n, u) :: rl)) H ((p, n, u) :: rl) ->
  exists h sl c', mem c !! p = Some h /\ slab_list_del p (size h) (region_slabs r) = Some sl /\
    slab_put c p = Some c' /\ region_inv c' (settled (set_region_slabs r sl) rl) H rl.
Proof.
  intros Hr. destruct (slab_header _ _ _ _ p n u Hr ltac:(left)) as (_ & h & Hh & Hsz & _).
  pose proof (g_slabs _ _ _ _ Hr) as G1. cbn in G1.
  destruct (client_put lb mx lim Hlb Hmx Hk c _ p n (((fun x => x.1) <$> rl) ++ H) (g_cache _ _ _ _ Hr)) as (c' & Ep & Hc');
    [done|].
  unfold slab_list_del. rewrite G1. cbn [list_remove]. rewrite Z.eqb_refl. cbn [mbind option_bind].
  eexists h, _, c'. split_and!; [done|done|done|].
  pose proof (rused_nonneg _ _ _ _ Hr (p, n, u) ltac:(left)) as Hu. change (rused (p, n, u)) with u in Hu.
  destruct Hr as [_ _ G3 (_ & G4) G5]. change (zsum rused ((p, n, u) :: rl)) with (u + zsum rused rl) in *.
  change (zsum rsize ((p, n, u) :: rl)) with (n + zsum rsize rl) in *. split.
  - done.
  - done.
  - intros p0 n0 u0 Hin. apply (G3 p0 n0 u0). by right.
  - split; [done|lia].
  - unfold region_total in *. cbn in *. rewrite G5, Hsz, u64_add_l. f_equal. lia.
Qed.

Lemma trim_slab c r H p n u rl cut : region_inv c (settled r ((p, n, u) :: rl)) H ((p, n, u) :: rl) -> 0 <= cut <= u ->
  region_inv c (settled (set_rslab_used r p (u32 (u - cut))) ((p, n, u - cut) :: rl)) H ((p, n, u - cut) :: rl).
Proof.
  intros Hr Hcut. destruct (g_used _ _ _ _ Hr p n u ltac:(left)) as (_ & Hu & Hn).
  pose proof (region_nodup _ _ _ _ Hr) as Hnd. cbn [fmap list_fmap fst] in Hnd. apply NoDup_cons in Hnd as [Hnew _].
  rewrite u32_small by lia.
  destruct Hr as [G1 G2 G3 (G4 & G4') G5]. change (zsum rused ((p, n, u) :: rl)) with (u + zsum rused rl) in *.
  split; try done.
  - intros p0 n0 u0 [[= -> -> ->]|Hin]%elem_of_cons; cbn [set_stats_used set_region_slabs set_rslab_used rslab_used].
    + rewrite lookup_insert_eq. split_and!; (done || lia).
    + rewrite lookup_insert_ne; [apply (G3 p0 n0 u0); by right|]. intros ->. apply Hnew, list_elem_of_fmap.
      by exists (p0, n0, u0).
  - change (zsum rused ((p, n, u - cut) :: rl)) with (u - cut + zsum rused rl). split; [done|lia].
Qed.

(** [M'] has the bytes of [M] at the addresses of [l]. *)
Definition same_at (M M' : memory) (l : list Z) : Prop := forall a, a ∈ l -> M' a = M a.

Lemma truncate_loop_spec M H rl : forall c r cut,
  region_inv c (settled r rl) H rl -> 0 <= cut <= zsum rused rl ->
  exists c' M' r' rl', truncate_loop c M r ((fun x => x.1.1) <$> rl) cut = Some (c', M', r', 0) /\
    region_inv c' (settled r' rl') H rl' /\ zsum rused rl' = zsum rused rl - cut /\
    addrs rl' = take (Z.to_nat (zsum rused rl - cut)) (addrs rl) /\ same_at M M' (addrs rl') /\
    (forall a, a ∉ addrs rl -> M' a = M a) /\ same_callbacks r r' /\ calls r' = calls r.
Proof.
  induction rl as [|[[p n] u] rl IH]; intros c r cut Hr Hcut; cbn [fmap list_fmap truncate_loop fst].
  - assert (cut = 0) as -> by (cbn in Hcut; lia). by eexists _, _, _, [].
  - destruct (slab_header _ _ _ _ p n u Hr ltac:(left)) as (Hp & _ & _ & _ & Eu & _ & Ee).
    cbn [set_stats_used set_region_slabs rslab_used] in Eu. unfold rslab_data_end in *.
    cbn [set_stats_used set_region_slabs rslab_used] in Ee. rewrite Eu in Ee |- *. cbn [mbind option_bind] in *.
    destruct (g_used _ _ _ _ Hr p n u ltac:(left)) as (_ & Hu & Hn).
    destruct (addrs_length _ (rused_nonneg _ _ _ _ Hr)) as [Hlen _]. pose proof (addrs_nodup _ _ _ _ Hr) as Hnd.
    change (zsum rused ((p, n, u) :: rl)) with (u + zsum rused rl) in *.
    rewrite Z.gtb_ltb. destruct (Z.ltb_spec cut u) as [Hlt|Hge].
    + change (rslab_data p) with (p + 56). eexists _, _, _, ((p, n, u - cut) :: rl). split; [done|].
      split; [apply trim_slab; [done|lia]|].
      change (zsum rused ((p, n, u - cut) :: rl)) with (u - cut + zsum rused rl).
      assert (Ea : addrs ((p, n, u) :: rl) = addrs ((p, n, u - cut) :: rl) ++ seqZ (p + 56 + (u - cut)) cut).
      { replace u with (u - cut + cut) at 1 by lia. apply addrs_grow; lia. }
      split_and!; [lia| | | |done|done].
      * rewrite Ea, take_app_length'; [done|]. rewrite Ea, length_app, length_seqZ in Hlen. lia.
      * intros a Ha. apply (memset_outside M). intros Hx.
        rewrite Ea in Hnd. apply NoDup_app in Hnd as (_ & Hd & _). apply (Hd a Ha), elem_of_seqZ. lia.
      * intros a Ha. apply (memset_outside M). intros Hx. apply Ha. rewrite Ea. apply elem_of_app. right.
        apply elem_of_seqZ. lia.
    + destruct (drop_slab c r H p n u rl Hr) as (h & sl & c1 & E1 & E2 & E3 & Hr1).
      rewrite E1. cbn [mbind option_bind]. rewrite E2. cbn [mbind option_bind]. rewrite E3. cbn [mbind option_bind].
      pose proof (proj2 (g_stats _ _ _ _ Hr)) as Hlt.
      change (zsum rused ((p, n, u) :: rl)) with (u + zsum rused rl) in Hlt. rewrite u64_small by lia.
      destruct (IH c1 (set_region_slabs r sl) (cut - u) Hr1 ltac:(lia)) as (c' & M' & r' & rl' & E & Hr' & Hz & Ea & Hs & Ho & Hcb).
      exists c', M', r', rl'. rewrite E. split_and!; try done; [lia| | |apply Hcb..].
      * rewrite Ea. cbn [addrs]. rewrite take_app_le.
        -- f_equal. lia.
        -- destruct (addrs_length rl) as [Hl' _]; [|lia]. intros x Hx. apply (rused_nonneg _ _ _ _ Hr). by right.
      * intros a Ha. apply Ho. intros Hx. apply Ha. cbn [addrs]. apply elem_of_app. by left.
Qed.

Definition on_truncate_events (r : region) (used : Z) : list event :=
  if negb (on_truncate_cb r =? NULL) then [OnTruncate used used (cb_arg r)] else [].

Lemma truncate_spec c M r H rl n : region_inv c r H rl -> 0 <= n <= zsum rused rl ->
  exists c' M' r' rl', region_truncate c M r n = Some (c', M', r') /\ region_inv c' r' H rl' /\
    addrs rl' = take (Z.to_nat n) (addrs rl) /\ same_at M M' (addrs rl') /\
    (forall a, a ∉ addrs rl -> M' a = M a) /\ reserved r' = false /\ same_callbacks r r' /\
    calls r' = calls r ++ on_truncate_events r n.
Proof.
  intros Hr Hn. destruct (g_stats _ _ _ _ Hr) as (Hst & Hlt). unfold region_truncate.
  rewrite Z.geb_leb, (proj2 (Z.leb_le _ _)) by lia. rewrite Hst, u64_small by lia. rewrite (g_slabs _ _ _ _ Hr).
  assert (Hr0 : region_inv c (settled r rl) H rl).
  { destruct Hr as [G1 G2 G3 G4 G5]. split; try done. }
  destruct (truncate_loop_spec M H rl c r (zsum rused rl - n) Hr0 ltac:(lia))
    as (c' & M' & r' & rl' & -> & Hr' & Hz & Ea & Hs & Ho & Hcb & Hcl).
  cbn [mbind option_bind Z.eqb]. replace (zsum rused rl - (zsum rused rl - n)) with n in * by lia.
  eexists _, _, _, rl'. split; [done|].
  split; [|split_and!; [done|done|done|unfold call_on_truncate; by destruct (negb _)|..]].
  - rewrite Hz in Hr'. by apply (region_inv_ext c' (set_stats_used r' n)); [unfold call_on_truncate; destruct (negb _)..|].
  - unfold call_on_truncate. by destruct (negb _).
  - unfold on_truncate_events, call_on_truncate. destruct Hcb as (_ & Hcb & Harg).
    cbn [set_stats_used set_reserved set_region_slabs on_truncate_cb]. rewrite Hcb.
    destruct (negb _); cbn; rewrite Hcl; [by rewrite Harg|by rewrite app_nil_r].
Qed.

Lemma free_slabs_spec c H rl : holds c (((fun x : Z * Z * Z => x.1) <$> rl) ++ H) ->
  exists c', free_slabs c ((fun x => x.1.1) <$> rl) = Some c' /\ holds c' H.
Proof.
  revert c. induction rl as [|[[p n] u] rl IH]; intros c Hc; [by exists c|]. cbn [fmap list_fmap free_slabs fst].
  destruct (client_put lb mx lim Hlb Hmx Hk c _ p n (((fun x => x.1) <$> rl) ++ H) Hc) as (c1 & -> & Hc1); [done|].
  cbn [mbind option_bind]. by apply IH.
Qed.

Lemma free_spec c r H rl : region_inv c r H rl ->
  exists c' r', region_free c r = Some (c', r') /\ region_inv c' r' H [] /\ holds c' H /\ reserved r' = false /\
    same_callbacks r r' /\ calls r' = calls r ++ on_truncate_events r 0.
Proof.
  intros Hr. unfold region_free. rewrite (g_slabs _ _ _ _ Hr).
  destruct (free_slabs_spec c H rl (g_cache _ _ _ _ Hr)) as (c' & -> & Hc'). cbn [mbind option_bind].
  eexists _, _. split; [done|]. split.
  { apply (region_inv_ext c' (set_region_slabs r slab_list_create)); [unfold call_on_truncate; by destruct (negb _)..|].
    split; try done. by intros p n u ?%elem_of_nil. }
  split_and!; [done|unfold call_on_truncate; by destruct (negb _)..|].
  unfold on_truncate_events, call_on_truncate. cbn [set_region_slabs on_truncate_cb].
  destruct (negb _); cbn; [done|by rewrite app_nil_r].
Qed.

Lemma region_reset_spec c r H rl : region_inv c r H rl ->
  exists r' rl', region_reset r = Some r' /\ region_inv c r' H rl' /\ addrs rl' = addrs (tail rl) /\ reserved r' = false /\
    same_callbacks r r' /\ calls r' = calls r.
Proof.
  intros Hr. unfold region_reset, first_slab. rewrite (g_slabs _ _ _ _ Hr).
  destruct rl as [|[[p n] u] rl]; cbn [fmap list_fmap head fst tail].
  { cbn [mbind option_bind]. eexists _, []. split; [done|]. split; [by apply (region_inv_ext c r)|done]. }
  destruct (slab_header _ _ _ _ p n u Hr ltac:(left)) as (_ & h & _ & _ & Eu & _). rewrite Eu. cbn [mbind option_bind].
  destruct (g_used _ _ _ _ Hr p n u ltac:(left)) as (_ & Hu & Hn). destruct (g_stats _ _ _ _ Hr) as (Hst & Hlt).
  destruct (addrs_length _ (rused_nonneg _ _ _ _ Hr)) as [_ Hpos].
  change (zsum rused ((p, n, u) :: rl)) with (u + zsum rused rl) in *.
  assert (Hz : 0 <= zsum rused rl).
  { apply addrs_length. intros x Hx. apply (rused_nonneg _ _ _ _ Hr). by right. }
  eexists _, ((p, n, 0) :: rl). split; [done|].
  split; [|split_and!; [cbn [addrs]; by rewrite app_nil_r|done..]].
  assert (Hr0 : region_inv c (settled r ((p, n, u) :: rl)) H ((p, n, u) :: rl)).
  { destruct Hr as [G1 G2 G3 G4 G5]. split; try done. }
  pose proof (trim_slab c r H p n u rl u Hr0 ltac:(lia)) as Ht. rewrite Z.sub_diag in Ht.
  change (zsum rused ((p, n, 0) :: rl)) with (0 + zsum rused rl) in Ht.
  rewrite Hst. replace (u64 (u + zsum rused rl - u)) with (0 + zsum rused rl) by (rewrite u64_small by lia; lia).
  refine (region_inv_ext c _ _ H _ _ _ Ht); done.
Qed.

(** ** Aligned allocation *)

Lemma aligned_alloc_spec c r H rl sz k : region_inv c r H rl -> 0 <= k < 32 -> 0 < sz ->
  region_fits (sz + 2 ^ k - 1) -> zsum rused rl + sz + 2 ^ k <= 2 ^ 64 ->
  exists base c1 r1, region_reserve c (set_reserved r false) (sz + 2 ^ k - 1) = Some (base, c1, r1) /\
    (base + 2 ^ k < 2 ^ 64 ->
     exists p c' r', region_aligned_alloc c r sz (2 ^ k) = Some (p, c', r') /\
       ((p = NULL /\ base = NULL /\ region_inv c' r' H rl) \/
        exists rl', 0 < base <= p /\ p < base + 2 ^ k /\ p mod 2 ^ k = 0 /\ region_inv c' r' H rl' /\
          addrs rl' = addrs rl ++ seqZ base (p - base + sz) /\
          calls r' = calls r ++ on_alloc_events r (p - base + sz))).
Proof.
  intros Hr Hk32 Hs Hf Hlt. pose proof (pow2_pos k ltac:(lia)) as Hpk. pose proof (pow2_mono k 31 ltac:(lia)).
  assert (Hr1 : region_inv c (set_reserved r false) H rl) by (by apply (region_inv_ext c r)).
  destruct (region_reserve_spec c _ H rl _ Hr1 Hf eq_refl) as (base & c1 & r1 & E & Ecb & Ecl & Hp).
  exists base, c1, r1. split; [done|]. intros Hb. unfold region_aligned_alloc, region_aligned_reserve.
  rewrite (proj2 (Z.ltb_lt 0 sz)) by done. destruct Hf as (_ & Hf32 & _). rewrite u64_small by lia. rewrite E. cbn [mbind option_bind].
  assert (Hb0 : 0 <= base) by (destruct Hp as [(-> & _)|(? & ? & ? & ? & ? & _)]; lia).
  rewrite small_align_ok_pow2 by lia.
  destruct (small_align_bounds base k ltac:(lia) Hb0 Hb) as [Hp1 Hp2].
  destruct Hp as [(-> & Eres & Hr')|(q & n & u & rl' & Hp & _ & Ep & Hle & Hr' & Hrl)].
  - assert (E0 : small_align 0 (2 ^ k) = 0) by (apply small_align_id; [lia..|by rewrite Z.mod_0_l by lia]).
    cbn [mbind option_bind]. rewrite E0. cbn [Z.eqb negb]. eexists _, _, _. split; [done|]. by left.
  - cbn [mbind option_bind]. set (p := small_align base (2 ^ k)) in *.
    rewrite (proj2 (Z.eqb_neq p NULL)) by lia. cbn [negb].
    unfold first_slab. rewrite (g_slabs _ _ _ _ Hr'). cbn [fmap list_fmap head fst mbind option_bind].
    destruct (slab_header _ _ _ _ q n u Hr' ltac:(left)) as (_ & h & _ & _ & _ & _ & ->). cbn [mbind option_bind].
    destruct (g_used _ _ _ _ Hr' q n u ltac:(left)) as (_ & [Hu _] & _).
    rewrite <- Ep, u32_small by lia. destruct (addrs_head q n u rl' rl Hrl) as [Ea Es].
    destruct (take_spec c1 r1 H q n u rl' (p - base + sz) Hr') as (r2 & -> & Hr2 & _ & _ & Ecl2); [lia|rewrite Es; lia|].
    cbn [mbind option_bind]. eexists _, _, _. split; [done|]. right. exists ((q, n, u + (p - base + sz)) :: rl').
    split_and!; try done; try lia.
    + rewrite addrs_grow by lia. by rewrite Ea, Ep.
    + rewrite Ecl2, Ecl. unfold on_alloc_events. destruct Ecb as (Ecb & _ & Earg). rewrite Ecb, Earg.
      cbn [set_reserved on_alloc_cb cb_arg calls].
      rewrite (proj1 (g_stats _ _ _ _ Hr')), Es, <- (proj1 (g_stats _ _ _ _ Hr)). done.
Qed.

(** ** Joining *)

(** An allocation that fits behind the head slab. *)
Lemma alloc_here c r H q n u rl sz : region_inv c r H ((q, n, u) :: rl) -> 0 < sz <= n - 56 - u ->
  zsum rused ((q, n, u) :: rl) + sz < 2 ^ 64 ->
  exists r', region_alloc c r sz = Some (q + 56 + u, c, r') /\ region_inv c r' H ((q, n, u + sz) :: rl) /\
    reserved r' = false.
Proof.
  intros Hr Hs Hlt. unfold region_alloc. rewrite (proj2 (Z.ltb_lt _ _)) by lia.
  assert (Hr1 : region_inv c (set_reserved (set_reserved r false) true) H ((q, n, u) :: rl)) by (by apply (region_inv_ext c r)).
  destruct (slab_header _ _ _ _ q n u Hr ltac:(left)) as (Hq & h & _ & _ & _ & Een & Ee).
  destruct (g_used _ _ _ _ Hr q n u ltac:(left)) as (_ & [Hu _] & _).
  unfold region_reserve. cbn [set_reserved reserved negb]. unfold first_slab. cbn [set_reserved region_slabs].
  rewrite (g_slabs _ _ _ _ Hr). cbn [fmap list_fmap head fst].
  change (rslab_unused c (set_reserved r false) q) with (rslab_unused c r q). rewrite Een. cbn [mbind option_bind].
  rewrite (proj2 (Z.leb_le _ _)) by lia. change (rslab_data_end (set_reserved r false) q) with (rslab_data_end r q).
  rewrite Ee. cbn [mbind option_bind]. rewrite (proj2 (Z.eqb_neq _ NULL)) by lia. cbn [mbind option_bind].
  rewrite (proj2 (Z.eqb_neq _ NULL)) by lia. cbn [negb]. cbn [set_reserved region_slabs].
  rewrite (g_slabs _ _ _ _ Hr). cbn [fmap list_fmap head fst mbind option_bind].
  destruct (take_spec c _ H q n u rl sz Hr1 Hs Hlt) as (r2 & E2 & Hr2 & Eres & _).
  cbn [set_reserved] in E2 |- *. rewrite E2. cbn [mbind option_bind]. by exists r2.
Qed.

(** No slab of [rl] keeps data in the [n] bytes at [ptr]. *)
Definition clear_of (rl : rslabs) (ptr n : Z) : Prop :=
  forall p m u, (p, m, u) ∈ rl -> p + 56 + u <= ptr \/ ptr + n <= p + 56.

(** The loop copies the newest bytes, up to a slab that has more of them than
    are missing. *)
Lemma join_loop_spec r ptr n rl : forall M offset, 
  (forall p m u, (p, m, u) ∈ rl -> rslab_used r !! p = Some u /\ 0 <= u) ->
  clear_of rl ptr n -> 0 <= offset <= n -> offset <= zsum rused rl ->
  exists M' off rl' T, join_loop M r ptr offset ((fun x => x.1.1) <$> rl) = Some (M', off, (fun x => x.1.1) <$> rl') /\
    0 <= off <= offset /\ same_outside M M' ptr offset /\ addrs rl = addrs rl' ++ T /\
    load M' (ptr + off) (offset - off) = M <$> T /\ (forall x, x ∈ rl' -> x ∈ rl) /\
    (off = 0 \/ exists p m u rl2, rl' = (p, m, u) :: rl2 /\ off < u).
Proof.
  induction rl as [|[[p m] u] rl IH]; intros M offset Hu Hcl Ho Hle; cbn [fmap list_fmap join_loop fst].
  - assert (offset = 0) as -> by (cbn in Hle; lia). eexists _, _, [], []. split; [done|]. split_and!; try done. by left.
  - destruct (Hu p m u ltac:(left)) as (Eu & Hu0).
    change (zsum rused ((p, m, u) :: rl)) with (u + zsum rused rl) in Hle.
    assert (Hstop : offset = 0 \/ offset < u -> exists M' off rl' T,
      Some (M, offset, p :: ((fun x => x.1.1) <$> rl)) = Some (M', off, (fun x => x.1.1) <$> rl') /\
      0 <= off <= offset /\ same_outside M M' ptr offset /\ addrs ((p, m, u) :: rl) = addrs rl' ++ T /\
      load M' (ptr + off) (offset - off) = M <$> T /\ (forall x, x ∈ rl' -> x ∈ (p, m, u) :: rl) /\
      (off = 0 \/ exists p m u rl2, rl' = (p, m, u) :: rl2 /\ off < u)).
    { intros Hs. eexists _, _, ((p, m, u) :: rl), []. split; [done|]. rewrite app_nil_r, Z.sub_diag.
      split_and!; try done; [lia|]. destruct Hs as [->|Hs]; [by left|right]. by eexists _, _, _, _. }
    destruct (Z.ltb_spec 0 offset) as [Hpos|]; [|apply Hstop; lia]. rewrite Eu. cbn [mbind option_bind].
    destruct (Z.leb_spec u offset) as [Hleu|]; [|apply Hstop; lia].
    change (rslab_data p) with (p + 56).
    rewrite memcpy_apart by (destruct (Hcl p m u ltac:(left)); lia). cbn [mbind option_bind].
    set (M1 := memmove M (ptr + offset - u) (p + 56) u).
    destruct (IH M1 (offset - u)) as (M' & off & rl' & T & E & Hoff & Hso & Ea & El & Hin & Hend); [|..|lia|lia|].
    { intros p0 m0 u0 H0. apply (Hu p0 m0 u0). by right. }
    { intros p0 m0 u0 H0. apply (Hcl p0 m0 u0). by right. }
    exists M', off, rl', (T ++ seqZ (p + 56) u). rewrite E. split; [done|]. split_and!; [lia|lia| | | | |done].
    + intros a Ha. rewrite Hso by lia. apply (memmove_outside M). lia.
    + cbn [addrs]. by rewrite Ea, app_assoc.
    + replace (offset - off) with (offset - u - off + u) by lia. rewrite load_app, El, fmap_app by lia. f_equal.
      * apply list_fmap_ext. intros j a Ha. apply (memmove_outside M).
        assert (Hin' : a ∈ addrs rl) by (rewrite Ea; apply elem_of_app; right; by eapply list_elem_of_lookup_2).
        apply addrs_in in Hin' as (p0 & m0 & u0 & H0 & Hx). destruct (Hcl p0 m0 u0) as [?|?]; [by right|lia..].
      * replace (ptr + off + (offset - u - off)) with (ptr + offset - u) by lia.
        transitivity (load M1 (ptr + offset - u) u); [apply load_ext; intros a Ha; apply Hso; lia|apply load_memmove].
    + intros x Hx. right. by apply Hin.
Qed.

Lemma reserve_clear c r H q n u rl' rl sz : region_inv c r H ((q, n, u) :: rl') -> sz <= n - 56 - u ->
  (q, n, u) :: rl' = rl \/ (u = 0 /\ rl' = rl) -> clear_of rl (q + 56 + u) sz.
Proof.
  intros Hr Hs Hrl p m v Hin.
  assert (Hin' : (p, m, v) ∈ (q, n, u) :: rl') by (destruct Hrl as [->|[_ ->]]; [done|by right]).
  destruct (g_used _ _ _ _ Hr p m v Hin') as (Ev & Hv & _). destruct (g_used _ _ _ _ Hr q n u ltac:(left)) as (Eu & Hu & _).
  destruct (decide (p = q)) as [->|Hne]; [left; rewrite Ev in Eu; simplify_eq; lia|].
  destruct (slabs_apart _ _ _ _ p m v q n u Hr Hin' ltac:(left) Hne) as [?|?]; [left|right]; lia.
Qed.

(** The copies of [region_join], once [size] bytes at [ptr] are reserved. *)
Lemma join_copy M r ptr size rl :
  (forall p m u, (p, m, u) ∈ rl -> rslab_used r !! p = Some u /\ 0 <= u) ->
  clear_of rl ptr size -> 0 < size <= zsum rused rl ->
  exists M', ('(M, offset, rest) ← join_loop M r ptr size ((fun x => x.1.1) <$> rl);
      (if 0 <? offset then
         slab ← head rest;
         u ← rslab_used r !! slab;
         memcpy M ptr (rslab_data slab + u - offset) offset
       else Some M)) = Some M' /\ same_outside M M' ptr size /\
    load M' ptr size = M <$> drop (Z.to_nat (zsum rused rl - size)) (addrs rl).
Proof.
  intros Hu Hcl Hs.
  destruct (join_loop_spec r ptr size rl M size Hu Hcl ltac:(lia) ltac:(lia)) as (M1 & off & rl' & T & -> & Hoff & Hso & Ea & El & Hin & Hend).
  cbn [mbind option_bind]. destruct (addrs_length rl) as [Hlen _].
  { intros [[p m] u] Hx. by apply (Hu p m u). }
  assert (HT : Z.of_nat (length T) = size - off).
  { apply (f_equal length) in El. rewrite load_length, length_fmap in El. lia. }
  rewrite Ea, length_app in Hlen.
  destruct (Z.ltb_spec 0 off) as [Hpos|Hz].
  - destruct Hend as [?|(p & m & u & rl2 & -> & Hlt)]; [lia|]. cbn [fmap list_fmap head fst mbind option_bind].
    specialize (Hin (p, m, u) ltac:(left)). destruct (Hu p m u Hin) as [-> Hu0]. cbn [mbind option_bind].
    change (rslab_data p) with (p + 56). pose proof (Hcl p m u Hin) as Hd.
    rewrite memcpy_apart by lia. eexists. split; [done|].
    pose proof (seqZ_tail (p + 56) u off ltac:(lia)) as Eu.
    split.
    + intros a Ha. rewrite (memmove_outside M1) by lia. by apply Hso.
    + cbn [addrs] in Ea, Hlen. rewrite Eu, app_assoc, <- app_assoc in Ea. rewrite Ea.
      rewrite length_app, length_seqZ in Hlen. rewrite drop_app_length'.
      2:{ rewrite length_app, length_seqZ. lia. }
      replace size with (off + (size - off)) at 1 by lia. rewrite load_app, fmap_app by lia. f_equal.
      * rewrite load_memmove. unfold load. apply list_fmap_ext. intros j a [-> Hj]%lookup_seqZ. apply Hso. lia.
      * rewrite <- El. apply load_ext. intros a Ha. apply (memmove_outside M1). lia.
  - assert (off = 0) as -> by lia. eexists. split; [done|]. split; [done|].
    rewrite Z.add_0_r, Z.sub_0_r in El. rewrite Ea, drop_app_length' by lia. exact El.
Qed.

Lemma join_spec c M r H rl size : region_inv c r H rl -> reserved r = false -> 0 < size <= zsum rused rl ->
  region_fits size -> zsum rused rl + size < 2 ^ 64 ->
  exists ptr c' M' r', region_join c M r size = Some (ptr, c', M', r') /\ reserved r' = false /\
    ((ptr = NULL /\ M' = M /\ region_inv c' r' H rl) \/
     exists rl', 0 < ptr /\ region_inv c' r' H rl' /\ same_at M M' (addrs rl) /\
       load M' ptr size = M <$> drop (Z.to_nat (zsum rused rl - size)) (addrs rl) /\
       (rl' = rl \/ addrs rl' = addrs rl ++ seqZ ptr size)).
Proof.
  intros Hr Hres Hs Hf Hlt. destruct (g_stats _ _ _ _ Hr) as (Hst & _).
  unfold region_join. rewrite Hst, (proj2 (Z.leb_le _ _)), Hres, (proj2 (Z.ltb_lt _ _)) by lia. cbn [negb].
  unfold first_slab. rewrite (g_slabs _ _ _ _ Hr).
  destruct (addrs_length _ (rused_nonneg _ _ _ _ Hr)) as [Hlen _].
  destruct rl as [|[[p n] u] rl]; [cbn in Hs; lia|]. cbn [fmap list_fmap head fst mbind option_bind].
  destruct (slab_header _ _ _ _ p n u Hr ltac:(left)) as (Hp & h & _ & _ & -> & _). cbn [mbind option_bind].
  destruct (g_used _ _ _ _ Hr p n u ltac:(left)) as (_ & Hu & _). rewrite Z.geb_leb.
  destruct (Z.leb_spec size u) as [Hle|Hgt].
  - change (rslab_data p) with (p + 56). eexists _, _, _, _. split; [done|]. split; [done|]. right.
    exists ((p, n, u) :: rl). split_and!; [lia|done|done| |by left]. cbn [addrs] in *.
    rewrite length_app, length_seqZ in Hlen. rewrite (seqZ_tail (p + 56) u size), app_assoc by lia.
    rewrite drop_app_length'; [done|]. rewrite length_app, length_seqZ. lia.
  - assert (Hshow : p :: ((fun x => x.1.1) <$> rl) = (fun x : Z * Z * Z => x.1.1) <$> ((p, n, u) :: rl)) by done.
    cbn zeta. rewrite Hshow. clear Hshow. set (rl0 := (p, n, u) :: rl) in *.
    destruct (region_reserve_spec c r H rl0 size Hr Hf Hres) as (ptr & c' & r' & -> & _ & _ & Hptr). cbn [mbind option_bind].
    destruct Hptr as [(-> & Eres & Hr')|(q & m & v & rl' & Hp0 & _ & Ep & Hle & Hr' & Hrl)].
    + cbn [Z.eqb]. eexists _, _, _, _. split; [done|]. split; [done|]. by left.
    + rewrite (proj2 (Z.eqb_neq ptr NULL)) by lia. destruct (addrs_head q m v rl' rl0 Hrl) as [Ea Es].
      pose proof (reserve_clear _ _ _ _ _ _ _ _ size Hr' Hle Hrl) as Hcl. rewrite <- Ep in Hcl.
      destruct (join_copy M r' ptr size rl0) as (M' & EM & Hso & El); [|done|done|].
      { intros p0 m0 u0 Hin. assert (Hin' : (p0, m0, u0) ∈ (q, m, v) :: rl') by (destruct Hrl as [->|[_ ->]]; [done|by right]).
        by destruct (g_used _ _ _ _ Hr' p0 m0 u0 Hin') as (? & [? _] & _). }
      destruct (alloc_here c' r' H q m v rl' size Hr' ltac:(lia) ltac:(rewrite Es; done)) as (r2 & Ea2 & Hr2 & Eres2).
      destruct (join_loop M r' ptr size _) as [[[M1 off] rest]|]; [|done]. cbn [mbind option_bind] in EM |- *.
      rewrite EM. cbn [mbind option_bind]. rewrite Ea2. cbn [mbind option_bind].
      eexists _, _, _, _. split; [done|]. split; [done|]. right. exists ((q, m, v + size) :: rl'). split_and!; try done.
      * intros a (p0 & m0 & u0 & Hin & Ha)%addrs_in. apply Hso. destruct (Hcl p0 m0 u0 Hin); lia.
      * right. destruct (g_used _ _ _ _ Hr' q m v ltac:(left)) as (_ & [Hv _] & _). rewrite addrs_grow by lia.
        by rewrite Ea, Ep.
Qed.

(** ** Properties *)

(** C21. [region_alloc] and [region_aligned_alloc] return NULL and change nothing,
    or append the new bytes to those of the region, at addresses of their own:
    no byte of the region moves or is handed out twice; the aligned address is
    the first multiple of the alignment after the bytes in use, and the callback
    gets the size with the padding and sees the usage before the allocation. *)
Theorem region_alloc_correct c r H rl sz k : region_inv c r H rl -> 0 <= k < 32 -> 0 < sz ->
  region_fits (sz + 2 ^ k - 1) -> zsum rused rl + sz + 2 ^ k <= 2 ^ 64 ->
  (exists p c' r', region_alloc c r sz = Some (p, c', r') /\
    ((p = NULL /\ region_inv c' r' H rl) \/
     exists rl', 0 < p /\ region_inv c' r' H rl' /\ addrs rl' = addrs rl ++ seqZ p sz /\ NoDup (addrs rl') /\
       calls r' = calls r ++ on_alloc_events r sz)) /\
  exists base c1 r1, region_reserve c (set_reserved r false) (sz + 2 ^ k - 1) = Some (base, c1, r1) /\
    (base + 2 ^ k < 2 ^ 64 ->
     exists p c' r', region_aligned_alloc c r sz (2 ^ k) = Some (p, c', r') /\
       ((p = NULL /\ base = NULL /\ region_inv c' r' H rl) \/
        exists rl', 0 < base <= p /\ p < base + 2 ^ k /\ p mod 2 ^ k = 0 /\ region_inv c' r' H rl' /\
          addrs rl' = addrs rl ++ seqZ base (p - base + sz) /\ NoDup (addrs rl') /\
          calls r' = calls r ++ on_alloc_events r (p - base + sz))).
Proof.
  intros Hr Hk32 Hs Hf Hlt. pose proof (pow2_pos k ltac:(lia)). split.
  - assert (Hf' : region_fits sz).
    { destruct Hf as (? & ? & Hf). split_and!; [lia..|]. apply (fits_le lb mx lim _ _ Hf). lia. }
    destruct (region_alloc_spec c r H rl sz Hr Hf' ltac:(lia)) as (p & c' & r' & E & _ & _ & Hp).
    exists p, c', r'. split; [done|]. destruct Hp as [(-> & _ & ?)|(rl' & ? & ? & Hr' & ?)]; [by left|right].
    exists rl'. pose proof (addrs_nodup _ _ _ _ Hr'). done.
  - destruct (aligned_alloc_spec c r H rl sz k Hr Hk32 Hs Hf Hlt) as (base & c1 & r1 & E & HE).
    exists base, c1, r1. split; [done|]. intros Hb. destruct (HE Hb) as (p & c' & r' & E' & Hp).
    exists p, c', r'. split; [done|]. destruct Hp as [?|(rl' & ? & ? & ? & Hr' & ?)]; [by left|right].
    exists rl'. pose proof (addrs_nodup _ _ _ _ Hr'). naive_solver.
Qed.

(** C22. Whatever was allocated since a region had the bytes [A],
    [region_truncate] to the size it had then leaves exactly [A], with their
    contents, returns the slabs in between, passes over no memory of others, and
    the callback sees the usage after the truncation. *)
Theorem region_truncate_correct c M r H rl A T : region_inv c r H rl -> addrs rl = A ++ T ->
  exists c' M' r' rl', region_truncate c M r (Z.of_nat (length A)) = Some (c', M', r') /\
    region_inv c' r' H rl' /\ addrs rl' = A /\ same_at M M' A /\ (forall a, a ∉ A ++ T -> M' a = M a) /\
    calls r' = calls r ++ on_truncate_events r (Z.of_nat (length A)).
Proof.
  intros Hr Ea. destruct (addrs_length _ (rused_nonneg _ _ _ _ Hr)) as [Hlen _]. rewrite Ea, length_app in Hlen.
  destruct (truncate_spec c M r H rl (Z.of_nat (length A)) Hr ltac:(lia))
    as (c' & M' & r' & rl' & E & Hr' & Ea' & Hs & Ho & _ & _ & Hcl).
  rewrite Ea, Nat2Z.id, take_app_length in Ea'. exists c', M', r', rl'. rewrite Ea' in Hs. rewrite Ea in Ho. done.
Qed.

(** C23. [region_join] of the last bytes returns NULL and changes nothing, or a
    pointer at which they are in one piece, in the order they were allocated,
    wherever the slabs were cut; the bytes of the region keep their addresses
    and contents. *)
Theorem region_join_correct c M r H rl A T : region_inv c r H rl -> reserved r = false -> addrs rl = A ++ T -> T <> [] ->
  let size := Z.of_nat (length T) in region_fits size -> zsum rused rl + size < 2 ^ 64 ->
  exists ptr c' M' r', region_join c M r size = Some (ptr, c', M', r') /\
    ((ptr = NULL /\ M' = M /\ region_inv c' r' H rl) \/
     exists rl', 0 < ptr /\ region_inv c' r' H rl' /\ load M' ptr size = M <$> T /\ same_at M M' (addrs rl) /\
       (addrs rl' = addrs rl \/ addrs rl' = addrs rl ++ seqZ ptr size)).
Proof.
  intros Hr Hres Ea HT size Hf Hlt. destruct (addrs_length _ (rused_nonneg _ _ _ _ Hr)) as [Hlen _].
  assert (Hpos : (0 < length T)%nat) by (destruct T; [done|cbn; lia]).
  pose proof Hlen as Hlen'. rewrite Ea, length_app in Hlen'.
  destruct (join_spec c M r H rl size Hr Hres ltac:(lia) Hf Hlt) as (ptr & c' & M' & r' & E & _ & Hp).
  exists ptr, c', M', r'. split; [done|]. destruct Hp as [?|(rl' & Hp & Hr' & Hs & El & Hrl)]; [by left|right].
  exists rl'. split_and!; [done|done| |done|by destruct Hrl as [->|?]; [left|right]].
  rewrite El, Ea, drop_app_length'; [done|lia].
Qed.
End Inv.

(** ** A concrete region *)
Definition example_region : Z * slab_cache * region :=
  default (NULL, example_cache, region_create) (region_alloc example_cache region_create 100).

Lemma example_fits n : 0 < n <= 1000 -> region_fits 12 4 100000 n.
Proof. intros Hn. unfold region_fits, fits. lia. Qed.

Lemma example_region_inv : exists rl, region_inv (inv:=host_inv) 12 4 100000 (example_region.1).2 example_region.2 [] rl /\
  addrs rl = [] ++ seqZ (example_region.1).1 100 /\ reserved example_region.2 = false.
Proof.
  destruct (region_alloc_spec (inv:=host_inv) 12 4 100000 ltac:(lia) ltac:(lia) ltac:(lia) example_cache region_create [] [] 100
    (region_create_inv 12 4 100000 example_cache [] example_holds) (example_fits 100 ltac:(lia)) ltac:(by vm_compute))
    as (p & c' & r' & E & Eres & _ & H).
  assert (Enot : (if region_alloc example_cache region_create 100 is Some (x, _, _) then negb (x =? 0) else false) = true)
    by by vm_compute.
  unfold example_region. rewrite E in *. cbn [default fst snd]. destruct H as [(-> & _)|(rl & _ & _ & H & Ea)]; [discriminate Enot|].
  exists rl. split; [exact H|split; [exact Ea|exact Eres]].
Qed.

Lemma region_alloc_correct_witness :
  (exists p c' r', region_alloc example_cache region_create 100 = Some (p, c', r')) /\
  region_fits 12 4 100000 (100 + 2 ^ 3 - 1).
Proof.
  split; [|apply example_fits; vm_compute; split; [done|discriminate]].
  destruct (region_alloc_correct (inv:=host_inv) 12 4 100000 ltac:(lia) ltac:(lia) ltac:(lia) example_cache region_create
    [] [] 100 3 (region_create_inv 12 4 100000 example_cache [] example_holds) ltac:(lia) ltac:(lia)
    (example_fits (100 + 2 ^ 3 - 1) ltac:(lia)) ltac:(vm_compute; discriminate)) as [(p & c' & r' & E & _) _].
  exists p, c', r'. exact E.
Defined.

Lemma region_truncate_correct_witness :
  exists c' M' r', region_truncate (example_region.1).2 (fun a => a) example_region.2 0 = Some (c', M', r').
Proof.
  destruct example_region_inv as (rl & Hr & Ea & _).
  destruct (region_truncate_correct (inv:=host_inv) 12 4 100000 ltac:(lia) ltac:(lia) ltac:(lia) _ (fun a => a) _ [] rl []
    _ Hr Ea) as (c' & M' & r' & rl' & E & _).
  exists c', M', r'. exact E.
Defined.

Lemma region_join_correct_witness :
  exists ptr c' M' r', region_join (example_region.1).2 (fun a => a) example_region.2 100 = Some (ptr, c', M', r').
Proof.
  destruct example_region_inv as (rl & Hr & Ea & Eres).
  assert (Hz : zsum rused rl = 100).
  { destruct (addrs_length rl (rused_nonneg (inv:=host_inv) 12 4 100000 _ _ _ _ Hr)) as [Hl _]. rewrite Ea in Hl.
    rewrite <- Hl. by vm_compute. }
  destruct (region_join_correct (inv:=host_inv) 12 4 100000 ltac:(lia) ltac:(lia) ltac:(lia) _ (fun a => a) _ [] rl []
    (seqZ (example_region.1).1 100) Hr Eres Ea ltac:(discriminate)) as (ptr & c' & M' & r' & E & _).
  - apply example_fits. vm_compute. split; [done|discriminate].
  - rewrite Hz. by vm_compute.
  - exists ptr, c', M', r'. exact E.
Defined.
