(* ===== verification/Obuf.v ===== *)
(** * Output buffer: [include/small/obuf.h], [small/obuf.c]

    A vector of buffers for [writev], each in a slab of the cache.  The arrays are
    finite maps from their indices: an element that was never written has no
    value.  The source of [obuf_dup] is given by its bytes. *)
From S2P Require Import Prelude Util Bytes SlabSource SlabCache SlabClient.

Section Obuf.
Context {src : Type} `{!SlabSource src}.
Local Abbreviation slab_cache := (slab_cache (src:=src)).

(** ** Definitions *)

Definition SMALL_OBUF_IOV_MAX : Z := 31.

Record iovec := Iovec { iov_base : Z; iov_len : Z }.

Record obuf := Obuf {
  slabc : Z;
  pos : Z;
  n_iov : Z;
  obuf_used : Z;
  start_capacity : Z;
  capacity : gmap Z Z;
  iov : gmap Z iovec;
  reserved : bool;
}.

Record obuf_svp := ObufSvp { svp_pos : Z; svp_iov_len : Z; svp_used : Z }.
Definition obuf_svp_reset : obuf_svp := ObufSvp 0 0 0.

Definition set_pos (b : obuf) (p : Z) : obuf :=
  Obuf (slabc b) p (n_iov b) (obuf_used b) (start_capacity b) (capacity b) (iov b) (reserved b).
Definition set_used (b : obuf) (u : Z) : obuf :=
  Obuf (slabc b) (pos b) (n_iov b) u (start_capacity b) (capacity b) (iov b) (reserved b).
Definition set_n_iov (b : obuf) (n : Z) : obuf :=
  Obuf (slabc b) (pos b) n (obuf_used b) (start_capacity b) (capacity b) (iov b) (reserved b).
Definition set_iov (b : obuf) (i : Z) (v : iovec) : obuf :=
  Obuf (slabc b) (pos b) (n_iov b) (obuf_used b) (start_capacity b) (capacity b) (<[i := v]> (iov b)) (reserved b).
Definition set_capacity (b : obuf) (i n : Z) : obuf :=
  Obuf (slabc b) (pos b) (n_iov b) (obuf_used b) (start_capacity b) (<[i := n]> (capacity b)) (iov b) (reserved b).
Definition set_reserved (b : obuf) (f : bool) : obuf :=
  Obuf (slabc b) (pos b) (n_iov b) (obuf_used b) (start_capacity b) (capacity b) (iov b) f.
Definition set_iov_len (b : obuf) (i n : Z) : option obuf :=
  v ← iov b !! i;
  Some (set_iov b i (Iovec (iov_base v) n)).

Definition obuf_is_initialized (b : obuf) : bool := negb (slabc b =? NULL).
Definition obuf_size (b : obuf) : Z := obuf_used b.
Definition obuf_iovcnt (b : obuf) : option Z :=
  v ← iov b !! pos b;
  Some (if iov_len v >? 0 then pos b + 1 else pos b).

Definition obuf_create (slabc start_capacity : Z) : obuf :=
  Obuf slabc 0 0 0 start_capacity {[0 := 0]} {[0 := Iovec NULL 0]} false.

(** [while (capacity < size) capacity = capacity == 0 ? start_capacity : capacity * 2;]
    After 65 rounds the capacity has been set to [start_capacity] once, after 130
    the values repeat. *)
Fixpoint obuf_grow (fuel : nat) (start cap size : Z) : option Z :=
  match fuel with
  | O => None
  | S fuel =>
      if cap <? size then obuf_grow fuel start (if cap =? 0 then start else u64 (cap * 2)) size
      else Some cap
  end.
Definition OBUF_GROW_FUEL : nat := 131.

Definition obuf_alloc_pos (c : slab_cache) (b : obuf) (size : Z) : option (Z * slab_cache * obuf) :=
  let i := pos b in
  cap ← capacity b !! i;
  v ← iov b !! i;
  ASSERT (cap =? 0) && (iov_len v =? 0);
  ASSERT i <? SMALL_OBUF_IOV_MAX;
  ASSERT n_iov b =? i;
  let b := set_iov b (i + 1) v in
  let b := set_capacity b (i + 1) cap in
  n ← obuf_grow OBUF_GROW_FUEL (start_capacity b) (u64 (Z.shiftl (start_capacity b) i)) size;
  '(slab, c) ← slab_get c n;
  if slab =? NULL then Some (NULL, c, b)
  else
    v ← iov b !! i;
    let b := set_iov b i (Iovec (slab_data slab) (iov_len v)) in
    h ← mem c !! slab;
    let b := set_capacity b i (slab_capacity h) in
    Some (slab_data slab, c, set_n_iov b (n_iov b + 1)).

(** [for (i = from; i < to; i++) buf->iov[i].iov_len = 0;] *)
Fixpoint zero_len (b : obuf) (l : list Z) : option obuf :=
  match l with
  | [] => Some b
  | i :: l => b ← set_iov_len b i 0; zero_len b l
  end.

Definition obuf_reset (b : obuf) : option obuf :=
  iovcnt ← obuf_iovcnt b;
  b ← zero_len b (seqZ 0 iovcnt);
  Some (set_reserved (set_used (set_pos b 0) 0) false).

Fixpoint put_bufs (c : slab_cache) (b : obuf) (l : list Z) : option slab_cache :=
  match l with
  | [] => Some c
  | i :: l =>
      v ← iov b !! i;
      c ← slab_put c (slab_from_data (iov_base v));
      put_bufs c b l
  end.
Definition obuf_destroy (c : slab_cache) (b : obuf) : option (slab_cache * obuf) :=
  c ← put_bufs c b (seqZ 0 (n_iov b));
  Some (c, Obuf NULL 0 0 0 0 ((fun _ => 0) <$> capacity b) ((fun _ => Iovec NULL 0) <$> iov b) false).

(** [iov->iov_len += n; buf->used += n] after the bytes [l] were copied there. *)
Definition append_at (M : memory) (b : obuf) (l : list Z) : option (memory * obuf) :=
  v ← iov b !! pos b;
  let n := Z.of_nat (length l) in
  let M := store M (iov_base v + iov_len v) l in
  let b := set_iov b (pos b) (Iovec (iov_base v) (u64 (iov_len v + n))) in
  Some (M, set_used b (u64 (obuf_used b + n))).

(** The rest of [obuf_dup]: the bytes [data] are to be copied; the result is how
    many of them were not. Each round goes to the next position, of which there
    are [SMALL_OBUF_IOV_MAX]. *)
Definition dup_finish (c : slab_cache) (M : memory) (b : obuf) (data : list Z) :
    option (Z * slab_cache * memory * obuf) :=
  '(M, b) ← append_at M b data;
  v ← iov b !! pos b;
  cap ← capacity b !! pos b;
  ASSERT iov_len v <=? cap;
  Some (0, c, M, b).

Fixpoint dup_loop (fuel : nat) (c : slab_cache) (M : memory) (b : obuf) (data : list Z) :
    option (Z * slab_cache * memory * obuf) :=
  match fuel with
  | O => None
  | S fuel =>
      let to_copy := Z.of_nat (length data) in
      v ← iov b !! pos b;
      cap ← capacity b !! pos b;
      if u64 (iov_len v + to_copy) >? cap then
        let next M b data :=
          (v ← iov b !! pos b;
           ASSERT cap =? iov_len v;
           if pos b + 1 >=? SMALL_OBUF_IOV_MAX then Some (Z.of_nat (length data), c, M, b)
           else dup_loop fuel c M (set_pos b (pos b + 1)) data) in
        if iov_len v <? cap then
          let fill := cap - iov_len v in
          ASSERT fill <? to_copy;
          '(M, b) ← append_at M b (take (Z.to_nat fill) data);
          next M b (drop (Z.to_nat fill) data)
        else if cap =? 0 then
          '(p, c, b) ← obuf_alloc_pos c b to_copy;
          if p =? NULL then Some (to_copy, c, M, b) else dup_finish c M b data
        else next M b data
      else dup_finish c M b data
  end.
Definition DUP_FUEL : nat := 32.

Definition obuf_dup (c : slab_cache) (M : memory) (b : obuf) (data : list Z) :
    option (Z * slab_cache * memory * obuf) :=
  '(rest, c, M, b) ← dup_loop DUP_FUEL c M b data;
  Some (Z.of_nat (length data) - rest, c, M, b).

(** The second part of [obuf_reserve_slow]: make sure that the empty buffer at
    the current position can store [size] bytes. *)
Definition reserve_pos (c : slab_cache) (b : obuf) (size : Z) : option (Z * slab_cache * obuf) :=
  v ← iov b !! pos b;
  cap ← capacity b !! pos b;
  ASSERT iov_len v =? 0;
  '(ok, c, b) ←
    (if size >? cap then
       if cap >? 0 then
         n ← grow GROW_FUEL cap size;
         '(slab, c) ← slab_get c n;
         if slab =? NULL then Some (false, c, b)
         else
           c ← slab_put c (slab_from_data (iov_base v));
           h ← mem c !! slab;
           let b := set_iov b (pos b) (Iovec (slab_data slab) (iov_len v)) in
           Some (true, c, set_capacity b (pos b) (slab_capacity h))
       else
         '(p, c, b) ← obuf_alloc_pos c b size;
         Some (negb (p =? NULL), c, b)
     else Some (true, c, b));
  if ok : bool then
    v ← iov b !! pos b;
    cap ← capacity b !! pos b;
    ASSERT u64 (iov_len v + size) <=? cap;
    Some (iov_base v + iov_len v, c, b)
  else Some (NULL, c, b).

Definition obuf_reserve_slow (c : slab_cache) (b : obuf) (size : Z) : option (Z * slab_cache * obuf) :=
  v ← iov b !! pos b;
  if iov_len v >? 0 then
    if pos b + 1 >=? SMALL_OBUF_IOV_MAX then Some (NULL, c, b)
    else reserve_pos c (set_pos b (pos b + 1)) size
  else reserve_pos c b size.

Definition obuf_reserve (c : slab_cache) (b : obuf) (size : Z) : option (Z * slab_cache * obuf) :=
  ASSERT negb (reserved b);
  v ← iov b !! pos b;
  cap ← capacity b !! pos b;
  '(p, c, b) ←
    (if u64 (iov_len v + size) >? cap then obuf_reserve_slow c b size
     else Some (iov_base v + iov_len v, c, b));
  Some (p, c, if negb (p =? NULL) then set_reserved b true else b).

Definition obuf_alloc (c : slab_cache) (b : obuf) (size : Z) : option (Z * slab_cache * obuf) :=
  v ← iov b !! pos b;
  cap ← capacity b !! pos b;
  '(p, ok, c, b) ←
    (if u64 (iov_len v + size) <=? cap then Some (iov_base v + iov_len v, true, c, b)
     else
       '(p, c, b) ← obuf_reserve_slow c b size;
       if p =? NULL then Some (NULL, false, c, b)
       else
         v ← iov b !! pos b;
         cap ← capacity b !! pos b;
         ASSERT iov_len v <=? cap;
         Some (p, true, c, b));
  if ok : bool then
    v ← iov b !! pos b;
    let b := set_iov (set_reserved b false) (pos b) (Iovec (iov_base v) (u64 (iov_len v + size))) in
    Some (p, c, set_used b (u64 (obuf_used b + size)))
  else Some (NULL, c, b).

Definition obuf_create_svp (b : obuf) : option obuf_svp :=
  v ← iov b !! pos b;
  Some (ObufSvp (pos b) (iov_len v) (obuf_used b)).

Definition obuf_rollback_to_svp (b : obuf) (s : obuf_svp) : option obuf :=
  ASSERT svp_pos s <=? pos b;
  iovcnt ← obuf_iovcnt b;
  let b := set_pos b (svp_pos s) in
  b ← set_iov_len b (pos b) (svp_iov_len s);
  let b := set_used b (svp_used s) in
  b ← zero_len b (seqZ (pos b + 1) (iovcnt - (pos b + 1)));
  Some (set_reserved b false).

Definition obuf_svp_to_ptr (b : obuf) (s : obuf_svp) : option Z :=
  v ← iov b !! svp_pos s;
  Some (iov_base v + svp_iov_len s).

(** The size is also a result. *)
Definition obuf_reserve_cb (c : slab_cache) (b : obuf) (size : Z) : option (Z * Z * slab_cache * obuf) :=
  '(p, c, b) ← obuf_reserve c b size;
  v ← iov b !! pos b;
  cap ← capacity b !! pos b;
  Some (p, u64 (cap - iov_len v), c, b).
Definition obuf_alloc_cb (c : slab_cache) (b : obuf) (size : Z) : option (Z * slab_cache * obuf) :=
  obuf_alloc c b size.
End Obuf.

(** ** The growth of the capacity *)

Lemma obuf_grow_eq f start cap size : 1 <= cap -> size <= 2 ^ 63 -> cap < 2 ^ 63 \/ size <= cap ->
  obuf_grow f start cap size = grow f cap size.
Proof.
  revert cap. induction f as [|f IH]; intros cap Hc Hs Hb; [done|]. cbn [obuf_grow grow].
  destruct (Z.ltb_spec cap size); [|done]. rewrite (proj2 (Z.eqb_neq cap 0)), u64_small by lia. apply IH; lia.
Qed.

Lemma obuf_grow_total start cap size : 1 <= cap < 2 ^ 64 -> size <= 2 ^ 63 ->
  exists r, obuf_grow OBUF_GROW_FUEL start cap size = Some r /\ size <= r /\ cap <= r /\ (r = cap \/ r < 2 * size).
Proof.
  intros Hc Hs. destruct (grow_total cap size) as (r & E & H1 & H2 & H3); [lia..|]. exists r.
  rewrite obuf_grow_eq by lia. split; [|done]. apply (grow_fuel_mono GROW_FUEL); [exact E|].
  apply Nat.leb_le. reflexivity.
Qed.

(** ** The invariant

    The allocated buffers are a list of slabs, with the capacity and the length
    of each. *)
Abbreviation bufs := (list (Z * Z * Z)).
Definition buf_len (x : Z * Z * Z) : Z := x.2.
Definition buf_slab (x : Z * Z * Z) : Z * Z := (x.1.1, x.1.2 + 48).
Definition contents (M : memory) (bl : bufs) : list Z := bl ≫= fun x => load M (x.1.1 + 48) x.2.

Lemma contents_app M bl1 bl2 : contents M (bl1 ++ bl2) = contents M bl1 ++ contents M bl2.
Proof. unfold contents. by rewrite bind_app. Qed.

Lemma contents_cons M p cap len bl : contents M ((p, cap, len) :: bl) = load M (p + 48) len ++ contents M bl.
Proof. done. Qed.

Lemma contents_empty M bl : (forall x, x ∈ bl -> buf_len x = 0) -> contents M bl = [].
Proof.
  induction bl as [|[[p cap] len] bl IH]; intros H; [done|]. rewrite contents_cons, IH by (intros; apply H; by right).
  specialize (H (p, cap, len) ltac:(left)). change (len = 0) in H. by rewrite H.
Qed.

Lemma contents_length M bl : (forall x, x ∈ bl -> 0 <= buf_len x) -> Z.of_nat (length (contents M bl)) = zsum buf_len bl.
Proof.
  induction bl as [|[[p cap] len] bl IH]; intros H; [done|]. rewrite contents_cons, length_app, load_length.
  change (zsum buf_len ((p, cap, len) :: bl)) with (len + zsum buf_len bl). rewrite <- IH by (intros; apply H; by right).
  specialize (H (p, cap, len) ltac:(left)). change (0 <= len) in H. lia.
Qed.

Lemma contents_ext M M' bl : (forall p cap len, (p, cap, len) ∈ bl -> load M' (p + 48) len = load M (p + 48) len) ->
  contents M' bl = contents M bl.
Proof.
  induction bl as [|[[p cap] len] bl IH]; intros H; [done|]. rewrite !contents_cons. rewrite (H p cap len) by left.
  f_equal. apply IH. intros. eapply H. by right.
Qed.

Section Inv.
Context {src : Type} `{!SlabSource src}
  {inv : Z -> Z -> src -> list Z -> list (Z * Z) -> list Z -> Prop} `{!SlabSourceLaws inv}.
Context (lb mx lim : Z) (Hlb : 12 <= lb) (Hmx : 0 <= mx <= 15) (Hk : lb + mx <= 31).
Local Abbreviation slab_cache := (slab_cache (src:=src)).
Local Abbreviation holds := (holds (inv:=inv) lb mx lim).
Local Abbreviation fits := (fits lb mx lim).

(** Buffer [i] of the vector. *)
Definition buf_ok (b : obuf) (i : nat) (x : Z * Z * Z) : Prop :=
  let '(p, cap, len) := x in
  iov b !! Z.of_nat i = Some (Iovec (p + 48) len) /\ capacity b !! Z.of_nat i = Some cap /\
  0 <= len <= cap /\ 0 < cap /\ (pos b < Z.of_nat i -> len = 0).

(** [H] are the slabs of others. *)
Record obuf_inv (c : slab_cache) (b : obuf) (H : list (Z * Z)) (bl : bufs) : Prop := {
  o_n : n_iov b = Z.of_nat (length bl) /\ n_iov b <= 31;
  o_pos : 0 <= pos b <= n_iov b /\ pos b <= 30;
  o_cache : holds c ((buf_slab <$> bl) ++ H);
  o_buf i x : bl !! i = Some x -> buf_ok b i x;
  o_end : iov b !! n_iov b = Some (Iovec NULL 0) /\ capacity b !! n_iov b = Some 0;
  o_used : obuf_used b = zsum buf_len bl /\ zsum buf_len bl < 2 ^ 64;
  o_start : 1 <= start_capacity b;
}.

Lemma obuf_create_inv c H sc cap : holds c H -> 1 <= cap -> obuf_inv c (obuf_create sc cap) H [].
Proof. intros Hc Hcap. split; try done. Qed.

Lemma len_nonneg c b H bl : obuf_inv c b H bl -> forall x, x ∈ bl -> 0 <= buf_len x.
Proof.
  intros Hb [[p cap] len] [i Hi]%list_elem_of_lookup. by destruct (o_buf _ _ _ _ Hb i _ Hi) as (_ & _ & [? _] & _).
Qed.

(** Either a buffer is allocated at the current position, or the end of the
    vector is there. *)
Lemma at_pos c b H bl : obuf_inv c b H bl ->
  (exists p cap len, bl !! Z.to_nat (pos b) = Some (p, cap, len) /\ iov b !! pos b = Some (Iovec (p + 48) len) /\
     capacity b !! pos b = Some cap /\ 0 <= len <= cap /\ 0 < cap < 2 ^ 42 /\ 0 < p /\ pos b < n_iov b) \/
  (pos b = n_iov b /\ n_iov b <= 30 /\ iov b !! pos b = Some (Iovec NULL 0) /\ capacity b !! pos b = Some 0).
Proof.
  intros Hb. destruct (o_n _ _ _ _ Hb) as (Hn & Hn31). destruct (o_pos _ _ _ _ Hb) as ((Hp0 & Hp) & Hp30).
  destruct (decide (pos b = n_iov b)) as [E|Hne].
  - right. rewrite E. destruct (o_end _ _ _ _ Hb). split_and!; try done. lia.
  - left. destruct (lookup_lt_is_Some_2 bl (Z.to_nat (pos b))) as [[[p cap] len] Hx]; [lia|]. exists p, cap, len.
    destruct (o_buf _ _ _ _ Hb _ _ Hx) as (H1 & H2 & H3 & H4 & _). rewrite Z2Nat.id in H1, H2 by lia.
    assert (Hin : (p, cap + 48) ∈ (buf_slab <$> bl) ++ H).
    { apply elem_of_app. left. apply list_elem_of_fmap. exists (p, cap, len). split; [done|]. by eapply list_elem_of_lookup_2. }
    destruct (client_header lb mx lim Hlb Hmx Hk c _ _ _ (o_cache _ _ _ _ Hb) Hin) as (_ & _ & _ & _ & ? & ? & _).
    split_and!; try done; lia.
Qed.

(** What may be asked of the slab cache for [size] bytes. *)
Definition room (b : obuf) (size : Z) : Prop :=
  0 <= size /\ fits (2 * size) /\ fits (start_capacity b * 2 ^ n_iov b).

Lemma fits_small c H n : holds c H -> fits n -> n < 2 ^ 42.
Proof.
  intros (A & B & out & (_ & Hsrc & _) & _) [_ Hf]. pose proof (pow2_mono (lb + mx) 31 ltac:(lia)).
  destruct (src_geometry _ _ _ _ _ _ Hsrc) as (_ & _ & ?). lia.
Qed.

(** What an operation that only gets memory leaves alone. *)
Definition same_fields (b b' : obuf) : Prop :=
  start_capacity b' = start_capacity b /\ obuf_used b' = obuf_used b /\ reserved b' = reserved b.

Lemma alloc_pos_spec c b H bl size : obuf_inv c b H bl -> pos b = n_iov b -> room b size ->
  exists p c' b', obuf_alloc_pos c b size = Some (p, c', b') /\ same_fields b b' /\ pos b' = pos b /\
    ((p = NULL /\ obuf_inv c' b' H bl /\ exists n, slab_get c n = Some (NULL, c')) \/
     exists q cap, 0 < q /\ p = q + 48 /\ size <= cap /\ obuf_inv c' b' H (bl ++ [(q, cap, 0)])).
Proof.
  intros Hb Hpos (Hs & Hf1 & Hf2). destruct (at_pos _ _ _ _ Hb) as [(? & ? & ? & _ & _ & _ & _ & _ & _ & ?)|(_ & Hn30 & Ei & Ec)]; [lia|].
  destruct (o_n _ _ _ _ Hb) as (Hn & _). pose proof (o_start _ _ _ _ Hb) as Hst.
  pose proof (fits_small c _ _ (o_cache _ _ _ _ Hb) Hf1). pose proof (fits_small c _ _ (o_cache _ _ _ _ Hb) Hf2).
  pose proof (pow2_pos (n_iov b) ltac:(lia)).
  unfold obuf_alloc_pos. rewrite Ec, Ei. cbn [mbind option_bind iov_len Z.eqb andb].
  unfold SMALL_OBUF_IOV_MAX. rewrite (proj2 (Z.ltb_lt _ _)) by lia. rewrite Hpos, Z.eqb_refl.
  cbn [set_capacity set_iov start_capacity]. rewrite Z.shiftl_mul_pow2, u64_small by nia.
  destruct (obuf_grow_total (start_capacity b) (start_capacity b * 2 ^ n_iov b) size) as (r & -> & Hr1 & Hr2 & Hr3); [nia|lia|].
  cbn [mbind option_bind].
  assert (Hfr : fits r) by (destruct Hr3 as [->|?]; [done|]; apply (fits_le lb mx lim _ _ Hf1); lia).
  destruct (client_get lb mx lim Hlb Hmx Hk c _ r (o_cache _ _ _ _ Hb) Hfr) as (q & c' & Eg & Hq). rewrite Eg. cbn [mbind option_bind].
  assert (Hlow : forall (i : nat), (i < length bl)%nat -> n_iov b + 1 <> Z.of_nat i /\ n_iov b <> Z.of_nat i) by lia.
  destruct Hq as [[-> Hc]|(n & h & Hq & Hc & Hn' & _ & Hm & _ & Hcap)].
  - cbn [Z.eqb]. eexists _, _, _. split; [done|]. do 2 (split; [done|]). left. split; [done|]. split; [|by eexists].
    destruct Hb as [O1 O2 O3 O4 O5 O6 O7]. split; try done; cbn [iov capacity n_iov set_iov set_capacity].
    + intros i [[p cap] len] Hi. destruct (Hlow i (lookup_lt_Some _ _ _ Hi)). unfold buf_ok. cbn [iov capacity pos set_iov set_capacity].
      rewrite !lookup_insert_ne by done. apply (O4 i _ Hi).
    + rewrite !lookup_insert_ne by lia. done.
  - rewrite (proj2 (Z.eqb_neq q NULL)) by lia. cbn [iov set_iov set_capacity]. rewrite lookup_insert_ne by lia.
    rewrite Hpos in Ei. rewrite Ei. cbn [mbind option_bind iov_len]. rewrite Hm. cbn [mbind option_bind].
    unfold slab_data. rewrite slab_sizeof_eq, Hcap. eexists _, _, _. split; [done|]. do 2 (split; [done|]). right. exists q, (n - 48).
    split_and!; [lia|done|lia|].
    destruct Hb as [O1 O2 O3 O4 O5 O6 O7]. split; cbn [iov capacity n_iov pos obuf_used start_capacity set_iov set_capacity set_n_iov]; try done.
    + rewrite length_app. cbn [length]. lia.
    + lia.
    + rewrite fmap_app. cbn [fmap list_fmap]. unfold buf_slab at 2. cbn [fst snd].
      replace (n - 48 + 48) with n by lia. rewrite <- (assoc_L (++)). cbn [app]. by rewrite <- Permutation_middle.
    + intros i x [Hi|[Hlen Hi]]%lookup_app_Some.
      * destruct x as [[p cap] len]. destruct (Hlow i (lookup_lt_Some _ _ _ Hi)). unfold buf_ok. cbn [iov capacity pos set_iov set_capacity set_n_iov].
        rewrite !lookup_insert_ne by done. apply (O4 i _ Hi).
      * apply list_lookup_singleton_Some in Hi as [Hi <-]. unfold buf_ok. cbn [iov capacity pos set_iov set_capacity set_n_iov].
        assert (Ei' : n_iov b = Z.of_nat i) by lia. rewrite <- Ei'. rewrite !lookup_insert_eq. split_and!; (done || nia).
    + split; (rewrite lookup_insert_ne by lia; by rewrite lookup_insert_eq).
    + rewrite zsum_app. cbn [zsum foldr buf_len snd]. rewrite !Z.add_0_r. done.
Qed.

(** The buffer at the current position, which has slab [p], gets a new length. *)
Lemma set_len_inv c b H bl p cap len len' u : obuf_inv c b H bl -> bl !! Z.to_nat (pos b) = Some (p, cap, len) ->
  0 <= len' <= cap -> u = zsum buf_len bl - len + len' -> u < 2 ^ 64 ->
  obuf_inv c (set_used (set_iov b (pos b) (Iovec (p + 48) len')) u) H (<[Z.to_nat (pos b) := (p, cap, len')]> bl).
Proof.
  intros Hb Hx Hlen Hu Hlt. destruct (o_pos _ _ _ _ Hb) as ((Hp0 & Hp) & Hp30). destruct (o_n _ _ _ _ Hb) as (Hn & _).
  pose proof (lookup_lt_Some _ _ _ Hx) as Hlt'. destruct Hb as [O1 O2 O3 O4 O5 O6 O7].
  split; cbn [iov capacity n_iov pos obuf_used start_capacity set_iov set_used]; try done.
  - by rewrite length_insert.
  - rewrite list_fmap_insert. rewrite list_insert_id; [done|]. rewrite list_lookup_fmap, Hx. done.
  - intros i x Hi. destruct (decide (i = Z.to_nat (pos b))) as [->|Hne].
    + rewrite list_lookup_insert_eq in Hi by done. injection Hi as <-. destruct (O4 _ _ Hx) as (_ & H2 & H3 & H4 & _).
      unfold buf_ok. cbn [iov capacity pos set_iov set_used]. rewrite Z2Nat.id in * by lia. rewrite lookup_insert_eq.
      split_and!; (done || lia).
    + rewrite list_lookup_insert_ne in Hi by done. destruct x as [[p' cap'] l']. destruct (O4 _ _ Hi) as (H1 & H2 & H3).
      unfold buf_ok. cbn [iov capacity pos set_iov set_used]. rewrite lookup_insert_ne by lia. done.
  - rewrite lookup_insert_ne by lia. done.
  - rewrite (zsum_insert _ _ _ _ _ Hx). cbn [buf_len snd]. rewrite <- Hu. done.
Qed.

(** Everything behind the current position is empty. *)
Lemma split_pos c b H bl p cap len : obuf_inv c b H bl -> bl !! Z.to_nat (pos b) = Some (p, cap, len) ->
  exists bl1 bl2, bl = bl1 ++ (p, cap, len) :: bl2 /\ length bl1 = Z.to_nat (pos b) /\
    (forall x, x ∈ bl2 -> buf_len x = 0) /\ (forall y, <[Z.to_nat (pos b) := y]> bl = bl1 ++ y :: bl2).
Proof.
  intros Hb Hx. destruct (o_pos _ _ _ _ Hb) as ((Hp0 & Hp) & _). pose proof (lookup_lt_Some _ _ _ Hx) as Hlt.
  exists (take (Z.to_nat (pos b)) bl), (drop (S (Z.to_nat (pos b))) bl). split_and!.
  - symmetry. by apply take_drop_middle.
  - rewrite length_take. lia.
  - intros [[p' cap'] len'] [i Hi]%list_elem_of_lookup. rewrite lookup_drop in Hi.
    destruct (o_buf _ _ _ _ Hb _ _ Hi) as (_ & _ & _ & _ & H0). apply H0. lia.
  - intros y. by rewrite insert_take_drop.
Qed.

(** Data of the buffers, and of others, outside of [n] bytes at [a] in the unused
    part of the buffer at [p]. *)
Lemma apart_bufs c b H bl p cap len q m : obuf_inv c b H bl -> (p, cap, len) ∈ bl -> (q, m) ∈ (buf_slab <$> bl) ++ H -> q <> p ->
  q + m <= p \/ p + cap + 48 <= q.
Proof.
  intros Hb Hp Hq Hne.
  assert (Hin : (p, cap + 48) ∈ (buf_slab <$> bl) ++ H).
  { apply elem_of_app. left. apply list_elem_of_fmap. by exists (p, cap, len). }
  destruct (client_apart lb mx lim Hlb Hmx Hk c _ q m p (cap + 48) (o_cache _ _ _ _ Hb) Hq Hin Hne); lia.
Qed.

Lemma buf_address_inj c b H bl i j p cap len cap' len' : obuf_inv c b H bl ->
  bl !! i = Some (p, cap, len) -> bl !! j = Some (p, cap', len') -> i = j.
Proof.
  intros Hb Hi Hj. destruct (holds_apart lb mx lim Hlb Hmx c _ (o_cache _ _ _ _ Hb)) as (Hnd & _).
  rewrite fmap_app in Hnd. apply NoDup_app in Hnd as (Hnd & _). rewrite <- list_fmap_compose in Hnd.
  eapply (NoDup_lookup _ _ _ p Hnd); rewrite list_lookup_fmap; [by rewrite Hi|by rewrite Hj].
Qed.

(** ** Growth of the contents

    What later states keep: buffers before the current position do not change,
    the current one only gets longer, and data stays where it is. *)
Definition grows (M : memory) (b : obuf) (bl : bufs) (M' : memory) (b' : obuf) (bl' : bufs) : Prop :=
  pos b <= pos b' /\
  forall i p cap len, bl !! i = Some (p, cap, len) -> exists p' cap' len', bl' !! i = Some (p', cap', len') /\
    len <= len' /\ load M' (p' + 48) len = load M (p + 48) len /\ (Z.of_nat i < pos b -> len' = len).

Lemma grows_refl M b bl : grows M b bl M b bl.
Proof. split; [lia|]. intros i p cap len Hi. exists p, cap, len. split_and!; (done || lia). Qed.

Lemma grows_trans M b bl M1 b1 bl1 M2 b2 bl2 : (forall x, x ∈ bl -> 0 <= buf_len x) ->
  grows M b bl M1 b1 bl1 -> grows M1 b1 bl1 M2 b2 bl2 -> grows M b bl M2 b2 bl2.
Proof.
  intros Hnn [Hp1 H1] [Hp2 H2]. split; [lia|]. intros i p cap len Hi.
  assert (Hlen : 0 <= len) by (apply (Hnn (p, cap, len)); by eapply list_elem_of_lookup_2).
  destruct (H1 i p cap len Hi) as (p1 & cap1 & len1 & Hi1 & Hle1 & Hl1 & He1).
  destruct (H2 i p1 cap1 len1 Hi1) as (p2 & cap2 & len2 & Hi2 & Hle2 & Hl2 & He2).
  exists p2, cap2, len2. split_and!; [done|lia| |].
  - rewrite <- Hl1. rewrite (load_take M2 (p2 + 48) len1 len), (load_take M1 (p1 + 48) len1 len) by lia. by rewrite Hl2.
  - intros Hlt. rewrite He2, He1 by lia. done.
Qed.

Lemma set_pos_inv c b H bl : obuf_inv c b H bl -> pos b < n_iov b -> pos b + 1 <= 30 ->
  obuf_inv c (set_pos b (pos b + 1)) H bl.
Proof.
  intros [O1 O2 O3 O4 O5 O6 O7] H1 H2. split; cbn [set_pos pos n_iov iov capacity obuf_used start_capacity]; try done; [lia|].
  intros i [[p cap] len] Hi. destruct (O4 i _ Hi) as (A1 & A2 & A3 & A4 & A5). unfold buf_ok.
  cbn [set_pos pos iov capacity]. split_and!; try done; lia.
Qed.

(** Bytes written behind the data of the current buffer. *)
Lemma append_spec c M b H bl p cap len l : obuf_inv c b H bl -> bl !! Z.to_nat (pos b) = Some (p, cap, len) ->
  len + Z.of_nat (length l) <= cap -> zsum buf_len bl + Z.of_nat (length l) < 2 ^ 64 ->
  exists M' b' bl', append_at M b l = Some (M', b') /\ obuf_inv c b' H bl' /\
    bl' = <[Z.to_nat (pos b) := (p, cap, len + Z.of_nat (length l))]> bl /\ pos b' = pos b /\ n_iov b' = n_iov b /\
    start_capacity b' = start_capacity b /\ capacity b' = capacity b /\
    iov b' !! pos b = Some (Iovec (p + 48) (len + Z.of_nat (length l))) /\
    zsum buf_len bl' = zsum buf_len bl + Z.of_nat (length l) /\
    contents M' bl' = contents M bl ++ l /\ grows M b bl M' b' bl' /\ frame M M' H.
Proof.
  intros Hb Hx Hle Hlt. destruct (o_pos _ _ _ _ Hb) as ((Hp0 & _) & _). destruct (o_used _ _ _ _ Hb) as (Hu & _).
  destruct (o_buf _ _ _ _ Hb _ _ Hx) as (Ei & _ & Hlen & Hcap & _). rewrite Z2Nat.id in Ei by lia.
  destruct (client_header lb mx lim Hlb Hmx Hk c _ p (cap + 48) (o_cache _ _ _ _ Hb)) as (_ & _ & _ & _ & _ & Hb42 & _).
  { apply elem_of_app. left. apply list_elem_of_fmap. exists (p, cap, len). split; [done|]. by eapply list_elem_of_lookup_2. }
  assert (Hpos : 0 <= zsum buf_len bl).
  { pose proof (contents_length M bl (len_nonneg _ _ _ _ Hb)). lia. }
  unfold append_at. rewrite Ei. cbn [mbind option_bind iov_base iov_len].
  change (obuf_used (set_iov _ _ _)) with (obuf_used b). rewrite Hu, !u64_small by lia.
  set (n := Z.of_nat (length l)) in *. set (M' := store M (p + 48 + len) l).
  pose proof (store_outside M (p + 48 + len) l) as Ho. fold n M' in Ho.
  assert (Hother : forall q m x k, (q, m) ∈ (buf_slab <$> bl) ++ H -> q <> p -> q <= x -> x + k <= q + m -> load M' x k = load M x k).
  { intros q m x k Hq Hne H1 H2. apply (load_same _ _ _ _ _ _ Ho).
    destruct (apart_bufs c b H bl p cap len q m Hb ltac:(by eapply list_elem_of_lookup_2) Hq Hne); lia. }
  assert (Hbuf : forall i q cap' len', bl !! i = Some (q, cap', len') -> load M' (q + 48) len' = load M (q + 48) len').
  { intros i q cap' len' Hi. destruct (o_buf _ _ _ _ Hb _ _ Hi) as (_ & _ & Hl' & _).
    destruct (decide (q = p)) as [->|Hne].
    - rewrite (buf_address_inj _ _ _ _ _ _ _ _ _ _ _ Hb Hi Hx), Hx in Hi. simplify_eq. apply (load_same _ _ _ _ _ _ Ho). lia.
    - apply (Hother q (cap' + 48)); [|done|lia|lia]. apply elem_of_app. left. apply list_elem_of_fmap.
      exists (q, cap', len'). split; [done|]. by eapply list_elem_of_lookup_2. }
  eexists _, _, _. split; [done|]. split; [apply (set_len_inv c b H bl p cap len (len + n)); (done || lia)|].
  do 5 (split; [done|]). split; [cbn; by rewrite lookup_insert_eq|].
  split; [rewrite (zsum_insert _ _ _ _ _ Hx); cbn [buf_len snd]; lia|]. split_and!.
  - destruct (split_pos c b H bl p cap len Hb Hx) as (bl1 & bl2 & Ebl & _ & Hz & Eins). rewrite Eins, Ebl.
    rewrite !contents_app, !contents_cons, !(contents_empty _ bl2 Hz), !app_nil_r, <- app_assoc. f_equal.
    + apply contents_ext. intros q cap' len' [i Hi]%list_elem_of_lookup. apply (Hbuf i q cap').
      rewrite Ebl. by apply lookup_app_l_Some.
    + rewrite load_app by lia. rewrite (Hbuf _ _ _ _ Hx). f_equal. apply load_store.
  - split; [cbn; lia|]. intros i q cap' len' Hi. destruct (decide (i = Z.to_nat (pos b))) as [->|Hne].
    + rewrite Hx in Hi. simplify_eq. eexists _, _, _. rewrite list_lookup_insert_eq by (by eapply lookup_lt_Some).
      split; [done|]. split_and!; [lia|by apply (Hbuf _ _ _ _ Hx)|lia].
    + exists q, cap', len'. rewrite list_lookup_insert_ne by done. split_and!; [done|lia|by eapply Hbuf|done].
  - intros q m Hq. apply (Hother q m); [by apply elem_of_app; right| |lia|lia]. intros ->.
    destruct (holds_apart lb mx lim Hlb Hmx c _ (o_cache _ _ _ _ Hb)) as (Hnd & _). rewrite fmap_app in Hnd.
    apply NoDup_app in Hnd as (_ & Hd & _). apply (Hd p); [|apply list_elem_of_fmap; by exists (p, m)].
    apply list_elem_of_fmap. exists (p, cap + 48). split; [done|]. apply list_elem_of_fmap. exists (p, cap, len).
    split; [done|]. by eapply list_elem_of_lookup_2.
Qed.

(** Nothing written at the end of the vector. *)
Lemma append_nil c M b H bl : obuf_inv c b H bl -> pos b = n_iov b ->
  exists M' b', append_at M b [] = Some (M', b') /\ obuf_inv c b' H bl /\ pos b' = pos b /\ capacity b' = capacity b /\
    iov b' = iov b /\ (forall a, M' a = M a).
Proof.
  intros Hb Hpos. destruct (o_end _ _ _ _ Hb) as (Ei & _). destruct (o_used _ _ _ _ Hb) as (Hu & Hlt).
  assert (0 <= zsum buf_len bl) by (pose proof (contents_length M bl (len_nonneg _ _ _ _ Hb)); lia).
  unfold append_at. rewrite Hpos, Ei. cbn [mbind option_bind length iov_base iov_len]. eexists _, _. split; [done|].
  change (u64 (0 + Z.of_nat 0)) with 0. change (obuf_used (set_iov _ _ _)) with (obuf_used b).
  assert (Eiov : iov (set_iov b (n_iov b) (Iovec 0 0)) = iov b) by (cbn; by apply insert_id).
  split; [|split_and!; [done|done|exact Eiov|intros a; apply (store_outside M (0 + 0) []); cbn; lia]].
  destruct Hb as [O1 O2 O3 O4 O5 O6 O7].
  split; cbn [set_used pos n_iov capacity obuf_used start_capacity set_iov iov]; rewrite ?insert_id by done; try done.
  - intros i [[q cap] len] Hi. destruct (O4 i _ Hi) as (A1 & A2 & A3). unfold buf_ok.
    cbn [set_used pos capacity iov set_iov]. rewrite insert_id by done. done.
  - rewrite Hu. cbn [length]. rewrite u64_small by lia. split; lia.
Qed.

(** ** Copying data into the buffer *)

Lemma contents_same M M' bl : (forall a, M' a = M a) -> contents M' bl = contents M bl.
Proof. intros HM. apply contents_ext. intros. apply load_ext. auto. Qed.

Lemma grows_same M M' b b' bl : (forall a, M' a = M a) -> pos b' = pos b -> grows M b bl M' b' bl.
Proof.
  intros HM Hp. split; [lia|]. intros i p cap len Hi. exists p, cap, len.
  split_and!; [done|lia|apply load_ext; auto|done].
Qed.

Lemma grows_alloc M b b' bl x : pos b' = pos b -> grows M b bl M b' (bl ++ [x]).
Proof.
  intros Hp. split; [lia|]. intros i p cap len Hi. exists p, cap, len. rewrite (lookup_app_l_Some _ _ _ _ Hi).
  split_and!; (done || lia).
Qed.

Lemma dup_finish_spec c M b H bl data : obuf_inv c b H bl ->
  (exists p cap len, bl !! Z.to_nat (pos b) = Some (p, cap, len) /\ len + Z.of_nat (length data) <= cap) \/
  (pos b = n_iov b /\ data = []) ->
  zsum buf_len bl + Z.of_nat (length data) < 2 ^ 64 ->
  exists M' b' bl', dup_finish c M b data = Some (0, c, M', b') /\ obuf_inv c b' H bl' /\
    contents M' bl' = contents M bl ++ data /\ grows M b bl M' b' bl' /\ frame M M' H.
Proof.
  intros Hb Hfit Hlt. unfold dup_finish. destruct Hfit as [(p & cap & len & Hx & Hle)|(Hpos & ->)].
  - destruct (append_spec c M b H bl p cap len data Hb Hx Hle Hlt)
      as (M' & b' & bl' & -> & Hb' & _ & Ep & _ & _ & Ec & Ei & _ & Hco & Hg & Hf).
    cbn [mbind option_bind]. rewrite Ep, Ei. cbn [mbind option_bind iov_len]. rewrite Ec.
    destruct (o_buf _ _ _ _ Hb _ _ Hx) as (_ & Ecap & _). rewrite Z2Nat.id in Ecap by (destruct (o_pos _ _ _ _ Hb); lia).
    rewrite Ecap. cbn [mbind option_bind]. rewrite (proj2 (Z.leb_le _ _)) by lia. by exists M', b', bl'.
  - destruct (append_nil c M b H bl Hb Hpos) as (M' & b' & -> & Hb' & Ep & Ec & Ei & HM). cbn [mbind option_bind].
    destruct (o_end _ _ _ _ Hb) as (E1 & E2). rewrite Ep, Ei, Hpos, E1. cbn [mbind option_bind iov_len].
    rewrite Ec, E2. cbn [mbind option_bind Z.leb Z.compare]. exists M', b', bl. split; [done|]. split; [done|].
    rewrite app_nil_r. split_and!; [by apply contents_same|by apply grows_same|]. intros q m _. apply load_ext. auto.
Qed.

(** What the first [fuel] rounds of the loop do. *)
Definition dup_ok (H : list (Z * Z)) (fuel : nat) : Prop :=
  forall c M b bl data, obuf_inv c b H bl -> room b (Z.of_nat (length data)) ->
  zsum buf_len bl + Z.of_nat (length data) < 2 ^ 64 -> 31 - pos b <= Z.of_nat fuel ->
  exists rest c' M' b' bl', dup_loop fuel c M b data = Some (rest, c', M', b') /\ 0 <= rest <= Z.of_nat (length data) /\
    obuf_inv c' b' H bl' /\ contents M' bl' = contents M bl ++ take (length data - Z.to_nat rest) data /\
    grows M b bl M' b' bl' /\ frame M M' H /\
    (rest = 0 \/ pos b' = 30 \/ exists c0 n, slab_get c0 n = Some (NULL, c')).

(** A buffer is full, and the rest [l] of the data goes to the next one. *)
Lemma dup_next H fuel c b M1 b1 bl1 cap data l :
  dup_ok H fuel -> 0 <= pos b < n_iov b /\ pos b <= 30 -> 31 - pos b <= Z.of_nat (S fuel) -> room b (Z.of_nat (length data)) ->
  obuf_inv c b1 H bl1 -> pos b1 = pos b -> n_iov b1 = n_iov b -> start_capacity b1 = start_capacity b ->
  (exists v, iov b1 !! pos b = Some v /\ iov_len v = cap) -> l `suffix_of` data ->
  zsum buf_len bl1 + Z.of_nat (length l) < 2 ^ 64 ->
  exists rest c' M' b' bl', (v ← iov b1 !! pos b1; ASSERT cap =? iov_len v;
      if pos b1 + 1 >=? SMALL_OBUF_IOV_MAX then Some (Z.of_nat (length l), c, M1, b1)
      else dup_loop fuel c M1 (set_pos b1 (pos b1 + 1)) l) = Some (rest, c', M', b') /\
    0 <= rest <= Z.of_nat (length l) /\ obuf_inv c' b' H bl' /\
    contents M' bl' = contents M1 bl1 ++ take (length l - Z.to_nat rest) l /\
    grows M1 b1 bl1 M' b' bl' /\ frame M1 M' H /\
    (rest = 0 \/ pos b' = 30 \/ exists c0 n, slab_get c0 n = Some (NULL, c')).
Proof.
  intros IH [Hp0 Hp30] Hfuel (Hs & Hf1 & Hf2) Hb1 E1 E2 E3 (v & Ev & El) Hl Hz. rewrite E1, Ev. cbn [mbind option_bind].
  rewrite El, Z.eqb_refl. unfold SMALL_OBUF_IOV_MAX. rewrite Z.geb_leb. apply suffix_length in Hl.
  destruct (Z.leb_spec 31 (pos b + 1)) as [H31|H31].
  - eexists _, _, _, _, bl1. split; [done|]. split; [lia|]. split; [done|]. rewrite Nat2Z.id, Nat.sub_diag. cbn [take].
    rewrite app_nil_r. split; [done|]. split; [apply grows_refl|]. split; [done|]. right. left. lia.
  - destruct (IH c M1 (set_pos b1 (pos b + 1)) bl1 l) as (rest & c' & M' & b' & bl' & E & Hrest & Hb' & Hco & Hg & Hf & Hend).
    + rewrite <- E1. apply set_pos_inv; [done|lia..].
    + unfold room. cbn [set_pos start_capacity n_iov]. rewrite E2, E3. split_and!; [lia|apply (fits_le lb mx lim _ _ Hf1); lia|done].
    + done.
    + cbn [set_pos pos]. lia.
    + exists rest, c', M', b', bl'. rewrite E. split_and!; try done; try lia.
      destruct Hg as [Hg1 Hg2]. cbn [set_pos pos] in Hg1, Hg2. split; [lia|]. intros i q cq lq Hi.
      destruct (Hg2 i q cq lq Hi) as (p' & cap' & len' & A1 & A2 & A3 & A4). exists p', cap', len'. split_and!; try done.
      intros ?. apply A4. lia.
Qed.

Lemma dup_loop_spec H fuel : forall c M b bl data, obuf_inv c b H bl -> room b (Z.of_nat (length data)) ->
  zsum buf_len bl + Z.of_nat (length data) < 2 ^ 64 -> 31 - pos b <= Z.of_nat fuel ->
  exists rest c' M' b' bl', dup_loop fuel c M b data = Some (rest, c', M', b') /\ 0 <= rest <= Z.of_nat (length data) /\
    obuf_inv c' b' H bl' /\ contents M' bl' = contents M bl ++ take (length data - Z.to_nat rest) data /\
    grows M b bl M' b' bl' /\ frame M M' H /\
    (rest = 0 \/ pos b' = 30 \/ exists c0 n, slab_get c0 n = Some (NULL, c')).
Proof.
  induction fuel as [|fuel IH]; intros c M b bl data Hb Hr Hlt Hfuel.
  { destruct (o_pos _ _ _ _ Hb). lia. }
  pose proof Hr as (Hs & Hf1 & Hf2). pose proof (fits_small c _ _ (o_cache _ _ _ _ Hb) Hf1).
  destruct (o_pos _ _ _ _ Hb) as ((Hp0 & _) & Hp30). cbn [dup_loop].
  destruct (at_pos _ _ _ _ Hb) as [(p & cap & len & Hx & Ei & Ec & Hlen & Hcap & Hp & Hpn)|(Hpos & Hn30 & Ei & Ec)];
    rewrite Ei; cbn [mbind option_bind iov_len]; rewrite Ec; cbn [mbind option_bind]; rewrite u64_small by lia; rewrite Z.gtb_ltb.
  - destruct (Z.ltb_spec cap (len + Z.of_nat (length data))) as [Hgt|Hle].
    2:{ destruct (dup_finish_spec c M b H bl data Hb) as (M' & b' & bl' & E & Hb' & Hco & Hg & Hf); [left; by exists p, cap, len|done|].
        exists 0, c, M', b', bl'. split; [exact E|]. split; [lia|]. split; [done|].
        change (Z.to_nat 0) with 0%nat. rewrite Nat.sub_0_r, firstn_all. split_and!; (done || by left). }
    destruct (Z.ltb_spec len cap) as [Hlc|Hlc].
    + rewrite (proj2 (Z.ltb_lt _ _)) by lia. set (k := Z.to_nat (cap - len)).
      assert (Hk' : (length (take k data) = k)%nat) by (rewrite length_take; lia).
      destruct (append_spec c M b H bl p cap len (take k data) Hb Hx ltac:(lia) ltac:(lia))
        as (M1 & b1 & bl1 & -> & Hb1 & _ & Ep & En & Es & _ & Ei1 & Hz & Hco1 & Hg1 & Hf1').
      cbn [mbind option_bind].
      destruct (dup_next H fuel c b M1 b1 bl1 cap data (drop k data)) as (rest & c' & M' & b' & bl' & E & Hrest & Hb' & Hco & Hg & Hf & Hend); try done.
      { eexists. split; [exact Ei1|]. cbn [iov_len]. lia. }
      { exists (take k data). by rewrite take_drop. }
      { rewrite Hz, length_drop, Hk'. lia. }
      rewrite length_drop in Hrest, Hco. exists rest, c', M', b', bl'. cbn zeta in E |- *. rewrite E. split; [done|]. split; [lia|]. split; [done|].
      split; [rewrite Hco, Hco1, <- app_assoc; f_equal|split_and!].
      * rewrite take_take_drop. f_equal. lia.
      * apply (grows_trans M b bl M1 b1 bl1); [by eapply len_nonneg|done|done].
      * intros q m Hq. by rewrite (Hf q m Hq), (Hf1' q m Hq).
      * done.
    + rewrite (proj2 (Z.eqb_neq cap 0)) by lia.
      destruct (dup_next H fuel c b M b bl cap data data) as (rest & c' & M' & b' & bl' & E & Hrest); try done.
      { eexists. split; [exact Ei|]. cbn [iov_len]. lia. }
      rewrite Ei in E. exists rest, c', M', b', bl'. split; [exact E|exact Hrest].
  - destruct (Z.ltb_spec 0 (0 + Z.of_nat (length data))) as [Hgt|Hle].
    + cbn [Z.ltb Z.compare Z.eqb]. destruct (alloc_pos_spec c b H bl _ Hb Hpos Hr) as (p & c' & b' & -> & Hsf & Ep & Hcase).
      cbn [mbind option_bind]. destruct Hcase as [(-> & Hb' & n & Eg)|(q & cap & Hq & -> & Hsz & Hb')].
      * cbn [Z.eqb]. eexists _, _, _, _, bl. split; [done|]. split; [lia|]. split; [done|]. rewrite Nat2Z.id, Nat.sub_diag. cbn [take].
        rewrite app_nil_r. split; [done|]. split; [by apply grows_same|]. split; [done|]. right. right. by exists c, n.
      * rewrite (proj2 (Z.eqb_neq (q + 48) NULL)) by lia.
        assert (Hz : zsum buf_len (bl ++ [(q, cap, 0)]) = zsum buf_len bl) by (rewrite zsum_app; cbn; lia).
        destruct (dup_finish_spec c' M b' H (bl ++ [(q, cap, 0)]) data Hb') as (M' & b2 & bl' & E & Hb2 & Hco & Hg & Hf).
        { left. exists q, cap, 0. split; [|lia]. rewrite Ep, Hpos, (proj1 (o_n _ _ _ _ Hb)), Nat2Z.id. by apply list_lookup_middle. }
        { rewrite Hz. done. }
        exists 0, c', M', b2, bl'. rewrite E. split; [done|]. split; [lia|]. split; [done|]. split_and!; [| |done|by left].
        -- rewrite Hco, contents_app. change (Z.to_nat 0) with 0%nat. rewrite Nat.sub_0_r, firstn_all. f_equal.
           rewrite contents_cons. cbn. by rewrite app_nil_r.
        -- eapply grows_trans; [by eapply len_nonneg|by apply grows_alloc|done].
    + destruct data; [|cbn [length] in Hle; lia].
      destruct (dup_finish_spec c M b H bl [] Hb) as (M' & b' & bl' & E & Hb' & Hco & Hg & Hf); [by right|done|].
      exists 0, c, M', b', bl'. split_and!; try done. by left.
Qed.

(** ** Reservation *)

(** An empty buffer is replaced by a larger one. *)
Lemma swap_buf c b H bl p cap c1 q n : obuf_inv c b H bl -> bl !! Z.to_nat (pos b) = Some (p, cap, 0) ->
  holds c1 ((q, n) :: (buf_slab <$> bl) ++ H) -> 48 < n ->
  let bl' := <[Z.to_nat (pos b) := (q, n - 48, 0)]> bl in
  exists c' h, slab_put c1 (slab_from_data (p + 48)) = Some c' /\ mem c' !! q = Some h /\
    let b' := set_capacity (set_iov b (pos b) (Iovec (slab_data q) 0)) (pos b) (slab_capacity h) in
    obuf_inv c' b' H bl' /\ (forall M, contents M bl' = contents M bl /\ grows M b bl M b' bl').
Proof.
  intros Hb Hx Hc Hn bl'. destruct (split_pos c b H bl p cap 0 Hb Hx) as (bl1 & bl2 & Ebl & Hlen1 & _ & Eins).
  destruct (o_pos _ _ _ _ Hb) as ((Hp0 & Hpn) & _). destruct (o_n _ _ _ _ Hb) as (Hnl & _).
  pose proof (lookup_lt_Some _ _ _ Hx) as Hlt.
  unfold slab_from_data. rewrite slab_sizeof_eq. replace (p + 48 - 48) with p by lia.
  destruct (client_put lb mx lim Hlb Hmx Hk c1 _ p (cap + 48) ((buf_slab <$> bl') ++ H) Hc) as (c' & Ep & Hc').
  { unfold bl'. rewrite Eins, Ebl, !fmap_app. cbn [fmap list_fmap]. unfold buf_slab at 2 5. cbn [fst snd].
    replace (n - 48 + 48) with n by lia. rewrite <- !(assoc_L (++)). cbn [app]. rewrite <- !Permutation_middle. constructor. }
  destruct (client_header lb mx lim Hlb Hmx Hk c' _ q n Hc') as (h & Hh & _ & Hcap & _).
  { apply elem_of_app. left. apply list_elem_of_fmap. exists (q, n - 48, 0). split; [unfold buf_slab; cbn; f_equal; lia|].
    apply list_elem_of_lookup. exists (Z.to_nat (pos b)). by apply list_lookup_insert_eq. }
  exists c', h. do 2 (split; [done|]). cbn zeta.
  set (b' := set_capacity _ _ _).
  assert (Hz : zsum buf_len bl' = zsum buf_len bl) by (unfold bl'; rewrite (zsum_insert _ _ _ _ _ Hx); cbn; lia).
  split.
  - destruct Hb as [O1 O2 O3 O4 O5 O6 O7]. split; cbn [b' iov capacity n_iov pos obuf_used start_capacity set_iov set_capacity]; try done.
    + unfold bl'. by rewrite length_insert.
    + intros i x Hi. destruct (decide (i = Z.to_nat (pos b))) as [->|Hne].
      * unfold bl' in Hi. rewrite list_lookup_insert_eq in Hi by done. injection Hi as <-. unfold buf_ok.
        cbn [b' iov capacity pos set_iov set_capacity]. rewrite Z2Nat.id by lia. rewrite !lookup_insert_eq.
        unfold slab_data. rewrite slab_sizeof_eq, Hcap. split_and!; (done || lia).
      * unfold bl' in Hi. rewrite list_lookup_insert_ne in Hi by done. destruct x as [[q' cap'] len']. unfold buf_ok.
        cbn [b' iov capacity pos set_iov set_capacity]. rewrite !lookup_insert_ne by lia. apply (O4 i _ Hi).
    + rewrite !lookup_insert_ne by lia. done.
    + rewrite Hz. done.
  - intros M. split.
    + unfold bl'. rewrite Eins, Ebl, !contents_app, !contents_cons. done.
    + split; [done|]. intros i q' cap' len' Hi. destruct (decide (i = Z.to_nat (pos b))) as [->|Hne].
      * rewrite Hx in Hi. simplify_eq. eexists _, _, _. unfold bl'. rewrite list_lookup_insert_eq by done.
        split; [done|]. split_and!; (done || lia).
      * exists q', cap', len'. unfold bl'. rewrite list_lookup_insert_ne by done. split_and!; (done || lia).
Qed.

Lemma reserve_pos_spec c b H bl size : obuf_inv c b H bl -> room b size ->
  (exists v, iov b !! pos b = Some v /\ iov_len v = 0) ->
  exists p c' b' bl', reserve_pos c b size = Some (p, c', b') /\ obuf_inv c' b' H bl' /\ pos b' = pos b /\
    same_fields b b' /\ (forall M, contents M bl' = contents M bl /\ grows M b bl M b' bl') /\
    (p = NULL \/ exists q cap, bl' !! Z.to_nat (pos b') = Some (q, cap, 0) /\ 0 < p /\ p = q + 48 /\ size <= cap).
Proof.
  intros Hb Hr (v & Ev & Ez). pose proof Hr as (Hs & Hf1 & Hf2). pose proof (fits_small c _ _ (o_cache _ _ _ _ Hb) Hf1).
  assert (Hend : forall c1 b1 bl1, obuf_inv c1 b1 H bl1 -> pos b1 = pos b ->
    (exists q cap, bl1 !! Z.to_nat (pos b) = Some (q, cap, 0) /\ 0 < q /\ size <= cap) \/ (pos b1 = n_iov b1 /\ size = 0) ->
    exists p, (v ← iov b1 !! pos b1; cap ← capacity b1 !! pos b1; ASSERT u64 (iov_len v + size) <=? cap;
        Some (iov_base v + iov_len v, c1, b1)) = Some (p, c1, b1) /\
      (p = NULL \/ exists q cap, bl1 !! Z.to_nat (pos b1) = Some (q, cap, 0) /\ 0 < p /\ p = q + 48 /\ size <= cap)).
  { intros c1 b1 bl1 Hb1 Ep [(q & cap & Hq & Hq0 & Hle)|(Hpos & ->)].
    - destruct (o_buf _ _ _ _ Hb1 _ _ Hq) as (E1 & E2 & _). rewrite Z2Nat.id in E1, E2 by (destruct (o_pos _ _ _ _ Hb); lia).
      rewrite Ep, E1. cbn [mbind option_bind iov_len iov_base]. rewrite E2. cbn [mbind option_bind].
      rewrite u64_small, (proj2 (Z.leb_le _ _)) by lia. eexists. split; [done|]. right. exists q, cap. split_and!; (done || lia).
    - destruct (o_end _ _ _ _ Hb1) as (E1 & E2). rewrite Hpos, E1. cbn [mbind option_bind iov_len iov_base]. rewrite E2.
      cbn. eexists. split; [done|]. by left. }
  unfold reserve_pos. rewrite Ev. cbn [mbind option_bind]. rewrite Ez. cbn [Z.eqb].
  destruct (at_pos _ _ _ _ Hb) as [(p & cap & len & Hx & Ei & Ec & Hlen & Hcap & Hp & Hpn)|(Hpos & Hn30 & Ei & Ec)];
    rewrite Ec; cbn [mbind option_bind]; rewrite Ei in Ev; injection Ev as <-; cbn [iov_len] in Ez; [subst len|].
  - rewrite Z.gtb_ltb. destruct (Z.ltb_spec cap size) as [Hlt|Hge].
    + rewrite Z.gtb_ltb, (proj2 (Z.ltb_lt _ _)) by lia.
      destruct (grow_total cap size) as (r & -> & Hr1 & Hr2 & Hr3); [lia..|]. cbn [mbind option_bind].
      assert (Hfr : fits r) by (apply (fits_le lb mx lim _ _ Hf1); lia).
      destruct (client_get lb mx lim Hlb Hmx Hk c _ r (o_cache _ _ _ _ Hb) Hfr) as (q & c1 & -> & Hq). cbn [mbind option_bind].
      destruct Hq as [[-> Hc]|(n & h & Hq & Hc & Hn & _ & Hm & _ & Hcp)].
      * cbn [Z.eqb mbind option_bind]. eexists _, _, _, bl. split; [done|]. split; [by destruct Hb; split|]. do 2 (split; [done|]).
        split; [|by left]. intros M. split; [done|apply grows_refl].
      * rewrite (proj2 (Z.eqb_neq q NULL)) by lia. cbn [iov_base].
        destruct (swap_buf c b H bl p cap c1 q n Hb Hx Hc ltac:(lia)) as (c' & h' & -> & Hh & Hb' & Hco). cbn [mbind option_bind].
        rewrite Hh. cbn [mbind option_bind].
        edestruct (Hend c' _ _ Hb') as (p' & E' & Hp'); [done|left|].
        { exists q, (n - 48). rewrite list_lookup_insert_eq by (by eapply lookup_lt_Some). split_and!; (done || lia). }
        eexists _, _, _, _. split; [exact E'|]. split; [exact Hb'|]. do 2 (split; [done|]). split; [exact Hco|exact Hp'].
    + cbn [mbind option_bind]. destruct (Hend c b bl Hb eq_refl) as (p' & -> & Hp').
      { left. exists p, cap. done. }
      eexists _, _, _, bl. split; [done|]. split; [done|]. do 2 (split; [done|]).
      split; [|exact Hp']. intros M. split; [done|apply grows_refl].
  - rewrite Z.gtb_ltb. destruct (Z.ltb_spec 0 size) as [Hlt|Hge].
    + cbn [Z.gtb Z.compare]. destruct (alloc_pos_spec c b H bl size Hb Hpos Hr) as (p & c' & b' & -> & Hsf & Ep & Hcase).
      cbn [mbind option_bind]. destruct Hcase as [(-> & Hb' & _)|(q & cap & Hq & -> & Hsz & Hb')].
      * cbn [Z.eqb negb]. eexists _, _, _, bl. split; [done|]. split; [done|]. do 2 (split; [done|]).
        split; [|by left]. intros M. split; [done|by apply grows_same].
      * rewrite (proj2 (Z.eqb_neq (q + 48) NULL)) by lia. cbn [negb].
        destruct (Hend c' b' _ Hb' Ep) as (p' & -> & Hp').
        { left. exists q, cap. split; [|done]. rewrite Hpos, (proj1 (o_n _ _ _ _ Hb)), Nat2Z.id. by apply list_lookup_middle. }
        eexists _, _, _, _. split; [done|]. split; [done|]. do 2 (split; [done|]). split; [|done]. intros M.
        rewrite contents_app, contents_cons. cbn. rewrite app_nil_r. split; [done|by apply grows_alloc].
    + cbn [mbind option_bind]. destruct (Hend c b bl Hb eq_refl) as (p' & -> & Hp').
      { right. split; [done|lia]. }
      eexists _, _, _, bl. split; [done|]. split; [done|]. do 2 (split; [done|]).
      split; [|exact Hp']. intros M. split; [done|apply grows_refl].
Qed.

(** The room at a pointer that [obuf_reserve] or [obuf_alloc] returned. *)
Definition room_at (b : obuf) (bl : bufs) (p size : Z) : Prop :=
  exists q cap len, bl !! Z.to_nat (pos b) = Some (q, cap, len) /\ 0 < p /\ p = q + 48 + len /\ len + size <= cap.

Lemma obuf_reserve_slow_spec c b H bl size : obuf_inv c b H bl -> room b size ->
  exists p c' b' bl', obuf_reserve_slow c b size = Some (p, c', b') /\ obuf_inv c' b' H bl' /\ same_fields b b' /\
    (forall M, contents M bl' = contents M bl /\ grows M b bl M b' bl') /\ (p = NULL \/ room_at b' bl' p size).
Proof.
  intros Hb Hr. unfold obuf_reserve_slow.
  assert (Hslow : forall b1, obuf_inv c b1 H bl -> room b1 size -> (exists v, iov b1 !! pos b1 = Some v /\ iov_len v = 0) ->
    same_fields b b1 -> (forall M, grows M b bl M b1 bl) ->
    exists p c' b' bl', reserve_pos c b1 size = Some (p, c', b') /\ obuf_inv c' b' H bl' /\ same_fields b b' /\
      (forall M, contents M bl' = contents M bl /\ grows M b bl M b' bl') /\ (p = NULL \/ room_at b' bl' p size)).
  { intros b1 Hb1 Hr1 Hv Hsf Hg. destruct (reserve_pos_spec c b1 H bl size Hb1 Hr1 Hv) as (p & c' & b' & bl' & E & Hb' & _ & Hsf' & Hco & Hp).
    exists p, c', b', bl'. split; [done|]. split; [done|]. split.
    { destruct Hsf as (? & ? & ?), Hsf' as (? & ? & ?). split_and!; congruence. }
    split.
    - intros M. split; [apply Hco|]. eapply grows_trans; [by eapply len_nonneg|apply Hg|apply Hco].
    - destruct Hp as [?|(q & cap & A1 & A2 & A3 & A4)]; [by left|right]. exists q, cap, 0. split_and!; (done || lia). }
  destruct (at_pos _ _ _ _ Hb) as [(p & cap & len & Hx & Ei & Ec & Hlen & Hcap & Hp & Hpn)|(Hpos & Hn30 & Ei & Ec)];
    rewrite Ei; cbn [mbind option_bind iov_len].
  - rewrite Z.gtb_ltb. destruct (Z.ltb_spec 0 len) as [Hl|Hl].
    + unfold SMALL_OBUF_IOV_MAX. rewrite Z.geb_leb. destruct (Z.leb_spec 31 (pos b + 1)) as [H31|H31].
      * eexists _, _, _, bl. split; [done|]. split; [done|]. split; [done|]. split; [|by left]. intros M. split; [done|apply grows_refl].
      * pose proof (set_pos_inv c b H bl Hb Hpn ltac:(lia)) as Hb1. apply Hslow; try done.
        -- destruct (at_pos _ _ _ _ Hb1) as [(p1 & cap1 & len1 & Hx1 & Ei1 & _)|(_ & _ & Ei1 & _)]; [|by eexists].
           eexists. split; [exact Ei1|]. cbn [iov_len]. destruct (o_buf _ _ _ _ Hb _ _ Hx1) as (_ & _ & _ & _ & Hz). apply Hz.
           cbn [set_pos pos]. destruct (o_pos _ _ _ _ Hb). lia.
        -- intros M. split; [cbn; lia|]. intros i q' cap' len' Hi. exists q', cap', len'. split_and!; (done || lia).
    + apply Hslow; try done; [eexists; split; [exact Ei|cbn; lia]|]. intros M. apply grows_refl.
  - cbn [Z.gtb Z.compare]. apply Hslow; try done; [by eexists|]. intros M. apply grows_refl.
Qed.

Lemma inv_reserved c b H bl f : obuf_inv c b H bl -> obuf_inv c (set_reserved b f) H bl.
Proof. intros [O1 O2 O3 O4 O5 O6 O7]. by split. Qed.

(** A pointer to [size] bytes that become contents when they are written. *)
Definition writable (b : obuf) (bl : bufs) (b' : obuf) (bl' : bufs) (H : list (Z * Z)) (p size : Z) : Prop :=
  forall M l, Z.of_nat (length l) = size -> let M' := store M p l in
    contents M' bl' = contents M bl ++ l /\ grows M b bl M' b' bl' /\ frame M M' H.

Lemma bump_spec c b H bl p cap len size : obuf_inv c b H bl -> bl !! Z.to_nat (pos b) = Some (p, cap, len) ->
  0 <= size -> len + size <= cap -> zsum buf_len bl + size < 2 ^ 64 ->
  let b' := set_used (set_iov (set_reserved b false) (pos b) (Iovec (p + 48) (u64 (len + size)))) (u64 (obuf_used b + size)) in
  exists bl', obuf_inv c b' H bl' /\ writable b bl b' bl' H (p + 48 + len) size.
Proof.
  intros Hb Hx Hs Hle Hlt b'.
  exists (<[Z.to_nat (pos b) := (p, cap, len + size)]> bl).
  destruct (o_buf _ _ _ _ Hb _ _ Hx) as (Ei & _). rewrite Z2Nat.id in Ei by (destruct (o_pos _ _ _ _ Hb); lia).
  assert (Happ : forall M l, Z.of_nat (length l) = size ->
    exists b1, append_at M b l = Some (store M (p + 48 + len) l, b1) /\ b' = set_reserved b1 false).
  { intros M l <-. unfold append_at. rewrite Ei. cbn [mbind option_bind iov_base iov_len]. eexists. split; [done|]. done. }
  split.
  - set (l := replicate (Z.to_nat size) 0). assert (Hl : Z.of_nat (length l) = size) by (unfold l; rewrite length_replicate; lia).
    destruct (append_spec c (fun _ => 0) b H bl p cap len l Hb Hx ltac:(lia) ltac:(lia)) as (M' & b1 & bl1 & E & Hb1 & Ebl & _).
    destruct (Happ (fun _ => 0) l Hl) as (b2 & E2 & ->). rewrite E in E2. injection E2 as _ <-. rewrite Ebl, Hl in Hb1.
    by apply inv_reserved.
  - intros M l Hl M'.
    destruct (append_spec c M b H bl p cap len l Hb Hx ltac:(lia) ltac:(lia))
      as (M1 & b1 & bl1 & E & _ & Ebl & _ & _ & _ & _ & _ & _ & Hco & Hg & Hf).
    destruct (Happ M l Hl) as (b2 & E2 & ->). rewrite E in E2. injection E2 as E2 <-. subst M1 bl1. rewrite Hl in *. done.
Qed.

Lemma obuf_alloc_spec c b H bl size : obuf_inv c b H bl -> room b size -> 0 < size -> zsum buf_len bl + size < 2 ^ 64 ->
  exists p c' b' bl', obuf_alloc c b size = Some (p, c', b') /\ obuf_inv c' b' H bl' /\
    ((p = NULL /\ forall M, contents M bl' = contents M bl /\ grows M b bl M b' bl') \/
     (0 < p /\ writable b bl b' bl' H p size)).
Proof.
  intros Hb Hr Hs Hlt. pose proof Hr as (_ & Hf1 & _). pose proof (fits_small c _ _ (o_cache _ _ _ _ Hb) Hf1).
  unfold obuf_alloc.
  assert (Hslow : exists p c' b' bl',
    ('(p, ok, c, b) ←
       ('(p, c, b) ← obuf_reserve_slow c b size;
        if p =? NULL then Some (NULL, false, c, b)
        else
          v ← iov b !! pos b;
          cap ← capacity b !! pos b;
          ASSERT iov_len v <=? cap;
          Some (p, true, c, b));
     if ok : bool then
       v ← iov b !! pos b;
       let b := set_iov (set_reserved b false) (pos b) (Iovec (iov_base v) (u64 (iov_len v + size))) in
       Some (p, c, set_used b (u64 (obuf_used b + size)))
     else Some (NULL, c, b)) = Some (p, c', b') /\ obuf_inv c' b' H bl' /\
    ((p = NULL /\ forall M, contents M bl' = contents M bl /\ grows M b bl M b' bl') \/
     (0 < p /\ writable b bl b' bl' H p size))).
  { destruct (obuf_reserve_slow_spec c b H bl size Hb Hr) as (p & c1 & b1 & bl1 & -> & Hb1 & Hsf & Hco & Hp). cbn [mbind option_bind].
    destruct Hp as [->|(q & cap & len & Hx & Hp0 & -> & Hle)].
    - cbn [Z.eqb mbind option_bind]. eexists _, _, _, bl1. split; [done|]. split; [done|]. by left.
    - rewrite (proj2 (Z.eqb_neq _ NULL)) by lia. destruct (o_buf _ _ _ _ Hb1 _ _ Hx) as (Ei & Ec & Hlen & _).
      rewrite Z2Nat.id in Ei, Ec by (destruct (o_pos _ _ _ _ Hb1); lia). rewrite Ei. cbn [mbind option_bind iov_len].
      rewrite Ec. cbn [mbind option_bind]. rewrite (proj2 (Z.leb_le _ _)) by lia. cbn [mbind option_bind]. rewrite Ei. cbn [mbind option_bind iov_base].
      assert (Hz : zsum buf_len bl1 = zsum buf_len bl).
      { rewrite <- (proj1 (o_used _ _ _ _ Hb1)), <- (proj1 (o_used _ _ _ _ Hb)). apply Hsf. }
      destruct (bump_spec c1 b1 H bl1 q cap len size Hb1 Hx ltac:(lia) Hle ltac:(lia)) as (bl2 & Hb2 & Hw).
      eexists _, _, _, bl2. split; [done|]. split; [exact Hb2|]. right. split; [done|].
      intros M l Hl. destruct (Hw M l Hl) as (Hc2 & Hg2 & Hf2). cbn zeta. destruct (Hco M) as [Hc1 Hg1].
      split; [by rewrite Hc2, Hc1|]. split; [|done]. eapply grows_trans; [by eapply len_nonneg|exact Hg1|exact Hg2]. }
  destruct (at_pos _ _ _ _ Hb) as [(p & cap & len & Hx & Ei & Ec & Hlen & Hcap & Hp & Hpn)|(Hpos & Hn30 & Ei & Ec)];
    rewrite Ei; cbn [mbind option_bind iov_len iov_base]; rewrite Ec; cbn [mbind option_bind]; rewrite u64_small by lia.
  - destruct (Z.leb_spec (len + size) cap) as [Hle|Hgt]; [|exact Hslow]. cbn [mbind option_bind]. rewrite Ei. cbn [mbind option_bind iov_base iov_len].
    destruct (bump_spec c b H bl p cap len size Hb Hx ltac:(lia) Hle Hlt) as (bl2 & Hb2 & Hw).
    eexists _, _, _, bl2. split; [done|]. split; [exact Hb2|]. right. split; [lia|exact Hw].
  - rewrite (proj2 (Z.leb_gt _ _)) by lia. exact Hslow.
Qed.

(** ** Savepoints *)

(** [t] are the contents at the time [s] was made. *)
Definition svp_ok (M : memory) (b : obuf) (bl : bufs) (s : obuf_svp) (t : list Z) : Prop :=
  0 <= svp_pos s <= pos b /\ 0 <= svp_iov_len s /\ svp_used s = Z.of_nat (length t) /\
  (svp_pos s <= Z.of_nat (length bl)) /\
  match bl !! Z.to_nat (svp_pos s) with
  | Some (p, _, len) => svp_iov_len s <= len /\
      contents M (take (Z.to_nat (svp_pos s)) bl) ++ load M (p + 48) (svp_iov_len s) = t
  | None => svp_iov_len s = 0 /\ contents M (take (Z.to_nat (svp_pos s)) bl) = t
  end.

Lemma grows_prefix M b bl M' b' bl' n : grows M b bl M' b' bl' -> (n <= length bl)%nat -> Z.of_nat n <= pos b ->
  contents M' (take n bl') = contents M (take n bl) /\ (n <= length bl')%nat.
Proof.
  intros [_ Hg]. induction n as [|n IH]; intros Hn Hp; [split; [done|lia]|].
  destruct (lookup_lt_is_Some_2 bl n ltac:(lia)) as [[[p cap] len] Hx].
  destruct (Hg n p cap len Hx) as (p' & cap' & len' & Hx' & _ & Hl & He). specialize (He ltac:(lia)). subst len'.
  destruct (IH ltac:(lia) ltac:(lia)) as [IH1 _]. pose proof (lookup_lt_Some _ _ _ Hx').
  rewrite (take_S_r bl n _ Hx), (take_S_r bl' n _ Hx'), !contents_app, IH1, !contents_cons, Hl. split; [done|lia].
Qed.

Lemma svp_grows M b bl M' b' bl' s t : svp_ok M b bl s t -> grows M b bl M' b' bl' ->
  (forall x, x ∈ bl' -> 0 <= buf_len x) -> svp_ok M' b' bl' s t.
Proof.
  intros (H1 & H2 & H3 & H4 & H5) Hg Hnn. pose proof Hg as [Hp Hi].
  destruct (grows_prefix _ _ _ _ _ _ (Z.to_nat (svp_pos s)) Hg ltac:(lia) ltac:(lia)) as [Ec Hlen].
  split_and!; try lia. rewrite Ec. destruct (bl !! Z.to_nat (svp_pos s)) as [[[p cap] len]|] eqn:Ex.
  - destruct H5 as [H5 H6]. destruct (Hi _ _ _ _ Ex) as (p' & cap' & len' & -> & Hle & Hl & _). split; [lia|]. rewrite <- H6. f_equal.
    rewrite (load_take M' _ len), (load_take M _ len) by lia. by rewrite Hl.
  - destruct H5 as [H5 H6]. destruct (bl' !! Z.to_nat (svp_pos s)) as [[[p cap] len]|] eqn:Ex'; [|done].
    rewrite H5. split; [|by rewrite load_nil, app_nil_r]. apply (Hnn (p, cap, len)). by eapply list_elem_of_lookup_2.
Qed.

Lemma create_svp_spec c M b H bl : obuf_inv c b H bl ->
  exists s, obuf_create_svp b = Some s /\ svp_ok M b bl s (contents M bl).
Proof.
  intros Hb. destruct (o_pos _ _ _ _ Hb) as ((Hp0 & Hpn) & _). destruct (o_n _ _ _ _ Hb) as (Hn & _).
  assert (Hu : obuf_used b = Z.of_nat (length (contents M bl))).
  { rewrite (contents_length M bl (len_nonneg _ _ _ _ Hb)). apply (o_used _ _ _ _ Hb). }
  unfold obuf_create_svp. destruct (at_pos _ _ _ _ Hb) as [(p & cap & len & Hx & Ei & _ & Hlen & _)|(Hpos & _ & Ei & _)];
    rewrite Ei; cbn [mbind option_bind iov_len]; eexists; (split; [done|]); unfold svp_ok; cbn [svp_pos svp_iov_len svp_used].
  - rewrite Hx. split_and!; try done; try lia.
    destruct (split_pos c b H bl p cap len Hb Hx) as (bl1 & bl2 & Ebl & Hl1 & Hz & _).
    rewrite Ebl, <- Hl1, take_app_length, contents_app, contents_cons, (contents_empty _ bl2 Hz). by rewrite app_nil_r.
  - rewrite (proj2 (lookup_ge_None bl _)) by lia. split_and!; try done; try lia. by rewrite firstn_all2 by lia.
Qed.

Lemma zsum_imap_le {X} (f : X -> Z) (g : nat -> X -> X) l : (forall i x, l !! i = Some x -> f (g i x) <= f x) ->
  zsum f (imap g l) <= zsum f l.
Proof.
  revert g. induction l as [|x l IH]; intros g Hg; [done|]. cbn [imap zsum foldr].
  pose proof (Hg 0%nat x eq_refl). pose proof (IH (g ∘ S) (fun i => Hg (S i))) as H0. unfold zsum in H0. lia.
Qed.

(** The buffers with [m] bytes in buffer [k] and none behind it. *)
Definition cut_len (k : nat) (m : Z) (i : nat) (len : Z) : Z :=
  if decide (i < k)%nat then len else if decide (i = k) then m else 0.
Definition cut (bl : bufs) (k : nat) (m : Z) : bufs :=
  imap (fun i x => (x.1, cut_len k m i x.2)) bl.

Lemma cut_lookup bl k m i : cut bl k m !! i = (fun x => (x.1, cut_len k m i x.2)) <$> bl !! i.
Proof. unfold cut. by rewrite list_lookup_imap. Qed.

Lemma cut_slabs bl k m : buf_slab <$> cut bl k m = buf_slab <$> bl.
Proof.
  apply list_eq. intros i. rewrite !list_lookup_fmap, cut_lookup. by destruct (bl !! i) as [[[p cap] len]|].
Qed.

Lemma cut_contents M bl k m : (k <= length bl)%nat ->
  contents M (cut bl k m) = contents M (take k bl) ++
    match bl !! k with Some (p, _, _) => load M (p + 48) m | None => [] end.
Proof.
  intros Hk'.
  assert (E1 : take k (cut bl k m) = take k bl).
  { apply list_eq. intros i. destruct (decide (i < k)%nat) as [Hi|Hi].
    - rewrite !lookup_take, !decide_True by lia. rewrite cut_lookup. destruct (bl !! i) as [[[p cap] len]|]; [|done].
      cbn. unfold cut_len. by rewrite decide_True.
    - by rewrite !lookup_take, !decide_False by lia. }
  rewrite <- (take_drop k (cut bl k m)), contents_app, E1. f_equal.
  destruct (bl !! k) as [[[p cap] len]|] eqn:Ex.
  - rewrite (drop_S _ (p, cap, m) k).
    2:{ rewrite cut_lookup, Ex. cbn. unfold cut_len. rewrite decide_False, decide_True by lia. done. }
    rewrite contents_cons, contents_empty; [by rewrite app_nil_r|].
    intros x [i Hi]%list_elem_of_lookup. rewrite lookup_drop, cut_lookup in Hi.
    destruct (bl !! (S k + i)%nat) as [y|]; [|done]. cbn in Hi. injection Hi as <-. unfold buf_len, cut_len. cbn.
    by rewrite !decide_False by lia.
  - rewrite drop_ge; [done|]. unfold cut. rewrite length_imap. by apply lookup_ge_None in Ex.
Qed.

Lemma zero_len_spec l : forall b, (forall i, i ∈ l -> is_Some (iov b !! i)) ->
  exists m, zero_len b l = Some (Obuf (slabc b) (pos b) (n_iov b) (obuf_used b) (start_capacity b) (capacity b) m (reserved b)) /\
    forall i, m !! i = if decide (i ∈ l) then (fun v => Iovec (iov_base v) 0) <$> iov b !! i else iov b !! i.
Proof.
  induction l as [|j l IH]; intros b Hl; cbn [zero_len].
  - exists (iov b). split; [by destruct b|]. intros i. rewrite decide_False; [done|]. by intros ?%elem_of_nil.
  - destruct (Hl j ltac:(left)) as [v Ev]. unfold set_iov_len. rewrite Ev. cbn [mbind option_bind].
    destruct (IH (set_iov b j (Iovec (iov_base v) 0))) as (m & E & Hm).
    { intros i Hi. cbn [set_iov iov]. apply lookup_insert_is_Some'. right. apply Hl. by right. }
    exists m. rewrite E. split; [done|]. intros i. rewrite Hm. cbn [set_iov iov].
    destruct (decide (i = j)) as [->|Hne].
    + rewrite lookup_insert_eq, (decide_True (P := j ∈ j :: l)) by left. rewrite Ev. cbn. by destruct (decide (j ∈ l)).
    + rewrite lookup_insert_ne by done. destruct (decide (i ∈ l)) as [Hi|Hi].
      * by rewrite (decide_True (P := i ∈ j :: l)) by (by right).
      * rewrite (decide_False (P := i ∈ j :: l)); [done|]. by intros [?|?]%elem_of_cons.
Qed.

(** A state whose lengths are cut at [k]. *)
Lemma cut_inv c b H bl k m b' : obuf_inv c b H bl -> (k <= length bl)%nat -> Z.of_nat k <= 30 ->
  (forall p cap len, bl !! k = Some (p, cap, len) -> 0 <= m <= cap) ->
  n_iov b' = n_iov b -> capacity b' = capacity b -> start_capacity b' = start_capacity b -> pos b' = Z.of_nat k ->
  (forall i p cap len, bl !! i = Some (p, cap, len) -> iov b' !! Z.of_nat i = Some (Iovec (p + 48) (cut_len k m i len))) ->
  iov b' !! n_iov b = Some (Iovec NULL 0) ->
  obuf_used b' = zsum buf_len (cut bl k m) -> zsum buf_len (cut bl k m) < 2 ^ 64 ->
  obuf_inv c b' H (cut bl k m).
Proof.
  intros Hb Hkl Hk30 Hm E1 E2 E3 E4 Hi He Hu Hlt. destruct Hb as [O1 O2 O3 O4 O5 O6 O7].
  split; rewrite ?E1, ?E2, ?E3, ?E4; try done.
  - unfold cut. by rewrite length_imap.
  - lia.
  - by rewrite cut_slabs.
  - intros i x Hx. rewrite cut_lookup in Hx. destruct (bl !! i) as [[[p cap] len]|] eqn:Ei; [|done]. injection Hx as <-.
    destruct (O4 i _ Ei) as (_ & A2 & A3 & A4 & _). cbn. rewrite E2, E4, (Hi i p cap len Ei).
    assert (Hc : 0 <= cut_len k m i len <= cap).
    { unfold cut_len. destruct (decide _); [done|]. destruct (decide (i = k)) as [->|]; [by eapply Hm|lia]. }
    split_and!; try done; try lia. intros Hlt'. unfold cut_len. by rewrite !decide_False by lia.
  - split; [done|apply O5].
Qed.

Lemma iovcnt_spec c b H bl : obuf_inv c b H bl -> exists n, obuf_iovcnt b = Some n /\
  0 <= n <= n_iov b /\ n <= pos b + 1 /\
  (forall i p cap len, bl !! i = Some (p, cap, len) -> n <= Z.of_nat i -> len = 0).
Proof.
  intros Hb. destruct (o_pos _ _ _ _ Hb) as ((Hp0 & Hpn) & _). unfold obuf_iovcnt.
  assert (Hz : forall i p cap len, bl !! i = Some (p, cap, len) -> pos b < Z.of_nat i -> len = 0).
  { intros i p cap len Hi. by destruct (o_buf _ _ _ _ Hb _ _ Hi) as (_ & _ & _ & _ & ?). }
  destruct (at_pos _ _ _ _ Hb) as [(p & cap & len & Hx & Ei & _ & Hlen & _ & _ & Hpn')|(Hpos & _ & Ei & _)];
    rewrite Ei; cbn [mbind option_bind iov_len]; eexists; (split; [done|]).
  - rewrite Z.gtb_ltb. destruct (Z.ltb_spec 0 len); (split_and!; [lia|lia|lia|]); intros i q cap' len' Hi Hle.
    + apply (Hz i q cap'); [done|lia].
    + destruct (decide (i = Z.to_nat (pos b))) as [->|]; [rewrite Hx in Hi; simplify_eq; lia|]. apply (Hz i q cap'); [done|lia].
  - cbn [Z.gtb Z.compare]. split_and!; [lia|lia|lia|]. intros i q cap' len' Hi Hle.
    pose proof (lookup_lt_Some _ _ _ Hi). destruct (o_n _ _ _ _ Hb). lia.
Qed.

Lemma iov_some c b H bl i : obuf_inv c b H bl -> 0 <= i < n_iov b -> is_Some (iov b !! i).
Proof.
  intros Hb Hi. destruct (o_n _ _ _ _ Hb) as (Hn & _).
  destruct (lookup_lt_is_Some_2 bl (Z.to_nat i)) as [[[p cap] len] Hx]; [lia|].
  destruct (o_buf _ _ _ _ Hb _ _ Hx) as (E & _). rewrite Z2Nat.id in E by lia. by eexists.
Qed.

Lemma rollback_spec c M b H bl s t : obuf_inv c b H bl -> svp_ok M b bl s t ->
  exists b', obuf_rollback_to_svp b s = Some b' /\
    let bl' := cut bl (Z.to_nat (svp_pos s)) (svp_iov_len s) in
    obuf_inv c b' H bl' /\ contents M bl' = t /\ pos b' = svp_pos s.
Proof.
  intros Hb (H1 & H2 & H3 & H4 & H5). destruct (o_pos _ _ _ _ Hb) as ((Hp0 & Hpn) & Hp30). destruct (o_n _ _ _ _ Hb) as (Hn & _).
  destruct (o_end _ _ _ _ Hb) as (Eend & _).
  destruct (iovcnt_spec _ _ _ _ Hb) as (n & En & Hn0 & Hn1 & Hz).
  set (k := Z.to_nat (svp_pos s)) in *. set (m := svp_iov_len s) in *.
  assert (Ek : svp_pos s = Z.of_nat k) by (unfold k; lia).
  assert (Hco : contents M (cut bl k m) = t).
  { rewrite cut_contents by lia. destruct (bl !! k) as [[[p cap] len]|]; [apply H5|]. rewrite app_nil_r. apply H5. }
  assert (Hv : exists v, iov b !! svp_pos s = Some v /\
    (forall p cap len, bl !! k = Some (p, cap, len) -> v = Iovec (p + 48) len) /\ (bl !! k = None -> v = Iovec NULL 0 /\ m = 0)).
  { destruct (bl !! k) as [[[p cap] len]|] eqn:Ex.
    - destruct (o_buf _ _ _ _ Hb _ _ Ex) as (E & _). rewrite <- Ek in E. eexists. split; [exact E|]. split; [|done]. by intros ? ? ? [= <- <- <-].
    - apply lookup_ge_None in Ex. exists (Iovec NULL 0). split; [by replace (svp_pos s) with (n_iov b) by lia|]. split; [done|].
      intros _. split; [done|]. apply H5. }
  destruct Hv as (v & Ev & Hv1 & Hv2).
  unfold obuf_rollback_to_svp. rewrite (proj2 (Z.leb_le _ _)) by lia. rewrite En. cbn [mbind option_bind].
  unfold set_iov_len at 1. cbn [set_pos iov pos]. rewrite Ev. cbn [mbind option_bind].
  set (b1 := set_used _ _).
  assert (Hnn : forall x, x ∈ cut bl k m -> 0 <= buf_len x).
  { intros x [i Hi]%list_elem_of_lookup. rewrite cut_lookup in Hi. destruct (bl !! i) as [[[p cap] len]|] eqn:Ei; [|done].
    injection Hi as <-. unfold buf_len, cut_len. cbn. destruct (o_buf _ _ _ _ Hb _ _ Ei) as (_ & _ & ? & _).
    destruct (decide _); [lia|]. destruct (decide _); lia. }
  destruct (zero_len_spec (seqZ (pos b1 + 1) (n - (pos b1 + 1))) b1) as (mm & E & Hmm).
  { intros i Hi%elem_of_seqZ. cbn [b1 set_used set_iov set_pos pos iov] in Hi |- *. apply lookup_insert_is_Some'. right.
    apply (iov_some _ _ _ _ i Hb). lia. }
  rewrite E. cbn [mbind option_bind]. eexists. split; [done|]. cbn zeta. split; [|split; [done|done]].
  pose proof (contents_length M _ Hnn) as Hlen. rewrite Hco in Hlen.
  assert (Hiov : forall i, mm !! i = (if decide (svp_pos s < i < n) then (fun v => Iovec (iov_base v) 0) <$> iov b !! i
    else if decide (i = svp_pos s) then Some (Iovec (iov_base v) m) else iov b !! i)).
  { intros i. rewrite Hmm. cbn [b1 set_used set_iov set_pos pos iov]. destruct (decide (svp_pos s < i < n)) as [Hi|Hi].
    - rewrite decide_True by (apply elem_of_seqZ; lia). by rewrite lookup_insert_ne by lia.
    - rewrite decide_False by (rewrite elem_of_seqZ; lia). destruct (decide (i = svp_pos s)) as [->|Hne].
      + by rewrite lookup_insert_eq.
      + by rewrite lookup_insert_ne. }
  apply (cut_inv c b H bl k m _ Hb); cbn [set_reserved n_iov capacity start_capacity pos iov obuf_used b1 set_used set_iov set_pos]; try done; try lia.
  - intros p cap len Ex. rewrite Ex in H5. destruct (o_buf _ _ _ _ Hb _ _ Ex) as (_ & _ & ? & _). lia.
  - intros i p cap len Ei. rewrite Hiov. destruct (o_buf _ _ _ _ Hb _ _ Ei) as (Ev' & _).
    unfold cut_len. destruct (decide (svp_pos s < Z.of_nat i < n)) as [Hi|Hi].
    + rewrite Ev'. cbn. by rewrite !decide_False by lia.
    + destruct (decide (Z.of_nat i = svp_pos s)) as [Heq|Hne].
      * assert (i = k) as -> by lia. rewrite decide_False, decide_True by lia. by rewrite (Hv1 _ _ _ Ei).
      * rewrite Ev'. destruct (decide (i < k)%nat); [done|]. rewrite decide_False by lia. by rewrite (Hz i p cap len Ei) by lia.
  - rewrite Hiov. rewrite decide_False by lia. destruct (decide (n_iov b = svp_pos s)) as [Heq|]; [|done].
    destruct Hv2 as [-> ->]; [apply lookup_ge_None; lia|done].
  - destruct (o_used _ _ _ _ Hb) as (_ & Hub). rewrite <- Hlen, <- H3.
    assert (Hle : zsum buf_len (cut bl k m) <= zsum buf_len bl); [|lia]. apply zsum_imap_le.
    intros i [[p cap] len] Hi. unfold buf_len, cut_len. cbn. destruct (o_buf _ _ _ _ Hb _ _ Hi) as (_ & _ & ? & _).
    destruct (decide _); [lia|]. destruct (decide (i = k)) as [->|]; [|lia]. rewrite Hi in H5. lia.
Qed.

(** An earlier savepoint is still good after a rollback. *)
Lemma svp_cut M b b' bl s t s' t' : svp_ok M b bl s t -> svp_ok M b bl s' t' -> pos b' = svp_pos s ->
  svp_pos s' < svp_pos s \/ (svp_pos s' = svp_pos s /\ svp_iov_len s' <= svp_iov_len s) ->
  svp_ok M b' (cut bl (Z.to_nat (svp_pos s)) (svp_iov_len s)) s' t'.
Proof.
  intros (A1 & A2 & A3 & A4 & A5) (B1 & B2 & B3 & B4 & B5) Ep Hle. unfold svp_ok.
  assert (Et : take (Z.to_nat (svp_pos s')) (cut bl (Z.to_nat (svp_pos s)) (svp_iov_len s)) = take (Z.to_nat (svp_pos s')) bl).
  { apply list_eq. intros i. rewrite !lookup_take. destruct (decide (i < Z.to_nat (svp_pos s'))%nat); [|done].
    rewrite cut_lookup. destruct (bl !! i) as [[[p cap] len]|]; [|done]. cbn. unfold cut_len. by rewrite decide_True by lia. }
  rewrite Et, cut_lookup. split_and!; try lia; [unfold cut; rewrite length_imap; lia|].
  destruct (bl !! Z.to_nat (svp_pos s')) as [[[p cap] len]|] eqn:Ex; [|done]. cbn.
  split; [|apply B5]. unfold cut_len. destruct (decide _); [apply B5|]. rewrite decide_True by lia. lia.
Qed.

Lemma obuf_reset_spec c M b H bl : obuf_inv c b H bl ->
  exists b' bl', obuf_reset b = Some b' /\ obuf_inv c b' H bl' /\ contents M bl' = [] /\ obuf_size b' = 0.
Proof.
  intros Hb. destruct (o_n _ _ _ _ Hb) as (Hn & _). destruct (iovcnt_spec _ _ _ _ Hb) as (n & En & Hn0 & _ & Hz).
  destruct (o_end _ _ _ _ Hb) as (Eend & _). unfold obuf_reset. rewrite En. cbn [mbind option_bind].
  destruct (zero_len_spec (seqZ 0 n) b) as (mm & -> & Hmm).
  { intros i Hi%elem_of_seqZ. apply (iov_some _ _ _ _ i Hb). lia. }
  cbn [mbind option_bind]. eexists _, (cut bl 0 0). split; [done|].
  assert (Hzero : zsum buf_len (cut bl 0 0) = 0).
  { rewrite (zsum_ext _ (fun _ => 0)), zsum_const; [lia|]. intros x [i Hi]%list_elem_of_lookup. rewrite cut_lookup in Hi.
    destruct (bl !! i); [|done]. injection Hi as <-. unfold buf_len, cut_len. cbn. rewrite decide_False by lia. by destruct (decide _). }
  assert (Hco : contents M (cut bl 0 0) = []).
  { rewrite cut_contents by lia. cbn. by destruct (bl !! 0%nat) as [[[p cap] len]|]. }
  split; [|split; [exact Hco|done]].
  apply (cut_inv c b H bl 0 0 _ Hb); cbn [set_reserved n_iov capacity start_capacity pos iov obuf_used set_used set_pos]; try done; try lia.
  - intros p cap len Ex. destruct (o_buf _ _ _ _ Hb _ _ Ex) as (_ & _ & ? & _). lia.
  - intros i p cap len Ei. rewrite Hmm. destruct (o_buf _ _ _ _ Hb _ _ Ei) as (Ev & _). rewrite Ev. unfold cut_len.
    rewrite (decide_False (P := (i < 0)%nat)) by lia. destruct (decide (Z.of_nat i ∈ seqZ 0 n)) as [Hi|Hi]; [cbn; by destruct (decide _)|].
    rewrite elem_of_seqZ in Hi. rewrite (Hz i p cap len Ei) by lia. by destruct (decide _).
  - rewrite Hmm, decide_False; [done|]. rewrite elem_of_seqZ. lia.
Qed.

Lemma put_bufs_spec b H bl2 : forall c k, holds c ((buf_slab <$> bl2) ++ H) -> 0 <= k ->
  (forall i p cap len, bl2 !! i = Some (p, cap, len) -> exists l, iov b !! (k + Z.of_nat i) = Some (Iovec (p + 48) l)) ->
  exists c', put_bufs c b (seqZ k (Z.of_nat (length bl2))) = Some c' /\ holds c' H.
Proof.
  induction bl2 as [|[[p cap] len] bl2 IH]; intros c k Hc Hk0 Hi; [by exists c|].
  rewrite seqZ_cons by (cbn; lia). cbn [put_bufs]. destruct (Hi 0%nat p cap len eq_refl) as (l & E).
  rewrite Z.add_0_r in E. rewrite E. cbn [mbind option_bind iov_base]. unfold slab_from_data. rewrite slab_sizeof_eq.
  replace (p + 48 - 48) with p by lia.
  destruct (client_put lb mx lim Hlb Hmx Hk c _ p (cap + 48) ((buf_slab <$> bl2) ++ H) Hc) as (c1 & -> & Hc1); [done|].
  cbn [mbind option_bind]. replace (Z.pred (Z.of_nat (length ((p, cap, len) :: bl2)))) with (Z.of_nat (length bl2)) by (cbn [length]; lia).
  apply IH; [done|lia|]. intros i p' cap' len' Hx. destruct (Hi (S i) p' cap' len' Hx) as (l' & E'). exists l'.
  by replace (Z.succ k + Z.of_nat i) with (k + Z.of_nat (S i)) by lia.
Qed.

Lemma obuf_destroy_spec c b H bl : obuf_inv c b H bl ->
  exists c' b', obuf_destroy c b = Some (c', b') /\ holds c' H /\ obuf_is_initialized b' = false.
Proof.
  intros Hb. unfold obuf_destroy. rewrite (proj1 (o_n _ _ _ _ Hb)).
  destruct (put_bufs_spec b H bl c 0 (o_cache _ _ _ _ Hb) ltac:(lia)) as (c' & -> & Hc').
  - intros i p cap len Hi. exists len. by destruct (o_buf _ _ _ _ Hb _ _ Hi) as (E & _).
  - cbn [mbind option_bind]. by eexists _, _.
Qed.

(** ** Properties *)

(** C25. [obuf_dup] appends a prefix of the data to the contents of the vector,
    filling the buffers in order: all of it, unless the last position is in use
    or the slab cache has no memory.  Whatever the data is cut into, all
    savepoints stay good and the slabs of others are not touched. *)
Theorem obuf_dup_correct c M b H bl data : obuf_inv c b H bl -> room b (Z.of_nat (length data)) ->
  zsum buf_len bl + Z.of_nat (length data) < 2 ^ 64 ->
  exists n c' M' b' bl', obuf_dup c M b data = Some (n, c', M', b') /\ 0 <= n <= Z.of_nat (length data) /\
    obuf_inv c' b' H bl' /\ contents M' bl' = contents M bl ++ take (Z.to_nat n) data /\ frame M M' H /\
    obuf_size b' = Z.of_nat (length (contents M' bl')) /\
    (forall s t, svp_ok M b bl s t -> svp_ok M' b' bl' s t) /\
    (n = Z.of_nat (length data) \/ pos b' = 30 \/ exists c0 k, slab_get c0 k = Some (NULL, c')).
Proof.
  intros Hb Hr Hlt. destruct (o_pos _ _ _ _ Hb) as ((Hp & _) & _).
  destruct (dup_loop_spec H DUP_FUEL c M b bl data Hb Hr Hlt) as (rest & c' & M' & b' & bl' & E & Hrest & Hb' & Hco & Hg & Hf & Hend).
  { unfold DUP_FUEL. lia. }
  unfold obuf_dup. rewrite E. cbn [mbind option_bind]. eexists _, c', M', b', bl'. split; [done|]. split; [lia|]. split; [done|].
  split; [rewrite Hco; do 2 f_equal; lia|]. split; [done|].
  split; [|split].
  - unfold obuf_size. rewrite (contents_length M' bl' (len_nonneg _ _ _ _ Hb')). apply (o_used _ _ _ _ Hb').
  - intros s t Hs. eapply svp_grows; [done|done|by eapply len_nonneg].
  - destruct Hend as [->|?]; [left; lia|by right].
Qed.

(** [obuf_alloc] returns NULL, with the contents as they were, or a pointer
    to as many contiguous bytes as asked for, which are the end of the contents
    once they are written; in both cases all savepoints stay good. *)
Theorem obuf_alloc_correct c b H bl size : obuf_inv c b H bl -> room b size -> 0 < size -> zsum buf_len bl + size < 2 ^ 64 ->
  exists p c' b' bl', obuf_alloc c b size = Some (p, c', b') /\ obuf_inv c' b' H bl' /\
    forall M l s t, svp_ok M b bl s t ->
      (p = NULL -> contents M bl' = contents M bl /\ svp_ok M b' bl' s t) /\
      (p <> NULL -> Z.of_nat (length l) = size ->
         contents (store M p l) bl' = contents M bl ++ l /\ svp_ok (store M p l) b' bl' s t /\ frame M (store M p l) H).
Proof.
  intros Hb Hr Hs Hlt. destruct (obuf_alloc_spec c b H bl size Hb Hr Hs Hlt) as (p & c' & b' & bl' & E & Hb' & Hp).
  exists p, c', b', bl'. split; [done|]. split; [done|]. intros M l s t Hsv. split.
  - intros ->. destruct Hp as [[_ Hp]|[? _]]; [|lia]. destruct (Hp M) as [Hc Hg]. split; [done|].
    eapply svp_grows; [done|done|by eapply len_nonneg].
  - intros Hne Hl. destruct Hp as [[? _]|[_ Hw]]; [done|]. destruct (Hw M l Hl) as (Hc & Hg & Hf). split_and!; try done.
    eapply svp_grows; [done|done|by eapply len_nonneg].
Qed.

(** C26. A savepoint brings the contents back: it can be taken at any time, and as
    long as it is good [obuf_rollback_to_svp] leaves exactly the contents of that
    time; the savepoints made before it stay good; [obuf_reset] empties the
    vector and [obuf_destroy] returns its slabs and no others. *)
Theorem obuf_rollback_correct c M b H bl : obuf_inv c b H bl ->
  (exists s, obuf_create_svp b = Some s /\ svp_ok M b bl s (contents M bl)) /\
  (forall s t, svp_ok M b bl s t -> exists b' bl', obuf_rollback_to_svp b s = Some b' /\ obuf_inv c b' H bl' /\
     contents M bl' = t /\ obuf_size b' = Z.of_nat (length t) /\
     forall s' t', svp_ok M b bl s' t' ->
       svp_pos s' < svp_pos s \/ (svp_pos s' = svp_pos s /\ svp_iov_len s' <= svp_iov_len s) -> svp_ok M b' bl' s' t') /\
  (exists b' bl', obuf_reset b = Some b' /\ obuf_inv c b' H bl' /\ contents M bl' = [] /\ obuf_size b' = 0) /\
  exists c' b', obuf_destroy c b = Some (c', b') /\ holds c' H /\ obuf_is_initialized b' = false.
Proof.
  intros Hb. split_and!; [by eapply create_svp_spec| |by eapply obuf_reset_spec|by eapply obuf_destroy_spec].
  intros s t Hs. destruct (rollback_spec c M b H bl s t Hb Hs) as (b' & E & Hb' & Hco & Ep).
  exists b', (cut bl (Z.to_nat (svp_pos s)) (svp_iov_len s)). split; [done|]. split; [done|]. split; [done|]. split.
  - unfold obuf_size. rewrite (proj1 (o_used _ _ _ _ Hb')), <- (contents_length M _ (len_nonneg _ _ _ _ Hb')). by rewrite Hco.
  - intros s' t' Hs' Hle. eapply svp_cut; done.
Qed.
End Inv.

(** ** A concrete vector *)
Definition example_obuf : obuf := obuf_create 1 16.

Lemma example_obuf_inv : obuf_inv (inv:=host_inv) 12 4 100000 example_cache example_obuf [] [].
Proof. apply obuf_create_inv; [apply example_holds|lia]. Qed.

Lemma example_room n : 0 <= n <= 1000 -> room 12 4 100000 example_obuf n.
Proof. intros Hn. unfold room, fits. change (start_capacity example_obuf * 2 ^ n_iov example_obuf) with 16. lia. Qed.

(** After 4100 bytes the first buffer, of 4048, is full and the second one in use. *)
Lemma obuf_dup_correct_witness :
  (if obuf_dup example_cache (fun _ => 0) example_obuf (replicate 100 7) is Some (n, c, M, b)
   then (n =? 100) && (pos b =? 0) &&
     (if obuf_dup c M b (replicate 4000 8) is Some (n', _, M', b') then (n' =? 4000) && (pos b' =? 1) else false)
   else false) = true /\
  exists n c' M' b', obuf_dup example_cache (fun _ => 0) example_obuf [7; 8; 9] = Some (n, c', M', b').
Proof.
  split; [by vm_compute|].
  destruct (obuf_dup_correct (inv:=host_inv) 12 4 100000 ltac:(lia) ltac:(lia) ltac:(lia) example_cache (fun _ => 0) example_obuf
    [] [] [7; 8; 9] example_obuf_inv (example_room 3 ltac:(lia)) ltac:(by vm_compute)) as (n & c' & M' & b' & bl' & E & _).
  exists n, c', M', b'. exact E.
Defined.

Lemma obuf_alloc_correct_witness : exists p c' b', obuf_alloc example_cache example_obuf 100 = Some (p, c', b').
Proof.
  destruct (obuf_alloc_correct (inv:=host_inv) 12 4 100000 ltac:(lia) ltac:(lia) ltac:(lia) example_cache example_obuf
    [] [] 100 example_obuf_inv (example_room 100 ltac:(lia)) ltac:(lia) ltac:(by vm_compute)) as (p & c' & b' & bl' & E & _).
  exists p, c', b'. exact E.
Defined.

Lemma obuf_rollback_correct_witness :
  exists s b', obuf_create_svp example_obuf = Some s /\ obuf_rollback_to_svp example_obuf s = Some b'.
Proof.
  destruct (obuf_rollback_correct (inv:=host_inv) 12 4 100000 ltac:(lia) ltac:(lia) ltac:(lia) example_cache (fun _ => 0)
    example_obuf [] [] example_obuf_inv) as ((s & E & Hs) & Hr & _).
  destruct (Hr s _ Hs) as (b' & bl' & E' & _). exists s, b'. split; [exact E|exact E'].
Defined.
