(* ===== verification/Lsregion.v ===== *)
(** * Log-structured region: [include/small/lsregion.h], [small/lsregion.c]

    Chunks with nondecreasing identifiers are written one after another into
    slabs of the arena, or into blocks of the heap when they are large; the oldest
    slabs are freed by identifier.  The headers of the slabs are a finite map from
    their addresses. *)
From stdpp Require Import sorting.
From S2P Require Import Prelude Util SlabSource SlabCache.

Section Lsregion.
Context {src : Type} `{!SlabSource src}.

(** ** Definitions *)

Definition LSLAB_NOT_USED_ID : Z := -1.
Definition INT64_MAX : Z := 2 ^ 63 - 1.

Record lsregion_svp := LsregionSvp { svp_slab_id : Z; svp_pos : Z }.
Definition lsregion_svp_create : lsregion_svp := LsregionSvp LSLAB_NOT_USED_ID 0.

(** [struct lslab], less its list link. *)
Record lslab := Lslab { slab_size : Z; slab_used : Z; slab_id : Z; max_id : Z }.

Record lsregion := Lsregion {
  ls_slabs : slab_list;
  cached : Z;
  ls_slab_id : Z;
  lslabs : gmap Z lslab;
}.

Definition set_ls_slabs (l : lsregion) (sl : slab_list) : lsregion := Lsregion sl (cached l) (ls_slab_id l) (lslabs l).
Definition set_cached (l : lsregion) (p : Z) : lsregion := Lsregion (ls_slabs l) p (ls_slab_id l) (lslabs l).
Definition set_lslab (l : lsregion) (p : Z) (h : lslab) : lsregion :=
  Lsregion (ls_slabs l) (cached l) (ls_slab_id l) (<[p := h]> (lslabs l)).
(** [++lsregion->slab_id], a signed 64-bit integer. *)
Definition next_slab_id (l : lsregion) : option lsregion :=
  ASSERT ls_slab_id l <? INT64_MAX;
  Some (Lsregion (ls_slabs l) (cached l) (ls_slab_id l + 1) (lslabs l)).
(** [rlist_add_tail_entry]. *)
Definition add_tail (l : lsregion) (p : Z) : lsregion :=
  set_ls_slabs l (set_slabs (slabs (ls_slabs l) ++ [p]) (ls_slabs l)).

(** List link, two sizes, two identifiers. *)
Definition lslab_sizeof : Z := small_align (16 + 8 + 8 + 8 + 8) 8.
Definition lslab_create (l : lsregion) (p size slab_id : Z) : lsregion :=
  set_lslab l p (Lslab size lslab_sizeof slab_id LSLAB_NOT_USED_ID).
Definition lslab_unused (h : lslab) : option Z :=
  ASSERT slab_size h >=? slab_used h;
  Some (u64 (slab_size h - slab_used h)).
Definition lslab_use (h : lslab) (size id : Z) : option lslab :=
  n ← lslab_unused h;
  ASSERT size <=? n;
  ASSERT max_id h <=? id;
  Some (Lslab (slab_size h) (u64 (slab_used h + size)) (slab_id h) id).
Definition lslab_pos (p : Z) (h : lslab) : Z := p + slab_used h.
Definition lslab_end (p : Z) (h : lslab) : Z := p + slab_size h.

Definition lsregion_create (s : src) : option lsregion :=
  ASSERT arena_slab_size s >? lslab_sizeof;
  Some (Lsregion slab_list_create NULL 0 ∅).

(** The attempt to use the last slab: the aligned and the unaligned position, if
    the chunk fits. *)
Definition try_last (l : lsregion) (size alignment : Z) : option (option (Z * Z)) :=
  match last (slabs (ls_slabs l)) with
  | None => Some None
  | Some p =>
      h ← lslabs l !! p;
      let unaligned := lslab_pos p h in
      ASSERT small_align_ok unaligned alignment;
      let pos := small_align unaligned alignment in
      Some (if u64 (pos + size) <=? lslab_end p h then Some (pos, unaligned) else None)
  end.

(** The new slab of [lsregion_aligned_reserve_slow]; [NULL] when there is none. *)
Definition get_lslab (s : src) (l : lsregion) (aligned_size : Z) : option (Z * src * lsregion) :=
  let arena_size := arena_slab_size s in
  if u64 (aligned_size + lslab_sizeof) >? arena_size then
    let n := u64 (aligned_size + lslab_sizeof) in
    '(r, s) ← arena_quota_use s n;
    if r <? 0 then Some (NULL, s, l)
    else
      let '(p, s) := heap_malloc s n in
      if p =? NULL then
        '(_, s) ← arena_quota_release s n;
        Some (NULL, s, l)
      else
        l ← next_slab_id l;
        let l := add_tail (lslab_create l p n (ls_slab_id l)) p in
        Some (p, s, set_ls_slabs l (add_total n (ls_slabs l)))
  else if negb (cached l =? NULL) then
    let p := cached l in
    h ← lslabs l !! p;
    l ← next_slab_id (set_cached l NULL);
    Some (p, s, add_tail (lslab_create l p (slab_size h) (ls_slab_id l)) p)
  else
    '(p, s) ← arena_slab_map s;
    if p =? NULL then Some (NULL, s, l)
    else
      l ← next_slab_id l;
      let l := add_tail (lslab_create l p arena_size (ls_slab_id l)) p in
      Some (p, s, set_ls_slabs l (add_total arena_size (ls_slabs l))).

(** Both positions are results; the unaligned one means nothing with [NULL]. *)
Definition lsregion_aligned_reserve_slow (s : src) (l : lsregion) (size alignment : Z) :
    option (Z * Z * src * lsregion) :=
  fit ← try_last l size alignment;
  match fit with
  | Some (pos, unaligned) => Some (pos, unaligned, s, l)
  | None =>
      '(p, s, l) ← get_lslab s l (u64 (size + alignment - 1));
      if p =? NULL then Some (NULL, NULL, s, l)
      else
        h ← lslabs l !! p;
        let unaligned := lslab_pos p h in
        ASSERT small_align_ok unaligned alignment;
        let pos := small_align unaligned alignment in
        ASSERT u64 (pos + size) <=? lslab_end p h;
        Some (pos, unaligned, s, l)
  end.

Definition lsregion_aligned_reserve (s : src) (l : lsregion) (size alignment : Z) :
    option (Z * Z * src * lsregion) :=
  fit ← try_last l size alignment;
  match fit with
  | Some (pos, unaligned) => Some (pos, unaligned, s, l)
  | None => lsregion_aligned_reserve_slow s l size alignment
  end.

Definition lsregion_reserve (s : src) (l : lsregion) (size : Z) : option (Z * src * lsregion) :=
  '(res, unaligned, s, l) ← lsregion_aligned_reserve s l size 1;
  ASSERT (res =? NULL) || (res =? unaligned);
  Some (res, s, l).

(** [lslab_use] of the last slab and the statistics. *)
Definition use_last (l : lsregion) (size id : Z) : option lsregion :=
  p ← last (slabs (ls_slabs l));
  h ← lslabs l !! p;
  h ← lslab_use h size id;
  let l := set_lslab l p h in
  Some (set_ls_slabs l (add_used size (ls_slabs l))).

Definition lsregion_alloc (s : src) (l : lsregion) (size id : Z) : option (Z * src * lsregion) :=
  '(res, s, l) ← lsregion_reserve s l size;
  if res =? NULL then Some (NULL, s, l)
  else
    l ← use_last l size id;
    Some (res, s, l).

Definition lsregion_aligned_alloc (s : src) (l : lsregion) (size alignment id : Z) :
    option (Z * src * lsregion) :=
  '(res, unaligned, s, l) ← lsregion_aligned_reserve s l size alignment;
  if res =? NULL then Some (NULL, s, l)
  else
    l ← use_last l (u64 (size + (res - unaligned))) id;
    Some (res, s, l).

Definition lsregion_alloc_object (s : src) (l : lsregion) (id sizeof_T alignof_T : Z) :
    option (Z * src * lsregion) := lsregion_aligned_alloc s l sizeof_T alignof_T id.

(** One slab is taken out of the list and freed. *)
Definition gc_slab (s : src) (l : lsregion) (p : Z) (h : lslab) : option (src * lsregion) :=
  sl ← list_remove p (slabs (ls_slabs l));
  let l := set_ls_slabs l (set_slabs sl (ls_slabs l)) in
  let l := set_ls_slabs l (add_used (- (slab_used h - lslab_sizeof)) (ls_slabs l)) in
  if slab_size h >? arena_slab_size s then
    '(_, s) ← arena_quota_release s (slab_size h);
    let l := set_ls_slabs l (add_total (- slab_size h) (ls_slabs l)) in
    s ← heap_free s p;
    Some (s, l)
  else if negb (cached l =? NULL) then
    let l := set_ls_slabs l (add_total (- slab_size h) (ls_slabs l)) in
    s ← arena_slab_unmap s p;
    Some (s, l)
  else Some (s, set_cached (lslab_create l p (slab_size h) LSLAB_NOT_USED_ID) p).

(** The loop over the slabs from the oldest. *)
Fixpoint gc_loop (s : src) (l : lsregion) (todo : list Z) (min_id : Z) : option (src * lsregion) :=
  match todo with
  | [] => Some (s, l)
  | p :: todo =>
      h ← lslabs l !! p;
      if max_id h >? min_id then Some (s, l)
      else
        '(s, l) ← gc_slab s l p h;
        gc_loop s l todo min_id
  end.

Definition lsregion_gc (s : src) (l : lsregion) (min_id : Z) : option (src * lsregion) :=
  gc_loop s l (slabs (ls_slabs l)) min_id.

Definition lsregion_destroy (s : src) (l : lsregion) : option src :=
  '(s, l) ← (match slabs (ls_slabs l) with
             | [] => Some (s, l)
             | _ => lsregion_gc s l INT64_MAX
             end);
  if negb (cached l =? NULL) then arena_slab_unmap s (cached l) else Some s.

Definition lsregion_used (l : lsregion) : Z := used (stats (ls_slabs l)).
Definition lsregion_total (l : lsregion) : Z := total (stats (ls_slabs l)).

(** The vectors, the savepoint and the maximal identifier are results; [room] is
    how many vectors may still be filled. *)
Fixpoint iovec_loop (l : lsregion) (todo : list Z) (room prev_id prev_pos : Z) (svp : lsregion_svp)
    (max_alloc_id : Z) : option (list (Z * Z) * lsregion_svp * Z) :=
  match todo with
  | [] => Some ([], svp, max_alloc_id)
  | p :: todo =>
      h ← lslabs l !! p;
      if max_id h =? LSLAB_NOT_USED_ID then Some ([], svp, max_alloc_id)
      else if (slab_id h <? prev_id) ||
              ((slab_id h =? prev_id) && (u64 (slab_used h - lslab_sizeof) =? prev_pos))
      then iovec_loop l todo room prev_id prev_pos svp max_alloc_id
      else if room <=? 0 then Some ([], svp, max_alloc_id)
      else
        let base := p + lslab_sizeof in
        let len := u64 (slab_used h - lslab_sizeof) in
        let svp := LsregionSvp (slab_id h) len in
        v ←
          (if slab_id h =? prev_id then
             ASSERT len >? prev_pos;
             Some (base + prev_pos, len - prev_pos)
           else Some (base, len));
        '(iov, svp, max_alloc_id) ← iovec_loop l todo (room - 1) prev_id prev_pos svp (max_id h);
        Some (v :: iov, svp, max_alloc_id)
  end.

Definition lsregion_to_iovec (l : lsregion) (max_iovcnt : Z) (svp : lsregion_svp) :
    option (list (Z * Z) * lsregion_svp * Z) :=
  iovec_loop l (slabs (ls_slabs l)) max_iovcnt (svp_slab_id svp) (svp_pos svp) svp LSLAB_NOT_USED_ID.
End Lsregion.

(** ** The log

    A chunk is its address, its size with padding, and its identifier; a slab of
    the log has its address, its size, its identifier and its chunks, oldest
    first. *)
Abbreviation chunk := (Z * Z * Z)%type.
Definition chunk_size (c : chunk) : Z := c.1.2.
Definition chunk_id (c : chunk) : Z := c.2.
Record seg := Seg { seg_p : Z; seg_n : Z; seg_id : Z; seg_chunks : list chunk }.

Definition seg_bytes (e : seg) : Z := zsum chunk_size (seg_chunks e).
(** The identifier of the newest chunk. *)
Definition newest (e : seg) : Z := default LSLAB_NOT_USED_ID (chunk_id <$> last (seg_chunks e)).
Definition log_ids (log : list seg) : list Z := log ≫= fun e => chunk_id <$> seg_chunks e.
Definition log_chunks (log : list seg) : list chunk := log ≫= seg_chunks.

(** The chunks follow each other from address [a]. *)
Fixpoint packed (a : Z) (cs : list chunk) : Prop :=
  match cs with
  | [] => True
  | (x, n, _) :: cs => x = a /\ 0 <= n /\ packed (a + n) cs
  end.

Lemma packed_app a cs x n i : packed a cs -> x = a + zsum chunk_size cs -> 0 <= n -> packed a (cs ++ [(x, n, i)]).
Proof.
  revert a. induction cs as [|[[y m] j] cs IH]; intros a.
  - cbn. intros _ -> Hn. lia.
  - cbn [packed app]. change (zsum chunk_size ((y, m, j) :: cs)) with (m + zsum chunk_size cs).
    intros (-> & Hm & Hp) Hx Hn. split_and!; [done|done|]. apply IH; [done|lia|done].
Qed.

Lemma packed_bounds a cs : packed a cs -> 0 <= zsum chunk_size cs /\
  forall x n i, (x, n, i) ∈ cs -> a <= x /\ 0 <= n /\ x + n <= a + zsum chunk_size cs.
Proof.
  revert a. induction cs as [|[[y m] j] cs IH]; intros a; [split; [done|]; by intros ? ? ? ?%elem_of_nil|].
  cbn [packed]. change (zsum chunk_size ((y, m, j) :: cs)) with (m + zsum chunk_size cs).
  intros (-> & Hm & Hp). destruct (IH _ Hp) as [H1 H2]. split; [lia|].
  intros x n i [[= -> -> ->]|Hx]%elem_of_cons; [lia|]. specialize (H2 x n i Hx). lia.
Qed.

Lemma sorted_snoc (R : relation Z) l x : StronglySorted R l -> (forall y, y ∈ l -> R y x) -> StronglySorted R (l ++ [x]).
Proof.
  intros Hl Hx. apply StronglySorted_app_2; [|done|by repeat constructor].
  intros y z Hy ->%list_elem_of_singleton. by apply Hx.
Qed.

Lemma sorted_last (l : list Z) x : StronglySorted Z.le l -> last l = Some x -> forall y, y ∈ l -> y <= x.
Proof.
  induction 1 as [|y l Hs IH Hy]; [done|]. intros Hl z Hz. destruct l as [|y' l].
  - injection Hl as ->. apply list_elem_of_singleton in Hz. lia.
  - apply elem_of_cons in Hz as [->|Hz]; [|by apply IH].
    rewrite Forall_forall in Hy. etransitivity; [apply (Hy y'); left|]. apply IH; [done|left].
Qed.

(** ** Memory of the source, up to order *)
Section Inv.
Context {src : Type} `{!SlabSource src}
  {inv : Z -> Z -> src -> list Z -> list (Z * Z) -> list Z -> Prop} `{!SlabSourceLaws inv}.
Context (k lim : Z).

Definition owns (s : src) (A : list Z) (B : list (Z * Z)) (Q : list Z) : Prop :=
  exists A' B' Q', inv k lim s A' B' Q' /\ A' ≡ₚ A /\ B' ≡ₚ B /\ Q' ≡ₚ Q.

#[export] Instance owns_proper s : Proper ((≡ₚ) ==> (≡ₚ) ==> (≡ₚ) ==> iff) (owns s).
Proof.
  assert (Hi : forall A A2 B B2 Q Q2, A ≡ₚ A2 -> B ≡ₚ B2 -> Q ≡ₚ Q2 -> owns s A B Q -> owns s A2 B2 Q2).
  { intros A A2 B B2 Q Q2 HA HB HQ (A' & B' & Q' & Hi & H1 & H2 & H3). exists A', B', Q'.
    split; [done|]. by rewrite H1, H2, H3. }
  intros A A2 HA B B2 HB Q Q2 HQ. split; by apply Hi.
Qed.

Lemma owns_geometry s A B Q : owns s A B Q -> arena_slab_size s = 2 ^ k /\ 16 <= k <= 31 /\ lim < 2 ^ 42.
Proof. intros (A' & B' & Q' & Hi & _). by apply src_geometry in Hi. Qed.

Lemma owns_quota s A B Q n : owns s A B Q -> n ∈ Q -> 0 < n <= lim.
Proof. intros (A' & B' & Q' & Hi & _ & _ & HQ) Hn. rewrite <- HQ in Hn. by eapply src_quota. Qed.

(** Everything handed out is apart. *)
Lemma owns_facts s A B Q : owns s A B Q ->
  NoDup A /\ (forall p, p ∈ A -> 0 < p /\ p mod 2 ^ k = 0) /\
  NoDup B.*1 /\ (forall p n, (p, n) ∈ B -> 0 < p /\ 0 < n) /\
  (forall p n q m x, (p, n) ∈ B -> (q, m) ∈ B -> p <= x < p + n -> q <= x < q + m -> p = q) /\
  (forall p n q x, (p, n) ∈ B -> q ∈ A -> p <= x < p + n -> ~ q <= x < q + 2 ^ k).
Proof.
  intros (A' & B' & Q' & Hi & HA & HB & HQ). destruct (src_slabs _ _ _ _ _ _ Hi) as [H1 H2].
  destruct (src_blocks _ _ _ _ _ _ Hi) as (H3 & H4 & H5 & H6). split_and!.
  - by rewrite <- HA.
  - intros p Hp. apply H2. by rewrite HA.
  - by rewrite <- HB.
  - intros p n Hp. rewrite <- HB in Hp. by destruct (H4 p n Hp) as (? & _ & ?).
  - intros p n q m x Hp Hq. rewrite <- HB in Hp, Hq. by apply H5.
  - intros p n q x Hp Hq. rewrite <- HB in Hp. rewrite <- HA in Hq. by apply H6.
Qed.

Lemma owns_map s A B Q : owns s A B Q ->
  exists p s', arena_slab_map s = Some (p, s') /\ ((p = NULL /\ owns s' A B Q) \/ (0 < p /\ owns s' (p :: A) B Q)).
Proof.
  intros (A' & B' & Q' & Hi & HA & HB & HQ). destruct (src_map _ _ _ _ _ _ Hi) as (p & s' & E & H).
  exists p, s'. split; [done|]. destruct H as [[-> Hi']|[Hp Hi']]; [left|right]; (split; [done|]).
  - by exists A', B', Q'.
  - exists (p :: A'), B', Q'. split_and!; [done|by rewrite HA|done|done].
Qed.

Lemma owns_unmap s p A B Q : owns s (p :: A) B Q -> exists s', arena_slab_unmap s p = Some s' /\ owns s' A B Q.
Proof.
  intros (A' & B' & Q' & Hi & HA & HB & HQ). assert (Hp : p ∈ A') by (rewrite HA; left).
  apply list_elem_of_split in Hp as (A1 & A2 & ->). destruct (src_unmap _ _ _ _ _ _ _ _ Hi) as (s' & E & Hi').
  exists s'. split; [done|]. exists (A1 ++ A2), B', Q'. split_and!; try done.
  rewrite <- Permutation_middle in HA. by apply Permutation_cons_inv in HA.
Qed.

Lemma owns_use s A B Q n : owns s A B Q -> 0 < n <= lim ->
  exists r s', arena_quota_use s n = Some (r, s') /\ ((r < 0 /\ owns s' A B Q) \/ (0 <= r /\ owns s' A B (n :: Q))).
Proof.
  intros (A' & B' & Q' & Hi & HA & HB & HQ) Hn. destruct (src_use _ _ _ _ _ _ _ Hi Hn) as (r & s' & E & H).
  exists r, s'. split; [done|]. destruct H as [[Hr Hi']|[Hr Hi']]; [left|right]; (split; [done|]).
  - by exists A', B', Q'.
  - exists A', B', (n :: Q'). split_and!; [done|done|done|by rewrite HQ].
Qed.

Lemma owns_release s A B Q n : owns s A B (n :: Q) ->
  exists r s', arena_quota_release s n = Some (r, s') /\ owns s' A B Q.
Proof.
  intros (A' & B' & Q' & Hi & HA & HB & HQ). assert (Hn : n ∈ Q') by (rewrite HQ; left).
  apply list_elem_of_split in Hn as (Q1 & Q2 & ->). destruct (src_release _ _ _ _ _ _ _ _ Hi) as (r & s' & E & Hi').
  exists r, s'. split; [done|]. exists A', B', (Q1 ++ Q2). split_and!; try done.
  rewrite <- Permutation_middle in HQ. by apply Permutation_cons_inv in HQ.
Qed.

Lemma owns_malloc s A B Q n : owns s A B Q -> 0 < n ->
  exists p s', heap_malloc s n = (p, s') /\ ((p = NULL /\ owns s' A B Q) \/ (0 < p /\ owns s' A ((p, n) :: B) Q)).
Proof.
  intros (A' & B' & Q' & Hi & HA & HB & HQ) Hn. destruct (src_malloc _ _ _ _ _ _ _ Hi Hn) as (p & s' & E & H).
  exists p, s'. split; [done|]. destruct H as [[-> Hi']|[Hp Hi']]; [left|right]; (split; [done|]).
  - by exists A', B', Q'.
  - exists A', ((p, n) :: B'), Q'. split_and!; [done|done|by rewrite HB|done].
Qed.

Lemma owns_free s A p n B Q : owns s A ((p, n) :: B) Q -> exists s', heap_free s p = Some s' /\ owns s' A B Q.
Proof.
  intros (A' & B' & Q' & Hi & HA & HB & HQ). assert (Hp : (p, n) ∈ B') by (rewrite HB; left).
  apply list_elem_of_split in Hp as (B1 & B2 & ->). destruct (src_free _ _ _ _ _ _ _ _ _ Hi) as (s' & E & Hi').
  exists s'. split; [done|]. exists A', (B1 ++ B2), Q'. split_and!; try done.
  rewrite <- Permutation_middle in HB. by apply Permutation_cons_inv in HB.
Qed.

(** ** The invariant *)

Definition is_large (e : seg) : bool := seg_n e >? 2 ^ k.
Definition arena_part (log : list seg) : list Z := log ≫= fun e => if is_large e then [] else [seg_p e].
Definition block_part (log : list seg) : list (Z * Z) :=
  log ≫= fun e => if is_large e then [(seg_p e, seg_n e)] else [].
Definition quota_part (log : list seg) : list Z := log ≫= fun e => if is_large e then [seg_n e] else [].
Definition cached_part (l : lsregion) : list Z := if cached l =? NULL then [] else [cached l].

(** What a slab of the log needs of its header. *)
Definition seg_ok (l : lsregion) (e : seg) : Prop :=
  lslabs l !! seg_p e = Some (Lslab (seg_n e) (lslab_sizeof + seg_bytes e) (seg_id e) (newest e)) /\
  packed (seg_p e + lslab_sizeof) (seg_chunks e) /\ lslab_sizeof + seg_bytes e <= seg_n e /\
  (seg_n e = 2 ^ k \/ 2 ^ k < seg_n e <= lim) /\ 0 < seg_p e < 2 ^ 62.

(** The addresses of the chunks, in the order of the log. *)
Definition chunk_bytes (c : chunk) : list Z := seqZ c.1.1 c.1.2.
Definition log_bytes (log : list seg) : list Z := log_chunks log ≫= chunk_bytes.

(** [A], [B] and [Q] are what others have of the source. *)
Record ls_inv (s : src) (l : lsregion) (A : list Z) (B : list (Z * Z)) (Q : list Z) (log : list seg) : Prop := {
  i_owns : owns s (arena_part log ++ cached_part l ++ A) (block_part log ++ B) (quota_part log ++ Q);
  i_slabs : slabs (ls_slabs l) = seg_p <$> log;
  i_seg e : e ∈ log -> seg_ok l e;
  i_cached : cached l = NULL \/
    (0 < cached l < 2 ^ 62 /\
     lslabs l !! cached l = Some (Lslab (2 ^ k) lslab_sizeof LSLAB_NOT_USED_ID LSLAB_NOT_USED_ID));
  i_ids : StronglySorted Z.lt (seg_id <$> log) /\ 0 <= ls_slab_id l /\
    forall e, e ∈ log -> 0 < seg_id e <= ls_slab_id l;
  i_order : StronglySorted Z.le (log_ids log) /\ forall i, i ∈ log_ids log -> 0 <= i <= INT64_MAX;
  i_used : lsregion_used l = u64 (zsum seg_bytes log);
  i_total : lsregion_total l = u64 (zsum seg_n log + 2 ^ k * Z.of_nat (length (cached_part l)));
}.

Lemma lslab_sizeof_eq : lslab_sizeof = 48.
Proof. reflexivity. Qed.

Lemma parts_cons e log : arena_part (e :: log) = (if is_large e then [] else [seg_p e]) ++ arena_part log /\
  block_part (e :: log) = (if is_large e then [(seg_p e, seg_n e)] else []) ++ block_part log /\
  quota_part (e :: log) = (if is_large e then [seg_n e] else []) ++ quota_part log.
Proof. done. Qed.

Lemma parts_snoc log e : arena_part (log ++ [e]) ≡ₚ (if is_large e then [] else [seg_p e]) ++ arena_part log /\
  block_part (log ++ [e]) ≡ₚ (if is_large e then [(seg_p e, seg_n e)] else []) ++ block_part log /\
  quota_part (log ++ [e]) ≡ₚ (if is_large e then [seg_n e] else []) ++ quota_part log.
Proof.
  unfold arena_part, block_part, quota_part. rewrite !bind_app. cbn [mbind list_bind]. rewrite !app_nil_r.
  split_and!; apply Permutation_app_comm.
Qed.

Lemma seg_part log e : e ∈ log -> if is_large e then (seg_p e, seg_n e) ∈ block_part log else seg_p e ∈ arena_part log.
Proof.
  intros He. destruct (is_large e) eqn:E; apply list_elem_of_bind; exists e; rewrite E; (split; [left|done]).
Qed.

(** Two slabs of the log, or a slab and the cached one, do not overlap. *)
Lemma segs_apart s l A B Q log e f : ls_inv s l A B Q log -> e ∈ log -> f ∈ log -> seg_p e <> seg_p f ->
  seg_p e + seg_n e <= seg_p f \/ seg_p f + seg_n f <= seg_p e.
Proof.
  intros Hi He Hf Hne. pose proof (i_owns _ _ _ _ _ _ Hi) as Ho.
  destruct (owns_geometry _ _ _ _ Ho) as (_ & Hk & _). pose proof (pow2_pos k ltac:(lia)) as Hp.
  destruct (owns_facts _ _ _ _ Ho) as (_ & HA & _ & _ & HBB & HBA).
  destruct (i_seg _ _ _ _ _ _ Hi e He) as (_ & Pe & Le & Ne & _).
  destruct (i_seg _ _ _ _ _ _ Hi f Hf) as (_ & Pf & Lf & Nf & _).
  pose proof (proj1 (packed_bounds _ _ Pe)) as Be. pose proof (proj1 (packed_bounds _ _ Pf)) as Bf.
  fold (seg_bytes e) in Be. fold (seg_bytes f) in Bf. rewrite lslab_sizeof_eq in *.
  pose proof (seg_part log e He) as Ie. pose proof (seg_part log f Hf) as If.
  unfold is_large in *. destruct (Z.gtb_spec (seg_n e) (2 ^ k)), (Z.gtb_spec (seg_n f) (2 ^ k)).
  - pose proof (HBB (seg_p e) (seg_n e) (seg_p f) (seg_n f) (Z.max (seg_p e) (seg_p f))
      ltac:(apply elem_of_app; by left) ltac:(apply elem_of_app; by left)). lia.
  - pose proof (HBA (seg_p e) (seg_n e) (seg_p f) (Z.max (seg_p e) (seg_p f))
      ltac:(apply elem_of_app; by left) ltac:(apply elem_of_app; by left)). lia.
  - pose proof (HBA (seg_p f) (seg_n f) (seg_p e) (Z.max (seg_p e) (seg_p f))
      ltac:(apply elem_of_app; by left) ltac:(apply elem_of_app; by left)). lia.
  - destruct (HA (seg_p e)) as [_ Me]; [apply elem_of_app; by left|].
    destruct (HA (seg_p f)) as [_ Mf]; [apply elem_of_app; by left|].
    destruct (Z.lt_total (seg_p e) (seg_p f)) as [Hl|[?|Hl]]; [left| |right]; [|done|].
    + destruct (mod_add_self (seg_p e) (2 ^ k) Hp Me) as [M1 _].
      destruct (Z.le_gt_cases (seg_p e + 2 ^ k) (seg_p f)) as [|Hgt]; [lia|].
      pose proof (multiple_le (2 ^ k) (seg_p f) (seg_p e) Hp Mf Me ltac:(lia)). lia.
    + destruct (Z.le_gt_cases (seg_p f + 2 ^ k) (seg_p e)) as [|Hgt]; [lia|].
      pose proof (multiple_le (2 ^ k) (seg_p e) (seg_p f) Hp Me Mf ltac:(lia)). lia.
Qed.

Lemma log_addrs log : seg_p <$> log ≡ₚ arena_part log ++ (block_part log).*1.
Proof.
  induction log as [|e log IH]; [done|]. destruct (parts_cons e log) as (-> & -> & _).
  rewrite fmap_app. cbn [fmap list_fmap]. rewrite IH. destruct (is_large e); cbn; [|done].
  apply Permutation_middle.
Qed.

Lemma log_nodup s C A B Q log : owns s (arena_part log ++ C ++ A) (block_part log ++ B) Q ->
  NoDup (C ++ (seg_p <$> log)).
Proof.
  intros Ho. destruct (owns_facts _ _ _ _ Ho) as (NA & _ & NB & HB & _ & HBA).
  destruct (owns_geometry _ _ _ _ Ho) as (_ & Hk & _). pose proof (pow2_pos k ltac:(lia)).
  rewrite log_addrs. rewrite app_assoc in NA. apply NoDup_app in NA as (NA & _ & _).
  rewrite Permutation_app_comm in NA. rewrite fmap_app in NB. apply NoDup_app in NB as (NB & _ & _).
  rewrite app_assoc. apply NoDup_app. split_and!; [done| |done].
  intros p Hp ((q & n) & Hq & Hb)%list_elem_of_fmap. simpl in Hq. subst q.
  destruct (HB p n) as [_ Hn]; [apply elem_of_app; by left|].
  apply (HBA p n p p); [apply elem_of_app; by left| |lia|lia].
  rewrite !elem_of_app in *. tauto.
Qed.

Lemma seg_ok_insert l l' q h e : lslabs l' = <[q := h]> (lslabs l) -> seg_p e <> q -> seg_ok l e -> seg_ok l' e.
Proof. intros El Hne. unfold seg_ok. by rewrite El, lookup_insert_ne. Qed.

Lemma log_ids_app log1 log2 : log_ids (log1 ++ log2) = log_ids log1 ++ log_ids log2.
Proof. apply bind_app. Qed.

(** A new slab at the end of the log. *)
Lemma inv_push s s' l l' A B Q log p n : ls_inv s l A B Q log ->
  let e := Seg p n (ls_slab_id l + 1) [] in
  owns s' (arena_part (log ++ [e]) ++ cached_part l' ++ A) (block_part (log ++ [e]) ++ B) (quota_part (log ++ [e]) ++ Q) ->
  slabs (ls_slabs l') = slabs (ls_slabs l) ++ [p] ->
  lslabs l' = <[p := Lslab n lslab_sizeof (ls_slab_id l + 1) LSLAB_NOT_USED_ID]> (lslabs l) ->
  ls_slab_id l' = ls_slab_id l + 1 -> cached l' = NULL \/ cached l' = cached l -> lsregion_used l' = lsregion_used l ->
  lsregion_total l' = u64 (zsum seg_n log + n + 2 ^ k * Z.of_nat (length (cached_part l'))) ->
  0 < p < 2 ^ 62 -> n = 2 ^ k \/ 2 ^ k < n <= lim -> ls_inv s' l' A B Q (log ++ [e]).
Proof.
  intros Hi e Ho Es El Eid Ec Eu Et Hp Hn. destruct (i_ids _ _ _ _ _ _ Hi) as (I1 & I2 & I3).
  pose proof (log_nodup _ _ _ _ _ _ Ho) as Hnd. rewrite fmap_app in Hnd. cbn [fmap list_fmap] in Hnd.
  rewrite app_assoc in Hnd. apply NoDup_app in Hnd as (_ & Hnd & _).
  assert (Hnew : forall x, x ∈ cached_part l' ++ (seg_p <$> log) -> x <> p).
  { intros x Hx ->. apply (Hnd p Hx). left. }
  destruct (owns_geometry _ _ _ _ Ho) as (_ & Hk & _). pose proof (pow2_mono 16 k ltac:(lia)).
  constructor; try done.
  - by rewrite Es, (i_slabs _ _ _ _ _ _ Hi), fmap_app.
  - intros f [Hf|Hf]%elem_of_app.
    + apply (seg_ok_insert l l' _ _ f El); [|by apply (i_seg _ _ _ _ _ _ Hi)].
      apply Hnew, elem_of_app. right. by apply list_elem_of_fmap_2.
    + apply list_elem_of_singleton in Hf as ->. split_and!; try done; cbn [e seg_p seg_n seg_id seg_chunks].
      * rewrite El, lookup_insert_eq. done.
      * rewrite lslab_sizeof_eq. cbn. lia.
      * lia.
      * lia.
  - destruct Ec as [Ec|Ec]; [by left|]. destruct (i_cached _ _ _ _ _ _ Hi) as [E0|[E1 E2]]; [left; congruence|right].
    rewrite Ec, El. split; [done|]. rewrite lookup_insert_ne; [done|]. intros Heq. apply (Hnew (cached l)); [|done].
    apply elem_of_app. left. unfold cached_part. rewrite Ec. destruct (Z.eqb_spec (cached l) NULL) as [E|]; [|left].
    rewrite E in E1. lia.
  - rewrite Eid. split_and!; [|lia|].
    + rewrite fmap_app. apply sorted_snoc; [done|]. intros y (f & -> & Hf)%list_elem_of_fmap.
      cbn [e seg_id]. specialize (I3 f Hf). lia.
    + intros f [Hf%I3|Hf%list_elem_of_singleton]%elem_of_app; [lia|]. subst f. cbn [e seg_id]. lia.
  - rewrite log_ids_app. unfold log_ids at 2 4. cbn [mbind list_bind e seg_chunks fmap list_fmap app]. rewrite !app_nil_r.
    apply (i_order _ _ _ _ _ _ Hi).
  - rewrite Eu, (i_used _ _ _ _ _ _ Hi), zsum_app. f_equal. unfold zsum at 3, seg_bytes. cbn. lia.
  - rewrite Et, zsum_app. f_equal. unfold zsum at 3. cbn [foldr e seg_n]. lia.
Qed.

(** ** A new slab *)

(** Sizes a slab may be asked for. *)
Definition ls_fits (n : Z) : Prop := 0 <= n /\ (n + lslab_sizeof <= 2 ^ k \/ n + lslab_sizeof <= lim).

Lemma total_grow s l A B Q log n : ls_inv s l A B Q log ->
  u64 (lsregion_total l + n) = u64 (zsum seg_n log + n + 2 ^ k * Z.of_nat (length (cached_part l))).
Proof. intros Hi. rewrite (i_total _ _ _ _ _ _ Hi), u64_add_l. f_equal. lia. Qed.

Lemma inv_source s s' l A B Q log : ls_inv s l A B Q log ->
  owns s' (arena_part log ++ cached_part l ++ A) (block_part log ++ B) (quota_part log ++ Q) ->
  ls_inv s' l A B Q log.
Proof. intros [] Ho. by constructor. Qed.

Lemma inv_geometry s l A B Q log : ls_inv s l A B Q log ->
  arena_slab_size s = 2 ^ k /\ 16 <= k <= 31 /\ lim < 2 ^ 42 /\ 2 ^ 16 <= 2 ^ k <= 2 ^ 31.
Proof.
  intros Hi. destruct (owns_geometry _ _ _ _ (i_owns _ _ _ _ _ _ Hi)) as (? & ? & ?).
  pose proof (pow2_mono 16 k ltac:(lia)). pose proof (pow2_mono k 31 ltac:(lia)). done.
Qed.

Lemma small_seg p i cs : is_large (Seg p (2 ^ k) i cs) = false.
Proof. unfold is_large. cbn. rewrite Z.gtb_ltb. apply Z.ltb_irrefl. Qed.

(** A large slab, from the heap. *)
Lemma large_slab s l A B Q log n : ls_inv s l A B Q log -> 2 ^ k < n <= lim ->
  let e p := Seg p n (ls_slab_id l + 1) [] in
  exists r s1, arena_quota_use s n = Some (r, s1) /\
    ((r < 0 /\ ls_inv s1 l A B Q log) \/
     0 <= r /\ exists p s2, heap_malloc s1 n = (p, s2) /\
       ((p = NULL /\ exists r' s3, arena_quota_release s2 n = Some (r', s3) /\ ls_inv s3 l A B Q log) \/
        0 < p /\ owns s2 (arena_part (log ++ [e p]) ++ cached_part l ++ A) (block_part (log ++ [e p]) ++ B)
                   (quota_part (log ++ [e p]) ++ Q))).
Proof.
  intros Hi Hn e. pose proof (i_owns _ _ _ _ _ _ Hi) as Ho. destruct (inv_geometry _ _ _ _ _ _ Hi) as (_ & _ & _ & Hk).
  destruct (owns_use _ _ _ _ n Ho ltac:(lia)) as (r & s1 & E1 & [[Hr Ho1]|[Hr Ho1]]); exists r, s1; (split; [done|]).
  - left. split; [done|]. by apply (inv_source s).
  - right. split; [done|]. destruct (owns_malloc _ _ _ _ n Ho1 ltac:(lia)) as (p & s2 & E2 & [[-> Ho2]|[Hp Ho2]]);
      eexists _, s2; (split; [exact E2|]).
    + left. split; [done|]. destruct (owns_release _ _ _ _ n Ho2) as (r' & s3 & E3 & Ho3). exists r', s3. split; [done|].
      by apply (inv_source s).
    + right. split; [done|]. assert (El : is_large (e p) = true) by (unfold is_large; cbn; apply Z.gtb_lt; lia).
      destruct (parts_snoc log (e p)) as (-> & -> & ->). rewrite El. done.
Qed.

Lemma get_lslab_spec s l A B Q log a : ls_inv s l A B Q log -> ls_fits a -> ls_slab_id l < INT64_MAX ->
  exists p s' l', get_lslab s l a = Some (p, s', l') /\
    ((p = NULL /\ ls_inv s' l' A B Q log) \/
     0 < p /\ (p < 2 ^ 62 -> exists n, a + lslab_sizeof <= n /\
       ls_inv s' l' A B Q (log ++ [Seg p n (ls_slab_id l + 1) []]))).
Proof.
  intros Hi [Ha Hf] Hid. destruct (inv_geometry _ _ _ _ _ _ Hi) as (Esz & Hk & Hl & H2k).
  rewrite lslab_sizeof_eq in *. unfold get_lslab, next_slab_id. cbv zeta. rewrite Esz, lslab_sizeof_eq, u64_small by lia.
  rewrite !(proj2 (Z.ltb_lt (ls_slab_id _) INT64_MAX)) by done. pose proof (i_owns _ _ _ _ _ _ Hi) as Ho.
  destruct (Z.gtb_spec (a + 48) (2 ^ k)) as [Hlarge|Hsmall].
  - destruct (large_slab _ _ _ _ _ _ (a + 48) Hi ltac:(lia)) as (r & s1 & -> & [[Hr Hi1]|(Hr & p & s2 & E2 & HE)]);
      cbn [mbind option_bind].
    + rewrite (proj2 (Z.ltb_lt r 0)) by done. eexists _, _, _. split; [done|]. by left.
    + rewrite (proj2 (Z.ltb_ge r 0)) by done. rewrite E2. destruct HE as [(-> & r' & s3 & -> & Hi3)|[Hp Ho2]].
      { cbn [mbind option_bind Z.eqb]. eexists _, _, _. split; [done|]. by left. }
      rewrite (proj2 (Z.eqb_neq p NULL)) by lia. cbn [mbind option_bind].
      eexists _, _, _. split; [done|]. right. split; [done|]. intros Hp62. exists (a + 48). split; [lia|].
      eapply (inv_push s); [done|done|done|done|done|by right|done| |lia|lia].
      by apply (total_grow s l A B Q log).
  - destruct (Z.eqb_spec (cached l) NULL) as [Ec|Ec]; cbn [negb].
    + destruct (owns_map _ _ _ _ Ho) as (p & s1 & -> & [[-> Ho1]|[Hp Ho1]]); cbn [mbind option_bind].
      { cbn [Z.eqb]. eexists _, _, _. split; [done|]. left. split; [done|]. by apply (inv_source s). }
      rewrite (proj2 (Z.eqb_neq p NULL)) by lia. cbn [mbind option_bind].
      eexists _, _, _. split; [done|]. right. split; [done|]. intros Hp62. exists (2 ^ k). split; [lia|].
      eapply (inv_push s); [done| |done|done|done|by right|done| |lia|lia].
      * destruct (parts_snoc log (Seg p (2 ^ k) (ls_slab_id l + 1) [])) as (-> & -> & ->). rewrite small_seg. done.
      * by apply (total_grow s l A B Q log).
    + destruct (i_cached _ _ _ _ _ _ Hi) as [?|[Hc Eh]]; [done|]. rewrite Eh. cbn [mbind option_bind set_cached ls_slab_id].
      eexists _, _, _. split; [done|]. right. split; [lia|]. intros _. exists (2 ^ k). split; [lia|].
      assert (Ecp : cached_part l = [cached l]) by (unfold cached_part; by rewrite (proj2 (Z.eqb_neq _ _) Ec)).
      eapply (inv_push s); [done| |done|done|done|by left|done| |lia|lia].
      * destruct (parts_snoc log (Seg (cached l) (2 ^ k) (ls_slab_id l + 1) [])) as (-> & -> & ->). rewrite small_seg.
        rewrite Ecp in Ho. cbn [app] in Ho. rewrite <- Permutation_middle in Ho. done.
      * change (lsregion_total l = u64 (zsum seg_n log + 2 ^ k + 2 ^ k * 0)). rewrite (i_total _ _ _ _ _ _ Hi), Ecp.
        f_equal. cbn [length]. lia.
Qed.

(** ** Taking memory of the last slab *)

Definition seg_add (e : seg) (n id : Z) : seg :=
  Seg (seg_p e) (seg_n e) (seg_id e) (seg_chunks e ++ [(seg_p e + lslab_sizeof + seg_bytes e, n, id)]).

Lemma seg_add_bytes e n id : seg_bytes (seg_add e n id) = seg_bytes e + n /\ newest (seg_add e n id) = id.
Proof.
  unfold seg_bytes, newest, seg_add. cbn [seg_chunks]. rewrite zsum_app, last_snoc. split; [|done].
  unfold zsum at 2. cbn. lia.
Qed.

Lemma newest_le e id : -1 <= id -> (forall i, i ∈ chunk_id <$> seg_chunks e -> i <= id) -> newest e <= id.
Proof.
  intros Hid H. unfold newest. destruct (last (seg_chunks e)) as [c|] eqn:E; cbn; [|done].
  apply H, list_elem_of_fmap_2. by apply last_Some_elem_of.
Qed.

Lemma inv_last s l A B Q log e : ls_inv s l A B Q (log ++ [e]) ->
  last (slabs (ls_slabs l)) = Some (seg_p e) /\ seg_ok l e /\ 0 <= seg_bytes e /\ seg_n e < 2 ^ 42.
Proof.
  intros Hi. assert (He : e ∈ log ++ [e]) by (apply elem_of_app; right; left).
  pose proof (i_seg _ _ _ _ _ _ Hi e He) as Hok. destruct (inv_geometry _ _ _ _ _ _ Hi) as (_ & _ & ? & ?).
  rewrite (i_slabs _ _ _ _ _ _ Hi), fmap_app. cbn [fmap list_fmap]. rewrite last_snoc. split_and!; [done|done| |].
  - destruct Hok as (_ & Hp & _). apply (packed_bounds _ _ Hp).
  - destruct Hok as (_ & _ & _ & Hn & _). lia.
Qed.

Lemma inv_add s l l' A B Q log e n id : ls_inv s l A B Q (log ++ [e]) ->
  0 <= n <= seg_n e - lslab_sizeof - seg_bytes e -> 0 <= id <= INT64_MAX ->
  (forall i, i ∈ log_ids (log ++ [e]) -> i <= id) ->
  slabs (ls_slabs l') = slabs (ls_slabs l) -> cached l' = cached l -> ls_slab_id l' = ls_slab_id l ->
  lslabs l' = <[seg_p e := Lslab (seg_n e) (lslab_sizeof + seg_bytes e + n) (seg_id e) id]> (lslabs l) ->
  lsregion_used l' = u64 (lsregion_used l + n) -> lsregion_total l' = lsregion_total l ->
  ls_inv s l' A B Q (log ++ [seg_add e n id]).
Proof.
  intros Hi Hn Hid Hle Es Ec Eid El Eu Et. destruct (inv_last _ _ _ _ _ _ _ Hi) as (_ & Hok & Hb & _).
  pose proof (log_nodup _ _ _ _ _ _ (i_owns _ _ _ _ _ _ Hi)) as Hnd. rewrite fmap_app in Hnd.
  rewrite app_assoc in Hnd. apply NoDup_app in Hnd as (_ & Hnd & _).
  assert (Ecp : cached_part l' = cached_part l) by (unfold cached_part; by rewrite Ec).
  destruct (seg_add_bytes e n id) as [Eb En].
  assert (Eids : log_ids (log ++ [seg_add e n id]) = log_ids (log ++ [e]) ++ [id]).
  { rewrite !log_ids_app. unfold log_ids at 2 4. cbn [mbind list_bind seg_add seg_chunks].
    rewrite fmap_app, !app_nil_r, app_assoc. done. }
  constructor.
  - destruct (parts_snoc log (seg_add e n id)) as (-> & -> & ->).
    change (is_large (seg_add e n id)) with (is_large e). cbn [seg_add seg_p seg_n]. rewrite Ecp.
    pose proof (i_owns _ _ _ _ _ _ Hi) as Ho. destruct (parts_snoc log e) as (Ea & Ebl & Eq). by rewrite Ea, Ebl, Eq in Ho.
  - rewrite Es, (i_slabs _ _ _ _ _ _ Hi), !fmap_app. done.
  - intros f [Hf|Hf]%elem_of_app.
    + apply (seg_ok_insert l l' _ _ f El); [|apply (i_seg _ _ _ _ _ _ Hi), elem_of_app; by left].
      intros Heq. apply (Hnd (seg_p f)); [apply elem_of_app; right; by apply list_elem_of_fmap_2|rewrite Heq; left].
    + apply list_elem_of_singleton in Hf as ->. destruct Hok as (H1 & H2 & H3 & H4 & H5).
      unfold seg_ok. rewrite Eb, En. cbn [seg_add seg_p seg_n seg_id seg_chunks].
      rewrite El, lookup_insert_eq. split_and!; try done; try lia.
      * f_equal. f_equal. lia.
      * apply packed_app; [done|unfold seg_bytes; lia|lia].
  - rewrite Ec. destruct (i_cached _ _ _ _ _ _ Hi) as [?|[H1 H2]]; [by left|right]. split; [done|].
    rewrite El, lookup_insert_ne; [done|]. intros Heq. apply (Hnd (seg_p e)); [|left]. apply elem_of_app. left.
    unfold cached_part. rewrite (proj2 (Z.eqb_neq (cached l) NULL)) by lia. rewrite <- Heq. left.
  - rewrite Eid. destruct (i_ids _ _ _ _ _ _ Hi) as (I1 & I2 & I3). rewrite fmap_app in *. split_and!; [done..|].
    intros f [Hf|Hf%list_elem_of_singleton]%elem_of_app; [|subst f; cbn [seg_add seg_id]];
      apply I3, elem_of_app; [by left|right; left].
  - rewrite Eids. destruct (i_order _ _ _ _ _ _ Hi) as [O1 O2]. split; [by apply sorted_snoc|].
    intros i [Hi'|Hi'%list_elem_of_singleton]%elem_of_app; [by apply O2|by subst].
  - rewrite Eu, (i_used _ _ _ _ _ _ Hi), u64_add_l, !zsum_app. f_equal. unfold zsum at 2 4. cbn [foldr]. rewrite Eb. lia.
  - rewrite Et, (i_total _ _ _ _ _ _ Hi), Ecp, !zsum_app. f_equal.
Qed.

Lemma use_last_spec s l A B Q log e n id : ls_inv s l A B Q (log ++ [e]) ->
  0 <= n <= seg_n e - lslab_sizeof - seg_bytes e -> 0 <= id <= INT64_MAX ->
  (forall i, i ∈ log_ids (log ++ [e]) -> i <= id) ->
  exists l', use_last l n id = Some l' /\ ls_inv s l' A B Q (log ++ [seg_add e n id]).
Proof.
  intros Hi Hn Hid Hle. destruct (inv_last _ _ _ _ _ _ _ Hi) as (El & Hok & Hb & Hn42). destruct Hok as (Eh & _ & Hsz & _).
  unfold use_last. rewrite El. cbn [mbind option_bind]. rewrite Eh. cbn [mbind option_bind].
  unfold lslab_use, lslab_unused. cbn [slab_size slab_used max_id]. rewrite lslab_sizeof_eq in *.
  rewrite (proj2 (Z.geb_le (seg_n e) _)) by lia. cbn [mbind option_bind]. rewrite u64_small by lia.
  rewrite (proj2 (Z.leb_le n _)) by lia. rewrite (proj2 (Z.leb_le (newest e) id)).
  2:{ apply newest_le; [lia|]. intros i Hin. apply Hle. rewrite log_ids_app. apply elem_of_app. right.
      unfold log_ids. cbn [mbind list_bind]. by rewrite app_nil_r. }
  cbn [mbind option_bind]. eexists. split; [done|]. apply (inv_add s l); try done; try by rewrite lslab_sizeof_eq.
  rewrite lslab_sizeof_eq. cbn [slab_id set_lslab set_ls_slabs lslabs]. rewrite u64_small by lia. done.
Qed.

(** ** Reservation and allocation *)

Lemma try_last_spec s l A B Q log e size a : ls_inv s l A B Q (log ++ [e]) -> 0 <= a < 32 -> 0 <= size < 2 ^ 62 ->
  let base := seg_p e + lslab_sizeof + seg_bytes e in
  exists pos, base <= pos < base + 2 ^ a /\ pos mod 2 ^ a = 0 /\
    try_last l size (2 ^ a) = Some (if pos + size <=? seg_p e + seg_n e then Some (pos, base) else None).
Proof.
  intros Hi Ha Hs base. destruct (inv_last _ _ _ _ _ _ _ Hi) as (El & (Eh & _ & Hsz & _ & Hp) & Hb & Hn).
  pose proof (pow2_mono a 31 ltac:(lia)). assert (Eb : base = seg_p e + lslab_sizeof + seg_bytes e) by done.
  rewrite lslab_sizeof_eq in *. destruct (small_align_bounds base a ltac:(lia) ltac:(lia) ltac:(lia)) as [H1 H2].
  exists (small_align base (2 ^ a)). split_and!; [lia..|done|]. unfold try_last. rewrite El. cbn [mbind option_bind].
  rewrite Eh. cbn [mbind option_bind]. unfold lslab_pos, lslab_end. cbn [slab_used slab_size].
  rewrite Z.add_assoc, <- Eb. rewrite small_align_ok_pow2, u64_small by lia. done.
Qed.

Lemma ls_fits_small s l A B Q log size a : ls_inv s l A B Q log -> 0 <= a < 32 -> 0 <= size -> ls_fits (size + 2 ^ a - 1) -> 0 <= size < 2 ^ 62.
Proof.
  intros Hi Ha Hs Hf. destruct (inv_geometry _ _ _ _ _ _ Hi) as (_ & _ & Hl & Hk). pose proof (pow2_pos a ltac:(lia)).
  destruct Hf as [? [?|?]]; rewrite lslab_sizeof_eq in *; lia.
Qed.

Lemma try_last_nil s l A B Q size a : ls_inv s l A B Q [] -> try_last l size a = Some None.
Proof. intros Hi. unfold try_last. by rewrite (i_slabs _ _ _ _ _ _ Hi). Qed.

Lemma log_ids_chunks log : log_ids log = chunk_id <$> log_chunks log.
Proof.
  unfold log_ids, log_chunks. induction log as [|e log IH]; [done|]. cbn [mbind list_bind].
  by rewrite fmap_app, <- IH.
Qed.

Lemma log_chunks_app log1 log2 : log_chunks (log1 ++ log2) = log_chunks log1 ++ log_chunks log2.
Proof. apply bind_app. Qed.

Lemma log_chunks_add log e n id : log_chunks (log ++ [seg_add e n id]) =
  log_chunks (log ++ [e]) ++ [(seg_p e + lslab_sizeof + seg_bytes e, n, id)].
Proof.
  rewrite !log_chunks_app. unfold log_chunks at 2 4. cbn [mbind list_bind seg_add seg_chunks]. by rewrite !app_nil_r, app_assoc.
Qed.

(** The slab a reservation asks for, if it does, has a user-space address. *)
Definition new_slab_low (s : src) (l : lsregion) (n : Z) : Prop :=
  forall p s' l', get_lslab s l n = Some (p, s', l') -> p < 2 ^ 62.

(** [res] is the first aligned address after the last chunk, with room for [size] bytes. *)
Definition reserved_at (e : seg) (size a base res : Z) : Prop :=
  base = seg_p e + lslab_sizeof + seg_bytes e /\ 0 < base <= res /\ res < base + 2 ^ a /\ res mod 2 ^ a = 0 /\
  res + size <= seg_p e + seg_n e.

Lemma reserve_slow_spec s l A B Q log size a : ls_inv s l A B Q log -> 0 <= a < 32 -> 0 <= size ->
  ls_fits (size + 2 ^ a - 1) -> ls_slab_id l < INT64_MAX -> new_slab_low s l (size + 2 ^ a - 1) ->
  try_last l size (2 ^ a) = Some None ->
  exists res base s' l', lsregion_aligned_reserve_slow s l size (2 ^ a) = Some (res, base, s', l') /\
    ((res = NULL /\ ls_inv s' l' A B Q log) \/
     exists log' e, ls_inv s' l' A B Q (log' ++ [e]) /\ log_chunks (log' ++ [e]) = log_chunks log /\
       reserved_at e size a base res).
Proof.
  intros Hi Ha Hs Hf Hid Hlow Et. unfold lsregion_aligned_reserve_slow. rewrite Et. cbn [mbind option_bind].
  destruct (inv_geometry _ _ _ _ _ _ Hi) as (_ & _ & Hl & Hk). pose proof (pow2_pos a ltac:(lia)).
  rewrite u64_small by (destruct Hf as [? [?|?]]; rewrite lslab_sizeof_eq in *; lia).
  destruct (get_lslab_spec _ _ _ _ _ _ _ Hi Hf Hid) as (p & s' & l' & E & Hp). rewrite E. cbn [mbind option_bind].
  destruct Hp as [[-> Hi']|[Hp Hi']].
  - cbn [Z.eqb]. eexists _, _, _, _. split; [done|]. by left.
  - rewrite (proj2 (Z.eqb_neq p NULL)) by lia. destruct (Hi' (Hlow _ _ _ E)) as (n & Hn & Hi2). clear Hi'.
    set (e := Seg p n (ls_slab_id l + 1) []) in *.
    destruct (try_last_spec _ _ _ _ _ _ _ size a Hi2 Ha (ls_fits_small _ _ _ _ _ _ _ _ Hi Ha Hs Hf)) as (pos & H1 & H2 & H3).
    destruct (inv_last _ _ _ _ _ _ _ Hi2) as (El & (Eh & _) & _). unfold try_last in H3. rewrite El in H3. cbn [mbind option_bind] in H3.
    cbn [e seg_p] in Eh, H3. rewrite Eh in *. cbn [mbind option_bind] in *.
    unfold lslab_pos, lslab_end in *. cbn [slab_used slab_size] in *.
    destruct (small_align_ok _ _); cbn [mbind option_bind] in *; [|done].
    change (seg_bytes e) with 0 in *. cbn [e seg_p seg_n seg_id] in *. rewrite lslab_sizeof_eq in *.
    rewrite (proj2 (Z.leb_le (pos + size) _)) in H3 by lia. destruct (Z.leb_spec (u64 (small_align (p + (48 + 0)) (2 ^ a) + size)) (p + n)); [|done].
    injection H3 as H3 _. rewrite H3 in *. eexists _, _, _, _. split; [done|]. right. exists log, e. split_and!; [done| |].
    + rewrite log_chunks_app. unfold log_chunks at 2. cbn. by rewrite !app_nil_r.
    + unfold reserved_at. change (seg_bytes e) with 0. cbn [e seg_p seg_n]. rewrite lslab_sizeof_eq. split_and!; (done || lia).
Qed.

Lemma ls_reserve_spec s l A B Q log size a : ls_inv s l A B Q log -> 0 <= a < 32 -> 0 <= size ->
  ls_fits (size + 2 ^ a - 1) -> ls_slab_id l < INT64_MAX -> new_slab_low s l (size + 2 ^ a - 1) ->
  exists res base s' l', lsregion_aligned_reserve s l size (2 ^ a) = Some (res, base, s', l') /\
    ((res = NULL /\ ls_inv s' l' A B Q log) \/
     exists log' e, ls_inv s' l' A B Q (log' ++ [e]) /\ log_chunks (log' ++ [e]) = log_chunks log /\
       reserved_at e size a base res).
Proof.
  intros Hi Ha Hs Hf Hid Hlow. unfold lsregion_aligned_reserve.
  pose proof (reserve_slow_spec _ _ _ _ _ _ _ _ Hi Ha Hs Hf Hid Hlow) as Hslow.
  destruct log as [|e log _] using rev_ind.
  - rewrite (try_last_nil _ _ _ _ _ size (2 ^ a) Hi) in *. apply Hslow. done.
  - destruct (try_last_spec _ _ _ _ _ _ _ size a Hi Ha (ls_fits_small _ _ _ _ _ _ _ _ Hi Ha Hs Hf)) as (pos & H1 & H2 & E). rewrite E in *. cbn [mbind option_bind].
    destruct (Z.leb_spec (pos + size) (seg_p e + seg_n e)) as [Hfit|Hno]; [|by apply Hslow].
    eexists _, _, _, _. split; [done|]. right. exists log, e. destruct (inv_last _ _ _ _ _ _ _ Hi) as (_ & (_ & _ & _ & _ & ?) & ? & _).
    split_and!; [done|done|]. unfold reserved_at. rewrite lslab_sizeof_eq in *. split_and!; (done || lia).
Qed.

Lemma ls_alloc_spec s l A B Q log size a id : ls_inv s l A B Q log -> 0 <= a < 32 -> 0 <= size ->
  ls_fits (size + 2 ^ a - 1) -> ls_slab_id l < INT64_MAX -> new_slab_low s l (size + 2 ^ a - 1) ->
  0 <= id <= INT64_MAX -> (forall c, c ∈ log_chunks log -> chunk_id c <= id) ->
  exists res s' l', lsregion_aligned_alloc s l size (2 ^ a) id = Some (res, s', l') /\
    (a = 0 -> lsregion_alloc s l size id = Some (res, s', l')) /\
    ((res = NULL /\ ls_inv s' l' A B Q log) \/
     exists log' base, 0 < base <= res /\ res < base + 2 ^ a /\ res mod 2 ^ a = 0 /\ ls_inv s' l' A B Q log' /\
       log_chunks log' = log_chunks log ++ [(base, res - base + size, id)]).
Proof.
  intros Hi Ha Hs Hf Hid Hlow Hid' Hle. unfold lsregion_aligned_alloc, lsregion_alloc, lsregion_reserve.
  destruct (ls_reserve_spec _ _ _ _ _ _ _ _ Hi Ha Hs Hf Hid Hlow) as (res & base & s' & l' & E & Hr).
  rewrite E. cbn [mbind option_bind]. destruct Hr as [[-> Hi']|(log' & e & Hi' & Ec & Hr)].
  - cbn [Z.eqb]. eexists _, _, _. split; [done|]. split; [|by left]. intros ->. change (2 ^ 0) with 1 in E. by rewrite E.
  - destruct Hr as (Eb & Hb & Hlt & Hm & Hfit). rewrite (proj2 (Z.eqb_neq res NULL)) by lia.
    destruct (inv_last _ _ _ _ _ _ _ Hi') as (_ & _ & Hb0 & Hn).
    assert (Eu : u64 (size + (res - base)) = res - base + size) by (rewrite u64_small; rewrite lslab_sizeof_eq in *; lia).
    destruct (use_last_spec _ _ _ _ _ _ _ (res - base + size) id Hi') as (l2 & E2 & Hi2); [rewrite lslab_sizeof_eq in *; lia|done| |].
    { intros i. rewrite log_ids_chunks, Ec. intros (c & -> & Hc)%list_elem_of_fmap. by apply Hle. }
    rewrite Eu, E2. cbn [mbind option_bind]. eexists _, _, _. split; [done|]. split.
    + intros ->. change (2 ^ 0) with 1 in E, Hlt. rewrite E. cbn [mbind option_bind].
      rewrite (proj2 (Z.eqb_neq res NULL)) by lia. rewrite (proj2 (Z.eqb_eq res base)) by lia. cbn [orb mbind option_bind].
      rewrite (proj2 (Z.eqb_neq res NULL)) by lia. replace (res - base + size) with size in E2 by lia. by rewrite E2.
    + right. exists (log' ++ [seg_add e (res - base + size) id]), base. split_and!; try done; try lia.
      by rewrite log_chunks_add, Ec, Eb.
Qed.

(** ** The bytes of the log *)

Lemma packed_bytes a cs : packed a cs -> cs ≫= chunk_bytes = seqZ a (zsum chunk_size cs).
Proof.
  revert a. induction cs as [|[[x n] i] cs IH]; intros a; [done|]. cbn [packed].
  change (zsum chunk_size ((x, n, i) :: cs)) with (n + zsum chunk_size cs). intros (-> & Hn & Hp).
  pose proof (proj1 (packed_bounds _ _ Hp)). cbn [mbind list_bind]. unfold chunk_bytes at 1. cbn [fst snd].
  rewrite (IH _ Hp), seqZ_app by lia. done.
Qed.

Lemma log_bytes_eq s l A B Q log : ls_inv s l A B Q log ->
  log_bytes log = log ≫= fun e => seqZ (seg_p e + lslab_sizeof) (seg_bytes e).
Proof.
  intros Hi. pose proof (i_seg _ _ _ _ _ _ Hi) as Hs. clear Hi. unfold log_bytes, log_chunks.
  induction log as [|e log IH]; [done|]. cbn [mbind list_bind]. rewrite bind_app, <- IH by (intros f Hf; apply Hs; by right).
  f_equal. destruct (Hs e) as (_ & Hp & _); [left|]. by apply packed_bytes.
Qed.

Lemma seg_inj s l A B Q log e f : ls_inv s l A B Q log -> e ∈ log -> f ∈ log -> seg_p e = seg_p f -> e = f.
Proof.
  intros Hi. pose proof (log_nodup _ _ _ _ _ _ (i_owns _ _ _ _ _ _ Hi)) as Hnd.
  apply NoDup_app in Hnd as (_ & _ & Hnd). by apply nodup_inj.
Qed.

(** No byte is in two chunks. *)
Lemma log_bytes_nodup s l A B Q log : ls_inv s l A B Q log -> NoDup (log_bytes log).
Proof.
  intros Hi. rewrite (log_bytes_eq _ _ _ _ _ _ Hi). apply NoDup_bind.
  - intros e f x He Hf Hx Hy. apply elem_of_seqZ in Hx, Hy. apply (seg_inj _ _ _ _ _ _ _ _ Hi He Hf).
    destruct (decide (seg_p e = seg_p f)) as [|Hne]; [done|]. pose proof (segs_apart _ _ _ _ _ _ _ _ Hi He Hf Hne).
    destruct (i_seg _ _ _ _ _ _ Hi e He) as (_ & _ & ? & _). destruct (i_seg _ _ _ _ _ _ Hi f Hf) as (_ & _ & ? & _).
    rewrite lslab_sizeof_eq in *. lia.
  - intros e _. apply NoDup_seqZ.
  - pose proof (log_nodup _ _ _ _ _ _ (i_owns _ _ _ _ _ _ Hi)) as Hnd. apply NoDup_app in Hnd as (_ & _ & Hnd).
    by apply NoDup_fmap_1 in Hnd.
Qed.

(** ** Collection *)

Lemma newest_max e c : StronglySorted Z.le (chunk_id <$> seg_chunks e) -> c ∈ seg_chunks e -> chunk_id c <= newest e.
Proof.
  intros Hs Hc. unfold newest. destruct (last (seg_chunks e)) as [d|] eqn:E.
  - cbn [fmap option_fmap option_map default]. apply (sorted_last _ (chunk_id d) Hs); [by rewrite fmap_last, E|].
    by apply list_elem_of_fmap_2.
  - apply last_None in E. rewrite E in Hc. by apply elem_of_nil in Hc.
Qed.

(** The rest of the log after the oldest slab is freed. *)
Lemma inv_tail s s' l l' A B Q e log : ls_inv s l A B Q (e :: log) ->
  owns s' (arena_part log ++ cached_part l' ++ A) (block_part log ++ B) (quota_part log ++ Q) ->
  slabs (ls_slabs l') = seg_p <$> log -> ls_slab_id l' = ls_slab_id l ->
  lsregion_used l' = u64 (lsregion_used l - seg_bytes e) ->
  lsregion_total l' = u64 (zsum seg_n log + 2 ^ k * Z.of_nat (length (cached_part l'))) ->
  (cached l' = cached l /\ lslabs l' = lslabs l \/
   cached l' = seg_p e /\ lslabs l' = <[seg_p e := Lslab (2 ^ k) lslab_sizeof LSLAB_NOT_USED_ID LSLAB_NOT_USED_ID]> (lslabs l)) ->
  ls_inv s' l' A B Q log.
Proof.
  intros Hi Ho Es Eid Eu Et Hc. destruct (i_seg _ _ _ _ _ _ Hi e ltac:(left)) as (_ & _ & _ & _ & Hp).
  pose proof (log_nodup _ _ _ _ _ _ (i_owns _ _ _ _ _ _ Hi)) as Hnd. apply NoDup_app in Hnd as (_ & _ & Hnd).
  cbn [fmap list_fmap] in Hnd. apply NoDup_cons in Hnd as [Hnd _].
  destruct (i_ids _ _ _ _ _ _ Hi) as (I1 & I2 & I3). destruct (i_order _ _ _ _ _ _ Hi) as (O1 & O2).
  change (log_ids (e :: log)) with ((chunk_id <$> seg_chunks e) ++ log_ids log) in O1, O2.
  constructor; try done.
  - intros f Hf. pose proof (i_seg _ _ _ _ _ _ Hi f ltac:(by right)) as Hok. destruct Hc as [[_ El]|[_ El]].
    + unfold seg_ok. rewrite El. done.
    + apply (seg_ok_insert l l' _ _ f El); [|done]. intros E. apply Hnd. rewrite <- E. by apply list_elem_of_fmap_2.
  - destruct Hc as [[Ec El]|[Ec El]]; rewrite Ec, El; [apply (i_cached _ _ _ _ _ _ Hi)|right].
    split; [done|]. by rewrite lookup_insert_eq.
  - rewrite Eid. split_and!; [|done|intros f Hf; apply I3; by right]. cbn [fmap list_fmap] in I1. by inversion I1.
  - split; [by apply StronglySorted_app_1_r in O1|]. intros i Hin. apply O2, elem_of_app. by right.
  - rewrite Eu, (i_used _ _ _ _ _ _ Hi). change (zsum seg_bytes (e :: log)) with (seg_bytes e + zsum seg_bytes log).
    rewrite <- Z.add_opp_r, u64_add_l. f_equal. lia.
Qed.

Lemma list_remove_head p l : list_remove p (p :: l) = Some l.
Proof. cbn. by rewrite Z.eqb_refl. Qed.

Lemma used_drop x b : u64 (x + - (lslab_sizeof + b - lslab_sizeof)) = u64 (x - b).
Proof. f_equal. lia. Qed.

Lemma total_drop x n y z : x = u64 (n + y + z) -> u64 (x + - n) = u64 (y + z).
Proof. intros ->. rewrite u64_add_l. f_equal. lia. Qed.

Lemma gc_slab_spec s l A B Q e log h : ls_inv s l A B Q (e :: log) -> lslabs l !! seg_p e = Some h ->
  exists s' l', gc_slab s l (seg_p e) h = Some (s', l') /\ ls_inv s' l' A B Q log.
Proof.
  intros Hi Hh. destruct (i_seg _ _ _ _ _ _ Hi e ltac:(left)) as (Eh & _ & Hsz & Hn & Hp). rewrite Eh in Hh. injection Hh as <-.
  destruct (inv_geometry _ _ _ _ _ _ Hi) as (Esz & _ & _ & H2k). pose proof (i_owns _ _ _ _ _ _ Hi) as Ho.
  pose proof (i_total _ _ _ _ _ _ Hi) as Et. change (zsum seg_n (e :: log)) with (seg_n e + zsum seg_n log) in Et.
  unfold gc_slab. rewrite (i_slabs _ _ _ _ _ _ Hi). cbn [fmap list_fmap]. rewrite list_remove_head. cbn [mbind option_bind].
  cbv zeta. cbn [slab_size slab_used]. rewrite Esz. destruct (parts_cons e log) as (Pa & Pb & Pq). rewrite Pa, Pb, Pq in Ho. unfold is_large in Ho.
  destruct (Z.gtb_spec (seg_n e) (2 ^ k)) as [Hlarge|Hsmall]; cbn [app] in Ho.
  - destruct (owns_release _ _ _ _ _ Ho) as (r & s1 & -> & Ho1). cbn [mbind option_bind].
    destruct (owns_free _ _ _ _ _ _ Ho1) as (s2 & -> & Ho2). cbn [mbind option_bind]. eexists _, _. split; [done|].
    apply (inv_tail s s2 l _ A B Q e); try done; [| |by left].
    + apply used_drop.
    + apply (total_drop _ _ _ _ Et).
  - change (cached (set_ls_slabs (set_ls_slabs l _) _)) with (cached l).
    destruct (Z.eqb_spec (cached l) NULL) as [Ec|Ec]; cbn [negb].
    + eexists _, _. split; [done|]. assert (Ecp : cached_part l = []) by (unfold cached_part; by rewrite Ec).
      assert (seg_n e = 2 ^ k) as En by lia. apply (inv_tail s s l _ A B Q e); try done.
      * unfold cached_part. cbn [set_cached cached]. rewrite (proj2 (Z.eqb_neq (seg_p e) NULL)) by lia.
        rewrite Ecp in Ho. cbn [app] in *. rewrite <- Permutation_middle. done.
      * apply used_drop.
      * unfold cached_part. cbn [set_cached cached]. rewrite (proj2 (Z.eqb_neq (seg_p e) NULL)) by lia. cbn [length].
        change (lsregion_total l = u64 (zsum seg_n log + 2 ^ k * 1)). rewrite Et, Ecp. f_equal. cbn [length]. lia.
      * right. rewrite En. done.
    + destruct (owns_unmap _ _ _ _ _ Ho) as (s1 & -> & Ho1). cbn [mbind option_bind]. eexists _, _. split; [done|].
      apply (inv_tail s s1 l _ A B Q e); try done; [| |by left].
      * apply used_drop.
      * apply (total_drop _ _ _ _ Et).
Qed.

Lemma gc_loop_spec min_id log : forall s l A B Q, ls_inv s l A B Q log ->
  exists s' l' old kept, gc_loop s l (seg_p <$> log) min_id = Some (s', l') /\ log = old ++ kept /\
    ls_inv s' l' A B Q kept /\ (forall e, e ∈ old -> newest e <= min_id) /\ (forall e, head kept = Some e -> min_id < newest e).
Proof.
  induction log as [|e log IH]; intros s l A B Q Hi.
  - exists s, l, [], []. split_and!; try done. intros e ?%elem_of_nil. done.
  - cbn [fmap list_fmap gc_loop]. destruct (i_seg _ _ _ _ _ _ Hi e ltac:(left)) as (Eh & _). rewrite Eh. cbn [mbind option_bind max_id].
    destruct (Z.gtb_spec (newest e) min_id) as [Hgt|Hle].
    + exists s, l, [], (e :: log). split_and!; try done; [intros f ?%elem_of_nil; done|]. intros f [= <-]. done.
    + destruct (gc_slab_spec _ _ _ _ _ _ _ _ Hi Eh) as (s1 & l1 & -> & Hi1). cbn [mbind option_bind].
      destruct (IH _ _ _ _ _ Hi1) as (s' & l' & old & kept & E & -> & Hi' & Hold & Hk).
      exists s', l', (e :: old), kept. split_and!; try done. intros f [->|Hf]%elem_of_cons; [lia|by apply Hold].
Qed.

Lemma create_ls_inv s A B Q : owns s A B Q -> exists l, lsregion_create s = Some l /\ ls_inv s l A B Q [].
Proof.
  intros Ho. destruct (owns_geometry _ _ _ _ Ho) as (Esz & Hk & _). pose proof (pow2_mono 16 k ltac:(lia)).
  unfold lsregion_create. rewrite Esz, (proj2 (Z.gtb_lt (2 ^ k) lslab_sizeof)) by (rewrite lslab_sizeof_eq; lia).
  eexists. split; [done|]. constructor; try done; cbn.
  - intros e ?%elem_of_nil. done.
  - by left.
  - split_and!; [constructor|done|]. intros e ?%elem_of_nil. done.
  - split; [constructor|]. intros e ?%elem_of_nil. done.
  - by rewrite Z.mul_0_r.
Qed.

Lemma log_max s l A B Q log e : ls_inv s l A B Q log -> e ∈ log -> newest e <= INT64_MAX.
Proof.
  intros Hi He. apply newest_le; [done|]. intros i Hin. apply (i_order _ _ _ _ _ _ Hi). apply list_elem_of_bind. by exists e.
Qed.

Lemma destroy_spec s l A B Q log : ls_inv s l A B Q log ->
  exists s', lsregion_destroy s l = Some s' /\ owns s' A B Q.
Proof.
  intros Hi. unfold lsregion_destroy, lsregion_gc.
  assert (Hall : exists s1 l1, (match slabs (ls_slabs l) with [] => Some (s, l) | _ => gc_loop s l (slabs (ls_slabs l)) INT64_MAX end)
    = Some (s1, l1) /\ ls_inv s1 l1 A B Q []).
  { rewrite (i_slabs _ _ _ _ _ _ Hi). destruct (gc_loop_spec INT64_MAX log _ _ _ _ _ Hi) as (s1 & l1 & old & kept & E & El & Hi1 & _ & Hk).
    assert (kept = []) as ->.
    { destruct kept as [|e kept]; [done|]. specialize (Hk e eq_refl).
      pose proof (log_max _ _ _ _ _ _ e Hi ltac:(rewrite El; apply elem_of_app; right; left)). lia. }
    exists s1, l1. split; [|done]. rewrite app_nil_r in El. subst old. by destruct log. }
  destruct Hall as (s1 & l1 & -> & Hi1). cbn [mbind option_bind]. pose proof (i_owns _ _ _ _ _ _ Hi1) as Ho.
  unfold cached_part in Ho. cbn [arena_part block_part quota_part mbind list_bind app] in Ho.
  destruct (Z.eqb_spec (cached l1) NULL) as [Ec|Ec]; cbn [negb app] in *; [by exists s1|]. by apply owns_unmap in Ho.
Qed.

(** ** Flushing *)

(** [lsregion_to_iovec] stops at the first slab without a chunk. *)
Fixpoint live (log : list seg) : list seg :=
  match log with
  | [] => []
  | e :: log => if newest e =? LSLAB_NOT_USED_ID then [] else e :: live log
  end.

Definition seen (svp : lsregion_svp) (e : seg) : bool :=
  (seg_id e <? svp_slab_id svp) || ((seg_id e =? svp_slab_id svp) && (seg_bytes e =? svp_pos svp)).
Definition fresh (svp : lsregion_svp) (log : list seg) : list seg := List.filter (fun e => negb (seen svp e)) log.
(** How many bytes of the slab were flushed before. *)
Definition skip (svp : lsregion_svp) (e : seg) : Z := if seg_id e =? svp_slab_id svp then svp_pos svp else 0.
Definition vec (svp : lsregion_svp) (e : seg) : Z * Z :=
  (seg_p e + lslab_sizeof + skip svp e, seg_bytes e - skip svp e).
Definition svp_of (svp : lsregion_svp) (es : list seg) : lsregion_svp :=
  match last es with Some e => LsregionSvp (seg_id e) (seg_bytes e) | None => svp end.
Definition id_of (es : list seg) (m : Z) : Z := match last es with Some e => newest e | None => m end.

(** A savepoint does not point beyond the data of its slab. *)
Definition svp_ok (svp : lsregion_svp) (log : list seg) : Prop :=
  forall e, e ∈ log -> seg_id e = svp_slab_id svp -> 0 <= svp_pos svp <= seg_bytes e.

Lemma svp_of_cons cur e es : svp_of cur (e :: es) = svp_of (LsregionSvp (seg_id e) (seg_bytes e)) es /\
  id_of (e :: es) = fun m => id_of es (newest e).
Proof. unfold svp_of, id_of. rewrite last_cons. split; by destruct (last es). Qed.

Lemma iovec_loop_spec l svp log : forall room cur m,
  (forall e, e ∈ log -> seg_ok l e /\ seg_n e < 2 ^ 42) -> svp_ok svp log -> 0 <= room ->
  let es := take (Z.to_nat room) (fresh svp (live log)) in
  iovec_loop l (seg_p <$> log) room (svp_slab_id svp) (svp_pos svp) cur m = Some (vec svp <$> es, svp_of cur es, id_of es m).
Proof.
  induction log as [|e log IH]; intros room cur m Hok Hsvp Hroom es.
  - subst es. cbn [live fresh List.filter]. rewrite take_nil. done.
  - destruct (Hok e ltac:(left)) as ((Eh & Hp & Hsz & _) & H42). pose proof (proj1 (packed_bounds _ _ Hp)) as Hb. fold (seg_bytes e) in Hb.
    assert (Hok' : forall f, f ∈ log -> seg_ok l f /\ seg_n f < 2 ^ 42) by (intros f Hf; apply Hok; by right).
    assert (Hsvp' : svp_ok svp log) by (intros f Hf; apply Hsvp; by right).
    subst es. cbn [fmap list_fmap iovec_loop live]. rewrite Eh. cbn [mbind option_bind max_id slab_id slab_used].
    replace (lslab_sizeof + seg_bytes e - lslab_sizeof) with (seg_bytes e) by lia. rewrite lslab_sizeof_eq in Hsz. rewrite u64_small by lia.
    destruct (newest e =? LSLAB_NOT_USED_ID) eqn:En; [cbn [fresh List.filter]; rewrite take_nil; done|].
    cbn [fresh List.filter]. fold (fresh svp (live log)). unfold seen.
    destruct ((seg_id e <? svp_slab_id svp) || ((seg_id e =? svp_slab_id svp) && (seg_bytes e =? svp_pos svp))) eqn:Eseen;
      cbn [negb]; [by apply IH|].
    destruct (Z.leb_spec room 0) as [Hz|Hpos]; [replace room with 0 by lia; done|].
    replace (Z.to_nat room) with (S (Z.to_nat (room - 1))) by lia. cbn [take fmap list_fmap].
    destruct (svp_of_cons cur e (take (Z.to_nat (room - 1)) (fresh svp (live log)))) as [-> ->].
    unfold vec at 1, skip. destruct (Z.eqb_spec (seg_id e) (svp_slab_id svp)) as [E|E].
    + pose proof (Hsvp e ltac:(left) E). rewrite orb_false_iff in Eseen. cbn [andb] in Eseen. destruct Eseen as [_ Hne%Z.eqb_neq].
      rewrite (proj2 (Z.gtb_lt (seg_bytes e) (svp_pos svp))) by lia. cbn [mbind option_bind].
      rewrite (IH (room - 1)) by (done || lia). done.
    + cbn [mbind option_bind]. rewrite (IH (room - 1)) by (done || lia). cbn [mbind option_bind]. by rewrite Z.add_0_r, Z.sub_0_r.
Qed.

(** The bytes that a savepoint has not seen. *)
Definition unseen (svp : lsregion_svp) (e : seg) : list Z :=
  if seen svp e then [] else seqZ (seg_p e + lslab_sizeof + skip svp e) (seg_bytes e - skip svp e).
Definition vec_bytes (v : Z * Z) : list Z := seqZ v.1 v.2.

Lemma fresh_cons svp e log : fresh svp (e :: log) = if seen svp e then fresh svp log else e :: fresh svp log.
Proof. unfold fresh. cbn [List.filter]. by destruct (seen svp e). Qed.

Lemma list_bind_ext_in {X Y} (f g : X -> list Y) l : (forall x, x ∈ l -> f x = g x) -> l ≫= f = l ≫= g.
Proof.
  induction l as [|x l IH]; intros H; [done|]. cbn. rewrite (H x) by left. f_equal. apply IH. intros y Hy. apply H. by right.
Qed.

Lemma bind_cons {X Y} (f : X -> list Y) x l : (x :: l) ≫= f = f x ++ (l ≫= f).
Proof. done. Qed.

Lemma fresh_bytes svp log : fresh svp log ≫= (fun e => vec_bytes (vec svp e)) = log ≫= unseen svp.
Proof.
  induction log as [|e log IH]; [done|]. rewrite fresh_cons, bind_cons, <- IH. unfold unseen. by destruct (seen svp e).
Qed.

Lemma sublist_sorted {X} (R : relation X) l1 l2 : l1 `sublist_of` l2 -> StronglySorted R l2 -> StronglySorted R l1.
Proof.
  induction 1 as [|x l1 l2 Hs IH|x l1 l2 Hs IH]; intros H; [constructor|..]; inversion H as [|? ? H1 H2]; subst; [|by apply IH].
  constructor; [by apply IH|]. rewrite Forall_forall in *. intros y Hy. apply H2. by eapply elem_of_sublist.
Qed.

Lemma live_sublist log : live log `sublist_of` log.
Proof.
  induction log as [|e log IH]; [constructor|]. cbn [live]. destruct (_ =? _); [apply sublist_nil_l|by constructor].
Qed.

Lemma fresh_sublist svp log : fresh svp log `sublist_of` log.
Proof. induction log as [|e log IH]; [constructor|]. rewrite fresh_cons. destruct (seen svp e); by constructor. Qed.

(** All slabs are newer than [e]. *)
Definition above (e : seg) (log : list seg) : Prop := forall f, f ∈ log -> seg_id e < seg_id f.

Lemma above_fresh svp e log : above e log -> svp_slab_id svp <= seg_id e ->
  fresh svp log = log /\ (forall f, f ∈ log -> seen svp f = false /\ skip svp f = 0).
Proof.
  intros Ha Hid. assert (H : forall f, f ∈ log -> seen svp f = false /\ skip svp f = 0).
  { intros f Hf%Ha. unfold seen, skip. rewrite (proj2 (Z.ltb_ge (seg_id f) _)), (proj2 (Z.eqb_neq (seg_id f) _)) by lia. done. }
  split; [|done]. clear Ha. induction log as [|f log IH]; [done|]. rewrite fresh_cons.
  destruct (H f) as [-> _]; [left|]. f_equal. apply IH. intros g Hg. apply H. by right.
Qed.

Lemma svp_of_seen e log es : above e log -> (forall f, f ∈ es -> f ∈ log) ->
  unseen (svp_of (LsregionSvp (seg_id e) (seg_bytes e)) es) e = [].
Proof.
  intros Ha Hes. unfold unseen, svp_of, seen. destruct (last es) as [f|] eqn:E; cbn [svp_slab_id svp_pos].
  - apply last_Some_elem_of, Hes, Ha in E. by rewrite (proj2 (Z.ltb_lt _ _) E).
  - by rewrite !Z.eqb_refl, orb_true_r.
Qed.

(** What is flushed, and what a flush after it sees, is what was not flushed. *)
Lemma flush_split log : StronglySorted Z.lt (seg_id <$> log) -> forall r svp,
  let es := take r (fresh svp log) in
  (es ≫= fun e => vec_bytes (vec svp e)) ++ (log ≫= unseen (svp_of svp es)) = log ≫= unseen svp.
Proof.
  induction log as [|e log IH]; intros Hs r svp; [by destruct r|]. cbn [fmap list_fmap] in Hs. inversion Hs as [|? ? Hs' Ha]; subst.
  assert (Hab : above e log) by (intros f Hf; rewrite Forall_forall in Ha; by apply Ha, list_elem_of_fmap_2). cbv zeta.
  rewrite fresh_cons. destruct (seen svp e) eqn:Es.
  - rewrite !bind_cons. specialize (IH Hs' r svp). cbv zeta in IH. rewrite <- IH. set (es := take r (fresh svp log)) in *.
    assert (Hno : unseen (svp_of svp es) e = unseen svp e).
    { unfold svp_of. destruct (last es) as [f|] eqn:E; [|done]. unfold unseen. rewrite Es. unfold seen. cbn [svp_slab_id].
      rewrite (proj2 (Z.ltb_lt (seg_id e) (seg_id f))); [done|]. apply Hab. apply last_Some_elem_of in E.
      eapply elem_of_sublist; [exact E|]. etransitivity; [apply sublist_take|apply fresh_sublist]. }
    rewrite Hno. unfold unseen at 1 3. by rewrite Es.
  - destruct r as [|r]; [done|]. cbn [take]. destruct (svp_of_cons svp e (take r (fresh svp log))) as [-> _]. rewrite !bind_cons.
    set (svpe := LsregionSvp (seg_id e) (seg_bytes e)).
    assert (Hid : svp_slab_id svp <= seg_id e) by (unfold seen in Es; apply orb_false_iff in Es as [Es%Z.ltb_ge _]; done).
    destruct (above_fresh svp e log Hab Hid) as [Ef Hf]. destruct (above_fresh svpe e log Hab ltac:(done)) as [Ef' Hf'].
    specialize (IH Hs' r svpe). cbv zeta in IH. rewrite Ef, Ef' in *. set (es := take r log) in *.
    assert (Hes : forall f, f ∈ es -> f ∈ log) by (intros f Hfe; eapply elem_of_sublist; [exact Hfe|apply sublist_take]).
    rewrite (svp_of_seen e log es Hab Hes : unseen (svp_of svpe es) e = []). cbn [app].
    assert (E1 : es ≫= (fun f => vec_bytes (vec svp f)) = es ≫= (fun f => vec_bytes (vec svpe f))).
    { apply list_bind_ext_in. intros f Hfe%Hes. unfold vec. by rewrite (proj2 (Hf f Hfe)), (proj2 (Hf' f Hfe)). }
    assert (E2 : log ≫= unseen svp = log ≫= unseen svpe).
    { apply list_bind_ext_in. intros f Hfe. unfold unseen. destruct (Hf f Hfe) as [-> ->]. by destruct (Hf' f Hfe) as [-> ->]. }
    rewrite E1, E2, <- IH, !app_assoc. do 2 f_equal. unfold unseen. by rewrite Es.
Qed.

Lemma ids_nodup (l : list Z) : StronglySorted Z.lt l -> NoDup l.
Proof.
  induction 1 as [|x l Hs IH Hx]; constructor; [|done]. rewrite Forall_forall in Hx. intros Hin%Hx. lia.
Qed.

Lemma svp_of_ok s l A B Q log svp es : ls_inv s l A B Q log -> svp_ok svp log -> (forall e, e ∈ es -> e ∈ log) ->
  svp_ok (svp_of svp es) log.
Proof.
  intros Hi Hsvp Hes. unfold svp_of. destruct (last es) as [f|] eqn:E; [|done]. apply last_Some_elem_of, Hes in E.
  intros e He Heq. cbn [svp_slab_id svp_pos] in *.
  assert (e = f) as -> by (eapply (nodup_inj seg_id log); [apply ids_nodup, (i_ids _ _ _ _ _ _ Hi)|done..]).
  destruct (i_seg _ _ _ _ _ _ Hi f He) as (_ & Hp & _). apply packed_bounds in Hp as [Hp _]. unfold seg_bytes. lia.
Qed.

Lemma newest_in e : newest e <> LSLAB_NOT_USED_ID -> newest e ∈ chunk_id <$> seg_chunks e.
Proof.
  unfold newest. destruct (last (seg_chunks e)) as [c|] eqn:E; cbn; [|done]. intros _.
  apply list_elem_of_fmap_2. by apply last_Some_elem_of.
Qed.

Lemma live_used log e : e ∈ live log -> newest e <> LSLAB_NOT_USED_ID.
Proof.
  induction log as [|f log IH]; cbn [live]; [by intros ?%elem_of_nil|].
  destruct (Z.eqb_spec (newest f) LSLAB_NOT_USED_ID); [by intros ?%elem_of_nil|]. by intros [->|?%IH]%elem_of_cons.
Qed.

Lemma live_sorted log : StronglySorted Z.le (log_ids log) -> StronglySorted (fun e f => newest e <= newest f) (live log).
Proof.
  induction log as [|e log IH]; intros Hs; cbn [live]; [constructor|].
  change (log_ids (e :: log)) with ((chunk_id <$> seg_chunks e) ++ log_ids log) in Hs.
  destruct (Z.eqb_spec (newest e) LSLAB_NOT_USED_ID) as [|Hne]; [constructor|].
  apply StronglySorted_app in Hs as (Hx & _ & Hs). constructor; [by apply IH|].
  rewrite Forall_forall. intros f Hf. apply Hx; [by apply newest_in|]. apply list_elem_of_bind. exists f.
  split; [by apply newest_in, (live_used log)|]. eapply elem_of_sublist; [exact Hf|apply live_sublist].
Qed.

(** The identifier returned is not below that of a chunk with a flushed byte. *)
Lemma flushed_max s l A B Q log svp r c x : ls_inv s l A B Q log -> svp_ok svp log ->
  let es := take r (fresh svp (live log)) in
  c ∈ log_chunks log -> x ∈ chunk_bytes c -> x ∈ es ≫= (fun e => vec_bytes (vec svp e)) ->
  chunk_id c <= id_of es LSLAB_NOT_USED_ID.
Proof.
  intros Hi Hsvp es (f & Hc & Hf)%list_elem_of_bind Hx (e & He & Hin)%list_elem_of_bind.
  assert (Hsub : es `sublist_of` live log) by (etransitivity; [apply sublist_take|apply fresh_sublist]).
  assert (Hel : e ∈ log) by (eapply elem_of_sublist; [exact Hin|]; etransitivity; [exact Hsub|apply live_sublist]).
  assert (e = f) as <-.
  { apply (seg_inj _ _ _ _ _ _ _ _ Hi Hel Hf). destruct (decide (seg_p e = seg_p f)) as [|Hne]; [done|].
    pose proof (segs_apart _ _ _ _ _ _ _ _ Hi Hel Hf Hne). destruct (i_seg _ _ _ _ _ _ Hi e Hel) as (_ & _ & ? & _).
    destruct (i_seg _ _ _ _ _ _ Hi f Hf) as (_ & Hp & ? & _). destruct c as [[y n] i]. apply packed_bounds in Hp as [_ Hp].
    specialize (Hp y n i Hc). apply elem_of_seqZ in Hx, He. cbn [fst snd vec] in Hx, He. fold (seg_bytes f) in Hp.
    assert (0 <= skip svp e) by (unfold skip; destruct (Z.eqb_spec (seg_id e) (svp_slab_id svp)) as [E|]; [apply (Hsvp e Hel E)|done]).
    rewrite lslab_sizeof_eq in *. lia. }
  destruct (i_order _ _ _ _ _ _ Hi) as [Hs _]. etransitivity; [apply (newest_max e c)|].
  - apply list_elem_of_split in Hf as (l1 & l2 & ->). rewrite log_ids_app in Hs. apply StronglySorted_app_1_r in Hs.
    by apply StronglySorted_app_1_l in Hs.
  - done.
  - unfold id_of. apply live_sorted in Hs. pose proof (sublist_sorted _ _ _ Hsub Hs) as Hes.
    destruct (last es) as [g|] eqn:E; [|apply last_None in E; rewrite E in Hin; by apply elem_of_nil in Hin].
    apply (StronglySorted_fmap newest _ Z.le) in Hes; [|done].
    apply (sorted_last _ (newest g) Hes); [by rewrite fmap_last, E|]. by apply list_elem_of_fmap_2.
Qed.

Lemma aligned_unique base a x y : 0 <= a -> base <= x < base + 2 ^ a -> base <= y < base + 2 ^ a ->
  x mod 2 ^ a = 0 -> y mod 2 ^ a = 0 -> x = y.
Proof.
  intros Ha Hx Hy Mx My. pose proof (pow2_pos a Ha) as Hp.
  pose proof (multiple_le _ _ _ Hp Mx My ltac:(lia)). pose proof (multiple_le _ _ _ Hp My Mx ltac:(lia)). lia.
Qed.

(** Memory reserved is what the next allocation takes. *)
Lemma alloc_reserved s l A B Q log e size size' a base res id : ls_inv s l A B Q (log ++ [e]) -> 0 <= a < 32 ->
  reserved_at e size a base res -> 0 <= size' <= size -> 0 <= id <= INT64_MAX ->
  (forall c, c ∈ log_chunks (log ++ [e]) -> chunk_id c <= id) ->
  exists l', lsregion_aligned_alloc s l size' (2 ^ a) id = Some (res, s, l') /\
    ls_inv s l' A B Q (log ++ [seg_add e (res - base + size') id]).
Proof.
  intros Hi Ha (Eb & Hb & Hlt & Hm & Hfit) Hs Hid Hle. unfold lsregion_aligned_alloc, lsregion_aligned_reserve.
  destruct (inv_last _ _ _ _ _ _ _ Hi) as (_ & (_ & _ & _ & _ & Hp62) & Hb42 & Hn42). assert (H62 : 0 <= size' < 2 ^ 62) by (pose proof lslab_sizeof_eq; lia).
  destruct (try_last_spec _ _ _ _ _ _ _ size' a Hi Ha H62) as (pos & H1 & H2 & E). rewrite E. rewrite <- Eb in *.
  assert (pos = res) as -> by (apply (aligned_unique base a); (done || lia)).
  rewrite (proj2 (Z.leb_le (res + size') _)) by lia. cbn [mbind option_bind]. rewrite (proj2 (Z.eqb_neq res NULL)) by lia.
  destruct (inv_last _ _ _ _ _ _ _ Hi) as (_ & _ & Hb0 & Hn). rewrite lslab_sizeof_eq in *. rewrite u64_small by lia.
  replace (size' + (res - base)) with (res - base + size') by lia.
  destruct (use_last_spec _ _ _ _ _ _ _ (res - base + size') id Hi) as (l' & -> & Hi'); [rewrite lslab_sizeof_eq; lia|done| |].
  { intros i. rewrite log_ids_chunks. intros (c & -> & Hc)%list_elem_of_fmap. by apply Hle. }
  cbn [mbind option_bind]. by exists l'.
Qed.

(** ** Correctness *)

(** C18. [lsregion_aligned_alloc], and [lsregion_alloc] for alignment 1, return NULL
    and leave the log as it was, or append a chunk with its identifier to the log:
    at the first aligned address after the last chunk of the slab in use or of a
    new slab, with all its bytes, and no byte of the log in two chunks. *)
Theorem lsregion_alloc_correct s l A B Q log size a id : ls_inv s l A B Q log -> 0 <= a < 32 -> 0 <= size ->
  ls_fits (size + 2 ^ a - 1) -> ls_slab_id l < INT64_MAX -> new_slab_low s l (size + 2 ^ a - 1) ->
  0 <= id <= INT64_MAX -> (forall c, c ∈ log_chunks log -> chunk_id c <= id) ->
  exists res s' l', lsregion_aligned_alloc s l size (2 ^ a) id = Some (res, s', l') /\
    (a = 0 -> lsregion_alloc s l size id = Some (res, s', l')) /\
    ((res = NULL /\ ls_inv s' l' A B Q log) \/
     exists log' base, 0 < base <= res /\ res < base + 2 ^ a /\ res mod 2 ^ a = 0 /\ ls_inv s' l' A B Q log' /\
       log_chunks log' = log_chunks log ++ [(base, res - base + size, id)] /\ NoDup (log_bytes log')).
Proof.
  intros Hi Ha Hs Hf Hid Hlow Hid' Hle.
  destruct (ls_alloc_spec _ _ _ _ _ _ _ _ _ Hi Ha Hs Hf Hid Hlow Hid' Hle) as (res & s' & l' & E & E0 & H).
  exists res, s', l'. split_and!; [done|done|]. destruct H as [?|(log' & base & ? & ? & ? & Hi' & ?)]; [by left|right].
  exists log', base. pose proof (log_bytes_nodup _ _ _ _ _ _ Hi'). done.
Qed.

(** A reservation keeps its promise: it returns NULL and changes nothing, or
    the next allocation, of any size up to the reserved one, cannot fail, returns the
    same address and asks the arena, the heap and the quota for nothing. *)
Theorem lsregion_reserve_correct s l A B Q log size a : ls_inv s l A B Q log -> 0 <= a < 32 -> 0 <= size ->
  ls_fits (size + 2 ^ a - 1) -> ls_slab_id l < INT64_MAX -> new_slab_low s l (size + 2 ^ a - 1) ->
  exists res base s' l', lsregion_aligned_reserve s l size (2 ^ a) = Some (res, base, s', l') /\
    ((res = NULL /\ ls_inv s' l' A B Q log) \/
     exists log', 0 < base <= res /\ ls_inv s' l' A B Q log' /\ log_chunks log' = log_chunks log /\
       forall size' id, 0 <= size' <= size -> 0 <= id <= INT64_MAX -> (forall c, c ∈ log_chunks log -> chunk_id c <= id) ->
         exists l2 log2, lsregion_aligned_alloc s' l' size' (2 ^ a) id = Some (res, s', l2) /\ ls_inv s' l2 A B Q log2 /\
           log_chunks log2 = log_chunks log ++ [(base, res - base + size', id)]).
Proof.
  intros Hi Ha Hs Hf Hid Hlow.
  destruct (ls_reserve_spec _ _ _ _ _ _ _ _ Hi Ha Hs Hf Hid Hlow) as (res & base & s' & l' & E & H).
  exists res, base, s', l'. split; [done|]. destruct H as [?|(log' & e & Hi' & Ec & Hr)]; [by left|right].
  exists (log' ++ [e]). split_and!; [apply Hr|apply Hr|done|done|]. intros size' id Hs' Hid' Hle. rewrite <- Ec in Hle.
  destruct (alloc_reserved _ _ _ _ _ _ _ _ _ _ _ _ _ Hi' Ha Hr Hs' Hid' Hle) as (l2 & E2 & Hi2).
  exists l2, (log' ++ [seg_add e (res - base + size') id]). split_and!; [done|done|].
  rewrite log_chunks_add, Ec. by destruct Hr as (-> & _).
Qed.

(** C19. [lsregion_gc] frees exactly the oldest slabs up to the first one with a
    chunk newer than the identifier; every chunk newer than it stays, what is freed goes
    back to the arena, the heap and the quota, or becomes the cached slab; and
    [lsregion_destroy] returns everything the region has. *)
Theorem lsregion_gc_correct s l A B Q log min_id : ls_inv s l A B Q log ->
  (exists s' l' old kept, lsregion_gc s l min_id = Some (s', l') /\ log = old ++ kept /\ ls_inv s' l' A B Q kept /\
    (forall c, c ∈ log_chunks old -> chunk_id c <= min_id) /\
    (forall c, c ∈ log_chunks log -> min_id < chunk_id c -> c ∈ log_chunks kept) /\
    (forall e, head kept = Some e -> min_id < newest e) /\
    lsregion_used l' = u64 (zsum seg_bytes kept)) /\
  exists s', lsregion_destroy s l = Some s' /\ owns s' A B Q.
Proof.
  intros Hi. split; [|by apply (destroy_spec _ _ _ _ _ _ Hi)].
  destruct (gc_loop_spec min_id log _ _ _ _ _ Hi) as (s' & l' & old & kept & E & El & Hi' & Hold & Hk).
  assert (Hc : forall c, c ∈ log_chunks old -> chunk_id c <= min_id).
  { intros c (e & Hc & He)%list_elem_of_bind. etransitivity; [|by apply Hold]. apply newest_max; [|done].
    destruct (i_order _ _ _ _ _ _ Hi) as [Hs _]. apply list_elem_of_split in He as (l1 & l2 & ->).
    rewrite El, !log_ids_app in Hs. apply StronglySorted_app_1_l, StronglySorted_app_1_r in Hs.
    by apply StronglySorted_app_1_l in Hs. }
  exists s', l', old, kept. split_and!; try done.
  - unfold lsregion_gc. by rewrite (i_slabs _ _ _ _ _ _ Hi).
  - intros c. rewrite El, log_chunks_app. intros [Hin%Hc|?]%elem_of_app Hlt; [lia|done].
  - apply (i_used _ _ _ _ _ _ Hi').
Qed.

(** C20. [lsregion_to_iovec] flushes, in order and once, the bytes allocated since
    the savepoint, at most as many slabs as there are vectors: what it flushes and what
    the new savepoint has not seen are together what the old one had not seen.  It returns an identifier
    not below that of any chunk it flushed a byte of.  It sees only the slabs before the
    first one without a chunk. *)
Theorem lsregion_to_iovec_correct s l A B Q log svp cnt : ls_inv s l A B Q log -> svp_ok svp log -> 0 <= cnt ->
  exists iov svp' m, lsregion_to_iovec l cnt svp = Some (iov, svp', m) /\ Z.of_nat (length iov) <= cnt /\
    (iov ≫= vec_bytes) ++ (live log ≫= unseen svp') = live log ≫= unseen svp /\ svp_ok svp' log /\
    (Z.of_nat (length log) <= cnt -> live log ≫= unseen svp' = []) /\
    (forall c x, c ∈ log_chunks log -> x ∈ chunk_bytes c -> x ∈ iov ≫= vec_bytes -> chunk_id c <= m) /\
    (iov = [] -> m = LSLAB_NOT_USED_ID).
Proof.
  intros Hi Hsvp Hcnt. destruct (inv_geometry _ _ _ _ _ _ Hi) as (_ & _ & Hl & Hk).
  unfold lsregion_to_iovec. rewrite (i_slabs _ _ _ _ _ _ Hi), (iovec_loop_spec l svp log cnt svp); [|..|done|done].
  2:{ intros e He. pose proof (i_seg _ _ _ _ _ _ Hi e He) as Hok. split; [done|]. destruct Hok as (_ & _ & _ & ? & _). lia. }
  set (es := take (Z.to_nat cnt) (fresh svp (live log))).
  assert (Eb : (vec svp <$> es) ≫= vec_bytes = es ≫= fun e => vec_bytes (vec svp e)) by apply list_fmap_bind.
  assert (Hsub : es `sublist_of` log).
  { etransitivity; [apply sublist_take|]. etransitivity; [apply fresh_sublist|apply live_sublist]. }
  pose proof (flush_split (live log)) as Hsplit.
  assert (Hlive : StronglySorted Z.lt (seg_id <$> live log)).
  { eapply sublist_sorted; [apply fmap_sublist, live_sublist|apply (i_ids _ _ _ _ _ _ Hi)]. }
  specialize (Hsplit Hlive (Z.to_nat cnt) svp). cbv zeta in Hsplit. fold es in Hsplit.
  eexists _, _, _. split; [done|]. split_and!.
  - rewrite length_fmap. unfold es. rewrite length_take. lia.
  - by rewrite Eb.
  - eapply svp_of_ok; [done|done|]. intros e He. by eapply elem_of_sublist.
  - intros Hlen. assert (Hall : es = fresh svp (live log)).
    { apply take_ge. pose proof (sublist_length _ _ (fresh_sublist svp (live log))). pose proof (sublist_length _ _ (live_sublist log)). lia. }
    rewrite Hall, fresh_bytes in Hsplit. rewrite <- Hall in Hsplit. rewrite <- (app_nil_r (live log ≫= unseen svp)) in Hsplit at 2.
    by apply app_inv_head in Hsplit.
  - intros c x Hc Hx. rewrite Eb. by apply (flushed_max s l A B Q).
  - intros En%fmap_nil_inv. unfold id_of. by rewrite En.
Qed.
End Inv.

(** ** A concrete region

    Over the concrete arena: a chunk of 100 bytes, then one that needs the heap. *)
Definition example_lsregion : lsregion :=
  default (Lsregion slab_list_create NULL 0 ∅) (lsregion_create example_shared).

Lemma example_ls_inv : ls_inv (inv:=host_inv) 16 100000 example_shared example_lsregion [] [] [] [].
Proof.
  destruct (create_ls_inv (inv:=host_inv) 16 100000 example_shared [] [] []) as (l & E & Hi).
  - exists [], [], []. split; [apply example_inv|done].
  - unfold example_lsregion. rewrite E. exact Hi.
Qed.

Lemma low_by {src : Type} `{!SlabSource src} (s : src) l n :
  match get_lslab s l n with Some (p, _, _) => p <? 2 ^ 62 | None => true end = true -> new_slab_low s l n.
Proof. intros H p s' l' E. rewrite E in H. by apply Z.ltb_lt. Qed.

Definition example_chunk : Z * _ * lsregion :=
  default (NULL, example_shared, example_lsregion) (lsregion_aligned_alloc example_shared example_lsregion 100 (2 ^ 3) 7).

Lemma example_chunk_inv : exists log, ls_inv (inv:=host_inv) 16 100000 (example_chunk.1).2 example_chunk.2 [] [] [] log /\
  chunk_id <$> log_chunks log = [7].
Proof.
  destruct (ls_alloc_spec (inv:=host_inv) 16 100000 example_shared example_lsregion [] [] [] [] 100 3 7 example_ls_inv)
    as (res & s' & l' & E & _ & H); [lia|lia| |by vm_compute|apply low_by; by vm_compute|by vm_compute| |].
  - split; [done|]. left. by vm_compute.
  - intros c ?%elem_of_nil. done.
  - unfold example_chunk. rewrite E. cbn [default fst snd].
    assert (Enot : (if lsregion_aligned_alloc example_shared example_lsregion 100 (2 ^ 3) 7 is Some (x, _, _) then negb (x =? 0) else false) = true)
      by by vm_compute.
    rewrite E in Enot. destruct H as [[-> _]|(log & base & _ & _ & _ & Hi & Ec)]; [discriminate Enot|].
    exists log. split; [exact Hi|]. rewrite Ec. done.
Qed.

Lemma lsregion_alloc_correct_witness :
  exists res s' l', lsregion_aligned_alloc example_shared example_lsregion 100 (2 ^ 3) 7 = Some (res, s', l').
Proof.
  destruct (lsregion_alloc_correct (inv:=host_inv) 16 100000 example_shared example_lsregion [] [] [] [] 100 3 7 example_ls_inv)
    as (res & s' & l' & E & _); [lia|lia| |by vm_compute|apply low_by; by vm_compute|by vm_compute| |].
  - split; [done|]. left. by vm_compute.
  - intros c ?%elem_of_nil. done.
  - exists res, s', l'. exact E.
Defined.

Lemma lsregion_reserve_correct_witness :
  exists res base s' l', lsregion_aligned_reserve example_shared example_lsregion 90000 (2 ^ 4) = Some (res, base, s', l').
Proof.
  destruct (lsregion_reserve_correct (inv:=host_inv) 16 100000 example_shared example_lsregion [] [] [] [] 90000 4 example_ls_inv)
    as (res & base & s' & l' & E & _); [lia|lia| |by vm_compute|apply low_by; by vm_compute|].
  - split; [done|]. right. by vm_compute.
  - exists res, base, s', l'. exact E.
Defined.

Lemma lsregion_gc_correct_witness :
  (exists s' l', lsregion_gc (example_chunk.1).2 example_chunk.2 6 = Some (s', l') /\ lsregion_used l' = 100) /\
  exists s', lsregion_destroy (example_chunk.1).2 example_chunk.2 = Some s'.
Proof.
  destruct example_chunk_inv as (log & Hi & _).
  destruct (lsregion_gc_correct (inv:=host_inv) 16 100000 _ _ [] [] [] log 6 Hi) as [(s' & l' & old & kept & E & _) (s2 & E2 & _)].
  split; [|exists s2; exact E2]. exists s', l'. split; [exact E|].
  assert (Eu : (if lsregion_gc (example_chunk.1).2 example_chunk.2 6 is Some (_, l') then lsregion_used l' =? 100 else false) = true)
    by by vm_compute.
  rewrite E in Eu. by apply Z.eqb_eq.
Defined.

Lemma lsregion_to_iovec_correct_witness :
  exists iov svp' m, lsregion_to_iovec example_chunk.2 8 lsregion_svp_create = Some (iov, svp', m) /\ m = 7.
Proof.
  destruct example_chunk_inv as (log & Hi & _).
  assert (Hsvp : svp_ok lsregion_svp_create log).
  { intros e He E. destruct (i_ids _ _ _ _ _ _ _ _ Hi) as (_ & _ & Hid). specialize (Hid e He). cbn in E. unfold LSLAB_NOT_USED_ID in E. lia. }
  destruct (lsregion_to_iovec_correct (inv:=host_inv) 16 100000 _ _ [] [] [] log lsregion_svp_create 8 Hi Hsvp ltac:(lia))
    as (iov & svp' & m & E & _).
  exists iov, svp', m. split; [exact E|].
  assert (Em : (if lsregion_to_iovec example_chunk.2 8 lsregion_svp_create is Some (_, _, m) then m =? 7 else false) = true)
    by by vm_compute.
  rewrite E in Em. by apply Z.eqb_eq.
Defined.

Definition example_gap : option (list (Z * Z) * lsregion_svp * Z) :=
  '(_, s, l) ← lsregion_reserve example_shared example_lsregion 1000;
  '(_, s, l) ← lsregion_alloc s l 90000 1;
  lsregion_to_iovec l 8 lsregion_svp_create.

(** A reservation that is not used, then a chunk too large for the slab: the chunk
    is in the log and is never flushed. *)
Example lsregion_gap_not_flushed : example_gap = Some ([], lsregion_svp_create, LSLAB_NOT_USED_ID).
Proof. by vm_compute. Qed.
