(* ===== verification/Static.v ===== *)
(** * Static buffer: [include/small/static.h], [small/static.c]

    A thread-local cyclic buffer at address [buf]; the state is the next free
    position [static_storage_pos]. *)
From S2P Require Import Prelude Util.

Definition SMALL_STATIC_SIZE : Z := 4096 * 3.

Section Static.
Context (buf : Z).

(** ** Definitions *)

Definition static_storage_pos0 : Z := 0.
Definition static_reset : Z := 0.

(** Each operation returns the address and the new position. *)
Definition static_reserve (pos size : Z) : Z * Z :=
  if u64 (pos + size) >? SMALL_STATIC_SIZE then
    if size >? SMALL_STATIC_SIZE then (NULL, pos) else (buf + 0, 0)
  else (buf + pos, pos).

Definition static_alloc (pos size : Z) : Z * Z :=
  let '(res, pos) := static_reserve pos size in
  if negb (res =? NULL) then (res, u64 (pos + size)) else (res, pos).

Definition static_aligned_reserve (pos size alignment : Z) : option (Z * Z) :=
  let '(unaligned, pos) := static_reserve pos (u64 (size + alignment - 1)) in
  if unaligned =? NULL then Some (NULL, pos)
  else
    ASSERT small_align_ok unaligned alignment;
    Some (small_align unaligned alignment, pos).

Definition static_aligned_alloc (pos size alignment : Z) : option (Z * Z) :=
  '(res, pos) ← static_aligned_reserve pos size alignment;
  if negb (res =? NULL) then Some (res, u64 (u64 (res - buf) + size)) else Some (res, pos).

(** ** Properties *)

Definition pos_ok (pos : Z) : Prop := 0 <= pos <= SMALL_STATIC_SIZE.

(** The buffer does not start at NULL and lies in user space. *)
Context (Hbuf : 0 < buf < 2 ^ 62).

Lemma static_reserve_spec pos size : pos_ok pos -> 0 <= size < 2 ^ 63 ->
  static_reserve pos size =
    if size >? SMALL_STATIC_SIZE then (NULL, pos)
    else if pos + size >? SMALL_STATIC_SIZE then (buf, 0) else (buf + pos, pos).
Proof.
  unfold pos_ok, static_reserve, SMALL_STATIC_SIZE. intros Hp Hs. rewrite u64_small, Z.add_0_r by lia.
  destruct (Z.gtb_spec (pos + size) (4096 * 3)), (Z.gtb_spec size (4096 * 3)); (done || lia).
Qed.

(** What an allocation of [size] bytes at an address that is a multiple of [2^a]
    makes of position [pos]: it fails only when the bytes with the worst padding exceed the
    buffer; otherwise they are in the buffer, behind those since the last recycling, or
    at its start. *)
Definition allocated (pos size a res pos' : Z) : Prop :=
  if size + 2 ^ a - 1 >? SMALL_STATIC_SIZE then res = NULL /\ pos' = pos
  else
    pos_ok pos' /\ res mod 2 ^ a = 0 /\ pos' = res - buf + size /\
    (if pos + (size + 2 ^ a - 1) >? SMALL_STATIC_SIZE then buf <= res < buf + 2 ^ a
     else buf + pos <= res < buf + pos + 2 ^ a).

Lemma static_aligned_alloc_spec pos size a : pos_ok pos -> 0 <= a < 32 -> 0 <= size < 2 ^ 62 ->
  exists res pos', static_aligned_alloc pos size (2 ^ a) = Some (res, pos') /\ allocated pos size a res pos'.
Proof.
  intros Hp Ha Hs. pose proof (pow2_pos a ltac:(lia)). pose proof (pow2_mono a 31 ltac:(lia)).
  unfold static_aligned_alloc, static_aligned_reserve, allocated. rewrite u64_small by lia.
  rewrite static_reserve_spec by (done || lia). unfold pos_ok, SMALL_STATIC_SIZE in *.
  destruct (Z.gtb_spec (size + 2 ^ a - 1) (4096 * 3)) as [Hbig|Hfit]; [by exists NULL, pos|].
  set (unaligned := if pos + (size + 2 ^ a - 1) >? 4096 * 3 then buf else buf + pos).
  assert (Eu : (if pos + (size + 2 ^ a - 1) >? 4096 * 3 then (buf, 0) else (buf + pos, pos)) =
               (unaligned, if pos + (size + 2 ^ a - 1) >? 4096 * 3 then 0 else pos)) by (unfold unaligned; by destruct (_ >? _)).
  assert (Hu : buf <= unaligned <= buf + 4096 * 3 /\ unaligned + (size + 2 ^ a - 1) <= buf + 4096 * 3)
    by (unfold unaligned; destruct (Z.gtb_spec (pos + (size + 2 ^ a - 1)) (4096 * 3)); lia).
  rewrite Eu. rewrite (proj2 (Z.eqb_neq unaligned NULL)) by lia. rewrite small_align_ok_pow2 by lia. cbn [mbind option_bind].
  destruct (small_align_bounds unaligned a ltac:(lia) ltac:(lia) ltac:(lia)) as [H1 H2].
  rewrite (proj2 (Z.eqb_neq (small_align _ _) NULL)) by lia. cbn [negb]. rewrite !u64_small by (rewrite ?u64_small; lia).
  eexists _, _. split; [done|]. split_and!; [lia..|done|lia|].
  unfold unaligned in H1 |- *. destruct (_ >? _); lia.
Qed.

Lemma static_alloc_spec pos size : pos_ok pos -> 0 <= size < 2 ^ 62 ->
  exists res pos', static_alloc pos size = (res, pos') /\ allocated pos size 0 res pos'.
Proof.
  intros Hp Hs. unfold static_alloc, allocated. rewrite static_reserve_spec by (done || lia).
  change (2 ^ 0) with 1. unfold pos_ok, SMALL_STATIC_SIZE in *. replace (size + 1 - 1) with size by lia.
  destruct (Z.gtb_spec size (4096 * 3)); [by exists NULL, pos|]. destruct (Z.gtb_spec (pos + size) (4096 * 3)).
  - rewrite (proj2 (Z.eqb_neq buf NULL)) by lia. cbn [negb]. rewrite u64_small by lia. eexists _, _. split; [done|].
    rewrite Z.mod_1_r. split_and!; lia.
  - rewrite (proj2 (Z.eqb_neq (buf + pos) NULL)) by lia. cbn [negb]. rewrite u64_small by lia. eexists _, _. split; [done|].
    rewrite Z.mod_1_r. split_and!; lia.
Qed.

(** [static_alloc] and [static_aligned_alloc] fail only when the size, with the
    worst padding, exceeds the buffer; otherwise the bytes lie in the buffer at an
    aligned address, behind the allocations since the buffer was last recycled, or at its
    start when it is recycled now.  A size so large that the position plus the size wraps is
    not refused: [static_reserve] returns the current position. *)
Theorem static_alloc_correct pos size a : pos_ok pos -> 0 <= a < 32 -> 0 <= size < 2 ^ 62 ->
  (exists res pos', static_aligned_alloc pos size (2 ^ a) = Some (res, pos') /\ allocated pos size a res pos') /\
  (exists res pos', static_alloc pos size = (res, pos') /\ allocated pos size 0 res pos') /\
  (forall huge, 2 ^ 64 - pos <= huge < 2 ^ 64 -> static_reserve pos huge = (buf + pos, pos)).
Proof.
  intros Hp Ha Hs. split_and!; [by apply static_aligned_alloc_spec|by apply static_alloc_spec|].
  intros huge Hh. unfold static_reserve, pos_ok, SMALL_STATIC_SIZE in *.
  assert (E : u64 (pos + huge) = pos + huge - 2 ^ 64).
  { unfold u64. symmetry. apply (Z.mod_unique _ _ 1); lia. }
  rewrite E. destruct (Z.gtb_spec (pos + huge - 2 ^ 64) (4096 * 3)); [lia|done].
Qed.
End Static.

Lemma static_alloc_correct_witness :
  (exists res pos', static_aligned_alloc 65537 100 1000 (2 ^ 4) = Some (res, pos')) /\
  static_reserve 65537 100 (2 ^ 64 - 100) = (65637, 100).
Proof.
  assert (Hp : pos_ok 100) by (unfold pos_ok, SMALL_STATIC_SIZE; lia).
  destruct (static_alloc_correct 65537 ltac:(lia) 100 1000 4 Hp ltac:(lia) ltac:(lia)) as ((res & pos' & E & _) & _ & H).
  split; [by exists res, pos'|]. apply H. lia.
Defined.
