(* ===== verification/Matras.v ===== *)
(** * Blocks with numbers: [include/small/matras.h], [small/matras.c]

    Blocks of one size in extents, found by their number through two levels of
    tables, with read views that share extents with the current version until it
    changes them.  A pointer in memory is kept at the address of its first byte.
    The functions that get and free extents are parameters. *)
From S2P Require Import Prelude Util Bytes.

(** [alloc_func] and [free_func], with what they depend on. *)
Class ExtentAllocator (E : Type) := {
  alloc_func : E -> Z * E;
  free_func : E -> Z -> option E;
}.

(** ** Definitions *)
Section Matras.
Context {E : Type} `{!ExtentAllocator E}.

Record matras_allocator := MatrasAllocator {
  allocator_extent_size : Z;
  external : E;
  reserved_extents : Z;
  num_reserved_extents : Z;
}.

Record matras_stats := MatrasStats {
  st_extent_count : Z;
  read_view_extent_count : Z;
}.

Record matras_view := MatrasView {
  root : Z;
  block_count : Z;
  prev_view : Z;
  next_view : Z;
}.

Record matras := Matras {
  head : matras_view;
  block_size : Z;
  extent_size : Z;
  extent_count : Z;
  capacity : Z;
  shift1 : Z;
  shift2 : Z;
  mask1 : Z;
  mask2 : Z;
}.

(** An instance with what its pointers lead to: [self] is the address of its head,
    [views] are the read views of its users, [mem] is memory. *)
Record matras_state := MatrasState {
  inst : matras;
  self : Z;
  views : gmap Z matras_view;
  allocator : matras_allocator;
  stats : matras_stats;
  mem : memory;
}.

Definition set_head (s : matras_state) (h : matras_view) : matras_state :=
  let m := inst s in
  MatrasState (Matras h (block_size m) (extent_size m) (extent_count m) (capacity m) (shift1 m) (shift2 m) (mask1 m) (mask2 m))
    (self s) (views s) (allocator s) (stats s) (mem s).
Definition set_extent_count (s : matras_state) (n : Z) : matras_state :=
  let m := inst s in
  MatrasState (Matras (head m) (block_size m) (extent_size m) n (capacity m) (shift1 m) (shift2 m) (mask1 m) (mask2 m))
    (self s) (views s) (allocator s) (stats s) (mem s).
Definition set_views (s : matras_state) (l : gmap Z matras_view) : matras_state :=
  MatrasState (inst s) (self s) l (allocator s) (stats s) (mem s).
Definition set_allocator (s : matras_state) (a : matras_allocator) : matras_state :=
  MatrasState (inst s) (self s) (views s) a (stats s) (mem s).
Definition set_stats (s : matras_state) (t : matras_stats) : matras_state :=
  MatrasState (inst s) (self s) (views s) (allocator s) t (mem s).
Definition set_mem (s : matras_state) (M : memory) : matras_state :=
  MatrasState (inst s) (self s) (views s) (allocator s) (stats s) M.

(** [*a = x], for a pointer [x]. *)
Definition poke (M : memory) (a x : Z) : memory := fun b => if b =? a then x else M b.
Definition store_ptr (s : matras_state) (a x : Z) : matras_state := set_mem s (poke (mem s) a x).

Definition set_root (v : matras_view) (r : Z) : matras_view := MatrasView r (block_count v) (prev_view v) (next_view v).
Definition set_count (v : matras_view) (n : Z) : matras_view := MatrasView (root v) n (prev_view v) (next_view v).
Definition set_prev_view (v : matras_view) (p : Z) : matras_view := MatrasView (root v) (block_count v) p (next_view v).
Definition set_next_view (v : matras_view) (p : Z) : matras_view := MatrasView (root v) (block_count v) (prev_view v) p.

(** A pointer to a view leads to the head or to a read view. *)
Definition get_view (s : matras_state) (v : Z) : option matras_view :=
  if v =? self s then Some (head (inst s)) else views s !! v.
Definition put_view (s : matras_state) (v : Z) (w : matras_view) : matras_state :=
  if v =? self s then set_head s w else set_views s (<[v := w]> (views s)).

Definition sizeof_ptr : Z := 8.

(** *** The allocator of extents *)

Definition matras_allocator_create (extent_size : Z) (e : E) : matras_allocator := MatrasAllocator extent_size e NULL 0.

Fixpoint allocator_destroy_loop (fuel : nat) (M : memory) (a : matras_allocator) : option matras_allocator :=
  if num_reserved_extents a >? 0 then
    match fuel with
    | O => None
    | S fuel =>
        let ext := reserved_extents a in
        e ← free_func (external a) ext;
        allocator_destroy_loop fuel M
          (MatrasAllocator (allocator_extent_size a) e (M ext) (num_reserved_extents a - 1))
    end
  else Some a.
Definition matras_allocator_destroy (M : memory) (a : matras_allocator) : option matras_allocator :=
  allocator_destroy_loop (Z.to_nat (num_reserved_extents a)) M a.

Definition matras_allocator_alloc (M : memory) (a : matras_allocator) : Z * matras_allocator :=
  if num_reserved_extents a >? 0 then
    let ext := reserved_extents a in
    (ext, MatrasAllocator (allocator_extent_size a) (external a) (M ext) (num_reserved_extents a - 1))
  else
    let '(p, e) := alloc_func (external a) in
    (p, MatrasAllocator (allocator_extent_size a) e (reserved_extents a) (num_reserved_extents a)).

Definition matras_allocator_free (a : matras_allocator) (ext : Z) : option matras_allocator :=
  e ← free_func (external a) ext;
  Some (MatrasAllocator (allocator_extent_size a) e (reserved_extents a) (num_reserved_extents a)).

(** The loop makes a round for each extent that is missing. *)
Fixpoint reserve_loop (fuel : nat) (M : memory) (a : matras_allocator) (count : Z) : option (Z * matras_allocator * memory) :=
  if num_reserved_extents a <? count then
    match fuel with
    | O => None
    | S fuel =>
        let '(ext, e) := alloc_func (external a) in
        if ext =? NULL then
          Some (-1, MatrasAllocator (allocator_extent_size a) e (reserved_extents a) (num_reserved_extents a), M)
        else
          reserve_loop fuel (poke M ext (reserved_extents a))
            (MatrasAllocator (allocator_extent_size a) e ext (num_reserved_extents a + 1)) count
    end
  else Some (0, a, M).
Definition matras_allocator_reserve (M : memory) (a : matras_allocator) (count : Z) : option (Z * matras_allocator * memory) :=
  ASSERT count >=? 0;
  reserve_loop (Z.to_nat (count - num_reserved_extents a)) M a count.

(** *** Creation *)

Definition matras_stats_create : matras_stats := MatrasStats 0 0.

Definition matras_log2 (val : Z) : option Z :=
  ASSERT val >? 0;
  Some (u32 (sizeof_unsigned * CHAR_BIT - builtin_clz val - 1)).

(** The root is not written: [root0] is what was there before.  A shift by 32 or
    more is undefined. *)
Definition matras_create (root0 block_size : Z) (a : matras_allocator) : option matras :=
  let extent_size := allocator_extent_size a in
  ASSERT Z.land extent_size (u64 (extent_size - 1)) =? 0;
  ASSERT Z.land block_size (u32 (block_size - 1)) =? 0;
  ASSERT block_size <=? extent_size;
  ASSERT extent_size >? sizeof_ptr;
  log1 ← matras_log2 (u32 extent_size);
  log2 ← matras_log2 block_size;
  log3 ← matras_log2 sizeof_ptr;
  let log2_capacity := u32 (log1 * 3 - log2 - log3 * 2) in
  let log2_capacity := if log2_capacity >? 32 then 32 else log2_capacity in
  let shift1 := u32 (log1 * 2 - log2 - log3) in
  let shift2 := u32 (log1 - log2) in
  ASSERT shift1 <? 32;
  ASSERT shift2 <? 32;
  Some (Matras (MatrasView root0 0 NULL NULL) block_size (u32 extent_size) 0 (Z.shiftl 1 log2_capacity) shift1 shift2
          (u32 (u32 (Z.shiftl 1 shift1) - 1)) (u32 (u32 (Z.shiftl 1 shift2) - 1))).

(** *** Extents *)

Definition matras_alloc_extent (s : matras_state) : Z * matras_state :=
  let '(ext, a) := matras_allocator_alloc (mem s) (allocator s) in
  let s := set_allocator s a in
  if negb (ext =? NULL) then
    let s := set_extent_count s (u32 (extent_count (inst s) + 1)) in
    (ext, set_stats s (MatrasStats (u32 (st_extent_count (stats s) + 1)) (read_view_extent_count (stats s))))
  else (ext, s).

Definition matras_free_extent (s : matras_state) (ext : Z) : option matras_state :=
  a ← matras_allocator_free (allocator s) ext;
  let s := set_allocator s a in
  let s := set_extent_count s (u32 (extent_count (inst s) - 1)) in
  Some (set_stats s (MatrasStats (u32 (st_extent_count (stats s) - 1)) (read_view_extent_count (stats s)))).

Definition matras_copy_read_view_extent (s : matras_state) (ext : Z) : option (Z * matras_state) :=
  let '(new_ext, s) := matras_alloc_extent s in
  if negb (new_ext =? NULL) then
    M ← memcpy (mem s) new_ext ext (extent_size (inst s));
    let s := set_mem s M in
    Some (new_ext, set_stats s (MatrasStats (st_extent_count (stats s)) (u32 (read_view_extent_count (stats s) + 1))))
  else Some (new_ext, s).

Definition matras_free_read_view_extent (s : matras_state) (ext : Z) : option matras_state :=
  s ← matras_free_extent s ext;
  Some (set_stats s (MatrasStats (st_extent_count (stats s)) (u32 (read_view_extent_count (stats s) - 1)))).

(** *** Address translation *)

Definition matras_view_get_no_check (s : matras_state) (v : matras_view) (id : Z) : option Z :=
  ASSERT id <? block_count v;
  let m := inst s in
  let n1 := Z.shiftr id (shift1 m) in
  let n2 := Z.shiftr (Z.land id (mask1 m)) (shift2 m) in
  let n3 := Z.land id (mask2 m) in
  Some (mem s (mem s (root v + sizeof_ptr * n1) + sizeof_ptr * n2) + u32 (n3 * block_size m)).

Definition matras_view_get (s : matras_state) (v : matras_view) (id : Z) : option Z :=
  matras_view_get_no_check s (if negb (next_view v =? NULL) then v else head (inst s)) id.
Definition matras_get (s : matras_state) (id : Z) : option Z := matras_view_get_no_check s (head (inst s)) id.

Definition matras_extent_count (s : matras_state) : Z := extent_count (inst s).
Definition matras_head_read_view (v : matras_view) : matras_view := set_next_view v NULL.
Definition matras_is_read_view_created (v : matras_view) : Z := if negb (next_view v =? NULL) then 1 else 0.

(** *** Allocation *)

(** The three levels of [matras_alloc_internal]: the extent of the level, which is
    made when the block is its first one. *)
Definition level1 (s : matras_state) (available : bool) : Z * matras_state :=
  if available then (root (head (inst s)), s)
  else
    let '(ext, s) := matras_alloc_extent s in
    if ext =? NULL then (ext, s) else (ext, set_head s (set_root (head (inst s)) ext)).
Definition level_in (s : matras_state) (available : bool) (a : Z) : Z * matras_state :=
  if available then (mem s a, s)
  else
    let '(ext, s) := matras_alloc_extent s in
    if ext =? NULL then (ext, s) else (ext, store_ptr s a ext).

Definition matras_alloc_internal (s : matras_state) : option (Z * matras_state) :=
  let m := inst s in
  let id := u32 (block_count (head m)) in
  let extent1_available := negb (id =? 0) in
  let n1 := Z.shiftr id (shift1 m) in
  let id := Z.land id (mask1 m) in
  let extent2_available := negb (id =? 0) in
  let n2 := Z.shiftr id (shift2 m) in
  let id := Z.land id (mask2 m) in
  let extent3_available := negb (id =? 0) in
  let n3 := id in
  let '(extent1, s) := level1 s extent1_available in
  if negb extent1_available && (extent1 =? NULL) then Some (NULL, s)
  else
    let '(extent2, s) := level_in s extent2_available (extent1 + sizeof_ptr * n1) in
    if negb extent2_available && (extent2 =? NULL) then
      s ← (if negb extent1_available then matras_free_extent s extent1 else Some s);
      Some (NULL, s)
    else
      let '(extent3, s) := level_in s extent3_available (extent2 + sizeof_ptr * n2) in
      if negb extent3_available && (extent3 =? NULL) then
        s ← (if negb extent1_available then matras_free_extent s extent1 else Some s);
        s ← (if negb extent2_available then matras_free_extent s extent2 else Some s);
        Some (NULL, s)
      else Some (extent3 + u32 (n3 * block_size m), s).

(** [result_id] is what the caller's variable holds before. *)
Definition matras_alloc (s : matras_state) (result_id : Z) : option (Z * Z * matras_state) :=
  let h := head (inst s) in
  ASSERT block_count h <=? capacity (inst s);
  if block_count h =? capacity (inst s) then Some (NULL, result_id, s)
  else
    '(res, s) ← matras_alloc_internal s;
    if negb (res =? NULL) then
      let h := head (inst s) in
      Some (res, u32 (block_count h), set_head s (set_count h (u64 (block_count h + 1))))
    else Some (res, result_id, s).

Definition matras_alloc_range (s : matras_state) (id range_count : Z) : option (Z * Z * matras_state) :=
  let m := inst s in
  ASSERT block_count (head m) <=? capacity m;
  ASSERT negb (range_count =? 0);
  ASSERT block_count (head m) mod range_count =? 0;
  ASSERT (extent_size m / block_size m) mod range_count =? 0;
  if u64 (block_count (head m) + range_count) >? capacity m then Some (NULL, id, s)
  else
    '(res, s) ← matras_alloc_internal s;
    if negb (res =? NULL) then
      let h := head (inst s) in
      Some (res, u32 (block_count h), set_head s (set_count h (u64 (block_count h + range_count))))
    else Some (res, id, s).

(** *** Copy on write *)

Definition matras_needs_touch (s : matras_state) (id : Z) : option bool :=
  let h := head (inst s) in
  ASSERT id <? block_count h;
  if prev_view h =? NULL then Some false
  else
    pv ← get_view s (prev_view h);
    if negb (block_count pv =? 0) then
      let extent_id := Z.shiftr id (shift2 (inst s)) in
      let next_last_id := u32 (block_count pv - 1) in
      let next_last_extent_id := Z.shiftr next_last_id (shift2 (inst s)) in
      if extent_id >? next_last_extent_id then Some false else Some true
    else Some false.

(** A step of [matras_touch_no_check]: an extent that the previous view has too is
    copied and the copy linked by [link]; no extent is the return of 0. *)
Definition own_extent (s : matras_state) (extent extentp : Z) (link : matras_state -> Z -> matras_state) :
    option (option Z * matras_state) :=
  if extent =? extentp then
    '(new_extent, s) ← matras_copy_read_view_extent s extent;
    if new_extent =? NULL then Some (None, s) else Some (Some new_extent, link s new_extent)
  else Some (Some extent, s).

Definition matras_touch_no_check (s : matras_state) (id : Z) : option (Z * matras_state) :=
  needs ← matras_needs_touch s id;
  ASSERT needs : bool;
  let m := inst s in
  let n1 := Z.shiftr id (shift1 m) in
  let n2 := Z.shiftr (Z.land id (mask1 m)) (shift2 m) in
  let n3 := Z.land id (mask2 m) in
  pv ← get_view s (prev_view (head m));
  let extent1p := root pv in
  '(extent1, s) ← own_extent s (root (head m)) extent1p (fun s e => set_head s (set_root (head (inst s)) e));
  match extent1 with
  | None => Some (NULL, s)
  | Some extent1 =>
      let extent2p := mem s (extent1p + sizeof_ptr * n1) in
      '(extent2, s) ← own_extent s (mem s (extent1 + sizeof_ptr * n1)) extent2p
                        (fun s e => store_ptr s (extent1 + sizeof_ptr * n1) e);
      match extent2 with
      | None => Some (NULL, s)
      | Some extent2 =>
          let extent3p := mem s (extent2p + sizeof_ptr * n2) in
          '(extent3, s) ← own_extent s (mem s (extent2 + sizeof_ptr * n2)) extent3p
                            (fun s e => store_ptr s (extent2 + sizeof_ptr * n2) e);
          match extent3 with
          | None => Some (NULL, s)
          | Some extent3 => Some (extent3 + u32 (n3 * block_size m), s)
          end
      end
  end.

Definition matras_touch (s : matras_state) (id : Z) : option (Z * matras_state) :=
  ASSERT id <? block_count (head (inst s));
  needs ← matras_needs_touch s id;
  if needs : bool then matras_touch_no_check s id
  else
    p ← matras_get s id;
    Some (p, s).

Definition matras_touch_reserve (s : matras_state) (count : Z) : option (Z * matras_state) :=
  ASSERT count >=? 0;
  if count =? 0 then Some (0, s)
  else
    let h := head (inst s) in
    if prev_view h =? NULL then Some (0, s)
    else
      pv ← get_view s (prev_view h);
      if block_count pv =? 0 then Some (0, s)
      else
        let root_is_to_be_copied := if root h =? root pv then 1 else 0 in
        let max_extents_required := count * 2 + root_is_to_be_copied in
        ASSERT max_extents_required <? 2 ^ 31;
        '(rc, a, M) ← matras_allocator_reserve (mem s) (allocator s) max_extents_required;
        Some (rc, set_mem (set_allocator s a) M).

(** *** Deallocation *)

Definition matras_dealloc (s : matras_state) : option matras_state :=
  ASSERT negb (block_count (head (inst s)) =? 0);
  let id := u32 (block_count (head (inst s)) - 1) in
  '(_, s) ← matras_touch s id;
  let s := set_head s (set_count (head (inst s)) id) in
  let m := inst s in
  let extent1_free := id =? 0 in
  let n1 := Z.shiftr id (shift1 m) in
  let id := Z.land id (mask1 m) in
  let extent2_free := id =? 0 in
  let n2 := Z.shiftr id (shift2 m) in
  let id := Z.land id (mask2 m) in
  let extent3_free := id =? 0 in
  if extent1_free || extent2_free || extent3_free then
    let extent1 := root (head m) in
    let extent2 := mem s (extent1 + sizeof_ptr * n1) in
    let extent3 := mem s (extent2 + sizeof_ptr * n2) in
    s ← (if extent3_free then matras_free_extent s extent3 else Some s);
    s ← (if extent2_free then matras_free_extent s extent2 else Some s);
    if extent1_free then matras_free_extent s extent1 else Some s
  else Some s.

Definition matras_dealloc_range (s : matras_state) (range_count : Z) : option matras_state :=
  let m := inst s in
  ASSERT negb (range_count =? 0);
  ASSERT block_count (head m) mod range_count =? 0;
  ASSERT (extent_size m / block_size m) mod range_count =? 0;
  matras_dealloc (set_head s (set_count (head m) (u64 (block_count (head m) - u32 (range_count - 1))))).

(** *** Read views *)

Definition matras_create_read_view (s : matras_state) (v : Z) : option matras_state :=
  let h := head (inst s) in
  let w := set_next_view h (self s) in
  let s := put_view s v w in
  let s := set_head s (set_prev_view (head (inst s)) v) in
  if negb (prev_view w =? NULL) then
    pv ← get_view s (prev_view w);
    Some (put_view s (prev_view w) (set_next_view pv v))
  else Some s.

(** [b->block_count > j], where [b] may be NULL, and the same pointer is there. *)
Definition shared_at (s : matras_state) (b : option matras_view) (j extent extentb i : Z) : bool :=
  match b with
  | Some b => (block_count b >? j) && (mem s (extent + sizeof_ptr * i) =? mem s (extentb + sizeof_ptr * i))
  | None => false
  end.

(** The inner loop of [matras_destroy_read_view]. *)
Fixpoint destroy_view_loop2 (fuel : nat) (s : matras_state) (v next : matras_view) (prev : option matras_view)
    (extent2 extent2n extent2p j1 i2 j2 : Z) : option matras_state :=
  if (i2 <? extent_size (inst s) / sizeof_ptr) && (u32 (j1 + j2) <? block_count v) then
    match fuel with
    | O => None
    | S fuel =>
        let step2 := u32 (mask2 (inst s) + 1) in
        s ← (if shared_at s (Some next) (u32 (j1 + j2)) extent2 extent2n i2
                || shared_at s prev (u32 (j1 + j2)) extent2 extent2p i2 then Some s
             else matras_free_read_view_extent s (mem s (extent2 + sizeof_ptr * i2)));
        destroy_view_loop2 fuel s v next prev extent2 extent2n extent2p j1 (u32 (i2 + 1)) (u32 (j2 + step2))
    end
  else Some s.

(** [extent2n] and [extent2p] stay 0 when the other view has no such extent. *)
Fixpoint destroy_view_loop1 (fuel : nat) (s : matras_state) (v next : matras_view) (prev : option matras_view)
    (extent1 extent1n extent1p i1 j1 : Z) : option matras_state :=
  if j1 <? block_count v then
    match fuel with
    | O => None
    | S fuel =>
        let step1 := u32 (mask1 (inst s) + 1) in
        let extent2 := mem s (extent1 + sizeof_ptr * i1) in
        let extent2n := if block_count next >? j1 then mem s (extent1n + sizeof_ptr * i1) else NULL in
        let extent2p := match prev with
                        | Some p => if block_count p >? j1 then mem s (extent1p + sizeof_ptr * i1) else NULL
                        | None => NULL
                        end in
        s ← (if shared_at s (Some next) j1 extent1 extent1n i1 || shared_at s prev j1 extent1 extent1p i1 then Some s
             else
               s ← destroy_view_loop2 (Z.to_nat (extent_size (inst s) / sizeof_ptr)) s v next prev
                     extent2 extent2n extent2p j1 0 0;
               matras_free_read_view_extent s extent2);
        destroy_view_loop1 fuel s v next prev extent1 extent1n extent1p (u32 (i1 + 1)) (u32 (j1 + step1))
    end
  else Some s.

(** The rounds of the outer loop, one for each second-level extent. *)
Definition level1_rounds (s : matras_state) : nat := Z.to_nat (extent_size (inst s) / sizeof_ptr).

Definition same_root (v : matras_view) (b : option matras_view) : bool :=
  match b with Some b => (root v =? root b) && negb (block_count b =? 0) | None => false end.

(** The view at [v], which is [w], leaves the list of views. *)
Definition unlink_view (s : matras_state) (v : Z) (w : matras_view) : option matras_state :=
  let next := next_view w in
  let prev := prev_view w in
  nv ← get_view s next;
  let s := put_view s next (set_prev_view nv prev) in
  s ← (if negb (prev =? NULL) then
         pv ← get_view s prev;
         Some (put_view s prev (set_next_view pv next))
       else Some s);
  w ← get_view s v;
  Some (put_view s v (set_next_view w NULL)).

Definition matras_destroy_read_view (s : matras_state) (v : Z) : option matras_state :=
  ASSERT negb (v =? self s);
  w ← get_view s v;
  if next_view w =? NULL then Some s
  else
    let next := next_view w in
    let prev := prev_view w in
    s ← unlink_view s v w;
    w ← get_view s v;
    nv ← get_view s next;
    pv ← (if negb (prev =? NULL) then Some <$> get_view s prev else Some None);
    if block_count w =? 0 then Some s
    else if same_root w (Some nv) then Some s
    else if same_root w pv then Some s
    else
      let extent1p := match pv with Some p => root p | None => NULL end in
      s ← destroy_view_loop1 (level1_rounds s) s w nv pv (root w) (root nv) extent1p 0 0;
      matras_free_read_view_extent s (root w).

(** *** Destruction *)

Fixpoint destroy_views (fuel : nat) (s : matras_state) : option matras_state :=
  let p := prev_view (head (inst s)) in
  if negb (p =? NULL) then
    match fuel with
    | O => None
    | S fuel => s ← matras_destroy_read_view s p; destroy_views fuel s
    end
  else Some s.

Fixpoint destroy_loop2 (fuel : nat) (s : matras_state) (extent2 j1 i2 j2 : Z) : option matras_state :=
  if (i2 <? extent_size (inst s) / sizeof_ptr) && (u32 (j1 + j2) <? block_count (head (inst s))) then
    match fuel with
    | O => None
    | S fuel =>
        let step2 := u32 (mask2 (inst s) + 1) in
        s ← matras_free_extent s (mem s (extent2 + sizeof_ptr * i2));
        destroy_loop2 fuel s extent2 j1 (u32 (i2 + 1)) (u32 (j2 + step2))
    end
  else Some s.
Fixpoint destroy_loop1 (fuel : nat) (s : matras_state) (extent1 i1 j1 : Z) : option matras_state :=
  if j1 <? block_count (head (inst s)) then
    match fuel with
    | O => None
    | S fuel =>
        let step1 := u32 (mask1 (inst s) + 1) in
        let extent2 := mem s (extent1 + sizeof_ptr * i1) in
        s ← destroy_loop2 (Z.to_nat (extent_size (inst s) / sizeof_ptr)) s extent2 j1 0 0;
        s ← matras_free_extent s extent2;
        destroy_loop1 fuel s extent1 (u32 (i1 + 1)) (u32 (j1 + step1))
    end
  else Some s.

Definition matras_destroy (s : matras_state) : option matras_state :=
  s ← destroy_views (size (views s)) s;
  if block_count (head (inst s)) =? 0 then Some s
  else
    let extent1 := root (head (inst s)) in
    s ← destroy_loop1 (level1_rounds s) s extent1 0 0;
    s ← matras_free_extent s extent1;
    ASSERT extent_count (inst s) =? 0;
    Some s.

Definition matras_reset (s : matras_state) : option matras_state :=
  s ← matras_destroy s;
  Some (set_head s (set_count (head (inst s)) 0)).
End Matras.
