(* ===== verification/MatrasTree.v ===== *)
(** * The extents of the views

    Each view of [Matras] is a tree of extents of three levels.  Views share the
    extents that did not change between them; this file has the invariant of that
    sharing and what the steps of the code do to it. *)
From S2P Require Import Prelude Util Bytes Matras.

Section Tree.
(** [2^lp] pointers or [2^lk] blocks of [2^lb] bytes in an extent. *)
Context (lp lk lb : Z) (Hlp : 1 <= lp) (Hlk : 0 <= lk) (Hlb : 0 <= lb) (Hes : lk + lb = lp + 3).
Local Abbreviation P := (2 ^ lp).
Local Abbreviation K := (2 ^ lk).
Local Abbreviation bs := (2 ^ lb).
Local Abbreviation es := (2 ^ (lp + 3)).

Lemma tree_sizes : 2 <= P /\ 1 <= K /\ 1 <= bs /\ es = 8 * P /\ es = K * bs.
Proof.
  pose proof (pow2_mono 1 lp ltac:(lia)). pose proof (pow2_pos lk Hlk). pose proof (pow2_pos lb Hlb). split_and!; [lia..| |].
  - rewrite Z.pow_add_r by lia. lia.
  - rewrite <- Hes, Z.pow_add_r by lia. done.
Qed.

(** ** Places in a tree *)

Inductive place := P1 | P2 (i : Z) | P3 (x : Z).

(** The first block below a place, and the blocks below it. *)
Definition start (w : place) : Z := match w with P1 => 0 | P2 i => i * (P * K) | P3 x => x * K end.
Definition below (w : place) (id : Z) : Prop := match w with P1 => True | P2 i => id / (P * K) = i | P3 x => id / K = x end.
Definition has (n : Z) (w : place) : Prop :=
  match w with P1 => True | P2 i => 0 <= i | P3 x => 0 <= x end /\ start w < n.

(** The extent at a place of the tree with root [r], and the address of a block. *)
Definition node2 (M : memory) (r i : Z) : Z := M (r + 8 * i).
Definition node3 (M : memory) (r x : Z) : Z := M (node2 M r (x / P) + 8 * (x mod P)).
Definition node (M : memory) (r : Z) (w : place) : Z := match w with P1 => r | P2 i => node2 M r i | P3 x => node3 M r x end.
Definition block (M : memory) (r id : Z) : Z := node3 M r (id / K) + (id mod K) * bs.
Definition contents (M : memory) (r id : Z) : list Z := load M (block M r id) bs.

(** The address of the pointer to the extent at a place. *)
Definition slot (M : memory) (r : Z) (w : place) : Z :=
  match w with P1 => 0 | P2 i => r + 8 * i | P3 x => node2 M r (x / P) + 8 * (x mod P) end.
Definition parent (w : place) : place := match w with P1 => P1 | P2 _ => P1 | P3 x => P2 (x / P) end.

#[global] Instance place_eq : EqDecision place.
Proof. solve_decision. Defined.

Lemma start_below w n : has n w -> below w (start w).
Proof.
  pose proof tree_sizes as (? & ? & _). destruct w as [|i|x]; intros [Hi Hn]; cbn in *; [done|apply Z.div_mul; nia|apply Z.div_mul; lia].
Qed.

(** Blocks and places. *)
Lemma has_block n id : 0 <= id < n -> has n P1 /\ has n (P2 (id / K / P)) /\ has n (P3 (id / K)) /\
  below (P2 (id / K / P)) id /\ below (P3 (id / K)) id.
Proof.
  intros Hid. pose proof tree_sizes as (? & ? & _). pose proof (Z.div_mod id K ltac:(lia)). pose proof (Z.mod_pos_bound id K ltac:(lia)).
  assert (0 <= id / K) by (apply Z.div_pos; lia). pose proof (Z.div_mod (id / K) P ltac:(lia)). pose proof (Z.mod_pos_bound (id / K) P ltac:(lia)).
  assert (0 <= id / K / P) by (apply Z.div_pos; lia). unfold has. cbn. split_and!; try lia; try nia.
  rewrite Z.div_div by lia. by rewrite (Z.mul_comm K P).
Qed.

Lemma has_parent n w : has n w -> has n (parent w).
Proof.
  pose proof tree_sizes as (? & ? & _). destruct w as [|i|x]; intros [Hi Hn]; cbn in *; [done|split; cbn; [done|nia]|].
  pose proof (Z.div_mod x P ltac:(lia)). pose proof (Z.mod_pos_bound x P ltac:(lia)). assert (0 <= x / P) by (apply Z.div_pos; lia).
  split; cbn; [done|nia].
Qed.

Lemma has_mono n n' w : has n w -> n <= n' -> has n' w.
Proof. intros [H1 H2] Hle. split; [done|lia]. Qed.

Lemma has_zero w : ~ has 0 w.
Proof. pose proof tree_sizes as (? & ? & _). intros [H1 H2]. destruct w; cbn in *; nia. Qed.

(** The offsets of slots, with room for all blocks of a capacity. *)
Definition room (n : Z) : Prop := n <= P * P * K.

Lemma room_index n w : room n -> has n w -> match w with P1 => True | P2 i => 0 <= i < P | P3 x => 0 <= x / P < P end.
Proof.
  pose proof tree_sizes as (? & ? & _). unfold room. intros Hr. destruct w as [|i|x]; intros [Hi Hn]; cbn in *; [done|nia|].
  split; [apply Z.div_pos; lia|]. apply Z.div_lt_upper_bound; nia.
Qed.

Lemma slot_node M r w : w <> P1 -> node M r w = M (slot M r w).
Proof. by destruct w. Qed.

Definition offset_of (w : place) : Z := match w with P1 => 0 | P2 i => 8 * i | P3 x => 8 * (x mod P) end.

Lemma slot_offset M r w n : room n -> has n w -> w <> P1 ->
  slot M r w = node M r (parent w) + offset_of w /\ 0 <= offset_of w < es.
Proof.
  intros Hr Hw Hne. pose proof (room_index n w Hr Hw). pose proof tree_sizes as (? & ? & ? & -> & _).
  destruct w as [|i|x]; cbn in *; [done|lia|]. pose proof (Z.mod_pos_bound x P ltac:(lia)). lia.
Qed.

(** A place is known from its parent and the offset of its slot. *)
Lemma offset_inj w w' : parent w = parent w' -> offset_of w = offset_of w' -> w <> P1 -> w' <> P1 -> w = w'.
Proof.
  pose proof tree_sizes as (? & _). destruct w as [|i|x], w' as [|i'|x']; cbn; try done; intros H1 H2 _ _.
  - f_equal. lia.
  - injection H1 as H1. f_equal. rewrite (Z.div_mod x P), (Z.div_mod x' P) by lia. f_equal; [|lia]. by rewrite H1.
Qed.

Lemma block_offset id : 0 <= (id mod K) * bs /\ (id mod K) * bs + bs <= es.
Proof.
  pose proof tree_sizes as (? & ? & ? & _ & ->). pose proof (Z.mod_pos_bound id K ltac:(lia)). nia.
Qed.

(** ** What a view uses of memory *)

Definition uses (M : memory) (r n a : Z) : Prop :=
  (exists w, has n w /\ w <> P1 /\ a = slot M r w) \/
  (exists id, 0 <= id < n /\ block M r id <= a < block M r id + bs).

Lemma node_frame M M' r n w : (forall w, has n w -> w <> P1 -> M' (slot M r w) = M (slot M r w)) -> has n w ->
  node M' r w = node M r w /\ slot M' r w = slot M r w.
Proof.
  intros HM Hw. destruct w as [|i|x]; [done|split; [by apply (HM (P2 i))|done]|].
  pose proof (HM _ (has_parent _ _ Hw) ltac:(done)) as E2. cbn in E2. pose proof (HM (P3 x) Hw ltac:(done)) as E3.
  cbn in *. unfold node3, node2 in *. by rewrite E2.
Qed.

Lemma uses_frame M M' r n : (forall a, uses M r n a -> M' a = M a) ->
  (forall w, has n w -> node M' r w = node M r w /\ slot M' r w = slot M r w) /\
  (forall id, 0 <= id < n -> block M' r id = block M r id /\ contents M' r id = contents M r id).
Proof.
  intros HM. assert (Hn : forall w, has n w -> node M' r w = node M r w /\ slot M' r w = slot M r w).
  { intros w. apply node_frame. intros w' Hw Hne. apply HM. left. by exists w'. }
  split; [done|]. intros id Hid. destruct (has_block n id Hid) as (_ & _ & H3 & _). destruct (Hn _ H3) as [E _]. cbn in E.
  assert (Eb : block M' r id = block M r id) by (unfold block; by rewrite E). split; [done|]. unfold contents. rewrite Eb.
  apply load_ext. intros a Ha. apply HM. right. by exists id.
Qed.

(** What is used lies in the extents. *)
Lemma uses_in M r n a : room n -> uses M r n a -> exists w, has n w /\ node M r w <= a < node M r w + es.
Proof.
  intros Hr [(w & Hw & Hne & ->)|(id & Hid & Ha)].
  - destruct (slot_offset M r w n Hr Hw Hne) as [-> Ho]. exists (parent w). split; [by apply has_parent|lia].
  - destruct (has_block n id Hid) as (_ & _ & H3 & _). pose proof (block_offset id). exists (P3 (id / K)). split; [done|]. cbn. unfold block in Ha. lia.
Qed.

(** ** Views that share extents

    A view is its root and its number of blocks. *)
Definition shares (M : memory) (v v' : Z * Z) (w : place) : Prop :=
  has v.2 w /\ has v'.2 w /\ node M v.1 w = node M v'.1 w.

(** The views from the oldest to the newest, with their extents in [X].  An extent
    is at one place only; the views that share it are next to each other; and of
    two views that share it the newer one has all blocks below it that the older
    one has. *)
Record forest (M : memory) (vs : list (Z * Z)) (X : list Z) : Prop := {
  fo_room v : v ∈ vs -> 0 <= v.2 /\ room v.2;
  fo_live v w : v ∈ vs -> has v.2 w -> node M v.1 w ∈ X;
  fo_inj v w v' w' : v ∈ vs -> v' ∈ vs -> has v.2 w -> has v'.2 w' -> node M v.1 w = node M v'.1 w' -> w = w';
  fo_mid i j k a b c w : (i < j < k)%nat -> vs !! i = Some a -> vs !! j = Some b -> vs !! k = Some c ->
    shares M a c w -> shares M a b w;
  fo_grow i k a c w id : (i < k)%nat -> vs !! i = Some a -> vs !! k = Some c -> shares M a c w ->
    0 <= id < a.2 -> below w id -> id < c.2;
}.

(** Extents are apart. *)
Definition exts_ok (X : list Z) : Prop :=
  NoDup X /\ (forall p, p ∈ X -> 0 < p) /\ (forall p q, p ∈ X -> q ∈ X -> p <> q -> p + es <= q \/ q + es <= p).

Lemma same_ext X p q a : exts_ok X -> p ∈ X -> q ∈ X -> p <= a < p + es -> q <= a < q + es -> p = q.
Proof. intros (_ & _ & H) Hp Hq H1 H2. destruct (decide (p = q)) as [|Hne]; [done|]. destruct (H p q Hp Hq Hne); lia. Qed.

Lemma shares_sym M v v' w : shares M v v' w -> shares M v' v w.
Proof. intros (H1 & H2 & H3). done. Qed.
Lemma shares_trans M a b c w : shares M a b w -> shares M b c w -> shares M a c w.
Proof. intros (H1 & H2 & H3) (H4 & H5 & H6). split_and!; [done|done|congruence]. Qed.

Lemma parent_not_leaf w x : parent w <> P3 x.
Proof. by destruct w. Qed.

(** Who uses a slot of a view shares the extent it is in, and has the child. *)
Lemma uses_slot M vs X v v' w n : forest M vs X -> exts_ok X -> v ∈ vs -> v' ∈ vs -> has v.2 (parent w) -> room n -> has n w -> w <> P1 ->
  uses M v'.1 v'.2 (slot M v.1 w) -> shares M v v' (parent w) /\ has v'.2 w.
Proof.
  intros Hf Hx Hv Hv' Hpar Hn Hw Hne Hu. destruct (slot_offset M v.1 w n Hn Hw Hne) as [Es Ho]. rewrite Es in Hu.
  pose proof (fo_live _ _ _ Hf v _ Hv Hpar) as Lv. destruct (fo_room _ _ _ Hf v' Hv') as [_ Hr'].
  destruct Hu as [(w' & Hw' & Hne' & Ea)|(id & Hid & Ha)].
  - destruct (slot_offset M v'.1 w' _ Hr' Hw' Hne') as [Es' Ho']. rewrite Es' in Ea. pose proof (has_parent _ _ Hw') as Hpar'.
    pose proof (fo_live _ _ _ Hf v' _ Hv' Hpar') as Lv'.
    assert (E : node M v.1 (parent w) = node M v'.1 (parent w')) by (apply (same_ext X _ _ (node M v.1 (parent w) + offset_of w) Hx); [done|done|lia|lia]).
    pose proof (fo_inj _ _ _ Hf v _ v' _ Hv Hv' Hpar Hpar' E) as Ep. assert (Eo : offset_of w = offset_of w') by lia.
    pose proof (offset_inj w w' Ep Eo Hne Hne') as ->. done.
  - exfalso. destruct (has_block _ _ Hid) as (_ & _ & H3 & _). pose proof (block_offset id). unfold block in Ha.
    pose proof (fo_live _ _ _ Hf v' _ Hv' H3) as Lv'. cbn in Lv'.
    assert (E : node M v.1 (parent w) = node M v'.1 (P3 (id / K))) by (apply (same_ext X _ _ (node M v.1 (parent w) + offset_of w) Hx); cbn; [done|done|lia|lia]).
    apply (parent_not_leaf w (id / K)). apply (fo_inj _ _ _ Hf v _ v' _ Hv Hv' Hpar H3 E).
Qed.

(** A slot is not in a block, and the blocks of a byte are one. *)
Lemma slot_not_block M vs X v v' w id : forest M vs X -> exts_ok X -> v ∈ vs -> v' ∈ vs -> 0 <= id -> has v.2 (P3 (id / K)) -> has v'.2 w -> w <> P1 ->
  ~ (block M v.1 id <= slot M v'.1 w < block M v.1 id + bs).
Proof.
  intros Hf Hx Hv Hv' Hid H3 Hw Hne Ha. pose proof (block_offset id). unfold block in Ha. pose proof tree_sizes as (_ & ? & ? & _).
  pose proof (fo_live _ _ _ Hf v _ Hv H3) as Lv. cbn in Lv. destruct (fo_room _ _ _ Hf v' Hv') as [_ Hr'].
  destruct (slot_offset M v'.1 w _ Hr' Hw Hne) as [Es' Ho']. rewrite Es' in Ha. pose proof (has_parent _ _ Hw) as Hpar'.
  pose proof (fo_live _ _ _ Hf v' _ Hv' Hpar') as Lv'.
  assert (E : node M v'.1 (parent w) = node M v.1 (P3 (id / K))) by (apply (same_ext X _ _ (node M v'.1 (parent w) + offset_of w) Hx); cbn; [done|done|lia|lia]).
  apply (parent_not_leaf w (id / K)). apply (fo_inj _ _ _ Hf v' _ v _ Hv' Hv Hpar' H3 E).
Qed.

Lemma block_same M vs X v v' id id' a : forest M vs X -> exts_ok X -> v ∈ vs -> v' ∈ vs -> 0 <= id -> has v.2 (P3 (id / K)) -> 0 <= id' < v'.2 ->
  block M v.1 id <= a < block M v.1 id + bs -> block M v'.1 id' <= a < block M v'.1 id' + bs -> shares M v v' (P3 (id / K)) /\ id = id'.
Proof.
  intros Hf Hx Hv Hv' Hid H3 Hid' Ha Ha'. pose proof (block_offset id). unfold block in Ha. pose proof tree_sizes as (_ & ? & ? & _).
  pose proof (fo_live _ _ _ Hf v _ Hv H3) as Lv. cbn in Lv.
  destruct (has_block _ _ Hid') as (_ & _ & H3' & _). pose proof (block_offset id'). unfold block in Ha'.
  pose proof (fo_live _ _ _ Hf v' _ Hv' H3') as Lv'. cbn in Lv'.
  assert (E : node M v.1 (P3 (id / K)) = node M v'.1 (P3 (id' / K))) by (apply (same_ext X _ _ a Hx); cbn; [done|done|lia|lia]).
  pose proof (fo_inj _ _ _ Hf v _ v' _ Hv Hv' H3 H3' E) as Ep. injection Ep as Ep. cbn in E. rewrite <- Ep in H3', E, Ha'. rewrite <- E in Ha'.
  assert (Em : id mod K = id' mod K) by nia. assert (id = id') as <-; [|split; [split_and!; [done|done|by cbn]|done]].
  rewrite (Z.div_mod id K), (Z.div_mod id' K) by lia. congruence.
Qed.

(** Who uses a byte of a block of a view shares the extent and has the block. *)
Lemma uses_block M vs X v v' id a : forest M vs X -> exts_ok X -> v ∈ vs -> v' ∈ vs -> 0 <= id -> has v.2 (P3 (id / K)) ->
  block M v.1 id <= a < block M v.1 id + bs -> uses M v'.1 v'.2 a -> shares M v v' (P3 (id / K)) /\ id < v'.2.
Proof.
  intros Hf Hx Hv Hv' Hid H3 Ha [(w' & Hw' & Hne' & ->)|(id' & Hid' & Ha')].
  - by destruct (slot_not_block M vs X v v' w' id Hf Hx Hv Hv' Hid H3 Hw' Hne').
  - destruct (block_same M vs X v v' id id' a Hf Hx Hv Hv' Hid H3 Hid' Ha Ha') as [Hs <-]. split; [done|lia].
Qed.

(** ** Steps *)

(** The extents stay where they are. *)
Lemma forest_nodes M M' vs X : forest M vs X -> (forall v w, v ∈ vs -> has v.2 w -> node M' v.1 w = node M v.1 w) -> forest M' vs X.
Proof.
  intros [F1 F2 F3 F4 F5] Hn.
  assert (Hsh : forall a c w, a ∈ vs -> c ∈ vs -> shares M' a c w <-> shares M a c w).
  { intros a c w Ha Hc. unfold shares. split; intros (H1 & H2 & H3); (split_and!; [done|done|]); [rewrite <- !Hn|rewrite !Hn]; done. }
  split; [done|..].
  - intros v w Hv Hw. rewrite Hn by done. by apply F2.
  - intros v w v' w' Hv Hv' Hw Hw' E. rewrite !Hn in E by done. by apply (F3 v w v' w').
  - intros i j k a b c w Hij Ha Hb Hc Hs. rewrite Hsh in * by (by eapply list_elem_of_lookup_2). by apply (F4 i j k a b c w).
  - intros i k a c w id Hik Ha Hc Hs. rewrite Hsh in Hs by (by eapply list_elem_of_lookup_2). by apply (F5 i k a c w id).
Qed.

(** Memory changes where no view uses it. *)
Lemma forest_frame M M' vs X : forest M vs X -> (forall v a, v ∈ vs -> uses M v.1 v.2 a -> M' a = M a) -> forest M' vs X.
Proof.
  intros Hf HM. apply (forest_nodes M M' vs X Hf). intros v w Hv Hw. apply (uses_frame M M' v.1 v.2); [|done]. intros a Ha. by apply (HM v).
Qed.

(** More extents, of which the views use none; fewer, none of them used. *)
Lemma forest_live M vs X X' : forest M vs X -> (forall v w, v ∈ vs -> has v.2 w -> node M v.1 w ∈ X') -> forest M vs X'.
Proof. intros [F1 F2 F3 F4 F5] H. by split. Qed.

(** The newest view is replaced: it may share with the others what it shared
    before, and nothing else. *)
Lemma forest_head M M' ws h h' X X' : forest M (ws ++ [h]) X ->
  (forall v a, v ∈ ws -> uses M v.1 v.2 a -> M' a = M a) ->
  (forall v w, v ∈ ws -> has v.2 w -> node M v.1 w ∈ X') ->
  0 <= h'.2 /\ room h'.2 ->
  (forall w, has h'.2 w -> node M' h'.1 w ∈ X') ->
  (forall w w', has h'.2 w -> has h'.2 w' -> node M' h'.1 w = node M' h'.1 w' -> w = w') ->
  (forall v w w', v ∈ ws -> has v.2 w -> has h'.2 w' -> node M v.1 w = node M' h'.1 w' -> shares M v h w /\ w = w') ->
  (forall v w id, v ∈ ws -> shares M v h w -> has h'.2 w -> 0 <= id < v.2 -> below w id -> node M v.1 w = node M' h'.1 w -> id < h'.2) ->
  forest M' (ws ++ [h']) X'.
Proof.
  intros [F1 F2 F3 F4 F5] HM Hlive Hn Hlive' Hinj Hws Hgrow.
  assert (Hold : forall v, v ∈ ws -> v ∈ ws ++ [h]) by (intros v Hv; apply elem_of_app; by left).
  assert (Hnode : forall v w, v ∈ ws -> has v.2 w -> node M' v.1 w = node M v.1 w).
  { intros v w Hv Hw. apply (uses_frame M M' v.1 v.2); [|done]. intros a Ha. by apply (HM v). }
  assert (Hcase : forall i v, (ws ++ [h']) !! i = Some v -> v ∈ ws /\ (ws ++ [h]) !! i = Some v /\ (i < length ws)%nat \/ v = h' /\ i = length ws).
  { intros i v Hi. apply lookup_app_Some in Hi as [Hi|[Hge Hi]].
    - left. split_and!; [by eapply list_elem_of_lookup_2|apply lookup_app_Some; by left|by eapply lookup_lt_Some].
    - apply list_lookup_singleton_Some in Hi as [? <-]. right. split; [done|lia]. }
  assert (Hel : forall v, v ∈ ws ++ [h'] -> v ∈ ws \/ v = h') by (intros v [Hv|Hv]%elem_of_app; [by left|apply list_elem_of_singleton in Hv; by right]).
  assert (Hsh : forall a w, a ∈ ws -> shares M' a h' w -> shares M a h w).
  { intros a w Ha (S1 & S2 & S3). rewrite Hnode in S3 by done. by destruct (Hws a w w Ha S1 S2 S3). }
  assert (Hwsh : forall a b w, a ∈ ws -> b ∈ ws -> shares M' a b w <-> shares M a b w).
  { intros a b w Ha Hb. unfold shares. split; intros (H1 & H2 & H3); (split_and!; [done|done|]); [rewrite <- !Hnode|rewrite !Hnode]; done. }
  assert (Hlast : (ws ++ [h]) !! length ws = Some h) by by apply list_lookup_middle.
  split.
  - intros v [Hv| ->]%Hel; [by apply F1, Hold|done].
  - intros v w [Hv| ->]%Hel Hw; [rewrite Hnode by done; by apply Hlive|by apply Hlive'].
  - intros v w v' w' [Hv| ->]%Hel [Hv'| ->]%Hel Hw Hw' E.
    + rewrite !Hnode in E by done. by apply (F3 v w v' w' (Hold v Hv) (Hold v' Hv')).
    + rewrite Hnode in E by done. by apply (Hws v w w').
    + rewrite (Hnode v' w') in E by done. symmetry. by destruct (Hws v' w' w Hv' Hw' Hw (eq_sym E)) as [_ ->].
    + by apply Hinj.
  - intros i j k a b c w Hij Hi Hj Hk Hs. destruct (Hcase i a Hi) as [(Ha & Hi' & _)|[_ ?]]; [|apply Hcase in Hj as [(_ & _ & ?)|[_ ?]]; apply lookup_lt_Some in Hk; rewrite length_app in Hk; cbn in Hk; lia].
    destruct (Hcase j b Hj) as [(Hb & Hj' & _)|[_ ?]]; [|apply lookup_lt_Some in Hk; rewrite length_app in Hk; cbn in Hk; lia].
    rewrite Hwsh by done. destruct (Hcase k c Hk) as [(Hc & Hk' & _)|[-> ->]].
    + rewrite Hwsh in Hs by done. by apply (F4 i j k a b c w).
    + by apply (F4 i j (length ws) a b h w Hij Hi' Hj' Hlast), Hsh.
  - intros i k a c w id Hik Hi Hk Hs Hid Hb. destruct (Hcase i a Hi) as [(Ha & Hi' & _)|[_ ?]]; [|apply lookup_lt_Some in Hk; rewrite length_app in Hk; cbn in Hk; lia].
    destruct (Hcase k c Hk) as [(Hc & Hk' & _)|[-> ->]].
    + rewrite Hwsh in Hs by done. by apply (F5 i k a c w id).
    + pose proof (Hsh a w Ha Hs). destruct Hs as (S1 & S2 & S3). rewrite Hnode in S3 by done. by apply (Hgrow a w id).
Qed.

(** *** Copying an extent of the newest view *)

Lemma forest_copied M M' ws r r' n w0 e X : forest M (ws ++ [(r, n)]) X -> exts_ok (e :: X) ->
  (forall v a, v ∈ ws -> uses M v.1 v.2 a -> M' a = M a) ->
  (forall w, has n w -> node M' r' w = if decide (w = w0) then e else node M r w) -> forest M' (ws ++ [(r', n)]) (e :: X).
Proof.
  intros Hf Hx HM Hnode. destruct Hx as (Hnd & _). apply NoDup_cons in Hnd as [Hnew _].
  assert (Hh : (r, n) ∈ ws ++ [(r, n)]) by (apply elem_of_app; right; left).
  assert (Hold : forall v, v ∈ ws -> v ∈ ws ++ [(r, n)]) by (intros v Hv; apply elem_of_app; by left).
  apply (forest_head M M' ws (r, n) (r', n) X (e :: X) Hf HM).
  - intros v w Hv Hw. right. by apply (fo_live _ _ _ Hf), Hw; apply Hold.
  - apply (fo_room _ _ _ Hf (r, n) Hh).
  - intros w Hw. cbn [fst snd] in *. rewrite Hnode by done. destruct (decide _); [left|right]. by apply (fo_live _ _ _ Hf (r, n) w Hh).
  - intros w w' Hw Hw' E. cbn [fst snd] in *. rewrite !Hnode in E by done. pose proof (fo_live _ _ _ Hf (r, n) w Hh Hw). pose proof (fo_live _ _ _ Hf (r, n) w' Hh Hw').
    cbn [fst] in *. destruct (decide (w = w0)), (decide (w' = w0)); [congruence|congruence|congruence|]. by apply (fo_inj _ _ _ Hf (r, n) w (r, n) w').
  - intros v w w' Hv Hw Hw' E. cbn [fst snd] in *. rewrite Hnode in E by done. pose proof (fo_live _ _ _ Hf v w (Hold v Hv) Hw).
    destruct (decide (w' = w0)); [congruence|]. pose proof (fo_inj _ _ _ Hf v w (r, n) w' (Hold v Hv) Hh Hw Hw' E) as <-. done.
  - intros v w id Hv Hs _ Hid Hb _. apply list_elem_of_lookup in Hv as [i Hi].
    apply (fo_grow _ _ _ Hf i (length ws) v (r, n) w id); try done; [by eapply lookup_lt_Some|apply lookup_app_Some; by left|by apply list_lookup_middle].
Qed.

Lemma memmove_in M dst src n i : 0 <= i < n -> memmove M dst src n (dst + i) = M (src + i).
Proof.
  intros Hi. unfold memmove. rewrite (proj2 (Z.leb_le _ _)), (proj2 (Z.ltb_lt _ _)) by lia. cbn [andb]. f_equal. lia.
Qed.

(** A fresh extent is written. *)
Lemma fresh_frame M vs X e src v a : forest M vs X -> exts_ok (e :: X) -> v ∈ vs -> uses M v.1 v.2 a -> memmove M e src es a = M a.
Proof.
  intros Hf Hx Hv Hu. destruct (fo_room _ _ _ Hf v Hv) as [_ Hr]. destruct (uses_in M v.1 v.2 a Hr Hu) as (w & Hw & Ha).
  apply memmove_outside. intros Hin. pose proof (fo_live _ _ _ Hf v w Hv Hw) as Hl. pose proof Hx as (Hnd & _). apply NoDup_cons in Hnd as [Hnd _].
  apply Hnd. rewrite (same_ext (e :: X) e (node M v.1 w) a Hx); [done|left|by right|done|done].
Qed.

(** The contents of the blocks of a view. *)
Definition keeps (M M' : memory) (v v' : Z * Z) : Prop := forall id, 0 <= id < v.2 -> contents M' v'.1 id = contents M v.1 id.

Lemma keeps_frame M M' v : (forall a, uses M v.1 v.2 a -> M' a = M a) -> keeps M M' v v.
Proof. intros HM id Hid. by apply (uses_frame M M' v.1 v.2 HM). Qed.

(** A block whose extent is the same, or was copied. *)
Lemma contents_moved M M' r r' id e : 0 <= id -> node M' r' (P3 (id / K)) = e ->
  (forall i, 0 <= i < es -> M' (e + i) = M (node M r (P3 (id / K)) + i)) -> contents M' r' id = contents M r id.
Proof.
  intros Hid He HM. pose proof (block_offset id) as [B1 B2]. unfold contents, block. cbn in He, HM. rewrite He. apply load_shift.
  intros i Hi. rewrite <- !Z.add_assoc. apply HM. lia.
Qed.

Lemma copy_root M ws r n e X : forest M (ws ++ [(r, n)]) X -> exts_ok (e :: X) -> 0 < n ->
  let M' := memmove M e r es in
  forest M' (ws ++ [(e, n)]) (e :: X) /\ (forall w, has n w -> node M' e w = if decide (w = P1) then e else node M r w) /\
  keeps M M' (r, n) (e, n) /\ (forall v a, v ∈ ws -> uses M v.1 v.2 a -> M' a = M a).
Proof.
  intros Hf Hx Hn M'. set (h := (r, n)). assert (Hh : h ∈ ws ++ [h]) by (apply elem_of_app; right; left).
  destruct (fo_room _ _ _ Hf h Hh) as [_ Hr]. assert (H1 : has n P1) by (split; [done|cbn; lia]).
  assert (Hold : forall v a, v ∈ ws ++ [h] -> uses M v.1 v.2 a -> M' a = M a) by (intros v a Hv Hu; by apply (fresh_frame M (ws ++ [h]) X e r v a)).
  assert (Hnode : forall w, has n w -> node M' e w = if decide (w = P1) then e else node M r w).
  { assert (H2 : forall i, has n (P2 i) -> node2 M' e i = node2 M r i).
    { intros i Hi. pose proof (room_index n (P2 i) Hr Hi) as Hib. cbn in Hib. unfold node2, M'. apply memmove_in. pose proof tree_sizes as (_ & _ & _ & -> & _). lia. }
    intros [|i|x] Hw; [done|by apply H2|]. cbn. unfold node3. rewrite H2 by (apply (has_parent n (P3 x) Hw)).
    apply (Hold h _ Hh). left. by exists (P3 x). }
  split; [|split; [done|split]].
  - apply (forest_copied M M' ws r e n P1 e X Hf Hx); [|done]. intros v a Hv Hu. apply (Hold v a); [apply elem_of_app; by left|done].
  - intros id Hid. destruct (has_block n id Hid) as (_ & _ & H3 & _). apply (contents_moved M M' r e id (node M r (P3 (id / K)))); [lia| |].
    { cbn [fst] in *. rewrite Hnode by done. by destruct (decide _). }
    intros i Hi. apply memmove_outside. intros Hin. pose proof (fo_live _ _ _ Hf h _ Hh H3) as Hl. pose proof Hx as (Hnd & _).
    apply NoDup_cons in Hnd as [Hnd _]. apply Hnd. rewrite (same_ext (e :: X) e (node M r (P3 (id / K))) (node M r (P3 (id / K)) + i) Hx); [done|left|by right|done|lia].
  - intros v a Hv Hu. apply (Hold v a); [apply elem_of_app; by left|done].
Qed.

(** Slots of one view. *)
Lemma slots_apart M vs X v w w' : forest M vs X -> exts_ok X -> v ∈ vs -> has v.2 w -> has v.2 w' -> w <> P1 -> w' <> P1 ->
  slot M v.1 w = slot M v.1 w' -> w = w'.
Proof.
  intros Hf Hx Hv Hw Hw' Hne Hne' E. destruct (fo_room _ _ _ Hf v Hv) as [_ Hr].
  destruct (slot_offset M v.1 w _ Hr Hw Hne) as [E1 O1]. destruct (slot_offset M v.1 w' _ Hr Hw' Hne') as [E2 O2].
  pose proof (has_parent _ _ Hw) as Hp. pose proof (has_parent _ _ Hw') as Hp'.
  assert (En : node M v.1 (parent w) = node M v.1 (parent w')).
  { apply (same_ext X _ _ (slot M v.1 w) Hx); [by apply (fo_live _ _ _ Hf)|by apply (fo_live _ _ _ Hf)|lia|lia]. }
  pose proof (fo_inj _ _ _ Hf v _ v _ Hv Hv Hp Hp' En). apply offset_inj; (done || lia).
Qed.

Lemma poke_ne M a x b : b <> a -> poke M a x b = M b.
Proof. intros H. unfold poke. by rewrite (proj2 (Z.eqb_neq _ _)). Qed.
Lemma poke_eq M a x : poke M a x a = x.
Proof. unfold poke. by rewrite Z.eqb_refl. Qed.

Lemma copy_slot M ws r n w0 e X : forest M (ws ++ [(r, n)]) X -> exts_ok (e :: X) -> has n w0 -> w0 <> P1 ->
  (forall v, v ∈ ws -> ~ shares M v (r, n) (parent w0)) ->
  let M' := poke (memmove M e (node M r w0) es) (slot M r w0) e in
  forest M' (ws ++ [(r, n)]) (e :: X) /\ (forall w, has n w -> node M' r w = if decide (w = w0) then e else node M r w) /\
  keeps M M' (r, n) (r, n) /\ (forall v a, v ∈ ws -> uses M v.1 v.2 a -> M' a = M a).
Proof.
  intros Hf Hx Hw0 Hne0 Hpriv M'. set (h := (r, n)) in *. set (M1 := memmove M e (node M r w0) es) in *.
  assert (Hh : h ∈ ws ++ [h]) by (apply elem_of_app; right; left). assert (HX : exts_ok X).
  { destruct Hx as (Hnd & H1 & H2). apply NoDup_cons in Hnd as [_ Hnd]. split_and!; [done|intros p Hp; apply H1; by right|]. intros p q Hp Hq. apply H2; by right. }
  destruct (fo_room _ _ _ Hf h Hh) as [_ Hr]. destruct (slot_offset M r w0 n Hr Hw0 Hne0) as [Es0 Ho0].
  assert (Hnew : e ∉ X) by (destruct Hx as (Hnd & _); by apply NoDup_cons in Hnd as [? _]).
  assert (Hm1 : forall v a, v ∈ ws ++ [h] -> uses M v.1 v.2 a -> M1 a = M a) by (intros v a Hv Hu; by apply (fresh_frame M (ws ++ [h]) X e _ v a)).
  assert (Hslot0 : ~ (e <= slot M r w0 < e + es)).
  { intros Hin. apply Hnew. pose proof (fo_live _ _ _ Hf h _ Hh (has_parent _ _ Hw0)) as Hl. cbn [fst] in Hl.
    rewrite (same_ext (e :: X) e (node M r (parent w0)) (slot M r w0) Hx); [done|left|by right|done|lia]. }
  assert (Hws : forall v a, v ∈ ws -> uses M v.1 v.2 a -> M' a = M a).
  { intros v a Hv Hu. assert (Hv' : v ∈ ws ++ [h]) by (apply elem_of_app; by left). unfold M'. rewrite poke_ne; [by apply (Hm1 v)|].
    intros ->. destruct (uses_slot M _ X h v w0 n Hf HX Hh Hv' (has_parent _ _ Hw0) Hr Hw0 Hne0 Hu) as [Hs _]. apply (Hpriv v Hv). by apply shares_sym. }
  assert (Hslot : forall w, has n w -> w <> P1 -> w <> w0 -> M' (slot M r w) = M (slot M r w)).
  { intros w Hw Hne Hn0. unfold M'. rewrite poke_ne; [apply (Hm1 h _ Hh); left; by exists w|].
    intros E. apply Hn0. by apply (slots_apart M (ws ++ [h]) X h w w0 Hf HX Hh). }
  assert (Hchild : forall i, 0 <= i < es -> M' (e + i) = M (node M r w0 + i)).
  { intros i Hi. unfold M'. rewrite poke_ne by lia. by apply memmove_in. }
  assert (Hslot' : forall w, has n w -> w <> P1 -> parent w <> w0 -> slot M' r w = slot M r w).
  { intros [|i|x] Hw Hne Hp; [done|done|]. cbn. f_equal. apply (Hslot (P2 (x / P)) (has_parent _ _ Hw)); [done|]. intros E. apply Hp. by rewrite <- E. }
  assert (Hnode : forall w, has n w -> node M' r w = if decide (w = w0) then e else node M r w).
  { intros w Hw. destruct (decide (w = P1)) as [->|Hne]; [by rewrite decide_False|]. rewrite !slot_node by done.
    destruct (decide (w = w0)) as [->|Hn0].
    - rewrite Hslot'; [|done|done|by destruct w0]. apply poke_eq.
    - destruct (decide (parent w = w0)) as [Ep|Ep]; [|rewrite Hslot' by done; by apply Hslot].
      destruct w as [|i|x]; [done|by rewrite <- Ep in Hne0|]. cbn in Ep. subst w0. cbn. unfold node2 at 1.
      assert (E2 : M' (r + 8 * (x / P)) = e) by (apply poke_eq). rewrite E2. apply Hchild. apply (slot_offset M r (P3 x) n Hr Hw Hne). }
  split; [by apply (forest_copied M M' ws r r n w0 e X)|split; [done|split]].
  - intros id Hid. cbn [fst snd h] in *. destruct (has_block n id Hid) as (_ & _ & H3 & _). destruct (decide (P3 (id / K) = w0)) as [E0|E0].
    + apply (contents_moved M M' r r id e); [lia|rewrite Hnode by done; by rewrite decide_True|]. rewrite E0. exact Hchild.
    + apply (contents_moved M M' r r id (node M r (P3 (id / K)))); [lia|rewrite Hnode by done; by rewrite decide_False|].
      intros i Hi. set (q := node M r (P3 (id / K))). pose proof (fo_live _ _ _ Hf h _ Hh H3) as Hl. cbn [fst] in Hl. fold q in Hl. unfold M'. rewrite poke_ne.
      * apply memmove_outside. intros Hin. apply Hnew. rewrite (same_ext (e :: X) e q (q + i) Hx); [done|left|by right|done|lia].
      * intros E. apply (parent_not_leaf w0 (id / K)). pose proof (has_parent _ _ Hw0) as Hp0.
        apply (fo_inj _ _ _ Hf h _ h _ Hh Hh Hp0 H3). apply (same_ext X _ _ (q + i) HX); [by apply (fo_live _ _ _ Hf)|done|cbn [h fst]; lia|cbn [h fst]; fold q; lia].
  - done.
Qed.

(** *** A block of the newest view is written *)

Lemma forest_write M M' ws h X id : forest M (ws ++ [h]) X -> exts_ok X -> 0 <= id < h.2 -> (forall v, v ∈ ws -> shares M v h (P3 (id / K)) -> v.2 <= id) ->
  same_outside M M' (block M h.1 id) bs ->
  forest M' (ws ++ [h]) X /\ (forall v, v ∈ ws -> keeps M M' v v) /\ block M' h.1 id = block M h.1 id /\
  (forall id', 0 <= id' < h.2 -> id' <> id -> contents M' h.1 id' = contents M h.1 id') /\
  (forall v w, v ∈ ws ++ [h] -> has v.2 w -> node M' v.1 w = node M v.1 w).
Proof.
  intros Hf Hx Hid Hown HM. assert (Hh : h ∈ ws ++ [h]) by (apply elem_of_app; right; left).
  destruct (has_block _ _ Hid) as (_ & _ & H3 & _).
  assert (Hws : forall v a, v ∈ ws -> uses M v.1 v.2 a -> M' a = M a).
  { intros v a Hv Hu. apply HM. intros Ha. assert (Hv' : v ∈ ws ++ [h]) by (apply elem_of_app; by left).
    destruct (uses_block M _ X h v id a Hf Hx Hh Hv' ltac:(lia) H3 Ha Hu) as [Hs Hlt]. pose proof (Hown v Hv (shares_sym _ _ _ _ Hs)). lia. }
  assert (Hn : forall v w, v ∈ ws ++ [h] -> has v.2 w -> node M' v.1 w = node M v.1 w).
  { intros v w Hv Hw. apply (node_frame M M' v.1 v.2); [|done]. intros w' Hw' Hne. apply HM. by apply (slot_not_block M (ws ++ [h]) X h v w' id Hf Hx Hh Hv ltac:(lia)). }
  assert (Hb : forall id', 0 <= id' < h.2 -> block M' h.1 id' = block M h.1 id').
  { intros id' Hid'. unfold block. destruct (has_block _ _ Hid') as (_ & _ & H3' & _). pose proof (Hn h _ Hh H3') as En. cbn in En. by rewrite En. }
  split; [by apply (forest_nodes M)|]. split; [intros v Hv; apply keeps_frame; intros a; by apply Hws|]. split; [by apply Hb|]. split; [|done].
  intros id' Hid' Hne. unfold contents. rewrite Hb by done. apply load_ext. intros a Ha. apply HM. intros Ha'.
  destruct (block_same M _ X h h id id' a Hf Hx Hh Hh ltac:(lia) H3 Hid' Ha' Ha) as [_ ?]. done.
Qed.

(** *** Blocks are added to the newest view *)

Lemma below_convex w a b c : below w a -> below w c -> a <= b <= c -> below w b.
Proof.
  pose proof tree_sizes as (? & ? & _). assert (0 < P * K) by nia.
  destruct w as [|i|x]; cbn; [done|..]; intros Ha Hc Hb.
  - pose proof (Z.div_le_mono a b (P * K) ltac:(lia) ltac:(lia)). pose proof (Z.div_le_mono b c (P * K) ltac:(lia) ltac:(lia)). lia.
  - pose proof (Z.div_le_mono a b K ltac:(lia) ltac:(lia)). pose proof (Z.div_le_mono b c K ltac:(lia) ltac:(lia)). lia.
Qed.

(** The places above a block. *)
Definition path (w : place) (id : Z) : Prop := w = P1 \/ w = P2 (id / K / P) \/ w = P3 (id / K).

Lemma below_path w id : below w id -> path w id.
Proof.
  pose proof tree_sizes as (? & ? & _). unfold path. destruct w as [|i|x]; cbn; [by left|intros <-; right; left|intros <-; by right; right].
  by rewrite Z.div_div, (Z.mul_comm K P) by lia.
Qed.

Lemma start_parent w n : has n w -> below (parent w) (start w).
Proof.
  pose proof tree_sizes as (? & ? & _). destruct w as [|i|x]; intros [Hi Hn]; cbn in *; [done|done|].
  rewrite (Z.mul_comm P K), <- Z.div_div, Z.div_mul by lia. done.
Qed.

(** Within one extent the new places all begin with the first new block. *)
Lemma new_places n n' w : 0 <= n < n' -> n' <= (n / K + 1) * K -> has n' w -> ~ has n w -> start w = n.
Proof.
  pose proof tree_sizes as (? & ? & _). intros Hn Hn' [Hi Hs] Hno. assert (Hge : n <= start w) by (destruct (Z.lt_ge_cases (start w) n) as [Hlt|]; [by destruct Hno|done]).
  pose proof (Z.div_mod n K ltac:(lia)). pose proof (Z.mod_pos_bound n K ltac:(lia)).
  assert (Hdiv : exists q, start w = q * K).
  { destruct w as [|i|x]; cbn; [by exists 0|exists (i * P); lia|by exists x]. }
  destruct Hdiv as [q Eq]. assert (q = n / K) by nia. nia.
Qed.

(** Whether a block is the first one below the places above it. *)
Lemma first_block n : 0 <= n ->
  (n mod (P * K) = 0 -> n mod K = 0 /\ start (P2 (n / K / P)) = n) /\ (n mod K = 0 -> start (P3 (n / K)) = n) /\
  (n mod (P * K) <> 0 -> n <> 0 /\ has n (P2 (n / K / P))) /\ (n mod K <> 0 -> has n (P3 (n / K))).
Proof.
  pose proof tree_sizes as (? & ? & _). intros Hn. pose proof (Z.div_mod n K ltac:(lia)). pose proof (Z.mod_pos_bound n K ltac:(lia)).
  assert (Hd : n / K / P = n / (P * K)) by (by rewrite Z.div_div, (Z.mul_comm K P) by lia).
  pose proof (Z.div_mod n (P * K) ltac:(nia)). pose proof (Z.mod_pos_bound n (P * K) ltac:(nia)).
  unfold has. cbn [start]. rewrite Hd. split_and!.
  - intros E0. split; [|lia]. rewrite (Z.mul_comm P K), Z.rem_mul_r in E0 by lia. pose proof (Z.mod_pos_bound (n / K) P ltac:(lia)). nia.
  - lia.
  - intros Hne. split; [intros ->; by rewrite Z.mod_0_l in Hne by nia|]. split; [apply Z.div_pos; nia|nia].
  - intros Hne. split; [apply Z.div_pos; lia|lia].
Qed.

(** The new places are on the path of the first new block. *)
Lemma new_path n n' w : 0 <= n < n' -> n' <= (n / K + 1) * K -> has n' w -> ~ has n w ->
  (w = P1 /\ n = 0) \/ (w = P2 (n / K / P) /\ n mod (P * K) = 0) \/ (w = P3 (n / K) /\ n mod K = 0).
Proof.
  intros Hn Hn' Hw Hno. pose proof (new_places n n' w Hn Hn' Hw Hno) as Est. pose proof tree_sizes as (? & ? & _). destruct w as [|i|x]; cbn in Est; [by left|right; left|right; right].
  - assert (Hd : n / K / P = n / (P * K)) by (by rewrite Z.div_div, (Z.mul_comm K P) by lia). rewrite Hd, <- Est, Z.div_mul, Z.mod_mul by nia. done.
  - rewrite <- Est, Z.div_mul, Z.mod_mul by lia. done.
Qed.

(** The places that begin with a block. *)
Definition begun (n : Z) : list place :=
  (if n mod K =? 0 then [P3 (n / K)] else []) ++ (if n mod (P * K) =? 0 then [P2 (n / K / P)] else []) ++ (if n =? 0 then [P1] else []).

Lemma begun_spec n n' w : 0 <= n < n' -> n' <= (n / K + 1) * K -> w ∈ begun n <-> has n' w /\ ~ has n w.
Proof.
  intros Hn HK. unfold begun. rewrite !elem_of_app. destruct (first_block n ltac:(lia)) as (F1 & F2 & _). destruct (has_block n' n Hn) as (B1 & B2 & B3 & _). split.
  - intros Hw. assert (has n' w /\ start w = n) as [? Est]; [|split; [done|intros [_ ?]; lia]].
    destruct Hw as [Hw|[Hw|Hw]]; [destruct (Z.eqb_spec (n mod K) 0) as [Hz|]|destruct (Z.eqb_spec (n mod (P * K)) 0) as [Hz|]|destruct (Z.eqb_spec n 0) as [Hz|]];
      try (by apply elem_of_nil in Hw); apply list_elem_of_singleton in Hw as ->; (split; [done|]); [by apply F2|by apply F1|done].
  - intros [Hw Hno]. destruct (new_path n n' w Hn HK Hw Hno) as [[-> ->]|[[-> ->]|[-> ->]]]; [right; right|right; left|left]; left.
Qed.

Lemma begun_nodup n : NoDup (begun n).
Proof.
  unfold begun. destruct (n mod K =? 0), (n mod (P * K) =? 0), (n =? 0); cbn; repeat constructor; rewrite ?elem_of_cons, ?elem_of_nil; naive_solver.
Qed.

(** The slot of a place that no view has yet is not used. *)
Lemma new_slot_unused M ws h X w n' v : forest M (ws ++ [h]) X -> exts_ok X -> has h.2 (parent w) -> h.2 <= start w -> room n' -> has n' w -> w <> P1 ->
  v ∈ ws ++ [h] -> ~ uses M v.1 v.2 (slot M h.1 w).
Proof.
  intros Hf Hx Hp Hst Hr Hw Hne Hv Hu. assert (Hh : h ∈ ws ++ [h]) by (apply elem_of_app; right; left).
  destruct (uses_slot M _ X h v w n' Hf Hx Hh Hv Hp Hr Hw Hne Hu) as [Hs Hv2].
  apply list_elem_of_lookup in Hv as [i Hi]. pose proof Hi as Hi'. apply lookup_app_Some in Hi' as [Hi'|[_ Hi']].
  - pose proof (lookup_lt_Some _ _ _ Hi'). enough (start w < h.2) by lia.
    apply (fo_grow _ _ _ Hf i (length ws) v h (parent w) (start w)); try done; [by apply list_lookup_middle|by apply shares_sym| |by apply (start_parent w n')].
    destruct Hv2 as [_ Hlt]. split; [|done]. pose proof (fo_room _ _ _ Hf h Hh) as [? _]. lia.
  - apply list_lookup_singleton_Some in Hi' as [_ <-]. destruct Hv2 as [_ ?]. lia.
Qed.

Lemma has_dec n n' w : has n' w -> has n w \/ ~ has n w.
Proof. intros [Hi _]. destruct (decide (start w < n)); [left|right]; [by split|]. by intros [_ ?]. Qed.

Lemma forest_grow M ws r0 r n n' X Y : forest M (ws ++ [(r0, n)]) X -> (0 < n -> r0 = r) -> n <= n' -> room n' ->
  (forall w, has n' w -> ~ has n w -> node M r w ∈ Y) -> (forall p, p ∈ Y -> p ∉ X) ->
  (forall w w', has n' w -> ~ has n w -> has n' w' -> ~ has n w' -> node M r w = node M r w' -> w = w') ->
  forest M (ws ++ [(r, n')]) (Y ++ X).
Proof.
  intros Hf Hr Hle Hroom HY Hfresh Hinj. set (h := (r0, n)) in *. assert (Hh : h ∈ ws ++ [h]) by (apply elem_of_app; right; left).
  assert (Hold : forall v, v ∈ ws -> v ∈ ws ++ [h]) by (intros v Hv; apply elem_of_app; by left). pose proof (fo_room _ _ _ Hf h Hh) as [Hn0 _].
  assert (Hn : forall w, has n w -> node M r w = node M r0 w).
  { intros w [Hi Hlt]. rewrite Hr; [done|]. cbn [snd h] in *. pose proof tree_sizes as (? & ? & _). assert (0 < P * K) by nia. destruct w; cbn in *; nia. }
  apply (forest_head M M ws h (r, n') X (Y ++ X) Hf); cbn [fst snd]; [done|..].
  - intros v w Hv Hw. apply elem_of_app. right. by apply (fo_live _ _ _ Hf), Hw; apply Hold.
  - split; [cbn [snd h] in *; lia|done].
  - intros w Hw. apply elem_of_app. destruct (has_dec n n' w Hw) as [Ho|Ho]; [right|left; by apply HY]. rewrite Hn by done. by apply (fo_live _ _ _ Hf h).
  - intros w w' Hw Hw' E. destruct (has_dec n n' w Hw) as [Ho|Ho], (has_dec n n' w' Hw') as [Ho'|Ho'].
    + rewrite !Hn in E by done. by apply (fo_inj _ _ _ Hf h w h w').
    + rewrite (Hn w Ho) in E. destruct (Hfresh (node M r w') (HY w' Hw' Ho')). rewrite <- E. by apply (fo_live _ _ _ Hf h).
    + rewrite (Hn w' Ho') in E. destruct (Hfresh (node M r w) (HY w Hw Ho)). rewrite E. by apply (fo_live _ _ _ Hf h).
    + by apply Hinj.
  - intros v w w' Hv Hw Hw' E. destruct (has_dec n n' w' Hw') as [Ho|Ho].
    + rewrite Hn in E by done. pose proof (fo_inj _ _ _ Hf v w h w' (Hold v Hv) Hh Hw Ho E) as <-. split; [|done]. split_and!; [done|done|]. done.
    + destruct (Hfresh (node M r w') (HY w' Hw' Ho)). rewrite <- E. apply (fo_live _ _ _ Hf); [by apply Hold|done].
  - intros v w id Hv Hs _ Hid Hb _. enough (id < n) by lia. apply list_elem_of_lookup in Hv as [i Hi].
    apply (fo_grow _ _ _ Hf i (length ws) v h w id); try done; [by eapply lookup_lt_Some|apply lookup_app_Some; by left|by apply list_lookup_middle].
Qed.

(** *** Blocks are removed from the newest view *)

(** The previous view shares what any older one shares. *)
Lemma shares_prev M ws p h X v w : forest M ((ws ++ [p]) ++ [h]) X -> v ∈ ws ++ [p] -> shares M v h w -> shares M p h w.
Proof.
  intros Hf Hv Hs. apply list_elem_of_lookup in Hv as [i Hi]. pose proof (lookup_lt_Some _ _ _ Hi) as Hlt. rewrite length_app in Hlt. cbn in Hlt.
  assert (Hp : ((ws ++ [p]) ++ [h]) !! length ws = Some p) by (rewrite <- app_assoc; by apply list_lookup_middle).
  destruct (decide (i = length ws)) as [->|Hne].
  - rewrite list_lookup_middle in Hi by done. by injection Hi as <-.
  - assert (Hsp : shares M v p w).
    { apply (fo_mid _ _ _ Hf i (length ws) (length (ws ++ [p])) v p h w); try done; [rewrite length_app; cbn; lia|apply lookup_app_Some; by left|by apply list_lookup_middle]. }
    apply (shares_trans M p v); [by apply shares_sym|done].
Qed.

Lemma forest_shrink M ws r n m X : forest M (ws ++ [(r, n)]) X -> 0 <= m <= n ->
  (forall v w id, v ∈ ws -> shares M v (r, n) w -> has m w -> 0 <= id < v.2 -> below w id -> id < m) -> forest M (ws ++ [(r, m)]) X.
Proof.
  intros Hf Hm Hg. set (h := (r, n)) in *. assert (Hh : h ∈ ws ++ [h]) by (apply elem_of_app; right; left).
  assert (Hold : forall v, v ∈ ws -> v ∈ ws ++ [h]) by (intros v Hv; apply elem_of_app; by left). pose proof (fo_room _ _ _ Hf h Hh) as [_ Hr].
  assert (Hhas : forall w, has m w -> has n w) by (intros w Hw; apply (has_mono m); [done|lia]).
  apply (forest_head M M ws h (r, m) X X Hf); cbn [fst snd]; [done|..].
  - intros v w Hv Hw. by apply (fo_live _ _ _ Hf), Hw; apply Hold.
  - split; [lia|]. unfold room in *. cbn [snd h] in *. lia.
  - intros w Hw. apply (fo_live _ _ _ Hf h w Hh). by apply Hhas.
  - intros w w' Hw Hw' E. apply (fo_inj _ _ _ Hf h w h w'); try done; by apply Hhas.
  - intros v w w' Hv Hw Hw' E. pose proof (fo_inj _ _ _ Hf v w h w' (Hold v Hv) Hh Hw (Hhas _ Hw') E) as <-. split; [|done]. split_and!; [done|by apply Hhas|done].
  - intros v w id Hv Hs Hw Hid Hb _. by apply (Hg v w id).
Qed.

(** The newest view has its own copies above a block that the previous one has. *)
Definition owned_path (M : memory) (p h : Z * Z) (id : Z) : Prop :=
  has p.2 (P3 (id / K)) -> forall w, path w id -> ~ shares M p h w.

Lemma owned_shrink M ws r n m X p : forest M ((ws ++ [p]) ++ [(r, n)]) X -> 0 <= m < n -> owned_path M p (r, n) m ->
  forest M ((ws ++ [p]) ++ [(r, m)]) X /\
  (forall v w, v ∈ ws ++ [p] -> shares M v (r, n) w -> start w <> m).
Proof.
  intros Hf Hm Ho. set (h := (r, n)) in *. pose proof tree_sizes as (? & ? & _).
  assert (Hp : p ∈ (ws ++ [p]) ++ [h]) by (rewrite !elem_of_app; left; right; left).
  assert (H3 : m < p.2 -> has p.2 (P3 (m / K))).
  { intros Hlt. pose proof (Z.mul_div_le m K ltac:(lia)). split; cbn; [apply Z.div_pos; lia|lia]. }
  split.
  - apply (forest_shrink M (ws ++ [p]) r n m X Hf); [lia|]. intros v w id Hv Hs Hw Hid Hb. destruct (Z.lt_ge_cases id m) as [|Hge]; [done|exfalso].
    pose proof (shares_prev M ws p h X v w Hf Hv Hs) as Hsp.
    assert (Hidp : id < p.2).
    { apply list_elem_of_lookup in Hv as [i Hi]. pose proof (lookup_lt_Some _ _ _ Hi) as Hlt. rewrite length_app in Hlt. cbn in Hlt.
      destruct (decide (i = length ws)) as [->|Hne]; [rewrite list_lookup_middle in Hi by done; injection Hi as <-; lia|].
      apply (fo_grow _ _ _ Hf i (length ws) v p w id); try done; [lia|apply lookup_app_Some; by left|rewrite <- app_assoc; by apply list_lookup_middle|].
      apply (shares_trans M v h); [done|by apply shares_sym]. }
    apply (Ho (H3 ltac:(lia)) w); [|done]. apply below_path, (below_convex w (start w) m id); [by apply (start_below w m)|done|]. destruct Hw as [_ ?]. lia.
  - intros v w Hv Hs Est. pose proof (shares_prev M ws p h X v w Hf Hv Hs) as Hsp. pose proof Hsp as (Hwp & Hwh & _). destruct Hwp as [Hi Hlt].
    apply (Ho (H3 ltac:(lia)) w); [|done]. apply below_path. rewrite <- Est. by apply (start_below w p.2).
Qed.

(** *** Views come and go *)

Lemma forest_sub M vs vs' X (f : nat -> nat) : forest M vs X -> (forall i v, vs' !! i = Some v -> vs !! f i = Some v) ->
  (forall i j, (i < j)%nat -> (f i < f j)%nat) -> forest M vs' X.
Proof.
  intros [F1 F2 F3 F4 F5] Hf Hmono. assert (Hel : forall v, v ∈ vs' -> v ∈ vs).
  { intros v Hv. apply list_elem_of_lookup in Hv as [i Hi]. apply list_elem_of_lookup. exists (f i). by apply Hf. }
  split; [intros v Hv; exact (F1 v (Hel v Hv))|intros v w Hv; exact (F2 v w (Hel v Hv))|intros v w v' w' Hv Hv'; exact (F3 v w v' w' (Hel v Hv) (Hel v' Hv'))|..].
  - intros i j k a b c w [Hij Hjk] Ha Hb Hc. apply (F4 (f i) (f j) (f k)); [split; by apply Hmono|by apply Hf..].
  - intros i k a c w id Hik Ha Hc. apply (F5 (f i) (f k)); [by apply Hmono|by apply Hf..].
Qed.

Lemma forest_remove M l1 v l2 X : forest M (l1 ++ v :: l2) X -> forest M (l1 ++ l2) X.
Proof.
  intros Hf. apply (forest_sub M _ _ X (fun i => if decide (i < length l1)%nat then i else S i) Hf).
  - intros i u Hi. apply lookup_app_Some in Hi as [Hi|[Hge Hi]].
    + pose proof (lookup_lt_Some _ _ _ Hi). rewrite decide_True by done. apply lookup_app_Some. by left.
    + rewrite decide_False by lia. apply lookup_app_Some. right. split; [lia|]. by replace (S i - length l1)%nat with (S (i - length l1)) by lia.
  - intros i j Hij. destruct (decide _), (decide _); lia.
Qed.

Lemma forest_dup M ws h X : forest M (ws ++ [h]) X -> forest M ((ws ++ [h]) ++ [h]) X.
Proof.
  intros [F1 F2 F3 F4 F5]. set (vs := ws ++ [h]) in *.
  assert (Hel : forall v, v ∈ vs ++ [h] -> v ∈ vs).
  { intros v [Hv|Hv]%elem_of_app; [done|]. apply list_elem_of_singleton in Hv as ->. apply elem_of_app. right. left. }
  assert (Hlen : length vs = S (length ws)) by (unfold vs; rewrite length_app; cbn; lia).
  assert (Hlast : vs !! length ws = Some h) by by apply list_lookup_middle.
  assert (Hcase : forall i v, (vs ++ [h]) !! i = Some v -> vs !! i = Some v /\ (i < length vs)%nat \/ v = h /\ i = length vs).
  { intros i v Hi. apply lookup_app_Some in Hi as [Hi|[Hge Hi]]; [left; split; [done|by eapply lookup_lt_Some]|].
    apply list_lookup_singleton_Some in Hi as [? <-]. right. split; [done|lia]. }
  split; [intros v Hv; exact (F1 v (Hel v Hv))|intros v w Hv; exact (F2 v w (Hel v Hv))|intros v w v' w' Hv Hv'; exact (F3 v w v' w' (Hel v Hv) (Hel v' Hv'))|..].
  - intros i j k a b c w [Hij Hjk] Ha Hb Hc Hs. destruct (Hcase i a Ha) as [[Ha' ?]|[_ ?]]; [|apply lookup_lt_Some in Hc; rewrite length_app in Hc; cbn in Hc; lia].
    destruct (Hcase j b Hb) as [[Hb' ?]|[_ ?]]; [|apply lookup_lt_Some in Hc; rewrite length_app in Hc; cbn in Hc; lia].
    destruct (Hcase k c Hc) as [[Hc' ?]|[-> ->]]; [by apply (F4 i j k a b c w)|].
    destruct (decide (j = length ws)) as [->|Hne]; [rewrite Hlast in Hb'; injection Hb' as <-; done|]. apply (F4 i j (length ws) a b h w); try done. lia.
  - intros i k a c w id Hik Ha Hc Hs Hid Hb. destruct (Hcase i a Ha) as [[Ha' ?]|[_ ?]]; [|apply lookup_lt_Some in Hc; rewrite length_app in Hc; cbn in Hc; lia].
    destruct (Hcase k c Hc) as [[Hc' ?]|[-> ->]]; [by apply (F5 i k a c w id)|].
    destruct (decide (i = length ws)) as [->|Hne]; [rewrite Hlast in Ha'; injection Ha' as <-; lia|]. apply (F5 i (length ws) a h w id); try done. lia.
Qed.
End Tree.
