(* ===== verification/MatrasInv.v ===== *)
(** * The state of an instance of [Matras]

    The invariant that ties the views, the extents and the allocator together,
    and what the operations that get, copy and free extents do to it. *)
From S2P Require Import Prelude Util Bytes Matras MatrasTree.

(** What the functions of the user promise: [inv n e L] says that the extents [L]
    of [n] bytes are handed out. *)
Class ExtentLaws {E : Type} `{!ExtentAllocator E} (inv : Z -> E -> list Z -> Prop) : Prop := {
  ext_apart n e L : inv n e L ->
    NoDup L /\ (forall p, p ∈ L -> 0 < p) /\ (forall p q, p ∈ L -> q ∈ L -> p <> q -> p + n <= q \/ q + n <= p);
  ext_alloc n e L : inv n e L ->
    exists p e', alloc_func e = (p, e') /\ ((p = NULL /\ inv n e' L) \/ (0 < p /\ inv n e' (p :: L)));
  ext_free n e L p L' : inv n e L -> L ≡ₚ p :: L' -> exists e', free_func e p = Some e' /\ inv n e' L';
  ext_perm n e L L' : inv n e L -> L ≡ₚ L' -> inv n e L';
}.

Section Inv.
Context {E : Type} `{!ExtentAllocator E} {einv : Z -> E -> list Z -> Prop} `{!ExtentLaws einv}.
Context (lp lk lb : Z) (Hlp : 1 <= lp) (Hlk : 0 <= lk) (Hlb : 0 <= lb) (Hes : lk + lb = lp + 3) (H32 : lp + lk < 32) (Hes32 : lp + 3 < 32).
Local Abbreviation P := (2 ^ lp).
Local Abbreviation K := (2 ^ lk).
Local Abbreviation bs := (2 ^ lb).
Local Abbreviation es := (2 ^ (lp + 3)).
Local Abbreviation matras_state := (matras_state (E:=E)).
Local Abbreviation node := (node lp).
Local Abbreviation slot := (slot lp).
Local Abbreviation has := (has lp lk).
Local Abbreviation shares := (shares lp lk).
Local Abbreviation forest := (forest lp lk).
Local Abbreviation exts_ok := (exts_ok lp).
Local Abbreviation parent := (parent lp).
Local Abbreviation keeps := (keeps lp lk lb).
Local Abbreviation contents := (contents lp lk lb).
Local Abbreviation block := (block lp lk lb).

(** ** Extents and the allocator *)

(** The reserved extents are linked by their first words. *)
Fixpoint chain (M : memory) (p : Z) (R : list Z) : Prop :=
  match R with [] => True | q :: R => p = q /\ chain M (M q) R end.

(** [X] are the extents in use, [R] the reserved ones. *)
Record res (s : matras_state) (X R : list Z) : Prop := {
  rs_ext : einv es (external (allocator s)) (R ++ X);
  rs_chain : chain (mem s) (reserved_extents (allocator s)) R;
  rs_num : num_reserved_extents (allocator s) = Z.of_nat (length R);
  rs_count : extent_count (inst s) = u32 (Z.of_nat (length X));
}.

(** What getting and freeing extents does not change. *)
Definition geom (m : matras) : Z * Z * Z * Z * Z * Z * Z :=
  (block_size m, extent_size m, capacity m, shift1 m, shift2 m, mask1 m, mask2 m).
Definition core (s : matras_state) : _ := (geom (inst s), head (inst s), self s, views s, mem s).

Lemma core_proj (s s' : matras_state) : core s' = core s ->
  geom (inst s') = geom (inst s) /\ head (inst s') = head (inst s) /\ self s' = self s /\ views s' = views s /\ mem s' = mem s.
Proof. unfold core. intros H. split_and!; congruence. Qed.

Lemma res_exts s X R : res s X R -> exts_ok (R ++ X).
Proof. intros Hr. exact (ext_apart _ _ _ (rs_ext _ _ _ Hr)). Qed.

Lemma exts_sub L L' : exts_ok L -> (forall p, p ∈ L' -> p ∈ L) -> NoDup L' -> exts_ok L'.
Proof.
  intros (H1 & H2 & H3) Hsub Hnd. split_and!; [done|intros p Hp; by apply H2, Hsub|]. intros p q Hp Hq. apply H3; by apply Hsub.
Qed.

Lemma exts_app_r R X : exts_ok (R ++ X) -> exts_ok X.
Proof.
  intros Hx. apply (exts_sub (R ++ X)); [done|intros p Hp; apply elem_of_app; by right|]. destruct Hx as (Hnd & _). by apply NoDup_app in Hnd as (_ & _ & ?).
Qed.

Lemma alloc_extent_spec s X R : res s X R ->
  exists p s', matras_alloc_extent s = (p, s') /\ core s' = core s /\
    ((p = NULL /\ R = [] /\ res s' X []) \/
     exists R', 0 < p /\ res s' (p :: X) R' /\ (length R <= length R' + 1)%nat).
Proof.
  intros [H1 H2 H3 H4]. unfold matras_alloc_extent, matras_allocator_alloc. rewrite H3. destruct R as [|q R].
  - cbn [length]. destruct (ext_alloc _ _ _ H1) as (p & e' & Ea & H). rewrite Ea. change (Z.of_nat 0 >? 0) with false. cbv iota beta.
    destruct H as [[-> He]|[Hp He]].
    + cbn [Z.eqb negb]. eexists _, _. split; [done|]. split; [done|]. left. split_and!; [done|done|]. by split.
    + rewrite (proj2 (Z.eqb_neq p NULL)) by lia. cbn [negb]. eexists _, _. split; [done|]. split; [done|]. right. exists []. split_and!; [done| |cbn; lia].
      split; try done. cbn [set_stats set_extent_count set_allocator inst extent_count]. rewrite H4. unfold u32. rewrite Z.add_mod_idemp_l by lia. f_equal. cbn. lia.
  - destruct H2 as [Eq H2]. rewrite (proj2 (Z.gtb_lt _ 0)) by (cbn; lia). rewrite Eq.
    destruct (ext_apart _ _ _ H1) as (_ & Hpos & _). assert (0 < q) by (apply Hpos; left). rewrite (proj2 (Z.eqb_neq q NULL)) by lia. cbn [negb].
    eexists _, _. split; [done|]. split; [done|]. right. exists R. split_and!; [done| |cbn; lia]. split.
    + cbn [set_stats set_extent_count set_allocator allocator external]. apply (ext_perm _ _ _ _ H1). apply Permutation_middle.
    + done.
    + cbn [set_stats set_extent_count set_allocator allocator num_reserved_extents length]. lia.
    + cbn [set_stats set_extent_count set_allocator inst extent_count]. rewrite H4. unfold u32. rewrite Z.add_mod_idemp_l by lia. f_equal. cbn [length]. lia.
Qed.

Lemma free_extent_spec s X R p X' : res s X R -> X ≡ₚ p :: X' ->
  exists s', matras_free_extent s p = Some s' /\ core s' = core s /\ res s' X' R.
Proof.
  intros [H1 H2 H3 H4] HP. unfold matras_free_extent, matras_allocator_free.
  destruct (ext_free _ _ _ p (R ++ X') H1) as (e' & -> & He). { rewrite HP. symmetry. apply Permutation_middle. }
  cbn [mbind option_bind]. eexists. split; [done|]. split; [done|]. split; try done.
  cbn [set_stats set_extent_count set_allocator inst extent_count]. rewrite H4, HP. unfold u32. rewrite Zminus_mod_idemp_l. f_equal. cbn [length]. lia.
Qed.

Lemma free_read_view_extent_spec s X R p X' : res s X R -> X ≡ₚ p :: X' ->
  exists s', matras_free_read_view_extent s p = Some s' /\ core s' = core s /\ res s' X' R.
Proof.
  intros Hr HP. unfold matras_free_read_view_extent. destruct (free_extent_spec s X R p X' Hr HP) as (s' & -> & Ec & Hr'). cbn [mbind option_bind].
  eexists. split; [done|]. split; [done|]. destruct Hr'. by split.
Qed.

(** Memory changes away from the reserved extents. *)
Lemma reserved_frame M M' p R : (forall q, q ∈ R -> M' q = M q) -> chain M p R -> chain M' p R.
Proof.
  revert p. induction R as [|q R IH]; intros p HM; [done|]. cbn. intros [-> Hc]. split; [done|]. rewrite (HM q) by left. apply IH; [|done].
  intros x Hx. apply HM. by right.
Qed.

Lemma res_mem s X R M : res s X R -> (forall q, q ∈ R -> M q = mem s q) -> res (set_mem s M) X R.
Proof. intros [H1 H2 H3 H4] HM. split; try done. by apply (reserved_frame (mem s)). Qed.

Lemma res_head s X R h : res s X R -> res (set_head s h) X R.
Proof. intros [H1 H2 H3 H4]. by split. Qed.

Lemma res_core s s' X R : res s X R -> core s' = core s -> allocator s' = allocator s -> extent_count (inst s') = extent_count (inst s) -> res s' X R.
Proof. intros [H1 H2 H3 H4] Hc Ea Ee. apply core_proj in Hc as (_ & _ & _ & _ & Em). split; rewrite ?Ea, ?Ee, ?Em; done. Qed.

(** ** The invariant *)

(** The constants of [matras_create]. *)
Definition geo (m : matras) : Prop :=
  block_size m = bs /\ extent_size m = es /\ shift1 m = lp + lk /\ shift2 m = lk /\ mask1 m = 2 ^ (lp + lk) - 1 /\ mask2 m = 2 ^ lk - 1 /\
  0 < capacity m <= 2 ^ 32 /\ capacity m <= P * P * K.

(** The read views, at the addresses [ads] from the oldest to the newest, are linked. *)
Definition prev_of (ads : list Z) (i : nat) : Z := match i with O => NULL | S j => default NULL (ads !! j) end.
Definition next_of (self : Z) (ads : list Z) (i : nat) : Z := default self (ads !! S i).
Record linked (s : matras_state) (ads : list Z) (ws : list (Z * Z)) : Prop := {
  li_nodup : NoDup ads;
  li_addr a : a ∈ self s :: ads -> a <> NULL;
  li_self : self s ∉ ads;
  li_length : length ws = length ads;
  li_view i a : ads !! i = Some a -> exists v, views s !! a = Some v /\ ws !! i = Some (root v, block_count v) /\
    prev_view v = prev_of ads i /\ next_view v = next_of (self s) ads i;
  li_head : prev_view (head (inst s)) = prev_of ads (length ads);
}.

Definition top (s : matras_state) : Z * Z := (root (head (inst s)), block_count (head (inst s))).

Record minv (s : matras_state) (ads : list Z) (ws : list (Z * Z)) (X R : list Z) : Prop := {
  mi_geo : geo (inst s);
  mi_linked : linked s ads ws;
  mi_forest : forest (mem s) (ws ++ [top s]) X;
  mi_res : res s X R;
  mi_count : 0 <= block_count (head (inst s)) <= capacity (inst s);
  mi_cap v : v ∈ ws -> v.2 <= capacity (inst s);
}.

Lemma linked_core s s' ads ws : linked s ads ws -> self s' = self s -> views s' = views s ->
  prev_view (head (inst s')) = prev_view (head (inst s)) -> linked s' ads ws.
Proof. intros [L1 L2 L3 L4 L5 L6] Es Ev Eh. split; rewrite ?Es, ?Ev, ?Eh; done. Qed.

Lemma minv_core s s' ads ws X R X' R' : minv s ads ws X R -> core s' = core s -> res s' X' R' ->
  (forall p, p ∈ X -> p ∈ X') -> minv s' ads ws X' R'.
Proof.
  intros [M1 M2 M3 M4 M5 M6] Hc Hr Hsub. apply core_proj in Hc as (Eg & Eh & Es & Ev & Em). unfold geom in Eg. split.
  - injection Eg as E1 E2 E3 E4 E5 E6 E7. unfold geo. by rewrite E1, E2, E3, E4, E5, E6, E7.
  - apply (linked_core s); congruence.
  - unfold top. rewrite Eh, Em. fold (top s). apply (forest_live lp lk (mem s) _ X X' M3). intros v w Hv Hw. by apply Hsub, (fo_live _ _ _ _ _ M3).
  - done.
  - injection Eg as _ _ E3 _ _ _ _. by rewrite Eh, E3.
  - injection Eg as _ _ E3 _ _ _ _. by rewrite E3.
Qed.

(** The view before the newest one. *)
Lemma prev_view_spec s ads ws X R : minv s ads ws X R -> prev_view (head (inst s)) <> NULL ->
  exists ws0 pv, ws = ws0 ++ [(root pv, block_count pv)] /\ get_view s (prev_view (head (inst s))) = Some pv.
Proof.
  intros Hm Hne. destruct (mi_linked _ _ _ _ _ Hm) as [L1 L2 L3 L4 L5 L6]. rewrite L6 in Hne. rewrite L6. clear L6.
  destruct (length ads) as [|n] eqn:El; [done|]. cbn [prev_of] in *.
  destruct (lookup_lt_is_Some_2 ads n) as [a Ha]; [lia|]. rewrite Ha. cbn [default from_option id]. destruct (L5 n a Ha) as (pv & Hv & Hw & _).
  unfold get_view. rewrite (proj2 (Z.eqb_neq a (self s))) by (intros ->; apply L3; by eapply list_elem_of_lookup_2).
  exists (take n ws), pv. split; [|done]. rewrite <- (take_drop n ws) at 1. f_equal. rewrite (drop_S _ _ _ Hw), drop_ge by lia. done.
Qed.

Lemma no_prev_view s ads ws X R : minv s ads ws X R -> prev_view (head (inst s)) = NULL -> ws = [].
Proof.
  intros Hm Ep. destruct (mi_linked _ _ _ _ _ Hm) as [L1 L2 L3 L4 L5 L6]. rewrite L6 in Ep. destruct (length ads) as [|n] eqn:El; [by apply nil_length_inv|].
  cbn [prev_of] in Ep. destruct (lookup_lt_is_Some_2 ads n) as [a Ha]; [lia|]. rewrite Ha in Ep. cbn in Ep.
  destruct (L2 a); [right; by eapply list_elem_of_lookup_2|done].
Qed.

(** *** Address translation *)

Lemma split_id m id : geo m -> 0 <= id < 2 ^ 32 ->
  Z.shiftr id (shift1 m) = id / K / P /\ Z.shiftr (Z.land id (mask1 m)) (shift2 m) = (id / K) mod P /\ Z.land id (mask2 m) = id mod K /\
  u32 (id mod K * block_size m) = id mod K * bs /\ Z.land (Z.land id (mask1 m)) (mask2 m) = id mod K /\ Z.land id (mask1 m) = id mod (P * K).
Proof.
  intros (-> & _ & -> & -> & -> & -> & _) Hid. pose proof (tree_sizes lp lk lb Hlp Hlk Hlb Hes) as (? & ? & ? & ? & Ees).
  assert (EPK : 2 ^ (lp + lk) = P * K) by (by rewrite Z.pow_add_r by lia).
  assert (Hm1 : Z.land id (2 ^ (lp + lk) - 1) = id mod (P * K)) by (rewrite land_mask by lia; by rewrite EPK).
  assert (Hmod : id mod (P * K) = K * ((id / K) mod P) + id mod K) by (rewrite (Z.mul_comm P K), Z.rem_mul_r by lia; lia).
  pose proof (Z.mod_pos_bound id K ltac:(lia)) as Hb. split_and!.
  - rewrite shiftr_div by lia. rewrite EPK. rewrite Z.div_div by lia. f_equal. lia.
  - rewrite Hm1, shiftr_div, Hmod by lia. rewrite Z.add_comm, (Z.mul_comm K), Z.div_add, Z.div_small by lia. done.
  - by apply land_mask.
  - apply u32_small. pose proof (pow2_mono (lp + 3) 31 ltac:(lia)). nia.
  - rewrite Hm1, Hmod, land_mask by lia. rewrite Z.add_comm, (Z.mul_comm K), Z.mod_add, Z.mod_mod by lia. done.
  - done.
Qed.

Lemma id_range s ads ws X R id : minv s ads ws X R -> 0 <= id < block_count (head (inst s)) -> 0 <= id < 2 ^ 32.
Proof. intros Hm Hid. destruct (mi_count _ _ _ _ _ Hm). destruct (mi_geo _ _ _ _ _ Hm) as (_ & _ & _ & _ & _ & _ & Hc & _). lia. Qed.

Lemma get_no_check_spec (s : matras_state) v id : geo (inst s) -> 0 <= id < 2 ^ 32 -> id < block_count v ->
  matras_view_get_no_check s v id = Some (block (mem s) (root v) id).
Proof.
  intros Hg Hid Hlt. unfold matras_view_get_no_check. rewrite (proj2 (Z.ltb_lt _ _)) by done.
  destruct (split_id (inst s) id Hg Hid) as (-> & -> & -> & -> & _). done.
Qed.
End Inv.
