(* ===== verification/MatrasOps.v ===== *)
(** * The operations on blocks of [Matras]

    What [matras_touch], [matras_alloc], [matras_dealloc] and the reservation of
    extents do to the invariant. *)
From S2P Require Import Prelude Util Bytes Matras MatrasTree MatrasInv.

Section Ops.
Context {E : Type} `{!ExtentAllocator E} {einv : Z -> E -> list Z -> Prop} `{!ExtentLaws einv}.
Context (lp lk lb : Z) (Hlp : 1 <= lp) (Hlk : 0 <= lk) (Hlb : 0 <= lb) (Hes : lk + lb = lp + 3) (H32 : lp + lk < 32) (Hes32 : lp + 3 < 32).
Local Abbreviation T f := (f lp lk lb Hlp Hlk Hlb Hes) (only parsing).
Local Abbreviation P := (2 ^ lp).
Local Abbreviation K := (2 ^ lk).
Local Abbreviation bs := (2 ^ lb).
Local Abbreviation es := (2 ^ (lp + 3)).
Local Abbreviation matras_state := (matras_state (E:=E)).
Local Abbreviation node := (node lp).
Local Abbreviation slot := (slot lp).
Local Abbreviation has := (has lp lk).
Local Abbreviation shares := (shares lp lk).
Local Abbreviation forest := (forest lp lk).
Local Abbreviation exts_ok := (exts_ok lp).
Local Abbreviation parent := (parent lp).
Local Abbreviation keeps := (keeps lp lk lb).
Local Abbreviation contents := (contents lp lk lb).
Local Abbreviation block := (block lp lk lb).
Local Abbreviation res := (res (einv:=einv) lp).
Local Abbreviation minv := (minv (einv:=einv) lp lk lb).
Local Abbreviation geo := (geo lp lk lb).

(** ** Copying an extent *)

Lemma reserved_apart R X q p a : exts_ok (R ++ X) -> q ∈ R -> p ∈ X -> p <= a < p + es -> a <> q.
Proof.
  intros Hx Hq Hp Ha ->. pose proof Hx as (Hnd & _). pose proof (pow2_pos (lp + 3) ltac:(lia)).
  assert (p = q) as ->.
  { apply (same_ext lp Hlp (R ++ X) p q q Hx); [apply elem_of_app; by right|apply elem_of_app; by left|done|lia]. }
  apply NoDup_app in Hnd as (_ & Hnd & _). by apply (Hnd q Hq).
Qed.

Lemma app_exts R X p : exts_ok (R ++ p :: X) -> (forall q, q ∈ R -> ~ p <= q < p + es) /\ exts_ok (p :: X).
Proof.
  intros Hx. split; [|by apply (exts_app_r lp R)]. intros q Hq Hin. by apply (reserved_apart R (p :: X) q p q Hx); [|left|..].
Qed.

Lemma copy_extent_spec s X R ext : res s X R -> ext ∈ X -> extent_size (inst s) = es ->
  exists p s', matras_copy_read_view_extent s ext = Some (p, s') /\
    ((p = NULL /\ R = [] /\ core s' = core s /\ res s' X []) \/
     exists R', 0 < p /\ core s' = core (set_mem s (memmove (mem s) p ext es)) /\ res s' (p :: X) R' /\ (length R <= length R' + 1)%nat).
Proof.
  intros Hr Hext Ees. unfold matras_copy_read_view_extent. destruct (alloc_extent_spec lp s X R Hr) as (p & s1 & -> & Ec & H).
  apply core_proj in Ec as (Eg & Eh & Eself & Ev & Em). destruct H as [(-> & -> & Hr1)|(R' & Hp & Hr1 & Hlen)].
  - cbn [Z.eqb negb]. eexists _, _. split; [done|]. left. split_and!; [done|done| |done]. unfold core. congruence.
  - rewrite (proj2 (Z.eqb_neq p NULL)) by lia. cbn [negb]. destruct (app_exts R' X p (res_exts lp _ _ _ Hr1)) as [Hres Hx1].
    assert (E1 : extent_size (inst s1) = es) by (unfold geom in Eg; congruence). rewrite E1, Em.
    rewrite memcpy_apart.
    2:{ right. destruct Hx1 as (Hnd & _ & Ha). apply NoDup_cons in Hnd as [Hnd _]. apply Ha; [left|by right|]. intros ->. done. }
    cbn [mbind option_bind]. eexists _, _. split; [done|]. right. exists R'. split_and!; [done| | |done].
    + unfold core. cbn [set_stats set_mem inst self views mem]. congruence.
    + apply (res_core lp (set_mem s1 (memmove (mem s) p ext es))); [|done|done|done]. apply (res_mem lp s1); [done|].
      intros q Hq. rewrite Em. apply memmove_outside. by apply Hres.
Qed.

(** ** A step of [matras_touch_no_check] *)

(** How the copy at a place is linked. *)
Definition link (s : matras_state) (w : place) : matras_state -> Z -> matras_state :=
  match w with
  | P1 => fun s e => set_head s (set_root (head (inst s)) e)
  | _ => fun s' e => store_ptr s' (slot (mem s) (root (head (inst s))) w) e
  end.

(** All views but the roots of the newest one are the same, with their contents. *)
Record evolves (s s' : matras_state) (ws : list (Z * Z)) : Prop := {
  ev_geom : geom (inst s') = geom (inst s);
  ev_self : self s' = self s;
  ev_views : views s' = views s;
  ev_head : head (inst s') = set_root (head (inst s)) (root (head (inst s')));
  ev_top : keeps (mem s) (mem s') (top s) (top s');
  ev_ws v : v ∈ ws -> keeps (mem s) (mem s') v v;
}.

Lemma evolves_refl s ws : evolves s s ws.
Proof. split; try done. by destruct (head (inst s)). Qed.

Lemma evolves_trans s1 s2 s3 ws : evolves s1 s2 ws -> evolves s2 s3 ws -> evolves s1 s3 ws.
Proof.
  intros [A1 A2 A3 A4 A5 A6] [B1 B2 B3 B4 B5 B6]. assert (Eh : head (inst s3) = set_root (head (inst s1)) (root (head (inst s3)))) by (rewrite B4 at 1; rewrite A4; done).
  split; [congruence|congruence|congruence|done| |].
  - intros id Hid. rewrite <- (A5 id Hid). apply B5. unfold top in *. rewrite A4. exact Hid.
  - intros v Hv id Hid. rewrite <- (A6 v Hv id Hid). by apply B6.
Qed.

Lemma evolves_core s s' ws : core s' = core s -> evolves s s' ws.
Proof.
  intros Hc. apply core_proj in Hc as (Eg & Eh & Es & Ev & Em). split; try done.
  - rewrite Eh. by destruct (head (inst s)).
  - unfold top. rewrite Eh, Em. done.
  - rewrite Em. done.
Qed.

Lemma geo_geom m m' : geom m' = geom m -> geo m -> geo m'.
Proof. intros Eg. injection Eg as E1 E2 E3 E4 E5 E6 E7. unfold MatrasInv.geo. by rewrite E1, E2, E3, E4, E5, E6, E7. Qed.

(** The result of a step at place [w]. *)
Record stepped (s s' : matras_state) (ws : list (Z * Z)) (w : place) (e : Z) : Prop := {
  sp_ev : evolves s s' ws;
  sp_node w' : has (top s).2 w' -> node (mem s') (top s').1 w' = if decide (w' = w) then e else node (mem s) (top s).1 w';
  sp_ws v w' : v ∈ ws -> has v.2 w' -> node (mem s') v.1 w' = node (mem s) v.1 w';
}.

Lemma minv_step s s' ads ws X R X' R' : minv s ads ws X R -> evolves s s' ws -> forest (mem s') (ws ++ [top s']) X' -> res s' X' R' -> minv s' ads ws X' R'.
Proof.
  intros [M1 M2 M3 M4 M5 M6] Hev Hf Hr. destruct Hev as [E1 E2 E3 E4 _ _]. split; [by apply (geo_geom (inst s))| |done|done| |].
  - apply (linked_core s); [done|done|done|by rewrite E4].
  - rewrite E4. cbn [set_root block_count]. injection E1 as _ _ Ec _ _ _ _. by rewrite Ec.
  - injection E1 as _ _ Ec _ _ _ _. by rewrite Ec.
Qed.

Lemma copied_step s ads ws0 pv X R w e s1 R' : minv s ads (ws0 ++ [pv]) X R -> has (top s).2 w -> has pv.2 w ->
  node (mem s) (top s).1 w = node (mem s) pv.1 w -> (w <> P1 -> ~ shares (mem s) pv (top s) (parent w)) ->
  core s1 = core (set_mem s (memmove (mem s) e (node (mem s) (top s).1 w) es)) -> res s1 (e :: X) R' ->
  minv (link s w s1 e) ads (ws0 ++ [pv]) (e :: X) R' /\ stepped s (link s w s1 e) (ws0 ++ [pv]) w e.
Proof.
  intros Hm Hw Hpw Esh Hpriv Hc Hr. set (ws := ws0 ++ [pv]) in *. pose proof (mi_forest _ _ _ _ _ _ _ _ Hm) as Hf.
  destruct (app_exts R' X e (res_exts lp _ _ _ Hr)) as [Hres Hx]. apply core_proj in Hc as (Eg & Eh & Es & Ev & Em). cbn [set_mem inst self views mem] in *.
  assert (Hh : top s ∈ ws ++ [top s]) by (apply elem_of_app; right; left).
  assert (Hpriv' : w <> P1 -> forall v, v ∈ ws -> ~ shares (mem s) v (top s) (parent w)).
  { intros Hne v Hv Hs. apply (Hpriv Hne). by apply (shares_prev lp lk (mem s) ws0 pv (top s) X v (parent w)). }
  assert (Hn0 : 0 < (top s).2) by (destruct (T has_parent _ _ (T has_parent _ _ Hw)) as [_ Hlt]; by destruct w).
  destruct (decide (w = P1)) as [->|Hne].
  - destruct (T copy_root (mem s) ws (top s).1 (top s).2 e X Hf Hx Hn0) as (Hf' & Hnode & Htop & Hws). cbn [MatrasTree.node] in Em.
    set (s' := link s P1 s1 e).
    assert (Em' : mem s' = memmove (mem s) e (top s).1 es) by (unfold s'; cbn [link set_head mem]; by rewrite Em).
    assert (Et' : top s' = (e, (top s).2)) by (unfold s', top; cbn [link set_head inst head set_root root block_count]; by rewrite Eh).
    assert (Hev : evolves s s' ws).
    { split; [done|done|done|unfold s'; cbn [link set_head inst head root set_root]; by rewrite Eh| |]; [rewrite Em', Et'; exact Htop|]. rewrite Em'. intros v Hv. apply (T keeps_frame). intros a. by apply (Hws v). }
    split.
    + apply (minv_step s s' ads ws X R (e :: X) R' Hm Hev); [rewrite Em', Et'; exact Hf'|by apply res_head].
    + split; [done|rewrite Em', Et'; exact Hnode|]. intros v w' Hv Hw'. rewrite Em'. apply (T uses_frame (mem s) _ v.1 v.2); [intros a; by apply (Hws v)|done].
  - destruct (T copy_slot (mem s) ws (top s).1 (top s).2 w e X Hf Hx Hw Hne (Hpriv' Hne)) as (Hf' & Hnode & Htop & Hws).
    set (s' := link s w s1 e). set (M' := poke _ _ _) in Hf', Hnode, Htop, Hws.
    assert (El : s' = store_ptr s1 (slot (mem s) (top s).1 w) e) by (unfold s'; by destruct w).
    assert (Em' : mem s' = M') by (rewrite El; cbn [store_ptr set_mem mem]; by rewrite Em).
    assert (Et' : top s' = top s) by (rewrite El; unfold top; cbn [store_ptr set_mem inst]; by rewrite Eh).
    assert (Hev : evolves s s' ws).
    { split; [by rewrite El|by rewrite El|by rewrite El|rewrite El; cbn [store_ptr set_mem inst]; rewrite Eh; by destruct (head (inst s))| |];
        [rewrite Em', Et'; exact Htop|]. rewrite Em'. intros v Hv. apply (T keeps_frame). intros a. by apply (Hws v). }
    split.
    + apply (minv_step s s' ads ws X R (e :: X) R' Hm Hev); [rewrite Em', Et'; exact Hf'|].
      rewrite El. apply (res_mem lp s1); [done|]. intros q Hq. apply poke_ne. apply not_eq_sym. pose proof (T has_parent _ _ Hw) as Hpar.
      destruct (T slot_offset (mem s) (top s).1 w (top s).2) as [Es0 Ho]; [by apply (fo_room _ _ _ _ _ Hf)|done|done|].
      apply (reserved_apart R' (e :: X) q (node (mem s) (top s).1 (parent w))); [by apply (res_exts lp s1)|done|right; by apply (fo_live _ _ _ _ _ Hf)|lia].
    + split; [done|rewrite Em', Et'; exact Hnode|]. intros v w' Hv Hw'. rewrite Em'. apply (T uses_frame (mem s) _ v.1 v.2); [intros a; by apply (Hws v)|done].
Qed.

(** Every extent in use belongs to a view. *)
Definition exact (M : memory) (vs : list (Z * Z)) (X : list Z) : Prop :=
  forall p, p ∈ X -> exists v w, v ∈ vs /\ has v.2 w /\ node M v.1 w = p.

Lemma exact_step s s' ws0 pv X w e : exact (mem s) ((ws0 ++ [pv]) ++ [top s]) X -> stepped s s' (ws0 ++ [pv]) w e -> has (top s).2 w -> has pv.2 w ->
  node (mem s) (top s).1 w = node (mem s) pv.1 w -> exact (mem s') ((ws0 ++ [pv]) ++ [top s']) (e :: X).
Proof.
  intros Hx [Hev Hn Hws] Hw Hpw Esh p Hp. assert (Et : (top s').2 = (top s).2) by (unfold top; cbn [snd]; by rewrite (ev_head _ _ _ Hev)).
  assert (Hpv : pv ∈ ws0 ++ [pv]) by (apply elem_of_app; right; left).
  assert (Hh : top s' ∈ (ws0 ++ [pv]) ++ [top s']) by (apply elem_of_app; right; left).
  apply elem_of_cons in Hp as [->|Hp].
  - exists (top s'), w. rewrite Et, Hn by done. split_and!; [done|done|]. by rewrite decide_True.
  - destruct (Hx p Hp) as (v & w' & Hv & Hw' & <-). apply elem_of_app in Hv as [Hv|Hv].
    + exists v, w'. rewrite Hws by done. split_and!; [apply elem_of_app; by left|done|done].
    + apply list_elem_of_singleton in Hv as ->. destruct (decide (w' = w)) as [->|Hne].
      * exists pv, w. rewrite Hws by done. split_and!; [apply elem_of_app; by left|done|done].
      * exists (top s'), w'. rewrite Et, Hn by done. rewrite decide_False by done. done.
Qed.

Lemma stepped_refl s ws w : stepped s s ws w (node (mem s) (top s).1 w).
Proof. split; [apply evolves_refl|intros w' Hw'; by destruct (decide _) as [->|]|done]. Qed.

Lemma own_spec s ads ws0 pv X R w : minv s ads (ws0 ++ [pv]) X R -> has (top s).2 w -> has pv.2 w ->
  (w <> P1 -> ~ shares (mem s) pv (top s) (parent w)) ->
  exists o s', own_extent s (node (mem s) (top s).1 w) (node (mem s) pv.1 w) (link s w) = Some (o, s') /\
    ((o = None /\ R = [] /\ core s' = core s /\ minv s' ads (ws0 ++ [pv]) X []) \/
     exists e X' R', o = Some e /\ 0 < e /\ minv s' ads (ws0 ++ [pv]) X' R' /\ stepped s s' (ws0 ++ [pv]) w e /\ e <> node (mem s) pv.1 w /\
       (length R <= length R' + (if decide (node (mem s) (top s).1 w = node (mem s) pv.1 w) then 1 else 0))%nat /\
       (exact (mem s) ((ws0 ++ [pv]) ++ [top s]) X -> exact (mem s') ((ws0 ++ [pv]) ++ [top s']) X')).
Proof.
  intros Hm Hw Hpw Hpriv. unfold own_extent. pose proof (mi_forest _ _ _ _ _ _ _ _ Hm) as Hf. pose proof (mi_res _ _ _ _ _ _ _ _ Hm) as Hr.
  assert (Hh : top s ∈ (ws0 ++ [pv]) ++ [top s]) by (apply elem_of_app; right; left).
  assert (Hpv : pv ∈ (ws0 ++ [pv]) ++ [top s]) by (apply elem_of_app; left; apply elem_of_app; right; left).
  pose proof (fo_live _ _ _ _ _ Hf _ _ Hh Hw) as Hl. pose proof (fo_live _ _ _ _ _ Hf _ _ Hpv Hpw) as Hlp'.
  destruct (Z.eqb_spec (node (mem s) (top s).1 w) (node (mem s) pv.1 w)) as [Esh|Hne].
  - destruct (copy_extent_spec s X R _ Hr Hl) as (p & s1 & -> & H); [apply (mi_geo _ _ _ _ _ _ _ _ Hm)|]. cbn [mbind option_bind].
    destruct H as [(-> & -> & Hc & Hr1)|(R' & Hp & Hc & Hr1 & Hlen)].
    + cbn [Z.eqb]. eexists _, _. split; [done|]. left. split_and!; [done|done|done|]. by apply (minv_core lp lk lb s s1 ads _ X [] X []).
    + rewrite (proj2 (Z.eqb_neq p NULL)) by lia. eexists _, _. split; [done|]. right. exists p, (p :: X), R'.
      destruct (copied_step s ads ws0 pv X R w p s1 R' Hm Hw Hpw Esh Hpriv Hc Hr1) as [Hm' Hst]. split_and!; try done.
      * intros ->. destruct (app_exts R' X _ (res_exts lp _ _ _ Hr1)) as [_ (Hnd & _)]. by apply NoDup_cons in Hnd as [? _].
      * by rewrite decide_True.
      * intros Hx. by apply (exact_step s _ ws0 pv X w p).
  - eexists _, _. split; [done|]. right. exists (node (mem s) (top s).1 w), X, R. split_and!; try done.
    + by apply (res_exts lp s X R Hr), elem_of_app; right.
    + apply stepped_refl.
    + lia.
Qed.

(** ** [matras_touch] *)

Lemma needs_touch_spec s ads ws X R id : minv s ads ws X R -> 0 <= id < block_count (head (inst s)) ->
  exists b, matras_needs_touch s id = Some b /\
    (b = true -> exists ws0 pv, ws = ws0 ++ [(root pv, block_count pv)] /\ get_view s (prev_view (head (inst s))) = Some pv /\ has (block_count pv) (P3 (id / K))) /\
    (b = false -> forall ws0 pv, ws = ws0 ++ [pv] -> ~ has pv.2 (P3 (id / K))).
Proof.
  intros Hm Hid. pose proof (mi_geo _ _ _ _ _ _ _ _ Hm) as Hg. pose proof (id_range lp lk lb s ads ws X R id Hm Hid) as Hid32.
  pose proof (T tree_sizes) as (? & ? & _). unfold matras_needs_touch. rewrite (proj2 (Z.ltb_lt _ _)) by lia.
  destruct (Z.eqb_spec (prev_view (head (inst s))) NULL) as [Hz|Hz].
  { exists false. split; [done|]. split; [done|]. intros _ ws0 pv ->. pose proof (no_prev_view lp lk lb s ads _ X R Hm Hz) as E0. by destruct ws0. }
  destruct (prev_view_spec lp lk lb s ads ws X R Hm Hz) as (ws0 & pv & -> & Eg). rewrite Eg. cbn [mbind option_bind].
  assert (Hpv : (root pv, block_count pv) ∈ (ws0 ++ [(root pv, block_count pv)]) ++ [top s]) by (apply elem_of_app; left; apply elem_of_app; right; left).
  destruct (fo_room _ _ _ _ _ (mi_forest _ _ _ _ _ _ _ _ Hm) _ Hpv) as [Hn _]. cbn [snd] in Hn.
  assert (Hlast : forall ws1 pv1, ws0 ++ [(root pv, block_count pv)] = ws1 ++ [pv1] -> pv1 = (root pv, block_count pv)) by (intros ws1 pv1 E1; by apply app_inj_tail in E1 as [_ <-]).
  destruct Hg as (_ & _ & _ & -> & _ & _ & ? & _). rewrite !shiftr_div by lia. assert (0 <= id / K) by (apply Z.div_pos; lia).
  destruct (Z.eqb_spec (block_count pv) 0) as [Hz0|Hz0]; cbn [negb].
  { exists false. split; [done|]. split; [done|]. intros _ ws1 pv1 ->%Hlast. cbn [snd]. rewrite Hz0. intros [_ Hlt]. cbn in Hlt. nia. }
  assert (Hcap : block_count pv <= 2 ^ 32).
  { pose proof (mi_cap _ _ _ _ _ _ _ _ Hm (root pv, block_count pv) ltac:(apply elem_of_app; right; left)). cbn [snd] in *. lia. }
  rewrite u32_small by lia. destruct (Z.gtb_spec (id / K) ((block_count pv - 1) / K)) as [Hgt|Hle].
  - exists false. split; [done|]. split; [done|]. intros _ ws1 pv1 ->%Hlast [_ Hlt]. cbn in Hlt.
    pose proof (Z.div_le_lower_bound (block_count pv - 1) K (id / K) ltac:(lia) ltac:(lia)). lia.
  - exists true. split; [done|]. split; [|done]. intros _. exists ws0, pv. split_and!; [done|done|]. split; cbn; [done|].
    pose proof (Z.mul_div_le (block_count pv - 1) K ltac:(lia)). nia.
Qed.

(** The root is to be copied. *)
Definition need (s : matras_state) (ws : list (Z * Z)) : nat :=
  match last ws with Some pv => if decide ((top s).1 = pv.1) then 1 else 0 | None => 0 end.

(** The newest view has its own extents above a block. *)
Definition owns (M : memory) (ws : list (Z * Z)) (h : Z * Z) (id : Z) : Prop :=
  forall ws0 pv, ws = ws0 ++ [pv] -> owned_path lp lk M pv h id.

Lemma block_pos s ads ws X R id : minv s ads ws X R -> 0 <= id < block_count (head (inst s)) -> 0 < block (mem s) (top s).1 id.
Proof.
  intros Hm Hid. destruct (T has_block (top s).2 id Hid) as (_ & _ & H3 & _). pose proof (T block_offset id).
  assert (Hh : top s ∈ ws ++ [top s]) by (apply elem_of_app; right; left).
  pose proof (fo_live _ _ _ _ _ (mi_forest _ _ _ _ _ _ _ _ Hm) _ _ Hh H3) as Hl.
  assert (0 < node (mem s) (top s).1 (P3 (id / K))) by (apply (res_exts lp s X R (mi_res _ _ _ _ _ _ _ _ Hm)), elem_of_app; by right).
  unfold MatrasTree.block. cbn in *. lia.
Qed.

(** A later step keeps what an earlier one made the newest view's own. *)
Lemma stepped_apart s s' ws0 pv w w' e : stepped s s' (ws0 ++ [pv]) w e -> has (top s).2 w' -> has pv.2 w' ->
  (if decide (w' = w) then e else node (mem s) (top s).1 w') <> node (mem s) pv.1 w' -> node (mem s') (top s').1 w' <> node (mem s') pv.1 w'.
Proof.
  intros [_ Hn Hws] Hw Hpw Hne. rewrite Hn, Hws by (done || (apply elem_of_app; right; left)). done.
Qed.

Lemma top_count s s' ws : evolves s s' ws -> (top s').2 = (top s).2.
Proof. intros Hev. unfold top. cbn [snd]. by rewrite (ev_head _ _ _ Hev). Qed.

Lemma touch_copies s ads ws0 pv X R id : minv s ads (ws0 ++ [(root pv, block_count pv)]) X R -> 0 <= id < block_count (head (inst s)) ->
  get_view s (prev_view (head (inst s))) = Some pv -> has (block_count pv) (P3 (id / K)) -> matras_needs_touch s id = Some true ->
  let ws := ws0 ++ [(root pv, block_count pv)] in
  exists p s' X' R', matras_touch_no_check s id = Some (p, s') /\ minv s' ads ws X' R' /\ evolves s s' ws /\
    (exact (mem s) (ws ++ [top s]) X -> exact (mem s') (ws ++ [top s']) X') /\
    ((p = NULL /\ (length R < 2 + need s ws)%nat) \/
     (p = block (mem s') (top s').1 id /\ owns (mem s') ws (top s') id /\ (need s' ws + length R <= length R' + 2 + need s ws)%nat)).
Proof.
  intros Hm Hid Ep Hp3 Hneeds ws. unfold matras_touch_no_check. change sizeof_ptr with 8. rewrite Hneeds. cbn [mbind option_bind].
  pose proof (mi_geo _ _ _ _ _ _ _ _ Hm) as Hg. destruct (split_id lp lk lb Hlp Hlk Hlb Hes Hes32 (inst s) id Hg (id_range lp lk lb s ads _ X R id Hm Hid)) as (-> & -> & -> & -> & _).
  rewrite Ep. cbn [mbind option_bind]. set (pw := (root pv, block_count pv)) in *.
  destruct (T has_block (top s).2 id Hid) as (T1 & T2 & T3 & _). pose proof (T has_parent _ _ Hp3) as Hp2. pose proof (T has_parent _ _ Hp2) as Hp1. cbn [MatrasTree.parent] in Hp1, Hp2.
  assert (Hneed : forall s, need s ws = if decide ((top s).1 = root pv) then 1%nat else 0%nat) by (intros s0; unfold need, ws; by rewrite last_snoc).
  destruct (own_spec s ads ws0 pw X R P1 Hm T1 Hp1 ltac:(done)) as (o1 & s1 & E1 & H1). cbn [MatrasTree.node pw fst link] in E1. unfold top in E1 at 1. cbn [fst] in E1. rewrite E1. cbn [mbind option_bind].
  destruct H1 as [(-> & -> & Hc1 & Hm1)|(e1 & X1 & R1 & -> & He1 & Hm1 & St1 & Hne1 & Hl1 & Hx1)].
  { exists NULL, s1, X, []. split; [done|]. split; [done|]. split; [by apply evolves_core|]. split; [|left; split; [done|cbn; lia]].
    intros Hx. apply core_proj in Hc1 as (_ & Eh & _ & _ & Em). unfold top. by rewrite Eh, Em. }
  pose proof (top_count s s1 ws (sp_ev _ _ _ _ _ St1)) as Et1.
  assert (Er1 : (top s1).1 = e1) by (pose proof (sp_node _ _ _ _ _ St1 P1 T1) as Er; by rewrite decide_True in Er).
  destruct (own_spec s1 ads ws0 pw X1 R1 (P2 (id / K / P)) Hm1) as (o2 & s2 & E2 & H2); [by rewrite Et1|done| |].
  { intros _ (_ & _ & Es). cbn [MatrasTree.parent MatrasTree.node] in Es. rewrite Er1 in Es. by rewrite Es in Hne1. }
  cbn [MatrasTree.node MatrasTree.slot pw fst link] in E2. unfold node2 in E2. rewrite Er1 in E2.
  replace (root (head (inst s1))) with e1 in E2 by (by rewrite <- Er1). rewrite E2. cbn [mbind option_bind].
  destruct H2 as [(-> & -> & Hc2 & Hm2)|(e2 & X2 & R2 & -> & He2 & Hm2 & St2 & Hne2 & Hl2 & Hx2)].
  { exists NULL, s2, X1, []. split; [done|]. split; [done|]. split; [apply (evolves_trans s s1); [apply St1|by apply evolves_core]|].
    split; [|left; split; [done|rewrite Hneed; cbn in Hl1 |- *; repeat case_decide; try done; lia]].
    intros Hx. apply core_proj in Hc2 as (_ & Eh & _ & _ & Em). unfold top. rewrite Eh, Em. by apply Hx1. }
  pose proof (top_count s1 s2 ws (sp_ev _ _ _ _ _ St2)) as Et2.
  assert (Er2 : node (mem s2) (top s2).1 (P2 (id / K / P)) = e2) by (rewrite (sp_node _ _ _ _ _ St2) by (by rewrite Et1); by rewrite decide_True).
  assert (Hn2 : node (mem s2) (top s2).1 (P2 (id / K / P)) <> node (mem s2) pw.1 (P2 (id / K / P))).
  { apply (stepped_apart s1 s2 ws0 pw (P2 (id / K / P)) _ e2); [done|by rewrite Et1|done|by rewrite decide_True]. }
  destruct (own_spec s2 ads ws0 pw X2 R2 (P3 (id / K)) Hm2) as (o3 & s3 & E3 & H3); [by rewrite Et2, Et1|done| |].
  { intros _ (_ & _ & Es). cbn [MatrasTree.parent] in Es. by rewrite Es in Hn2. }
  assert (Ew2 : node2 (mem s2) (root pv) (id / K / P) = mem s1 (root pv + 8 * (id / K / P))).
  { apply (sp_ws _ _ _ _ _ St2 pw (P2 (id / K / P))); [apply elem_of_app; right; left|done]. }
  cbn [MatrasTree.node MatrasTree.slot pw fst link] in E3, Er2. unfold node3 in E3. rewrite Ew2, Er2 in E3.
  replace (node2 (mem s2) (root (head (inst s2))) (id / K / P)) with e2 in E3 by (by rewrite <- Er2).
  rewrite E3. cbn [mbind option_bind].
  assert (Hev2 : evolves s s2 ws) by (apply (evolves_trans s s1); [apply St1|apply St2]).
  destruct H3 as [(-> & -> & Hc3 & Hm3)|(e3 & X3 & R3 & -> & He3 & Hm3 & St3 & Hne3 & Hl3 & Hx3)].
  { exists NULL, s3, X2, []. split; [done|]. split; [done|]. split; [apply (evolves_trans s s2); [done|by apply evolves_core]|].
    split; [|left; split; [done|rewrite Hneed; cbn in Hl1, Hl2 |- *; repeat case_decide; try done; lia]].
    intros Hx. apply core_proj in Hc3 as (_ & Eh & _ & _ & Em). unfold top. rewrite Eh, Em. by apply Hx2, Hx1. }
  assert (Hev3 : evolves s s3 ws) by (apply (evolves_trans s s2); [done|apply St3]).
  assert (Er3 : node (mem s3) (top s3).1 (P3 (id / K)) = e3) by (rewrite (sp_node _ _ _ _ _ St3) by (by rewrite Et2, Et1); by rewrite decide_True).
  assert (Hn3 : (top s3).1 <> root pv).
  { apply (stepped_apart s2 s3 ws0 pw (P3 (id / K)) P1 e3 St3); [by rewrite Et2, Et1|done|rewrite decide_False by done].
    apply (stepped_apart s1 s2 ws0 pw (P2 (id / K / P)) P1 e2 St2); [by rewrite Et1|done|rewrite decide_False by done].
    apply (stepped_apart s s1 ws0 pw P1 P1 e1 St1); [done|done|by rewrite decide_True]. }
  exists (e3 + id mod K * bs), s3, X3, R3. split; [done|]. split; [done|]. split; [done|]. split; [auto|right]. split_and!.
  - unfold MatrasTree.block. cbn [MatrasTree.node] in Er3. by rewrite Er3.
  - intros ws1 pv1 E1' _ w Hw (_ & _ & Es). apply app_inj_tail in E1' as [_ <-]. destruct Hw as [->|[->| ->]]; [by apply Hn3|..]; symmetry in Es; revert Es.
    + apply (stepped_apart s2 s3 ws0 pw (P3 (id / K)) _ e3 St3); [by rewrite Et2, Et1|done|by rewrite decide_False].
    + apply (stepped_apart s2 s3 ws0 pw (P3 (id / K)) _ e3 St3); [by rewrite Et2, Et1|done|by rewrite decide_True].
  - rewrite !Hneed. cbn in Hl1. rewrite (decide_False (P := (top s3).1 = root pv)) by done. change ((top s).1 = root pv) with (root (head (inst s)) = root pv). repeat case_decide; lia.
Qed.

(** What [matras_touch] does. *)
Lemma touch_spec s ads ws X R id : minv s ads ws X R -> 0 <= id < block_count (head (inst s)) ->
  exists p s' X' R', matras_touch s id = Some (p, s') /\ minv s' ads ws X' R' /\ evolves s s' ws /\
    (exact (mem s) (ws ++ [top s]) X -> exact (mem s') (ws ++ [top s']) X') /\
    ((p = NULL /\ (length R < 2 + need s ws)%nat /\ exists ws0 pv, ws = ws0 ++ [pv] /\ 0 < pv.2) \/
     (p = block (mem s') (top s').1 id /\ 0 < p /\ owns (mem s') ws (top s') id /\ (need s' ws + length R <= length R' + 2 + need s ws)%nat)).
Proof.
  intros Hm Hid. unfold matras_touch. rewrite (proj2 (Z.ltb_lt _ _)) by lia.
  destruct (needs_touch_spec s ads ws X R id Hm Hid) as (b & Eb & Ht & Hf). rewrite Eb. cbn [mbind option_bind]. destruct b.
  - destruct (Ht eq_refl) as (ws0 & pv & -> & Ep & Hp3). destruct (touch_copies s ads ws0 pv X R id Hm Hid Ep Hp3 Eb) as (p & s' & X' & R' & -> & Hm' & Hev & Hx & H).
    exists p, s', X', R'. split_and!; try done. destruct H as [(-> & Hl)|(-> & Ho & Hl)]; [left|right].
    + split_and!; [done|done|]. exists ws0, (root pv, block_count pv). split; [done|]. destruct Hp3 as [Hi Hlt]. cbn in *. pose proof (pow2_pos lk Hlk). nia.
    + split_and!; [done| |done|done]. apply (block_pos s' ads _ X' R' id Hm'). by rewrite (ev_head _ _ _ Hev).
  - unfold matras_get. rewrite (get_no_check_spec lp lk lb Hlp Hlk Hlb Hes Hes32); [|apply (mi_geo _ _ _ _ _ _ _ _ Hm)|exact (id_range lp lk lb s ads ws X R id Hm Hid)|lia].
    cbn [mbind option_bind]. eexists _, s, X, R. split; [done|]. split; [done|]. split; [apply evolves_refl|]. split; [done|]. right.
    split_and!; [done|by apply (block_pos s ads ws X R)| |lia]. intros ws0 pv -> H3. by destruct (Hf eq_refl ws0 pv).
Qed.

(** ** The reservation of extents *)

Lemma reserve_loop_spec fuel M a R X count : einv es (external a) (R ++ X) -> chain M (reserved_extents a) R ->
  num_reserved_extents a = Z.of_nat (length R) -> (Z.to_nat (count - Z.of_nat (length R)) <= fuel)%nat ->
  exists rc a' M' R', reserve_loop fuel M a count = Some (rc, a', M') /\ einv es (external a') (R' ++ X) /\ chain M' (reserved_extents a') R' /\
    num_reserved_extents a' = Z.of_nat (length R') /\ (forall p b, p ∈ X -> p <= b < p + es -> M' b = M b) /\ (length R <= length R')%nat /\
    (rc = 0 /\ count <= Z.of_nat (length R') \/ rc = -1).
Proof.
  revert M a R. induction fuel as [|fuel IH]; intros M a R He Hc Hn Hfuel; cbn [reserve_loop]; rewrite Hn.
  - rewrite (proj2 (Z.ltb_ge _ _)) by lia. exists 0, a, M, R. split_and!; try done. left. lia.
  - destruct (Z.ltb_spec (Z.of_nat (length R)) count) as [Hlt|Hge].
    2:{ exists 0, a, M, R. split_and!; try done. by left. }
    destruct (ext_alloc _ _ _ He) as (p & e' & -> & H). destruct H as [[-> He']|[Hp He']].
    + cbn [Z.eqb]. eexists _, _, M, R. split; [done|]. split_and!; try done. by right.
    + rewrite (proj2 (Z.eqb_neq p NULL)) by lia. pose proof (ext_apart _ _ _ He') as Hx. change (exts_ok ((p :: R) ++ X)) in Hx.
      destruct (IH (poke M p (reserved_extents a)) (MatrasAllocator (allocator_extent_size a) e' p (num_reserved_extents a + 1)) (p :: R)) as (rc & a' & M' & R' & E1 & H1 & H2 & H3 & H4 & H5 & H6).
      * done.
      * cbn. split; [done|]. rewrite poke_eq. apply (reserved_frame M); [|done]. intros q Hq. apply poke_ne. intros ->. destruct Hx as (Hnd & _).
        apply NoDup_cons in Hnd as [Hnd _]. apply Hnd. apply elem_of_app. by left.
      * cbn [num_reserved_extents length]. lia.
      * cbn [length]. lia.
      * rewrite Hn in E1. exists rc, a', M', R'. split_and!; try done; [|cbn in H5; lia]. intros q b Hq Hb. rewrite (H4 q b Hq Hb). apply poke_ne.
        apply (reserved_apart (p :: R) X p q b Hx); [left|done|done].
Qed.

(** Memory changes where no view uses it. *)
Lemma frame_step s s' ws X : forest (mem s) (ws ++ [top s]) X -> geom (inst s') = geom (inst s) -> self s' = self s -> views s' = views s ->
  head (inst s') = head (inst s) -> (forall v a, v ∈ ws ++ [top s] -> uses lp lk lb (mem s) v.1 v.2 a -> mem s' a = mem s a) ->
  forest (mem s') (ws ++ [top s']) X /\ evolves s s' ws /\ (exact (mem s) (ws ++ [top s]) X -> exact (mem s') (ws ++ [top s']) X).
Proof.
  intros Hf Eg Es Ev Eh Hu. assert (Et : top s' = top s) by (unfold top; by rewrite Eh). rewrite Et.
  split; [by apply (T forest_frame (mem s))|]. split; [split; try done|].
  - rewrite Eh. by destruct (head (inst s)).
  - rewrite Et. apply (T keeps_frame). intros a. apply Hu, elem_of_app. right. left.
  - intros v Hv. apply (T keeps_frame). intros a. apply Hu, elem_of_app. by left.
  - intros Hx p Hp. destruct (Hx p Hp) as (v & w & Hv & Hw & <-). exists v, w. split_and!; [done|done|].
    apply (T uses_frame (mem s) (mem s') v.1 v.2); [intros a; by apply Hu|done].
Qed.

Lemma uses_ext M vs X v a : forest M vs X -> v ∈ vs -> uses lp lk lb M v.1 v.2 a -> exists p, p ∈ X /\ p <= a < p + es.
Proof.
  intros Hf Hv Hu. destruct (fo_room _ _ _ _ _ Hf v Hv) as [_ Hr]. destruct (T uses_in M v.1 v.2 a Hr Hu) as (w & Hw & Ha).
  exists (node M v.1 w). split; [by apply (fo_live _ _ _ _ _ Hf)|done].
Qed.

Lemma touch_reserve_spec s ads ws X R count : minv s ads ws X R -> 0 <= count < 2 ^ 30 - 1 ->
  exists rc s' R', matras_touch_reserve s count = Some (rc, s') /\ minv s' ads ws X R' /\ evolves s s' ws /\
    (exact (mem s) (ws ++ [top s]) X -> exact (mem s') (ws ++ [top s']) X) /\
    ((rc = 0 /\ forall ws0 pv, ws = ws0 ++ [pv] -> 0 < pv.2 -> 0 < count -> 2 * count + Z.of_nat (need s' ws) <= Z.of_nat (length R')) \/ rc = -1).
Proof.
  intros Hm Hcount. unfold matras_touch_reserve. rewrite (proj2 (Z.geb_le _ _)) by lia. pose proof (evolves_refl s ws).
  destruct (Z.eqb_spec count 0) as [->|Hnz]. { exists 0, s, R. split_and!; try done. left. split; [done|]. lia. }
  destruct (Z.eqb_spec (prev_view (head (inst s))) NULL) as [Hz|Hz].
  { exists 0, s, R. split_and!; try done. left. split; [done|]. intros ws0 pv ->. pose proof (no_prev_view lp lk lb s ads _ X R Hm Hz) as E0. by destruct ws0. }
  destruct (prev_view_spec lp lk lb s ads ws X R Hm Hz) as (ws0 & pv & -> & Eg). rewrite Eg. cbn [mbind option_bind].
  destruct (Z.eqb_spec (block_count pv) 0) as [Hz0|Hz0].
  { exists 0, s, R. split_and!; try done. left. split; [done|]. intros ws1 pv1 E1. apply app_inj_tail in E1 as [_ <-]. cbn [snd]. lia. }
  set (req := count * 2 + _). assert (Hreq : req = 2 * count + Z.of_nat (need s (ws0 ++ [(root pv, block_count pv)]))).
  { unfold req, need, top. rewrite last_snoc. cbn [fst]. destruct (Z.eqb_spec (root (head (inst s))) (root pv)), (decide _); try done; lia. }
  assert (Hn2 : (need s (ws0 ++ [(root pv, block_count pv)]) <= 1)%nat) by (unfold need; destruct (last _); [case_decide|]; lia).
  rewrite (proj2 (Z.ltb_lt _ _)) by lia. unfold matras_allocator_reserve. rewrite (proj2 (Z.geb_le _ _)) by lia.
  destruct (mi_res _ _ _ _ _ _ _ _ Hm) as [R1 R2 R3 R4]. rewrite R3.
  destruct (reserve_loop_spec (Z.to_nat (req - Z.of_nat (length R))) (mem s) (allocator s) R X req R1 R2 R3 ltac:(lia)) as (rc & a' & M' & R' & -> & H1 & H2 & H3 & H4 & H5 & H6).
  cbn [mbind option_bind]. set (s' := set_mem _ _). pose proof (mi_forest _ _ _ _ _ _ _ _ Hm) as Hf0.
  destruct (frame_step s s' _ X Hf0 eq_refl eq_refl eq_refl eq_refl) as (Hf & Hev & Hx).
  { intros v a Hv Hu. destruct (uses_ext _ _ X v a Hf0 Hv Hu) as (p & Hp & Ha). by apply (H4 p). }
  exists rc, s', R'. split; [done|]. split; [by apply (minv_step s s' ads _ X R X R' Hm Hev Hf); split|]. split; [done|]. split; [done|].
  destruct H6 as [[-> H6]|H6]; [left|by right]. split; [done|]. intros ws1 pv1 E1 _ _. change (need s' _) with (need s (ws0 ++ [(root pv, block_count pv)])). lia.
Qed.

(** ** Allocation *)

(** The state on the way of [matras_alloc_internal] from [s0]: the extents [Y] are
    made and not yet part of a view. *)
Record grown (s0 s : matras_state) (ws : list (Z * Z)) (X Y R : list Z) : Prop := {
  gr_ev : evolves s0 s ws;
  gr_forest : forest (mem s) (ws ++ [top s]) X;
  gr_res : res s (Y ++ X) R;
  gr_exact : exact (mem s0) (ws ++ [top s0]) X -> exact (mem s) (ws ++ [top s]) X;
}.

Lemma grown_core s0 s s' ws X Y R Y' R' : grown s0 s ws X Y R -> core s' = core s -> res s' (Y' ++ X) R' -> grown s0 s' ws X Y' R'.
Proof.
  intros [G1 G2 G3 G4] Hc Hr. split; [apply (evolves_trans s0 s); [done|by apply evolves_core]|..|done|]; apply core_proj in Hc as (_ & Eh & _ & _ & Em); unfold top; by rewrite Eh, Em.
Qed.

Lemma grown_alloc s0 s ws X Y R : grown s0 s ws X Y R ->
  exists e s' R', matras_alloc_extent s = (e, s') /\ core s' = core s /\ ((e = NULL /\ grown s0 s' ws X Y R') \/ (0 < e /\ grown s0 s' ws X (e :: Y) R')).
Proof.
  intros Hg. destruct (alloc_extent_spec lp s (Y ++ X) R (gr_res _ _ _ _ _ _ Hg)) as (e & s' & -> & Hc & H). destruct H as [(-> & -> & Hr)|(R' & He & Hr & _)].
  - exists NULL, s', []. split_and!; try done. left. split; [done|]. by apply (grown_core s0 s s' ws X Y []).
  - exists e, s', R'. split_and!; try done. right. split; [done|]. by apply (grown_core s0 s s' ws X Y R).
Qed.

Lemma grown_free s0 s ws X Y R e Y' : grown s0 s ws X Y R -> Y ≡ₚ e :: Y' -> exists s', matras_free_extent s e = Some s' /\ grown s0 s' ws X Y' R.
Proof.
  intros Hg HP. destruct (free_extent_spec lp s (Y ++ X) R e (Y' ++ X) (gr_res _ _ _ _ _ _ Hg)) as (s' & -> & Hc & Hr); [by rewrite HP|].
  exists s'. split; [done|]. by apply (grown_core s0 s s' ws X Y R).
Qed.

Lemma grown_store s0 s ws X Y R a x : grown s0 s ws X Y R -> (forall v, v ∈ ws ++ [top s] -> ~ uses lp lk lb (mem s) v.1 v.2 a) -> a ∉ R ->
  grown s0 (store_ptr s a x) ws X Y R.
Proof.
  intros [G1 G2 G3 G4] Hu Ha. destruct (frame_step s (store_ptr s a x) ws X G2 eq_refl eq_refl eq_refl eq_refl) as (Hf & Hev & Hx).
  { intros v b Hv Hb. apply poke_ne. intros ->. by apply (Hu v). }
  split; [by apply (evolves_trans s0 s)|done| |auto]. apply (res_mem lp s); [done|]. intros q Hq. apply poke_ne. by intros ->.
Qed.

Lemma grown_root s0 s ws X Y R r : grown s0 s ws X Y R -> block_count (head (inst s)) = 0 -> grown s0 (set_head s (set_root (head (inst s)) r)) ws X Y R.
Proof.
  intros [G1 G2 G3 G4] H0. set (s' := set_head _ _). assert (Hno : forall w, ~ has 0 w) by (intros w Hw; by destruct (T has_zero w)).
  assert (Et : (top s).2 = 0) by done. assert (Et' : (top s').2 = 0) by done. split.
  - apply (evolves_trans s0 s); [done|]. split; try done. intros id Hid. cbn in Hid. lia.
  - replace (top s') with (r, 0) by (unfold top, s'; cbn; by rewrite H0).
    apply (T forest_grow (mem s) ws (top s).1 r 0 0 X [] ); [by rewrite <- Et, <- surjective_pairing|lia|lia| |..].
    + destruct (fo_room _ _ _ _ _ G2 (top s)) as [_ Hr]; [apply elem_of_app; right; left|]. by rewrite Et in Hr.
    + intros w Hw. by destruct (Hno w).
    + intros p Hp. by apply elem_of_nil in Hp.
    + intros w w' Hw. by destruct (Hno w).
  - by apply (res_head lp).
  - intros Hx p Hp. destruct (G4 Hx p Hp) as (v & w & Hv & Hw & <-). apply elem_of_app in Hv as [Hv|Hv]; [exists v, w; split_and!; [apply elem_of_app; by left|done|done]|].
    apply list_elem_of_singleton in Hv as ->. rewrite Et in Hw. by destruct (Hno w).
Qed.

(** The slot of a place that is to be made. *)
Lemma made_slot s0 s ws X Y R w n' : grown s0 s ws X Y R -> has (top s).2 (parent w) \/ node (mem s) (top s).1 (parent w) ∈ Y ->
  (top s).2 <= start lp lk w -> has n' w -> room lp lk n' -> w <> P1 ->
  (forall v, v ∈ ws ++ [top s] -> ~ uses lp lk lb (mem s) v.1 v.2 (slot (mem s) (top s).1 w)) /\ slot (mem s) (top s).1 w ∉ R.
Proof.
  intros [G1 G2 G3 G4] Hpar Hst Hw Hroom Hne. pose proof (res_exts lp _ _ _ G3) as Hx. pose proof (exts_app_r lp _ _ Hx) as HYX. pose proof (exts_app_r lp _ _ HYX) as HX.
  destruct (T slot_offset (mem s) (top s).1 w n' Hroom Hw Hne) as [Es Ho]. assert (Hh : top s ∈ ws ++ [top s]) by (apply elem_of_app; right; left).
  assert (Hin : node (mem s) (top s).1 (parent w) ∈ Y ++ X) by (apply elem_of_app; destruct Hpar; [right; by apply (fo_live _ _ _ _ _ G2)|by left]).
  split.
  - intros v Hv Hu. destruct Hpar as [Hpar|HY]; [by apply (T new_slot_unused (mem s) ws (top s) X w n' v G2 HX)|].
    destruct (uses_ext _ _ X v _ G2 Hv Hu) as (p & Hp & Ha). apply (reserved_apart Y X (node (mem s) (top s).1 (parent w)) p (node (mem s) (top s).1 (parent w)) HYX HY Hp); [|done].
    rewrite (same_ext lp Hlp (Y ++ X) p (node (mem s) (top s).1 (parent w)) (slot (mem s) (top s).1 w) HYX); [lia|apply elem_of_app; by right|done|done|lia].
  - intros Hq. by apply (reserved_apart R (Y ++ X) _ _ (slot (mem s) (top s).1 w) Hx Hq Hin); [lia|].
Qed.

Lemma level_in_spec s0 s ws X Y R w n' (b : bool) : grown s0 s ws X Y R -> has (top s).2 (parent w) \/ node (mem s) (top s).1 (parent w) ∈ Y ->
  has n' w -> room lp lk n' -> w <> P1 -> (if b then has (top s).2 w else (top s).2 <= start lp lk w) ->
  exists e s' R', level_in s b (slot (mem s) (top s).1 w) = (e, s') /\
    ((b = false /\ e = NULL /\ grown s0 s' ws X Y R' /\ core s' = core s) \/
     (0 < e /\ grown s0 s' ws X (if b then Y else e :: Y) R' /\ head (inst s') = head (inst s) /\
      mem s' = (if b then mem s else poke (mem s) (slot (mem s) (top s).1 w) e) /\ (b = true -> e = node (mem s) (top s).1 w))).
Proof.
  intros Hg Hpar Hw Hroom Hne Hb. unfold level_in. destruct b.
  - exists (mem s (slot (mem s) (top s).1 w)), s, R. split; [done|]. right. rewrite <- (slot_node lp) by done. split_and!; try done.
    apply (res_exts lp _ _ _ (gr_res _ _ _ _ _ _ Hg)). rewrite !elem_of_app. right. right.
    apply (fo_live _ _ _ _ _ (gr_forest _ _ _ _ _ _ Hg)); [apply elem_of_app; right; left|done].
  - destruct (grown_alloc s0 s ws X Y R Hg) as (e & s1 & R' & -> & Hc & H). destruct H as [[-> Hg1]|[He Hg1]].
    + cbn [Z.eqb]. exists NULL, s1, R'. split; [done|]. by left.
    + rewrite (proj2 (Z.eqb_neq e NULL)) by lia. eexists _, _, R'. split; [done|]. right.
      apply core_proj in Hc as (_ & Eh & _ & _ & Em). assert (Et : top s1 = top s) by (unfold top; by rewrite Eh).
      destruct (made_slot s0 s1 ws X (e :: Y) R' w n' Hg1) as [Hu Hr]; try done; [rewrite Em, Et; destruct Hpar; [by left|right; by right]|by rewrite Et|].
      rewrite Em, Et in Hu, Hr. split_and!; [done| |done|cbn; by rewrite Em|done].
      apply grown_store; [done|by rewrite Em, Et|done].
Qed.

Lemma level1_spec s ads ws X R : minv s ads ws X R -> let n := block_count (head (inst s)) in
  exists e s' R', level1 s (negb (n =? 0)) = (e, s') /\
    ((n = 0 /\ e = NULL /\ grown s s' ws X [] R') \/
     (0 < e /\ grown s s' ws X (if n =? 0 then [e] else []) R' /\ top s' = (e, n) /\ e ∈ (if n =? 0 then [e] else []) ++ X)).
Proof.
  intros Hm n. assert (Hg : grown s s ws X [] R) by (split; [apply evolves_refl|apply (mi_forest _ _ _ _ _ _ _ _ Hm)|apply (mi_res _ _ _ _ _ _ _ _ Hm)|done]).
  unfold level1. fold n. destruct (Z.eqb_spec n 0) as [H0|H0]; cbn [negb].
  - destruct (grown_alloc s s ws X [] R Hg) as (e & s1 & R' & -> & Hc & H). destruct H as [[-> Hg1]|[He Hg1]].
    + cbn [Z.eqb]. exists NULL, s1, R'. split; [done|]. by left.
    + rewrite (proj2 (Z.eqb_neq e NULL)) by lia. eexists _, _, R'. split; [done|]. right. apply core_proj in Hc as (_ & Eh & _ & _ & Em).
      split_and!; [done|apply (grown_root s s1); [done|by rewrite Eh]|unfold top; cbn; by rewrite Eh|left].
  - exists (root (head (inst s))), s, R. split; [done|]. right. assert (Hin : root (head (inst s)) ∈ X).
    { apply (fo_live _ _ _ _ _ (gr_forest _ _ _ _ _ _ Hg) (top s) P1); [apply elem_of_app; right; left|]. split; [done|]. cbn.
      pose proof (mi_count _ _ _ _ _ _ _ _ Hm). lia. }
    split_and!; try done. apply (res_exts lp _ _ _ (gr_res _ _ _ _ _ _ Hg)), elem_of_app. by right.
Qed.

Lemma grown_finish s0 s ads ws X0 X Y R0 R n' : minv s0 ads ws X0 R0 -> grown s0 s ws X Y R -> let n := block_count (head (inst s0)) in
  n < n' <= capacity (inst s0) -> (forall w, has n' w -> ~ has n w -> node (mem s) (top s).1 w ∈ Y) ->
  (forall w w', has n' w -> ~ has n w -> has n' w' -> ~ has n w' -> node (mem s) (top s).1 w = node (mem s) (top s).1 w' -> w = w') ->
  (forall p, p ∈ Y -> exists w, has n' w /\ node (mem s) (top s).1 w = p) ->
  minv (set_head s (set_count (head (inst s)) n')) ads ws (Y ++ X) R /\
  (exact (mem s0) (ws ++ [top s0]) X -> exact (mem s) (ws ++ [((top s).1, n')]) (Y ++ X)).
Proof.
  intros [M1 M2 M3 M4 M5 M6] [G1 G2 G3 G4] n Hn' HY Hinj Hall. pose proof (top_count s0 s ws G1) as Et. change ((top s0).2) with n in Et.
  pose proof (geo_geom _ _ (ev_geom _ _ _ G1) M1) as Hgeo. assert (Ec : capacity (inst s) = capacity (inst s0)) by (pose proof (ev_geom _ _ _ G1) as Eg; unfold geom in Eg; congruence).
  pose proof (res_exts lp _ _ _ G3) as Hx. apply (exts_app_r lp) in Hx as (Hnd & _). apply NoDup_app in Hnd as (_ & Hnd & _). split.
  - split; [done| | |by apply (res_head lp)|cbn; rewrite Ec; lia|cbn; by rewrite Ec].
    + apply (linked_core s0); [done|apply G1|apply G1|cbn; by rewrite (ev_head _ _ _ G1)].
    + cbn [set_head mem]. change (top (set_head s (set_count (head (inst s)) n'))) with ((top s).1, n').
      apply (T forest_grow (mem s) ws (top s).1 (top s).1 (top s).2 n' X Y); [by rewrite <- surjective_pairing|done|lia| |by rewrite Et|done|by rewrite Et].
      destruct M1 as (_ & _ & _ & _ & _ & _ & _ & Hcap). unfold room. lia.
  - intros Hex p [Hp|Hp]%elem_of_app.
    + destruct (Hall p Hp) as (w & Hw & <-). exists ((top s).1, n'), w. split_and!; [apply elem_of_app; right; left|done|done].
    + destruct (G4 Hex p Hp) as (v & w & Hv & Hw & <-). apply elem_of_app in Hv as [Hv|Hv]; [exists v, w; split_and!; [apply elem_of_app; by left|done|done]|].
      apply list_elem_of_singleton in Hv as ->. exists ((top s).1, n'), w. split_and!; [apply elem_of_app; right; left| |done]. apply (has_mono lp lk (top s).2); [done|rewrite Et; cbn [snd]; lia].
Qed.

(** No other view that has the extent of the block [id] has the block. *)
Definition unshared (M : memory) (ws : list (Z * Z)) (h : Z * Z) (id : Z) : Prop := forall v, v ∈ ws -> shares M v h (P3 (id / K)) -> v.2 <= id.

Lemma grown_unshared s0 s ws X Y R n' : grown s0 s ws X Y R -> let n := block_count (head (inst s0)) in 0 <= n ->
  (has n' (P3 (n / K)) -> ~ has n (P3 (n / K)) -> node (mem s) (top s).1 (P3 (n / K)) ∈ Y) -> unshared (mem s) ws ((top s).1, n') n.
Proof.
  intros [G1 G2 G3 G4] n Hn HY v Hv (Hv3 & Hh3 & En). cbn [fst snd] in *. pose proof (top_count s0 s ws G1) as Et. change ((top s0).2) with n in Et.
  assert (Hv' : v ∈ ws ++ [top s]) by (apply elem_of_app; by left). destruct (has_dec lp lk n n' _ Hh3) as [Ho|Ho].
  - destruct (Z.lt_ge_cases n v.2) as [Hlt|]; [|done]. apply list_elem_of_lookup in Hv as [i Hi]. enough (n < (top s).2) by lia.
    apply (fo_grow _ _ _ _ _ G2 i (length ws) v (top s) (P3 (n / K)) n); try done; [by eapply lookup_lt_Some|apply lookup_app_Some; by left|by apply list_lookup_middle|].
    split_and!; [done|by rewrite Et|done].
  - exfalso. pose proof (exts_app_r lp _ _ (res_exts lp _ _ _ G3)) as (Hnd & _). apply NoDup_app in Hnd as (_ & Hnd & _). apply (Hnd _ (HY Hh3 Ho)). rewrite <- En. by apply (fo_live _ _ _ _ _ G2).
Qed.

(** The extents above the first new block are made: [e1] at the root, [e2], [e3]. *)
Lemma made_path s0 s ads ws X0 X Y R0 R n' e1 e2 e3 : minv s0 ads ws X0 R0 -> let n := block_count (head (inst s0)) in
  n < n' <= capacity (inst s0) -> n' <= (n / K + 1) * K ->
  grown s0 s ws X Y R -> node (mem s) (top s).1 P1 = e1 -> node (mem s) (top s).1 (P2 (n / K / P)) = e2 -> node (mem s) (top s).1 (P3 (n / K)) = e3 ->
  Y = (if n mod K =? 0 then [e3] else []) ++ (if n mod (P * K) =? 0 then [e2] else []) ++ (if n =? 0 then [e1] else []) ->
  minv (set_head s (set_count (head (inst s)) n')) ads ws (Y ++ X) R /\
  (exact (mem s0) (ws ++ [top s0]) X -> exact (mem s) (ws ++ [((top s).1, n')]) (Y ++ X)) /\ unshared (mem s) ws ((top s).1, n') n.
Proof.
  intros Hm n Hn' HK Hg E1 E2 E3 EY. pose proof (mi_count _ _ _ _ _ _ _ _ Hm) as Hc. fold n in Hc. destruct (T first_block n ltac:(lia)) as (F1 & F2 & _).
  assert (Hnew : forall w, has n' w -> ~ has n w -> node (mem s) (top s).1 w ∈ Y /\ ((w = P1 /\ n = 0) \/ (w = P2 (n / K / P) /\ n mod (P * K) = 0) \/ (w = P3 (n / K) /\ n mod K = 0))).
  { intros w Hw Hno. destruct (T new_path n n' w ltac:(lia) HK Hw Hno) as [[-> H0]|[[-> H0]|[-> H0]]]; (split; [|auto]); rewrite EY, !elem_of_app.
    - right. right. rewrite E1, H0. left.
    - right. left. rewrite E2, H0. left.
    - left. rewrite E3, H0. left. }
  pose proof (res_exts lp _ _ _ (gr_res _ _ _ _ _ _ Hg)) as Hx. apply (exts_app_r lp) in Hx as (Hnd & _). apply NoDup_app in Hnd as (Hnd & _ & _). rewrite EY in Hnd.
  assert (Hz : n = 0 -> n mod (P * K) = 0) by (intros ->; apply Z.mod_0_l; pose proof (T tree_sizes); nia).
  assert (Hu : unshared (mem s) ws ((top s).1, n') n) by (apply (grown_unshared s0 s ws X Y R n' Hg); [apply Hc|intros Hw Hno; by apply Hnew]).
  destruct (grown_finish s0 s ads ws X0 X Y R0 R n' Hm Hg Hn') as [Hm' Hx']; [intros w Hw Hno; by apply Hnew|..|by split_and!].
  - intros w w' Hw Hno Hw' Hno' Eq. destruct (Hnew w Hw Hno) as [_ C1], (Hnew w' Hw' Hno') as [_ C2].
    destruct C1 as [[-> H1]|[[-> H1]|[-> H1]]], C2 as [[-> H2]|[[-> H2]|[-> H2]]]; try done; exfalso; rewrite ?E1, ?E2, ?E3 in Eq; subst;
      try pose proof (Hz H1); try pose proof (Hz H2); rewrite ?(proj2 (Z.eqb_eq _ _)) in Hnd by (done || (by apply F1)); cbn in Hnd;
      repeat (apply NoDup_cons in Hnd as [?Hnd0 Hnd]); rewrite ?elem_of_cons, ?elem_of_app, ?elem_of_cons in *; naive_solver.
  - intros p. rewrite EY, !elem_of_app. destruct (T has_block n' n ltac:(lia)) as (B1 & B2 & B3 & _).
    intros [Hp|[Hp|Hp]]; [exists (P3 (n / K))|exists (P2 (n / K / P))|exists P1]; (split; [done|]);
      [destruct (n mod K =? 0)|destruct (n mod (P * K) =? 0)|destruct (n =? 0)];
      (apply list_elem_of_singleton in Hp || by apply elem_of_nil in Hp); congruence.
Qed.

Lemma grown_free_if s0 s ws X Y Z R (b : bool) e : grown s0 s ws X (Y ++ (if b then [e] else []) ++ Z) R ->
  exists s', (if b then matras_free_extent s e else Some s) = Some s' /\ grown s0 s' ws X (Y ++ Z) R.
Proof.
  intros Hg. destruct b; [|by exists s]. apply (grown_free s0 s ws X (Y ++ [e] ++ Z) R e (Y ++ Z) Hg). symmetry. apply Permutation_middle.
Qed.

Lemma level_nodes M M' r w e (b : bool) : M' = (if b then M else poke M (slot M r w) e) -> (b = true -> e = node M r w) -> w <> P1 ->
  parent w = P1 \/ slot M r (parent w) <> slot M r w -> node M' r w = e /\ node M' r (parent w) = node M r (parent w).
Proof.
  intros -> He Hne Hd. destruct b; [by rewrite He|].
  assert (Hp : node (poke M (slot M r w) e) r (parent w) = node M r (parent w)).
  { destruct w as [|i|x]; [done|done|]. cbn in *. destruct Hd as [?|Hd]; [done|]. by apply (poke_ne M _ e (r + 8 * (x / P))). }
  split; [|done]. rewrite (slot_node lp) by done. destruct w as [|i|x]; [done|apply poke_eq|]. cbn in *. rewrite Hp. apply poke_eq.
Qed.

(** The two tables above a block are different extents. *)
Lemma tables_apart s0 s ws X Y R w n' : grown s0 s ws X Y R -> has n' w -> room lp lk n' -> w <> P1 ->
  node (mem s) (top s).1 P1 ∈ Y ++ X -> node (mem s) (top s).1 (parent w) ∈ Y ++ X ->
  parent w = P1 \/ node (mem s) (top s).1 P1 <> node (mem s) (top s).1 (parent w) ->
  parent w = P1 \/ slot (mem s) (top s).1 (parent w) <> slot (mem s) (top s).1 w.
Proof.
  intros Hg Hw Hr Hne H1 H2 [Hd|Hd]; [by left|]. destruct w as [|i|x]; [by left|by left|right]. cbn [MatrasTree.parent] in *. intros Es.
  destruct (T slot_offset (mem s) (top s).1 (P3 x) n' Hr Hw Hne) as [E3 O3].
  destruct (T slot_offset (mem s) (top s).1 (P2 (x / P)) n' Hr (T has_parent _ _ Hw) ltac:(done)) as [E2 O2].
  apply Hd. apply (same_ext lp Hlp (Y ++ X) _ _ (slot (mem s) (top s).1 (P3 x))); [by apply (exts_app_r lp R), (res_exts lp s), (gr_res _ _ _ _ _ _ Hg)|done|done| |].
  - rewrite <- Es, E2. cbn [MatrasTree.parent]. lia.
  - rewrite E3. cbn [MatrasTree.parent]. lia.
Qed.

Lemma alloc_internal_spec s ads ws X R n' : minv s ads ws X R -> let n := block_count (head (inst s)) in
  n < n' <= capacity (inst s) -> n' <= (n / K + 1) * K ->
  exists p s' X' R', matras_alloc_internal s = Some (p, s') /\ evolves s s' ws /\
    ((p = NULL /\ minv s' ads ws X R' /\ (exact (mem s) (ws ++ [top s]) X -> exact (mem s') (ws ++ [top s']) X)) \/
     (0 < p /\ p = block (mem s') (top s').1 n /\ minv (set_head s' (set_count (head (inst s')) n')) ads ws X' R' /\
      (exact (mem s) (ws ++ [top s]) X -> exact (mem s') (ws ++ [((top s').1, n')]) X') /\ unshared (mem s') ws ((top s').1, n') n)).
Proof.
  intros Hm n Hn' HK. pose proof (mi_count _ _ _ _ _ _ _ _ Hm) as Hc. fold n in Hc. pose proof (mi_geo _ _ _ _ _ _ _ _ Hm) as Hgeo.
  assert (Hn32 : 0 <= n < 2 ^ 32) by (destruct Hgeo as (_ & _ & _ & _ & _ & _ & ? & _); lia).
  assert (Hroom : room lp lk n') by (destruct Hgeo as (_ & _ & _ & _ & _ & _ & _ & ?); unfold room; lia).
  destruct (T first_block n ltac:(lia)) as (F1 & F2 & F3 & F4). destruct (T has_block n' n ltac:(lia)) as (B1 & B2 & B3 & _).
  unfold matras_alloc_internal. change sizeof_ptr with 8. fold n. rewrite (u32_small n) by lia.
  destruct (split_id lp lk lb Hlp Hlk Hlb Hes Hes32 (inst s) n Hgeo Hn32) as (-> & -> & _ & Eoff & -> & ->).
  assert (Hfail : forall s' R', grown s s' ws X [] R' -> minv s' ads ws X R' /\ evolves s s' ws /\ (exact (mem s) (ws ++ [top s]) X -> exact (mem s') (ws ++ [top s']) X)).
  { intros s' R' [G1 G2 G3 G4]. split_and!; [by apply (minv_step s s' ads ws X R)|done|done]. }
  destruct (level1_spec s ads ws X R Hm) as (e1 & s1 & R1 & E1 & H1). fold n in E1, H1. rewrite E1. rewrite !negb_involutive.
  destruct H1 as [(H0 & -> & Hg1)|(He1 & Hg1 & Et1 & Hin1)].
  { rewrite H0. cbn [Z.eqb andb]. exists NULL, s1, X, R1. split; [done|]. destruct (Hfail s1 R1 Hg1) as (? & ? & ?). split; [done|]. by left. }
  rewrite (proj2 (Z.eqb_neq e1 NULL)), andb_false_r by lia. set (Y1 := if n =? 0 then [e1] else []) in *.
  destruct (level_in_spec s s1 ws X Y1 R1 (P2 (n / K / P)) n' (negb (n mod (P * K) =? 0)) Hg1) as (e2 & s2 & R2 & E2 & H2); rewrite ?Et1; cbn [fst snd]; try done.
  { cbn [MatrasTree.parent MatrasTree.node]. unfold Y1. destruct (Z.eqb_spec n 0); [right; left|left; split; [done|cbn; lia]]. }
  { destruct (Z.eqb_spec (n mod (P * K)) 0) as [Hz|Hz]; cbn [negb]; [destruct (F1 Hz) as [_ ->]; lia|by apply F3]. }
  rewrite Et1 in E2. cbn [MatrasTree.slot fst] in E2. rewrite E2.
  destruct H2 as [(Eb2 & -> & Hg2 & _)|(He2 & Hg2 & Eh2 & Em2 & En2)].
  { apply negb_false_iff in Eb2. rewrite Eb2. cbn [Z.eqb andb]. destruct (grown_free_if s s2 ws X [] [] R2 (n =? 0) e1) as (s3 & -> & Hg3); [by rewrite app_nil_r|]. cbn [mbind option_bind].
    destruct (Hfail s3 R2 Hg3) as (? & ? & ?). exists NULL, s3, X, R2. split; [done|]. split; [done|]. by left. }
  rewrite (proj2 (Z.eqb_neq e2 NULL)), andb_false_r by lia.
  set (Y2 := (if n mod (P * K) =? 0 then [e2] else []) ++ Y1).
  replace (if negb (n mod (P * K) =? 0) then Y1 else e2 :: Y1) with Y2 in Hg2 by (unfold Y2; by destruct (n mod (P * K) =? 0)).
  assert (Et2 : top s2 = (e1, n)) by (rewrite <- Et1; unfold top; by rewrite Eh2).
  destruct (level_nodes (mem s1) (mem s2) e1 (P2 (n / K / P)) e2 (negb (n mod (P * K) =? 0))) as [N2 _]; [by rewrite Et1 in Em2|by rewrite Et1 in En2|done|by left|].
  assert (Hpar2 : has n (P2 (n / K / P)) \/ e2 ∈ Y2) by (unfold Y2; destruct (Z.eqb_spec (n mod (P * K)) 0); [right; left|left; by apply F3]).
  assert (Hin2 : e2 ∈ Y2 ++ X /\ e1 ∈ Y2 ++ X /\ e1 <> e2).
  { pose proof (gr_forest _ _ _ _ _ _ Hg2) as Hf2. rewrite Et2 in Hf2. assert (Ht2 : (e1, n) ∈ ws ++ [(e1, n)]) by (apply elem_of_app; right; left).
    assert (Hin1' : e1 ∈ Y2 ++ X) by (unfold Y2; rewrite <- app_assoc; apply elem_of_app; by right).
    pose proof (exts_app_r lp _ _ (res_exts lp _ _ _ (gr_res _ _ _ _ _ _ Hg2))) as (Hnd & _). unfold Y2 in *. destruct (Z.eqb_spec (n mod (P * K)) 0) as [Hz|Hz].
    - split; [left|]. split; [done|]. intros <-. cbn in Hnd. by apply NoDup_cons in Hnd as [? _].
    - pose proof (F3 Hz) as [Hnz Hh2]. assert (Hh1 : has n P1) by (split; [done|cbn; lia]). split; [apply elem_of_app; right; rewrite <- N2; by apply (fo_live _ _ _ _ _ Hf2 (e1, n))|].
      split; [done|]. rewrite <- N2. intros E12. by pose proof (fo_inj _ _ _ _ _ Hf2 (e1, n) P1 (e1, n) _ Ht2 Ht2 Hh1 Hh2 E12). }
  destruct Hin2 as (Hin2 & Hin1' & Hne12).
  destruct (level_in_spec s s2 ws X Y2 R2 (P3 (n / K)) n' (negb (n mod K =? 0)) Hg2) as (e3 & s3 & R3 & E3 & H3); rewrite ?Et2; cbn [fst snd MatrasTree.parent]; try done.
  { by rewrite N2. }
  { destruct (Z.eqb_spec (n mod K) 0) as [Hz|Hz]; cbn [negb]; [rewrite (F2 Hz); lia|by apply F4]. }
  rewrite Et2 in E3. cbn [MatrasTree.slot fst] in E3. cbn [MatrasTree.node] in N2. rewrite N2 in E3. rewrite E3.
  destruct H3 as [(Eb3 & -> & Hg3 & _)|(He3 & Hg3 & Eh3 & Em3 & En3)].
  { apply negb_false_iff in Eb3. rewrite Eb3. cbn [Z.eqb andb].
    destruct (grown_free_if s s3 ws X (if n mod (P * K) =? 0 then [e2] else []) [] R3 (n =? 0) e1) as (s4 & -> & Hg4); [by rewrite app_nil_r|]. cbn [mbind option_bind].
    destruct (grown_free_if s s4 ws X [] [] R3 (n mod (P * K) =? 0) e2) as (s5 & -> & Hg5); [done|]. cbn [mbind option_bind].
    destruct (Hfail s5 R3 Hg5) as (? & ? & ?). exists NULL, s5, X, R3. split; [done|]. split; [done|]. by left. }
  rewrite (proj2 (Z.eqb_neq e3 NULL)), andb_false_r by lia.
  set (Y3 := (if n mod K =? 0 then [e3] else []) ++ Y2).
  replace (if negb (n mod K =? 0) then Y2 else e3 :: Y2) with Y3 in Hg3 by (unfold Y3; by destruct (n mod K =? 0)).
  assert (Et3 : top s3 = (e1, n)) by (rewrite <- Et2; unfold top; by rewrite Eh3).
  destruct (level_nodes (mem s2) (mem s3) e1 (P3 (n / K)) e3 (negb (n mod K =? 0))) as [N3 N3']; [by rewrite Et2 in Em3|by rewrite Et2 in En3|done| |].
  { pose proof (tables_apart s s2 ws X Y2 R2 (P3 (n / K)) n' Hg2 B3 Hroom ltac:(done)) as Ha. rewrite Et2 in Ha. cbn [fst MatrasTree.parent MatrasTree.node] in Ha. rewrite N2 in Ha. apply Ha; [done|done|by right]. }
  destruct (made_path s s3 ads ws X X Y3 R R3 n' e1 e2 e3 Hm Hn' HK Hg3) as (Hm' & Hx' & Hu'); rewrite ?Et3; try done; [by rewrite <- N2|]. rewrite Et3 in Hx', Hu'.
  rewrite Eoff. eexists _, s3, (Y3 ++ X), R3. split; [done|]. split; [apply (gr_ev _ _ _ _ _ _ Hg3)|]. right. pose proof (T block_offset n).
  split; [lia|]. split; [unfold MatrasTree.block; rewrite Et3; cbn in N3 |- *; by rewrite N3|]. rewrite Et3. split; [exact Hm'|]. split; [exact Hx'|exact Hu'].
Qed.

(** The newest view has [n'] blocks now, and the same contents in those it had. *)
Record resized (s s' : matras_state) (ws : list (Z * Z)) (n' : Z) : Prop := {
  rz_geom : geom (inst s') = geom (inst s);
  rz_self : self s' = self s;
  rz_views : views s' = views s;
  rz_head : head (inst s') = set_count (set_root (head (inst s)) (root (head (inst s')))) n';
  rz_top id : 0 <= id < block_count (head (inst s)) -> id < n' -> contents (mem s') (top s').1 id = contents (mem s) (top s).1 id;
  rz_ws v : v ∈ ws -> keeps (mem s) (mem s') v v;
}.

Lemma evolves_resized s s' ws n' : evolves s s' ws -> resized s (set_head s' (set_count (head (inst s')) n')) ws n'.
Proof.
  intros [E1 E2 E3 E4 E5 E6]. split; try done.
  - cbn. by rewrite E4.
  - intros id Hid _. by apply E5.
Qed.

Lemma evolves_same s s' ws : evolves s s' ws -> resized s s' ws (block_count (head (inst s))).
Proof.
  intros [E1 E2 E3 E4 E5 E6]. split; try done.
  intros id Hid _. by apply E5.
Qed.

Lemma alloc_spec s ads ws X R rid : minv s ads ws X R -> let n := block_count (head (inst s)) in
  exists p id s' X' R', matras_alloc s rid = Some (p, id, s') /\ minv s' ads ws X' R' /\
    (exact (mem s) (ws ++ [top s]) X -> exact (mem s') (ws ++ [top s']) X') /\
    ((p = NULL /\ id = rid /\ resized s s' ws n) \/
     (0 < p /\ p = block (mem s') (top s').1 n /\ id = n /\ resized s s' ws (n + 1) /\ n < capacity (inst s) /\ unshared (mem s') ws (top s') n)).
Proof.
  intros Hm n. pose proof (mi_count _ _ _ _ _ _ _ _ Hm) as Hc. fold n in Hc. pose proof (mi_geo _ _ _ _ _ _ _ _ Hm) as (_ & _ & _ & _ & _ & _ & Hcap & _).
  unfold matras_alloc. fold n. rewrite (proj2 (Z.leb_le _ _)) by lia. destruct (Z.eqb_spec n (capacity (inst s))) as [Hf|Hf].
  { exists NULL, rid, s, X, R. split_and!; try done. left. split_and!; try done. apply evolves_same, evolves_refl. }
  destruct (alloc_internal_spec s ads ws X R (n + 1) Hm) as (p & s' & X' & R' & -> & Hev & H); [fold n; lia| |].
  { fold n. pose proof (pow2_pos lk Hlk). pose proof (Z.div_mod n K ltac:(lia)). pose proof (Z.mod_pos_bound n K ltac:(lia)). nia. }
  cbn [mbind option_bind]. assert (En : block_count (head (inst s')) = n) by (rewrite (ev_head _ _ _ Hev); done).
  destruct H as [(-> & Hm' & Hx)|(Hp & Ep & Hm' & Hx & Hu)].
  - cbn [Z.eqb negb]. exists NULL, rid, s', X, R'. split_and!; try done. left. split_and!; try done. by apply evolves_same.
  - rewrite (proj2 (Z.eqb_neq p NULL)) by lia. cbn [negb]. rewrite En, u32_small, u64_small by lia. eexists p, n, _, X', R'. split; [done|]. split; [done|]. split; [done|].
    right. split_and!; try done; [|lia]. by apply evolves_resized.
Qed.

(** A range within an extent. *)
Lemma range_fits n k : 0 <= n -> 0 < k -> n mod k = 0 -> K mod k = 0 -> n + k <= (n / K + 1) * K.
Proof.
  intros Hn Hk H1 H2. pose proof (pow2_pos lk Hlk). apply Z.mod_divide in H1 as [a ->]; [|lia]. apply Z.mod_divide in H2 as [b Eb]; [|lia]. rewrite Eb.
  rewrite Z.div_mul_cancel_r by nia. pose proof (Z.div_mod a b ltac:(nia)). pose proof (Z.mod_pos_bound a b ltac:(nia)). nia.
Qed.

Lemma alloc_range_spec s ads ws X R rid k : minv s ads ws X R -> let n := block_count (head (inst s)) in
  0 < k < 2 ^ 32 -> n mod k = 0 -> K mod k = 0 ->
  exists p id s' X' R', matras_alloc_range s rid k = Some (p, id, s') /\ minv s' ads ws X' R' /\
    (exact (mem s) (ws ++ [top s]) X -> exact (mem s') (ws ++ [top s']) X') /\
    ((p = NULL /\ id = rid /\ resized s s' ws n) \/
     (0 < p /\ p = block (mem s') (top s').1 n /\ id = n /\ resized s s' ws (n + k) /\ n + k <= capacity (inst s) /\ unshared (mem s') ws (top s') n)).
Proof.
  intros Hm n Hk Hnk HKk. pose proof (mi_count _ _ _ _ _ _ _ _ Hm) as Hc. fold n in Hc. pose proof (mi_geo _ _ _ _ _ _ _ _ Hm) as (Ebs & Ees & _ & _ & _ & _ & Hcap & _).
  assert (EK : extent_size (inst s) / block_size (inst s) = K).
  { rewrite Ebs, Ees. pose proof (T tree_sizes) as (_ & _ & ? & _ & ->). apply Z.div_mul. lia. }
  unfold matras_alloc_range. fold n. rewrite EK, Hnk, HKk, (proj2 (Z.leb_le _ _)), (proj2 (Z.eqb_neq k 0)), u64_small by lia. cbn [Z.eqb negb].
  destruct (Z.gtb_spec (n + k) (capacity (inst s))) as [Hf|Hf].
  { exists NULL, rid, s, X, R. split_and!; try done. left. split_and!; try done. apply evolves_same, evolves_refl. }
  destruct (alloc_internal_spec s ads ws X R (n + k) Hm) as (p & s' & X' & R' & -> & Hev & H); [fold n; lia|fold n; apply range_fits; (done || lia)|].
  cbn [mbind option_bind]. assert (En : block_count (head (inst s')) = n) by (rewrite (ev_head _ _ _ Hev); done).
  destruct H as [(-> & Hm' & Hx)|(Hp & Ep & Hm' & Hx & Hu)].
  - cbn [Z.eqb negb]. exists NULL, rid, s', X, R'. split_and!; try done. left. split_and!; try done. by apply evolves_same.
  - rewrite (proj2 (Z.eqb_neq p NULL)) by lia. cbn [negb]. rewrite En, u32_small, u64_small by lia. eexists p, n, _, X', R'. split; [done|]. split; [done|]. split; [done|].
    right. split_and!; try done. by apply evolves_resized.
Qed.
End Ops.
