(* ===== verification/MatrasFree.v ===== *)
(** * Writes and deallocation in [Matras]

    What a write to a block that was touched does to the views, and
    [matras_dealloc], [matras_dealloc_range]. *)
From S2P Require Import Prelude Util Bytes Matras MatrasTree MatrasInv MatrasOps.

Section Free.
Context {E : Type} `{!ExtentAllocator E} {einv : Z -> E -> list Z -> Prop} `{!ExtentLaws einv}.
Context (lp lk lb : Z) (Hlp : 1 <= lp) (Hlk : 0 <= lk) (Hlb : 0 <= lb) (Hes : lk + lb = lp + 3) (H32 : lp + lk < 32) (Hes32 : lp + 3 < 32).
Local Abbreviation T f := (f lp lk lb Hlp Hlk Hlb Hes) (only parsing).
Local Abbreviation P := (2 ^ lp).
Local Abbreviation K := (2 ^ lk).
Local Abbreviation bs := (2 ^ lb).
Local Abbreviation es := (2 ^ (lp + 3)).
Local Abbreviation matras_state := (matras_state (E:=E)).
Local Abbreviation node := (node lp).
Local Abbreviation slot := (slot lp).
Local Abbreviation has := (has lp lk).
Local Abbreviation shares := (shares lp lk).
Local Abbreviation forest := (forest lp lk).
Local Abbreviation exts_ok := (exts_ok lp).
Local Abbreviation parent := (parent lp).
Local Abbreviation keeps := (keeps lp lk lb).
Local Abbreviation contents := (contents lp lk lb).
Local Abbreviation block := (block lp lk lb).
Local Abbreviation res := (res (einv:=einv) lp).
Local Abbreviation minv := (minv (einv:=einv) lp lk lb).
Local Abbreviation geo := (geo lp lk lb).

Local Abbreviation exact := (exact lp lk).
Local Abbreviation owns := (owns lp lk).
Local Abbreviation evolves := (evolves (E:=E) lp lk lb).
Local Abbreviation resized := (resized (E:=E) lp lk lb).

(** ** Writes *)

(** The bytes at [p] are written by the user. *)
Definition user_write (s : matras_state) (p : Z) (l : list Z) : matras_state := set_mem s (store (mem s) p l).

(** Nobody shares the extent of a block that the newest view owns. *)
Lemma owns_private M ws h X id v : forest M (ws ++ [h]) X -> 0 <= id -> owns M ws h id -> v ∈ ws -> ~ shares M v h (P3 (id / K)).
Proof.
  intros Hf Hid Ho Hv Hs. destruct ws as [|pv ws0 _] using rev_ind; [by apply elem_of_nil in Hv|].
  pose proof (shares_prev lp lk M ws0 pv h X v _ Hf Hv Hs) as Hsp. apply (Ho ws0 pv eq_refl) in Hsp; [done|apply Hsp|by right; right].
Qed.

(** A write to a block that no other view has in the same extent. *)
Lemma block_write_spec s ads ws X R id l : minv s ads ws X R -> 0 <= id < block_count (head (inst s)) ->
  (forall v, v ∈ ws -> shares (mem s) v (top s) (P3 (id / K)) -> v.2 <= id) -> Z.of_nat (length l) = bs ->
  let s' := user_write s (block (mem s) (top s).1 id) l in
  minv s' ads ws X R /\ (exact (mem s) (ws ++ [top s]) X -> exact (mem s') (ws ++ [top s']) X) /\ (forall v, v ∈ ws -> keeps (mem s) (mem s') v v) /\
  contents (mem s') (top s').1 id = l /\ (forall id', 0 <= id' < block_count (head (inst s)) -> id' <> id -> contents (mem s') (top s').1 id' = contents (mem s) (top s).1 id') /\
  (forall v w, v ∈ ws ++ [top s] -> has v.2 w -> node (mem s') v.1 w = node (mem s) v.1 w).
Proof.
  intros Hm Hid Ho Hl s'. destruct Hm as [M1 M2 M3 M4 M5 M6]. pose proof (res_exts lp _ _ _ M4) as HRX. pose proof (exts_app_r lp _ _ HRX) as HX.
  assert (Hsame : same_outside (mem s) (mem s') (block (mem s) (top s).1 id) bs) by (rewrite <- Hl; apply store_outside).
  destruct (T forest_write (mem s) (mem s') ws (top s) X id M3 HX Hid Ho Hsame) as (Hf & Hws & Eb & Hc & Hn).
  assert (Hh : top s ∈ ws ++ [top s]) by (apply elem_of_app; right; left). destruct (T has_block (top s).2 id Hid) as (_ & _ & H3 & _).
  split; [split; try done|split_and!]; try done.
  - apply (linked_core s); done.
  - apply (res_mem lp s); [done|]. intros q Hq. apply Hsame. pose proof (T block_offset id). intros Hin.
    apply (reserved_apart lp Hlp R X q (node (mem s) (top s).1 (P3 (id / K))) q HRX Hq); [by apply (fo_live _ _ _ _ _ M3)| |done]. unfold MatrasTree.block in Hin. cbn [MatrasTree.node]. lia.
  - intros Hx p Hp. destruct (Hx p Hp) as (v & w & Hv & Hw & <-). exists v, w. split_and!; [done|done|]. by apply Hn.
  - change (top s') with (top s). unfold MatrasTree.contents. rewrite Eb. rewrite <- Hl. apply load_store.
Qed.

(** ** Deallocation *)

(** The number of blocks is changed, and nothing else. *)
Definition cut (s : matras_state) (m : Z) : matras_state := set_head s (set_count (head (inst s)) m).

Lemma alloc_extent_cut s m : matras_alloc_extent (cut s m) = (let '(e, s') := matras_alloc_extent s in (e, cut s' m)).
Proof. unfold matras_alloc_extent. cbn. destruct (matras_allocator_alloc _ _) as [e a]. by destruct (e =? NULL). Qed.

Lemma copy_extent_cut s m ext : matras_copy_read_view_extent (cut s m) ext = ('(e, s') ← matras_copy_read_view_extent s ext; Some (e, cut s' m)).
Proof.
  unfold matras_copy_read_view_extent. rewrite alloc_extent_cut. destruct (matras_alloc_extent s) as [e s']. destruct (e =? NULL); [done|]. cbn. by destruct (memcpy _ _ _ _).
Qed.

Lemma own_extent_cut s m x y l l' : (forall s e, l' (cut s m) e = cut (l s e) m) ->
  own_extent (cut s m) x y l' = ('(e, s') ← own_extent s x y l; Some (e, cut s' m)).
Proof.
  intros Hl. unfold own_extent. destruct (x =? y); [|done]. rewrite copy_extent_cut. destruct (matras_copy_read_view_extent s x) as [[e s']|]; [|done].
  cbn. destruct (e =? NULL); [done|]. cbn. by rewrite Hl.
Qed.

Lemma touch_cut s m id : id < m -> id < block_count (head (inst s)) -> prev_view (head (inst s)) <> self s ->
  matras_touch (cut s m) id = ('(p, s') ← matras_touch s id; Some (p, cut s' m)).
Proof.
  intros Hm Hn Hpv. assert (Egv : get_view (cut s m) (prev_view (head (inst s))) = get_view s (prev_view (head (inst s)))).
  { unfold get_view. change (self (cut s m)) with (self s). by rewrite (proj2 (Z.eqb_neq _ _)). }
  assert (En : matras_needs_touch (cut s m) id = matras_needs_touch s id).
  { unfold matras_needs_touch. change (prev_view (head (inst (cut s m)))) with (prev_view (head (inst s))). rewrite Egv.
    change (block_count (head (inst (cut s m)))) with m. by rewrite !(proj2 (Z.ltb_lt _ _)) by lia. }
  unfold matras_touch. change (block_count (head (inst (cut s m)))) with m. rewrite En, !(proj2 (Z.ltb_lt _ _)) by lia.
  destruct (matras_needs_touch s id) as [[]|] eqn:Eneed; [|unfold matras_get, matras_view_get_no_check; cbn [mbind option_bind]|done].
  2:{ change (block_count (head (inst (cut s m)))) with m. by rewrite !(proj2 (Z.ltb_lt _ _)) by lia. }
  cbn [mbind option_bind]. unfold matras_touch_no_check. rewrite En, Eneed. cbn [mbind option_bind]. change (prev_view (head (inst (cut s m)))) with (prev_view (head (inst s))). rewrite Egv.
  destruct (get_view s (prev_view (head (inst s)))) as [pv|]; [|done]. cbn [mbind option_bind].
  change (root (head (inst (cut s m)))) with (root (head (inst s))).
  rewrite (own_extent_cut s m _ _ (fun s e => set_head s (set_root (head (inst s)) e)) _) by done. change (shift1 (inst (cut s m))) with (shift1 (inst s)).
  change (shift2 (inst (cut s m))) with (shift2 (inst s)). change (mask1 (inst (cut s m))) with (mask1 (inst s)). change (mask2 (inst (cut s m))) with (mask2 (inst s)).
  set (n1 := Z.shiftr id _). set (n2 := Z.shiftr _ _).
  destruct (own_extent s _ _ _) as [[[e1|] s1]|]; [cbn [mbind option_bind]|done|done]. change (mem (cut s1 m)) with (mem s1).
  rewrite (own_extent_cut s1 m _ _ (fun s e => store_ptr s (e1 + sizeof_ptr * n1) e)) by done.
  destruct (own_extent s1 _ _ _) as [[[e2|] s2]|]; [cbn [mbind option_bind]|done|done]. change (mem (cut s2 m)) with (mem s2).
  rewrite (own_extent_cut s2 m _ _ (fun s e => store_ptr s (e2 + sizeof_ptr * n2) e)) by done.
  by destruct (own_extent s2 _ _ _) as [[[e3|] s3]|].
Qed.

Lemma free_if_spec s X R (b : bool) e X' : res s ((if b then [e] else []) ++ X') R -> X = (if b then [e] else []) ++ X' ->
  exists s', (if b then matras_free_extent s e else Some s) = Some s' /\ core s' = core s /\ res s' X' R.
Proof. intros Hr ->. destruct b; [|by exists s]. by apply (free_extent_spec lp s (e :: X') R e X'). Qed.

Lemma res_perm s X X' R : res s X R -> X ≡ₚ X' -> res s X' R.
Proof. intros [R1 R2 R3 R4] HP. split; [apply (ext_perm _ _ _ _ R1); by rewrite HP|done|done|by rewrite <- HP]. Qed.

(** The blocks from [id] on, all in one extent, leave the newest view, which owns
    the extents above [id]. *)
Lemma blocks_leave s ads ws X R id : minv s ads ws X R -> let n := block_count (head (inst s)) in let r := (top s).1 in
  0 <= id < n -> n <= (id / K + 1) * K -> owns (mem s) ws (top s) id ->
  exists X', X ≡ₚ (node (mem s) r <$> begun lp lk id) ++ X' /\ forest (mem s) (ws ++ [(r, id)]) X' /\
    (exact (mem s) (ws ++ [top s]) X -> exact (mem s) (ws ++ [(r, id)]) X').
Proof.
  intros Hm n r Hid HK Ho. pose proof (mi_forest _ _ _ _ _ _ _ _ Hm) as Hf. pose proof (exts_app_r lp _ _ (res_exts lp _ _ _ (mi_res _ _ _ _ _ _ _ _ Hm))) as (Hnd & _).
  change (top s) with (r, n) in Hf, Ho |- *. assert (Hh : (r, n) ∈ ws ++ [(r, n)]) by (apply elem_of_app; right; left). set (M := mem s) in *.
  assert (Hgone : forall w, w ∈ begun lp lk id <-> has n w /\ ~ has id w) by (intros w; by apply (T begun_spec)).
  assert (Hst : forall w, w ∈ begun lp lk id -> start lp lk w = id) by (intros w [H1 H2]%Hgone; by apply (T new_places id n)).
  assert (Hf' : forest M (ws ++ [(r, id)]) X /\ (forall v w, v ∈ ws -> shares M v (r, n) w -> start lp lk w <> id)).
  { destruct ws as [|pv ws0 _] using rev_ind; [|by apply (T owned_shrink); [..|apply (Ho ws0 pv)]].
    split; [|by intros v w Hv%elem_of_nil]. apply (T forest_shrink M [] r n id X Hf); [lia|]. by intros v w id' Hv%elem_of_nil. }
  destruct Hf' as [Hf' Hpriv].
  assert (Hsub : node M r <$> begun lp lk id ⊆+ X).
  { apply NoDup_submseteq.
    - apply NoDup_fmap_2_strong; [|apply begun_nodup]. intros w w' [Hw _]%Hgone [Hw' _]%Hgone. by apply (fo_inj _ _ _ _ _ Hf (r, n) w (r, n) w').
    - intros p Hp. apply list_elem_of_fmap in Hp as (w & -> & [Hw _]%Hgone). by apply (fo_live _ _ _ _ _ Hf (r, n)). }
  apply submseteq_Permutation in Hsub as [X' HX']. exists X'. rewrite HX' in Hnd. apply NoDup_app in Hnd as (_ & Hdis & _).
  split; [done|split].
  - apply (forest_live lp lk M _ X X' Hf'). intros v w Hv Hw. pose proof (fo_live _ _ _ _ _ Hf' v w Hv Hw) as Hl. rewrite HX' in Hl. apply elem_of_app in Hl as [Hl|]; [exfalso|done].
    apply list_elem_of_fmap in Hl as (w' & En & Hg). pose proof (Hst w' Hg) as Est. apply Hgone in Hg as [Hw' Hno]. apply elem_of_app in Hv as [Hv|Hv].
    + pose proof (fo_inj _ _ _ _ _ Hf v w (r, n) w' ltac:(apply elem_of_app; by left) Hh Hw Hw' En) as <-. by apply (Hpriv v w Hv).
    + apply list_elem_of_singleton in Hv as ->. cbn [fst snd] in *. pose proof (has_mono lp lk id n w Hw ltac:(lia)) as Hwn.
      pose proof (fo_inj _ _ _ _ _ Hf (r, n) w (r, n) w' Hh Hh Hwn Hw' En) as <-. done.
  - intros Hx p Hp. destruct (Hx p) as (v & w & Hv & Hw & <-); [rewrite HX'; apply elem_of_app; by right|]. apply elem_of_app in Hv as [Hv|Hv]; [exists v, w; split_and!; [apply elem_of_app; by left|done|done]|].
    apply list_elem_of_singleton in Hv as ->. cbn [fst snd] in *. destruct (has_dec lp lk id n w Hw) as [Hi|Hno]; [exists (r, id), w; split_and!; [apply elem_of_app; right; left|done|done]|].
    exfalso. apply (Hdis (node M r w)); [|done]. apply list_elem_of_fmap. exists w. split; [done|]. by apply Hgone.
Qed.

Lemma resized_core (s s1 s' : matras_state) ws n : core s' = core s1 -> resized s s1 ws n -> resized s s' ws n.
Proof.
  intros Hc [Z1 Z2 Z3 Z4 Z5 Z6]. apply core_proj in Hc as (Eg & Eh & Es & Ev & Em). split; unfold top in *; rewrite ?Eg, ?Eh, ?Es, ?Ev, ?Em; done.
Qed.

(** The extents that begin with the removed block are freed. *)
Lemma frees_spec s X' R (b3 b2 b1 : bool) e3 e2 e1 :
  res s ((if b3 then [e3] else []) ++ (if b2 then [e2] else []) ++ (if b1 then [e1] else []) ++ X') R ->
  exists s', (if b1 || b2 || b3 then
      s ← (if b3 then matras_free_extent s e3 else Some s);
      s ← (if b2 then matras_free_extent s e2 else Some s);
      if b1 then matras_free_extent s e1 else Some s
    else Some s) = Some s' /\ core s' = core s /\ res s' X' R.
Proof.
  intros Hr. destruct (free_if_spec s _ R b3 e3 _ Hr eq_refl) as (s3 & E3 & C3 & Hr3). destruct (free_if_spec s3 _ R b2 e2 _ Hr3 eq_refl) as (s2 & E2 & C2 & Hr2).
  destruct (free_if_spec s2 _ R b1 e1 _ Hr2 eq_refl) as (s1 & E1 & C1 & Hr1). exists s1. split; [|split; [congruence|done]]. rewrite E3. cbn [mbind option_bind]. rewrite E2. cbn [mbind option_bind]. rewrite E1.
  destruct b1, b2, b3; try done. cbn in *. congruence.
Qed.

Lemma not_self s ads ws X R : minv s ads ws X R -> prev_view (head (inst s)) <> self s.
Proof.
  intros Hm. destruct (mi_linked _ _ _ _ _ _ _ _ Hm) as [L1 L2 L3 L4 L5 L6]. rewrite L6. intros Ep.
  assert (Hs : self s <> NULL) by (apply L2; left). destruct (length ads) as [|k] eqn:El; cbn [prev_of] in Ep; [done|].
  destruct (ads !! k) as [a|] eqn:Ea; cbn in Ep; [|done]. subst a. apply L3. by eapply list_elem_of_lookup_2.
Qed.

Lemma dealloc_cut s ads ws X R id p s1 : minv s ads ws X R -> let n := block_count (head (inst s)) in
  0 <= id < n -> n <= (id / K + 1) * K -> matras_touch s id = Some (p, s1) -> p <> NULL ->
  exists s' X' R', matras_dealloc (cut s (id + 1)) = Some s' /\ minv s' ads ws X' R' /\ resized s s' ws id /\
    (exact (mem s) (ws ++ [top s]) X -> exact (mem s') (ws ++ [top s']) X').
Proof.
  intros Hm n Hid HK Et Hp. destruct (touch_spec lp lk lb Hlp Hlk Hlb Hes H32 Hes32 s ads ws X R id Hm Hid) as (p' & s1' & X1 & R1 & Et' & Hm1 & Hev & Hx1 & H).
  rewrite Et in Et'. injection Et' as <- <-. destruct H as [[-> _]|(_ & _ & Ho & _)]; [done|].
  pose proof (id_range lp lk lb s ads ws X R id Hm Hid) as Hid32. assert (En1 : block_count (head (inst s1)) = n) by (by rewrite (ev_head _ _ _ _ _ _ Hev)).
  destruct (blocks_leave s1 ads ws X1 R1 id Hm1) as (X' & HX' & Hf' & Hx'); [by rewrite En1|by rewrite En1|done|].
  unfold matras_dealloc. change (block_count (head (inst (cut s (id + 1))))) with (id + 1). rewrite (proj2 (Z.eqb_neq (id + 1) 0)) by lia. cbn [negb].
  replace (id + 1 - 1) with id by lia. rewrite u32_small by lia. rewrite (touch_cut s (id + 1) id) by (done || lia || by apply (not_self s ads ws X R)). rewrite Et. cbn [mbind option_bind].
  change (set_head (cut s1 (id + 1)) _) with (cut s1 id). pose proof (mi_geo _ _ _ _ _ _ _ _ Hm1) as Hg1.
  destruct (split_id lp lk lb Hlp Hlk Hlb Hes Hes32 (inst (cut s1 id)) id Hg1 Hid32) as (-> & -> & _ & _ & -> & ->).
  pose proof (mi_res _ _ _ _ _ _ _ _ Hm1) as Hr1. pose proof (res_perm s1 _ _ R1 Hr1 HX') as Hr2. apply (res_head lp s1 _ _ (set_count (head (inst s1)) id)) in Hr2.
  destruct (frees_spec (cut s1 id) X' R1 (id mod K =? 0) (id mod (P * K) =? 0) (id =? 0) (node (mem s1) (top s1).1 (P3 (id / K))) (node (mem s1) (top s1).1 (P2 (id / K / P))) (top s1).1) as (s' & Es' & Hc' & Hr').
  { revert Hr2. unfold begun. rewrite !fmap_app, <- !app_assoc. by destruct (id mod K =? 0), (id mod (P * K) =? 0), (id =? 0). }
  exists s', X', R1. split; [exact Es'|]. pose proof (evolves_resized lp lk lb s s1 ws id Hev) as Hrz. pose proof (resized_core _ _ s' ws id Hc' Hrz) as Hrz'.
  apply core_proj in Hc' as (Eg & Eh & Es & Ev & Em). cbn [cut set_head inst head] in Eh.
  assert (Et2 : top s' = ((top s1).1, id)) by (unfold top; by rewrite Eh). split; [|split; [done|rewrite Et2, Em; intros Hx; apply Hx', Hx1, Hx]].
  destruct Hm1 as [M1 M2 M3 M4 M5 M6]. split; [apply (geo_geom lp lk lb (inst s1)); [done|done]| |rewrite Et2, Em; exact Hf'|done|..].
  - apply (linked_core s1); [done|done|done|by rewrite Eh].
  - injection Eg as _ _ Ec _ _ _ _. rewrite Eh, Ec. cbn. lia.
  - injection Eg as _ _ Ec _ _ _ _. by rewrite Ec.
Qed.

Lemma dealloc_spec s ads ws X R p s1 : minv s ads ws X R -> let n := block_count (head (inst s)) in
  0 < n -> matras_touch s (n - 1) = Some (p, s1) -> p <> NULL ->
  exists s' X' R', matras_dealloc s = Some s' /\ minv s' ads ws X' R' /\ resized s s' ws (n - 1) /\
    (exact (mem s) (ws ++ [top s]) X -> exact (mem s') (ws ++ [top s']) X').
Proof.
  intros Hm n Hn Et Hp. destruct (dealloc_cut s ads ws X R (n - 1) p s1 Hm) as (s' & X' & R' & E1 & H); [fold n; lia| |done|done|].
  - fold n. pose proof (pow2_pos lk Hlk). pose proof (Z.div_mod (n - 1) K ltac:(lia)). pose proof (Z.mod_pos_bound (n - 1) K ltac:(lia)). nia.
  - exists s', X', R'. split; [|done]. rewrite <- E1. f_equal. unfold cut. replace (n - 1 + 1) with n by lia. unfold n. by destruct s as [[[] ? ? ? ? ? ? ? ?] ? ? ? ? ?].
Qed.

Lemma dealloc_range_spec s ads ws X R k p s1 : minv s ads ws X R -> let n := block_count (head (inst s)) in
  0 < n -> 0 < k < 2 ^ 32 -> n mod k = 0 -> K mod k = 0 -> matras_touch s (n - k) = Some (p, s1) -> p <> NULL ->
  exists s' X' R', matras_dealloc_range s k = Some s' /\ minv s' ads ws X' R' /\ resized s s' ws (n - k) /\
    (exact (mem s) (ws ++ [top s]) X -> exact (mem s') (ws ++ [top s']) X').
Proof.
  intros Hm n Hn Hk Hnk HKk Et Hp. assert (Hle : k <= n) by (apply Z.mod_divide in Hnk as [q Hq]; [|lia]; assert (0 < q) by nia; nia).
  pose proof (mi_count _ _ _ _ _ _ _ _ Hm) as Hc. fold n in Hc. pose proof (mi_geo _ _ _ _ _ _ _ _ Hm) as (Ebs & Ees & _ & _ & _ & _ & Hcap & _).
  assert (EK : extent_size (inst s) / block_size (inst s) = K).
  { rewrite Ebs, Ees. pose proof (T tree_sizes) as (_ & _ & ? & _ & ->). apply Z.div_mul. lia. }
  destruct (dealloc_cut s ads ws X R (n - k) p s1 Hm) as (s' & X' & R' & E1 & H); [fold n; lia| |done|done|].
  - fold n. pose proof (T range_fits H32 Hes32 (n - k) k ltac:(lia) ltac:(lia)) as Hfit. replace (n - k + k) with n in Hfit by lia. apply Hfit; [|done].
    rewrite <- (Z.mod_add (n - k) 1 k) by lia. by replace (n - k + 1 * k) with n by lia.
  - exists s', X', R'. split; [|done]. unfold matras_dealloc_range. fold n. rewrite EK, Hnk, HKk, (proj2 (Z.eqb_neq k 0)) by lia. cbn [Z.eqb negb].
    rewrite u32_small, u64_small by lia. by replace (n - (k - 1)) with (n - k + 1) by lia.
Qed.
End Free.
