(* ===== verification/MatrasViews.v ===== *)
(** * Read views of [Matras]

    [matras_create_read_view] and [matras_destroy_read_view]: the list of views, and
    the extents that a view leaves. *)
From S2P Require Import Prelude Util Bytes Matras MatrasTree MatrasInv MatrasOps MatrasFree.

Section Views.
Context {E : Type} `{!ExtentAllocator E} {einv : Z -> E -> list Z -> Prop} `{!ExtentLaws einv}.
Context (lp lk lb : Z) (Hlp : 1 <= lp) (Hlk : 0 <= lk) (Hlb : 0 <= lb) (Hes : lk + lb = lp + 3) (H32 : lp + lk < 32) (Hes32 : lp + 3 < 32).
Local Abbreviation T f := (f lp lk lb Hlp Hlk Hlb Hes) (only parsing).
Local Abbreviation P := (2 ^ lp).
Local Abbreviation K := (2 ^ lk).
Local Abbreviation bs := (2 ^ lb).
Local Abbreviation es := (2 ^ (lp + 3)).
Local Abbreviation matras_state := (matras_state (E:=E)).
Local Abbreviation node := (node lp).
Local Abbreviation slot := (slot lp).
Local Abbreviation has := (has lp lk).
Local Abbreviation shares := (shares lp lk).
Local Abbreviation forest := (forest lp lk).
Local Abbreviation exts_ok := (exts_ok lp).
Local Abbreviation parent := (parent lp).
Local Abbreviation keeps := (keeps lp lk lb).
Local Abbreviation contents := (contents lp lk lb).
Local Abbreviation block := (block lp lk lb).
Local Abbreviation res := (res (einv:=einv) lp).
Local Abbreviation minv := (minv (einv:=einv) lp lk lb).
Local Abbreviation geo := (geo lp lk lb).

Local Abbreviation exact := (exact lp lk).
Local Abbreviation owns := (owns lp lk).
Local Abbreviation evolves := (evolves (E:=E) lp lk lb).
Local Abbreviation resized := (resized (E:=E) lp lk lb).


(** ** The list of views *)

Lemma get_put (s : matras_state) a w b : get_view (put_view s a w) b = if a =? b then Some w else get_view s b.
Proof.
  unfold put_view, get_view. destruct (Z.eqb_spec a (self s)) as [->|Ha]; cbn.
  - rewrite (Z.eqb_sym b). by destruct (self s =? b).
  - destruct (Z.eqb_spec b (self s)) as [->|Hb]; [by rewrite (proj2 (Z.eqb_neq _ _))|]. destruct (Z.eqb_spec a b) as [->|Hab]; [apply lookup_insert_eq|by apply lookup_insert_ne].
Qed.

(** Only the views are different. *)
Definition rest (s : matras_state) : _ := (geom (inst s), extent_count (inst s), self s, allocator s, mem s).

Lemma rest_put (s : matras_state) a w : rest (put_view s a w) = rest s.
Proof. unfold put_view. by destruct (a =? self s). Qed.

Lemma self_rest (s s' : matras_state) : rest s' = rest s -> self s' = self s.
Proof. unfold rest. congruence. Qed.

Lemma res_rest s s' X R : rest s' = rest s -> res s X R -> res s' X R.
Proof. intros Er [R1 R2 R3 R4]. injection Er as _ _ _ _ _ _ _ Ec _ Ea Em. split; rewrite ?Ec, ?Ea, ?Em; done. Qed.

(** [linked] by [get_view]. *)
Lemma linked_get (s : matras_state) ads ws i a : linked s ads ws -> ads !! i = Some a -> exists v, get_view s a = Some v /\ ws !! i = Some (root v, block_count v) /\
  prev_view v = prev_of ads i /\ next_view v = next_of (self s) ads i.
Proof.
  intros HL Ha. destruct (li_view _ _ _ HL i a Ha) as (v & Hv & H). exists v. split; [|done]. unfold get_view. rewrite (proj2 (Z.eqb_neq _ _)); [done|].
  intros ->. apply (li_self _ _ _ HL). by eapply list_elem_of_lookup_2.
Qed.

Lemma linked_intro (s : matras_state) ads ws : NoDup ads -> (forall a, a ∈ self s :: ads -> a <> NULL) -> self s ∉ ads -> length ws = length ads ->
  (forall i a, ads !! i = Some a -> exists v, get_view s a = Some v /\ ws !! i = Some (root v, block_count v) /\
    prev_view v = prev_of ads i /\ next_view v = next_of (self s) ads i) ->
  prev_view (head (inst s)) = prev_of ads (length ads) -> linked s ads ws.
Proof.
  intros H1 H2 H3 H4 H5 H6. split; try done. intros i a Ha. destruct (H5 i a Ha) as (v & Hv & H). exists v. split; [|done]. unfold get_view in Hv.
  rewrite (proj2 (Z.eqb_neq _ _)) in Hv; [done|]. intros ->. apply H3. by eapply list_elem_of_lookup_2.
Qed.

Lemma get_self (s : matras_state) : get_view s (self s) = Some (head (inst s)).
Proof. unfold get_view. by rewrite Z.eqb_refl. Qed.

Lemma rest_minv s s1 s' ads ws ads' ws' X X' R : minv s ads ws X R -> rest s1 = rest s -> top s1 = top s -> linked s1 ads' ws' -> core s' = core s1 ->
  forest (mem s) (ws' ++ [top s]) X' -> res s' X' R -> (forall v, v ∈ ws' -> v ∈ ws \/ v = top s) -> minv s' ads' ws' X' R.
Proof.
  intros [M1 M2 M3 M4 M5 M6] Er Et HL Hc Hf Hr Hsub. injection Er as E1 E2 E3 E4 E5 E6 E7 E8 E9 E10 E11. pose proof Hc as Hc'. apply core_proj in Hc' as (Eg & Eh & Es & Ev & Em).
  assert (Egs : geom (inst s') = geom (inst s)) by (rewrite Eg; unfold geom; congruence). assert (Ec : capacity (inst s') = capacity (inst s)) by (injection Egs; congruence).
  assert (Et' : top s' = top s) by (unfold top in *; by rewrite Eh). assert (En : block_count (head (inst s')) = block_count (head (inst s))) by (unfold top in Et'; congruence). split; [|..|done| |].
  - by apply (geo_geom lp lk lb (inst s)).
  - apply (linked_core s1); [done|done|done|by rewrite Eh].
  - by rewrite Et', Em, E11.
  - by rewrite En, Ec.
  - intros v [Hv| ->]%Hsub; rewrite Ec; [by apply M6|apply M5].
Qed.

(** ** Creation *)

(** The view before the head, if any, is the newest one. *)
Lemma last_view (s : matras_state) ads ws : linked s ads ws ->
  prev_view (head (inst s)) <> NULL -> prev_view (head (inst s)) ∈ ads.
Proof.
  intros HL Hz. rewrite (li_head _ _ _ HL) in Hz |- *. destruct (length ads) as [|k]; [done|]. cbn in *.
  destruct (ads !! k) eqn:Ek; [by eapply list_elem_of_lookup_2|done].
Qed.

(** What [matras_create_read_view] leaves: the head and the new view are linked,
    and the newest of the views before is followed by the new one. *)
Definition view_created (s s' : matras_state) (v : Z) : Prop := let h := head (inst s) in rest s' = rest s /\
  forall a, get_view s' a = if (prev_view h =? a) && negb (a =? NULL) then (fun pv => set_next_view pv v) <$> get_view s a
    else if self s =? a then Some (set_prev_view h v) else if v =? a then Some (set_next_view h (self s)) else get_view s a.

Lemma create_view_state (s : matras_state) ads ws v : linked s ads ws -> v <> self s -> v ∉ ads ->
  exists s', matras_create_read_view s v = Some s' /\ view_created s s' v.
Proof.
  intros HL Hvs Hva. unfold view_created. set (h := head (inst s)).
  unfold matras_create_read_view. fold h. set (w := set_next_view h (self s)). set (s1 := put_view s v w).
  assert (Eh1 : head (inst s1) = h) by (unfold s1, put_view; by rewrite (proj2 (Z.eqb_neq v (self s)))).
  assert (Es1 : self s1 = self s) by (unfold s1; by rewrite (self_rest _ _ (rest_put s v w))). rewrite Eh1.
  set (h2 := set_prev_view h v). replace (set_head s1 h2) with (put_view s1 (self s1) h2) by (unfold put_view; by rewrite Z.eqb_refl). set (s2 := put_view s1 (self s1) h2).
  assert (G2 : forall a, get_view s2 a = if self s =? a then Some h2 else if v =? a then Some w else get_view s a) by (intros a; unfold s2; rewrite get_put, Es1; unfold s1; by rewrite get_put).
  assert (Er2 : rest s2 = rest s) by (unfold s2, s1; by rewrite !rest_put). change (prev_view w) with (prev_view h).
  destruct (Z.eqb_spec (prev_view h) NULL) as [Hz|Hz]; cbn [negb].
  - exists s2. split; [done|]. split; [done|]. intros a. rewrite <- G2. destruct (Z.eqb_spec (prev_view h) a) as [<-|]; [by rewrite Hz|done].
  - pose proof (last_view s ads ws HL Hz) as Hin. fold h in Hin.
    assert (Hne : get_view s2 (prev_view h) = get_view s (prev_view h)).
    { rewrite G2, !(proj2 (Z.eqb_neq _ _)); [done|by intros ->|intros E1; apply (li_self _ _ _ HL); by rewrite E1]. }
    rewrite Hne. apply list_elem_of_lookup in Hin as [k Hk]. destruct (linked_get s ads ws k _ HL Hk) as (pv & Hpv & _). rewrite Hpv. cbn [mbind option_bind].
    eexists. split; [done|]. split; [by rewrite rest_put|]. intros a. rewrite get_put, <- G2. destruct (Z.eqb_spec (prev_view h) a) as [<-|]; [|done].
    rewrite (proj2 (Z.eqb_neq _ _)) by done. by rewrite Hpv.
Qed.

Lemma created_head (s s' : matras_state) ads ws v : linked s ads ws -> view_created s s' v -> head (inst s') = set_prev_view (head (inst s)) v.
Proof.
  intros HL [Er G]. pose proof (get_self s') as Eh. rewrite (self_rest _ _ Er), G in Eh.
  destruct (Z.eqb_spec (prev_view (head (inst s))) (self s)) as [Ep|]; cbn [andb] in Eh; [|rewrite Z.eqb_refl in Eh; congruence].
  exfalso. apply (li_self _ _ _ HL). rewrite <- Ep. apply (last_view s ads ws HL). rewrite Ep. apply (li_addr _ _ _ HL). left.
Qed.

Lemma created_linked (s s' : matras_state) ads ws v : linked s ads ws -> v <> NULL -> v <> self s -> v ∉ ads -> view_created s s' v ->
  linked s' (ads ++ [v]) (ws ++ [top s]).
Proof.
  intros HL Hv0 Hvs Hva Hc. pose proof (created_head s s' ads ws v HL Hc) as Eh'. destruct Hc as [Er G].
  pose proof (self_rest _ _ Er) as Es. pose proof (li_length _ _ _ HL) as Hlen. pose proof (li_head _ _ _ HL) as Hph. set (h := head (inst s)) in *.
  apply linked_intro; rewrite ?Es.
  - apply NoDup_app. split_and!; [apply (li_nodup _ _ _ HL)|intros a Ha Hin; apply list_elem_of_singleton in Hin as ->; done|apply NoDup_singleton].
  - intros a [->|[Ha|Ha]%elem_of_app]%elem_of_cons; [apply (li_addr _ _ _ HL); left|apply (li_addr _ _ _ HL); by right|by apply list_elem_of_singleton in Ha as ->].
  - intros [Ha|Ha]%elem_of_app; [by apply (li_self _ _ _ HL)|apply list_elem_of_singleton in Ha; congruence].
  - rewrite !length_app. cbn. lia.
  - intros i a Hi. apply lookup_app_Some in Hi as [Hi|[Hge Hi]].
    + destruct (linked_get s ads ws i a HL Hi) as (u & Hu & Hw & Hp & Hn). pose proof (lookup_lt_Some _ _ _ Hi) as Hlt.
      assert (Hain : a ∈ ads) by (by eapply list_elem_of_lookup_2).
      assert (Hprev : prev_of (ads ++ [v]) i = prev_of ads i) by (destruct i; [done|cbn; by rewrite lookup_app_l by lia]).
      rewrite G, Hu, Hprev. rewrite lookup_app_l by lia. unfold next_of in *. destruct (decide (S i = length ads)) as [Hl|Hl].
      * assert (prev_view h = a) as -> by (rewrite Hph, <- Hl; cbn; by rewrite Hi).
        rewrite Z.eqb_refl, (proj2 (Z.eqb_neq a NULL)) by (apply (li_addr _ _ _ HL); by right).
        eexists. split; [done|]. split_and!; [done|done|]. rewrite lookup_app_r, Hl, Nat.sub_diag by lia. done.
      * replace ((prev_view h =? a) && negb (a =? NULL)) with false.
        -- rewrite !(proj2 (Z.eqb_neq _ a)) by (intros <-; (done || by apply (li_self _ _ _ HL))). exists u. split_and!; try done. by rewrite lookup_app_l by lia.
        -- destruct (Z.eqb_spec (prev_view h) a) as [Ea|]; [|done]. exfalso. rewrite Hph in Ea. destruct (length ads) as [|k] eqn:El; [lia|]. cbn in Ea.
           destruct (lookup_lt_is_Some_2 ads k) as [b Hb]; [lia|]. rewrite Hb in Ea. cbn in Ea. subst b. pose proof (NoDup_lookup _ _ _ _ (li_nodup _ _ _ HL) Hi Hb). lia.
    + apply list_lookup_singleton_Some in Hi as [Hi0 <-]. assert (i = length ads) as -> by lia. rewrite G.
      destruct (Z.eqb_spec (prev_view h) v) as [Ep|]; cbn [andb]; [by destruct Hva; rewrite <- Ep; apply (last_view s ads ws HL); fold h; rewrite Ep|].
      rewrite (proj2 (Z.eqb_neq (self s) v)), Z.eqb_refl by congruence. eexists. split_and!; [done| | |].
      * rewrite lookup_app_r, <- Hlen, Nat.sub_diag by lia. done.
      * change (prev_view (set_next_view h (self s))) with (prev_view h). rewrite Hph. destruct (length ads) eqn:El; [done|cbn; by rewrite lookup_app_l by lia].
      * unfold next_of. by rewrite lookup_ge_None_2 by (rewrite length_app; cbn; lia).
  - rewrite Eh', length_app. cbn [length]. rewrite Nat.add_comm. cbn. by rewrite list_lookup_middle.
Qed.

Lemma create_read_view_spec (s : matras_state) ads ws X R v : minv s ads ws X R -> v <> NULL -> v ∉ self s :: ads ->
  exists s', matras_create_read_view s v = Some s' /\ minv s' (ads ++ [v]) (ws ++ [top s]) X R /\ mem s' = mem s /\ top s' = top s /\
    (exact (mem s) (ws ++ [top s]) X -> exact (mem s') ((ws ++ [top s]) ++ [top s']) X).
Proof.
  intros Hm Hv0 Hv. apply not_elem_of_cons in Hv as [Hvs Hva]. pose proof (mi_linked _ _ _ _ _ _ _ _ Hm) as HL.
  destruct (create_view_state s ads ws v HL Hvs Hva) as (s' & -> & Hc). pose proof (created_head s s' ads ws v HL Hc) as Eh'. pose proof Hc as [Er _].
  assert (Et : top s' = top s) by (unfold top; by rewrite Eh'). assert (Em : mem s' = mem s) by (unfold rest in Er; congruence).
  exists s'. split; [done|]. split; [|split_and!; [done|done|]].
  - apply (rest_minv s s' s' ads ws (ads ++ [v]) (ws ++ [top s]) X X R Hm Er Et); [by apply (created_linked s)|done|apply (forest_dup lp lk), (mi_forest _ _ _ _ _ _ _ _ Hm)|apply (res_rest s); [done|apply (mi_res _ _ _ _ _ _ _ _ Hm)]|].
    intros u [Hu|Hu]%elem_of_app; [by left|right; by apply list_elem_of_singleton in Hu].
  - intros Hx p Hp. destruct (Hx p Hp) as (u & w' & Hu & Hw & <-). exists u, w'. rewrite Em. split_and!; [apply elem_of_app; by left|done|done].
Qed.

(** ** Unlinking *)

Lemma unlink_get (s : matras_state) v w nv : get_view s v = Some w -> get_view s (next_view w) = Some nv ->
  (prev_view w <> NULL -> exists pv, get_view s (prev_view w) = Some pv) -> v <> next_view w -> v <> prev_view w -> prev_view w <> next_view w ->
  exists s', unlink_view s v w = Some s' /\ rest s' = rest s /\
    forall a, get_view s' a = if v =? a then Some (set_next_view w NULL)
      else if (prev_view w =? a) && negb (a =? NULL) then (fun u => set_next_view u (next_view w)) <$> get_view s a
      else if next_view w =? a then Some (set_prev_view nv (prev_view w)) else get_view s a.
Proof.
  intros Hw Hnv Hpv D1 D2 D3. unfold unlink_view. rewrite Hnv. cbn [mbind option_bind]. set (s1 := put_view s (next_view w) _).
  assert (G1 : forall a, get_view s1 a = if next_view w =? a then Some (set_prev_view nv (prev_view w)) else get_view s a) by (intros a; unfold s1; by rewrite get_put).
  assert (Er1 : rest s1 = rest s) by (unfold s1; by rewrite rest_put). destruct (Z.eqb_spec (prev_view w) NULL) as [Hz|Hz]; cbn [negb mbind option_bind].
  - rewrite G1, (proj2 (Z.eqb_neq (next_view w) v)), Hw by done. cbn [mbind option_bind]. eexists. split; [done|]. split; [by rewrite rest_put|]. intros a. rewrite get_put, G1.
    destruct (Z.eqb_spec v a); [done|]. destruct (Z.eqb_spec (prev_view w) a) as [<-|]; [|done]. rewrite Hz. done.
  - destruct (Hpv Hz) as [pv Ep]. rewrite G1, (proj2 (Z.eqb_neq (next_view w) (prev_view w))), Ep by done. cbn [mbind option_bind].
    rewrite get_put, (proj2 (Z.eqb_neq (prev_view w) v)), G1, (proj2 (Z.eqb_neq (next_view w) v)), Hw by done. cbn [mbind option_bind].
    eexists. split; [done|]. split; [by rewrite !rest_put|]. intros a. rewrite !get_put, G1. destruct (Z.eqb_spec v a); [done|].
    destruct (Z.eqb_spec (prev_view w) a) as [<-|]; [|done]. rewrite (proj2 (Z.eqb_neq _ _)) by done. cbn. by rewrite Ep.
Qed.

Lemma lookup_del {A} (l1 l2 : list A) x j : (l1 ++ l2) !! j = (l1 ++ x :: l2) !! (if decide (j < length l1)%nat then j else S j).
Proof.
  case_decide as Hj; [by rewrite !lookup_app_l by lia|]. rewrite !lookup_app_r by lia. by replace (S j - length l1)%nat with (S (j - length l1)) by lia.
Qed.

Lemma lookup_same (l : list Z) i j a b : NoDup l -> l !! i = Some a -> l !! j = Some b -> (a =? b) = bool_decide (i = j).
Proof.
  intros Hnd Ha Hb. case_bool_decide as Hij.
  - subst j. rewrite Ha in Hb. injection Hb as <-. apply Z.eqb_refl.
  - apply Z.eqb_neq. intros ->. apply Hij. by apply (NoDup_lookup l i j b).
Qed.

(** The neighbours of a view. *)
Record around (s : matras_state) (a1 a2 : list Z) (v : Z) (w : matras_view) : Prop := {
  ar_view : get_view s v = Some w;
  ar_prev : prev_view w = prev_of (a1 ++ v :: a2) (length a1);
  ar_next : next_view w = next_of (self s) (a1 ++ v :: a2) (length a1);
  ar_prev_in k : length a1 = S k -> (a1 ++ v :: a2) !! k = Some (prev_view w);
  ar_prev_null : length a1 = 0%nat <-> prev_view w = NULL;
  ar_next_in : a2 <> [] -> (a1 ++ v :: a2) !! S (length a1) = Some (next_view w);
  ar_next_self : a2 = [] <-> next_view w = self s;
}.

Lemma linked_around (s : matras_state) a1 a2 v ws : linked s (a1 ++ v :: a2) ws -> exists w, around s a1 a2 v w /\ ws !! length a1 = Some (root w, block_count w).
Proof.
  intros HL. assert (Hi : (a1 ++ v :: a2) !! length a1 = Some v) by by apply list_lookup_middle. destruct (linked_get s _ ws _ v HL Hi) as (w & Hw & Hws & Hp & Hn).
  exists w. split; [|done]. assert (Hk : forall k, length a1 = S k -> (a1 ++ v :: a2) !! k = Some (prev_view w)).
  { intros k Ek. rewrite Hp, Ek. cbn. destruct (lookup_lt_is_Some_2 (a1 ++ v :: a2) k) as [b Hb]; [rewrite length_app; lia|]. by rewrite Hb. }
  assert (Hk2 : a2 <> [] -> (a1 ++ v :: a2) !! S (length a1) = Some (next_view w)).
  { intros Hne. rewrite Hn. unfold next_of. destruct (lookup_lt_is_Some_2 (a1 ++ v :: a2) (S (length a1))) as [b Hb]; [rewrite length_app; destruct a2; [done|cbn; lia]|]. by rewrite Hb. }
  split; try done; split.
  - intros E0. by rewrite Hp, E0.
  - intros E0. destruct (length a1) as [|k] eqn:El; [done|]. pose proof (Hk k eq_refl) as Hin. rewrite E0 in Hin. destruct (li_addr _ _ _ HL NULL); [right; by eapply list_elem_of_lookup_2|done].
  - intros ->. rewrite Hn. unfold next_of. by rewrite lookup_ge_None_2 by (rewrite length_app; cbn; lia).
  - intros Es. destruct a2 as [|b a2]; [done|]. destruct (li_self _ _ _ HL). rewrite <- Es. eapply list_elem_of_lookup_2. by apply Hk2.
Qed.

Lemma around_apart (s : matras_state) a1 a2 v w ws : linked s (a1 ++ v :: a2) ws -> around s a1 a2 v w ->
  v <> self s /\ next_view w <> NULL /\ v <> next_view w /\ v <> prev_view w /\ prev_view w <> next_view w.
Proof.
  intros HL [A1 A2 A3 A4 A5 A6 A7]. pose proof (li_nodup _ _ _ HL) as Hnd. assert (Hmid : (a1 ++ v :: a2) !! length a1 = Some v) by by apply list_lookup_middle.
  assert (Hin : v ∈ a1 ++ v :: a2) by (by eapply list_elem_of_lookup_2). assert (Hvs : v <> self s) by (intros ->; by apply (li_self _ _ _ HL)).
  assert (Hnn : next_view w <> NULL) by (destruct a2; [rewrite (proj1 A7) by done; apply (li_addr _ _ _ HL); left|apply (li_addr _ _ _ HL); right; eapply list_elem_of_lookup_2; by apply A6]).
  assert (Hat : forall i b, (a1 ++ v :: a2) !! i = Some b -> i <> length a1 -> v <> b) by (intros i b Hi Hne ->; apply Hne; by apply (NoDup_lookup _ _ _ _ Hnd Hi)).
  split_and!; [done|done|..].
  - destruct a2 as [|b a2]; [by rewrite (proj1 A7)|]. apply (Hat (S (length a1))); [by apply A6|lia].
  - destruct (length a1) as [|k] eqn:El; [rewrite (proj1 A5) by done; apply (li_addr _ _ _ HL); by right|]. apply (Hat k); [by apply A4|lia].
  - intros Ev. destruct (length a1) as [|k] eqn:El; [by apply Hnn; rewrite <- Ev; apply A5|]. pose proof (A4 k eq_refl) as Hk. destruct a2 as [|b a2].
    + apply (li_self _ _ _ HL). rewrite <- (proj1 A7 eq_refl), <- Ev. by eapply list_elem_of_lookup_2.
    + pose proof (A6 ltac:(done)) as Hn. rewrite <- Ev in Hn. pose proof (NoDup_lookup _ _ _ _ Hnd Hk Hn). lia.
Qed.

(** The views after [unlink_view]. *)
Definition unlinked (s s' : matras_state) (v : Z) (w nv : matras_view) : Prop :=
  forall a, get_view s' a = if v =? a then Some (set_next_view w NULL)
      else if (prev_view w =? a) && negb (a =? NULL) then (fun u => set_next_view u (next_view w)) <$> get_view s a
      else if next_view w =? a then Some (set_prev_view nv (prev_view w)) else get_view s a.

(** The links of a view that stays, at index [j]. *)
Lemma unlinked_at s s' a1 a2 v w nv ws j a : linked s (a1 ++ v :: a2) ws -> around s a1 a2 v w -> get_view s (next_view w) = Some nv -> unlinked s s' v w nv ->
  self s' = self s -> (a1 ++ a2) !! j = Some a ->
  exists u, get_view s' a = Some u /\ ws !! (if decide (j < length a1)%nat then j else S j) = Some (root u, block_count u) /\
    prev_view u = prev_of (a1 ++ a2) j /\ next_view u = next_of (self s') (a1 ++ a2) j.
Proof.
  intros HL [A1 A2 A3 A4 A5 A6 A7] Hnv HG Es Hj. set (ads := a1 ++ v :: a2) in *. rewrite (lookup_del a1 a2 v j) in Hj. fold ads in Hj. set (j' := if decide _ then j else S j) in *.
  destruct (linked_get s ads ws j' a HL Hj) as (u & Hu & Hw & Hp & Hn). pose proof (li_nodup _ _ _ HL) as Hnd.
  assert (Hv : ads !! length a1 = Some v) by by apply list_lookup_middle.
  assert (Haz : a <> NULL) by (apply (li_addr _ _ _ HL); right; by eapply list_elem_of_lookup_2).
  assert (Has : a <> self s) by (intros ->; apply (li_self _ _ _ HL); by eapply list_elem_of_lookup_2).
  assert (Eva : (v =? a) = false) by (rewrite (lookup_same ads (length a1) j' v a Hnd Hv Hj); apply bool_decide_false; unfold j'; case_decide; lia).
  assert (Epa : (prev_view w =? a) && negb (a =? NULL) = bool_decide (S j' = length a1)).
  { rewrite (proj2 (Z.eqb_neq a NULL)) by done. rewrite andb_true_r. destruct (length a1) as [|k] eqn:El.
    - rewrite (proj1 A5) by done. rewrite bool_decide_false by lia. apply Z.eqb_neq. congruence.
    - rewrite (lookup_same ads k j' _ a Hnd (A4 k eq_refl) Hj). apply bool_decide_ext. lia. }
  assert (Ena : (next_view w =? a) = bool_decide (j' = S (length a1))).
  { destruct (decide (a2 = [])) as [Hz|Hz].
    - rewrite (proj1 A7 Hz), bool_decide_false; [apply Z.eqb_neq; congruence|]. apply lookup_lt_Some in Hj. unfold ads in Hj. rewrite Hz, length_app in Hj. cbn in Hj. lia.
    - rewrite (lookup_same ads _ j' _ a Hnd (A6 Hz) Hj). apply bool_decide_ext. lia. }
  rewrite (HG a), Eva, Epa, Ena. rewrite Es. unfold next_of. rewrite (lookup_del a1 a2 v (S j)). fold ads.
  assert (Hprev : j <> length a1 -> prev_of ads j' = prev_of (a1 ++ a2) j).
  { intros Hne. unfold j', ads. clear -Hne. destruct j as [|k]; [by rewrite decide_True by lia|]. cbn [prev_of]. rewrite (lookup_del a1 a2 v k). repeat case_decide; cbn [prev_of]; (done || lia). }
  destruct (decide (S j' = length a1)) as [B1|B1]; [rewrite bool_decide_true by done|rewrite bool_decide_false by done; destruct (decide (j' = S (length a1))) as [B2|B2]; [rewrite bool_decide_true by done|rewrite bool_decide_false by done]].
  - rewrite Hu. exists (set_next_view u (next_view w)). split; [done|]. split; [done|]. assert (j' = j) as Ej by (unfold j' in *; case_decide; lia). split.
    + cbn. rewrite Hp, Hprev by lia. done.
    + cbn. rewrite decide_False by lia. rewrite A3. unfold next_of. fold ads. by replace (S (S j)) with (S (length a1)) by lia.
  - assert (j = length a1 /\ j' = S j) as [Ej Ej'] by (unfold j' in *; case_decide; lia). assert (a = next_view w) as -> by (symmetry; apply Z.eqb_eq; rewrite Ena; by apply bool_decide_true).
    rewrite Hnv in Hu. injection Hu as <-. eexists. split; [done|]. split; [done|]. cbn. split.
    + rewrite A2, Ej. destruct (length a1) as [|k] eqn:El; [done|]. cbn. rewrite (lookup_del a1 a2 v k), decide_True by lia. done.
    + rewrite Hn. unfold next_of. rewrite decide_False by lia. by rewrite Ej'.
  - exists u. split; [done|]. split; [done|]. split.
    + rewrite Hp. apply Hprev. unfold j' in *. case_decide; lia.
    + rewrite Hn. unfold next_of. f_equal. unfold j' in *. repeat case_decide; try lia; done.
Qed.

Lemma linked_unlink s s' a1 a2 v w nv w1 wv w2 : linked s (a1 ++ v :: a2) (w1 ++ wv :: w2) -> length w1 = length a1 ->
  around s a1 a2 v w -> get_view s (next_view w) = Some nv -> unlinked s s' v w nv -> self s' = self s -> linked s' (a1 ++ a2) (w1 ++ w2) /\ top s' = top s.
Proof.
  intros HL Hlen Har Hnv HG Es. pose proof (li_nodup _ _ _ HL) as Hnd. pose proof Har as [A1 A2 A3 A4 A5 A6 A7].
  assert (Hsub : forall a, a ∈ a1 ++ a2 -> a ∈ a1 ++ v :: a2) by (intros a; rewrite !elem_of_app, elem_of_cons; tauto).
  assert (Hsv : v <> self s) by (intros ->; apply (li_self _ _ _ HL); rewrite elem_of_app; right; left).
  assert (Hps : (prev_view w =? self s) && negb (self s =? NULL) = false).
  { destruct (Z.eqb_spec (prev_view w) (self s)) as [Ep|]; [|done]. cbn [andb]. destruct (Z.eqb_spec (self s) NULL) as [|Hz]; [done|exfalso]. destruct (length a1) as [|k] eqn:El; [by apply Hz; rewrite <- Ep; apply A5|].
    apply (li_self _ _ _ HL). rewrite <- Ep. eapply list_elem_of_lookup_2. by apply (A4 k). }
  pose proof (get_self s') as Gs. rewrite Es, (HG (self s)), (proj2 (Z.eqb_neq v (self s))), Hps, get_self in Gs by done. split.
  - apply linked_intro; rewrite ?Es.
    + apply NoDup_app in Hnd as (N1 & N2 & N3). apply NoDup_cons in N3 as [_ N3]. apply NoDup_app. split_and!; [done| |done]. intros x Hx Hin. apply (N2 x Hx). by right.
    + intros a [->|Ha]%elem_of_cons; apply (li_addr _ _ _ HL); [left|right; by apply Hsub].
    + intros Ha. by apply (li_self _ _ _ HL), Hsub.
    + pose proof (li_length _ _ _ HL) as Hl. rewrite !length_app in *. cbn in Hl. lia.
    + intros j a Hj. destruct (unlinked_at s s' a1 a2 v w nv _ j a HL Har Hnv HG Es Hj) as (u & H1 & H2 & H3 & H4). exists u. rewrite <- Es. split_and!; try done.
      by rewrite (lookup_del w1 w2 wv j), Hlen.
    + destruct (Z.eqb_spec (next_view w) (self s)) as [En|En].
      * injection Gs as <-. apply A7 in En as ->. cbn. rewrite app_nil_r, A2. destruct (length a1) as [|k] eqn:El; [done|]. cbn. by rewrite lookup_app_l by lia.
      * injection Gs as <-. rewrite (li_head _ _ _ HL). destruct a2 as [|b a2]; [by destruct En; apply A7|]. rewrite !length_app. cbn [length]. rewrite !Nat.add_succ_r. cbn [prev_of].
        rewrite (lookup_del a1 (b :: a2) v), decide_False by lia. done.
  - unfold top. destruct (Z.eqb_spec (next_view w) (self s)) as [En|En]; injection Gs as <-; [|done]. rewrite En, get_self in Hnv. injection Hnv as <-. done.
Qed.
End Views.
