(* ===== verification/MatrasDestroy.v ===== *)
(** * Destruction in [Matras]

    The loops of [matras_destroy_read_view] and [matras_destroy] over the extents of
    a view, and what they leave. *)
From S2P Require Import Prelude Util Bytes Matras MatrasTree MatrasInv MatrasOps MatrasFree MatrasViews.

Section Destroy.
Context {E : Type} `{!ExtentAllocator E} {einv : Z -> E -> list Z -> Prop} `{!ExtentLaws einv}.
Context (lp lk lb : Z) (Hlp : 1 <= lp) (Hlk : 0 <= lk) (Hlb : 0 <= lb) (Hes : lk + lb = lp + 3) (H32 : lp + lk < 32) (Hes32 : lp + 3 < 32).
Local Abbreviation T f := (f lp lk lb Hlp Hlk Hlb Hes) (only parsing).
Local Abbreviation P := (2 ^ lp).
Local Abbreviation K := (2 ^ lk).
Local Abbreviation bs := (2 ^ lb).
Local Abbreviation es := (2 ^ (lp + 3)).
Local Abbreviation matras_state := (matras_state (E:=E)).
Local Abbreviation node := (node lp).
Local Abbreviation slot := (slot lp).
Local Abbreviation has := (has lp lk).
Local Abbreviation shares := (shares lp lk).
Local Abbreviation forest := (forest lp lk).
Local Abbreviation exts_ok := (exts_ok lp).
Local Abbreviation parent := (parent lp).
Local Abbreviation keeps := (keeps lp lk lb).
Local Abbreviation contents := (contents lp lk lb).
Local Abbreviation block := (block lp lk lb).
Local Abbreviation res := (res (einv:=einv) lp).
Local Abbreviation minv := (minv (einv:=einv) lp lk lb).
Local Abbreviation geo := (geo lp lk lb).

Local Abbreviation exact := (exact lp lk).
Local Abbreviation owns := (owns lp lk).
Local Abbreviation evolves := (evolves (E:=E) lp lk lb).
Local Abbreviation resized := (resized (E:=E) lp lk lb).



(** ** The places that a loop visits

    [sk] are the places it passes by, [n] is the number of blocks. *)
Section Places.
Context (sk : place -> bool) (n : Z).

Fixpoint doomed3 (k : nat) (x : Z) : list place :=
  match k with
  | O => []
  | S k => if start lp lk (P3 x) <? n then (if sk (P3 x) then [] else [P3 x]) ++ doomed3 k (x + 1) else []
  end.
Fixpoint doomed2 (k : nat) (i : Z) : list place :=
  match k with
  | O => []
  | S k =>
      if start lp lk (P2 i) <? n then
        (if sk (P2 i) then [] else doomed3 (Z.to_nat P) (i * P) ++ [P2 i]) ++ doomed2 k (i + 1)
      else []
  end.
Definition doomed : list place := doomed2 (Z.to_nat P) 0 ++ [P1].

Lemma elem_doomed3 k x w : w ∈ doomed3 k x <-> exists y, w = P3 y /\ x <= y < x + Z.of_nat k /\ y * K < n /\ sk (P3 y) = false.
Proof.
  pose proof (pow2_pos lk Hlk). revert x. induction k as [|k IH]; intros x; cbn [doomed3].
  - rewrite elem_of_nil. split; [done|]. intros (y & _ & Hy & _). lia.
  - cbn [start]. destruct (Z.ltb_spec (x * K) n) as [Hlt|Hge].
    + rewrite elem_of_app, IH. split.
      * intros [Hw|(y & -> & Hy & H1)]; [|exists y; split_and!; [done|lia|lia|by apply H1|by apply H1]].
        destruct (sk (P3 x)) eqn:Es; [by apply elem_of_nil in Hw|]. apply list_elem_of_singleton in Hw as ->. exists x. split_and!; [done|lia|lia|done|done].
      * intros (y & -> & Hy & H1 & H2). destruct (decide (y = x)) as [->|]; [left; rewrite H2; left|right]. exists y. split_and!; [done|lia|lia|done|done].
    + rewrite elem_of_nil. split; [done|]. intros (y & _ & Hy & H1 & _). nia.
Qed.

Lemma elem_doomed2 k i w : 0 <= i -> w ∈ doomed2 k i <-> exists j, i <= j < i + Z.of_nat k /\ j * (P * K) < n /\ sk (P2 j) = false /\ (w = P2 j \/ w ∈ doomed3 (Z.to_nat P) (j * P)).
Proof.
  pose proof (T tree_sizes) as (? & ? & _). revert i. induction k as [|k IH]; intros i Hi; cbn [doomed2].
  - rewrite elem_of_nil. split; [done|]. intros (y & Hy & _). lia.
  - cbn [start]. destruct (Z.ltb_spec (i * (P * K)) n) as [Hlt|Hge].
    + rewrite elem_of_app, IH by lia. split.
      * intros [Hw|(y & Hy & H1 & H2 & H3)]; [|exists y; split_and!; [lia|lia|done|done|done]].
        destruct (sk (P2 i)) eqn:Es; [by apply elem_of_nil in Hw|]. exists i. split_and!; [lia|lia|done|done|]. apply elem_of_app in Hw as [Hw|Hw]; [by right|left; by apply list_elem_of_singleton in Hw].
      * intros (y & Hy & H1 & H2 & H3). destruct (decide (y = i)) as [->|]; [left; rewrite H2|right; exists y; split_and!; [lia|lia|done|done|done]].
        apply elem_of_app. destruct H3 as [->|H3]; [right; left|by left].
    + rewrite elem_of_nil. split; [done|]. intros (y & Hy & H1 & _). assert (i * (P * K) <= y * (P * K)) by (apply Z.mul_le_mono_nonneg_r; nia). lia.
Qed.

Lemma nodup_doomed3 k x : NoDup (doomed3 k x).
Proof.
  revert x. induction k as [|k IH]; intros x; cbn [doomed3]; [constructor|]. destruct (_ <? n); [|constructor]. destruct (sk (P3 x)); [apply IH|]. cbn. apply NoDup_cons. split; [|apply IH].
  rewrite elem_doomed3. intros (y & [= ->] & Hy & _). lia.
Qed.

Lemma nodup_doomed2 k i : 0 <= i -> NoDup (doomed2 k i).
Proof.
  pose proof (T tree_sizes) as (? & ? & _). revert i. induction k as [|k IH]; intros i Hi; cbn [doomed2]; [constructor|]. destruct (_ <? n); [|constructor]. destruct (sk (P2 i)); [apply IH; lia|].
  apply NoDup_app. split_and!; [| |apply IH; lia].
  - apply NoDup_app. split_and!; [apply nodup_doomed3| |apply NoDup_singleton]. intros w Hw ->%list_elem_of_singleton. by apply elem_doomed3 in Hw as (? & ? & _).
  - intros w Hw Hw2. apply elem_doomed2 in Hw2 as (j & Hj & _ & _ & Hw2); [|lia]. apply elem_of_app in Hw as [Hw|Hw].
    + apply elem_doomed3 in Hw as (y & -> & Hy & _). destruct Hw2 as [?|Hw2]; [done|]. apply elem_doomed3 in Hw2 as (y' & [= ->] & Hy' & _). nia.
    + apply list_elem_of_singleton in Hw as ->. destruct Hw2 as [[= ->]|Hw2]; [lia|]. by apply elem_doomed3 in Hw2 as (? & ? & _).
Qed.

(** The places of the view such that nothing on the way to them is passed by. *)
Lemma doomed_spec w : 0 < n -> room lp lk n -> w ∈ doomed <-> has n w /\ match w with P1 => True | P2 i => sk (P2 i) = false | P3 x => sk (P3 x) = false /\ sk (P2 (x / P)) = false end.
Proof.
  intros Hn Hr. pose proof (T tree_sizes) as (? & ? & _). unfold doomed. rewrite elem_of_app, elem_doomed2, list_elem_of_singleton by lia. split.
  - intros [(j & Hj & H1 & H2 & [->|Hw])| ->]; [split; [split; cbn; lia|done]| |split; [split; [done|cbn; lia]|done]].
    apply elem_doomed3 in Hw as (y & -> & Hy & H3 & H4). assert (y / P = j) as -> by (symmetry; apply (Z.div_unique y P j (y - j * P)); lia). split; [split; cbn; nia|done].
  - intros [Hw Hs]. pose proof (T room_index n w Hr Hw) as Hi. pose proof (T has_parent n w Hw) as [Hp1 Hp2]. destruct Hw as [W1 W2]. destruct w as [|i|x]; [by right|left..]; cbn in *.
    + exists i. split_and!; [lia|lia|done|done|by left].
    + exists (x / P). destruct Hs as [S1 S2]. split_and!; [lia|lia|lia|done|]. right. apply elem_doomed3. exists x. pose proof (Z.div_mod x P ltac:(lia)). pose proof (Z.mod_pos_bound x P ltac:(lia)).
      split_and!; [done|lia|lia|lia|done].
Qed.

Lemma nodup_doomed : NoDup doomed.
Proof.
  apply NoDup_app. split_and!; [apply nodup_doomed2; lia| |apply NoDup_singleton]. intros w Hw ->%list_elem_of_singleton.
  apply elem_doomed2 in Hw as (j & _ & _ & _ & [?|Hw]); [done| |lia]. by apply elem_doomed3 in Hw as (? & ? & _).
Qed.
End Places.

(** ** The loops *)

(** The extent at a place is that of another view, too. *)
Definition shared (M : memory) (r : Z) (b : option (Z * Z)) (w : place) : bool :=
  match b with Some u => (start lp lk w <? u.2) && (node M r w =? node M u.1 w) | None => false end.

Abbreviation sig v := (root v, block_count v).
Definition passed (M : memory) (v nv : matras_view) (pv : option matras_view) (w : place) : bool :=
  shared M (root v) (Some (sig nv)) w || shared M (root v) ((fun u => sig u) <$> pv) w.

(** The counters of the loops. *)
Lemma loop_sizes (s : matras_state) : geo (inst s) -> extent_size (inst s) / sizeof_ptr = P /\ u32 (mask1 (inst s) + 1) = P * K /\ u32 (mask2 (inst s) + 1) = K.
Proof.
  intros (_ & -> & _ & _ & -> & -> & _). pose proof (T tree_sizes) as (? & ? & ? & -> & _). pose proof (pow2_mono (lp + lk) 31 ltac:(lia)). pose proof (pow2_mono lk (lp + lk) ltac:(lia)).
  split_and!; [change sizeof_ptr with 8; rewrite Z.mul_comm; apply Z.div_mul; lia|rewrite u32_small by lia; rewrite Z.pow_add_r by lia; lia|rewrite u32_small by lia; lia].
Qed.

Lemma geo_core (s s' : matras_state) : core s' = core s -> geo (inst s) -> geo (inst s').
Proof. intros Hc. apply geo_geom. by apply core_proj in Hc as (? & _). Qed.

Lemma view_loop2_spec fuel (s : matras_state) M X' R v nv pv i1 i2 e2n e2p : mem s = M -> geo (inst s) -> block_count v <= 2 ^ 32 - P * K ->
  0 <= i1 -> i1 * (P * K) < block_count v -> 0 <= i2 -> i2 + Z.of_nat fuel = P ->
  e2n = (if block_count nv >? i1 * (P * K) then node2 M (root nv) i1 else NULL) ->
  e2p = match pv with Some p => if block_count p >? i1 * (P * K) then node2 M (root p) i1 else NULL | None => NULL end ->
  res s ((node M (root v) <$> doomed3 (passed M v nv pv) (block_count v) fuel (i1 * P + i2)) ++ X') R ->
  exists s', destroy_view_loop2 fuel s v nv pv (node2 M (root v) i1) e2n e2p (i1 * (P * K)) i2 (i2 * K) = Some s' /\ core s' = core s /\ res s' X' R.
Proof.
  intros Em Hgeo Hcap Hi1 Hj1 Hi2 Hfuel Hn Hp. pose proof (T tree_sizes) as (? & ? & _). revert s i2 Em Hgeo Hi2 Hfuel. induction fuel as [|fuel IH]; intros s i2 Em Hgeo Hi2 Hfuel Hres; cbn [destroy_view_loop2];
    destruct (loop_sizes s Hgeo) as (Esz & _ & Est); rewrite Esz, ?Est.
  { rewrite (proj2 (Z.ltb_ge _ _)) by lia. by exists s. }
  rewrite (proj2 (Z.ltb_lt i2 P)) by lia. cbn [andb doomed3 start] in *. set (x := i1 * P + i2) in *.
  assert (Ex : i1 * (P * K) + i2 * K = x * K) by (unfold x; lia). assert (Hx32 : x * K < 2 ^ 32) by nia. rewrite Ex, (u32_small (x * K)) by nia.
  destruct (Z.ltb_spec (x * K) (block_count v)) as [Hlt|Hge]; [|by exists s].
  assert (Hdiv : x / P = i1 /\ x mod P = i2).
  { split; symmetry; [apply (Z.div_unique x P i1 i2)|apply (Z.mod_unique x P i1 i2)]; unfold x; lia. }
  assert (Hsh : shared_at s (Some nv) (x * K) (node2 M (root v) i1) e2n i2 || shared_at s pv (x * K) (node2 M (root v) i1) e2p i2 = passed M v nv pv (P3 x)).
  { unfold passed. cbn [shared_at shared fst snd start fmap option_fmap option_map]. rewrite Em. change sizeof_ptr with 8. destruct Hdiv as [D1 D2]. f_equal.
    - rewrite Z.gtb_ltb. destruct (Z.ltb_spec (x * K) (block_count nv)) as [Hnv|]; [|done]. cbn [andb]. rewrite Hn, (proj2 (Z.gtb_lt _ _)) by nia. cbn. unfold node3. by rewrite D1, D2.
    - destruct pv as [p|]; [|done]. cbn [shared_at shared fmap option_fmap option_map fst snd start]. rewrite Em, Z.gtb_ltb. destruct (Z.ltb_spec (x * K) (block_count p)) as [Hpv|]; [|done]. cbn [andb]. change sizeof_ptr with 8.
      rewrite Hp, (proj2 (Z.gtb_lt _ _)) by nia. cbn. unfold node3. by rewrite D1, D2. }
  rewrite Hsh. clear Hsh. set (b := passed M v nv pv (P3 x)) in *.
  assert (Hstep : exists s1, (if b then Some s else matras_free_read_view_extent s (mem s (node2 M (root v) i1 + sizeof_ptr * i2))) = Some s1 /\ core s1 = core s /\
      res s1 ((node M (root v) <$> doomed3 (passed M v nv pv) (block_count v) fuel (x + 1)) ++ X') R).
  { destruct b; [by exists s|]. apply (free_read_view_extent_spec lp s _ R _ _ Hres). rewrite Em. cbn. unfold node3. destruct Hdiv as [-> ->]. done. }
  destruct Hstep as (s1 & -> & Hc & Hres1). cbn [mbind option_bind]. pose proof (core_proj _ _ Hc) as (_ & _ & _ & _ & Em1).
  rewrite (u32_small (i2 + 1)), (u32_small (i2 * K + K)) by (pose proof (pow2_mono lp 31 ltac:(lia)); nia).
  destruct (IH s1 (i2 + 1)) as (s2 & E2 & Hc2 & Hres2); [congruence|by apply (geo_core s)|lia|lia|by replace (i1 * P + (i2 + 1)) with (x + 1) by (unfold x; lia)|].
  exists s2. split; [|split; [congruence|done]]. by replace (i2 * K + K) with ((i2 + 1) * K) by lia.
Qed.

Lemma view_loop1_spec fuel (s : matras_state) M X' R v nv pv i1 : mem s = M -> geo (inst s) -> block_count v <= 2 ^ 32 - P * K -> room lp lk (block_count v) ->
  0 <= i1 -> i1 + Z.of_nat fuel = P ->
  res s ((node M (root v) <$> doomed2 (passed M v nv pv) (block_count v) fuel i1) ++ X') R ->
  exists s', destroy_view_loop1 fuel s v nv pv (root v) (root nv) (match pv with Some p => root p | None => NULL end) i1 (i1 * (P * K)) = Some s' /\ core s' = core s /\ res s' X' R.
Proof.
  intros Em Hgeo Hcap Hroom. pose proof (T tree_sizes) as (? & ? & _). revert s i1 Em Hgeo. induction fuel as [|fuel IH]; intros s i1 Em Hgeo Hi1 Hfuel Hres; cbn [destroy_view_loop1];
    destruct (loop_sizes s Hgeo) as (Esz & Est & _); rewrite ?Esz, ?Est.
  { rewrite (proj2 (Z.ltb_ge _ _)) by (unfold room in Hroom; nia). by exists s. }
  cbn [doomed2 start] in Hres. destruct (Z.ltb_spec (i1 * (P * K)) (block_count v)) as [Hlt|Hge]; [|by exists s].
  assert (Hsh : shared_at s (Some nv) (i1 * (P * K)) (root v) (root nv) i1 || shared_at s pv (i1 * (P * K)) (root v) (match pv with Some p => root p | None => NULL end) i1 = passed M v nv pv (P2 i1)).
  { unfold passed. cbn [shared_at shared fst snd start fmap option_fmap option_map]. rewrite Em. change sizeof_ptr with 8. rewrite Z.gtb_ltb. f_equal.
    destruct pv as [p|]; [|done]. cbn [shared_at shared fmap option_fmap option_map fst snd start]. by rewrite Em, Z.gtb_ltb. }
  rewrite Hsh. clear Hsh. rewrite Em. change sizeof_ptr with 8. fold (node2 M (root v) i1). set (b := passed M v nv pv (P2 i1)) in *.
  assert (Hstep : exists s1, (if b then Some s else
       s ← destroy_view_loop2 (Z.to_nat P) s v nv pv (node2 M (root v) i1) (if block_count nv >? i1 * (P * K) then M (root nv + 8 * i1) else NULL)
             (match pv with Some p => if block_count p >? i1 * (P * K) then M (match pv with Some p => root p | None => NULL end + 8 * i1) else NULL | None => NULL end) (i1 * (P * K)) 0 0;
       matras_free_read_view_extent s (node2 M (root v) i1)) = Some s1 /\ core s1 = core s /\ res s1 ((node M (root v) <$> doomed2 (passed M v nv pv) (block_count v) fuel (i1 + 1)) ++ X') R).
  { destruct b; [by exists s|]. rewrite fmap_app, <- app_assoc in Hres.
    destruct (view_loop2_spec (Z.to_nat P) s M ([node2 M (root v) i1] ++ (node M (root v) <$> doomed2 (passed M v nv pv) (block_count v) fuel (i1 + 1)) ++ X') R v nv pv i1 0 _ _ Em Hgeo Hcap Hi1 Hlt ltac:(lia) ltac:(lia) eq_refl eq_refl) as (s1 & E1 & Hc1 & Hres1).
    { rewrite Z.add_0_r. rewrite fmap_app, <- app_assoc in Hres. exact Hres. }
    destruct (free_read_view_extent_spec lp s1 _ R (node2 M (root v) i1) ((node M (root v) <$> doomed2 (passed M v nv pv) (block_count v) fuel (i1 + 1)) ++ X') Hres1) as (s2 & E2 & Hc2 & Hres2); [done|].
    exists s2. split; [|split; [congruence|done]]. change (0 * K) with 0 in E1. unfold node2 in E1, E2 |- *. destruct pv as [p|]; cbv iota in E1 |- *; rewrite E1; cbn [mbind option_bind]; done. }
  destruct Hstep as (s1 & E1 & Hc & Hres1). rewrite E1. cbn [mbind option_bind]. pose proof (core_proj _ _ Hc) as (_ & _ & _ & _ & Em1).
  rewrite (u32_small (i1 + 1)), (u32_small (i1 * (P * K) + P * K)) by (pose proof (pow2_mono lp 31 ltac:(lia)); nia).
  destruct (IH s1 (i1 + 1)) as (s2 & E2 & Hc2 & Hres2); [congruence|by apply (geo_core s)|lia|lia|done|].
  exists s2. split; [|split; [congruence|done]]. by replace (i1 * (P * K) + P * K) with ((i1 + 1) * (P * K)) by lia.
Qed.

(** The same for the newest view, of which nothing is passed by. *)
Abbreviation nothing := (fun _ : place => false).

Lemma loop2_spec fuel (s : matras_state) M X' R i1 i2 : mem s = M -> geo (inst s) -> let n := block_count (head (inst s)) in let r := root (head (inst s)) in
  n <= 2 ^ 32 - P * K -> 0 <= i1 -> i1 * (P * K) < n -> 0 <= i2 -> i2 + Z.of_nat fuel = P ->
  res s ((node M r <$> doomed3 nothing n fuel (i1 * P + i2)) ++ X') R ->
  exists s', destroy_loop2 fuel s (node2 M r i1) (i1 * (P * K)) i2 (i2 * K) = Some s' /\ core s' = core s /\ res s' X' R.
Proof.
  intros Em Hgeo n r Hcap Hi1 Hj1 Hi2 Hfuel. pose proof (T tree_sizes) as (? & ? & _). assert (Eh : (r, n) = top s) by done. clearbody n r. revert s i2 Em Hgeo Eh Hi2 Hfuel.
  induction fuel as [|fuel IH]; intros s i2 Em Hgeo Eh Hi2 Hfuel Hres; cbn [destroy_loop2]; destruct (loop_sizes s Hgeo) as (Esz & _ & Est); rewrite Esz, ?Est.
  { rewrite (proj2 (Z.ltb_ge _ _)) by lia. by exists s. }
  rewrite (proj2 (Z.ltb_lt i2 P)) by lia. cbn [andb doomed3 start] in *. set (x := i1 * P + i2) in *.
  assert (Ex : i1 * (P * K) + i2 * K = x * K) by (unfold x; lia). assert (Hx32 : x * K < 2 ^ 32) by nia. rewrite Ex, (u32_small (x * K)) by nia.
  replace (block_count (head (inst s))) with n by (unfold top in Eh; congruence).
  destruct (Z.ltb_spec (x * K) n) as [Hlt|Hge]; [|by exists s].
  assert (Hdiv : x / P = i1 /\ x mod P = i2).
  { split; symmetry; [apply (Z.div_unique x P i1 i2)|apply (Z.mod_unique x P i1 i2)]; unfold x; lia. }
  destruct (free_extent_spec lp s _ R (mem s (node2 M r i1 + sizeof_ptr * i2)) ((node M r <$> doomed3 nothing n fuel (x + 1)) ++ X') Hres) as (s1 & -> & Hc & Hres1). { rewrite Em. cbn. unfold node3. destruct Hdiv as [-> ->]. done. }
  cbn [mbind option_bind]. pose proof (core_proj _ _ Hc) as (_ & Eh1 & _ & _ & Em1).
  rewrite (u32_small (i2 + 1)), (u32_small (i2 * K + K)) by (pose proof (pow2_mono lp 31 ltac:(lia)); nia).
  destruct (IH s1 (i2 + 1)) as (s2 & E2 & Hc2 & Hres2); [congruence|by apply (geo_core s)|unfold top in *; congruence|lia|lia|by replace (i1 * P + (i2 + 1)) with (x + 1) by (unfold x; lia)|].
  exists s2. split; [|split; [congruence|done]]. by replace (i2 * K + K) with ((i2 + 1) * K) by lia.
Qed.

Lemma loop1_spec fuel (s : matras_state) M X' R i1 : mem s = M -> geo (inst s) -> let n := block_count (head (inst s)) in let r := root (head (inst s)) in
  n <= 2 ^ 32 - P * K -> room lp lk n -> 0 <= i1 -> i1 + Z.of_nat fuel = P ->
  res s ((node M r <$> doomed2 nothing n fuel i1) ++ X') R ->
  exists s', destroy_loop1 fuel s r i1 (i1 * (P * K)) = Some s' /\ core s' = core s /\ res s' X' R.
Proof.
  intros Em Hgeo n r Hcap Hroom Hi1 Hfuel. pose proof (T tree_sizes) as (? & ? & _). assert (Eh : (r, n) = top s) by done. clearbody n r. revert s i1 Em Hgeo Eh Hi1 Hfuel.
  induction fuel as [|fuel IH]; intros s i1 Em Hgeo Eh Hi1 Hfuel Hres; cbn [destroy_loop1]; destruct (loop_sizes s Hgeo) as (Esz & Est & _); rewrite ?Esz, ?Est;
    replace (block_count (head (inst s))) with n by (unfold top in Eh; congruence).
  { rewrite (proj2 (Z.ltb_ge _ _)) by (unfold room in Hroom; nia). by exists s. }
  cbn [doomed2 start] in Hres. destruct (Z.ltb_spec (i1 * (P * K)) n) as [Hlt|Hge]; [|by exists s].
  rewrite Em. change sizeof_ptr with 8. fold (node2 M r i1). rewrite !fmap_app, <- !app_assoc in Hres.
  destruct (loop2_spec (Z.to_nat P) s M ([node2 M r i1] ++ (node M r <$> doomed2 nothing n fuel (i1 + 1)) ++ X') R i1 0 Em Hgeo) as (s1 & E1 & Hc1 & Hres1);
    [unfold top in Eh; injection Eh as -> ->; first [lia|rewrite Z.add_0_r; exact Hres]..|].
  replace (root (head (inst s))) with r in E1 by (unfold top in Eh; congruence). change (0 * K) with 0 in E1. rewrite E1. cbn [mbind option_bind].
  destruct (free_extent_spec lp s1 _ R (node2 M r i1) ((node M r <$> doomed2 nothing n fuel (i1 + 1)) ++ X') Hres1) as (s2 & E2 & Hc2 & Hres2); [done|]. rewrite E2. cbn [mbind option_bind].
  assert (Hc : core s2 = core s) by congruence. pose proof (core_proj _ _ Hc) as (_ & Eh1 & _ & _ & Em1).
  rewrite (u32_small (i1 + 1)), (u32_small (i1 * (P * K) + P * K)) by (pose proof (pow2_mono lp 31 ltac:(lia)); nia).
  destruct (IH s2 (i1 + 1)) as (s3 & E3 & Hc3 & Hres3); [congruence|by apply (geo_core s)|unfold top in *; congruence|lia|lia|done|].
  exists s3. split; [|split; [congruence|done]]. by replace (i1 * (P * K) + P * K) with ((i1 + 1) * (P * K)) by lia.
Qed.

(** ** The extents that a view leaves *)

Lemma shared_iff M v u w : has v.2 w -> shared M v.1 (Some u) w = true <-> shares M v u w.
Proof.
  intros Hw. unfold shared. rewrite andb_true_iff, Z.ltb_lt, Z.eqb_eq. split.
  - intros [H1 H2]. split_and!; [done|split; [apply Hw|done]|done].
  - intros (_ & [_ H1] & H2). done.
Qed.

(** The neighbours of the view at [length w1] in [w1 ++ v :: w2]. *)
Lemma shares_neighbour M w1 v n w2 X u w : forest M (w1 ++ v :: n :: w2) X -> u ∈ w1 ++ n :: w2 -> shares M v u w ->
  shares M v n w \/ exists w0 p, w1 = w0 ++ [p] /\ shares M v p w.
Proof.
  intros Hf Hu Hs. set (vs := w1 ++ v :: n :: w2) in *. assert (Hv : vs !! length w1 = Some v) by by apply list_lookup_middle.
  assert (Hn : vs !! S (length w1) = Some n) by (unfold vs; rewrite lookup_app_r, Nat.sub_succ_l, Nat.sub_diag by lia; done).
  apply elem_of_app in Hu as [Hu|Hu].
  - right. destruct w1 as [|p w0 _] using rev_ind; [by apply elem_of_nil in Hu|]. exists w0, p. split; [done|]. apply list_elem_of_lookup in Hu as [i Hi].
    pose proof (lookup_lt_Some _ _ _ Hi) as Hlt. rewrite length_app in Hlt, Hv. cbn in Hlt, Hv. rewrite Nat.add_1_r in Hv.
    assert (Hp : vs !! length w0 = Some p) by (unfold vs; rewrite <- app_assoc; by apply list_lookup_middle).
    destruct (decide (i = length w0)) as [->|Hne]; [rewrite list_lookup_middle in Hi by done; injection Hi as <-; done|].
    assert (Hup : shares M u p w).
    { apply (fo_mid _ _ _ _ _ Hf i (length w0) (S (length w0)) u p v w); [lia|unfold vs; apply lookup_app_Some; by left|done|done|by apply shares_sym]. }
    by apply (shares_trans lp lk M v u p).
  - left. apply elem_of_cons in Hu as [->|Hu]; [done|]. apply list_elem_of_lookup in Hu as [i Hi].
    apply (fo_mid _ _ _ _ _ Hf (length w1) (S (length w1)) (S (S (length w1)) + i) v n u w); [lia|done|done| |done].
    unfold vs. rewrite lookup_app_r by lia. by replace (S (S (length w1)) + i - length w1)%nat with (S (S i)) by lia.
Qed.

(** An extent below a shared one is shared by those that have it. *)
Lemma shares_child M v u w : shares M v u (parent w) -> has v.2 w -> has u.2 w -> shares M v u w.
Proof.
  intros (_ & _ & Es) Hv Hu. split_and!; [done|done|]. destruct w as [|i|x]; cbn in *; [done|unfold node2; by rewrite Es|unfold node3; by rewrite Es].
Qed.

(** The older view has the extents below those it shares with the newer one. *)
Definition tight (M : memory) (p v : Z * Z) : Prop := forall w, has v.2 w -> shares M v p (parent w) -> has p.2 w.

Lemma leave_spec M w1 v n w2 X F : forest M (w1 ++ v :: n :: w2) X -> NoDup X -> NoDup F ->
  (forall w, w ∈ F -> has v.2 w /\ ~ shares M v n w /\ forall w0 p, w1 = w0 ++ [p] -> ~ shares M v p w) ->
  exists X', X ≡ₚ (node M v.1 <$> F) ++ X' /\ forest M (w1 ++ n :: w2) X' /\
    ((forall w, has v.2 w -> w ∈ F \/ exists u, u ∈ w1 ++ n :: w2 /\ shares M v u w) -> exact M (w1 ++ v :: n :: w2) X -> exact M (w1 ++ n :: w2) X').
Proof.
  intros Hf Hnd HF Hown. assert (Hv : v ∈ w1 ++ v :: n :: w2) by (apply elem_of_app; right; left).
  assert (Hsub : forall u, u ∈ w1 ++ n :: w2 -> u ∈ w1 ++ v :: n :: w2) by (intros u; rewrite !elem_of_app, !elem_of_cons; tauto).
  assert (HFX : node M v.1 <$> F ⊆+ X).
  { apply NoDup_submseteq.
    - apply NoDup_fmap_2_strong; [|done]. intros w w' [Hw _]%Hown [Hw' _]%Hown. by apply (fo_inj _ _ _ _ _ Hf v w v w').
    - intros p Hp. apply list_elem_of_fmap in Hp as (w & -> & [Hw _]%Hown). by apply (fo_live _ _ _ _ _ Hf). }
  apply submseteq_Permutation in HFX as [X' HX']. exists X'. rewrite HX' in Hnd. apply NoDup_app in Hnd as (_ & Hdis & _). split; [done|]. split.
  - apply (forest_live lp lk M _ X X'); [by apply (forest_remove lp lk M w1 v)|]. intros u w Hu Hw. pose proof (fo_live _ _ _ _ _ Hf u w (Hsub u Hu) Hw) as Hl. rewrite HX' in Hl.
    apply elem_of_app in Hl as [Hl|]; [exfalso|done]. apply list_elem_of_fmap in Hl as (w' & En & Hw'). destruct (Hown w' Hw') as (Hvw & Hsn & Hsp).
    pose proof (fo_inj _ _ _ _ _ Hf u w v w' (Hsub u Hu) Hv Hw Hvw En) as <-. destruct (shares_neighbour M w1 v n w2 X u w Hf Hu) as [?|(w0 & p & Ep & Hs)]; [done|done|by apply (Hsp w0 p)].
  - intros Hcov Hx p Hp. destruct (Hx p) as (u & w & Hu & Hw & <-); [rewrite HX'; apply elem_of_app; by right|]. destruct (decide (u = v)) as [->|Hne].
    + destruct (Hcov w Hw) as [HwF|(u & Hu' & _ & Hw' & Es)]; [|by exists u, w; rewrite <- Es].
      exfalso. apply (Hdis (node M v.1 w)); [|done]. apply list_elem_of_fmap. by exists w.
    + exists u, w. split_and!; [|done|done]. rewrite elem_of_app, !elem_of_cons in *. tauto.
Qed.

(** What [matras_destroy_read_view] frees. *)
Definition leaves (M : memory) (v nv : matras_view) (pv : option matras_view) : list place :=
  if (block_count v =? 0) || passed M v nv pv P1 then [] else doomed (passed M v nv pv) (block_count v).

Section Leaves.
Context (M : memory) (w1 w2 : list (Z * Z)) (X : list Z) (v nv : matras_view) (pv : option matras_view).
Context (Hf : forest M (w1 ++ sig v :: sig nv :: w2) X) (Hpv : (fun u => sig u) <$> pv = last w1).

Lemma view_room : 0 <= block_count v /\ room lp lk (block_count v).
Proof. apply (fo_room _ _ _ _ _ Hf (sig v)). apply elem_of_app. right. left. Qed.

Lemma leaves_nodup : NoDup (leaves M v nv pv).
Proof. unfold leaves. destruct (_ || _); [constructor|]. apply nodup_doomed. Qed.

Lemma leaves_elem w : w ∈ leaves M v nv pv <->
  has (block_count v) w /\ passed M v nv pv P1 = false /\ match w with P1 => True | P2 i => passed M v nv pv (P2 i) = false | P3 x => passed M v nv pv (P3 x) = false /\ passed M v nv pv (P2 (x / P)) = false end.
Proof.
  destruct view_room as [Hn Hr]. unfold leaves. destruct (Z.eqb_spec (block_count v) 0) as [Hz|Hz]; cbn [orb].
  - rewrite elem_of_nil, Hz. split; [done|]. intros [Hw _]. by apply (T has_zero w).
  - destruct (passed M v nv pv P1); [rewrite elem_of_nil; split; [done|]; by intros (_ & ? & _)|]. rewrite doomed_spec by (done || lia). naive_solver.
Qed.

Lemma passed_iff w : has (block_count v) w -> passed M v nv pv w = true <-> exists u, (u = sig nv \/ last w1 = Some u) /\ shares M (sig v) u w.
Proof.
  intros Hw. unfold passed. rewrite orb_true_iff, Hpv, (shared_iff M (sig v) (sig nv) w Hw). split.
  - intros [Hs|Hs]; [exists (sig nv); split; [by left|done]|]. destruct (last w1) as [u|] eqn:El; [|done]. apply (shared_iff M (sig v) u w Hw) in Hs. exists u. split; [by right|done].
  - intros (u & [->|El] & Hs); [by left|right]. rewrite El. by apply (shared_iff M (sig v) u w Hw).
Qed.

Lemma leaves_owned w : w ∈ leaves M v nv pv -> has (block_count v) w /\ ~ shares M (sig v) (sig nv) w /\ forall w0 p, w1 = w0 ++ [p] -> ~ shares M (sig v) p w.
Proof.
  intros (Hw & H1 & H2)%leaves_elem. assert (Hno : passed M v nv pv w <> true) by (destruct w; [by rewrite H1|by rewrite H2|destruct H2 as [-> _]; done]).
  rewrite passed_iff in Hno by done. split_and!; [done|intros Hs; apply Hno; exists (sig nv); split; [by left|done]|].
  intros w0 p -> Hs. apply Hno. exists p. split; [right; apply last_snoc|done].
Qed.

(** What is not freed belongs to a neighbour. *)
Lemma leaves_cover w : (forall p, last w1 = Some p -> tight M p (sig v)) -> has (block_count v) w ->
  w ∈ leaves M v nv pv \/ exists u, u ∈ w1 ++ sig nv :: w2 /\ shares M (sig v) u w.
Proof.
  intros Ht Hw. assert (Hdown : forall w, w <> P1 -> has (block_count v) w -> passed M v nv pv (parent w) = true -> passed M v nv pv w = true).
  { intros w' Hne Hw' Hp. apply passed_iff in Hp as (u & Hu & Hs); [|by apply (T has_parent)]. apply passed_iff; [done|]. exists u. split; [done|]. apply shares_child; [done|done|].
    destruct Hu as [->|El]; [|by apply (Ht u El w' Hw')]. split; [apply Hw'|]. set (vs := w1 ++ _) in Hf.
    apply (fo_grow _ _ _ _ _ Hf (length w1) (S (length w1)) (sig v) (sig nv) (parent w') (start lp lk w')); [lia|by apply list_lookup_middle| |done| |by apply (T start_parent w' (block_count v))].
    - unfold vs. by rewrite lookup_app_r, Nat.sub_succ_l, Nat.sub_diag by lia.
    - destruct Hw' as [H1 H2]. split; [|done]. pose proof (T tree_sizes) as (? & ? & _). destruct w'; cbn in *; nia. }
  destruct (passed M v nv pv w) eqn:Ep.
  - right. apply passed_iff in Ep as (u & Hu & Hs); [|done]. exists u. split; [|done]. apply elem_of_app. destruct Hu as [->|Hu]; [right; left|left]. by apply last_Some_elem_of.
  - left. apply leaves_elem. split; [done|]. assert (H1 : passed M v nv pv P1 = false).
    { destruct (passed M v nv pv P1) eqn:E1; [|done]. destruct w as [|i|x]; [congruence|rewrite Hdown in Ep; done|].
      pose proof (T has_parent _ _ Hw) as Hw2. cbn [MatrasTree.parent] in Hw2. rewrite Hdown in Ep; [done|done|done|]. by apply Hdown. }
    split; [done|]. destruct w as [|i|x]; [done|done|split; [done|]]. destruct (passed M v nv pv (P2 (x / P))) eqn:E2; [|done]. by rewrite Hdown in Ep.
Qed.
End Leaves.

(** ** [matras_destroy_read_view] *)

(** The part after the view is unlinked. *)
Definition free_view (s : matras_state) (w nv : matras_view) (pv : option matras_view) : option matras_state :=
  if block_count w =? 0 then Some s
  else if same_root w (Some nv) then Some s
  else if same_root w pv then Some s
  else
    let extent1p := match pv with Some p => root p | None => NULL end in
    s ← destroy_view_loop1 (level1_rounds s) s w nv pv (root w) (root nv) extent1p 0 0;
    matras_free_read_view_extent s (root w).

Lemma same_root_shared M v (b : option matras_view) : (forall u, b = Some u -> 0 <= block_count u) -> same_root v b = shared M (root v) ((fun u => sig u) <$> b) P1.
Proof.
  intros Hb. destruct b as [u|]; [|done]. cbn. rewrite andb_comm. f_equal. pose proof (Hb u eq_refl). destruct (Z.eqb_spec (block_count u) 0), (Z.ltb_spec 0 (block_count u)); cbn; (done || lia).
Qed.

Lemma free_view_spec (s : matras_state) X' R v nv pv : geo (inst s) -> 0 <= block_count v <= 2 ^ 32 - P * K -> room lp lk (block_count v) -> 0 <= block_count nv ->
  (forall u, pv = Some u -> 0 <= block_count u) -> res s ((node (mem s) (root v) <$> leaves (mem s) v nv pv) ++ X') R ->
  exists s', free_view s v nv pv = Some s' /\ core s' = core s /\ res s' X' R.
Proof.
  intros Hgeo Hn Hroom Hnn Hpn Hres. unfold free_view. unfold leaves in Hres. destruct (Z.eqb_spec (block_count v) 0) as [|Hz]; [by exists s|]. cbn [orb] in Hres.
  assert (Ep : passed (mem s) v nv pv P1 = same_root v (Some nv) || same_root v pv).
  { unfold passed. rewrite !(same_root_shared (mem s)); [done|done|]. by intros u [= <-]. }
  rewrite Ep in Hres. destruct (same_root v (Some nv)); [by exists s|]. destruct (same_root v pv); [by exists s|]. cbn [orb] in Hres.
  destruct (loop_sizes s Hgeo) as (Esz & _). unfold level1_rounds. rewrite Esz. pose proof (T tree_sizes) as (? & _). unfold doomed in Hres. rewrite fmap_app, <- app_assoc in Hres.
  destruct (view_loop1_spec (Z.to_nat P) s (mem s) ([root v] ++ X') R v nv pv 0 eq_refl Hgeo ltac:(lia) Hroom ltac:(lia) ltac:(lia) Hres) as (s1 & E1 & Hc1 & Hres1).
  change (0 * (P * K)) with 0 in E1. rewrite E1. cbn [mbind option_bind].
  destruct (free_read_view_extent_spec lp s1 _ R (root v) X' Hres1) as (s2 & -> & Hc2 & Hres2); [done|]. exists s2. split; [done|split; [congruence|done]].
Qed.

(** The neighbours of a view by their address. *)
Lemma around_get s a1 v a2 w1 w2 w X R : minv s (a1 ++ v :: a2) (w1 ++ sig w :: w2) X R -> length w1 = length a1 -> around s a1 a2 v w ->
  exists nv pv w2', get_view s (next_view w) = Some nv /\ w2 ++ [top s] = sig nv :: w2' /\
    (if prev_view w =? NULL then Some None else Some <$> get_view s (prev_view w)) = Some pv /\ (fun u => sig u) <$> pv = last w1.
Proof.
  intros Hm Hlen [A1 A2 A3 A4 A5 A6 A7]. pose proof (mi_linked _ _ _ _ _ _ _ _ Hm) as HL. pose proof (li_length _ _ _ HL) as Hl. rewrite !length_app in Hl. cbn in Hl.
  assert (Hnv : exists nv w2', get_view s (next_view w) = Some nv /\ w2 ++ [top s] = sig nv :: w2').
  { destruct a2 as [|b a2].
    - rewrite (proj1 A7 eq_refl), get_self. destruct w2; [|cbn in Hl; lia]. eexists _, _. done.
    - destruct (linked_get s _ _ _ _ HL (A6 ltac:(done))) as (nv & Hnv & Hw & _). exists nv. rewrite lookup_app_r, <- Hlen, Nat.sub_succ_l, Nat.sub_diag in Hw by lia. destruct w2 as [|u w2]; [done|].
      cbn in Hw. injection Hw as ->. eexists. done. }
  assert (Hpv : exists pv, (if prev_view w =? NULL then Some None else Some <$> get_view s (prev_view w)) = Some pv /\ (fun u => sig u) <$> pv = last w1).
  { destruct w1 as [|u w0 _] using rev_ind.
    - rewrite (proj1 A5) by done. exists None. done.
    - rewrite length_app in Hlen. cbn in Hlen. rewrite (proj2 (Z.eqb_neq _ _)) by (intros E0; apply A5 in E0; lia).
      destruct (linked_get s _ _ _ _ HL (A4 (length w0) ltac:(lia))) as (pv & Hpv & Hw & _). rewrite Hpv. exists (Some pv). split; [done|].
      rewrite <- app_assoc in Hw. cbn [app] in Hw. rewrite list_lookup_middle in Hw by done. injection Hw as ->. by rewrite last_snoc. }
  destruct Hnv as (nv & w2' & H1 & H2), Hpv as (pv & H3 & H4). by exists nv, pv, w2'.
Qed.

Lemma destroy_read_view_spec (s : matras_state) a1 v a2 w1 wv w2 X R : minv s (a1 ++ v :: a2) (w1 ++ wv :: w2) X R -> length w1 = length a1 -> wv.2 <= 2 ^ 32 - P * K ->
  exists s' X', matras_destroy_read_view s v = Some s' /\ minv s' (a1 ++ a2) (w1 ++ w2) X' R /\ mem s' = mem s /\ top s' = top s /\ self s' = self s /\
    (exists u, get_view s' v = Some u /\ next_view u = NULL) /\
    ((forall p, last w1 = Some p -> tight (mem s) p wv) -> exact (mem s) ((w1 ++ wv :: w2) ++ [top s]) X -> exact (mem s') ((w1 ++ w2) ++ [top s']) X').
Proof.
  intros Hm Hlen Hcap. pose proof (mi_linked _ _ _ _ _ _ _ _ Hm) as HL. destruct (linked_around s a1 a2 v _ HL) as (w & Har & Hw). rewrite <- Hlen, list_lookup_middle in Hw by done. injection Hw as ->.
  destruct (around_get s a1 v a2 w1 w2 w X R Hm Hlen Har) as (nv & pv & w2' & Hnv & Ew2 & Hpv & Elast). pose proof Har as [A1 A2 A3 A4 A5 A6 A7].
  destruct (around_apart s a1 a2 v w _ HL Har) as (Hvs & Hnn & D1 & D2 & D3).
  destruct (unlink_get s v w nv A1 Hnv) as (s1 & Eu & Er & HG); [|done|done|done|].
  { intros Hz. rewrite (proj2 (Z.eqb_neq _ _)) in Hpv by done. destruct (get_view s (prev_view w)) as [u|]; [by exists u|done]. }
  change (unlinked s s1 v w nv) in HG. pose proof (self_rest _ _ Er) as Es1. destruct (linked_unlink s s1 a1 a2 v w nv w1 (sig w) w2 HL Hlen Har Hnv HG Es1) as [HL1 Et1].
  set (w' := set_next_view w NULL). set (nv' := set_prev_view nv (prev_view w)). set (pv' := (fun u => set_next_view u (next_view w)) <$> pv).
  assert (Gv : get_view s1 v = Some w') by (rewrite (HG v), Z.eqb_refl; done).
  assert (Gn : get_view s1 (next_view w) = Some nv') by (rewrite (HG (next_view w)), (proj2 (Z.eqb_neq v _)), (proj2 (Z.eqb_neq (prev_view w) _)), Z.eqb_refl by done; done).
  assert (Gp : (if negb (prev_view w =? NULL) then Some <$> get_view s1 (prev_view w) else Some None) = Some pv').
  { unfold pv'. destruct (Z.eqb_spec (prev_view w) NULL) as [Hz|Hz]; cbn [negb]; [by injection Hpv as <-|]. rewrite (HG (prev_view w)), (proj2 (Z.eqb_neq v _)), Z.eqb_refl, (proj2 (Z.eqb_neq _ NULL)) by done.
    cbn [andb negb]. destruct (get_view s (prev_view w)) as [u|]; [|done]. cbn in Hpv. injection Hpv as <-. done. }
  assert (Em1 : mem s1 = mem s) by (unfold rest in Er; congruence).
  pose proof (mi_forest _ _ _ _ _ _ _ _ Hm) as Hf. rewrite <- app_assoc in Hf. cbn [app] in Hf. rewrite Ew2 in Hf.
  assert (Elast' : (fun u => sig u) <$> pv' = last w1) by (rewrite <- Elast; by destruct pv).
  pose proof (exts_app_r lp _ _ (res_exts lp _ _ _ (mi_res _ _ _ _ _ _ _ _ Hm))) as (HndX & _).
  destruct (leave_spec (mem s) w1 (sig w') (sig nv') w2' X (leaves (mem s) w' nv' pv') Hf HndX) as (X' & HX' & Hf' & Hx').
  { apply leaves_nodup. }
  { intros pl. by apply (leaves_owned (mem s) w1 w2' X w' nv' pv' Hf Elast'). }
  unfold matras_destroy_read_view. rewrite (proj2 (Z.eqb_neq v (self s))), A1 by done. cbn [negb mbind option_bind]. rewrite (proj2 (Z.eqb_neq _ NULL)), Eu by done. cbn [mbind option_bind].
  rewrite Gv. cbn [mbind option_bind]. rewrite Gn. cbn [mbind option_bind]. rewrite Gp. cbn [mbind option_bind]. fold (free_view s1 w' nv' pv').
  destruct (view_room (mem s) w1 w2' X w' nv' Hf) as [Hn0 Hr0].
  destruct (free_view_spec s1 X' R w' nv' pv') as (s' & Efv & Hc' & Hr').
  { apply (geo_geom lp lk lb (inst s)); [unfold rest in Er; congruence|apply (mi_geo _ _ _ _ _ _ _ _ Hm)]. }
  { split; [done|exact Hcap]. }
  { done. }
  { apply (fo_room _ _ _ _ _ Hf (sig nv)). rewrite elem_of_app, !elem_of_cons. auto. }
  { intros u Eu'. rewrite Eu' in Elast'. apply (fo_room _ _ _ _ _ Hf (sig u)). apply elem_of_app. left. by apply last_Some_elem_of. }
  { apply (res_rest lp s); [done|]. rewrite Em1. exact (res_perm lp s X _ R (mi_res _ _ _ _ _ _ _ _ Hm) HX'). }
  exists s', X'. split; [exact Efv|]. pose proof (core_proj _ _ Hc') as (_ & Eh' & Es' & Ev' & Em').
  assert (Hsub : forall u, u ∈ w1 ++ w2 -> u ∈ w1 ++ sig w :: w2) by (intros u; rewrite !elem_of_app, elem_of_cons; tauto).
  assert (Et' : top s' = top s) by (unfold top in *; by rewrite Eh').
  split; [|split; [congruence|split; [done|split; [congruence|split]]]].
  - apply (rest_minv lp lk lb s s1 s' _ _ (a1 ++ a2) (w1 ++ w2) X X' R Hm Er Et1 HL1 Hc'); [rewrite <- app_assoc, Ew2; exact Hf'|done|]. intros u Hu. left. by apply Hsub.
  - exists w'. split; [|done]. rewrite <- Gv. unfold get_view. by rewrite Es', Eh', Ev'.
  - intros Ht Hx. rewrite Et', Em', Em1, <- app_assoc, Ew2. apply Hx'; [intros pl Hpl; by apply (leaves_cover (mem s) w1 w2' X w' nv' pv' Hf Elast')|].
    rewrite <- app_assoc in Hx. cbn [app] in Hx. by rewrite Ew2 in Hx.
Qed.

(** ** [matras_destroy] *)

Definition tight_chain (M : memory) (ws : list (Z * Z)) : Prop := forall w0 p v w2, ws = w0 ++ p :: v :: w2 -> tight M p v.

Lemma tight_chain_prefix M ws w2 : tight_chain M (ws ++ w2) -> tight_chain M ws.
Proof. intros Ht w0 p v w3 ->. apply (Ht w0 p v (w3 ++ w2)). by rewrite <- app_assoc. Qed.

Lemma views_bound (s : matras_state) ads ws : linked s ads ws -> (length ads <= size (views s))%nat.
Proof.
  intros HL. rewrite <- size_dom, <- (size_list_to_set (C := gset Z) ads) by apply (li_nodup _ _ _ HL). apply subseteq_size. intros a Ha%elem_of_list_to_set.
  apply list_elem_of_lookup in Ha as [i Hi]. destruct (li_view _ _ _ HL i a Hi) as (v & Hv & _). by apply elem_of_dom_2 in Hv.
Qed.

Lemma destroy_views_spec fuel (s : matras_state) ads ws X R : minv s ads ws X R -> (length ads <= fuel)%nat ->
  (forall v, v ∈ ws -> v.2 <= 2 ^ 32 - P * K) ->
  exists s' X', destroy_views fuel s = Some s' /\ minv s' [] [] X' R /\ mem s' = mem s /\ top s' = top s /\ self s' = self s /\
    (tight_chain (mem s) ws -> exact (mem s) (ws ++ [top s]) X -> exact (mem s') [top s'] X').
Proof.
  revert s ads ws X. induction fuel as [|fuel IH]; intros s ads ws X Hm Hfuel Hcap; cbn [destroy_views]; pose proof (mi_linked _ _ _ _ _ _ _ _ Hm) as HL; rewrite (li_head _ _ _ HL);
    pose proof (li_length _ _ _ HL) as Hlen.
  - destruct ads; [|cbn in Hfuel; lia]. destruct ws; [|done]. exists s, X. split; [done|]. split_and!; done.
  - destruct ads as [|v a1 _] using rev_ind. { destruct ws; [|done]. exists s, X. split; [done|]. split_and!; done. }
    destruct ws as [|wv w1 _] using rev_ind; [rewrite length_app in Hlen; cbn in Hlen; lia|]. rewrite !length_app in *. cbn [length] in *. rewrite Nat.add_1_r. cbn [prev_of]. rewrite list_lookup_middle by done. cbn [default from_option id].
    rewrite (proj2 (Z.eqb_neq v NULL)) by (apply (li_addr _ _ _ HL); right; apply elem_of_app; right; left). cbn [negb].
    destruct (destroy_read_view_spec s a1 v [] w1 wv [] X R Hm) as (s1 & X1 & -> & Hm1 & Em1 & Et1 & Es1 & _ & Hx1); [lia|apply Hcap, elem_of_app; right; left|]. cbn [mbind option_bind].
    rewrite !app_nil_r in *. destruct (IH s1 a1 w1 X1 Hm1) as (s2 & X2 & -> & Hm2 & Em2 & Et2 & Es2 & Hx2); [lia|intros u Hu; apply Hcap, elem_of_app; by left|].
    exists s2, X2. split; [done|]. split; [done|]. split; [congruence|]. split; [congruence|]. split; [congruence|]. intros Ht Hx. apply Hx2; [rewrite Em1; by apply (tight_chain_prefix _ _ [wv])|].
    apply Hx1; [|done]. intros p Ep. destruct w1 as [|q w0 _] using rev_ind; [done|]. rewrite last_snoc in Ep. injection Ep as ->. apply (Ht w0 p wv []). by rewrite <- app_assoc.
Qed.

Lemma exact_alone M r n X : 0 < n -> forest M [(r, n)] X -> NoDup X -> exact M [(r, n)] X -> X ≡ₚ node M r <$> doomed nothing n.
Proof.
  intros Hn Hf Hnd Hx. assert (Hh : (r, n) ∈ [(r, n)]) by left. destruct (fo_room _ _ _ _ _ Hf _ Hh) as [_ Hr]. cbn [snd] in Hr.
  assert (Hd : forall w, w ∈ doomed nothing n <-> has n w) by (intros w; rewrite doomed_spec by done; destruct w; tauto).
  apply NoDup_Permutation; [done|apply NoDup_fmap_2_strong; [|apply nodup_doomed]|].
  - intros w w' Hw%Hd Hw'%Hd. by apply (fo_inj _ _ _ _ _ Hf (r, n) w (r, n) w').
  - intros p. rewrite list_elem_of_fmap. split.
    + intros Hp. destruct (Hx p Hp) as (v & w & Hv & Hw & <-). apply list_elem_of_singleton in Hv as ->. exists w. split; [done|]. by apply Hd.
    + intros (w & -> & Hw%Hd). by apply (fo_live _ _ _ _ _ Hf (r, n)).
Qed.

Lemma matras_destroy_spec (s : matras_state) ads ws X R : minv s ads ws X R -> exact (mem s) (ws ++ [top s]) X -> tight_chain (mem s) ws ->
  (forall v, v ∈ ws ++ [top s] -> v.2 <= 2 ^ 32 - P * K) ->
  exists s', matras_destroy s = Some s' /\ res s' [] R /\ geo (inst s') /\ prev_view (head (inst s')) = NULL /\ self s' = self s /\ self s' <> NULL.
Proof.
  intros Hm Hx Ht Hcap. unfold matras_destroy. destruct (destroy_views_spec (size (views s)) s ads ws X R Hm) as (s1 & X1 & -> & Hm1 & Em1 & Et1 & Es1 & Hx1).
  { eapply views_bound, (mi_linked _ _ _ _ _ _ _ _ Hm). }
  { intros v Hv. apply Hcap, elem_of_app. by left. }
  cbn [mbind option_bind]. specialize (Hx1 Ht Hx). pose proof (mi_linked _ _ _ _ _ _ _ _ Hm1) as HL1. pose proof (li_head _ _ _ HL1) as Hh. cbn in Hh.
  assert (Hself : self s1 <> NULL) by (apply (li_addr _ _ _ HL1); left). pose proof (mi_geo _ _ _ _ _ _ _ _ Hm1) as Hg1. pose proof (mi_res _ _ _ _ _ _ _ _ Hm1) as Hr1.
  pose proof (mi_forest _ _ _ _ _ _ _ _ Hm1) as Hf1. cbn [app] in Hf1. destruct (fo_room _ _ _ _ _ Hf1 (top s1)) as [Hn Hr]; [left|].
  assert (Hcap1 : (top s1).2 <= 2 ^ 32 - P * K) by (rewrite Et1; apply Hcap, elem_of_app; right; left). cbn [top snd] in Hn, Hr, Hcap1.
  destruct (Z.eqb_spec (block_count (head (inst s1))) 0) as [Hz|Hz].
  - exists s1. split; [done|]. split; [|split_and!; (done || congruence)]. destruct X1 as [|p X1]; [done|exfalso]. destruct (Hx1 p) as (v & w & Hv & Hw & _); [left|].
    apply list_elem_of_singleton in Hv as ->. cbn [top snd] in Hw. rewrite Hz in Hw. by apply (T has_zero w).
  - destruct (loop_sizes s1 Hg1) as (Esz & _). unfold level1_rounds. rewrite Esz. pose proof (T tree_sizes) as (? & _).
    pose proof (exts_app_r lp _ _ (res_exts lp _ _ _ Hr1)) as (HndX & _). pose proof (exact_alone (mem s1) (root (head (inst s1))) (block_count (head (inst s1))) X1 ltac:(lia) Hf1 HndX Hx1) as HX1.
    pose proof (res_perm lp s1 _ _ R Hr1 HX1) as Hres. unfold doomed in Hres. rewrite fmap_app in Hres.
    destruct (loop1_spec (Z.to_nat P) s1 (mem s1) [root (head (inst s1))] R 0 eq_refl Hg1 Hcap1 Hr ltac:(lia) ltac:(lia) Hres) as (s2 & E2 & Hc2 & Hres2).
    change (0 * (P * K)) with 0 in E2. rewrite E2. cbn [mbind option_bind]. destruct (free_extent_spec lp s2 _ R (root (head (inst s1))) [] Hres2) as (s3 & -> & Hc3 & Hres3); [done|]. cbn [mbind option_bind].
    assert (Hc : core s3 = core s1) by congruence. pose proof (core_proj _ _ Hc) as (Eg & Eh & Es & _ & _).
    rewrite (rs_count _ _ _ _ Hres3). cbn [length Z.eqb u32]. exists s3. split; [done|]. split; [done|]. split_and!; [by apply (geo_core s1)|by rewrite Eh|congruence|congruence].
Qed.

(** A fresh instance has no block and no extent. *)
Lemma minv_fresh (s : matras_state) R : geo (inst s) -> res s [] R -> self s <> NULL -> block_count (head (inst s)) = 0 -> prev_view (head (inst s)) = NULL ->
  minv s [] [] [] R /\ exact (mem s) [top s] [].
Proof.
  intros Hg Hr Hs Hn Hp. pose proof Hg as (_ & _ & _ & _ & _ & _ & Hcap & _). split; [split; try done|].
  - split; try done; [constructor|intros a Ha; by apply list_elem_of_singleton in Ha as ->|intros Ha; by apply elem_of_nil in Ha].
  - assert (Hno : forall v w, v ∈ [top s] -> ~ has v.2 w) by (intros v w Hv Hw; apply list_elem_of_singleton in Hv as ->; cbn [top snd] in Hw; rewrite Hn in Hw; by apply (T has_zero w)).
    cbn [app]. split.
    + intros v ->%list_elem_of_singleton. cbn [top snd]. rewrite Hn. split; [done|]. unfold room. pose proof (T tree_sizes). nia.
    + intros v w Hv Hw. by destruct (Hno v w).
    + intros v w v' w' Hv _ Hw. by destruct (Hno v w).
    + intros i j k a b c w [Hij Hjk] _ _ Hc%lookup_lt_Some. cbn in Hc. lia.
    + intros i k a c w id Hik _ Hc%lookup_lt_Some. cbn in Hc. lia.
  - rewrite Hn. lia.
  - intros v Hv. by apply elem_of_nil in Hv.
  - intros p Hp'. by apply elem_of_nil in Hp'.
Qed.

Lemma reset_spec (s : matras_state) ads ws X R : minv s ads ws X R -> exact (mem s) (ws ++ [top s]) X -> tight_chain (mem s) ws ->
  (forall v, v ∈ ws ++ [top s] -> v.2 <= 2 ^ 32 - P * K) ->
  exists s', matras_reset s = Some s' /\ minv s' [] [] [] R /\ exact (mem s') [top s'] [] /\ block_count (head (inst s')) = 0.
Proof.
  intros Hm Hx Ht Hcap. unfold matras_reset. destruct (matras_destroy_spec s ads ws X R Hm Hx Ht Hcap) as (s1 & -> & Hr1 & Hg1 & Hp1 & _ & Hs1). cbn [mbind option_bind].
  set (s2 := set_head _ _). destruct (minv_fresh s2 R) as [H1 H2]; [done|by apply (res_head lp)|done..|]. by exists s2.
Qed.
End Destroy.
