(* ===== verification/MatrasSpec.v ===== *)
(** * [Matras] as a vector with versions

    The specification: a vector of blocks and the copies of it that the read views
    hold.  Every operation of the code is one of the vector. *)
From S2P Require Import Prelude Util Bytes Matras MatrasTree MatrasInv MatrasOps MatrasFree MatrasViews MatrasDestroy.

(** ** The specification *)

Record versions := Versions {
  current : list (list Z);
  snapshots : list (Z * list (list Z));
}.

Inductive op :=
  | OAlloc (l : list Z)
  | OAllocRange (ls : list (list Z))
  | ODealloc
  | ODeallocRange (k : Z)
  | OWrite (id : Z) (l : list Z)
  | OReserve (count : Z)
  | OView (v : Z)
  | ODrop (v : Z).

(** [out] is the pointer or the code that the operation returns.  An operation that
    fails changes nothing. *)
Definition spec (a : versions) (o : op) (out : Z) (a' : versions) : Prop :=
  let n := Z.of_nat (length (current a)) in
  match o with
  | OAlloc l => out = NULL /\ a' = a \/ 0 < out /\ a' = Versions (current a ++ [l]) (snapshots a)
  | OAllocRange ls => out = NULL /\ a' = a \/ 0 < out /\ a' = Versions (current a ++ ls) (snapshots a)
  | ODealloc => a' = Versions (take (Z.to_nat (n - 1)) (current a)) (snapshots a)
  | ODeallocRange k => a' = Versions (take (Z.to_nat (n - k)) (current a)) (snapshots a)
  | OWrite id l => out = NULL /\ a' = a \/ 0 < out /\ a' = Versions (<[Z.to_nat id := l]> (current a)) (snapshots a)
  | OReserve _ => (out = 0 \/ out = -1) /\ a' = a
  | OView v => a' = Versions (current a) (snapshots a ++ [(v, current a)])
  | ODrop v => a' = Versions (current a) (filter (fun p => p.1 <> v) (snapshots a))
  end.

(** A snapshot that is dropped has no more blocks than the one before it. *)
Definition tight_drop (a : versions) (v : Z) : Prop :=
  forall i p x y, snapshots a !! i = Some (p, x) -> snapshots a !! S i = Some (v, y) -> (length y <= length x)%nat.
Definition tight_op (a : versions) (o : op) : Prop := match o with ODrop v => tight_drop a v | _ => True end.

Section Versions.
Context {E : Type} `{!ExtentAllocator E} {einv : Z -> E -> list Z -> Prop} `{!ExtentLaws einv}.
Context (lp lk lb : Z) (Hlp : 1 <= lp) (Hlk : 0 <= lk) (Hlb : 0 <= lb) (Hes : lk + lb = lp + 3) (H32 : lp + lk < 32) (Hes32 : lp + 3 < 32).
Local Abbreviation T f := (f lp lk lb Hlp Hlk Hlb Hes) (only parsing).
Local Abbreviation P := (2 ^ lp).
Local Abbreviation K := (2 ^ lk).
Local Abbreviation bs := (2 ^ lb).
Local Abbreviation es := (2 ^ (lp + 3)).
Local Abbreviation matras_state := (matras_state (E:=E)).
Local Abbreviation node := (node lp).
Local Abbreviation slot := (slot lp).
Local Abbreviation has := (has lp lk).
Local Abbreviation shares := (shares lp lk).
Local Abbreviation forest := (forest lp lk).
Local Abbreviation exts_ok := (exts_ok lp).
Local Abbreviation parent := (parent lp).
Local Abbreviation keeps := (keeps lp lk lb).
Local Abbreviation contents := (contents lp lk lb).
Local Abbreviation block := (block lp lk lb).
Local Abbreviation res := (res (einv:=einv) lp).
Local Abbreviation minv := (minv (einv:=einv) lp lk lb).
Local Abbreviation geo := (geo lp lk lb).

Local Abbreviation exact := (exact lp lk).
Local Abbreviation owns := (owns lp lk).
Local Abbreviation evolves := (evolves (E:=E) lp lk lb).
Local Abbreviation resized := (resized (E:=E) lp lk lb).




(** ** The operations of the code *)

(** The user writes the blocks from [p] on, one after the other. *)
Fixpoint user_fill (s : matras_state) (p : Z) (ls : list (list Z)) : matras_state :=
  match ls with [] => s | l :: ls => user_fill (user_write s p l) (p + bs) ls end.

(** New blocks are written by the user where the code says. *)
Definition run (s : matras_state) (o : op) : option (Z * matras_state) :=
  match o with
  | OAlloc l => '(p, _, s) ← matras_alloc s 0; Some (p, if p =? NULL then s else user_fill s p [l])
  | OAllocRange ls => '(p, _, s) ← matras_alloc_range s 0 (Z.of_nat (length ls)); Some (p, if p =? NULL then s else user_fill s p ls)
  | ODealloc => s ← matras_dealloc s; Some (0, s)
  | ODeallocRange k => s ← matras_dealloc_range s k; Some (0, s)
  | OWrite id l => '(p, s) ← matras_touch s id; Some (p, if p =? NULL then s else user_write s p l)
  | OReserve count => matras_touch_reserve s count
  | OView v => s ← matras_create_read_view s v; Some (0, s)
  | ODrop v => s ← matras_destroy_read_view s v; Some (0, s)
  end.

(** There is memory to touch a block. *)
Definition touchable (s : matras_state) (id : Z) : Prop := exists p s', matras_touch s id = Some (p, s') /\ p <> NULL.

(** What the caller sees to. *)
Definition legal (s : matras_state) (a : versions) (o : op) : Prop :=
  let n := Z.of_nat (length (current a)) in
  match o with
  | OAlloc l => Z.of_nat (length l) = bs
  | OAllocRange ls => let k := Z.of_nat (length ls) in 0 < k < 2 ^ 32 /\ n mod k = 0 /\ K mod k = 0 /\ Forall (fun l => Z.of_nat (length l) = bs) ls
  | ODealloc => 0 < n /\ touchable s (n - 1)
  | ODeallocRange k => 0 < n /\ 0 < k < 2 ^ 32 /\ n mod k = 0 /\ K mod k = 0 /\ touchable s (n - k)
  | OWrite id l => 0 <= id < n /\ Z.of_nat (length l) = bs
  | OReserve count => 0 <= count < 2 ^ 30 - 1
  | OView v => v <> NULL /\ v <> self s /\ v ∉ (snapshots a).*1
  | ODrop v => exists l, (v, l) ∈ snapshots a /\ Z.of_nat (length l) <= 2 ^ 32 - P * K
  end.

(** ** The state of the code and the vector *)

Definition blocks (M : memory) (v : Z * Z) : list (list Z) := contents M v.1 <$> seqZ 0 v.2.
Definition snaps (M : memory) (ads : list Z) (ws : list (Z * Z)) : list (Z * list (list Z)) := zip ads (blocks M <$> ws).

(** [F] is when all extents belong to a view. *)
Definition rep (F : Prop) (s : matras_state) (a : versions) : Prop :=
  exists ads ws X R, minv s ads ws X R /\ a = Versions (blocks (mem s) (top s)) (snaps (mem s) ads ws) /\ (F -> exact (mem s) (ws ++ [top s]) X).

Lemma blocks_length M v : length (blocks M v) = Z.to_nat v.2.
Proof. unfold blocks. by rewrite length_fmap, length_seqZ. Qed.

Lemma blocks_lookup M v i : blocks M v !! i = if decide (Z.of_nat i < v.2) then Some (contents M v.1 (Z.of_nat i)) else None.
Proof.
  unfold blocks. rewrite list_lookup_fmap. case_decide as Hi; [rewrite lookup_seqZ_lt by lia; done|by rewrite lookup_seqZ_ge by lia].
Qed.

Lemma blocks_same M M' r r' n : (forall id, 0 <= id < n -> contents M' r' id = contents M r id) -> blocks M' (r', n) = blocks M (r, n).
Proof. intros H. apply list_eq. intros i. rewrite !blocks_lookup. cbn [fst snd]. case_decide; [|done]. f_equal. apply H. lia. Qed.

Lemma snaps_keep M M' ads ws : (forall v, v ∈ ws -> keeps M M' v v) -> snaps M' ads ws = snaps M ads ws.
Proof.
  intros Hk. unfold snaps. f_equal. apply list_fmap_ext. intros i v Hi. destruct v as [r n]. apply blocks_same. apply (Hk (r, n)). by eapply list_elem_of_lookup_2.
Qed.

(** The blocks after a change of their number. *)
Lemma resized_grow s s' ws n' : resized s s' ws n' -> 0 <= block_count (head (inst s)) <= n' ->
  exists l, Z.of_nat (length l) = n' - block_count (head (inst s)) /\ blocks (mem s') (top s') = blocks (mem s) (top s) ++ l.
Proof.
  intros Hz Hn. set (n := block_count (head (inst s))) in *. exists (contents (mem s') (top s').1 <$> seqZ n (n' - n)). split; [rewrite length_fmap, length_seqZ; lia|].
  assert (Et : top s' = ((top s').1, n')) by (unfold top; by rewrite (rz_head _ _ _ _ _ _ _ Hz)). rewrite Et at 1. unfold blocks at 1. cbn [fst snd].
  replace n' with (n + (n' - n)) at 1 by lia. rewrite seqZ_app, fmap_app by lia. f_equal. apply list_fmap_ext. intros i id Hi. apply lookup_seqZ in Hi as [-> Hi].
  change ((top s).2) with n in Hi. apply (rz_top _ _ _ _ _ _ _ Hz); fold n; lia.
Qed.

Lemma resized_take s s' ws n' : resized s s' ws n' -> 0 <= n' <= block_count (head (inst s)) -> blocks (mem s') (top s') = take (Z.to_nat n') (blocks (mem s) (top s)).
Proof.
  intros Hz Hn. assert (Et : top s' = ((top s').1, n')) by (unfold top; by rewrite (rz_head _ _ _ _ _ _ _ Hz)). apply list_eq. intros i. rewrite Et, blocks_lookup. cbn [fst snd].
  case_decide as Hi; [rewrite lookup_take_lt by lia|by rewrite lookup_take_ge by lia]. rewrite blocks_lookup, decide_True by (change ((top s).2) with (block_count (head (inst s))); lia). f_equal. apply (rz_top _ _ _ _ _ _ _ Hz); lia.
Qed.

(** ** The simulation *)

Abbreviation simulates F s a o := (exists out s' a', run s o = Some (out, s') /\ spec a o out a' /\ rep (F /\ tight_op a o) s' a').

Lemma rep_count F s a : rep F s a -> Z.of_nat (length (current a)) = block_count (head (inst s)).
Proof.
  intros (ads & ws & X & R & Hm & -> & _). cbn [current]. rewrite blocks_length. pose proof (mi_count _ _ _ _ _ _ _ _ Hm). cbn [top snd]. lia.
Qed.

(** The state after a change of the newest view. *)
Lemma rep_resized (F G : Prop) s ads ws X' R' s' n' : resized s s' ws n' -> minv s' ads ws X' R' -> (F -> exact (mem s') (ws ++ [top s']) X') ->
  rep (F /\ G) s' (Versions (blocks (mem s') (top s')) (snaps (mem s) ads ws)).
Proof.
  intros Hz Hm Hx. exists ads, ws, X', R'. split; [done|]. split; [|by intros [? _]; apply Hx]. f_equal. symmetry. apply snaps_keep. apply (rz_ws _ _ _ _ _ _ _ Hz).
Qed.

Lemma resized_same s s' ws : resized s s' ws (block_count (head (inst s))) -> 0 <= block_count (head (inst s)) -> blocks (mem s') (top s') = blocks (mem s) (top s).
Proof.
  intros Hz Hn. rewrite (resized_take s s' ws _ Hz) by lia. apply take_ge. rewrite blocks_length. done.
Qed.

(** One block is written. *)
Lemma write_block s ads ws X R id l : minv s ads ws X R -> 0 <= id < block_count (head (inst s)) -> unshared lp lk (mem s) ws (top s) id -> Z.of_nat (length l) = bs ->
  let s' := user_write s (block (mem s) (top s).1 id) l in
  minv s' ads ws X R /\ (exact (mem s) (ws ++ [top s]) X -> exact (mem s') (ws ++ [top s']) X) /\ snaps (mem s') ads ws = snaps (mem s) ads ws /\
  blocks (mem s') (top s') = <[Z.to_nat id := l]> (blocks (mem s) (top s)) /\ (forall v w, v ∈ ws ++ [top s] -> has v.2 w -> node (mem s') v.1 w = node (mem s) v.1 w).
Proof.
  intros Hm Hid Ho Hl s'. destruct (T block_write_spec s ads ws X R id l Hm Hid Ho Hl) as (Hm2 & Hx2 & Hk2 & Ec & Hc2 & Hn2). split; [done|]. split; [done|]. split; [by apply snaps_keep|]. split; [|done].
  apply list_eq. intros i. rewrite blocks_lookup. change ((top s').2) with (block_count (head (inst s))). destruct (decide (i = Z.to_nat id)) as [->|Hne].
  - rewrite list_lookup_insert_eq, decide_True by (rewrite ?blocks_length; cbn [top snd]; lia). rewrite Z2Nat.id by lia. f_equal. exact Ec.
  - rewrite list_lookup_insert_ne by done. rewrite blocks_lookup. cbn [top snd]. case_decide as Hi; [|done]. f_equal. apply Hc2; lia.
Qed.

(** The last blocks are written, all in one extent. *)
Lemma fill_spec ads ws X R ls : forall s id, minv s ads ws X R -> 0 <= id -> id + Z.of_nat (length ls) = block_count (head (inst s)) -> block_count (head (inst s)) <= (id / K + 1) * K ->
  unshared lp lk (mem s) ws (top s) id -> Forall (fun l => Z.of_nat (length l) = bs) ls ->
  let s' := user_fill s (block (mem s) (top s).1 id) ls in
  minv s' ads ws X R /\ (exact (mem s) (ws ++ [top s]) X -> exact (mem s') (ws ++ [top s']) X) /\ snaps (mem s') ads ws = snaps (mem s) ads ws /\
  blocks (mem s') (top s') = take (Z.to_nat id) (blocks (mem s) (top s)) ++ ls.
Proof.
  induction ls as [|l ls IH]; intros s id Hm Hid Hn HK Hu Hls; cbn [user_fill].
  - cbn [length] in Hn. split_and!; try done. rewrite app_nil_r, take_ge; [done|]. rewrite blocks_length. cbn [top snd]. lia.
  - apply Forall_cons in Hls as [Hl Hls]. cbn [length] in Hn. destruct (write_block s ads ws X R id l Hm ltac:(lia) Hu Hl) as (Hm1 & Hx1 & Es1 & Eb1 & Hn1). set (s1 := user_write s _ l) in *.
    pose proof (pow2_pos lk Hlk) as HKp. pose proof (Z.div_mod id K ltac:(lia)) as Hdm. pose proof (Z.mod_pos_bound id K ltac:(lia)).
    destruct ls as [|l2 ls].
    + cbn [user_fill]. split_and!; try done. rewrite Eb1. apply list_eq. intros i. cbn in Hn.
      pose proof (blocks_length (mem s) (top s)) as Hbl. cbn [top snd] in Hbl. replace (Z.to_nat (block_count (head (inst s)))) with (S (Z.to_nat id)) in Hbl by lia.
      rewrite insert_take_drop by lia. rewrite drop_ge by lia. done.
    + assert (Hdiv : (id + 1) / K = id / K /\ (id + 1) mod K = id mod K + 1).
      { cbn [length] in Hn. split; symmetry; [apply (Z.div_unique (id + 1) K (id / K) (id mod K + 1))|apply (Z.mod_unique (id + 1) K (id / K) (id mod K + 1))]; nia. }
      destruct Hdiv as [Hd1 Hd2]. destruct (T has_block (top s).2 id ltac:(cbn [top snd]; lia)) as (_ & _ & H3 & _). assert (Hh : top s ∈ ws ++ [top s]) by (apply elem_of_app; right; left).
      assert (Ea : block (mem s1) (top s1).1 (id + 1) = block (mem s) (top s).1 id + bs).
      { unfold MatrasTree.block. rewrite Hd1, Hd2. pose proof (Hn1 (top s) _ Hh H3) as En. cbn [MatrasTree.node] in En. change (top s1) with (top s). rewrite En. lia. }
      destruct (IH s1 (id + 1) Hm1) as (Hm2 & Hx2 & Es2 & Eb2); [lia|cbn [length] in *; change (block_count (head (inst s1))) with (block_count (head (inst s))); lia|rewrite Hd1; done| |done|].
      { intros v Hv (S1 & S2 & S3). rewrite Hd1 in S1, S2, S3. change (top s1) with (top s) in S2, S3. rewrite !Hn1 in S3 by (done || (apply elem_of_app; by left)). pose proof (Hu v Hv (conj S1 (conj S2 S3))). lia. }
      rewrite Ea in Hm2, Hx2, Es2, Eb2. split; [exact Hm2|]. split; [auto|]. split; [by rewrite Es2|]. rewrite Eb2, Eb1. replace (Z.to_nat (id + 1)) with (S (Z.to_nat id)) by lia.
      rewrite (take_S_r _ _ l) by (apply list_lookup_insert_eq; rewrite blocks_length; cbn [top snd]; lia). rewrite take_insert_ge by lia. by rewrite <- app_assoc.
Qed.

(** The state after new blocks were written, or there were none. *)
Lemma run_new (F : Prop) s ads ws X p s1 X1 R1 ls : let n := block_count (head (inst s)) in 0 <= n -> (F -> exact (mem s) (ws ++ [top s]) X) -> minv s1 ads ws X1 R1 ->
  (exact (mem s) (ws ++ [top s]) X -> exact (mem s1) (ws ++ [top s1]) X1) -> Forall (fun l => Z.of_nat (length l) = bs) ls -> n + Z.of_nat (length ls) <= (n / K + 1) * K ->
  ((p = NULL /\ resized s s1 ws n) \/ (0 < p /\ p = block (mem s1) (top s1).1 n /\ resized s s1 ws (n + Z.of_nat (length ls)) /\ unshared lp lk (mem s1) ws (top s1) n)) ->
  let s' := if p =? NULL then s1 else user_fill s1 p ls in let a := Versions (blocks (mem s) (top s)) (snaps (mem s) ads ws) in
  exists a', (p = NULL /\ a' = a \/ 0 < p /\ a' = Versions (current a ++ ls) (snapshots a)) /\ rep (F /\ True) s' a'.
Proof.
  intros n Hn Hx Hm1 Hx1 Hls HK H s' a. destruct H as [(-> & Hz)|(Hp & Ep & Hz & Hu)].
  - exists a. split; [by left|]. unfold a. rewrite <- (resized_same s s1 ws Hz Hn). apply (rep_resized F True s ads ws X1 R1 s1 n Hz Hm1). auto.
  - unfold s'. rewrite (proj2 (Z.eqb_neq p NULL)), Ep by lia. assert (En : block_count (head (inst s1)) = n + Z.of_nat (length ls)) by (by rewrite (rz_head _ _ _ _ _ _ _ Hz)).
    destruct (fill_spec ads ws X1 R1 ls s1 n Hm1 Hn) as (Hm2 & Hx2 & Es2 & Eb2); [by rewrite En|by rewrite En|done|done|].
    eexists. split; [right; split; [rewrite <- Ep; done|done]|]. exists ads, ws, X1, R1. split; [done|]. split; [|intros [? _]; auto]. cbn [current snapshots a].
    rewrite Es2, Eb2, (snaps_keep _ _ ads ws (rz_ws _ _ _ _ _ _ _ Hz)). f_equal. f_equal. destruct (resized_grow s s1 ws _ Hz ltac:(fold n; lia)) as (l & _ & ->).
    rewrite take_app_length'; [done|]. rewrite blocks_length. done.
Qed.

Lemma run_alloc F s a l : rep F s a -> legal s a (OAlloc l) -> simulates F s a (OAlloc l).
Proof.
  intros (ads & ws & X & R & Hm & -> & Hx) Hl. cbn [legal] in Hl. pose proof (mi_count _ _ _ _ _ _ _ _ Hm) as Hc. cbn [run].
  destruct (T alloc_spec Hes32 s ads ws X R 0 Hm) as (p & id & s1 & X1 & R1 & -> & Hm1 & Hx1 & H). cbn [mbind option_bind].
  destruct (run_new F s ads ws X p s1 X1 R1 [l] (proj1 Hc) Hx Hm1 Hx1) as (a' & Ha & Hr); [by constructor| | |by eexists p, _, a'].
  - pose proof (pow2_pos lk Hlk). pose proof (Z.div_mod (block_count (head (inst s))) K ltac:(lia)). pose proof (Z.mod_pos_bound (block_count (head (inst s))) K ltac:(lia)). cbn. nia.
  - destruct H as [(-> & _ & Hz)|(Hp & Ep & _ & Hz & _ & Hu)]; [by left|by right].
Qed.

Lemma run_alloc_range F s a ls : rep F s a -> legal s a (OAllocRange ls) -> simulates F s a (OAllocRange ls).
Proof.
  intros Hrep. unfold legal. rewrite (rep_count F s a Hrep). intros (Hk & Hnk & HKk & Hls). destruct Hrep as (ads & ws & X & R & Hm & -> & Hx). pose proof (mi_count _ _ _ _ _ _ _ _ Hm) as Hc. cbn [run].
  destruct (T alloc_range_spec H32 Hes32 s ads ws X R 0 _ Hm Hk Hnk HKk) as (p & id & s1 & X1 & R1 & -> & Hm1 & Hx1 & H). cbn [mbind option_bind].
  destruct (run_new F s ads ws X p s1 X1 R1 ls (proj1 Hc) Hx Hm1 Hx1 Hls) as (a' & Ha & Hr); [apply (T range_fits H32 Hes32); (done || lia)| |by eexists p, _, a'].
  destruct H as [(-> & _ & Hz)|(Hp & Ep & _ & Hz & _ & Hu)]; [by left|by right].
Qed.

Lemma run_dealloc F s a : rep F s a -> legal s a ODealloc -> simulates F s a ODealloc.
Proof.
  intros Hrep. unfold legal. rewrite (rep_count F s a Hrep). intros (Hn & p & s1 & Et & Hp). destruct Hrep as (ads & ws & X & R & Hm & -> & Hx). cbn [run].
  destruct (T dealloc_spec H32 Hes32 s ads ws X R p s1 Hm Hn Et Hp) as (s' & X' & R' & -> & Hm' & Hz & Hx'). cbn [mbind option_bind].
  eexists 0, s', _. split; [done|]. split; [|by apply (rep_resized F True s ads ws X' R' s' _ Hz); [|auto]].
  cbn [spec current snapshots]. f_equal. rewrite (resized_take s s' ws _ Hz) by lia. f_equal. rewrite blocks_length. cbn [top snd]. lia.
Qed.

Lemma run_dealloc_range F s a k : rep F s a -> legal s a (ODeallocRange k) -> simulates F s a (ODeallocRange k).
Proof.
  intros Hrep. unfold legal. rewrite (rep_count F s a Hrep). intros (Hn & Hk & Hnk & HKk & p & s1 & Et & Hp). destruct Hrep as (ads & ws & X & R & Hm & -> & Hx). cbn [run].
  destruct (T dealloc_range_spec H32 Hes32 s ads ws X R k p s1 Hm Hn Hk Hnk HKk Et Hp) as (s' & X' & R' & -> & Hm' & Hz & Hx'). cbn [mbind option_bind].
  assert (k <= block_count (head (inst s))) by (apply Z.mod_divide in Hnk as [q Hq]; [|lia]; assert (0 < q) by nia; nia).
  eexists 0, s', _. split; [done|]. split; [|by apply (rep_resized F True s ads ws X' R' s' _ Hz); [|auto]].
  cbn [spec current snapshots]. f_equal. rewrite (resized_take s s' ws _ Hz) by lia. f_equal. rewrite blocks_length. cbn [top snd]. lia.
Qed.

(** A write through a touched pointer. *)
Lemma touch_write s ads ws X R id l : minv s ads ws X R -> 0 <= id < block_count (head (inst s)) -> Z.of_nat (length l) = bs ->
  exists p s' X' R', run s (OWrite id l) = Some (p, s') /\ minv s' ads ws X' R' /\ (exact (mem s) (ws ++ [top s]) X -> exact (mem s') (ws ++ [top s']) X') /\
    snaps (mem s') ads ws = snaps (mem s) ads ws /\ (top s').2 = (top s).2 /\
    ((p = NULL /\ blocks (mem s') (top s') = blocks (mem s) (top s) /\ (length R < 2 + need s ws)%nat /\ exists ws0 pv, ws = ws0 ++ [pv] /\ 0 < pv.2) \/
     (0 < p /\ blocks (mem s') (top s') = <[Z.to_nat id := l]> (blocks (mem s) (top s)) /\ (need s' ws + length R <= length R' + 2 + need s ws)%nat)).
Proof.
  intros Hm Hid Hl. pose proof (mi_count _ _ _ _ _ _ _ _ Hm) as Hc. cbn [run].
  destruct (T touch_spec H32 Hes32 s ads ws X R id Hm Hid) as (p & s1 & X1 & R1 & -> & Hm1 & Hev & Hx1 & H). cbn [mbind option_bind].
  pose proof (evolves_same lp lk lb s s1 ws Hev) as Hz. pose proof (resized_same s s1 ws Hz ltac:(lia)) as Eb. pose proof (snaps_keep (mem s) (mem s1) ads ws (rz_ws _ _ _ _ _ _ _ Hz)) as Esn.
  pose proof (top_count lp lk lb s s1 ws Hev) as Et. destruct H as [(-> & Hlen & Hpv)|(-> & Hp & Ho & Hneed)].
  - exists NULL, s1, X1, R1. split; [done|]. split_and!; try done. by left.
  - rewrite (proj2 (Z.eqb_neq _ NULL)) by lia. assert (En : block_count (head (inst s1)) = block_count (head (inst s))) by exact Et.
    destruct (write_block s1 ads ws X1 R1 id l Hm1 ltac:(lia)) as (Hm2 & Hx2 & Es2 & Eb2 & _); [|done|].
    { intros v Hv Hs. exfalso. apply (owns_private lp lk (mem s1) ws (top s1) X1 id v); [apply (mi_forest _ _ _ _ _ _ _ _ Hm1)|lia|done|done|done]. }
    eexists _, _, X1, R1. split; [done|]. split; [exact Hm2|]. split; [auto|]. split; [by rewrite Es2|]. split; [done|]. right. split; [done|]. split; [by rewrite Eb2, Eb|done].
Qed.

Lemma run_write F s a id l : rep F s a -> legal s a (OWrite id l) -> simulates F s a (OWrite id l).
Proof.
  intros Hrep. unfold legal. rewrite (rep_count F s a Hrep). intros (Hid & Hl). destruct Hrep as (ads & ws & X & R & Hm & -> & Hx).
  destruct (touch_write s ads ws X R id l Hm Hid Hl) as (p & s' & X' & R' & Er & Hm' & Hx' & Esn & _ & H). eexists p, s', _. split; [exact Er|].
  split; [|exists ads, ws, X', R'; split; [done|]; split; [done|intros [? _]; auto]]. rewrite Esn. cbn [spec current snapshots]. destruct H as [(-> & -> & _)|(Hp & -> & _)]; [left|right]; done.
Qed.

Lemma run_reserve F s a count : rep F s a -> legal s a (OReserve count) -> simulates F s a (OReserve count).
Proof.
  intros (ads & ws & X & R & Hm & -> & Hx) Hcount. pose proof (mi_count _ _ _ _ _ _ _ _ Hm) as Hc. cbn [run]. cbn [legal] in Hcount.
  destruct (T touch_reserve_spec s ads ws X R count Hm Hcount) as (rc & s' & R' & -> & Hm' & Hev & Hx' & H). pose proof (evolves_same lp lk lb s s' ws Hev) as Hz.
  eexists rc, s', _. split; [done|]. split; [|by apply (rep_resized F True s ads ws X R' s' _ Hz); [|auto]]. cbn [spec]. split; [destruct H as [[-> _]| ->]; auto|]. f_equal. apply (resized_same s s' ws Hz). lia.
Qed.

Lemma snaps_fst M ads ws : length ws = length ads -> (snaps M ads ws).*1 = ads.
Proof. intros Hl. unfold snaps. apply fst_zip. rewrite length_fmap. lia. Qed.

Lemma snaps_lookup M ads ws i a l : snaps M ads ws !! i = Some (a, l) <-> ads !! i = Some a /\ exists v, ws !! i = Some v /\ l = blocks M v.
Proof.
  unfold snaps. rewrite lookup_zip_with, list_lookup_fmap. destruct (ads !! i) as [b|]; [|naive_solver]. destruct (ws !! i) as [v|]; cbn; naive_solver.
Qed.

Lemma run_view F s a v : rep F s a -> legal s a (OView v) -> simulates F s a (OView v).
Proof.
  intros (ads & ws & X & R & Hm & -> & Hx) (Hv0 & Hvs & Hv). cbn [run snapshots] in *. pose proof (li_length _ _ _ (mi_linked _ _ _ _ _ _ _ _ Hm)) as Hlen. rewrite snaps_fst in Hv by done.
  destruct (create_read_view_spec lp lk lb s ads ws X R v Hm Hv0) as (s' & -> & Hm' & Em & Et & Hx'); [by apply not_elem_of_cons|]. cbn [mbind option_bind].
  eexists 0, s', _. split; [done|]. split; [cbn [spec]; done|]. exists (ads ++ [v]), (ws ++ [top s]), X, R. split; [done|]. split; [|intros [? _]; auto].
  cbn [current snapshots]. rewrite Em, Et. f_equal. unfold snaps. rewrite fmap_app. rewrite zip_with_app by (by rewrite length_fmap). done.
Qed.

Lemma run_drop F s a v : rep F s a -> legal s a (ODrop v) -> simulates F s a (ODrop v).
Proof.
  intros (ads & ws & X & R & Hm & -> & Hx) (l & Hl & Hcap). cbn [run snapshots] in *. pose proof (mi_linked _ _ _ _ _ _ _ _ Hm) as HL. pose proof (li_length _ _ _ HL) as Hlen.
  apply list_elem_of_lookup in Hl as [i Hi]. apply snaps_lookup in Hi as (Ha & wv & Hw & ->). rewrite blocks_length in Hcap.
  destruct (fo_room _ _ _ _ _ (mi_forest _ _ _ _ _ _ _ _ Hm) wv) as [Hn _]; [apply elem_of_app; left; by eapply list_elem_of_lookup_2|].
  pose proof (take_drop_middle ads i v Ha) as Ea. pose proof (take_drop_middle ws i wv Hw) as Ew. set (a1 := take i ads) in *. set (a2 := drop (S i) ads) in *. set (w1 := take i ws) in *. set (w2 := drop (S i) ws) in *.
  pose proof (lookup_lt_Some _ _ _ Ha) as Hlt. assert (Hl1 : length w1 = length a1) by (unfold w1, a1; rewrite !length_take; lia). assert (Hla : length a1 = i) by (unfold a1; rewrite length_take; lia).
  rewrite <- Ea, <- Ew in Hm. destruct (T destroy_read_view_spec H32 Hes32 s a1 v a2 w1 wv w2 X R Hm Hl1 ltac:(lia)) as (s' & X' & -> & Hm' & Em & Et & _ & _ & Hx'). cbn [mbind option_bind].
  eexists 0, s', _. split; [done|]. split; [cbn [spec]; done|]. exists (a1 ++ a2), (w1 ++ w2), X', R. split; [done|]. split.
  - cbn [current snapshots]. rewrite Em, Et. f_equal. pose proof (li_nodup _ _ _ HL) as Hnd. rewrite <- Ea in Hnd |- *. rewrite <- Ew. apply NoDup_app in Hnd as (_ & N2 & N3). apply NoDup_cons in N3 as [N3 _].
    assert (Hkeep : forall (b : list Z) (z : list (list (list Z))), v ∉ b -> filter (fun p : Z * list (list Z) => p.1 <> v) (zip b z) = zip b z).
    { intros b z Hb. revert z. induction b as [|c b IH]; intros [|y z]; try done. apply not_elem_of_cons in Hb as [Hc Hb]. cbn [zip_with]. rewrite filter_cons_True by (cbn; congruence). by rewrite IH. }
    unfold snaps. rewrite !fmap_app. cbn [fmap list_fmap]. rewrite !zip_with_app by (by rewrite length_fmap). cbn [zip_with]. rewrite filter_app, filter_cons_False by (cbn; tauto).
    rewrite !Hkeep; [done|done|]. intros Hin. apply (N2 v Hin). left.
  - intros [HF Ht]. apply Hx'; [|rewrite Ew; by apply Hx]. intros p Ep pl Hpl _. apply (has_mono lp lk wv.2); [done|]. apply last_Some in Ep as [w0 Ep].
    assert (Hp : ws !! length w0 = Some p) by (rewrite <- Ew, Ep, <- app_assoc; by apply list_lookup_middle). 
    assert (Hi0 : i = S (length w0)) by (clear -Ep Hl1 Hla; clearbody a1 w1; subst w1; rewrite length_app in Hl1; cbn in Hl1; lia).
    destruct (lookup_lt_is_Some_2 ads (length w0)) as [b Hb]; [lia|].
    specialize (Ht (length w0) b (blocks (mem s) p) (blocks (mem s) wv)). cbn [snapshots] in Ht. rewrite !blocks_length in Ht.
    assert (Hle : (Z.to_nat wv.2 <= Z.to_nat p.2)%nat) by (apply Ht; apply snaps_lookup; [split; [done|by exists p]|rewrite <- Hi0; split; [done|by exists wv]]).
    rewrite Ew in Hm. destruct (fo_room _ _ _ _ _ (mi_forest _ _ _ _ _ _ _ _ Hm) p) as [Hn' _]; [apply elem_of_app; left; by eapply list_elem_of_lookup_2|]. lia.
Qed.

Lemma run_all F s a o : rep F s a -> legal s a o -> simulates F s a o.
Proof.
  destruct o; intros Hr Hl; [by apply run_alloc|by apply run_alloc_range|by apply run_dealloc|by apply run_dealloc_range|by apply run_write|by apply run_reserve|by apply run_view|by apply run_drop].
Qed.

(** ** Reading *)

(** Blocks are read at the addresses that the code computes. *)
Definition reads (s : matras_state) (a : versions) : Prop :=
  (forall i b, current a !! i = Some b -> exists p, matras_get s (Z.of_nat i) = Some p /\ load (mem s) p bs = b) /\
  (forall v l i b, (v, l) ∈ snapshots a -> l !! i = Some b ->
     exists w p, get_view s v = Some w /\ matras_is_read_view_created w = 1 /\ matras_view_get s w (Z.of_nat i) = Some p /\ load (mem s) p bs = b).

Lemma rep_reads F s a : rep F s a -> reads s a.
Proof.
  intros (ads & ws & X & R & Hm & -> & _). pose proof (mi_geo _ _ _ _ _ _ _ _ Hm) as Hg. pose proof Hg as (_ & _ & _ & _ & _ & _ & Hcap & _). split.
  - intros i b Hb. cbn [current] in Hb. rewrite blocks_lookup in Hb. destruct (decide _) as [Hi|]; [|done]. injection Hb as <-. cbn [top fst snd] in *. pose proof (mi_count _ _ _ _ _ _ _ _ Hm).
    exists (block (mem s) (root (head (inst s))) (Z.of_nat i)). split; [|done]. unfold matras_get. by rewrite (T get_no_check_spec Hes32) by (done || lia).
  - intros v l i b Hv Hb. cbn [snapshots] in Hv. apply list_elem_of_lookup in Hv as [k Hk]. apply snaps_lookup in Hk as (Ha & wv & Hw & ->). rewrite blocks_lookup in Hb.
    destruct (decide _) as [Hi|]; [|done]. injection Hb as <-. pose proof (mi_cap _ _ _ _ _ _ _ _ Hm wv ltac:(by eapply list_elem_of_lookup_2)). pose proof (mi_linked _ _ _ _ _ _ _ _ Hm) as HL.
    destruct (linked_get s ads ws k v HL Ha) as (w & Hget & Hww & _ & Hnext). rewrite Hw in Hww. injection Hww as ->. cbn [fst snd] in *.
    assert (Hnn : next_view w <> NULL).
    { rewrite Hnext. unfold next_of. apply (li_addr _ _ _ HL). destruct (ads !! S k) as [b|] eqn:Eb; cbn; [right; by eapply list_elem_of_lookup_2|left]. }
    exists w, (block (mem s) (root w) (Z.of_nat i)). split; [done|]. unfold matras_is_read_view_created, matras_view_get. rewrite (proj2 (Z.eqb_neq _ NULL)) by done. cbn [negb]. split; [done|].
    split; [|done]. by rewrite (T get_no_check_spec Hes32) by (done || lia).
Qed.

(** ** Reservations *)

(** Blocks are written one after the other. *)
Fixpoint writes (s : matras_state) (wl : list (Z * list Z)) : option (list Z * matras_state) :=
  match wl with
  | [] => Some ([], s)
  | (id, l) :: wl => '(p, s) ← run s (OWrite id l); '(ps, s) ← writes s wl; Some (p :: ps, s)
  end.
Definition written (a : versions) (wl : list (Z * list Z)) : versions :=
  Versions (foldl (fun c w => <[Z.to_nat w.1 := w.2]> c) (current a) wl) (snapshots a).

(** The reserved extents are enough for [k] touches. *)
Definition ready (s : matras_state) (ws : list (Z * Z)) (R : list Z) (k : nat) : Prop :=
  forall ws0 pv, ws = ws0 ++ [pv] -> 0 < pv.2 -> (0 < k)%nat -> (2 * k + need s ws <= length R)%nat.

Lemma writes_ready wl : forall s ads ws X R, minv s ads ws X R -> ready s ws R (length wl) ->
  (forall id l, (id, l) ∈ wl -> 0 <= id < block_count (head (inst s)) /\ Z.of_nat (length l) = bs) ->
  exists ps s' X' R', writes s wl = Some (ps, s') /\ Forall (fun p => 0 < p) ps /\ minv s' ads ws X' R' /\ (exact (mem s) (ws ++ [top s]) X -> exact (mem s') (ws ++ [top s']) X') /\
    Versions (blocks (mem s') (top s')) (snaps (mem s') ads ws) = written (Versions (blocks (mem s) (top s)) (snaps (mem s) ads ws)) wl.
Proof.
  induction wl as [|[id l] wl IH]; intros s ads ws X R Hm Hr Hwl; cbn [writes]; [exists [], s, X, R; by split_and!|].
  destruct (Hwl id l) as [Hid Hl]; [left|]. destruct (touch_write s ads ws X R id l Hm Hid Hl) as (p & s1 & X1 & R1 & -> & Hm1 & Hx1 & Esn & Et & H). cbn [mbind option_bind].
  destruct H as [(-> & _ & Hlt & ws0 & pv & Ew & Hpv)|(Hp & Eb & Hneed)]; [specialize (Hr ws0 pv Ew Hpv); cbn [length] in Hr; lia|].
  destruct (IH s1 ads ws X1 R1 Hm1) as (ps & s2 & X2 & R2 & -> & Hps & Hm2 & Hx2 & E2).
  { intros ws0 pv Ew Hpv Hk. specialize (Hr ws0 pv Ew Hpv). cbn [length] in Hr. lia. }
  { intros id' l' Hin. change (block_count (head (inst s1))) with ((top s1).2). rewrite Et. apply Hwl. by right. }
  cbn [mbind option_bind]. exists (p :: ps), s2, X2, R2. split; [done|]. split; [by constructor|]. split; [done|]. split; [auto|]. rewrite E2. unfold written. cbn [current snapshots foldl fst snd]. by rewrite Eb, Esn.
Qed.

Lemma reserved_writes F s a count s1 wl : rep F s a -> legal s a (OReserve count) -> matras_touch_reserve s count = Some (0, s1) -> Z.of_nat (length wl) <= count ->
  (forall id l, (id, l) ∈ wl -> legal s a (OWrite id l)) ->
  exists ps s2, writes s1 wl = Some (ps, s2) /\ Forall (fun p => 0 < p) ps /\ rep F s2 (written a wl).
Proof.
  intros Hrep Hcount Er Hlen. unfold legal in *. rewrite (rep_count F s a Hrep). intros Hwl. destruct Hrep as (ads & ws & X & R & Hm & -> & Hx). pose proof (mi_count _ _ _ _ _ _ _ _ Hm) as Hc.
  destruct (T touch_reserve_spec s ads ws X R count Hm Hcount) as (rc & s' & R' & Er' & Hm' & Hev & Hx' & H). rewrite Er in Er'. injection Er' as <- <-. destruct H as [[_ H]|]; [|done].
  pose proof (evolves_same lp lk lb s s1 ws Hev) as Hz. pose proof (resized_same s s1 ws Hz ltac:(lia)) as Eb. pose proof (snaps_keep (mem s) (mem s1) ads ws (rz_ws _ _ _ _ _ _ _ Hz)) as Esn.
  destruct (writes_ready wl s1 ads ws X R' Hm') as (ps & s2 & X2 & R2 & Ew & Hps & Hm2 & Hx2 & E2).
  { intros ws0 pv E1 Hpv Hk. specialize (H ws0 pv E1 Hpv ltac:(lia)). lia. }
  { intros id l Hin. rewrite (ev_head _ _ _ _ _ _ Hev). by apply Hwl. }
  exists ps, s2. split; [done|]. split; [done|]. exists ads, ws, X2, R2. split; [done|]. split; [by rewrite E2, Eb, Esn|]. auto.
Qed.

(** ** Creation and destruction *)

Lemma log2_pow k : 0 <= k < 32 -> matras_log2 (2 ^ k) = Some k.
Proof.
  intros Hk. unfold matras_log2, builtin_clz, sizeof_unsigned, CHAR_BIT. pose proof (pow2_pos k ltac:(lia)). rewrite (proj2 (Z.gtb_lt _ _)), Z.log2_pow2 by lia. f_equal.
  rewrite u32_small by lia. lia.
Qed.

Lemma matras_create_spec root0 (al : matras_allocator (E:=E)) : allocator_extent_size al = es ->
  exists m, matras_create root0 bs al = Some m /\ geo m /\ head m = MatrasView root0 0 NULL NULL /\ extent_count m = 0 /\ capacity m = 2 ^ Z.min 32 (lp + lp + lk).
Proof.
  intros Ea. unfold matras_create. rewrite Ea. pose proof (pow2_mono (lp + 3) 31 ltac:(lia)). pose proof (pow2_pos (lp + 3) ltac:(lia)). pose proof (pow2_pos lb Hlb). pose proof (T tree_sizes) as (? & ? & ? & Ees & _).
  pose proof (pow2_mono lb (lp + 3) ltac:(lia)).
  rewrite u64_small, land_mask, Z.mod_same by lia. rewrite u32_small, land_mask, Z.mod_same by lia. rewrite (proj2 (Z.leb_le _ _)) by lia.
  rewrite (proj2 (Z.gtb_lt _ _)) by (change sizeof_ptr with 8; lia). rewrite (u32_small es) by lia. rewrite (log2_pow (lp + 3)) by lia. rewrite (log2_pow lb) by lia.
  change (matras_log2 sizeof_ptr) with (Some 3). cbn [Z.eqb mbind option_bind].
  rewrite (u32_small ((lp + 3) * 3 - lb - 3 * 2)), (u32_small ((lp + 3) * 2 - lb - 3)), (u32_small (lp + 3 - lb)) by lia.
  replace ((lp + 3) * 3 - lb - 3 * 2) with (lp + lp + lk) by lia. replace ((lp + 3) * 2 - lb - 3) with (lp + lk) by lia. replace (lp + 3 - lb) with lk by lia.
  rewrite !(proj2 (Z.ltb_lt _ _)) by lia. eexists. split; [done|].
  pose proof (pow2_mono (lp + lk) 31 ltac:(lia)). pose proof (pow2_pos (lp + lk) ltac:(lia)). pose proof (pow2_mono lk 31 ltac:(lia)).
  assert (Ec : Z.shiftl 1 (if lp + lp + lk >? 32 then 32 else lp + lp + lk) = 2 ^ Z.min 32 (lp + lp + lk)) by (rewrite Z.shiftl_1_l; f_equal; destruct (Z.gtb_spec (lp + lp + lk) 32); lia).
  unfold MatrasInv.geo. cbn [block_size extent_size shift1 shift2 mask1 mask2 capacity head extent_count]. rewrite Ec, !Z.shiftl_1_l.
  assert (0 < 2 ^ Z.min 32 (lp + lp + lk)) by (apply Z.pow_pos_nonneg; lia). assert (2 ^ Z.min 32 (lp + lp + lk) <= 2 ^ 32) by (apply Z.pow_le_mono_r; lia).
  assert (2 ^ Z.min 32 (lp + lp + lk) <= 2 ^ (lp + lp + lk)) by (apply Z.pow_le_mono_r; lia). rewrite (Z.pow_add_r 2 (lp + lp)), (Z.pow_add_r 2 lp lp) in * by lia.
  rewrite !u32_small by (rewrite ?u32_small by lia; lia). done.
Qed.

(** The last extents go back. *)
Lemma allocator_destroy_spec fuel M (al : matras_allocator (E:=E)) R : einv es (external al) R -> chain M (reserved_extents al) R -> num_reserved_extents al = Z.of_nat (length R) ->
  (length R <= fuel)%nat -> exists al', allocator_destroy_loop fuel M al = Some al' /\ einv es (external al') [] /\ num_reserved_extents al' = 0.
Proof.
  revert al R. induction fuel as [|fuel IH]; intros al R He Hc Hn Hf; cbn [allocator_destroy_loop]; rewrite Hn; destruct R as [|q R]; try (by exists al); [cbn in Hf; lia|].
  destruct Hc as [-> Hc]. rewrite (proj2 (Z.gtb_lt _ _)) by (cbn; lia). destruct (ext_free _ _ _ q R He) as (e' & -> & He'); [done|]. cbn [mbind option_bind].
  apply (IH _ R); [done|done|cbn; lia|cbn in Hf; lia].
Qed.

(** No snapshot has more blocks than the one before it. *)
Definition tight_snapshots (a : versions) : Prop :=
  forall i p x q y, snapshots a !! i = Some (p, x) -> snapshots a !! S i = Some (q, y) -> (length y <= length x)%nat.
(** The counters of the loops do not wrap around. *)
Definition countable (a : versions) : Prop := forall l, l = current a \/ l ∈ (snapshots a).*2 -> Z.of_nat (length l) <= 2 ^ 32 - P * K.

Lemma rep_tight F s a : rep F s a -> tight_snapshots a -> countable a ->
  exists ads ws X R, minv s ads ws X R /\ (F -> exact (mem s) (ws ++ [top s]) X) /\ tight_chain lp lk (mem s) ws /\ (forall v, v ∈ ws ++ [top s] -> v.2 <= 2 ^ 32 - P * K).
Proof.
  intros (ads & ws & X & R & Hm & -> & Hx) Ht Hc. exists ads, ws, X, R. split; [done|]. split; [done|]. pose proof (li_length _ _ _ (mi_linked _ _ _ _ _ _ _ _ Hm)) as Hlen.
  assert (Hn : forall v, v ∈ ws ++ [top s] -> 0 <= v.2) by (intros v Hv; by apply (fo_room _ _ _ _ _ (mi_forest _ _ _ _ _ _ _ _ Hm))). split.
  - intros w0 p v w2 -> w Hw _. apply (has_mono lp lk v.2 p.2 w Hw). rewrite length_app in Hlen. cbn in Hlen.
    destruct (lookup_lt_is_Some_2 ads (length w0)) as [b Hb]; [lia|]. destruct (lookup_lt_is_Some_2 ads (S (length w0))) as [c Hc']; [lia|].
    specialize (Ht (length w0) b (blocks (mem s) p) c (blocks (mem s) v)). cbn [snapshots] in Ht. rewrite !blocks_length in Ht.
    assert (Hle : (Z.to_nat v.2 <= Z.to_nat p.2)%nat).
    { apply Ht; apply snaps_lookup; (split; [done|]); [exists p|exists v]; (split; [|done]); [by apply list_lookup_middle|]. by rewrite lookup_app_r, Nat.sub_succ_l, Nat.sub_diag by lia. }
    assert (0 <= p.2) by (apply Hn; rewrite !elem_of_app; left; right; left). lia.
  - intros v Hv. pose proof (Hn v Hv). enough (Z.of_nat (length (blocks (mem s) v)) <= 2 ^ 32 - P * K) by (rewrite blocks_length in *; lia). apply Hc. cbn [current snapshots].
    apply elem_of_app in Hv as [Hv|Hv]; [right|left; by apply list_elem_of_singleton in Hv as ->]. unfold snaps. rewrite snd_zip by (rewrite length_fmap; lia). apply list_elem_of_fmap. by exists v.
Qed.

Lemma rep_fresh (F : Prop) (s : matras_state) R : geo (inst s) -> res s [] R -> self s <> NULL -> block_count (head (inst s)) = 0 -> prev_view (head (inst s)) = NULL -> rep F s (Versions [] []).
Proof.
  intros Hg Hr Hs Hn Hp. destruct (T minv_fresh s R Hg Hr Hs Hn Hp) as [Hm Hx]. exists [], [], [], R. split; [done|]. split; [|done]. f_equal. unfold blocks. cbn [top snd]. by rewrite Hn.
Qed.
End Versions.
