(* ===== verification/MatrasProps.v ===== *)
(** * What [Matras] promises

    The theorems on [Matras] for any allocator of extents that keeps [ExtentLaws],
    with an allocator that does. *)
From S2P Require Import Prelude Util Bytes Matras MatrasTree MatrasInv MatrasOps MatrasFree MatrasViews MatrasDestroy MatrasSpec.

(** ** An allocator of extents

    Extents of 64 bytes one after the other; [b_left] more can be had. *)
Record bump := Bump { b_next : Z; b_left : Z; b_live : list Z }.

#[global] Instance bump_allocator : ExtentAllocator bump := {
  alloc_func e := if b_left e >? 0 then (b_next e, Bump (b_next e + 64) (b_left e - 1) (b_next e :: b_live e)) else (NULL, e);
  free_func e p := if decide (p ∈ b_live e) then Some (Bump (b_next e) (b_left e) (filter (fun q => q <> p) (b_live e))) else None;
}.

Record bump_inv (n : Z) (e : bump) (L : list Z) : Prop := {
  bi_size : n = 64;
  bi_live : L ≡ₚ b_live e;
  bi_nodup : NoDup (b_live e);
  bi_next : 0 < b_next e /\ (64 | b_next e);
  bi_pos p : p ∈ b_live e -> 0 < p < b_next e /\ (64 | p);
}.

Lemma bump_fresh e : 0 < b_next e -> (64 | b_next e) -> b_live e = [] -> bump_inv 64 e [].
Proof. intros H1 H2 H3. split; rewrite ?H3; try done; [constructor|]. intros p Hp. by apply elem_of_nil in Hp. Qed.

Lemma filter_absent (p : Z) (l : list Z) : p ∉ l -> filter (fun q => q <> p) l = l.
Proof.
  induction l as [|x l IH]; [done|]. intros [Hx Hl]%not_elem_of_cons. rewrite filter_cons_True by congruence. by rewrite IH.
Qed.

#[global] Instance bump_laws : ExtentLaws bump_inv.
Proof.
  split.
  - intros n e L [-> HL Hnd [Hn Hd] Hp]. split_and!; [by rewrite HL|intros p Hin; rewrite HL in Hin; by apply Hp|]. intros p q Hpin Hqin Hne. rewrite HL in Hpin, Hqin.
    destruct (Hp p Hpin) as [_ [a ->]], (Hp q Hqin) as [_ [b ->]]. lia.
  - intros n e L [-> HL Hnd [Hn Hd] Hp]. cbn. destruct (b_left e >? 0); eexists _, _; (split; [done|]); [right|left; split; [done|by split]].
    pose proof Hd as [c Ec]. split; [done|]. split; cbn; [done|by rewrite HL| | |].
    + apply NoDup_cons. split; [|done]. intros Hin. destruct (Hp _ Hin) as [? _]. lia.
    + split; [lia|]. exists (c + 1). lia.
    + intros p [->|Hin]%elem_of_cons; [split; [lia|by exists c]|]. destruct (Hp p Hin) as [? ?]. split; [lia|done].
  - intros n e L p L' [-> HL Hnd Hd Hp] HP. cbn. rewrite decide_True by (rewrite <- HL, HP; left). eexists. split; [done|]. rewrite HP in HL. split; cbn; [done| |by apply NoDup_filter|done|].
    + rewrite <- HL in Hnd |- *. apply NoDup_cons in Hnd as [Hnot _]. rewrite filter_cons_False by tauto. by rewrite filter_absent.
    + intros q [_ Hq]%list_elem_of_filter. by apply Hp.
  - intros n e L L' [H1 H2 H3 H4 H5] HP. split; try done. by rewrite <- HP.
Qed.

(** ** An instance

    Extents of 8 pointers or 8 blocks of 8 bytes. *)
Definition demo_allocator : matras_allocator := matras_allocator_create 64 (Bump 1024 100 []).
Definition demo_matras : matras := default (Matras (MatrasView 0 0 0 0) 0 0 0 0 0 0 0 0) (matras_create 0 8 demo_allocator).
Definition demo : matras_state := MatrasState demo_matras 16 ∅ demo_allocator matras_stats_create (fun _ => 0).

(** What is written to a new block. *)
Definition ones : list Z := repeat 1 8.

Definition next_state (s : matras_state (E:=bump)) (o : op) : matras_state := default s (snd <$> run 3 s o).
Definition run_ops (s : matras_state (E:=bump)) (os : list op) : option matras_state :=
  foldl (fun s o => s ← s; snd <$> run 3 s o) (Some s) os.

(** Two views of which the newer one has one more extent, and then a change. *)
Definition leaky : list op := repeat (OAlloc ones) 8 ++ [OView 100; OAlloc ones; OView 200; OWrite 8 (repeat 7 8)].

Lemma demo_rep : rep (einv:=bump_inv) 3 3 3 True demo (Versions [] []).
Proof.
  apply (rep_fresh 3 3 3 ltac:(lia) ltac:(lia) ltac:(lia) ltac:(lia) True demo []); [vm_compute; intuition congruence| |done|done|done].
  split; [apply bump_fresh; [done|by exists 16|done]|done|done|done].
Qed.

(** The state after an operation of the instance. *)
Lemma demo_step (F : Prop) (s : matras_state (E:=bump)) a o : rep (einv:=bump_inv) 3 3 3 F s a -> legal 3 3 3 s a o -> tight_op a o ->
  exists a', rep (einv:=bump_inv) 3 3 3 F (next_state s o) a' /\ spec a o (default 0 (fst <$> run 3 s o)) a'.
Proof.
  intros Hr Hl Ht. destruct (run_all 3 3 3 ltac:(lia) ltac:(lia) ltac:(lia) ltac:(lia) ltac:(lia) ltac:(lia) F s a o Hr Hl) as (out & s' & a' & Er & Hs & Hr').
  exists a'. unfold next_state. rewrite Er. split; [|done]. destruct Hr' as (ads & ws & X & R & H1 & H2 & H3). exists ads, ws, X, R. split; [done|]. split; [done|]. intros HF. by apply H3.
Qed.

(** A block and a view of it. *)
Definition demo1 : matras_state := next_state demo (OAlloc ones).
Definition demo2 : matras_state := next_state demo1 (OView 100).

Lemma demo2_rep : rep (einv:=bump_inv) 3 3 3 True demo2 (Versions [ones] [(100, [ones])]).
Proof.
  destruct (demo_step True demo _ (OAlloc ones) demo_rep eq_refl I) as (a1 & Hr1 & Hs1). replace (default 0 (fst <$> run 3 demo (OAlloc ones))) with 1152 in Hs1 by (vm_compute; reflexivity).
  cbn [spec current snapshots app] in Hs1. destruct Hs1 as [[Hz _]|[_ ->]]; [discriminate Hz|]. assert (Es : self demo1 = 16) by (vm_compute; reflexivity).
  destruct (demo_step True demo1 _ (OView 100) Hr1) as (a2 & Hr2 & Hs2); [split; [discriminate|split; [rewrite Es; discriminate|apply not_elem_of_nil]]|exact I|]. cbn [spec current snapshots app] in Hs2. subst a2. exact Hr2.
Qed.

Section Claims.
Context {E : Type} `{!ExtentAllocator E} {einv : Z -> E -> list Z -> Prop} `{!ExtentLaws einv}.
Context (lp lk lb : Z) (Hlp : 1 <= lp) (Hlk : 0 <= lk) (Hlb : 0 <= lb) (Hes : lk + lb = lp + 3) (H32 : lp + lk < 32) (Hes32 : lp + 3 < 32).
Local Abbreviation matras_state := (matras_state (E:=E)).
Local Abbreviation rep := (rep (einv:=einv) lp lk lb).
Local Abbreviation legal := (legal lp lk lb).

(** C15. The instance refines a vector of blocks with snapshots: every operation
    (allocation of a block or a range, deallocation, a write after a touch, a
    reservation, creation and destruction of a read view) that the caller may do
    runs, with no failed assertion and no extent freed that was not handed out,
    and does what the operation of the vector does, so that no snapshot ever
    changes while its view exists; and the blocks of the vector and of every
    snapshot are read at the addresses that [matras_get] and [matras_view_get]
    compute. *)
Theorem matras_refines_versions (F : Prop) (s : matras_state) (a : versions) : rep F s a ->
  reads lb s a /\
  forall o, legal s a o -> exists out s' a', run lb s o = Some (out, s') /\ spec a o out a' /\ rep (F /\ tight_op a o) s' a'.
Proof.
  intros Hr. split; [exact (rep_reads lp lk lb Hlp Hlk Hlb Hes Hes32 F s a Hr)|]. intros o. exact (run_all lp lk lb Hlp Hlk Hlb Hes H32 Hes32 F s a o Hr).
Qed.

(** C16. A reservation is enough: after [matras_touch_reserve] for [count] touches
    returned 0, any [count] touches of blocks, each followed by a write, get a
    pointer, whatever extents they have to copy, and leave the blocks written. *)
Theorem matras_touch_reserve_enough (F : Prop) (s s1 : matras_state) (a : versions) (count : Z) (wl : list (Z * list Z)) :
  rep F s a -> legal s a (OReserve count) -> matras_touch_reserve s count = Some (0, s1) -> Z.of_nat (length wl) <= count ->
  (forall id l, (id, l) ∈ wl -> legal s a (OWrite id l)) ->
  exists ps s2, writes lb s1 wl = Some (ps, s2) /\ Forall (fun p => 0 < p) ps /\ rep F s2 (written a wl).
Proof. exact (reserved_writes lp lk lb Hlp Hlk Hlb Hes H32 Hes32 F s a count s1 wl). Qed.

(** C17. From creation to destruction: an instance is created empty, with the
    capacity that its tables have; and when no snapshot has more blocks than the
    one before it, [matras_destroy] ends, its last assertion holds, every extent in
    use has gone back, and [matras_allocator_destroy] gives back the reserved ones;
    [matras_reset] leaves an empty instance. *)
Theorem matras_lifecycle :
  (forall root0 (e : E) self views M, einv (2 ^ (lp + 3)) e [] -> self <> NULL ->
     let al := matras_allocator_create (2 ^ (lp + 3)) e in
     exists m, matras_create root0 (2 ^ lb) al = Some m /\ capacity m = 2 ^ Z.min 32 (lp + lp + lk) /\
       rep True (MatrasState m self views al matras_stats_create M) (Versions [] [])) /\
  (forall (s : matras_state) a, rep True s a -> tight_snapshots a -> countable lp lk a ->
     (exists s' al', matras_destroy s = Some s' /\ matras_extent_count s' = 0 /\
        matras_allocator_destroy (mem s') (allocator s') = Some al' /\ einv (2 ^ (lp + 3)) (external al') []) /\
     (exists s', matras_reset s = Some s' /\ rep True s' (Versions [] []))).
Proof.
  split.
  - intros root0 e sf vs M He Hs al. destruct (matras_create_spec lp lk lb Hlp Hlk Hlb Hes H32 Hes32 root0 al eq_refl) as (m & Em & Hg & Hh & Hc & Hcap). exists m. split; [done|]. split; [done|].
    apply (rep_fresh lp lk lb Hlp Hlk Hlb Hes True _ []); cbn; [done|split; [done|done|done|by cbn; rewrite Hc]|done|by rewrite Hh|by rewrite Hh].
  - intros s a Hr Ht Hcap. destruct (rep_tight lp lk lb Hlp Hlk True s a Hr Ht Hcap) as (ads & ws & X & R & Hm & Hx & Htc & Hb). split.
    + destruct (matras_destroy_spec lp lk lb Hlp Hlk Hlb Hes H32 Hes32 s ads ws X R Hm (Hx I) Htc Hb) as (s' & Ed & Hres & _). pose proof Hres as [R1 R2 R3 R4]. rewrite app_nil_r in R1.
      destruct (allocator_destroy_spec lp (Z.to_nat (num_reserved_extents (allocator s'))) (mem s') (allocator s') R R1 R2 R3 ltac:(lia)) as (al' & Ea & He & _).
      exists s', al'. split; [done|]. split; [exact R4|]. done.
    + destruct (reset_spec lp lk lb Hlp Hlk Hlb Hes H32 Hes32 s ads ws X R Hm (Hx I) Htc Hb) as (s' & Er & Hm' & Hx' & Hn). exists s'. split; [done|].
      exists [], [], [], R. split; [done|]. split; [|done]. f_equal. unfold blocks. cbn [top snd]. by rewrite Hn.
Qed.
End Claims.

(** The claims at the instance. *)
Lemma matras_refines_versions_witness : exists out s' a', run 3 demo (OAlloc ones) = Some (out, s') /\ spec (Versions [] []) (OAlloc ones) out a' /\ rep (einv:=bump_inv) 3 3 3 (True /\ True) s' a'.
Proof.
  apply (matras_refines_versions (einv:=bump_inv) 3 3 3 ltac:(lia) ltac:(lia) ltac:(lia) ltac:(lia) ltac:(lia) ltac:(lia) True demo (Versions [] []) demo_rep). reflexivity.
Defined.

(** The block is shared with the view, so that the write copies three extents. *)
Lemma matras_touch_reserve_enough_witness : exists s1 ps s2, matras_touch_reserve demo2 1 = Some (0, s1) /\ writes 3 s1 [(0, repeat 7 8)] = Some (ps, s2) /\ Forall (fun p => 0 < p) ps.
Proof.
  pose proof demo2_rep as Hr. destruct (matras_touch_reserve demo2 1) as [[rc s1]|] eqn:Er; [|exfalso; revert Er; vm_compute; discriminate].
  assert (Erc : rc = 0) by (assert (Ef : fst <$> matras_touch_reserve demo2 1 = Some 0) by (vm_compute; reflexivity); rewrite Er in Ef; cbn in Ef; congruence). subst rc. exists s1.
  destruct (matras_touch_reserve_enough (einv:=bump_inv) 3 3 3 ltac:(lia) ltac:(lia) ltac:(lia) ltac:(lia) ltac:(lia) ltac:(lia) True demo2 s1 _ 1 [(0, repeat 7 8)] Hr) as (ps & s2 & H1 & H2 & _).
  - cbn. lia.
  - exact Er.
  - cbn. lia.
  - intros id l Hin. apply list_elem_of_singleton in Hin. injection Hin as -> ->. cbn. split; [lia|reflexivity].
  - exists ps, s2. split; [reflexivity|]. split; [exact H1|exact H2].
Defined.

Lemma matras_lifecycle_witness : exists s', matras_destroy demo2 = Some s' /\ matras_extent_count s' = 0.
Proof.
  pose proof demo2_rep as Hr.
  destruct (matras_lifecycle (einv:=bump_inv) 3 3 3 ltac:(lia) ltac:(lia) ltac:(lia) ltac:(lia) ltac:(lia) ltac:(lia)) as [_ Hd]. destruct (Hd demo2 _ Hr) as [(s' & al' & H1 & H2 & _) _].
  - intros i p x q y _ Hq. destruct i; discriminate Hq.
  - intros l [->|Hl]; [cbn; lia|]. apply list_elem_of_singleton in Hl as ->. cbn. lia.
  - exists s'. split; [exact H1|exact H2].
Defined.

(** A read view may be destroyed with its extents lost: when a view has an
    extent that the older view before it does not have, below a table that they
    share, [matras_destroy_read_view] passes by the table and frees nothing below
    it.  After blocks were added between two views and one of them changed, the
    instance keeps one extent more when the newer view is destroyed first, and
    [matras_destroy] stops at its last assertion; so it does when it destroys the
    views itself.  With the older view destroyed first everything goes back. *)
Example matras_newer_view_leaks :
  matras_extent_count <$> run_ops demo (leaky ++ [ODrop 100; ODrop 200]) = Some 4 /\
  matras_extent_count <$> run_ops demo (leaky ++ [ODrop 200; ODrop 100]) = Some 5 /\
  (s ← run_ops demo (leaky ++ [ODrop 100; ODrop 200]); matras_extent_count <$> matras_destroy s) = Some 0 /\
  (s ← run_ops demo (leaky ++ [ODrop 200; ODrop 100]); matras_destroy s) = None /\
  matras_extent_count <$> run_ops demo leaky = Some 7 /\ (s ← run_ops demo leaky; matras_destroy s) = None.
Proof. split_and!; vm_compute; reflexivity. Qed.
