(* ===== verification/Asan.v ===== *)
(** * Allocation for the address sanitizer: [small/util.c], [include/small/util.h]

    In the ASAN build every allocation is a block of [malloc] of its own, with a
    header, a payload that is aligned exactly, and poison around the payload.
    The runtime ([malloc], [free], the poisoning macros) is a parameter; its
    laws are what the manual of the sanitizer and the comments of [util.h]
    promise.  Memory holds bytes, so the offsets, the magic and the headers are
    the bytes the code writes. *)
From S2P Require Import Prelude Util Bytes.

(** ** Results

    [Exit]: [malloc] failed and [small_xmalloc_fail] ended the process.
    [Abort]: an assertion failed, or memory was misused. *)
Inductive result (A : Type) : Type :=
  | Ok (a : A)
  | Exit
  | Abort.
Arguments Ok {A} a.
Arguments Exit {A}.
Arguments Abort {A}.

#[global] Instance result_ret : MRet result := fun A a => Ok a.
#[global] Instance result_bind : MBind result := fun A B f r =>
  match r with Ok a => f a | Exit => Exit | Abort => Abort end.

Notation "'CHECK' b ; k" := (if b then k else Abort)
  (at level 10, b at level 99, k at level 200) : small_scope.

(** A function of the rest of the model, whose [None] is a failed assertion. *)
Definition of_option {A} (o : option A) : result A :=
  match o with Some a => Ok a | None => Abort end.

(** ** Numbers in memory, little endian *)
Fixpoint le_bytes (k : nat) (v : Z) : list Z :=
  match k with O => [] | S k => v mod 256 :: le_bytes k (v / 256) end.
Definition le_val (l : list Z) : Z := foldr (fun b acc => b + 256 * acc) 0 l.

Lemma le_bytes_length k v : length (le_bytes k v) = k.
Proof. revert v. induction k; intros v; [done|]. cbn [le_bytes length]. by rewrite IHk. Qed.

Lemma le_val_bytes k v : le_val (le_bytes k v) = v mod 256 ^ Z.of_nat k.
Proof.
  revert v. induction k as [|k IH]; intros v; [by rewrite Z.mod_1_r|].
  cbn [le_bytes le_val foldr]. fold (le_val (le_bytes k (v / 256))). rewrite IH.
  rewrite Nat2Z.inj_succ, Z.pow_succ_r by lia.
  rewrite Z.rem_mul_r by (pose proof (Z.pow_pos_nonneg 256 (Z.of_nat k)); lia). done.
Qed.

(** ** The runtime *)
Class AsanRt (rt : Type) := {
  rt_blocks : rt -> gmap Z Z;
  rt_malloc : rt -> memory -> Z -> Z * rt * memory;
  rt_free : rt -> memory -> Z -> option (rt * memory);
  rt_poison : rt -> Z -> Z -> rt;
  rt_unpoison : rt -> Z -> Z -> rt;
  rt_poisoned : rt -> Z -> bool;
}.

(** [rt_blocks] are the blocks the library has from [malloc], from address to size.  Blocks are aligned
    for any type and apart.  A new block is not poisoned; other blocks keep
    their bytes and their poison.  Poisoning may leave out bytes of the range,
    but none when the end of the range is a multiple of 8 or the end of the
    block.  Unpoisoning may go beyond the range, up to multiples of 8. *)
Class AsanRtLaws {rt : Type} `{!AsanRt rt} (rt_wf : rt -> Prop) : Prop := {
  rt_block o p n : rt_wf o -> rt_blocks o !! p = Some n ->
    0 < p /\ p mod 16 = 0 /\ 0 < n /\ p + n < 2 ^ 64;
  rt_apart o p n q m x : rt_wf o -> rt_blocks o !! p = Some n -> rt_blocks o !! q = Some m ->
    p <= x < p + n -> q <= x < q + m -> p = q;
  rt_malloc_ok o M n p o' M' : rt_wf o -> 0 < n -> rt_malloc o M n = (p, o', M') ->
    rt_wf o' /\
    ((p = NULL /\ rt_blocks o' = rt_blocks o) \/
     (0 < p /\ rt_blocks o !! p = None /\ rt_blocks o' = <[p := n]> (rt_blocks o) /\
      forall x, p <= x < p + n -> rt_poisoned o' x = false)) /\
    (forall q m x, rt_blocks o !! q = Some m -> q <= x < q + m ->
       M' x = M x /\ rt_poisoned o' x = rt_poisoned o x);
  rt_free_ok o M p n : rt_wf o -> rt_blocks o !! p = Some n ->
    exists o' M', rt_free o M p = Some (o', M') /\ rt_wf o' /\ rt_blocks o' = delete p (rt_blocks o) /\
      (forall q m x, rt_blocks o' !! q = Some m -> q <= x < q + m ->
         M' x = M x /\ rt_poisoned o' x = rt_poisoned o x);
  rt_poison_ok o p m a n : rt_wf o -> rt_blocks o !! p = Some m -> 0 <= n -> p <= a -> a + n <= p + m ->
    rt_wf (rt_poison o a n) /\ rt_blocks (rt_poison o a n) = rt_blocks o /\
    (forall x, rt_poisoned o x = true -> rt_poisoned (rt_poison o a n) x = true) /\
    (forall x, rt_poisoned (rt_poison o a n) x = true -> rt_poisoned o x = true \/ a <= x < a + n);
  rt_poison_precise o p m a n x : rt_wf o -> rt_blocks o !! p = Some m -> p <= a -> a + n <= p + m ->
    (a + n) mod 8 = 0 \/ a + n = p + m -> a <= x < a + n -> rt_poisoned (rt_poison o a n) x = true;
  rt_unpoison_ok o p m a n : rt_wf o -> rt_blocks o !! p = Some m -> 0 <= n -> p <= a -> a + n <= p + m ->
    rt_wf (rt_unpoison o a n) /\ rt_blocks (rt_unpoison o a n) = rt_blocks o /\
    (forall x, a <= x < a + n -> rt_poisoned (rt_unpoison o a n) x = false) /\
    (forall x, rt_poisoned (rt_unpoison o a n) x = true -> rt_poisoned o x = true) /\
    (forall x, x / 8 < a / 8 \/ (a + n + 7) / 8 <= x / 8 -> rt_poisoned (rt_unpoison o a n) x = rt_poisoned o x);
}.

(** ** Definitions *)

Definition SMALL_ASAN_HEADER_ALIGNMENT : Z := 8.
Definition SMALL_POISON_ALIGNMENT : Z := 8.
Definition SMALL_ASAN_MAGIC : Z := 0xdeadbeefcafefeed.
Definition UINT16_MAX : Z := 65535.

Section Asan.
Context {rt : Type} `{!AsanRt rt}.

(** The runtime, the bytes of memory and the counter of identifiers. *)
Record machine := Machine { run : rt; bytes : memory; small_asan_id_next : Z }.

Definition set_run (m : machine) (o : rt) : machine := Machine o (bytes m) (small_asan_id_next m).
Definition set_bytes (m : machine) (M : memory) : machine := Machine (run m) M (small_asan_id_next m).

(** [n] bytes at [p] are in a block of [malloc]. *)
Definition allocated (m : machine) (p n : Z) : bool :=
  existsb (fun '(q, k) => (q <=? p) && (p + n <=? q + k)) (map_to_list (rt_blocks (run m))).
(** None of them is poisoned. *)
Definition addressable (m : machine) (p n : Z) : bool :=
  forallb (fun x => negb (rt_poisoned (run m) x)) (seqZ p n).

(** Accesses of functions that are not instrumented, and of instrumented ones,
    which the runtime checks. *)
Definition read_raw (m : machine) (p : Z) (k : nat) : result Z :=
  CHECK allocated m p (Z.of_nat k); Ok (le_val (load (bytes m) p (Z.of_nat k))).
Definition write_raw (m : machine) (p : Z) (l : list Z) : result machine :=
  CHECK allocated m p (Z.of_nat (length l)); Ok (set_bytes m (store (bytes m) p l)).
Definition write_checked (m : machine) (p : Z) (l : list Z) : result machine :=
  CHECK addressable m p (Z.of_nat (length l)); write_raw m p l.

Definition ASAN_POISON_MEMORY_REGION (m : machine) (p n : Z) : result machine :=
  CHECK allocated m p n; Ok (set_run m (rt_poison (run m) p n)).
Definition ASAN_UNPOISON_MEMORY_REGION (m : machine) (p n : Z) : result machine :=
  CHECK allocated m p n; Ok (set_run m (rt_unpoison (run m) p n)).

Definition small_xmalloc (m : machine) (size : Z) : result (Z * machine) :=
  let '(ret, o, M) := rt_malloc (run m) (bytes m) size in
  if ret =? NULL then Exit else Ok (ret, Machine o M (small_asan_id_next m)).

(** An atomic increment of an [unsigned int]. *)
Definition small_asan_reserve_id (m : machine) : Z * machine :=
  (small_asan_id_next m, Machine (run m) (bytes m) (u32 (small_asan_id_next m + 1))).

Definition magic_bytes (n : Z) : list Z := take (Z.to_nat n) (le_bytes 8 SMALL_ASAN_MAGIC).

Definition small_asan_alloc (m : machine) (payload_size alignment header_size : Z) : result (Z * machine) :=
  let alloc_size := u64 (SMALL_ASAN_HEADER_ALIGNMENT + header_size + SMALL_POISON_ALIGNMENT - 1 +
                         2 + 2 * alignment - 1 + payload_size) in
  '(alloc, m) ← small_xmalloc m alloc_size;
  let payload := alloc + alloc_size - payload_size in
  CHECK small_align_down_ok alignment;
  let payload := small_align_down payload alignment in
  let payload := if payload mod u64 (2 * alignment) =? 0 then payload - alignment else payload in
  let header := alloc + SMALL_ASAN_HEADER_ALIGNMENT in
  CHECK payload - header <=? UINT16_MAX;
  let offset := u16 (payload - header) in
  let magic_begin := small_align_down payload SMALL_POISON_ALIGNMENT in
  m ← write_checked m (magic_begin - 2) (le_bytes 2 offset);
  m ← write_checked m alloc (le_bytes 2 offset);
  let payload_end := payload + payload_size in
  let alloc_end := alloc + alloc_size in
  m ← ASAN_POISON_MEMORY_REGION m payload_end (alloc_end - payload_end);
  m ← ASAN_POISON_MEMORY_REGION m alloc (magic_begin - alloc);
  m ← write_checked m magic_begin (magic_bytes (payload - magic_begin));
  Ok (header, m).

Definition small_asan_payload_from_header (m : machine) (header : Z) : result Z :=
  offset ← read_raw m (header - SMALL_ASAN_HEADER_ALIGNMENT) 2;
  Ok (header + offset).

Definition small_asan_header_from_payload (m : machine) (payload : Z) : result Z :=
  let magic_begin := small_align_down payload SMALL_POISON_ALIGNMENT in
  offset ← read_raw m (magic_begin - 2) 2;
  Ok (payload - offset).

Definition small_asan_free (m : machine) (header : Z) : result machine :=
  let alloc := header - SMALL_ASAN_HEADER_ALIGNMENT in
  payload ← small_asan_payload_from_header m header;
  let magic_begin := small_align_down payload SMALL_POISON_ALIGNMENT in
  let n := payload - magic_begin in
  CHECK allocated m magic_begin n && addressable m magic_begin n;
  CHECK bool_decide (load (bytes m) magic_begin n = magic_bytes n);
  '(o, M) ← of_option (rt_free (run m) (bytes m) alloc);
  Ok (Machine o M (small_asan_id_next m)).
End Asan.
Arguments machine rt : clear implicits.

(** ** Chunks

    What [small_asan_alloc] makes: a block with the header at [ck_header], of
    [ck_hsize] bytes, and the payload of [ck_size] bytes at [ck_payload]. *)
Record chunk := Chunk { ck_header : Z; ck_payload : Z; ck_size : Z; ck_align : Z; ck_hsize : Z }.
Definition ck_alloc (c : chunk) : Z := ck_header c - 8.
Definition ck_total (c : chunk) : Z := ck_size c + ck_hsize c + 2 * ck_align c + 16.
Definition ck_magic (c : chunk) : Z := ck_payload c - ck_payload c mod 8.
Definition in_block (c : chunk) (x : Z) : Prop := ck_alloc c <= x < ck_alloc c + ck_total c.
Definition in_payload (c : chunk) (x : Z) : Prop := ck_payload c <= x < ck_payload c + ck_size c.

(** The payload is aligned, and not better; the header and two bytes for the
    offset are before it. *)
Record layout (c : chunk) : Prop := {
  l_size : 0 <= ck_size c;
  l_hsize : 0 <= ck_hsize c;
  l_pow2 : pow2 (ck_align c);
  l_align : ck_payload c mod ck_align c = 0;
  l_exact : ck_payload c mod (2 * ck_align c) <> 0;
  l_before : ck_header c + ck_hsize c + 2 <= ck_magic c;
  l_after : ck_payload c + ck_size c <= ck_alloc c + ck_total c;
  l_offset : ck_payload c - ck_header c <= UINT16_MAX;
  l_range : 0 < ck_alloc c /\ ck_alloc c + ck_total c < 2 ^ 64;
}.

(** What can be asked for: the offset fits in 16 bits and the size of the block
    in 64. *)
Definition asan_fits (payload_size alignment header_size : Z) : Prop :=
  0 <= payload_size /\ pow2 alignment /\ 0 <= header_size /\ header_size + 2 * alignment + 8 <= UINT16_MAX /\
  payload_size + header_size + 2 * alignment + 16 < 2 ^ 64.

Lemma ck_magic_bounds c : ck_magic c <= ck_payload c < ck_magic c + 8 /\ ck_magic c mod 8 = 0.
Proof. unfold ck_magic. Z.to_euclidean_division_equations. lia. Qed.

Lemma ck_magic_eq c : layout c -> small_align_down (ck_payload c) 8 = ck_magic c.
Proof.
  intros L. change 8 with (2 ^ 3) at 1. rewrite small_align_down_eq; [done|lia|].
  pose proof (ck_magic_bounds c). destruct L. unfold in_u. unfold ck_alloc, ck_total in *. lia.
Qed.

(** Where the payload ends up below [e], the place furthest back. *)
Lemma payload_place e A : in_u 64 e -> pow2 A -> 2 * A <= e -> A < 2 ^ 63 ->
  let p := small_align_down e A in
  let q := if p mod u64 (2 * A) =? 0 then p - A else p in
  e - 2 * A < q <= e /\ q mod A = 0 /\ q mod (2 * A) <> 0.
Proof.
  intros He HA Hle Hb. pose proof (pow2_spec_pos _ HA) as HA0. destruct HA as (a & Ha & ->).
  assert (a < 63) by (apply (Z.pow_lt_mono_r_iff 2); lia). cbv zeta.
  rewrite small_align_down_eq, u64_small by (done || lia). set (A := 2 ^ a) in *.
  pose proof (Z.mod_pos_bound e A HA0) as Hr.
  assert (Hp : (e - e mod A) mod A = 0) by (rewrite Zminus_mod_idemp_r, Z.sub_diag; apply Z.mod_0_l; lia).
  destruct (Z.eqb_spec ((e - e mod A) mod (2 * A)) 0) as [E|E]; [|split_and!; (done || lia)].
  apply Z.mod_divide in E as [k Ek]; [|lia]. rewrite Ek. split_and!; [lia|lia| |].
  - replace (k * (2 * A) - A) with ((2 * k - 1) * A) by lia. apply Z.mod_mul. lia.
  - replace (k * (2 * A) - A) with (A + (k - 1) * (2 * A)) by lia. rewrite Z.mod_add, Z.mod_small by lia. lia.
Qed.

Section Chunks.
Context {rt : Type} `{!AsanRt rt} {rt_wf : rt -> Prop} `{!AsanRtLaws rt_wf}.
Local Abbreviation machine := (machine rt).

(** A chunk in memory: its block, the offsets, and the magic, which [free] may
    look at. *)
Record chunk_in (m : machine) (c : chunk) : Prop := {
  k_layout : layout c;
  k_block : rt_blocks (run m) !! ck_alloc c = Some (ck_total c);
  k_offset : load (bytes m) (ck_alloc c) 2 = le_bytes 2 (ck_payload c - ck_header c);
  k_back : load (bytes m) (ck_magic c - 2) 2 = le_bytes 2 (ck_payload c - ck_header c);
  k_magic : load (bytes m) (ck_magic c) (ck_payload c - ck_magic c) = magic_bytes (ck_payload c - ck_magic c);
  k_open x : ck_magic c <= x < ck_payload c -> rt_poisoned (run m) x = false;
}.

(** All but the payload and the magic is poisoned. *)
Definition guarded (m : machine) (c : chunk) : Prop :=
  forall x, in_block c x -> x < ck_magic c \/ ck_payload c + ck_size c <= x -> rt_poisoned (run m) x = true.
(** The first [n] bytes of the payload are not poisoned. *)
Definition open (m : machine) (c : chunk) (n : Z) : Prop :=
  forall x, ck_payload c <= x < ck_payload c + n -> rt_poisoned (run m) x = false.

(** No block is in use but those of [C]: what was freed is gone. *)
Definition no_other (m : machine) (C : list chunk) : Prop :=
  forall p, is_Some (rt_blocks (run m) !! p) -> p ∈ ck_alloc <$> C.

Definition asan_inv (m : machine) (C : list chunk) : Prop :=
  rt_wf (run m) /\ in_u 32 (small_asan_id_next m) /\ NoDup (ck_header <$> C) /\ (forall c, c ∈ C -> chunk_in m c) /\
  no_other m C.

Lemma asan_chunks m C : asan_inv m C -> forall c, c ∈ C -> chunk_in m c.
Proof. intros (_ & _ & _ & H & _). exact H. Qed.

(** The blocks of [C] keep their bytes and their poison. *)
Definition same_on (m m' : machine) (C : list chunk) : Prop :=
  forall c x, c ∈ C -> in_block c x -> bytes m' x = bytes m x /\ rt_poisoned (run m') x = rt_poisoned (run m) x.

(** Little-endian field of [k] bytes at offset [off] of the header. *)
Definition field (m : machine) (c : chunk) (off : Z) (k : nat) (v : Z) : Prop :=
  load (bytes m) (ck_header c + off) (Z.of_nat k) = le_bytes k v.

Lemma allocated_intro m q k p n : rt_blocks (run m) !! q = Some k -> q <= p -> p + n <= q + k ->
  allocated m p n = true.
Proof.
  intros Hq H1 H2. apply existsb_exists. exists (q, k).
  rewrite <- list_elem_of_In, elem_of_map_to_list. split; [done|]. apply andb_true_iff; split; by apply Z.leb_le.
Qed.

Lemma allocated_chunk m c p n : chunk_in m c -> ck_alloc c <= p -> p + n <= ck_alloc c + ck_total c ->
  allocated m p n = true.
Proof. intros K. apply allocated_intro, K. Qed.

Lemma addressable_intro (m : machine) p n : (forall x, p <= x < p + n -> rt_poisoned (run m) x = false) ->
  addressable m p n = true.
Proof.
  intros H. apply forallb_forall. intros x Hx%list_elem_of_In%elem_of_seqZ. by rewrite H by lia.
Qed.

(** The payload is in the block. *)
Lemma payload_bounds c : layout c -> ck_header c + ck_hsize c + 2 <= ck_payload c /\
  ck_alloc c + 10 <= ck_magic c /\ ck_payload c < 2 ^ 64 /\ 0 < ck_header c.
Proof. intros L. pose proof (ck_magic_bounds c). destruct L. unfold ck_alloc in *. lia. Qed.

Lemma magic_in_block c x : layout c -> ck_magic c <= x < ck_payload c -> in_block c x.
Proof.
  intros L Hx. pose proof (payload_bounds c L). pose proof (l_after c L). pose proof (l_size c L). pose proof (l_hsize c L).
  unfold in_block, ck_alloc in *. lia.
Qed.

Lemma offset_small c : layout c -> 0 <= ck_payload c - ck_header c < 65536.
Proof. intros L. pose proof (payload_bounds c L). pose proof (l_offset c L). pose proof (l_hsize c L). unfold UINT16_MAX in *. lia. Qed.

(** Blocks of different chunks are apart. *)
Lemma chunks_apart m c d x : rt_wf (run m) -> chunk_in m c -> chunk_in m d -> in_block c x -> in_block d x ->
  ck_header c = ck_header d.
Proof.
  intros W Kc Kd Hc Hd. pose proof (rt_apart _ _ _ _ _ x W (k_block _ _ Kc) (k_block _ _ Kd) Hc Hd) as E.
  unfold ck_alloc in E. lia.
Qed.

(** A chunk stays one while its block, its bytes outside the header and the
    payload and its poison stay. *)
Lemma chunk_in_frame m m' c : chunk_in m c -> rt_blocks (run m') !! ck_alloc c = Some (ck_total c) ->
  (forall x, in_block c x -> ~ in_payload c x -> ~ ck_header c <= x < ck_header c + ck_hsize c ->
     bytes m' x = bytes m x) ->
  (forall x, ck_magic c <= x < ck_payload c -> rt_poisoned (run m') x = false) -> chunk_in m' c.
Proof.
  intros K Hb HM Hp. pose proof (k_layout _ _ K) as L. pose proof (payload_bounds c L) as P.
  pose proof (ck_magic_bounds c) as B. pose proof (l_before c L). pose proof (l_hsize c L). pose proof (l_after c L).
  pose proof (l_size c L).
  split; [done|done|..|done]; [rewrite <- (k_offset _ _ K)|rewrite <- (k_back _ _ K)|rewrite <- (k_magic _ _ K)];
    apply load_ext; intros x Hx; apply HM; unfold in_block, in_payload, ck_alloc in *; lia.
Qed.

Lemma same_on_refl m C : same_on m m C.
Proof. done. Qed.
Lemma same_on_trans m1 m2 m3 C : same_on m1 m2 C -> same_on m2 m3 C -> same_on m1 m3 C.
Proof. intros H1 H2 c x Hc Hx. destruct (H1 c x Hc Hx), (H2 c x Hc Hx). split; congruence. Qed.
Lemma same_on_sub m m' C D : same_on m m' C -> D ⊆ C -> same_on m m' D.
Proof. intros H Hs c x Hc. apply H. by apply Hs. Qed.

Lemma same_on_field m m' C c off k v : same_on m m' C -> c ∈ C -> layout c -> 0 <= off -> off + Z.of_nat k <= ck_hsize c ->
  field m c off k v -> field m' c off k v.
Proof.
  intros HS Hc L Ho Hk HF. unfold field. rewrite <- HF. apply load_ext. intros x Hx. apply (HS c x Hc).
  pose proof (payload_bounds c L). pose proof (l_after c L). pose proof (l_size c L). unfold in_block, ck_alloc in *. lia.
Qed.

Lemma same_on_content m m' C c n : same_on m m' C -> c ∈ C -> layout c -> n <= ck_size c ->
  load (bytes m') (ck_payload c) n = load (bytes m) (ck_payload c) n.
Proof.
  intros HS Hc L Hn. apply load_ext. intros x Hx. apply (HS c x Hc).
  pose proof (payload_bounds c L). pose proof (l_after c L). pose proof (l_hsize c L). unfold in_block, ck_alloc in *. lia.
Qed.

Lemma same_on_guarded m m' C c : same_on m m' C -> c ∈ C -> guarded m c -> guarded m' c.
Proof. intros HS Hc HG x Hx Ho. destruct (HS c x Hc Hx) as [_ ->]. by apply HG. Qed.

Lemma same_on_open m m' C c n : same_on m m' C -> c ∈ C -> layout c -> n <= ck_size c -> open m c n -> open m' c n.
Proof.
  intros HS Hc L Hn HO x Hx. destruct (HS c x Hc) as [_ ->]; [|by apply HO].
  pose proof (payload_bounds c L). pose proof (l_after c L). pose proof (l_hsize c L). unfold in_block, ck_alloc in *. lia.
Qed.

(** ** Reading the offsets *)
Lemma payload_from_header_spec m c : chunk_in m c -> small_asan_payload_from_header m (ck_header c) = Ok (ck_payload c).
Proof.
  intros K. pose proof (k_layout _ _ K) as L. unfold small_asan_payload_from_header, read_raw.
  change (ck_header c - SMALL_ASAN_HEADER_ALIGNMENT) with (ck_alloc c).
  pose proof (payload_bounds c L). pose proof (l_after c L). pose proof (l_size c L). pose proof (ck_magic_bounds c).
  rewrite (allocated_chunk m c) by (done || lia). change (Z.of_nat 2) with 2. rewrite (k_offset _ _ K).
  cbn [mbind result_bind]. rewrite le_val_bytes, Z.mod_small by (apply offset_small, L). f_equal. lia.
Qed.

Lemma header_from_payload_spec m c : chunk_in m c -> small_asan_header_from_payload m (ck_payload c) = Ok (ck_header c).
Proof.
  intros K. pose proof (k_layout _ _ K) as L. unfold small_asan_header_from_payload, read_raw.
  change SMALL_POISON_ALIGNMENT with 8. rewrite (ck_magic_eq c L).
  pose proof (payload_bounds c L). pose proof (l_after c L). pose proof (l_size c L). pose proof (ck_magic_bounds c).
  rewrite (allocated_chunk m c) by (done || lia). change (Z.of_nat 2) with 2. rewrite (k_back _ _ K).
  cbn [mbind result_bind]. rewrite le_val_bytes, Z.mod_small by (apply offset_small, L). f_equal. lia.
Qed.

(** ** Allocation *)
Lemma write_checked_ok (m : machine) b k p l : rt_blocks (run m) !! b = Some k -> b <= p ->
  p + Z.of_nat (length l) <= b + k ->
  (forall x, p <= x < p + Z.of_nat (length l) -> rt_poisoned (run m) x = false) ->
  write_checked m p l = Ok (set_bytes m (store (bytes m) p l)).
Proof.
  intros Hb H1 H2 Hp. unfold write_checked, write_raw.
  by rewrite addressable_intro, (allocated_intro m b k) by done.
Qed.

Lemma poison_region_ok (m : machine) b k p n : rt_blocks (run m) !! b = Some k -> b <= p -> p + n <= b + k ->
  ASAN_POISON_MEMORY_REGION m p n = Ok (set_run m (rt_poison (run m) p n)).
Proof. intros Hb H1 H2. unfold ASAN_POISON_MEMORY_REGION. by rewrite (allocated_intro m b k). Qed.

Lemma magic_bytes_length n : 0 <= n <= 8 -> Z.of_nat (length (magic_bytes n)) = n.
Proof. intros Hn. unfold magic_bytes. rewrite length_take, le_bytes_length. lia. Qed.

(** The chunk that a block of the right size becomes. *)
Definition new_chunk (alloc n A hs : Z) : chunk :=
  let e := alloc + (n + hs + 2 * A + 16) - n in
  let p := small_align_down e A in
  Chunk (alloc + 8) (if p mod u64 (2 * A) =? 0 then p - A else p) n A hs.

Lemma new_chunk_layout alloc n A hs : asan_fits n A hs -> 0 < alloc -> alloc + (n + hs + 2 * A + 16) < 2 ^ 64 ->
  layout (new_chunk alloc n A hs).
Proof.
  intros (Hn & HA & Hh & Ho & Ht) H0 H1. pose proof (pow2_spec_pos _ HA) as HA0. unfold UINT16_MAX in Ho.
  destruct (payload_place (alloc + (n + hs + 2 * A + 16) - n) A) as (Hq & Ha & He); [split; lia|done|lia|lia|].
  set (c := new_chunk alloc n A hs). pose proof (ck_magic_bounds c) as [B _].
  assert (E : alloc + hs + 16 < ck_payload c <= alloc + hs + 2 * A + 16) by (subst c; cbn [new_chunk ck_payload]; lia).
  split; try done; unfold ck_alloc, ck_total, UINT16_MAX; subst c; cbn [new_chunk ck_header ck_payload ck_size ck_hsize ck_align] in *; lia.
Qed.

(** The bytes and the poison that [small_asan_alloc] leaves in a block of
    [malloc]. *)
Definition formatted (m : machine) (c : chunk) : machine :=
  let off := le_bytes 2 (ck_payload c - ck_header c) in
  let e := ck_payload c + ck_size c in
  Machine
    (rt_poison (rt_poison (run m) e (ck_alloc c + ck_total c - e)) (ck_alloc c) (ck_magic c - ck_alloc c))
    (store (store (store (bytes m) (ck_magic c - 2) off) (ck_alloc c) off)
       (ck_magic c) (magic_bytes (ck_payload c - ck_magic c)))
    (small_asan_id_next m).

Record formatted_ok (m m' : machine) (c : chunk) : Prop := {
  f_wf : rt_wf (run m');
  f_blocks : rt_blocks (run m') = rt_blocks (run m);
  f_chunk : chunk_in m' c;
  f_guarded : guarded m' c;
  f_open : open m' c (ck_size c);
  f_bytes x : ~ in_block c x -> bytes m' x = bytes m x;
  f_poison x : ~ in_block c x -> rt_poisoned (run m') x = rt_poisoned (run m) x;
}.

Lemma formatted_bytes M c : layout c ->
  let off := le_bytes 2 (ck_payload c - ck_header c) in
  let M' := store (store (store M (ck_magic c - 2) off) (ck_alloc c) off)
              (ck_magic c) (magic_bytes (ck_payload c - ck_magic c)) in
  load M' (ck_alloc c) 2 = off /\ load M' (ck_magic c - 2) 2 = off /\
  load M' (ck_magic c) (ck_payload c - ck_magic c) = magic_bytes (ck_payload c - ck_magic c) /\
  forall x, ~ in_block c x -> M' x = M x.
Proof.
  intros L off M'. pose proof (payload_bounds c L) as (P1 & P2 & _). pose proof (ck_magic_bounds c) as [B _].
  pose proof (l_before c L). pose proof (l_hsize c L). pose proof (l_after c L). pose proof (l_size c L).
  assert (Hl : Z.of_nat (length off) = 2) by (subst off; by rewrite le_bytes_length).
  assert (Hg : Z.of_nat (length (magic_bytes (ck_payload c - ck_magic c))) = ck_payload c - ck_magic c)
    by (apply magic_bytes_length; lia).
  pose proof (store_outside (store (store M (ck_magic c - 2) off) (ck_alloc c) off)
       (ck_magic c) (magic_bytes (ck_payload c - ck_magic c))) as S3. rewrite Hg in S3. fold M' in S3.
  pose proof (store_outside (store M (ck_magic c - 2) off) (ck_alloc c) off) as S2. rewrite Hl in S2.
  pose proof (store_outside M (ck_magic c - 2) off) as S1. rewrite Hl in S1.
  split_and!.
  - rewrite (load_same _ _ _ _ _ _ S3) by lia. by apply load_store_eq.
  - rewrite (load_same _ _ _ _ _ _ S3), (load_same _ _ _ _ _ _ S2) by lia. by apply load_store_eq.
  - by apply load_store_eq.
  - intros x Hx. unfold in_block, ck_alloc in *.
    rewrite S3, S2, S1 by lia. done.
Qed.

Lemma formatted_spec m c : rt_wf (run m) -> layout c -> rt_blocks (run m) !! ck_alloc c = Some (ck_total c) ->
  (forall x, in_block c x -> rt_poisoned (run m) x = false) -> formatted_ok m (formatted m c) c.
Proof.
  intros W L Hb Hp. pose proof (payload_bounds c L) as (P1 & P2 & _). pose proof (ck_magic_bounds c) as [B B8].
  pose proof (l_hsize c L). pose proof (l_after c L). pose proof (l_size c L). unfold in_block in Hp.
  destruct (rt_poison_ok (run m) _ _ (ck_payload c + ck_size c) (ck_alloc c + ck_total c - (ck_payload c + ck_size c)) W Hb)
    as (W1 & E1 & M1 & S1); [unfold ck_alloc in *; lia..|].
  set (o1 := rt_poison (run m) _ _) in *. rewrite <- E1 in Hb.
  destruct (rt_poison_ok o1 _ _ (ck_alloc c) (ck_magic c - ck_alloc c) W1 Hb) as (W2 & E2 & M2 & S2); [lia..|].
  set (o2 := rt_poison o1 _ _) in *.
  assert (G : forall x, ck_alloc c <= x < ck_magic c \/ ck_payload c + ck_size c <= x < ck_alloc c + ck_total c ->
    rt_poisoned o2 x = true).
  { intros x [Hx|Hx]; [apply (rt_poison_precise o1 _ _ _ _ x W1 Hb); [lia|lia| |lia]; left; by rewrite Zplus_minus|].
    apply M2. rewrite E1 in Hb. apply (rt_poison_precise (run m) _ _ _ _ x W Hb); [unfold ck_alloc in *; lia|lia| |lia]. right. lia. }
  assert (U : forall x, rt_poisoned o2 x = true -> rt_poisoned (run m) x = true \/
    ck_alloc c <= x < ck_magic c \/ ck_payload c + ck_size c <= x < ck_alloc c + ck_total c).
  { intros x [Hx|Hx]%S2; [apply S1 in Hx as [Hx|Hx]|]; [by left|right; right; lia|right; left; lia]. }
  assert (O : forall x, ck_magic c <= x < ck_payload c + ck_size c -> rt_poisoned o2 x = false).
  { intros x Hx. apply not_true_is_false. intros [Hx'|Hx']%U; [|lia]. rewrite Hp in Hx'; [done|unfold ck_alloc in *; lia]. }
  destruct (formatted_bytes (bytes m) c L) as (F1 & F2 & F3 & F4).
  split; cbn [formatted run bytes]; fold o1 o2.
  - done.
  - by rewrite E2.
  - split; cbn [formatted run bytes]; fold o1 o2; try done.
    + by rewrite E2.
    + intros x Hx. apply O. lia.
  - intros x Hx Ho. cbn [formatted run]. fold o1 o2. apply G. unfold in_block in Hx. lia.
  - intros x Hx. cbn [formatted run]. fold o1 o2. apply O. lia.
  - done.
  - intros x Hx. unfold in_block, ck_alloc in *. destruct (rt_poisoned o2 x) eqn:E.
    + apply U in E as [E|E]; [done|lia].
    + destruct (rt_poisoned (run m) x) eqn:E'; [|done]. by rewrite (M2 x (M1 x E')) in E.
Qed.

(** On a block of [malloc] the code is [formatted]. *)
Lemma asan_alloc_eq m n A hs alloc o M : asan_fits n A hs ->
  rt_malloc (run m) (bytes m) (n + hs + 2 * A + 16) = (alloc, o, M) -> alloc <> NULL ->
  rt_wf o -> rt_blocks o !! alloc = Some (n + hs + 2 * A + 16) ->
  (forall x, alloc <= x < alloc + (n + hs + 2 * A + 16) -> rt_poisoned o x = false) ->
  let c := new_chunk alloc n A hs in
  small_asan_alloc m n A hs = Ok (ck_header c, formatted (Machine o M (small_asan_id_next m)) c).
Proof.
  intros Hf E Hne W Hb Hp c. destruct (rt_block _ _ _ W Hb) as (H0 & _ & _ & H1).
  pose proof (new_chunk_layout alloc n A hs Hf H0 H1) as L. fold c in L.
  pose proof (ck_magic_eq c L) as Em. pose proof (offset_small c L) as Ho.
  pose proof (payload_bounds c L) as (P1 & P2 & _). pose proof (ck_magic_bounds c) as [B B8].
  pose proof (l_before c L) as Lb. pose proof (l_after c L) as La.
  destruct Hf as (Hn & HA & Hh & Hu & Ht). pose proof (pow2_spec_pos _ HA) as HA0.
  unfold small_asan_alloc, small_xmalloc. change SMALL_ASAN_HEADER_ALIGNMENT with 8. change SMALL_POISON_ALIGNMENT with 8.
  rewrite u64_small by lia. replace (8 + hs + 8 - 1 + 2 + 2 * A - 1 + n) with (n + hs + 2 * A + 16) by lia.
  rewrite E, (proj2 (Z.eqb_neq _ _) Hne). cbn [mbind result_bind].
  assert (Hd : small_align_down_ok A = true).
  { destruct HA as (a & Ha & ->). unfold small_align_down_ok. unfold UINT16_MAX in Hu. rewrite u64_small by lia. by apply pow2b_pow2. }
  rewrite Hd. cbv iota.
  change (if small_align_down (alloc + (n + hs + 2 * A + 16) - n) A mod u64 (2 * A) =? 0 then _ else _) with (ck_payload c).
  change (alloc + 8) with (ck_header c). pose proof (l_offset c L) as Hof. rewrite (proj2 (Z.leb_le _ _) Hof).
  rewrite u16_small, Em by lia.
  set (off := le_bytes 2 _). assert (Hl : Z.of_nat (length off) = 2) by (subst off; by rewrite le_bytes_length).
  assert (Eal : ck_alloc c = alloc) by (subst c; unfold ck_alloc; cbn [new_chunk ck_header]; lia).
  assert (Etot : ck_total c = n + hs + 2 * A + 16) by done.
  rewrite <- Etot, <- Eal in *. change n with (ck_size c).
  pose proof (l_hsize c L). pose proof (l_size c L).
  set (m1 := Machine o M (small_asan_id_next m)).
  rewrite (write_checked_ok m1 (ck_alloc c) (ck_total c)); [|done|lia|lia|intros x Hx; apply Hp; lia]. cbn [mbind result_bind].
  rewrite (write_checked_ok _ (ck_alloc c) (ck_total c)); [|done|lia|lia|intros x Hx; apply Hp; lia]. cbn [mbind result_bind].
  rewrite (poison_region_ok _ (ck_alloc c) (ck_total c)) by (done || (unfold ck_alloc in *; lia)). cbn [mbind result_bind].
  destruct (rt_poison_ok o _ _ (ck_payload c + ck_size c) (ck_alloc c + ck_total c - (ck_payload c + ck_size c)) W Hb)
    as (W1 & E1 & _); [unfold ck_alloc in *; lia..|].
  rewrite (poison_region_ok _ (ck_alloc c) (ck_total c)); [|exact (eq_trans (f_equal (lookup _) E1) Hb)|lia|lia]. cbn [mbind result_bind].
  destruct (formatted_spec m1 c W L Hb Hp) as [F1 F2 F3 _ _ _ _].
  assert (Hg : Z.of_nat (length (magic_bytes (ck_payload c - ck_magic c))) = ck_payload c - ck_magic c)
    by (apply magic_bytes_length; lia).
  rewrite (write_checked_ok _ (ck_alloc c) (ck_total c)); [done|..].
  - apply (k_block _ _ F3).
  - lia.
  - rewrite Hg. unfold ck_alloc in *. lia.
  - rewrite Hg. intros x Hx. apply (k_open _ _ F3). lia.
Qed.

(** Allocation: the process ends for want of memory, or there is a new chunk
    with its payload open and all around it guarded, and nothing else changes. *)
Lemma asan_alloc_spec m C n A hs : asan_inv m C -> asan_fits n A hs ->
  (small_asan_alloc m n A hs = Exit /\ (rt_malloc (run m) (bytes m) (n + hs + 2 * A + 16)).1.1 = NULL) \/
  exists c m', small_asan_alloc m n A hs = Ok (ck_header c, m') /\
    (ck_size c = n /\ ck_align c = A /\ ck_hsize c = hs) /\
    asan_inv m' (c :: C) /\ guarded m' c /\ open m' c n /\ same_on m m' C /\
    small_asan_id_next m' = small_asan_id_next m.
Proof.
  intros (W & Hid & Hnd & HC & HX) Hf. destruct (rt_malloc (run m) (bytes m) (n + hs + 2 * A + 16)) as [[alloc o] M] eqn:E.
  pose proof Hf as (Hn & HA & Hh & Hu & Ht). pose proof (pow2_spec_pos _ HA) as HA0.
  assert (HT : 0 < n + hs + 2 * A + 16) by lia. destruct (rt_malloc_ok _ _ _ _ _ _ W HT E) as (W' & [[-> Hb]|(H0 & Hnew & Hb & Hop)] & Hsame).
  { left. split; [|done]. unfold small_asan_alloc, small_xmalloc.
    change SMALL_ASAN_HEADER_ALIGNMENT with 8. change SMALL_POISON_ALIGNMENT with 8.
    rewrite u64_small by lia. replace (8 + hs + 8 - 1 + 2 + 2 * A - 1 + n) with (n + hs + 2 * A + 16) by lia. by rewrite E. }
  right. set (c := new_chunk alloc n A hs). set (m1 := Machine o M (small_asan_id_next m)).
  assert (Hb1 : rt_blocks o !! alloc = Some (n + hs + 2 * A + 16)) by (rewrite Hb; by simplify_map_eq).
  destruct (rt_block _ _ _ W' Hb1) as (_ & _ & _ & H1). pose proof (new_chunk_layout alloc n A hs Hf H0 H1) as L.
  assert (Eal : ck_alloc c = alloc) by (subst c; unfold ck_alloc; cbn [new_chunk ck_header]; lia).
  destruct (formatted_spec m1 c W' L) as [F1 F2 F3 F4 F5 F6 F7]; [by rewrite Eal|unfold in_block; rewrite Eal; done|].
  assert (Hne : forall d, d ∈ C -> ck_alloc d <> alloc).
  { intros d Hd Ed. pose proof (k_block _ _ (HC d Hd)) as K. rewrite Ed in K. congruence. }
  assert (Hkeep : forall d, d ∈ C -> rt_blocks o !! ck_alloc d = Some (ck_total d)).
  { intros d Hd. rewrite Hb, lookup_insert_ne by (symmetry; by apply Hne). apply (k_block _ _ (HC d Hd)). }
  assert (HS : same_on m (formatted m1 c) C).
  { intros d x Hd Hx. assert (~ in_block c x).
    { intros Hx'. apply (Hne d Hd). apply (rt_apart o _ _ _ _ x W' (Hkeep d Hd) Hb1); [done|]. unfold in_block in Hx'. by rewrite Eal in Hx'. }
    rewrite F6, F7 by done. apply (Hsame _ _ _ (k_block _ _ (HC d Hd)) Hx). }
  exists c, (formatted m1 c). split_and!; try done.
  - apply asan_alloc_eq; [done|done|lia|done|done|done].
  - split; [done|]. split; [done|]. split.
    + rewrite fmap_cons. apply NoDup_cons. split; [|done]. intros (d & Ed & Hd)%list_elem_of_fmap.
      apply (Hne d Hd). unfold ck_alloc in *. lia.
    + split.
      * intros d [->|Hd]%elem_of_cons; [done|]. pose proof (HC d Hd) as K.
        apply (chunk_in_frame m); [done|rewrite F2; by apply Hkeep|intros x Hx _ _; by apply (HS d x)|].
        intros x Hx. destruct (HS d x Hd) as [_ ->]; [apply (magic_in_block d x (k_layout _ _ K) Hx)|by apply (k_open _ _ K)].
      * intros p. rewrite F2. cbn [m1 run]. rewrite Hb, lookup_insert_is_Some', fmap_cons, elem_of_cons, Eal.
        intros [->|Hp]; [by left|right; by apply HX].
Qed.

(** ** Writing to a chunk *)

(** [n] bytes at [a] are in the header or in the payload of [c]. *)
Definition writable (c : chunk) (a n : Z) : Prop :=
  (ck_header c <= a /\ a + n <= ck_header c + ck_hsize c) \/ (ck_payload c <= a /\ a + n <= ck_payload c + ck_size c).

Lemma writable_in_block c a n : layout c -> writable c a n -> ck_alloc c <= a /\ a + n <= ck_alloc c + ck_total c.
Proof.
  intros L Hw. pose proof (payload_bounds c L). pose proof (l_after c L). pose proof (l_size c L). pose proof (l_hsize c L).
  unfold ck_alloc, writable in *. lia.
Qed.

Lemma chunk_write_inv m C c M a n : asan_inv m C -> c ∈ C -> same_outside (bytes m) M a n -> writable c a n ->
  asan_inv (set_bytes m M) C /\
  forall D, D ⊆ C -> ck_header c ∉ (ck_header <$> D) -> same_on m (set_bytes m M) D.
Proof.
  intros (W & Hid & Hnd & HC & HX) Hc HM Hw. pose proof (k_layout _ _ (HC c Hc)) as L.
  pose proof (writable_in_block c a n L Hw) as Hin.
  assert (Hout : forall d x, d ∈ C -> ck_header d <> ck_header c -> in_block d x -> M x = bytes m x).
  { intros d x Hd Hne Hx. apply HM. intros Ha. apply Hne.
    apply (chunks_apart m d c x W (HC d Hd) (HC c Hc) Hx). unfold in_block. lia. }
  split; [split_and!; [done..| |done]|].
  - intros d Hd. pose proof (HC d Hd) as K. apply (chunk_in_frame m); [done|apply K| |apply K].
    intros x Hx Hp Hh. destruct (decide (ck_header d = ck_header c)) as [E|E]; [|by apply (Hout d)].
    assert (d = c) as -> by (by apply (nodup_inj ck_header C)). apply HM. unfold writable, in_payload in *. lia.
  - intros D HD HcD d x Hd Hx. split; [|done]. apply (Hout d); [by apply HD| |done].
    intros E. apply HcD. rewrite <- E. by apply list_elem_of_fmap_2.
Qed.

Lemma write_raw_spec m C c a l : asan_inv m C -> c ∈ C -> writable c a (Z.of_nat (length l)) ->
  write_raw m a l = Ok (set_bytes m (store (bytes m) a l)) /\
  asan_inv (set_bytes m (store (bytes m) a l)) C /\
  forall D, D ⊆ C -> ck_header c ∉ (ck_header <$> D) -> same_on m (set_bytes m (store (bytes m) a l)) D.
Proof.
  intros Hi Hc Hw. destruct Hi as (W & Hid & Hnd & HC & HX) eqn:E. clear E.
  pose proof (writable_in_block c a _ (k_layout _ _ (HC c Hc)) Hw) as [H1 H2]. split.
  - unfold write_raw. by rewrite (allocated_chunk m c a _ (HC c Hc)).
  - eapply chunk_write_inv; [done|done|apply store_outside|done].
Qed.

(** The field that was written, and another one. *)
Lemma field_written (m : machine) c off k v : field (set_bytes m (store (bytes m) (ck_header c + off) (le_bytes k v))) c off k v.
Proof. unfold field. cbn [set_bytes bytes]. apply load_store_eq. by rewrite le_bytes_length. Qed.
Lemma field_other (m : machine) c off k v off' k' v' : off + Z.of_nat k <= off' \/ off' + Z.of_nat k' <= off ->
  field m c off k v -> field (set_bytes m (store (bytes m) (ck_header c + off') (le_bytes k' v'))) c off k v.
Proof.
  intros Ho HF. unfold field. rewrite <- HF. cbn [set_bytes bytes].
  eapply load_same; [apply store_outside|]. rewrite le_bytes_length. lia.
Qed.

Lemma read_field m c off k v : chunk_in m c -> 0 <= off -> off + Z.of_nat k <= ck_hsize c -> field m c off k v ->
  in_u (8 * Z.of_nat k) v -> read_raw m (ck_header c + off) k = Ok v.
Proof.
  intros K H0 H1 HF Hv. unfold read_raw.
  destruct (writable_in_block c (ck_header c + off) (Z.of_nat k) (k_layout _ _ K)) as [H2 H3]; [left; lia|].
  rewrite (allocated_chunk m c) by done. rewrite HF, le_val_bytes. unfold in_u in Hv.
  rewrite Z.pow_mul_r in Hv by lia. change (2 ^ 8) with 256 in Hv. by rewrite Z.mod_small.
Qed.

(** ** Freeing *)
Lemma asan_free_spec m C1 c C2 : asan_inv m (C1 ++ c :: C2) ->
  exists m', small_asan_free m (ck_header c) = Ok m' /\ asan_inv m' (C1 ++ C2) /\ same_on m m' (C1 ++ C2) /\
    small_asan_id_next m' = small_asan_id_next m /\ rt_blocks (run m') !! ck_alloc c = None.
Proof.
  intros (W & Hid & Hnd & HC & HX). assert (K : chunk_in m c) by (apply HC, elem_of_app; right; left).
  pose proof (k_layout _ _ K) as L. pose proof (ck_magic_bounds c) as [B _]. pose proof (payload_bounds c L) as (P1 & P2 & _).
  destruct (rt_free_ok _ (bytes m) _ _ W (k_block _ _ K)) as (o & M & Ef & W' & Eb & Hs).
  exists (Machine o M (small_asan_id_next m)).
  rewrite fmap_app, fmap_cons in Hnd. destruct (nodup_split _ _ _ Hnd) as [Hnd' Hne].
  assert (Hsub : forall d, d ∈ C1 ++ C2 -> d ∈ C1 ++ c :: C2).
  { intros d. rewrite !elem_of_app, elem_of_cons. tauto. }
  assert (Hb : forall d, d ∈ C1 ++ C2 -> rt_blocks o !! ck_alloc d = Some (ck_total d)).
  { intros d Hd. rewrite Eb, lookup_delete_ne; [apply (k_block _ _ (HC d (Hsub d Hd)))|]. intros E.
    apply (list_elem_of_fmap_2 ck_header) in Hd. rewrite fmap_app in Hd. apply Hne in Hd as [_ Hd]. unfold ck_alloc in E. lia. }
  assert (HS : same_on m (Machine o M (small_asan_id_next m)) (C1 ++ C2)).
  { intros d x Hd Hx. by apply (Hs (ck_alloc d) (ck_total d)); [apply Hb|]. }
  split_and!.
  - unfold small_asan_free. rewrite (payload_from_header_spec _ _ K). cbn [mbind result_bind].
    change SMALL_POISON_ALIGNMENT with 8. rewrite (ck_magic_eq c L). pose proof (l_size c L). pose proof (l_after c L).
    rewrite (allocated_chunk m c) by (done || lia). rewrite addressable_intro by (intros x Hx; apply (k_open _ _ K); lia).
    cbn [andb]. rewrite bool_decide_eq_true_2 by apply (k_magic _ _ K).
    change (ck_header c - SMALL_ASAN_HEADER_ALIGNMENT) with (ck_alloc c). by rewrite Ef.
  - split; [done|]. split; [done|]. split; [by rewrite fmap_app|]. split.
    + intros d Hd. pose proof (HC d (Hsub d Hd)) as Kd.
      apply (chunk_in_frame m); [done|by apply Hb|intros x Hx _ _; by apply (HS d)|].
      intros x Hx. destruct (HS d x Hd) as [_ ->]; [apply (magic_in_block d x (k_layout _ _ Kd) Hx)|by apply (k_open _ _ Kd)].
    + intros p. cbn [run]. rewrite Eb, lookup_delete_is_Some. intros [Hpc Hp%HX]. revert Hp.
      rewrite !fmap_app, fmap_cons, !elem_of_app, elem_of_cons. intros [?|[->|?]]; [by left|done|by right].
  - done.
  - done.
  - cbn [run]. rewrite Eb. apply lookup_delete_eq.
Qed.

(** A byte of the magic that was overwritten is found. *)
Lemma asan_free_corrupted m C c x v : asan_inv m C -> c ∈ C -> ck_magic c <= x < ck_payload c -> v <> bytes m x ->
  small_asan_free (set_bytes m (store (bytes m) x [v])) (ck_header c) = Abort.
Proof.
  intros (W & Hid & Hnd & HC & HX) Hc Hx Hv. pose proof (HC c Hc) as K. pose proof (k_layout _ _ K) as L.
  pose proof (payload_bounds c L) as (P1 & P2 & _). pose proof (ck_magic_bounds c) as [B _].
  pose proof (store_outside (bytes m) x [v]) as So. set (M := store (bytes m) x [v]) in *. change (Z.of_nat (length [v])) with 1 in So.
  assert (Epay : small_asan_payload_from_header (set_bytes m M) (ck_header c) = Ok (ck_payload c)).
  { rewrite <- (payload_from_header_spec _ _ K). unfold small_asan_payload_from_header, read_raw, allocated.
    cbn [set_bytes run bytes]. change (ck_header c - SMALL_ASAN_HEADER_ALIGNMENT) with (ck_alloc c).
    rewrite (load_same _ _ _ _ _ _ So); [done|]. change (Z.of_nat 2) with 2. lia. }
  unfold small_asan_free. rewrite Epay. cbn [mbind result_bind]. change SMALL_POISON_ALIGNMENT with 8. rewrite (ck_magic_eq c L).
  destruct (allocated _ _ _ && addressable _ _ _); [|done]. rewrite bool_decide_eq_false_2; [done|].
  cbn [set_bytes bytes]. rewrite <- (k_magic _ _ K). intros E. apply Hv.
  assert (Hlk : forall N, load N (ck_magic c) (ck_payload c - ck_magic c) !! Z.to_nat (x - ck_magic c) = Some (N x)).
  { intros N. unfold load. rewrite list_lookup_fmap, lookup_seqZ_lt by lia. cbn. do 2 f_equal. lia. }
  pose proof (Hlk M) as H1. rewrite E, Hlk in H1. injection H1 as H1. rewrite H1. subst M. unfold store.
  change (Z.of_nat (length [v])) with 1. rewrite (proj2 (Z.leb_le _ _)), (proj2 (Z.ltb_lt _ _)) by lia. cbn [andb].
  by rewrite Z.sub_diag.
Qed.
(** Poisoning [n] bytes at [a] in the payload. *)
Lemma poison_range m C c a n : asan_inv m C -> c ∈ C -> ck_payload c <= a -> 0 <= n -> a + n <= ck_payload c + ck_size c ->
  let m' := set_run m (rt_poison (run m) a n) in
  ASAN_POISON_MEMORY_REGION m a n = Ok m' /\ asan_inv m' C /\
  (forall D, D ⊆ C -> ck_header c ∉ (ck_header <$> D) -> same_on m m' D) /\
  (forall x, rt_poisoned (run m) x = true -> rt_poisoned (run m') x = true) /\
  (forall x, rt_poisoned (run m') x = true -> rt_poisoned (run m) x = true \/ a <= x < a + n) /\
  ((a + n) mod 8 = 0 -> forall x, a <= x < a + n -> rt_poisoned (run m') x = true).
Proof.
  intros (W & Hid & Hnd & HC & HX) Hc Ha0 Hn Hle. cbv zeta. pose proof (HC c Hc) as K. pose proof (k_layout _ _ K) as L.
  pose proof (payload_bounds c L) as P. pose proof (l_after c L) as La. pose proof (l_hsize c L) as Lh.
  assert (Ha : ck_alloc c <= a) by (unfold ck_alloc; lia).
  destruct (rt_poison_ok (run m) _ _ a n W (k_block _ _ K)) as (W' & Eb & Hm & Hs); [done|done|lia|].
  set (o := rt_poison _ _ _) in *.
  assert (Hout : forall d x, d ∈ C -> in_block d x -> x < ck_payload c \/ ck_header d <> ck_header c ->
    rt_poisoned o x = rt_poisoned (run m) x).
  { intros d x Hd Hx Hor. destruct (rt_poisoned o x) eqn:E.
    - apply Hs in E as [E|E]; [done|]. exfalso. destruct Hor as [|Hne]; [lia|]. apply Hne.
      apply (chunks_apart m d c x W (HC d Hd) K Hx). unfold in_block. lia.
    - destruct (rt_poisoned (run m) x) eqn:E'; [|done]. by rewrite (Hm x E') in E. }
  split_and!; cbn [set_run run]; [| | |done|done|].
  - apply (poison_region_ok m (ck_alloc c) (ck_total c)); [apply K|done|lia].
  - split_and!; [done..| |by intros p; cbn [set_run run]; rewrite Eb; apply HX]. intros d Hd. pose proof (HC d Hd) as Kd.
    apply (chunk_in_frame m); [done|cbn [set_run run]; rewrite Eb; apply Kd|done|]. intros x Hx. cbn [set_run run].
    pose proof (magic_in_block d x (k_layout _ _ Kd) Hx) as Hb. rewrite (Hout d x Hd Hb); [by apply (k_open _ _ Kd)|].
    destruct (decide (ck_header d = ck_header c)) as [E|E]; [left|by right].
    assert (d = c) as -> by (by apply (nodup_inj ck_header C)). lia.
  - intros D HD HcD d x Hd Hx. split; [done|]. apply (Hout d x (HD d Hd) Hx). right. intros E. apply HcD. rewrite <- E.
    by apply list_elem_of_fmap_2.
  - intros H8 x Hx. apply (rt_poison_precise (run m) _ _ a n x W (k_block _ _ K)); [done|lia|by left|done].
Qed.

(** Poisoning the payload from [k] on. *)
Lemma poison_tail m C c k : asan_inv m C -> c ∈ C -> 0 <= k <= ck_size c ->
  let m' := set_run m (rt_poison (run m) (ck_payload c + k) (ck_size c - k)) in
  ASAN_POISON_MEMORY_REGION m (ck_payload c + k) (ck_size c - k) = Ok m' /\ asan_inv m' C /\
  (forall D, D ⊆ C -> ck_header c ∉ (ck_header <$> D) -> same_on m m' D) /\ (open m c k -> open m' c k) /\
  (guarded m c -> guarded m' c).
Proof.
  intros Hi Hc Hk m'.
  destruct (poison_range m C c (ck_payload c + k) (ck_size c - k) Hi Hc) as (E & Hi' & HS & Hm & Hs & _); [lia..|].
  split_and!; [done|done|done| |].
  - intros HO x Hx. apply not_true_is_false. intros [Ht|Ht]%Hs; [|lia]. by rewrite HO in Ht.
  - intros HG x Hx Ho. by apply Hm, HG.
Qed.

(** Blocks of different chunks begin at multiples of 16 and do not overlap. *)
Lemma chunks_disjoint m C c d : asan_inv m C -> c ∈ C -> d ∈ C -> ck_header d <> ck_header c ->
  ck_alloc c mod 16 = 0 /\ ck_alloc d mod 16 = 0 /\
  (ck_alloc d + ck_total d <= ck_alloc c \/ ck_alloc c + ck_total c <= ck_alloc d).
Proof.
  intros (W & _ & _ & HC & HX) Hc Hd Hne. pose proof (HC c Hc) as Kc. pose proof (HC d Hd) as Kd.
  destruct (rt_block _ _ _ W (k_block _ _ Kc)) as (_ & C16 & C0 & _).
  destruct (rt_block _ _ _ W (k_block _ _ Kd)) as (_ & D16 & D0 & _). split_and!; [done|done|].
  destruct (decide (ck_alloc d + ck_total d <= ck_alloc c \/ ck_alloc c + ck_total c <= ck_alloc d)) as [|Hov]; [done|].
  exfalso. apply Hne. apply (chunks_apart m d c (Z.max (ck_alloc d) (ck_alloc c)) W Kd Kc); unfold in_block in *; lia.
Qed.

(** Unpoisoning [n] bytes at [a] in the payload: other blocks begin and end at
    multiples of 8. *)
Lemma unpoison_range m C c a n : asan_inv m C -> c ∈ C -> ck_payload c <= a -> 0 <= n -> a + n <= ck_payload c + ck_size c ->
  let m' := set_run m (rt_unpoison (run m) a n) in
  ASAN_UNPOISON_MEMORY_REGION m a n = Ok m' /\ asan_inv m' C /\
  (forall D, D ⊆ C -> ck_header c ∉ (ck_header <$> D) -> same_on m m' D) /\
  (forall x, a <= x < a + n -> rt_poisoned (run m') x = false) /\
  (forall x, rt_poisoned (run m') x = true -> rt_poisoned (run m) x = true).
Proof.
  intros Hi Hc Ha0 Hn Hle. pose proof Hi as (W & Hid & Hnd & HC & HX). cbv zeta. pose proof (HC c Hc) as K. pose proof (k_layout _ _ K) as L.
  pose proof (payload_bounds c L) as P. pose proof (l_after c L) as La. pose proof (l_hsize c L) as Lh.
  assert (Ha : ck_alloc c <= a) by (unfold ck_alloc; lia).
  destruct (rt_unpoison_ok (run m) _ _ a n W (k_block _ _ K)) as (W' & Eb & Hin & Hm & Hs); [done|done|lia|].
  set (o := rt_unpoison _ _ _) in *.
  split_and!; cbn [set_run run]; [| | |done|done].
  - unfold ASAN_UNPOISON_MEMORY_REGION. rewrite (allocated_chunk m c); [done|done|done|lia].
  - split_and!; [done..| |by intros p; cbn [set_run run]; rewrite Eb; apply HX]. intros d Hd. pose proof (HC d Hd) as Kd.
    apply (chunk_in_frame m); [done|cbn [set_run run]; rewrite Eb; apply Kd|done|]. intros x Hx. cbn [set_run run].
    pose proof (k_open _ _ Kd x Hx) as E. apply not_true_is_false. intros Ht%Hm. congruence.
  - intros D HD HcD d x Hd Hx. split; [done|]. cbn [set_run run]. apply Hs.
    assert (Hne : ck_header d <> ck_header c).
    { intros E. apply HcD. rewrite <- E. by apply list_elem_of_fmap_2. }
    destruct (chunks_disjoint m C c d Hi Hc (HD d Hd) Hne) as (C16 & D16 & Hdis). unfold in_block in Hx.
    clear - Hx Hdis C16 D16 Ha La Hle. Z.to_euclidean_division_equations; lia.
Qed.

(** Unpoisoning the payload from [k] on. *)
Lemma unpoison_tail m C c k : asan_inv m C -> c ∈ C -> 0 <= k <= ck_size c ->
  let m' := set_run m (rt_unpoison (run m) (ck_payload c + k) (ck_size c - k)) in
  ASAN_UNPOISON_MEMORY_REGION m (ck_payload c + k) (ck_size c - k) = Ok m' /\ asan_inv m' C /\
  (forall D, D ⊆ C -> ck_header c ∉ (ck_header <$> D) -> same_on m m' D) /\ (open m c k -> open m' c (ck_size c)).
Proof.
  intros Hi Hc Hk m'.
  destruct (unpoison_range m C c (ck_payload c + k) (ck_size c - k) Hi Hc) as (E & Hi' & HS & Hin & Hm); [lia..|].
  split_and!; [done..|]. intros HO x Hx. destruct (decide (ck_payload c + k <= x)); [apply Hin; lia|].
  apply not_true_is_false. intros Ht%Hm. rewrite HO in Ht; [done|lia].
Qed.

(** ** A new chunk and its header

    [m'] is [m] with the new chunk [c] of [n] bytes, whose header is being
    written. *)
Record fresh (m m' : machine) (C : list chunk) (c : chunk) (n : Z) : Prop := {
  fr_inv : asan_inv m' (c :: C);
  fr_guarded : guarded m' c;
  fr_open : open m' c n;
  fr_same : same_on m m' C;
  fr_id : small_asan_id_next m' = small_asan_id_next m;
}.

Lemma asan_alloc_fresh m C n A hs : asan_inv m C -> asan_fits n A hs ->
  small_asan_alloc m n A hs = Exit \/
  exists c m', small_asan_alloc m n A hs = Ok (ck_header c, m') /\
    (ck_size c = n /\ ck_align c = A /\ ck_hsize c = hs) /\ fresh m m' C c n.
Proof.
  intros Hi Hf. destruct (asan_alloc_spec m C n A hs Hi Hf) as [[E _]|(c & m' & E & Hc & H1 & H2 & H3 & H4 & H5)]; [by left|].
  right. by exists c, m'.
Qed.

Lemma fresh_chunk m m' C c n : fresh m m' C c n -> chunk_in m' c /\ layout c.
Proof. intros [(_ & _ & _ & HC & HX) _ _ _ _]. pose proof (HC c ltac:(left)) as K. split; [done|apply K]. Qed.

Lemma fresh_write m m' C c n off k v : fresh m m' C c n -> 0 <= off -> off + Z.of_nat k <= ck_hsize c ->
  exists m2, write_raw m' (ck_header c + off) (le_bytes k v) = Ok m2 /\ fresh m m2 C c n /\ field m2 c off k v /\
    forall off' k' v', off' + Z.of_nat k' <= off \/ off + Z.of_nat k <= off' -> field m' c off' k' v' -> field m2 c off' k' v'.
Proof.
  intros [Hi HG HO HS Hid] H0 H1.
  assert (Hw : writable c (ck_header c + off) (Z.of_nat (length (le_bytes k v)))) by (rewrite le_bytes_length; left; lia).
  destruct (write_raw_spec m' (c :: C) c _ _ Hi ltac:(left) Hw) as (E & Hi' & HS'). eexists. split; [exact E|].
  split_and!; [split|..]; try done.
  - apply (same_on_trans _ m'); [done|]. apply HS'; [intros d; by right|]. by destruct Hi as (_ & _ & [Hn _]%NoDup_cons & _).
  - apply field_written.
  - intros off' k' v' Ho HF. by apply field_other; [lia|].
Qed.

Lemma fresh_write_payload m m' C c n off l : fresh m m' C c n -> 0 <= off -> off + Z.of_nat (length l) <= ck_size c ->
  exists m2, write_raw m' (ck_payload c + off) l = Ok m2 /\ fresh m m2 C c n /\
    load (bytes m2) (ck_payload c + off) (Z.of_nat (length l)) = l /\
    forall off' k v, off' + Z.of_nat k <= ck_hsize c -> field m' c off' k v -> field m2 c off' k v.
Proof.
  intros F H0 H1. pose proof (payload_bounds c (proj2 (fresh_chunk _ _ _ _ _ F))) as P. destruct F as [Hi HG HO HS Hid].
  assert (Hw : writable c (ck_payload c + off) (Z.of_nat (length l))) by (right; lia).
  destruct (write_raw_spec m' (c :: C) c _ _ Hi ltac:(left) Hw) as (E & Hi' & HS'). eexists. split; [exact E|].
  split_and!; [split|..]; try done.
  - apply (same_on_trans _ m'); [done|]. apply HS'; [intros d; by right|]. by destruct Hi as (_ & _ & [Hn _]%NoDup_cons & _).
  - apply load_store.
  - intros off' k v Ho HF. unfold field. rewrite <- HF. eapply load_same; [apply store_outside|]. lia.
Qed.

Lemma fresh_payload m m' C c n : fresh m m' C c n -> small_asan_payload_from_header m' (ck_header c) = Ok (ck_payload c).
Proof. intros F. apply payload_from_header_spec, (fresh_chunk _ _ _ _ _ F). Qed.

(** The new payload meets no payload of another chunk. *)
Lemma fresh_apart m m' C c n d x : fresh m m' C c n -> d ∈ C -> in_block d x -> ~ in_block c x.
Proof.
  intros [(W & _ & Hnd & HC & HX) _ _ _ _] Hd Hx Hx'. apply NoDup_cons in Hnd as [Hnd _]. apply Hnd.
  rewrite <- (chunks_apart m' d c x W (HC d ltac:(by right)) (HC c ltac:(left)) Hx Hx'). by apply list_elem_of_fmap_2.
Qed.

(** The blocks of chunks that are no longer there have been given back. *)
Lemma asan_gone m C R m' D c : asan_inv m (C ++ R) -> asan_inv m' D -> D ⊆ R -> c ∈ C ->
  rt_blocks (run m') !! ck_alloc c = None.
Proof.
  intros (_ & _ & Hnd & _) (_ & _ & _ & _ & HX) HD Hc. destruct (rt_blocks (run m') !! ck_alloc c) eqn:E; [|done].
  pose proof (HX (ck_alloc c) ltac:(by eexists)) as (d & Ed & Hd)%list_elem_of_fmap. exfalso.
  rewrite fmap_app in Hnd. apply NoDup_app in Hnd as (_ & Hnd & _). apply (Hnd (ck_header c)); [by apply list_elem_of_fmap_2|].
  replace (ck_header c) with (ck_header d) by (unfold ck_alloc in Ed; lia). by apply list_elem_of_fmap_2, HD.
Qed.

Lemma asan_inv_perm m C D : C ≡ₚ D -> asan_inv m C -> asan_inv m D.
Proof.
  intros P (W & Hid & Hnd & HC & HX). split_and!; [done..|by rewrite <- P| |].
  - intros c Hc. apply HC. by rewrite P.
  - intros p Hp. rewrite <- P. by apply HX.
Qed.
End Chunks.

(** ** What the helpers promise *)
Section Promises.
Context {rt : Type} `{!AsanRt rt} {rt_wf : rt -> Prop} `{!AsanRtLaws rt_wf}.
Local Abbreviation machine := (machine rt).
Local Abbreviation asan_inv := (asan_inv (rt_wf:=rt_wf)).

(** The chunk at an allocation is where the code finds it. *)
Lemma chunk_of_alloc m C n A hs h m' p : asan_inv m C -> asan_fits n A hs ->
  small_asan_alloc m n A hs = Ok (h, m') -> small_asan_payload_from_header m' h = Ok p ->
  let c := Chunk h p n A hs in
  asan_inv m' (c :: C) /\ guarded m' c /\ open m' c n /\ same_on m m' C /\ small_asan_id_next m' = small_asan_id_next m.
Proof.
  intros Hi Hf E Ep. destruct (asan_alloc_spec m C n A hs Hi Hf) as [[E' _]|(c & m1 & E' & (<- & <- & <-) & H)]; [congruence|].
  rewrite E in E'. injection E' as -> ->. destruct H as (Hi' & H). pose proof Hi' as (_ & _ & _ & HC & HX).
  rewrite (payload_from_header_spec m1 c) in Ep by (apply HC; left). injection Ep as <-.
  cbv zeta. destruct c. cbn [ck_header ck_payload ck_size ck_align ck_hsize] in *. by split.
Qed.

(** Programs that use the helpers: they allocate, write their headers, write to
    payloads, and free. *)
Inductive asan_step : machine * list chunk -> machine * list chunk -> Prop :=
  | step_alloc m C n A hs h p m' : asan_fits n A hs -> small_asan_alloc m n A hs = Ok (h, m') ->
      small_asan_payload_from_header m' h = Ok p -> asan_step (m, C) (m', Chunk h p n A hs :: C)
  | step_header m C c off l m' : c ∈ C -> 0 <= off -> off + Z.of_nat (length l) <= ck_hsize c ->
      write_raw m (ck_header c + off) l = Ok m' -> asan_step (m, C) (m', C)
  | step_payload m C c off l m' : c ∈ C -> 0 <= off -> off + Z.of_nat (length l) <= ck_size c ->
      write_checked m (ck_payload c + off) l = Ok m' -> asan_step (m, C) (m', C)
  | step_free m C1 c C2 m' : small_asan_free m (ck_header c) = Ok m' -> asan_step (m, C1 ++ c :: C2) (m', C1 ++ C2).

Definition all_guarded (s : machine * list chunk) : Prop :=
  asan_inv s.1 s.2 /\ forall c, c ∈ s.2 -> guarded s.1 c.

Lemma write_raw_guarded m C c a l m' : all_guarded (m, C) -> c ∈ C -> writable c a (Z.of_nat (length l)) ->
  write_raw m a l = Ok m' -> all_guarded (m', C).
Proof.
  intros [Hi HG] Hc Hw E. destruct (write_raw_spec m C c a l Hi Hc Hw) as (E' & Hi' & _). rewrite E in E'. injection E' as ->.
  split; [done|]. intros d Hd x. apply (HG d Hd).
Qed.

Lemma asan_step_guarded s s' : all_guarded s -> asan_step s s' -> all_guarded s'.
Proof.
  intros Hg Hst. destruct Hst as [m C n A hs h p m' Hf E Ep|m C c off l m' Hc H0 Hl E|m C c off l m' Hc H0 Hl E|m C1 c C2 m' E].
  - destruct Hg as [Hi HG]. destruct (chunk_of_alloc _ _ _ _ _ _ _ _ Hi Hf E Ep) as (Hi' & HG' & _ & HS & _).
    split; [done|]. intros d [->|Hd]%elem_of_cons; [done|]. eapply same_on_guarded; [exact HS|done|by apply HG].
  - apply (write_raw_guarded m C c (ck_header c + off) l m' Hg Hc); [left; lia|exact E].
  - unfold write_checked in E. destruct (addressable _ _ _); [|done]. apply (write_raw_guarded m C c (ck_payload c + off) l m' Hg Hc); [right; lia|exact E].
  - destruct Hg as [Hi HG]. destruct (asan_free_spec m C1 c C2 Hi) as (m1 & E' & Hi' & HS & _). rewrite E in E'. injection E' as ->.
    split; [done|]. intros d Hd. eapply same_on_guarded; [exact HS|done|]. apply HG. cbn [snd] in *.
    rewrite elem_of_app, elem_of_cons in *. tauto.
Qed.

(** An access outside the payload, by a program with any history, is refused by
    the sanitizer, or it changes the magic and is found by [small_asan_free]. *)
Lemma guarded_detects m C c x v : asan_inv m C -> c ∈ C -> guarded m c -> in_block c x -> ~ in_payload c x -> v <> bytes m x ->
  write_checked m x [v] = Abort \/
  exists m', write_checked m x [v] = Ok m' /\ small_asan_free m' (ck_header c) = Abort.
Proof.
  intros Hi Hc HG Hx Hp Hv. pose proof Hi as (W & _ & _ & HC & HX). pose proof (HC c Hc) as K.
  destruct (decide (ck_magic c <= x < ck_payload c)) as [Hm|Hm].
  - right. exists (set_bytes m (store (bytes m) x [v])). split; [|by apply (asan_free_corrupted (rt_wf:=rt_wf) m C)].
    apply (write_checked_ok m (ck_alloc c) (ck_total c)); [apply K|apply Hx|unfold in_block in Hx; cbn; lia|].
    intros y Hy. cbn in Hy. apply (k_open _ _ K). lia.
  - left. unfold write_checked. replace (addressable m x (Z.of_nat (length [v]))) with false; [done|].
    unfold addressable. cbn [length]. rewrite seqZ_cons by lia. cbn [forallb]. rewrite (HG x Hx); [done|]. unfold in_payload in Hp. lia.
Qed.
End Promises.

(** ** A concrete runtime

    Blocks are taken one after the other up to a limit and filled with 190; a
    range that does not end at a multiple of 8 or at the end of a block is
    poisoned up to the multiple of 8 before its end. *)
Record toy := Toy { toy_blocks : gmap Z Z; toy_next : Z; toy_limit : Z; toy_poison : Z -> bool }.

Definition in_range (a e x : Z) : bool := (a <=? x) && (x <? e).
Definition block_end (o : toy) (e : Z) : bool := existsb (fun '(p, n) => p + n =? e) (map_to_list (toy_blocks o)).

#[global] Instance toy_rt : AsanRt toy := {
  rt_blocks := toy_blocks;
  rt_malloc o M n :=
    let p := toy_next o in
    let next := p + (n + 15) / 16 * 16 in
    if next <=? toy_limit o then
      (p, Toy (<[p := n]> (toy_blocks o)) next (toy_limit o)
            (fun x => negb (in_range p (p + n) x) && toy_poison o x), memset M p 190 n)
    else (NULL, o, M);
  rt_free o M p :=
    match toy_blocks o !! p with
    | Some n => Some (Toy (delete p (toy_blocks o)) (toy_next o) (toy_limit o)
                        (fun x => in_range p (p + n) x || toy_poison o x), M)
    | None => None
    end;
  rt_poison o a n :=
    let e := a + n in
    let e := if (e mod 8 =? 0) || block_end o e then e else e - e mod 8 in
    Toy (toy_blocks o) (toy_next o) (toy_limit o) (fun x => in_range a e x || toy_poison o x);
  rt_unpoison o a n :=
    Toy (toy_blocks o) (toy_next o) (toy_limit o)
      (fun x => negb (in_range (a - a mod 8) (a + n + (- (a + n)) mod 8) x) && toy_poison o x);
  rt_poisoned := toy_poison;
}.

Definition toy_wf (o : toy) : Prop :=
  0 < toy_next o /\ toy_next o mod 16 = 0 /\ toy_limit o < 2 ^ 64 /\
  (forall p n, toy_blocks o !! p = Some n -> 0 < p /\ p mod 16 = 0 /\ 0 < n /\ p + n <= toy_next o /\ p + n < 2 ^ 64) /\
  (forall p n q m x, toy_blocks o !! p = Some n -> toy_blocks o !! q = Some m ->
     p <= x < p + n -> q <= x < q + m -> p = q).

Lemma in_range_spec a e x : BoolSpec (a <= x < e) (~ a <= x < e) (in_range a e x).
Proof. unfold in_range. destruct (Z.leb_spec a x), (Z.ltb_spec x e); constructor; lia. Qed.

Lemma toy_malloc_wf o p n : toy_wf o -> 0 < n -> p = toy_next o -> p + (n + 15) / 16 * 16 <= toy_limit o ->
  forall f, toy_wf (Toy (<[p := n]> (toy_blocks o)) (p + (n + 15) / 16 * 16) (toy_limit o) f).
Proof.
  intros (W1 & W2 & W3 & W4 & W5) Hn -> Hl f.
  assert (Hr : n <= (n + 15) / 16 * 16) by (Z.to_euclidean_division_equations; lia).
  unfold toy_wf. cbn [toy_next toy_limit toy_blocks]. split_and!; [lia| |done|..].
  - rewrite Z.add_mod, Z.mod_mul, W2 by lia. done.
  - intros q m [[<- <-]|[Hne Hq]]%lookup_insert_Some; [split_and!; (done || lia)|]. destruct (W4 q m Hq) as (? & ? & ? & ? & ?). split_and!; (done || lia).
  - intros q m r l x [[<- <-]|[Hq Hq']]%lookup_insert_Some [[<- <-]|[Hr1 Hr2]]%lookup_insert_Some Hx Hy; [done|..].
    + destruct (W4 r l Hr2) as (_ & _ & _ & ? & _). lia.
    + destruct (W4 q m Hq') as (_ & _ & _ & ? & _). lia.
    + by eapply W5.
Qed.

#[global] Instance toy_laws : AsanRtLaws toy_wf.
Proof.
  split; cbn [rt_blocks rt_malloc rt_free rt_poison rt_unpoison rt_poisoned toy_rt].
  - intros o p n (_ & _ & _ & W & _) Hp. destruct (W p n Hp) as (? & ? & ? & ? & ?). done.
  - intros o p n q m x (_ & _ & _ & _ & W). apply W.
  - intros o M n p o' M' W Hn E. destruct (Z.leb_spec (toy_next o + (n + 15) / 16 * 16) (toy_limit o)) as [Hl|_]; simplify_eq.
    2:{ split; [done|]. split; [by left|done]. }
    split; [by apply toy_malloc_wf|]. destruct W as (W1 & W2 & W3 & W4 & W5). split.
    + right. cbn [toy_blocks toy_poison]. split_and!; [done| |done|].
      * destruct (toy_blocks o !! toy_next o) as [m|] eqn:Eb; [|done]. destruct (W4 _ m Eb) as (_ & _ & ? & ? & _). lia.
      * intros x Hx. by destruct (in_range_spec (toy_next o) (toy_next o + n) x).
    + intros q m x Hq Hx. destruct (W4 q m Hq) as (_ & _ & _ & ? & _). cbn [toy_poison]. rewrite memset_outside by lia.
      by destruct (in_range_spec (toy_next o) (toy_next o + n) x); [lia|].
  - intros o M p n W Hp. rewrite Hp. do 2 eexists. split; [done|]. destruct W as (W1 & W2 & W3 & W4 & W5).
    cbn [toy_blocks toy_poison]. split; [split_and!; cbn [toy_blocks toy_next toy_limit]; try done|split; [done|]].
    + intros q m [_ Hq]%lookup_delete_Some. by apply W4.
    + intros q m r l x [_ Hq]%lookup_delete_Some [_ Hr]%lookup_delete_Some. by eapply W5.
    + intros q m x [Hne Hq]%lookup_delete_Some Hx. split; [done|].
      destruct (in_range_spec p (p + n) x) as [Hx'|]; [|done]. destruct Hne. by apply (W5 p n q m x).
  - intros o p m a n W Hp H0 H1 H2. cbn [toy_blocks toy_poison]. split_and!; [done|done| |].
    + intros x ->. apply orb_true_r.
    + intros x [Hx|Hx]%orb_true_iff; [right|by left].
      destruct (in_range_spec a (if ((a + n) mod 8 =? 0) || block_end o (a + n) then a + n else a + n - (a + n) mod 8) x) as [Hr|]; [|done].
      pose proof (Z.mod_pos_bound (a + n) 8). destruct (_ || _); lia.
  - intros o p m a n x W Hp H1 H2 He Hx. cbn [toy_poison].
    assert (Ht : ((a + n) mod 8 =? 0) || block_end o (a + n) = true).
    { destruct He as [He|He]; [by rewrite He|]. apply orb_true_iff. right. apply existsb_exists. exists (p, m).
      rewrite <- list_elem_of_In, elem_of_map_to_list. split; [done|]. apply Z.eqb_eq. lia. }
    rewrite Ht. by destruct (in_range_spec a (a + n) x).
  - intros o p m a n W Hp H0 H1 H2. cbn [toy_blocks toy_poison].
    set (lo := a - a mod 8). set (hi := a + n + _).
    assert (Hlo : lo = 8 * (a / 8) /\ lo <= a) by (subst lo; Z.to_euclidean_division_equations; lia).
    assert (Hhi : hi = 8 * ((a + n + 7) / 8) /\ a + n <= hi) by (subst hi; Z.to_euclidean_division_equations; lia).
    split_and!; [done|done|..]; intros x Hx; destruct (in_range_spec lo hi x) as [Hr|Hr]; cbn [negb andb]; (done || lia || idtac).
    exfalso. clearbody lo hi. Z.to_euclidean_division_equations; lia.
Qed.

Definition toy_start : machine toy := Machine (Toy ∅ 4096 1048576 (fun _ => false)) (fun _ => 0) 1.

Lemma toy_start_inv : asan_inv (rt_wf:=toy_wf) toy_start [].
Proof.
  split; [done|]. split; [done|]. split; [constructor|]. split; [by intros c ?%elem_of_nil|].
  intros p [n Hn]. cbn in Hn. by rewrite lookup_empty in Hn.
Qed.

(** ** Claims *)
Section Claims.
Context {rt : Type} `{!AsanRt rt} {rt_wf : rt -> Prop} `{!AsanRtLaws rt_wf}.

(** C27. [small_asan_alloc] does not fail an assertion: without memory it ends
    the process, else it gives a chunk of its own: the header is aligned to 8 and
    lies before the payload, the payload is aligned as asked and not better, is
    addressable, and is found from the header and the header from it; chunks that
    exist keep their bytes and their poison; and the chunk can be freed. *)
Theorem asan_alloc_correct (m : machine rt) C n A hs : asan_inv (rt_wf:=rt_wf) m C -> asan_fits n A hs ->
  match small_asan_alloc m n A hs with
  | Abort => False
  | Exit => (rt_malloc (run m) (bytes m) (n + hs + 2 * A + 16)).1.1 = NULL
  | Ok (h, m') => exists p, let c := Chunk h p n A hs in
      small_asan_payload_from_header m' h = Ok p /\ small_asan_header_from_payload m' p = Ok h /\
      h mod 8 = 0 /\ h + hs + 2 <= p /\ p mod A = 0 /\ p mod (2 * A) <> 0 /\
      addressable m' p n = true /\ guarded m' c /\
      asan_inv (rt_wf:=rt_wf) m' (c :: C) /\ same_on m m' C /\
      (forall d x, d ∈ C -> in_block d x -> ~ in_block c x) /\
      exists m'', small_asan_free m' h = Ok m'' /\ asan_inv (rt_wf:=rt_wf) m'' C /\ same_on m m'' C
  end.
Proof.
  intros Hi Hf. destruct (asan_alloc_spec m C n A hs Hi Hf) as [[-> E]|(c & m' & -> & (<- & <- & <-) & Hi' & HG & HO & HS & _)]; [done|].
  exists (ck_payload c). cbv zeta. replace (Chunk _ _ _ _ _) with c by (by destruct c). pose proof Hi' as (W & _ & Hnd & HC & HX).
  pose proof (HC c ltac:(left)) as K. pose proof (k_layout _ _ K) as L. destruct (rt_block _ _ _ W (k_block _ _ K)) as (_ & H16 & _).
  destruct (asan_free_spec m' [] c C Hi') as (m'' & E & Hi'' & HS' & _).
  split_and!.
  - by apply payload_from_header_spec.
  - by apply header_from_payload_spec.
  - unfold ck_alloc in H16. Z.to_euclidean_division_equations. lia.
  - apply (payload_bounds c L).
  - apply (l_align c L).
  - apply (l_exact c L).
  - by apply addressable_intro.
  - done.
  - done.
  - done.
  - intros d x Hd Hx Hx'. assert (Kd : chunk_in m' d) by (apply HC; by right).
    pose proof (chunks_apart m' d c x W Kd K Hx Hx') as Eh.
    apply NoDup_cons in Hnd as [Hnd _]. apply Hnd. rewrite <- Eh. by apply list_elem_of_fmap_2.
  - exists m''. split_and!; [done|done|by eapply same_on_trans].
Qed.

(** C28. After any sequence of allocations, writes to headers and payloads, and
    frees, an instrumented write to a byte of a block outside its payload is
    refused at once, or it changes the magic and freeing the block aborts. *)
Theorem asan_overflow_detected (m0 : machine rt) m C c x v :
  asan_inv (rt_wf:=rt_wf) m0 [] -> rtc asan_step (m0, []) (m, C) -> c ∈ C -> in_block c x -> ~ in_payload c x ->
  v <> bytes m x ->
  write_checked m x [v] = Abort \/
  exists m', write_checked m x [v] = Ok m' /\ small_asan_free m' (ck_header c) = Abort.
Proof.
  intros H0 Hr Hc Hx Hp Hv.
  assert (HG : all_guarded (rt_wf:=rt_wf) (m, C)).
  { eapply (rtc_ind_r (fun s => all_guarded (rt_wf:=rt_wf) s)); [|intros ? ? _ Hs Hg; by eapply asan_step_guarded|exact Hr].
    split; [done|]. by intros d ?%elem_of_nil. }
  by apply (guarded_detects (rt_wf:=rt_wf) m C c x v (proj1 HG) Hc (proj2 HG c Hc)).
Qed.
End Claims.

(** ** Witnesses *)

(** 5 bytes aligned by 4, with a header of 16. *)
Lemma fits_5_4_16 : asan_fits 5 4 16.
Proof. split_and!; [lia|by exists 2|lia|done|done]. Qed.

Lemma toy_alloc : (match small_asan_alloc toy_start 5 4 16 with
  | Ok (h, m) => p ← small_asan_payload_from_header m h; Ok (h, p, bytes m 4137) | _ => Abort end) = Ok (4104, 4132, 190).
Proof. reflexivity. Qed.

Lemma asan_alloc_correct_witness : exists h m', small_asan_alloc toy_start 5 4 16 = Ok (h, m') /\
  small_asan_header_from_payload m' 4132 = Ok h /\ addressable m' 4132 5 = true.
Proof.
  pose proof (asan_alloc_correct toy_start [] 5 4 16 toy_start_inv fits_5_4_16) as H. pose proof toy_alloc as Et.
  destruct (small_asan_alloc toy_start 5 4 16) as [[h m']| |]; [|discriminate Et|discriminate Et].
  exists h, m'. destruct H as (p & H1 & H2 & _ & _ & _ & _ & H3 & _). rewrite H1 in Et. injection Et as -> ->. by split_and!.
Defined.

(** The byte after the payload is refused, or found later. *)
Lemma asan_overflow_detected_witness : exists m, small_asan_alloc toy_start 5 4 16 = Ok (4104, m) /\
  (write_checked m 4137 [7] = Abort \/
   exists m', write_checked m 4137 [7] = Ok m' /\ small_asan_free m' 4104 = Abort).
Proof.
  pose proof toy_alloc as Et. destruct (small_asan_alloc toy_start 5 4 16) as [[h m]| |] eqn:E; [|discriminate Et|discriminate Et].
  exists m. destruct (small_asan_payload_from_header m h) as [p| |] eqn:Ep; [|discriminate Et|discriminate Et].
  injection Et as -> -> Eb. split; [done|].
  apply (asan_overflow_detected toy_start m [Chunk 4104 4132 5 4 16] (Chunk 4104 4132 5 4 16)).
  - exact toy_start_inv.
  - apply rtc_once. by apply step_alloc; [apply fits_5_4_16|..].
  - left.
  - split; vm_compute; congruence.
  - intros [_ H]. by vm_compute in H.
  - rewrite Eb. done.
Defined.
