(* ===== verification/AsanPools.v ===== *)
(** * Allocators of the ASAN build that hand out objects

    [slab_arena_asan], [slab_cache_asan], [mempool_asan] and [small_asan]: every
    object is a chunk of [Asan] whose header has the identifier of its
    allocator, which is checked when the object comes back. *)
From S2P Require Import Prelude Util Bytes Quota SlabArena SlabCache Mempool QuotaLessor Asan.

(** ** Definitions *)
Section Pools.
Context {rt : Type} `{!AsanRt rt}.
Local Abbreviation machine := (machine rt).

(** *** [slab_arena_asan.c]: the header of a slab has the size of a pointer. *)
Record slab_arena_asan := SlabArenaAsan { saa_slab_size : Z; saa_used : Z; saa_id : Z }.
Definition SMALL_ARENA_SLAB_ALIGNMENT : Z := 8.

Definition slab_arena_create_asan (m : machine) (slab_size : Z) : result (Z * slab_arena_asan * machine) :=
  let slab_size := if slab_size <? SLAB_MIN_SIZE then SLAB_MIN_SIZE else slab_size in
  CHECK small_round_ok slab_size;
  let slab_size := u32 (small_round slab_size) in
  let '(id, m) := small_asan_reserve_id m in
  Ok (0, SlabArenaAsan slab_size 0 id, m).

Definition slab_map_asan (m : machine) (arena : slab_arena_asan) : result (Z * machine) :=
  '(obj, m) ← small_asan_alloc m (saa_slab_size arena) SMALL_ARENA_SLAB_ALIGNMENT sizeof_ptr;
  m ← write_raw m obj (le_bytes 4 (saa_id arena));
  p ← small_asan_payload_from_header m obj;
  Ok (p, m).

Definition slab_unmap_asan (m : machine) (arena : slab_arena_asan) (ptr : Z) : result machine :=
  if ptr =? NULL then Ok m
  else
    obj ← small_asan_header_from_payload m ptr;
    arena_id ← read_raw m obj 4;
    CHECK arena_id =? saa_id arena;
    small_asan_free m obj.

(** *** [slab_cache_asan.c]: a slab begins with its size; [self] is the calling
    thread. *)
Record slab_cache_asan := SlabCacheAsan { sca_quota : quota_lessor; sca_used : Z; sca_id : Z; sca_thread : Z }.
Definition SMALL_CACHE_SLAB_ALIGNMENT : Z := 16.

Definition slab_cache_set_thread_asan (cache : slab_cache_asan) (self : Z) : slab_cache_asan :=
  SlabCacheAsan (sca_quota cache) (sca_used cache) (sca_id cache) self.

Definition slab_cache_create_asan (m : machine) (source : quota) (self : Z) : result (slab_cache_asan * machine) :=
  lessor ← of_option (quota_lessor_create source);
  let '(id, m) := small_asan_reserve_id m in
  Ok (slab_cache_set_thread_asan (SlabCacheAsan lessor 0 id 0) self, m).

Definition slab_cache_destroy_asan (cache : slab_cache_asan) (source : quota) : result (slab_cache_asan * quota) :=
  '(lessor, source) ← of_option (quota_lessor_destroy (sca_quota cache) source);
  Ok (SlabCacheAsan lessor (sca_used cache) (sca_id cache) (sca_thread cache), source).

Definition slab_real_size_asan (sysconf_pagesize size : Z) : result Z :=
  let meta_size := small_align 8 8 in
  CHECK small_align_ok (u64 (size + meta_size)) (small_getpagesize sysconf_pagesize);
  Ok (small_align (u64 (size + meta_size)) (small_getpagesize sysconf_pagesize)).

Definition slab_get_asan (m : machine) (cache : slab_cache_asan) (sysconf_pagesize self size : Z) :
    result (Z * machine * slab_cache_asan) :=
  CHECK sca_thread cache =? self;
  size ← slab_real_size_asan sysconf_pagesize size;
  '(obj, m) ← small_asan_alloc m size SMALL_CACHE_SLAB_ALIGNMENT sizeof_ptr;
  m ← write_raw m obj (le_bytes 4 (sca_id cache));
  slab ← small_asan_payload_from_header m obj;
  m ← write_raw m slab (le_bytes 8 size);
  Ok (slab, m, SlabCacheAsan (sca_quota cache) (u64 (sca_used cache + size)) (sca_id cache) (sca_thread cache)).

Definition slab_put_asan (m : machine) (cache : slab_cache_asan) (self slab : Z) : result (machine * slab_cache_asan) :=
  CHECK sca_thread cache =? self;
  obj ← small_asan_header_from_payload m slab;
  cache_id ← read_raw m obj 4;
  CHECK cache_id =? sca_id cache;
  size ← read_raw m slab 8;
  m ← small_asan_free m obj;
  Ok (m, SlabCacheAsan (sca_quota cache) (u64 (sca_used cache - size)) (sca_id cache) (sca_thread cache)).

Definition slab_cache_used_asan (cache : slab_cache_asan) : Z := sca_used cache.

(** *** [mempool_asan.c] *)
Record mempool_asan := MempoolAsan { ma_objsize : Z; ma_objcount : Z; ma_alignment : Z; ma_id : Z }.
Definition MEMPOOL_ASAN_MAX_ALIGNMENT : Z := 4096.

(** [1 << 31] is not an [int]. *)
Definition mempool_create_asan (m : machine) (objsize : Z) : result (mempool_asan * machine) :=
  CHECK objsize >? 0;
  CHECK builtin_ffs objsize - 1 <? 31;
  let alignment := Z.shiftl 1 (builtin_ffs objsize - 1) in
  let alignment := if alignment >? MEMPOOL_ASAN_MAX_ALIGNMENT then MEMPOOL_ASAN_MAX_ALIGNMENT else alignment in
  let '(id, m) := small_asan_reserve_id m in
  Ok (MempoolAsan objsize 0 alignment id, m).

Definition mempool_destroy_asan (pool : mempool_asan) : mempool_asan := MempoolAsan 0 0 0 0.

Definition mempool_alloc_asan (m : machine) (pool : mempool_asan) : result (Z * machine * mempool_asan) :=
  '(obj, m) ← small_asan_alloc m (ma_objsize pool) (ma_alignment pool) 4;
  m ← write_raw m obj (le_bytes 4 (ma_id pool));
  let pool := MempoolAsan (ma_objsize pool) (u64 (ma_objcount pool + 1)) (ma_alignment pool) (ma_id pool) in
  p ← small_asan_payload_from_header m obj;
  Ok (p, m, pool).

Definition mempool_free_asan (m : machine) (pool : mempool_asan) (ptr : Z) : result (machine * mempool_asan) :=
  obj ← small_asan_header_from_payload m ptr;
  pool_id ← read_raw m obj 4;
  CHECK pool_id =? ma_id pool;
  let pool := MempoolAsan (ma_objsize pool) (u64 (ma_objcount pool - 1)) (ma_alignment pool) (ma_id pool) in
  m ← small_asan_free m obj;
  Ok (m, pool).

Definition mempool_is_initialized_asan (pool : mempool_asan) : bool := negb (ma_objsize pool =? 0).
Definition mempool_count_asan (pool : mempool_asan) : Z := ma_objcount pool.
Definition mempool_used_asan (pool : mempool_asan) : Z := u64 (ma_objsize pool * ma_objcount pool).
Definition mempool_stats_asan (pool : mempool_asan) : mempool_stats_t :=
  let used := u64 (ma_objsize pool * ma_objcount pool) in
  MempoolStats (ma_objsize pool) (ma_objcount pool) 0 0 (SmallStats used used).

(** *** [small_asan.c]: the quota lessor of the slab cache and its source are
    passed in and out. *)
Record small_alloc_asan := SmallAllocAsan { sma_objcount : Z; sma_used : Z; sma_id : Z }.
Definition SMALL_ASAN_ALIGNMENT : Z := 4.
Definition sizeof_small_object : Z := 16.

Definition small_alloc_create_asan (m : machine) (alloc_factor : Z) : small_alloc_asan * Z * machine :=
  let '(id, m) := small_asan_reserve_id m in (SmallAllocAsan 0 0 id, alloc_factor, m).

Definition smalloc_asan (m : machine) (lessor : quota_lessor) (source : quota) (alloc : small_alloc_asan) (size : Z) :
    result (Z * machine * quota_lessor * quota * small_alloc_asan) :=
  '(r, lessor, source) ← of_option (quota_lease lessor source size);
  if r <? 0 then Ok (NULL, m, lessor, source, alloc)
  else
    '(obj, m) ← small_asan_alloc m size SMALL_ASAN_ALIGNMENT sizeof_small_object;
    m ← write_raw m obj (le_bytes 8 size);
    m ← write_raw m (obj + 8) (le_bytes 4 (sma_id alloc));
    let alloc := SmallAllocAsan (u64 (sma_objcount alloc + 1)) (u64 (sma_used alloc + size)) (sma_id alloc) in
    p ← small_asan_payload_from_header m obj;
    Ok (p, m, lessor, source, alloc).

Definition smfree_asan (m : machine) (lessor : quota_lessor) (source : quota) (alloc : small_alloc_asan) (ptr size : Z) :
    result (machine * quota_lessor * quota * small_alloc_asan) :=
  obj ← small_asan_header_from_payload m ptr;
  obj_size ← read_raw m obj 8;
  CHECK obj_size =? size;
  allocator_id ← read_raw m (obj + 8) 4;
  CHECK allocator_id =? sma_id alloc;
  '(_, lessor, source) ← of_option (quota_end_lease lessor source obj_size);
  let alloc := SmallAllocAsan (u64 (sma_objcount alloc - 1)) (u64 (sma_used alloc - obj_size)) (sma_id alloc) in
  m ← small_asan_free m obj;
  Ok (m, lessor, source, alloc).

(** The callback gets the statistics and its context. *)
Definition small_stats_asan {S : Type} (alloc : small_alloc_asan) (cb : mempool_stats_t -> S -> bool * S) (ctx : S) :
    small_stats * S :=
  (SmallStats (sma_used alloc) (sma_used alloc),
   (cb (MempoolStats 0 (sma_objcount alloc) 0 0 (SmallStats 0 0)) ctx).2).

Definition small_alloc_info_asan (size : Z) : bool * Z := (true, size).
End Pools.

(** ** Objects with a tag

    [mine] are the objects of an allocator, chunks with the identifier [id] in
    their headers of [hs] bytes and the shape [ok]; [others] are the chunks of
    all other allocators. *)
Section Tags.
Context {rt : Type} `{!AsanRt rt} {rt_wf : rt -> Prop} `{!AsanRtLaws rt_wf}.
Local Abbreviation machine := (machine rt).
Local Abbreviation asan_inv := (asan_inv (rt_wf:=rt_wf)).
Local Abbreviation fresh := (fresh (rt_wf:=rt_wf)).

Record owns (m : machine) (id hs : Z) (ok : machine -> chunk -> Prop) (mine others : list chunk) : Prop := {
  ow_inv : asan_inv m (mine ++ others);
  ow_id : in_u 32 id;
  ow_mine c : c ∈ mine -> ck_hsize c = hs /\ 4 <= hs /\ field m c 0 4 id /\ ok m c;
}.

(** The shape of an object is a matter of its own block. *)
Definition local_shape (ok : machine -> chunk -> Prop) : Prop :=
  forall m m' C c, same_on m m' C -> c ∈ C -> layout c -> ok m c -> ok m' c.

Lemma tag_alloc m C n A hs id : asan_inv m C -> asan_fits n A hs -> 4 <= hs ->
  small_asan_alloc m n A hs = Exit \/
  exists c m1 m2, small_asan_alloc m n A hs = Ok (ck_header c, m1) /\
    write_raw m1 (ck_header c) (le_bytes 4 id) = Ok m2 /\
    small_asan_payload_from_header m2 (ck_header c) = Ok (ck_payload c) /\
    (ck_size c = n /\ ck_align c = A /\ ck_hsize c = hs) /\ fresh m m2 C c n /\ field m2 c 0 4 id.
Proof.
  intros Hi Hf Hh. destruct (asan_alloc_fresh m C n A hs Hi Hf) as [E|(c & m1 & E & Hc & F)]; [by left|right].
  destruct (fresh_write _ _ _ _ _ 0 4 id F) as (m2 & Ew & F2 & HF & _); [lia|lia|]. rewrite Z.add_0_r in Ew.
  exists c, m1, m2. split_and!; try done; try apply Hc. by eapply fresh_payload.
Qed.

Lemma tag_read m c id : chunk_in m c -> 4 <= ck_hsize c -> field m c 0 4 id -> in_u 32 id ->
  small_asan_header_from_payload m (ck_payload c) = Ok (ck_header c) /\ read_raw m (ck_header c) 4 = Ok id.
Proof.
  intros K Hh HF Hid. split; [by apply header_from_payload_spec|]. rewrite <- (Z.add_0_r (ck_header c)).
  apply (read_field m c 0 4 id); (done || lia).
Qed.

Lemma owns_chunk m id hs ok mine others c : owns m id hs ok mine others -> c ∈ mine -> chunk_in m c.
Proof. intros O Hc. destruct (ow_inv _ _ _ _ _ _ O) as (_ & _ & _ & HC & HX). apply HC, elem_of_app. by left. Qed.

Lemma owns_add m m' id hs ok mine others c n : local_shape ok -> owns m id hs ok mine others ->
  fresh m m' (mine ++ others) c n -> ck_hsize c = hs -> 4 <= hs -> field m' c 0 4 id -> ok m' c ->
  owns m' id hs ok (c :: mine) others.
Proof.
  intros Hloc O F Eh Hh HF Hok. split; [apply F|apply O|].
  intros d [->|Hd]%elem_of_cons; [done|]. destruct (ow_mine _ _ _ _ _ _ O d Hd) as (H1 & H2 & H3 & H4).
  pose proof (k_layout _ _ (owns_chunk _ _ _ _ _ _ _ O Hd)) as L.
  assert (Hin : d ∈ mine ++ others) by (apply elem_of_app; by left).
  split_and!; [done|done| |by eapply Hloc; [apply F|..]].
  eapply same_on_field; [apply F|done|done|lia|lia|done].
Qed.

Lemma owns_remove m m' id hs ok M1 c M2 others : local_shape ok -> owns m id hs ok (M1 ++ c :: M2) others ->
  asan_inv m' (M1 ++ M2 ++ others) -> same_on m m' (M1 ++ M2 ++ others) -> owns m' id hs ok (M1 ++ M2) others.
Proof.
  intros Hloc O Hi HS. split; [by rewrite <- (assoc (++))|apply O|]. intros d Hd.
  assert (Hd1 : d ∈ M1 ++ c :: M2) by (rewrite elem_of_app, elem_of_cons in *; tauto).
  assert (Hd2 : d ∈ M1 ++ M2 ++ others) by (rewrite (assoc (++)), elem_of_app; by left).
  destruct (ow_mine _ _ _ _ _ _ O d Hd1) as (H1 & H2 & H3 & H4).
  pose proof (k_layout _ _ (owns_chunk _ _ _ _ _ _ _ O Hd1)) as L.
  split_and!; [done|done|by eapply same_on_field; [..|lia|lia|]|by eapply Hloc].
Qed.

Lemma tagged_free m id hs ok M1 c M2 others : local_shape ok -> owns m id hs ok (M1 ++ c :: M2) others ->
  small_asan_header_from_payload m (ck_payload c) = Ok (ck_header c) /\ read_raw m (ck_header c) 4 = Ok id /\
  exists m', small_asan_free m (ck_header c) = Ok m' /\ owns m' id hs ok (M1 ++ M2) others /\
    same_on m m' (M1 ++ M2 ++ others).
Proof.
  intros Hloc O. assert (Hc : c ∈ M1 ++ c :: M2) by (apply elem_of_app; right; left).
  destruct (ow_mine _ _ _ _ _ _ O c Hc) as (H1 & H2 & H3 & _).
  destruct (tag_read m c id (owns_chunk _ _ _ _ _ _ _ O Hc) ltac:(lia) H3 (ow_id _ _ _ _ _ _ O)) as [E1 E2].
  split_and!; [done|done|]. pose proof (ow_inv _ _ _ _ _ _ O) as Hi. rewrite <- (assoc (++)) in Hi.
  destruct (asan_free_spec m M1 c (M2 ++ others) Hi) as (m' & E & Hi' & HS & _).
  exists m'. split_and!; [done| |done]. by eapply owns_remove.
Qed.

(** Another allocator's object. *)
Definition foreign (m : machine) (id : Z) (c : chunk) : Prop :=
  exists id', 4 <= ck_hsize c /\ field m c 0 4 id' /\ in_u 32 id' /\ id' <> id.

Lemma foreign_read m id hs ok mine others c : owns m id hs ok mine others -> c ∈ others -> foreign m id c ->
  exists id', small_asan_header_from_payload m (ck_payload c) = Ok (ck_header c) /\
    read_raw m (ck_header c) 4 = Ok id' /\ (id' =? id) = false.
Proof.
  intros O Hc (id' & Hh & HF & Hid & Hne). destruct (ow_inv _ _ _ _ _ _ O) as (_ & _ & _ & HC & HX).
  destruct (tag_read m c id' (HC c ltac:(apply elem_of_app; by right)) Hh HF Hid) as [E1 E2].
  exists id'. split_and!; [done|done|by apply Z.eqb_neq].
Qed.

(** What every allocation gives: memory of its own, aligned exactly, with guards. *)
Definition handed_out (m m' : machine) (C : list chunk) (c : chunk) (n A : Z) : Prop :=
  ck_size c = n /\ ck_payload c mod A = 0 /\ ck_payload c mod (2 * A) <> 0 /\ addressable m' (ck_payload c) n = true /\
  guarded m' c /\ same_on m m' C /\ forall d x, d ∈ C -> in_block d x -> ~ in_block c x.

Lemma fresh_handed_out m m' C c n A : fresh m m' C c n -> ck_size c = n -> ck_align c = A -> handed_out m m' C c n A.
Proof.
  intros F En EA. destruct (fresh_chunk _ _ _ _ _ F) as [K L]. split_and!.
  - done.
  - rewrite <- EA. apply L.
  - rewrite <- EA. apply L.
  - apply addressable_intro. apply F.
  - apply F.
  - apply F.
  - intros d x Hd. by apply (fresh_apart m m' C c n).
Qed.

(** ** Pools of objects of one size *)

Definition pool_shape (n A : Z) (m : machine) (c : chunk) : Prop := ck_size c = n /\ ck_align c = A.

Lemma pool_shape_local n A : local_shape (pool_shape n A).
Proof. by intros m m' C c _ _ _ H. Qed.

(** The alignment of the pool: the largest power of two that divides the size of
    its objects, and no more than 4096. *)
Definition size_alignment (n A : Z) : Prop :=
  pow2 A /\ A <= 4096 /\ n mod A = 0 /\ (A < 4096 -> n mod (2 * A) <> 0).

Definition mempool_asan_inv (m : machine) (pool : mempool_asan) (mine others : list chunk) : Prop :=
  0 < ma_objsize pool < 2 ^ 32 /\ size_alignment (ma_objsize pool) (ma_alignment pool) /\
  ma_objcount pool = u64 (Z.of_nat (length mine)) /\
  owns m (ma_id pool) 4 (pool_shape (ma_objsize pool) (ma_alignment pool)) mine others.

Lemma ffs_alignment n : 0 < n < 2 ^ 32 -> n <> 2 ^ 31 ->
  builtin_ffs n - 1 < 31 /\
  let a := Z.shiftl 1 (builtin_ffs n - 1) in size_alignment n (if a >? 4096 then 4096 else a).
Proof.
  intros Hn Hne. destruct (odd_part n ltac:(lia)) as (k & j & Hk & Hj & E).
  assert (Ef : builtin_ffs n - 1 = k).
  { unfold builtin_ffs. rewrite (proj2 (Z.eqb_neq n 0)) by lia. rewrite E. rewrite land_opp by lia. rewrite Z.log2_pow2 by lia. lia. }
  rewrite Ef. pose proof (pow2_pos k Hk) as Hp.
  assert (Hk31 : k < 31).
  { assert (k < 32) by (apply (Z.pow_lt_mono_r_iff 2); nia). destruct (decide (k = 31)) as [->|]; [|lia].
    change (2 ^ 31) with 2147483648 in *. change (2 ^ 32) with 4294967296 in *. nia. }
  split; [done|]. cbv zeta. rewrite Z.shiftl_1_l. destruct (Z.gtb_spec (2 ^ k) 4096) as [Hgt|Hle].
  - split_and!; [by exists 12|lia| |lia]. apply (mod_pow_le n 12 k); [split; [lia|]|].
    + apply (Z.pow_le_mono_r_iff 2); [lia|lia|]. change (2 ^ 12) with 4096. lia.
    + rewrite E. apply Z.mod_mul. lia.
  - split_and!; [by exists k|done|rewrite E; apply Z.mod_mul; lia|]. intros _.
    rewrite E. replace ((2 * j + 1) * 2 ^ k) with (2 ^ k + j * (2 * 2 ^ k)) by lia.
    rewrite Z.mod_add, Z.mod_small by lia. lia.
Qed.

Lemma pool_fits pool : 0 < ma_objsize pool < 2 ^ 32 -> size_alignment (ma_objsize pool) (ma_alignment pool) ->
  asan_fits (ma_objsize pool) (ma_alignment pool) 4.
Proof.
  intros Hn (HA & Hle & _). pose proof (pow2_spec_pos _ HA). split_and!; [lia|done|lia|unfold UINT16_MAX; lia|lia].
Qed.

Lemma u64_of_succ (n : nat) : u64 (u64 (Z.of_nat n) + 1) = u64 (Z.of_nat (S n)).
Proof. rewrite u64_add_l. f_equal. lia. Qed.
Lemma u64_of_pred (n : nat) : u64 (u64 (Z.of_nat (S n)) - 1) = u64 (Z.of_nat n).
Proof. change (u64 (u64 (Z.of_nat (S n)) + -1) = u64 (Z.of_nat n)). rewrite u64_add_l. f_equal. lia. Qed.

Lemma mempool_create_asan_spec m objsize C : asan_inv m C -> 0 < objsize < 2 ^ 32 -> objsize <> 2 ^ 31 ->
  exists pool m', mempool_create_asan m objsize = Ok (pool, m') /\ mempool_asan_inv m' pool [] C /\
    ma_objsize pool = objsize /\ same_on m m' C /\
    ma_id pool = small_asan_id_next m /\ small_asan_id_next m' = u32 (small_asan_id_next m + 1).
Proof.
  intros (W & Hid & Hnd & HC & HX) Hn Hne. destruct (ffs_alignment objsize Hn Hne) as [Hf HA].
  unfold mempool_create_asan. rewrite (proj2 (Z.gtb_lt _ _)), (proj2 (Z.ltb_lt _ _)) by lia. cbn [small_asan_reserve_id].
  do 2 eexists. split; [done|]. split_and!; try done. split; [exact Hn|]. split; [exact HA|]. split; [done|].
  split; cbn [ma_id]; [|done|by intros c ?%elem_of_nil]. split_and!; [done|apply u32_range|done| |exact HX].
  intros c Hc. by apply (chunk_in_frame m); [apply HC|apply (HC c Hc)|..|apply (HC c Hc)].
Qed.

Lemma mempool_alloc_asan_spec m pool mine others : mempool_asan_inv m pool mine others ->
  mempool_alloc_asan m pool = Exit \/
  exists c m' pool', mempool_alloc_asan m pool = Ok (ck_payload c, m', pool') /\
    handed_out m m' (mine ++ others) c (ma_objsize pool) (ma_alignment pool) /\
    mempool_asan_inv m' pool' (c :: mine) others.
Proof.
  intros (Hn & HA & Hcnt & O). unfold mempool_alloc_asan.
  destruct (tag_alloc m _ _ _ 4 (ma_id pool) (ow_inv _ _ _ _ _ _ O) (pool_fits pool Hn HA) ltac:(lia))
    as [-> |(c & m1 & m2 & E1 & E2 & E3 & (Es & Ea & Eh) & F & HF)]; [by left|right].
  rewrite E1. cbn [mbind result_bind]. rewrite E2. cbn [mbind result_bind]. rewrite E3. cbn [mbind result_bind].
  exists c, m2. eexists. split; [done|]. split; [by apply fresh_handed_out|].
  split_and!; cbn [ma_objsize ma_alignment ma_objcount ma_id]; [lia|lia|apply HA..| |].
  - rewrite Hcnt. apply u64_of_succ.
  - by eapply owns_add; [apply pool_shape_local|exact O|exact F|..].
Qed.

Lemma mempool_free_asan_spec m pool M1 c M2 others : mempool_asan_inv m pool (M1 ++ c :: M2) others ->
  exists m' pool', mempool_free_asan m pool (ck_payload c) = Ok (m', pool') /\
    mempool_asan_inv m' pool' (M1 ++ M2) others /\ same_on m m' (M1 ++ M2 ++ others).
Proof.
  intros (Hn & HA & Hcnt & O). destruct (tagged_free _ _ _ _ _ _ _ _ (pool_shape_local _ _) O) as (E1 & E2 & m' & E3 & O' & HS).
  unfold mempool_free_asan. rewrite E1. cbn [mbind result_bind]. rewrite E2. cbn [mbind result_bind].
  rewrite Z.eqb_refl, E3. cbn [mbind result_bind]. do 2 eexists. split; [done|]. split; [|done].
  split_and!; cbn [ma_objsize ma_alignment ma_objcount ma_id]; [lia|lia|apply HA..| |done].
  rewrite Hcnt, <- Permutation_middle. apply u64_of_pred.
Qed.

Lemma mempool_free_asan_foreign m pool mine others c : mempool_asan_inv m pool mine others -> c ∈ others ->
  foreign m (ma_id pool) c -> mempool_free_asan m pool (ck_payload c) = Abort.
Proof.
  intros (_ & _ & _ & O) Hc Hf. destruct (foreign_read _ _ _ _ _ _ _ O Hc Hf) as (id' & E1 & E2 & E3).
  unfold mempool_free_asan. rewrite E1. cbn [mbind result_bind]. rewrite E2. cbn [mbind result_bind]. by rewrite E3.
Qed.

(** ** Objects of any size

    The size is in the first 8 bytes of the header and the identifier in the
    next 4; what is leased covers the objects. *)
Record small_asan_inv (m : machine) (t u : Z) (lessor : quota_lessor) (alloc : small_alloc_asan) (mine others : list chunk) : Prop := {
  sa_inv : asan_inv m (mine ++ others);
  sa_id : in_u 32 (sma_id alloc);
  sa_mine c : c ∈ mine -> ck_hsize c = 16 /\ ck_align c = 4 /\ ck_size c < 2 ^ 62 /\
    field m c 0 8 (ck_size c) /\ field m c 8 4 (sma_id alloc);
  sa_count : sma_objcount alloc = u64 (Z.of_nat (length mine));
  sa_used : sma_used alloc = u64 (zsum ck_size mine);
  sa_quota : 0 <= u <= t /\ t < 2 ^ 32 - 1 /\ lessor_ok u lessor /\ zsum ck_size mine <= leased lessor;
}.

Lemma chunk_sizes_nonneg m C c : asan_inv m C -> c ∈ C -> 0 <= ck_size c.
Proof. intros (_ & _ & _ & HC & HX) Hc. apply (k_layout _ _ (HC c Hc)). Qed.

Lemma small_alloc_create_asan_spec m C f t u lessor : asan_inv m C -> 0 <= u <= t -> t < 2 ^ 32 - 1 -> lessor_ok u lessor ->
  exists alloc m', small_alloc_create_asan m f = (alloc, f, m') /\ small_asan_inv m' t u lessor alloc [] C /\ same_on m m' C.
Proof.
  intros (W & Hid & Hnd & HC & HX) Hu Ht Hl. do 2 eexists. split; [done|]. split; [|done].
  split; cbn [sma_id sma_objcount sma_used small_asan_reserve_id fst snd length zsum foldr]; try done.
  - split_and!; [done|apply u32_range|done| |exact HX].
    intros c Hc. by apply (chunk_in_frame m); [apply HC|apply (HC c Hc)|..|apply (HC c Hc)].
  - by intros c ?%elem_of_nil.
  - split_and!; try done; try lia; apply Hl.
Qed.

(** The quota can lease [size] bytes, or refuse them. *)
Definition leasable (t size : Z) : Prop :=
  0 <= size /\ Z.max size QUOTA_USE_MIN <= QUOTA_MAX /\ t + in_units (Z.max size QUOTA_USE_MIN) < 2 ^ 32.

Lemma leasable_lease t u l size : 0 <= u <= t -> lessor_ok u l -> leasable t size ->
  (exists n, quota_lease l (Quota (enc (t, u))) size =
     Some (size, QuotaLessor (used l + n * 1024) (leased l + size), Quota (enc (t, u + n))) /\
     0 <= u + n <= t /\ lessor_ok (u + n) (QuotaLessor (used l + n * 1024) (leased l + size))) \/
  quota_lease l (Quota (enc (t, u))) size = Some (-1, l, Quota (enc (t, u))).
Proof.
  intros Hu Hl (H0 & Hm & Ht). pose proof QUOTA_MAX_eq as Hq. destruct Hl as (Hl1 & Hl2 & Hl3) eqn:E. clear E.
  assert (Hle : Z.max (leased l + size - used l) QUOTA_USE_MIN <= Z.max size QUOTA_USE_MIN) by lia.
  pose proof QUOTA_USE_MIN_eq as Em.
  assert (H1 : 0 <= Z.max (leased l + size - used l) QUOTA_USE_MIN) by lia.
  pose proof (in_units_mono _ _ (conj H1 Hle) Hm) as Hmono.
  destruct (lease_spec t u l size Hu Hl ltac:(lia)) as [(n & E & Hn & Ho)|[E _]]; [lia|lia| |by right].
  left. exists n. pose proof Ho as (Ha & Hb & Hc). cbn [QuotaLessor.used leased] in *. split; [done|]. split; [|done]. lia.
Qed.

Lemma smalloc_asan_spec m t u lessor alloc mine others size : small_asan_inv m t u lessor alloc mine others -> leasable t size ->
  smalloc_asan m lessor (Quota (enc (t, u))) alloc size = Exit \/
  smalloc_asan m lessor (Quota (enc (t, u))) alloc size = Ok (NULL, m, lessor, Quota (enc (t, u)), alloc) \/
  exists c m' u' lessor' alloc',
    smalloc_asan m lessor (Quota (enc (t, u))) alloc size = Ok (ck_payload c, m', lessor', Quota (enc (t, u')), alloc') /\
    handed_out m m' (mine ++ others) c size 4 /\ small_asan_inv m' t u' lessor' alloc' (c :: mine) others.
Proof.
  intros [Hi Hid Hmine Hcnt Hused (Hu & Ht & Hl & Hsum)] Hle. unfold smalloc_asan.
  destruct (leasable_lease t u lessor size Hu Hl Hle) as [(n & -> & Hn & Ho)| ->]; [|right; by left].
  cbn [of_option mbind result_bind]. destruct Hle as (H0 & Hm & _). pose proof QUOTA_MAX_eq as Hq.
  rewrite (proj2 (Z.ltb_ge _ _)) by lia.
  assert (Hf : asan_fits size SMALL_ASAN_ALIGNMENT sizeof_small_object).
  { change SMALL_ASAN_ALIGNMENT with 4. change sizeof_small_object with 16. split_and!; [lia|by exists 2|lia|done|lia]. }
  destruct (asan_alloc_fresh m _ _ _ _ Hi Hf) as [-> |(c & m1 & -> & (Es & Ea & Eh) & F)]; [by left|right; right].
  change sizeof_small_object with 16 in Eh. cbn [mbind result_bind].
  destruct (fresh_write _ _ _ _ _ 0 8 size F) as (m2 & E2 & F2 & HF2 & _); [lia|lia|]. rewrite Z.add_0_r in E2.
  rewrite E2. cbn [mbind result_bind].
  destruct (fresh_write _ _ _ _ _ 8 4 (sma_id alloc) F2) as (m3 & E3 & F3 & HF3 & Hoth); [lia|lia|].
  rewrite E3. cbn [mbind result_bind]. rewrite (fresh_payload _ _ _ _ _ F3). cbn [mbind result_bind].
  exists c, m3. do 3 eexists. split; [done|]. split; [by apply fresh_handed_out|].
  split; cbn [sma_id sma_objcount sma_used leased]; [apply F3|done| | | |].
  - intros d [->|Hd]%elem_of_cons.
    + rewrite Es. split_and!; [done|done|lia| |done]. by apply Hoth; [left|].
    + destruct (Hmine d Hd) as (H1 & H2 & H3 & H4 & H5). assert (Hin : d ∈ mine ++ others) by (apply elem_of_app; by left).
      destruct Hi as (_ & _ & _ & HC & HX). pose proof (k_layout _ _ (HC d Hin)) as L.
      split_and!; try done; (eapply same_on_field; [apply F3|done|done|lia|lia|done]).
  - rewrite Hcnt. apply u64_of_succ.
  - rewrite Hused, u64_add_l. cbn [zsum foldr]. fold (zsum ck_size mine). f_equal. lia.
  - cbn [zsum foldr]. fold (zsum ck_size mine). split_and!; [lia|lia|done|apply Ho..|lia].
Qed.

Lemma smfree_asan_spec m t u lessor alloc M1 c M2 others : small_asan_inv m t u lessor alloc (M1 ++ c :: M2) others ->
  exists m' u' lessor' alloc',
    smfree_asan m lessor (Quota (enc (t, u))) alloc (ck_payload c) (ck_size c) = Ok (m', lessor', Quota (enc (t, u')), alloc') /\
    small_asan_inv m' t u' lessor' alloc' (M1 ++ M2) others /\ same_on m m' (M1 ++ M2 ++ others).
Proof.
  intros [Hi Hid Hmine Hcnt Hused (Hu & Ht & Hl & Hsum)].
  assert (Hc : c ∈ M1 ++ c :: M2) by (apply elem_of_app; right; left).
  destruct (Hmine c Hc) as (H1 & H2 & H3 & H4 & H5). pose proof Hi as (_ & _ & _ & HC & HX).
  assert (K : chunk_in m c) by (apply HC, elem_of_app; by left). pose proof (l_size c (k_layout _ _ K)) as H0.
  assert (Ez : zsum ck_size (M1 ++ c :: M2) = ck_size c + zsum ck_size (M1 ++ M2)) by (rewrite !zsum_app; cbn [zsum foldr]; unfold zsum; lia).
  assert (Hge : 0 <= zsum ck_size (M1 ++ M2)).
  { apply zsum_nonneg. intros d Hd. apply (chunk_sizes_nonneg m _ d Hi). rewrite !elem_of_app, elem_of_cons in *. tauto. }
  unfold smfree_asan. rewrite (header_from_payload_spec _ _ K). cbn [mbind result_bind].
  assert (R1 : read_raw m (ck_header c) 8 = Ok (ck_size c)).
  { rewrite <- (Z.add_0_r (ck_header c)). apply read_field; [done|lia|lia|done|unfold in_u; cbn; lia]. }
  rewrite R1. cbn [mbind result_bind]. rewrite Z.eqb_refl.
  rewrite (read_field m c 8 4 (sma_id alloc) K) by (done || lia). cbn [mbind result_bind]. rewrite Z.eqb_refl.
  destruct (quota_end_lease_spec t u lessor (ck_size c) Hu ltac:(lia) Hl ltac:(lia)) as (n & Hn & -> & Ho & _).
  cbn [of_option mbind result_bind]. rewrite <- (assoc (++)) in Hi.
  destruct (asan_free_spec m M1 c (M2 ++ others) Hi) as (m' & -> & Hi' & HS & _). cbn [mbind result_bind].
  exists m', (u - n). do 2 eexists. split; [done|]. split; [|done].
  split; cbn [sma_id sma_objcount sma_used leased]; [by rewrite <- (assoc (++))|done| | | |].
  - intros d Hd. assert (Hd1 : d ∈ M1 ++ c :: M2) by (rewrite elem_of_app, elem_of_cons in *; tauto).
    assert (Hd2 : d ∈ M1 ++ M2 ++ others) by (rewrite (assoc (++)), elem_of_app; by left).
    destruct (Hmine d Hd1) as (G1 & G2 & G3 & G4 & G5). assert (Ld : layout d) by (apply (HC d), elem_of_app; by left).
    split_and!; try done; (eapply same_on_field; [exact HS|done|done|lia|lia|done]).
  - rewrite Hcnt, <- Permutation_middle. apply u64_of_pred.
  - rewrite Hused, Ez. change (u64 (?a - ?b)) with (u64 (a + - b)). rewrite u64_add_l. f_equal. lia.
  - split_and!; [lia|lia|done|apply Ho..|lia].
Qed.

Lemma smfree_asan_wrong_size m t u lessor alloc mine others c size :
  small_asan_inv m t u lessor alloc mine others -> c ∈ mine -> size <> ck_size c ->
  smfree_asan m lessor (Quota (enc (t, u))) alloc (ck_payload c) size = Abort.
Proof.
  intros [(_ & _ & _ & HC & HX) _ Hmine _ _ _] Hc Hne. destruct (Hmine c Hc) as (H1 & H2 & H3 & H4 & _).
  assert (K : chunk_in m c) by (apply HC, elem_of_app; by left). pose proof (l_size c (k_layout _ _ K)).
  unfold smfree_asan. rewrite (header_from_payload_spec _ _ K). cbn [mbind result_bind].
  rewrite <- (Z.add_0_r (ck_header c)) at 1. rewrite (read_field m c 0 8 (ck_size c) K); [|lia|lia|done|unfold in_u; cbn; lia].
  cbn [mbind result_bind]. by rewrite (proj2 (Z.eqb_neq _ _)).
Qed.

Lemma smfree_asan_foreign m t u lessor alloc mine others c n id size :
  small_asan_inv m t u lessor alloc mine others -> c ∈ others -> 12 <= ck_hsize c -> field m c 0 8 n -> in_u 64 n ->
  field m c 8 4 id -> in_u 32 id -> id <> sma_id alloc ->
  smfree_asan m lessor (Quota (enc (t, u))) alloc (ck_payload c) size = Abort.
Proof.
  intros [(_ & _ & _ & HC & HX) _ _ _ _ _] Hc Hh H1 Hn H2 Hid Hne. assert (K : chunk_in m c) by (apply HC, elem_of_app; by right).
  unfold smfree_asan. rewrite (header_from_payload_spec _ _ K). cbn [mbind result_bind].
  rewrite <- (Z.add_0_r (ck_header c)) at 1. rewrite (read_field m c 0 8 n K) by (done || lia). cbn [mbind result_bind].
  destruct (n =? size); [|done]. rewrite (read_field m c 8 4 id K) by (done || lia). cbn [mbind result_bind].
  by rewrite (proj2 (Z.eqb_neq _ _)).
Qed.

(** ** Slabs *)

(** A slab of the cache begins with its size. *)
Definition slab_shape (m : machine) (c : chunk) : Prop :=
  ck_align c = 16 /\ 8 <= ck_size c < 2 ^ 64 /\ load (bytes m) (ck_payload c) 8 = le_bytes 8 (ck_size c).

Lemma slab_shape_local : local_shape slab_shape.
Proof.
  intros m m' C c HS Hc L (H1 & H2 & H3). split_and!; [done|lia|lia|]. rewrite <- H3. apply (same_on_content m m' C c 8 HS Hc L). lia.
Qed.

Definition slab_cache_asan_inv (m : machine) (cache : slab_cache_asan) (mine others : list chunk) : Prop :=
  sca_used cache = u64 (zsum ck_size mine) /\ owns m (sca_id cache) 8 slab_shape mine others.

Lemma slab_cache_create_asan_spec m C t u self : asan_inv m C -> 0 <= u <= t -> t < 2 ^ 32 ->
  if quota_total (Quota (enc (t, u))) >=? QUOTA_USE_MIN then
    exists cache m', slab_cache_create_asan m (Quota (enc (t, u))) self = Ok (cache, m') /\
      slab_cache_asan_inv m' cache [] C /\ lessor_ok u (sca_quota cache) /\ sca_thread cache = self /\ same_on m m' C
  else slab_cache_create_asan m (Quota (enc (t, u))) self = Abort.
Proof.
  intros (W & Hid & Hnd & HC & HX) Hu Ht. unfold slab_cache_create_asan, quota_lessor_create. destruct (_ >=? _); [|done].
  cbn [of_option mbind result_bind small_asan_reserve_id]. do 2 eexists. split; [done|].
  split_and!; try done; [|unfold lessor_ok; cbn [slab_cache_set_thread_asan sca_quota QuotaLessor.used leased]; split_and!; (done || lia)].
  split; [done|]. split; [|done|by intros c ?%elem_of_nil].
  split_and!; [done|apply u32_range|done| |exact HX]. intros c Hc. by apply (chunk_in_frame m); [apply HC|apply (HC c Hc)|..|apply (HC c Hc)].
Qed.

Lemma slab_real_size_asan_spec sp j size : small_getpagesize sp = 2 ^ j -> 0 <= j < 63 -> 0 <= size -> size + 2 ^ j + 72 < 2 ^ 64 ->
  exists n, slab_real_size_asan sp size = Ok n /\ size + 8 <= n < size + 8 + 2 ^ j /\ n mod 2 ^ j = 0.
Proof.
  intros Hp Hj Hs Hb. unfold slab_real_size_asan. change (small_align 8 8) with 8. rewrite Hp, u64_small by lia.
  rewrite small_align_ok_pow2 by lia. eexists. split; [done|]. by apply small_align_bounds; lia.
Qed.

Lemma slab_get_asan_spec m cache mine others sp j self size : slab_cache_asan_inv m cache mine others ->
  small_getpagesize sp = 2 ^ j -> 0 <= j < 63 -> 0 <= size -> size + 2 ^ j + 72 < 2 ^ 64 ->
  if sca_thread cache =? self then
    slab_get_asan m cache sp self size = Exit \/
    exists c m' cache', slab_get_asan m cache sp self size = Ok (ck_payload c, m', cache') /\
      (size + 8 <= ck_size c < size + 8 + 2 ^ j /\ ck_size c mod 2 ^ j = 0) /\
      handed_out m m' (mine ++ others) c (ck_size c) 16 /\
      slab_cache_asan_inv m' cache' (c :: mine) others /\ sca_thread cache' = self
  else slab_get_asan m cache sp self size = Abort.
Proof.
  intros [Hu O] Hp Hj Hs Hb. unfold slab_get_asan. destruct (Z.eqb_spec (sca_thread cache) self) as [Et|]; [|done].
  destruct (slab_real_size_asan_spec sp j size Hp Hj Hs Hb) as (n & -> & Hn & Hmod). cbn [mbind result_bind].
  assert (Hf : asan_fits n SMALL_CACHE_SLAB_ALIGNMENT sizeof_ptr).
  { change SMALL_CACHE_SLAB_ALIGNMENT with 16. change sizeof_ptr with 8. split_and!; [lia|by exists 4|lia|done|lia]. }
  destruct (tag_alloc m _ _ _ _ (sca_id cache) (ow_inv _ _ _ _ _ _ O) Hf)
    as [-> |(c & m1 & m2 & -> & E2 & E3 & (Es & Ea & Eh) & F & HF)]; [done|by left|right].
  cbn [mbind result_bind]. rewrite E2. cbn [mbind result_bind]. rewrite E3. cbn [mbind result_bind].
  destruct (fresh_write_payload _ _ _ _ _ 0 (le_bytes 8 n) F) as (m3 & E4 & F3 & Hl & Hf3); [lia|rewrite le_bytes_length; lia|].
  rewrite Z.add_0_r in E4, Hl. rewrite le_bytes_length in Hl. rewrite E4. cbn [mbind result_bind]. exists c, m3. eexists. split; [done|].
  split; [rewrite Es; split; [lia|done]|]. split; [rewrite Es; by apply fresh_handed_out|].
  split; [|done]. split; cbn [sca_used sca_id].
  - rewrite Hu, u64_add_l. cbn [zsum foldr]. fold (zsum ck_size mine). f_equal. lia.
  - eapply owns_add; [apply slab_shape_local|exact O|exact F3|done|done|apply Hf3; [rewrite Eh; by vm_compute|done]|].
    split_and!; [done|lia|lia|by rewrite Es].
Qed.

Lemma slab_put_asan_spec m cache M1 c M2 others self : slab_cache_asan_inv m cache (M1 ++ c :: M2) others -> sca_thread cache = self ->
  exists m' cache', slab_put_asan m cache self (ck_payload c) = Ok (m', cache') /\
    slab_cache_asan_inv m' cache' (M1 ++ M2) others /\ same_on m m' (M1 ++ M2 ++ others) /\ sca_thread cache' = self.
Proof.
  intros [Hu O] <-. assert (Hc : c ∈ M1 ++ c :: M2) by (apply elem_of_app; right; left).
  destruct (tagged_free _ _ _ _ _ _ _ _ slab_shape_local O) as (E1 & E2 & m' & E3 & O' & HS).
  destruct (ow_mine _ _ _ _ _ _ O c Hc) as (_ & _ & _ & (_ & H1 & H2)). pose proof (owns_chunk _ _ _ _ _ _ _ O Hc) as K.
  pose proof (k_layout _ _ K) as L. unfold slab_put_asan. rewrite Z.eqb_refl, E1. cbn [mbind result_bind]. rewrite E2. cbn [mbind result_bind].
  rewrite Z.eqb_refl. unfold read_raw. destruct (writable_in_block c (ck_payload c) 8 L) as [G1 G2]; [right; lia|].
  rewrite (allocated_chunk m c) by done. change (Z.of_nat 8) with 8. rewrite H2, le_val_bytes, Z.mod_small by (cbn; lia).
  cbn [mbind result_bind]. rewrite E3. cbn [mbind result_bind]. do 2 eexists. split; [done|]. split; [|by split]. split; [|done].
  cbn [sca_used]. rewrite Hu, !zsum_app. cbn [zsum foldr]. change (u64 (?a - ?b)) with (u64 (a + - b)). rewrite u64_add_l. f_equal. unfold zsum. lia.
Qed.

(** Slabs of the arena. *)
Definition slab_arena_asan_inv (m : machine) (arena : slab_arena_asan) (mine others : list chunk) : Prop :=
  0 <= saa_slab_size arena < 2 ^ 32 /\ owns m (saa_id arena) 8 (pool_shape (saa_slab_size arena) 8) mine others.

Lemma slab_arena_create_asan_spec m C slab_size : asan_inv m C -> 0 <= slab_size <= 2 ^ 31 ->
  exists arena m', slab_arena_create_asan m slab_size = Ok (0, arena, m') /\ slab_arena_asan_inv m' arena [] C /\
    slab_size <= saa_slab_size arena /\ pow2 (saa_slab_size arena) /\ same_on m m' C.
Proof.
  intros (W & Hid & Hnd & HC & HX) Hs. unfold slab_arena_create_asan. set (n := if _ <? _ then _ else _).
  assert (Hn : slab_size <= n /\ 65536 <= n <= 2 ^ 31) by (subst n; change SLAB_MIN_SIZE with 65536; destruct (Z.ltb_spec slab_size 65536); lia).
  assert (Hok : small_round_ok n = true).
  { unfold small_round_ok, SIZE_MAX, ULONG_MAX. rewrite (u64_small (n - 1)) by lia. apply orb_true_iff. right.
    apply andb_true_iff; split; apply Z.leb_le; [|lia]. change ((2 ^ 64 - 1) / 2 + 1) with (2 ^ 63). lia. }
  rewrite Hok. rewrite small_round_eq by lia. pose proof (log2_bounds (n - 1) ltac:(lia)) as Hb. pose proof (Z.log2_nonneg (n - 1)) as H0.
  assert (Hlg : Z.log2 (n - 1) < 31) by (apply Z.log2_lt_pow2; lia).
  assert (Hmx : 2 ^ (Z.log2 (n - 1) + 1) <= 2 ^ 31) by (apply pow2_mono; lia).
  rewrite Z.pow_add_r in * by lia. change (2 ^ 1) with 2 in *. rewrite u32_small by lia. cbn [small_asan_reserve_id].
  do 2 eexists. split; [done|]. cbn [saa_slab_size]. split; [split|split_and!; [lia| |done]].
  - cbn [saa_slab_size]. lia.
  - split; [|done|by intros c ?%elem_of_nil]. split_and!; [done|apply u32_range|done| |exact HX].
    intros c Hc. by apply (chunk_in_frame m); [apply HC|apply (HC c Hc)|..|apply (HC c Hc)].
  - exists (Z.log2 (n - 1) + 1). split; [lia|]. by rewrite Z.pow_add_r by lia.
Qed.

Lemma slab_map_asan_spec m arena mine others : slab_arena_asan_inv m arena mine others ->
  slab_map_asan m arena = Exit \/
  exists c m', slab_map_asan m arena = Ok (ck_payload c, m') /\
    handed_out m m' (mine ++ others) c (saa_slab_size arena) 8 /\ slab_arena_asan_inv m' arena (c :: mine) others.
Proof.
  intros [Hn O]. unfold slab_map_asan.
  assert (Hf : asan_fits (saa_slab_size arena) SMALL_ARENA_SLAB_ALIGNMENT sizeof_ptr).
  { change SMALL_ARENA_SLAB_ALIGNMENT with 8. change sizeof_ptr with 8. split_and!; [lia|by exists 3|lia|done|lia]. }
  destruct (tag_alloc m _ _ _ _ (saa_id arena) (ow_inv _ _ _ _ _ _ O) Hf)
    as [-> |(c & m1 & m2 & -> & E2 & E3 & (Es & Ea & Eh) & F & HF)]; [done|by left|right].
  cbn [mbind result_bind]. rewrite E2. cbn [mbind result_bind]. rewrite E3. cbn [mbind result_bind].
  exists c, m2. split; [done|]. split; [by apply fresh_handed_out|]. split; [done|].
  by eapply owns_add; [apply pool_shape_local|exact O|exact F|..].
Qed.

Lemma slab_unmap_asan_spec m arena M1 c M2 others : slab_arena_asan_inv m arena (M1 ++ c :: M2) others ->
  exists m', slab_unmap_asan m arena (ck_payload c) = Ok m' /\ slab_arena_asan_inv m' arena (M1 ++ M2) others /\
    same_on m m' (M1 ++ M2 ++ others).
Proof.
  intros [Hn O]. destruct (tagged_free _ _ _ _ _ _ _ _ (pool_shape_local _ _) O) as (E1 & E2 & m' & E3 & O' & HS).
  assert (Hc : c ∈ M1 ++ c :: M2) by (apply elem_of_app; right; left).
  pose proof (payload_bounds c (k_layout _ _ (owns_chunk _ _ _ _ _ _ _ O Hc))) as P.
  pose proof (l_hsize c (k_layout _ _ (owns_chunk _ _ _ _ _ _ _ O Hc))).
  unfold slab_unmap_asan. rewrite (proj2 (Z.eqb_neq _ _)) by lia. rewrite E1. cbn [mbind result_bind]. rewrite E2. cbn [mbind result_bind].
  rewrite Z.eqb_refl. by exists m'.
Qed.
End Tags.

(** ** Claims *)
Section Claims.
Context {rt : Type} `{!AsanRt rt} {rt_wf : rt -> Prop} `{!AsanRtLaws rt_wf}.
Local Abbreviation mempool_asan_inv := (mempool_asan_inv (rt_wf:=rt_wf)).
Local Abbreviation small_asan_inv := (small_asan_inv (rt_wf:=rt_wf)).

(** The pool of the ASAN build: an allocation ends the process for want of
    memory or hands out an object of its own, aligned by the largest power of two
    that divides the size (4096 at most) and not better, with guards; any object
    handed out can be freed and the other objects stay; the statistics count the
    objects; an object of another allocator is refused. *)
Theorem mempool_asan_correct (m : machine rt) pool mine others : mempool_asan_inv m pool mine others ->
  size_alignment (ma_objsize pool) (ma_alignment pool) /\
  match mempool_alloc_asan m pool with
  | Abort => False
  | Exit => True
  | Ok (p, m', pool') => exists c, ck_payload c = p /\
      handed_out m m' (mine ++ others) c (ma_objsize pool) (ma_alignment pool) /\
      mempool_asan_inv m' pool' (c :: mine) others /\
      mempool_stats_asan pool' =
        let n := u64 (Z.of_nat (S (length mine))) in
        let used := u64 (ma_objsize pool * n) in
        MempoolStats (ma_objsize pool) n 0 0 (SmallStats used used)
  end /\
  (forall M1 c M2, mine = M1 ++ c :: M2 -> exists m' pool',
     mempool_free_asan m pool (ck_payload c) = Ok (m', pool') /\
     mempool_asan_inv m' pool' (M1 ++ M2) others /\ same_on m m' (M1 ++ M2 ++ others)) /\
  (forall c, c ∈ others -> foreign m (ma_id pool) c -> mempool_free_asan m pool (ck_payload c) = Abort).
Proof.
  intros Hp. split; [apply Hp|]. split; [|split].
  - destruct (mempool_alloc_asan_spec m pool mine others Hp) as [-> |(c & m' & pool' & E & Hh & Hp')]; [done|].
    rewrite E. exists c. split_and!; [done|done..|]. pose proof Hp' as (_ & _ & Hc & _). cbn [length] in Hc.
    assert (Hs : ma_objsize pool' = ma_objsize pool).
    { unfold mempool_alloc_asan in E. destruct (small_asan_alloc _ _ _ _) as [[o m1]| |]; cbn [mbind result_bind] in E; [|done..].
      destruct (write_raw _ _ _); cbn [mbind result_bind] in E; [|done..].
      destruct (small_asan_payload_from_header _ _); cbn [mbind result_bind] in E; [|done..]. by simplify_eq. }
    unfold mempool_stats_asan. by rewrite Hs, Hc.
  - intros M1 c M2 ->. by apply mempool_free_asan_spec.
  - intros c. by apply (mempool_free_asan_foreign (rt_wf:=rt_wf) m pool mine others).
Qed.

(** C29. The allocator of the ASAN build: an allocation is refused by the quota,
    or ends the process for want of memory, or hands out memory of its own aligned
    by 4 and not by 8, with guards, and leases its size; any object can be freed
    with its size, which ends the lease; a wrong size and an object of another
    allocator are refused. *)
Theorem small_asan_correct (m : machine rt) t u lessor alloc mine others : small_asan_inv m t u lessor alloc mine others ->
  (forall size, leasable t size ->
     match smalloc_asan m lessor (Quota (enc (t, u))) alloc size with
     | Abort => False
     | Exit => True
     | Ok (p, m', lessor', source', alloc') =>
         (p = NULL /\ m' = m /\ lessor' = lessor /\ source' = Quota (enc (t, u)) /\ alloc' = alloc) \/
         exists c u', ck_payload c = p /\ p <> NULL /\ handed_out m m' (mine ++ others) c size 4 /\
           source' = Quota (enc (t, u')) /\ small_asan_inv m' t u' lessor' alloc' (c :: mine) others
     end) /\
  (forall M1 c M2, mine = M1 ++ c :: M2 -> exists m' u' lessor' alloc',
     smfree_asan m lessor (Quota (enc (t, u))) alloc (ck_payload c) (ck_size c) =
       Ok (m', lessor', Quota (enc (t, u')), alloc') /\
     small_asan_inv m' t u' lessor' alloc' (M1 ++ M2) others /\ same_on m m' (M1 ++ M2 ++ others)) /\
  (forall c size, c ∈ mine -> size <> ck_size c ->
     smfree_asan m lessor (Quota (enc (t, u))) alloc (ck_payload c) size = Abort) /\
  (forall c n id size, c ∈ others -> 12 <= ck_hsize c -> field m c 0 8 n -> in_u 64 n -> field m c 8 4 id -> in_u 32 id ->
     id <> sma_id alloc -> smfree_asan m lessor (Quota (enc (t, u))) alloc (ck_payload c) size = Abort).
Proof.
  intros Hp. split_and!.
  - intros size Hs. destruct (smalloc_asan_spec _ _ _ _ _ _ _ _ Hp Hs) as [-> |[-> |(c & m' & u' & l' & a' & -> & Hh & Hp')]];
      [done|by left|right]. exists c, u'. split_and!; try done.
    destruct (sa_inv _ _ _ _ _ _ _ Hp') as (_ & _ & _ & HC & HX). pose proof (k_layout _ _ (HC c ltac:(left))) as L.
    pose proof (payload_bounds c L). pose proof (l_hsize c L). lia.
  - intros M1 c M2 ->. by apply smfree_asan_spec.
  - intros c size Hc. by apply (smfree_asan_wrong_size (rt_wf:=rt_wf) m t u lessor alloc mine others).
  - intros c n id size. by apply (smfree_asan_foreign (rt_wf:=rt_wf) m t u lessor alloc mine others).
Qed.
End Claims.

(** ** Witnesses *)

(** Objects of 24 bytes are aligned by 8. *)
Lemma mempool_asan_correct_witness : exists pool m m' pool' p,
  mempool_create_asan toy_start 24 = Ok (pool, m) /\ mempool_alloc_asan m pool = Ok (p, m', pool') /\
  size_alignment (ma_objsize pool) (ma_alignment pool).
Proof.
  destruct (mempool_create_asan_spec toy_start 24 [] toy_start_inv) as (pool & m & E & Hi & _); [done|done|].
  destruct (mempool_asan_correct m pool [] [] Hi) as (HA & H & _).
  assert (Ec : match mempool_create_asan toy_start 24 with
    | Ok (pool, m) => match mempool_alloc_asan m pool with Ok (p, _, _) => Ok p | _ => Abort end | _ => Abort end = Ok 4120) by reflexivity.
  rewrite E in Ec. destruct (mempool_alloc_asan m pool) as [[[p m'] pool']| |] eqn:Ea; [|discriminate Ec|discriminate Ec].
  exists pool, m, m', pool', p. by split_and!.
Defined.

(** A quota of 16 MiB, of which 2 are taken by others. *)
Definition demo_source : quota := Quota (enc (16384, 2048)).

Lemma small_asan_correct_witness : exists alloc m r,
  small_alloc_create_asan toy_start 0 = (alloc, 0, m) /\
  smalloc_asan m (QuotaLessor 0 0) demo_source alloc 100 = Ok r /\ r.1.1.1.1 <> NULL.
Proof.
  assert (Hl : lessor_ok 2048 (QuotaLessor 0 0)) by (split_and!; (done || (cbn; lia))).
  destruct (small_alloc_create_asan_spec toy_start [] 0 16384 2048 (QuotaLessor 0 0) toy_start_inv) as (alloc & m & E & Hi & _); [lia|lia|done|].
  destruct (small_asan_correct m 16384 2048 (QuotaLessor 0 0) alloc [] [] Hi) as (H & _).
  assert (Hs : leasable 16384 100) by (split_and!; vm_compute; congruence). specialize (H 100 Hs).
  assert (Ec : (let '(alloc, _, m) := small_alloc_create_asan toy_start 0 in
    match smalloc_asan m (QuotaLessor 0 0) demo_source alloc 100 with Ok r => Ok (r.1.1.1.1) | _ => Abort end) = Ok 4132) by reflexivity.
  rewrite E in Ec. unfold demo_source in *. destruct (smalloc_asan _ _ _ _ _) as [r| |] eqn:Ea; [|discriminate Ec|discriminate Ec].
  exists alloc, m, r. split_and!; [done|exact Ea|]. injection Ec as ->. done.
Defined.
