(* ===== verification/AsanRegion.v ===== *)
(** * The region of the ASAN build: [region_asan.h], [region_asan.c]

    Every allocation is a chunk of [Asan] with its used size and its alignment
    in the header.  The list of allocations is the list of their headers, newest
    first; a call of a callback is an event as in [Region]. *)
From S2P Require Import Prelude Util Bytes SlabSource SlabCache SlabClient Region Asan.

Section Region.
Context {rt : Type} `{!AsanRt rt}.
Local Abbreviation machine := (machine rt).

(** ** Definitions *)

Definition SMALL_REGION_MIN_RESERVE : Z := 128.

Record region_asan := RegionAsan {
  rga_allocations : list Z;
  rga_used : Z;
  rga_reserved : Z;
  rga_on_alloc_cb : Z;
  rga_on_truncate_cb : Z;
  rga_cb_arg : Z;
  rga_calls : list event;
}.

Definition rga_set (r : region_asan) (l : list Z) (used reserved : Z) : region_asan :=
  RegionAsan l used reserved (rga_on_alloc_cb r) (rga_on_truncate_cb r) (rga_cb_arg r) (rga_calls r).
Definition rga_emit (r : region_asan) (e : event) : region_asan :=
  RegionAsan (rga_allocations r) (rga_used r) (rga_reserved r) (rga_on_alloc_cb r) (rga_on_truncate_cb r)
    (rga_cb_arg r) (rga_calls r ++ [e]).

(** Offsets in [struct region_allocation], behind its link, and its size. *)
Definition off_used : Z := 16.
Definition off_alignment : Z := 24.
Definition sizeof_region_allocation : Z := 32.

Definition region_create_asan : region_asan := RegionAsan [] 0 0 NULL NULL NULL [].
Definition region_set_callbacks_asan (r : region_asan) (on_alloc on_truncate arg : Z) : region_asan :=
  RegionAsan (rga_allocations r) (rga_used r) (rga_reserved r) on_alloc on_truncate arg (rga_calls r).
Definition region_used_asan (r : region_asan) : Z := rga_used r.
Definition region_total_asan (r : region_asan) : Z := region_used_asan r.

Definition call_on_alloc_asan (r : region_asan) (size : Z) : region_asan :=
  if negb (rga_on_alloc_cb r =? NULL) then rga_emit r (OnAlloc (region_used_asan r) size (rga_cb_arg r)) else r.
Definition call_on_truncate_asan (r : region_asan) (used : Z) : region_asan :=
  if negb (rga_on_truncate_cb r =? NULL) then rga_emit r (OnTruncate (region_used_asan r) used (rga_cb_arg r)) else r.

Definition region_prepare_buf (m : machine) (r : region_asan) (size alignment used : Z) :
    result (Z * machine * region_asan) :=
  '(alloc, m) ← small_asan_alloc m size alignment sizeof_region_allocation;
  m ← write_raw m (alloc + off_used) (le_bytes 8 used);
  m ← write_raw m (alloc + off_alignment) (le_bytes 8 alignment);
  let r := rga_set r (alloc :: rga_allocations r) (rga_used r) (rga_reserved r) in
  ptr ← small_asan_payload_from_header m alloc;
  Ok (ptr, m, r).

Definition region_aligned_reserve_asan (m : machine) (r : region_asan) (size alignment : Z) :
    result (Z * machine * region_asan) :=
  CHECK rga_reserved r =? 0;
  let size := if size <? SMALL_REGION_MIN_RESERVE then SMALL_REGION_MIN_RESERVE else size in
  '(ptr, m, r) ← region_prepare_buf m r size alignment 0;
  Ok (ptr, m, rga_set r (rga_allocations r) (rga_used r) size).
Definition region_reserve_asan (m : machine) (r : region_asan) (size : Z) := region_aligned_reserve_asan m r size 1.

(** [rlist_first_entry] of an empty list is not an allocation. *)
Definition region_aligned_alloc_reserved (m : machine) (r : region_asan) (size alignment : Z) :
    result (Z * machine * region_asan) :=
  CHECK size <=? rga_reserved r;
  alloc ← of_option (head (rga_allocations r));
  alloc_alignment ← read_raw m (alloc + off_alignment) 8;
  CHECK alignment =? alloc_alignment;
  let r := call_on_alloc_asan r size in
  payload ← small_asan_payload_from_header m alloc;
  m ← ASAN_POISON_MEMORY_REGION m (payload + size) (rga_reserved r - size);
  alloc_used ← read_raw m (alloc + off_used) 8;
  m ← write_raw m (alloc + off_used) (le_bytes 8 (u64 (alloc_used + size)));
  Ok (payload, m, rga_set r (rga_allocations r) (u64 (rga_used r + size)) 0).

Definition region_aligned_alloc_asan (m : machine) (r : region_asan) (size alignment : Z) :
    result (Z * machine * region_asan) :=
  CHECK size >? 0;
  if negb (rga_reserved r =? 0) then region_aligned_alloc_reserved m r size alignment
  else
    '(ptr, m, r) ← region_prepare_buf m r size alignment size;
    let r := call_on_alloc_asan r size in
    Ok (ptr, m, rga_set r (rga_allocations r) (u64 (rga_used r + size)) (rga_reserved r)).
Definition region_alloc_asan (m : machine) (r : region_asan) (size : Z) := region_aligned_alloc_asan m r size 1.

(** The loop over the allocations: what is left of the list. *)
Fixpoint truncate_loop_asan (m : machine) (l : list Z) (cut_size : Z) : result (machine * list Z) :=
  match l with
  | [] => Ok (m, [])
  | alloc :: rest =>
      if cut_size =? 0 then Ok (m, l)
      else
        alloc_used ← read_raw m (alloc + off_used) 8;
        CHECK alloc_used <=? cut_size;
        m ← small_asan_free m alloc;
        truncate_loop_asan m rest (cut_size - alloc_used)
  end.

Definition region_truncate_asan (m : machine) (r : region_asan) (used : Z) : result (machine * region_asan) :=
  CHECK used <=? rga_used r;
  let cut_size := rga_used r - used in
  '(m, l) ←
    (if negb (rga_reserved r =? 0) then
       match rga_allocations r with
       | [] => Abort
       | alloc :: l => m ← small_asan_free m alloc; Ok (m, l)
       end
     else Ok (m, rga_allocations r));
  '(m, l) ← truncate_loop_asan m l cut_size;
  Ok (m, call_on_truncate_asan (rga_set r l used 0) used).

Definition region_free_asan (m : machine) (r : region_asan) := region_truncate_asan m r 0.
Definition region_destroy_asan (m : machine) (r : region_asan) := region_free_asan m r.
Definition region_reset_asan (m : machine) (r : region_asan) := region_truncate_asan m r 0.

(** [memcpy], which the runtime intercepts to check both ranges. *)
Definition memcpy_checked (m : machine) (dst src n : Z) : result machine :=
  CHECK allocated m dst n && allocated m src n && addressable m dst n && addressable m src n;
  M ← of_option (memcpy (bytes m) dst src n);
  Ok (set_bytes m M).

(** The loop over the allocations from the newest one; behind the last one there
    is no allocation to read. *)
Fixpoint join_loop_asan (m : machine) (ret offset : Z) (l : list Z) : result machine :=
  if offset >? 0 then
    match l with
    | [] => Abort
    | alloc :: l =>
        alloc_used ← read_raw m (alloc + off_used) 8;
        let copy_size := if offset <? alloc_used then offset else alloc_used in
        src ← small_asan_payload_from_header m alloc;
        m ← memcpy_checked m (ret + offset - copy_size) src copy_size;
        join_loop_asan m ret (offset - copy_size) l
    end
  else Ok m.

Definition region_join_asan (m : machine) (r : region_asan) (size : Z) : result (Z * machine * region_asan) :=
  CHECK size <=? rga_used r;
  CHECK rga_reserved r =? 0;
  CHECK size >? 0;
  let old := rga_allocations r in
  '(ret, m, r) ← region_alloc_asan m r size;
  m ← join_loop_asan m ret size old;
  Ok (ret, m, r).

Definition region_alloc_cb_asan (m : machine) (r : region_asan) (size : Z) := region_alloc_asan m r size.
(** The size is also a result. *)
Definition region_reserve_cb_asan (m : machine) (r : region_asan) (size : Z) : result (Z * Z * machine * region_asan) :=
  '(ptr, m, r) ← region_reserve_asan m r size;
  Ok (ptr, rga_reserved r, m, r).
End Region.

(** ** The bytes of a region

    [al] are the allocations with their used sizes, newest first, and [res] the
    reserved one; [others] are the chunks of other allocators. *)
Section Inv.
Context {rt : Type} `{!AsanRt rt} {rt_wf : rt -> Prop} `{!AsanRtLaws rt_wf}.
Local Abbreviation machine := (machine rt).
Local Abbreviation asan_inv := (asan_inv (rt_wf:=rt_wf)).
Local Abbreviation fresh := (fresh (rt_wf:=rt_wf)).

Fixpoint rcontents (m : machine) (al : list (chunk * Z)) : list Z :=
  match al with
  | [] => []
  | (c, u) :: al => rcontents m al ++ load (bytes m) (ck_payload c) u
  end.

(** An allocation of which [u] bytes are used. *)
Definition allocation (m : machine) (c : chunk) (u : Z) : Prop :=
  ck_hsize c = 32 /\ field m c 16 8 u /\ field m c 24 8 (ck_align c) /\ 0 <= u <= ck_size c /\ open m c u.

Record region_asan_inv (m : machine) (r : region_asan) (res : option chunk) (al : list (chunk * Z)) (others : list chunk) : Prop := {
  ra_list : rga_allocations r = ck_header <$> (option_list res ++ al.*1);
  ra_inv : asan_inv m (option_list res ++ al.*1 ++ others);
  ra_res c : res = Some c -> allocation m c 0 /\ open m c (ck_size c) /\ 128 <= ck_size c;
  ra_al c u : (c, u) ∈ al -> allocation m c u /\ 0 < u;
  ra_used : rga_used r = zsum snd al /\ zsum snd al < 2 ^ 64;
  ra_reserved : rga_reserved r = match res with Some c => ck_size c | None => 0 end;
}.

Lemma allocation_same m m' C c u : same_on m m' C -> c ∈ C -> layout c -> allocation m c u -> allocation m' c u.
Proof.
  intros HS Hc L (H1 & H2 & H3 & H4 & H5). split_and!; [done| | |lia|lia|].
  - apply (same_on_field m m' C c 16 8 u HS Hc L); [lia|lia|done].
  - apply (same_on_field m m' C c 24 8 _ HS Hc L); [lia|lia|done].
  - apply (same_on_open m m' C c u HS Hc L); [lia|done].
Qed.

Lemma rcontents_same m m' C al : same_on m m' C -> (forall c u, (c, u) ∈ al -> c ∈ C /\ layout c /\ u <= ck_size c) ->
  rcontents m' al = rcontents m al.
Proof.
  intros HS. induction al as [|[c u] al IH]; intros Hal; [done|]. cbn [rcontents].
  destruct (Hal c u) as (Hc & L & Hu); [left|]. rewrite (same_on_content m m' C c u HS Hc L Hu).
  f_equal. apply IH. intros d v Hd. apply Hal. by right.
Qed.

Lemma zsum_snd_nonneg (al : list (chunk * Z)) : (forall c u, (c, u) ∈ al -> 0 < u) -> 0 <= zsum snd al.
Proof. intros H. apply zsum_nonneg. intros [c u] Hc. specialize (H c u Hc). cbn. lia. Qed.

Lemma rcontents_length m al : (forall c u, (c, u) ∈ al -> 0 < u) -> Z.of_nat (length (rcontents m al)) = zsum snd al.
Proof.
  induction al as [|[c u] al IH]; intros H; [done|]. cbn [rcontents]. rewrite length_app, load_length.
  change (zsum snd ((c, u) :: al)) with (u + zsum snd al). rewrite <- IH by (intros d v Hd; apply (H d v); by right).
  specialize (H c u ltac:(left)). lia.
Qed.

Section One.
Context (m : machine) (r : region_asan) (res : option chunk) (al : list (chunk * Z)) (others : list chunk).
Hypothesis Hr : region_asan_inv m r res al others.

Lemma region_chunk c u : (c, u) ∈ al -> c ∈ option_list res ++ al.*1 ++ others /\ chunk_in m c.
Proof.
  intros Hc. assert (Hin : c ∈ option_list res ++ al.*1 ++ others).
  { rewrite !elem_of_app. right; left. by apply (list_elem_of_fmap_2 fst _ (c, u)). }
  split; [done|]. destruct (ra_inv _ _ _ _ _ Hr) as (_ & _ & _ & HC & HX). by apply HC.
Qed.

Lemma region_sub c u : (c, u) ∈ al -> c ∈ option_list res ++ al.*1 ++ others /\ layout c /\ u <= ck_size c.
Proof.
  intros Hc. destruct (region_chunk c u Hc) as [Hin K]. split_and!; [done|apply K|].
  destruct (ra_al _ _ _ _ _ Hr c u Hc) as [(_ & _ & _ & ? & _) _]. lia.
Qed.
End One.

Lemma region_create_asan_spec m C : asan_inv m C -> region_asan_inv m region_create_asan None [] C.
Proof. intros Hi. split; try done. by intros c u ?%elem_of_nil. Qed.

(** [region_prepare_buf]: a new chunk with its header. *)
Lemma prepare_buf_spec m r C n A u : asan_inv m C -> asan_fits n A 32 ->
  region_prepare_buf m r n A u = Exit \/
  exists c m', region_prepare_buf m r n A u =
      Ok (ck_payload c, m', rga_set r (ck_header c :: rga_allocations r) (rga_used r) (rga_reserved r)) /\
    fresh m m' C c n /\ (ck_size c = n /\ ck_align c = A /\ ck_hsize c = 32) /\ field m' c 16 8 u /\ field m' c 24 8 A.
Proof.
  intros Hi Hf. unfold region_prepare_buf. change sizeof_region_allocation with 32.
  destruct (asan_alloc_fresh m C n A 32 Hi Hf) as [-> |(c & m1 & -> & (Es & Ea & Eh) & F)]; [by left|right]. cbn [mbind result_bind].
  destruct (fresh_write _ _ _ _ _ 16 8 u F) as (m2 & E2 & F2 & HF2 & _); [lia|lia|].
  change off_used with 16. rewrite E2. cbn [mbind result_bind].
  destruct (fresh_write _ _ _ _ _ 24 8 A F2) as (m3 & E3 & F3 & HF3 & Ho); [lia|lia|].
  change off_alignment with 24. rewrite E3. cbn [mbind result_bind]. rewrite (fresh_payload _ _ _ _ _ F3). cbn [mbind result_bind].
  exists c, m3. split_and!; try done. apply Ho; [left; lia|done].
Qed.

Lemma asan_fits_mono n A hs : asan_fits n A hs -> A < 2 ^ 64.
Proof. intros (? & HA & ? & ? & ?). unfold UINT16_MAX in *. lia. Qed.

(** The older allocations after a new chunk. *)
Lemma old_allocations m m' r res al others c n : region_asan_inv m r res al others ->
  fresh m m' (option_list res ++ al.*1 ++ others) c n ->
  (forall d v, (d, v) ∈ al -> allocation m' d v /\ 0 < v) /\ rcontents m' al = rcontents m al.
Proof.
  intros Hr F. split.
  - intros d v Hd. destruct (ra_al _ _ _ _ _ Hr d v Hd) as [Ha Hv]. destruct (region_sub _ _ _ _ _ Hr d v Hd) as (Hin & L & _).
    split; [|done]. by eapply allocation_same; [apply F|..].
  - eapply rcontents_same; [apply F|]. apply (region_sub _ _ _ _ _ Hr).
Qed.

Lemma region_reserve_asan_spec m r al others size A : region_asan_inv m r None al others ->
  asan_fits (Z.max size 128) A 32 ->
  region_aligned_reserve_asan m r size A = Exit \/
  exists c m' r', region_aligned_reserve_asan m r size A = Ok (ck_payload c, m', r') /\
    region_asan_inv m' r' (Some c) al others /\ size <= rga_reserved r' /\ ck_align c = A /\
    open m' c (rga_reserved r') /\ guarded m' c /\ rcontents m' al = rcontents m al /\
    same_on m m' (al.*1 ++ others) /\ rga_calls r' = rga_calls r.
Proof.
  intros Hr Hf. unfold region_aligned_reserve_asan. rewrite (ra_reserved _ _ _ _ _ Hr). cbn [Z.eqb].
  replace (if size <? SMALL_REGION_MIN_RESERVE then SMALL_REGION_MIN_RESERVE else size) with (Z.max size 128)
    by (change SMALL_REGION_MIN_RESERVE with 128; destruct (Z.ltb_spec size 128); lia).
  destruct (prepare_buf_spec m r _ (Z.max size 128) A 0 (ra_inv _ _ _ _ _ Hr) Hf) as [-> |(c & m' & -> & F & (Es & Ea & Eh) & H1 & H2)]; [by left|right].
  cbn [mbind result_bind]. destruct (old_allocations _ _ _ _ _ _ _ _ Hr F) as [Hold Hcon].
  exists c, m'. eexists. split; [done|]. cbn [rga_set rga_reserved rga_calls].
  pose proof (fr_open _ _ _ _ _ F) as HO.
  split_and!; try done; [|lia|apply F|apply F]. split; cbn [rga_set rga_allocations rga_used rga_reserved option_list].
  - rewrite (ra_list _ _ _ _ _ Hr). done.
  - apply F.
  - intros d [= <-]. rewrite <- Ea in H2. rewrite <- Es in HO. split; [|split; [done|lia]]. split_and!; [done..|lia|lia|]. intros x Hx. lia.
  - done.
  - apply Hr.
  - lia.
Qed.

(** What an allocation adds, for the caller. *)
Definition region_added (m m' : machine) (r r' : region_asan) (al : list (chunk * Z)) (others : list chunk) (c : chunk) (size A : Z) : Prop :=
  region_asan_inv m' r' None ((c, size) :: al) others /\
  ck_payload c mod A = 0 /\ ck_payload c mod (2 * A) <> 0 /\ addressable m' (ck_payload c) size = true /\ guarded m' c /\
  rcontents m' al = rcontents m al /\ same_on m m' (al.*1 ++ others) /\
  rga_calls r' = rga_calls r ++ (if rga_on_alloc_cb r =? NULL then [] else [OnAlloc (rga_used r) size (rga_cb_arg r)]).

Lemma call_on_alloc_eq (r : region_asan) size : let r' := call_on_alloc_asan r size in
  rga_allocations r' = rga_allocations r /\ rga_used r' = rga_used r /\ rga_reserved r' = rga_reserved r /\
  rga_calls r' = rga_calls r ++ (if rga_on_alloc_cb r =? NULL then [] else [OnAlloc (rga_used r) size (rga_cb_arg r)]).
Proof. cbv zeta. unfold call_on_alloc_asan. destruct (rga_on_alloc_cb r =? NULL); cbn [negb]; [by rewrite app_nil_r|done]. Qed.

Lemma region_alloc_asan_spec m r al others size A : region_asan_inv m r None al others ->
  0 < size -> asan_fits size A 32 -> zsum snd al + size < 2 ^ 64 ->
  region_aligned_alloc_asan m r size A = Exit \/
  exists c m' r', region_aligned_alloc_asan m r size A = Ok (ck_payload c, m', r') /\ region_added m m' r r' al others c size A.
Proof.
  intros Hr Hs Hf Hsum. unfold region_aligned_alloc_asan. rewrite (proj2 (Z.gtb_lt _ _)) by done.
  rewrite (ra_reserved _ _ _ _ _ Hr). cbn [Z.eqb negb].
  destruct (prepare_buf_spec m r _ size A size (ra_inv _ _ _ _ _ Hr) Hf) as [-> |(c & m' & -> & F & (Es & Ea & Eh) & H1 & H2)]; [by left|right].
  cbn [mbind result_bind]. destruct (old_allocations _ _ _ _ _ _ _ _ Hr F) as [Hold Hcon].
  set (r1 := rga_set r _ _ _). destruct (call_on_alloc_eq r1 size) as (C1 & C2 & C3 & C4).
  exists c, m'. eexists. split; [done|]. destruct (fresh_chunk _ _ _ _ _ F) as [K L]. pose proof (zsum_snd_nonneg al) as H0.
  specialize (H0 (fun d v Hd => proj2 (ra_al _ _ _ _ _ Hr d v Hd))).
  pose proof (fr_open _ _ _ _ _ F) as HO. destruct (ra_used _ _ _ _ _ Hr) as [Eu Hu].
  split_and!.
  - split; cbn [rga_set rga_allocations rga_used rga_reserved option_list app fmap list_fmap fst].
    + rewrite C1. subst r1. cbn [rga_set rga_allocations]. rewrite (ra_list _ _ _ _ _ Hr). done.
    + apply F.
    + done.
    + intros d v [[= -> ->]|Hd]%elem_of_cons; [|by apply Hold]. rewrite <- Ea in H2. split; [|done]. split_and!; [done..|lia|lia|done].
    + rewrite C2. subst r1. cbn [rga_set rga_used]. change (zsum snd ((c, size) :: al)) with (size + zsum snd al). rewrite Eu, u64_small by lia. lia.
    + rewrite C3. subst r1. cbn [rga_set rga_reserved]. apply (ra_reserved _ _ _ _ _ Hr).
  - rewrite <- Ea. apply L.
  - rewrite <- Ea. apply L.
  - by apply addressable_intro.
  - apply F.
  - done.
  - apply F.
  - cbn [rga_set rga_calls]. rewrite C4. done.
Qed.

Lemma chunk_align_range m c : chunk_in m c -> 0 < ck_align c < 2 ^ 64.
Proof.
  intros K. pose proof (k_layout _ _ K) as L. pose proof (pow2_spec_pos _ (l_pow2 c L)). pose proof (l_range c L).
  pose proof (l_size c L). pose proof (l_hsize c L). unfold ck_total in *. lia.
Qed.

(** An allocation that was reserved before. *)
Lemma region_alloc_reserved_spec m r c al others size : region_asan_inv m r (Some c) al others ->
  0 < size <= ck_size c -> zsum snd al + size < 2 ^ 64 -> guarded m c ->
  exists m' r', region_aligned_alloc_asan m r size (ck_align c) = Ok (ck_payload c, m', r') /\
    region_added m m' r r' al others c size (ck_align c).
Proof.
  intros Hr Hs Hsum HG. destruct (ra_res _ _ _ _ _ Hr c eq_refl) as ((Eh & F1 & F2 & _ & _) & HO & H128).
  pose proof (ra_inv _ _ _ _ _ Hr) as Hi. cbn [option_list app] in Hi. pose proof Hi as (_ & _ & Hnd & HC & HX).
  apply NoDup_cons in Hnd as [Hnc _]. pose proof (HC c ltac:(left)) as K. pose proof (k_layout _ _ K) as L.
  pose proof (chunk_align_range m c K) as HA. destruct (ra_used _ _ _ _ _ Hr) as [Eu _].
  pose proof (zsum_snd_nonneg al (fun d v Hd => proj2 (ra_al _ _ _ _ _ Hr d v Hd))) as H0.
  assert (Hc : c ∈ c :: al.*1 ++ others) by left.
  destruct (poison_tail m _ c size Hi Hc ltac:(lia)) as (Ep & Hi1 & HS1 & HO1 & HG1). set (m1 := set_run _ _) in *.
  destruct (write_raw_spec m1 _ c (ck_header c + 16) (le_bytes 8 size) Hi1 Hc) as (Ew & Hi2 & HS2); [rewrite le_bytes_length; left; lia|].
  set (m2 := set_bytes m1 _) in *. destruct (call_on_alloc_eq r size) as (C1 & C2 & C3 & C4).
  assert (Hsub : al.*1 ++ others ⊆ c :: al.*1 ++ others) by (intros d; by right).
  assert (HS : same_on m m2 (al.*1 ++ others)) by (eapply same_on_trans; [by apply HS1|by apply HS2]).
  assert (Hal : forall d v, (d, v) ∈ al -> d ∈ al.*1 ++ others /\ layout d /\ v <= ck_size d).
  { intros d v Hd. destruct (region_sub _ _ _ _ _ Hr d v Hd) as (_ & Ld & Hv). split_and!; [|done..].
    apply elem_of_app. left. by apply (list_elem_of_fmap_2 fst _ (d, v)). }
  exists m2. eexists. split.
  - unfold region_aligned_alloc_asan. rewrite (proj2 (Z.gtb_lt _ _)) by lia. rewrite (ra_reserved _ _ _ _ _ Hr).
    rewrite (proj2 (Z.eqb_neq _ _)) by lia. cbn [negb]. unfold region_aligned_alloc_reserved.
    rewrite (ra_reserved _ _ _ _ _ Hr), (proj2 (Z.leb_le _ _)) by lia.
    replace (head (rga_allocations r)) with (Some (ck_header c)) by (by rewrite (ra_list _ _ _ _ _ Hr)).
    cbn [of_option mbind result_bind].
    change off_alignment with 24. rewrite (read_field m c 24 8 (ck_align c) K); [|lia|lia|done|split; cbn; lia]. cbn [mbind result_bind].
    rewrite Z.eqb_refl, (payload_from_header_spec _ _ K). cbn [mbind result_bind].
    rewrite C3, (ra_reserved _ _ _ _ _ Hr), Ep. cbn [mbind result_bind]. destruct Hi1 as (_ & _ & _ & HC1 & HX1).
    change off_used with 16. rewrite (read_field m1 c 16 8 0 (HC1 c Hc)) by (done || lia). cbn [mbind result_bind].
    change (0 + size) with size. rewrite (u64_small size) by lia. rewrite Ew. cbn [mbind result_bind]. done.
  - split_and!.
    + split; cbn [rga_set rga_allocations rga_used rga_reserved option_list app fmap list_fmap fst].
      * rewrite C1, (ra_list _ _ _ _ _ Hr). done.
      * done.
      * done.
      * intros d v [[= -> ->]|Hd]%elem_of_cons.
        -- split; [|lia]. split_and!; [done|apply field_written| |lia|lia|].
           ++ by apply (field_other m1 c 24 8 _ 16 8 size); [right; lia|].
           ++ apply HO1. intros x Hx. apply HO. lia.
        -- destruct (ra_al _ _ _ _ _ Hr d v Hd) as [Ha Hv]. destruct (Hal d v Hd) as (Hin & Ld & _).
           split; [|done]. by apply (allocation_same m m2 _ d v HS).
      * rewrite C2, Eu. change (zsum snd ((c, size) :: al)) with (size + zsum snd al). rewrite u64_small by lia. lia.
      * done.
    + apply L.
    + apply L.
    + apply addressable_intro. apply HO1. intros x Hx. apply HO. lia.
    + by apply HG1.
    + by apply (rcontents_same m m2 _ al HS).
    + done.
    + cbn [rga_set rga_calls]. exact C4.
Qed.

(** ** Truncation *)

(** The allocations after some of the newest ones, of [k] bytes. *)
Lemma truncate_asan_loop_spec al1 : forall m (al2 : list (chunk * Z)) others j, 0 <= j -> asan_inv m (al1.*1 ++ al2.*1 ++ others) ->
  (forall c u, (c, u) ∈ al1 -> allocation m c u /\ 0 < u) ->
  exists m', truncate_loop_asan m (ck_header <$> (al1.*1 ++ al2.*1)) (zsum snd al1 + j) =
      truncate_loop_asan m' (ck_header <$> al2.*1) j /\
    asan_inv m' (al2.*1 ++ others) /\ same_on m m' (al2.*1 ++ others).
Proof.
  induction al1 as [|[c u] al1 IH]; intros m al2 others j Hj Hi Hal.
  { by exists m. }
  destruct (Hal c u) as [(Eh & F1 & F2 & Hu & HO) Hp]; [left|]. pose proof Hi as (_ & _ & Hnd & HC & HX).
  pose proof (HC c ltac:(left)) as K. pose proof (zsum_snd_nonneg al1) as H0.
  specialize (H0 (fun d v Hd => proj2 (Hal d v ltac:(by right)))).
  change (zsum snd ((c, u) :: al1)) with (u + zsum snd al1).
  cbn [fmap list_fmap app truncate_loop_asan fst]. rewrite (proj2 (Z.eqb_neq _ _)) by lia.
  pose proof (l_range c (k_layout _ _ K)). pose proof (l_hsize c (k_layout _ _ K)). pose proof (l_size c (k_layout _ _ K)).
  pose proof (l_after c (k_layout _ _ K)). pose proof (payload_bounds c (k_layout _ _ K)).
  change off_used with 16. rewrite (read_field m c 16 8 u K); [|lia|lia|done|split; cbn; lia]. cbn [mbind result_bind].
  rewrite (proj2 (Z.leb_le _ _)) by lia.
  destruct (asan_free_spec m [] c _ Hi) as (m1 & -> & Hi1 & HS1 & _). cbn [mbind result_bind app] in *.
  destruct (IH m1 al2 others j Hj Hi1) as (m' & E & Hi' & HS').
  { intros d v Hd. destruct (Hal d v ltac:(by right)) as [Ha Hv]. split; [|done].
    assert (Hin : d ∈ al1.*1 ++ al2.*1 ++ others) by (apply elem_of_app; left; by apply (list_elem_of_fmap_2 fst _ (d, v))).
    eapply allocation_same; [exact HS1|exact Hin|apply (HC d); by right|done]. }
  exists m'. replace (u + zsum snd al1 + j - u) with (zsum snd al1 + j) by lia. split_and!; [done|done|].
  eapply same_on_trans; [|exact HS']. eapply same_on_sub; [exact HS1|]. intros d. rewrite !elem_of_app. tauto.
Qed.

(** A reservation is given up first. *)
Lemma drop_reserved_spec m r res al1 al2 others : region_asan_inv m r res (al1 ++ al2) others ->
  exists m1, (if negb (rga_reserved r =? 0) then
       match rga_allocations r with
       | [] => Abort
       | alloc :: l => m ← small_asan_free m alloc; Ok (m, l)
       end
     else Ok (m, rga_allocations r)) = Ok (m1, ck_header <$> (al1.*1 ++ al2.*1)) /\
     asan_inv m1 (al1.*1 ++ al2.*1 ++ others) /\ same_on m m1 (al1.*1 ++ al2.*1 ++ others) /\
     forall c u, (c, u) ∈ al1 ++ al2 -> allocation m1 c u /\ 0 < u.
Proof.
  intros Hr. assert (Hpre : exists m1, (if negb (rga_reserved r =? 0) then
       match rga_allocations r with
       | [] => Abort
       | alloc :: l => m ← small_asan_free m alloc; Ok (m, l)
       end
     else Ok (m, rga_allocations r)) = Ok (m1, ck_header <$> (al1.*1 ++ al2.*1)) /\
     asan_inv m1 (al1.*1 ++ al2.*1 ++ others) /\ same_on m m1 (al1.*1 ++ al2.*1 ++ others)).
  { pose proof (ra_inv _ _ _ _ _ Hr) as Hi. rewrite (ra_reserved _ _ _ _ _ Hr), (ra_list _ _ _ _ _ Hr), (fmap_app fst al1 al2).
    rewrite (fmap_app fst al1 al2), <- (assoc (++)) in Hi. destruct res as [c|].
    - destruct (ra_res _ _ _ _ _ Hr c eq_refl) as (_ & _ & H128). rewrite (proj2 (Z.eqb_neq _ _)) by lia.
      change (ck_header <$> option_list (Some c) ++ ?l) with (ck_header c :: (ck_header <$> l)). cbn [negb].
      destruct (asan_free_spec m [] c _ Hi) as (m1 & -> & Hi1 & HS1 & _).
      by exists m1.
    - exists m. by split_and!. }
  destruct Hpre as (m1 & Epre & Hi1 & HS1). exists m1. split_and!; [done..|].
  intros c u Hc. destruct (ra_al _ _ _ _ _ Hr c u Hc) as [Ha Hv]. split; [|done]. destruct (region_chunk _ _ _ _ _ Hr c u Hc) as [_ K].
    apply (allocation_same m m1 _ c u HS1); [|apply K|done]. rewrite (assoc (++)), <- fmap_app, elem_of_app. left.
    by apply (list_elem_of_fmap_2 fst _ (c, u)).
Qed.

(** [region_truncate] to the size the region had before the allocations [al1]. *)
Lemma region_truncate_asan_spec m r res al1 al2 others : region_asan_inv m r res (al1 ++ al2) others ->
  exists m' r', region_truncate_asan m r (zsum snd al2) = Ok (m', r') /\ region_asan_inv m' r' None al2 others /\
    rcontents m' al2 = rcontents m al2 /\ same_on m m' (al2.*1 ++ others) /\
    rga_calls r' = rga_calls r ++
      (if rga_on_truncate_cb r =? NULL then [] else [OnTruncate (zsum snd al2) (zsum snd al2) (rga_cb_arg r)]).
Proof.
  intros Hr. destruct (ra_used _ _ _ _ _ Hr) as [Eu Hu]. rewrite zsum_app in Eu, Hu.
  assert (Hpos : forall c u, (c, u) ∈ al1 ++ al2 -> 0 < u) by (intros c u Hc; apply (ra_al _ _ _ _ _ Hr c u Hc)).
  pose proof (zsum_snd_nonneg al1 (fun d v Hd => Hpos d v ltac:(apply elem_of_app; by left))) as H1.
  destruct (drop_reserved_spec m r res al1 al2 others Hr) as (m1 & Epre & Hi1 & HS1 & Hall).
  destruct (truncate_asan_loop_spec al1 m1 al2 others 0 ltac:(lia) Hi1) as (m' & E & Hi' & HS'); [intros c u Hc; apply Hall, elem_of_app; by left|].
  assert (HS : same_on m m' (al2.*1 ++ others)).
  { eapply same_on_trans; [|exact HS']. eapply same_on_sub; [exact HS1|]. intros d. rewrite !elem_of_app. tauto. }
  unfold region_truncate_asan. rewrite (proj2 (Z.leb_le _ _)) by lia. rewrite Epre. cbn [mbind result_bind].
  replace (rga_used r - zsum snd al2) with (zsum snd al1 + 0) by lia. rewrite E.
  replace (truncate_loop_asan m' (ck_header <$> al2.*1) 0) with (Ok (m', ck_header <$> al2.*1)) by (by destruct (ck_header <$> al2.*1)).
  cbn [mbind result_bind].
  do 2 eexists. split; [done|]. set (r1 := rga_set r _ _ _).
  assert (Ec : let r2 := call_on_truncate_asan r1 (zsum snd al2) in
    rga_allocations r2 = rga_allocations r1 /\ rga_used r2 = rga_used r1 /\ rga_reserved r2 = rga_reserved r1 /\
    rga_calls r2 = rga_calls r ++ (if rga_on_truncate_cb r =? NULL then [] else [OnTruncate (zsum snd al2) (zsum snd al2) (rga_cb_arg r)])).
  { cbv zeta. unfold call_on_truncate_asan. subst r1. cbn [rga_set rga_on_truncate_cb].
    destruct (rga_on_truncate_cb r =? NULL); cbn [negb]; [by rewrite app_nil_r|done]. }
  destruct Ec as (C1 & C2 & C3 & C4). split_and!; [split| | |exact C4].
  - rewrite C1. done.
  - done.
  - done.
  - intros c u Hc. destruct (Hall c u) as [Ha Hv]; [apply elem_of_app; by right|]. split; [|done].
    assert (Hin : c ∈ al2.*1 ++ others) by (apply elem_of_app; left; by apply (list_elem_of_fmap_2 fst _ (c, u))).
    apply (allocation_same m1 m' _ c u HS' Hin); [apply (asan_chunks _ _ Hi' c Hin)|done].
  - rewrite C2. subst r1. cbn [rga_set rga_used]. lia.
  - rewrite C3. done.
  - apply (rcontents_same m m' _ al2 HS). intros c u Hc.
    destruct (region_sub _ _ _ _ _ Hr c u) as (_ & L & Hle); [apply elem_of_app; by right|]. split_and!; [|done..].
    apply elem_of_app. left. by apply (list_elem_of_fmap_2 fst _ (c, u)).
  - done.
Qed.

(** Into the middle of an allocation it does not go. *)
Lemma region_truncate_asan_middle m r res al1 c u al2 others k : region_asan_inv m r res (al1 ++ (c, u) :: al2) others ->
  0 < k < u -> region_truncate_asan m r (zsum snd al2 + k) = Abort.
Proof.
  intros Hr Hk. destruct (drop_reserved_spec m r res al1 ((c, u) :: al2) others Hr) as (m1 & Epre & Hi1 & _ & Hall).
  destruct (ra_used _ _ _ _ _ Hr) as [Eu _]. rewrite zsum_app in Eu. change (zsum snd ((c, u) :: al2)) with (u + zsum snd al2) in Eu.
  pose proof (zsum_snd_nonneg al1 (fun d v Hd => proj2 (ra_al _ _ _ _ _ Hr d v ltac:(apply elem_of_app; by left)))) as H1.
  destruct (truncate_asan_loop_spec al1 m1 ((c, u) :: al2) others (u - k) ltac:(lia) Hi1) as (m' & E & Hi' & HS');
    [intros d v Hd; apply Hall, elem_of_app; by left|].
  unfold region_truncate_asan. rewrite (proj2 (Z.leb_le _ _)) by lia. rewrite Epre. cbn [mbind result_bind].
  replace (rga_used r - (zsum snd al2 + k)) with (zsum snd al1 + (u - k)) by lia. rewrite E.
  cbn [fmap list_fmap truncate_loop_asan fst]. rewrite (proj2 (Z.eqb_neq _ _)) by lia.
  pose proof Hi' as (_ & _ & _ & HC & HX). pose proof (HC c ltac:(left)) as K. pose proof (k_layout _ _ K) as L.
  assert (Hin : c ∈ ((c, u) :: al2).*1 ++ others) by left.
  destruct (Hall c u) as [Ha _]; [apply elem_of_app; right; left|].
  destruct (allocation_same m1 m' _ c u HS' Hin L Ha) as (Eh & F1 & _ & Hu & _).
  pose proof (l_range c L). pose proof (l_after c L). pose proof (payload_bounds c L). pose proof (l_hsize c L).
  change off_used with 16. rewrite (read_field m' c 16 8 u K); [|lia|lia|done|split; cbn; lia]. cbn [mbind result_bind].
  by rewrite (proj2 (Z.leb_gt _ _)) by lia.
Qed.

(** ** Joining *)

Lemma payloads_apart m c d i n : rt_wf (run m) -> chunk_in m c -> chunk_in m d -> ck_header c <> ck_header d ->
  0 <= i -> i + n <= ck_size c -> n <= ck_size d ->
  n <= 0 \/ ck_payload c + i + n <= ck_payload d \/ ck_payload d + n <= ck_payload c + i.
Proof.
  intros W Kc Kd Hne Hi Hn Hd. destruct (decide (n <= 0)); [by left|].
  destruct (decide (ck_payload c + i + n <= ck_payload d \/ ck_payload d + n <= ck_payload c + i)) as [|Hov]; [by right|].
  exfalso. apply Hne. apply (chunks_apart m c d (Z.max (ck_payload c + i) (ck_payload d)) W Kc Kd);
    pose proof (payload_bounds c (k_layout _ _ Kc)); pose proof (payload_bounds d (k_layout _ _ Kd));
    pose proof (l_after c (k_layout _ _ Kc)); pose proof (l_after d (k_layout _ _ Kd));
    pose proof (l_hsize c (k_layout _ _ Kc)); pose proof (l_hsize d (k_layout _ _ Kd)); unfold in_block, ck_alloc in *; lia.
Qed.

(** One copy: the first [n] bytes of [c] to the offset [i] of [c0]. *)
Lemma join_copy_asan m c0 c C size u i n : asan_inv m (c0 :: C) -> c ∈ C -> allocation m c u -> open m c0 size ->
  size <= ck_size c0 -> 0 <= i -> 0 <= n -> i + n <= size -> n <= u ->
  let m1 := set_bytes m (memmove (bytes m) (ck_payload c0 + i) (ck_payload c) n) in
  memcpy_checked m (ck_payload c0 + i) (ck_payload c) n = Ok m1 /\ asan_inv m1 (c0 :: C) /\ same_on m m1 C.
Proof.
  intros Hi Hc (Eh & _ & _ & Hu & HO) HO0 Hs H0 Hn Hin Hnu m1. pose proof Hi as (W & _ & Hnd & HC & HX).
  apply NoDup_cons in Hnd as [Hnc _]. pose proof (HC c0 ltac:(left)) as K0. pose proof (HC c ltac:(by right)) as K.
  assert (Hne : ck_header c0 <> ck_header c) by (intros E; apply Hnc; rewrite E; by apply list_elem_of_fmap_2).
  destruct (writable_in_block c0 (ck_payload c0 + i) n (k_layout _ _ K0)) as [A1 A2]; [right; lia|].
  destruct (writable_in_block c (ck_payload c) n (k_layout _ _ K)) as [A3 A4]; [right; lia|]. split.
  - unfold memcpy_checked. rewrite (allocated_chunk m c0), (allocated_chunk m c) by done.
    rewrite !addressable_intro; [|intros x Hx; apply HO; lia|intros x Hx; apply HO0; lia]. cbn [andb].
    rewrite memcpy_apart; [done|]. apply (payloads_apart m c0 c i n W K0 K Hne); lia.
  - destruct (chunk_write_inv m (c0 :: C) c0 (memmove (bytes m) (ck_payload c0 + i) (ck_payload c) n) (ck_payload c0 + i) n Hi
      ltac:(left) (memmove_outside _ _ _ _)) as [Hi1 HS1]; [right; lia|]. split; [done|]. apply HS1; [intros d; by right|done].
Qed.

Lemma join_loop_step m ret offset (al : list (chunk * Z)) c u : chunk_in m c -> allocation m c u -> 0 < offset ->
  join_loop_asan m ret offset (ck_header <$> ((c, u) :: al).*1) =
  (m1 ← memcpy_checked m (ret + offset - Z.min offset u) (ck_payload c) (Z.min offset u);
   join_loop_asan m1 ret (offset - Z.min offset u) (ck_header <$> al.*1)).
Proof.
  intros K (Eh & F1 & _ & Hu & _) Ho. pose proof (k_layout _ _ K) as L. pose proof (l_range c L). pose proof (l_after c L).
  pose proof (payload_bounds c L). pose proof (l_hsize c L).
  cbn [fmap list_fmap fst join_loop_asan]. rewrite (proj2 (Z.gtb_lt _ _)) by done.
  change off_used with 16. rewrite (read_field m c 16 8 u K); [|lia|lia|done|split; cbn; lia]. cbn [mbind result_bind].
  rewrite (payload_from_header_spec _ _ K). cbn [mbind result_bind].
  replace (if offset <? u then offset else u) with (Z.min offset u) by (destruct (Z.ltb_spec offset u); lia). done.
Qed.

(** The loop copies the allocations [al1] and the first [k] bytes of the next. *)
Lemma join_loop_asan_spec c0 size others c u al2 k al1 : forall m, 0 < k <= u ->
  asan_inv m (c0 :: (al1 ++ (c, u) :: al2).*1 ++ others) -> open m c0 size -> size <= ck_size c0 ->
  (forall d v, (d, v) ∈ al1 ++ (c, u) :: al2 -> allocation m d v /\ 0 < v) -> zsum snd al1 + k <= size ->
  exists M, join_loop_asan m (ck_payload c0) (zsum snd al1 + k) (ck_header <$> (al1 ++ (c, u) :: al2).*1) = Ok (set_bytes m M) /\
    same_outside (bytes m) M (ck_payload c0) (zsum snd al1 + k) /\
    load M (ck_payload c0) (zsum snd al1 + k) = load (bytes m) (ck_payload c) k ++ rcontents m al1.
Proof.
  revert others. induction al1 as [|[d v] al1 IH]; intros others m Hk Hi HO Hs Hal Hsz; pose proof Hi as (W & _ & _ & HC & HX).
  - assert (Hin : c ∈ ((c, u) :: al2).*1 ++ others) by left. destruct (Hal c u) as [Ha _]; [left|].
    change ([] ++ ?l) with l in *. change (zsum snd [] + k) with k in *.
    rewrite (join_loop_step _ _ _ _ c u (HC c ltac:(by right)) Ha) by lia. rewrite Z.min_l, Z.sub_diag by lia.
    destruct (join_copy_asan m c0 c _ size u 0 k Hi Hin Ha HO Hs) as (E & _ & _); [lia..|]. rewrite Z.add_0_r in E.
    replace (ck_payload c0 + k - k) with (ck_payload c0) by lia. rewrite E. cbn [mbind result_bind].
    eexists. split; [by destruct (ck_header <$> al2.*1)|]. split; [apply memmove_outside|]. cbn [rcontents]. rewrite app_nil_r. apply load_memmove.
  - assert (Hin : d ∈ (((d, v) :: al1) ++ (c, u) :: al2).*1 ++ others) by left. destruct (Hal d v) as [Ha Hv]; [left|].
    pose proof (zsum_snd_nonneg al1 (fun e w He => proj2 (Hal e w ltac:(right; apply elem_of_app; by left)))) as H0.
    change (zsum snd ((d, v) :: al1)) with (v + zsum snd al1) in *.
    change (((d, v) :: al1) ++ (c, u) :: al2) with ((d, v) :: (al1 ++ (c, u) :: al2)) in *.
    rewrite (join_loop_step _ _ _ _ d v (HC d ltac:(by right)) Ha) by lia. rewrite Z.min_r by lia.
    set (i := zsum snd al1 + k) in *. replace (v + zsum snd al1 + k) with (i + v) in * by lia.
    replace (ck_payload c0 + (i + v) - v) with (ck_payload c0 + i) by lia. replace (i + v - v) with i by lia.
    destruct (join_copy_asan m c0 d _ size v i v Hi Hin Ha HO Hs) as (E & Hi1 & HS1); [lia..|]. rewrite E. cbn [mbind result_bind].
    set (m1 := set_bytes m _) in *. pose proof (memmove_outside (bytes m) (ck_payload c0 + i) (ck_payload d) v) as Hout.
    assert (Hsub : forall e w, (e, w) ∈ al1 ++ (c, u) :: al2 -> e ∈ ((d, v) :: al1 ++ (c, u) :: al2).*1 ++ others /\ layout e).
    { intros e w He. assert (Hine : e ∈ ((d, v) :: al1 ++ (c, u) :: al2).*1 ++ others).
      { apply elem_of_app. left. apply (list_elem_of_fmap_2 fst _ (e, w)). by right. }
      split; [done|]. apply (HC e). by right. }
    assert (Hal1 : forall e w, (e, w) ∈ al1 ++ (c, u) :: al2 -> allocation m1 e w /\ 0 < w).
    { intros e w He. destruct (Hal e w ltac:(by right)) as [Hae Hw]. destruct (Hsub e w He) as [Hine Le].
      split; [|done]. by apply (allocation_same m m1 _ e w HS1). }
    assert (Hi1' : asan_inv m1 (c0 :: (al1 ++ (c, u) :: al2).*1 ++ d :: others)).
    { eapply asan_inv_perm; [|exact Hi1]. apply Permutation_skip. cbn. apply Permutation_middle. }
    destruct (IH (d :: others) m1 Hk Hi1' HO Hs Hal1 ltac:(lia)) as (M & E1 & Ho1 & El).
    exists M. split; [exact E1|]. split.
    + intros x Hx. rewrite (Ho1 x) by lia. apply Hout. lia.
    + rewrite load_app by lia. rewrite El. cbn [rcontents]. rewrite (app_assoc _ _ (load (bytes m) (ck_payload d) v)). f_equal; [f_equal|].
      * destruct (Hsub c u) as [Hinc Lc]; [apply elem_of_app; right; left|]. apply (same_on_content m m1 _ c k HS1 Hinc Lc).
        destruct (Hal c u) as [(_ & _ & _ & Hu & _) _]; [right; apply elem_of_app; right; left|]. lia.
      * apply (rcontents_same m m1 _ al1 HS1). intros e w He. destruct (Hsub e w) as [Hine Le]; [apply elem_of_app; by left|].
        split_and!; [done..|]. destruct (Hal e w) as [(_ & _ & _ & Hw & _) _]; [right; apply elem_of_app; by left|]. lia.
      * rewrite (load_same _ _ _ _ _ _ Ho1) by lia. apply load_memmove.
Qed.

(** Writing to an allocation. *)
Lemma region_write_spec m r res al others c u M a n : region_asan_inv m r res al others -> (c, u) ∈ al ->
  same_outside (bytes m) M a n -> ck_payload c <= a -> a + n <= ck_payload c + u ->
  region_asan_inv (set_bytes m M) r res al others /\
  forall D, D ⊆ option_list res ++ al.*1 ++ others -> ck_header c ∉ (ck_header <$> D) -> same_on m (set_bytes m M) D.
Proof.
  intros Hr Hc HM H1 H2. destruct (region_sub _ _ _ _ _ Hr c u Hc) as (Hin & L & Hu).
  destruct (chunk_write_inv m _ c M a n (ra_inv _ _ _ _ _ Hr) Hin HM) as [Hi' HS]; [right; lia|]. split; [|done].
  pose proof (ra_inv _ _ _ _ _ Hr) as (W & _ & Hnd & HC & HX). pose proof (HC c Hin) as Kc.
  pose proof (payload_bounds c L) as P. pose proof (l_after c L). pose proof (l_hsize c L).
  assert (Ha : forall d v, d ∈ option_list res ++ al.*1 ++ others -> allocation m d v -> allocation (set_bytes m M) d v).
  { intros d v Hd (E & F1 & F2 & Hv & HO). pose proof (HC d Hd) as K. pose proof (payload_bounds d (k_layout _ _ K)) as Pd.
    pose proof (l_after d (k_layout _ _ K)).
    assert (Hh : forall x, ck_header d <= x < ck_header d + 32 -> M x = bytes m x).
    { intros x Hx. apply HM. intros Hx'. destruct (decide (ck_header d = ck_header c)) as [Ed|Ed].
      - assert (d = c) as -> by (by apply (nodup_inj ck_header _ d c Hnd)). lia.
      - apply Ed. apply (chunks_apart m d c x W K Kc); unfold in_block, ck_alloc in *; lia. }
    split_and!; [done| | |lia|lia|done].
    - unfold field. rewrite <- F1. apply load_ext. intros x Hx. apply Hh. lia.
    - unfold field. rewrite <- F2. apply load_ext. intros x Hx. apply Hh. lia. }
  destruct Hr as [R1 R2 R3 R4 R5 R6]. split; try done.
  - intros d Hd. destruct (R3 d Hd) as (G1 & G2 & G3). split_and!; [|done..]. apply Ha; [|done]. subst res. left.
  - intros d v Hd. destruct (R4 d v Hd) as [G1 G2]. split; [|done]. apply Ha; [|done].
    rewrite !elem_of_app. right; left. by apply (list_elem_of_fmap_2 fst _ (d, v)).
Qed.

Lemma region_join_asan_spec m r al1 c u al2 others k : let al := al1 ++ (c, u) :: al2 in let size := zsum snd al1 + k in
  region_asan_inv m r None al others -> 0 < k <= u -> asan_fits size 1 32 -> zsum snd al + size < 2 ^ 64 ->
  region_join_asan m r size = Exit \/
  exists c0 m' r', region_join_asan m r size = Ok (ck_payload c0, m', r') /\
    region_asan_inv m' r' None ((c0, size) :: al) others /\ rcontents m' al = rcontents m al /\
    same_on m m' (al.*1 ++ others) /\
    load (bytes m') (ck_payload c0) size = load (bytes m) (ck_payload c) k ++ rcontents m al1.
Proof.
  intros al size Hr Hk Hf Hsum. destruct (ra_used _ _ _ _ _ Hr) as [Eu Hu].
  assert (Hpos : forall d v, (d, v) ∈ al -> 0 < v) by (intros d v Hd; apply (ra_al _ _ _ _ _ Hr d v Hd)).
  assert (Hle : size <= zsum snd al /\ 0 < size).
  { pose proof (zsum_snd_nonneg al1 (fun d v Hd => Hpos d v ltac:(apply elem_of_app; by left))).
    pose proof (zsum_snd_nonneg al2 (fun d v Hd => Hpos d v ltac:(apply elem_of_app; right; by right))).
    subst al size. rewrite zsum_app. change (zsum snd ((c, u) :: al2)) with (u + zsum snd al2). lia. }
  unfold region_join_asan. rewrite Eu, (ra_reserved _ _ _ _ _ Hr), (proj2 (Z.leb_le _ _)), (proj2 (Z.gtb_lt _ _)) by lia. cbn [Z.eqb].
  rewrite (ra_list _ _ _ _ _ Hr). change (option_list None ++ al.*1) with al.*1. unfold region_alloc_asan.
  destruct (region_alloc_asan_spec m r al others size 1 Hr) as [-> |(c0 & m1 & r1 & -> & Hr1 & _ & _ & Hadr & _ & Hcon & HS1 & _)]; [lia|done|lia|by left|right].
  cbn [mbind result_bind]. destruct (ra_al _ _ _ _ _ Hr1 c0 size) as [(_ & _ & _ & Hsz & HO) _]; [left|].
  destruct (join_loop_asan_spec c0 size others c u al2 k al1 m1 Hk) as (M & E & Hout & El).
  { apply (ra_inv _ _ _ _ _ Hr1). } { done. } { lia. } { intros d v Hd. apply (ra_al _ _ _ _ _ Hr1). by right. } { done. }
  fold al in E. fold size in E, Hout, El. rewrite E. cbn [mbind result_bind].
  destruct (region_write_spec m1 r1 None _ others c0 size M _ _ Hr1 ltac:(left) Hout) as [Hr2 HS2]; [lia|lia|].
  assert (HSs : same_on m1 (set_bytes m1 M) (al.*1 ++ others)).
  { apply HS2; [intros d; by right|]. by destruct (ra_inv _ _ _ _ _ Hr1) as (_ & _ & [Hn _]%NoDup_cons & _). }
  assert (Hin : forall d v, (d, v) ∈ al -> d ∈ al.*1 ++ others /\ layout d /\ v <= ck_size d).
  { intros d v Hd. by destruct (region_sub _ _ _ _ _ Hr d v Hd) as (G1 & G2 & G3). }
  exists c0, (set_bytes m1 M), r1. split_and!; [done|done| |by eapply same_on_trans|].
  - rewrite <- Hcon. by apply (rcontents_same m1 _ _ al HSs).
  - cbn [set_bytes bytes]. rewrite El. f_equal.
    + destruct (Hin c u) as (Hinc & Lc & Huc); [apply elem_of_app; right; left|].
      apply (same_on_content m m1 _ c k HS1 Hinc Lc). lia.
    + apply (rcontents_same m m1 _ al1 HS1). intros d v Hd. apply Hin. apply elem_of_app. by left.
Qed.
End Inv.

(** ** Claims *)
Section Claims.
Context {rt : Type} `{!AsanRt rt} {rt_wf : rt -> Prop} `{!AsanRtLaws rt_wf}.
Local Abbreviation region_asan_inv := (region_asan_inv (rt_wf:=rt_wf)).
Local Abbreviation region_added := (region_added (rt_wf:=rt_wf)).

Lemma rcontents_app (m : machine rt) al1 al2 : rcontents m (al1 ++ al2) = rcontents m al2 ++ rcontents m al1.
Proof.
  induction al1 as [|[c u] al1 IH]; [by rewrite app_nil_r|]. cbn [app rcontents]. by rewrite IH, (assoc (++)).
Qed.

(** C30. The region of the ASAN build is a stack of bytes: an allocation puts
    bytes on it, at an address that is aligned as asked and not better, with
    guards, also when they were reserved before, and the callback sees the usage
    before it; truncation to a size between allocations leaves the bytes below
    it, gives up a reservation and calls back, and truncation into an allocation
    aborts; a join of whole allocations returns the bytes allocated last in one
    piece.  Nothing else changes, and the process ends only for want of memory. *)
Theorem region_asan_correct (m : machine rt) r res al others : region_asan_inv m r res al others ->
  (forall size A, res = None -> 0 < size -> asan_fits size A 32 -> zsum snd al + size < 2 ^ 64 ->
     match region_aligned_alloc_asan m r size A with
     | Abort => False
     | Exit => True
     | Ok (p, m', r') => exists c, ck_payload c = p /\ region_added m m' r r' al others c size A
     end) /\
  (forall c size, res = Some c -> 0 < size <= rga_reserved r -> zsum snd al + size < 2 ^ 64 -> guarded m c ->
     exists m' r', region_aligned_alloc_asan m r size (ck_align c) = Ok (ck_payload c, m', r') /\
       region_added m m' r r' al others c size (ck_align c)) /\
  (forall al1 al2, al = al1 ++ al2 ->
     exists m' r', region_truncate_asan m r (zsum snd al2) = Ok (m', r') /\ region_asan_inv m' r' None al2 others /\
       rcontents m' al2 = take (Z.to_nat (zsum snd al2)) (rcontents m al) /\ same_on m m' (al2.*1 ++ others) /\
       rga_calls r' = rga_calls r ++
         (if rga_on_truncate_cb r =? NULL then [] else [OnTruncate (zsum snd al2) (zsum snd al2) (rga_cb_arg r)])) /\
  (forall al1 c u al2 k, al = al1 ++ (c, u) :: al2 -> 0 < k < u -> region_truncate_asan m r (zsum snd al2 + k) = Abort) /\
  (forall al1 al2, al = al1 ++ al2 -> al1 <> [] -> res = None -> asan_fits (zsum snd al1) 1 32 ->
     zsum snd al + zsum snd al1 < 2 ^ 64 ->
     match region_join_asan m r (zsum snd al1) with
     | Abort => False
     | Exit => True
     | Ok (p, m', r') => exists c, ck_payload c = p /\ region_asan_inv m' r' None ((c, zsum snd al1) :: al) others /\
         load (bytes m') p (zsum snd al1) = drop (Z.to_nat (zsum snd al2)) (rcontents m al) /\
         rcontents m' al = rcontents m al /\ same_on m m' (al.*1 ++ others)
     end).
Proof.
  intros Hr. assert (Hpos : forall c u, (c, u) ∈ al -> 0 < u) by (intros c u Hc; apply (ra_al _ _ _ _ _ Hr c u Hc)).
  split_and!.
  - intros size A -> Hs Hf Hsum. destruct (region_alloc_asan_spec m r al others size A Hr Hs Hf Hsum) as [-> |(c & m' & r' & -> & H)]; [done|].
    by exists c.
  - intros c size -> Hs Hsum HG. rewrite (ra_reserved _ _ _ _ _ Hr) in Hs. by apply region_alloc_reserved_spec.
  - intros al1 al2 ->. destruct (region_truncate_asan_spec m r res al1 al2 others Hr) as (m' & r' & E & Hr' & Hc & HS & Hcalls).
    exists m', r'. split_and!; try done. rewrite Hc, rcontents_app, take_app_length'; [done|].
    rewrite <- (rcontents_length m) by (intros c u Hcu; apply (Hpos c u), elem_of_app; by right). lia.
  - intros al1 c u al2 k -> Hk. by apply (region_truncate_asan_middle (rt_wf:=rt_wf) m r res al1 c u al2 others k).
  - intros al1 al2 -> Hne -> Hf Hsum. destruct al1 as [|[c u] al1 _] using rev_ind; [done|]. clear Hne.
    assert (Ez : zsum snd (al1 ++ [(c, u)]) = zsum snd al1 + u) by (rewrite zsum_app; cbn [zsum foldr snd]; lia).
    rewrite Ez in *. pose proof (Hpos c u ltac:(rewrite !elem_of_app; left; right; left)) as Hu.
    assert (Eal : (al1 ++ [(c, u)]) ++ al2 = al1 ++ (c, u) :: al2) by (by rewrite <- (assoc (++))). rewrite Eal in *.
    destruct (region_join_asan_spec m r al1 c u al2 others u Hr ltac:(lia) Hf Hsum)
      as [-> |(c0 & m' & r' & -> & Hr' & Hcon & HS & Hl)]; [done|]. exists c0. split_and!; try done.
    rewrite Hl, rcontents_app. cbn [rcontents]. rewrite <- (assoc (++)), drop_app_length'; [done|].
    rewrite <- (rcontents_length m) by (intros d v Hd; apply (Hpos d v); rewrite elem_of_app; right; by right). lia.
Qed.
End Claims.

(** *** A join that is not of whole allocations *)
Section Middle.
Context {rt : Type} `{!AsanRt rt} {rt_wf : rt -> Prop} `{!AsanRtLaws rt_wf}.

(** C31. In the ASAN build [region_join] of a size that ends inside an allocation,
    [k] of its [u] bytes, returns the first [k] bytes of that allocation before
    the newer ones; they are the bytes allocated last only if the first [k] and
    the last [k] bytes of the allocation happen to be the same. *)
Theorem region_join_asan_middle (m : machine rt) r al1 c u al2 others k :
  let al := al1 ++ (c, u) :: al2 in let size := zsum snd al1 + k in let block := load (bytes m) (ck_payload c) u in
  region_asan_inv (rt_wf:=rt_wf) m r None al others -> 0 < k < u -> asan_fits size 1 32 -> zsum snd al + size < 2 ^ 64 ->
  match region_join_asan m r size with
  | Abort => False
  | Exit => True
  | Ok (p, m', _) =>
      load (bytes m') p size = take (Z.to_nat k) block ++ rcontents m al1 /\
      (load (bytes m') p size = drop (length (rcontents m al) - Z.to_nat size) (rcontents m al) <->
       take (Z.to_nat k) block = drop (Z.to_nat (u - k)) block)
  end.
Proof.
  intros al size block Hr Hk Hf Hsum.
  destruct (region_join_asan_spec m r al1 c u al2 others k Hr ltac:(lia) Hf Hsum) as [E|(c0 & m' & r' & E & _ & _ & _ & Hl)];
    fold size in E; rewrite E; [done|]. fold size in Hl. rewrite (load_take (bytes m) (ck_payload c) u k) in Hl by lia. fold block in Hl.
  split; [done|]. rewrite Hl.
  assert (Hpos : forall d v, (d, v) ∈ al -> 0 < v) by (intros d v Hd; apply (ra_al _ _ _ _ _ Hr d v Hd)).
  pose proof (rcontents_length m al1 (fun d v Hd => Hpos d v ltac:(apply elem_of_app; by left))) as L1.
  pose proof (rcontents_length m al2 (fun d v Hd => Hpos d v ltac:(apply elem_of_app; right; by right))) as L2.
  assert (Lb : length block = Z.to_nat u) by apply load_length.
  assert (Ec : rcontents m al = rcontents m al2 ++ block ++ rcontents m al1).
  { subst al. rewrite rcontents_app. cbn [rcontents]. by rewrite <- (assoc (++)). }
  assert (Ed : drop (length (rcontents m al) - Z.to_nat size) (rcontents m al) = drop (Z.to_nat (u - k)) block ++ rcontents m al1).
  { rewrite Ec, !length_app, Lb. subst size.
    replace (length (rcontents m al2) + (Z.to_nat u + length (rcontents m al1)) - Z.to_nat (zsum snd al1 + k))%nat
      with (length (rcontents m al2) + Z.to_nat (u - k))%nat by lia.
    rewrite <- drop_drop, drop_app_length, drop_app_le; [done|]. rewrite Lb. lia. }
  rewrite Ed. split; [apply app_inv_tail|by intros ->].
Qed.
End Middle.

(** Four bytes are allocated and written, then the last two are joined: of 1, 2,
    3, 4 the join is 1, 2. *)
Definition join_demo : result (list Z * list Z) :=
  '(p, m, r) ← region_alloc_asan toy_start region_create_asan 4;
  m ← write_checked m p [1; 2; 3; 4];
  '(q, m, r) ← region_join_asan m r 2;
  Ok (load (bytes m) q 2, load (bytes m) (p + 2) 2).

Example join_demo_first_bytes : join_demo = Ok ([1; 2], [3; 4]).
Proof. reflexivity. Qed.

(** ** Witnesses *)
Lemma region_asan_correct_witness : exists m' r', region_aligned_alloc_asan toy_start region_create_asan 10 2 = Ok (4146, m', r') /\
  addressable m' 4146 10 = true.
Proof.
  assert (Hr : region_asan_inv (rt_wf:=toy_wf) toy_start region_create_asan None [] []) by (apply region_create_asan_spec, toy_start_inv).
  destruct (region_asan_correct toy_start region_create_asan None [] [] Hr) as (H & _).
  assert (Hf : asan_fits 10 2 32) by (split_and!; [lia|by exists 1|lia|done|done]).
  specialize (H 10 2 eq_refl ltac:(lia) Hf ltac:(done)).
  assert (Ec : match region_aligned_alloc_asan toy_start region_create_asan 10 2 with Ok (p, _, _) => Ok p | _ => Abort end = Ok 4146) by reflexivity.
  destruct (region_aligned_alloc_asan toy_start region_create_asan 10 2) as [[[p m'] r']| |]; [|discriminate Ec|discriminate Ec].
  exists m', r'. injection Ec as ->. destruct H as (c & Ep & _ & _ & _ & Ha & _). rewrite Ep in Ha. by split.
Defined.

Lemma region_join_asan_middle_witness : exists p m r, region_alloc_asan toy_start region_create_asan 4 = Ok (p, m, r) /\
  match region_join_asan m r 2 with Ok (q, m', _) => load (bytes m') q 2 = take 2 (load (bytes m) p 4) ++ [] | _ => True end.
Proof.
  assert (Hr : region_asan_inv (rt_wf:=toy_wf) toy_start region_create_asan None [] []) by (apply region_create_asan_spec, toy_start_inv).
  assert (Hf : forall n, 0 <= n < 100 -> asan_fits n 1 32) by (intros n Hn; split_and!; [lia|by exists 0|lia|done|lia]).
  destruct (region_alloc_asan_spec toy_start region_create_asan [] [] 4 1 Hr ltac:(lia) (Hf 4 ltac:(lia)) ltac:(done)) as [E|(c & m & r & E & Hr1 & _)].
  - assert (Ec : match region_aligned_alloc_asan toy_start region_create_asan 4 1 with Ok _ => Ok tt | _ => Abort end = Ok tt) by reflexivity.
    rewrite E in Ec. discriminate Ec.
  - exists (ck_payload c), m, r. split; [exact E|].
    pose proof (region_join_asan_middle m r [] c 4 [] [] 2 Hr1 ltac:(lia) (Hf 2 ltac:(lia)) ltac:(done)) as H. cbv zeta in H.
    change (zsum snd [] + 2) with 2 in H. destruct (region_join_asan m r 2) as [[[q m'] r']| |]; [|done..]. apply H.
Defined.
