(* ===== verification/AsanLsregion.v ===== *)
(** * The log-structured region of the ASAN build: [lsregion_asan.h],
    [lsregion_asan.c]

    Every allocation is a chunk of [Asan] whose header has its size, its used
    size, its identifier and its alignment.  The list of allocations is the list
    of their headers, oldest first. *)
From S2P Require Import Prelude Util Bytes SlabSource SlabCache Lsregion Asan.

Section Lsregion.
Context {rt : Type} `{!AsanRt rt}.
Local Abbreviation machine := (machine rt).

(** ** Definitions *)

Record lsregion_asan := LsregionAsan { lsa_allocations : list Z; lsa_used : Z }.

(** Offsets in [struct lsregion_allocation], behind its link, and its size. *)
Definition off_size : Z := 16.
Definition off_alloc_used : Z := 24.
Definition off_id : Z := 32.
Definition off_align : Z := 40.
Definition sizeof_lsregion_allocation : Z := 48.

(** An [int64_t] in memory. *)
Definition s64 (x : Z) : Z := if x <? 2 ^ 63 then x else x - 2 ^ 64.
Definition read_id (m : machine) (alloc : Z) : result Z :=
  x ← read_raw m (alloc + off_id) 8; Ok (s64 x).

Definition lsregion_create_asan : lsregion_asan := LsregionAsan [] 0.

Definition lsregion_reserved_alloc (m : machine) (l : lsregion_asan) : result Z :=
  match last (lsa_allocations l) with
  | Some alloc =>
      id ← read_id m alloc;
      Ok (if id =? LSLAB_NOT_USED_ID then alloc else NULL)
  | None => Ok NULL
  end.

Definition lsregion_prepare_buf (m : machine) (l : lsregion_asan) (size alignment : Z) :
    result (Z * machine * lsregion_asan) :=
  '(alloc, m) ← small_asan_alloc m size alignment sizeof_lsregion_allocation;
  m ← write_raw m (alloc + off_size) (le_bytes 8 size);
  m ← write_raw m (alloc + off_alloc_used) (le_bytes 8 0);
  m ← write_raw m (alloc + off_id) (le_bytes 8 LSLAB_NOT_USED_ID);
  m ← write_raw m (alloc + off_align) (le_bytes 8 alignment);
  Ok (alloc, m, LsregionAsan (lsa_allocations l ++ [alloc]) (lsa_used l)).

Definition lsregion_aligned_reserve_asan (m : machine) (l : lsregion_asan) (size alignment : Z) :
    result (Z * machine * lsregion_asan) :=
  reserved ← lsregion_reserved_alloc m l;
  CHECK reserved =? NULL;
  '(alloc, m, l) ← lsregion_prepare_buf m l size alignment;
  p ← small_asan_payload_from_header m alloc;
  Ok (p, m, l).
Definition lsregion_reserve_asan (m : machine) (l : lsregion_asan) (size : Z) := lsregion_aligned_reserve_asan m l size 1.

Definition lsregion_aligned_alloc_asan (m : machine) (l : lsregion_asan) (size alignment id : Z) :
    result (Z * machine * lsregion_asan) :=
  alloc ← lsregion_reserved_alloc m l;
  '(alloc, m, l) ← (if alloc =? NULL then lsregion_prepare_buf m l size alignment else Ok (alloc, m, l));
  alloc_size ← read_raw m (alloc + off_size) 8;
  alloc_alignment ← read_raw m (alloc + off_align) 8;
  CHECK (alloc_size >=? size) && (alloc_alignment =? alignment);
  m ← write_raw m (alloc + off_alloc_used) (le_bytes 8 size);
  m ← write_raw m (alloc + off_id) (le_bytes 8 id);
  let l := LsregionAsan (lsa_allocations l) (u64 (lsa_used l + size)) in
  payload ← small_asan_payload_from_header m alloc;
  m ← ASAN_POISON_MEMORY_REGION m (payload + size) (alloc_size - size);
  p ← small_asan_payload_from_header m alloc;
  Ok (p, m, l).
Definition lsregion_alloc_asan (m : machine) (l : lsregion_asan) (size id : Z) := lsregion_aligned_alloc_asan m l size 1 id.

(** The loop of [lsregion_gc]: what is left of the list and of [used]. *)
Fixpoint gc_loop_asan (m : machine) (l : list Z) (used min_id : Z) : result (machine * lsregion_asan) :=
  match l with
  | [] => Ok (m, LsregionAsan [] used)
  | alloc :: rest =>
      id ← read_id m alloc;
      if id >? min_id then Ok (m, LsregionAsan l used)
      else
        alloc_used ← read_raw m (alloc + off_alloc_used) 8;
        CHECK used >=? alloc_used;
        m ← small_asan_free m alloc;
        gc_loop_asan m rest (used - alloc_used) min_id
  end.
Definition lsregion_gc_asan (m : machine) (l : lsregion_asan) (min_id : Z) : result (machine * lsregion_asan) :=
  gc_loop_asan m (lsa_allocations l) (lsa_used l) min_id.
Definition lsregion_destroy_asan (m : machine) (l : lsregion_asan) := lsregion_gc_asan m l INT64_MAX.

(** The loop of [lsregion_to_iovec], with the room left in the vector. *)
Fixpoint iovec_loop_asan (m : machine) (l : list Z) (room prev_id : Z) (svp : lsregion_svp) (max_alloc_id : Z) :
    result (list (Z * Z) * lsregion_svp * Z) :=
  match l with
  | [] => Ok ([], svp, max_alloc_id)
  | alloc :: l =>
      id ← read_id m alloc;
      if id <=? prev_id then iovec_loop_asan m l room prev_id svp max_alloc_id
      else if room <=? 0 then Ok ([], svp, max_alloc_id)
      else
        base ← small_asan_payload_from_header m alloc;
        len ← read_raw m (alloc + off_alloc_used) 8;
        size ← read_raw m (alloc + off_size) 8;
        '(iov, svp, max_alloc_id) ←
          iovec_loop_asan m l (room - 1) prev_id (LsregionSvp id (u64 (svp_pos svp + size))) id;
        Ok ((base, len) :: iov, svp, max_alloc_id)
  end.
Definition lsregion_to_iovec_asan (m : machine) (l : lsregion_asan) (max_iovcnt : Z) (svp : lsregion_svp) :
    result (list (Z * Z) * lsregion_svp * Z) :=
  iovec_loop_asan m (lsa_allocations l) max_iovcnt (svp_slab_id svp) svp LSLAB_NOT_USED_ID.

Definition lsregion_used_asan (l : lsregion_asan) : Z := lsa_used l.
Definition lsregion_total_asan (l : lsregion_asan) : Z := lsa_used l.
End Lsregion.

(** ** The log

    [al] are the allocations with their used sizes and identifiers, oldest first,
    and [res] the reserved one behind them. *)
Section Inv.
Context {rt : Type} `{!AsanRt rt} {rt_wf : rt -> Prop} `{!AsanRtLaws rt_wf}.
Local Abbreviation machine := (machine rt).
Local Abbreviation asan_inv := (asan_inv (rt_wf:=rt_wf)).
Local Abbreviation fresh := (Asan.fresh (rt_wf:=rt_wf)).

Record entry := Entry { e_chunk : chunk; e_used : Z; e_id : Z }.

Definition ls_allocation (m : machine) (e : entry) : Prop :=
  let c := e_chunk e in
  ck_hsize c = 48 /\ field m c 16 8 (ck_size c) /\ field m c 24 8 (e_used e) /\ field m c 32 8 (e_id e) /\
  field m c 40 8 (ck_align c) /\ 0 <= e_used e <= ck_size c /\ -1 <= e_id e < 2 ^ 63 /\ open m c (e_used e).

(** The reservation as an entry. *)
Definition reservation (res : option chunk) : list entry := (fun c => Entry c 0 (-1)) <$> option_list res.

Record lsregion_asan_inv (m : machine) (l : lsregion_asan) (al : list entry) (res : option chunk) (others : list chunk) : Prop := {
  li_list : lsa_allocations l = (fun e => ck_header (e_chunk e)) <$> (al ++ reservation res);
  li_inv : asan_inv m ((e_chunk <$> (al ++ reservation res)) ++ others);
  li_al e : e ∈ al ++ reservation res -> ls_allocation m e;
  li_ids e : e ∈ al -> 0 <= e_id e;
  li_res c : res = Some c -> open m c (ck_size c);
  li_used : lsa_used l = zsum e_used al /\ zsum e_used al < 2 ^ 64;
}.

Lemma ls_allocation_same m m' C e : same_on m m' C -> e_chunk e ∈ C -> layout (e_chunk e) -> ls_allocation m e -> ls_allocation m' e.
Proof.
  intros HS Hc L (H1 & H2 & H3 & H4 & H5 & H6 & H7 & H8). split_and!; [done| | | | |lia|lia|lia|lia|];
    try (eapply same_on_field; [exact HS|done|done|lia|lia|done]).
  eapply same_on_open; [exact HS|done|done|lia|done].
Qed.

Lemma s64_of id : -(2 ^ 63) <= id < 2 ^ 63 -> s64 (id mod 2 ^ 64) = id.
Proof. intros Hid. unfold s64. consts. destruct (Z.ltb_spec (id mod 18446744073709551616) (2 ^ 63)); Z.to_euclidean_division_equations; lia. Qed.

(** Reading the header of an allocation. *)
Lemma ls_reads m e : chunk_in m (e_chunk e) -> ls_allocation m e ->
  read_raw m (ck_header (e_chunk e) + 16) 8 = Ok (ck_size (e_chunk e)) /\
  read_raw m (ck_header (e_chunk e) + 24) 8 = Ok (e_used e) /\
  read_id m (ck_header (e_chunk e)) = Ok (e_id e) /\
  read_raw m (ck_header (e_chunk e) + 40) 8 = Ok (ck_align (e_chunk e)).
Proof.
  intros K (H1 & H2 & H3 & H4 & H5 & H6 & H7 & _). pose proof (k_layout _ _ K) as L. pose proof (l_range _ L). pose proof (l_after _ L).
  pose proof (payload_bounds _ L). pose proof (l_hsize _ L). pose proof (l_size _ L). pose proof (pow2_spec_pos _ (l_pow2 _ L)).
  unfold ck_total in *. split_and!.
  - apply read_field; [done|lia|lia|done|split; cbn; lia].
  - apply read_field; [done|lia|lia|done|split; cbn; lia].
  - unfold read_id. change off_id with 32. unfold read_raw. destruct (writable_in_block _ (ck_header (e_chunk e) + 32) 8 L) as [G1 G2]; [left; lia|].
    rewrite (allocated_chunk m (e_chunk e)) by done. rewrite H4, le_val_bytes. cbn [mbind result_bind].
    change (256 ^ Z.of_nat 8) with (2 ^ 64). by rewrite s64_of by lia.
  - apply read_field; [done|lia|lia|done|split; cbn; lia].
Qed.

Lemma lsregion_create_asan_spec m C : asan_inv m C -> lsregion_asan_inv m lsregion_create_asan [] None C.
Proof. intros Hi. split; try done; by intros e ?%elem_of_nil. Qed.

Section One.
Context (m : machine) (l : lsregion_asan) (al : list entry) (res : option chunk) (others : list chunk).
Hypothesis Hl : lsregion_asan_inv m l al res others.

Lemma ls_chunk e : e ∈ al ++ reservation res -> e_chunk e ∈ (e_chunk <$> (al ++ reservation res)) ++ others /\ chunk_in m (e_chunk e).
Proof.
  intros He. assert (Hin : e_chunk e ∈ (e_chunk <$> (al ++ reservation res)) ++ others).
  { apply elem_of_app. left. by apply list_elem_of_fmap_2. }
  split; [done|]. destruct (li_inv _ _ _ _ _ Hl) as (_ & _ & _ & HC & HX). by apply HC.
Qed.

End One.

(** A reservation is the allocation with no identifier at the end. *)
Lemma reserved_alloc_spec m l al res others : lsregion_asan_inv m l al res others ->
  lsregion_reserved_alloc m l = Ok (match res with Some c => ck_header c | None => NULL end).
Proof.
  intros Hl. unfold lsregion_reserved_alloc. rewrite (li_list _ _ _ _ _ Hl).
  assert (Hread : forall e, e ∈ al ++ reservation res -> read_id m (ck_header (e_chunk e)) = Ok (e_id e)).
  { intros e He. apply (ls_reads m _ (proj2 (ls_chunk _ _ _ _ _ Hl e He)) (li_al _ _ _ _ _ Hl e He)). }
  destruct res as [c|].
  - rewrite fmap_app, last_app. change (last (_ <$> reservation (Some c))) with (Some (ck_header c)).
    assert (He : Entry c 0 (-1) ∈ al ++ reservation (Some c)) by (apply elem_of_app; right; left).
    apply Hread in He. cbn [e_chunk e_id] in He. cbv iota. by rewrite He.
  - pose proof (li_ids _ _ _ _ _ Hl) as Hids. clear Hl. change (reservation None) with (@nil entry) in *. rewrite app_nil_r in *.
    destruct al as [|e al' _] using rev_ind; [done|]. rewrite fmap_app, last_app. cbn [fmap list_fmap last].
    assert (He : e ∈ al' ++ [e]) by (apply elem_of_app; right; left). rewrite (Hread e He). cbn [mbind result_bind].
    specialize (Hids e He). change LSLAB_NOT_USED_ID with (-1). by rewrite (proj2 (Z.eqb_neq _ _)) by lia.
Qed.

(** [lsregion_prepare_buf]: a new chunk with its header. *)
Lemma ls_prepare_buf_spec m l C n A : asan_inv m C -> asan_fits n A 48 ->
  lsregion_prepare_buf m l n A = Exit \/
  exists c m', lsregion_prepare_buf m l n A =
      Ok (ck_header c, m', LsregionAsan (lsa_allocations l ++ [ck_header c]) (lsa_used l)) /\
    fresh m m' C c n /\ (ck_size c = n /\ ck_align c = A /\ ck_hsize c = 48) /\ ls_allocation m' (Entry c 0 (-1)).
Proof.
  intros Hi Hf. unfold lsregion_prepare_buf. change sizeof_lsregion_allocation with 48.
  destruct (asan_alloc_fresh m C n A 48 Hi Hf) as [-> |(c & m1 & -> & (Es & Ea & Eh) & F1)]; [by left|right]. cbn [mbind result_bind].
  change off_size with 16. change off_alloc_used with 24. change off_id with 32. change off_align with 40. change LSLAB_NOT_USED_ID with (-1).
  destruct (fresh_write _ _ _ _ _ 16 8 n F1) as (m2 & E2 & F2 & G2 & _); [lia|lia|]. rewrite E2. cbn [mbind result_bind].
  destruct (fresh_write _ _ _ _ _ 24 8 0 F2) as (m3 & E3 & F3 & G3 & O3); [lia|lia|]. rewrite E3. cbn [mbind result_bind].
  destruct (fresh_write _ _ _ _ _ 32 8 (-1) F3) as (m4 & E4 & F4 & G4 & O4); [lia|lia|]. rewrite E4. cbn [mbind result_bind].
  destruct (fresh_write _ _ _ _ _ 40 8 A F4) as (m5 & E5 & F5 & G5 & O5); [lia|lia|]. rewrite E5. cbn [mbind result_bind].
  exists c, m5. split; [done|]. split; [done|]. split; [done|]. destruct Hf as (H0 & _).
  split_and!; cbn [e_chunk e_used e_id]; [done| | | | |lia|lia|lia|lia|].
  - rewrite Es. apply O5; [left; lia|]. apply O4; [left; lia|]. apply O3; [left; lia|done].
  - apply O5; [left; lia|]. apply O4; [left; lia|done].
  - apply O5; [left; lia|done].
  - by rewrite Ea.
  - intros x Hx. lia.
Qed.

(** The log after a new chunk: as a reservation. *)
Lemma ls_prepared m m' l al others c : lsregion_asan_inv m l al None others ->
  fresh m m' ((e_chunk <$> (al ++ reservation None)) ++ others) c (ck_size c) -> ls_allocation m' (Entry c 0 (-1)) ->
  lsregion_asan_inv m' (LsregionAsan (lsa_allocations l ++ [ck_header c]) (lsa_used l)) al (Some c) others /\
  same_on m m' ((e_chunk <$> al) ++ others).
Proof.
  intros Hl F Ha. change (reservation None) with (@nil entry) in *. rewrite app_nil_r in *. split; [|apply F].
  pose proof (li_list _ _ _ _ _ Hl) as Ell. change (reservation None) with (@nil entry) in Ell. rewrite app_nil_r in Ell.
  split; cbn [lsa_allocations lsa_used].
  - rewrite Ell, !fmap_app. done.
  - eapply asan_inv_perm; [|apply F]. rewrite fmap_app, <- (assoc (++)). change (e_chunk <$> reservation (Some c)) with [c]. apply Permutation_middle.
  - intros e [He|He]%elem_of_app.
    + assert (He' : e ∈ al ++ reservation None) by (apply elem_of_app; by left).
      destruct (ls_chunk _ _ _ _ _ Hl e He') as [_ K].
      eapply (ls_allocation_same m m'); [apply F| |apply K|by apply (li_al _ _ _ _ _ Hl)].
      apply elem_of_app. left. by apply list_elem_of_fmap_2.
    + by apply list_elem_of_singleton in He as ->.
  - apply Hl.
  - intros d [= <-]. apply F.
  - apply Hl.
Qed.

Lemma lsregion_reserve_asan_spec m l al others size A : lsregion_asan_inv m l al None others -> asan_fits size A 48 ->
  lsregion_aligned_reserve_asan m l size A = Exit \/
  exists c m' l', lsregion_aligned_reserve_asan m l size A = Ok (ck_payload c, m', l') /\
    lsregion_asan_inv m' l' al (Some c) others /\ ck_size c = size /\ ck_align c = A /\ guarded m' c /\
    addressable m' (ck_payload c) size = true /\ same_on m m' ((e_chunk <$> al) ++ others).
Proof.
  intros Hl Hf. unfold lsregion_aligned_reserve_asan. rewrite (reserved_alloc_spec _ _ _ _ _ Hl). cbn [mbind result_bind Z.eqb].
  destruct (ls_prepare_buf_spec m l _ size A (li_inv _ _ _ _ _ Hl) Hf) as [-> |(c & m' & -> & F & (Es & Ea & Eh) & Ha)]; [by left|right].
  cbn [mbind result_bind]. rewrite (fresh_payload _ _ _ _ _ F). cbn [mbind result_bind].
  pose proof F as F'. rewrite <- Es in F'. destruct (ls_prepared _ _ _ _ _ _ Hl F' Ha) as [Hl' HS].
  exists c, m'. eexists. split; [done|]. split_and!; try done; [apply F|]. apply addressable_intro, F.
Qed.

(** A double reservation is refused. *)
Lemma ls_reserve_twice m l al others c size A : lsregion_asan_inv m l al (Some c) others ->
  lsregion_aligned_reserve_asan m l size A = Abort.
Proof.
  intros Hl. unfold lsregion_aligned_reserve_asan. rewrite (reserved_alloc_spec _ _ _ _ _ Hl). cbn [mbind result_bind].
  assert (K : chunk_in m c) by (apply (ls_chunk _ _ _ _ _ Hl (Entry c 0 (-1))); apply elem_of_app; right; left).
  pose proof (payload_bounds c (k_layout _ _ K)). by rewrite (proj2 (Z.eqb_neq _ _)) by lia.
Qed.

(** A chunk of the log apart from the others. *)
Lemma ls_reserved_parts m l al c others : lsregion_asan_inv m l al (Some c) others ->
  asan_inv m (c :: (e_chunk <$> al) ++ others) /\ ck_header c ∉ (ck_header <$> ((e_chunk <$> al) ++ others)) /\ chunk_in m c.
Proof.
  intros Hl. assert (Hi : asan_inv m (c :: (e_chunk <$> al) ++ others)).
  { eapply asan_inv_perm; [|apply Hl]. rewrite fmap_app, <- (assoc (++)). change (e_chunk <$> reservation (Some c)) with [c].
    symmetry. apply Permutation_middle. }
  split; [done|]. destruct Hi as (_ & _ & [Hn _]%NoDup_cons & HC & HX). split; [done|]. apply HC. left.
Qed.

Lemma ls_commit_spec m l al c others size id : lsregion_asan_inv m l al (Some c) others -> guarded m c ->
  0 <= size <= ck_size c -> 0 <= id < 2 ^ 63 -> zsum e_used al + size < 2 ^ 64 ->
  exists m' l', lsregion_aligned_alloc_asan m l size (ck_align c) id = Ok (ck_payload c, m', l') /\
    lsregion_asan_inv m' l' (al ++ [Entry c size id]) None others /\ guarded m' c /\
    addressable m' (ck_payload c) size = true /\ same_on m m' ((e_chunk <$> al) ++ others).
Proof.
  intros Hl HG Hs Hid Hsum. destruct (ls_reserved_parts _ _ _ _ _ Hl) as (Hi & Hnc & K).
  assert (Hr : Entry c 0 (-1) ∈ al ++ reservation (Some c)) by (apply elem_of_app; right; left).
  pose proof (li_al _ _ _ _ _ Hl _ Hr) as Ha. destruct (ls_reads m (Entry c 0 (-1)) K Ha) as (R1 & _ & _ & R4). cbn [e_chunk] in R1, R4.
  destruct Ha as (Eh & F1 & F2 & F3 & F4 & _). cbn [e_chunk e_used e_id] in *. pose proof (li_res _ _ _ _ _ Hl c eq_refl) as HO.
  set (D := (e_chunk <$> al) ++ others) in *. assert (HD : D ⊆ c :: D) by (intros d; by right). assert (Hc : c ∈ c :: D) by left.
  destruct (write_raw_spec m (c :: D) c (ck_header c + 24) (le_bytes 8 size) Hi Hc) as (E1 & Hi1 & S1); [rewrite le_bytes_length; left; lia|].
  set (m1 := set_bytes m _) in *.
  destruct (write_raw_spec m1 (c :: D) c (ck_header c + 32) (le_bytes 8 id) Hi1 Hc) as (E2 & Hi2 & S2); [rewrite le_bytes_length; left; lia|].
  set (m2 := set_bytes m1 _) in *. assert (K2 : chunk_in m2 c) by (apply Hi2; left).
  destruct (poison_tail m2 (c :: D) c size Hi2 Hc Hs) as (E3 & Hi3 & S3 & O3 & G3). set (m3 := set_run m2 _) in *.
  assert (K3 : chunk_in m3 c) by (apply Hi3; left).
  assert (HS : same_on m m3 D) by (eapply same_on_trans; [by apply S1|]; eapply same_on_trans; [by apply S2|by apply S3]).
  assert (HO3 : open m3 c size) by (apply O3; intros x Hx; apply HO; lia).
  exists m3. eexists. split; [|split_and!].
  - unfold lsregion_aligned_alloc_asan. rewrite (reserved_alloc_spec _ _ _ _ _ Hl). cbn [mbind result_bind].
    pose proof (payload_bounds c (k_layout _ _ K)). rewrite (proj2 (Z.eqb_neq (ck_header c) NULL)) by lia. cbn [mbind result_bind].
    change off_size with 16. change off_align with 40. change off_alloc_used with 24. change off_id with 32.
    rewrite R1. cbn [mbind result_bind]. rewrite R4. cbn [mbind result_bind].
    rewrite (proj2 (Z.geb_le _ _)), Z.eqb_refl by lia. cbn [andb]. rewrite E1. cbn [mbind result_bind]. rewrite E2. cbn [mbind result_bind].
    rewrite (payload_from_header_spec _ _ K2). cbn [mbind result_bind]. rewrite E3. cbn [mbind result_bind].
    by rewrite (payload_from_header_spec _ _ K3).
  - change (reservation None) with (@nil entry). split; cbn [lsa_allocations lsa_used]; change (reservation None) with (@nil entry); rewrite ?app_nil_r.
    + rewrite (li_list _ _ _ _ _ Hl), !fmap_app. done.
    + eapply asan_inv_perm; [|exact Hi3]. rewrite fmap_app, <- (assoc (++)). cbn [fmap list_fmap e_chunk app]. apply Permutation_middle.
    + intros e [He|He]%elem_of_app.
      * assert (He' : e ∈ al ++ reservation (Some c)) by (apply elem_of_app; by left). destruct (ls_chunk _ _ _ _ _ Hl e He') as [_ Ke].
        apply (ls_allocation_same m m3 D e HS); [|apply Ke|by apply (li_al _ _ _ _ _ Hl)]. apply elem_of_app. left. by apply list_elem_of_fmap_2.
      * apply list_elem_of_singleton in He as ->. split_and!; cbn [e_chunk e_used e_id]; [done| | | | |lia|lia|lia|lia|done].
        -- apply (field_other m1 c 16 8 _ 32 8 id); [left; lia|]. by apply (field_other m c 16 8 _ 24 8 size); [left; lia|].
        -- apply (field_other m1 c 24 8 _ 32 8 id); [left; lia|]. apply field_written.
        -- apply field_written.
        -- apply (field_other m1 c 40 8 _ 32 8 id); [right; lia|]. by apply (field_other m c 40 8 _ 24 8 size); [right; lia|].
    + intros e [He|He]%elem_of_app; [by apply (li_ids _ _ _ _ _ Hl)|]. apply list_elem_of_singleton in He as ->. cbn. lia.
    + done.
    + destruct (li_used _ _ _ _ _ Hl) as [Eu Hu]. pose proof (zsum_nonneg e_used al) as H0.
      assert (H1 : 0 <= zsum e_used al).
      { apply H0. intros e He. apply (li_al _ _ _ _ _ Hl e). apply elem_of_app. by left. }
      rewrite Eu, zsum_app. change (zsum e_used [Entry c size id]) with (size + 0). rewrite u64_small by lia. lia.
  - apply G3. exact HG.
  - by apply addressable_intro.
  - done.
Qed.

Lemma lsregion_alloc_asan_spec m l al others size A id : lsregion_asan_inv m l al None others -> asan_fits size A 48 ->
  0 <= id < 2 ^ 63 -> zsum e_used al + size < 2 ^ 64 ->
  lsregion_aligned_alloc_asan m l size A id = Exit \/
  exists c m' l', lsregion_aligned_alloc_asan m l size A id = Ok (ck_payload c, m', l') /\ ck_size c = size /\ ck_align c = A /\
    lsregion_asan_inv m' l' (al ++ [Entry c size id]) None others /\ guarded m' c /\
    addressable m' (ck_payload c) size = true /\ same_on m m' ((e_chunk <$> al) ++ others).
Proof.
  intros Hl Hf Hid Hsum. unfold lsregion_aligned_alloc_asan. rewrite (reserved_alloc_spec _ _ _ _ _ Hl). cbn [mbind result_bind Z.eqb].
  destruct (ls_prepare_buf_spec m l _ size A (li_inv _ _ _ _ _ Hl) Hf) as [-> |(c & m1 & -> & F & (Es & Ea & Eh) & Ha)]; [by left|right].
  pose proof F as F'. rewrite <- Es in F'. destruct (ls_prepared _ _ _ _ _ _ Hl F' Ha) as [Hl1 HS1]. destruct Hf as (H0 & _).
  destruct (ls_commit_spec m1 _ al c others size id Hl1 (fr_guarded _ _ _ _ _ F)) as (m' & l' & E & Hl' & HG & Had & HS); [lia|done|done|].
  exists c, m', l'. split_and!; try done; [|by eapply same_on_trans].
  rewrite <- E, Ea. unfold lsregion_aligned_alloc_asan at 1. rewrite (reserved_alloc_spec _ _ _ _ _ Hl1). cbn [mbind result_bind].
  pose proof (payload_bounds c (proj2 (fresh_chunk _ _ _ _ _ F))). pose proof (l_hsize c (proj2 (fresh_chunk _ _ _ _ _ F))).
  by rewrite (proj2 (Z.eqb_neq (ck_header c) NULL)) by lia.
Qed.

(** ** Collection *)
Definition headers (es : list entry) : list Z := (fun e => ck_header (e_chunk e)) <$> es.

Lemma gc_loop_asan_spec es1 : forall m es2 others used min_id, asan_inv m ((e_chunk <$> (es1 ++ es2)) ++ others) ->
  (forall e, e ∈ es1 -> ls_allocation m e /\ e_id e <= min_id) -> zsum e_used es1 <= used ->
  exists m', gc_loop_asan m (headers (es1 ++ es2)) used min_id = gc_loop_asan m' (headers es2) (used - zsum e_used es1) min_id /\
    asan_inv m' ((e_chunk <$> es2) ++ others) /\ same_on m m' ((e_chunk <$> es2) ++ others).
Proof.
  induction es1 as [|e es1 IH]; intros m es2 others used min_id Hi He Hu.
  { exists m. cbn [app zsum foldr]. rewrite Z.sub_0_r. done. }
  destruct (He e) as [Ha Hid]; [left|]. pose proof Hi as (_ & _ & _ & HC & HX). pose proof (HC (e_chunk e) ltac:(left)) as K.
  destruct (ls_reads m e K Ha) as (_ & R2 & R3 & _). change (zsum e_used (e :: es1)) with (e_used e + zsum e_used es1) in *.
  assert (H0 : 0 <= zsum e_used es1).
  { apply zsum_nonneg. intros d Hd. apply (He d). by right. }
  unfold headers. cbn [app fmap list_fmap gc_loop_asan]. rewrite R3. cbn [mbind result_bind].
  destruct (Z.gtb_spec (e_id e) min_id); [lia|]. change off_alloc_used with 24. rewrite R2. cbn [mbind result_bind].
  rewrite (proj2 (Z.geb_le _ _)) by lia.
  assert (Hi0 : asan_inv m ([] ++ e_chunk e :: (e_chunk <$> es1 ++ es2) ++ others)) by exact Hi.
  destruct (asan_free_spec m [] (e_chunk e) _ Hi0) as (m1 & -> & Hi1 & HS1 & _).
  cbn [mbind result_bind]. change ([] ++ ?L) with L in *.
  destruct (IH m1 es2 others (used - e_used e) min_id Hi1) as (m' & E & Hi' & HS').
  { intros d Hd. destruct (He d) as [Had Hd']; [by right|]. split; [|done].
    assert (Hin : e_chunk d ∈ (e_chunk <$> es1 ++ es2) ++ others).
    { apply elem_of_app. left. apply list_elem_of_fmap_2, elem_of_app. by left. }
    eapply ls_allocation_same; [exact HS1|exact Hin|apply (HC (e_chunk d)); by right|done]. }
  { lia. }
  exists m'. unfold headers in E. rewrite E. replace (used - e_used e - zsum e_used es1) with (used - (e_used e + zsum e_used es1)) by lia.
  split_and!; [done|done|]. eapply same_on_trans; [|exact HS']. eapply same_on_sub; [exact HS1|].
  intros d. rewrite fmap_app, !elem_of_app. tauto.
Qed.

(** [lsregion_gc] frees the oldest allocations up to the first one that is newer
    than [min_id]; without one it also frees a reservation. *)
Lemma lsregion_gc_asan_spec m l al1 al2 res others min_id : lsregion_asan_inv m l (al1 ++ al2) res others -> -1 <= min_id ->
  (forall e, e ∈ al1 -> e_id e <= min_id) -> (forall e, head al2 = Some e -> min_id < e_id e) ->
  exists m' l', lsregion_gc_asan m l min_id = Ok (m', l') /\
    lsregion_asan_inv m' l' al2 (match al2 with [] => None | _ => res end) others /\ same_on m m' ((e_chunk <$> al2) ++ others).
Proof.
  intros Hl Hmin H1 H2. destruct (li_used _ _ _ _ _ Hl) as [Eu Hu]. rewrite zsum_app in Eu, Hu.
  assert (Hal : forall e, e ∈ (al1 ++ al2) ++ reservation res -> ls_allocation m e) by apply (li_al _ _ _ _ _ Hl).
  assert (Hnn : forall es, (forall e, e ∈ es -> e ∈ al1 ++ al2) -> 0 <= zsum e_used es).
  { intros es Hes. apply zsum_nonneg. intros e He. apply (Hal e). apply elem_of_app. left. by apply Hes. }
  pose proof (Hnn al2 ltac:(intros e He; apply elem_of_app; by right)) as Hn2.
  pose proof (Hnn al1 ltac:(intros e He; apply elem_of_app; by left)) as Hn1.
  set (gone := al1 ++ match al2 with [] => reservation res | _ => [] end).
  set (kept := match al2 with [] => [] | _ => al2 ++ reservation res end).
  assert (Es : (al1 ++ al2) ++ reservation res = gone ++ kept).
  { subst gone kept. rewrite <- (assoc (++)). destruct al2; [by rewrite !app_nil_r|by rewrite app_nil_r]. }
  assert (Ez : zsum e_used gone = zsum e_used al1).
  { subst gone. rewrite zsum_app. destruct al2; [|cbn [zsum foldr]; lia]. destruct res; cbn; lia. }
  pose proof (li_inv _ _ _ _ _ Hl) as Hi. rewrite Es in Hi.
  destruct (gc_loop_asan_spec gone m kept others (lsa_used l) min_id Hi) as (m' & E & Hi' & HS).
  { intros e He. split; [apply Hal; rewrite Es; apply elem_of_app; by left|]. subst gone. apply elem_of_app in He as [He|He]; [by apply H1|].
    destruct al2; [|by apply elem_of_nil in He]. destruct res; [|by apply elem_of_nil in He]. apply list_elem_of_singleton in He as ->. cbn. lia. }
  { lia. }
  assert (Ek : gc_loop_asan m' (headers kept) (zsum e_used al2) min_id = Ok (m', LsregionAsan (headers kept) (zsum e_used al2))).
  { subst kept. destruct al2 as [|e al2]; [done|]. unfold headers. cbn [app fmap list_fmap gc_loop_asan].
    assert (Hin : e_chunk e ∈ (e_chunk <$> (e :: al2) ++ reservation res) ++ others) by left.
    pose proof (asan_chunks _ _ Hi' _ Hin) as K.
    destruct (ls_reads m' e K) as (_ & _ & -> & _); [|cbn [mbind result_bind]; specialize (H2 e eq_refl); by rewrite (proj2 (Z.gtb_lt _ _))].
    apply (ls_allocation_same m m' _ e HS Hin); [apply K|]. apply Hal. rewrite elem_of_app. left. apply elem_of_app. right. left. }
  assert (Ekept : kept = al2 ++ reservation (match al2 with [] => None | _ => res end)) by (subst kept; by destruct al2).
  exists m'. eexists. split.
  - unfold lsregion_gc_asan. rewrite (li_list _ _ _ _ _ Hl). fold (headers ((al1 ++ al2) ++ reservation res)). rewrite Es, E, Ez.
    replace (lsa_used l - zsum e_used al1) with (zsum e_used al2) by lia. exact Ek.
  - split; [|eapply same_on_sub; [exact HS|]; rewrite Ekept; intros d; rewrite fmap_app, !elem_of_app; tauto].
    assert (Hsub : forall e, e ∈ kept -> e_chunk e ∈ (e_chunk <$> kept) ++ others /\ chunk_in m' (e_chunk e)).
    { intros e He. assert (Hin : e_chunk e ∈ (e_chunk <$> kept) ++ others) by (apply elem_of_app; left; by apply list_elem_of_fmap_2).
      split; [done|]. by apply Hi'. }
    split; cbn [lsa_allocations lsa_used]; rewrite <- ?Ekept.
    + done.
    + done.
    + intros e He. destruct (Hsub e He) as [Hin K]. apply (ls_allocation_same m m' _ e HS Hin); [apply K|].
      apply Hal. rewrite Es. apply elem_of_app. by right.
    + intros e He. apply (li_ids _ _ _ _ _ Hl). apply elem_of_app. by right.
    + intros c Hc. assert (Er : res = Some c) by (by destruct al2). pose proof (li_res _ _ _ _ _ Hl c Er) as HO.
      assert (He : Entry c 0 (-1) ∈ kept) by (rewrite Ekept, Hc; apply elem_of_app; right; left).
      destruct (Hsub _ He) as [Hin K]. eapply same_on_open; [exact HS|exact Hin|apply K|cbn; lia|exact HO].
    + lia.
Qed.

(** ** Flushing *)

(** What is flushed from a savepoint: the first [room] allocations with newer
    identifiers. *)
Definition flush (room prev_id : Z) (es : list entry) : list entry :=
  take (Z.to_nat room) (filter (fun e => prev_id < e_id e) es).
Definition flush_svp (svp : lsregion_svp) (es : list entry) : lsregion_svp :=
  match last es with
  | Some e => LsregionSvp (e_id e) (u64 (svp_pos svp + zsum (fun e => ck_size (e_chunk e)) es))
  | None => svp
  end.
Definition flush_id (mx : Z) (es : list entry) : Z := match last es with Some e => e_id e | None => mx end.

Lemma flush_svp_cons svp e es : flush_svp (LsregionSvp (e_id e) (u64 (svp_pos svp + ck_size (e_chunk e)))) es = flush_svp svp (e :: es).
Proof.
  unfold flush_svp. rewrite last_cons. change (zsum ?f (e :: es)) with (f e + zsum f es). cbn beta.
  destruct (last es) eqn:El; cbn [svp_pos]; [by rewrite u64_add_l, Z.add_assoc|].
  apply last_None in El as ->. cbn [zsum foldr]. by rewrite Z.add_0_r.
Qed.

Lemma iovec_loop_asan_spec m prev_id es : forall room svp mx,
  (forall e, e ∈ es -> chunk_in m (e_chunk e) /\ ls_allocation m e) ->
  let fl := flush room prev_id es in
  iovec_loop_asan m (headers es) room prev_id svp mx =
    Ok ((fun e => (ck_payload (e_chunk e), e_used e)) <$> fl, flush_svp svp fl, flush_id mx fl).
Proof.
  induction es as [|e es IH]; intros room svp mx Hes fl.
  { subst fl. unfold flush. rewrite filter_nil, take_nil. done. }
  destruct (Hes e) as [K Ha]; [left|]. destruct (ls_reads m e K Ha) as (R1 & R2 & R3 & _).
  assert (Hes' : forall d, d ∈ es -> chunk_in m (e_chunk d) /\ ls_allocation m d) by (intros d Hd; apply Hes; by right).
  unfold headers. cbn [fmap list_fmap iovec_loop_asan]. rewrite R3. cbn [mbind result_bind]. fold (headers es).
  subst fl. unfold flush. rewrite filter_cons. destruct (Z.leb_spec (e_id e) prev_id) as [Hle|Hgt].
  { rewrite decide_False by lia. by apply IH. }
  rewrite decide_True by done. destruct (Z.leb_spec room 0) as [H0|H0].
  { replace (Z.to_nat room) with 0%nat by lia. done. }
  rewrite (payload_from_header_spec _ _ K). cbn [mbind result_bind]. change off_alloc_used with 24. change off_size with 16.
  rewrite R2. cbn [mbind result_bind]. rewrite R1. cbn [mbind result_bind]. rewrite (IH _ _ _ Hes'). cbn [mbind result_bind].
  replace (Z.to_nat room) with (S (Z.to_nat (room - 1))) by lia. cbn [take]. fold (flush (room - 1) prev_id es).
  rewrite flush_svp_cons. do 2 f_equal. unfold flush_id. rewrite last_cons. by destruct (last _).
Qed.

Lemma flush_asan_spec m l al res others room svp : lsregion_asan_inv m l al res others -> -1 <= svp_slab_id svp ->
  let fl := flush room (svp_slab_id svp) al in
  lsregion_to_iovec_asan m l room svp =
    Ok ((fun e => (ck_payload (e_chunk e), e_used e)) <$> fl, flush_svp svp fl, flush_id (-1) fl).
Proof.
  intros Hl Hsvp. cbv zeta. unfold lsregion_to_iovec_asan. rewrite (li_list _ _ _ _ _ Hl). fold (headers (al ++ reservation res)).
  rewrite iovec_loop_asan_spec.
  - cbv zeta. replace (flush room (svp_slab_id svp) (al ++ reservation res)) with (flush room (svp_slab_id svp) al); [done|].
    unfold flush. rewrite filter_app. destruct res as [c|]; [|by rewrite app_nil_r].
    change (reservation (Some c)) with [Entry c 0 (-1)]. rewrite (filter_cons_False _ (Entry c 0 (-1))) by (cbn; lia). by rewrite app_nil_r.
  - intros e He. split; [apply (ls_chunk _ _ _ _ _ Hl e He)|by apply (li_al _ _ _ _ _ Hl)].
Qed.
End Inv.

(** ** Claims *)
Section Claims.
Context {rt : Type} `{!AsanRt rt} {rt_wf : rt -> Prop} `{!AsanRtLaws rt_wf}.
Local Abbreviation lsregion_asan_inv := (lsregion_asan_inv (rt_wf:=rt_wf)).

(** C32. The log of the ASAN build: an allocation appends a chunk of its own with
    its identifier, also one that was reserved before, and only the reserved one
    may follow a reservation; a collection frees the oldest allocations up to the
    first newer one, gives their blocks back and leaves the others as they are;
    when the identifiers have grown since the savepoint, a flush gives the used
    bytes of all allocations since, oldest first, as many as there is room for,
    and moves the savepoint behind them; in general it is the identifiers that
    decide, so that an allocation since the savepoint with its identifier is left
    out, unlike what the header says.  The process ends only for want of memory. *)
Theorem lsregion_asan_correct (m : machine rt) l al res others : lsregion_asan_inv m l al res others ->
  (forall size A id, res = None -> asan_fits size A 48 -> 0 <= id < 2 ^ 63 -> zsum e_used al + size < 2 ^ 64 ->
     match lsregion_aligned_alloc_asan m l size A id with
     | Abort => False
     | Exit => True
     | Ok (p, m', l') => exists c, ck_payload c = p /\ p mod A = 0 /\ p mod (2 * A) <> 0 /\
         lsregion_asan_inv m' l' (al ++ [Entry c size id]) None others /\ guarded m' c /\
         addressable m' p size = true /\ same_on m m' ((e_chunk <$> al) ++ others)
     end) /\
  (forall c size id, res = Some c -> guarded m c -> 0 <= size <= ck_size c -> 0 <= id < 2 ^ 63 -> zsum e_used al + size < 2 ^ 64 ->
     exists m' l', lsregion_aligned_alloc_asan m l size (ck_align c) id = Ok (ck_payload c, m', l') /\
       lsregion_asan_inv m' l' (al ++ [Entry c size id]) None others /\ guarded m' c /\
       addressable m' (ck_payload c) size = true /\ same_on m m' ((e_chunk <$> al) ++ others)) /\
  (forall c size A, res = Some c -> lsregion_aligned_reserve_asan m l size A = Abort) /\
  (forall al1 al2 min_id, al = al1 ++ al2 -> -1 <= min_id -> (forall e, e ∈ al1 -> e_id e <= min_id) ->
     (forall e, head al2 = Some e -> min_id < e_id e) ->
     exists m' l', lsregion_gc_asan m l min_id = Ok (m', l') /\
       lsregion_asan_inv m' l' al2 (match al2 with [] => None | _ => res end) others /\
       same_on m m' ((e_chunk <$> al2) ++ others) /\
       (forall e, e ∈ al1 -> rt_blocks (run m') !! ck_alloc (e_chunk e) = None)) /\
  (forall room svp old new, -1 <= svp_slab_id svp -> al = old ++ new ->
     (forall e, e ∈ old -> e_id e <= svp_slab_id svp) -> (forall e, e ∈ new -> svp_slab_id svp < e_id e) ->
     let fl := take (Z.to_nat room) new in
     lsregion_to_iovec_asan m l room svp =
       Ok ((fun e => (ck_payload (e_chunk e), e_used e)) <$> fl, flush_svp svp fl, flush_id (-1) fl)) /\
  (forall room svp, -1 <= svp_slab_id svp ->
     let fl := flush room (svp_slab_id svp) al in
     lsregion_to_iovec_asan m l room svp =
       Ok ((fun e => (ck_payload (e_chunk e), e_used e)) <$> fl, flush_svp svp fl, flush_id (-1) fl)).
Proof.
  intros Hl. split_and!.
  - intros size A id -> Hf Hid Hsum. destruct (lsregion_alloc_asan_spec m l al others size A id Hl Hf Hid Hsum)
      as [-> |(c & m' & l' & -> & Es & Ea & Hl' & HG & Had & HS)]; [done|]. exists c.
    assert (L : layout (e_chunk (Entry c size id))) by (apply (ls_chunk _ _ _ _ _ Hl'); rewrite !elem_of_app; left; right; left).
    cbn [e_chunk] in L. rewrite <- Ea. split_and!; try done; apply L.
  - intros c size id -> HG Hs Hid Hsum. by apply ls_commit_spec.
  - intros c size A ->. by apply (ls_reserve_twice (rt_wf:=rt_wf) m l al others c).
  - intros al1 al2 min_id -> Hmin H1 H2. destruct (lsregion_gc_asan_spec m l al1 al2 res others min_id Hl Hmin H1 H2) as (m' & l' & E & Hl' & HS).
    exists m', l'. split_and!; try done. intros e He. pose proof (li_inv _ _ _ _ _ Hl) as Hi. rewrite <- app_assoc, fmap_app, <- app_assoc in Hi.
    eapply (asan_gone m _ _ m' _ _ Hi (li_inv _ _ _ _ _ Hl')); [|by apply list_elem_of_fmap_2].
    rewrite !fmap_app. destruct al2; [set_solver|done].
  - intros room svp old new Hsvp -> Hold Hnew. rewrite (flush_asan_spec m l _ res others room svp Hl Hsvp). unfold flush.
    replace (filter _ (old ++ new)) with new; [done|]. rewrite filter_app. symmetry.
    rewrite (filter_none _ old) by (intros e He; specialize (Hold e He); lia). by rewrite filter_all.
  - intros room svp Hsvp. by apply (flush_asan_spec (rt_wf:=rt_wf) m l al res others).
Qed.
End Claims.

(** *** A savepoint between allocations with the same identifier *)

(** Two allocations with the identifier 1 and a flush after each of them. *)
Definition same_id_demo : result (list (Z * Z) * list (Z * Z) * Z) :=
  '(_, m, l) ← lsregion_alloc_asan toy_start lsregion_create_asan 3 1;
  '(iov1, svp, _) ← lsregion_to_iovec_asan m l 10 lsregion_svp_create;
  '(_, m, l) ← lsregion_alloc_asan m l 2 1;
  '(iov2, _, _) ← lsregion_to_iovec_asan m l 10 svp;
  Ok (iov1, iov2, lsregion_used_asan l).

(** In the ASAN build the savepoint of [lsregion_to_iovec] is an identifier,
    so an allocation with the identifier of the last one that was flushed is
    never flushed: of 3 and 2 bytes with the same identifier only the first 3
    are. *)
Example lsregion_to_iovec_asan_same_id : same_id_demo = Ok ([(4161, 3)], [], 5).
Proof. reflexivity. Qed.

(** ** Witnesses *)
Lemma lsregion_asan_correct_witness : exists m' l', lsregion_aligned_alloc_asan toy_start lsregion_create_asan 10 2 7 = Ok (4162, m', l') /\
  addressable m' 4162 10 = true.
Proof.
  assert (Hl : lsregion_asan_inv (rt_wf:=toy_wf) toy_start lsregion_create_asan [] None []) by (apply lsregion_create_asan_spec, toy_start_inv).
  destruct (lsregion_asan_correct toy_start lsregion_create_asan [] None [] Hl) as (H & _).
  assert (Hf : asan_fits 10 2 48) by (split_and!; [lia|by exists 1|lia|done|done]).
  specialize (H 10 2 7 eq_refl Hf ltac:(lia) ltac:(done)).
  assert (Ec : match lsregion_aligned_alloc_asan toy_start lsregion_create_asan 10 2 7 with Ok (p, _, _) => Ok p | _ => Abort end = Ok 4162) by reflexivity.
  destruct (lsregion_aligned_alloc_asan toy_start lsregion_create_asan 10 2 7) as [[[p m'] l']| |]; [|discriminate Ec|discriminate Ec].
  exists m', l'. injection Ec as ->. destruct H as (c & _ & _ & _ & _ & _ & Ha & _). by split.
Defined.
