(* ===== verification/AsanObuf.v ===== *)
(** * The output buffer of the ASAN build: [obuf_asan.h], [obuf_asan.c]

    The first 96 allocations are chunks of [Asan] of their own; behind them the
    chunks grow by doubling and hold several allocations.  The arrays are lists
    of their length; an access beyond them is undefined. *)
From S2P Require Import Prelude Util Bytes SlabSource SlabCache SlabClient Obuf Asan.

Section Obuf.
Context {rt : Type} `{!AsanRt rt}.
Local Abbreviation machine := (machine rt).

(** ** Definitions *)

Definition SMALL_OBUF_IOV_MAX_ASAN : Z := 128.
Definition SMALL_OBUF_IOV_CHECKED_MAX : Z := 96.
Definition SMALL_OBUF_ALIGNMENT : Z := 1.
Definition SMALL_OBUF_MIN_RESERVE : Z := 128.

Record obuf_asan := ObufAsan {
  oba_slabc : Z;
  oba_iov : list iovec;
  oba_start_capacity : Z;
  oba_capacity : list Z;
  oba_pos : Z;
  oba_used : Z;
  oba_reserved : bool;
}.

Definition oba_set_vectors (b : obuf_asan) (iov : list iovec) (capacity : list Z) (pos : Z) : obuf_asan :=
  ObufAsan (oba_slabc b) iov (oba_start_capacity b) capacity pos (oba_used b) (oba_reserved b).
Definition oba_set_used (b : obuf_asan) (used : Z) (reserved : bool) : obuf_asan :=
  ObufAsan (oba_slabc b) (oba_iov b) (oba_start_capacity b) (oba_capacity b) (oba_pos b) used reserved.

(** Reading and writing an element. *)
Definition at_index {X} (l : list X) (i : Z) : result X := CHECK 0 <=? i; of_option (l !! Z.to_nat i).
Definition set_index {X} (l : list X) (i : Z) (x : X) : result (list X) :=
  CHECK (0 <=? i) && (i <? Z.of_nat (length l)); Ok (<[Z.to_nat i := x]> l).
(** [memset] of [n] elements from [i] on. *)
Definition zero_from {X} (l : list X) (i n : Z) (zero : X) : result (list X) :=
  CHECK (0 <=? i) && (0 <=? n) && (i + n <=? Z.of_nat (length l));
  Ok (take (Z.to_nat i) l ++ replicate (Z.to_nat n) zero ++ drop (Z.to_nat (i + n)) l).

Definition NULL_IOV : iovec := Iovec NULL 0.

Definition obuf_create_asan (slabc start_capacity : Z) : obuf_asan :=
  ObufAsan slabc (replicate 129 NULL_IOV) start_capacity (replicate 128 0) 0 0 false.
Definition obuf_is_initialized_asan (b : obuf_asan) : bool := negb (oba_slabc b =? NULL).
Definition obuf_size_asan (b : obuf_asan) : Z := oba_used b.

Definition obuf_unallocated_ptr (b : obuf_asan) : result Z :=
  v ← at_index (oba_iov b) (oba_pos b); Ok (iov_base v + iov_len v).
Definition obuf_unallocated_size (b : obuf_asan) : result Z :=
  cap ← at_index (oba_capacity b) (oba_pos b);
  v ← at_index (oba_iov b) (oba_pos b);
  Ok (u64 (cap - iov_len v)).

(** The size of the next chunk. *)
Definition next_capacity (b : obuf_asan) (size : Z) : result Z :=
  if oba_pos b <? SMALL_OBUF_IOV_CHECKED_MAX then
    Ok (if size <? SMALL_OBUF_MIN_RESERVE then SMALL_OBUF_MIN_RESERVE else size)
  else
    let capacity := u64 (Z.shiftl (oba_start_capacity b) (oba_pos b - SMALL_OBUF_IOV_CHECKED_MAX)) in
    of_option (grow GROW_FUEL capacity size).

Definition obuf_prepare_buf (m : machine) (b : obuf_asan) (size : Z) : result (machine * obuf_asan) :=
  v ← at_index (oba_iov b) (oba_pos b);
  let used := u64 (iov_len v + size) in
  cap ← at_index (oba_capacity b) (oba_pos b);
  '(m, b) ←
    (if (oba_pos b <? SMALL_OBUF_IOV_CHECKED_MAX) || (used >? cap) then
       capacity ← next_capacity b size;
       let pos := if negb (iov_base v =? NULL) then oba_pos b + 1 else oba_pos b in
       CHECK pos <? SMALL_OBUF_IOV_MAX_ASAN;
       '(alloc, m) ← small_asan_alloc m capacity SMALL_OBUF_ALIGNMENT 0;
       payload ← small_asan_payload_from_header m alloc;
       iov ← set_index (oba_iov b) pos (Iovec payload 0);
       capacities ← set_index (oba_capacity b) pos capacity;
       Ok (m, oba_set_vectors b iov capacities pos)
     else Ok (m, b));
  ptr ← obuf_unallocated_ptr b;
  n ← obuf_unallocated_size b;
  m ← ASAN_UNPOISON_MEMORY_REGION m ptr n;
  Ok (m, b).

Definition obuf_reserve_asan (m : machine) (b : obuf_asan) (size : Z) : result (Z * machine * obuf_asan) :=
  CHECK negb (oba_reserved b);
  '(m, b) ← obuf_prepare_buf m b size;
  let b := oba_set_used b (oba_used b) true in
  ptr ← obuf_unallocated_ptr b;
  Ok (ptr, m, b).

Definition obuf_alloc_asan (m : machine) (b : obuf_asan) (size : Z) : result (Z * machine * obuf_asan) :=
  '(m, b) ←
    (if oba_reserved b then
       n ← obuf_unallocated_size b;
       CHECK size <=? n;
       Ok (m, oba_set_used b (oba_used b) false)
     else obuf_prepare_buf m b size);
  ptr ← obuf_unallocated_ptr b;
  v ← at_index (oba_iov b) (oba_pos b);
  iov ← set_index (oba_iov b) (oba_pos b) (Iovec (iov_base v) (u64 (iov_len v + size)));
  let b := oba_set_used (oba_set_vectors b iov (oba_capacity b) (oba_pos b)) (u64 (oba_used b + size)) (oba_reserved b) in
  p ← obuf_unallocated_ptr b;
  n ← obuf_unallocated_size b;
  m ← ASAN_POISON_MEMORY_REGION m p n;
  Ok (ptr, m, b).

Definition obuf_create_svp_asan (b : obuf_asan) : result obuf_svp :=
  v ← at_index (oba_iov b) (oba_pos b);
  Ok (ObufSvp (oba_pos b) (iov_len v) (oba_used b)).
Definition obuf_svp_to_ptr_asan (b : obuf_asan) (svp : obuf_svp) : result Z :=
  v ← at_index (oba_iov b) (svp_pos svp);
  Ok (iov_base v + svp_iov_len svp).

Fixpoint free_vectors (m : machine) (iov : list iovec) (todo : list Z) : result machine :=
  match todo with
  | [] => Ok m
  | i :: todo =>
      v ← at_index iov i;
      header ← small_asan_header_from_payload m (iov_base v);
      m ← small_asan_free m header;
      free_vectors m iov todo
  end.

Definition obuf_rollback_to_svp_asan (m : machine) (b : obuf_asan) (svp : obuf_svp) : result (machine * obuf_asan) :=
  CHECK svp_pos svp <=? oba_pos b;
  v0 ← at_index (oba_iov b) 0;
  let pos := if negb ((svp_pos svp =? 0) && (svp_iov_len svp =? 0) && negb (iov_base v0 =? NULL))
             then svp_pos svp + 1 else svp_pos svp in
  m ← free_vectors m (oba_iov b) (seqZ pos (oba_pos b - pos + 1));
  let erase_size := oba_pos b - pos + 1 in
  iov ← zero_from (oba_iov b) pos erase_size NULL_IOV;
  capacity ← zero_from (oba_capacity b) pos erase_size 0;
  v ← at_index iov (svp_pos svp);
  iov ← set_index iov (svp_pos svp) (Iovec (iov_base v) (svp_iov_len svp));
  Ok (m, oba_set_used (oba_set_vectors b iov capacity (svp_pos svp)) (svp_used svp) false).

Definition obuf_destroy_asan (m : machine) (b : obuf_asan) : result (machine * obuf_asan) :=
  '(m, b) ← obuf_rollback_to_svp_asan m b obuf_svp_reset;
  Ok (m, ObufAsan NULL (replicate 129 NULL_IOV) 0 (replicate 128 0) 0 0 false).
Definition obuf_reset_asan (m : machine) (b : obuf_asan) : result (machine * obuf_asan) :=
  obuf_rollback_to_svp_asan m b obuf_svp_reset.

(** The data is given by its bytes. *)
Definition obuf_dup_asan (m : machine) (b : obuf_asan) (data : list Z) : result (Z * machine * obuf_asan) :=
  let size := Z.of_nat (length data) in
  '(ptr, m, b) ← obuf_alloc_asan m b size;
  m ← write_checked m ptr data;
  Ok (size, m, b).

Definition obuf_iovcnt_asan (b : obuf_asan) : result Z :=
  v ← at_index (oba_iov b) (oba_pos b);
  Ok (if negb (iov_base v =? NULL) then oba_pos b + 1 else oba_pos b).
(** The size is also a result. *)
Definition obuf_reserve_cb_asan (m : machine) (b : obuf_asan) (size : Z) : result (Z * Z * machine * obuf_asan) :=
  '(ptr, m, b) ← obuf_reserve_asan m b size;
  cap ← at_index (oba_capacity b) (oba_pos b);
  v ← at_index (oba_iov b) (oba_pos b);
  Ok (ptr, u64 (cap - iov_len v), m, b).
Definition obuf_alloc_cb_asan (m : machine) (b : obuf_asan) (size : Z) := obuf_alloc_asan m b size.

(** A client: it allocates and writes, also after a reservation that may be too
    large, or copies.  Its own writes are checked like any other. *)
Inductive obuf_call := OWrite (data : list Z) | OReserved (size : Z) (data : list Z) | ODup (data : list Z).

Definition alloc_write (m : machine) (b : obuf_asan) (data : list Z) : result (machine * obuf_asan) :=
  '(p, m, b) ← obuf_alloc_asan m b (Z.of_nat (length data));
  m ← write_checked m p data;
  Ok (m, b).
Definition obuf_exec (m : machine) (b : obuf_asan) (x : obuf_call) : result (machine * obuf_asan) :=
  match x with
  | OWrite data => alloc_write m b data
  | OReserved size data => '(_, m, b) ← obuf_reserve_asan m b size; alloc_write m b data
  | ODup data => '(_, m, b) ← obuf_dup_asan m b data; Ok (m, b)
  end.
Fixpoint obuf_run (m : machine) (b : obuf_asan) (l : list obuf_call) : result (machine * obuf_asan) :=
  match l with
  | [] => Ok (m, b)
  | x :: l => '(m, b) ← obuf_exec m b x; obuf_run m b l
  end.

Definition call_data (x : obuf_call) : list Z :=
  match x with OWrite data | OReserved _ data | ODup data => data end.
Definition call_size (x : obuf_call) : Z :=
  match x with OReserved size _ => size | _ => Z.of_nat (length (call_data x)) end.
Definition call_ok (x : obuf_call) : Prop := Z.of_nat (length (call_data x)) <= call_size x <= 2 ^ 62.
End Obuf.

(** ** The bytes of a buffer

    [vs] are the chunks with the bytes used in each, in order. *)
Section Inv.
Context {rt : Type} `{!AsanRt rt} {rt_wf : rt -> Prop} `{!AsanRtLaws rt_wf}.
Local Abbreviation machine := (machine rt).
Local Abbreviation asan_inv := (asan_inv (rt_wf:=rt_wf)).
Local Abbreviation fresh := (Asan.fresh (rt_wf:=rt_wf)).

Definition vectors : Type := list (chunk * Z).
Definition iov_of (vs : vectors) : list iovec := (fun v => Iovec (ck_payload v.1) v.2) <$> vs.
Definition caps_of (vs : vectors) : list Z := (fun v => ck_size v.1) <$> vs.
Definition ocontents (m : machine) (vs : vectors) : list Z := vs ≫= fun v => load (bytes m) (ck_payload v.1) v.2.

Record obuf_asan_inv (m : machine) (b : obuf_asan) (vs : vectors) (others : list chunk) : Prop := {
  oi_len : (length vs <= 128)%nat;
  oi_iov : oba_iov b = iov_of vs ++ replicate (129 - length vs) NULL_IOV;
  oi_cap : oba_capacity b = caps_of vs ++ replicate (128 - length vs) 0;
  oi_pos : oba_pos b = Z.of_nat (pred (length vs));
  oi_inv : asan_inv m (vs.*1 ++ others);
  oi_vs c l : (c, l) ∈ vs -> (0 <= l <= ck_size c /\ ck_size c <= 2 ^ 63) /\ open m c l;
  oi_used : oba_used b = zsum snd vs /\ zsum snd vs < 2 ^ 64;
  oi_res c l : oba_reserved b = true -> last vs = Some (c, l) -> open m c (ck_size c);
  oi_some : oba_reserved b = true -> vs <> [];
  oi_start : 0 < oba_start_capacity b < 2 ^ 31;
}.

Lemma obuf_create_asan_spec m C slabc start : asan_inv m C -> 0 < start < 2 ^ 31 ->
  obuf_asan_inv m (obuf_create_asan slabc start) [] C.
Proof. intros Hi Hs. split; try done; [cbn; lia|]. by intros c l ?%elem_of_nil. Qed.

Lemma at_index_lookup {X} (l : list X) (i : nat) x : l !! i = Some x -> at_index l (Z.of_nat i) = Ok x.
Proof. intros H. unfold at_index. rewrite (proj2 (Z.leb_le _ _)) by lia. by rewrite Nat2Z.id, H. Qed.

Lemma set_index_ok {X} (l : list X) (i : nat) x : (i < length l)%nat -> set_index l (Z.of_nat i) x = Ok (<[i := x]> l).
Proof.
  intros H. unfold set_index. rewrite (proj2 (Z.leb_le _ _)), (proj2 (Z.ltb_lt _ _)) by lia. cbn [andb]. by rewrite Nat2Z.id.
Qed.

(** Overwriting the first element behind [l1], and the last one of [l1]. *)
Lemma insert_behind {X} (l1 : list X) n x z : (0 < n)%nat -> <[length l1 := x]> (l1 ++ replicate n z) = l1 ++ x :: replicate (pred n) z.
Proof. intros Hn. rewrite insert_app_r_alt by lia. rewrite Nat.sub_diag. destruct n; [lia|]. done. Qed.

(** The last vector. *)
Lemma last_vector m b vs c l others : obuf_asan_inv m b (vs ++ [(c, l)]) others ->
  oba_pos b = Z.of_nat (length vs) /\ at_index (oba_iov b) (oba_pos b) = Ok (Iovec (ck_payload c) l) /\
  at_index (oba_capacity b) (oba_pos b) = Ok (ck_size c) /\ chunk_in m c /\ (0 <= l <= ck_size c /\ ck_size c <= 2 ^ 63) /\ open m c l.
Proof.
  intros Hb. pose proof (oi_len _ _ _ _ Hb) as Hn. rewrite length_app in Hn. cbn [length] in Hn.
  assert (Ep : oba_pos b = Z.of_nat (length vs)).
  { rewrite (oi_pos _ _ _ _ Hb), length_app. cbn [length]. f_equal. lia. }
  assert (Hc : (c, l) ∈ vs ++ [(c, l)]) by (apply elem_of_app; right; left).
  destruct (oi_vs _ _ _ _ Hb c l Hc) as [Hl HO]. assert (K : chunk_in m c).
  { apply (oi_inv _ _ _ _ Hb), elem_of_app. left. by apply (list_elem_of_fmap_2 fst _ (c, l)). }
  pose proof (k_layout _ _ K) as L. pose proof (l_range c L). pose proof (l_after c L). pose proof (payload_bounds c L).
  pose proof (l_hsize c L). split_and!; try done; try lia.
  - rewrite Ep. apply at_index_lookup. rewrite (oi_iov _ _ _ _ Hb). unfold iov_of. rewrite fmap_app, <- (assoc (++)).
    rewrite lookup_app_r by (by rewrite length_fmap). by rewrite length_fmap, Nat.sub_diag.
  - rewrite Ep. apply at_index_lookup. rewrite (oi_cap _ _ _ _ Hb). unfold caps_of. rewrite fmap_app, <- (assoc (++)).
    rewrite lookup_app_r by (by rewrite length_fmap). by rewrite length_fmap, Nat.sub_diag.
Qed.

Lemma unallocated_spec m b vs c l others : obuf_asan_inv m b (vs ++ [(c, l)]) others ->
  obuf_unallocated_ptr b = Ok (ck_payload c + l) /\ obuf_unallocated_size b = Ok (ck_size c - l).
Proof.
  intros Hb. destruct (last_vector _ _ _ _ _ _ Hb) as (_ & E1 & E2 & _ & Hl & _).
  unfold obuf_unallocated_ptr, obuf_unallocated_size. rewrite E1, E2. cbn [mbind result_bind iov_base iov_len].
  by rewrite u64_small by lia.
Qed.

Lemma ocontents_app m (vs1 vs2 : vectors) : ocontents m (vs1 ++ vs2) = ocontents m vs1 ++ ocontents m vs2.
Proof. apply bind_app. Qed.

Lemma ocontents_same m m' C vs : same_on m m' C -> (forall c l, (c, l) ∈ vs -> c ∈ C /\ layout c /\ l <= ck_size c) ->
  ocontents m' vs = ocontents m vs.
Proof.
  intros HS. induction vs as [|[c l] vs IH]; intros Hvs; [done|]. unfold ocontents in *. cbn [mbind list_bind fst snd].
  destruct (Hvs c l) as (Hc & L & Hl); [left|]. rewrite (same_on_content m m' C c l HS Hc L Hl).
  f_equal. apply IH. intros d v Hd. apply Hvs. by right.
Qed.

Lemma vec_chunk m b vs others c l : obuf_asan_inv m b vs others -> (c, l) ∈ vs ->
  c ∈ vs.*1 ++ others /\ layout c /\ l <= ck_size c.
Proof.
  intros Hb Hc. assert (Hin : c ∈ vs.*1 ++ others) by (apply elem_of_app; left; by apply (list_elem_of_fmap_2 fst _ (c, l))).
  destruct (oi_vs _ _ _ _ Hb c l Hc) as [Hl _]. split_and!; [done| |lia]. apply (oi_inv _ _ _ _ Hb). done.
Qed.

(** ** Making room *)

(** Bytes left in the last chunk. *)
Definition tail_room (vs : vectors) : Z := match last vs with Some (c, l) => ck_size c - l | None => 0 end.

Lemma pos_info m b vs others : obuf_asan_inv m b vs others ->
  exists v cap, at_index (oba_iov b) (oba_pos b) = Ok v /\ at_index (oba_capacity b) (oba_pos b) = Ok cap /\
    (if negb (iov_base v =? NULL) then oba_pos b + 1 else oba_pos b) = Z.of_nat (length vs) /\
    cap - iov_len v = tail_room vs /\ 0 <= iov_len v <= cap /\ cap <= 2 ^ 63.
Proof.
  intros Hb. destruct vs as [|[c l] vs _] using rev_ind.
  - exists NULL_IOV, 0. rewrite (oi_pos _ _ _ _ Hb), (oi_iov _ _ _ _ Hb), (oi_cap _ _ _ _ Hb). split_and!; (done || cbn; lia).
  - destruct (last_vector _ _ _ _ _ _ Hb) as (Ep & E1 & E2 & K & Hl & _). exists (Iovec (ck_payload c) l), (ck_size c).
    pose proof (payload_bounds c (k_layout _ _ K)). pose proof (l_hsize c (k_layout _ _ K)).
    split_and!; try done; cbn [iov_base iov_len]; try lia.
    + rewrite (proj2 (Z.eqb_neq _ _)) by lia. cbn [negb]. rewrite Ep, length_app. cbn [length]. lia.
    + unfold tail_room. by rewrite last_snoc.
Qed.

Lemma next_capacity_spec m b vs others size : obuf_asan_inv m b vs others -> 0 <= size <= 2 ^ 62 ->
  exists cap, next_capacity b size = Ok cap /\ size <= cap /\ 0 < cap <= 2 ^ 63.
Proof.
  intros Hb Hs. unfold next_capacity. change SMALL_OBUF_IOV_CHECKED_MAX with 96. change SMALL_OBUF_MIN_RESERVE with 128.
  pose proof (oi_start _ _ _ _ Hb) as H0. pose proof (oi_len _ _ _ _ Hb) as Hn. pose proof (oi_pos _ _ _ _ Hb) as Ep.
  destruct (Z.ltb_spec (oba_pos b) 96).
  { destruct (Z.ltb_spec size 128); eexists; (split; [done|]); lia. }
  rewrite shiftl_mul by lia. pose proof (pow2_pos (oba_pos b - 96) ltac:(lia)) as Hp.
  pose proof (pow2_mono (oba_pos b - 96) 31 ltac:(lia)) as Hm.
  assert (Hb2 : oba_start_capacity b * 2 ^ (oba_pos b - 96) < 2 ^ 62).
  { change (2 ^ 62) with (2 ^ 31 * 2 ^ 31). nia. }
  rewrite u64_small by nia.
  destruct (grow_total (oba_start_capacity b * 2 ^ (oba_pos b - 96)) size) as (r & -> & H1 & H2 & H3); [nia|lia|lia|].
  exists r. split; [done|]. lia.
Qed.

(** A new chunk behind the others. *)
Lemma new_vector_inv m m1 b vs others c : obuf_asan_inv m b vs others -> oba_reserved b = false -> (length vs < 128)%nat ->
  ck_size c <= 2 ^ 63 -> fresh m m1 (vs.*1 ++ others) c (ck_size c) ->
  set_index (oba_iov b) (Z.of_nat (length vs)) (Iovec (ck_payload c) 0) =
    Ok (iov_of (vs ++ [(c, 0)]) ++ replicate (129 - length (vs ++ [(c, 0)])) NULL_IOV) /\
  set_index (oba_capacity b) (Z.of_nat (length vs)) (ck_size c) =
    Ok (caps_of (vs ++ [(c, 0)]) ++ replicate (128 - length (vs ++ [(c, 0)])) 0) /\
  forall iov capacity, iov = iov_of (vs ++ [(c, 0)]) ++ replicate (129 - length (vs ++ [(c, 0)])) NULL_IOV ->
    capacity = caps_of (vs ++ [(c, 0)]) ++ replicate (128 - length (vs ++ [(c, 0)])) 0 ->
    obuf_asan_inv m1 (oba_set_vectors b iov capacity (Z.of_nat (length vs))) (vs ++ [(c, 0)]) others.
Proof.
  intros Hb Hres Hn H63 F. pose proof (l_size c (proj2 (fresh_chunk _ _ _ _ _ F))) as Hsz.
  assert (El : length (vs ++ [(c, 0)]) = S (length vs)) by (rewrite length_app; cbn [length]; lia). rewrite El. split_and!.
  - rewrite (oi_iov _ _ _ _ Hb). rewrite set_index_ok by (unfold iov_of; rewrite length_app, length_fmap, length_replicate; lia).
    f_equal. unfold iov_of. rewrite fmap_app, <- (assoc (++)). rewrite <- (length_fmap (fun v => Iovec (ck_payload v.1) v.2) vs) at 1.
    rewrite insert_behind by lia. cbn [fmap list_fmap app fst snd]. do 3 f_equal. lia.
  - rewrite (oi_cap _ _ _ _ Hb). rewrite set_index_ok by (unfold caps_of; rewrite length_app, length_fmap, length_replicate; lia).
    f_equal. unfold caps_of. rewrite fmap_app, <- (assoc (++)). rewrite <- (length_fmap (fun v => ck_size v.1) vs) at 1.
    rewrite insert_behind by lia. cbn [fmap list_fmap app fst snd]. do 3 f_equal. lia.
  - intros iov capacity -> ->. destruct (oi_used _ _ _ _ Hb) as [Eu Hu].
    split; cbn [oba_set_vectors oba_iov oba_capacity oba_pos oba_used oba_reserved oba_start_capacity]; rewrite ?El; try done.
    + eapply asan_inv_perm; [|apply F]. rewrite fmap_app, <- (assoc (++)). cbn [fmap list_fmap fst app]. apply Permutation_middle.
    + intros d l [Hd|Hd]%elem_of_app.
      * destruct (oi_vs _ _ _ _ Hb d l Hd) as [Hl HO]. destruct (vec_chunk _ _ _ _ _ _ Hb Hd) as (Hin & L & Hle).
        split; [done|]. eapply same_on_open; [apply F|done|done|done|done].
      * apply list_elem_of_singleton in Hd. injection Hd as -> ->. split; [lia|]. intros x Hx. lia.
    + rewrite zsum_app. change (zsum snd [(c, 0)]) with 0. lia.
    + intros d l Hr. by rewrite Hres in Hr.
    + intros Hr. by rewrite Hres in Hr.
    + apply Hb.
Qed.

Lemma last_perm (vs : vectors) c l (others : list chunk) : (vs ++ [(c, l)]).*1 ++ others ≡ₚ c :: vs.*1 ++ others.
Proof. rewrite fmap_app, <- (assoc (++)). cbn [fmap list_fmap fst app]. by rewrite Permutation_middle. Qed.

(** The rest of the last chunk is unpoisoned. *)
Lemma unpoison_last m b vs c l others : obuf_asan_inv m b (vs ++ [(c, l)]) others ->
  exists m', ASAN_UNPOISON_MEMORY_REGION m (ck_payload c + l) (ck_size c - l) = Ok m' /\
    obuf_asan_inv m' b (vs ++ [(c, l)]) others /\ open m' c (ck_size c) /\ bytes m' = bytes m /\
    same_on m m' (vs.*1 ++ others).
Proof.
  intros Hb. destruct (last_vector _ _ _ _ _ _ Hb) as (_ & _ & _ & K & Hl & HO). pose proof (oi_inv _ _ _ _ Hb) as Hi.
  assert (Hin : c ∈ (vs ++ [(c, l)]).*1 ++ others).
  { apply elem_of_app. left. apply (list_elem_of_fmap_2 fst _ (c, l)), elem_of_app. right. left. }
  destruct (unpoison_tail m _ c l Hi Hin ltac:(lia)) as (E & Hi' & HS & HO'). set (m' := set_run m _) in *.
  assert (HSo : same_on m m' (vs.*1 ++ others)).
  { apply HS; [intros d; rewrite fmap_app, !elem_of_app; tauto|]. by destruct (asan_inv_perm _ _ _ (last_perm vs c l others) Hi) as (_ & _ & [Hn _]%NoDup_cons & _). }
  exists m'. split_and!; [done| |by apply HO'|done|done].
  destruct Hb as [B1 B2 B3 B4 B5 B6 B7 B8 B9 B10]. split; try done.
  - intros d k [Hd|Hd]%elem_of_app.
    + destruct (B6 d k) as [Hk Hop]; [apply elem_of_app; by left|]. split; [done|].
      assert (Hd' : d ∈ vs.*1 ++ others) by (apply elem_of_app; left; by apply (list_elem_of_fmap_2 fst _ (d, k))).
      assert (Ld : layout d) by (apply (asan_chunks _ _ Hi d); rewrite fmap_app, !elem_of_app in *; tauto).
      eapply same_on_open; [exact HSo|done|done|lia|done].
    + apply list_elem_of_singleton in Hd. injection Hd as -> ->. split; [lia|]. intros x Hx. apply (HO' HO). lia.
  - intros d k Hr Hla. rewrite last_snoc in Hla. injection Hla as <- <-. by apply HO'.
Qed.

Lemma prepare_buf_new m b vs others size : obuf_asan_inv m b vs others -> oba_reserved b = false -> 0 <= size <= 2 ^ 62 ->
  (length vs <= 96)%nat \/ tail_room vs < size -> (length vs < 128)%nat ->
  obuf_prepare_buf m b size = Exit \/
  exists c m' b', obuf_prepare_buf m b size = Ok (m', b') /\ obuf_asan_inv m' b' (vs ++ [(c, 0)]) others /\
    size <= ck_size c /\ open m' c (ck_size c) /\ same_on m m' (vs.*1 ++ others) /\ oba_reserved b' = false.
Proof.
  intros Hb Hres Hs Hnew Hn. destruct (pos_info _ _ _ _ Hb) as (v & cap & E1 & E2 & E3 & E4 & E5 & E6).
  destruct (next_capacity_spec _ _ _ _ size Hb Hs) as (n & En & Hn1 & Hn2).
  unfold obuf_prepare_buf. rewrite E1. cbn [mbind result_bind]. rewrite E2. cbn [mbind result_bind].
  assert (Et : (oba_pos b <? SMALL_OBUF_IOV_CHECKED_MAX) || (u64 (iov_len v + size) >? cap) = true).
  { change SMALL_OBUF_IOV_CHECKED_MAX with 96. rewrite (oi_pos _ _ _ _ Hb), u64_small by lia. apply orb_true_iff.
    destruct Hnew; [left; apply Z.ltb_lt; lia|right; apply Z.gtb_lt; lia]. }
  rewrite Et, En. cbn [mbind result_bind]. rewrite E3. change SMALL_OBUF_IOV_MAX_ASAN with 128. rewrite (proj2 (Z.ltb_lt _ _)) by lia.
  assert (Hf : asan_fits n SMALL_OBUF_ALIGNMENT 0).
  { change SMALL_OBUF_ALIGNMENT with 1. split_and!; [lia|by exists 0|lia|done|lia]. }
  destruct (asan_alloc_fresh m _ n _ _ (oi_inv _ _ _ _ Hb) Hf) as [-> |(c & m1 & -> & (Es & _ & _) & F)]; [by left|right].
  cbn [mbind result_bind]. rewrite (fresh_payload _ _ _ _ _ F). cbn [mbind result_bind]. rewrite <- Es in F, Hn1, Hn2 |- *.
  destruct (new_vector_inv m m1 b vs others c Hb Hres Hn ltac:(lia) F) as (-> & -> & Hinv). cbn [mbind result_bind].
  specialize (Hinv _ _ eq_refl eq_refl). set (b1 := oba_set_vectors b _ _ _) in *.
  destruct (unallocated_spec _ _ _ _ _ _ Hinv) as [-> ->]. cbn [mbind result_bind].
  destruct (unpoison_last _ _ _ _ _ _ Hinv) as (m2 & -> & Hinv2 & HO & _ & HS). cbn [mbind result_bind].
  exists c, m2, b1. split_and!; try done; try lia. eapply same_on_trans; [apply F|exact HS].
Qed.

(** The last chunk has room. *)
Lemma prepare_buf_room m b vs c l others size : obuf_asan_inv m b (vs ++ [(c, l)]) others -> (96 <= length vs)%nat ->
  0 <= size <= ck_size c - l ->
  exists m', obuf_prepare_buf m b size = Ok (m', b) /\ obuf_asan_inv m' b (vs ++ [(c, l)]) others /\ open m' c (ck_size c) /\
    bytes m' = bytes m /\ same_on m m' (vs.*1 ++ others).
Proof.
  intros Hb Hn Hs. destruct (last_vector _ _ _ _ _ _ Hb) as (Ep & E1 & E2 & _ & Hl & _).
  unfold obuf_prepare_buf. rewrite E1. cbn [mbind result_bind]. rewrite E2. cbn [mbind result_bind iov_len].
  change SMALL_OBUF_IOV_CHECKED_MAX with 96. rewrite Ep, u64_small by lia.
  destruct (Z.ltb_spec (Z.of_nat (length vs)) 96); [lia|]. destruct (Z.gtb_spec (l + size) (ck_size c)); [lia|]. cbn [orb mbind result_bind].
  destruct (unallocated_spec _ _ _ _ _ _ Hb) as [-> ->]. cbn [mbind result_bind].
  destruct (unpoison_last _ _ _ _ _ _ Hb) as (m2 & -> & Hinv2 & HO & HB & HS). cbn [mbind result_bind]. by exists m2.
Qed.

(** Nor is there room for another chunk. *)
Lemma prepare_buf_full m b vs others size : obuf_asan_inv m b vs others -> length vs = 128%nat -> 0 <= size <= 2 ^ 62 ->
  tail_room vs < size -> obuf_prepare_buf m b size = Abort.
Proof.
  intros Hb Hn Hs Hr. destruct (pos_info _ _ _ _ Hb) as (v & cap & E1 & E2 & E3 & E4 & E5 & E6).
  destruct (next_capacity_spec _ _ _ _ size Hb Hs) as (n & En & _).
  unfold obuf_prepare_buf. rewrite E1. cbn [mbind result_bind]. rewrite E2. cbn [mbind result_bind].
  rewrite (u64_small (iov_len v + size)) by lia. destruct (Z.gtb_spec (iov_len v + size) cap) as [|]; [|lia]. rewrite orb_true_r, En.
  cbn [mbind result_bind]. rewrite E3, Hn. done.
Qed.

(** ** Allocation *)

(** [size] bytes more in the last chunk, which is open. *)
Lemma take_last m b vs c l others size : obuf_asan_inv m b (vs ++ [(c, l)]) others -> open m c (ck_size c) ->
  oba_reserved b = false -> 0 <= size <= ck_size c - l -> zsum snd (vs ++ [(c, l)]) + size < 2 ^ 64 ->
  exists m' b',
    (ptr ← obuf_unallocated_ptr b;
     v ← at_index (oba_iov b) (oba_pos b);
     iov ← set_index (oba_iov b) (oba_pos b) (Iovec (iov_base v) (u64 (iov_len v + size)));
     let b := oba_set_used (oba_set_vectors b iov (oba_capacity b) (oba_pos b)) (u64 (oba_used b + size)) (oba_reserved b) in
     p ← obuf_unallocated_ptr b;
     n ← obuf_unallocated_size b;
     m ← ASAN_POISON_MEMORY_REGION m p n;
     Ok (ptr, m, b)) = Ok (ck_payload c + l, m', b') /\
    obuf_asan_inv m' b' (vs ++ [(c, l + size)]) others /\ bytes m' = bytes m /\ same_on m m' (vs.*1 ++ others) /\
    open m' c (l + size) /\ oba_reserved b' = false.
Proof.
  intros Hb HO Hres Hs Hsum. destruct (last_vector _ _ _ _ _ _ Hb) as (Ep & E1 & E2 & K & Hl & _).
  destruct (unallocated_spec _ _ _ _ _ _ Hb) as [U1 _]. rewrite U1. cbn [mbind result_bind]. rewrite E1. cbn [mbind result_bind iov_base iov_len].
  rewrite (u64_small (l + size)) by lia. pose proof (oi_inv _ _ _ _ Hb) as Hi.
  destruct (oi_used _ _ _ _ Hb) as [Eu Hu]. pose proof (zsum_nonneg snd (vs ++ [(c, l)])) as Hnn.
  specialize (Hnn ltac:(intros [d k] Hd; destruct (oi_vs _ _ _ _ Hb d k Hd) as [? _]; cbn; lia)).
  rewrite zsum_app in *. change (zsum snd [(c, l)]) with (l + 0) in *.
  assert (Es : set_index (oba_iov b) (oba_pos b) (Iovec (ck_payload c) (l + size)) =
    Ok (iov_of (vs ++ [(c, l + size)]) ++ replicate (129 - length (vs ++ [(c, l + size)])) NULL_IOV)).
  { rewrite Ep, (oi_iov _ _ _ _ Hb). rewrite set_index_ok.
    - f_equal. unfold iov_of. rewrite !fmap_app, <- !(assoc (++)). rewrite <- (length_fmap (fun v => Iovec (ck_payload v.1) v.2) vs) at 1.
      rewrite insert_app_r_alt, Nat.sub_diag by lia. rewrite !length_app. done.
    - unfold iov_of. rewrite length_app, length_fmap, length_app. cbn [length]. lia. }
  rewrite Es. cbn [mbind result_bind]. set (b1 := oba_set_used _ _ _).
  assert (Hin : c ∈ (vs ++ [(c, l)]).*1 ++ others).
  { apply elem_of_app. left. apply (list_elem_of_fmap_2 fst _ (c, l)), elem_of_app. right. left. }
  destruct (poison_tail m _ c (l + size) Hi Hin ltac:(lia)) as (Ez & Hi' & HS & HO' & _). set (m1 := set_run m _) in *.
  assert (HSo : same_on m m1 (vs.*1 ++ others)).
  { apply HS; [intros d; rewrite fmap_app, !elem_of_app; tauto|].
    by destruct (asan_inv_perm _ _ _ (last_perm vs c l others) Hi) as (_ & _ & [Hn _]%NoDup_cons & _). }
  assert (HOl : open m1 c (l + size)) by (apply HO'; intros x Hx; apply HO; lia).
  assert (Hb1 : obuf_asan_inv m1 b1 (vs ++ [(c, l + size)]) others).
  { pose proof Hb as [B1 B2 B3 B4 B5 B6 B7 B8 B9 B10]. rewrite length_app in *. cbn [length] in *.
    split; subst b1; cbn [oba_set_used oba_set_vectors oba_iov oba_capacity oba_pos oba_used oba_reserved oba_start_capacity]; rewrite ?length_app; try done.
    - rewrite B3. unfold caps_of. by rewrite !fmap_app.
    - by rewrite fmap_app in *.
    - intros d k [Hd|Hd]%elem_of_app.
      + destruct (B6 d k) as [Hk Hop]; [apply elem_of_app; by left|]. split; [done|].
        assert (Hd' : d ∈ vs.*1 ++ others) by (apply elem_of_app; left; by apply (list_elem_of_fmap_2 fst _ (d, k))).
        assert (Ld : layout d) by (apply (asan_chunks _ _ Hi d); rewrite fmap_app, !elem_of_app in *; tauto).
        eapply same_on_open; [exact HSo|done|done|lia|done].
      + apply list_elem_of_singleton in Hd. injection Hd as -> ->. split; [lia|done].
    - rewrite zsum_app. change (zsum snd [(c, l + size)]) with (l + size + 0). rewrite Eu, u64_small by lia. lia.
    - intros d k Hr. by rewrite Hres in Hr.
    - intros Hr. by rewrite Hres in Hr. }
  assert (U2 : obuf_unallocated_ptr b1 = Ok (ck_payload c + (l + size)) /\ obuf_unallocated_size b1 = Ok (ck_size c - (l + size)))
    by (by eapply unallocated_spec).
  destruct U2 as [-> ->]. cbn [mbind result_bind]. rewrite Ez. cbn [mbind result_bind]. by exists m1, b1.
Qed.

(** [size] bytes at [p] behind the contents: [vs] becomes [vs'] by a new chunk or
    by bytes of the last one. *)
Definition grown (vs vs' : vectors) (size : Z) : Prop :=
  (exists c, vs' = vs ++ [(c, size)]) \/ (exists vs0 c l, vs = vs0 ++ [(c, l)] /\ vs' = vs0 ++ [(c, l + size)]).

Record obuf_added (m m' : machine) (b' : obuf_asan) (vs vs' : vectors) (others : list chunk) (p size : Z) : Prop := {
  oa_inv : obuf_asan_inv m' b' vs' others;
  oa_grown : grown vs vs' size;
  oa_at : exists vs0 c l, vs' = vs0 ++ [(c, l + size)] /\ p = ck_payload c + l /\ 0 <= l;
  oa_reserved : oba_reserved b' = false;
  oa_contents : ocontents m' vs' = ocontents m vs ++ load (bytes m') p size;
  oa_addressable : addressable m' p size = true;
  oa_same : same_on m m' others;
}.

Lemma ocontents_snoc (m : machine) vs c l : ocontents m (vs ++ [(c, l)]) = ocontents m vs ++ load (bytes m) (ck_payload c) l.
Proof. rewrite ocontents_app. f_equal. unfold ocontents. cbn [mbind list_bind fst snd]. apply app_nil_r. Qed.

(** Allocation from the last chunk when it has the room. *)
Lemma added_last m m' b' vs c l others size : obuf_asan_inv m' b' (vs ++ [(c, l + size)]) others ->
  oba_reserved b' = false -> 0 <= l -> 0 <= size -> open m' c (l + size) -> bytes m' = bytes m -> same_on m m' (vs.*1 ++ others) ->
  obuf_added m m' b' (vs ++ [(c, l)]) (vs ++ [(c, l + size)]) others (ck_payload c + l) size.
Proof.
  intros Hb Hr Hl Hs HO HB HS. split; try done.
  - right. by exists vs, c, l.
  - by exists vs, c, l.
  - rewrite !ocontents_snoc, load_app, HB by lia. rewrite (assoc (++)). do 2 f_equal. unfold ocontents. by rewrite HB.
  - apply addressable_intro. intros x Hx. apply HO. lia.
  - eapply same_on_sub; [exact HS|]. intros d. rewrite elem_of_app. tauto.
Qed.

Lemma obuf_alloc_reserved_spec m b vs c l others size : obuf_asan_inv m b (vs ++ [(c, l)]) others -> oba_reserved b = true ->
  0 <= size <= ck_size c - l -> zsum snd (vs ++ [(c, l)]) + size < 2 ^ 64 ->
  exists m' b', obuf_alloc_asan m b size = Ok (ck_payload c + l, m', b') /\
    obuf_added m m' b' (vs ++ [(c, l)]) (vs ++ [(c, l + size)]) others (ck_payload c + l) size.
Proof.
  intros Hb Hres Hs Hsum. destruct (last_vector _ _ _ _ _ _ Hb) as (_ & _ & _ & _ & Hl & _).
  unfold obuf_alloc_asan. rewrite Hres. destruct (unallocated_spec _ _ _ _ _ _ Hb) as [_ ->]. cbn [mbind result_bind].
  rewrite (proj2 (Z.leb_le _ _)) by lia. cbn [mbind result_bind]. set (b1 := oba_set_used b _ _).
  assert (HO : open m c (ck_size c)) by (apply (oi_res _ _ _ _ Hb c l Hres); by rewrite last_snoc).
  assert (Hb1 : obuf_asan_inv m b1 (vs ++ [(c, l)]) others) by (destruct Hb; by split).
  destruct (take_last m b1 vs c l others size Hb1 HO eq_refl Hs Hsum) as (m' & b' & E & Hb' & HB & HS & HO' & Hr').
  exists m', b'. split; [exact E|]. apply added_last; (done || lia).
Qed.

Lemma obuf_alloc_new m b vs others size : obuf_asan_inv m b vs others -> oba_reserved b = false -> 0 <= size <= 2 ^ 62 ->
  zsum snd vs + size < 2 ^ 64 -> (length vs <= 96)%nat \/ tail_room vs < size -> (length vs < 128)%nat ->
  obuf_alloc_asan m b size = Exit \/
  exists p m' b' vs', obuf_alloc_asan m b size = Ok (p, m', b') /\ obuf_added m m' b' vs vs' others p size.
Proof.
  intros Hb Hres Hs Hsum Hnew Hn. unfold obuf_alloc_asan. rewrite Hres.
  destruct (prepare_buf_new m b vs others size Hb Hres Hs Hnew Hn) as [-> |(c & m1 & b1 & -> & Hb1 & Hsz & HO & HS1 & Hr1)]; [by left|right].
  cbn [mbind result_bind].
  destruct (take_last m1 b1 vs c 0 others size Hb1 HO Hr1) as (m' & b' & E & Hb' & HB & HS & HO' & Hr'); [lia| |].
  { rewrite zsum_app. change (zsum snd [(c, 0)]) with 0. lia. }
  change (0 + size) with size in *. rewrite Z.add_0_r in E. exists (ck_payload c), m', b', (vs ++ [(c, size)]). split; [exact E|].
  split; try done.
  - left. by exists c.
  - exists vs, c, 0. split_and!; [done|lia|lia].
  - rewrite ocontents_snoc. f_equal. transitivity (ocontents m1 vs); [unfold ocontents; by rewrite HB|].
    eapply ocontents_same; [exact HS1|]. intros d l Hd. by eapply vec_chunk.
  - by apply addressable_intro.
  - eapply same_on_sub; [eapply same_on_trans; [exact HS1|exact HS]|]. intros d. rewrite elem_of_app. tauto.
Qed.

Lemma obuf_alloc_room m b vs c l others size : obuf_asan_inv m b (vs ++ [(c, l)]) others -> oba_reserved b = false ->
  0 <= size <= ck_size c - l -> zsum snd (vs ++ [(c, l)]) + size < 2 ^ 64 -> (96 <= length vs)%nat ->
  exists m' b', obuf_alloc_asan m b size = Ok (ck_payload c + l, m', b') /\
    obuf_added m m' b' (vs ++ [(c, l)]) (vs ++ [(c, l + size)]) others (ck_payload c + l) size.
Proof.
  intros Hb Hres Hs Hsum Hn. destruct (last_vector _ _ _ _ _ _ Hb) as (_ & _ & _ & _ & Hl & _).
  unfold obuf_alloc_asan. rewrite Hres. destruct (prepare_buf_room m b vs c l others size Hb Hn Hs) as (m1 & -> & Hb1 & HO & HB1 & HS1).
  cbn [mbind result_bind].
  destruct (take_last m1 b vs c l others size Hb1 HO Hres Hs Hsum) as (m' & b' & E & Hb' & HB & HS & HO' & Hr').
  exists m', b'. split; [exact E|]. apply added_last; try done; try lia; [congruence|]. by eapply same_on_trans.
Qed.

(** Reserving is making room. *)
Lemma obuf_reserve_asan_spec m b vs others size : obuf_asan_inv m b vs others -> oba_reserved b = false -> 0 <= size <= 2 ^ 62 ->
  (length vs < 128)%nat \/ size <= tail_room vs ->
  obuf_reserve_asan m b size = Exit \/
  exists p m' b' vs0 c l, obuf_reserve_asan m b size = Ok (p, m', b') /\ p = ck_payload c + l /\
    obuf_asan_inv m' b' (vs0 ++ [(c, l)]) others /\ oba_reserved b' = true /\ size <= ck_size c - l /\
    addressable m' p size = true /\ ocontents m' (vs0 ++ [(c, l)]) = ocontents m vs /\ same_on m m' others /\
    grown vs (vs0 ++ [(c, l)]) 0.
Proof.
  intros Hb Hres Hs Hroom. unfold obuf_reserve_asan. rewrite Hres. cbn [negb].
  assert (Hfin : forall m1 b1 vs0 c l, obuf_asan_inv m1 b1 (vs0 ++ [(c, l)]) others -> open m1 c (ck_size c) ->
    obuf_asan_inv m1 (oba_set_used b1 (oba_used b1) true) (vs0 ++ [(c, l)]) others).
  { intros m1 b1 vs0 c l [B1 B2 B3 B4 B5 B6 B7 B8 B9 B10] HO. split; try done.
    - intros d k _ Hla. rewrite last_snoc in Hla. by injection Hla as <- <-.
    - intros _ Hnil. by destruct vs0. }
  destruct (decide ((length vs <= 96)%nat \/ tail_room vs < size)) as [Hnew|Hold].
  - destruct (prepare_buf_new m b vs others size Hb Hres Hs Hnew ltac:(lia)) as [-> |(c & m1 & b1 & -> & Hb1 & Hsz & HO & HS1 & Hr1)]; [by left|right].
    cbn [mbind result_bind]. pose proof (Hfin _ _ _ _ _ Hb1 HO) as Hb2. destruct (unallocated_spec _ _ _ _ _ _ Hb2) as [-> _]. cbn [mbind result_bind].
    eexists _, m1, _, vs, c, 0. split; [done|]. split_and!; try done; try lia.
    + apply addressable_intro. intros x Hx. apply HO. lia.
    + rewrite ocontents_snoc, load_nil, app_nil_r. eapply ocontents_same; [exact HS1|]. intros d l Hd. by eapply vec_chunk.
    + eapply same_on_sub; [exact HS1|]. intros d. rewrite elem_of_app. tauto.
    + left. by exists c.
  - right. destruct vs as [|[c l] vs _] using rev_ind; [cbn in Hold; lia|]. rewrite length_app in Hold. cbn [length] in Hold.
    unfold tail_room in Hold. rewrite last_snoc in Hold.
    destruct (prepare_buf_room m b vs c l others size Hb) as (m1 & -> & Hb1 & HO & HB1 & HS1); [lia|lia|]. cbn [mbind result_bind].
    pose proof (Hfin _ _ _ _ _ Hb1 HO) as Hb2. destruct (unallocated_spec _ _ _ _ _ _ Hb2) as [-> _]. cbn [mbind result_bind].
    destruct (last_vector _ _ _ _ _ _ Hb) as (_ & _ & _ & _ & Hl & _).
    eexists _, m1, _, vs, c, l. split; [done|]. split_and!; try done; try lia.
    + apply addressable_intro. intros x Hx. apply HO. lia.
    + unfold ocontents. by rewrite HB1.
    + eapply same_on_sub; [exact HS1|]. intros d. rewrite elem_of_app. tauto.
    + right. exists vs, c, l. by rewrite Z.add_0_r.
Qed.

(** ** Rolling back *)

Lemma free_vectors_spec iov C vs : forall m a,
  (forall i c l, vs !! i = Some (c, l) -> at_index iov (a + Z.of_nat i) = Ok (Iovec (ck_payload c) l)) ->
  asan_inv m (vs.*1 ++ C) ->
  exists m', free_vectors m iov (seqZ a (Z.of_nat (length vs))) = Ok m' /\ asan_inv m' C /\ same_on m m' C.
Proof.
  induction vs as [|[c l] vs IH]; intros m a Hat Hi.
  { exists m. by split_and!. }
  cbn [length]. rewrite seqZ_cons by lia. cbn [free_vectors]. pose proof (Hat 0%nat c l eq_refl) as E. rewrite Z.add_0_r in E. rewrite E.
  cbn [mbind result_bind iov_base]. assert (Hi0 : asan_inv m ([] ++ c :: (vs.*1 ++ C))) by exact Hi.
  pose proof Hi as (_ & _ & _ & HC & HX). rewrite (header_from_payload_spec _ _ (HC c ltac:(left))). cbn [mbind result_bind].
  destruct (asan_free_spec m [] c _ Hi0) as (m1 & -> & Hi1 & HS1 & _). cbn [mbind result_bind].
  replace (Z.pred (Z.of_nat (S (length vs)))) with (Z.of_nat (length vs)) by lia.
  destruct (IH m1 (Z.succ a)) as (m' & E' & Hi' & HS').
  { intros i d k Hd. replace (Z.succ a + Z.of_nat i) with (a + Z.of_nat (S i)) by lia. by apply Hat. }
  { exact Hi1. }
  exists m'. split_and!; [done|done|]. eapply same_on_trans; [|exact HS']. eapply same_on_sub; [exact HS1|].
  intros d. change ([] ++ ?L) with L. rewrite elem_of_app. tauto.
Qed.

Lemma zero_from_spec {X} (l1 l2 : list X) k z : zero_from (l1 ++ l2 ++ replicate k z) (Z.of_nat (length l1)) (Z.of_nat (length l2)) z =
  Ok (l1 ++ replicate (length l2 + k) z).
Proof.
  unfold zero_from. rewrite !length_app, length_replicate.
  rewrite (proj2 (Z.leb_le _ _)), (proj2 (Z.leb_le _ _)), (proj2 (Z.leb_le _ _)) by lia. cbn [andb]. f_equal.
  rewrite Nat2Z.id, take_app_length, <- Nat2Z.inj_add, !Nat2Z.id. f_equal. rewrite replicate_add. f_equal.
  rewrite (assoc (++)), <- length_app. apply drop_app_length.
Qed.

(** The vectors [gone] behind [kept] are freed and erased. *)
Lemma drop_vectors m b kept gone others : obuf_asan_inv m b (kept ++ gone) others ->
  exists m', free_vectors m (oba_iov b) (seqZ (Z.of_nat (length kept)) (Z.of_nat (length gone))) = Ok m' /\
    zero_from (oba_iov b) (Z.of_nat (length kept)) (Z.of_nat (length gone)) NULL_IOV =
      Ok (iov_of kept ++ replicate (129 - length kept) NULL_IOV) /\
    zero_from (oba_capacity b) (Z.of_nat (length kept)) (Z.of_nat (length gone)) 0 =
      Ok (caps_of kept ++ replicate (128 - length kept) 0) /\
    asan_inv m' (kept.*1 ++ others) /\ same_on m m' (kept.*1 ++ others).
Proof.
  intros Hb. pose proof (oi_len _ _ _ _ Hb) as Hn. rewrite length_app in Hn.
  destruct (free_vectors_spec (oba_iov b) (kept.*1 ++ others) gone m (Z.of_nat (length kept))) as (m' & E & Hi & HS).
  { intros i c l Hi. rewrite <- Nat2Z.inj_add. apply at_index_lookup. rewrite (oi_iov _ _ _ _ Hb). apply lookup_app_l_Some.
    unfold iov_of. rewrite list_lookup_fmap, lookup_app_r by lia. replace (length kept + i - length kept)%nat with i by lia. by rewrite Hi. }
  { eapply asan_inv_perm; [|apply Hb]. rewrite fmap_app, <- (assoc (++)), !(assoc (++)). by rewrite (Permutation_app_comm kept.*1). }
  exists m'. split_and!; try done.
  - rewrite (oi_iov _ _ _ _ Hb). unfold iov_of. rewrite fmap_app, <- (assoc (++)).
    rewrite <- (length_fmap (fun v => Iovec (ck_payload v.1) v.2) kept) at 1. rewrite <- (length_fmap (fun v => Iovec (ck_payload v.1) v.2) gone) at 1.
    rewrite zero_from_spec. rewrite length_fmap, length_app. do 3 f_equal. lia.
  - rewrite (oi_cap _ _ _ _ Hb). unfold caps_of. rewrite fmap_app, <- (assoc (++)).
    rewrite <- (length_fmap (fun v => ck_size v.1) kept) at 1. rewrite <- (length_fmap (fun v => ck_size v.1) gone) at 1.
    rewrite zero_from_spec. rewrite length_fmap, length_app. do 3 f_equal. lia.
Qed.

(** A savepoint of [vs], and the vectors it keeps: none for the start of the
    buffer. *)
Definition svp_keeps (vs : vectors) (svp : obuf_svp) (kept : vectors) : Prop :=
  (svp = ObufSvp 0 0 0 /\ kept = []) \/
  exists vs1 c l vs2 k, vs = vs1 ++ (c, l) :: vs2 /\ 0 <= k <= l /\ (vs1 <> [] \/ 0 < k) /\
    svp = ObufSvp (Z.of_nat (length vs1)) k (zsum snd vs1 + k) /\ kept = vs1 ++ [(c, k)].

Lemma obuf_lens m b vs others : obuf_asan_inv m b vs others -> forall vs1, (forall v, v ∈ vs1 -> v ∈ vs) ->
  Z.of_nat (length (ocontents m vs1)) = zsum snd vs1 /\ 0 <= zsum snd vs1.
Proof.
  intros Hb. induction vs1 as [|[c l] vs1 IH]; intros Hin; [done|].
  destruct IH as [IH1 IH2]; [intros v Hv; apply Hin; by right|]. destruct (oi_vs _ _ _ _ Hb c l) as [Hl _]; [apply Hin; left|].
  change (zsum snd ((c, l) :: vs1)) with (l + zsum snd vs1). split; [|lia].
  unfold ocontents in *. cbn [mbind list_bind fst snd]. rewrite length_app, load_length. lia.
Qed.

(** To the start: everything is freed. *)
Lemma rollback_start m b vs others : obuf_asan_inv m b vs others ->
  exists m' b', obuf_rollback_to_svp_asan m b (ObufSvp 0 0 0) = Ok (m', b') /\ obuf_asan_inv m' b' [] others /\
    oba_reserved b' = false /\ same_on m m' others.
Proof.
  intros Hb. unfold obuf_rollback_to_svp_asan. cbn [svp_pos svp_iov_len svp_used].
  pose proof (oi_pos _ _ _ _ Hb) as Ep. rewrite (proj2 (Z.leb_le _ _)) by lia.
  destruct (drop_vectors m b [] vs others Hb) as (m' & E1 & E2 & E3 & Hi & HS).
  assert (Hfin : obuf_asan_inv m' (oba_set_used (oba_set_vectors b (replicate 129 NULL_IOV) (replicate 128 0) 0) 0 false) [] others).
  { destruct Hb as [B1 B2 B3 B4 B5 B6 B7 B8 B9 B10]. split; try done; [cbn; lia|]. by intros c l ?%elem_of_nil. }
  destruct vs as [|[c l] vs].
  - rewrite (oi_iov _ _ _ _ Hb). change (at_index (iov_of [] ++ _) 0) with (Ok NULL_IOV). cbn [mbind result_bind iov_base NULL_IOV Z.eqb negb andb].
    rewrite Ep. change (seqZ (0 + 1) _) with (@nil Z). cbn [free_vectors mbind result_bind]. rewrite (oi_cap _ _ _ _ Hb). cbn [length Nat.pred].
    change (zero_from (iov_of [] ++ _) _ _ _) with (Ok (replicate 129 NULL_IOV)). change (zero_from (caps_of [] ++ _) _ _ _) with (Ok (replicate 128 0)).
    cbn [mbind result_bind]. change (at_index (replicate 129 NULL_IOV) 0) with (Ok NULL_IOV). cbn [mbind result_bind].
    change (set_index (replicate 129 NULL_IOV) 0 _) with (Ok (replicate 129 NULL_IOV)). cbn [mbind result_bind].
    do 2 eexists. split; [done|]. split_and!; [|done|done]. cbn [length seqZ free_vectors] in E1. by injection E1 as <-.
  - assert (Ea : at_index (oba_iov b) 0 = Ok (Iovec (ck_payload c) l)) by (by rewrite (oi_iov _ _ _ _ Hb)).
    rewrite Ea. cbn [mbind result_bind iov_base]. destruct (vec_chunk _ _ _ _ c l Hb) as (Hin & L & _); [left|].
    pose proof (payload_bounds c L). pose proof (l_hsize c L). rewrite (proj2 (Z.eqb_neq (ck_payload c) NULL)) by lia. cbn [Z.eqb negb andb].
    replace (oba_pos b - 0 + 1) with (Z.of_nat (length ((c, l) :: vs))) by (rewrite Ep; cbn [length]; lia).
    change (Z.of_nat (length [])) with 0 in *. rewrite E1. cbn [mbind result_bind]. rewrite E2. cbn [mbind result_bind]. rewrite E3. cbn [mbind result_bind].
    change (at_index (iov_of [] ++ _) 0) with (Ok NULL_IOV). cbn [mbind result_bind].
    change (set_index (iov_of [] ++ _) 0 _) with (Ok (replicate 129 NULL_IOV)). cbn [mbind result_bind].
    do 2 eexists. split; [done|]. by split_and!.
Qed.

Lemma rollback_inside m b vs1 c l vs2 k others : obuf_asan_inv m b (vs1 ++ (c, l) :: vs2) others -> 0 <= k <= l ->
  vs1 <> [] \/ 0 < k ->
  exists m' b', obuf_rollback_to_svp_asan m b (ObufSvp (Z.of_nat (length vs1)) k (zsum snd vs1 + k)) = Ok (m', b') /\
    obuf_asan_inv m' b' (vs1 ++ [(c, k)]) others /\ oba_reserved b' = false /\ same_on m m' ((vs1 ++ [(c, k)]).*1 ++ others).
Proof.
  intros Hb Hk Hne. pose proof (oi_pos _ _ _ _ Hb) as Ep. rewrite length_app in Ep. cbn [length] in Ep.
  assert (Es : vs1 ++ (c, l) :: vs2 = (vs1 ++ [(c, l)]) ++ vs2) by (by rewrite <- (assoc (++))).
  pose proof (oi_len _ _ _ _ Hb) as Hn. rewrite length_app in Hn. cbn [length] in Hn.
  pose proof Hb as Hb0. rewrite Es in Hb0. destruct (drop_vectors m b _ vs2 others Hb0) as (m' & E1 & E2 & E3 & Hi & HS).
  assert (El : length (vs1 ++ [(c, l)]) = S (length vs1)) by (rewrite length_app; cbn [length]; lia). rewrite El in *.
  unfold obuf_rollback_to_svp_asan. cbn [svp_pos svp_iov_len svp_used]. rewrite (proj2 (Z.leb_le _ _)) by lia.
  assert (H0 : exists v0, at_index (oba_iov b) 0 = Ok v0).
  { rewrite (oi_iov _ _ _ _ Hb). destruct vs1; by eexists. }
  destruct H0 as [v0 ->]. cbn [mbind result_bind].
  assert (Et : (Z.of_nat (length vs1) =? 0) && (k =? 0) = false).
  { apply andb_false_iff. destruct Hne as [Hne|Hne]; [left|right]; apply Z.eqb_neq; [destruct vs1; [done|cbn [length]; lia]|lia]. }
  rewrite Et. cbn [andb negb]. replace (Z.of_nat (length vs1) + 1) with (Z.of_nat (S (length vs1))) by lia.
  replace (oba_pos b - Z.of_nat (S (length vs1)) + 1) with (Z.of_nat (length vs2)) by lia.
  rewrite E1. cbn [mbind result_bind]. rewrite E2. cbn [mbind result_bind]. rewrite E3. cbn [mbind result_bind].
  assert (Eat : at_index (iov_of (vs1 ++ [(c, l)]) ++ replicate (129 - S (length vs1)) NULL_IOV) (Z.of_nat (length vs1)) = Ok (Iovec (ck_payload c) l)).
  { apply at_index_lookup, lookup_app_l_Some. unfold iov_of. rewrite list_lookup_fmap, lookup_app_r, Nat.sub_diag by lia. done. }
  rewrite Eat. cbn [mbind result_bind iov_base].
  assert (Eset : set_index (iov_of (vs1 ++ [(c, l)]) ++ replicate (129 - S (length vs1)) NULL_IOV) (Z.of_nat (length vs1)) (Iovec (ck_payload c) k) =
    Ok (iov_of (vs1 ++ [(c, k)]) ++ replicate (129 - S (length vs1)) NULL_IOV)).
  { rewrite set_index_ok by (unfold iov_of; rewrite length_app, length_fmap, length_app; cbn [length]; lia). f_equal.
    unfold iov_of. rewrite !fmap_app, <- !(assoc (++)). rewrite <- (length_fmap (fun v => Iovec (ck_payload v.1) v.2) vs1) at 1.
    rewrite insert_app_r_alt, Nat.sub_diag by lia. done. }
  rewrite Eset. cbn [mbind result_bind]. do 2 eexists. split; [done|].
  assert (Ec : (vs1 ++ [(c, k)]).*1 = (vs1 ++ [(c, l)]).*1) by (by rewrite !fmap_app). rewrite Ec. split_and!; [|done|done].
  destruct (obuf_lens _ _ _ _ Hb vs1) as [_ Hnn]; [intros v Hv; apply elem_of_app; by left|].
  destruct (obuf_lens _ _ _ _ Hb vs2) as [_ Hnn2]; [intros v Hv; apply elem_of_app; right; by right|].
  destruct Hb as [B1 B2 B3 B4 B5 B6 B7 B8 B9 B10]. rewrite zsum_app in B7. change (zsum snd ((c, l) :: vs2)) with (l + zsum snd vs2) in B7.
  assert (El' : length (vs1 ++ [(c, k)]) = S (length vs1)) by (rewrite length_app; cbn [length]; lia).
  split; cbn [oba_set_used oba_set_vectors oba_iov oba_capacity oba_pos oba_used oba_reserved oba_start_capacity]; rewrite ?El', ?Ec; try done.
  - lia.
  - unfold caps_of. by rewrite !fmap_app.
  - intros d j Hd. assert (Hin : d ∈ (vs1 ++ [(c, l)]).*1 ++ others).
    { rewrite <- Ec. apply elem_of_app. left. by apply (list_elem_of_fmap_2 fst _ (d, j)). }
    assert (Ld : layout d) by (by apply Hi). apply elem_of_app in Hd as [Hd|Hd].
    + destruct (B6 d j) as [Hj HO]; [apply elem_of_app; by left|]. split; [done|]. eapply same_on_open; [exact HS|done|done|lia|done].
    + apply list_elem_of_singleton in Hd. injection Hd as -> ->. destruct (B6 c l) as [Hj HO]; [apply elem_of_app; right; left|].
      split; [lia|]. eapply same_on_open; [exact HS|done|done|lia|]. intros x Hx. apply HO. lia.
  - rewrite zsum_app. change (zsum snd [(c, k)]) with (k + 0). lia.
Qed.

Lemma obuf_rollback_asan_spec m b vs others svp kept : obuf_asan_inv m b vs others -> svp_keeps vs svp kept ->
  exists m' b', obuf_rollback_to_svp_asan m b svp = Ok (m', b') /\ obuf_asan_inv m' b' kept others /\ oba_reserved b' = false /\
    ocontents m' kept = take (Z.to_nat (svp_used svp)) (ocontents m vs) /\ same_on m m' others.
Proof.
  intros Hb [[-> ->]|(vs1 & c & l & vs2 & k & -> & Hk & Hne & -> & ->)].
  - destruct (rollback_start m b vs others Hb) as (m' & b' & E & Hb' & Hr & HS). by exists m', b'.
  - destruct (rollback_inside m b vs1 c l vs2 k others Hb Hk Hne) as (m' & b' & E & Hb' & Hr & HS). exists m', b'.
    split_and!; try done; [|eapply same_on_sub; [exact HS|]; intros d; rewrite !elem_of_app; tauto]. cbn [svp_used].
    assert (Hsame : ocontents m' (vs1 ++ [(c, k)]) = ocontents m (vs1 ++ [(c, k)])).
    { eapply ocontents_same; [exact HS|]. intros d j Hd. by eapply vec_chunk. }
    rewrite Hsame, ocontents_snoc. change ((c, l) :: vs2) with ([(c, l)] ++ vs2). rewrite !ocontents_app.
    destruct (obuf_lens _ _ _ _ Hb vs1) as [El Hnn]; [intros v Hv; apply elem_of_app; by left|].
    replace (Z.to_nat (zsum snd vs1 + k)) with (length (ocontents m vs1) + Z.to_nat k)%nat by lia.
    rewrite take_app_add. f_equal. unfold ocontents at 1. cbn [mbind list_bind fst snd]. rewrite app_nil_r.
    rewrite take_app_le by (rewrite load_length; lia). by apply load_take.
Qed.

(** ** Copying in *)
Lemma obuf_write_spec m m' b' vs vs' others p data : obuf_added m m' b' vs vs' others p (Z.of_nat (length data)) ->
  exists m2, write_checked m' p data = Ok m2 /\ obuf_added m m2 b' vs vs' others p (Z.of_nat (length data)) /\
    ocontents m2 vs' = ocontents m vs ++ data.
Proof.
  intros Ha. destruct (oa_at _ _ _ _ _ _ _ _ Ha) as (vs0 & c & l & Ev & Ep & H0). pose proof (oa_inv _ _ _ _ _ _ _ _ Ha) as Hb.
  pose proof (oi_inv _ _ _ _ Hb) as Hi. set (n := Z.of_nat (length data)) in *.
  assert (Hc : (c, l + n) ∈ vs') by (rewrite Ev; apply elem_of_app; right; left).
  destruct (vec_chunk _ _ _ _ _ _ Hb Hc) as (Hin & L & Hle).
  destruct (write_raw_spec m' _ c p data Hi Hin) as (Ew & Hi2 & HS); [right; fold n; lia|]. set (m2 := set_bytes m' _) in *.
  assert (Hb2 : obuf_asan_inv m2 b' vs' others) by (destruct Hb; by split).
  assert (Hnd : ck_header c ∉ (ck_header <$> (vs0.*1 ++ others))).
  { rewrite Ev in Hi. by destruct (asan_inv_perm _ _ _ (last_perm vs0 c (l + n) others) Hi) as (_ & _ & [Hn _]%NoDup_cons & _). }
  assert (HSo : same_on m' m2 (vs0.*1 ++ others)).
  { apply HS; [|done]. rewrite Ev. intros d. rewrite fmap_app, !elem_of_app. tauto. }
  assert (Edata : load (bytes m2) p n = data) by apply load_store.
  assert (Ebefore : load (bytes m2) (ck_payload c) l = load (bytes m') (ck_payload c) l).
  { eapply load_same; [apply store_outside|]. lia. }
  assert (E0 : ocontents m2 vs0 = ocontents m' vs0).
  { eapply ocontents_same; [exact HSo|]. intros d k Hd. destruct (vec_chunk _ _ _ _ d k Hb) as (_ & Ld & Hk); [rewrite Ev; apply elem_of_app; by left|].
    split_and!; [|done..]. apply elem_of_app. left. by apply (list_elem_of_fmap_2 fst _ (d, k)). }
  assert (Econ : ocontents m' vs0 ++ load (bytes m') (ck_payload c) l = ocontents m vs).
  { pose proof (oa_contents _ _ _ _ _ _ _ _ Ha) as Ec. rewrite Ev, ocontents_snoc, load_app, (assoc (++)), <- Ep in Ec by lia.
    by apply app_inj_2 in Ec as [Ec _]. }
  assert (Efin : ocontents m2 vs' = ocontents m vs ++ data).
  { rewrite Ev, ocontents_snoc, load_app, E0, Ebefore, (assoc (++)), Econ, <- Ep, Edata by lia. done. }
  exists m2. split; [|split; [|done]].
  - unfold write_checked. fold n. by rewrite (oa_addressable _ _ _ _ _ _ _ _ Ha).
  - destruct Ha as [A1 A2 A3 A4 A5 A6 A7]. split; try done; [by rewrite Efin, Edata|].
    eapply same_on_trans; [exact A7|]. eapply same_on_sub; [exact HSo|]. intros d. rewrite elem_of_app. tauto.
Qed.

(** ** Savepoints *)
Lemma svp_keeps_grown vs vs' svp kept size : 0 <= size -> svp_keeps vs svp kept -> grown vs vs' size -> svp_keeps vs' svp kept.
Proof.
  intros Hs [H|(vs1 & c & l & vs2 & k & -> & Hk & Hne & Es & Ek)] Hg; [by left|right].
  destruct Hg as [(d & ->)|(vs0 & d & j & E & ->)].
  - exists vs1, c, l, (vs2 ++ [(d, size)]), k. split_and!; try done; try lia. by rewrite <- (assoc (++)).
  - destruct vs2 as [|x vs2 _] using rev_ind.
    + apply app_inj_tail in E as [<- [= <- <-]]. exists vs1, c, (l + size), [], k. split_and!; (done || lia).
    + replace (vs1 ++ (c, l) :: vs2 ++ [x]) with ((vs1 ++ (c, l) :: vs2) ++ [x]) in E by (by rewrite <- (assoc (++))).
      apply app_inj_tail in E as [<- ->]. exists vs1, c, l, (vs2 ++ [(d, j + size)]), k. split_and!; try done; try lia.
      by rewrite <- (assoc (++)).
Qed.

(** The savepoint of now keeps all the contents. *)
Lemma obuf_create_svp_asan_spec m b vs others : obuf_asan_inv m b vs others ->
  exists svp kept, obuf_create_svp_asan b = Ok svp /\ svp_keeps vs svp kept /\ svp_used svp = Z.of_nat (length (ocontents m vs)) /\
    (kept = vs \/ kept = [] /\ ocontents m vs = []).
Proof.
  intros Hb. destruct (oi_used _ _ _ _ Hb) as [Eu _]. destruct (obuf_lens _ _ _ _ Hb vs) as [El Hnn]; [done|].
  unfold obuf_create_svp_asan. destruct vs as [|[c l] vs _] using rev_ind.
  - rewrite (oi_iov _ _ _ _ Hb), (oi_pos _ _ _ _ Hb), Eu. exists (ObufSvp 0 0 0), []. split_and!; [done|by left|done|by left].
  - destruct (last_vector _ _ _ _ _ _ Hb) as (Ep & E1 & _ & _ & Hl & _). rewrite E1. cbn [mbind result_bind iov_len].
    rewrite Ep, Eu. destruct (decide (vs = [] /\ l = 0)) as [[-> ->]|Hne].
    + exists (ObufSvp 0 0 0), []. split_and!; [done|by left|done|by right].
    + rewrite El, zsum_app in *. change (zsum snd [(c, l)]) with (l + 0) in *. rewrite Z.add_0_r in *. do 2 eexists. split; [done|]. split; [|split; [done|by left]].
      right. exists vs, c, l, [], l. split_and!; try done; try lia. destruct vs; [right|by left].
      destruct (decide (l = 0)) as [->|]; [|lia]. by destruct Hne.
Qed.
End Inv.

(** ** Claims *)
Section Claims.
Context {rt : Type} `{!AsanRt rt} {rt_wf : rt -> Prop} `{!AsanRtLaws rt_wf}.
Local Abbreviation machine := (machine rt).
Local Abbreviation obuf_asan_inv := (obuf_asan_inv (rt_wf:=rt_wf)).
Local Abbreviation obuf_added := (obuf_added (rt_wf:=rt_wf)).

Lemma obuf_alloc_asan_spec (m : machine) b vs others size : obuf_asan_inv m b vs others -> 0 <= size <= 2 ^ 62 ->
  zsum snd vs + size < 2 ^ 64 -> oba_reserved b = false ->
  match obuf_alloc_asan m b size with
  | Abort => length vs = 128%nat /\ tail_room vs < size
  | Exit => True
  | Ok (p, m', b') => exists vs', obuf_added m m' b' vs vs' others p size
  end.
Proof.
  intros Hb Hs Hsum Hres. pose proof (oi_len _ _ _ _ Hb) as Hlen.
  destruct (decide (length vs = 128%nat /\ tail_room vs < size)) as [[Hf Hr]|Hok].
  { unfold obuf_alloc_asan. rewrite Hres, (prepare_buf_full m b vs others size Hb Hf Hs Hr). done. }
  destruct (decide ((length vs <= 96)%nat \/ tail_room vs < size)) as [Hnew|Hold].
  - destruct (obuf_alloc_new m b vs others size Hb Hres Hs Hsum Hnew ltac:(lia)) as [-> |(p & m' & b' & vs' & -> & Ha)]; [done|by exists vs'].
  - destruct vs as [|[c l] vs _] using rev_ind; [cbn in Hold; lia|]. rewrite length_app in Hold. cbn [length] in Hold.
    unfold tail_room in Hold. rewrite last_snoc in Hold.
    destruct (obuf_alloc_room m b vs c l others size Hb Hres ltac:(lia) Hsum ltac:(lia)) as (m' & b' & -> & Ha). by eexists.
Qed.

(** The output buffer of the ASAN build: [obuf_alloc] returns addressable
    memory behind the contents, in a new chunk or in the last one, or ends the
    process for want of memory; only when all 128 vectors are taken and the last
    one is too small an assertion fails.  A reservation is enough for the
    allocation it was made for.  [obuf_dup] appends the data. *)
Theorem obuf_asan_correct (m : machine) b vs others size : obuf_asan_inv m b vs others -> 0 <= size <= 2 ^ 62 ->
  zsum snd vs + size < 2 ^ 64 -> oba_reserved b = false ->
  match obuf_alloc_asan m b size with
  | Abort => length vs = 128%nat /\ tail_room vs < size
  | Exit => True
  | Ok (p, m', b') => exists vs', obuf_added m m' b' vs vs' others p size
  end /\
  match obuf_reserve_asan m b size with
  | Abort => length vs = 128%nat /\ tail_room vs < size
  | Exit => True
  | Ok (p, m', b') => addressable m' p size = true /\
      forall n, 0 <= n <= size -> zsum snd vs + n < 2 ^ 64 -> exists m2 b2 vs1 vs2,
        obuf_asan_inv m' b' vs1 others /\ ocontents m' vs1 = ocontents m vs /\
        obuf_alloc_asan m' b' n = Ok (p, m2, b2) /\ obuf_added m' m2 b2 vs1 vs2 others p n
  end /\
  (forall data, Z.of_nat (length data) = size ->
     match obuf_dup_asan m b data with
     | Abort => length vs = 128%nat /\ tail_room vs < size
     | Exit => True
     | Ok (n, m', b') => n = size /\ exists vs', obuf_asan_inv m' b' vs' others /\ ocontents m' vs' = ocontents m vs ++ data
     end).
Proof.
  intros Hb Hs Hsum Hres. pose proof (oi_len _ _ _ _ Hb) as Hlen.
  pose proof (obuf_alloc_asan_spec m b vs others size Hb Hs Hsum Hres) as Halloc.
  split_and!; [done| |].
  - destruct (decide (length vs = 128%nat /\ tail_room vs < size)) as [[Hf Hr]|Hok].
    { unfold obuf_reserve_asan. rewrite Hres, (prepare_buf_full m b vs others size Hb Hf Hs Hr). done. }
    destruct (obuf_reserve_asan_spec m b vs others size Hb Hres Hs ltac:(lia))
      as [-> |(p & m' & b' & vs0 & c & l & -> & -> & Hb' & Hr' & Hsz & Had & Hc & _ & _)]; [done|].
    split; [done|]. intros n Hn Hsn. destruct (obuf_lens _ _ _ _ Hb vs) as [El _]; [done|]. destruct (obuf_lens _ _ _ _ Hb' (vs0 ++ [(c, l)])) as [El' _]; [done|].
    rewrite Hc, El in El'. destruct (obuf_alloc_reserved_spec m' b' vs0 c l others n Hb' Hr' ltac:(lia) ltac:(lia)) as (m2 & b2 & E & Ha).
    by exists m2, b2, (vs0 ++ [(c, l)]), (vs0 ++ [(c, l + n)]).
  - intros data Ed. unfold obuf_dup_asan. rewrite Ed. destruct (obuf_alloc_asan m b size) as [[[p m1] b1]| |]; [|done..].
    cbn [mbind result_bind]. destruct Halloc as (vs' & Ha). rewrite <- Ed in Ha.
    destruct (obuf_write_spec _ _ _ _ _ _ _ _ Ha) as (m2 & -> & Ha2 & Hc). cbn [mbind result_bind]. split; [done|].
    exists vs'. split; [apply Ha2|done].
Qed.

(** Of a call of a client: what it appends, and that savepoints stay good. *)
Definition appended (m : machine) (vs : vectors) (others : list chunk) (data : list Z) (m' : machine) (b' : obuf_asan) : Prop :=
  exists vs', obuf_asan_inv m' b' vs' others /\ oba_reserved b' = false /\ ocontents m' vs' = ocontents m vs ++ data /\
    (forall svp kept, svp_keeps vs svp kept -> svp_keeps vs' svp kept) /\ same_on m m' others.

Lemma added_write m m' b' vs vs' others p data : obuf_added m m' b' vs vs' others p (Z.of_nat (length data)) ->
  exists m2, write_checked m' p data = Ok m2 /\ appended m vs others data m2 b'.
Proof.
  intros Ha. destruct (obuf_write_spec _ _ _ _ _ _ _ _ Ha) as (m2 & E & Ha2 & Hc). exists m2. split; [done|].
  destruct Ha2 as [A1 A2 A3 A4 A5 A6 A7]. exists vs'. split_and!; try done. intros svp kept Hk. by eapply svp_keeps_grown; [|done|done]; lia.
Qed.

Lemma alloc_write_spec m b vs others data : obuf_asan_inv m b vs others -> Z.of_nat (length data) <= 2 ^ 62 ->
  zsum snd vs + Z.of_nat (length data) < 2 ^ 64 -> oba_reserved b = false ->
  match alloc_write m b data with
  | Abort => length vs = 128%nat /\ tail_room vs < Z.of_nat (length data)
  | Exit => True
  | Ok (m', b') => appended m vs others data m' b'
  end.
Proof.
  intros Hb Hd Hsum Hres. pose proof (obuf_alloc_asan_spec m b vs others _ Hb (conj (Nat2Z.is_nonneg _) Hd) Hsum Hres) as H.
  unfold alloc_write. destruct (obuf_alloc_asan _ _ _) as [[[p m1] b1]| |]; [|done..]. cbn [mbind result_bind].
  destruct H as (vs' & Ha). destruct (added_write _ _ _ _ _ _ _ _ Ha) as (m2 & -> & Happ). done.
Qed.

Lemma obuf_exec_spec m b vs others x : obuf_asan_inv m b vs others -> call_ok x ->
  zsum snd vs + Z.of_nat (length (call_data x)) < 2 ^ 64 -> oba_reserved b = false ->
  match obuf_exec m b x with
  | Abort => length vs = 128%nat /\ tail_room vs < call_size x
  | Exit => True
  | Ok (m', b') => appended m vs others (call_data x) m' b'
  end.
Proof.
  intros Hb Hok Hsum Hres. unfold call_ok in Hok. destruct x as [data|size data|data]; cbn [obuf_exec call_data call_size] in *.
  - apply alloc_write_spec; (done || lia).
  - destruct (decide (length vs = 128%nat /\ tail_room vs < size)) as [[Hf Hr]|Hroom].
    { unfold obuf_reserve_asan. rewrite Hres, (prepare_buf_full m b vs others size Hb Hf ltac:(lia) Hr). done. }
    pose proof (oi_len _ _ _ _ Hb) as Hlen.
    destruct (obuf_reserve_asan_spec m b vs others size Hb Hres ltac:(lia) ltac:(lia))
      as [-> |(p & m1 & b1 & vs0 & c & l & -> & _ & Hb1 & Hr1 & Hsz & _ & Hc & HS & Hg)]; [done|]. cbn [mbind result_bind].
    destruct (obuf_lens _ _ _ _ Hb vs) as [El _]; [done|]. destruct (obuf_lens _ _ _ _ Hb1 (vs0 ++ [(c, l)])) as [El1 _]; [done|].
    rewrite Hc, El in El1.
    destruct (obuf_alloc_reserved_spec m1 b1 vs0 c l others (Z.of_nat (length data)) Hb1 Hr1 ltac:(lia) ltac:(lia)) as (m2 & b2 & E & Ha).
    unfold alloc_write. rewrite E. cbn [mbind result_bind]. destruct (added_write _ _ _ _ _ _ _ _ Ha) as (m3 & -> & vs' & H1 & H2 & H3 & H4 & H5).
    exists vs'. split_and!; try done; [by rewrite H3, Hc| |by eapply same_on_trans].
    intros svp kept Hk. apply H4. by eapply svp_keeps_grown; [|done|done].
  - unfold obuf_dup_asan. pose proof (alloc_write_spec m b vs others data Hb ltac:(lia) Hsum Hres) as H. unfold alloc_write in H.
    destruct (obuf_alloc_asan _ _ _) as [[[p m1] b1]| |]; [|done..]. cbn [mbind result_bind] in *.
    by destruct (write_checked _ _ _).
Qed.

Lemma obuf_run_spec others l : Forall call_ok l -> forall m b vs, obuf_asan_inv m b vs others ->
  zsum snd vs + Z.of_nat (length (l ≫= call_data)) < 2 ^ 64 -> oba_reserved b = false ->
  match obuf_run m b l with
  | Abort => exists l1 x l2 m1 b1 vs1, l = l1 ++ x :: l2 /\ obuf_run m b l1 = Ok (m1, b1) /\
      obuf_asan_inv m1 b1 vs1 others /\ length vs1 = 128%nat /\ tail_room vs1 < call_size x
  | Exit => True
  | Ok (m', b') => appended m vs others (l ≫= call_data) m' b'
  end.
Proof.
  induction 1 as [|x l Hx _ IH]; intros m b vs Hb Hsum Hres; cbn [obuf_run].
  - exists vs. split_and!; try done. by rewrite app_nil_r.
  - change ((x :: l) ≫= call_data) with (call_data x ++ (l ≫= call_data)) in *. rewrite length_app in Hsum.
    pose proof (obuf_exec_spec m b vs others x Hb Hx ltac:(lia) Hres) as H1. destruct (obuf_exec m b x) as [[m1 b1]| |] eqn:E1; [|done|].
    2:{ exists [], x, l, m, b, vs. split_and!; (done || apply H1). }
    cbn [mbind result_bind]. destruct H1 as (vs1 & Hb1 & Hr1 & Hc1 & Hk1 & HS1).
    destruct (obuf_lens _ _ _ _ Hb vs) as [El _]; [done|]. destruct (obuf_lens _ _ _ _ Hb1 vs1) as [El1 _]; [done|].
    rewrite Hc1, length_app in El1. specialize (IH m1 b1 vs1 Hb1 ltac:(lia) Hr1).
    destruct (obuf_run m1 b1 l) as [[m2 b2]| |]; [|done|].
    + destruct IH as (vs2 & Hb2 & Hr2 & Hc2 & Hk2 & HS2). exists vs2. split_and!; try done; [by rewrite Hc2, Hc1, <- (assoc_L (++))| |by eapply same_on_trans].
      intros svp kept Hk. by apply Hk2, Hk1.
    + destruct IH as (l1 & y & l2 & m2 & b2 & vs2 & -> & E2 & H2). exists (x :: l1), y, l2, m2, b2, vs2.
      split; [done|]. split; [|done]. cbn [obuf_run]. by rewrite E1.
Qed.

(** The chunks a savepoint keeps come first. *)
Lemma svp_keeps_chunks vs svp kept : svp_keeps vs svp kept -> exists rest, vs.*1 = kept.*1 ++ rest.
Proof.
  intros [[_ ->]|(vs1 & c & l & vs2 & k & -> & _ & _ & _ & ->)]; [by exists vs.*1|]. exists vs2.*1.
  by rewrite !fmap_app, <- (assoc_L (++)).
Qed.

(** C33. Rolling back the output buffer of the ASAN build.  A client that starts
    with no reservation and allocates, reserves, writes and copies in any order
    appends exactly its data; the process ends for want of memory, and an
    assertion fails only when all 128 vectors are taken and the last one is too
    small.  Rolling back to a savepoint taken before restores the contents of its
    time and keeps its chunks; all chunks behind them are given back, a reset
    gives back all of them, and the chunks of others stay as they are. *)
Theorem obuf_asan_rollback (m : machine) b vs others l : obuf_asan_inv m b vs others -> oba_reserved b = false ->
  Forall call_ok l -> zsum snd vs + Z.of_nat (length (l ≫= call_data)) < 2 ^ 64 ->
  exists svp kept, obuf_create_svp_asan b = Ok svp /\ (kept = vs \/ kept = [] /\ ocontents m vs = []) /\
    match obuf_run m b l with
    | Ok (m2, b2) => exists vs2 freed m3 b3 m4 b4, obuf_asan_inv m2 b2 vs2 others /\
        ocontents m2 vs2 = ocontents m vs ++ (l ≫= call_data) /\ same_on m m2 others /\
        vs2.*1 = kept.*1 ++ freed /\ obuf_rollback_to_svp_asan m2 b2 svp = Ok (m3, b3) /\
        obuf_asan_inv m3 b3 kept others /\ oba_reserved b3 = false /\ ocontents m3 kept = ocontents m vs /\ same_on m2 m3 others /\
        (forall c, c ∈ freed -> rt_blocks (run m3) !! ck_alloc c = None) /\
        obuf_reset_asan m2 b2 = Ok (m4, b4) /\ obuf_asan_inv m4 b4 [] others /\
        (forall c, c ∈ vs2.*1 -> rt_blocks (run m4) !! ck_alloc c = None)
    | Exit => True
    | Abort => exists l1 x l2 m1 b1 vs1, l = l1 ++ x :: l2 /\ obuf_run m b l1 = Ok (m1, b1) /\
        obuf_asan_inv m1 b1 vs1 others /\ length vs1 = 128%nat /\ tail_room vs1 < call_size x
    end.
Proof.
  intros Hb Hres Hl Hsum. destruct (obuf_create_svp_asan_spec m b vs others Hb) as (svp & kept & E & Hk & Hu & Hkv).
  exists svp, kept. split; [done|]. split; [done|]. pose proof (obuf_run_spec others l Hl m b vs Hb Hsum Hres) as H.
  destruct (obuf_run m b l) as [[m2 b2]| |]; [|done..]. destruct H as (vs2 & Hb2 & Hr2 & Hc2 & Hk2 & HS2).
  specialize (Hk2 svp kept Hk). destruct (svp_keeps_chunks _ _ _ Hk2) as (freed & Hfr).
  destruct (obuf_rollback_asan_spec m2 b2 vs2 others svp kept Hb2 Hk2) as (m3 & b3 & E3 & Hb3 & Hr3 & Hc3 & HS).
  destruct (rollback_start m2 b2 vs2 others Hb2) as (m4 & b4 & E4 & Hb4 & _).
  pose proof (oi_inv _ _ _ _ Hb2) as Hi2. exists vs2, freed, m3, b3, m4, b4. split_and!; try done.
  - rewrite Hc3, Hc2, Hu, Nat2Z.id. apply take_app_length.
  - intros c Hc. apply (asan_gone (rt_wf:=rt_wf) m2 freed (kept.*1 ++ others) m3 (kept.*1 ++ others)); [|apply (oi_inv _ _ _ _ Hb3)|done|done].
    eapply asan_inv_perm; [|exact Hi2]. rewrite Hfr, <- (assoc_L (++)). apply Permutation_app_swap_app.
  - intros c Hc. by apply (asan_gone (rt_wf:=rt_wf) m2 vs2.*1 others m4 others); [|apply (oi_inv _ _ _ _ Hb4)|..].
Qed.
End Claims.

(** ** Witnesses *)
Definition demo_obuf : obuf_asan := obuf_create_asan 4096 16384.

Lemma demo_obuf_inv : obuf_asan_inv (rt_wf:=toy_wf) toy_start demo_obuf [] [].
Proof. apply obuf_create_asan_spec; [apply toy_start_inv|lia]. Qed.

Lemma obuf_asan_correct_witness : exists n m' b', obuf_dup_asan toy_start demo_obuf [1; 2; 3] = Ok (n, m', b') /\ n = 3.
Proof.
  destruct (obuf_asan_correct toy_start demo_obuf [] [] 3 demo_obuf_inv) as (_ & _ & H); [lia|done|done|].
  specialize (H [1; 2; 3] eq_refl).
  assert (Ec : match obuf_dup_asan toy_start demo_obuf [1; 2; 3] with Ok (n, _, _) => Ok n | _ => Abort end = Ok 3) by reflexivity.
  destruct (obuf_dup_asan toy_start demo_obuf [1; 2; 3]) as [[[n m'] b']| |]; [|discriminate Ec|discriminate Ec].
  exists n, m', b'. split; [done|apply H].
Defined.

(** Three bytes, a savepoint, a reservation and a copy, and back. *)
Definition demo_writes : list obuf_call := [OReserved 20 [4; 5]; ODup [6; 7; 8]; OWrite [9]].
Definition demo_before : result (machine toy * obuf_asan) := obuf_run toy_start demo_obuf [ODup [1; 2; 3]].

Lemma obuf_asan_rollback_witness : exists m b svp kept m2 b2 m3 b3, demo_before = Ok (m, b) /\
  obuf_create_svp_asan b = Ok svp /\ obuf_run m b demo_writes = Ok (m2, b2) /\
  obuf_rollback_to_svp_asan m2 b2 svp = Ok (m3, b3) /\ ocontents m3 kept = [1; 2; 3] /\
  (obuf_size_asan b, obuf_size_asan b2, obuf_size_asan b3) = (3, 9, 3).
Proof.
  pose proof (obuf_run_spec (rt_wf:=toy_wf) [] [ODup [1; 2; 3]]) as H1.
  specialize (H1 ltac:(repeat constructor; vm_compute; discriminate) toy_start demo_obuf [] demo_obuf_inv eq_refl eq_refl).
  assert (Ec : match demo_before with Ok (m, b) =>
      match obuf_run m b demo_writes with Ok (m2, b2) =>
        match obuf_create_svp_asan b with Ok svp =>
          match obuf_rollback_to_svp_asan m2 b2 svp with Ok (_, b3) => Ok (obuf_size_asan b, obuf_size_asan b2, obuf_size_asan b3)
          | _ => Abort end | _ => Abort end | _ => Abort end | _ => Abort end = Ok (3, 9, 3)) by (vm_compute; reflexivity).
  unfold demo_before in *. destruct (obuf_run toy_start demo_obuf [ODup [1; 2; 3]]) as [[m b]| |]; [|discriminate Ec|discriminate Ec].
  destruct H1 as (vs & Hb & Hr & Hc & _).
  destruct (obuf_lens _ _ _ _ Hb vs) as [El _]; [intros v Hv; exact Hv|]. rewrite Hc in El. cbn in El.
  destruct (obuf_asan_rollback m b vs [] demo_writes Hb Hr) as (svp & kept & E & _ & H).
  { repeat constructor; vm_compute; discriminate. }
  { rewrite <- El. reflexivity. }
  destruct (obuf_run m b demo_writes) as [[m2 b2]| |] eqn:E2; [|discriminate Ec|discriminate Ec].
  destruct H as (vs2 & freed & m3 & b3 & m4 & b4 & _ & _ & _ & _ & E3 & _ & _ & Hc3 & _).
  rewrite E, E3 in Ec. injection Ec as E4 E5 E6. exists m, b, svp, kept, m2, b2, m3, b3.
  split; [reflexivity|]. split; [exact E|]. split; [exact E2|]. split; [exact E3|]. split; [rewrite Hc3, Hc; reflexivity|].
  rewrite E4, E5, E6. reflexivity.
Defined.
