(* ===== verification/AsanIbuf.v ===== *)
(** * The input buffer of the ASAN build: [ibuf.h], [ibuf.c] over [slab_cache_asan]

    The code is that of [Ibuf]; in this build its requests to poison memory have
    an effect and the sanitizer checks its accesses.  The buffer is the payload
    of a chunk of [Asan] behind the size of the slab: what was consumed and what
    was not yet allocated is poisoned, the data between them is not. *)
From S2P Require Import Prelude Util Bytes Quota QuotaLessor SlabSource SlabCache SlabClient Ibuf Asan AsanPools.

Section Ibuf.
Context {rt : Type} `{!AsanRt rt}.
Local Abbreviation machine := (machine rt).
(** [sysconf(_SC_PAGESIZE)] and the calling thread. *)
Context (sysconf_pagesize self : Z).

(** ** Definitions *)

(** The end of [slab_cache.h]; a slab of this build is its size. *)
Definition slab_sizeof_asan : Z := small_align 8 8.
Definition slab_data_asan (slab : Z) : Z := slab + slab_sizeof_asan.
Definition slab_from_data_asan (data : Z) : Z := data - slab_sizeof_asan.
Definition slab_capacity_asan (m : machine) (slab : Z) : result Z :=
  CHECK addressable m slab 8;
  size ← read_raw m slab 8;
  Ok (u64 (size - slab_sizeof_asan)).

(** The runtime ignores an empty region, which need not be in a block. *)
Definition poison_region (m : machine) (p n : Z) : result machine :=
  if n =? 0 then Ok m else ASAN_POISON_MEMORY_REGION m p n.
Definition unpoison_region (m : machine) (p n : Z) : result machine :=
  if n =? 0 then Ok m else ASAN_UNPOISON_MEMORY_REGION m p n.

(** [memcpy] and [memmove] of the C library, whose accesses are checked. *)
Definition copy_checked (copy : memory -> option memory) (m : machine) (dst src n : Z) : result machine :=
  if n =? 0 then Ok m
  else
    CHECK allocated m src n && addressable m src n;
    CHECK allocated m dst n && addressable m dst n;
    M ← of_option (copy (bytes m));
    Ok (set_bytes m M).
Definition memcpy_asan (m : machine) (dst src n : Z) : result machine :=
  copy_checked (fun M => memcpy M dst src n) m dst src n.
Definition memmove_asan (m : machine) (dst src n : Z) : result machine :=
  copy_checked (fun M => Some (memmove M dst src n)) m dst src n.

Definition ibuf_poison_unallocated (m : machine) (b : ibuf) : result machine :=
  poison_region m (wpos b) (buf_end b - wpos b).
Definition ibuf_unpoison_unallocated (m : machine) (b : ibuf) : result machine :=
  unpoison_region m (wpos b) (buf_end b - wpos b).
Definition ibuf_poison_consumed (m : machine) (b : ibuf) : result machine :=
  poison_region m (buf b) (rpos b - buf b).
Definition ibuf_unpoison_consumed (m : machine) (b : ibuf) : result machine :=
  unpoison_region m (buf b) (rpos b - buf b).

(** [slab_put] of the slab of the buffer, if there is one. *)
Definition put_buf_asan (m : machine) (c : slab_cache_asan) (b : ibuf) : result (machine * slab_cache_asan) :=
  if negb (buf b =? NULL) then slab_put_asan m c self (slab_from_data_asan (buf b)) else Ok (m, c).

Definition ibuf_destroy_asan (m : machine) (c : slab_cache_asan) (b : ibuf) : result (machine * slab_cache_asan) :=
  put_buf_asan m c b.

Definition ibuf_reinit_asan (m : machine) (c : slab_cache_asan) (b : ibuf) : result (machine * slab_cache_asan * ibuf) :=
  '(m, c) ← ibuf_destroy_asan m c b;
  Ok (m, c, ibuf_create (start_capacity b)).

Definition ibuf_reset_asan (m : machine) (b : ibuf) : result (machine * ibuf) :=
  let b := ibuf_reset b in
  m ← ibuf_poison_unallocated m b;
  Ok (m, b).

Definition ibuf_reserve_slow_asan (m : machine) (c : slab_cache_asan) (b : ibuf) (size : Z) :
    result (Z * machine * slab_cache_asan * ibuf) :=
  CHECK wpos b + size >? buf_end b;
  used ← of_option (ibuf_used b);
  let capacity := ibuf_capacity b in
  if u64 (size + used) <=? capacity then
    m ← ibuf_unpoison_consumed m b;
    m ← ibuf_unpoison_unallocated m b;
    m ← memmove_asan m (buf b) (rpos b) used;
    let b := Ibuf (buf b) (buf b) (buf b + used) (buf_end b) (start_capacity b) in
    Ok (wpos b, m, c, b)
  else
    let new_capacity := u64 (capacity * 2) in
    let new_capacity := if new_capacity <? start_capacity b then start_capacity b else new_capacity in
    new_capacity ← of_option (grow GROW_FUEL new_capacity (u64 (used + size)));
    '(slab, m, c) ← slab_get_asan m c sysconf_pagesize self new_capacity;
    if slab =? NULL then Ok (NULL, m, c, b)
    else
      let ptr := slab_data_asan slab in
      m ← memcpy_asan m ptr (rpos b) used;
      '(m, c) ← put_buf_asan m c b;
      capacity ← slab_capacity_asan m slab;
      let b := Ibuf ptr ptr (ptr + used) (ptr + capacity) (start_capacity b) in
      Ok (wpos b, m, c, b).

Definition ibuf_reserve_asan (m : machine) (c : slab_cache_asan) (b : ibuf) (size : Z) :
    result (Z * machine * slab_cache_asan * ibuf) :=
  if wpos b + size <=? buf_end b then
    m ← ibuf_unpoison_unallocated m b;
    Ok (wpos b, m, c, b)
  else ibuf_reserve_slow_asan m c b size.

(** The end of [ibuf_alloc]. *)
Definition ibuf_advance (ptr : Z) (m : machine) (c : slab_cache_asan) (b : ibuf) (size : Z) :
    result (Z * machine * slab_cache_asan * ibuf) :=
  let b := add_wpos b size in
  m ← ibuf_poison_unallocated m b;
  Ok (ptr, m, c, b).

Definition ibuf_alloc_asan (m : machine) (c : slab_cache_asan) (b : ibuf) (size : Z) :
    result (Z * machine * slab_cache_asan * ibuf) :=
  if wpos b + size <=? buf_end b then
    m ← ibuf_unpoison_unallocated m b;
    ibuf_advance (wpos b) m c b size
  else
    '(ptr, m, c, b) ← ibuf_reserve_slow_asan m c b size;
    if ptr =? NULL then Ok (NULL, m, c, b) else ibuf_advance ptr m c b size.

Definition ibuf_shrink_asan (m : machine) (c : slab_cache_asan) (b : ibuf) : result (machine * slab_cache_asan * ibuf) :=
  used ← of_option (ibuf_used b);
  if used =? 0 then
    '(m, c) ← put_buf_asan m c b;
    Ok (m, c, Ibuf NULL NULL NULL NULL (start_capacity b))
  else
    let capacity := ibuf_capacity b in
    let new_capacity := start_capacity b in
    let new_capacity := if new_capacity <? used then used else new_capacity in
    old_size ← slab_real_size_asan sysconf_pagesize capacity;
    new_size ← slab_real_size_asan sysconf_pagesize new_capacity;
    if old_size =? new_size then Ok (m, c, b)
    else
      '(slab, m, c) ← slab_get_asan m c sysconf_pagesize self new_capacity;
      if slab =? NULL then Ok (m, c, b)
      else
        let ptr := slab_data_asan slab in
        m ← memcpy_asan m ptr (rpos b) used;
        '(m, c) ← put_buf_asan m c b;
        capacity ← slab_capacity_asan m slab;
        let b := Ibuf ptr ptr (ptr + used) (ptr + capacity) (start_capacity b) in
        m ← ibuf_poison_unallocated m b;
        Ok (m, c, b).

Definition ibuf_discard_asan (m : machine) (b : ibuf) (size : Z) : result (machine * ibuf) :=
  used ← of_option (ibuf_used b);
  CHECK size <=? used;
  let b := add_wpos b (- size) in
  m ← ibuf_poison_unallocated m b;
  Ok (m, b).

Definition ibuf_truncate_asan (m : machine) (b : ibuf) (used : Z) : result (machine * ibuf) :=
  n ← of_option (ibuf_used b);
  CHECK used <=? n;
  ibuf_discard_asan m b (n - used).

Definition ibuf_consume_asan (m : machine) (b : ibuf) (size : Z) : result (machine * ibuf) :=
  used ← of_option (ibuf_used b);
  CHECK size <=? used;
  let b := Ibuf (buf b) (rpos b + size) (wpos b) (buf_end b) (start_capacity b) in
  m ← ibuf_poison_consumed m b;
  Ok (m, b).

Definition ibuf_consume_before_asan (m : machine) (b : ibuf) (ptr : Z) : result (machine * ibuf) :=
  CHECK ptr >=? rpos b;
  CHECK ptr <=? wpos b;
  ibuf_consume_asan m b (ptr - rpos b).

Definition ibuf_reserve_cb_asan (m : machine) (c : slab_cache_asan) (b : ibuf) (size : Z) :
    result (Z * Z * machine * slab_cache_asan * ibuf) :=
  '(p, m, c, b) ← ibuf_reserve_asan m c b (if negb (size =? 0) then size else start_capacity b);
  n ← of_option (ibuf_unused b);
  Ok (p, n, m, c, b).

Definition ibuf_alloc_cb_asan (m : machine) (c : slab_cache_asan) (b : ibuf) (size : Z) :
    result (Z * machine * slab_cache_asan * ibuf) := ibuf_alloc_asan m c b size.

(** ** A client of the buffer *)

Definition state_asan : Type := machine * slab_cache_asan * ibuf.
Definition keep_asan (c : slab_cache_asan) (r : result (machine * ibuf)) : result (Z * state_asan) :=
  '(m, b) ← r; Ok (NULL, (m, c, b)).

(** The client's own write is checked like any other. *)
Definition exec_asan (s : state_asan) (o : op) : result (Z * state_asan) :=
  let '(m, c, b) := s in
  match o with
  | Write l =>
      '(p, m, c, b) ← ibuf_alloc_asan m c b (Z.of_nat (length l));
      if p =? NULL then Ok (p, (m, c, b))
      else m ← write_checked m p l; Ok (p, (m, c, b))
  | Reserve n => '(p, m, c, b) ← ibuf_reserve_asan m c b n; Ok (p, (m, c, b))
  | Consume n => keep_asan c (ibuf_consume_asan m b n)
  | ConsumeBefore ptr => keep_asan c (ibuf_consume_before_asan m b ptr)
  | Discard n => keep_asan c (ibuf_discard_asan m b n)
  | Truncate n => keep_asan c (ibuf_truncate_asan m b n)
  | Shrink => '(m, c, b) ← ibuf_shrink_asan m c b; Ok (NULL, (m, c, b))
  | Reset => keep_asan c (ibuf_reset_asan m b)
  | Reinit => '(m, c, b) ← ibuf_reinit_asan m c b; Ok (NULL, (m, c, b))
  end.
End Ibuf.

(** ** The invariant *)
Section Inv.
Context {rt : Type} `{!AsanRt rt} {rt_wf : rt -> Prop} `{!AsanRtLaws rt_wf}.
Local Abbreviation machine := (machine rt).
Local Abbreviation asan_inv := (asan_inv (rt_wf:=rt_wf)).
Local Abbreviation cache_inv := (slab_cache_asan_inv (rt_wf:=rt_wf)).
Context (sp self j : Z) (Hpage : small_getpagesize sp = 2 ^ j) (Hj : 3 <= j < 63).

(** What the slab cache can be asked for: the size rounded up to pages leaves
    room in 64 bits. *)
Definition fits_asan (n : Z) : Prop := 0 <= n /\ exists B, n + 8 <= B /\ B mod 2 ^ j = 0 /\ B + 2 ^ j + 64 < 2 ^ 64.

Lemma page_pos : 0 < 2 ^ j.
Proof. apply Z.pow_pos_nonneg; lia. Qed.

Lemma fits_asan_le n n' : fits_asan n -> 0 <= n' <= n -> fits_asan n'.
Proof. intros (H0 & B & H1 & H2 & H3) Hn. split; [lia|]. exists B. split_and!; (done || lia). Qed.

Lemma fits_asan_intro n : 0 <= n -> n + 2 * 2 ^ j + 80 < 2 ^ 64 -> fits_asan n.
Proof.
  intros H0 H1. pose proof page_pos as Hp. split; [done|]. exists ((n + 8 + 2 ^ j - 1) / 2 ^ j * 2 ^ j).
  rewrite Z.mod_mul by lia. pose proof (Z.div_mod (n + 8 + 2 ^ j - 1) (2 ^ j) ltac:(lia)).
  pose proof (Z.mod_pos_bound (n + 8 + 2 ^ j - 1) (2 ^ j) Hp). split_and!; (done || lia).
Qed.

(** The size of a slab is the least multiple of the page that is enough. *)
Lemma page_least n s B : n <= B -> s < n + 2 ^ j -> s mod 2 ^ j = 0 -> B mod 2 ^ j = 0 -> s <= B.
Proof.
  intros H1 H2 Hs HB. pose proof page_pos as Hp. apply Z.mod_divide in Hs as [a ->]; [|lia]. apply Z.mod_divide in HB as [e ->]; [|lia].
  apply Z.mul_le_mono_nonneg_r; [lia|]. assert (a * 2 ^ j < (e + 1) * 2 ^ j) by lia.
  apply Z.mul_lt_mono_pos_r in H; lia.
Qed.

(** Where the buffer is in its slab, if it has one; the data is not poisoned. *)
Definition placed_asan (m : machine) (b : ibuf) (own : list chunk) : Prop :=
  match own with
  | [] => buf b = NULL /\ rpos b = NULL /\ wpos b = NULL /\ buf_end b = NULL
  | [c] => buf b = ck_payload c + 8 /\ buf_end b = ck_payload c + ck_size c /\
      buf b <= rpos b <= wpos b /\ wpos b <= buf_end b /\ ck_size c mod 2 ^ j = 0 /\ ck_size c + 2 ^ j + 64 < 2 ^ 64 /\
      forall x, rpos b <= x < wpos b -> rt_poisoned (run m) x = false
  | _ => False
  end.

(** [rest] are the other slabs of the cache, [others] the chunks of other
    allocators, [q] the bytes in the buffer. *)
Record ibuf_asan_inv (m : machine) (cache : slab_cache_asan) (b : ibuf) (rest others : list chunk) (q : list Z) : Prop := {
  ia_start : 1 <= start_capacity b /\ fits_asan (start_capacity b);
  ia_thread : sca_thread cache = self;
  ia_place : exists own, cache_inv m cache (own ++ rest) others /\ placed_asan m b own;
  ia_data : load (bytes m) (rpos b) (wpos b - rpos b) = q;
}.

(** A byte behind the data or before it is poisoned. *)
Definition sealed (m : machine) (b : ibuf) : Prop :=
  forall x, wpos b <= x < buf_end b -> rt_poisoned (run m) x = true.
Definition shut (m : machine) (b : ibuf) : Prop :=
  forall x, buf b <= x < rpos b -> rt_poisoned (run m) x = true.

(** *** Changes inside the slab of the buffer *)

Lemma cache_chunk m cache mine others c : cache_inv m cache mine others -> c ∈ mine ->
  chunk_in m c /\ layout c /\ ck_hsize c = 8 /\ ck_align c = 16 /\ 8 <= ck_size c < 2 ^ 64 /\
  load (bytes m) (ck_payload c) 8 = le_bytes 8 (ck_size c).
Proof.
  intros [_ O] Hc. pose proof (owns_chunk _ _ _ _ _ _ _ O Hc) as K. destruct (ow_mine _ _ _ _ _ _ O c Hc) as (H1 & _ & _ & H2 & H3 & H4).
  split_and!; try done; try lia. apply K.
Qed.

(** The slabs keep the bytes of their headers and of their sizes. *)
Lemma cache_keep m m' cache mine others : cache_inv m cache mine others -> asan_inv m' (mine ++ others) ->
  (forall d x, d ∈ mine -> ck_header d <= x < ck_header d + 8 \/ ck_payload d <= x < ck_payload d + 8 ->
     bytes m' x = bytes m x) -> cache_inv m' cache mine others.
Proof.
  intros Hm Hi HM. pose proof Hm as [Hu O]. split; [done|]. split; [done|apply O|]. intros d Hd.
  destruct (ow_mine _ _ _ _ _ _ O d Hd) as (H1 & H2 & H3 & H4 & H5 & H6).
  split; [done|]. split; [done|]. split; [|split; [done|split; [done|]]].
  - unfold field. rewrite <- H3. apply load_ext. intros x Hx. apply (HM d); [done|left; lia].
  - rewrite <- H6. apply load_ext. intros x Hx. apply (HM d); [done|by right].
Qed.

(** The chunk [c] is one of the cache, the others have other headers. *)
Lemma cache_other m cache c rest others : cache_inv m cache (c :: rest) others ->
  ck_header c ∉ (ck_header <$> rest ++ others) /\ rest ++ others ⊆ (c :: rest) ++ others.
Proof.
  intros [_ O]. destruct (ow_inv _ _ _ _ _ _ O) as (_ & _ & Hnd & _). simpl in Hnd. apply NoDup_cons in Hnd as [Hn _].
  split; [done|]. intros x Hx. simpl. by right.
Qed.

Lemma own_in_block c a : layout c -> ck_payload c <= a < ck_payload c + ck_size c -> in_block c a.
Proof.
  intros L Ha. pose proof (payload_bounds c L). pose proof (l_after c L). pose proof (l_hsize c L). unfold in_block, ck_alloc in *. lia.
Qed.

Lemma poison_own m cache c rest others a n : cache_inv m cache (c :: rest) others ->
  ck_payload c <= a -> 0 <= n -> a + n <= ck_payload c + ck_size c ->
  exists m', poison_region m a n = Ok m' /\ bytes m' = bytes m /\ cache_inv m' cache (c :: rest) others /\
    same_on m m' (rest ++ others) /\
    (forall x, rt_poisoned (run m) x = true -> rt_poisoned (run m') x = true) /\
    (forall x, rt_poisoned (run m') x = true -> rt_poisoned (run m) x = true \/ a <= x < a + n) /\
    ((a + n) mod 8 = 0 -> forall x, a <= x < a + n -> rt_poisoned (run m') x = true).
Proof.
  intros Hm Ha Hn Hle. unfold poison_region. destruct (Z.eqb_spec n 0) as [->|Hne].
  { exists m. split_and!; try done; [by left|lia]. }
  pose proof Hm as [_ O]. assert (Hc : c ∈ (c :: rest) ++ others) by left.
  destruct (poison_range m _ c a n (ow_inv _ _ _ _ _ _ O) Hc Ha Hn Hle) as (E & Hi & HS & H1 & H2 & H3).
  destruct (cache_other _ _ _ _ _ Hm) as [Hh Hsub].
  eexists. split; [exact E|]. split_and!; [done| |by apply HS|done..]. by apply (cache_keep m).
Qed.

Lemma unpoison_own m cache c rest others a n : cache_inv m cache (c :: rest) others ->
  ck_payload c <= a -> 0 <= n -> a + n <= ck_payload c + ck_size c ->
  exists m', unpoison_region m a n = Ok m' /\ bytes m' = bytes m /\ cache_inv m' cache (c :: rest) others /\
    same_on m m' (rest ++ others) /\
    (forall x, a <= x < a + n -> rt_poisoned (run m') x = false) /\
    (forall x, rt_poisoned (run m') x = true -> rt_poisoned (run m) x = true).
Proof.
  intros Hm Ha Hn Hle. unfold unpoison_region. destruct (Z.eqb_spec n 0) as [->|Hne].
  { exists m. split_and!; try done. lia. }
  pose proof Hm as [_ O]. assert (Hc : c ∈ (c :: rest) ++ others) by left.
  destruct (unpoison_range m _ c a n (ow_inv _ _ _ _ _ _ O) Hc Ha Hn Hle) as (E & Hi & HS & H1 & H2).
  destruct (cache_other _ _ _ _ _ Hm) as [Hh Hsub].
  eexists. split; [exact E|]. split_and!; [done| |by apply HS|done..]. by apply (cache_keep m).
Qed.

(** Bytes of the buffer change. *)
Lemma write_own m cache c rest others M a n : cache_inv m cache (c :: rest) others -> same_outside (bytes m) M a n ->
  ck_payload c + 8 <= a -> a + n <= ck_payload c + ck_size c ->
  cache_inv (set_bytes m M) cache (c :: rest) others /\ same_on m (set_bytes m M) (rest ++ others).
Proof.
  intros Hm HM Ha Hle. pose proof Hm as [_ O]. assert (Hc : c ∈ (c :: rest) ++ others) by left.
  destruct (cache_other _ _ _ _ _ Hm) as [Hh Hsub]. destruct (cache_chunk _ _ _ _ c Hm ltac:(left)) as (_ & Lc & Hh8 & _).
  destruct (chunk_write_inv m _ c M a n (ow_inv _ _ _ _ _ _ O) Hc HM) as [Hi HS]; [right; lia|].
  split; [|by apply HS]. apply (cache_keep m); [done|done|]. intros d x Hd Hx. cbn [set_bytes bytes].
  pose proof (payload_bounds c Lc) as Pc. pose proof (l_after c Lc). pose proof (l_hsize c Lc).
  apply elem_of_cons in Hd as [->|Hd]; [apply HM; lia|]. assert (Hd' : d ∈ rest ++ others) by (apply elem_of_app; by left).
  destruct (cache_chunk _ _ _ _ d Hm ltac:(by right)) as (_ & L & H8 & _ & Hs & _).
  refine (proj1 (HS _ Hsub Hh d x Hd' _)). pose proof (payload_bounds d L). pose proof (l_after d L). pose proof (l_hsize d L).
  unfold in_block, ck_alloc in *. lia.
Qed.

Lemma addressable_elim (m : machine) p n x : addressable m p n = true -> p <= x < p + n -> rt_poisoned (run m) x = false.
Proof.
  intros H Hx. unfold addressable in H. rewrite forallb_forall in H. apply negb_true_iff, H.
  apply list_elem_of_In, elem_of_seqZ. lia.
Qed.

(** What a list of at most one slab says of the buffer. *)
Lemma placed_cases m b own : placed_asan m b own ->
  (own = [] /\ buf b = NULL /\ rpos b = NULL /\ wpos b = NULL /\ buf_end b = NULL) \/ exists c, own = [c] /\ placed_asan m b [c].
Proof. destruct own as [|c [|d own]]; intros H; [by left|right; by exists c|done]. Qed.

Lemma placed_order m b own : placed_asan m b own -> rpos b <= wpos b <= buf_end b /\ buf b <= rpos b.
Proof. intros [(-> & ? & ? & ? & ?)|(c & -> & H)]%placed_cases; [lia|]. destruct H as (? & ? & ? & ? & _). lia. Qed.

Lemma used_asan_eq m cache b rest others q : ibuf_asan_inv m cache b rest others q ->
  ibuf_used b = Some (wpos b - rpos b) /\ wpos b - rpos b = Z.of_nat (length q).
Proof.
  intros [_ _ (own & _ & Hp) <-]. destruct (placed_order m b own Hp) as [? ?]. unfold ibuf_used.
  rewrite Z.geb_leb, (proj2 (Z.leb_le _ _)) by lia. split; [done|]. rewrite load_length. lia.
Qed.

(** *** Moving to another slab *)

Lemma copy_data m cache d own rest others b : cache_inv m cache (d :: own ++ rest) others -> placed_asan m b own ->
  let used := wpos b - rpos b in used + 8 <= ck_size d ->
  (forall x, ck_payload d <= x < ck_payload d + ck_size d -> rt_poisoned (run m) x = false) ->
  exists m', memcpy_asan m (ck_payload d + 8) (rpos b) used = Ok m' /\ run m' = run m /\
    cache_inv m' cache (d :: own ++ rest) others /\ same_on m m' ((own ++ rest) ++ others) /\
    load (bytes m') (ck_payload d + 8) used = load (bytes m) (rpos b) used.
Proof.
  intros Hm Hp used Hs Hop. unfold memcpy_asan, copy_checked. destruct (Z.eqb_spec used 0) as [E0|E0].
  { exists m. rewrite E0. by split_and!. }
  destruct (placed_cases m b own Hp) as [(_ & ? & ? & ? & ?)|(c & -> & Hb & He & H1 & H2 & _ & _ & Ho)]; [lia|].
  simpl app in Hm. destruct (cache_chunk _ _ _ _ d Hm ltac:(left)) as (Kd & Ld & _).
  destruct (cache_chunk _ _ _ _ c Hm ltac:(right; left)) as (Kc & Lc & _ & _).
  pose proof (payload_bounds c Lc). pose proof (l_after c Lc). pose proof (l_hsize c Lc).
  pose proof (payload_bounds d Ld). pose proof (l_after d Ld). pose proof (l_hsize d Ld).
  rewrite (allocated_chunk m c) by (done || unfold ck_alloc in *; lia). rewrite addressable_intro by (intros x Hx; apply Ho; lia).
  rewrite (allocated_chunk m d) by (done || unfold ck_alloc in *; lia). rewrite addressable_intro by (intros x Hx; apply Hop; lia).
  cbn [andb]. pose proof Hm as [_ O]. destruct (cache_other _ _ _ _ _ Hm) as [Hh _].
  destruct (chunks_disjoint m _ c d (ow_inv _ _ _ _ _ _ O) ltac:(right; left) ltac:(left)) as (_ & _ & Hdis).
  { intros E. apply Hh. rewrite E. simpl. left. }
  rewrite memcpy_apart by (unfold ck_alloc in *; lia). cbn [of_option mbind result_bind]. eexists. split; [done|].
  destruct (write_own m cache d ([c] ++ rest) others _ _ _ Hm (memmove_outside (bytes m) (ck_payload d + 8) (rpos b) used)) as [Hm' HS]; [lia|lia|].
  split_and!; [done|done|done|]. cbn [set_bytes bytes]. apply load_memmove.
Qed.

Lemma put_own m cache new own rest others b : cache_inv m cache (new ++ own ++ rest) others -> placed_asan m b own ->
  sca_thread cache = self ->
  exists m' cache', put_buf_asan self m cache b = Ok (m', cache') /\ cache_inv m' cache' (new ++ rest) others /\
    same_on m m' (new ++ rest ++ others) /\ sca_thread cache' = self.
Proof.
  intros Hm Hp Ht. unfold put_buf_asan. destruct (placed_cases m b own Hp) as [(-> & -> & _)|(c & -> & Hb & _)].
  { cbn [Z.eqb negb]. by exists m, cache. }
  destruct (cache_chunk _ _ _ _ c Hm) as (_ & Lc & _); [apply elem_of_app; right; left|].
  pose proof (payload_bounds c Lc). pose proof (l_hsize c Lc). rewrite (proj2 (Z.eqb_neq (buf b) NULL)) by lia. cbn [negb].
  unfold slab_from_data_asan. change slab_sizeof_asan with 8. replace (buf b - 8) with (ck_payload c) by lia.
  apply (slab_put_asan_spec m cache new c rest others self); done.
Qed.

(** The buffer and its data stay while its slab is not touched. *)
Lemma placed_frame m m' cache b own rest others C : cache_inv m cache (own ++ rest) others -> placed_asan m b own ->
  own ⊆ C -> same_on m m' C ->
  placed_asan m' b own /\ load (bytes m') (rpos b) (wpos b - rpos b) = load (bytes m) (rpos b) (wpos b - rpos b).
Proof.
  intros Hm Hp Hsub HS. destruct (placed_cases m b own Hp) as [(-> & H1 & H2 & H3 & H4)|(c & -> & Hb & He & H1 & H2 & H3 & H4 & H5)].
  { split; [done|]. by rewrite H2, H3. }
  destruct (cache_chunk _ _ _ _ c Hm ltac:(left)) as (_ & Lc & _).
  assert (Hx : forall x, rpos b <= x < wpos b -> bytes m' x = bytes m x /\ rt_poisoned (run m') x = rt_poisoned (run m) x).
  { intros x Hx. apply (HS c); [apply Hsub; left|apply own_in_block; [done|lia]]. }
  split; [split_and!; try done; try lia|].
  - intros x Hr. destruct (Hx x Hr) as [_ ->]. by apply H5.
  - apply load_ext. intros x Hr. apply Hx. lia.
Qed.

Definition opened (m : machine) (b : ibuf) : Prop :=
  forall x, wpos b <= x < buf_end b -> rt_poisoned (run m) x = false.

Lemma move_asan m cache b rest others q n : ibuf_asan_inv m cache b rest others q -> fits_asan n -> wpos b - rpos b <= n ->
  slab_get_asan m cache sp self n = Exit \/
  exists slab m1 c1 m2 m3 c3 cap, slab_get_asan m cache sp self n = Ok (slab, m1, c1) /\ (slab =? NULL) = false /\
    memcpy_asan m1 (slab_data_asan slab) (rpos b) (wpos b - rpos b) = Ok m2 /\ put_buf_asan self m2 c1 b = Ok (m3, c3) /\
    slab_capacity_asan m3 slab = Ok cap /\ n <= cap /\ same_on m m3 (rest ++ others) /\
    let ptr := slab_data_asan slab in
    let b' := Ibuf ptr ptr (ptr + (wpos b - rpos b)) (ptr + cap) (start_capacity b) in
    ibuf_asan_inv m3 c3 b' rest others q /\ opened m3 b' /\ 0 < ptr.
Proof.
  intros [Hs Ht (own & Hm & Hp) Hd] (Hn & B & HB1 & HB2 & HB3) Hu. pose proof page_pos as H2j.
  destruct (placed_order m b own Hp) as [Ho _].
  pose proof (slab_get_asan_spec m cache (own ++ rest) others sp j self n Hm Hpage ltac:(lia) Hn ltac:(lia)) as Hget.
  rewrite Ht, Z.eqb_refl in Hget.
  destruct Hget as [E|(d & m1 & c1 & E & ([Hd1 Hd2] & Hmod) & (_ & _ & _ & Had & _ & HS1 & _) & Hm1 & Ht1)]; [by left|right].
  assert (Hop : forall x, ck_payload d <= x < ck_payload d + ck_size d -> rt_poisoned (run m1) x = false)
    by (intros x Hx; by apply (addressable_elim m1 (ck_payload d) (ck_size d))).
  destruct (placed_frame m m1 cache b own rest others ((own ++ rest) ++ others) Hm Hp) as [Hp1 Hl1]; [set_solver|done|].
  destruct (copy_data m1 c1 d own rest others b Hm1 Hp1 ltac:(lia) Hop) as (m2 & E2 & Er & Hm2 & HS2 & Hl2).
  assert (Hp2 : placed_asan m2 b own) by (destruct own as [|c [|]]; cbn [placed_asan] in *; rewrite ?Er; done).
  destruct (put_own m2 c1 [d] own rest others b Hm2 Hp2 Ht1) as (m3 & c3 & E3 & Hm3 & HS3 & Ht3).
  destruct (cache_chunk _ _ _ _ d Hm3 ltac:(left)) as (Kd & Ld & _ & Ha & _ & Hsz).
  pose proof (payload_bounds d Ld) as Pd. pose proof (l_after d Ld). pose proof (l_hsize d Ld).
  assert (Hblk : forall x, ck_payload d <= x < ck_payload d + ck_size d ->
    bytes m3 x = bytes m2 x /\ rt_poisoned (run m3) x = false).
  { intros x Hx. destruct (HS3 d x ltac:(left)) as [-> ->]; [by apply own_in_block|]. split; [done|]. rewrite Er. by apply Hop. }
  exists (ck_payload d), m1, c1, m2, m3, c3, (ck_size d - 8). unfold slab_data_asan. change slab_sizeof_asan with 8.
  split; [done|]. split; [apply Z.eqb_neq; lia|]. split; [done|]. split; [done|]. split.
  { unfold slab_capacity_asan, read_raw. rewrite addressable_intro by (intros x Hx; apply Hblk; lia).
    rewrite (allocated_chunk m3 d) by (done || unfold ck_alloc in *; lia). change (Z.of_nat 8) with 8.
    rewrite Hsz, le_val_bytes, Z.mod_small by (cbn; lia). cbn [mbind result_bind].
    change slab_sizeof_asan with 8. by rewrite u64_small by lia. }
  split; [lia|]. split.
  { eapply same_on_trans; [apply (same_on_sub _ _ _ _ HS1); set_solver|].
    eapply same_on_trans; [apply (same_on_sub _ _ _ _ HS2); set_solver|apply (same_on_sub _ _ _ _ HS3); set_solver]. }
  cbv zeta. split; [|split; [|lia]]; [split; cbn [start_capacity rpos wpos buf buf_end]; try done|].
  - exists [d]. split; [exact Hm3|]. split_and!; cbn [rpos wpos buf buf_end]; try lia.
    + pose proof (page_least (n + 8) (ck_size d) B HB1 Hd2 Hmod HB2). lia.
    + intros x Hx. apply Hblk. lia.
  - replace (ck_payload d + 8 + (wpos b - rpos b) - (ck_payload d + 8)) with (wpos b - rpos b) by lia.
    rewrite <- Hd, <- Hl1, <- Hl2. apply load_ext. intros x Hx. apply Hblk. lia.
  - intros x Hx. cbn [wpos buf_end] in Hx. apply Hblk. lia.
Qed.

(** *** The ends of the data and the poison *)

Lemma data_open m cache b rest others q x : ibuf_asan_inv m cache b rest others q -> rpos b <= x < wpos b ->
  rt_poisoned (run m) x = false.
Proof.
  intros [_ _ (own & _ & Hp) _] Hx. destruct (placed_cases m b own Hp) as [(_ & ? & ? & ? & ?)|(c & -> & Hb)]; [lia|].
  destruct Hb as (_ & _ & _ & _ & _ & _ & H). by apply H.
Qed.

Lemma inv_order m cache b rest others q : ibuf_asan_inv m cache b rest others q ->
  rpos b <= wpos b <= buf_end b /\ buf b <= rpos b.
Proof. intros [_ _ (own & _ & Hp) _]. by apply (placed_order m b own). Qed.

(** Other ends of the data in the same slab. *)
Lemma with_ends m cache b rest others q r w : ibuf_asan_inv m cache b rest others q ->
  buf b <= r <= w -> w <= buf_end b -> (forall x, r <= x < w -> rt_poisoned (run m) x = false) ->
  ibuf_asan_inv m cache (Ibuf (buf b) r w (buf_end b) (start_capacity b)) rest others (load (bytes m) r (w - r)).
Proof.
  intros [Hs Ht (own & Hm & Hp) Hd] Hr Hw Hx. split; cbn [start_capacity rpos wpos]; try done.
  exists own. split; [done|]. destruct (placed_cases m b own Hp) as [(-> & ? & ? & ? & ?)|(c & -> & Hb)].
  - cbn [placed_asan rpos wpos buf buf_end]. lia.
  - destruct Hb as (H1 & H2 & _ & _ & H3 & H4 & _). split_and!; cbn [rpos wpos buf buf_end]; (done || lia).
Qed.

(** Nothing but the poison of the slab of the buffer changes. *)
Definition only_poison (m m' : machine) (rest others : list chunk) : Prop :=
  bytes m' = bytes m /\ same_on m m' (rest ++ others).

Lemma placed_poison m m' c b : placed_asan m b [c] ->
  (forall x, rpos b <= x < wpos b -> rt_poisoned (run m') x = true -> rt_poisoned (run m) x = true) -> placed_asan m' b [c].
Proof.
  intros (H1 & H2 & H3 & H4 & H5 & H6 & H7) Hx. split_and!; try done; try lia. intros x Hr. apply not_true_is_false.
  intros Ht%Hx; [|done]. by rewrite H7 in Ht.
Qed.

Lemma inv_poison m m' cache c b rest others q : ibuf_asan_inv m cache b rest others q -> placed_asan m b [c] ->
  cache_inv m' cache (c :: rest) others -> bytes m' = bytes m ->
  (forall x, rpos b <= x < wpos b -> rt_poisoned (run m') x = true -> rt_poisoned (run m) x = true) ->
  ibuf_asan_inv m' cache b rest others q.
Proof.
  intros [Hs Ht _ Hd] Hp Hm' HM Hx. split; [done|done| |by rewrite HM].
  exists [c]. split; [done|]. by apply (placed_poison m).
Qed.

Lemma inv_slab m cache b rest others q : ibuf_asan_inv m cache b rest others q ->
  (buf b = NULL /\ rpos b = NULL /\ wpos b = NULL /\ buf_end b = NULL) \/
  exists c, cache_inv m cache (c :: rest) others /\ placed_asan m b [c] /\ buf_end b mod 8 = 0.
Proof.
  intros [_ _ (own & Hm & Hp) _]. destruct (placed_cases m b own Hp) as [(_ & H)|(c & -> & Hb)]; [by left|right].
  exists c. split; [exact Hm|]. split; [done|]. destruct (cache_chunk _ _ _ _ c Hm ltac:(left)) as (_ & Lc & _ & Ha & _).
  pose proof (l_align c Lc) as HA. rewrite Ha in HA. destruct Hb as (_ & -> & _ & _ & H8 & _).
  apply (mod_pow_le _ 3 j) in H8; [|lia]. change (2 ^ 3) with 8 in H8. clear - HA H8. Z.to_euclidean_division_equations; lia.
Qed.

Lemma seal_spec m cache b rest others q : ibuf_asan_inv m cache b rest others q ->
  exists m', ibuf_poison_unallocated m b = Ok m' /\ ibuf_asan_inv m' cache b rest others q /\ sealed m' b /\
    only_poison m m' rest others.
Proof.
  intros Hi. unfold ibuf_poison_unallocated. destruct (inv_slab _ _ _ _ _ _ Hi) as [(H1 & H2 & H3 & H4)|(c & Hm & Hp & H8)].
  { rewrite H3, H4. exists m. split_and!; try done. intros x. lia. }
  pose proof Hp as (Hb & He & H1 & H2 & _).
  destruct (poison_own m cache c rest others (wpos b) (buf_end b - wpos b) Hm) as (m' & -> & HM & Hm' & HS & _ & Hs & Hx); [lia..|].
  exists m'. split; [done|]. split; [|split; [|done]].
  - apply (inv_poison m m' cache c); [done..|]. intros x Hr [?|?]%Hs; [done|lia].
  - intros x Hr. apply Hx; [|lia]. by replace (wpos b + (buf_end b - wpos b)) with (buf_end b) by lia.
Qed.

Lemma open_spec m cache b rest others q : ibuf_asan_inv m cache b rest others q ->
  exists m', ibuf_unpoison_unallocated m b = Ok m' /\ ibuf_asan_inv m' cache b rest others q /\ opened m' b /\
    only_poison m m' rest others.
Proof.
  intros Hi. unfold ibuf_unpoison_unallocated. destruct (inv_slab _ _ _ _ _ _ Hi) as [(H1 & H2 & H3 & H4)|(c & Hm & Hp & _)].
  { rewrite H3, H4. exists m. split_and!; try done. intros x. lia. }
  pose proof Hp as (Hb & He & H1 & H2 & _).
  destruct (unpoison_own m cache c rest others (wpos b) (buf_end b - wpos b) Hm) as (m' & -> & HM & Hm' & HS & Hx & Hs); [lia..|].
  exists m'. split; [done|]. split; [|split; [|done]].
  - apply (inv_poison m m' cache c); [done..|]. intros x _. apply Hs.
  - intros x Hr. apply Hx. lia.
Qed.

Lemma shut_spec m cache b rest others q : ibuf_asan_inv m cache b rest others q ->
  exists m', ibuf_poison_consumed m b = Ok m' /\ ibuf_asan_inv m' cache b rest others q /\
    (sealed m b -> sealed m' b) /\ (rpos b mod 8 = 0 -> shut m' b) /\ only_poison m m' rest others.
Proof.
  intros Hi. unfold ibuf_poison_consumed. destruct (inv_slab _ _ _ _ _ _ Hi) as [(H1 & H2 & H3 & H4)|(c & Hm & Hp & _)].
  { rewrite H1, H2. exists m. split_and!; try done. intros _ x. lia. }
  pose proof Hp as (Hb & He & H1 & H2 & _).
  destruct (poison_own m cache c rest others (buf b) (rpos b - buf b) Hm) as (m' & -> & HM & Hm' & HS & Hmono & Hs & Hx); [lia..|].
  exists m'. split; [done|]. split_and!; [| | |done].
  - apply (inv_poison m m' cache c); [done..|]. intros x Hr [?|?]%Hs; [done|lia].
  - intros Hsl x Hr. by apply Hmono, Hsl.
  - intros H8 x Hr. apply Hx; [|lia]. by replace (buf b + (rpos b - buf b)) with (rpos b) by lia.
Qed.

(** *** Reserving and allocating *)

(** The largest request that reserving [n] bytes can make. *)
Definition enough_asan (b : ibuf) (n : Z) : Prop :=
  0 <= n /\ fits_asan (2 * Z.max (ibuf_capacity b) (wpos b - rpos b + n)).

(** The data moves to the beginning of its slab, which is open then. *)
Lemma defragment m cache c b rest others q : ibuf_asan_inv m cache b rest others q -> cache_inv m cache (c :: rest) others ->
  placed_asan m b [c] -> (forall x, buf b <= x < buf_end b -> rt_poisoned (run m) x = false) ->
  let used := wpos b - rpos b in
  let b' := Ibuf (buf b) (buf b) (buf b + used) (buf_end b) (start_capacity b) in
  exists m', memmove_asan m (buf b) (rpos b) used = Ok m' /\ ibuf_asan_inv m' cache b' rest others q /\
    opened m' b' /\ same_on m m' (rest ++ others).
Proof.
  intros Hi Hm Hp Hx used b'. pose proof Hp as (Hb & He & H1 & H2 & H3 & H4 & _). pose proof Hi as [Hs Ht _ Hd].
  destruct (cache_chunk _ _ _ _ c Hm ltac:(left)) as (Kc & Lc & _).
  pose proof (payload_bounds c Lc). pose proof (l_after c Lc). pose proof (l_hsize c Lc).
  assert (Hmv : exists m', memmove_asan m (buf b) (rpos b) used = Ok m' /\ run m' = run m /\
    cache_inv m' cache (c :: rest) others /\ same_on m m' (rest ++ others) /\ load (bytes m') (buf b) used = q).
  { unfold memmove_asan, copy_checked. destruct (Z.eqb_spec used 0) as [E0|E0].
    { exists m. rewrite <- Hd. fold used. rewrite E0. done. }
    rewrite !(allocated_chunk m c) by (done || unfold ck_alloc in *; lia). rewrite !addressable_intro by (intros x Hr; apply Hx; lia).
    cbn [andb of_option mbind result_bind]. eexists. split; [done|].
    destruct (write_own m cache c rest others _ _ _ Hm (memmove_outside (bytes m) (buf b) (rpos b) used)) as [Hm' HS]; [lia|lia|].
    split_and!; try done. cbn [set_bytes bytes]. by rewrite load_memmove. }
  destruct Hmv as (m' & E & Er & Hm' & HS & Hl). exists m'. split; [done|]. split; [split; cbn [b' start_capacity rpos wpos]; try done|].
  - exists [c]. split; [done|]. split_and!; cbn [b' rpos wpos buf buf_end]; (done || lia || idtac).
    intros x Hr. rewrite Er. apply Hx. lia.
  - by replace (buf b + used - buf b) with used by lia.
  - split; [|done]. intros x Hr. cbn [b' wpos buf_end] in Hr. rewrite Er. apply Hx. lia.
Qed.

Lemma reserve_slow_asan_spec m cache b rest others q n : ibuf_asan_inv m cache b rest others q -> enough_asan b n ->
  buf_end b < wpos b + n ->
  ibuf_reserve_slow_asan sp self m cache b n = Exit \/
  exists m' cache' b', ibuf_reserve_slow_asan sp self m cache b n = Ok (wpos b', m', cache', b') /\
    ibuf_asan_inv m' cache' b' rest others q /\ opened m' b' /\ same_on m m' (rest ++ others) /\
    0 < wpos b' /\ wpos b' + n <= buf_end b'.
Proof.
  intros Hi (Hn & Hfit) Hlt. pose proof Hfit as (_ & B & HB1 & _ & HB3). destruct (used_asan_eq _ _ _ _ _ _ Hi) as [Eu Hlen].
  pose proof (inv_order _ _ _ _ _ _ Hi) as [Ho1 Ho2]. pose proof (ia_start _ _ _ _ _ _ Hi) as [Hs1 Hs2].
  pose proof page_pos as H2j. unfold ibuf_capacity in *.
  unfold ibuf_reserve_slow_asan. rewrite Z.gtb_ltb, (proj2 (Z.ltb_lt _ _)) by lia. rewrite Eu. cbn [of_option mbind result_bind].
  set (used := wpos b - rpos b) in *. unfold ibuf_capacity. rewrite !u64_small by lia.
  destruct (Z.leb_spec (n + used) (buf_end b - buf b)) as [Hle|Hgt].
  - right. destruct (inv_slab _ _ _ _ _ _ Hi) as [(? & ? & ? & ?)|(c & Hm & Hp & _)]; [lia|].
    pose proof Hp as (Hb & He & H1 & H2 & _).
    destruct (cache_chunk _ _ _ _ c Hm ltac:(left)) as (_ & Lc & _). pose proof (payload_bounds c Lc). pose proof (l_hsize c Lc).
    destruct (unpoison_own m cache c rest others (buf b) (rpos b - buf b) Hm) as (m1 & E1 & HM1 & Hm1 & HS1 & Hx1 & Hs1'); [lia..|].
    unfold ibuf_unpoison_consumed. rewrite E1. cbn [mbind result_bind].
    destruct (unpoison_own m1 cache c rest others (wpos b) (buf_end b - wpos b) Hm1) as (m2 & E2 & HM2 & Hm2 & HS2 & Hx2 & Hs2'); [lia..|].
    unfold ibuf_unpoison_unallocated. rewrite E2. cbn [mbind result_bind].
    assert (Hdown : forall x, rt_poisoned (run m2) x = true -> rt_poisoned (run m) x = true) by auto.
    assert (Hp2 : placed_asan m2 b [c]) by (by apply (placed_poison m); auto).
    assert (Hi2 : ibuf_asan_inv m2 cache b rest others q) by (apply (inv_poison m m2 cache c); auto; congruence).
    destruct (defragment m2 cache c b rest others q Hi2 Hm2 Hp2) as (m3 & E3 & Hi3 & Ho3 & HS3).
    { intros x Hr. apply not_true_is_false. intros Hx3. destruct (decide (wpos b <= x)); [by rewrite Hx2 in Hx3 by lia|].
      destruct (decide (rpos b <= x)); [|apply Hs2' in Hx3; by rewrite Hx1 in Hx3 by lia].
      apply Hdown in Hx3. by rewrite (data_open _ _ _ _ _ _ x Hi) in Hx3 by lia. }
    fold used in E3. rewrite E3. cbn [mbind result_bind]. do 3 eexists. split; [done|].
    split_and!; [exact Hi3|exact Ho3| |cbn [wpos]; fold used; lia|cbn [wpos buf_end]; fold used; lia].
    eapply same_on_trans; [exact HS1|eapply same_on_trans; [exact HS2|exact HS3]].
  - set (cap := if (buf_end b - buf b) * 2 <? start_capacity b then start_capacity b else (buf_end b - buf b) * 2).
    assert (Hcap : 1 <= cap /\ fits_asan cap).
    { unfold cap. destruct (Z.ltb_spec ((buf_end b - buf b) * 2) (start_capacity b)); [done|].
      split; [lia|]. apply (fits_asan_le _ _ Hfit). lia. }
    destruct Hcap as [Hc1 Hc2]. pose proof Hc2 as (_ & B' & HB1' & _ & HB3').
    destruct (grow_total cap (used + n)) as (r & Er & Hr1 & Hr2 & Hr3); [lia..|]. rewrite Er. cbn [of_option mbind result_bind].
    assert (Hfr : fits_asan r) by (destruct Hr3 as [->|?]; [done|apply (fits_asan_le _ _ Hfit); lia]).
    destruct (move_asan m cache b rest others q r Hi Hfr ltac:(lia))
      as [-> |(slab & m1 & c1 & m2 & m3 & c3 & cp & -> & En & E2 & E3 & E4 & Hcp & HS & Hi' & Ho & Hpos)]; [by left|right].
    cbn [mbind result_bind]. rewrite En. fold used in E2. rewrite E2. cbn [mbind result_bind]. rewrite E3. cbn [mbind result_bind].
    rewrite E4. cbn [mbind result_bind]. do 3 eexists. split; [done|]. split_and!; [exact Hi'|exact Ho|done|cbn [wpos]; lia|cbn [wpos buf_end]; lia].
Qed.

(** Both kinds of reservation; the pointer is NULL only for nothing in an empty
    buffer. *)
Lemma reserve_asan_spec m cache b rest others q n : ibuf_asan_inv m cache b rest others q -> enough_asan b n ->
  ibuf_reserve_asan sp self m cache b n = Exit \/
  exists m' cache' b', ibuf_reserve_asan sp self m cache b n = Ok (wpos b', m', cache', b') /\
    ibuf_asan_inv m' cache' b' rest others q /\ opened m' b' /\ same_on m m' (rest ++ others) /\
    wpos b' + n <= buf_end b' /\ (0 < wpos b' \/ n = 0).
Proof.
  intros Hi Hn. unfold ibuf_reserve_asan. destruct (Z.leb_spec (wpos b + n) (buf_end b)) as [Hle|Hgt].
  - destruct (open_spec _ _ _ _ _ _ Hi) as (m' & -> & Hi' & Ho & _ & HS). right. exists m', cache, b. split_and!; try done.
    destruct (inv_slab _ _ _ _ _ _ Hi) as [(? & ? & ? & ?)|(c & Hm & Hp & _)]; [right; destruct Hn; lia|left].
    destruct (cache_chunk _ _ _ _ c Hm ltac:(left)) as (_ & Lc & _). pose proof (payload_bounds c Lc). pose proof (l_hsize c Lc).
    destruct Hp as (? & ? & ? & _). lia.
  - destruct (reserve_slow_asan_spec m cache b rest others q n Hi Hn Hgt) as [->|(m' & c' & b' & -> & H1 & H2 & H3 & H4 & H5)]; [by left|right].
    exists m', c', b'. split_and!; try done. by left.
Qed.

Lemma advance_spec p m cache b rest others q n : ibuf_asan_inv m cache b rest others q -> opened m b ->
  0 <= n -> wpos b + n <= buf_end b ->
  exists m', ibuf_advance p m cache b n = Ok (p, m', cache, add_wpos b n) /\
    ibuf_asan_inv m' cache (add_wpos b n) rest others (q ++ load (bytes m) (wpos b) n) /\ sealed m' (add_wpos b n) /\
    same_on m m' (rest ++ others).
Proof.
  intros Hi Ho Hn Hle. pose proof (inv_order _ _ _ _ _ _ Hi) as [Ho1 Ho2].
  assert (Hi' : ibuf_asan_inv m cache (add_wpos b n) rest others (q ++ load (bytes m) (wpos b) n)).
  { rewrite <- (ia_data _ _ _ _ _ _ Hi). replace (wpos b) with (rpos b + (wpos b - rpos b)) at 2 by lia.
    rewrite <- load_app by lia. replace (wpos b - rpos b + n) with (wpos b + n - rpos b) by lia.
    apply (with_ends m cache b rest others q); [done|lia|lia|]. intros x Hx.
    destruct (decide (x < wpos b)); [by apply (data_open _ _ _ _ _ _ x Hi); lia|apply Ho; lia]. }
  destruct (seal_spec _ _ _ _ _ _ Hi') as (m' & E & Hi'' & Hs & HM & HS). exists m'. unfold ibuf_advance. rewrite E. done.
Qed.

(** The client writes what it has allocated. *)
Lemma client_write m cache b rest others q g l : ibuf_asan_inv m cache b rest others (q ++ g) -> sealed m b ->
  length g = length l -> let p := wpos b - Z.of_nat (length l) in 0 < p ->
  exists m', write_checked m p l = Ok m' /\ ibuf_asan_inv m' cache b rest others (q ++ l) /\ sealed m' b /\
    same_on m m' (rest ++ others).
Proof.
  intros Hi Hsl Hg p Hp0. pose proof (inv_order _ _ _ _ _ _ Hi) as [Ho1 Ho2]. destruct (used_asan_eq _ _ _ _ _ _ Hi) as [_ Hlen].
  rewrite length_app in Hlen. destruct (inv_slab _ _ _ _ _ _ Hi) as [(? & ? & ? & ?)|(c & Hm & Hp & _)]; [lia|].
  pose proof Hp as (Hb & He & _). destruct (cache_chunk _ _ _ _ c Hm ltac:(left)) as (Kc & Lc & _).
  pose proof (payload_bounds c Lc). pose proof (l_after c Lc). pose proof (l_hsize c Lc).
  unfold write_checked, write_raw. rewrite addressable_intro by (intros x Hx; apply (data_open _ _ _ _ _ _ x Hi); lia).
  rewrite (allocated_chunk m c) by (done || unfold ck_alloc in *; lia). eexists. split; [done|].
  destruct (write_own m cache c rest others _ p _ Hm (store_outside (bytes m) p l)) as [Hm' HS]; [lia|lia|].
  split_and!; [|done|done]. destruct Hi as [I1 I2 _ I4]. split; [done|done|by exists [c]|]. cbn [set_bytes bytes].
  assert (Hw : wpos b - rpos b = Z.of_nat (length q) + Z.of_nat (length l)) by lia.
  assert (Hq : rpos b + Z.of_nat (length q) = p) by lia. rewrite Hw in I4 |- *. rewrite load_app, Hq in I4 |- * by lia.
  apply app_inj_1 in I4 as [Eq _]; [|rewrite load_length; lia]. f_equal; [|apply load_store].
  etransitivity; [|exact Eq]. eapply load_same; [apply store_outside|lia].
Qed.

Lemma alloc_asan_spec m cache b rest others q n : ibuf_asan_inv m cache b rest others q -> enough_asan b n ->
  ibuf_alloc_asan sp self m cache b n = Exit \/
  exists m' cache' b' g, ibuf_alloc_asan sp self m cache b n = Ok (wpos b' - n, m', cache', b') /\
    ibuf_asan_inv m' cache' b' rest others (q ++ g) /\ Z.of_nat (length g) = n /\ sealed m' b' /\
    same_on m m' (rest ++ others) /\ (0 < wpos b' - n \/ n = 0).
Proof.
  intros Hi Hn. unfold ibuf_alloc_asan.
  assert (Hadv : forall m1 c1 b1, ibuf_asan_inv m1 c1 b1 rest others q -> opened m1 b1 -> same_on m m1 (rest ++ others) ->
    wpos b1 + n <= buf_end b1 -> 0 < wpos b1 \/ n = 0 ->
    exists m' cache' b' g, ibuf_advance (wpos b1) m1 c1 b1 n = Ok (wpos b' - n, m', cache', b') /\
      ibuf_asan_inv m' cache' b' rest others (q ++ g) /\ Z.of_nat (length g) = n /\ sealed m' b' /\
      same_on m m' (rest ++ others) /\ (0 < wpos b' - n \/ n = 0)).
  { intros m1 c1 b1 Hi1 Ho1 HS1 Hle Hp.
    destruct (advance_spec (wpos b1) m1 c1 b1 rest others q n Hi1 Ho1 (proj1 Hn) Hle) as (m' & E & Hi' & Hs & HS).
    exists m', c1, (add_wpos b1 n). eexists. rewrite E. cbn [wpos add_wpos]. replace (wpos b1 + n - n) with (wpos b1) by lia.
    split_and!; [done|exact Hi'|rewrite load_length; destruct Hn; lia|done|by eapply same_on_trans|done]. }
  destruct (Z.leb_spec (wpos b + n) (buf_end b)) as [Hle|Hgt].
  - right. destruct (open_spec _ _ _ _ _ _ Hi) as (m1 & -> & Hi1 & Ho & _ & HS). cbn [mbind result_bind].
    apply Hadv; try done. destruct (inv_slab _ _ _ _ _ _ Hi) as [(? & ? & ? & ?)|(c & Hm & Hp & _)]; [right; destruct Hn; lia|left].
    destruct (cache_chunk _ _ _ _ c Hm ltac:(left)) as (_ & Lc & _). pose proof (payload_bounds c Lc). pose proof (l_hsize c Lc).
    destruct Hp as (? & ? & ? & _). lia.
  - destruct (reserve_slow_asan_spec m cache b rest others q n Hi Hn Hgt) as [->|(m1 & c1 & b1 & -> & H1 & H2 & H3 & H4 & H5)]; [by left|right].
    cbn [mbind result_bind]. rewrite (proj2 (Z.eqb_neq (wpos b1) NULL)) by lia. apply Hadv; auto.
Qed.

Lemma exec_write_asan m cache b rest others q l : ibuf_asan_inv m cache b rest others q -> enough_asan b (Z.of_nat (length l)) ->
  exec_asan sp self (m, cache, b) (Write l) = Exit \/
  exists p m' cache' b', exec_asan sp self (m, cache, b) (Write l) = Ok (p, (m', cache', b')) /\
    ibuf_asan_inv m' cache' b' rest others (q ++ l) /\ sealed m' b' /\ same_on m m' (rest ++ others).
Proof.
  intros Hi Hn. cbn [exec_asan].
  destruct (alloc_asan_spec m cache b rest others q _ Hi Hn) as [->|(m1 & c1 & b1 & g & -> & Hi1 & Hg & Hs1 & HS1 & Hp)]; [by left|right].
  cbn [mbind result_bind]. destruct (Z.eqb_spec (wpos b1 - Z.of_nat (length l)) NULL) as [E|E].
  - destruct Hp as [Hp|Hp]; [lia|]. destruct l; [|done]. destruct g; [|done]. do 4 eexists. split; [done|]. done.
  - destruct (client_write m1 c1 b1 rest others q g l Hi1 Hs1 ltac:(lia)) as (m2 & -> & Hi2 & Hs2 & HS2).
    { destruct Hp as [?|Hz]; [done|]. pose proof (inv_order _ _ _ _ _ _ Hi1) as [Ho1 Ho2].
      destruct (inv_slab _ _ _ _ _ _ Hi1) as [(? & ? & ? & ?)|(c & Hm & Hpl & _)]; [lia|].
      destruct (cache_chunk _ _ _ _ c Hm ltac:(left)) as (_ & Lc & _). pose proof (payload_bounds c Lc). pose proof (l_hsize c Lc).
      destruct Hpl as (? & _). lia. }
    cbn [mbind result_bind]. do 4 eexists. split; [done|]. split_and!; [done|done|by eapply same_on_trans].
Qed.

(** *** The other operations *)

Lemma consume_asan_spec m cache b rest others q n : ibuf_asan_inv m cache b rest others q -> 0 <= n <= Z.of_nat (length q) ->
  exists m' b', ibuf_consume_asan m b n = Ok (m', b') /\ ibuf_asan_inv m' cache b' rest others (drop (Z.to_nat n) q) /\
    (sealed m b -> sealed m' b') /\ (rpos b' mod 8 = 0 -> shut m' b') /\ same_on m m' (rest ++ others).
Proof.
  intros Hi Hn. destruct (used_asan_eq _ _ _ _ _ _ Hi) as [Eu Hlen]. pose proof (inv_order _ _ _ _ _ _ Hi) as [Ho1 Ho2].
  unfold ibuf_consume_asan. rewrite Eu. cbn [of_option mbind result_bind]. rewrite (proj2 (Z.leb_le _ _)) by lia.
  set (b' := Ibuf (buf b) (rpos b + n) (wpos b) (buf_end b) (start_capacity b)).
  assert (Hi' : ibuf_asan_inv m cache b' rest others (drop (Z.to_nat n) q)).
  { rewrite <- (ia_data _ _ _ _ _ _ Hi), <- load_drop by lia. replace (wpos b - rpos b - n) with (wpos b - (rpos b + n)) by lia.
    apply (with_ends m cache b rest others q _ _ Hi); [lia|lia|]. intros x Hx. apply (data_open _ _ _ _ _ _ x Hi). lia. }
  destruct (shut_spec _ _ _ _ _ _ Hi') as (m' & -> & Hi'' & Hs & Hsh & _ & HS). by exists m', b'.
Qed.

Lemma discard_asan_spec m cache b rest others q n : ibuf_asan_inv m cache b rest others q -> 0 <= n <= Z.of_nat (length q) ->
  exists m' b', ibuf_discard_asan m b n = Ok (m', b') /\
    ibuf_asan_inv m' cache b' rest others (take (length q - Z.to_nat n) q) /\ sealed m' b' /\ same_on m m' (rest ++ others).
Proof.
  intros Hi Hn. destruct (used_asan_eq _ _ _ _ _ _ Hi) as [Eu Hlen]. pose proof (inv_order _ _ _ _ _ _ Hi) as [Ho1 Ho2].
  unfold ibuf_discard_asan. rewrite Eu. cbn [of_option mbind result_bind]. rewrite (proj2 (Z.leb_le _ _)) by lia.
  assert (Hi' : ibuf_asan_inv m cache (add_wpos b (- n)) rest others (take (length q - Z.to_nat n) q)).
  { rewrite <- (ia_data _ _ _ _ _ _ Hi) at 2. replace (length q - Z.to_nat n)%nat with (Z.to_nat (wpos b - rpos b - n)) by lia.
    rewrite <- load_take by lia. replace (wpos b - rpos b - n) with (wpos b + - n - rpos b) by lia.
    apply (with_ends m cache b rest others q _ _ Hi); [lia|lia|]. intros x Hx. apply (data_open _ _ _ _ _ _ x Hi). lia. }
  destruct (seal_spec _ _ _ _ _ _ Hi') as (m' & -> & Hi'' & Hs & _ & HS). by exists m', (add_wpos b (- n)).
Qed.

Lemma reset_asan_spec m cache b rest others q : ibuf_asan_inv m cache b rest others q ->
  exists m', ibuf_reset_asan m b = Ok (m', ibuf_reset b) /\ ibuf_asan_inv m' cache (ibuf_reset b) rest others [] /\
    sealed m' (ibuf_reset b) /\ same_on m m' (rest ++ others).
Proof.
  intros Hi. pose proof (inv_order _ _ _ _ _ _ Hi) as [Ho1 Ho2].
  assert (Hi' : ibuf_asan_inv m cache (ibuf_reset b) rest others []).
  { rewrite <- (load_nil (bytes m) (buf b)). replace 0 with (buf b - buf b) by lia.
    apply (with_ends m cache b rest others q _ _ Hi); lia. }
  destruct (seal_spec _ _ _ _ _ _ Hi') as (m' & E & Hi'' & Hs & _ & HS). exists m'. unfold ibuf_reset_asan. by rewrite E.
Qed.

(** The buffer gives its slab back and starts again. *)
Lemma release_spec m cache b rest others q : ibuf_asan_inv m cache b rest others q ->
  exists m' cache', put_buf_asan self m cache b = Ok (m', cache') /\ cache_inv m' cache' rest others /\
    ibuf_asan_inv m' cache' (Ibuf NULL NULL NULL NULL (start_capacity b)) rest others [] /\ same_on m m' (rest ++ others).
Proof.
  intros [Hs Ht (own & Hm & Hp) Hd]. destruct (put_own m cache [] own rest others b Hm Hp Ht) as (m' & c' & -> & Hm' & HS & Ht').
  exists m', c'. split_and!; try done. split; try done. by exists [].
Qed.

Lemma shrink_asan_spec m cache b rest others q : ibuf_asan_inv m cache b rest others q ->
  ibuf_shrink_asan sp self m cache b = Exit \/
  exists m' cache' b', ibuf_shrink_asan sp self m cache b = Ok (m', cache', b') /\
    ibuf_asan_inv m' cache' b' rest others q /\ (sealed m b -> sealed m' b') /\ same_on m m' (rest ++ others).
Proof.
  intros Hi. destruct (used_asan_eq _ _ _ _ _ _ Hi) as [Eu Hlen]. pose proof (inv_order _ _ _ _ _ _ Hi) as [Ho1 Ho2].
  unfold ibuf_shrink_asan. rewrite Eu. cbn [of_option mbind result_bind]. destruct (Z.eqb_spec (wpos b - rpos b) 0) as [Ez|Ez].
  { right. destruct (release_spec _ _ _ _ _ _ Hi) as (m' & c' & -> & _ & Hi' & HS). cbn [mbind result_bind].
    do 3 eexists. split; [done|]. split_and!; [|intros _ x Hx; cbn [wpos buf_end] in Hx; lia|done].
    assert (q = []) as -> by (destruct q; [done|cbn [length] in Hlen; lia]). exact Hi'. }
  destruct (inv_slab _ _ _ _ _ _ Hi) as [(? & ? & ? & ?)|(c & Hm & Hp & _)]; [lia|].
  pose proof Hp as (Hb & He & H1 & H2 & H3 & H4 & _). pose proof (ia_start _ _ _ _ _ _ Hi) as [Hs1 Hs2]. pose proof page_pos as H2j.
  unfold ibuf_capacity. set (nc := if start_capacity b <? wpos b - rpos b then wpos b - rpos b else start_capacity b).
  assert (Hnc : fits_asan nc /\ wpos b - rpos b <= nc).
  { unfold nc. destruct (Z.ltb_spec (start_capacity b) (wpos b - rpos b)); [|split; [done|lia]].
    split; [|lia]. split; [lia|]. exists (ck_size c). split_and!; (done || lia). }
  destruct Hnc as [Hf Hle]. pose proof Hf as (H0 & B & HB1 & HB2 & HB3).
  destruct (slab_real_size_asan_spec sp j (buf_end b - buf b) Hpage ltac:(lia) ltac:(lia) ltac:(lia)) as (r1 & -> & _).
  destruct (slab_real_size_asan_spec sp j nc Hpage ltac:(lia) H0 ltac:(lia)) as (r2 & -> & _). cbn [mbind result_bind].
  destruct (r1 =? r2); [right; do 3 eexists; split; [done|]; by split_and!|].
  destruct (move_asan m cache b rest others q nc Hi Hf Hle)
    as [-> |(slab & m1 & c1 & m2 & m3 & c3 & cp & -> & En & E2 & E3 & E4 & Hcp & HS & Hi' & Ho & Hpos)]; [by left|right].
  cbn [mbind result_bind]. rewrite En, E2. cbn [mbind result_bind]. rewrite E3. cbn [mbind result_bind]. rewrite E4. cbn [mbind result_bind].
  destruct (seal_spec _ _ _ _ _ _ Hi') as (m4 & -> & Hi4 & Hs4 & _ & HS4). cbn [mbind result_bind].
  do 3 eexists. split; [done|]. split_and!; [done|done|by eapply same_on_trans].
Qed.

Definition room_asan (b : ibuf) (o : op) : Prop :=
  match o with
  | Write l => enough_asan b (Z.of_nat (length l))
  | Reserve n => enough_asan b n
  | _ => True
  end.

(** What an operation leaves poisoned behind the data and before it. *)
Definition poison_after (m : machine) (b : ibuf) (o : op) (p : Z) (m' : machine) (b' : ibuf) : Prop :=
  match o with
  | Write _ | Discard _ | Truncate _ | Reset => sealed m' b'
  | Reserve n => p = wpos b' /\ wpos b' + n <= buf_end b' /\ opened m' b'
  | Consume _ | ConsumeBefore _ => (sealed m b -> sealed m' b') /\ (rpos b' mod 8 = 0 -> shut m' b')
  | Shrink => sealed m b -> sealed m' b'
  | Reinit => buf b' = NULL
  end.

(** C34. The input buffer of the ASAN build is the queue of bytes of the regular
    one: an operation the queue allows ends the process for want of memory or
    returns, never with a failed assertion, a report of the sanitizer or an
    access to memory that is not its own, not even when the client writes what
    it has allocated; the data is never poisoned, and the chunks of others keep
    their bytes and their poison.  After an allocation, a discard or a reset
    every byte behind the data is poisoned up to the end of the slab, after a
    reservation none is, and what was consumed is poisoned when it ends at a
    multiple of 8. *)
Theorem ibuf_asan_refines_queue m cache b rest others q o : ibuf_asan_inv m cache b rest others q -> room_asan b o ->
  (exists q', queue_step b o q q') ->
  exec_asan sp self (m, cache, b) o = Exit \/
  exists p m' cache' b' q', exec_asan sp self (m, cache, b) o = Ok (p, (m', cache', b')) /\
    queue_step b o q q' /\ ibuf_asan_inv m' cache' b' rest others q' /\ same_on m m' (rest ++ others) /\
    (forall l, o = Write l -> q' = q ++ l) /\ poison_after m b o p m' b'.
Proof.
  intros Hi Hr [q0 Hq]. destruct Hq as [l q|l q|n q|n q Hn|n q Hn|n q Hn|n q Hn|q|q|q].
  1,2: destruct (exec_write_asan m cache b rest others q l Hi Hr) as [->|(p & m' & c' & b' & E & Hi' & Hs & HS)]; [by left|right];
    exists p, m', c', b', (q ++ l); split_and!; try done; [apply q_write|by intros ? [= ->]].
  - destruct (reserve_asan_spec m cache b rest others q n Hi Hr) as [E|(m' & c' & b' & E & Hi' & Ho & HS & Hle & _)];
      cbn [exec_asan]; rewrite E; [by left|right]. exists (wpos b'), m', c', b', q. split_and!; try done. constructor.
  - destruct (consume_asan_spec m cache b rest others q n Hi Hn) as (m' & b' & E & Hi' & H1 & H2 & HS). right.
    cbn [exec_asan]. rewrite E. do 5 eexists. split; [done|]. split_and!; try done. by constructor.
  - destruct (consume_asan_spec m cache b rest others q n Hi Hn) as (m' & b' & E & Hi' & H1 & H2 & HS). right.
    destruct (used_asan_eq _ _ _ _ _ _ Hi) as [_ Hlen].
    cbn [exec_asan]. unfold ibuf_consume_before_asan. rewrite Z.geb_leb, !(proj2 (Z.leb_le _ _)) by lia.
    replace (rpos b + n - rpos b) with n by lia. rewrite E. do 5 eexists. split; [done|]. split_and!; try done. by constructor.
  - destruct (discard_asan_spec m cache b rest others q n Hi Hn) as (m' & b' & E & Hi' & Hs & HS). right.
    cbn [exec_asan]. rewrite E. do 5 eexists. split; [done|]. split_and!; try done. by constructor.
  - destruct (used_asan_eq _ _ _ _ _ _ Hi) as [Eu Hlen]. right.
    destruct (discard_asan_spec m cache b rest others q (Z.of_nat (length q) - n) Hi ltac:(lia)) as (m' & b' & E & Hi' & Hs & HS).
    cbn [exec_asan]. unfold ibuf_truncate_asan. rewrite Eu. cbn [of_option mbind result_bind]. rewrite Hlen, (proj2 (Z.leb_le _ _)), E by lia.
    do 5 eexists. split; [done|]. split_and!; [by apply q_truncate| |done|done|done].
    by replace (length q - Z.to_nat (Z.of_nat (length q) - n))%nat with (Z.to_nat n) in Hi' by lia.
  - destruct (shrink_asan_spec m cache b rest others q Hi) as [E|(m' & c' & b' & E & Hi' & Hs & HS)]; cbn [exec_asan]; rewrite E; [by left|right].
    do 5 eexists. split; [done|]. split_and!; try done. constructor.
  - destruct (reset_asan_spec m cache b rest others q Hi) as (m' & E & Hi' & Hs & HS). right.
    cbn [exec_asan]. rewrite E. do 5 eexists. split; [done|]. split_and!; try done. constructor.
  - destruct (release_spec m cache b rest others q Hi) as (m' & c' & E & _ & Hi' & HS). right.
    cbn [exec_asan]. unfold ibuf_reinit_asan, ibuf_destroy_asan. rewrite E. do 5 eexists. split; [done|].
    split_and!; try done. constructor.
Qed.
End Inv.

(** ** A concrete buffer

    A cache with a quota of 16 MiB; the first write takes a page. *)
Lemma ibuf_asan_refines_queue_witness : exists cache m p m' cache' b' q',
  slab_cache_create_asan toy_start demo_source 7 = Ok (cache, m) /\
  exec_asan 4096 7 (m, cache, ibuf_create 16) (Write [7; 8; 9]) = Ok (p, (m', cache', b')) /\
  Ok (p, load (bytes m') (rpos b') 3, rt_poisoned (run m') (p + 3)) = Ok (4152, [7; 8; 9], true) /\
  ibuf_asan_inv (rt_wf:=toy_wf) 7 12 m' cache' b' [] [] q' /\ sealed m' b'.
Proof.
  pose proof (slab_cache_create_asan_spec toy_start [] 16384 2048 7 toy_start_inv ltac:(lia) ltac:(lia)) as Hc.
  change (quota_total (Quota (enc (16384, 2048))) >=? QUOTA_USE_MIN) with true in Hc. cbn iota in Hc.
  destruct Hc as (cache & m & E & Hm & _ & Ht & _).
  assert (Hf : forall n, 0 <= n <= 1000 -> fits_asan 12 n).
  { intros n Hn. apply fits_asan_intro; [lia..|]. change (2 ^ 12) with 4096. lia. }
  assert (Hi : ibuf_asan_inv (rt_wf:=toy_wf) 7 12 m cache (ibuf_create 16) [] [] []).
  { split; [split; [done|apply Hf; vm_compute; split; discriminate]|done| |done]. by exists []. }
  destruct (ibuf_asan_refines_queue 4096 7 12 ltac:(reflexivity) ltac:(lia) m cache (ibuf_create 16) [] [] [] (Write [7; 8; 9]) Hi)
    as [Ex|(p & m' & c' & b' & q' & Ew & _ & Hi' & _ & _ & Hs)].
  - split; [by vm_compute|apply Hf; vm_compute; split; discriminate].
  - exists [7; 8; 9]. apply (q_write _ [7; 8; 9] []).
  - exfalso. assert (Ec : match slab_cache_create_asan toy_start demo_source 7 with
      | Ok (cache, m) => match exec_asan 4096 7 (m, cache, ibuf_create 16) (Write [7; 8; 9]) with Ok (p, _) => Ok p | _ => Abort end
      | _ => Abort end = Ok 4152) by reflexivity.
    unfold demo_source in Ec. rewrite E, Ex in Ec. discriminate Ec.
  - assert (Ec : match slab_cache_create_asan toy_start demo_source 7 with
      | Ok (cache, m) => match exec_asan 4096 7 (m, cache, ibuf_create 16) (Write [7; 8; 9]) with
          | Ok (p, (m, _, b)) => Ok (p, load (bytes m) (rpos b) 3, rt_poisoned (run m) (p + 3)) | _ => Abort end
      | _ => Abort end = Ok (4152, [7; 8; 9], true)) by reflexivity.
    unfold demo_source in Ec. rewrite E, Ew in Ec.
    exists cache, m, p, m', c', b', q'.
    split; [exact E|]. split; [exact Ew|]. split; [exact Ec|]. split; [exact Hi'|exact Hs].
Defined.
